(* ===== verification/_CoqProject ===== *)
-Q . S2P
Prelude.v
SplitText.v
CNum.v
DoubleBounds.v
OrderedMap.v
PriorityQueue.v
QueueSpec.v
HitQueue.v
Env.v
ManualBid.v
AuctionLog.v
AuctionStats.v
RealtimeBid.v
Knapsack.v
UniformBid.v
GeneticBid.v
PropIdTable.v
PropValueTable.v
AttrTable.v
Phrases.v
Segments.v
Selector.v
SelectorSelect.v
SelectorScenario.v
Sponsored.v
SponsoredMining.v
SponsoredSearch.v
DnfParser.v
Recommender.v
RecommenderUpdate.v
RecommenderResult.v
Feedback.v
AdIndex.v
AdIndexSpec.v
AdIndexScenario.v
GroupRep.v
GroupMerge.v
GroupCount.v
GroupNumeric.v
GroupRange.v
GroupResize.v
DateGroup.v
GroupMining.v
GroupFilter.v
AttrCounter.v
GroupCounters.v
GroupParam.v
GroupRequest.v
GroupRequestSpec.v
GroupSearch.v
DocIter.v
AndIter.v
AllIter.v
OrIter.v
BoolQuery.v
Scenarios.v
SearchResult.v
OntologyMerge.v
MergeComparator.v
SearchMerger.v
SearchSplit.v
TopKMerge.v
SearchMergerSpec.v
PageTexts.v
DistSearch.v
Sharding.v
ShardingFile.v
MasterMigrate.v
ShardMigrate.v
ShardMigrateSpec.v
ShardRemoveSpec.v
ShardWork.v
ShardChange.v
ScdDispatch.v
ScdDispatchSpec.v
