(* ===== verification/Prelude.v ===== *)
(** * sf1r-ad-delivery: verification development (root file)

    The repository is a search engine that delivers ads.  This library models
    the parts that decide which ads are shown and what they cost, with the
    theorems that make them correct.  Definitions keep the names of the source;
    [PROJECT.json] maps each to its lines.

    ** The program and its parts

    - [AdSponsoredMgr] (ad-manager/sponsored-ad-search) sells places next to a
      query.  Ads have bid phrases; a query selects the ads with a phrase inside
      it ([sponsoredAdSearch]), they compete with quality times bid, and each
      place is charged by the score of the next one.  Mining
      ([miningAdCreatives]) turns texts into phrases; once a day
      [resetDailyLogStatisticalData] computes bids from the statistics of
      [AdAuctionLogMgr] with the strategies of [AdBidStrategy]; prices set by
      hand and budgets are in [AdManualBidInfoMgr].
    - [AdSelector] (ad-manager) ranks other ads by click rate: it keeps the rate
      of every combination of user and ad segments and mixes known and unknown
      ads.  [AdIndexManager] calls it for the result of a search, with the
      prices of the ads, and feeds both managers with the log of clicks.
      [AdRecommender] ranks ads for a user by latent vectors, [DNFParser] reads
      the targeting conditions of an ad.
    - [PropValueTable] (mining-manager/group-manager) gives documents their
      property values, a forest of strings; the selector reads the features of
      an ad from it.
    - The document iterators (search-manager) evaluate boolean queries by moving
      through sorted lists of documents. The best results are kept in bounded
      queues of an external library ([izenelib::util::PriorityQueue]): the ads of
      the selector and of the index ([ScoreSortedHitQueue]), the sponsored ads,
      recommended items, names of attributes. [search-manager/PriorityQueue.h] is
      a class with the same operations, which no file includes at this commit.
    - A collection may be spread over several nodes. The master sends a search to
      all workers, merges what they found ([SearchMerger]) and asks the workers of
      the page for its texts ([IndexSearchService]). Documents are distributed by
      their key ([ShardingStrategy], [BatchScdDispatcher]); adding or removing a
      shard moves the documents of some places of the table ([IndexTaskService]).

    ** Files

    - [Prelude]: this text, tactics, lists, [foldM] (a loop whose body can
      fail), strict weak orders, sorting.  [CNum]: machine integers as [Z] with
      their wrap-around, [double] as the executable binary64 of [SpecFloat].
      [Env]: [boost::lexical_cast] and the clock, as classes with laws.
    - [PriorityQueue] (search-manager/PriorityQueue.h): the heap, cell by cell;
      [QueueSpec]: the interface [PQOps]/[BoundedPQ] that the clients of a
      bounded queue are proved against, and the proof that this heap has it.
      [HitQueue] (HitQueue.h, ScoreDoc.h): scored documents and their comparison.
    - [ManualBid] (AdManualBidInfoMgr), [AuctionLog] and [AuctionStats]
      (AdAuctionLogMgr: updates; statistics), [RealtimeBid], [Knapsack],
      [UniformBid], [GeneticBid] (AdBidStrategy, one strategy each);
      [DoubleBounds]: doubles of bounded size stay bounded under arithmetic.
    - [Phrases], [Sponsored], [SponsoredMining], [SponsoredSearch]
      (AdSponsoredMgr: phrases; state, budgets and edits; mining and bids; the
      auction), [Scenarios]: a concrete day on which the theorems are applied.
    - [PropIdTable], [PropValueTable] (group-manager): the values of documents;
      [OrderedMap]: [std::map]; [GroupRep], [GroupMerge] (GroupRep.cpp: labels;
      numbers and ranges): lists of counts and how those of nodes are merged;
      [GroupCount] (StringGroupCounter, StringGroupLabel), [GroupNumeric],
      [GroupRange] (NumericGroupCounter, NumericRangeGroupCounter: counting;
      the ranges shown), [DateGroup] (the date files): counting documents by
      value, number, range and date. [GroupResize] (GroupRep.cpp: texts of
      numbers, the greatest counts), [GroupFilter] (GroupFilter.cpp: which
      counter sees which document, against the class [GroupCounterOps]),
      [GroupCounters]: the counters of a request, with counters inside, as its
      instances. [SplitText] (split_ustr.cpp): texts of paths and attributes;
      [AttrTable] (AttrTable, AttrLabel, AttrMiningTask), [AttrCounter]
      (AttrCounter, AttrScoreCounter): attributes of documents and their counts;
      [GroupMining] (GroupMiningTask.h): from texts to the tables;
      [GroupParam] (GroupParam.cpp): requests and their checks; [GroupRequest]
      (GroupCounterLabelBuilder.cpp, GroupFilter.cpp, GroupFilterBuilder.cpp):
      the filter made for a request; [GroupRequestSpec]: its theorems, which
      compose all files on groups; [GroupSearch]: a concrete search.
    - [Segments], [Selector], [SelectorSelect] (AdSelector: segment strings;
      state and operations; what [select] returns), [SelectorScenario].
    - [Recommender], [RecommenderUpdate], [RecommenderResult] (AdRecommender:
      state and operations; features and learning; what is recommended).
      [DnfParser] (DNFParser, AdMiningTask::buildDocument).
    - [Feedback] (AdFeedbackMgr::parserFeedbackLog), [AdIndex] (AdIndexManager),
      [AdIndexSpec]: their theorems, [AdIndexScenario]: a log and a search.
      [AdIndex] composes [Selector], [Sponsored] and [Feedback]; the selector
      calls the recommender through the class [AdRec].
    - [DocIter]: the interface of an iterator and its contract; [AndIter],
      [AllIter], [OrIter]: the iterators; [BoolQuery]: queries built of them.

    - [SearchResult] (ResultType.h, DistributeResultType.h): results;
      [OntologyMerge] (ontology_rep.h): merging attributes; [MergeComparator]
      (MergeComparator.cpp): the order of documents; [SearchMerger], [SearchSplit]
      (SearchMerger.cpp): merging results, splitting requests; [TopKMerge],
      [SearchMergerSpec], [PageTexts]: their theorems; [DistSearch]
      (IndexSearchService.cpp, SearchCache.h): a search of the master.
    - [Sharding] (node-manager/sharding/ShardingStrategy.cpp): strategies, as
      instances of the interface [ShardingOps]/[ShardingLaws]; [ShardingFile]: the
      table and its file; [ScdDispatch], [ScdDispatchSpec] (ScdSharder.cpp,
      ScdDispatcher.cpp, splitGetDocsActionItemByWorkerid): documents and requests,
      proved against the interface; [MasterMigrate] (MasterManagerBase.cpp): the
      waits and the announcements of the master; [ShardMigrate] (IndexTaskService.cpp,
      DistributeFileSyncMgr.cpp, IndexWorker::generateMigrateSCD): changing the
      shards; [ShardMigrateSpec], [ShardRemoveSpec], [ShardWork], [ShardChange]:
      its theorems.

    ** State, errors and time

    An object of the program is a record with the fields of the class; an
    operation takes it and returns the new one.  [None] stands for undefined
    behaviour (a read out of range, a loop out of fuel, a [double] outside the
    range of its integer type) or, where a file says so, for an exception; the
    theorems that conclude [Some] say that it does not happen.  An exception
    that the caller sees and survives is a boolean of the result.  Operations
    run under the locks of the source, so each is one step; where a lock is
    missing or does not lock, the finding is recorded.  Hash maps that are only
    looked up are [gmap]s; where the order of iteration matters it is a
    parameter ([HashOrder]) or the sorted list of [std::map].

    ** Groups of theorems

    - The auction: who competes, the order of the places, the cost of each, the
      impressions logged; clicks are charged to the campaign of the ad and to no
      other; mining files every text.
    - Bids: [enumKP] is optimal, [dpKP] is the Bellman recursion, the genetic
      search ends and stays in range whatever the random numbers, the uniform bid
      is two neighbours on the hull around the budget, the realtime bids are the
      least efficiency or the greatest profit.
    - The log: counts per hour and slot, sums over the window of the history, an
      invariant of all reachable states.
    - Selection: which clicked, rated and unrated ads come back, in what order
      and with what scores, and which wait for a rate; the click rates answer every
      known user and ad; segments are read back.
    - Recommendation: features are read back, learning gives vectors to the
      features of the user and the ad only, the items returned are distinct and
      the best. A batch of complete messages is handled message by message; ads
      paid per view and per click are ranked together. Printed targeting
      conditions are parsed back.
    - Property values: paths and ids are inverse, labels are prefixes of paths,
      the walks to the root end, loading restores the table; the list of counts
      shows each value once, and paths can be read off it. Lists of nodes are
      merged by adding; the label printed for a date selects the documents
      counted under it; the ranges shown are disjoint and show the
      documents in them; a counter inside a value counts the documents with it;
      every counter sees the documents that all labels but its own accept.
      Texts of paths, dates and attributes are read back from the tables they
      fill; labels accept the documents with their values; the attributes shown
      are those of the most documents. A request that passes its checks gets a
      filter whose tables are locked, and searching with it selects and counts
      the right documents.
    - Iterators: each refines a sorted list of documents; their compositions
      enumerate the documents of the boolean query and end.
    - The queue: the heap gives the greatest [k] elements, least first.
    - Several nodes: the merged result holds the best documents of all workers and
      every place of the page the texts of its own document. A document is
      requested from the shard that got it, with any strategy; the table survives
      a restart; adding and removing shards moves the fewest places the code
      intends, exactly the documents of these places move; a change that waits or
      fails leaves the table, and with nodes that do their part it succeeds.

    ** Fuel

    The waits for other nodes may never end: they are loops over the list of the
    states in which the master finds ZooKeeper turn by turn ([turns] of [World]),
    and when the list ends the operation is still waiting (the result [None] of
    [Run]); theorems say what holds then, and how many good turns are enough.
    Loops that the source bounds itself are folds.  Fuel is used for: the sift
    loops of the heap (its size is enough), the iterator loops (the length of
    the lists they still have to walk, computed by [work], [queue_fuel] and
    [range_fuel]), the walks from a value to the root (an id is enough, parents
    have smaller ids), the walk over all combinations of segments (their
    number).  Each theorem that concludes a result states how much is enough.

    ** Parameters

    Code outside [src/] is a parameter with its laws and an instance that shows
    they can hold: [lexical_cast], the title tokenizer, [boost::split], the
    queue of the index library, the full-text search, [pow], [rand] and the
    generators, the epsilon of [score_t], the click predictor, the manager of
    segment ids and the store of their strings, [UString], the JSON library and
    the profile server, the iteration order of [boost::unordered_map], the numbers
    made of keys and document ids ([uuidToUint128], [GetWDocId], [IsNewerDocId],
    [roundDown]), the store of the cache, ZooKeeper, the transfer of files, the
    answers of other nodes.

    ** Not modelled

    Loading and saving through the external serialiser and all files but the
    table of shards and the SCD files of the dispatcher; threads,
    locks and scheduling; logging.  Of the parts above: the statistics that
    iterators forward to the ranking, the WAND, phrase and virtual iterators,
    whose term lists are the external index; the queue sorted by property; the
    local search of a worker and the other requests of the search service; the
    transfer of files between nodes.
    Other parts of the repository: remote feeds and profiles (the connections of
    AdFeedbackMgr, AdStreamSubscriber, AdSearchService), query building, indexing, document
    and node management, recovery, configuration: they are glue over external
    libraries, sockets and files.  [PROJECT.json] lists them. *)
From stdpp Require Export base gmap strings list fin_maps option pretty sorting.
From Stdlib Require Export ZArith Lia Permutation.

#[global] Set Default Goal Selector "!".
#[global] Open Scope Z_scope.

(** ** Scope and tactics of the development *)

Declare Scope sf1r_scope.
Delimit Scope sf1r_scope with sf1r.

(** [inv_some] takes apart hypotheses of the shape
    [x ← e; k = Some v], the shape every partial operation of the model has. *)
Ltac inv_some :=
  repeat match goal with
  | H : mbind _ ?e = Some _ |- _ =>
      let E := fresh "E" in
      destruct e eqn:E; [change (mbind ?f (Some ?y)) with (f y) in H; simpl in H|discriminate H]
  | H : Some _ = Some _ |- _ => injection H as H; subst
  | H : None = Some _ |- _ => discriminate H
  | p : (_ * _)%type |- _ => destruct p
  end.

(** Boolean comparisons turned into propositions, in goal and hypotheses. *)
Ltac bool_cases :=
  repeat match goal with
  | H : (_ <? _)%nat = true |- _ => apply Nat.ltb_lt in H
  | H : (_ <? _)%nat = false |- _ => apply Nat.ltb_ge in H
  | H : (_ <=? _)%nat = true |- _ => apply Nat.leb_le in H
  | H : (_ <=? _)%nat = false |- _ => apply Nat.leb_gt in H
  | H : (_ =? _)%nat = true |- _ => apply Nat.eqb_eq in H
  | H : (_ =? _)%nat = false |- _ => apply Nat.eqb_neq in H
  | H : (_ <? _)%Z = true |- _ => apply Z.ltb_lt in H
  | H : (_ <? _)%Z = false |- _ => apply Z.ltb_ge in H
  | H : (_ <=? _)%Z = true |- _ => apply Z.leb_le in H
  | H : (_ <=? _)%Z = false |- _ => apply Z.leb_gt in H
  | H : (_ =? _)%Z = true |- _ => apply Z.eqb_eq in H
  | H : (_ =? _)%Z = false |- _ => apply Z.eqb_neq in H
  | H : (_ && _) = true |- _ => apply andb_true_iff in H as [? ?]
  | H : (_ || _) = false |- _ => apply orb_false_iff in H as [? ?]
  | H : negb _ = true |- _ => apply negb_true_iff in H
  | H : negb _ = false |- _ => apply negb_false_iff in H
  | H : String.eqb _ _ = true |- _ => apply String.eqb_eq in H
  | H : String.eqb _ _ = false |- _ => apply String.eqb_neq in H
  end.

Create HintDb sf1r.
Create Rewrite HintDb sf1r.

(** ** C++ vectors: checked access *)

(** [v[i] = x] with the bounds that [operator[]] leaves unchecked: [None] is
    undefined behaviour. Reading is stdpp's [v !! i]. *)
Definition wr {A} (i : nat) (x : A) (v : list A) : option (list A) :=
  if (i <? length v)%nat then Some (<[i := x]> v) else None.

Lemma wr_Some {A} i (x : A) v :
  (i < length v)%nat → wr i x v = Some (<[i := x]> v).
Proof. intros H. unfold wr. by rewrite (proj2 (Nat.ltb_lt _ _) H). Qed.

Lemma wr_inv {A} i (x : A) v v' :
  wr i x v = Some v' → (i < length v)%nat ∧ v' = <[i := x]> v.
Proof.
  unfold wr. destruct (i <? length v)%nat eqn:E; [|done].
  intros [= <-]. bool_cases. done.
Qed.

#[export] Hint Rewrite @length_insert @length_resize @length_replicate
  @length_app @length_fmap : sf1r.

(** Exchanging one entry of a vector, as multisets. *)
Lemma insert_perm {A} (l : list A) i x y :
  l !! i = Some x → x :: <[i := y]> l ≡ₚ y :: l.
Proof.
  revert i. induction l as [|z l IH]; intros [|i] H; simplify_eq/=; [apply perm_swap|].
  rewrite perm_swap, (IH i H). apply perm_swap.
Qed.

(** [v.empty()] *)
Definition is_nil {A} (l : list A) : bool := match l with [] => true | _ => false end.

(** ** Folding a loop body that can fail *)

Fixpoint foldM {A B} (f : B → A → option B) (b : B) (l : list A) : option B :=
  match l with
  | [] => Some b
  | a :: l => b' ← f b a; foldM f b' l
  end.

Lemma foldM_app {A B} (f : B → A → option B) l1 l2 b :
  foldM f b (l1 ++ l2) = b' ← foldM f b l1; foldM f b' l2.
Proof.
  revert b. induction l1 as [|a l1 IH]; intros b; [done|].
  simpl. destruct (f b a); [apply IH|done].
Qed.

Lemma foldM_ext {A B} (f g : B → A → option B) l b : (∀ b a, f b a = g b a) → foldM f b l = foldM g b l.
Proof.
  intros E. revert b. induction l as [|a l IH]; intros b; [done|]. simpl. rewrite E.
  destruct (g b a); [apply IH|done].
Qed.

Lemma foldM_mapM {A B C} (f : A → option B) (g : C → B → option C) l bs : ∀ c,
  mapM f l = Some bs → foldM (λ c a, b ← f a; g c b) c l = foldM g c bs.
Proof.
  revert bs. induction l as [|a l IH]; intros bs c; simpl.
  { by intros [= <-]. }
  destruct (f a) as [b|]; [simpl|done]. destruct (mapM f l) as [bs'|]; [simpl|done]. intros [= <-]. simpl.
  destruct (g c b); [simpl|done]. by apply IH.
Qed.

Lemma mapM_app {A B} (f : A → option B) l k :
  mapM f (l ++ k) = x ← mapM f l; y ← mapM f k; Some (x ++ y).
Proof.
  induction l as [|a l IH]; simpl; [by destruct (mapM f k)|]. destruct (f a); [simpl|done].
  rewrite IH. destruct (mapM f l); [simpl|done]. by destruct (mapM f k).
Qed.

(** A loop invariant carries through [foldM], and makes it succeed. *)
Lemma foldM_inv {A B} (P : list A → B → Prop) (f : B → A → option B) l b :
  P [] b →
  (∀ pre a b, P pre b → (∃ suf, l = pre ++ a :: suf) →
     ∃ b', f b a = Some b' ∧ P (pre ++ [a]) b') →
  ∃ b', foldM f b l = Some b' ∧ P l b'.
Proof.
  intros H0 Hstep.
  assert (∀ suf pre b, P pre b → l = pre ++ suf →
     ∃ b', foldM f b suf = Some b' ∧ P l b') as Hgen.
  { induction suf as [|a suf IH]; intros pre b' Hp Hl.
    - rewrite app_nil_r in Hl. subst pre. eauto.
    - destruct (Hstep pre a b' Hp) as (b2 & Hf & Hp2); [eauto|].
      simpl. rewrite Hf. simpl. apply (IH (pre ++ [a])); [done|].
      rewrite Hl, <- app_assoc. done. }
  by apply (Hgen l []).
Qed.

(** A fold preserves what each step preserves. *)
Lemma fold_left_inv {A B} (P : B → Prop) (f : B → A → B) l b :
  P b → (∀ b a, a ∈ l → P b → P (f b a)) → P (fold_left f l b).
Proof.
  revert b. induction l as [|a l IH]; intros b Hb Hstep; [done|].
  simpl. apply IH.
  - apply Hstep; [left|done].
  - intros b' a' Ha'. apply Hstep. by right.
Qed.

(** ** Strict weak orders and [std::sort] *)

(** What the standard library requires of a comparator, on the values [P] it
    is called with. *)
Class StrictWeakOn {A} (P : A → Prop) (lt : A → A → bool) : Prop := {
  swo_asym : ∀ x y, P x → P y → lt x y = true → lt y x = false;
  swo_ntrans : ∀ x y z, P x → P y → P z →
    lt x y = false → lt y z = false → lt x z = false }.

Section strict_weak.
Context {A} {P : A → Prop} {lt : A → A → bool} `{!StrictWeakOn P lt}.

Lemma swo_irrefl x : P x → lt x x = false.
Proof.
  intros Hx. destruct (lt x x) eqn:E; [|done].
  by rewrite (swo_asym x x Hx Hx E) in E.
Qed.

Lemma swo_trans x y z :
  P x → P y → P z → lt x y = true → lt y z = true → lt x z = true.
Proof.
  intros Hx Hy Hz Hxy Hyz. destruct (lt x z) eqn:E; [done|].
  pose proof (swo_asym y z Hy Hz Hyz) as Hzy.
  by rewrite (swo_ntrans x z y Hx Hz Hy E Hzy) in Hxy.
Qed.

(** A value below a minimum's peer is below the peer's uppers. *)
Lemma swo_le_lt_trans x y z :
  P x → P y → P z → lt y x = false → lt y z = true → lt x z = true.
Proof.
  intros Hx Hy Hz Hyx Hyz. destruct (lt x z) eqn:E; [done|].
  by rewrite (swo_ntrans y x z Hy Hx Hz Hyx E) in Hyz.
Qed.
End strict_weak.

Lemma strict_weak_weaken {A} (P Q : A → Prop) lt :
  StrictWeakOn P lt → (∀ x, Q x → P x) → StrictWeakOn Q lt.
Proof.
  intros HP HQ. split.
  - intros x y Hx Hy. apply (@swo_asym _ _ _ HP); auto.
  - intros x y z Hx Hy Hz. apply (@swo_ntrans _ _ _ HP); auto.
Qed.

(** [std::sort(v.begin(), v.end(), lt)]: the standard leaves the order of
    equivalent elements open, the model keeps their order in [v]. *)
Fixpoint sort_insert {A} (lt : A → A → bool) (x : A) (l : list A) : list A :=
  match l with
  | [] => [x]
  | y :: l' => if lt y x then y :: sort_insert lt x l' else x :: l
  end.

Definition std_sort {A} (lt : A → A → bool) (l : list A) : list A :=
  foldr (sort_insert lt) [] l.

(** No element is below an earlier one. *)
Definition sorted_by {A} (lt : A → A → bool) : list A → Prop :=
  StronglySorted (λ x y, lt y x = false).

Lemma sort_insert_perm {A} lt (x : A) l : sort_insert lt x l ≡ₚ x :: l.
Proof.
  induction l as [|y l IH]; simpl; [done|].
  destruct (lt y x); [|done]. rewrite IH. apply perm_swap.
Qed.

Lemma std_sort_perm {A} lt (l : list A) : std_sort lt l ≡ₚ l.
Proof.
  induction l as [|x l IH]; simpl; [done|]. by rewrite sort_insert_perm, IH.
Qed.

Lemma length_std_sort {A} lt (l : list A) : length (std_sort lt l) = length l.
Proof. apply Permutation_length, std_sort_perm. Qed.

Lemma elem_of_std_sort {A} lt (l : list A) x : x ∈ std_sort lt l ↔ x ∈ l.
Proof. by rewrite (std_sort_perm lt l). Qed.

Lemma sort_insert_sorted {A} P lt `{!@StrictWeakOn A P lt} x l :
  P x → Forall P l → sorted_by lt l → sorted_by lt (sort_insert lt x l).
Proof.
  intros Hx Hl Hs. induction Hs as [|y l Hs IH Hy]; simpl.
  { repeat constructor. }
  inversion_clear Hl as [|?? Py Pl]. destruct (lt y x) eqn:E.
  - constructor; [by apply IH|].
    rewrite sort_insert_perm. constructor; [|done]. by apply (swo_asym (P := P)).
  - constructor; [by constructor|]. constructor; [done|].
    rewrite Forall_forall in Hy, Pl |- *. intros z Hz.
    apply (swo_ntrans (P := P) _ y); auto.
Qed.

Lemma std_sort_sorted {A} P lt `{!@StrictWeakOn A P lt} l :
  Forall P l → sorted_by lt (std_sort lt l).
Proof.
  induction 1 as [|x l Hx Hl IH]; simpl; [constructor|].
  apply (sort_insert_sorted P); [done|done| |done].
  by rewrite std_sort_perm.
Qed.

(** ** Sorted lists *)

Lemma StronglySorted_rev {A} (R : A → A → Prop) l : StronglySorted R l → StronglySorted (λ x y, R y x) (rev l).
Proof.
  induction 1 as [|x l _ IH Hx]; simpl; [constructor|]. apply StronglySorted_app. split_and!; [|done|repeat constructor].
  intros y z Hy ->%list_elem_of_singleton. rewrite Forall_forall in Hx. apply Hx. by apply list_elem_of_In, in_rev, list_elem_of_In.
Qed.

Lemma StronglySorted_map {A B} (f : A → B) (R : A → A → Prop) (Q : B → B → Prop) l :
  StronglySorted R l → (∀ x y, x ∈ l → y ∈ l → R x y → Q (f x) (f y)) → StronglySorted Q (map f l).
Proof.
  induction 1 as [|x l _ IH Hx]; simpl; intros HQ; [constructor|]. constructor.
  - apply IH. intros a b Ha Hb. apply HQ; by right.
  - apply Forall_forall. intros z (y & -> & Hy)%list_elem_of_fmap. rewrite Forall_forall in Hx. apply HQ; [by left|by right|by apply Hx].
Qed.

Lemma elem_of_rev {A} (x : A) l : x ∈ rev l ↔ x ∈ l.
Proof. rewrite !list_elem_of_In. symmetry. apply in_rev. Qed.

(** A list without repetition is not longer than one with its elements. *)
Lemma NoDup_length_le {A} (l k : list A) : NoDup l → (∀ x, x ∈ l → x ∈ k) → (length l ≤ length k)%nat.
Proof. intros Hl Hk. by apply submseteq_length, NoDup_submseteq. Qed.

(** ** Index loops over two vectors *)

(** [for (i = 0; i < l1.size(); ++i) f(l1[i], l2[i])] is a fold over the pairs
    when [l2] is long enough, and reads past the end of [l2] when it is not. *)
Definition zip_loop {A B C} (f : C → A * B → C) (l1 : list A) (l2 : list B) (c : C)
    : option C :=
  foldM (λ c i, x ← l1 !! i; y ← l2 !! i; Some (f c (x, y))) c (seq 0 (length l1)).

Lemma zip_loop_shift {A B C} (f : C → A * B → C) x y (l1 : list A) (l2 : list B) c n k :
  foldM (λ c i, x ← (x :: l1) !! i; y ← (y :: l2) !! i; Some (f c (x, y))) c
    (seq (S k) n)
  = foldM (λ c i, x ← l1 !! i; y ← l2 !! i; Some (f c (x, y))) c (seq k n).
Proof.
  revert k c. induction n as [|n IH]; intros k c; [done|].
  simpl. destruct (l1 !! k); [|done]. simpl. destruct (l2 !! k); [|done]. simpl. apply IH.
Qed.

Lemma zip_loop_ok {A B C} (f : C → A * B → C) (l1 : list A) (l2 : list B) c :
  (length l1 ≤ length l2)%nat →
  zip_loop f l1 l2 c = Some (fold_left f (zip l1 l2) c).
Proof.
  revert l2 c. unfold zip_loop.
  induction l1 as [|x l1 IH]; intros [|y l2] c Hl; simpl in *; [done|done|lia|].
  rewrite zip_loop_shift. apply IH. lia.
Qed.

Lemma zip_loop_short {A B C} (f : C → A * B → C) (l1 : list A) (l2 : list B) c :
  (length l2 < length l1)%nat → zip_loop f l1 l2 c = None.
Proof.
  revert l2 c. unfold zip_loop.
  induction l1 as [|x l1 IH]; intros [|y l2] c Hl; simpl in *; [lia|lia|done|].
  rewrite zip_loop_shift. apply IH. lia.
Qed.

(** ** Sums *)

Definition zsum (l : list Z) : Z := foldr Z.add 0 l.

Lemma zsum_app l1 l2 : zsum (l1 ++ l2) = zsum l1 + zsum l2.
Proof. induction l1; simpl; lia. Qed.

Lemma zsum_perm l1 l2 : l1 ≡ₚ l2 → zsum l1 = zsum l2.
Proof. induction 1; simpl; lia. Qed.
