(* ===== verification/SplitText.v ===== *)
(** * The text of group and attribute properties ([mining-manager/util/split_ustr.cpp])

    A property holds paths of values, "a>b,c", or attributes with their values,
    "colour:red|blue,size:S".  A value can stand in quotes, doubled inside.  The
    theorems: splitting ends, and every list of paths or attributes that is
    printed is read back, each value plain or in quotes.

    A [UString] is the list of its characters; [compact], which trims spaces, is
    outside the repository and a parameter. *)
From S2P Require Import Prelude.

Abbreviation ustring := (list Z).

Definition COLON : Z := 58.
Definition VL : Z := 124.
Definition GT : Z := 62.
Definition COMMA : Z := 44.
Definition SEMI_COLON : Z := 59.
Definition QUOTE : Z := 34.
Definition COMMA_VL : list Z := [COMMA; VL].
Definition COMMA_SEMICOLON_GT : list Z := [COMMA; SEMI_COLON; GT].

Definition is_delim (delimStr : list Z) (c : Z) : bool := existsb (Z.eqb c) delimStr.

(** The characters behind an opening quote, and what follows the closing one. *)
Fixpoint parse_quoted (s output : ustring) : ustring * ustring :=
  match s with
  | [] => (output, [])
  | c :: s' =>
      if c =? QUOTE then
        match s' with
        | c' :: s'' => if c' =? QUOTE then parse_quoted s'' (output ++ [c']) else (output, s')
        | [] => (output, [])
        end
      else parse_quoted s' (output ++ [c])
  end.

(** The rest of the text from the first delimiter on, and what comes before. *)
Fixpoint until (delimStr : list Z) (s : ustring) : ustring * ustring :=
  match s with
  | [] => ([], [])
  | c :: s' => if is_delim delimStr c then ([], s) else let '(a, r) := until delimStr s' in (c :: a, r)
  end.

Section split.
Context (compact : ustring → ustring).

Definition parse_ustr (delimStr : list Z) (s : ustring) : ustring * ustring :=
  match s with
  | c :: s' =>
      if c =? QUOTE then let '(output, r) := parse_quoted s' [] in (output, (until delimStr r).2)
      else let '(output, r) := until delimStr s in (compact output, r)
  | [] => (compact [], [])
  end.

Definition push_value (value : ustring) (values : list ustring) : list ustring :=
  match value with [] => values | _ => values ++ [value] end.

(** [while (it != endIt && *it == sep)] *)
Fixpoint parse_values (fuel : nat) (sep : Z) (delimStr : list Z) (s : ustring) (values : list ustring)
    : option (list ustring * ustring) :=
  match fuel with
  | O => None
  | S fuel =>
      match s with
      | c :: s' =>
          if c =? sep then
            let '(value, s) := parse_ustr delimStr s' in
            parse_values fuel sep delimStr s (push_value value values)
          else Some (values, s)
      | [] => Some (values, s)
      end
  end.

Fixpoint split_paths (fuel : nat) (s : ustring) : option (list (list ustring)) :=
  match fuel with
  | O => None
  | S fuel =>
      match s with
      | [] => Some []
      | _ =>
          let '(value, s) := parse_ustr COMMA_SEMICOLON_GT s in
          '(path, s) ← parse_values (S (length s)) GT COMMA_SEMICOLON_GT s (push_value value []);
          paths ← split_paths fuel (tail s);
          Some (match path with [] => paths | _ => path :: paths end)
      end
  end.

Definition split_group_path (src : ustring) : option (list (list ustring)) := split_paths (S (length src)) src.

Fixpoint split_pairs (fuel : nat) (s : ustring) : option (list (ustring * list ustring)) :=
  match fuel with
  | O => None
  | S fuel =>
      match s with
      | [] => Some []
      | _ =>
          let '(name, s) := parse_ustr [COLON] s in
          match s, name with
          | [], _ | _, [] => Some []
          | _ :: s, _ =>
              let '(value, s) := parse_ustr COMMA_VL s in
              '(values, s) ← parse_values (S (length s)) VL COMMA_VL s (push_value value []);
              pairs ← split_pairs fuel (tail s);
              Some (match values with [] => pairs | _ => (name, values) :: pairs end)
          end
      end
  end.

Definition split_attr_pair (src : ustring) : option (list (ustring * list ustring)) := split_pairs (S (length src)) src.

(** ** Splitting ends *)

Lemma parse_quoted_le n : ∀ s output, (length s ≤ n)%nat → (length (parse_quoted s output).2 ≤ length s)%nat.
Proof.
  induction n as [|n IH]; intros s output Hn; [destruct s; simpl in *; lia|]. destruct s as [|c s]; [simpl; lia|]. simpl in Hn. cbn [parse_quoted].
  destruct (c =? QUOTE).
  - destruct s as [|c' s]; [simpl; lia|]. simpl in Hn. destruct (c' =? QUOTE); [|simpl; lia].
    specialize (IH s (output ++ [c']) ltac:(lia)). simpl. lia.
  - specialize (IH s (output ++ [c]) ltac:(lia)). simpl. lia.
Qed.

Lemma until_le delimStr s : (length (until delimStr s).2 ≤ length s)%nat.
Proof.
  induction s as [|c s IH]; [simpl; lia|]. simpl. destruct (is_delim delimStr c); [simpl; lia|].
  destruct (until delimStr s) as [a r]. simpl in *. lia.
Qed.

Lemma parse_ustr_le delimStr s : (length (parse_ustr delimStr s).2 ≤ length s)%nat.
Proof.
  unfold parse_ustr. destruct s as [|c s]; [simpl; lia|]. destruct (c =? QUOTE).
  - pose proof (parse_quoted_le (length s) s [] ltac:(lia)) as Hq. destruct (parse_quoted s []) as [o r]. simpl in *.
    pose proof (until_le delimStr r). lia.
  - pose proof (until_le delimStr (c :: s)) as Hu. destruct (until delimStr (c :: s)) as [o r]. simpl in *. lia.
Qed.

Lemma parse_values_ends sep delimStr fuel : ∀ s values, (length s < fuel)%nat →
  ∃ values' r, parse_values fuel sep delimStr s values = Some (values', r) ∧ (length r ≤ length s)%nat.
Proof.
  induction fuel as [|fuel IH]; intros s values Hf; [lia|]. cbn [parse_values]. destruct s as [|c s]; [by eexists _, _|].
  destruct (c =? sep); [|by eexists _, _]. pose proof (parse_ustr_le delimStr s) as Hp.
  destruct (parse_ustr delimStr s) as [value r]. simpl in *. destruct (IH r (push_value value values)) as (v' & r' & -> & Hr); [lia|].
  exists v', r'. split; [done|lia].
Qed.

Lemma split_paths_ends fuel : ∀ s, (length s < fuel)%nat → is_Some (split_paths fuel s).
Proof.
  induction fuel as [|fuel IH]; intros s Hf; [lia|]. cbn [split_paths]. destruct s as [|c s]; [done|].
  pose proof (parse_ustr_le COMMA_SEMICOLON_GT (c :: s)) as Hp. destruct (parse_ustr COMMA_SEMICOLON_GT (c :: s)) as [value r]. simpl in Hp, Hf.
  destruct (parse_values_ends GT COMMA_SEMICOLON_GT (S (length r)) r (push_value value [])) as (path & r' & -> & Hr); [lia|].
  cbn [mbind option_bind]. destruct (IH (tail r')) as [paths ->]; [|done].
  destruct r' as [|x r']; simpl in *; lia.
Qed.

Lemma split_pairs_ends fuel : ∀ s, (length s < fuel)%nat → is_Some (split_pairs fuel s).
Proof.
  induction fuel as [|fuel IH]; intros s Hf; [lia|]. cbn [split_pairs]. destruct s as [|c s]; [done|].
  pose proof (parse_ustr_le [COLON] (c :: s)) as Hp. destruct (parse_ustr [COLON] (c :: s)) as [name r]. simpl in Hp, Hf.
  destruct r as [|x r]; [done|]. destruct name as [|n name]; [done|]. simpl in Hp.
  pose proof (parse_ustr_le COMMA_VL r) as Hp'. destruct (parse_ustr COMMA_VL r) as [value r']. simpl in Hp'.
  destruct (parse_values_ends VL COMMA_VL (S (length r')) r' (push_value value [])) as (values & r'' & -> & Hr); [lia|].
  cbn [mbind option_bind]. destruct (IH (tail r'')) as [pairs ->]; [|done].
  destruct r'' as [|y r'']; simpl in *; lia.
Qed.

(** ** Printed texts *)

(** A value in quotes, the quotes inside doubled. *)
Definition in_quotes (v : ustring) : ustring := QUOTE :: concat (map (λ c, if c =? QUOTE then [QUOTE; QUOTE] else [c]) v) ++ [QUOTE].

(** How a value may stand between delimiters. *)
Inductive written (delimStr : list Z) (v : ustring) : ustring → Prop :=
  | plain : v ≠ [] → head v ≠ Some QUOTE → forallb (λ c, negb (is_delim delimStr c)) v = true → compact v = v →
      written delimStr v v
  | quoted : v ≠ [] → written delimStr v (in_quotes v).

(** The text ends, or goes on with a delimiter. *)
Definition stops (delimStr : list Z) (rest : ustring) : Prop :=
  match rest with [] => True | c :: _ => is_delim delimStr c = true end.

Lemma until_stops delimStr v rest : forallb (λ c, negb (is_delim delimStr c)) v = true → stops delimStr rest →
  until delimStr (v ++ rest) = (v, rest).
Proof.
  intros Hv Hr. induction v as [|c v IH]; simpl in *.
  - destruct rest as [|c rest]; [done|]. simpl in *. by rewrite Hr.
  - apply andb_prop in Hv as [Hc Hv]. apply negb_true_iff in Hc. by rewrite Hc, IH.
Qed.

Lemma parse_in_quotes v rest : head rest ≠ Some QUOTE → ∀ output,
  parse_quoted (concat (map (λ c, if c =? QUOTE then [QUOTE; QUOTE] else [c]) v) ++ QUOTE :: rest) output = (output ++ v, rest).
Proof.
  intros Hr. induction v as [|c v IH]; intros output.
  - simpl. rewrite app_nil_r. destruct rest as [|c rest]; [done|]. destruct (c =? QUOTE) eqn:E; [|done]. bool_cases. by subst.
  - cbn [map concat]. destruct (c =? QUOTE) eqn:E; bool_cases.
    + subst c. simpl. rewrite IH. by rewrite <- app_assoc.
    + cbn [app parse_quoted]. rewrite (proj2 (Z.eqb_neq _ _) E), IH. by rewrite <- app_assoc.
Qed.

Lemma parse_written delimStr v t rest : is_delim delimStr QUOTE = false → written delimStr v t → stops delimStr rest →
  parse_ustr delimStr (t ++ rest) = (v, rest).
Proof.
  intros Hq [Hv Hh Hd Hc|Hv] Hr.
  - destruct v as [|c v]; [done|]. unfold parse_ustr. cbn [app]. destruct (c =? QUOTE) eqn:E; [bool_cases; by subst|].
    change (c :: v ++ rest) with ((c :: v) ++ rest). by rewrite until_stops, Hc.
  - unfold in_quotes. cbn [app parse_ustr]. unfold parse_ustr. rewrite Z.eqb_refl, <- app_assoc. cbn [app].
    rewrite parse_in_quotes; [|destruct rest as [|c rest]; [done|]; intros [= ->]; simpl in Hr; congruence].
    simpl. destruct rest as [|c rest]; [done|]. simpl in *. by rewrite Hr.
Qed.

Lemma written_nonempty delimStr v t : written delimStr v t → v ≠ [] ∧ t ≠ [].
Proof. by intros [|]. Qed.

(** Values with [sep] between them. *)
Inductive values_text (sep : Z) (delimStr : list Z) : list ustring → ustring → Prop :=
  | one_value v t : written delimStr v t → values_text sep delimStr [v] t
  | more_values v t vs s : written delimStr v t → values_text sep delimStr vs s →
      values_text sep delimStr (v :: vs) (t ++ sep :: s).

Lemma parse_values_sep fuel sep delimStr s values : parse_values (S fuel) sep delimStr (sep :: s) values =
  let '(value, s) := parse_ustr delimStr s in parse_values fuel sep delimStr s (push_value value values).
Proof. cbn [parse_values]. by rewrite Z.eqb_refl. Qed.

Lemma parse_values_text sep delimStr rest vs s : is_delim delimStr QUOTE = false → is_delim delimStr sep = true →
  stops delimStr rest → head rest ≠ Some sep → values_text sep delimStr vs s → ∀ fuel values, (length (s ++ rest) ≤ fuel)%nat →
  ∃ v r, parse_ustr delimStr (s ++ rest) = (v, r) ∧ parse_values (S fuel) sep delimStr r (values ++ [v]) = Some (values ++ vs, rest) ∧
    v ≠ [] ∧ (length r ≤ length (s ++ rest))%nat.
Proof.
  intros Hq Hsep Hr Hh. induction 1 as [v t Hw|v t vs s Hw _ IH]; intros fuel values Hf.
  - exists v, rest. destruct (written_nonempty _ _ _ Hw) as [Hv Ht]. split_and!; [by apply parse_written| |done|rewrite length_app; lia].
    cbn [parse_values]. destruct rest as [|c rest]; [done|]. destruct (c =? sep) eqn:E; [|done]. bool_cases. by subst.
  - destruct (written_nonempty _ _ _ Hw) as [Hv Ht]. exists v, (sep :: s ++ rest). rewrite <- app_assoc in Hf |- *. cbn [app] in Hf |- *.
    rewrite (length_app t) in Hf |- *. cbn [length] in Hf |- *.
    assert (1 ≤ length t)%nat by (destruct t; [done|simpl; lia]).
    split_and!; [by apply parse_written| |done|lia].
    destruct fuel as [|fuel]; [lia|]. rewrite parse_values_sep.
    destruct (IH fuel (values ++ [v])) as (v' & r & -> & E & Hv' & _); [lia|].
    destruct v' as [|c v']; [done|]. cbn [push_value]. rewrite E. by rewrite <- app_assoc.
Qed.

Lemma parse_values_mono sep delimStr f : ∀ g s values x, parse_values f sep delimStr s values = Some x → (f ≤ g)%nat →
  parse_values g sep delimStr s values = Some x.
Proof.
  induction f as [|f IH]; intros g s values x; [done|]. intros E Hg. destruct g as [|g]; [lia|]. cbn [parse_values] in *.
  destruct s as [|c s]; [done|]. destruct (c =? sep); [|done]. destruct (parse_ustr delimStr s) as [value r].
  apply (IH g); [done|lia].
Qed.

(** All values of a path, at once. *)
Lemma parse_all sep delimStr rest vs s : is_delim delimStr QUOTE = false → is_delim delimStr sep = true →
  stops delimStr rest → head rest ≠ Some sep → values_text sep delimStr vs s →
  ∃ v r, parse_ustr delimStr (s ++ rest) = (v, r) ∧ v ≠ [] ∧
  parse_values (S (length r)) sep delimStr r (push_value v []) = Some (vs, rest).
Proof.
  intros Hq Hsep Hr Hh Hvs.
  destruct (parse_values_text sep delimStr rest vs s Hq Hsep Hr Hh Hvs (length (s ++ rest)) [] ltac:(lia)) as (v & r & E & Ev & Hv & _).
  exists v, r. split_and!; [done|done|]. destruct v as [|c v]; [done|]. cbn [push_value app] in *.
  destruct (parse_values_ends sep delimStr (S (length r)) r [c :: v] ltac:(lia)) as (vs' & r' & E' & _).
  pose proof (parse_values_mono sep delimStr _ (S (length (s ++ rest)) + length r)%nat r _ _ E' ltac:(lia)) as E1.
  pose proof (parse_values_mono sep delimStr _ (S (length (s ++ rest)) + length r)%nat r _ _ Ev ltac:(lia)) as E2. congruence.
Qed.

Lemma values_text_nonempty sep delimStr vs s : values_text sep delimStr vs s → vs ≠ [] ∧ s ≠ [].
Proof. by destruct 1 as [v t [_ ?]%written_nonempty|v t vs s [_ ?]%written_nonempty]; [|split; [done|destruct t]]. Qed.

(** Paths with commas or semicolons between or behind them. *)
Inductive paths_text : list (list ustring) → ustring → Prop :=
  | no_path : paths_text [] []
  | last_path p s : values_text GT COMMA_SEMICOLON_GT p s → paths_text [p] s
  | more_paths p s c ps r : values_text GT COMMA_SEMICOLON_GT p s → c = COMMA ∨ c = SEMI_COLON → paths_text ps r →
      paths_text (p :: ps) (s ++ c :: r).

Lemma split_path_text p s rest fuel : values_text GT COMMA_SEMICOLON_GT p s → stops COMMA_SEMICOLON_GT rest → head rest ≠ Some GT →
  split_paths (S fuel) (s ++ rest) = (paths ← split_paths fuel (tail rest); Some (p :: paths)).
Proof.
  intros Hp Hr Hh. destruct (values_text_nonempty _ _ _ _ Hp) as [Hne Hs]. destruct (parse_all GT COMMA_SEMICOLON_GT rest p s) as (v & r & E & _ & Ev); try done.
  cbn [split_paths]. destruct (s ++ rest) as [|c s'] eqn:Es; [by destruct s|]. rewrite E, Ev. cbn [mbind option_bind]. by destruct p.
Qed.

Lemma split_group_path_reads ps s : paths_text ps s → split_group_path s = Some ps.
Proof.
  intros Hps. unfold split_group_path. generalize (Nat.lt_succ_diag_r (length s)). generalize (S (length s)).
  induction Hps as [|p s Hp|p s c ps r Hp Hc _ IH]; intros [|fuel] Hf; try lia.
  - done.
  - rewrite <- (app_nil_r s), (split_path_text p s [] fuel Hp I ltac:(done)). simpl. destruct (values_text_nonempty _ _ _ _ Hp) as [_ Hs].
    destruct fuel; [|done]. destruct s; [done|simpl in Hf; lia].
  - rewrite (split_path_text p s (c :: r) fuel Hp) by (destruct Hc as [-> | ->]; done). cbn [tail]. rewrite IH; [done|].
    rewrite length_app in Hf. simpl in Hf. lia.
Qed.

(** Attributes with commas between or behind them. *)
Inductive pairs_text : list (ustring * list ustring) → ustring → Prop :=
  | no_pair : pairs_text [] []
  | last_pair n t vs s : written [COLON] n t → values_text VL COMMA_VL vs s → pairs_text [(n, vs)] (t ++ COLON :: s)
  | more_pairs n t vs s ps r : written [COLON] n t → values_text VL COMMA_VL vs s → pairs_text ps r →
      pairs_text ((n, vs) :: ps) (t ++ COLON :: s ++ COMMA :: r).

Lemma split_pair_text n t vs s rest fuel : written [COLON] n t → values_text VL COMMA_VL vs s → stops COMMA_VL rest → head rest ≠ Some VL →
  split_pairs (S fuel) (t ++ COLON :: s ++ rest) = (pairs ← split_pairs fuel (tail rest); Some ((n, vs) :: pairs)).
Proof.
  intros Hn Hvs Hr Hh. destruct (written_nonempty _ _ _ Hn) as [Hne Ht]. destruct (values_text_nonempty _ _ _ _ Hvs) as [Hvne _].
  destruct (parse_all VL COMMA_VL rest vs s) as (v & r & E & _ & Ev); try done.
  pose proof (parse_written [COLON] n t (COLON :: s ++ rest) eq_refl Hn eq_refl) as En. cbn [split_pairs].
  destruct (t ++ COLON :: s ++ rest) as [|c s'] eqn:Es; [by destruct t|]. rewrite En. destruct n as [|x n]; [done|].
  rewrite E, Ev. cbn [mbind option_bind]. by destruct vs.
Qed.

Lemma split_attr_pair_reads ps s : pairs_text ps s → split_attr_pair s = Some ps.
Proof.
  intros Hps. unfold split_attr_pair. generalize (Nat.lt_succ_diag_r (length s)). generalize (S (length s)).
  induction Hps as [|n t vs s Hn Hvs|n t vs s ps r Hn Hvs _ IH]; intros [|fuel] Hf; try lia.
  - done.
  - rewrite <- (app_nil_r s), (split_pair_text n t vs s [] fuel Hn Hvs I ltac:(done)). simpl.
    destruct fuel; [|done]. rewrite length_app in Hf. simpl in Hf. lia.
  - rewrite (split_pair_text n t vs s (COMMA :: r) fuel Hn Hvs) by done. cbn [tail]. rewrite IH; [done|].
    rewrite length_app in Hf. simpl in Hf. rewrite length_app in Hf. simpl in Hf. lia.
Qed.
End split.

(** ** Examples *)

Definition chars (s : string) : ustring := map (λ c, Z.of_nat (Ascii.nat_of_ascii c)) (String.list_ascii_of_string s).

Definition no_compact (s : ustring) : ustring := s.

Example split_group_path_quoted :
  split_group_path no_compact (chars "a>b," ++ in_quotes (chars "c,d") ++ chars ";e") =
    Some [[chars "a"; chars "b"]; [chars "c,d"]; [chars "e"]].
Proof.
  apply (split_group_path_reads no_compact). change (chars "a>b," ++ in_quotes (chars "c,d") ++ chars ";e") with
    ((chars "a" ++ GT :: chars "b") ++ COMMA :: (in_quotes (chars "c,d") ++ SEMI_COLON :: chars "e")).
  repeat first [apply more_paths | apply last_path | apply more_values | apply one_value | by right | by left | by apply plain | by apply quoted].
Qed.

Example split_attr_pair_quoted :
  split_attr_pair no_compact (chars "size:S|M,colour:" ++ in_quotes (chars "red|blue")) =
    Some [(chars "size", [chars "S"; chars "M"]); (chars "colour", [chars "red|blue"])].
Proof.
  apply (split_attr_pair_reads no_compact). change (chars "size:S|M,colour:" ++ in_quotes (chars "red|blue")) with
    (chars "size" ++ COLON :: (chars "S" ++ VL :: chars "M") ++ COMMA :: (chars "colour" ++ COLON :: in_quotes (chars "red|blue"))).
  repeat first [apply more_pairs | apply last_pair | apply more_values | apply one_value | by apply plain | by apply quoted].
Qed.
