(* ===== verification/CNum.v ===== *)
(** * C++ numbers: machine integers and [double]

    Signed and unsigned integers are [Z] with their wrap-around written out
    (two's complement, what the compilers of the project do where the standard
    leaves signed overflow undefined).  [double] is the executable IEEE 754
    binary64 of the Standard Library's [SpecFloat], round to nearest even;
    no axiom is involved, and concrete runs evaluate by [vm_compute]. *)
From S2P Require Import Prelude.
From Stdlib Require Export SpecFloat.

(** ** Machine integers *)

Definition u32 (z : Z) : Z := z `mod` 2 ^ 32.
Definition u64 (z : Z) : Z := z `mod` 2 ^ 64.
Definition i32 (z : Z) : Z := (z + 2 ^ 31) `mod` 2 ^ 32 - 2 ^ 31.
Definition i64 (z : Z) : Z := (z + 2 ^ 63) `mod` 2 ^ 64 - 2 ^ 63.

Lemma u32_small z : 0 ≤ z < 2 ^ 32 → u32 z = z.
Proof. apply Z.mod_small. Qed.

Lemma i32_small z : - 2 ^ 31 ≤ z < 2 ^ 31 → i32 z = z.
Proof. intros H. unfold i32. rewrite Z.mod_small; lia. Qed.

Lemma i64_small z : - 2 ^ 63 ≤ z < 2 ^ 63 → i64 z = z.
Proof. intros H. unfold i64. rewrite Z.mod_small; lia. Qed.

Lemma i32_range z : - 2 ^ 31 ≤ i32 z < 2 ^ 31.
Proof.
  unfold i32. pose proof (Z.mod_pos_bound (z + 2 ^ 31) (2 ^ 32)). lia.
Qed.

Lemma i32_idem z : i32 (i32 z) = i32 z.
Proof. apply i32_small, i32_range. Qed.

(** Wrapping commutes with sums: a counter that wraps at every step is the
    wrap of the exact total. *)
Lemma i32_add_l a b : i32 (i32 a + b) = i32 (a + b).
Proof.
  unfold i32. f_equal.
  replace ((a + 2 ^ 31) `mod` 2 ^ 32 - 2 ^ 31 + b + 2 ^ 31)
    with ((a + 2 ^ 31) `mod` 2 ^ 32 + b) by lia.
  rewrite Zplus_mod_idemp_l. f_equal. lia.
Qed.

Lemma i32_add_r a b : i32 (a + i32 b) = i32 (a + b).
Proof. rewrite Z.add_comm, i32_add_l. f_equal. lia. Qed.

#[export] Hint Rewrite i32_add_l i32_add_r i32_idem : sf1r.

(** ** Doubles *)

Abbreviation double := spec_float.

Definition d_add (x y : double) : double := SFadd 53 1024 x y.
Definition d_sub (x y : double) : double := SFsub 53 1024 x y.
Definition d_mul (x y : double) : double := SFmul 53 1024 x y.
Definition d_div (x y : double) : double := SFdiv 53 1024 x y.
Definition d_lt (x y : double) : bool := SFltb x y.
Definition d_le (x y : double) : bool := SFleb x y.
Definition d_gt (x y : double) : bool := SFltb y x.
Definition d_ge (x y : double) : bool := SFleb y x.
Definition d_abs (x : double) : double := SFabs x.
Definition d_zero : double := S754_zero false.

(** [(double)z]. *)
Definition d_of_Z (z : Z) : double := binary_normalize 53 1024 z 0 false.

(** The literal [n / 10^k], e.g. [0.003] is [d_lit 3 3]: both operands are
    exact, so the division rounds once, as the compiler's conversion does. *)
Definition d_lit (n k : Z) : double := d_div (d_of_Z n) (d_of_Z (10 ^ k)).

(** Truncation toward zero, as [(int)x]; [None] outside the range of [int],
    on infinities and NaN, where the conversion is undefined. *)
Definition d_trunc (x : double) : option Z :=
  match x with
  | S754_zero _ => Some 0
  | S754_finite s m e =>
      let a := if 0 <=? e then Z.shiftl (Z.pos m) e else Z.shiftr (Z.pos m) (- e) in
      Some (if s then - a else a)
  | _ => None
  end.

Definition d_to_int (x : double) : option Z :=
  z ← d_trunc x;
  if (- 2 ^ 31 <=? z) && (z <? 2 ^ 31) then Some z else None.

(** Conversion to [float] and back: rounding to binary32. *)
Definition d_to_float (x : double) : double :=
  match x with
  | S754_finite s m e => binary_normalize 24 128 (if s then Z.neg m else Z.pos m) e s
  | _ => x
  end.

(** [std::numeric_limits<double>::max()] and [::epsilon()]. *)
Definition d_max : double := S754_finite false (2 ^ 53 - 1) 971.
Definition d_epsilon : double := S754_finite false (2 ^ 52) (-104).

(** [std::max(a, b)] is [(a < b) ? b : a]. *)
Definition d_stdmax (a b : double) : double := if d_lt a b then b else a.

Definition d_is_nan (x : double) : bool :=
  match x with S754_nan => true | _ => false end.
Definition d_num (x : double) : Prop := d_is_nan x = false.

(** *** [<] on doubles is a strict weak order away from NaN *)

Lemma pos_compare_cont (p q : positive) :
  PosDef.Pos.compare_cont Eq p q = (Z.pos p ?= Z.pos q).
Proof. reflexivity. Qed.

#[export] Instance d_lt_strict_weak : StrictWeakOn d_num d_lt.
Proof.
  unfold d_num, d_lt, SFltb. split.
  - intros [s1|s1| |s1 m1 e1] [s2|s2| |s2 m2 e2]; simpl; try done;
      destruct s1, s2; simpl; try done; rewrite ?pos_compare_cont.
    all: destruct (Z.compare_spec e1 e2), (Z.compare_spec e2 e1);
      try lia; try done; subst.
    all: rewrite ?pos_compare_cont;
      destruct (Z.compare_spec (Z.pos m1) (Z.pos m2)),
        (Z.compare_spec (Z.pos m2) (Z.pos m1)); simpl; try lia; try done.
  - intros [s1|s1| |s1 m1 e1] [s2|s2| |s2 m2 e2] [s3|s3| |s3 m3 e3];
      simpl; try done; destruct s1, s2, s3; simpl; try done;
      rewrite ?pos_compare_cont.
    all: destruct (Z.compare_spec e1 e2), (Z.compare_spec e2 e3),
      (Z.compare_spec e1 e3); try lia; try done; subst.
    all: rewrite ?pos_compare_cont;
      destruct (Z.compare_spec (Z.pos m1) (Z.pos m2)),
        (Z.compare_spec (Z.pos m2) (Z.pos m3)),
        (Z.compare_spec (Z.pos m1) (Z.pos m3)); simpl; try lia; try done.
Qed.

Lemma d_lt_num_l x y : d_lt x y = true → d_num x.
Proof. by destruct x, y. Qed.
Lemma d_lt_num_r x y : d_lt x y = true → d_num y.
Proof. by destruct x, y as [[]|[]| |[]]. Qed.

Lemma d_le_lt x y : d_num x → d_num y → d_le x y = negb (d_lt y x).
Proof.
  unfold d_num, d_le, d_lt, SFleb, SFltb.
  destruct x as [s1|s1| |s1 m1 e1], y as [s2|s2| |s2 m2 e2]; simpl; try done;
    destruct s1, s2; simpl; try done; rewrite ?pos_compare_cont.
  all: destruct (Z.compare_spec e1 e2), (Z.compare_spec e2 e1); try lia; try done; subst.
  all: rewrite ?pos_compare_cont;
    destruct (Z.compare_spec (Z.pos m1) (Z.pos m2)),
      (Z.compare_spec (Z.pos m2) (Z.pos m1)); simpl; try lia; try done.
Qed.

Lemma d_gt_lt x y : d_gt x y = d_lt y x.
Proof. reflexivity. Qed.

Lemma d_ge_lt x y : d_num x → d_num y → d_ge x y = negb (d_lt x y).
Proof. intros Hx Hy. by apply (d_le_lt y x). Qed.

#[export] Hint Rewrite d_gt_lt : sf1r.

(** *** Signs *)

(** The sign bit is clear (or the value is not a number). *)
Definition d_pos_sign (x : double) : bool :=
  match x with
  | S754_zero s | S754_infinity s | S754_finite s _ _ => negb s
  | S754_nan => true
  end.

Lemma binary_round_aux_pos mx ex lx :
  d_pos_sign (binary_round_aux 53 1024 false mx ex lx) = true.
Proof.
  unfold binary_round_aux. destruct (shr_fexp _ _ mx ex lx) as [m1 e1].
  destruct (shr_fexp _ _ _ e1 _) as [m2 e2]. destruct (shr_m m2); [done| |done].
  by destruct (_ <=? _).
Qed.

Lemma d_of_Z_pos z : 0 ≤ z → d_pos_sign (d_of_Z z) = true.
Proof.
  intros Hz. unfold d_of_Z, binary_normalize. destruct z as [|p|p]; [done| |lia].
  unfold binary_round. destruct (shl_align _ _ _). apply binary_round_aux_pos.
Qed.

Lemma d_div_pos x y : d_pos_sign x = true → d_pos_sign y = true → d_pos_sign (d_div x y) = true.
Proof.
  unfold d_div, SFdiv. destruct x as [[]|[]| |[] m1 e1], y as [[]|[]| |[] m2 e2]; try done.
  intros _ _. destruct (SFdiv_core_binary _ _ _ _ _ _) as [[mz ez] lz]. apply binary_round_aux_pos.
Qed.

Lemma d_gt_zero_pos x : d_gt x d_zero = true → d_pos_sign x = true.
Proof. by destruct x as [[]|[]| |[] m e]. Qed.

Lemma d_pos_not_below x : d_pos_sign x = true → d_lt x d_zero = false.
Proof. by destruct x as [[]|[]| |[] m e]. Qed.

Lemma d_to_int_pos x z : d_pos_sign x = true → d_to_int x = Some z → 0 ≤ z.
Proof.
  unfold d_to_int, d_trunc. destruct x as [s|s| |s m e]; intros Hs H; try done; simpl in *.
  - by simplify_eq.
  - destruct s; [done|]. case_match; [|done]. simplify_eq. case_match.
    + apply Z.shiftl_nonneg. lia.
    + apply Z.shiftr_nonneg. lia.
Qed.

(** *** Natural numbers below 2^53 are exact *)

Lemma digits2_size m : digits2_pos m = Pos.size m.
Proof. induction m as [m IH|m IH|]; simpl; by rewrite ?IH. Qed.

Lemma shift_pos_mul k m : Z.pos (shift_pos k m) = Z.pos m * 2 ^ Z.pos k.
Proof. rewrite shift_pos_correct. change (Z.pow_pos 2 k) with (2 ^ Z.pos k). apply Z.mul_comm. Qed.

Lemma size_bounds m : 2 ^ (Z.pos (Pos.size m) - 1) ≤ Z.pos m < 2 ^ Z.pos (Pos.size m).
Proof.
  pose proof (Pos.size_gt m) as H1. pose proof (Pos.size_le m) as H2. 
  apply Pos2Z.pos_lt_pos in H1. apply Pos2Z.pos_le_pos in H2. rewrite Pos2Z.inj_pow in H1, H2. 
  replace (Z.pos (Pos.size m)) with (Z.succ (Z.pos (Pos.size m) - 1)) in H1, H2 |- * by lia. 
  rewrite Z.pow_succ_r in H1, H2 by lia. rewrite Z.pow_succ_r by lia. 
  replace (Z.succ (Z.pos (Pos.size m) - 1) - 1) with (Z.pos (Pos.size m) - 1) by lia. lia.
Qed.

Lemma size_shift k m : Pos.size (shift_pos k m) = (Pos.size m + k)%positive.
Proof.
  unfold shift_pos. revert k. apply Pos.peano_ind.
  - simpl. lia.
  - intros k IH. rewrite Pos.iter_succ. simpl. rewrite IH. lia.
Qed.

(** A natural number below 2^53 as a double. *)
Definition d_scaled (m : positive) : positive := 
  match (53 - Z.pos (Pos.size m))%Z with Z.pos k => shift_pos k m | _ => m end.

Lemma shr_zero mrs e n : n ≤ 0 → shr mrs e n = (mrs, e).
Proof. by destruct n. Qed.

Lemma shr_fexp_exact m e : fexp 53 1024 (Z.pos (Pos.size m) + e) - e ≤ 0 →
  shr_fexp 53 1024 (Z.pos m) e loc_Exact = (Build_shr_record (Z.pos m) false false, e).
Proof. intros Hf. unfold shr_fexp. simpl. rewrite digits2_size. by apply shr_zero. Qed.

Lemma d_of_pos m : Z.pos m < 2 ^ 53 → d_of_Z (Z.pos m) = S754_finite false (d_scaled m) (Z.pos (Pos.size m) - 53).
Proof.
  intros Hm. pose proof (size_bounds m) as [Hlo _]. 
  assert (Z.pos (Pos.size m) - 1 < 53) as Hs by (apply (Z.pow_lt_mono_r_iff 2); lia). 
  assert (fexp 53 1024 (Z.pos (Pos.size m)) = Z.pos (Pos.size m) - 53) as Hf by (unfold fexp, emin; lia).
  unfold d_of_Z, binary_normalize, binary_round. rewrite digits2_size, Z.add_0_r, Hf.
  unfold shl_align. rewrite Z.sub_0_r.
  assert (binary_round_aux 53 1024 false (Z.pos (d_scaled m)) (Z.pos (Pos.size m) - 53) loc_Exact =
    S754_finite false (d_scaled m) (Z.pos (Pos.size m) - 53)) as Hr.
  { assert (Z.pos (Pos.size (d_scaled m)) = 53) as Hsz.
    { unfold d_scaled. destruct (53 - Z.pos (Pos.size m)) as [|k|k] eqn:E; [lia| |lia]. rewrite size_shift. lia. }
    assert (fexp 53 1024 (Z.pos (Pos.size (d_scaled m)) + (Z.pos (Pos.size m) - 53)) - (Z.pos (Pos.size m) - 53) ≤ 0) as Hz.
    { rewrite Hsz. replace (53 + (Z.pos (Pos.size m) - 53)) with (Z.pos (Pos.size m)) by lia. lia. }
    unfold binary_round_aux. rewrite (shr_fexp_exact _ _ Hz). simpl round_nearest_even. simpl shr_m. 
    rewrite (shr_fexp_exact _ _ Hz). simpl shr_m. cbv iota. by rewrite (proj2 (Z.leb_le _ _)) by lia. }
  unfold d_scaled in *. destruct (53 - Z.pos (Pos.size m)) as [|k|k] eqn:E; [| |lia].
  - replace (Z.pos (Pos.size m) - 53) with 0 in * by lia. exact Hr.
  - replace (Z.pos (Pos.size m) - 53) with (Z.neg k) in * by lia. exact Hr.
Qed.

Lemma d_scaled_mul m : Z.pos m < 2 ^ 53 → Z.pos (d_scaled m) = Z.pos m * 2 ^ (53 - Z.pos (Pos.size m)).
Proof.
  intros Hm. pose proof (size_bounds m) as [Hlo _]. 
  assert (Z.pos (Pos.size m) - 1 < 53) as Hs by (apply (Z.pow_lt_mono_r_iff 2); lia). 
  unfold d_scaled. destruct (53 - Z.pos (Pos.size m)) as [|k|k] eqn:E; [lia|apply shift_pos_mul|lia].
Qed.

Lemma d_of_Z_lt a b : 0 ≤ a < 2 ^ 53 → 0 ≤ b < 2 ^ 53 → d_lt (d_of_Z a) (d_of_Z b) = (a <? b).
Proof.
  intros Ha Hb. destruct a as [|a|a]; [|destruct b as [|b|b]; [|clear - Ha Hb|lia]|lia].
  - destruct b as [|b|b]; [done| |lia]. rewrite d_of_pos by lia. done.
  - rewrite d_of_pos by lia. done.
  - destruct Ha as [_ Ha], Hb as [_ Hb]. rewrite !d_of_pos by lia. unfold d_lt, SFltb, SFcompare.
    pose proof (size_bounds a) as [Ha1 Ha2]. pose proof (size_bounds b) as [Hb1 Hb2].
    destruct (Z.compare_spec (Z.pos (Pos.size a) - 53) (Z.pos (Pos.size b) - 53)) as [E|E|E].
    + assert (Pos.size a = Pos.size b) as Es by lia. rewrite pos_compare_cont.
      assert ((Z.pos (d_scaled a) ?= Z.pos (d_scaled b)) = (Z.pos a ?= Z.pos b)) as Hc.
      { rewrite !d_scaled_mul, Es by lia. 
        assert (0 < 2 ^ (53 - Z.pos (Pos.size b))) by (apply Z.pow_pos_nonneg; [lia|]; assert (Z.pos (Pos.size b) - 1 < 53) by (apply (Z.pow_lt_mono_r_iff 2); lia); lia).
        rewrite <- Zmult_compare_compat_r by lia. done. }
      rewrite Hc. destruct (Z.compare_spec (Z.pos a) (Z.pos b)); symmetry; lia.
    + assert (2 ^ Z.pos (Pos.size a) ≤ 2 ^ (Z.pos (Pos.size b) - 1)) by (apply Z.pow_le_mono_r; lia). symmetry. lia.
    + assert (2 ^ Z.pos (Pos.size b) ≤ 2 ^ (Z.pos (Pos.size a) - 1)) by (apply Z.pow_le_mono_r; lia). symmetry. lia.
Qed.

Lemma d_of_Z_num a : 0 ≤ a < 2 ^ 53 → d_num (d_of_Z a).
Proof. intros Ha. destruct a as [|a|a]; [done| |lia]. by rewrite d_of_pos by lia. Qed.

(** *** Sums of numbers that are not negative *)

Lemma shr_1_nonneg r : 0 ≤ shr_m r → 0 ≤ shr_m (shr_1 r).
Proof. destruct r as [m r s]. simpl. destruct m as [|[p|p|]|p]; simpl; lia. Qed.

Lemma shr_nonneg r e n : 0 ≤ shr_m r → 0 ≤ shr_m (shr r e n).1.
Proof.
  intros Hr. destruct n as [|p|p]; simpl; try done. 
  revert r Hr. induction p as [p IH|p IH|]; intros r Hr; simpl; auto using shr_1_nonneg.
Qed.

Lemma shr_fexp_nonneg m e l : 0 ≤ m → 0 ≤ shr_m (shr_fexp 53 1024 m e l).1.
Proof. intros Hm. apply shr_nonneg. by destruct l as [|[]]. Qed.

Lemma round_nonneg m l : 0 ≤ m → 0 ≤ round_nearest_even m l.
Proof. unfold round_nearest_even. destruct l as [|[]]; try destruct (Z.even m); simpl; lia. Qed.

Lemma binary_round_aux_num mx ex lx : 0 ≤ mx → d_num (binary_round_aux 53 1024 false mx ex lx).
Proof.
  intros Hm. unfold binary_round_aux. pose proof (shr_fexp_nonneg mx ex lx Hm) as H1. destruct (shr_fexp _ _ mx ex lx) as [r1 e1]. simpl in H1.
  pose proof (shr_fexp_nonneg (round_nearest_even (shr_m r1) (loc_of_shr_record r1)) e1 loc_Exact (round_nonneg _ _ H1)) as H2.
  destruct (shr_fexp _ _ _ e1 _) as [r2 e2]. simpl in H2. destruct (shr_m r2); [done| |lia]. by destruct (_ <=? _).
Qed.

(** A number that is not negative; the zero is positive. *)
Definition d_nonneg (x : double) : Prop := d_pos_sign x = true ∧ d_num x.

Lemma d_add_nonneg x y : d_nonneg x → d_nonneg y → d_nonneg (d_add x y).
Proof.
  unfold d_nonneg, d_add, SFadd. intros [Hx Nx] [Hy Ny].
  destruct x as [[]|[]| |[] m1 e1], y as [[]|[]| |[] m2 e2]; try done.
  unfold cond_Zopp. set (z := _ + _). assert (0 ≤ z) as Hz by (unfold z; lia). clearbody z.
  unfold binary_normalize. destruct z as [|p|p]; [done| |lia]. unfold binary_round. destruct (shl_align _ _ _).
  split; [apply binary_round_aux_pos|by apply binary_round_aux_num].
Qed.
