(* ===== verification/DoubleBounds.v ===== *)
(** * Sizes of doubles

    A double whose magnitude is bounded by a power of two stays bounded under the
    four operations, so that it is neither infinite nor NaN and its conversion to
    [int] is defined. The bounds are coarse: one bit is added for each rounding. *)
From S2P Require Import Prelude CNum.
From Stdlib Require Import SpecFloat.

(** [|x| < 2^k]. *)
Definition fits (k : Z) (x : double) : Prop :=
  match x with
  | S754_zero _ => True
  | S754_finite _ m e => Z.pos (Pos.size m) + e ≤ k
  | _ => False
  end.

Lemma fits_weaken k k' x : k ≤ k' → fits k x → fits k' x.
Proof. intros Hk. destruct x; simpl; [done..|lia]. Qed.

Lemma size_below m k : Z.pos m < 2 ^ k → Z.pos (Pos.size m) ≤ k.
Proof.
  intros Hm. pose proof (size_bounds m) as [Hlo _]. destruct (Z.lt_ge_cases k 0) as [Hk|Hk].
  - rewrite Z.pow_neg_r in Hm by done. lia.
  - assert (Z.pos (Pos.size m) - 1 < k) by (apply (Z.pow_lt_mono_r_iff 2); lia). lia.
Qed.

Lemma digits_below z k : 0 ≤ z < 2 ^ k → Zdigits2 z ≤ Z.max 0 k.
Proof. intros [H1 H2]. destruct z as [|m|m]; simpl; [lia| |lia]. rewrite digits2_size. apply size_below in H2. lia. Qed.

Lemma digits_above z : 0 ≤ z → z < 2 ^ Zdigits2 z.
Proof. intros Hz. destruct z as [|m|m]; simpl; [lia| |lia]. rewrite digits2_size. apply size_bounds. Qed.

(** ** Rounding *)

Lemma digits_succ z : 0 ≤ z → Zdigits2 (z + 1) ≤ Zdigits2 z + 1.
Proof.
  intros Hz. pose proof (digits_above z Hz) as Hd. assert (0 ≤ Zdigits2 z) as H0 by (by destruct z).
  pose proof (digits_below (z + 1) (Zdigits2 z + 1)) as Hb. rewrite Z.pow_add_r in Hb by lia.
  assert (0 < 2 ^ Zdigits2 z) by (by apply Z.pow_pos_nonneg). lia.
Qed.

Lemma shr_1_digits r : 0 ≤ shr_m r → 0 ≤ shr_m (shr_1 r) ∧ (shr_m (shr_1 r) = 0 ∨ Zdigits2 (shr_m (shr_1 r)) + 1 = Zdigits2 (shr_m r)).
Proof.
  destruct r as [[|[m|m|]|m] b s]; simpl; intros Hm; try lia; (split; [lia|]); try (by left); right; lia.
Qed.

Lemma shr_digits p : ∀ r, 0 ≤ shr_m r → 0 ≤ shr_m (iter_pos shr_1 p r) ∧
  (shr_m (iter_pos shr_1 p r) = 0 ∨ Zdigits2 (shr_m (iter_pos shr_1 p r)) + Z.pos p = Zdigits2 (shr_m r)).
Proof.
  assert (∀ r r' a b, (shr_m r' = 0 ∨ Zdigits2 (shr_m r') + Z.pos a = Zdigits2 (shr_m r)) → ∀ r'', (shr_m r'' = 0 ∨ Zdigits2 (shr_m r'') + Z.pos b = Zdigits2 (shr_m r')) →
    0 ≤ shr_m r'' → shr_m r'' = 0 ∨ Zdigits2 (shr_m r'') + Z.pos (a + b) = Zdigits2 (shr_m r)) as Htr.
  { intros r r' a b H1 r'' H2 H3. destruct H2 as [H2|H2]; [by left|]. destruct H1 as [H1|H1]; [|right; lia].
    rewrite H1 in H2. assert (0 ≤ Zdigits2 (shr_m r'')) by (by destruct (shr_m r'')). simpl in H2. lia. }
  induction p as [p IH|p IH|]; intros r Hr; cbn [iter_pos].
  - destruct (shr_1_digits r Hr) as [Ha1 Ha2]. destruct (IH (shr_1 r) Ha1) as [Hb1 Hb2]. destruct (IH _ Hb1) as [Hc1 Hc2]. split; [done|].
    replace (p~1)%positive with (1 + (p + p))%positive by lia. eapply Htr; [exact Ha2| |done]. eapply Htr; [exact Hb2|exact Hc2|done].
  - destruct (IH r Hr) as [Hb1 Hb2]. destruct (IH _ Hb1) as [Hc1 Hc2]. split; [done|].
    replace (p~0)%positive with (p + p)%positive by lia. eapply Htr; [exact Hb2|exact Hc2|done].
  - by apply shr_1_digits.
Qed.

Lemma shr_fexp_fits m e l k : -1073 ≤ k → 0 ≤ m → Z.max 1 (Zdigits2 m) + e ≤ k →
  let '(r, e') := shr_fexp 53 1024 m e l in 0 ≤ shr_m r ∧ Z.max 1 (Zdigits2 (shr_m r)) + e' ≤ k.
Proof.
  intros Hk Hm Hd. unfold shr_fexp. set (r0 := shr_record_of_loc m l).
  assert (shr_m r0 = m) as E0 by (by destruct l as [|[]]). set (n := fexp 53 1024 (Zdigits2 m + e) - e).
  destruct n as [|p|p] eqn:En; simpl; rewrite ?E0; [done| |done].
  destruct (shr_digits p r0) as [H1 H2]; [by rewrite E0|]. rewrite E0 in H2. split; [done|].
  assert (Z.pos p = fexp 53 1024 (Zdigits2 m + e) - e) as Ep by done. unfold fexp, emin in Ep. destruct H2 as [-> |H2]; simpl; lia.
Qed.

Lemma round_fits sx m e l k : -1073 ≤ k ≤ 971 → 0 ≤ m → Z.max 1 (Zdigits2 m) + e ≤ k → fits (k + 1) (binary_round_aux 53 1024 sx m e l).
Proof.
  intros Hk Hm Hd. unfold binary_round_aux. pose proof (shr_fexp_fits m e l k ltac:(lia) Hm Hd) as H1. destruct (shr_fexp 53 1024 m e l) as [r1 e1].
  destruct H1 as [Hm1 Hd1]. set (M := round_nearest_even _ _).
  assert (0 ≤ M ∧ Z.max 1 (Zdigits2 M) + e1 ≤ k + 1) as [HM HdM].
  { pose proof (digits_succ (shr_m r1) Hm1). assert (M = shr_m r1 ∨ M = shr_m r1 + 1) as [->| ->]; [|lia..].
    unfold M, round_nearest_even. destruct (loc_of_shr_record r1) as [|[]]; [by left| |by left|by right]. destruct (Z.even _); [by left|by right]. }
  pose proof (shr_fexp_fits M e1 loc_Exact (k + 1) ltac:(lia) HM HdM) as H2. destruct (shr_fexp 53 1024 M e1 loc_Exact) as [r2 e2]. destruct H2 as [Hm2 Hd2].
  destruct (shr_m r2) as [|m2|m2]; [done| |lia]. simpl in Hd2. rewrite digits2_size in Hd2. rewrite (proj2 (Z.leb_le _ _)) by lia. simpl. lia.
Qed.

Lemma shl_align_val m e e' : e' ≤ e → Z.pos (shl_align m e e').1 = Z.pos m * 2 ^ (e - e').
Proof.
  intros He. unfold shl_align. destruct (e' - e) as [|p|p] eqn:E; [|lia|].
  - replace (e - e') with 0 by lia. simpl. lia.
  - replace (e - e') with (Z.pos p) by lia. apply shift_pos_mul.
Qed.

Lemma normalize_fits z e b k : -1073 ≤ k ≤ 971 → e ≤ k → Z.abs z < 2 ^ (k - e) → fits (k + 1) (binary_normalize 53 1024 z e b).
Proof.
  intros Hk He Hz. assert (∀ sx m, Z.pos m < 2 ^ (k - e) → fits (k + 1) (binary_round 53 1024 sx m e)) as Hround.
  { intros sx m Hm. apply size_below in Hm. unfold binary_round. rewrite digits2_size. unfold shl_align.
    destruct (fexp 53 1024 (Z.pos (Pos.size m) + e) - e) as [|p|p] eqn:Ep; apply round_fits; try lia; cbn [Zdigits2]; rewrite digits2_size; try lia.
    change (Pos.iter xO m p) with (shift_pos p m). rewrite size_shift. lia. }
  destruct z as [|m|m]; simpl; [done|by apply Hround|]. apply Hround. simpl in Hz. done.
Qed.

(** ** Operations *)

Lemma fits_of_Z z k : 0 ≤ z < 2 ^ k → 0 ≤ k ≤ 53 → fits k (d_of_Z z).
Proof.
  intros Hz Hk. destruct z as [|m|m]; [done| |lia].
  assert (Z.pos m < 2 ^ 53) as Hm by (eapply Z.lt_le_trans; [apply Hz|apply Z.pow_le_mono_r; lia]).
  rewrite d_of_pos by done. simpl.
  assert (Z.pos (d_scaled m) < 2 ^ 53) as Hs.
  { rewrite d_scaled_mul by done. pose proof (size_bounds m) as [_ Hhi]. pose proof (size_below m 53 Hm).
    replace (2 ^ 53) with (2 ^ Z.pos (Pos.size m) * 2 ^ (53 - Z.pos (Pos.size m))) by (rewrite <- Z.pow_add_r by lia; f_equal; lia).
    apply Z.mul_lt_mono_pos_r; [by apply Z.pow_pos_nonneg; lia|done]. }
  apply size_below in Hs. pose proof (size_below m k (proj2 Hz)). lia.
Qed.

Lemma fits_mul x y kx ky : fits kx x → fits ky y → -1073 ≤ kx + ky ≤ 971 → fits (kx + ky + 1) (d_mul x y).
Proof.
  unfold d_mul, SFmul. destruct x as [s1|s1| |s1 m1 e1], y as [s2|s2| |s2 m2 e2]; simpl; try done. intros H1 H2 Hk.
  apply round_fits; [lia|lia|]. cbn [Zdigits2]. rewrite digits2_size.
  assert (Z.pos (m1 * m2) < 2 ^ (Z.pos (Pos.size m1) + Z.pos (Pos.size m2))) as Hm.
  { rewrite Z.pow_add_r, Pos2Z.inj_mul by lia. pose proof (size_bounds m1). pose proof (size_bounds m2). apply Z.mul_lt_mono_nonneg; lia. }
  apply size_below in Hm. lia.
Qed.

Lemma aligned_below m e ez k : ez ≤ e → Z.pos (Pos.size m) + e ≤ k → Z.pos (shl_align m e ez).1 < 2 ^ (k - ez).
Proof.
  intros He Hk. rewrite shl_align_val by done. pose proof (size_bounds m) as [_ Hhi].
  apply (Z.lt_le_trans _ (2 ^ Z.pos (Pos.size m) * 2 ^ (e - ez))); [apply Z.mul_lt_mono_pos_r; [apply Z.pow_pos_nonneg; lia|done]|].
  rewrite <- Z.pow_add_r by lia. apply Z.pow_le_mono_r; lia.
Qed.

Lemma sum_fits s1 m1 e1 s2 m2 e2 k (op : Z → Z → Z) : (∀ a b, Z.abs (op a b) ≤ Z.abs a + Z.abs b) → -1073 ≤ k ≤ 970 →
  Z.pos (Pos.size m1) + e1 ≤ k → Z.pos (Pos.size m2) + e2 ≤ k →
  fits (k + 2) (binary_normalize 53 1024 (op (cond_Zopp s1 (Z.pos (shl_align m1 e1 (Z.min e1 e2)).1)) (cond_Zopp s2 (Z.pos (shl_align m2 e2 (Z.min e1 e2)).1))) (Z.min e1 e2) false).
Proof.
  intros Hop Hk H1 H2. replace (k + 2) with (k + 1 + 1) by lia. apply normalize_fits; [lia|lia|].
  pose proof (aligned_below m1 e1 (Z.min e1 e2) k ltac:(lia) H1). pose proof (aligned_below m2 e2 (Z.min e1 e2) k ltac:(lia) H2).
  replace (k + 1 - Z.min e1 e2) with (Z.succ (k - Z.min e1 e2)) by lia. rewrite Z.pow_succ_r by lia.
  eapply Z.le_lt_trans; [apply Hop|]. destruct s1, s2; simpl in *; lia.
Qed.

Lemma fits_add x y k : fits k x → fits k y → -1073 ≤ k ≤ 970 → fits (k + 2) (d_add x y).
Proof.
  unfold d_add, SFadd. destruct x as [s1|s1| |s1 m1 e1], y as [s2|s2| |s2 m2 e2]; cbn [fits]; try done; try (intros; lia).
  - by destruct s1, s2.
  - intros. apply (sum_fits _ _ _ _ _ _ _ Z.add); [lia|done|done|done].
Qed.

Lemma fits_sub x y k : fits k x → fits k y → -1073 ≤ k ≤ 970 → fits (k + 2) (d_sub x y).
Proof.
  unfold d_sub, SFsub. destruct x as [s1|s1| |s1 m1 e1], y as [s2|s2| |s2 m2 e2]; cbn [fits]; try done; try (intros; lia).
  - by destruct s1, s2.
  - intros. apply (sum_fits _ _ _ _ _ _ _ Z.sub); [lia|done|done|done].
Qed.

(** The divisor is at least [2^(j - 1)]. *)
Lemma fits_div x s2 m2 e2 k j : fits k x → j ≤ Z.pos (Pos.size m2) + e2 → -1073 ≤ k - j + 1 ≤ 971 → fits (k - j + 2) (d_div x (S754_finite s2 m2 e2)).
Proof.
  unfold d_div, SFdiv. destruct x as [s1|s1| |s1 m1 e1]; cbn [fits]; try done. intros H1 H2 Hk.
  set (t := Z.pos (Pos.size m1) + e1 - (Z.pos (Pos.size m2) + e2)). set (e' := Z.min (fexp 53 1024 t) (e1 - e2)). set (s := e1 - e2 - e').
  assert (SFdiv_core_binary 53 1024 (Z.pos m1) e1 (Z.pos m2) e2 =
    let '(q, r) := Z.div_eucl (Z.pos m1 * 2 ^ s) (Z.pos m2) in (q, e', new_location (Z.pos m2) r)) as ->.
  { unfold SFdiv_core_binary. cbn [Zdigits2]. rewrite !digits2_size. fold t. fold e'. fold s.
    replace (Z.pos m1 * 2 ^ s) with (match s with Z0 => Z.pos m1 | Z.pos _ => Z.shiftl (Z.pos m1) s | Z.neg _ => 0 end); [done|].
    destruct s as [|p|p] eqn:Es; [simpl; lia|by rewrite Z.shiftl_mul_pow2|unfold s, e' in Es; lia]. }
  pose proof (Z_div_mod (Z.pos m1 * 2 ^ s) (Z.pos m2) ltac:(lia)) as Hq. destruct (Z.div_eucl _ _) as [q r]. destruct Hq as [Hq Hr].
  assert (0 ≤ s) as Hs by (unfold s, e'; lia). pose proof (size_bounds m1) as [_ Hm1]. pose proof (size_bounds m2) as [Hm2 _].
  assert (0 < 2 ^ s) as Hps by (by apply Z.pow_pos_nonneg). assert (0 ≤ q) as Hq0 by nia.
  assert (q < 2 ^ (Z.pos (Pos.size m1) + s - Z.pos (Pos.size m2) + 1) ∨ q = 0) as Hqb.
  { destruct (decide (q = 0)) as [|Hqn]; [by right|left].
    assert (q * 2 ^ (Z.pos (Pos.size m2) - 1) < 2 ^ (Z.pos (Pos.size m1) + s)) as Hlt.
    { rewrite Z.pow_add_r by lia. eapply Z.le_lt_trans; [apply Z.mul_le_mono_nonneg_l; [done|exact Hm2]|]. nia. }
    destruct (Z.lt_ge_cases (Z.pos (Pos.size m1) + s) (Z.pos (Pos.size m2) - 1)) as [Hc|Hc].
    { assert (2 ^ (Z.pos (Pos.size m1) + s) ≤ 2 ^ (Z.pos (Pos.size m2) - 1)) by (apply Z.pow_le_mono_r; lia). nia. }
    replace (Z.pos (Pos.size m1) + s) with ((Z.pos (Pos.size m1) + s - Z.pos (Pos.size m2) + 1) + (Z.pos (Pos.size m2) - 1)) in Hlt by lia.
    rewrite Z.pow_add_r in Hlt by lia. apply Z.mul_lt_mono_pos_r in Hlt; [done|]. apply Z.pow_pos_nonneg; lia. }
  replace (k - j + 2) with (k - j + 1 + 1) by lia. apply round_fits; [lia|done|].
  assert (e' ≤ Z.max (t - 53) (-1074)) as He' by (unfold e', fexp, emin; lia).
  assert (Zdigits2 q ≤ Z.max 0 (Z.pos (Pos.size m1) + s - Z.pos (Pos.size m2) + 1)) as Hdq.
  { destruct Hqb as [Hqb| ->]; [apply digits_below; lia|simpl; lia]. }
  unfold s, t in *. lia.
Qed.

(** ** Conversion to [int] *)

Lemma fits_trunc x k : fits k x → 0 ≤ k → ∃ z, d_trunc x = Some z ∧ - 2 ^ k < z < 2 ^ k.
Proof.
  intros Hx Hk. assert (0 < 2 ^ k) by (by apply Z.pow_pos_nonneg). destruct x as [s|s| |s m e]; simpl in Hx; try done; [exists 0; simpl; split; [done|lia]|].
  cbn [d_trunc]. eexists. split; [done|]. pose proof (size_bounds m) as [_ Hm].
  assert (0 ≤ (if 0 <=? e then Z.shiftl (Z.pos m) e else Z.shiftr (Z.pos m) (- e)) < 2 ^ k) as Ha.
  { destruct (0 <=? e) eqn:Ee; [apply Z.leb_le in Ee|apply Z.leb_gt in Ee].
    - rewrite Z.shiftl_mul_pow2 by done. split; [nia|]. apply (Z.lt_le_trans _ (2 ^ Z.pos (Pos.size m) * 2 ^ e)).
      + apply Z.mul_lt_mono_pos_r; [by apply Z.pow_pos_nonneg|done].
      + rewrite <- Z.pow_add_r by lia. apply Z.pow_le_mono_r; lia.
    - rewrite Z.shiftr_div_pow2 by lia. assert (0 < 2 ^ (- e)) by (apply Z.pow_pos_nonneg; lia). split; [by apply Z.div_pos|].
      apply Z.div_lt_upper_bound; [done|]. apply (Z.lt_le_trans _ (2 ^ Z.pos (Pos.size m))); [done|].
      rewrite <- Z.pow_add_r by lia. apply Z.pow_le_mono_r; lia. }
  destruct s; lia.
Qed.

Lemma fits_to_int x k : fits k x → 0 ≤ k ≤ 31 → is_Some (d_to_int x).
Proof.
  intros Hx Hk. destruct (fits_trunc x k Hx) as (z & Hz & Hb); [lia|]. unfold d_to_int. rewrite Hz. cbn [mbind option_bind].
  assert (2 ^ k ≤ 2 ^ 31) by (apply Z.pow_le_mono_r; lia). rewrite (proj2 (Z.leb_le _ _)), (proj2 (Z.ltb_lt _ _)) by lia. by eexists.
Qed.
