(* ===== verification/OrderedMap.v ===== *)
(** * [std::map] as a sorted list

    The keys are compared by a strict weak order on the keys in use; two keys
    neither of which is below the other are the same key for the map. *)
From S2P Require Import Prelude CNum.

Section ordered_map.
Context {K V : Type} (lt : K → K → bool).

Definition same_key (x y : K) : bool := negb (lt x y) && negb (lt y x).

Fixpoint om_get (x : K) (m : list (K * V)) : option V :=
  match m with [] => None | (y, v) :: m => if same_key y x then Some v else om_get x m end.

(** [m[x] = f(m[x])], inserting the key when it is not there. *)
Fixpoint om_update (f : option V → V) (x : K) (m : list (K * V)) : list (K * V) :=
  match m with
  | [] => [(x, f None)]
  | (y, v) :: m' =>
      if lt x y then (x, f None) :: m
      else if lt y x then (y, v) :: om_update f x m'
      else (y, f (Some v)) :: m'
  end.

Definition om_put (x : K) (v : V) : list (K * V) → list (K * V) := om_update (λ _, v) x.

Context (P : K → Prop) `{!StrictWeakOn P lt}.

Definition om_ok (m : list (K * V)) : Prop :=
  Forall (λ e, P e.1) m ∧ StronglySorted (λ a b, lt a.1 b.1 = true) m.

Lemma om_nil_ok : om_ok [].
Proof. split; constructor. Qed.

Lemma same_key_spec x y : same_key x y = true ↔ lt x y = false ∧ lt y x = false.
Proof. unfold same_key. rewrite andb_true_iff, !negb_true_iff. done. Qed.

Lemma same_key_comm x y : same_key x y = same_key y x.
Proof. apply andb_comm. Qed.

Lemma same_key_lt x y z : P x → P y → P z → same_key x y = true → lt y z = lt x z.
Proof.
  intros Hx Hy Hz [E1 E2]%same_key_spec. destruct (lt y z) eqn:F.
  - symmetry. by apply (swo_le_lt_trans x y z).
  - symmetry. by apply (swo_ntrans x y z).
Qed.

Lemma same_key_gt x y z : P x → P y → P z → same_key x y = true → lt z y = lt z x.
Proof.
  intros Hx Hy Hz [E1 E2]%same_key_spec. destruct (lt z x) eqn:F.
  - destruct (lt z y) eqn:G; [done|]. by rewrite (swo_ntrans z y x Hz Hy Hx G E2) in F.
  - by apply (swo_ntrans z x y).
Qed.

Lemma same_key_trans x y z : P x → P y → P z → same_key x y = true → same_key y z = same_key x z.
Proof.
  intros Hx Hy Hz E. unfold same_key. by rewrite (same_key_lt x y z Hx Hy Hz E), (same_key_gt x y z Hx Hy Hz E).
Qed.

Lemma lt_not_same x y : P x → P y → lt x y = true → same_key x y = false ∧ same_key y x = false.
Proof. intros Hx Hy E. unfold same_key. by rewrite E, andb_false_r. Qed.

Lemma om_get_above x m : P x → Forall (λ e, P e.1 ∧ lt x e.1 = true) m → om_get x m = None.
Proof.
  intros Hx. induction 1 as [|[y v] m [Hy E] _ IH]; [done|]. simpl in *.
  by rewrite (proj2 (lt_not_same x y Hx Hy E)).
Qed.

Lemma om_update_keys f x m (Q : K → Prop) : Q x → Forall (λ e, Q e.1) m → Forall (λ e, Q e.1) (om_update f x m).
Proof.
  intros Hx. induction 1 as [|[y v] m Hy Hm IH]; simpl; [by repeat constructor|].
  destruct (lt x y); [by repeat constructor|]. destruct (lt y x); by constructor.
Qed.

Lemma om_update_ok f x m : P x → om_ok m → om_ok (om_update f x m).
Proof.
  intros Hx [Hk Hs]. split; [by apply om_update_keys|].
  induction Hs as [|[y v] m Hs IH Hy]; [by repeat constructor|]. inversion_clear Hk as [|?? Hpy Hk']. simpl in Hpy. simpl.
  destruct (lt x y) eqn:E1.
  - constructor; [by constructor|]. constructor; [done|].
    rewrite Forall_forall in Hy, Hk' |- *. intros e He. specialize (Hy e He). specialize (Hk' e He). simpl in *.
    by apply (swo_trans x y e.1).
  - destruct (lt y x) eqn:E2.
    + constructor; [by apply IH|]. apply (om_update_keys f x m (λ z, lt y z = true)); [done|done].
    + by constructor.
Qed.

Lemma om_get_update f x m y : P x → P y → om_ok m →
  om_get y (om_update f x m) = if same_key x y then Some (f (om_get x m)) else om_get y m.
Proof.
  intros Hx Hy [Hk Hs]. induction Hs as [|[z v] m Hs IH Hz]; [done|]. inversion_clear Hk as [|?? Hpz Hk']. simpl in Hpz.
  cbn [om_update]. destruct (lt x z) eqn:E1.
  - cbn [om_get]. destruct (same_key x y) eqn:E; [|done].
    rewrite (proj2 (lt_not_same x z Hx Hpz E1)). rewrite om_get_above; [done|done|].
    rewrite Forall_forall in Hz, Hk' |- *. intros e He. split; [by apply Hk'|].
    apply (swo_trans x z e.1); [done|done|by apply Hk'|done|by apply Hz].
  - destruct (lt z x) eqn:E2.
    + cbn [om_get]. rewrite (proj1 (lt_not_same z x Hpz Hx E2)), (IH Hk').
      destruct (same_key x y) eqn:E; [|done].
      assert (same_key z y = false) as ->; [|done].
      rewrite same_key_comm, (same_key_trans x y z Hx Hy Hpz E). apply (proj2 (lt_not_same z x Hpz Hx E2)).
    + cbn [om_get]. assert (same_key z x = true) as Ezx by by apply same_key_spec.
      rewrite Ezx, <- (same_key_trans z x y Hpz Hx Hy Ezx). by destruct (same_key x y).
Qed.

Lemma om_get_same x y m : P x → P y → Forall (λ e, P e.1) m → same_key x y = true → om_get x m = om_get y m.
Proof.
  intros Hx Hy Hm E. induction Hm as [|[z v] m Hz _ IH]; [done|]. simpl in *.
  rewrite IH, !(same_key_comm z), (same_key_trans x y z Hx Hy Hz E). done.
Qed.
End ordered_map.

#[export] Instance Z_ltb_strict_weak : StrictWeakOn (λ _ : Z, True) Z.ltb.
Proof. split; intros; lia. Qed.

(** ** Maps with integer keys *)

Section int_keys.
Context {V : Type}.
Implicit Types m : list (Z * V).

Notation zok := (om_ok Z.ltb (λ _ : Z, True)).
Notation zget := (om_get Z.ltb).

Lemma same_key_Z x y : same_key Z.ltb x y = bool_decide (x = y).
Proof.
  unfold same_key. destruct (decide (x = y)) as [->|Hne].
  - by rewrite bool_decide_true, Z.ltb_irrefl.
  - rewrite bool_decide_false by done. destruct (x <? y) eqn:E1, (y <? x) eqn:E2; bool_cases; try done; lia.
Qed.

Lemma om_update_okZ f x m : zok m → zok (om_update Z.ltb f x m).
Proof. by apply (om_update_ok Z.ltb (λ _, True)). Qed.

Lemma om_get_updateZ f x m y : zok m →
  zget y (om_update Z.ltb f x m) = if decide (x = y) then Some (f (zget x m)) else zget y m.
Proof.
  intros Hm. rewrite (om_get_update Z.ltb (λ _, True)), same_key_Z by done.
  destruct (decide (x = y)); [by rewrite bool_decide_true|by rewrite bool_decide_false].
Qed.

Lemma om_cons_okZ e m : zok (e :: m) → zok m ∧ Forall (λ e', e.1 < e'.1) m ∧ zget e.1 m = None.
Proof.
  intros [Hk Hs]. inversion_clear Hk. inversion_clear Hs as [|?? Hs' He]. split; [by split|].
  assert (Forall (λ e', e.1 < e'.1) m) as Hlt by (eapply Forall_impl; [exact He|]; simpl; lia). split; [done|].
  apply (om_get_above Z.ltb (λ _, True)); [done|]. eapply Forall_impl; [exact He|]. done.
Qed.

Lemma om_elemZ m x v : zok m → (x, v) ∈ m ↔ zget x m = Some v.
Proof.
  induction m as [|[y w] m IH]; intros Hm; [by rewrite elem_of_nil|].
  destruct (om_cons_okZ (y, w) m Hm) as (Hm' & Hlt & Hnone). simpl in *. rewrite elem_of_cons, (IH Hm'), same_key_Z.
  destruct (decide (y = x)) as [->|Hne].
  - rewrite bool_decide_true by done. split; [intros [[= ->]|E]; [done|congruence]|]. intros [= ->]. by left.
  - rewrite bool_decide_false by done. split; [intros [[= ->]|E]; done|by right].
Qed.

Lemma om_keys_NoDupZ m : zok m → NoDup (map fst m).
Proof.
  induction m as [|[y w] m IH]; intros Hm; [constructor|]. destruct (om_cons_okZ (y, w) m Hm) as (Hm' & Hlt & _). simpl.
  constructor; [|by apply IH]. intros (e & Hy & He)%list_elem_of_fmap. rewrite Forall_forall in Hlt.
  specialize (Hlt e He). simpl in *. lia.
Qed.

(** Writing back what is there. *)
Lemma om_update_sameZ f x m v : zok m → zget x m = Some v → f (Some v) = v → om_update Z.ltb f x m = m.
Proof.
  intros Hm E Hf. induction m as [|[y w] m IH]; [done|]. destruct (om_cons_okZ (y, w) m Hm) as (Hm' & Hlt & Hnone).
  cbn [om_update om_get] in *. rewrite same_key_Z in E. destruct (decide (y = x)) as [->|Hne].
  - rewrite bool_decide_true in E by done. injection E as ->. by rewrite Z.ltb_irrefl, Hf.
  - rewrite bool_decide_false in E by done. apply om_elemZ in E; [|done]. rewrite Forall_forall in Hlt. pose proof (Hlt _ E) as Hl. simpl in Hl.
    rewrite (proj2 (Z.ltb_ge x y)), (proj2 (Z.ltb_lt y x)) by lia. f_equal. apply IH; [done|]. by apply om_elemZ.
Qed.
End int_keys.

(** ** Tables of numbers: a key is there when its number is not zero *)

Section numbers.
Definition counts_to (m : list (Z * Z)) (f : Z → Z) : Prop :=
  om_ok Z.ltb (λ _, True) m ∧ ∀ x, om_get Z.ltb x m = if decide (f x = 0) then None else Some (f x).

Definition add_one (n : option Z) : Z := default 0 n + 1.

Lemma counts_to_nil : counts_to [] (λ _, 0).
Proof. split; [apply om_nil_ok|done]. Qed.

Lemma counts_to_ext m f g : counts_to m f → (∀ x, f x = g x) → counts_to m g.
Proof. intros [Hm Hget] Hfg. split; [done|]. intros x. by rewrite Hget, Hfg. Qed.

Lemma counts_to_add m f x : counts_to m f → 0 ≤ f x →
  counts_to (om_update Z.ltb add_one x m) (λ y, if decide (x = y) then f y + 1 else f y).
Proof.
  intros [Hm Hget] Hx. split; [by apply om_update_okZ|]. intros y. rewrite om_get_updateZ by done. destruct (decide (x = y)) as [->|]; [|apply Hget].
  rewrite Hget. unfold add_one. destruct (decide (f y = 0)) as [->|]; destruct (decide _); simpl; try done; lia.
Qed.

Lemma counts_to_elem m f x n : counts_to m f → (x, n) ∈ m ↔ n = f x ∧ f x ≠ 0.
Proof.
  intros [Hm Hget]. rewrite om_elemZ, Hget by done. destruct (decide (f x = 0)); naive_solver.
Qed.

Lemma counts_to_get m f x : counts_to m f → f x ≠ 0 → om_get Z.ltb x m = Some (f x).
Proof. intros [_ Hget] Hx. rewrite Hget. by destruct (decide (f x = 0)). Qed.
End numbers.

(** ** A multimap by score *)

(** [std::multimap<double, V>::insert], behind the entries with the same key. *)
Fixpoint mm_insert {V} (score : double) (v : V) (m : list (double * V)) : list (double * V) :=
  match m with
  | [] => [(score, v)]
  | (s, w) :: m' => if d_lt score s then (score, v) :: m else (s, w) :: mm_insert score v m'
  end.

Lemma mm_insert_perm {W} score (v : W) m : mm_insert score v m ≡ₚ (score, v) :: m.
Proof. induction m as [|[s w] m IH]; simpl; [done|]. destruct (d_lt score s); [done|]. rewrite IH. apply perm_swap. Qed.

Lemma mm_insert_sorted {W} score (v : W) m : d_num score → Forall (λ e, d_num e.1) m → sorted_by (λ a b : double * W, d_lt a.1 b.1) m →
  sorted_by (λ a b : double * W, d_lt a.1 b.1) (mm_insert score v m).
Proof.
  intros Hs Hm. unfold sorted_by. induction 1 as [|[s w] m Hsorted IH Hw]; simpl; [repeat constructor|].
  inversion_clear Hm as [|?? Hsw Hm']. simpl in Hsw. destruct (d_lt score s) eqn:E.
  - constructor; [by constructor|]. constructor; simpl; [by apply (swo_asym (P := d_num))|].
    rewrite Forall_forall in Hw, Hm' |- *. intros e He. specialize (Hw e He). specialize (Hm' e He). simpl in *.
    apply (swo_ntrans (P := d_num) _ s); [done|done|done|done|by apply (swo_asym (P := d_num))].
  - constructor; [by apply IH|]. rewrite mm_insert_perm. by constructor.
Qed.
