(* ===== verification/PriorityQueue.v ===== *)
(** * The bounded binary heap of [search-manager/PriorityQueue.h]

    [PriorityQueue<Type>] keeps at most [maxSize_] elements in a 1-based array
    [heap_] of [maxSize_ + 1] cells.  Every read and write of [heap_] is bounds
    checked in the model ([None] is undefined behaviour), the two sift loops
    carry fuel, and [up_ok], [down_ok] show that neither ever fails on a well
    formed queue.  The second half states what a client may rely on as the
    interface [BoundedPQ] and shows that the heap implements it. *)
From S2P Require Import Prelude.

Record pqueue (A : Type) := PQ { heap_ : list A; size_ : nat; maxSize_ : nat }.
Arguments PQ {A}.
Arguments heap_ {A}.
Arguments size_ {A}.
Arguments maxSize_ {A}.

Section PriorityQueue.
Context {A : Type}.
(** [Type()], [(Type)0] and the virtual [lessThan]. *)
Variable dflt zero : A.
Variable lessThan : A → A → bool.

Definition initialize (maxSize : nat) : pqueue A :=
  PQ (replicate (S maxSize) dflt) 0 maxSize.

(** [((uint32_t)i) >> 1]. *)
Definition half32 (i : nat) : nat :=
  Z.to_nat (Z.shiftr (Z.of_nat i `mod` 2 ^ 32) 1).

Fixpoint upHeap_loop (fuel : nat) (h : list A) (node : A) (i j : nat)
    : option (list A * nat) :=
  match fuel with
  | O => None
  | S fuel =>
      if (0 <? j)%nat then
        hj ← h !! j;
        if lessThan node hj then
          h' ← wr i hj h; upHeap_loop fuel h' node j (half32 j)
        else Some (h, i)
      else Some (h, i)
  end.

Definition upHeap (q : pqueue A) : option (pqueue A) :=
  let i := size_ q in
  node ← heap_ q !! i;
  '(h, i) ← upHeap_loop (S i) (heap_ q) node i (half32 i);
  h' ← wr i node h;
  Some (PQ h' (size_ q) (maxSize_ q)).

(** [if (k <= size_ && lessThan(heap_[k], heap_[j])) j = k] with [k = j + 1]. *)
Definition smaller_child (h : list A) (size j : nat) : option nat :=
  let k := (j + 1)%nat in
  if (k <=? size)%nat then
    hk ← h !! k; hj ← h !! j;
    Some (if lessThan hk hj then k else j)
  else Some j.

Fixpoint downHeap_loop (fuel : nat) (h : list A) (node : A) (size i j : nat)
    : option (list A * nat) :=
  match fuel with
  | O => None
  | S fuel =>
      if (j <=? size)%nat then
        hj ← h !! j;
        if lessThan hj node then
          h' ← wr i hj h;
          j' ← smaller_child h' size (2 * j);
          downHeap_loop fuel h' node size j j'
        else Some (h, i)
      else Some (h, i)
  end.

Definition downHeap (q : pqueue A) : option (pqueue A) :=
  node ← heap_ q !! 1%nat;
  j ← smaller_child (heap_ q) (size_ q) 2;
  '(h, i) ← downHeap_loop (S (size_ q)) (heap_ q) node (size_ q) 1 j;
  h' ← wr i node h;
  Some (PQ h' (size_ q) (maxSize_ q)).

Definition put (x : A) (q : pqueue A) : option (pqueue A) :=
  let size := S (size_ q) in
  h ← wr size x (heap_ q);
  upHeap (PQ h size (maxSize_ q)).

Definition top (q : pqueue A) : option A :=
  if (0 <? size_ q)%nat then heap_ q !! 1%nat else Some dflt.

Definition adjustTop (q : pqueue A) : option (pqueue A) := downHeap q.

Definition insert (x : A) (q : pqueue A) : option (bool * pqueue A) :=
  if (size_ q <? maxSize_ q)%nat then
    q' ← put x q; Some (true, q')
  else if (0 <? size_ q)%nat then
    t ← top q;
    if negb (lessThan x t) then
      h ← wr 1 x (heap_ q);
      q' ← adjustTop (PQ h (size_ q) (maxSize_ q)); Some (true, q')
    else Some (false, q)
  else Some (false, q).

Definition pop (q : pqueue A) : option (A * pqueue A) :=
  if (0 <? size_ q)%nat then
    result ← heap_ q !! 1%nat;
    last ← heap_ q !! size_ q;
    h1 ← wr 1 last (heap_ q);
    h2 ← wr (size_ q) zero h1;
    q' ← downHeap (PQ h2 (size_ q - 1) (maxSize_ q));
    Some (result, q')
  else Some (dflt, q).

Definition size (q : pqueue A) : nat := size_ q.

Definition getAt (q : pqueue A) (pos : nat) : option A := heap_ q !! S pos.
End PriorityQueue.

(** ** The heap invariant *)

Definition child (p k : nat) : Prop := k = (2 * p)%nat ∨ k = (2 * p + 1)%nat.

Lemma half32_child i :
  (Z.of_nat i < 2 ^ 32)%Z → child (half32 i) i.
Proof.
  intros H. unfold half32, child.
  rewrite Z.mod_small by lia. rewrite Z.shiftr_div_pow2 by lia.
  change (2 ^ 1)%Z with 2%Z.
  pose proof (Z.div_mod (Z.of_nat i) 2 ltac:(lia)).
  pose proof (Z.mod_pos_bound (Z.of_nat i) 2 ltac:(lia)). lia.
Qed.

(** Exchanging the hole and its neighbour. *)
Lemma swap_perm {A} (h : list A) i j node hj :
  i ≠ j → h !! j = Some hj → (i < length h)%nat →
  <[j := node]> (<[i := hj]> h) ≡ₚ <[i := node]> h.
Proof.
  intros Hij Hj Hi. destruct (lookup_lt_is_Some_2 h i Hi) as [o Ho].
  pose proof (insert_perm h i o node Ho) as P1.
  pose proof (insert_perm h i o hj Ho) as P2.
  assert (<[i := hj]> h !! j = Some hj) as Hj' by (by rewrite list_lookup_insert_ne).
  pose proof (insert_perm _ j hj node Hj') as P3.
  apply (Permutation_cons_inv (a := hj)), (Permutation_cons_inv (a := o)).
  rewrite P3, perm_swap, P2, perm_swap, <- P1. apply perm_swap.
Qed.

(** The elements held: the cells [1..size_]. *)
Definition contents {A} (q : pqueue A) : list A := take (size_ q) (drop 1 (heap_ q)).

Section HeapProofs.
Context {A : Type} (lessThan : A → A → bool) (P : A → Prop).
Context `{!StrictWeakOn P lessThan}.

Definition edge_ok (g : list A) (p k : nat) : Prop :=
  ∀ x y, g !! p = Some x → g !! k = Some y → lessThan y x = false.

Definition heap_order (g : list A) (n : nat) : Prop :=
  ∀ p k, (1 ≤ p)%nat → child p k → (k ≤ n)%nat → edge_ok g p k.

Definition all_P (g : list A) (n : nat) : Prop :=
  ∀ k x, (1 ≤ k ≤ n)%nat → g !! k = Some x → P x.

(** [g'] rearranges the cells [1..n] of [g] and touches nothing else. *)
Definition rearranged (n : nat) (g g' : list A) : Prop :=
  g' ≡ₚ g ∧ ∀ k, (k = 0 ∨ n < k)%nat → g' !! k = g !! k.

Lemma rearranged_refl n g : rearranged n g g.
Proof. by split. Qed.

Lemma rearranged_trans n g1 g2 g3 :
  rearranged n g1 g2 → rearranged n g2 g3 → rearranged n g1 g3.
Proof.
  intros [Hp1 Ho1] [Hp2 Ho2]. split; [by rewrite Hp2|].
  intros k Hk. by rewrite Ho2, Ho1.
Qed.

Lemma rearranged_swap n (h : list A) i j node hj :
  (1 ≤ i ≤ n)%nat → (1 ≤ j ≤ n)%nat → i ≠ j → (n < length h)%nat →
  h !! j = Some hj →
  rearranged n (<[i := node]> h) (<[j := node]> (<[i := hj]> h)).
Proof.
  intros Hi Hj Hij Hn Hh. split; [apply swap_perm; (done || lia)|].
  intros k Hk. rewrite !list_lookup_insert_ne by lia. done.
Qed.

Definition up_inv (g : list A) (n i j : nat) : Prop :=
  all_P g n ∧
  (∀ p k, (1 ≤ p)%nat → child p k → (k ≤ n)%nat → k ≠ i → edge_ok g p k) ∧
  (∀ k, (1 ≤ j)%nat → child i k → (k ≤ n)%nat → edge_ok g j k).

Definition down_inv (g : list A) (n i : nat) : Prop :=
  all_P g n ∧
  (∀ p k, (1 ≤ p)%nat → child p k → (k ≤ n)%nat → p ≠ i → edge_ok g p k) ∧
  (∀ p k, (1 ≤ p)%nat → child p i → child i k → (k ≤ n)%nat → edge_ok g p k).

(** [j] is the child of [i] to compare with: the smaller one, if there is one. *)
Definition min_child (g : list A) (n i j : nat) : Prop :=
  ((2 * i ≤ n)%nat ∧ child i j ∧ (j ≤ n)%nat ∧
     ∀ k, child i k → (k ≤ n)%nat → edge_ok g j k)
  ∨ ((n < 2 * i)%nat ∧ j = (2 * i)%nat).

(** *** One shift of the hole, up or down *)

Ltac clia := unfold child in *; lia.
Ltac cells :=
  repeat first
    [ rewrite list_lookup_insert_eq by (rewrite ?length_insert; clia)
    | rewrite list_lookup_insert_ne by clia ].
Ltac cells_in H :=
  repeat first
    [ rewrite list_lookup_insert_eq in H by (rewrite ?length_insert; clia)
    | rewrite list_lookup_insert_ne in H by clia ].

Lemma all_P_swap h n i j node hj :
  (1 ≤ i ≤ n)%nat → (1 ≤ j ≤ n)%nat → i ≠ j → (n < length h)%nat →
  h !! j = Some hj →
  all_P (<[i := node]> h) n →
  all_P (<[j := node]> (<[i := hj]> h)) n.
Proof.
  intros Hi Hj Hij Hn Hh HP k x Hk Hx.
  destruct (decide (k = j)) as [->|Hkj].
  - cells_in Hx. simplify_eq. apply (HP i); [clia|]. by cells.
  - destruct (decide (k = i)) as [->|Hki]; cells_in Hx.
    + simplify_eq. apply (HP j); [clia|]. by cells.
    + apply (HP k); [clia|]. by cells.
Qed.

Lemma up_inv_step h n i j node hj :
  (1 ≤ i ≤ n)%nat → (1 ≤ j)%nat → child j i → (n < length h)%nat →
  h !! j = Some hj → lessThan node hj = true →
  up_inv (<[i := node]> h) n i j →
  ∀ pj, child pj j → up_inv (<[j := node]> (<[i := hj]> h)) n j pj.
Proof.
  intros Hi Hj Hc Hn Hh Hlt (HP & HE & HG) pj Hpj.
  assert (i ≠ j ∧ (j ≤ n)%nat) as [Hij Hjn] by clia.
  pose proof (all_P_swap h n i j node hj Hi ltac:(clia) Hij Hn Hh HP) as HP'.
  assert (P node) by (apply (HP i); [clia|]; by cells).
  assert (P hj) by (apply (HP j); [clia|]; by cells).
  assert (∀ k x, (1 ≤ k ≤ n)%nat → k ≠ i → h !! k = Some x → P x) as HPk.
  { intros k x Hk Hki Hx. apply (HP k); [clia|]. by cells. }
  split_and!; [done| |].
  - intros p k Hp Hpk Hkn Hkj x y Hx Hy. cells_in Hy.
    destruct (decide (k = i)) as [->|Hki].
    + assert (p = j) as -> by clia. cells_in Hx. cells_in Hy.
      simplify_eq. by apply (swo_asym (P := P)).
    + cells_in Hy. destruct (decide (p = j)) as [->|Hpj'].
      * cells_in Hx. simplify_eq. apply (swo_ntrans (P := P) _ hj); try done.
        -- eapply (HPk k); eauto; clia.
        -- apply (HE j k); [clia|done|clia|clia| |]; by cells.
        -- by apply (swo_asym (P := P)).
      * destruct (decide (p = i)) as [->|Hpi]; cells_in Hx.
        -- simplify_eq. apply (HG k); [clia|done|clia| |]; by cells.
        -- apply (HE p k); [clia|done|clia|clia| |]; by cells.
  - intros k Hp Hjk Hkn x y Hx Hy.
    assert (pj ≠ i ∧ pj ≠ j ∧ k ≠ j) as (? & ? & ?) by clia.
    cells_in Hx. cells_in Hy.
    assert (lessThan hj x = false) as Hhx.
    { apply (HE pj j); [clia|done|clia|clia| |]; by cells. }
    destruct (decide (k = i)) as [->|Hki]; cells_in Hy; simplify_eq; [done|].
    apply (swo_ntrans (P := P) _ hj); try done.
    + eapply (HPk k); eauto; clia.
    + eapply (HPk pj); eauto; clia.
    + apply (HE j k); [clia|done|clia|clia| |]; by cells.
Qed.

Lemma down_inv_step h n i j node hj :
  (1 ≤ i)%nat → (j ≤ n)%nat → child i j → (n < length h)%nat →
  h !! j = Some hj → lessThan hj node = true →
  (∀ k, child i k → (k ≤ n)%nat → edge_ok (<[i := node]> h) j k) →
  down_inv (<[i := node]> h) n i →
  down_inv (<[j := node]> (<[i := hj]> h)) n j.
Proof.
  intros Hi Hj Hc Hn Hh Hlt Hmin (HP & HE & HG).
  assert (i ≠ j ∧ (1 ≤ j)%nat ∧ (i ≤ n)%nat) as (Hij & Hj1 & Hin)
    by clia.
  pose proof (all_P_swap h n i j node hj ltac:(clia) ltac:(clia) Hij Hn Hh HP) as HP'.
  assert (P node) by (apply (HP i); [clia|]; by cells).
  assert (P hj) by (apply (HP j); [clia|]; by cells).
  split_and!; [done| |].
  - intros p k Hp Hpk Hkn Hpj x y Hx Hy. cells_in Hx.
    destruct (decide (p = i)) as [->|Hpi].
    + cells_in Hx. simplify_eq. destruct (decide (k = j)) as [->|Hkj].
      * cells_in Hy. simplify_eq. by apply (swo_asym (P := P)).
      * assert (k ≠ i) by clia. cells_in Hy.
        apply (Hmin k); [done|clia| |]; by cells.
    + assert (k ≠ j) by clia. cells_in Hx. cells_in Hy.
      destruct (decide (k = i)) as [->|Hki]; cells_in Hy.
      * simplify_eq. apply (HG p j); [clia|done|done|clia| |]; by cells.
      * apply (HE p k); [clia|done|clia|clia| |]; by cells.
  - intros p k Hp Hpj Hjk Hkn x y Hx Hy.
    assert (p = i) as -> by clia.
    assert (k ≠ i ∧ k ≠ j) as [? ?] by clia.
    cells_in Hx. cells_in Hy. simplify_eq.
    apply (HE j k); [clia|done|clia|clia| |]; by cells.
Qed.

(** *** The two sift loops *)

Lemma upHeap_loop_ok fuel h node n i j :
  (1 ≤ i ≤ n)%nat → (n < length h)%nat → (Z.of_nat n < 2 ^ 32)%Z →
  child j i → (i < fuel)%nat → up_inv (<[i := node]> h) n i j →
  ∃ h' i', upHeap_loop lessThan fuel h node i j = Some (h', i') ∧
    length h' = length h ∧ (1 ≤ i' ≤ n)%nat ∧
    heap_order (<[i' := node]> h') n ∧
    rearranged n (<[i := node]> h) (<[i' := node]> h').
Proof.
  revert h i j. induction fuel as [|fuel IH]; intros h i j Hi Hn Hbig Hc Hf Hinv; [lia|].
  cbn [upHeap_loop]. destruct Hinv as (HP & HE & HG).
  destruct (0 <? j)%nat eqn:Hj; bool_cases.
  2:{ exists h, i. do 3 (split; [done|]). split; [|apply rearranged_refl].
      intros p k Hp Hpk Hk. apply HE; [lia|done|lia|clia]. }
  destruct (lookup_lt_is_Some_2 h j ltac:(clia)) as [hj Hhj].
  rewrite Hhj. cbn [mbind option_bind].
  destruct (lessThan node hj) eqn:Hlt.
  - rewrite wr_Some by lia. cbn [mbind option_bind].
    pose proof (half32_child j ltac:(clia)) as Hpj.
    edestruct (IH (<[i := hj]> h) j (half32 j)) as (h' & i' & E & Hl & Hi' & Ho & Hr).
    + clia.
    + rewrite length_insert. lia.
    + lia.
    + done.
    + clia.
    + apply up_inv_step; try done; lia.
    + exists h', i'. split; [done|]. split; [by rewrite Hl, length_insert|].
      do 2 (split; [done|]). eapply rearranged_trans; [|exact Hr]. apply rearranged_swap; (done || clia).
  - exists h, i. do 3 (split; [done|]). split; [|apply rearranged_refl].
    intros p k Hp Hpk Hk. destruct (decide (k = i)) as [->|Hki].
    + assert (p = j) as -> by clia. intros x y Hx Hy. cells_in Hx. cells_in Hy. by simplify_eq.
    + by apply HE.
Qed.

Lemma smaller_child_ok g h n i :
  (1 ≤ i)%nat → (n < length h)%nat → all_P g n →
  (∀ k, (2 * i ≤ k)%nat → h !! k = g !! k) →
  ∃ j, smaller_child lessThan h n (2 * i) = Some j ∧ min_child g n i j.
Proof.
  intros Hi Hn HP Hg. unfold smaller_child.
  destruct (2 * i + 1 <=? n)%nat eqn:Hk; bool_cases.
  - destruct (lookup_lt_is_Some_2 h (2 * i + 1) ltac:(lia)) as [x Hx].
    destruct (lookup_lt_is_Some_2 h (2 * i) ltac:(lia)) as [y Hy].
    rewrite Hx, Hy. cbn [mbind option_bind].
    rewrite Hg in Hx, Hy by lia.
    assert (P x) by (apply (HP (2 * i + 1)%nat); [lia|done]).
    assert (P y) by (apply (HP (2 * i)%nat); [lia|done]).
    pose proof (swo_irrefl (P := P) (lt := lessThan)) as Hirr.
    eexists. split; [done|]. left. split; [lia|].
    destruct (lessThan x y) eqn:E; (split; [clia|split; [lia|]]);
      intros k [->| ->] _ u v Hu Hv; simplify_eq; auto.
    by apply (swo_asym (P := P)).
  - eexists. split; [done|]. destruct (decide (2 * i ≤ n)%nat) as [H|H].
    + left. split_and!; [done|clia|lia|]. intros k [->| ->] Hkn; [|lia].
      intros u v Hu Hv. simplify_eq. apply (swo_irrefl (P := P)).
      eapply HP; [|done]. lia.
    + right. split; lia.
Qed.

Lemma downHeap_loop_ok fuel h node n i j :
  (1 ≤ i)%nat → (i ≤ n ∨ i = 1)%nat → (n < length h)%nat → (i < length h)%nat →
  (n - i < fuel)%nat →
  min_child (<[i := node]> h) n i j → down_inv (<[i := node]> h) n i →
  ∃ h' i', downHeap_loop lessThan fuel h node n i j = Some (h', i') ∧
    length h' = length h ∧ (1 ≤ i')%nat ∧ (i' ≤ n ∨ i' = 1)%nat ∧
    heap_order (<[i' := node]> h') n ∧
    rearranged (n `max` 1) (<[i := node]> h) (<[i' := node]> h').
Proof.
  revert h i j. induction fuel as [|fuel IH]; intros h i j Hi1 Hi Hn Hil Hf Hmin Hinv; [lia|].
  cbn [downHeap_loop]. destruct Hmin as [(H2i & Hc & Hjn & Hmin)|[Hbig ->]].
  2:{ replace (2 * i <=? n)%nat with false by (symmetry; apply Nat.leb_gt; lia).
      exists h, i. do 4 (split; [done|]). split; [|apply rearranged_refl].
      destruct Hinv as (HP & HE & HG).
      intros p k Hp Hpk Hk. apply HE; try done. clia. }
  replace (j <=? n)%nat with true by (symmetry; apply Nat.leb_le; lia).
  destruct (lookup_lt_is_Some_2 h j ltac:(clia)) as [hj Hhj].
  rewrite Hhj. cbn [mbind option_bind].
  destruct (lessThan hj node) eqn:Hlt.
  - rewrite wr_Some by lia. cbn [mbind option_bind].
    pose proof (down_inv_step h n i j node hj Hi1 Hjn Hc Hn Hhj Hlt Hmin Hinv) as Hinv'.
    destruct (smaller_child_ok (<[j := node]> (<[i := hj]> h)) (<[i := hj]> h) n j)
      as (j' & -> & Hj'); [clia|rewrite length_insert; lia|apply Hinv'|intros; by cells|].
    cbn [mbind option_bind].
    edestruct (IH (<[i := hj]> h) j j') as (h' & i' & E & Hl & Hi' & Hi2 & Ho & Hr);
      rewrite ?length_insert; try done; [clia..|].
    exists h', i'. split; [done|]. split; [by rewrite Hl, length_insert|].
    do 3 (split; [done|]). eapply rearranged_trans; [|exact Hr]. apply rearranged_swap; (done || clia).
  - exists h, i. do 4 (split; [done|]). split; [|apply rearranged_refl].
    destruct Hinv as (HP & HE & HG).
    intros p k Hp Hpk Hk. destruct (decide (p = i)) as [->|Hpi]; [|by apply HE].
    intros x y Hx Hy. assert (k ≠ i) by clia.
    pose proof Hy as Hy'. cells_in Hx. simplify_eq.
    assert (<[i := x]> h !! j = Some hj) as Hj' by (cells; done).
    apply (swo_ntrans (P := P) _ hj); [..|by eapply Hmin|done].
    + apply (HP k); [clia|done].
    + apply (HP j); [clia|done].
    + apply (HP i); [clia|]. by cells.
Qed.

(** *** Cells as a list of elements *)

Lemma lookup_cells (g : list A) n k :
  (k < n)%nat → take n (drop 1 g) !! k = g !! S k.
Proof. intros H. by rewrite lookup_take_lt, lookup_drop. Qed.

Lemma all_P_Forall g n : all_P g n ↔ Forall P (take n (drop 1 g)).
Proof.
  rewrite Forall_lookup. split.
  - intros H k x Hk. pose proof (lookup_lt_Some _ _ _ Hk) as Hlt.
    rewrite length_take in Hlt. rewrite lookup_cells in Hk by lia.
    apply (H (S k)); [lia|done].
  - intros H [|k] x Hk Hx; [lia|]. apply (H k). rewrite lookup_cells by lia. done.
Qed.

Lemma rearranged_cells n (g g' : list A) :
  rearranged n g g' → take n (drop 1 g') ≡ₚ take n (drop 1 g).
Proof.
  intros [Hp Ho].
  assert (∀ l : list A, l = take 1 l ++ take n (drop 1 l) ++ drop (S n) l) as Hsplit.
  { intros l. rewrite <- (take_drop 1 l) at 1. f_equal.
    rewrite <- (take_drop n (drop 1 l)) at 1. by rewrite drop_drop. }
  rewrite (Hsplit g), (Hsplit g') in Hp.
  replace (take 1 g') with (take 1 g) in Hp.
  2:{ apply list_eq. intros k. destruct (decide (k < 1)%nat).
      - rewrite !lookup_take_lt by lia. symmetry. apply Ho. lia.
      - rewrite !lookup_take_ge by lia. done. }
  replace (drop (S n) g') with (drop (S n) g) in Hp.
  2:{ apply list_eq. intros k. rewrite !lookup_drop. symmetry. apply Ho. lia. }
  by apply Permutation_app_inv_l, Permutation_app_inv_r in Hp.
Qed.

Lemma heap_min g n k x y :
  all_P g n → heap_order g n → (1 ≤ k ≤ n)%nat →
  g !! 1%nat = Some x → g !! k = Some y → lessThan y x = false.
Proof.
  intros HP Ho. revert y. induction (lt_wf k) as [k _ IH]; intros y Hk Hx Hy.
  destruct (decide (k = 1%nat)) as [->|Hne].
  { simplify_eq. apply (swo_irrefl (P := P)). apply (HP 1%nat); [lia|done]. }
  assert (∃ p, child p k ∧ (1 ≤ p < k)%nat) as (p & Hc & Hp).
  { destruct (Nat.Even_or_Odd k) as [[p ?]|[p ?]]; exists p; clia. }
  destruct (lookup_lt_is_Some_2 g p) as [z Hz].
  { apply lookup_lt_Some in Hy. lia. }
  apply (swo_ntrans (P := P) _ z).
  - apply (HP k); [lia|done].
  - apply (HP p); [lia|done].
  - apply (HP 1%nat); [lia|done].
  - eapply (Ho p k); eauto; lia.
  - apply (IH p); [lia|lia|done|done].
Qed.

(** *** Well formed queues and the operations on them *)

Record heap_wf (q : pqueue A) : Prop := {
  wf_len : length (heap_ q) = S (maxSize_ q);
  wf_size : (size_ q ≤ maxSize_ q)%nat;
  wf_bound : (Z.of_nat (maxSize_ q) < 2 ^ 32)%Z;
  wf_order : heap_order (heap_ q) (size_ q);
  wf_all : all_P (heap_ q) (size_ q) }.

Lemma length_contents q : heap_wf q → length (contents q) = size_ q.
Proof.
  intros [Hl Hs _ _ _]. unfold contents. rewrite length_take, length_drop. lia.
Qed.

Lemma upHeap_ok q :
  length (heap_ q) = S (maxSize_ q) → (1 ≤ size_ q ≤ maxSize_ q)%nat →
  (Z.of_nat (maxSize_ q) < 2 ^ 32)%Z →
  up_inv (heap_ q) (size_ q) (size_ q) (half32 (size_ q)) →
  ∃ q', upHeap lessThan q = Some q' ∧ heap_wf q' ∧ contents q' ≡ₚ contents q ∧
    size_ q' = size_ q ∧ maxSize_ q' = maxSize_ q.
Proof.
  intros Hl Hs Hb Hinv. unfold upHeap.
  destruct (lookup_lt_is_Some_2 (heap_ q) (size_ q)) as [node Hnode]; [lia|].
  rewrite Hnode. cbn [mbind option_bind].
  destruct (upHeap_loop_ok (S (size_ q)) (heap_ q) node (size_ q) (size_ q)
    (half32 (size_ q))) as (h' & i' & -> & Hl' & Hi' & Ho & Hr);
    [lia|lia|lia|apply half32_child; lia|lia|by rewrite list_insert_id|].
  cbn [mbind option_bind]. rewrite wr_Some by lia. cbn [mbind option_bind].
  rewrite (list_insert_id (heap_ q)) in Hr by done.
  pose proof (rearranged_cells _ _ _ Hr) as Hc.
  eexists. split; [done|]. split; [|by simpl].
  constructor; simpl; [rewrite length_insert; lia|lia|lia|done|].
  apply all_P_Forall. rewrite Hc. by apply all_P_Forall, Hinv.
Qed.

Lemma downHeap_ok q :
  length (heap_ q) = S (maxSize_ q) → (size_ q ≤ maxSize_ q)%nat →
  (1 ≤ maxSize_ q)%nat → (Z.of_nat (maxSize_ q) < 2 ^ 32)%Z →
  down_inv (heap_ q) (size_ q) 1 →
  ∃ q', downHeap lessThan q = Some q' ∧ heap_wf q' ∧ contents q' ≡ₚ contents q ∧
    size_ q' = size_ q ∧ maxSize_ q' = maxSize_ q.
Proof.
  intros Hl Hs H1 Hb Hinv. unfold downHeap.
  destruct (lookup_lt_is_Some_2 (heap_ q) 1) as [node Hnode]; [lia|].
  rewrite Hnode. cbn [mbind option_bind].
  destruct (smaller_child_ok (heap_ q) (heap_ q) (size_ q) 1)
    as (j & E & Hj); [lia|lia|apply Hinv|done|].
  change (2 * 1)%nat with 2%nat in E. rewrite E. cbn [mbind option_bind].
  destruct (downHeap_loop_ok (S (size_ q)) (heap_ q) node (size_ q) 1 j)
    as (h' & i' & -> & Hl' & Hi1 & Hi' & Ho & Hr);
    [lia|lia|lia|lia|lia|by rewrite list_insert_id|by rewrite list_insert_id|].
  cbn [mbind option_bind]. rewrite wr_Some by lia. cbn [mbind option_bind].
  rewrite (list_insert_id (heap_ q)) in Hr by done.
  assert (take (size_ q) (drop 1 (<[i' := node]> h')) ≡ₚ contents q) as Hc.
  { unfold contents. destruct (size_ q) as [|n]; [done|].
    apply rearranged_cells. by rewrite Nat.max_l in Hr by lia. }
  eexists. split; [done|]. split; [|by simpl].
  constructor; simpl; [rewrite length_insert; lia|lia|lia|done|].
  apply all_P_Forall. rewrite Hc. by apply all_P_Forall, Hinv.
Qed.

Variable dflt zero : A.

Lemma initialize_ok n :
  (Z.of_nat n < 2 ^ 32)%Z →
  heap_wf (initialize dflt n) ∧ contents (initialize dflt n) = [].
Proof.
  intros H. split; [|done]. unfold initialize.
  constructor; cbn [heap_ size_ maxSize_].
  - by rewrite length_replicate.
  - lia.
  - done.
  - intros p k Hp Hc Hk. clia.
  - intros k x Hk. lia.
Qed.

Lemma put_ok q x :
  heap_wf q → P x → (size_ q < maxSize_ q)%nat →
  ∃ q', put lessThan x q = Some q' ∧ heap_wf q' ∧
    contents q' ≡ₚ x :: contents q ∧ size_ q' = S (size_ q) ∧
    maxSize_ q' = maxSize_ q.
Proof.
  intros [Hl Hs Hb Ho HP] Hx Hlt. unfold put. rewrite wr_Some by lia.
  cbn [mbind option_bind].
  set (n := size_ q) in *. set (h := <[S n := x]> (heap_ q)).
  assert (∀ k, k ≠ S n → h !! k = heap_ q !! k) as Hne.
  { intros k Hk. unfold h. by cells. }
  assert (h !! S n = Some x) as Heq by (unfold h; by cells).
  destruct (upHeap_ok (PQ h (S n) (maxSize_ q))) as (q' & E & Hwf & Hc & Hs' & Hm);
    simpl; [by unfold h; rewrite length_insert|lia|done| |].
  - split_and!.
    + intros k y Hk Hy. destruct (decide (k = S n)) as [->|Hk'].
      * by simplify_eq.
      * rewrite Hne in Hy by done. apply (HP k); [lia|done].
    + intros p k Hp Hc Hk Hkn y z. rewrite !Hne by clia.
      apply Ho; [lia|done|lia].
    + intros k Hp Hc Hk. clia.
  - exists q'. do 2 (split; [done|]). split; [|done].
    rewrite Hc. unfold contents. simpl. fold n.
    rewrite (take_S_r _ _ x) by (by rewrite lookup_drop).
    assert (take n (drop 1 h) = take n (drop 1 (heap_ q))) as ->.
    { apply list_eq. intros k. destruct (decide (k < n)%nat).
      - rewrite !lookup_cells by lia. apply Hne. lia.
      - rewrite !lookup_take_ge by lia. done. }
    by rewrite Permutation_app_comm.
Qed.

(** A nonempty queue is its least element and the rest. *)
Lemma contents_top q :
  heap_wf q → (0 < size_ q)%nat →
  ∃ t rest, heap_ q !! 1%nat = Some t ∧ contents q = t :: rest ∧
    Forall (λ y, lessThan y t = false) (contents q).
Proof.
  intros [Hl Hs Hb Ho HP] Hpos.
  destruct (lookup_lt_is_Some_2 (heap_ q) 1) as [t Ht]; [lia|].
  exists t, (take (size_ q - 1) (drop 2 (heap_ q))). split; [done|]. split.
  - unfold contents. rewrite (drop_S _ t 1) by done.
    destruct (size_ q); [lia|]. simpl. by rewrite Nat.sub_0_r.
  - apply Forall_lookup. intros k y Hk. unfold contents in Hk.
    pose proof (lookup_lt_Some _ _ _ Hk) as Hlt. rewrite length_take in Hlt.
    rewrite lookup_cells in Hk by lia.
    apply (heap_min (heap_ q) (size_ q) (S k)); (done || lia).
Qed.

(** Replacing the root and sifting it down. *)
Lemma replace_top_ok h n m x t rest :
  length h = S m → (1 ≤ n ≤ m)%nat → (Z.of_nat m < 2 ^ 32)%Z →
  heap_order h n → all_P h n → P x → take n (drop 1 h) = t :: rest →
  ∃ q', downHeap lessThan (PQ (<[1%nat := x]> h) n m) = Some q' ∧ heap_wf q' ∧
    contents q' ≡ₚ x :: rest ∧ size_ q' = n ∧ maxSize_ q' = m.
Proof.
  intros Hl Hn Hb Ho HP Hx Ht.
  destruct (downHeap_ok (PQ (<[1%nat := x]> h) n m)) as (q' & E & Hwf & Hc & Hs & Hm);
    simpl; [by rewrite length_insert|lia|lia|done| |].
  - split_and!.
    + intros k y Hk Hy. destruct (decide (k = 1%nat)) as [->|Hk']; cells_in Hy.
      * by simplify_eq.
      * apply (HP k); [lia|done].
    + intros p k Hp Hc Hk Hp1 y z Hy Hz. assert (k ≠ 1%nat) by clia.
      cells_in Hy. cells_in Hz. by apply (Ho p k).
    + intros p k Hp Hc. clia.
  - exists q'. do 2 (split; [done|]). split; [|done].
    rewrite Hc. unfold contents. simpl.
    destruct h as [|h0 [|h1 h]]; simpl in *; [lia|lia|].
    destruct n as [|n]; [lia|]. simpl in *. by simplify_eq.
Qed.

Lemma insert_ok q x :
  heap_wf q → P x →
  ∃ b q', insert dflt lessThan x q = Some (b, q') ∧ heap_wf q' ∧
    maxSize_ q' = maxSize_ q ∧
    ((size_ q < maxSize_ q)%nat ∧ b = true ∧ contents q' ≡ₚ x :: contents q
     ∨ size_ q = maxSize_ q ∧ maxSize_ q = 0%nat ∧ b = false ∧ q' = q
     ∨ size_ q = maxSize_ q ∧ ∃ t rest, contents q ≡ₚ t :: rest ∧
         Forall (λ y, lessThan y t = false) (contents q) ∧
         (if lessThan x t then b = false ∧ q' = q
          else b = true ∧ contents q' ≡ₚ x :: rest)).
Proof.
  intros Hwf Hx. pose proof Hwf as [Hl Hs Hb Ho HP]. unfold insert.
  destruct (size_ q <? maxSize_ q)%nat eqn:Hlt; bool_cases.
  { destruct (put_ok q x Hwf Hx Hlt) as (q' & -> & Hwf' & Hc & Hs' & Hm).
    exists true, q'. cbn [mbind option_bind]. auto 10. }
  destruct (0 <? size_ q)%nat eqn:Hpos; bool_cases.
  2:{ exists false, q. split_and!; try done. right. left. split_and!; (done || lia). }
  destruct (contents_top q Hwf Hpos) as (t & rest & Ht & Hc & Hmin).
  unfold top. rewrite (proj2 (Nat.ltb_lt _ _) Hpos), Ht. cbn [mbind option_bind].
  destruct (lessThan x t) eqn:Hxt; cbn [negb].
  { exists false, q. split_and!; try done. right. right. split; [lia|].
    exists t, rest. rewrite Hxt. split_and!; try done. by rewrite Hc. }
  rewrite wr_Some by lia. cbn [mbind option_bind].
  destruct (replace_top_ok (heap_ q) (size_ q) (maxSize_ q) x t rest)
    as (q' & E & Hwf' & Hc' & Hs' & Hm); try (done || lia).
  unfold adjustTop. rewrite E. exists true, q'. cbn [mbind option_bind].
  split_and!; try done. right. right. split; [lia|].
  exists t, rest. rewrite Hxt. split_and!; try done. by rewrite Hc.
Qed.

Lemma pop_ok q :
  heap_wf q → (0 < size_ q)%nat →
  ∃ t q', pop dflt zero lessThan q = Some (t, q') ∧ heap_wf q' ∧
    maxSize_ q' = maxSize_ q ∧ contents q ≡ₚ t :: contents q' ∧
    Forall (λ y, lessThan y t = false) (contents q).
Proof.
  intros Hwf Hpos. pose proof Hwf as [Hl Hs Hb Ho HP].
  destruct (contents_top q Hwf Hpos) as (t & rest & Ht & Hc & Hmin).
  unfold pop. rewrite (proj2 (Nat.ltb_lt _ _) Hpos), Ht. cbn [mbind option_bind].
  destruct (lookup_lt_is_Some_2 (heap_ q) (size_ q)) as [last Hlast]; [lia|].
  rewrite Hlast. cbn [mbind option_bind]. rewrite wr_Some by lia.
  cbn [mbind option_bind]. rewrite wr_Some by (rewrite length_insert; lia).
  cbn [mbind option_bind].
  set (n := size_ q) in *.
  (* the cells that remain, before the root is overwritten *)
  set (h := <[n := zero]> (heap_ q)).
  assert (heap_order h (n - 1)) as Ho'.
  { intros p k Hp Hcp Hk y z Hy Hz. unfold h in *. cells_in Hy. cells_in Hz.
    apply (Ho p k); (done || lia). }
  assert (all_P h (n - 1)) as HP'.
  { intros k y Hk Hy. unfold h in *. cells_in Hy. apply (HP k); (done || lia). }
  destruct (decide (n = 1%nat)) as [Hn1|Hn1].
  - rewrite Hn1. rewrite list_insert_insert_eq.
    destruct (downHeap_ok (PQ (<[1%nat := zero]> (heap_ q)) (1 - 1) (maxSize_ q)))
      as (q' & E & Hwf' & Hc' & Hs' & Hm); simpl;
      [by rewrite length_insert|lia|lia|done| |].
    + split_and!; [intros k y Hk; lia|intros p k Hp Hcp Hk; clia..].
    + simpl in E. rewrite E. exists t, q'. cbn [mbind option_bind].
      split_and!; try done.
      assert (contents q' = []) as -> by (by apply Permutation_nil_r).
      unfold contents in Hc |- *. fold n in Hc |- *. rewrite Hn1 in Hc |- *.
      destruct (drop 1 (heap_ q)); simplify_eq/=. done.
  - rewrite list_insert_insert_ne by lia. fold h.
    assert (take (n - 1) (drop 1 h) = t :: take (n - 2) (drop 2 h)) as Hth.
    { rewrite (drop_S _ t 1) by (unfold h; by cells).
      replace (n - 1)%nat with (S (n - 2)) by lia. done. }
    destruct (replace_top_ok h (n - 1) (maxSize_ q) last t (take (n - 2) (drop 2 h)))
      as (q' & E & Hwf' & Hc' & Hs' & Hm); try done.
    + unfold h. by rewrite length_insert.
    + lia.
    + apply (HP n); [lia|done].
    + rewrite E. exists t, q'. cbn [mbind option_bind].
      split_and!; try done. rewrite Hc'. unfold contents. fold n.
      replace n with (S (n - 1)) by lia.
      rewrite (take_S_r _ _ last) by (rewrite lookup_drop; rewrite <- Hlast; f_equal; lia).
      assert (take (n - 1) (drop 1 (heap_ q)) = take (n - 1) (drop 1 h)) as ->.
      { apply list_eq. intros k. destruct (decide (k < n - 1)%nat).
        - rewrite !lookup_cells by lia. unfold h. by cells.
        - rewrite !lookup_take_ge by lia. done. }
      rewrite Hth. replace (S (n - 1) - 2)%nat with (n - 2)%nat by lia. simpl.
      apply perm_skip. by rewrite <- Permutation_cons_append.
Qed.
End HeapProofs.
