(* ===== verification/QueueSpec.v ===== *)
(** * What a client of the bounded queue relies on

    [BoundedPQ] is the contract of [PriorityQueue]: [insert] keeps the greatest
    [maxSize_] elements, [pop] removes a least one.  The ad search and the hit
    queues are proved against this interface; [heap_bounded_pq] discharges it
    for the heap of [PriorityQueue.v]. *)
From S2P Require Import Prelude CNum PriorityQueue.

(** The operations, as the clients call them. *)
Class PQOps (A Q : Type) := {
  q_new : nat → Q;
  q_insert : A → Q → option (bool * Q);
  q_pop : Q → option (A * Q);
  q_size : Q → nat }.

Class BoundedPQ {A Q} (P : A → Prop) (lt : A → A → bool) (Ops : PQOps A Q) := {
  q_inv : Q → Prop;
  q_contents : Q → list A;
  q_cap : Q → nat;
  q_new_ok : ∀ n, (Z.of_nat n < 2 ^ 32)%Z →
    q_inv (q_new n) ∧ q_contents (q_new n) = [] ∧ q_cap (q_new n) = n;
  q_size_ok : ∀ q, q_inv q → q_size q = length (q_contents q);
  q_P : ∀ q, q_inv q → Forall P (q_contents q);
  q_bound : ∀ q, q_inv q → (length (q_contents q) ≤ q_cap q)%nat;
  q_insert_ok : ∀ q x, q_inv q → P x →
    ∃ b q', q_insert x q = Some (b, q') ∧ q_inv q' ∧ q_cap q' = q_cap q ∧
      ((length (q_contents q) < q_cap q)%nat ∧ b = true ∧
         q_contents q' ≡ₚ x :: q_contents q
       ∨ length (q_contents q) = q_cap q ∧ q_cap q = 0%nat ∧ b = false ∧ q' = q
       ∨ length (q_contents q) = q_cap q ∧ ∃ t rest, q_contents q ≡ₚ t :: rest ∧
           Forall (λ y, lt y t = false) (q_contents q) ∧
           (if lt x t then b = false ∧ q' = q
            else b = true ∧ q_contents q' ≡ₚ x :: rest));
  q_pop_ok : ∀ q, q_inv q → (0 < length (q_contents q))%nat →
    ∃ t q', q_pop q = Some (t, q') ∧ q_inv q' ∧ q_cap q' = q_cap q ∧
      q_contents q ≡ₚ t :: q_contents q' ∧
      Forall (λ y, lt y t = false) (q_contents q) }.

(** ** The client's two loops *)

Section clients.
Context {A Q} `{Ops : PQOps A Q}.

Definition q_insert_all (l : list A) (q : Q) : option Q :=
  foldM (λ q x, '(_, q') ← q_insert x q; Some q') q l.

(** [n] successive pops, in pop order. *)
Fixpoint q_drain (n : nat) (q : Q) : option (list A) :=
  match n with
  | O => Some []
  | S n => '(x, q') ← q_pop q; l ← q_drain n q'; Some (x :: l)
  end.

Context (P : A → Prop) (lt : A → A → bool).
Context `{!StrictWeakOn P lt, !BoundedPQ P lt Ops}.

(** [kept] are the greatest elements of [kept ++ dropped]. *)
Record top_of (k : nat) (kept dropped : list A) : Prop := TopOf {
  top_le : (length kept ≤ k)%nat;
  top_full : dropped ≠ [] → length kept = k;
  top_cut : ∀ c d, c ∈ kept → d ∈ dropped → lt c d = false }.

#[export] Instance top_of_proper k : Proper ((≡ₚ) ==> eq ==> iff) (top_of k).
Proof.
  assert (∀ l1 l2 d, l1 ≡ₚ l2 → top_of k l1 d → top_of k l2 d) as H.
  { intros l1 l2 d Hl [H1 H2 H3]. constructor; [by rewrite <- Hl..|].
    intros c x. rewrite <- Hl. apply H3. }
  intros l1 l2 Hl d ? <-. split; apply H; [done|by symmetry].
Qed.

Lemma top_of_replace k m rest dropped x :
  Forall P (m :: rest) → P x → Forall P dropped →
  length (m :: rest) = k →
  (∀ y, y ∈ m :: rest → lt y m = false) → lt x m = false →
  top_of k (m :: rest) dropped → top_of k (x :: rest) (m :: dropped).
Proof.
  intros HPm Hx HPd Hl Hmin Hxm [Hk1 Hk2 Hd].
  rewrite Forall_forall in HPm, HPd.
  constructor; [simpl in *; lia|by simpl in *|].
  assert (∀ c, c ∈ x :: rest → P c ∧ lt c m = false) as Hcm.
  { intros c [->|Hc]%elem_of_cons; [done|].
    split; [apply HPm; by right|apply Hmin; by right]. }
  intros c d Hc [->|Hin]%elem_of_cons; [by apply Hcm|].
  destruct (Hcm c Hc) as [HPc Hltc].
  apply (swo_ntrans (P := P) _ m); auto; [apply HPm; by left|apply Hd; [by left|done]].
Qed.

Lemma top_of_reject k m rest dropped x :
  Forall P (m :: rest) → P x → length (m :: rest) = k →
  (∀ y, y ∈ m :: rest → lt y m = false) → lt x m = true →
  top_of k (m :: rest) dropped → top_of k (m :: rest) (x :: dropped).
Proof.
  intros HPm Hx Hl Hmin Hxm [Hk1 Hk2 Hd]. rewrite Forall_forall in HPm.
  constructor; [done|done|]. intros c d Hc [->|Hin]%elem_of_cons; [|by apply Hd].
  destruct (lt c x) eqn:E; [|done].
  assert (lt c m = true) as Hcm.
  { apply (swo_trans (P := P) c x m); auto. apply HPm. by left. }
  by rewrite (Hmin c Hc) in Hcm.
Qed.

(** *** Inserting everything keeps the top [k] *)
Lemma q_insert_all_ok l : ∀ q dropped,
  q_inv q → Forall P l → Forall P dropped →
  top_of (q_cap q) (q_contents q) dropped →
  ∃ q' dropped', q_insert_all l q = Some q' ∧ q_inv q' ∧ q_cap q' = q_cap q ∧
    q_contents q' ++ dropped' ≡ₚ l ++ q_contents q ++ dropped ∧
    top_of (q_cap q) (q_contents q') dropped'.
Proof.
  induction l as [|x l IH]; intros q dropped Hinv HPl HPd Htop.
  { exists q, dropped. by split_and!. }
  inversion_clear HPl as [|?? Hx Hl].
  destruct (q_insert_ok q x Hinv Hx) as (b & q1 & E & Hinv1 & Hcap1 & Hcase).
  assert (∃ d1, q_contents q1 ++ d1 ≡ₚ x :: q_contents q ++ dropped ∧ Forall P d1 ∧
    top_of (q_cap q) (q_contents q1) d1) as (d1 & Hp1 & HPd1 & Htop1).
  { pose proof (q_P q Hinv) as HPc.
    destruct Hcase as [(Hlt & -> & Hc)|[(Hl' & H0 & -> & ->)|(Hfull & t & rest & Hc & Hmin & Hif)]].
    - exists dropped. destruct Htop as [H1 H2 H3].
      assert (dropped = []) as -> by (destruct dropped; [done|specialize (H2 ltac:(done)); lia]).
      rewrite Hc. split_and!; [done|done|]. constructor; [simpl; lia|done|].
      intros c d _ []%not_elem_of_nil.
    - exists (x :: dropped). rewrite H0 in *.
      destruct (q_contents q); [|done]. split_and!; [done|by constructor|].
      constructor; [done|done|]. intros c d []%not_elem_of_nil.
    - rewrite Hc in HPc, Hmin, Hfull, Htop. rewrite Forall_forall in Hmin.
      destruct (lt x t) eqn:Hxt; destruct Hif as [-> Hq1].
      + subst q1. exists (x :: dropped). rewrite Hc. split_and!; [|by constructor|].
        * by rewrite <- Permutation_middle.
        * by eapply top_of_reject.
      + exists (t :: dropped). rewrite Hq1, Hc.
        split_and!; [|constructor; [by inversion HPc|done]|].
        * simpl. by rewrite <- Permutation_middle, perm_swap.
        * by eapply top_of_replace. }
  rewrite <- Hcap1 in Htop1.
  destruct (IH q1 d1 Hinv1 Hl HPd1 Htop1) as (q' & d' & E' & Hinv' & Hcap' & Hp' & Htop').
  exists q', d'. unfold q_insert_all in *. simpl. rewrite E. cbn [mbind option_bind].
  split_and!; [done|done|by rewrite Hcap'| |by rewrite <- Hcap1].
  rewrite Hp', Hp1. symmetry. apply Permutation_middle.
Qed.

(** *** Draining sorts *)
Lemma q_drain_ok n : ∀ q,
  q_inv q → length (q_contents q) = n →
  ∃ l, q_drain n q = Some l ∧ l ≡ₚ q_contents q ∧ sorted_by lt l.
Proof.
  induction n as [|n IH]; intros q Hinv Hn.
  { exists []. destruct (q_contents q); [|done]. split_and!; [done|done|constructor]. }
  destruct (q_pop_ok q Hinv ltac:(lia)) as (t & q1 & E & Hinv1 & _ & Hc & Hmin).
  assert (length (q_contents q1) = n) as Hn1.
  { apply Permutation_length in Hc. simpl in Hc. lia. }
  destruct (IH q1 Hinv1 Hn1) as (l & El & Hl & Hs).
  exists (t :: l). simpl. rewrite E. cbn [mbind option_bind]. rewrite El.
  split_and!; [done|by rewrite Hc, Hl|]. constructor; [done|].
  rewrite Hl. rewrite Hc in Hmin. by inversion Hmin.
Qed.

(** *** Both together: the queue as a top-[k] sort *)
Lemma q_topk_sort k l :
  (Z.of_nat k < 2 ^ 32)%Z → Forall P l →
  ∃ q out dropped, q_insert_all l (q_new k) = Some q ∧
    q_size q = length out ∧ q_drain (q_size q) q = Some out ∧
    out ++ dropped ≡ₚ l ∧ sorted_by lt out ∧ top_of k out dropped.
Proof.
  intros Hk HPl. destruct (q_new_ok k Hk) as (Hinv & Hc & Hcap).
  destruct (q_insert_all_ok l (q_new k) [] Hinv HPl) as (q & d & E & Hinv' & Hcap' & Hp & Htop).
  { constructor. }
  { rewrite Hc. constructor; [simpl; lia|done|]. intros c ? _ []%not_elem_of_nil. }
  rewrite Hc, !app_nil_r in Hp. rewrite Hcap in Htop.
  destruct (q_drain_ok _ q Hinv' eq_refl) as (out & Eo & Ho & Hs).
  exists q, out, d. rewrite q_size_ok by done. split_and!; try done.
  - by rewrite Ho.
  - by rewrite Ho.
  - by rewrite Ho.
Qed.
End clients.

(** ** The heap meets the contract *)

Section heap_instance.
Context {A : Type} (dflt zero : A) (lt : A → A → bool) (P : A → Prop).
Context `{!StrictWeakOn P lt}.

#[export] Instance heap_ops : PQOps A (pqueue A) := {
  q_new := initialize dflt;
  q_insert := insert dflt lt;
  q_pop := pop dflt zero lt;
  q_size := size }.

#[export] Program Instance heap_bounded_pq : BoundedPQ P lt heap_ops := {
  q_inv := heap_wf lt P; q_contents := contents; q_cap := maxSize_ }.
Next Obligation. intros n Hn. by destruct (initialize_ok lt P dflt n Hn). Qed.
Next Obligation. intros q Hq. by rewrite (length_contents lt P). Qed.
Next Obligation. intros q Hq. apply all_P_Forall, Hq. Qed.
Next Obligation. intros q Hq. rewrite (length_contents lt P) by done. apply Hq. Qed.
Next Obligation.
  intros q x Hq Hx. rewrite (length_contents lt P) by done.
  by apply insert_ok.
Qed.
Next Obligation.
  intros q Hq Hpos. rewrite (length_contents lt P) in Hpos by done.
  by apply pop_ok.
Qed.
End heap_instance.

(** C40: The heap of [PriorityQueue.h] with [initialize(k)], filled by
    [insert] with any sequence and emptied by [pop], gives the [k] greatest
    elements, least first: the rest was dropped, and none of it is greater. *)
Theorem priority_queue_topk {A} (dflt zero : A) (lt : A → A → bool) (P : A → Prop)
    `{!StrictWeakOn P lt} k l :
  (Z.of_nat k < 2 ^ 32)%Z → Forall P l →
  ∃ q out dropped,
    foldM (λ q x, '(_, q') ← insert dflt lt x q; Some q') (initialize dflt k) l = Some q ∧
    size q = length out ∧
    q_drain (Ops := heap_ops dflt zero lt) (size q) q = Some out ∧
    out ++ dropped ≡ₚ l ∧ sorted_by lt out ∧ (length out ≤ k)%nat ∧
    (dropped ≠ [] → length out = k) ∧
    ∀ x y, x ∈ out → y ∈ dropped → lt x y = false.
Proof.
  intros Hk Hl.
  destruct (q_topk_sort (Ops := heap_ops dflt zero lt) P lt k l Hk Hl)
    as (q & out & dropped & E & Hs & Hd & Hp & Hsort & [Hle Hfull Hleast]).
  exists q, out, dropped. split_and!; try done.
Qed.

#[local] Instance nat_order : StrictWeakOn (λ _ : nat, True) Nat.ltb.
Proof. split; intros *; rewrite ?Nat.ltb_lt, ?Nat.ltb_ge; lia. Qed.

Lemma priority_queue_witness :
  ∃ q out dropped,
    foldM (λ q x, '(_, q') ← insert 0%nat Nat.ltb x q; Some q') (initialize 0%nat 3) [4; 9; 1; 7; 5]%nat = Some q ∧
    q_drain (Ops := heap_ops 0%nat 0%nat Nat.ltb) (size q) q = Some out ∧
    out ++ dropped ≡ₚ [4; 9; 1; 7; 5]%nat ∧ length out = 3%nat.
Proof.
  destruct (priority_queue_topk 0%nat 0%nat Nat.ltb (λ _, True) 3 [4; 9; 1; 7; 5]%nat)
    as (q & out & dropped & E & _ & Hd & Hp & _ & Hle & Hfull & _).
  - simpl. lia.
  - by apply Forall_true.
  - exists q, out, dropped. split_and!; [exact E|exact Hd|exact Hp|].
    apply Hfull. intros ->. rewrite app_nil_r in Hp. apply Permutation_length in Hp. simpl in Hp. lia.
Defined.
