(* ===== verification/HitQueue.v ===== *)
(** * Scored documents and their queue ([search-manager/ScoreDoc.h, HitQueue.h])

    [ScoreSortedHitQueue] is the bounded queue of the external library ordered by
    [lessThan]: scores closer than the epsilon of [score_t] count as equal and
    a tie break decides, here the documents.  The same comparison orders the sponsored ads.  It is
    a strict weak order on scores that are equal or at least an epsilon apart,
    and not in general. *)
From S2P Require Import Prelude CNum PriorityQueue QueueSpec.

(** ** Comparison up to an epsilon *)

Section near.
Context {A : Type} (eps : double) (score : A → double) (tie : A → A → bool).

Definition near_lt (o1 o2 : A) : bool :=
  if d_lt (d_abs (d_sub (score o1) (score o2))) eps then tie o1 o2
  else d_lt (score o1) (score o2).

(** Scores closer than the epsilon are equal. *)
Definition separated (S : list double) : bool :=
  forallb (λ a, negb (d_is_nan a) &&
    forallb (λ b, eqb (d_lt (d_abs (d_sub a b)) eps)
                      (negb (d_lt a b) && negb (d_lt b a))) S) S.

Definition score_among (S : list double) (x : A) : Prop := score x ∈ S.

Lemma separated_spec S a b :
  separated S = true → a ∈ S → b ∈ S →
  d_num a ∧ d_lt (d_abs (d_sub a b)) eps = negb (d_lt a b) && negb (d_lt b a).
Proof.
  unfold separated. rewrite forallb_forall. intros H Ha Hb.
  apply list_elem_of_In, H in Ha. apply andb_true_iff in Ha as [Hn Ha].
  rewrite forallb_forall in Ha. apply list_elem_of_In, Ha, eqb_prop in Hb.
  split; [|done]. unfold d_num. by destruct (d_is_nan a).
Qed.

Lemma near_lt_strict_weak `{!StrictWeakOn (λ _, True) tie} S :
  separated S = true → StrictWeakOn (score_among S) near_lt.
Proof.
  intros Hsep. unfold score_among, near_lt. split.
  - intros x y Hx Hy.
    destruct (separated_spec S _ _ Hsep Hx Hy) as [Hnx ->].
    destruct (separated_spec S _ _ Hsep Hy Hx) as [Hny ->].
    destruct (d_lt (score x) (score y)) eqn:E1, (d_lt (score y) (score x)) eqn:E2; simpl; try done.
    + by rewrite (swo_asym (P := d_num) _ _ Hnx Hny E1) in E2.
    + by apply (swo_asym (P := λ _, True)).
  - intros x y z Hx Hy Hz.
    destruct (separated_spec S _ _ Hsep Hx Hy) as [Hnx ->].
    destruct (separated_spec S _ _ Hsep Hy Hz) as [Hny ->].
    destruct (separated_spec S _ _ Hsep Hx Hz) as [_ ->].
    destruct (separated_spec S _ _ Hsep Hz Hx) as [Hnz _].
    assert (∀ a b, (if negb (d_lt (score a) (score b)) && negb (d_lt (score b) (score a)) then tie a b
                    else d_lt (score a) (score b)) = false →
      d_lt (score a) (score b) = false ∧ (d_lt (score b) (score a) = false → tie a b = false)) as Hsplit.
    { intros a b. by destruct (d_lt (score a) (score b)), (d_lt (score b) (score a)). }
    intros [Hxy Hxy']%Hsplit [Hyz Hyz']%Hsplit.
    rewrite (swo_ntrans (P := d_num) _ _ _ Hnx Hny Hnz Hxy Hyz). simpl.
    destruct (d_lt (score z) (score x)) eqn:Hzx; simpl; [done|].
    pose proof (Hxy' (swo_ntrans (P := d_num) _ _ _ Hny Hnz Hnx Hyz Hzx)) as Txy.
    pose proof (Hyz' (swo_ntrans (P := d_num) _ _ _ Hnz Hnx Hny Hzx Hxy)) as Tyz.
    exact (swo_ntrans (P := λ _, True) _ _ _ I I I Txy Tyz).
Qed.

(** What is not less has no less score. *)
Lemma near_lt_score S x y :
  separated S = true → score_among S x → score_among S y →
  near_lt y x = false → d_lt (score y) (score x) = false.
Proof.
  unfold score_among, near_lt. intros Hsep Hx Hy.
  destruct (separated_spec S _ _ Hsep Hy Hx) as [_ ->].
  by destruct (d_lt (score y) (score x)), (d_lt (score x) (score y)).
Qed.

End near.

(** The document ids as the tie break. *)
Definition id_tie {A} (docId : A → nat) (o1 o2 : A) : bool := (docId o1 <? docId o2)%nat.

#[export] Instance id_tie_strict_weak {A} (docId : A → nat) : StrictWeakOn (λ _, True) (id_tie docId).
Proof. unfold id_tie. split; intros *; rewrite ?Nat.ltb_lt, ?Nat.ltb_ge; lia. Qed.

(** ** [ScoreDoc] and the queue *)

Record ScoreDoc := Scored {
  sd_docId : nat;
  sd_score : double;
  custom_score : double;
  geo_dist : double }.

Definition score_doc (id : nat) (s : double) : ScoreDoc := Scored id s d_zero d_zero.

Definition hit_lessThan (score_epsilon : double) : ScoreDoc → ScoreDoc → bool :=
  near_lt score_epsilon sd_score (id_tie sd_docId).

(** Three documents each less than the next, the last less than the first. *)
Lemma hit_lessThan_cycle eps :
  eps = d_of_Z 1 →
  ∃ x y z, hit_lessThan eps x y = true ∧ hit_lessThan eps y z = true ∧ hit_lessThan eps z x = true.
Proof.
  intros ->. exists (score_doc 1 (d_lit 12 1)), (score_doc 2 (d_lit 6 1)), (score_doc 3 d_zero).
  vm_compute. split_and!; reflexivity.
Qed.
