(* ===== verification/Env.v ===== *)
(** * Services outside [src/]

    Boost's text conversion of integers and the process clock.  Each is a type
    class: the definitions that use the service take it as an implicit
    argument, and what they rely on is a class of laws, with an instance that
    shows the laws can hold. *)
From S2P Require Import Prelude.
From Stdlib Require Import Ascii.

(** ** [boost::lexical_cast<std::string>(int)] *)

Class LexicalCast := lexical_cast : Z → string.

Fixpoint string_chars (s : string) : list ascii :=
  match s with EmptyString => [] | String c s => c :: string_chars s end.

Lemma string_chars_inj a b : string_chars a = string_chars b → a = b.
Proof. revert b. induction a; intros [|]; naive_solver. Qed.

Lemma string_chars_append a b :
  string_chars (String.append a b) = string_chars a ++ string_chars b.
Proof. induction a as [|c a IH]; simpl; [done|]. by rewrite IH. Qed.

Definition dash : ascii := "-"%char.

(** Distinct integers have distinct texts; only negative ones carry a sign. *)
Class LexicalCastOk `{LexicalCast} : Prop := {
  lexical_cast_inj : ∀ a b, lexical_cast a = lexical_cast b → a = b;
  lexical_cast_unsigned : ∀ a, 0 ≤ a → dash ∉ string_chars (lexical_cast a);
  lexical_cast_signed : ∀ a, a < 0 → dash ∈ string_chars (lexical_cast a) }.

(** Decimal text has both properties. *)
#[export] Instance decimal_cast : LexicalCast := λ z, pretty z.

Lemma pretty_N_go_unsigned x s :
  dash ∉ string_chars s → dash ∉ string_chars (pretty_N_go x s).
Proof.
  revert s. induction (N.lt_wf_0 x) as [x _ IH]. intros s Hs.
  destruct (decide (x = 0)%N) as [->|Hx]; [by rewrite pretty_N_go_0|].
  rewrite pretty_N_go_step by lia. apply IH; [apply N.div_lt; lia|].
  simpl. rewrite not_elem_of_cons. split; [|done].
  unfold pretty_N_char.
  pose proof (N.mod_upper_bound x 10 ltac:(done)) as Hd. revert Hd.
  generalize (x `mod` 10)%N as d. intros d Hd.
  assert (d = 0 ∨ d = 1 ∨ d = 2 ∨ d = 3 ∨ d = 4 ∨ d = 5 ∨ d = 6 ∨ d = 7 ∨
    d = 8 ∨ d = 9)%N as Hcases by lia.
  by destruct_or! Hcases; subst d.
Qed.

#[export] Instance decimal_cast_ok : LexicalCastOk.
Proof.
  split.
  - intros a b Hab. exact (inj (R := eq) pretty a b Hab).
  - intros a Ha. unfold lexical_cast, decimal_cast, pretty, pretty_Z.
    destruct a as [|p|p]; [|unfold pretty, pretty_positive, pretty, pretty_N|lia].
    + intros Hin. simpl in Hin. inversion Hin as [|??? Hn]; inversion Hn.
    + destruct (decide _); [done|]. apply pretty_N_go_unsigned. apply not_elem_of_nil.
  - intros a Ha. destruct a as [|p|p]; [lia|lia|]. simpl. left.
Qed.

(** ** [gmtime_r(time(NULL))]: the fields the program reads *)

Record tm := Tm { tm_year : Z; tm_yday : Z; tm_hour : Z }.

(** What the C library documents about them. *)
Definition tm_ok (t : tm) : Prop := 0 ≤ tm_yday t ≤ 365 ∧ 0 ≤ tm_hour t ≤ 23 ∧ 0 ≤ tm_year t.

(** ** A splitter, for the witnesses *)

Fixpoint split_chars (seps cur s : string) : list string :=
  match s with
  | EmptyString => [cur]
  | String c s =>
      if existsb (Ascii.eqb c) (String.list_ascii_of_string seps) then cur :: split_chars seps EmptyString s
      else split_chars seps (String.append cur (String c EmptyString)) s
  end.
