(* ===== verification/ManualBid.v ===== *)
(** * [AdManualBidInfoMgr]: manually set bid prices and campaign budgets

    State and operations of [sponsored-ad-search/AdManualBidInfoMgr.{h,cpp}].
    The two [boost::unordered_map]s and the inner [std::map] are finite maps
    (the code only inserts, erases and looks up).  Prices and budgets are in
    units of 0.01 yuan.  [load] and [save] move the two maps through a binary
    image of an external library and are not modelled. *)
From S2P Require Import Prelude CNum Env.
From Stdlib Require Ascii String.

Record AdManualBidInfoMgr := BidInfo {
  ad_campaign_budget_list_ : gmap string Z;
  manual_bidprice_list_ : gmap string (gmap string Z) }.

Definition AdManualBidInfoMgr_init : AdManualBidInfoMgr := BidInfo ∅ ∅.

Definition DEFAULT_AD_BUDGET : Z := 100.

Section ManualBid.
Context `{LexicalCast}.

Definition getManualKeyForAd (adid : Z) (bidstr : string) : string :=
  String.append (lexical_cast adid) (String.append "-" bidstr).

(** One round of the loop of [removeManualBidPrice]. *)
Definition removeManualBidPrice (campaign_name : string) (adid : Z)
    (key_list : list string) (m : AdManualBidInfoMgr) : AdManualBidInfoMgr :=
  let v := default ∅ (manual_bidprice_list_ m !! campaign_name) in
  let v' := fold_left (λ v k, delete (getManualKeyForAd adid k) v) key_list v in
  BidInfo (ad_campaign_budget_list_ m)
    (<[campaign_name := v']> (manual_bidprice_list_ m)).

(** [v[k] = price_list[i]; if (price_list[i] == 0) v.erase(k);] *)
Definition set_one (adid : Z) (v : gmap string Z) (kp : string * Z) : gmap string Z :=
  let k := getManualKeyForAd adid kp.1 in
  let v := <[k := kp.2]> v in
  if kp.2 =? 0 then delete k v else v.

Definition setManualBidPrice (campaign_name : string) (adid : Z)
    (key_list : list string) (price_list : list Z) (m : AdManualBidInfoMgr)
    : option AdManualBidInfoMgr :=
  let v := default ∅ (manual_bidprice_list_ m !! campaign_name) in
  v' ← zip_loop (set_one adid) key_list price_list v;
  Some (BidInfo (ad_campaign_budget_list_ m)
    (<[campaign_name := v']> (manual_bidprice_list_ m))).

Definition getManualBidPrice (m : AdManualBidInfoMgr) (campaign_name : string)
    (adid : Z) (bidstr : string) : Z :=
  match manual_bidprice_list_ m !! campaign_name with
  | None => 0
  | Some v => default 0 (v !! getManualKeyForAd adid bidstr)
  end.

Definition hasManualBidPrice (m : AdManualBidInfoMgr) (campaign_name : string) : bool :=
  match manual_bidprice_list_ m !! campaign_name with
  | None => false
  | Some v => negb (bool_decide (v = ∅))
  end.

Definition getManualBidPriceList (m : AdManualBidInfoMgr) (campaign_name : string)
    : gmap string Z :=
  match manual_bidprice_list_ m !! campaign_name with
  | None => ∅
  | Some v => v
  end.

Definition setBidBudget (campaign_name : string) (budget : Z)
    (m : AdManualBidInfoMgr) : AdManualBidInfoMgr :=
  BidInfo (<[campaign_name := budget]> (ad_campaign_budget_list_ m))
    (manual_bidprice_list_ m).

Definition getBidBudget (m : AdManualBidInfoMgr) (campaign : string) : Z :=
  match ad_campaign_budget_list_ m !! campaign with
  | None => DEFAULT_AD_BUDGET
  | Some b => b
  end.
End ManualBid.

(** ** Keys of different ads never meet *)

Lemma split_at_dash (l1 l2 r1 r2 : list Ascii.ascii) :
  dash ∉ l1 → dash ∉ l2 → l1 ++ dash :: r1 = l2 ++ dash :: r2 → l1 = l2 ∧ r1 = r2.
Proof.
  revert l2. induction l1 as [|c l1 IH]; intros [|c2 l2] H1 H2 E; simplify_eq/=;
    rewrite ?elem_of_cons in *; [naive_solver..|].
  destruct (IH l2) as [-> ->]; naive_solver.
Qed.

Section ManualBidProofs.
Context `{LexicalCastOk}.

Lemma manual_key_inj a b k l :
  0 ≤ a → 0 ≤ b → getManualKeyForAd a k = getManualKeyForAd b l → a = b ∧ k = l.
Proof.
  intros Ha Hb E. apply (f_equal string_chars) in E. unfold getManualKeyForAd in E.
  rewrite !string_chars_append in E. simpl in E.
  apply split_at_dash in E as [E1 E2]; [|by apply lexical_cast_unsigned..].
  split; [by apply lexical_cast_inj, string_chars_inj|by apply string_chars_inj].
Qed.

(** The last price given for [k]. *)
Definition last_price (k : string) (kps : list (string * Z)) : option Z :=
  fold_left (λ acc kp, if decide (kp.1 = k) then Some kp.2 else acc) kps None.

Lemma last_price_snoc k kps kp :
  last_price k (kps ++ [kp]) = if decide (kp.1 = k) then Some kp.2 else last_price k kps.
Proof. unfold last_price. by rewrite fold_left_app. Qed.

Lemma set_one_lookup adid a v kp k :
  0 ≤ adid → 0 ≤ a →
  default 0 (set_one adid v kp !! getManualKeyForAd a k)
  = if decide (a = adid ∧ kp.1 = k) then kp.2
    else default 0 (v !! getManualKeyForAd a k).
Proof.
  intros Had Ha. unfold set_one.
  destruct (decide (getManualKeyForAd adid kp.1 = getManualKeyForAd a k)) as [E|E].
  - pose proof (manual_key_inj _ _ _ _ Had Ha E) as [-> ->]. rewrite decide_True by done.
    destruct (kp.2 =? 0) eqn:Ez; bool_cases; by simplify_map_eq.
  - rewrite decide_False by naive_solver.
    destruct (kp.2 =? 0); by simplify_map_eq.
Qed.

Lemma set_all_lookup adid a v kps k :
  0 ≤ adid → 0 ≤ a →
  default 0 (fold_left (set_one adid) kps v !! getManualKeyForAd a k)
  = if decide (a = adid)
    then default (default 0 (v !! getManualKeyForAd a k)) (last_price k kps)
    else default 0 (v !! getManualKeyForAd a k).
Proof.
  intros Had Ha. induction kps as [|kp kps IH] using rev_ind.
  { by destruct (decide _). }
  rewrite fold_left_app, last_price_snoc. simpl. rewrite set_one_lookup, IH by done.
  repeat case_decide; naive_solver.
Qed.

Lemma get_lookup m c a k :
  getManualBidPrice m c a k
  = default 0 (default ∅ (manual_bidprice_list_ m !! c) !! getManualKeyForAd a k).
Proof.
  unfold getManualBidPrice. destruct (manual_bidprice_list_ m !! c); simpl; [done|].
  by rewrite lookup_empty.
Qed.

(** [setManualBidPrice] then [getManualBidPrice]. *)
Theorem setManualBidPrice_get camp adid keys prices m :
  0 ≤ adid → (length keys ≤ length prices)%nat →
  ∃ m', setManualBidPrice camp adid keys prices m = Some m' ∧
    ∀ c a k, 0 ≤ a →
      getManualBidPrice m' c a k
      = if decide (c = camp ∧ a = adid)
        then default (getManualBidPrice m c a k) (last_price k (zip keys prices))
        else getManualBidPrice m c a k.
Proof.
  intros Had Hl. unfold setManualBidPrice. rewrite zip_loop_ok by done.
  eexists. split; [done|]. intros c a k Ha. rewrite !get_lookup. simpl.
  destruct (decide (c = camp)) as [->|Hc]; simplify_map_eq.
  - rewrite set_all_lookup by done. repeat case_decide; naive_solver.
  - by rewrite decide_False by naive_solver.
Qed.

Lemma remove_all_lookup adid a ks (v : gmap string Z) k :
  0 ≤ adid → 0 ≤ a →
  fold_left (λ v k, delete (getManualKeyForAd adid k) v) ks v !! getManualKeyForAd a k
  = if decide (a = adid ∧ k ∈ ks) then None else v !! getManualKeyForAd a k.
Proof.
  intros Had Ha. induction ks as [|k' ks IH] using rev_ind.
  { rewrite decide_False by set_solver. done. }
  rewrite fold_left_app. simpl.
  destruct (decide (getManualKeyForAd adid k' = getManualKeyForAd a k)) as [E|E].
  - pose proof (manual_key_inj _ _ _ _ Had Ha E) as [-> ->].
    rewrite decide_True by set_solver. apply lookup_delete_eq.
  - rewrite lookup_delete_ne, IH by done. repeat case_decide; set_solver.
Qed.

(** [removeManualBidPrice] then [getManualBidPrice]. *)
Theorem removeManualBidPrice_get camp adid keys m c a k :
  0 ≤ adid → 0 ≤ a →
  getManualBidPrice (removeManualBidPrice camp adid keys m) c a k
  = if decide (c = camp ∧ a = adid ∧ k ∈ keys) then 0 else getManualBidPrice m c a k.
Proof.
  intros Had Ha. rewrite !get_lookup. unfold removeManualBidPrice. simpl.
  destruct (decide (c = camp)) as [->|Hc]; simplify_map_eq.
  - rewrite remove_all_lookup by done. repeat case_decide; naive_solver.
  - by rewrite decide_False by naive_solver.
Qed.

(** No stored price is zero. *)
Definition nz (v : gmap string Z) : Prop := map_Forall (λ _ p, p ≠ 0) v.
Definition no_zero_price (m : AdManualBidInfoMgr) : Prop :=
  map_Forall (λ _ v, nz v) (manual_bidprice_list_ m).

Lemma set_one_nz adid v kp : nz v → nz (set_one adid v kp).
Proof.
  intros Hv. unfold set_one, nz. destruct (kp.2 =? 0) eqn:E; bool_cases.
  - rewrite delete_insert_eq. by apply map_Forall_delete.
  - by apply map_Forall_insert_2.
Qed.

Lemma camp_nz m c :
  no_zero_price m → nz (default ∅ (manual_bidprice_list_ m !! c)).
Proof.
  intros Hm. destruct (manual_bidprice_list_ m !! c) eqn:E; simpl.
  - by apply (Hm c).
  - apply map_Forall_empty.
Qed.

(** No operation of [AdManualBidInfoMgr] stores a zero price, so a price
    of zero means that there is none, and a campaign without manual prices has
    none for any ad. *)
Theorem manual_price_invariant camp adid keys prices m m' :
  no_zero_price m →
  no_zero_price (removeManualBidPrice camp adid keys m) ∧
  (setManualBidPrice camp adid keys prices m = Some m' → no_zero_price m') ∧
  (hasManualBidPrice m camp = false → ∀ a k, getManualBidPrice m camp a k = 0) ∧
  (∀ a k, getManualBidPrice m camp a k = 0 ↔
     default ∅ (manual_bidprice_list_ m !! camp) !! getManualKeyForAd a k = None).
Proof.
  intros Hm. pose proof (camp_nz m camp Hm) as Hv. split_and!.
  - apply map_Forall_insert_2; [|done]. apply fold_left_inv; [done|].
    intros v k _ Hv'. by apply map_Forall_delete.
  - unfold setManualBidPrice. intros E. inv_some.
    apply map_Forall_insert_2; [|done].
    destruct (decide (length keys ≤ length prices)%nat);
      [rewrite zip_loop_ok in E0 by done|rewrite zip_loop_short in E0 by lia; done].
    simplify_eq. apply fold_left_inv; [done|]. intros v kp _. apply set_one_nz.
  - unfold hasManualBidPrice. intros Hh a k. rewrite get_lookup.
    destruct (manual_bidprice_list_ m !! camp) as [v|]; simpl.
    + apply negb_false_iff, bool_decide_eq_true in Hh. subst. by rewrite lookup_empty.
    + by rewrite lookup_empty.
  - intros a k. rewrite get_lookup.
    destruct (default ∅ (manual_bidprice_list_ m !! camp) !! getManualKeyForAd a k) eqn:E;
      simpl; [|done].
    specialize (Hv _ _ E). simpl in Hv. naive_solver.
Qed.
End ManualBidProofs.

(** *** A campaign with one priced phrase *)

Definition sample_bids : AdManualBidInfoMgr :=
  BidInfo ∅ {[ "shop"%string := {[ "7-phone"%string := 120 ]} ]}.

Lemma manual_price_witness :
  no_zero_price (removeManualBidPrice "shop" 7 ["phone"%string] sample_bids) ∧
  (∀ m', setManualBidPrice "shop" 7 ["tv"; "phone"]%string [30; 0] sample_bids = Some m' → no_zero_price m') ∧
  getManualBidPrice sample_bids "shop" 7 "phone" = 120.
Proof.
  assert (no_zero_price sample_bids) as Hm.
  { apply map_Forall_singleton, map_Forall_singleton. done. }
  split_and!.
  - exact (proj1 (manual_price_invariant "shop" 7 ["phone"%string] [] sample_bids sample_bids Hm)).
  - intros m'. exact (proj1 (proj2 (manual_price_invariant "shop" 7 _ _ sample_bids m' Hm))).
  - vm_compute. reflexivity.
Defined.
