(* ===== verification/AuctionLog.v ===== *)
(** * [AdAuctionLogMgr]: the auction log and its hourly history

    State and updating operations of [sponsored-ad-search/AdAuctionLogMgr.{h,cpp}].
    Impressions and clicks are counted per ad and per keyword, per hour (the key
    is the text of the hour) and per slot of the result page; when a new hour
    starts, the last [HISTORY_HOURS] hours are summed into a history record, from
    which the statistics of [AuctionStats.v] are read.

    [boost::unordered_map], and [std::map]s that are only looked up, are finite
    maps.  The clock is read once per operation ([now]); the mutexes only order
    operations and are not modelled.  [load] and [save] move the state through a
    binary image of an external library and are not modelled. *)
From S2P Require Import Prelude CNum Env.

(** ** Data *)

Record AdViewSlotInfo := AdSlot {
  impression_num : Z;
  click_num : Z;
  keyword_cpc : gmap Z Z }.
Definition AdViewSlotInfo_init : AdViewSlotInfo := AdSlot 0 0 ∅.

Record KeywordViewSlotInfo := KeySlot {
  kclick_num : Z;
  cost_list : gmap Z Z }.
Definition KeywordViewSlotInfo_init : KeywordViewSlotInfo := KeySlot 0 ∅.

Record KeywordViewInfo := KeyView {
  searched_num : Z;
  view_info : list KeywordViewSlotInfo }.
Definition KeywordViewInfo_init : KeywordViewInfo := KeyView 0 [].

(** [GlobalInfo] has the one field [click_num_list]. *)
Record GlobalInfo := Global { click_num_list : list Z }.
Definition GlobalInfo_init : GlobalInfo := Global [].

Record AdAuctionLogMgr := LogMgr {
  ad_stat_data_ : gmap string (gmap string (list AdViewSlotInfo));
  keyword_stat_data_ : gmap string (gmap string KeywordViewInfo);
  global_stat_data_ : gmap string GlobalInfo;
  ad_history_stat_data_ : gmap string (list AdViewSlotInfo);
  keyword_history_stat_data_ : gmap string KeywordViewInfo;
  global_history_stat_data_ : GlobalInfo }.

Definition AdAuctionLogMgr_init : AdAuctionLogMgr :=
  LogMgr ∅ ∅ ∅ ∅ ∅ GlobalInfo_init.

Definition set_ad_stat x (m : AdAuctionLogMgr) :=
  LogMgr x (keyword_stat_data_ m) (global_stat_data_ m) (ad_history_stat_data_ m)
    (keyword_history_stat_data_ m) (global_history_stat_data_ m).
Definition set_keyword_stat x (m : AdAuctionLogMgr) :=
  LogMgr (ad_stat_data_ m) x (global_stat_data_ m) (ad_history_stat_data_ m)
    (keyword_history_stat_data_ m) (global_history_stat_data_ m).
Definition set_global_stat x (m : AdAuctionLogMgr) :=
  LogMgr (ad_stat_data_ m) (keyword_stat_data_ m) x (ad_history_stat_data_ m)
    (keyword_history_stat_data_ m) (global_history_stat_data_ m).
Definition set_ad_history x (m : AdAuctionLogMgr) :=
  LogMgr (ad_stat_data_ m) (keyword_stat_data_ m) (global_stat_data_ m) x
    (keyword_history_stat_data_ m) (global_history_stat_data_ m).
Definition set_keyword_history x (m : AdAuctionLogMgr) :=
  LogMgr (ad_stat_data_ m) (keyword_stat_data_ m) (global_stat_data_ m)
    (ad_history_stat_data_ m) x (global_history_stat_data_ m).
Definition set_global_history x (m : AdAuctionLogMgr) :=
  LogMgr (ad_stat_data_ m) (keyword_stat_data_ m) (global_stat_data_ m)
    (ad_history_stat_data_ m) (keyword_history_stat_data_ m) x.

(** ** Constants *)

Definition MAX_AD_SLOT : Z := 20.
Definition DEFAULT_AD_CTR : double := d_lit 3 3.
Definition DEFAULT_CLICK_COST : Z := 50.
Definition MIN_SEARCH_NUM : Z := 1000.
Definition HISTORY_HOURS : Z := 48.
Definition RECENT_HOURS : Z := 1.
Definition HOURS_OF_DAY : Z := 24.

(** ** The hour as a text key *)

(** The carries of [gettimestr] over [tm_hour], [tm_yday] and [tm_year]. *)
Definition carry_hour (t : tm) (hours : Z) : tm :=
  let h := tm_hour t + hours in
  if h <? 0 then Tm (tm_year t) (tm_yday t - 1) (h + HOURS_OF_DAY)
  else if HOURS_OF_DAY <=? h then Tm (tm_year t) (tm_yday t + 1) (h - HOURS_OF_DAY)
  else Tm (tm_year t) (tm_yday t) h.

Definition carry_yday (t : tm) : tm :=
  if tm_yday t <? 0 then Tm (tm_year t - 1) (tm_yday t + 365) (tm_hour t)
  else if 365 <? tm_yday t then Tm (tm_year t + 1) (tm_yday t - 365) (tm_hour t)
  else t.

Definition shift_hours (t : tm) (hours : Z) : tm := carry_yday (carry_hour t hours).

Section AuctionLog.
Context `{LexicalCast}.

Definition gettimestr (now : tm) (hours : Z) : string :=
  let t := shift_hours now hours in
  String.append (lexical_cast (tm_year t))
    (String.append (lexical_cast (tm_yday t)) (lexical_cast (tm_hour t))).

Definition getCurrentDayBegin (now : tm) : Z := 0 - tm_hour now.
Definition getCurrentDayEnd (now : tm) : Z := HOURS_OF_DAY - tm_hour now.
Definition getHistoryTimeStr (now : tm) : string := gettimestr now (0 - RECENT_HOURS).

(** ** Counting *)

(** [m.insert(make_pair(cost, n))], else [m[cost] += n]. *)
Definition add_count (cost n : Z) (m : gmap Z Z) : gmap Z Z :=
  match m !! cost with
  | None => <[cost := n]> m
  | Some n0 => <[cost := i32 (n0 + n)]> m
  end.

Definition merge_counts (h a : gmap Z Z) : gmap Z Z := map_fold add_count h a.

Definition bump_impression (s : AdViewSlotInfo) : AdViewSlotInfo :=
  AdSlot (i32 (impression_num s + 1)) (click_num s) (keyword_cpc s).
Definition bump_click (cost : Z) (s : AdViewSlotInfo) : AdViewSlotInfo :=
  AdSlot (impression_num s) (i32 (click_num s + 1)) (add_count cost 1 (keyword_cpc s)).
Definition bump_kclick (cost : Z) (s : KeywordViewSlotInfo) : KeywordViewSlotInfo :=
  KeySlot (i32 (kclick_num s + 1)) (add_count cost 1 (cost_list s)).

(** ** The history records *)

(** The periods of the last [HISTORY_HOURS] hours that are present. *)
Definition history_periods {V} (now : tm) (m : gmap string V) : list V :=
  omap (λ i, m !! gettimestr now (0 - Z.of_nat i)) (seq 1 (Z.to_nat HISTORY_HOURS)).

(** [if (v.size() > h.size()) h.resize(v.size());] then slot by slot. *)
Definition merge_slots {S} (dflt : S) (f : S → S → S) (h v : list S) : list S :=
  let h := if (length h <? length v)%nat then resize (length v) dflt h else h in
  zip_with f h v ++ drop (length v) h.

Definition merge_ad_slot (h a : AdViewSlotInfo) : AdViewSlotInfo :=
  AdSlot (i32 (impression_num h + impression_num a)) (i32 (click_num h + click_num a))
    (merge_counts (keyword_cpc h) (keyword_cpc a)).
Definition merge_key_slot (h a : KeywordViewSlotInfo) : KeywordViewSlotInfo :=
  KeySlot (i32 (kclick_num h + kclick_num a)) (merge_counts (cost_list h) (cost_list a)).

Definition updateHistoryGlobalLogData (now : tm) (m : AdAuctionLogMgr)
    : AdAuctionLogMgr :=
  let history_ginfo :=
    fold_left (λ h v, Global (merge_slots 0 (λ a b, i32 (a + b))
                                (click_num_list h) (click_num_list v)))
      (history_periods now (global_stat_data_ m)) GlobalInfo_init in
  set_global_history history_ginfo m.

Definition updateHistoryAdLogData (now : tm) (adid : string)
    (ad_period_info : gmap string (list AdViewSlotInfo)) (m : AdAuctionLogMgr)
    : AdAuctionLogMgr :=
  let history_adview :=
    fold_left (merge_slots AdViewSlotInfo_init merge_ad_slot)
      (history_periods now ad_period_info) [] in
  set_ad_history (<[adid := history_adview]> (ad_history_stat_data_ m)) m.

Definition merge_key_view (h v : KeywordViewInfo) : KeywordViewInfo :=
  KeyView (i32 (searched_num h + searched_num v))
    (merge_slots KeywordViewSlotInfo_init merge_key_slot (view_info h) (view_info v)).

Definition updateHistoryKeywordLogData (now : tm) (kid : string)
    (keyword_period_info : gmap string KeywordViewInfo) (m : AdAuctionLogMgr)
    : AdAuctionLogMgr :=
  let history_keyview :=
    fold_left merge_key_view (history_periods now keyword_period_info)
      KeywordViewInfo_init in
  set_keyword_history (<[kid := history_keyview]> (keyword_history_stat_data_ m)) m.

(** ** Recording a search *)

(** The guard both updates start with: entering a new hour refreshes the
    history of the ad, and [operator[]] creates the missing records. *)
Definition enter_ad_period (now : tm) (ad_id : string) (m : AdAuctionLogMgr)
    : AdAuctionLogMgr * list AdViewSlotInfo :=
  let timestr := gettimestr now 0 in
  let ad_stat := default ∅ (ad_stat_data_ m !! ad_id) in
  let m := match ad_stat !! timestr with
           | None => updateHistoryAdLogData now ad_id ad_stat m
           | Some _ => m
           end in
  let v := default [] (ad_stat !! timestr) in
  (set_ad_stat (<[ad_id := <[timestr := v]> ad_stat]> (ad_stat_data_ m)) m, v).

Definition store_ad_view (now : tm) (ad_id : string) (v : list AdViewSlotInfo)
    (m : AdAuctionLogMgr) : AdAuctionLogMgr :=
  let ad_stat := default ∅ (ad_stat_data_ m !! ad_id) in
  set_ad_stat (<[ad_id := <[gettimestr now 0 := v]> ad_stat]> (ad_stat_data_ m)) m.

(** [if (slot >= v.size()) v.resize(slot + 1); f(v[slot]);] *)
Definition touch_slot {S} (dflt : S) (slot : nat) (f : S → S) (v : list S) : list S :=
  alter f slot (if (length v <=? slot)%nat then resize (slot + 1) dflt v else v).

(** The loop over the ranked ads; [false] when it returned early, at a slot
    beyond [MAX_AD_SLOT]. *)
Fixpoint search_stat_ads (now : tm) (slot : nat) (ads : list string)
    (m : AdAuctionLogMgr) : AdAuctionLogMgr * bool :=
  match ads with
  | [] => (m, true)
  | ad_id :: ads =>
      let '(m, v) := enter_ad_period now ad_id m in
      if MAX_AD_SLOT <? Z.of_nat slot then (m, false)
      else
        let v := touch_slot AdViewSlotInfo_init slot bump_impression v in
        search_stat_ads now (S slot) ads (store_ad_view now ad_id v m)
  end.

Definition enter_keyword_period (now : tm) (kid : string) (m : AdAuctionLogMgr)
    : AdAuctionLogMgr * KeywordViewInfo :=
  let timestr := gettimestr now 0 in
  let key_stat := default ∅ (keyword_stat_data_ m !! kid) in
  let m := match key_stat !! timestr with
           | None => updateHistoryKeywordLogData now kid key_stat m
           | Some _ => m
           end in
  (m, default KeywordViewInfo_init (key_stat !! timestr)).

Definition store_key_view (now : tm) (kid : string) (v : KeywordViewInfo)
    (m : AdAuctionLogMgr) : AdAuctionLogMgr :=
  let key_stat := default ∅ (keyword_stat_data_ m !! kid) in
  set_keyword_stat (<[kid := <[gettimestr now 0 := v]> key_stat]> (keyword_stat_data_ m)) m.

Definition search_stat_keyword (now : tm) (m : AdAuctionLogMgr) (kid : string)
    : AdAuctionLogMgr :=
  let '(m, v) := enter_keyword_period now kid m in
  store_key_view now kid (KeyView (i32 (searched_num v + 1)) (view_info v)) m.

(** [keyword_list] is the content of a [std::set]. *)
Definition updateAdSearchStat (now : tm) (keyword_list : list string)
    (ranked_ad_list : list string) (m : AdAuctionLogMgr) : AdAuctionLogMgr :=
  let '(m, go) := search_stat_ads now 0 ranked_ad_list m in
  if go then fold_left (search_stat_keyword now) keyword_list m else m.

(** ** Recording a click *)

Definition click_keyword (now : tm) (keyword_str : string) (cost : Z) (slot : nat)
    (m : AdAuctionLogMgr) : AdAuctionLogMgr :=
  let '(m, v) := enter_keyword_period now keyword_str m in
  let view := alter (bump_kclick cost) slot
                (resize (slot + 1) KeywordViewSlotInfo_init (view_info v)) in
  store_key_view now keyword_str (KeyView (searched_num v) view) m.

Definition click_global (now : tm) (slot : nat) (m : AdAuctionLogMgr) : AdAuctionLogMgr :=
  let timestr := gettimestr now 0 in
  let m := match global_stat_data_ m !! timestr with
           | None => updateHistoryGlobalLogData now m
           | Some _ => m
           end in
  let ginfo := default GlobalInfo_init (global_stat_data_ m !! timestr) in
  let l := alter (λ n, i32 (n + 1)) slot (resize (slot + 1) 0 (click_num_list ginfo)) in
  set_global_stat (<[timestr := Global l]> (global_stat_data_ m)) m.

Definition updateAuctionLogData (now : tm) (ad_id keyword_str : string)
    (click_cost_in_fen : Z) (click_slot : nat) (m : AdAuctionLogMgr) : AdAuctionLogMgr :=
  let '(m, v) := enter_ad_period now ad_id m in
  if MAX_AD_SLOT <? Z.of_nat click_slot then m
  else
    let v := touch_slot AdViewSlotInfo_init click_slot (bump_click click_cost_in_fen) v in
    let m := store_ad_view now ad_id v m in
    let m := click_keyword now keyword_str click_cost_in_fen click_slot m in
    click_global now click_slot m.
End AuctionLog.

(** ** Views of the state *)

Section AuctionLogProofs.
Context `{LexicalCast}.

(** The record of the current hour, absent records being empty. *)
Definition period_view (now : tm) (m : AdAuctionLogMgr) (ad : string)
    : list AdViewSlotInfo :=
  default [] (default ∅ (ad_stat_data_ m !! ad) !! gettimestr now 0).
Definition key_view (now : tm) (m : AdAuctionLogMgr) (kid : string) : KeywordViewInfo :=
  default KeywordViewInfo_init (default ∅ (keyword_stat_data_ m !! kid) !! gettimestr now 0).
Definition global_view (now : tm) (m : AdAuctionLogMgr) : list Z :=
  click_num_list (default GlobalInfo_init (global_stat_data_ m !! gettimestr now 0)).
Definition slot_of (v : list AdViewSlotInfo) (s : nat) : AdViewSlotInfo :=
  default AdViewSlotInfo_init (v !! s).
Definition kslot_of (v : list KeywordViewSlotInfo) (s : nat) : KeywordViewSlotInfo :=
  default KeywordViewSlotInfo_init (v !! s).

Lemma resize_lookup {A} (d : A) n (v : list A) s :
  default d (resize n d v !! s) = if decide (s < n)%nat then default d (v !! s) else d.
Proof.
  case_decide.
  - destruct (v !! s) eqn:E; simpl.
    + by rewrite (lookup_resize _ _ _ _ H0), E by (by eapply lookup_lt_Some).
    + apply lookup_ge_None in E. by rewrite lookup_resize_new.
  - by rewrite lookup_resize_old by lia.
Qed.

Lemma touch_slot_lookup {A} (d : A) s f v j :
  default d (touch_slot d s f v !! j)
  = if decide (j = s) then f (default d (v !! s)) else default d (v !! j).
Proof.
  unfold touch_slot. destruct (length v <=? s)%nat eqn:E; bool_cases.
  - assert (v !! s = None) as Hs by (apply lookup_ge_None; lia).
    case_decide as Hj; [subst j|].
    + rewrite list_lookup_alter_eq, Hs, lookup_resize_new by lia. done.
    + rewrite list_lookup_alter_ne by done. rewrite resize_lookup. case_decide; [done|].
      by rewrite lookup_ge_None_2 by lia.
  - case_decide as Hj; [subst j|by rewrite list_lookup_alter_ne by done].
    rewrite list_lookup_alter_eq.
    destruct (lookup_lt_is_Some_2 v s) as [x ->]; [lia|done].
Qed.

Lemma length_touch_slot {A} (d : A) s f v :
  length (touch_slot d s f v) = (length v `max` (s + 1))%nat.
Proof.
  unfold touch_slot. rewrite length_alter.
  destruct (length v <=? s)%nat eqn:E; bool_cases; [rewrite length_resize|]; lia.
Qed.

Lemma enter_ad_period_spec now ad m m' v :
  enter_ad_period now ad m = (m', v) →
  v = period_view now m ad ∧
  (∀ ad', period_view now m' ad' = period_view now m ad') ∧
  keyword_stat_data_ m' = keyword_stat_data_ m ∧
  global_stat_data_ m' = global_stat_data_ m.
Proof.
  unfold enter_ad_period, period_view. intros [= <- <-].
  set (m0 := match _ with Some _ => _ | None => _ end).
  assert (ad_stat_data_ m0 = ad_stat_data_ m ∧ keyword_stat_data_ m0 = keyword_stat_data_ m
    ∧ global_stat_data_ m0 = global_stat_data_ m) as (E1 & E2 & E3).
  { unfold m0. by destruct (_ !! gettimestr now 0). }
  split_and!; simpl; [done| |done|done].
  intros ad'. rewrite E1. destruct (decide (ad' = ad)) as [->|Hne]; simplify_map_eq; done.
Qed.

Lemma period_view_store now ad v m ad' :
  period_view now (store_ad_view now ad v m) ad'
  = if decide (ad' = ad) then v else period_view now m ad'.
Proof.
  unfold period_view, store_ad_view. simpl. case_decide; subst; simplify_map_eq; done.
Qed.

(** ** A search counts one impression per shown ad *)

Lemma search_stat_ads_spec now ads : ∀ slot m m' go,
  search_stat_ads now slot ads m = (m', go) →
  (slot + length ads ≤ 21)%nat →
  go = true ∧ keyword_stat_data_ m' = keyword_stat_data_ m ∧
  global_stat_data_ m' = global_stat_data_ m ∧
  ∀ ad s, slot_of (period_view now m' ad) s
    = if decide (slot ≤ s ∧ ads !! (s - slot) = Some ad)%nat
      then bump_impression (slot_of (period_view now m ad) s)
      else slot_of (period_view now m ad) s.
Proof.
  induction ads as [|a ads IH]; intros slot m m' go E Hl.
  { simpl in E. simplify_eq. split_and!; try done. intros ad s.
    rewrite decide_False; [done|]. intros [_ Hx]. by rewrite lookup_nil in Hx. }
  cbn [search_stat_ads] in E. destruct (enter_ad_period now a m) as [m1 v] eqn:E1.
  apply enter_ad_period_spec in E1 as (-> & Hpv & Hk1 & Hg1). simpl in Hl.
  destruct (MAX_AD_SLOT <? Z.of_nat slot) eqn:Hmax.
  { apply Z.ltb_lt in Hmax. unfold MAX_AD_SLOT in Hmax. lia. }
  apply IH in E as (-> & Hk & Hg & Hs); [|lia].
  split_and!; [done|by rewrite Hk|by rewrite Hg|].
  intros ad s. rewrite Hs, period_view_store.
  assert (slot_of (if decide (ad = a)
                   then touch_slot AdViewSlotInfo_init slot bump_impression (period_view now m a)
                   else period_view now m1 ad) s
    = if decide (ad = a ∧ s = slot) then bump_impression (slot_of (period_view now m ad) s)
      else slot_of (period_view now m ad) s) as Hb.
  { case_decide as Ha.
    - subst. unfold slot_of. rewrite touch_slot_lookup.
      repeat case_decide; naive_solver.
    - rewrite Hpv. by rewrite decide_False by naive_solver. }
  rewrite Hb. destruct (decide (s = slot)) as [->|Hne].
  - rewrite (decide_False (P := (S slot ≤ slot ∧ _)%nat)) by lia.
    replace (slot - slot)%nat with 0%nat by lia. simpl.
    repeat case_decide; naive_solver.
  - rewrite (decide_False (P := _ ∧ s = slot)) by naive_solver.
    destruct (decide (slot ≤ s)%nat).
    + replace (s - slot)%nat with (S (s - S slot)) by lia. simpl.
      repeat case_decide; try done; exfalso; naive_solver lia.
    + rewrite !decide_False by lia. done.
Qed.

(** *** The keyword side *)

Lemma enter_keyword_period_spec now kid m m' v :
  enter_keyword_period now kid m = (m', v) →
  v = key_view now m kid ∧ keyword_stat_data_ m' = keyword_stat_data_ m ∧
  ad_stat_data_ m' = ad_stat_data_ m ∧ global_stat_data_ m' = global_stat_data_ m.
Proof.
  unfold enter_keyword_period, key_view. intros [= <- <-].
  by destruct (_ !! gettimestr now 0).
Qed.

Lemma key_view_store now kid v m kid' :
  key_view now (store_key_view now kid v m) kid'
  = if decide (kid' = kid) then v else key_view now m kid'.
Proof.
  unfold key_view, store_key_view. simpl. case_decide; subst; simplify_map_eq; done.
Qed.

Lemma key_view_ext now m m' kid :
  keyword_stat_data_ m' = keyword_stat_data_ m → key_view now m' kid = key_view now m kid.
Proof. unfold key_view. by intros ->. Qed.
Lemma period_view_ext now m m' ad :
  ad_stat_data_ m' = ad_stat_data_ m → period_view now m' ad = period_view now m ad.
Proof. unfold period_view. by intros ->. Qed.
Lemma global_view_ext now m m' :
  global_stat_data_ m' = global_stat_data_ m → global_view now m' = global_view now m.
Proof. unfold global_view. by intros ->. Qed.

Lemma search_stat_keyword_spec now m kid :
  let m' := search_stat_keyword now m kid in
  ad_stat_data_ m' = ad_stat_data_ m ∧ global_stat_data_ m' = global_stat_data_ m ∧
  ∀ k, key_view now m' k
    = if decide (k = kid)
      then KeyView (i32 (searched_num (key_view now m k) + 1)) (view_info (key_view now m k))
      else key_view now m k.
Proof.
  unfold search_stat_keyword. destruct (enter_keyword_period now kid m) as [m1 v] eqn:E.
  apply enter_keyword_period_spec in E as (-> & Hk & Ha & Hg). simpl.
  split_and!; [done|done|]. intros k. rewrite key_view_store.
  case_decide; [by subst|]. by apply key_view_ext.
Qed.

Lemma search_stat_keywords_spec now kws : ∀ m,
  NoDup kws →
  let m' := fold_left (search_stat_keyword now) kws m in
  ad_stat_data_ m' = ad_stat_data_ m ∧ global_stat_data_ m' = global_stat_data_ m ∧
  ∀ k, key_view now m' k
    = if decide (k ∈ kws)
      then KeyView (i32 (searched_num (key_view now m k) + 1)) (view_info (key_view now m k))
      else key_view now m k.
Proof.
  induction kws as [|kw kws IH]; intros m Hnd.
  { cbn [fold_left]. split_and!; [done|done|]. intros k. rewrite decide_False; [done|apply not_elem_of_nil]. }
  apply NoDup_cons in Hnd as [Hnin Hnd]. cbn [fold_left].
  destruct (search_stat_keyword_spec now m kw) as (Ha1 & Hg1 & Hk1).
  destruct (IH (search_stat_keyword now m kw) Hnd) as (Ha & Hg & Hk).
  split_and!; [by rewrite Ha|by rewrite Hg|]. intros k. rewrite Hk, Hk1.
  destruct (decide (k = kw)) as [->|Hne].
  - rewrite decide_False by done. by rewrite decide_True by set_solver.
  - repeat case_decide; set_solver.
Qed.

(** [updateAdSearchStat] adds one impression to the ad of each slot in
    the current hour, one search to each keyword, and changes no other count.
    *)
Theorem updateAdSearchStat_counts now kws ads m :
  NoDup kws → (length ads ≤ 21)%nat →
  let m' := updateAdSearchStat now kws ads m in
  (∀ ad s, slot_of (period_view now m' ad) s
     = if decide (ads !! s = Some ad) then bump_impression (slot_of (period_view now m ad) s)
       else slot_of (period_view now m ad) s) ∧
  (∀ k, searched_num (key_view now m' k)
     = if decide (k ∈ kws) then i32 (searched_num (key_view now m k) + 1)
       else searched_num (key_view now m k)) ∧
  (∀ k, view_info (key_view now m' k) = view_info (key_view now m k)) ∧
  global_stat_data_ m' = global_stat_data_ m.
Proof.
  intros Hnd Hl. unfold updateAdSearchStat.
  destruct (search_stat_ads now 0 ads m) as [m1 go] eqn:E.
  apply search_stat_ads_spec in E as (-> & Hk1 & Hg1 & Hs); [|done].
  destruct (search_stat_keywords_spec now kws m1 Hnd) as (Ha & Hg & Hk). simpl.
  split_and!.
  - intros ad s. rewrite (period_view_ext _ _ _ _ Ha), Hs, Nat.sub_0_r.
    repeat case_decide; (done || exfalso; naive_solver lia).
  - intros k. rewrite Hk, !(key_view_ext _ _ _ _ Hk1). by case_decide.
  - intros k. rewrite Hk, !(key_view_ext _ _ _ _ Hk1). by case_decide.
  - by rewrite Hg.
Qed.

(** *** A click *)

Lemma length_view_click cost slot (v : list KeywordViewSlotInfo) :
  length (alter (bump_kclick cost) slot (resize (slot + 1) KeywordViewSlotInfo_init v))
  = (slot + 1)%nat.
Proof. by rewrite length_alter, length_resize. Qed.

Lemma click_keyword_spec now kid cost slot m :
  let m' := click_keyword now kid cost slot m in
  let view := view_info (key_view now m' kid) in
  ad_stat_data_ m' = ad_stat_data_ m ∧ global_stat_data_ m' = global_stat_data_ m ∧
  (∀ k, k ≠ kid → key_view now m' k = key_view now m k) ∧
  searched_num (key_view now m' kid) = searched_num (key_view now m kid) ∧
  length view = (slot + 1)%nat ∧
  ∀ s, kslot_of view s
    = if decide (s = slot) then bump_kclick cost (kslot_of (view_info (key_view now m kid)) s)
      else if decide (s < slot)%nat then kslot_of (view_info (key_view now m kid)) s
      else KeywordViewSlotInfo_init.
Proof.
  unfold click_keyword. destruct (enter_keyword_period now kid m) as [m1 v] eqn:E.
  apply enter_keyword_period_spec in E as (-> & Hk & Ha & Hg).
  set (m' := store_key_view _ _ _ _).
  assert (key_view now m' kid = KeyView (searched_num (key_view now m kid))
    (alter (bump_kclick cost) slot
      (resize (slot + 1) KeywordViewSlotInfo_init (view_info (key_view now m kid))))) as Hkv.
  { unfold m'. rewrite key_view_store. by rewrite decide_True by done. }
  cbv zeta. rewrite Hkv. cbn [view_info searched_num]. rewrite length_view_click.
  split_and!; try done.
  - intros k Hne. unfold m'. rewrite key_view_store, decide_False by done. by apply key_view_ext.
  - intros s. unfold kslot_of. destruct (decide (s = slot)) as [->|Hne].
    + rewrite list_lookup_alter_eq.
      destruct (view_info (key_view now m kid) !! slot) as [x|] eqn:Hx; simpl.
      * rewrite lookup_resize by (lia || by eapply lookup_lt_Some). by rewrite Hx.
      * apply lookup_ge_None in Hx. by rewrite lookup_resize_new by lia.
    + rewrite list_lookup_alter_ne by done. rewrite resize_lookup.
      repeat case_decide; (done || lia).
Qed.

Lemma click_global_spec now slot m :
  let m' := click_global now slot m in
  ad_stat_data_ m' = ad_stat_data_ m ∧ keyword_stat_data_ m' = keyword_stat_data_ m ∧
  length (global_view now m') = (slot + 1)%nat ∧
  ∀ s, default 0 (global_view now m' !! s)
    = if decide (s = slot) then i32 (default 0 (global_view now m !! s) + 1)
      else if decide (s < slot)%nat then default 0 (global_view now m !! s) else 0.
Proof.
  unfold click_global.
  set (m1 := match _ with Some _ => _ | None => _ end).
  assert (ad_stat_data_ m1 = ad_stat_data_ m ∧ keyword_stat_data_ m1 = keyword_stat_data_ m
    ∧ global_stat_data_ m1 = global_stat_data_ m) as (E1 & E2 & E3).
  { unfold m1. by destruct (_ !! gettimestr now 0). }
  unfold global_view. simpl. rewrite E1, E2, E3, lookup_insert_eq. simpl.
  rewrite length_alter, length_resize. split_and!; try done.
  intros s. destruct (decide (s = slot)) as [->|Hne].
  - rewrite list_lookup_alter_eq.
    destruct (click_num_list _ !! slot) as [x|] eqn:Hx; simpl.
    + rewrite lookup_resize by (lia || by eapply lookup_lt_Some). by rewrite Hx.
    + apply lookup_ge_None in Hx. by rewrite lookup_resize_new by lia.
  - rewrite list_lookup_alter_ne by done. rewrite resize_lookup.
    repeat case_decide; (done || lia).
Qed.

(** The state after the parts of an accepted click. *)
Lemma updateAuctionLogData_parts now ad kid cost slot m :
  (slot ≤ 20)%nat →
  let m' := updateAuctionLogData now ad kid cost slot m in
  ∃ m1 m2, keyword_stat_data_ m1 = keyword_stat_data_ m ∧
    global_stat_data_ m1 = global_stat_data_ m ∧
    m2 = click_keyword now kid cost slot m1 ∧
    m' = click_global now slot m2 ∧
    ∀ ad', period_view now m1 ad'
      = if decide (ad' = ad)
        then touch_slot AdViewSlotInfo_init slot (bump_click cost) (period_view now m ad)
        else period_view now m ad'.
Proof.
  intros Hs. unfold updateAuctionLogData.
  destruct (enter_ad_period now ad m) as [m0 v] eqn:E.
  apply enter_ad_period_spec in E as (-> & Hpv & Hk & Hg).
  replace (MAX_AD_SLOT <? Z.of_nat slot) with false.
  2:{ symmetry. apply Z.ltb_ge. unfold MAX_AD_SLOT. lia. }
  eexists _, _. split_and!; [| |reflexivity|reflexivity|].
  - done.
  - done.
  - intros ad'. rewrite period_view_store. case_decide; [done|]. apply Hpv.
Qed.

(** A click on a valid slot adds one click and one entry of its cost to
    that slot of the ad in the current hour, and changes no other slot of any
    ad. *)
Theorem updateAuctionLogData_ad now ad kid cost slot m ad' s :
  (slot ≤ 20)%nat →
  slot_of (period_view now (updateAuctionLogData now ad kid cost slot m) ad') s
  = if decide (ad' = ad ∧ s = slot) then bump_click cost (slot_of (period_view now m ad) slot)
    else slot_of (period_view now m ad') s.
Proof.
  intros Hs.
  destruct (updateAuctionLogData_parts now ad kid cost slot m Hs)
    as (m1 & m2 & Hk & Hg & E2 & E & Hpv). rewrite E.
  destruct (click_keyword_spec now kid cost slot m1) as (Ha2 & _).
  destruct (click_global_spec now slot m2) as (Ha3 & _).
  rewrite (period_view_ext _ _ _ _ Ha3), E2, (period_view_ext _ _ _ _ Ha2), Hpv.
  destruct (decide (ad' = ad)) as [->|Hne]; [|by rewrite decide_False by naive_solver].
  unfold slot_of. rewrite touch_slot_lookup. repeat case_decide; naive_solver.
Qed.

(** A click on a slot counts in the record of its keyword and in the
    global record, and cuts both off after that slot: the higher slots of the
    hour are lost. *)
Theorem updateAuctionLogData_keyword now ad kid cost slot m :
  (slot ≤ 20)%nat →
  let m' := updateAuctionLogData now ad kid cost slot m in
  let before := view_info (key_view now m kid) in
  let after := view_info (key_view now m' kid) in
  length after = (slot + 1)%nat ∧
  (∀ s, kslot_of after s
     = if decide (s = slot) then bump_kclick cost (kslot_of before s)
       else if decide (s < slot)%nat then kslot_of before s
       else KeywordViewSlotInfo_init) ∧
  searched_num (key_view now m' kid) = searched_num (key_view now m kid) ∧
  (∀ k, k ≠ kid → key_view now m' k = key_view now m k) ∧
  length (global_view now m') = (slot + 1)%nat ∧
  (∀ s, default 0 (global_view now m' !! s)
     = if decide (s = slot) then i32 (default 0 (global_view now m !! s) + 1)
       else if decide (s < slot)%nat then default 0 (global_view now m !! s) else 0).
Proof.
  intros Hs.
  destruct (updateAuctionLogData_parts now ad kid cost slot m Hs)
    as (m1 & m2 & Hk & Hg & E2 & E & Hpv). rewrite E.
  destruct (click_keyword_spec now kid cost slot m1) as (_ & Hg2 & Hko & Hsn & Hl & Hv).
  destruct (click_global_spec now slot m2) as (_ & Hk3 & Hgl & Hgv).
  assert (∀ k, key_view now (click_global now slot m2) k = key_view now m2 k) as Hkv.
  { intros k. by apply key_view_ext. }
  assert (∀ k, key_view now m1 k = key_view now m k) as Hkm by (intros; by apply key_view_ext).
  assert (global_view now m2 = global_view now m) as Hgm.
  { subst m2. rewrite (global_view_ext _ _ _ Hg2). by apply global_view_ext. }
  cbv zeta. rewrite Hkv, E2. split_and!.
  - done.
  - intros s. by rewrite Hv, Hkm.
  - by rewrite Hsn, Hkm.
  - intros k Hne. rewrite <- E2, Hkv, E2, Hko, Hkm; done.
  - by rewrite <- E2.
  - intros s. rewrite <- E2, Hgv. by rewrite Hgm.
Qed.

(** What a click on an invalid slot does. *)
Theorem updateAuctionLogData_invalid now ad kid cost slot m :
  (20 < slot)%nat →
  let m' := updateAuctionLogData now ad kid cost slot m in
  (∀ ad', period_view now m' ad' = period_view now m ad') ∧
  keyword_stat_data_ m' = keyword_stat_data_ m ∧
  global_stat_data_ m' = global_stat_data_ m ∧
  is_Some (default ∅ (ad_stat_data_ m' !! ad) !! gettimestr now 0).
Proof.
  intros Hs. unfold updateAuctionLogData.
  destruct (enter_ad_period now ad m) as [m0 v] eqn:E. pose proof E as E'.
  apply enter_ad_period_spec in E as (-> & Hpv & Hk & Hg).
  replace (MAX_AD_SLOT <? Z.of_nat slot) with true.
  2:{ symmetry. apply Z.ltb_lt. unfold MAX_AD_SLOT. lia. }
  split_and!; [done|done|done|].
  unfold enter_ad_period in E'. injection E' as <-.
  simpl. rewrite lookup_insert_eq. simpl. rewrite lookup_insert_eq. by eexists.
Qed.

(** ** The history adds up the periods *)

Lemma merge_slots_lookup {A} (d : A) f h v s :
  default d (merge_slots d f h v !! s)
  = if decide (s < length v)%nat then f (default d (h !! s)) (default d (v !! s))
    else default d (h !! s).
Proof.
  unfold merge_slots.
  set (h' := if (length h <? length v)%nat then _ else _).
  assert (length v ≤ length h')%nat as Hl.
  { unfold h'. destruct (length h <? length v)%nat eqn:E; bool_cases;
      [by rewrite length_resize|done]. }
  assert (∀ j, default d (h' !! j) = default d (h !! j)) as Hh.
  { intros j. unfold h'. destruct (length h <? length v)%nat eqn:E; bool_cases; [|done].
    rewrite resize_lookup. case_decide; [done|]. by rewrite lookup_ge_None_2 by lia. }
  rewrite lookup_app. rewrite <- Hh. case_decide as Hs.
  - destruct (lookup_lt_is_Some_2 v s Hs) as [y Hy].
    destruct (lookup_lt_is_Some_2 h' s ltac:(lia)) as [x Hx].
    assert (zip_with f h' v !! s = Some (f x y)) as ->.
    { apply lookup_zip_with_Some. eauto. }
    by rewrite Hx, Hy.
  - rewrite (lookup_ge_None_2 (zip_with f h' v)) by (rewrite length_zip_with; lia).
    rewrite length_zip_with, lookup_drop. do 2 f_equal. lia.
Qed.

Lemma length_merge_slots {A} (d : A) f h v :
  length (merge_slots d f h v) = (length h `max` length v)%nat.
Proof.
  unfold merge_slots. rewrite length_app, length_zip_with, length_drop.
  destruct (length h <? length v)%nat eqn:E; bool_cases; rewrite ?length_resize; lia.
Qed.

Lemma fold_merge_sum {A} (d : A) f (g : A → Z) vs :
  g d = 0 → (∀ a b, i32 (g (f a b)) = i32 (g a + g b)) →
  ∀ h s, i32 (g (default d (fold_left (merge_slots d f) vs h !! s)))
    = i32 (g (default d (h !! s)) + zsum (map (λ v, g (default d (v !! s))) vs)).
Proof.
  intros Hd Hf. induction vs as [|v vs IH]; intros h s; simpl; [f_equal; lia|].
  rewrite IH, merge_slots_lookup, Z.add_assoc.
  rewrite <- i32_add_l. rewrite <- (i32_add_l (g _ + g _)). do 2 f_equal.
  case_decide as Hs; [apply Hf|].
  rewrite (lookup_ge_None_2 v s) by lia. simpl. rewrite Hd. f_equal. lia.
Qed.

Definition count (c : Z) (m : gmap Z Z) : Z := default 0 (m !! c).
Definition count_sum (m : gmap Z Z) : Z := map_fold (λ _ n acc, n + acc) 0 m.

Lemma count_sum_insert c n (m : gmap Z Z) :
  m !! c = None → count_sum (<[c := n]> m) = n + count_sum m.
Proof. intros Hc. unfold count_sum. apply map_fold_insert_L; [intros; lia|done]. Qed.

Lemma count_sum_delete c n (m : gmap Z Z) :
  m !! c = Some n → count_sum m = n + count_sum (delete c m).
Proof.
  intros Hc. rewrite <- (count_sum_insert c) by apply lookup_delete_eq.
  by rewrite insert_delete_eq, insert_id.
Qed.

Lemma count_add c c' n m :
  i32 (count c (add_count c' n m)) = i32 (count c m + if decide (c = c') then n else 0).
Proof.
  unfold count, add_count. case_decide as Hc; [subst c'|].
  - destruct (m !! c) eqn:E; simplify_map_eq; [by rewrite i32_idem|done].
  - destruct (m !! c') eqn:E; rewrite lookup_insert_ne by done; f_equal; lia.
Qed.

Lemma count_sum_add c n m : i32 (count_sum (add_count c n m)) = i32 (count_sum m + n).
Proof.
  unfold add_count. destruct (m !! c) as [n0|] eqn:E.
  - rewrite <- insert_delete_eq, count_sum_insert by apply lookup_delete_eq.
    rewrite i32_add_l, (count_sum_delete c n0 m E). f_equal. lia.
  - rewrite count_sum_insert by done. f_equal. lia.
Qed.

Lemma count_merge c h a :
  i32 (count c (merge_counts h a)) = i32 (count c h + count c a).
Proof.
  unfold merge_counts. apply (map_fold_weak_ind (λ r a, i32 (count c r) = i32 (count c h + count c a))).
  - unfold count at 3. rewrite lookup_empty. f_equal. simpl. lia.
  - intros c' n a' r Hc' Hr. rewrite count_add, <- i32_add_l, Hr, i32_add_l.
    f_equal. unfold count. case_decide; subst; simplify_map_eq; lia.
Qed.

Lemma count_sum_merge h a :
  i32 (count_sum (merge_counts h a)) = i32 (count_sum h + count_sum a).
Proof.
  unfold merge_counts.
  apply (map_fold_weak_ind (λ r a, i32 (count_sum r) = i32 (count_sum h + count_sum a))).
  - unfold count_sum at 3. rewrite map_fold_empty. f_equal. lia.
  - intros c n a' r Hc Hr. rewrite count_sum_add, <- i32_add_l, Hr, i32_add_l.
    rewrite count_sum_insert by done. f_equal. lia.
Qed.

(** The history of an ad is, slot by slot and cost by cost, the sum
    (modulo 2^32) of the hours of its window. *)
Theorem updateHistoryAdLogData_sums now ad info m s :
  let ps := history_periods now info in
  let h := slot_of (default [] (ad_history_stat_data_
             (updateHistoryAdLogData now ad info m) !! ad)) s in
  i32 (impression_num h) = i32 (zsum (map (λ p, impression_num (slot_of p s)) ps)) ∧
  i32 (click_num h) = i32 (zsum (map (λ p, click_num (slot_of p s)) ps)) ∧
  ∀ c, i32 (count c (keyword_cpc h))
     = i32 (zsum (map (λ p, count c (keyword_cpc (slot_of p s))) ps)).
Proof.
  intros ps h. unfold h, updateHistoryAdLogData. simpl. rewrite lookup_insert_eq. simpl.
  fold ps. unfold slot_of.
  assert (∀ g, g AdViewSlotInfo_init = 0 →
    (∀ a b, i32 (g (merge_ad_slot a b)) = i32 (g a + g b)) →
    i32 (g (default AdViewSlotInfo_init
      (fold_left (merge_slots AdViewSlotInfo_init merge_ad_slot) ps [] !! s)))
    = i32 (zsum (map (λ v, g (default AdViewSlotInfo_init (v !! s))) ps))) as Hsum.
  { intros g Hg0 Hg. rewrite fold_merge_sum by done. simpl. by rewrite Hg0. }
  split_and!.
  - apply Hsum; [done|]. intros a b. simpl. apply i32_idem.
  - apply Hsum; [done|]. intros a b. simpl. apply i32_idem.
  - intros c. apply (Hsum (λ x, count c (keyword_cpc x))); [done|].
    intros a b. apply count_merge.
Qed.

(** ** The texts of the hours *)

(** When the carries of [gettimestr] give a real hour. *)
Theorem shift_hours_range t hours :
  tm_ok t → -48 ≤ hours ≤ 0 →
  (0 ≤ tm_hour (shift_hours t hours) ≤ 23 ↔ - (24 + tm_hour t) ≤ hours) ∧
  (- (24 + tm_hour t) ≤ hours →
     0 ≤ tm_yday (shift_hours t hours) ≤ 365 ∧
     (- (tm_hour t) ≤ hours →
        shift_hours t hours = Tm (tm_year t) (tm_yday t) (tm_hour t + hours))).
Proof.
  intros (Hd & Hh & Hy) Hr. unfold shift_hours, carry_hour, carry_yday.
  change HOURS_OF_DAY with 24.
  destruct (tm_hour t + hours <? 0) eqn:E1; bool_cases.
  - cbn [tm_yday tm_hour tm_year].
    destruct (tm_yday t - 1 <? 0) eqn:E2; bool_cases; cbn [tm_yday tm_hour tm_year].
    + split; [lia|]. intros Hlow. split; [lia|intros ?; exfalso; lia].
    + destruct (365 <? tm_yday t - 1) eqn:E3; bool_cases; cbn [tm_yday tm_hour tm_year];
        (split; [lia|]); intros Hlow; (split; [lia|intros ?; exfalso; lia]).
  - replace (24 <=? tm_hour t + hours) with false by (symmetry; apply Z.leb_gt; lia).
    cbn [tm_yday tm_hour tm_year].
    replace (tm_yday t <? 0) with false by (symmetry; apply Z.ltb_ge; lia).
    replace (365 <? tm_yday t) with false by (symmetry; apply Z.ltb_ge; lia).
    cbn [tm_yday tm_hour tm_year]. split; [lia|]. intros _. split; [lia|done].
Qed.

Lemma gettimestr_real t : tm_ok t →
  gettimestr t 0 = String.append (lexical_cast (tm_year t))
    (String.append (lexical_cast (tm_yday t)) (lexical_cast (tm_hour t))).
Proof.
  intros Ht. unfold gettimestr.
  destruct (shift_hours_range t 0 Ht ltac:(lia)) as [_ Hlow].
  destruct Ht as (Hd & Hh & Hy).
  rewrite (proj2 (Hlow ltac:(lia)) ltac:(lia)). simpl. by rewrite Z.add_0_r.
Qed.

(** Only the last [24 + tm_hour] hours are ever found again. *)
Definition real_keys {V} (m : gmap string V) : Prop :=
  ∀ k, is_Some (m !! k) → ∃ t, tm_ok t ∧ k = gettimestr t 0.

Lemma history_key_lost `{!LexicalCastOk} {V} (m : gmap string V) now i :
  real_keys m → tm_ok now → 24 + tm_hour now < i ≤ 48 →
  m !! gettimestr now (0 - i) = None.
Proof.
  intros Hm Hnow Hi. pose proof Hnow as (_ & Hnh & _). destruct (m !! gettimestr now (0 - i)) eqn:E; [|done]. exfalso.
  destruct (Hm _ (mk_is_Some _ _ E)) as (t & Ht & Hk).
  rewrite (gettimestr_real t Ht) in Hk. unfold gettimestr in Hk.
  apply (f_equal string_chars) in Hk. rewrite !string_chars_append in Hk.
  destruct (shift_hours_range now (0 - i) Hnow ltac:(lia)) as [Hrange _].
  assert (tm_hour (shift_hours now (0 - i)) < 0) as Hneg.
  { assert (tm_hour (shift_hours now (0 - i)) ≤ 23) as Hle.
    { destruct Hnow as (? & ? & ?). unfold shift_hours, carry_hour.
      change HOURS_OF_DAY with 24.
      rewrite (proj2 (Z.ltb_lt (tm_hour now + (0 - i)) 0)) by lia.
      unfold carry_yday. repeat case_match; simpl; lia. }
    lia. }
  destruct Ht as (Hd & Hh & Hy).
  assert (dash ∈ string_chars (lexical_cast (tm_year t)) ++
    string_chars (lexical_cast (tm_yday t)) ++ string_chars (lexical_cast (tm_hour t))) as Hin.
  { rewrite <- Hk, !elem_of_app. right. right. by apply lexical_cast_signed. }
  rewrite !elem_of_app in Hin.
  destruct Hin as [Hin|[Hin|Hin]]; (eapply lexical_cast_unsigned; [|exact Hin]; lia).
Qed.

(** The window of the history is the last [24 + tm_hour] hours, not the
    48 of [HISTORY_HOURS]: further back [gettimestr] writes hours no record
    has. *)
Theorem history_window `{!LexicalCastOk} {V} (m : gmap string V) now :
  real_keys m → tm_ok now →
  history_periods now m
  = omap (λ i, m !! gettimestr now (0 - Z.of_nat i)) (seq 1 (Z.to_nat (24 + tm_hour now))).
Proof.
  intros Hm Hnow. pose proof Hnow as (_ & Hh & _). unfold history_periods, HISTORY_HOURS.
  replace (Z.to_nat 48) with (Z.to_nat (24 + tm_hour now) + Z.to_nat (24 - tm_hour now))%nat by lia.
  rewrite seq_app, omap_app.
  assert (omap (λ i, m !! gettimestr now (0 - Z.of_nat i))
    (seq (1 + Z.to_nat (24 + tm_hour now)) (Z.to_nat (24 - tm_hour now))) = []) as ->.
  { assert (∀ l, (∀ i, i ∈ l → m !! gettimestr now (0 - Z.of_nat i) = None) →
      omap (λ i, m !! gettimestr now (0 - Z.of_nat i)) l = []) as Hnil.
    { induction l as [|i l IH]; intros Hl; [done|]. simpl. rewrite Hl by left.
      apply IH. intros j Hj. apply Hl. by right. }
    apply Hnil. intros i Hi%elem_of_seq. apply history_key_lost; [done|done|lia]. }
  by rewrite app_nil_r.
Qed.
End AuctionLogProofs.

(** Two different hours with the same text. *)
Theorem gettimestr_ambiguous :
  ∃ t1 t2, tm_ok t1 ∧ tm_ok t2 ∧ t1 ≠ t2 ∧ gettimestr t1 0 = gettimestr t2 0.
Proof.
  exists (Tm 114 1 11), (Tm 114 11 1). unfold tm_ok. simpl.
  split_and!; try lia; [done|by vm_compute].
Qed.

(** ** The reachable states of the log *)

Section AuctionLogInvariant.
Context `{LexicalCast}.

Inductive log_step : AdAuctionLogMgr → AdAuctionLogMgr → Prop :=
| step_search now kws ads m :
    log_step m (updateAdSearchStat now kws ads m)
| step_click now ad kid cost slot m :
    log_step m (updateAuctionLogData now ad kid cost slot m).

Definition log_reachable (m : AdAuctionLogMgr) : Prop := rtc log_step AdAuctionLogMgr_init m.

(** Clicks are the sum of the clicks per cost, and slots stay within the page. *)
Definition ad_slot_ok (s : AdViewSlotInfo) : Prop :=
  i32 (click_num s) = i32 (count_sum (keyword_cpc s)).
Definition key_slot_ok (s : KeywordViewSlotInfo) : Prop :=
  i32 (kclick_num s) = i32 (count_sum (cost_list s)).
Definition good {S} (ok : S → Prop) (v : list S) : Prop :=
  (length v ≤ 21)%nat ∧ Forall ok v.

Record log_inv (m : AdAuctionLogMgr) : Prop := {
  inv_ad : ∀ ad ps t v, ad_stat_data_ m !! ad = Some ps → ps !! t = Some v →
    good ad_slot_ok v;
  inv_ad_history : ∀ ad v, ad_history_stat_data_ m !! ad = Some v → good ad_slot_ok v;
  inv_key : ∀ k ps t v, keyword_stat_data_ m !! k = Some ps → ps !! t = Some v →
    good key_slot_ok (view_info v);
  inv_key_history : ∀ k v, keyword_history_stat_data_ m !! k = Some v →
    good key_slot_ok (view_info v);
  inv_global : ∀ t v, global_stat_data_ m !! t = Some v →
    (length (click_num_list v) ≤ 21)%nat;
  inv_global_history : (length (click_num_list (global_history_stat_data_ m)) ≤ 21)%nat }.

Lemma good_nil {S} (ok : S → Prop) : good ok [].
Proof. split; [simpl; lia|constructor]. Qed.

Lemma good_alter {S} (ok : S → Prop) f s v :
  (∀ x, ok x → ok (f x)) → good ok v → good ok (alter f s v).
Proof.
  intros Hf [Hl Hv]. split; [by rewrite length_alter|].
  apply Forall_lookup. intros j x Hx. rewrite Forall_lookup in Hv.
  destruct (decide (j = s)) as [->|Hne].
  - rewrite list_lookup_alter_eq in Hx. destruct (v !! s) eqn:E; simplify_eq/=. eauto.
  - rewrite list_lookup_alter_ne in Hx by done. eauto.
Qed.

Lemma good_resize {S} (ok : S → Prop) d n v :
  ok d → (n ≤ 21)%nat → good ok v → good ok (resize n d v).
Proof.
  intros Hd Hn [Hl Hv]. split; [by rewrite length_resize|]. by apply Forall_resize.
Qed.

Lemma good_touch {S} (ok : S → Prop) d s f v :
  ok d → (∀ x, ok x → ok (f x)) → (s ≤ 20)%nat → good ok v → good ok (touch_slot d s f v).
Proof.
  intros Hd Hf Hs Hv. unfold touch_slot. apply good_alter; [done|].
  destruct (length v <=? s)%nat; [apply good_resize; (done || lia)|done].
Qed.

Lemma good_merge {S} (ok : S → Prop) d f h v :
  ok d → (∀ x y, ok x → ok y → ok (f x y)) → good ok h → good ok v →
  good ok (merge_slots d f h v).
Proof.
  intros Hd Hf [Hlh Hh] [Hlv Hv]. split; [rewrite length_merge_slots; lia|].
  unfold merge_slots. apply Forall_app. split.
  - rewrite Forall_lookup. intros j x (a & b & -> & Ha & Hb)%lookup_zip_with_Some.
    rewrite Forall_lookup in Hv. apply Hf; [|by eapply Hv].
    destruct (length h <? length v)%nat; [|by eapply Forall_lookup_1].
    eapply (Forall_lookup_1 ok (resize (length v) d h)); [by apply Forall_resize|done].
  - apply Forall_drop. destruct (_ <? _)%nat; [by apply Forall_resize|done].
Qed.

Lemma ad_slot_ok_bump_click cost s : ad_slot_ok s → ad_slot_ok (bump_click cost s).
Proof.
  unfold ad_slot_ok. simpl. intros Hs.
  by rewrite i32_idem, count_sum_add, <- i32_add_l, Hs, i32_add_l.
Qed.
Lemma key_slot_ok_bump cost s : key_slot_ok s → key_slot_ok (bump_kclick cost s).
Proof.
  unfold key_slot_ok. simpl. intros Hs.
  by rewrite i32_idem, count_sum_add, <- i32_add_l, Hs, i32_add_l.
Qed.
Lemma ad_slot_ok_merge a b : ad_slot_ok a → ad_slot_ok b → ad_slot_ok (merge_ad_slot a b).
Proof.
  unfold ad_slot_ok. simpl. intros Ha Hb.
  by rewrite i32_idem, count_sum_merge, <- i32_add_l, Ha, <- i32_add_r, Hb, i32_add_l, i32_add_r.
Qed.
Lemma key_slot_ok_merge a b : key_slot_ok a → key_slot_ok b → key_slot_ok (merge_key_slot a b).
Proof.
  unfold key_slot_ok. simpl. intros Ha Hb.
  by rewrite i32_idem, count_sum_merge, <- i32_add_l, Ha, <- i32_add_r, Hb, i32_add_l, i32_add_r.
Qed.

Lemma history_periods_elem {V} now (m : gmap string V) v :
  v ∈ history_periods now m → ∃ t, m !! t = Some v.
Proof. unfold history_periods. intros (i & _ & Hi)%list_elem_of_omap. eauto. Qed.

Lemma history_ad_ok now ad ps m :
  log_inv m → (∀ t v, ps !! t = Some v → good ad_slot_ok v) →
  log_inv (updateHistoryAdLogData now ad ps m).
Proof.
  intros [H1 H2 H3 H4 H5 H6] Hps. constructor; simpl; try done.
  intros ad' v. destruct (decide (ad' = ad)) as [->|]; simplify_map_eq; [|by eauto].
  intros [= <-]. apply fold_left_inv; [apply good_nil|].
  intros h p Hp Hh. apply history_periods_elem in Hp as [t Ht].
  apply good_merge; eauto using ad_slot_ok_merge. done.
Qed.

Lemma history_key_ok now k ps m :
  log_inv m → (∀ t v, ps !! t = Some v → good key_slot_ok (view_info v)) →
  log_inv (updateHistoryKeywordLogData now k ps m).
Proof.
  intros [H1 H2 H3 H4 H5 H6] Hps. constructor; simpl; try done.
  intros k' v. destruct (decide (k' = k)) as [->|]; simplify_map_eq; [|by eauto].
  intros [= <-].
  apply (fold_left_inv (λ h, good key_slot_ok (view_info h))); [apply good_nil|].
  intros h p Hp Hh. apply history_periods_elem in Hp as [t Ht].
  apply good_merge; eauto using key_slot_ok_merge. done.
Qed.

Lemma history_global_ok now m : log_inv m → log_inv (updateHistoryGlobalLogData now m).
Proof.
  intros [H1 H2 H3 H4 H5 H6]. constructor; simpl; try done.
  apply (fold_left_inv (λ h, length (click_num_list h) ≤ 21)%nat); [simpl; lia|].
  intros h p Hp Hh. apply history_periods_elem in Hp as [t Ht]. simpl. rewrite length_merge_slots. apply H5 in Ht. lia.
Qed.

Lemma ad_periods_ok m ad t v :
  log_inv m → default ∅ (ad_stat_data_ m !! ad) !! t = Some v → good ad_slot_ok v.
Proof.
  intros Hm. destruct (ad_stat_data_ m !! ad) eqn:E; simpl; [|done].
  by apply (inv_ad m Hm ad).
Qed.
Lemma key_periods_ok m k t v :
  log_inv m → default ∅ (keyword_stat_data_ m !! k) !! t = Some v →
  good key_slot_ok (view_info v).
Proof.
  intros Hm. destruct (keyword_stat_data_ m !! k) eqn:E; simpl; [|done].
  by apply (inv_key m Hm k).
Qed.

Lemma store_ad_ok now ad v m :
  log_inv m → good ad_slot_ok v → log_inv (store_ad_view now ad v m).
Proof.
  intros Hm Hv. pose proof Hm as [H1 H2 H3 H4 H5 H6]. constructor; simpl; try done.
  intros ad' ps t w. destruct (decide (ad' = ad)) as [->|]; simplify_map_eq; [|by eauto].
  intros [= <-]. destruct (decide (t = gettimestr now 0)) as [->|]; simplify_map_eq; [congruence|].
  by apply ad_periods_ok.
Qed.

Lemma store_key_ok now k v m :
  log_inv m → good key_slot_ok (view_info v) → log_inv (store_key_view now k v m).
Proof.
  intros Hm Hv. pose proof Hm as [H1 H2 H3 H4 H5 H6]. constructor; simpl; try done.
  intros k' ps t w. destruct (decide (k' = k)) as [->|]; simplify_map_eq; [|by eauto].
  intros [= <-]. destruct (decide (t = gettimestr now 0)) as [->|]; simplify_map_eq; [congruence|].
  by apply key_periods_ok.
Qed.

Lemma enter_ad_ok now ad m m' v :
  log_inv m → enter_ad_period now ad m = (m', v) → log_inv m' ∧ good ad_slot_ok v.
Proof.
  intros Hm. unfold enter_ad_period. intros [= <- <-].
  assert (good ad_slot_ok (default [] (default ∅ (ad_stat_data_ m !! ad) !! gettimestr now 0))) as Hv.
  { destruct (default ∅ _ !! _) eqn:E; simpl; [by eapply ad_periods_ok|apply good_nil]. }
  split; [|done].
  set (m0 := match _ with Some _ => _ | None => _ end).
  assert (log_inv m0 ∧ ad_stat_data_ m0 = ad_stat_data_ m) as [H0 E0].
  { unfold m0. destruct (default ∅ _ !! _) eqn:E; [done|]. split; [|done].
    apply history_ad_ok; [done|]. intros t w. by apply ad_periods_ok. }
  pose proof (store_ad_ok now ad _ m0 H0 Hv) as Hst.
  unfold store_ad_view in Hst. rewrite E0 in Hst |- *. exact Hst.
Qed.

Lemma enter_key_ok now k m m' v :
  log_inv m → enter_keyword_period now k m = (m', v) →
  log_inv m' ∧ good key_slot_ok (view_info v).
Proof.
  intros Hm. unfold enter_keyword_period. intros [= <- <-]. split.
  - destruct (default ∅ _ !! _) eqn:E; [done|]. apply history_key_ok; [done|].
    intros t w. by apply key_periods_ok.
  - destruct (default ∅ _ !! _) eqn:E; simpl; [by eapply key_periods_ok|apply good_nil].
Qed.

Lemma search_stat_ads_ok now ads : ∀ slot m,
  log_inv m → log_inv (search_stat_ads now slot ads m).1.
Proof.
  induction ads as [|ad ads IH]; intros slot m Hm; [done|].
  cbn [search_stat_ads]. destruct (enter_ad_period now ad m) as [m1 v] eqn:E.
  apply enter_ad_ok in E as [Hm1 Hv]; [|done].
  destruct (MAX_AD_SLOT <? Z.of_nat slot) eqn:Hs; [done|].
  apply Z.ltb_ge in Hs. unfold MAX_AD_SLOT in Hs. apply IH, store_ad_ok; [done|].
  apply good_touch; try done. lia.
Qed.

Lemma search_ok now kws ads m : log_inv m → log_inv (updateAdSearchStat now kws ads m).
Proof.
  intros Hm. unfold updateAdSearchStat.
  pose proof (search_stat_ads_ok now ads 0 m Hm) as Hm1.
  destruct (search_stat_ads now 0 ads m) as [m1 []]; [|done].
  apply fold_left_inv; [done|]. intros m2 k _ Hm2. unfold search_stat_keyword.
  destruct (enter_keyword_period now k m2) as [m3 v] eqn:E.
  apply enter_key_ok in E as [Hm3 Hv]; [|done]. by apply store_key_ok.
Qed.

Lemma click_ok now ad kid cost slot m :
  log_inv m → log_inv (updateAuctionLogData now ad kid cost slot m).
Proof.
  intros Hm. unfold updateAuctionLogData.
  destruct (enter_ad_period now ad m) as [m1 v] eqn:E.
  apply enter_ad_ok in E as [Hm1 Hv]; [|done].
  destruct (MAX_AD_SLOT <? Z.of_nat slot) eqn:Hs; [done|].
  apply Z.ltb_ge in Hs. unfold MAX_AD_SLOT in Hs.
  assert (log_inv (store_ad_view now ad
    (touch_slot AdViewSlotInfo_init slot (bump_click cost) v) m1)) as Hm2.
  { apply store_ad_ok; [done|]. apply good_touch;
      eauto using ad_slot_ok_bump_click; [done|lia]. }
  revert Hm2. generalize (store_ad_view now ad
    (touch_slot AdViewSlotInfo_init slot (bump_click cost) v) m1). intros m2 Hm2.
  assert (log_inv (click_keyword now kid cost slot m2)) as Hm3.
  { unfold click_keyword. destruct (enter_keyword_period now kid m2) as [m3 w] eqn:E.
    apply enter_key_ok in E as [Hm3 Hw]; [|done]. apply store_key_ok; [done|]. simpl.
    apply good_alter; [intros; by apply key_slot_ok_bump|]. apply good_resize; try done. lia. }
  revert Hm3. generalize (click_keyword now kid cost slot m2). intros m3 Hm3.
  unfold click_global. set (m4 := match _ with Some _ => _ | None => _ end).
  assert (log_inv m4) as [H1 H2 H3 H4 H5 H6].
  { unfold m4. destruct (global_stat_data_ m3 !! _); [done|]. by apply history_global_ok. }
  constructor; simpl; try done. intros t w.
  destruct (decide (t = gettimestr now 0)) as [->|]; simplify_map_eq; [|by eauto].
  intros [= <-]. simpl. rewrite length_alter, length_resize. lia.
Qed.

(** ** The history of all clicks *)

Lemma global_history_sums now m j :
  i32 (default 0 (click_num_list (global_history_stat_data_ (updateHistoryGlobalLogData now m)) !! j)) =
  i32 (zsum (map (λ v, default 0 (click_num_list v !! j)) (history_periods now (global_stat_data_ m)))).
Proof.
  unfold updateHistoryGlobalLogData. simpl. set (f := λ h v : GlobalInfo, Global _).
  assert (∀ vs h, click_num_list (fold_left f vs h) = fold_left (merge_slots 0 (λ a b, i32 (a + b))) (map click_num_list vs) (click_num_list h)) as ->.
  { induction vs as [|v vs IH]; intros h; [done|]. simpl. by rewrite IH. }
  pose proof (fold_merge_sum 0 (λ a b, i32 (a + b)) (λ n, n) (map click_num_list (history_periods now (global_stat_data_ m))) eq_refl) as Hsum.
  cbv beta in Hsum. rewrite Hsum; [|intros; apply i32_idem]. simpl. by rewrite map_map.
Qed.

Lemma enter_ad_global now ad m m' v : enter_ad_period now ad m = (m', v) →
  global_stat_data_ m' = global_stat_data_ m ∧ global_history_stat_data_ m' = global_history_stat_data_ m.
Proof. unfold enter_ad_period. intros [= <- _]. by destruct (default ∅ _ !! _). Qed.

Lemma click_keyword_global now kid cost slot m :
  global_stat_data_ (click_keyword now kid cost slot m) = global_stat_data_ m ∧
  global_history_stat_data_ (click_keyword now kid cost slot m) = global_history_stat_data_ m.
Proof. unfold click_keyword, enter_keyword_period. by destruct (default ∅ _ !! _). Qed.

Lemma click_history now ad kid cost slot m : Z.of_nat slot ≤ MAX_AD_SLOT →
  global_history_stat_data_ (updateAuctionLogData now ad kid cost slot m) =
    match global_stat_data_ m !! gettimestr now 0 with
    | Some _ => global_history_stat_data_ m
    | None => global_history_stat_data_ (updateHistoryGlobalLogData now m)
    end.
Proof.
  intros Hslot. unfold updateAuctionLogData. destruct (enter_ad_period now ad m) as [m1 v] eqn:E. apply enter_ad_global in E as [E1 E2].
  rewrite (proj2 (Z.ltb_ge _ _)) by done. set (m2 := store_ad_view _ _ _ m1).
  destruct (click_keyword_global now kid cost slot m2) as [E3 E4]. unfold click_global. rewrite E3. change (global_stat_data_ m2) with (global_stat_data_ m1).
  rewrite E1. destruct (global_stat_data_ m !! _).
  - cbn [set_global_stat global_history_stat_data_]. rewrite E4. change (global_history_stat_data_ m2) with (global_history_stat_data_ m1). done.
  - cbn [set_global_stat set_global_history updateHistoryGlobalLogData global_history_stat_data_]. rewrite E3.
    change (global_stat_data_ m2) with (global_stat_data_ m1). by rewrite E1.
Qed.

Lemma reachable_ok m : log_reachable m → log_inv m.
Proof.
  unfold log_reachable. intros Hr.
  assert (log_inv AdAuctionLogMgr_init) as H0.
  { constructor; simpl; [intros *; by rewrite lookup_empty..|lia]. }
  revert H0. induction Hr as [|m1 m2 m3 Hstep _ IH]; [done|].
  intros Hm1. apply IH. destruct Hstep; [by apply search_ok|by apply click_ok].
Qed.

(** C39: In every state the log reaches by searches and clicks, each slot's
    clicks are the sum of its counts per cost (modulo 2^32), for ads and for
    keywords, in the hourly records and in the history, and no record, the
    global history included, has more than 21 slots. A click on one of these
    slots that begins a new hour leaves in the global history, slot by slot,
    the sum (modulo 2^32) of the clicks in the records of the last hours; any
    other click leaves the global history as it is. *)
Theorem log_reachable_inv m : log_reachable m → log_inv m ∧
  ∀ now ad kid cost slot, Z.of_nat slot ≤ MAX_AD_SLOT →
    let h := global_history_stat_data_ (updateAuctionLogData now ad kid cost slot m) in
    match global_stat_data_ m !! gettimestr now 0 with
    | Some _ => h = global_history_stat_data_ m
    | None => ∀ j, i32 (default 0 (click_num_list h !! j)) = i32 (zsum (map (λ v, default 0 (click_num_list v !! j)) (history_periods now (global_stat_data_ m))))
    end.
Proof.
  intros Hm. split; [by apply reachable_ok|]. intros now ad kid cost slot Hslot h. unfold h. rewrite click_history by done.
  destruct (global_stat_data_ m !! _); [done|]. intros j. apply global_history_sums.
Qed.
End AuctionLogInvariant.

(** ** Concrete logs *)

Definition sample_now : tm := Tm 114 100 13.

(** One search that showed two ads, and a click on the first. *)
Definition sample_log : AdAuctionLogMgr :=
  updateAuctionLogData sample_now "ad1" "phone" 50 0
    (updateAdSearchStat sample_now ["phone"; "tv"]%string ["ad1"; "ad2"]%string AdAuctionLogMgr_init).

Lemma updateAdSearchStat_witness :
  searched_num (key_view sample_now (updateAdSearchStat sample_now ["tv"%string] ["ad2"; "ad1"]%string sample_log) "tv") = 2 ∧
  impression_num (slot_of (period_view sample_now
    (updateAdSearchStat sample_now ["tv"%string] ["ad2"; "ad1"]%string sample_log) "ad1") 1) = 1.
Proof.
  destruct (updateAdSearchStat_counts sample_now ["tv"%string] ["ad2"; "ad1"]%string sample_log) as (Ha & Hk & _).
  - apply NoDup_singleton.
  - simpl. lia.
  - split; [rewrite Hk|rewrite Ha]; vm_compute; reflexivity.
Defined.

Lemma updateAuctionLogData_ad_witness :
  click_num (slot_of (period_view sample_now (updateAuctionLogData sample_now "ad2" "tv" 60 1 sample_log) "ad2") 1) = 1.
Proof.
  rewrite (updateAuctionLogData_ad sample_now "ad2" "tv" 60 1 sample_log "ad2" 1) by lia.
  vm_compute. reflexivity.
Defined.

Lemma updateAuctionLogData_keyword_witness :
  global_view sample_now (updateAuctionLogData sample_now "ad2" "phone" 60 1 sample_log) = [1; 1] ∧
  length (view_info (key_view sample_now (updateAuctionLogData sample_now "ad2" "phone" 60 1 sample_log) "phone")) = 2%nat.
Proof.
  destruct (updateAuctionLogData_keyword sample_now "ad2" "phone" 60 1 sample_log) as (Hl & _); [lia|].
  split; [vm_compute; reflexivity|exact Hl].
Defined.

Lemma history_window_witness :
  history_periods sample_now ({[ gettimestr sample_now (-3) := 5 ]} : gmap string Z) = [5].
Proof.
  rewrite history_window.
  - vm_compute. reflexivity.
  - intros k [v Hk]. apply lookup_singleton_Some in Hk as [<- _]. exists (Tm 114 100 10).
    split; [unfold tm_ok; simpl; lia|vm_compute; reflexivity].
  - unfold tm_ok. simpl. lia.
Defined.

(** An hour later, the click of the hour before is in the history. *)
Lemma log_reachable_witness : log_inv sample_log ∧
  i32 (default 0 (click_num_list (global_history_stat_data_ (updateAuctionLogData (Tm 114 100 14) "ad2" "tv" 60 1 sample_log)) !! 0%nat)) = 1.
Proof.
  destruct (log_reachable_inv sample_log) as [Hinv Hsum].
  - unfold sample_log. eapply rtc_l; [apply step_search|]. eapply rtc_l; [apply step_click|]. apply rtc_refl.
  - split; [exact Hinv|]. specialize (Hsum (Tm 114 100 14) "ad2"%string "tv"%string 60 1%nat ltac:(unfold MAX_AD_SLOT; lia)).
    assert (global_stat_data_ sample_log !! gettimestr (Tm 114 100 14) 0 = None) as E by by vm_compute.
    cbv zeta in Hsum. rewrite E in Hsum. rewrite Hsum. by vm_compute.
Defined.
