(* ===== verification/AuctionStats.v ===== *)
(** * [AdAuctionLogMgr]: the statistics read from the log

    The reading operations of [sponsored-ad-search/AdAuctionLogMgr.cpp]: click
    through rates, average costs and the bid landscapes that the bid strategies
    of [BidStrategy.v] start from.  Overloads are told apart by a suffix
    ([_list], [_slot]).  Where the code walks an unordered map the model walks
    [map_to_list], an order as good as any other. *)
From S2P Require Import Prelude CNum Env AuctionLog.

(** [int] arguments; a [size_t] or [uint32_t] slot is converted by the call. *)
Definition getDefaultCostForSlot (slot : Z) : Z :=
  Z.quot (i32 (DEFAULT_CLICK_COST * i32 (MAX_AD_SLOT - slot))) MAX_AD_SLOT.

Definition getDefaultCTRForSlot (slot : Z) : double :=
  d_div (d_mul DEFAULT_AD_CTR
          (d_sub (d_of_Z MAX_AD_SLOT) (d_mul (d_of_Z slot) (d_lit 15 1))))
    (d_of_Z MAX_AD_SLOT).

(** [total_cost += cost * num; total_num += num;] over a cost map. *)
Definition cost_totals (m : gmap Z Z) : Z * Z :=
  map_fold (λ c n t, (i32 (t.1 + i32 (c * n)), i32 (t.2 + n))) (0, 0) m.

(** The average cost of a slot, or the default when nothing was clicked. *)
Definition slot_avg_cost (slot : nat) (m : gmap Z Z) : Z :=
  let '(total_cost, total_num) := cost_totals m in
  if total_num <? 1 then getDefaultCostForSlot (i32 (Z.of_nat slot))
  else Z.quot total_cost total_num.

Section AuctionStats.
Context `{LexicalCast}.

(** One round of the loop of [getAdCTR]:
    [total_click += click_num * (1 + 0.2*i)] goes through [double]. *)
Definition ad_ctr_step (t : Z * Z) (isl : nat * AdViewSlotInfo) : option (Z * Z) :=
  let '(total_impression, total_click) := t in
  let '(i, s) := isl in
  c ← d_to_int (d_add (d_of_Z total_click)
        (d_mul (d_of_Z (click_num s))
           (d_add (d_of_Z 1) (d_mul (d_lit 2 1) (d_of_Z (Z.of_nat i))))));
  Some (i32 (total_impression + impression_num s), c).

Definition getAdCTR (m : AdAuctionLogMgr) (adid : string) : option double :=
  match ad_history_stat_data_ m !! adid with
  | None => Some DEFAULT_AD_CTR
  | Some v =>
      '(total_impression, total_click) ← foldM ad_ctr_step (0, 0) (imap pair v);
      if (total_impression <? MIN_SEARCH_NUM) || (total_click <? 1)
      then Some DEFAULT_AD_CTR
      else Some (d_div (d_of_Z total_click) (d_of_Z total_impression))
  end.

Definition getKeywordAvgDailyClickedNum (m : AdAuctionLogMgr) (kid : string) : Z :=
  match keyword_history_stat_data_ m !! kid with
  | None => 0
  | Some keyinfo =>
      let clicked := fold_left (λ acc s, u64 (acc + kclick_num s)) (view_info keyinfo) 0 in
      clicked / (HISTORY_HOURS / HOURS_OF_DAY)
  end.

Definition getAvgTotalClickedNum (m : AdAuctionLogMgr) : Z :=
  fold_left (λ acc n, u64 (acc + n)) (click_num_list (global_history_stat_data_ m)) 0.

Definition getKeywordCurrentImpression (now : tm) (m : AdAuctionLogMgr) (keyid : string) : Z :=
  match keyword_stat_data_ m !! keyid with
  | None => 0
  | Some periods =>
      let start := getCurrentDayBegin now in
      fold_left (λ total i,
          match periods !! gettimestr now (start + Z.of_nat i) with
          | None => total
          | Some v => i32 (total + searched_num v)
          end)
        (seq 0 (Z.to_nat (1 - start))) 0
  end.

Definition getKeywordAvgDailyImpression (m : AdAuctionLogMgr) (kid : string) : Z :=
  match keyword_history_stat_data_ m !! kid with
  | None => 0
  | Some v => Z.quot (searched_num v) (HISTORY_HOURS / HOURS_OF_DAY)
  end.

Definition getKeywordAvgCost_list (m : AdAuctionLogMgr) (kid : string) : list Z :=
  match keyword_history_stat_data_ m !! kid with
  | None => []
  | Some keyinfo => imap (λ slot s, slot_avg_cost slot (cost_list s)) (view_info keyinfo)
  end.

Definition getKeywordAvgCost_slot (m : AdAuctionLogMgr) (kid : string) (slot : nat) : Z :=
  match keyword_history_stat_data_ m !! kid with
  | None => getDefaultCostForSlot (i32 (Z.of_nat slot))
  | Some keyinfo =>
      match view_info keyinfo !! slot with
      | None => getDefaultCostForSlot (i32 (Z.of_nat slot))
      | Some s => slot_avg_cost slot (cost_list s)
      end
  end.

Definition getAdAvgCost (m : AdAuctionLogMgr) (adid : string) : Z :=
  match ad_history_stat_data_ m !! adid with
  | None => DEFAULT_CLICK_COST
  | Some adview =>
      let '(total_cost, total_click) :=
        fold_left (λ t s, map_fold (λ c n t, (i32 (t.1 + i32 (c * n)), i32 (t.2 + n))) t
                            (keyword_cpc s)) adview (0, 0) in
      if total_click <? 1 then DEFAULT_CLICK_COST else Z.quot total_cost total_click
  end.

(** [click_num / searched_num] divides two [int]s. *)
Definition getKeywordCTR_list (m : AdAuctionLogMgr) (kid : string) : list double :=
  match keyword_history_stat_data_ m !! kid with
  | None => []
  | Some keyinfo =>
      if searched_num keyinfo <? MIN_SEARCH_NUM then []
      else map (λ s, d_of_Z (Z.quot (kclick_num s) (searched_num keyinfo))) (view_info keyinfo)
  end.

Definition getKeywordCTR_slot (m : AdAuctionLogMgr) (kid : string) (slot : nat) : double :=
  match keyword_history_stat_data_ m !! kid with
  | None => getDefaultCTRForSlot (i32 (Z.of_nat slot))
  | Some keyinfo =>
      let clicked := match view_info keyinfo !! slot with
                     | None => 0
                     | Some s => u64 (kclick_num s)
                     end in
      if (clicked <? 1) || (searched_num keyinfo <? MIN_SEARCH_NUM)
      then getDefaultCTRForSlot (i32 (Z.of_nat slot))
      else d_div (d_of_Z clicked) (d_of_Z (searched_num keyinfo))
  end.

(** [(avg_impression, cost_list, ctr_list)]. *)
Definition getKeywordStatData (m : AdAuctionLogMgr) (kid : string)
    : Z * list Z * list double :=
  match keyword_history_stat_data_ m !! kid with
  | None => (0, [], [])
  | Some keyinfo =>
      let avg_impression := Z.quot (searched_num keyinfo) (HISTORY_HOURS / HOURS_OF_DAY) in
      if searched_num keyinfo <? MIN_SEARCH_NUM then (avg_impression, [], [])
      else (avg_impression,
            imap (λ slot s, slot_avg_cost slot (cost_list s)) (view_info keyinfo),
            map (λ s, d_of_Z (Z.quot (kclick_num s) (searched_num keyinfo)))
              (view_info keyinfo))
  end.

(** ** Landscapes: per slot, the cost per click and the click through rate *)

Definition BidAuctionLandscapeT : Type := list (Z * double).

Definition ad_landscape_slot (slot : nat) (s : AdViewSlotInfo) : Z * double :=
  let '(total_cost, total_click) := cost_totals (keyword_cpc s) in
  if (1 <? total_click) && (MIN_SEARCH_NUM <? impression_num s)
  then (Z.quot total_cost total_click,
        d_div (d_of_Z total_click) (d_of_Z (impression_num s)))
  else (getDefaultCostForSlot (Z.of_nat slot), getDefaultCTRForSlot (Z.of_nat slot)).

(** The entry of one ad, [None] when it is skipped or popped again. *)
Definition ad_landscape_entry (kv : string * list AdViewSlotInfo)
    : option (string * BidAuctionLandscapeT) :=
  let '(adid, adview) := kv in
  match adview with
  | [] => None
  | _ =>
      let all_slot_clicked := fold_left (λ acc s, i32 (acc + click_num s)) adview 0 in
      if all_slot_clicked =? 0 then None else Some (adid, imap ad_landscape_slot adview)
  end.

Definition getAdLandscape (m : AdAuctionLogMgr) : list string * list BidAuctionLandscapeT :=
  let entries := omap ad_landscape_entry (map_to_list (ad_history_stat_data_ m)) in
  (map fst entries, map snd entries).

(** Only positive counts; the cost is an [int], the clicks a [size_t], and
    their quotient is taken unsigned. *)
Definition keyword_totals (m : gmap Z Z) : Z * Z :=
  map_fold (λ c n t, if 0 <? n then (i32 (t.1 + i32 (c * n)), u64 (t.2 + n)) else t) (0, 0) m.

Definition keyword_landscape_slot (searched : Z) (slot : nat) (s : KeywordViewSlotInfo)
    : Z * double :=
  let '(total_cost, total_click) := keyword_totals (cost_list s) in
  if 1 <? total_click
  then (i32 (u64 total_cost / total_click), d_div (d_of_Z total_click) (d_of_Z searched))
  else (getDefaultCostForSlot (Z.of_nat slot), getDefaultCTRForSlot (Z.of_nat slot)).

Definition keyword_landscape_entry (kv : string * KeywordViewInfo)
    : option (string * BidAuctionLandscapeT) :=
  let '(kid, keyview) := kv in
  let slot_num := length (view_info keyview) in
  if (searched_num keyview <? MIN_SEARCH_NUM) || (slot_num =? 0)%nat then None
  else
    let all_slot_clicked :=
      fold_left (λ acc s, i32 (acc + kclick_num s)) (view_info keyview) 0 in
    if all_slot_clicked =? 0 then None
    else Some (kid, imap (keyword_landscape_slot (searched_num keyview)) (view_info keyview)).

Definition getKeywordBidLandscape (m : AdAuctionLogMgr)
    : list string * list BidAuctionLandscapeT :=
  let entries := omap keyword_landscape_entry (map_to_list (keyword_history_stat_data_ m)) in
  (map fst entries, map snd entries).
End AuctionStats.

(** ** The defaults *)

(** The default cost is a price, the default rate of the last slots is not. *)
Theorem defaults_by_slot :
  Forall (λ s, 0 ≤ getDefaultCostForSlot (Z.of_nat s) ≤ DEFAULT_CLICK_COST) (seq 0 21) ∧
  Forall (λ s, d_lt d_zero (getDefaultCTRForSlot (Z.of_nat s)) = true) (seq 0 14) ∧
  Forall (λ s, d_lt (getDefaultCTRForSlot (Z.of_nat s)) d_zero = true) (seq 14 7).
Proof.
  split_and!; apply Forall_forall; intros s Hs; apply elem_of_seq in Hs.
  - unfold getDefaultCostForSlot, DEFAULT_CLICK_COST, MAX_AD_SLOT.
    rewrite (i32_small (20 - Z.of_nat s)), i32_small by lia.
    pose proof (Z.quot_pos (50 * (20 - Z.of_nat s)) 20).
    pose proof (Z.quot_le_upper_bound (50 * (20 - Z.of_nat s)) 20 50). lia.
  - do 14 (destruct s as [|s]; [by vm_compute|]). lia.
  - assert (∃ j, s = (14 + j)%nat ∧ (j < 7)%nat) as (j & -> & Hj).
    { exists (s - 14)%nat. lia. }
    do 7 (destruct j as [|j]; [by vm_compute|]). lia.
Qed.

Section AuctionStatsProofs.
Context `{LexicalCast}.

(** ** Average costs *)

(** The two overloads of [getKeywordAvgCost] agree on every slot (the
    default cost beyond the record), and [getKeywordStatData] gives the same
    costs or none. *)
Theorem getKeywordAvgCost_agree m kid slot :
  getKeywordAvgCost_slot m kid slot
  = default (getDefaultCostForSlot (i32 (Z.of_nat slot))) (getKeywordAvgCost_list m kid !! slot)
  ∧ (getKeywordStatData m kid).1.2
    = if match keyword_history_stat_data_ m !! kid with
         | None => true | Some v => searched_num v <? MIN_SEARCH_NUM end
      then [] else getKeywordAvgCost_list m kid.
Proof.
  unfold getKeywordAvgCost_slot, getKeywordAvgCost_list, getKeywordStatData.
  destruct (keyword_history_stat_data_ m !! kid) as [v|]; [|done].
  split; [|by destruct (searched_num v <? MIN_SEARCH_NUM)].
  rewrite list_lookup_imap. by destruct (view_info v !! slot).
Qed.

(** ** Click through rates *)

(** The list version of the rate divides integers. *)
Theorem getKeywordCTR_list_truncates m kid v slot s :
  keyword_history_stat_data_ m !! kid = Some v →
  MIN_SEARCH_NUM ≤ searched_num v → view_info v !! slot = Some s →
  0 ≤ kclick_num s < searched_num v →
  getKeywordCTR_list m kid !! slot = Some d_zero ∧
  (getKeywordStatData m kid).2 !! slot = Some d_zero ∧
  (1 ≤ kclick_num s < 2 ^ 31 →
     getKeywordCTR_slot m kid slot = d_div (d_of_Z (kclick_num s)) (d_of_Z (searched_num v))).
Proof.
  intros Hv Hmin Hs Hc. unfold MIN_SEARCH_NUM in Hmin.
  unfold getKeywordCTR_list, getKeywordStatData, getKeywordCTR_slot. rewrite Hv, Hs.
  unfold MIN_SEARCH_NUM. rewrite (proj2 (Z.ltb_ge _ _) Hmin).
  simpl. rewrite list_lookup_fmap, Hs. simpl. rewrite Z.quot_small by lia.
  split_and!; [done|done|]. intros Hc1.
  unfold u64. rewrite Z.mod_small by lia.
  by rewrite (proj2 (Z.ltb_ge (kclick_num s) 1)) by lia.
Qed.

(** ** Landscapes *)

(** [getKeywordBidLandscape] lists exactly the keywords that were
    searched often enough and clicked, once each, with the average cost and
    click ratio of every slot. *)
Theorem getKeywordBidLandscape_spec m kid l :
  let '(keys, landscapes) := getKeywordBidLandscape m in
  length keys = length landscapes ∧ NoDup keys ∧
  ((kid, l) ∈ zip keys landscapes ↔
   ∃ v, keyword_history_stat_data_ m !! kid = Some v ∧
     MIN_SEARCH_NUM ≤ searched_num v ∧ view_info v ≠ [] ∧
     i32 (zsum (map kclick_num (view_info v))) ≠ 0 ∧
     l = imap (keyword_landscape_slot (searched_num v)) (view_info v)).
Proof.
  unfold getKeywordBidLandscape.
  set (es := omap keyword_landscape_entry _).
  assert (∀ acc vs, fold_left (λ acc s, i32 (acc + kclick_num s)) vs (i32 acc)
    = i32 (acc + zsum (map kclick_num vs))) as Hsum.
  { intros acc vs. revert acc. induction vs as [|x vs IH]; intros acc; simpl.
    - by rewrite Z.add_0_r.
    - rewrite i32_add_l, IH. f_equal. lia. }
  assert (∀ k lk, (k, lk) ∈ es ↔ ∃ v, keyword_history_stat_data_ m !! k = Some v ∧
     MIN_SEARCH_NUM ≤ searched_num v ∧ view_info v ≠ [] ∧
     i32 (zsum (map kclick_num (view_info v))) ≠ 0 ∧
     lk = imap (keyword_landscape_slot (searched_num v)) (view_info v)) as Hes.
  { intros k lk. unfold es. rewrite list_elem_of_omap. split.
    - intros ([k' v] & Hin%elem_of_map_to_list & E). unfold keyword_landscape_entry in E.
      destruct (_ || _) eqn:Hg; [done|]. apply orb_false_iff in Hg as [Hg1 Hg2]. bool_cases.
      pose proof (Hsum 0 (view_info v)) as Hs. change (i32 0) with 0 in Hs. rewrite Z.add_0_l in Hs.
      rewrite Hs in E. destruct (_ =? 0) eqn:Hz; [done|]. bool_cases. simplify_eq.
      exists v. split_and!; try done. intros Hnil. by rewrite Hnil in *.
    - intros (v & Hv & Hmin & Hne & Hc & ->). exists (k, v).
      split; [by apply elem_of_map_to_list|]. unfold keyword_landscape_entry.
      rewrite (proj2 (Z.ltb_ge _ _) Hmin).
      rewrite (proj2 (Nat.eqb_neq (length (view_info v)) 0)) by (by destruct (view_info v)).
      pose proof (Hsum 0 (view_info v)) as Hs. change (i32 0) with 0 in Hs. rewrite Z.add_0_l in Hs.
      cbn [orb]. rewrite Hs. by rewrite (proj2 (Z.eqb_neq _ _) Hc). }
  split_and!; [by rewrite !length_map| |].
  - assert (∀ ms : list (string * KeywordViewInfo), NoDup ms.*1 →
      NoDup (map fst (omap keyword_landscape_entry ms)) ∧
      ∀ k, k ∈ map fst (omap keyword_landscape_entry ms) → k ∈ ms.*1) as Hnd.
    { induction ms as [|[k v] ms IH]; intros Hms; simpl; [by split|].
      apply NoDup_cons in Hms as [Hk Hms]. destruct (IH Hms) as [IH1 IH2].
      unfold keyword_landscape_entry at 1 3. repeat case_match; simpl; split;
        rewrite ?NoDup_cons; try done; set_solver. }
    apply Hnd, NoDup_fst_map_to_list.
  - rewrite <- Hes. clear. induction es as [|[k' l'] es IH]; simpl; [set_solver|].
    rewrite !elem_of_cons, IH. done.
Qed.

(** ** Impressions of the current day *)

Definition key_period (m : AdAuctionLogMgr) (k t : string) : option KeywordViewInfo :=
  default ∅ (keyword_stat_data_ m !! k) !! t.

Lemma search_keywords_period now kws k t : ∀ m,
  NoDup kws →
  key_period (fold_left (search_stat_keyword now) kws m) k t
  = if decide (k ∈ kws ∧ t = gettimestr now 0)
    then Some (KeyView (i32 (searched_num (key_view now m k) + 1)) (view_info (key_view now m k)))
    else key_period m k t.
Proof.
  induction kws as [|kw kws IH]; intros m Hnd; cbn [fold_left].
  { case_decide as Hx; [|done]. destruct Hx as [Hx _]. by apply not_elem_of_nil in Hx. }
  apply NoDup_cons in Hnd as [Hnin Hnd]. rewrite IH by done.
  destruct (search_stat_keyword_spec now m kw) as (_ & _ & Hk).
  assert (key_period (search_stat_keyword now m kw) k t
    = if decide (k = kw ∧ t = gettimestr now 0)
      then Some (KeyView (i32 (searched_num (key_view now m k) + 1)) (view_info (key_view now m k)))
      else key_period m k t) as Hone.
  { unfold search_stat_keyword. destruct (enter_keyword_period now kw m) as [m1 v] eqn:E.
    apply enter_keyword_period_spec in E as (-> & Hkm & _ & _).
    unfold key_period, store_key_view. simpl. rewrite Hkm.
    destruct (decide (k = kw)) as [->|Hne]; simplify_map_eq.
    - destruct (decide (t = gettimestr now 0)) as [->|Ht]; simplify_map_eq.
      + case_decide; [done|naive_solver].
      + destruct (decide (kw = kw ∧ t = gettimestr now 0)) as [[_ Hx]|Hx]; [by destruct Ht|reflexivity].
    - destruct (decide (k = kw ∧ t = gettimestr now 0)) as [[Hx _]|Hx]; [by destruct Hne|reflexivity]. }
  rewrite Hone, Hk. destruct (decide (k = kw)) as [->|Hne].
  - repeat case_decide; try done; exfalso; set_solver.
  - repeat case_decide; try done; exfalso; set_solver.
Qed.

Definition day_impressions (now : tm) (m : AdAuctionLogMgr) (k : string) (n : nat) : Z :=
  zsum (map (λ i, match key_period m k (gettimestr now (getCurrentDayBegin now + Z.of_nat i)) with
                  | None => 0 | Some v => searched_num v end) (seq 0 n)).

Lemma current_impression_sum now m k :
  tm_ok now →
  getKeywordCurrentImpression now m k
  = i32 (day_impressions now m k (Z.to_nat (1 + tm_hour now))).
Proof.
  intros (_ & Hh & _). unfold getKeywordCurrentImpression, day_impressions, key_period.
  unfold getCurrentDayBegin.
  replace (1 - (0 - tm_hour now)) with (1 + tm_hour now) by lia.
  destruct (keyword_stat_data_ m !! k) as [ps|]; simpl.
  - assert (∀ l acc, fold_left (λ total i,
        match ps !! gettimestr now (0 - tm_hour now + Z.of_nat i) with
        | Some v => i32 (total + searched_num v) | None => total end) l (i32 acc)
      = i32 (acc + zsum (map (λ i, match ps !! gettimestr now (0 - tm_hour now + Z.of_nat i) with
          | Some v => searched_num v | None => 0 end) l))) as Hgen.
    { induction l as [|i l IH]; intros a0; simpl; [by rewrite Z.add_0_r|].
      destruct (ps !! _); [rewrite i32_add_l|]; rewrite IH; f_equal; lia. }
    apply (Hgen (seq 0 _) 0).
  - induction (seq 0 _) as [|i l IH]; simpl; [done|]. rewrite lookup_empty. done.
Qed.

Lemma gettimestr_same_day `{!LexicalCastOk} now i :
  tm_ok now → 0 ≤ i ≤ tm_hour now →
  gettimestr now (getCurrentDayBegin now + i) = gettimestr now 0 → i = tm_hour now.
Proof.
  intros Hnow Hi E. rewrite (gettimestr_real now Hnow) in E. pose proof Hnow as (_ & Hh & _).
  destruct (shift_hours_range now (getCurrentDayBegin now + i) Hnow) as [_ Hs].
  { unfold getCurrentDayBegin. lia. }
  unfold getCurrentDayBegin in *.
  unfold gettimestr in E. rewrite (proj2 (Hs ltac:(lia)) ltac:(lia)) in E. simpl in E.
  apply (f_equal string_chars) in E. rewrite !string_chars_append in E.
  apply app_inv_head, app_inv_head, string_chars_inj, lexical_cast_inj in E. lia.
Qed.

(** A search is one more impression today, as
    [getKeywordCurrentImpression] reads it, for each of its keywords and for
    no other. *)
Theorem updateAdSearchStat_current `{!LexicalCastOk} now kws ads m k :
  tm_ok now → NoDup kws → (length ads ≤ 21)%nat →
  getKeywordCurrentImpression now (updateAdSearchStat now kws ads m) k
  = if decide (k ∈ kws) then i32 (getKeywordCurrentImpression now m k + 1)
    else getKeywordCurrentImpression now m k.
Proof.
  intros Hnow Hnd Hl. rewrite !current_impression_sum by done.
  unfold updateAdSearchStat. destruct (search_stat_ads now 0 ads m) as [m1 go] eqn:E.
  apply search_stat_ads_spec in E as (-> & Hk1 & _); [|done].
  assert (∀ t, key_period m1 k t = key_period m k t) as Hp1 by (intros; unfold key_period; by rewrite Hk1).
  pose proof Hnow as (_ & Hh & _).
  replace (Z.to_nat (1 + tm_hour now)) with (Z.to_nat (tm_hour now) + 1)%nat by lia.
  unfold day_impressions. rewrite seq_app, !map_app, !zsum_app. simpl. rewrite !Z.add_0_r.
  rewrite !search_keywords_period by done. rewrite !Hp1.
  assert (getCurrentDayBegin now + Z.of_nat (Z.to_nat (tm_hour now)) = 0) as Hz
    by (unfold getCurrentDayBegin; lia).
  rewrite Hz.
  erewrite (map_ext_in _ (λ i, match key_period m k (gettimestr now (getCurrentDayBegin now + Z.of_nat i)) with
    | None => 0 | Some v => searched_num v end)).
  2:{ intros i Hi%in_seq. rewrite search_keywords_period by done. rewrite Hp1.
      rewrite decide_False; [done|]. intros [_ Ht].
      apply gettimestr_same_day in Ht; [lia|done|lia]. }
  case_decide as Hin.
  - rewrite decide_True by naive_solver. simpl. rewrite i32_add_r, i32_add_l.
    rewrite (key_view_ext _ _ _ _ Hk1). unfold key_view, key_period.
    destruct (default ∅ _ !! gettimestr now 0); simpl; f_equal; lia.
  - rewrite decide_False by naive_solver. done.
Qed.
End AuctionStatsProofs.

Lemma updateAdSearchStat_current_witness :
  getKeywordCurrentImpression sample_now
    (updateAdSearchStat sample_now ["phone"%string] ["ad2"%string] sample_log) "phone" = 2.
Proof.
  rewrite (updateAdSearchStat_current sample_now ["phone"%string] ["ad2"%string] sample_log "phone").
  - vm_compute. reflexivity.
  - unfold tm_ok. simpl. lia.
  - apply NoDup_singleton.
  - simpl. lia.
Defined.
