(* ===== verification/RealtimeBid.v ===== *)
(** * Real time bids ([ad-manager/sponsored-ad-search/AdBidStrategy.cpp], part 1)

    The statistics record every strategy reads, and the two strategies that
    price one keyword from the budget already spent:
    [realtimeBidWithRevenueMax] and [realtimeBidWithProfitMax].

    [pow] of the C library is the parameter [c_pow]: its rounding is not fixed
    by any standard.  A result of [None] is undefined behaviour: a read of
    [ctr_] past its end, or a [double] outside the range of [int] converted. *)
From S2P Require Import Prelude CNum.

(** ** Statistics of a keyword, and numerical helpers *)

Record AdQueryStatisticInfo := QSInfo {
  cpc_ : list Z;
  ctr_ : list double;
  impression_ : Z;
  minBid_ : Z;
  bid_ : Z }.

(** Every position has a click through rate. *)
Definition qs_shape (q : AdQueryStatisticInfo) : bool :=
  (length (cpc_ q) <=? length (ctr_ q))%nat.

Definition E : double := d_lit 271828 5.
Definition MINEFF : double := d_lit 1 1.
Definition d_one : double := d_of_Z 1.

Definition isZero (f : double) : bool := d_lt (d_abs f) d_epsilon.

(** ** The loops shared by the two strategies

    [eff_of c] is the efficiency the strategy gives a position of cost [c]:
    [vpc / c] or [vpc / c - 1]. *)

Section realtime_loops.
Context (eff_of : Z → double) (q : AdQueryStatisticInfo) (budgetLeft : Z).

(** [qsInfo.cpc_[i] <= avaiableB]. *)
Definition affordable (c : Z) (ctr : double) : bool :=
  d_le (d_of_Z c) (d_div (d_of_Z budgetLeft) (d_mul ctr (d_of_Z (impression_ q)))).

(** First loop: lower [eff] to the efficiency of an affordable position. *)
Definition lower_eff (eff : double) (p : Z * double) : double :=
  if d_gt eff (eff_of p.1) && affordable p.1 p.2 then eff_of p.1 else eff.

Definition lower_loop (eff : double) : option double :=
  zip_loop lower_eff (cpc_ q) (ctr_ q) eff.
End realtime_loops.

(** Second loop of [realtimeBidWithRevenueMax]: the first efficient cost. *)
Fixpoint first_efficient (eff_of : Z → double) (eff : double) (cpcs : list Z) : option Z :=
  match cpcs with
  | [] => None
  | c :: cpcs => if d_ge (eff_of c) eff then Some c else first_efficient eff_of eff cpcs
  end.

(** Second loop of [realtimeBidWithProfitMax]: the best profit among the
    efficient costs; the state is [(maxI, maxV)]. *)
Definition profit_of (vpc c : Z) (ctr : double) : double :=
  d_mul (d_of_Z (i32 (vpc - c))) ctr.

Definition best_profit_step (eff_of : Z → double) (eff : double) (vpc : Z)
    (q : AdQueryStatisticInfo) (st : Z * double) (i : nat) : option (Z * double) :=
  c ← cpc_ q !! i;
  if d_ge (eff_of c) eff then
    r ← ctr_ q !! i;
    if d_gt (profit_of vpc c r) st.2 then Some (Z.of_nat i, profit_of vpc c r) else Some st
  else Some st.

Definition minus_one : double := d_of_Z (-1).

Definition best_profit (eff_of : Z → double) (eff : double) (vpc : Z)
    (q : AdQueryStatisticInfo) : option (Z * double) :=
  foldM (best_profit_step eff_of eff vpc q) (-1, minus_one) (seq 0 (length (cpc_ q))).

(** ** The two strategies *)

Definition revenue_eff (vpc c : Z) : double := d_div (d_of_Z vpc) (d_of_Z c).
Definition profit_eff (vpc c : Z) : double := d_sub (d_div (d_of_Z vpc) (d_of_Z c)) d_one.

(** [int(vpc / (1 + eff))]. *)
Definition fallback_bid (vpc : Z) (eff : double) : option Z :=
  d_to_int (d_div (d_of_Z vpc) (d_add d_one eff)).

Section strategies.
Context (c_pow : double → double → double).

Definition clamp_minBid (q : AdQueryStatisticInfo) : Z :=
  if minBid_ q <? 0 then 0 else minBid_ q.

Definition revenue_start_eff (q : AdQueryStatisticInfo) (budgetUsed budgetLeft vpc : Z) : double :=
  let budget := i32 (budgetLeft + budgetUsed) in
  let minBid := clamp_minBid q in
  let U := if 0 <? minBid then revenue_eff vpc minBid else d_max in
  let z := d_div (d_of_Z budgetUsed) (d_of_Z budget) in
  d_div (c_pow (d_mul U E) z) E.

Definition realtimeBidWithRevenueMax (q : AdQueryStatisticInfo)
    (budgetUsed budgetLeft vpc : Z) : option Z :=
  let budget := i32 (budgetLeft + budgetUsed) in
  if (budget <=? 0) || (length (cpc_ q) =? 0)%nat then Some 0
  else
    eff ← lower_loop (revenue_eff vpc) q budgetLeft
            (revenue_start_eff q budgetUsed budgetLeft vpc);
    match first_efficient (revenue_eff vpc) eff (cpc_ q) with
    | Some c => Some c
    | None => fallback_bid vpc eff
    end.

Definition profit_start_eff (q : AdQueryStatisticInfo) (budgetUsed budgetLeft vpc : Z) : double :=
  let budget := i32 (budgetLeft + budgetUsed) in
  let minBid := clamp_minBid q in
  let U := if 0 <? minBid then profit_eff vpc minBid else d_max in
  let z := d_div (d_of_Z budgetUsed) (d_of_Z budget) in
  d_div (d_mul (c_pow (d_div (d_mul U E) MINEFF) z) MINEFF) E.

Definition realtimeBidWithProfitMax (q : AdQueryStatisticInfo)
    (budgetUsed budgetLeft vpc : Z) : option Z :=
  let budget := i32 (budgetLeft + budgetUsed) in
  if (budget <=? 0) || (length (cpc_ q) =? 0)%nat then Some 0
  else
    eff ← lower_loop (profit_eff vpc) q budgetLeft
            (profit_start_eff q budgetUsed budgetLeft vpc);
    '(maxI, _) ← best_profit (profit_eff vpc) eff vpc q;
    if 0 <=? maxI then cpc_ q !! Z.to_nat maxI else fallback_bid vpc eff.
End strategies.

(** ** Properties *)

Section loop_proofs.
Context (eff_of : Z → double) (q : AdQueryStatisticInfo) (budgetLeft : Z).
Context (Hshape : qs_shape q = true).
Context (Hnum : Forall (λ c, d_num (eff_of c)) (cpc_ q)).

(** Position [i] has cost [c], can be paid until the budget ends, ... *)
Definition affordable_at (i : nat) (c : Z) : Prop :=
  ∃ r, cpc_ q !! i = Some c ∧ ctr_ q !! i = Some r ∧ affordable q budgetLeft c r = true.

(** [eff] is the smallest of the start value and the efficiencies of the
    affordable positions. *)
Record lowest_eff (start eff : double) : Prop := {
  lowest_num : d_num eff;
  lowest_start : d_lt start eff = false;
  lowest_source : eff = start ∨ ∃ i c, affordable_at i c ∧ eff = eff_of c;
  lowest_all : ∀ i c, affordable_at i c → d_lt (eff_of c) eff = false }.

Lemma eff_num i c : cpc_ q !! i = Some c → d_num (eff_of c).
Proof. intros H. rewrite Forall_lookup in Hnum. eauto. Qed.

Lemma lower_loop_spec start :
  d_num start →
  ∃ eff, lower_loop eff_of q budgetLeft start = Some eff ∧ lowest_eff start eff.
Proof.
  intros Hs. unfold lower_loop, zip_loop.
  assert (length (cpc_ q) ≤ length (ctr_ q))%nat as Hl by (unfold qs_shape in Hshape; by bool_cases).
  edestruct (foldM_inv (λ pre eff, d_num eff ∧ d_lt start eff = false ∧
     (eff = start ∨ ∃ i c, affordable_at i c ∧ eff = eff_of c) ∧
     ∀ i c, i ∈ pre → affordable_at i c → d_lt (eff_of c) eff = false)
     (λ e i, x ← cpc_ q !! i; y ← ctr_ q !! i; Some (lower_eff eff_of q budgetLeft e (x, y)))
     (seq 0 (length (cpc_ q))) start) as (eff & Heff & Hinv).
  - split_and!; [done|by apply (swo_irrefl (P := d_num))|by left|].
    by intros i c []%not_elem_of_nil.
  - intros pre i eff (Hn & Hst & Hsrc & Hall) (suf & Hsuf).
    assert (i < length (cpc_ q))%nat as Hi.
    { assert (i ∈ seq 0 (length (cpc_ q))) as Hin by (rewrite Hsuf; set_solver).
      apply elem_of_seq in Hin. lia. }
    destruct (lookup_lt_is_Some_2 (cpc_ q) i) as [c Hc]; [done|].
    destruct (lookup_lt_is_Some_2 (ctr_ q) i) as [r Hr]; [lia|].
    pose proof (eff_num i c Hc) as Hnc.
    eexists. rewrite Hc. cbn [mbind option_bind]. rewrite Hr. cbn [mbind option_bind].
    split; [reflexivity|]. unfold lower_eff. rewrite d_gt_lt. cbn [fst snd].
    destruct (d_lt (eff_of c) eff) eqn:Hlt; simpl; [destruct (affordable q budgetLeft c r) eqn:Ha|].
    + split_and!; [done| |right; exists i, c; split; [by exists r|done]|].
      { by apply (swo_ntrans (P := d_num) _ eff); try done; apply (swo_asym (P := d_num)). }
      intros i' c' Hin Ha'. destruct Ha' as (r' & Hc' & Ha'').
      pose proof (eff_num _ _ Hc') as Hnc'.
      apply elem_of_app in Hin as [Hin|Hin%list_elem_of_singleton].
      * apply (swo_ntrans (P := d_num) _ eff); try done; [apply (Hall i'); [done|by exists r']|].
        by apply (swo_asym (P := d_num)).
      * subst i'. simplify_eq. by apply (swo_irrefl (P := d_num)).
    + split_and!; try done. intros i' c' [Hin|Hin%list_elem_of_singleton]%elem_of_app Ha'; [eauto|].
      destruct Ha' as (r' & Hc' & Hr' & Ha'). subst. simplify_eq. congruence.
    + split_and!; try done. intros i' c' [Hin|Hin%list_elem_of_singleton]%elem_of_app Ha'; [eauto|].
      destruct Ha' as (r' & Hc' & Hr' & Ha'). subst. by simplify_eq.
  - exists eff. split; [done|]. destruct Hinv as (? & ? & ? & Hall). split; try done.
    intros i c Ha. apply (Hall i); [|done]. destruct Ha as (r & Hc & _).
    apply elem_of_seq. apply lookup_lt_Some in Hc. lia.
Qed.

(** What the second loop of the revenue strategy finds. *)
Lemma first_efficient_spec eff cpcs :
  d_num eff → Forall (λ c, d_num (eff_of c)) cpcs →
  match first_efficient eff_of eff cpcs with
  | Some c => ∃ j, cpcs !! j = Some c ∧ d_lt (eff_of c) eff = false ∧
      ∀ k c', (k < j)%nat → cpcs !! k = Some c' → d_lt (eff_of c') eff = true
  | None => Forall (λ c, d_lt (eff_of c) eff = true) cpcs
  end.
Proof.
  intros He. induction 1 as [|c cpcs Hc Hcs IH]; simpl; [done|].
  rewrite d_ge_lt by done.
  destruct (d_lt (eff_of c) eff) eqn:E; simpl.
  - destruct (first_efficient _ _ _) as [c0|]; [|by constructor].
    destruct IH as (j & Hj & Hle & Hk). exists (S j). split_and!; [done|done|].
    intros [|k] c' Hlt Hk'; simplify_eq/=; [done|]. apply (Hk k); [lia|done].
  - exists 0%nat. split_and!; [done|done|lia].
Qed.

Definition efficient_at (eff : double) (vpc : Z) (i : nat) (p : double) : Prop :=
  ∃ c r, cpc_ q !! i = Some c ∧ ctr_ q !! i = Some r ∧
    d_lt (eff_of c) eff = false ∧ p = profit_of vpc c r.

Lemma best_profit_spec eff vpc :
  d_num eff →
  ∃ maxI maxV, best_profit eff_of eff vpc q = Some (maxI, maxV) ∧ d_num maxV ∧
    ((maxI = -1 ∧ maxV = minus_one) ∨
     (0 ≤ maxI ∧ efficient_at eff vpc (Z.to_nat maxI) maxV ∧ d_lt minus_one maxV = true)) ∧
    (∀ i p, efficient_at eff vpc i p → d_lt maxV p = false).
Proof.
  intros He. unfold best_profit.
  assert (length (cpc_ q) ≤ length (ctr_ q))%nat as Hl by (unfold qs_shape in Hshape; by bool_cases).
  edestruct (foldM_inv (λ pre st, d_num st.2 ∧
    ((st.1 = -1 ∧ st.2 = minus_one) ∨
     (0 ≤ st.1 ∧ efficient_at eff vpc (Z.to_nat st.1) st.2 ∧ d_lt minus_one st.2 = true)) ∧
    (∀ i p, i ∈ pre → efficient_at eff vpc i p → d_lt st.2 p = false))
    (best_profit_step eff_of eff vpc q) (seq 0 (length (cpc_ q))) (-1, minus_one))
    as ([mi mv] & Hst & Hinv).
  - split_and!; [done|by left|]. by intros i p []%not_elem_of_nil.
  - intros pre i [mi mv] (Hn & Hsrc & Hall) (suf & Hsuf). simpl in *.
    assert (i < length (cpc_ q))%nat as Hi.
    { assert (i ∈ seq 0 (length (cpc_ q))) as Hin by (rewrite Hsuf; set_solver).
      apply elem_of_seq in Hin. lia. }
    destruct (lookup_lt_is_Some_2 (cpc_ q) i) as [c Hc]; [done|].
    destruct (lookup_lt_is_Some_2 (ctr_ q) i) as [r Hr]; [lia|].
    pose proof (eff_num i c Hc) as Hnc. unfold best_profit_step. rewrite Hc, Hr.
    cbn [mbind option_bind fst snd]. rewrite d_ge_lt by done.
    assert (∀ p, efficient_at eff vpc i p →
      d_lt (eff_of c) eff = false ∧ p = profit_of vpc c r) as Hhere.
    { intros p (c' & r' & Hc' & Hr' & ? & ->). by simplify_eq. }
    destruct (d_lt (eff_of c) eff) eqn:Heff; simpl.
    { eexists. split; [done|]. simpl. split_and!; try done.
      intros i' p [Hin|Hin%list_elem_of_singleton]%elem_of_app Hp; [by apply (Hall i')|].
      subst. by apply Hhere in Hp as [? _]. }
    rewrite d_gt_lt.
    destruct (d_lt mv (profit_of vpc c r)) eqn:Hlt.
    + eexists. split; [done|]. simpl. pose proof (d_lt_num_r _ _ Hlt) as Hnp.
      split_and!; [done| |].
      * right. split_and!; [lia|rewrite Nat2Z.id; by exists c, r|].
        destruct Hsrc as [[_ ->]|(_ & _ & Hm)]; [done|].
        by apply (swo_trans (P := d_num) _ mv).
      * intros i' p [Hin|Hin%list_elem_of_singleton]%elem_of_app Hp.
        -- destruct (d_lt (profit_of vpc c r) p) eqn:Hx; [|done].
           pose proof (d_lt_num_r _ _ Hx).
           pose proof (swo_trans (P := d_num) _ _ _ Hn Hnp H Hlt Hx) as Hy.
           by rewrite (Hall i' p Hin Hp) in Hy.
        -- subst. apply Hhere in Hp as [_ ->]. by apply (swo_irrefl (P := d_num)).
    + eexists. split; [done|]. simpl. split_and!; try done.
      intros i' p [Hin|Hin%list_elem_of_singleton]%elem_of_app Hp; [by apply (Hall i')|].
      subst. by apply Hhere in Hp as [_ ->].
  - exists mi, mv. destruct Hinv as (? & ? & Hall). split_and!; try done.
    intros i p Hp. apply (Hall i); [|done]. destruct Hp as (c & r & Hc & _).
    apply elem_of_seq. apply lookup_lt_Some in Hc. lia.
Qed.
End loop_proofs.

(** No bid without a budget. *)
Definition no_budget (q : AdQueryStatisticInfo) (budgetUsed budgetLeft : Z) : bool :=
  (i32 (budgetLeft + budgetUsed) <=? 0) || (length (cpc_ q) =? 0)%nat.

(** C17: [realtimeBidWithRevenueMax] bids zero without budget; otherwise it
    lowers the efficiency threshold to the least efficiency of an affordable
    position and bids the cost of the first position that reaches it, or the
    value discounted by the threshold when no position is affordable. *)
Theorem realtimeBidWithRevenueMax_spec c_pow q budgetUsed budgetLeft vpc :
  let start := revenue_start_eff c_pow q budgetUsed budgetLeft vpc in
  let bid := realtimeBidWithRevenueMax c_pow q budgetUsed budgetLeft vpc in
  qs_shape q = true → Forall (λ c, d_num (revenue_eff vpc c)) (cpc_ q) → d_num start →
  if no_budget q budgetUsed budgetLeft then bid = Some 0
  else ∃ eff, lowest_eff (revenue_eff vpc) q budgetLeft start eff ∧
    ((∃ j c, cpc_ q !! j = Some c ∧ bid = Some c ∧ d_lt (revenue_eff vpc c) eff = false ∧
        ∀ k c', (k < j)%nat → cpc_ q !! k = Some c' → d_lt (revenue_eff vpc c') eff = true) ∨
     ((∀ i c, ¬ affordable_at q budgetLeft i c) ∧ eff = start ∧ bid = fallback_bid vpc start)).
Proof.
  intros start bid Hshape Hnum Hstart. unfold no_budget, bid, realtimeBidWithRevenueMax.
  destruct (_ || _); [done|]. fold start.
  destruct (lower_loop_spec (revenue_eff vpc) q budgetLeft Hshape Hnum start Hstart) as (eff & -> & He).
  cbn [mbind option_bind]. exists eff. split; [done|]. destruct He as [Hn Hs Hsrc Hall].
  pose proof (first_efficient_spec (revenue_eff vpc) eff (cpc_ q) Hn Hnum) as Hf.
  destruct (first_efficient _ _ _) as [c|].
  - left. destruct Hf as (j & Hj & Hle & Hk). by exists j, c.
  - right. rewrite Forall_lookup in Hf.
    assert (∀ i c, ¬ affordable_at q budgetLeft i c) as Hno.
    { intros i c Ha. pose proof (Hall i c Ha) as Hx. destruct Ha as (r & Hc & _).
      by rewrite (Hf i c Hc) in Hx. }
    destruct Hsrc as [->|(i & c & Ha & _)]; [done|by apply Hno in Ha].
Qed.

(** C18: [realtimeBidWithProfitMax] bids zero without budget; otherwise it
    bids the cost of a position of greatest profit among those that reach the
    lowered threshold, or the value discounted by the threshold when none of
    them has a profit above -1. *)
Theorem realtimeBidWithProfitMax_spec c_pow q budgetUsed budgetLeft vpc :
  let start := profit_start_eff c_pow q budgetUsed budgetLeft vpc in
  let bid := realtimeBidWithProfitMax c_pow q budgetUsed budgetLeft vpc in
  qs_shape q = true → Forall (λ c, d_num (profit_eff vpc c)) (cpc_ q) → d_num start →
  if no_budget q budgetUsed budgetLeft then bid = Some 0
  else ∃ eff, lowest_eff (profit_eff vpc) q budgetLeft start eff ∧
    ((∃ j c p, cpc_ q !! j = Some c ∧ bid = Some c ∧
        efficient_at (profit_eff vpc) q eff vpc j p ∧ d_lt minus_one p = true ∧
        ∀ k p', efficient_at (profit_eff vpc) q eff vpc k p' → d_lt p p' = false) ∨
     ((∀ k p', efficient_at (profit_eff vpc) q eff vpc k p' → d_lt minus_one p' = false) ∧
      bid = fallback_bid vpc eff)).
Proof.
  intros start bid Hshape Hnum Hstart. unfold no_budget, bid, realtimeBidWithProfitMax.
  destruct (_ || _); [done|]. fold start.
  destruct (lower_loop_spec (profit_eff vpc) q budgetLeft Hshape Hnum start Hstart) as (eff & -> & He).
  cbn [mbind option_bind]. exists eff. split; [done|].
  destruct (best_profit_spec (profit_eff vpc) q Hshape Hnum eff vpc (lowest_num _ _ _ _ _ He))
    as (maxI & maxV & -> & _ & Hsrc & Hall). cbn [mbind option_bind].
  destruct Hsrc as [[-> ->]|(Hpos & Heff & Hmin)].
  - by right.
  - left. rewrite (proj2 (Z.leb_le _ _) Hpos). destruct Heff as (c & r & Hc & Hr & Hle & ->).
    exists (Z.to_nat maxI), c, (profit_of vpc c r). split_and!; try done. by exists c, r.
Qed.

(** *** Witnesses *)

Definition sample_pow (x y : double) : double := x.
Definition sample_qs : AdQueryStatisticInfo :=
  QSInfo [120; 80; 50] [d_lit 5 2; d_lit 3 2; d_lit 1 2] 1000 40 (-1).

(** The cost 80 is affordable, 120 is not efficient enough. *)
Lemma realtimeBidWithRevenueMax_witness :
  realtimeBidWithRevenueMax sample_pow sample_qs 500 2500 1000 = Some 80 ∧
  ∃ eff, lowest_eff (revenue_eff 1000) sample_qs 2500
    (revenue_start_eff sample_pow sample_qs 500 2500 1000) eff.
Proof.
  split; [vm_compute; reflexivity|].
  destruct (realtimeBidWithRevenueMax_spec sample_pow sample_qs 500 2500 1000)
    as (eff & Heff & _).
  - vm_compute. reflexivity.
  - repeat constructor.
  - vm_compute. reflexivity.
  - exists eff. exact Heff.
Defined.

Lemma realtimeBidWithProfitMax_witness :
  realtimeBidWithProfitMax sample_pow sample_qs 500 2500 1000 = Some 80 ∧
  ∃ eff, lowest_eff (profit_eff 1000) sample_qs 2500
    (profit_start_eff sample_pow sample_qs 500 2500 1000) eff.
Proof.
  split; [vm_compute; reflexivity|].
  destruct (realtimeBidWithProfitMax_spec sample_pow sample_qs 500 2500 1000)
    as (eff & Heff & _).
  - vm_compute. reflexivity.
  - repeat constructor.
  - vm_compute. reflexivity.
  - exists eff. exact Heff.
Defined.
