(* ===== verification/Knapsack.v ===== *)
(** * The knapsack solvers ([ad-manager/sponsored-ad-search/AdBidStrategy.cpp], part 2)

    Choosing one position per keyword under a budget: [enumKP] enumerates every
    choice, [dpKP] fills a table.  [W[i][j]] and [V[i][j]] are the cost and the
    clicks of position [j] of keyword [i]; a solution holds a position per
    keyword, [-1] for "do not bid".  [None] is an access out of range. *)
From S2P Require Import Prelude CNum.

(** ** Enumeration *)

(** The references [curSol], [maxValue], [maxSol] the recursion updates. *)
Record kp_state := KP { curSol : list Z; maxValue : double; maxSol : list Z }.

(** [W] and [V] are the rows from [i] on. *)
Fixpoint enumKPRecursive (W V : list (list double)) (i : nat)
    (leftB curValue : double) (st : kp_state) {struct W} : option kp_state :=
  match W with
  | [] =>
      if d_gt curValue (maxValue st) then Some (KP (curSol st) curValue (curSol st))
      else Some st
  | Wi :: W' =>
      cur ← wr i (-1) (curSol st);
      st ← enumKPRecursive W' (tail V) (S i) leftB curValue (KP cur (maxValue st) (maxSol st));
      foldM (λ st j,
        w ← Wi !! j;
        if d_ge leftB w then
          cur ← wr i (Z.of_nat j) (curSol st);
          Vi ← head V;
          v ← Vi !! j;
          enumKPRecursive W' (tail V) (S i) (d_sub leftB w) (d_add curValue v)
            (KP cur (maxValue st) (maxSol st))
        else Some st) st (seq 0 (length Wi))
  end.

Definition enumKP (W V : list (list double)) (B : Z) : option (list Z) :=
  let none := replicate (length W) (-1) in
  st ← enumKPRecursive W V 0 (d_of_Z B) d_zero (KP none d_zero none);
  Some (maxSol st).

(** ** Dynamic programming *)

(** The index [v - W[i][j]] of [F], a [double] converted to an unsigned one. *)
Definition dp_index (v : nat) (w : double) : option nat :=
  z ← d_trunc (d_sub (d_of_Z (Z.of_nat v)) w);
  if 0 <=? z then Some (Z.to_nat z) else None.

Definition dp_fits (v : nat) (w : double) : bool := d_ge (d_of_Z (Z.of_nat v)) w.

(** The loop over the positions of keyword [i] for the budget [v]. *)
Definition dp_cell (Wi Vi F : list double) (v : nat) : option (double * Z) :=
  f0 ← F !! v;
  foldM (λ '(maxF, maxI) j,
    w ← Wi !! j;
    if dp_fits v w then
      k ← dp_index v w;
      f ← F !! k;
      x ← Vi !! j;
      if d_gt (d_add f x) maxF then Some (d_add f x, Z.of_nat j) else Some (maxF, maxI)
    else Some (maxF, maxI)) (f0, -1) (seq 0 (length Wi)).

(** [for (int v = B; v >= 0; --v)], [n] budgets left to do; [S[i]] is [Si]. *)
Fixpoint dp_row (Wi Vi : list double) (n : nat) (F : list double) (Si : list Z)
    : option (list double * list Z) :=
  match n with
  | O => Some (F, Si)
  | S v =>
      '(maxF, maxI) ← dp_cell Wi Vi F v;
      F ← wr v maxF F;
      Si ← wr v maxI Si;
      dp_row Wi Vi v F Si
  end.

(** The rows of [S] are filled in order. *)
Fixpoint dp_table (W V : list (list double)) (B : nat) (F : list double) (rows : list (list Z))
    : option (list double * list (list Z)) :=
  match W, V with
  | [], _ => Some (F, rows)
  | Wi :: W, Vi :: V =>
      '(F, Si) ← dp_row Wi Vi (B + 1) F (replicate (B + 1) 0);
      dp_table W V B F (rows ++ [Si])
  | _ :: _, [] => None
  end.

(** [for (i = W.size() - 1, v = B; i >= 0; --i)], [i] rows left to do. *)
Fixpoint dp_solution (W : list (list double)) (rows : list (list Z)) (i : nat) (v : Z)
    (Sol : list Z) : option (list Z) :=
  match i with
  | O => Some Sol
  | S i =>
      Si ← rows !! i;
      s ← (if v <? 0 then None else Si !! Z.to_nat v);
      Sol ← wr i s Sol;
      if s =? -1 then dp_solution W rows i v Sol
      else
        Wi ← W !! i;
        w ← (if s <? 0 then None else Wi !! Z.to_nat s);
        v ← d_to_int (d_sub (d_of_Z v) w);
        dp_solution W rows i v Sol
  end.

Definition dpKP (W V : list (list double)) (B : Z) : option (list Z) :=
  if B <? 0 then None
  else
    '(_, rows) ← dp_table W V (Z.to_nat B) (replicate (Z.to_nat B + 1) d_zero) [];
    dp_solution W rows (length W) B (replicate (length W) (-1)).

(** ** What the solvers promise *)

(** The value of a choice, when the budget pays for it: keywords in order,
    as [enumKP] spends. *)
Fixpoint kp_run (W V : list (list double)) (leftB curValue : double) (sol : list Z)
    : option double :=
  match W, sol with
  | [], [] => Some curValue
  | Wi :: W, c :: sol =>
      if c =? -1 then kp_run W (tail V) leftB curValue sol
      else if c <? 0 then None
      else
        w ← Wi !! Z.to_nat c;
        Vi ← head V;
        v ← Vi !! Z.to_nat c;
        if d_ge leftB w then kp_run W (tail V) (d_sub leftB w) (d_add curValue v) sol else None
  | _, _ => None
  end.

(** One row of costs and values has a value for every cost. *)
Definition kp_shape (W V : list (list double)) : bool :=
  (length W =? length V)%nat &&
  forallb (λ p, (length p.1 <=? length p.2)%nat) (zip W V).

(** Every budget that pays for a position leaves an index in the table. *)
Definition idx_ok (W : list (list double)) (B : nat) : bool :=
  forallb (λ Wi, forallb (λ w, forallb (λ v,
    negb (dp_fits v w) || match dp_index v w with Some k => (k <=? v)%nat | None => false end)
    (seq 0 (B + 1))) Wi) W.

(** The Bellman recursion: the best value of the first rows for the budget [v]
    and the position that gives it.  [rows] are the pairs [(W[i], V[i])], last
    row first. *)
Definition bellman_step (best : nat → double) (v : nat) (Wi Vi : list double)
    (st : double * Z) (j : nat) : double * Z :=
  let w := default d_zero (Wi !! j) in
  if dp_fits v w then
    let x := d_add (best (default 0%nat (dp_index v w))) (default d_zero (Vi !! j)) in
    if d_gt x st.1 then (x, Z.of_nat j) else st
  else st.

Definition bellman (best : nat → double) (v : nat) (Wi Vi : list double) : double * Z :=
  fold_left (bellman_step best v Wi Vi) (seq 0 (length Wi)) (best v, -1).

Fixpoint kp_best (rows : list (list double * list double)) (v : nat) : double :=
  match rows with
  | [] => d_zero
  | (Wi, Vi) :: prev => (bellman (kp_best prev) v Wi Vi).1
  end.

(** The value of a choice as the table spends: last keyword first, the budget
    rounded down to an integer after every payment. *)
Fixpoint dp_value (rows : list (list double * list double)) (v : nat) (sol : list Z)
    : option double :=
  match rows, sol with
  | [], [] => Some d_zero
  | (Wi, Vi) :: prev, c :: sol =>
      if c =? -1 then dp_value prev v sol
      else if c <? 0 then None
      else
        w ← Wi !! Z.to_nat c;
        x ← Vi !! Z.to_nat c;
        if dp_fits v w then
          k ← dp_index v w;
          f ← dp_value prev k sol;
          Some (d_add f x)
        else None
  | _, _ => None
  end.

(** ** [enumKP] is optimal *)

(** [NaN] is not above anything. *)
Lemma d_not_lt_trans a b v :
  d_num a → d_num b → d_lt a b = false → d_lt b v = false → d_lt a v = false.
Proof.
  intros Ha Hb Hab Hbv. destruct (d_lt a v) eqn:E; [|done].
  pose proof (d_lt_num_r _ _ E) as Hv.
  by rewrite (swo_ntrans (P := d_num) a b v Ha Hb Hv Hab Hbv) in E.
Qed.

(** What a part of the enumeration does to the state: [cand] are the choices
    from keyword [i] on, with their values, that it tried. *)
Record kp_step (i : nat) (pre : list Z) (n : nat) (cand : list Z → double → Prop)
    (st st' : kp_state) : Prop := {
  step_len : length (curSol st') = n;
  step_cur : take i (curSol st') = pre;
  step_num : d_num (maxValue st');
  step_grow : d_lt (maxValue st') (maxValue st) = false;
  step_src : (maxValue st' = maxValue st ∧ maxSol st' = maxSol st) ∨
             ∃ sol, cand sol (maxValue st') ∧ maxSol st' = pre ++ sol;
  step_all : ∀ sol v, cand sol v → d_lt (maxValue st') v = false }.

Lemma kp_step_trans i pre n c1 c2 (c : list Z → double → Prop) st1 st2 st3 :
  d_num (maxValue st1) → kp_step i pre n c1 st1 st2 → kp_step i pre n c2 st2 st3 →
  (∀ sol v, c sol v ↔ c1 sol v ∨ c2 sol v) →
  kp_step i pre n c st1 st3.
Proof.
  intros Hn [_ _ Hn2 Hg2 Hs2 Ha2] [Hl3 Hc3 Hn3 Hg3 Hs3 Ha3] Hc. split; try done.
  - by apply (d_not_lt_trans _ (maxValue st2)).
  - destruct Hs3 as [[Hm3 Hv3]|(sol & Hsol & Hmax)].
    + destruct Hs2 as [[Hm2 Hv2]|(sol & Hsol & Hmax)].
      * left. split; congruence.
      * right. exists sol. rewrite Hc, Hm3, Hv3. eauto.
    + right. exists sol. rewrite Hc. eauto.
  - intros sol v [H|H]%Hc; [|eauto]. apply (d_not_lt_trans _ (maxValue st2)); eauto.
Qed.

(** Fixing the choice [c] of keyword [i] first. *)
Lemma kp_step_choose i pre n c (cand : list Z → double → Prop) (cand' : list Z → double → Prop)
    cur mv ms cur0 st' :
  (i < n)%nat → length cur0 = n → take i cur0 = pre → cur = <[i := c]> cur0 →
  kp_step (S i) (pre ++ [c]) n cand (KP cur mv ms) st' →
  (∀ sol v, cand' sol v ↔ ∃ sol', sol = c :: sol' ∧ cand sol' v) →
  kp_step i pre n cand' (KP cur0 mv ms) st'.
Proof.
  intros Hi Hl Hpre -> [Hl' Hc' Hn' Hg' Hs' Ha'] Hcand. split; try done.
  - apply (f_equal (take i)) in Hc'. rewrite take_take in Hc'.
    replace (i `min` S i)%nat with i in Hc' by lia. rewrite Hc'.
    rewrite take_app_le by (rewrite <- Hpre, length_take; lia).
    rewrite take_ge; [done|]. rewrite <- Hpre, length_take. lia.
  - destruct Hs' as [?|(sol & Hsol & Hm)]; [by left|right].
    exists (c :: sol). rewrite Hcand. split; [eauto|]. by rewrite Hm, <- app_assoc.
  - intros sol v (sol' & -> & H)%Hcand. eauto.
Qed.

Lemma kp_shape_cons Wi W V :
  kp_shape (Wi :: W) V = true →
  ∃ Vi V', V = Vi :: V' ∧ (length Wi ≤ length Vi)%nat ∧ kp_shape W V' = true.
Proof.
  unfold kp_shape. destruct V as [|Vi V']; simpl; [done|]. intros H. bool_cases.
  exists Vi, V'. split_and!; [done|done|]. apply andb_true_iff. split; [by apply Nat.eqb_eq|done].
Qed.

Lemma kp_step_ext i pre n (c1 c2 : list Z → double → Prop) st st' :
  (∀ sol v, c1 sol v ↔ c2 sol v) → kp_step i pre n c1 st st' → kp_step i pre n c2 st st'.
Proof.
  intros H [? ? ? ? Hs Ha]. split; try done.
  - destruct Hs as [?|(sol & ? & ?)]; [by left|right]. exists sol. by rewrite <- H.
  - intros sol v ?%H. eauto.
Qed.

(** A step that tries nothing. *)
Lemma kp_step_refl i pre n (c : list Z → double → Prop) st :
  (∀ sol v, ¬ c sol v) → length (curSol st) = n → take i (curSol st) = pre →
  d_num (maxValue st) → kp_step i pre n c st st.
Proof.
  intros Hc Hl Hp Hn. split; try done.
  - by apply (swo_irrefl (P := d_num)).
  - by left.
  - intros sol v []%Hc.
Qed.

Lemma take_insert_self {A} i (x : A) l :
  (i < length l)%nat → take (S i) (<[i := x]> l) = take i l ++ [x].
Proof.
  intros Hi. rewrite (take_S_r _ _ x) by (apply list_lookup_insert_eq; done).
  by rewrite take_insert_ge by lia.
Qed.

(** The choices that start with [c], given what the run does with [c]. *)
Definition cand_head (W V : list (list double)) (leftB curValue : double) (c : Z)
    (sol : list Z) (v : double) : Prop :=
  ∃ sol', sol = c :: sol' ∧ kp_run W V leftB curValue sol = Some v.

Lemma enumKPRecursive_spec W : ∀ V i leftB curValue st pre n,
  kp_shape W V = true → n = (i + length W)%nat →
  length (curSol st) = n → take i (curSol st) = pre → d_num (maxValue st) →
  ∃ st', enumKPRecursive W V i leftB curValue st = Some st' ∧
    kp_step i pre n (λ sol v, kp_run W V leftB curValue sol = Some v) st st'.
Proof.
  induction W as [|Wi W IH]; intros V i leftB curValue st pre n Hsh Hn Hl Hpre Hnum; simpl.
  - rewrite d_gt_lt. assert (curSol st = pre) as Hcur.
    { rewrite <- Hpre, take_ge; [done|]. simpl in Hn. lia. }
    destruct (d_lt (maxValue st) curValue) eqn:E; eexists; (split; [reflexivity|]).
    + pose proof (d_lt_num_r _ _ E). split; simpl; try done.
      * by apply (swo_asym (P := d_num)).
      * right. exists []. by rewrite app_nil_r.
      * intros [|c sol] v Hv; [|done]. injection Hv as <-. by apply (swo_irrefl (P := d_num)).
    + split; simpl; try done.
      * by apply (swo_irrefl (P := d_num)).
      * by left.
      * intros [|c sol] v Hv; [|done]. injection Hv as <-. done.
  - apply kp_shape_cons in Hsh as (Vi & V' & -> & HVi & Hsh). simpl in Hn.
    rewrite wr_Some by lia. cbn [mbind option_bind tail].
    set (R := kp_run (Wi :: W) (Vi :: V') leftB curValue).
    edestruct (IH V' (S i) leftB curValue (KP (<[i:=-1]> (curSol st)) (maxValue st) (maxSol st))
      (pre ++ [-1]) n) as (st1 & Hst1 & H1); try done.
    { lia. } { simpl. by rewrite length_insert. }
    { simpl. rewrite take_insert_self by lia. by rewrite Hpre. }
    rewrite Hst1. cbn [mbind option_bind].
    assert (kp_step i pre n (cand_head (Wi :: W) (Vi :: V') leftB curValue (-1)) st st1) as H1'.
    { destruct st as [cur0 mv ms]. eapply (kp_step_choose i pre n (-1)); try done; [lia|].
      intros sol v. unfold cand_head. split; intros (sol' & -> & Hr); exists sol'; (split; [done|exact Hr]). }
    match goal with |- ∃ _, foldM ?f ?b ?l = _ ∧ _ =>
      destruct (foldM_inv (λ done st', kp_step i pre n (λ sol v,
        cand_head (Wi :: W) (Vi :: V') leftB curValue (-1) sol v ∨
        ∃ j, j ∈ done ∧ cand_head (Wi :: W) (Vi :: V') leftB curValue (Z.of_nat j) sol v) st st')
        f l b) as (st' & Hst' & H') end.
    + (* first choice *)
      eapply kp_step_ext; [|exact H1']. intros sol v. split; [by left|].
      intros [?|(j & []%not_elem_of_nil & _)]; done.
    + (* position [j] *)
      intros done j stx Hx (suf & Hsuf).
      assert (j < length Wi)%nat as Hj.
      { assert (j ∈ seq 0 (length Wi)) as Hin by (rewrite Hsuf; set_solver).
        apply elem_of_seq in Hin. lia. }
      destruct (lookup_lt_is_Some_2 Wi j Hj) as [w Hw].
      destruct (lookup_lt_is_Some_2 Vi j ltac:(lia)) as [x Hv].
      rewrite Hw. cbn [mbind option_bind].
      assert (∀ sol v, cand_head (Wi :: W) (Vi :: V') leftB curValue (Z.of_nat j) sol v ↔
        ∃ sol', sol = Z.of_nat j :: sol' ∧ d_ge leftB w = true ∧
          kp_run W V' (d_sub leftB w) (d_add curValue x) sol' = Some v) as Hhead.
      { intros sol v. unfold cand_head. split; intros (sol' & -> & Hr); exists sol'; (split; [done|]);
          simpl in *; rewrite (proj2 (Z.eqb_neq (Z.of_nat j) (-1))) in * by lia;
          rewrite (proj2 (Z.ltb_ge (Z.of_nat j) 0)) in * by lia;
          rewrite Nat2Z.id, Hw, Hv in *; simpl in *.
        - by destruct (d_ge leftB w).
        - destruct Hr as [-> Hr]. exact Hr. }
      assert (∀ (P : Prop) (Q : nat → Prop), (P ∨ ∃ j', j' ∈ done ++ [j] ∧ Q j') ↔
        (P ∨ ∃ j', j' ∈ done ∧ Q j') ∨ Q j) as Hsnoc.
      { intros P Q. setoid_rewrite elem_of_app. setoid_rewrite list_elem_of_singleton. naive_solver. }
      destruct (d_ge leftB w) eqn:Hfit.
      * pose proof (step_len _ _ _ _ _ _ Hx) as Hlx. rewrite wr_Some by lia.
        cbn [mbind option_bind head]. rewrite Hv. cbn [mbind option_bind].
        edestruct (IH V' (S i) (d_sub leftB w) (d_add curValue x)
          (KP (<[i:=Z.of_nat j]> (curSol stx)) (maxValue stx) (maxSol stx))
          (pre ++ [Z.of_nat j]) n) as (st2 & Hst2 & H2); try done.
        { lia. } { simpl. by rewrite length_insert. }
        { simpl. rewrite take_insert_self by lia. by rewrite (step_cur _ _ _ _ _ _ Hx). }
        { apply (step_num _ _ _ _ _ _ Hx). }
        exists st2. split; [exact Hst2|]. eapply kp_step_trans; [exact Hnum|exact Hx| |].
        -- pose proof (step_cur _ _ _ _ _ _ Hx) as Hcx. destruct stx as [curx mvx msx].
           eapply (kp_step_choose i pre n (Z.of_nat j) _
             (cand_head (Wi :: W) (Vi :: V') leftB curValue (Z.of_nat j))); try done; [lia|].
           intros sol v. rewrite Hhead. naive_solver.
        -- intros sol v. cbn beta. rewrite Hsnoc. done.
      * exists stx. split; [done|]. eapply kp_step_ext; [|exact Hx].
        intros sol v. cbn beta. rewrite Hsnoc, (Hhead sol v). naive_solver.
    + exists st'. split; [exact Hst'|]. eapply kp_step_ext; [|exact H'].
      intros sol v. split; [intros [(? & _ & ?)|(? & _ & ? & _ & ?)]; done|].
      intros Hr. destruct sol as [|c sol]; [done|]. destruct (Z.eq_dec c (-1)) as [->|Hc].
      { left. by exists sol. }
      right. exists (Z.to_nat c). simpl in Hr. rewrite (proj2 (Z.eqb_neq _ _) Hc) in Hr.
      destruct (c <? 0) eqn:Hneg; [done|]. bool_cases.
      destruct (Wi !! Z.to_nat c) as [w|] eqn:Hw; [|done].
      split; [apply elem_of_seq; apply lookup_lt_Some in Hw; lia|].
      exists sol. rewrite Z2Nat.id by lia. split; [done|]. simpl.
      rewrite (proj2 (Z.eqb_neq _ _) Hc), (proj2 (Z.ltb_ge _ _) Hneg), Hw. exact Hr.
Qed.

Lemma kp_run_length W : ∀ V leftB curValue sol v,
  kp_run W V leftB curValue sol = Some v → length sol = length W.
Proof.
  induction W as [|Wi W IH]; intros V leftB curValue [|c sol] v H; try done; simpl in *.
  f_equal. destruct (c =? -1); [by apply IH in H|]. destruct (c <? 0); [done|].
  destruct (Wi !! Z.to_nat c); [|done]. destruct V as [|Vi V]; [done|].
  simpl in H. destruct (Vi !! Z.to_nat c); [|done]. simpl in H. case_match; [|done].
  by apply IH in H.
Qed.

Lemma kp_run_none W : ∀ V leftB curValue,
  kp_run W V leftB curValue (replicate (length W) (-1)) = Some curValue.
Proof. induction W as [|Wi W IH]; intros; simpl; [done|apply IH]. Qed.

(** Enumeration is exact. *)
Lemma enumKP_best W V B :
  kp_shape W V = true →
  ∃ sol v, enumKP W V B = Some sol ∧ length sol = length W ∧
    kp_run W V (d_of_Z B) d_zero sol = Some v ∧
    ∀ sol' v', kp_run W V (d_of_Z B) d_zero sol' = Some v' → d_lt v v' = false.
Proof.
  intros Hsh. unfold enumKP.
  destruct (enumKPRecursive_spec W V 0 (d_of_Z B) d_zero
    (KP (replicate (length W) (-1)) d_zero (replicate (length W) (-1))) [] (length W))
    as (st' & -> & Hst); try done.
  { simpl. by rewrite length_replicate. }
  cbn [mbind option_bind]. destruct Hst as [_ _ _ _ Hsrc Hall]. simpl in *.
  assert (kp_run W V (d_of_Z B) d_zero (maxSol st') = Some (maxValue st')) as Hrun.
  { destruct Hsrc as [[-> ->]|(sol & Hsol & ->)]; [apply kp_run_none|done]. }
  exists (maxSol st'), (maxValue st'). split_and!; [done| |done|done].
  by apply kp_run_length in Hrun.
Qed.

Definition sample_W : list (list double) :=
  map (map d_of_Z) [[60; 30; 10]; [50; 20]; [40; 25; 5]].
Definition sample_V : list (list double) :=
  map (map d_of_Z) [[9; 7; 2]; [8; 3]; [6; 5; 1]].

(** C11: [enumKP] is exact: it returns a choice that fits the budget and whose
    value no other choice that fits exceeds, compared with the same
    floating-point operations in the same order. *)
Theorem enumKP_optimal W V B :
  kp_shape W V = true →
  ∃ sol v, enumKP W V B = Some sol ∧ length sol = length W ∧
    kp_run W V (d_of_Z B) d_zero sol = Some v ∧
    ∀ sol' v', kp_run W V (d_of_Z B) d_zero sol' = Some v' → d_lt v v' = false.
Proof. apply enumKP_best. Qed.

Lemma enumKP_witness :
  kp_shape sample_W sample_V = true ∧ enumKP sample_W sample_V 80 = Some [1; 0; -1] ∧
  ∃ sol v, enumKP sample_W sample_V 80 = Some sol ∧
    kp_run sample_W sample_V (d_of_Z 80) d_zero sol = Some v ∧
    ∀ sol' v', kp_run sample_W sample_V (d_of_Z 80) d_zero sol' = Some v' → d_lt v v' = false.
Proof.
  split; [vm_compute; reflexivity|]. split; [vm_compute; reflexivity|].
  destruct (enumKP_optimal sample_W sample_V 80) as (sol & v & H1 & _ & H2 & H3).
  - vm_compute. reflexivity.
  - exists sol, v. exact (conj H1 (conj H2 H3)).
Defined.

(** ** [dpKP] computes the Bellman recursion *)

Lemma foldM_pure {A B} (f : B → A → option B) (g : B → A → B) l b :
  (∀ a b, a ∈ l → f b a = Some (g b a)) → foldM f b l = Some (fold_left g l b).
Proof.
  revert b. induction l as [|a l IH]; intros b H; [done|]. simpl.
  rewrite H by (left). simpl. apply IH. intros a' b' Ha'. apply H. by right.
Qed.

Definition row_ok (Wi : list double) (B : nat) : Prop :=
  ∀ j w v, Wi !! j = Some w → (v ≤ B)%nat → dp_fits v w = true →
    ∃ k, dp_index v w = Some k ∧ (k ≤ v)%nat.

Lemma idx_ok_row W B : idx_ok W B = true → Forall (λ Wi, row_ok Wi B) W.
Proof.
  unfold idx_ok. rewrite Forall_forall. intros H Wi HWi j w v Hj Hv Hfit.
  rewrite forallb_forall in H. apply list_elem_of_In in HWi. apply H in HWi.
  rewrite forallb_forall in HWi. apply list_elem_of_lookup_2, list_elem_of_In, HWi in Hj.
  rewrite forallb_forall in Hj. specialize (Hj v). rewrite Hfit in Hj. simpl in Hj.
  destruct (dp_index v w) as [k|]; [exists k; split; [done|]|].
  - apply Nat.leb_le, Hj, in_seq. lia.
  - discriminate Hj. apply in_seq. lia.
Qed.

Section bellman_facts.
Context (best : nat → double) (v : nat) (Wi Vi : list double).
Context (Hlen : (length Wi ≤ length Vi)%nat).

(** The position [j] is paid by [v] and brings the total to [x]. *)
Definition offers (j : nat) (x : double) : Prop :=
  ∃ w y, Wi !! j = Some w ∧ Vi !! j = Some y ∧ dp_fits v w = true ∧
    x = d_add (best (default 0%nat (dp_index v w))) y.

Lemma bellman_spec :
  d_num (best v) →
  let st := bellman best v Wi Vi in
  d_num st.1 ∧
  ((st.2 = -1 ∧ st.1 = best v) ∨ ∃ j, st.2 = Z.of_nat j ∧ offers j st.1) ∧
  d_lt st.1 (best v) = false ∧ (∀ j x, offers j x → d_lt st.1 x = false).
Proof.
  intros Hnum. unfold bellman.
  assert (∀ l st, (∀ j, j ∈ l → (j < length Wi)%nat) → d_num st.1 →
    ((st.2 = -1 ∧ st.1 = best v) ∨ ∃ j, st.2 = Z.of_nat j ∧ offers j st.1) →
    let st' := fold_left (bellman_step best v Wi Vi) l st in
    d_num st'.1 ∧ ((st'.2 = -1 ∧ st'.1 = best v) ∨ ∃ j, st'.2 = Z.of_nat j ∧ offers j st'.1) ∧
    d_lt st'.1 st.1 = false ∧ (∀ j x, j ∈ l → offers j x → d_lt st'.1 x = false)) as Hgen.
  { induction l as [|j l IH]; intros st Hl Hn Hsrc; simpl.
    { split_and!; [done|done|by apply (swo_irrefl (P := d_num))|].
      by intros j x []%not_elem_of_nil. }
    destruct (lookup_lt_is_Some_2 Wi j) as [w Hw]; [apply Hl; left|].
    assert (j < length Vi)%nat as Hj2 by (apply lookup_lt_Some in Hw; lia).
    destruct (lookup_lt_is_Some_2 Vi j Hj2) as [y Hy].
    set (st1 := bellman_step best v Wi Vi st j).
    assert (d_num st1.1 ∧
      ((st1.2 = -1 ∧ st1.1 = best v) ∨ ∃ j, st1.2 = Z.of_nat j ∧ offers j st1.1) ∧
      d_lt st1.1 st.1 = false ∧ (∀ x, offers j x → d_lt st1.1 x = false)) as (Hn1 & Hs1 & Hg1 & Ha1).
    { assert (∀ x, offers j x → dp_fits v w = true ∧
        x = d_add (best (default 0%nat (dp_index v w))) y) as Hhere.
      { intros x (w' & y' & ? & ? & ? & ->). by simplify_eq. }
      unfold st1, bellman_step. rewrite Hw, Hy. cbn [from_option id].
      destruct (dp_fits v w) eqn:Hfit; [|by split_and!; try done;
        [apply (swo_irrefl (P := d_num))|intros x [? _]%Hhere]].
      simpl. rewrite d_gt_lt. destruct (d_lt st.1 _) eqn:Hlt.
      - simpl. pose proof (d_lt_num_r _ _ Hlt). split_and!; [done| | |].
        + right. exists j. split; [done|]. by exists w, y.
        + by apply (swo_asym (P := d_num)).
        + intros x [_ ->]%Hhere. by apply (swo_irrefl (P := d_num)).
      - split_and!; [done|done|by apply (swo_irrefl (P := d_num))|].
        intros x [_ ->]%Hhere. done. }
    destruct (IH st1) as (Hn2 & Hs2 & Hg2 & Ha2); [intros; apply Hl; by right|done|done|].
    split_and!; [done|done|by apply (d_not_lt_trans _ st1.1)|].
    intros j' x [->|Hin]%elem_of_cons Hx; [apply (d_not_lt_trans _ st1.1); eauto|eauto]. }
  destruct (Hgen (seq 0 (length Wi)) (best v, -1)) as (H1 & H2 & H3 & H4); try done.
  { intros j Hj%elem_of_seq. lia. }
  { by left. }
  split_and!; try done. intros j x Hx. apply (H4 j); [|done].
  destruct Hx as (w & y & Hw & _). apply elem_of_seq. apply lookup_lt_Some in Hw. lia.
Qed.
End bellman_facts.

Lemma kp_best_num rows v :
  Forall (λ p, (length p.1 ≤ length p.2)%nat) rows → d_num (kp_best rows v).
Proof.
  intros H. revert v. induction H as [|[Wi Vi] rows Hr H IH]; intros v; [done|]. simpl.
  by apply (bellman_spec (kp_best rows) v Wi Vi).
Qed.

Lemma dp_cell_ok Wi Vi B F best v :
  (length Wi ≤ length Vi)%nat → row_ok Wi B → (v ≤ B)%nat →
  (∀ u, (u ≤ v)%nat → F !! u = Some (best u)) →
  dp_cell Wi Vi F v = Some (bellman best v Wi Vi).
Proof.
  intros Hlen Hrow Hv HF. unfold dp_cell, bellman. rewrite (HF v) by done.
  cbn [mbind option_bind]. apply foldM_pure. intros j [maxF maxI] Hj%elem_of_seq.
  destruct (lookup_lt_is_Some_2 Wi j) as [w Hw]; [lia|].
  destruct (lookup_lt_is_Some_2 Vi j) as [y Hy]; [lia|].
  unfold bellman_step. rewrite Hw, Hy. cbn [mbind option_bind from_option id].
  destruct (dp_fits v w) eqn:Hfit; [|done].
  destruct (Hrow j w v Hw Hv Hfit) as (k & -> & Hk).
  cbn [mbind option_bind from_option id]. rewrite (HF k Hk). cbn [mbind option_bind fst].
  by destruct (d_gt _ _).
Qed.

(** Downwards, the row above is still in the table where the loop reads it. *)
Lemma dp_row_ok Wi Vi B best n F Si :
  (length Wi ≤ length Vi)%nat → row_ok Wi B → (n ≤ B + 1)%nat →
  length F = (B + 1)%nat → length Si = (B + 1)%nat →
  (∀ u, (u < n)%nat → F !! u = Some (best u)) →
  ∃ F' Si', dp_row Wi Vi n F Si = Some (F', Si') ∧
    length F' = (B + 1)%nat ∧ length Si' = (B + 1)%nat ∧
    ∀ u, F' !! u = (if decide (u < n)%nat then Some (bellman best u Wi Vi).1 else F !! u) ∧
         Si' !! u = (if decide (u < n)%nat then Some (bellman best u Wi Vi).2 else Si !! u).
Proof.
  intros Hlen Hrow. revert F Si. induction n as [|v IH]; intros F Si Hn HF HS Hold; simpl.
  { exists F, Si. by split_and!. }
  rewrite (dp_cell_ok Wi Vi B F best v) by (done || lia || (intros; apply Hold; lia)).
  cbn [mbind option_bind]. destruct (bellman best v Wi Vi) as [x s] eqn:Hb.
  rewrite wr_Some by lia. cbn [mbind option_bind]. rewrite wr_Some by lia. cbn [mbind option_bind].
  edestruct (IH (<[v:=x]> F) (<[v:=s]> Si)) as (F' & Si' & Hr & HF' & HS' & Hu);
    [lia|by rewrite length_insert|by rewrite length_insert| |].
  { intros u Hu. rewrite list_lookup_insert_ne by lia. apply Hold. lia. }
  exists F', Si'. split_and!; [done|done|done|]. intros u. destruct (Hu u) as [H1 H2].
  rewrite H1, H2. destruct (decide (u < v)%nat), (decide (u < S v)%nat); try lia; try done.
  - assert (u = v) as -> by lia. rewrite !list_lookup_insert_eq by lia. by rewrite Hb.
  - by rewrite !list_lookup_insert_ne by lia.
Qed.

(** Row [i] of the table: the positions the recursion chooses. *)
Definition table_ok (B : nat) (prev zs : list (list double * list double))
    (rows : list (list Z)) : Prop :=
  length rows = length zs ∧
  ∀ i Wi Vi, zs !! i = Some (Wi, Vi) → ∃ Si, rows !! i = Some Si ∧
    ∀ u, (u ≤ B)%nat → Si !! u = Some (bellman (kp_best (rev (take i zs) ++ prev)) u Wi Vi).2.

Lemma dp_table_ok B W : ∀ V prev F rows,
  kp_shape W V = true → Forall (λ Wi, row_ok Wi B) W → length F = (B + 1)%nat →
  (∀ u, (u ≤ B)%nat → F !! u = Some (kp_best prev u)) →
  ∃ F' rows', dp_table W V B F rows = Some (F', rows ++ rows') ∧ table_ok B prev (zip W V) rows'.
Proof.
  induction W as [|Wi W IH]; intros V prev F rows Hsh Hrow HF Hbest.
  { exists F, []. simpl. rewrite app_nil_r. by split_and!. }
  apply kp_shape_cons in Hsh as (Vi & V' & -> & HVi & Hsh). inversion_clear Hrow as [|?? HWi Hrow'].
  simpl. destruct (dp_row_ok Wi Vi B (kp_best prev) (B + 1) F (replicate (B + 1) 0))
    as (F1 & Si & Hr & HF1 & HSi & Hu); try done.
  { by rewrite length_replicate. }
  { intros; apply Hbest; lia. }
  rewrite Hr. cbn [mbind option_bind].
  destruct (IH V' ((Wi, Vi) :: prev) F1 (rows ++ [Si])) as (F2 & rows' & Ht & Hl & Hok); try done.
  { intros u Hub. rewrite (proj1 (Hu u)). by destruct (decide (u < B + 1)%nat); [|lia]. }
  exists F2, (Si :: rows'). rewrite Ht, <- app_assoc. split; [done|]. split; [simpl; by rewrite Hl|].
  intros [|i] Wj Vj Hz; simplify_eq/=.
  - exists Si. split; [done|]. intros u Hub. rewrite (proj2 (Hu u)).
    by destruct (decide (u < B + 1)%nat); [|lia].
  - destruct (Hok i Wj Vj Hz) as (Sj & Hs & Hsu). exists Sj. split; [done|].
    intros u Hub. rewrite <- app_assoc. by apply Hsu.
Qed.

Lemma rev_take_S {A} (l : list A) i x :
  l !! i = Some x → rev (take (S i) l) = x :: rev (take i l).
Proof. intros H. by rewrite (take_S_r _ _ x H), rev_app_distr. Qed.

Lemma zip_lookup {A B} (l : list A) (k : list B) i x y :
  l !! i = Some x → k !! i = Some y → zip l k !! i = Some (x, y).
Proof. intros Hx Hy. apply lookup_zip_with_Some. by exists x, y. Qed.

Lemma shape_lookup W V i Wi :
  kp_shape W V = true → W !! i = Some Wi →
  ∃ Vi, V !! i = Some Vi ∧ (length Wi ≤ length Vi)%nat.
Proof.
  revert V i. induction W as [|W0 W IH]; intros V i Hsh Hi; [done|].
  apply kp_shape_cons in Hsh as (V0 & V' & -> & H0 & Hsh).
  destruct i as [|i]; simplify_eq/=; eauto.
Qed.

Lemma shape_rows W V :
  kp_shape W V = true → Forall (λ p, (length p.1 ≤ length p.2)%nat) (zip W V).
Proof.
  intros Hsh. apply Forall_lookup. intros i [Wi Vi] Hz.
  apply lookup_zip_with_Some in Hz as (? & ? & [= -> ->] & HW & HV).
  destruct (shape_lookup W V i _ Hsh HW) as (? & ? & ?). by simplify_eq.
Qed.

(** Reading the table backwards gives a choice with the recursion's value. *)
Lemma dp_solution_ok W V B rows :
  kp_shape W V = true → Forall (λ Wi, row_ok Wi B) W → Z.of_nat B < 2 ^ 31 →
  table_ok B [] (zip W V) rows →
  ∀ i v Sol, (i ≤ length W)%nat → (v ≤ B)%nat → length Sol = length W →
  ∃ sol, dp_solution W rows i (Z.of_nat v) Sol = Some (sol ++ drop i Sol) ∧ length sol = i ∧
    dp_value (rev (take i (zip W V))) v (rev sol)
    = Some (kp_best (rev (take i (zip W V))) v).
Proof.
  intros Hsh Hrow HB [_ Htab]. rewrite Forall_lookup in Hrow.
  induction i as [|i IH]; intros v Sol Hi Hv HSol.
  { exists []. by split_and!. }
  destruct (lookup_lt_is_Some_2 W i Hi) as [Wi HWi].
  destruct (shape_lookup W V i Wi Hsh HWi) as (Vi & HVi & Hlen).
  pose proof (zip_lookup _ _ _ _ _ HWi HVi) as Hz.
  destruct (Htab i Wi Vi Hz) as (Si & HSi & Hs). rewrite app_nil_r in Hs.
  set (prev := rev (take i (zip W V))) in *.
  assert (d_num (kp_best prev v)) as Hnum.
  { apply kp_best_num. unfold prev. apply Forall_rev, Forall_take, shape_rows. done. }
  destruct (bellman_spec (kp_best prev) v Wi Vi Hlen Hnum) as (_ & Hsrc & _).
  rewrite (rev_take_S _ _ _ Hz). fold prev. simpl dp_solution. rewrite HSi.
  cbn [mbind option_bind]. rewrite (proj2 (Z.ltb_ge (Z.of_nat v) 0)) by lia.
  rewrite Nat2Z.id, Hs by done. cbn [mbind option_bind]. rewrite wr_Some by lia.
  cbn [mbind option_bind].
  set (st := bellman (kp_best prev) v Wi Vi) in *.
  assert (∀ sol, sol ++ drop i (<[i:=st.2]> Sol) = (sol ++ [st.2]) ++ drop (S i) Sol) as Hdrop.
  { intros sol. rewrite <- app_assoc. f_equal. simpl.
    rewrite (drop_S _ st.2) by (apply list_lookup_insert_eq; lia).
    by rewrite drop_insert_lt by lia. }
  destruct Hsrc as [[Hs1 Hv1]|(j & Hj & (w & y & Hw & Hy & Hfit & Hx))].
  - rewrite Hs1. simpl (_ =? _). cbn iota.
    destruct (IH v (<[i:=-1]> Sol)) as (sol & Hsol & Hl & Hval); [lia|done|by rewrite length_insert|].
    exists (sol ++ [-1]). rewrite Hsol, <- Hs1, Hdrop. split; [done|].
    rewrite length_app, Hl. split; [simpl; lia|]. rewrite rev_app_distr. simpl. rewrite Hs1. simpl.
    fold st. rewrite Hval. by rewrite Hv1.
  - rewrite Hj. rewrite (proj2 (Z.eqb_neq (Z.of_nat j) (-1))) by lia. rewrite HWi.
    cbn [mbind option_bind]. rewrite (proj2 (Z.ltb_ge (Z.of_nat j) 0)) by lia.
    rewrite Nat2Z.id, Hw. cbn [mbind option_bind].
    destruct (Hrow i Wi HWi j w v Hw Hv Hfit) as (k & Hk & Hkv).
    assert (d_to_int (d_sub (d_of_Z (Z.of_nat v)) w) = Some (Z.of_nat k)) as Hint.
    { unfold dp_index in Hk. unfold d_to_int.
      destruct (d_trunc _) as [z|]; [|done]. simpl in *. destruct (0 <=? z) eqn:Hz0; [|done].
      injection Hk as <-. bool_cases. rewrite Z2Nat.id by done.
      rewrite (proj2 (Z.leb_le _ _)), (proj2 (Z.ltb_lt _ _)) by lia. done. }
    rewrite Hint. cbn [mbind option_bind].
    destruct (IH k (<[i:=st.2]> Sol)) as (sol & Hsol & Hl & Hval); [lia|lia|by rewrite length_insert|].
    exists (sol ++ [st.2]). rewrite <- Hj, Hsol, Hdrop. split; [done|].
    rewrite length_app, Hl. split; [simpl; lia|]. rewrite rev_app_distr. simpl. rewrite Hj.
    rewrite (proj2 (Z.eqb_neq (Z.of_nat j) (-1))), (proj2 (Z.ltb_ge (Z.of_nat j) 0)) by lia.
    rewrite Nat2Z.id, Hw, Hy. cbn [mbind option_bind]. rewrite Hfit, Hk. cbn [mbind option_bind].
    fold st. rewrite Hval. cbn [mbind option_bind]. rewrite Hx, Hk. done.
Qed.

(** C12: [dpKP] computes the Bellman recursion of the multiple-choice
    knapsack: the choice it reads back has the value of the recursion, the
    value never falls when a keyword is added, and every position that fits is
    a lower bound of it. *)
Theorem dpKP_bellman W V B :
  kp_shape W V = true → 0 ≤ B < 2 ^ 31 → idx_ok W (Z.to_nat B) = true →
  let rows i := rev (take i (zip W V)) in
  (∃ sol, dpKP W V B = Some sol ∧ length sol = length W ∧
     dp_value (rows (length W)) (Z.to_nat B) (rev sol)
     = Some (kp_best (rows (length W)) (Z.to_nat B))) ∧
  ∀ i Wi Vi v, W !! i = Some Wi → V !! i = Some Vi →
    d_lt (kp_best (rows (S i)) v) (kp_best (rows i) v) = false ∧
    ∀ j x, offers (kp_best (rows i)) v Wi Vi j x → d_lt (kp_best (rows (S i)) v) x = false.
Proof.
  intros Hsh HB Hidx rows. pose proof (idx_ok_row _ _ Hidx) as Hrow.
  assert (length (zip W V) = length W) as Hzip.
  { rewrite length_zip_with. unfold kp_shape in Hsh. bool_cases. lia. }
  split.
  - unfold dpKP. rewrite (proj2 (Z.ltb_ge B 0)) by lia.
    destruct (dp_table_ok (Z.to_nat B) W V [] (replicate (Z.to_nat B + 1) d_zero) [])
      as (F & tab & Ht & Htab); try done.
    { by rewrite length_replicate. }
    { intros u Hu. apply lookup_replicate_2. lia. }
    rewrite Ht. cbn [mbind option_bind app].
    destruct (dp_solution_ok W V (Z.to_nat B) tab Hsh Hrow ltac:(lia) Htab (length W) (Z.to_nat B)
      (replicate (length W) (-1))) as (sol & Hsol & Hl & Hval); [done|done|by rewrite length_replicate|].
    rewrite Z2Nat.id in Hsol by lia. exists sol. rewrite Hsol.
    rewrite drop_ge by (by rewrite length_replicate). by rewrite app_nil_r.
  - intros i Wi Vi v HWi HVi. unfold rows.
    rewrite (rev_take_S _ _ _ (zip_lookup _ _ _ _ _ HWi HVi)). simpl.
    destruct (shape_lookup W V i Wi Hsh HWi) as (Vi' & HVi' & Hlen). simplify_eq.
    apply bellman_spec; [done|]. apply kp_best_num, Forall_rev, Forall_take, shape_rows. done.
Qed.

Lemma dpKP_witness :
  kp_shape sample_W sample_V = true ∧ idx_ok sample_W 80 = true ∧
  dpKP sample_W sample_V 80 = Some [1; 0; -1] ∧
  ∃ sol, dpKP sample_W sample_V 80 = Some sol ∧
    dp_value (rev (zip sample_W sample_V)) 80 (rev sol)
    = Some (kp_best (rev (zip sample_W sample_V)) 80).
Proof.
  split; [vm_compute; reflexivity|]. split; [vm_compute; reflexivity|].
  split; [vm_compute; reflexivity|].
  destruct (dpKP_bellman sample_W sample_V 80) as [(sol & H1 & _ & H2) _].
  - vm_compute. reflexivity.
  - lia.
  - vm_compute. reflexivity.
  - exists sol. exact (conj H1 H2).
Defined.

(** A negative cost makes the table read past its end.  The defaults of
    [AdAuctionLogMgr] give negative rates from slot 14 on. *)
Theorem dpKP_negative_weight :
  dpKP [[d_of_Z (-1)]] [[d_of_Z (-1)]] 5 = None ∧
  dpKP [[d_of_Z 1]] [[d_of_Z 1]] 5 = Some [0].
Proof. split; vm_compute; reflexivity. Qed.
