(* ===== verification/UniformBid.v ===== *)
(** * Uniform bids ([ad-manager/sponsored-ad-search/AdBidStrategy.cpp], part 3)

    [convexUniformBid] adds up the cost/click landscapes of all keywords, keeps
    the upper part of their convex hull (Graham's scan) and mixes the two hull
    points around the budget of one impression.

    The iteration order of [boost::unordered_map] is the class [HashOrder].
    [None] is undefined behaviour: an index or iterator out of range, or a
    conversion of a [double] outside the range of [int]. *)
From S2P Require Import Prelude CNum RealtimeBid.

(** ** Points and turns *)

Record Point := Pt { px : double; py : double }.

Definition zero_point : Point := Pt d_zero d_zero.

Definition pt_lt (p1 p2 : Point) : bool :=
  d_lt (px p1) (px p2) || (isZero (d_sub (px p1) (px p2)) && d_lt (py p1) (py p2)).

Definition xsmall (p1 p2 : Point) : bool := d_lt (px p1) (px p2).

Definition turnDirection (p0 p1 p2 : Point) : Z :=
  let tmp := d_sub (d_mul (d_sub (px p2) (px p0)) (d_sub (py p1) (py p0)))
                   (d_mul (d_sub (py p2) (py p0)) (d_sub (px p1) (px p0))) in
  if d_lt tmp d_zero then 1 else if d_gt tmp d_zero then -1 else 0.

Definition sqdist (base p : Point) : double :=
  d_add (d_mul (d_sub (px p) (px base)) (d_sub (px p) (px base)))
        (d_mul (d_sub (py p) (py base)) (d_sub (py p) (py base))).

Definition AnglePredicate (base p1 p2 : Point) : bool :=
  let tmp := turnDirection base p1 p2 in
  (0 <? tmp) || ((tmp =? 0) && d_lt (sqdist base p1) (sqdist base p2)).

(** ** The landscape *)

(** Iteration visits every entry once, in an order of its own. *)
Class HashOrder := hash_order : gmap Z Point → list (Z * Point).
Class HashOrderOk `{HashOrder} : Prop :=
  hash_order_perm : ∀ m, hash_order m ≡ₚ map_to_list m.

#[export] Instance map_order : HashOrder := map_to_list.
#[export] Instance map_order_ok : HashOrderOk.
Proof. intros m. reflexivity. Qed.

Definition land_add (m : gmap Z Point) (p : Z * double) : gmap Z Point :=
  let curP := default zero_point (m !! p.1) in
  <[p.1 := Pt (d_add (px curP) (d_mul (d_of_Z p.1) p.2)) (d_add (py curP) p.2)]> m.

(** Both iterators advance together, to the end of the shorter vector. *)
Definition landscape_of (qsInfos : list AdQueryStatisticInfo) : gmap Z Point :=
  fold_left (λ m q, fold_left land_add (zip (cpc_ q) (ctr_ q)) m) qsInfos ∅.

Record collected := Coll { allPoints : list Point; minP : Point; minI : option nat }.

Definition collect_step (st : collected) (e : Z * Point) : collected :=
  let p := e.2 in
  if d_gt (py p) d_zero && d_gt (px p) d_zero then
    let pts := allPoints st ++ [p] in
    if pt_lt p (minP st) then Coll pts p (Some (length pts - 1)%nat)
    else Coll pts (minP st) (minI st)
  else st.

Definition collect (es : list (Z * Point)) : collected :=
  fold_left collect_step es (Coll [] (Pt d_max d_max) None).

(** [std::swap(allPoints[0], allPoints[minI])], then the sort of the rest. *)
Definition swap0 (i : nat) (v : list Point) : option (list Point) :=
  a ← v !! 0%nat;
  b ← v !! i;
  v ← wr 0 b v;
  wr i a v.

Definition sort_tail (base : Point) (v : list Point) : list Point :=
  match v with [] => [] | p :: v => p :: std_sort (AnglePredicate base) v end.

(** ** Graham's scan; the vector [ch] with its back first *)

Fixpoint pop_right (ch : list Point) (p : Point) : list Point :=
  match ch with
  | b :: ((a :: _) as ch') => if turnDirection a b p <? 0 then pop_right ch' p else ch
  | _ => ch
  end.

Definition graham (pts : list Point) : list Point :=
  rev (fold_left (λ ch p, p :: pop_right ch p) (drop 2 pts) (rev (take 2 pts))).

(** First loop over the hull: the length [j] of its increasing start. *)
Fixpoint climb (ch : list Point) : nat :=
  match ch with
  | a :: ((b :: _) as ch') => if pt_lt a b then S (climb ch') else O
  | _ => O
  end.

Definition candidates (ch : list Point) : list Point :=
  let j := climb ch in
  zero_point ::
  (match ch, last ch with
   | a :: _ :: _, Some b => if isZero (d_sub (px a) (px b)) then [] else [a]
   | _, _ => []
   end) ++ rev (drop j ch).

(** ** The budget of one impression *)

Definition total_impression (qsInfos : list AdQueryStatisticInfo) : Z :=
  fold_left (λ t q, i32 (t + impression_ q)) qsInfos 0.

Definition least_minBid (qsInfos : list AdQueryStatisticInfo) : Z :=
  fold_left (λ b q, Z.min (minBid_ q) b) qsInfos 1000000000.

Definition impression_budget (qsInfos : list AdQueryStatisticInfo) (budget : Z) : double :=
  d_div (d_of_Z budget)
    (d_div (d_of_Z (total_impression qsInfos)) (d_of_Z (Z.of_nat (length qsInfos)))).

Definition single_budget (qsInfos : list AdQueryStatisticInfo) (budget : Z) : option Z :=
  if 0 <? total_impression qsInfos then
    b ← d_to_int (impression_budget qsInfos budget);
    Some (Z.max (least_minBid qsInfos) b)
  else Some (least_minBid qsInfos).

(** [std::upper_bound]: halving the range [first, first + len). *)
Fixpoint upper_bound_loop (fuel : nat) (v : Point) (l : list Point) (first len : nat)
    : option nat :=
  match fuel with
  | O => Some first
  | S fuel =>
      if (len =? 0)%nat then Some first
      else
        let half := Nat.div2 len in
        m ← l !! (first + half)%nat;
        if xsmall v m then upper_bound_loop fuel v l first half
        else upper_bound_loop fuel v l (first + half + 1) (len - half - 1)
  end.

Definition upper_bound (v : Point) (l : list Point) : option nat :=
  upper_bound_loop (length l) v l 0 (length l).

(** ** The bids *)

Definition d_half : double := d_lit 5 1.

(** [isZero(p.y) ? 0 : int(p.x / p.y)]. *)
Definition point_bid (p : Point) : option Z :=
  if isZero (py p) then Some 0 else d_to_int (d_div (px p) (py p)).

Definition bids_between (minBid singleBudget : Z) (canch : list Point)
    : option (list (Z * double)) :=
  let sb := d_of_Z singleBudget in
  k ← upper_bound (Pt sb d_zero) canch;
  if (k =? length canch)%nat then
    let mybid := Z.max minBid singleBudget in
    Some [(mybid, d_half); (mybid, d_half)]
  else
    uit ← canch !! k;
    preit ← (match k with O => None | S k => canch !! k end);
    if isZero (d_sub (px preit) sb) then
      mybid ← point_bid preit;
      let mybid := Z.max minBid mybid in
      Some [(mybid, d_half); (mybid, d_half)]
    else
      let p := d_div (d_sub sb (px preit)) (d_sub (px uit) (px preit)) in
      prebid ← point_bid preit;
      let prebid := if 0 <? prebid then Z.max prebid minBid else prebid in
      ubid ← d_to_int (d_div (px uit) (py uit));
      let lastbid := Z.max ubid minBid in
      Some [(prebid, p); (lastbid, d_sub d_one p)].

(** The hull of the collected points, and the candidate points. *)
Definition hull (st : collected) : option (list Point) :=
  i ← minI st;
  pts ← swap0 i (allPoints st);
  Some (graham (sort_tail (minP st) pts)).

Definition convexUniformBid `{HashOrder} (qsInfos : list AdQueryStatisticInfo) (budget : Z)
    : option (list (Z * double)) :=
  match qsInfos with
  | [] => Some (replicate 2 (0, d_zero))
  | q :: _ =>
      let st := collect (hash_order (landscape_of qsInfos)) in
      if (length (allPoints st) =? 0)%nat then Some (replicate 2 (minBid_ q, d_half))
      else
        ch ← hull st;
        singleBudget ← single_budget qsInfos budget;
        bids_between (minBid_ q) singleBudget (candidates ch)
  end.

(** ** Graham's scan keeps a convex chain *)

(** Consecutive points of a chain, back first, never turn right. *)
Fixpoint no_right_turn (ch : list Point) : Prop :=
  match ch with
  | p :: ((b :: a :: _) as ch') => 0 ≤ turnDirection a b p ∧ no_right_turn ch'
  | _ => True
  end.

Lemma pop_right_suffix ch p : pop_right ch p `suffix_of` ch.
Proof.
  induction ch as [|b [|a ch] IH]; simpl; [done|done|].
  destruct (_ <? 0); [|done]. by apply suffix_cons_r.
Qed.

Lemma no_right_turn_suffix ch1 ch2 :
  ch1 `suffix_of` ch2 → no_right_turn ch2 → no_right_turn ch1.
Proof.
  intros [pre ->]. induction pre as [|p pre IH]; simpl; [done|].
  intros H. apply IH. destruct (pre ++ ch1) as [|b [|a l]]; [done|done|by destruct H].
Qed.

Lemma pop_right_turn ch p b a rest : pop_right ch p = b :: a :: rest → 0 ≤ turnDirection a b p.
Proof.
  induction ch as [|b0 [|a0 ch] IH]; simpl; [done|done|].
  destruct (turnDirection a0 b0 p <? 0) eqn:E; [done|]. intros [= <- <- <-]. by bool_cases.
Qed.

Lemma no_right_turn_push ch p :
  no_right_turn ch → no_right_turn (p :: pop_right ch p).
Proof.
  intros H. pose proof (no_right_turn_suffix _ _ (pop_right_suffix ch p) H) as Hs.
  simpl. destruct (pop_right ch p) as [|b [|a rest]] eqn:E; [done|done|].
  split; [|done]. by apply (pop_right_turn ch p b a rest).
Qed.

(** The scan keeps the first point, ends at the last one and invents none. *)
Record chain_of (pts ch : list Point) : Prop := {
  chain_turn : no_right_turn (rev ch);
  chain_head : head ch = head pts;
  chain_last : last ch = last pts;
  chain_incl : ch `sublist_of` pts }.

Lemma pop_right_last ch p : last (pop_right ch p) = last ch.
Proof.
  induction ch as [|b [|a ch] IH]; [done|done|].
  assert (pop_right (b :: a :: ch) p
    = if turnDirection a b p <? 0 then pop_right (a :: ch) p else b :: a :: ch) as -> by done.
  destruct (_ <? 0); [|done]. by rewrite IH.
Qed.

Lemma rev_is_reverse {A} (l : list A) : rev l = reverse l.
Proof. apply rev_alt. Qed.

Lemma chain_push done st p :
  chain_of done (rev st) → chain_of (done ++ [p]) (rev (p :: pop_right st p)).
Proof.
  intros [Ht Hh Hl Hs]. split.
  - rewrite rev_involutive in Ht |- *. by apply no_right_turn_push.
  - rewrite rev_is_reverse, head_reverse in Hh |- *.
    rewrite last_cons, pop_right_last, Hh, head_snoc. by destruct (head done).
  - by rewrite rev_is_reverse, last_reverse, last_snoc.
  - simpl. apply sublist_app; [|done]. etrans; [|exact Hs].
    destruct (pop_right_suffix st p) as [pre Hp]. rewrite Hp at 2. rewrite rev_app_distr.
    by apply sublist_inserts_r.
Qed.

Lemma graham_chain pts : chain_of pts (graham pts).
Proof.
  unfold graham.
  assert (∀ todo done st, chain_of done (rev st) →
    chain_of (done ++ todo) (rev (fold_left (λ ch p, p :: pop_right ch p) todo st))) as H.
  { induction todo as [|p todo IH]; intros done st Hc; simpl; [by rewrite app_nil_r|].
    replace (done ++ p :: todo) with ((done ++ [p]) ++ todo) by (by rewrite <- app_assoc).
    apply IH. by apply chain_push. }
  rewrite <- (take_drop 2 pts) at 1. apply H. split; rewrite rev_involutive; try done.
  by destruct pts as [|? [|? ?]].
Qed.

(** Graham's scan keeps the first and the last of the points it is given,
    in their order and adding none, and the chain it returns makes no right
    turn. *)
Theorem graham_convex pts : chain_of pts (graham pts).
Proof. apply graham_chain. Qed.

(** ** The strategy returns two bids *)

Definition usable (p : Point) : bool := d_gt (py p) d_zero && d_gt (px p) d_zero.

(** A point of the landscape the strategy can price: a finite cost, and an
    average cost per click in the range of [int]. *)
Definition priced (p : Point) : bool :=
  d_lt (px p) d_max &&
  match d_to_int (d_div (px p) (py p)) with Some _ => true | None => false end.

Definition landscape_ok (qsInfos : list AdQueryStatisticInfo) : bool :=
  forallb (λ e, negb (usable e.2) || priced e.2) (map_to_list (landscape_of qsInfos)).

Definition budget_ok (qsInfos : list AdQueryStatisticInfo) (budget : Z) : bool :=
  (total_impression qsInfos <=? 0) ||
  match d_to_int (impression_budget qsInfos budget) with Some _ => true | None => false end.

Definition good (p : Point) : Prop := usable p = true ∧ priced p = true.

Lemma collect_spec es :
  (∀ k p, (k, p) ∈ es → usable p = true → priced p = true) →
  Forall good (allPoints (collect es)) ∧
  (allPoints (collect es) = [] ∨
   ∃ i, minI (collect es) = Some i ∧ allPoints (collect es) !! i = Some (minP (collect es))).
Proof.
  intros Hes. unfold collect.
  set (Inv st := Forall good (allPoints st) ∧
    ((allPoints st = [] ∧ minP st = Pt d_max d_max) ∨
     ∃ i, minI st = Some i ∧ allPoints st !! i = Some (minP st))).
  assert (Inv (fold_left collect_step es (Coll [] (Pt d_max d_max) None))) as [H1 H2].
  2:{ split; [done|]. destruct H2 as [[? _]|?]; [by left|by right]. }
  apply fold_left_inv; [split; [constructor|by left]|].
  intros st [k p] Hin [Hg Hm]. unfold collect_step. simpl.
  fold (usable p). destruct (usable p) eqn:Hu; [|done].
  assert (good p) as Hp by (split; [done|eauto]).
  assert (Forall good (allPoints st ++ [p])) as Hg' by (apply Forall_app; split; [done|by constructor]).
  destruct (pt_lt p (minP st)) eqn:Hlt; split; simpl; try done; right.
  - eexists. split; [done|]. rewrite length_app. simpl.
    by replace (length (allPoints st) + 1 - 1)%nat with (length (allPoints st) + 0)%nat by lia;
      rewrite lookup_app_r, Nat.add_0_r, Nat.sub_diag by lia.
  - destruct Hm as [[_ Hmax]|(i & Hi & Hl)].
    + destruct Hp as [_ Hp]. unfold priced in Hp. bool_cases.
      unfold pt_lt in Hlt. rewrite Hmax in Hlt. simpl in Hlt.
      by rewrite H in Hlt.
    + exists i. split; [done|]. by apply lookup_app_l_Some.
Qed.

Lemma swap0_perm i v b : v !! i = Some b → ∃ v', swap0 i v = Some v' ∧ v' ≡ₚ v ∧ head v' = Some b.
Proof.
  intros Hb. destruct v as [|a v]; [done|]. unfold swap0. cbn [mbind option_bind lookup list_lookup].
  change ((a :: v) !! 0%nat) with (Some a). cbn [mbind option_bind]. rewrite Hb. cbn [mbind option_bind].
  apply lookup_lt_Some in Hb as Hl. rewrite wr_Some by (simpl; lia). cbn [mbind option_bind].
  rewrite wr_Some by (rewrite length_insert; lia). eexists. split; [done|].
  destruct i as [|i]; simpl in *.
  - simplify_eq. done.
  - split; [|done]. by apply insert_perm.
Qed.

Lemma sort_tail_perm base v : sort_tail base v ≡ₚ v.
Proof. destruct v as [|p v]; simpl; [done|]. by rewrite std_sort_perm. Qed.

Lemma hull_spec st :
  Forall good (allPoints st) →
  (∃ i, minI st = Some i ∧ allPoints st !! i = Some (minP st)) →
  ∃ ch, hull st = Some ch ∧ Forall good ch ∧
    ∃ others, minP st :: others ≡ₚ allPoints st ∧ ch = graham (minP st :: std_sort (AnglePredicate (minP st)) others).
Proof.
  intros Hg (i & Hi & Hl). unfold hull. rewrite Hi. cbn [mbind option_bind].
  destruct (swap0_perm i _ _ Hl) as (v & -> & Hv & Hh). cbn [mbind option_bind].
  eexists. split; [done|]. destruct v as [|p others]; [done|]. injection Hh as ->. split.
  - destruct (graham_chain (sort_tail (minP st) (minP st :: others))) as [_ _ _ Hs].
    rewrite <- Hv, <- (sort_tail_perm (minP st)) in Hg.
    rewrite Forall_forall in Hg |- *. intros p Hp. apply Hg. by eapply elem_of_sublist.
  - by exists others.
Qed.

Lemma candidates_good ch :
  Forall good ch → ∃ rest, candidates ch = zero_point :: rest ∧ Forall good rest.
Proof.
  intros Hg. unfold candidates. eexists. split; [done|]. apply Forall_app. split.
  - destruct ch as [|a [|b ch]]; [done|done|]. destruct (last _); [|done].
    inversion_clear Hg. destruct (isZero _); [done|by apply Forall_singleton].
  - by apply Forall_rev, Forall_drop.
Qed.

(** The halving brackets the value between two neighbours, sorted or not. *)
Lemma upper_bound_spec v l p0 :
  l !! 0%nat = Some p0 → xsmall v p0 = false →
  ∃ k pre, upper_bound v l = Some (S k) ∧ l !! k = Some pre ∧ xsmall v pre = false ∧
    (S k = length l ∨ ∃ u, l !! S k = Some u ∧ xsmall v u = true).
Proof.
  intros H0 Hx0. unfold upper_bound.
  assert (∀ fuel first len, (len ≤ fuel)%nat → (0 < first ∨ 0 < len)%nat →
    (first = 0%nat ∨ ∃ pre, l !! (first - 1)%nat = Some pre ∧ xsmall v pre = false) →
    ((first + len)%nat = length l ∨ ∃ u, l !! (first + len)%nat = Some u ∧ xsmall v u = true) →
    (first + len ≤ length l)%nat →
    ∃ k pre, upper_bound_loop fuel v l first len = Some (S k) ∧ l !! k = Some pre ∧
      xsmall v pre = false ∧ (S k = length l ∨ ∃ u, l !! S k = Some u ∧ xsmall v u = true)) as Hgen.
  { assert (∀ first, (0 < first)%nat →
      (first = 0%nat ∨ ∃ pre, l !! (first - 1)%nat = Some pre ∧ xsmall v pre = false) →
      ((first + 0)%nat = length l ∨ ∃ u, l !! (first + 0)%nat = Some u ∧ xsmall v u = true) →
      ∃ k pre, Some first = Some (S k) ∧ l !! k = Some pre ∧
        xsmall v pre = false ∧ (S k = length l ∨ ∃ u, l !! S k = Some u ∧ xsmall v u = true)) as Hend.
    { intros [|k] Hk Hpre Hu; [lia|]. destruct Hpre as [?|(pre & Hp & Hxp)]; [done|].
      replace (S k - 1)%nat with k in Hp by lia. rewrite Nat.add_0_r in Hu. by exists k, pre. }
    induction fuel as [|fuel IH]; intros first len Hf Hpos Hpre Hu Hle; simpl.
    { assert (len = 0)%nat as -> by lia. apply Hend; [lia|done|done]. }
    destruct (len =? 0)%nat eqn:Hz; bool_cases; [subst len; apply Hend; [lia|done|done]|].
    pose proof (Nat.div2_decr len (len - 1) ltac:(lia)) as Hhalf.
    generalize dependent (Nat.div2 len). intros half Hhalf.
    destruct (lookup_lt_is_Some_2 l (first + half)%nat) as [m Hm]; [lia|].
    rewrite Hm. cbn [mbind option_bind]. destruct (xsmall v m) eqn:Hxm.
    - apply IH; [lia| |done|right; eauto|lia].
      destruct first as [|first]; [|lia]. destruct half as [|n]; [|lia].
      simpl in Hm. congruence.
    - apply IH; [lia|lia| | |lia].
      + right. exists m. by replace (first + half + 1 - 1)%nat with (first + half)%nat by lia.
      + by replace (first + half + 1 + (len - half - 1))%nat with (first + len)%nat by lia. }
  apply lookup_lt_Some in H0 as Hl.
  apply Hgen; [done|lia|by left|by left|done].
Qed.

(** The answers of the strategy, [canch] being the candidate points: the budget
    is above the last of them; or it is the cost of one; or two neighbours cost
    less and more, and their bids are mixed. *)
Inductive uniform_result (minBid singleBudget : Z) (canch : list Point)
    : list (Z * double) → Prop :=
| uniform_above k last_point b :
    S k = length canch → canch !! k = Some last_point →
    d_lt (d_of_Z singleBudget) (px last_point) = false →
    b = Z.max minBid singleBudget →
    uniform_result minBid singleBudget canch [(b, d_half); (b, d_half)]
| uniform_at k pre u b c :
    canch !! k = Some pre → canch !! S k = Some u →
    d_lt (d_of_Z singleBudget) (px pre) = false → d_lt (d_of_Z singleBudget) (px u) = true →
    isZero (d_sub (px pre) (d_of_Z singleBudget)) = true →
    point_bid pre = Some c → b = Z.max minBid c →
    uniform_result minBid singleBudget canch [(b, d_half); (b, d_half)]
| uniform_mixed k pre u c1 c2 :
    canch !! k = Some pre → canch !! S k = Some u →
    d_lt (d_of_Z singleBudget) (px pre) = false → d_lt (d_of_Z singleBudget) (px u) = true →
    isZero (d_sub (px pre) (d_of_Z singleBudget)) = false →
    point_bid pre = Some c1 → 0 ≤ c1 → d_to_int (d_div (px u) (py u)) = Some c2 →
    let p := d_div (d_sub (d_of_Z singleBudget) (px pre)) (d_sub (px u) (px pre)) in
    uniform_result minBid singleBudget canch
      [(if decide (c1 = 0) then 0 else Z.max c1 minBid, p); (Z.max c2 minBid, d_sub d_one p)].

Lemma point_bid_good p : good p ∨ p = zero_point → ∃ b, point_bid p = Some b ∧ 0 ≤ b.
Proof.
  unfold point_bid. intros [[Hu Hp]| ->]; [|by exists 0].
  destruct (isZero _); [by exists 0|]. unfold usable, priced in *. bool_cases.
  destruct (d_to_int _) as [b|] eqn:E; [|done]. exists b. split; [done|].
  eapply d_to_int_pos; [|exact E]. by apply d_div_pos; apply d_gt_zero_pos.
Qed.

Lemma bids_between_ok minBid sb rest :
  0 ≤ sb → Forall good rest →
  ∃ bids, bids_between minBid sb (zero_point :: rest) = Some bids ∧
    uniform_result minBid sb (zero_point :: rest) bids.
Proof.
  intros Hsb Hg. unfold bids_between.
  destruct (upper_bound_spec (Pt (d_of_Z sb) d_zero) (zero_point :: rest) zero_point)
    as (k & pre & -> & Hpre & Hxp & Hk); [done|by apply d_pos_not_below, d_of_Z_pos|].
  cbn [mbind option_bind]. cbn [xsmall px] in Hxp.
  destruct (S k =? length (zero_point :: rest))%nat eqn:El.
  { bool_cases. eexists. split; [done|]. by eapply uniform_above. }
  destruct Hk as [Hk|(u & Hu & Hxu)]; bool_cases; [done|]. rewrite Hu, Hpre. cbn [mbind option_bind].
  rewrite Forall_lookup in Hg.
  destruct (point_bid_good pre) as (b & Hpb & Hb).
  { destruct k as [|k]; simplify_eq/=; [by right|left; eauto]. }
  rewrite Hpb. cbn [mbind option_bind]. destruct (isZero _) eqn:Ez.
  { eexists. split; [done|]. exact (uniform_at _ _ _ k pre u _ b Hpre Hu Hxp Hxu Ez Hpb eq_refl). }
  apply Hg in Hu as Hgu. destruct Hgu as [_ Hpu]. unfold priced in Hpu. bool_cases.
  destruct (d_to_int (d_div (px u) (py u))) as [ub|] eqn:Eu; [|done]. cbn [mbind option_bind].
  eexists. split; [done|].
  replace (if 0 <? b then Z.max b minBid else b) with (if decide (b = 0) then 0 else Z.max b minBid); [exact (uniform_mixed _ _ _ k pre u b ub Hpre Hu Hxp Hxu Ez Hpb Hb Eu)|].
  destruct (0 <? b) eqn:E; bool_cases; destruct (decide (b = 0)); lia.
Qed.

Lemma least_minBid_pos qsInfos : Forall (λ q, 0 ≤ minBid_ q) qsInfos → 0 ≤ least_minBid qsInfos.
Proof.
  intros H. unfold least_minBid. apply fold_left_inv; [done|].
  rewrite Forall_forall in H. intros b q Hq Hb. specialize (H q Hq). lia.
Qed.

(** ** What the points and the budget are *)

(** The usable points of the landscape; the first of the lowest of them. *)
Definition usable_points `{HashOrder} (qsInfos : list AdQueryStatisticInfo) : list Point :=
  filter (λ p, usable p = true) (map snd (hash_order (landscape_of qsInfos))).

Definition lowest (pts : list Point) : Point := fold_left (λ m p, if pt_lt p m then p else m) pts (Pt d_max d_max).

Lemma collect_points es :
  allPoints (collect es) = filter (λ p, usable p = true) (map snd es) ∧
  minP (collect es) = lowest (filter (λ p, usable p = true) (map snd es)).
Proof.
  unfold collect, lowest. set (st0 := Coll _ _ _). change (Pt d_max d_max) with (minP st0).
  assert (∀ st, allPoints (fold_left collect_step es st) = allPoints st ++ filter (λ p, usable p = true) (map snd es) ∧
    minP (fold_left collect_step es st) = fold_left (λ m p, if pt_lt p m then p else m) (filter (λ p, usable p = true) (map snd es)) (minP st)) as H; [|apply H].
  induction es as [|[k p] es IH]; intros st; [by rewrite app_nil_r|]. cbn [fold_left map snd]. rewrite filter_cons.
  destruct (IH (collect_step st (k, p))) as [-> ->]. unfold collect_step. cbn [snd]. fold (usable p).
  destruct (usable p); [|done]. rewrite decide_True by done. cbn [fold_left].
  destruct (pt_lt p (minP st)); cbn [allPoints minP]; by rewrite <- app_assoc.
Qed.

(** The single-click budget: the average budget of an impression as an [int],
    but not below the least minimal bid. *)
Definition budget_of (qsInfos : list AdQueryStatisticInfo) (budget sb : Z) : Prop :=
  let impressions := i32 (zsum (map impression_ qsInfos)) in
  let least := foldr Z.min 1000000000 (map minBid_ qsInfos) in
  if decide (impressions ≤ 0) then sb = least
  else ∃ b, d_to_int (d_div (d_of_Z budget) (d_div (d_of_Z impressions) (d_of_Z (Z.of_nat (length qsInfos))))) = Some b ∧ sb = Z.max least b.

Lemma total_impression_sum qsInfos : total_impression qsInfos = i32 (zsum (map impression_ qsInfos)).
Proof.
  unfold total_impression. assert (∀ t, i32 (fold_left (λ t q, i32 (t + impression_ q)) qsInfos t) = i32 (t + zsum (map impression_ qsInfos)) ∧
    fold_left (λ t q, i32 (t + impression_ q)) qsInfos (i32 t) = i32 (fold_left (λ t q, i32 (t + impression_ q)) qsInfos t)) as H.
  { induction qsInfos as [|q qs IH]; intros t; simpl; [by rewrite Z.add_0_r|]. destruct (IH (i32 (t + impression_ q))) as [IH1 IH2]. split.
    - rewrite IH1, i32_add_l. f_equal. lia.
    - rewrite i32_add_l. rewrite <- IH2. by rewrite i32_idem. }
  destruct (H 0) as [H1 H2]. change (i32 0) with 0 in H2. by rewrite H2, H1.
Qed.

Lemma least_minBid_least qsInfos : least_minBid qsInfos = foldr Z.min 1000000000 (map minBid_ qsInfos).
Proof.
  unfold least_minBid. assert (∀ b, fold_left (λ b q, Z.min (minBid_ q) b) qsInfos b = Z.min b (foldr Z.min 1000000000 (map minBid_ qsInfos)) ∨ 1000000000 < b) as H.
  { induction qsInfos as [|q qs IH]; intros b; cbn [fold_left foldr map]; [destruct (Z.lt_ge_cases 1000000000 b); [by right|left; lia]|].
    destruct (IH (Z.min (minBid_ q) b)) as [->|Hb]; [left; lia|right; lia]. }
  destruct (H 1000000000) as [->|?]; [|lia]. assert (foldr Z.min 1000000000 (map minBid_ qsInfos) ≤ 1000000000) by (clear; induction qsInfos; cbn [foldr map]; lia). lia.
Qed.

Lemma single_budget_of qsInfos budget : Forall (λ q, 0 ≤ minBid_ q) qsInfos → budget_ok qsInfos budget = true →
  ∃ sb, single_budget qsInfos budget = Some sb ∧ 0 ≤ sb ∧ budget_of qsInfos budget sb.
Proof.
  intros Hmin Hbud. pose proof (least_minBid_pos qsInfos Hmin) as Hleast. unfold single_budget, budget_ok, impression_budget, budget_of in *.
  rewrite <- least_minBid_least, <- total_impression_sum. destruct (0 <? total_impression qsInfos) eqn:Et; bool_cases.
  - rewrite (proj2 (Z.leb_gt _ _) Et) in Hbud. cbn [orb] in Hbud. destruct (d_to_int _) as [b|] eqn:Eb; [|done].
    cbn [mbind option_bind]. exists (Z.max (least_minBid qsInfos) b). split; [done|]. split; [lia|]. cbv zeta. rewrite decide_False by lia. by exists b.
  - exists (least_minBid qsInfos). split; [done|]. split; [done|]. cbv zeta. by rewrite decide_True by lia.
Qed.

(** C15: [convexUniformBid] on a landscape of finite costs always returns two
    bids with probabilities. The single-click budget is the budget divided by
    the mean number of impressions, as an integer and at least the least
    minimal bid (that alone without impressions). With no usable point the
    bids are the first minimal bid, half and half. Otherwise the points are
    scanned by Graham's method from the lowest one, the others sorted by
    angle, and the budget is compared with the candidates of this hull: below
    the first, above the last, at one, or strictly between two neighbours,
    whose bids are then mixed; no bid is below the minimum unless it is zero.
    The result for each case is given exactly. *)
Theorem convexUniformBid_two `{HashOrderOk} q qs budget :
  let qsInfos := q :: qs in
  let pts := usable_points qsInfos in
  Forall (λ q, 0 ≤ minBid_ q) qsInfos →
  landscape_ok qsInfos = true → budget_ok qsInfos budget = true →
  ∃ bids, convexUniformBid qsInfos budget = Some bids ∧
    if decide (pts = []) then bids = replicate 2 (minBid_ q, d_half)
    else ∃ others ch sb, lowest pts :: others ≡ₚ pts ∧
      ch = graham (lowest pts :: std_sort (AnglePredicate (lowest pts)) others) ∧
      chain_of (lowest pts :: std_sort (AnglePredicate (lowest pts)) others) ch ∧
      budget_of qsInfos budget sb ∧ uniform_result (minBid_ q) sb (candidates ch) bids.
Proof.
  intros qsInfos pts Hmin Hland Hbud. unfold convexUniformBid.
  unfold qsInfos at 1. cbv iota.
  set (st := collect (hash_order (landscape_of qsInfos))).
  destruct (collect_spec (hash_order (landscape_of qsInfos))) as [Hg Hne].
  { intros k p Hin Hu. rewrite hash_order_perm in Hin.
    unfold landscape_ok in Hland. rewrite forallb_forall in Hland.
    apply list_elem_of_In, Hland in Hin. simpl in Hin. by rewrite Hu in Hin. }
  destruct (collect_points (hash_order (landscape_of qsInfos))) as [Epts Emin].
  fold st in Hg, Hne, Epts, Emin. fold (usable_points qsInfos) in Epts, Emin. fold pts in Epts, Emin. rewrite Epts in *.
  destruct (length pts =? 0)%nat eqn:El.
  { exists (replicate 2 (minBid_ q, d_half)). split; [done|]. bool_cases. by rewrite decide_True by by apply nil_length_inv. }
  destruct (decide (pts = [])) as [Ep|_]; [by rewrite Ep in El|]. destruct Hne as [Hne|Hne]; [by rewrite Hne in El|].
  destruct (hull_spec st) as (ch & Ech & Hch & (others & Hothers & ->)); [by rewrite Epts|by rewrite Epts|]. rewrite Ech, Emin in *. cbn [mbind option_bind].
  destruct (single_budget_of qsInfos budget Hmin Hbud) as (sb & -> & Hsb & Hof).
  cbn [mbind option_bind]. destruct (candidates_good _ Hch) as (rest & Ecan & Hrest).
  destruct (bids_between_ok (minBid_ q) sb rest Hsb Hrest) as (bids & Eb & Hres). rewrite <- Ecan in Eb, Hres.
  exists bids. split; [done|]. eexists others, _, sb. split_and!; [by rewrite Epts in Hothers|done|apply graham_chain|done|done].
Qed.

Definition landscape_sample : list AdQueryStatisticInfo :=
  [QSInfo [120; 80; 50] [d_lit 5 2; d_lit 3 2; d_lit 1 2] 1000 10 (-1);
   QSInfo [200; 100; 60] [d_lit 6 2; d_lit 3 2; d_lit 2 2] 500 10 (-1)].

Lemma convexUniformBid_witness :
  ∃ bids, convexUniformBid landscape_sample 9000 = Some bids ∧
    ∃ ch, uniform_result 10 12 (candidates ch) bids.
Proof.
  destruct (convexUniformBid_two (hd (QSInfo [] [] 0 0 0) landscape_sample)
    (tl landscape_sample) 9000) as (bids & H1 & H2).
  - repeat constructor; vm_compute; discriminate.
  - vm_compute. reflexivity.
  - vm_compute. reflexivity.
  - exists bids. split; [exact H1|]. destruct (decide _) as [E|_]; [vm_compute in E; discriminate|].
    destruct H2 as (others & ch & sb & _ & _ & _ & Hsb & Hres). exists ch. assert (sb = 12) as <-; [|exact Hres].
    unfold budget_of in Hsb. cbn [hd tl landscape_sample] in Hsb. destruct (decide _) as [E|_]; [vm_compute in E; by destruct E|].
    destruct Hsb as (b & Eb & ->). vm_compute in Eb. injection Eb as <-. vm_compute. reflexivity.
Defined.

(** The probabilities are exchanged.  One keyword, one position of cost 100
    that is clicked at every impression, and a budget of 25 per impression:
    the bids cost 0 and 100, and the strategy plays the expensive one with
    probability 3/4, a cost of 75 per impression, three times the budget. *)
Theorem convexUniformBid_overspends :
  let qs := [QSInfo [100] [d_of_Z 1] 1 1 (-1)] in
  convexUniformBid qs 25 = Some [(0, d_lit 25 2); (100, d_lit 75 2)] ∧
  single_budget qs 25 = Some 25 ∧
  d_add (d_mul (d_lit 25 2) (d_of_Z 0)) (d_mul (d_lit 75 2) (d_of_Z 100)) = d_of_Z 75.
Proof. split_and!; vm_compute; reflexivity. Qed.
