(* ===== verification/GeneticBid.v ===== *)
(** * Bids per keyword ([ad-manager/sponsored-ad-search/AdBidStrategy.cpp], part 4)

    [geneticBid]: predefined bids are paid first; the other keywords form a
    knapsack problem that is enumerated ([enumKP]) or tabulated ([dpKP]) when
    it is small, and searched by a genetic algorithm otherwise.

    [rand()] is a stream of numbers, read through the counter of the monad
    [RM]; [None] is undefined behaviour (index out of range, [rand() % 0],
    conversion of a [double] outside the range of [int]). Every loop of the
    algorithm is bounded by the code itself, so no fuel is needed. *)
From S2P Require Import Prelude CNum DoubleBounds RealtimeBid Knapsack UniformBid.

(** ** Randomised computations *)

Definition RM (A : Type) : Type := nat → option (A * nat).

#[export] Instance RM_ret : MRet RM := λ A a n, Some (a, n).
#[export] Instance RM_bind : MBind RM := λ A B f m n,
  match m n with Some (a, n) => f a n | None => None end.

Definition lift {A} (o : option A) : RM A := λ n,
  match o with Some a => Some (a, n) | None => None end.

Fixpoint rfold {A B} (f : B → A → RM B) (b : B) (l : list A) : RM B :=
  match l with [] => mret b | a :: l => b ← f b a; rfold f b l end.

Fixpoint rmap {A B} (f : A → RM B) (l : list A) : RM (list B) :=
  match l with [] => mret [] | a :: l => b ← f a; bs ← rmap f l; mret (b :: bs) end.

Definition RAND_MAX : Z := 2147483647.

(** ** Constants *)

Definition EndPopulationRate : double := d_lit 9 1.
Definition PopulationSize : nat := 40.
Definition ElitismSize : nat := 2.
Definition GASize : nat := 38.
Definition MinFitVariance : double := d_lit 1 3.
Definition MaxLoopNum : Z := 10000000000.
Definition MaxDPSpace : Z := 100000000.
Definition crossoverRate : Z := 85.

(** ** Individuals: a position per keyword, [-1] for none *)

Definition gene_lookup (M : list (list double)) (j : nat) (g : Z) : option double :=
  row ← M !! j;
  if g <? 0 then None else row !! Z.to_nat g.

(** The pairs (keyword, selected position). *)
Definition selected (ind : list Z) : list (nat * Z) :=
  filter (λ jg, jg.2 ≠ -1) (imap (λ j g, (j, g)) ind).

Definition gene_sum (M : list (list double)) (ind : list Z) : option double :=
  foldM (λ t '(j, g), x ← gene_lookup M j g; Some (d_add t x)) d_zero (selected ind).

Section genetic.
Context (rand : nat → Z).
Context (W V : list (list double)) (adP : list Z) (KeywordNum : nat) (AvaiableBudget : Z).

Definition next_rand : RM Z := λ n, Some (rand n, S n).

(** [rand() % m]. *)
Definition rand_mod (m : Z) : RM Z :=
  r ← next_rand;
  if m =? 0 then lift None else mret (Z.rem r m).

(** [rand() % (adP[j] + 1) - 1]. *)
Definition random_gene (j : nat) : RM Z :=
  a ← lift (adP !! j);
  r ← rand_mod (a + 1);
  mret (r - 1).

(** *** Clearing an individual for the budget *)

(** [while (totalW > AvaiableBudget)] with [aN] entries of [kw] left. *)
Fixpoint clear_loop (aN : nat) (kw : list (nat * Z)) (totalW : double) (ind : list Z)
    : RM (list Z) :=
  if d_gt totalW (d_of_Z AvaiableBudget) then
    match aN with
    | O => lift None
    | S aN' =>
        r ← rand_mod (Z.of_nat aN);
        e ← lift (kw !! Z.to_nat r);
        w ← lift (gene_lookup W e.1 e.2);
        ind ← lift (wr e.1 (-1) ind);
        l ← lift (kw !! aN');
        clear_loop aN' (<[aN' := e]> (<[Z.to_nat r := l]> kw)) (d_sub totalW w) ind
    end
  else mret ind.

Definition clear_individual (ind : list Z) : RM (list Z) :=
  totalW ← lift (gene_sum W ind);
  clear_loop (length (selected ind)) (selected ind) totalW ind.

Definition clear_population (P : list (list Z)) : RM (list (list Z)) :=
  rmap clear_individual P.

(** *** The first population *)

(** The whole population is cleared after every individual that is filled. *)
Definition init_individual (P : list (list Z)) (i : nat) : RM (list (list Z)) :=
  ind ← rmap random_gene (seq 0 KeywordNum);
  clear_population (<[i := ind]> P).

Definition init_population : RM (list (list Z)) :=
  rfold init_individual (replicate PopulationSize []) (seq 0 PopulationSize).

(** *** Fitness *)

(** [fit], [fitness] (its running sums) and [fn]. *)
Definition fitness_of (P : list (list Z)) : option (list double * list double * double) :=
  foldM (λ '(fit, fitness, fn) ind,
    curfn ← gene_sum V ind;
    let fn := d_add fn curfn in
    Some (fit ++ [curfn], fitness ++ [fn], fn)) ([], [], d_zero) P.

(** [fitNum[fit[i]]++] on the hash map, [NaN] being equal to nothing. *)
Fixpoint count_fit (x : double) (m : list (double * Z)) : list (double * Z) :=
  match m with
  | [] => [(x, 1)]
  | (y, c) :: m => if SFeqb x y then (y, c + 1) :: m else (y, c) :: count_fit x m
  end.

Definition max_same_fit (fit : list double) : Z :=
  fold_left (λ m e, if m <? e.2 then e.2 else m)
    (fold_left (λ m x, count_fit x m) fit []) (-1).

Definition population_converged (fit : list double) : bool :=
  d_ge (d_div (d_of_Z (max_same_fit fit)) (d_of_Z (Z.of_nat PopulationSize)))
       EndPopulationRate.

(** *** Selection *)

(** [for (k = j; k < PopulationSize; ++k) if (fitness[k] > fcur) ...]. *)
Fixpoint first_above (fitness : list double) (fcur : double) (k : nat) : option nat :=
  match fitness with
  | [] => None
  | f :: fitness => if d_gt f fcur then Some k else first_above fitness fcur (S k)
  end.

(** Stochastic universal sampling; the state is [(SP, j)]. *)
Definition sus_step (fitness : list double) (fstart fstep : double)
    (st : list nat * nat) (i : nat) : list nat * nat :=
  let fcur := d_add fstart (d_mul (d_of_Z (Z.of_nat i)) fstep) in
  match first_above (drop st.2 fitness) fcur st.2 with
  | Some k => (<[i := k]> st.1, k)
  | None => st
  end.

Definition sample_population (fitness : list double) (fn : double) : RM (list nat) :=
  let fstep := d_div fn (d_of_Z (Z.of_nat GASize)) in
  r ← next_rand;
  let fstart := d_mul (d_div (d_of_Z r) (d_of_Z RAND_MAX)) fstep in
  if negb (isZero fstep) then
    mret (fold_left (sus_step fitness fstart fstep) (seq 0 GASize)
            (replicate PopulationSize 0%nat, 0%nat)).1
  else mret (seq 0 PopulationSize).

(** [std::swap(SP[j], SP[i - 1])]. *)
Definition swap_nat (i j : nat) (v : list nat) : option (list nat) :=
  a ← v !! i;
  b ← v !! j;
  v ← wr i b v;
  wr j a v.

(** [for (i = GASize; i >= 1; --i)], [i] steps left. *)
Fixpoint shuffle (i : nat) (SP : list nat) : RM (list nat) :=
  match i with
  | O => mret SP
  | S i' =>
      j ← rand_mod (Z.of_nat i);
      SP ← lift (swap_nat (Z.to_nat j) i' SP);
      shuffle i' SP
  end.

(** The top of [std::priority_queue] with [LargerFit]: which of several
    fittest comes first is left open by the standard, here the first one. *)
Definition pq_top (fit : list double) (l : list nat) : option nat :=
  match l with
  | [] => None
  | x :: l => Some (fold_left (λ b k,
      if d_lt (nth b fit d_zero) (nth k fit d_zero) then k else b) l x)
  end.

(** [SP[i] = pq.top(); pq.pop();]. *)
Definition elite_step (fit : list double) (st : list nat * list nat) (i : nat)
    : option (list nat * list nat) :=
  t ← pq_top fit st.2;
  SP ← wr i t st.1;
  Some (SP, filter (λ k, k ≠ t) st.2).

Definition elitism (fit : list double) (SP : list nat) : option (list nat) :=
  st ← foldM (elite_step fit) (SP, seq 0 PopulationSize) (seq GASize ElitismSize);
  Some st.1.

(** *** Crossover and mutation *)

Definition clamp (v a : Z) : Z := Z.min (Z.max v 0) (a - 1).

(** [(int)(x * p + y * (1.0 - p) + 0.5)]. *)
Definition blend (x y : Z) (p : double) : option Z :=
  d_to_int (d_add (d_add (d_mul (d_of_Z x) p) (d_mul (d_of_Z y) (d_sub d_one p))) d_half).

(** [(double)rand() / RAND_MAX * 1.50 - 0.25]. *)
Definition rand_weight (r : Z) : double :=
  d_sub (d_mul (d_div (d_of_Z r) (d_of_Z RAND_MAX)) (d_lit 15 1)) (d_lit 25 2).

(** [(int)(x * (1.0 - p) + y * p + 0.5)]. *)
Definition blend_back (x y : Z) (p : double) : option Z :=
  d_to_int (d_add (d_add (d_mul (d_of_Z x) (d_sub d_one p)) (d_mul (d_of_Z y) p)) d_half).

Definition cross_gene (j : nat) (l r : Z) : RM (Z * Z) :=
  x ← next_rand;
  let p := rand_weight x in
  a ← lift (adP !! j);
  if negb (l =? -1) && negb (r =? -1) then
    v1 ← lift (blend l r p);
    v2 ← lift (blend_back l r p);
    mret (clamp v1 a, clamp v2 a)
  else if (l =? -1) && (r =? -1) then mret (-1, -1)
  else
    ip ← rand_mod 2;
    if negb (ip =? 0) then mret (-1, -1)
    else mret (Z.max l r, Z.max l r).

(** [newP[i]] and [newP[i + 1]] from the parents [lp] and [rp]. *)
Definition cross_pair (lp rp : list Z) : RM (list Z * list Z) :=
  myRate ← rand_mod 100;
  if myRate <? crossoverRate then
    genes ← rmap (λ j, l ← lift (lp !! j); r ← lift (rp !! j); cross_gene j l r)
                 (seq 0 KeywordNum);
    mret (map fst genes, map snd genes)
  else mret (lp, rp).

Definition cross_step (P : list (list Z)) (SP : list nat) (newP : list (list Z)) (k : nat)
    : RM (list (list Z)) :=
  let i := (2 * k)%nat in
  si ← lift (SP !! i);
  si1 ← lift (SP !! S i);
  lp ← lift (P !! si);
  rp ← lift (P !! si1);
  c ← cross_pair lp rp;
  newP ← lift (wr i c.1 newP);
  lift (wr (S i) c.2 newP).

(** The last individuals are the elite, unchanged. *)
Definition elite_copy (P : list (list Z)) (SP : list nat) (newP : list (list Z)) (i : nat)
    : RM (list (list Z)) :=
  si ← lift (SP !! i);
  p ← lift (P !! si);
  lift (wr i p newP).

Definition crossover (P : list (list Z)) (SP : list nat) (newP : list (list Z))
    : RM (list (list Z)) :=
  newP ← rfold (cross_step P SP) newP (seq 0 (Nat.div2 GASize));
  rfold (elite_copy P SP) newP (seq GASize ElitismSize).

Definition mutate_gene (ind : list Z) (j : nat) : RM (list Z) :=
  r ← rand_mod (Z.of_nat KeywordNum);
  if r =? 0 then g ← random_gene j; lift (wr j g ind) else mret ind.

Definition mutate (newP : list (list Z)) : RM (list (list Z)) :=
  head ← rmap (λ ind, rfold mutate_gene ind (seq 0 KeywordNum)) (take GASize newP);
  mret (head ++ drop GASize newP).

(** *** The evolution *)

Definition MaxAllowedEvolutions : Z := i32 (300 * Z.of_nat KeywordNum).
Definition MinAllowedEvolutions : Z := i32 (50 * Z.of_nat KeywordNum).

(** The running means of the best fitness and its square. *)
Record fit_stats := FitStats { averageFit : double; averageSquareFit : double }.

Definition running_mean (eNum : Z) (avg x : double) : double :=
  d_div (d_add (d_mul (d_of_Z (eNum - 1)) avg) x) (d_of_Z eNum).

(** The statistics after [curMaxFit], and whether the evolution stops. *)
Definition fit_check (eNum : Z) (curMaxFit : double) (fs : fit_stats) : fit_stats * bool :=
  if isZero curMaxFit then (fs, false)
  else
    let a := running_mean eNum (averageFit fs) curMaxFit in
    let s := running_mean eNum (averageSquareFit fs) (d_mul curMaxFit curMaxFit) in
    let variance := d_sub s (d_mul a a) in
    (FitStats a s,
     (MinAllowedEvolutions <? eNum) &&
     d_lt (d_div variance (d_mul curMaxFit curMaxFit)) MinFitVariance).

(** [while (iterNum--)], [n] iterations left. *)
Fixpoint evolve (n : nat) (P newP : list (list Z)) (fs : fit_stats) : RM (list (list Z)) :=
  match n with
  | O => mret P
  | S n =>
      let eNum := MaxAllowedEvolutions - Z.of_nat n in
      f ← lift (fitness_of P);
      let '(fit, fitness, fn) := f in
      if (MinAllowedEvolutions <? eNum) && population_converged fit then mret P
      else
        SP ← sample_population fitness fn;
        SP ← shuffle GASize SP;
        t ← lift (pq_top fit (seq 0 PopulationSize));
        let '(fs, stop) := fit_check eNum (nth t fit d_zero) fs in
        if (stop : bool) then mret P
        else
          SP ← lift (elitism fit SP);
          newP ← crossover P SP newP;
          newP ← mutate newP;
          P' ← clear_population newP;
          evolve n P' P fs
  end.

(** [newP[i]] starts as zeros; the fittest individual is the answer. *)
Definition best_individual (P : list (list Z)) : option (option (list Z)) :=
  st ← foldM (λ '(maxI, maxfit) ind,
    ft ← gene_sum V ind;
    if d_gt ft maxfit then Some (Some ind, ft) else Some (maxI, maxfit))
    (None, minus_one) P;
  Some st.1.

Definition genetic_search : RM (option (list Z)) :=
  P ← init_population;
  P ← evolve (Z.to_nat MaxAllowedEvolutions) P
        (replicate PopulationSize (replicate KeywordNum 0)) (FitStats d_zero d_zero);
  lift (best_individual P).
End genetic.

(** ** From positions to bids *)

Definition is_free (q : AdQueryStatisticInfo) : bool := bid_ q =? -1.

Fixpoint convertIndexToBid (qsInfos : list AdQueryStatisticInfo) (bidindex : list Z)
    : option (list Z) :=
  match qsInfos with
  | [] => Some []
  | q :: qs =>
      if is_free q then
        k ← head bidindex;
        b ← (if k =? -1 then Some 0
             else if k <? 0 then None else cpc_ q !! Z.to_nat k);
        bid ← convertIndexToBid qs (tail bidindex);
        Some (b :: bid)
      else
        bid ← convertIndexToBid qs bidindex;
        Some (bid_ q :: bid)
  end.

(** [int(b1 * p1 + b2 * p2)] of the uniform strategy's two bids. *)
Definition expected_bid (bids : list (Z * double)) : option Z :=
  b1 ← head bids;
  b2 ← last bids;
  d_to_int (d_add (d_mul (d_of_Z b1.1) b1.2) (d_mul (d_of_Z b2.1) b2.2)).

Definition checkGABid `{HashOrder} (qsInfos : list AdQueryStatisticInfo) (budget : Z)
    (bid : list Z) : option (list Z) :=
  let raise b q := if (0 <? b) && (b <? minBid_ q) then minBid_ q else b in
  if existsb (Z.ltb 0) bid then
    if (length qsInfos <? length bid)%nat then None else Some (zip_with raise bid qsInfos)
  else
    q ← head qsInfos;
    ubid ← convexUniformBid qsInfos budget;
    lastBid ← expected_bid ubid;
    Some (map (λ _, Z.max lastBid (minBid_ q)) bid).

(** ** The strategy *)

(** [tmpBudget -= cpc * ctr * impression], a [double] cut to an [int]. *)
Definition pay (tmpBudget : Z) (q : AdQueryStatisticInfo) (i : nat) : option Z :=
  c ← cpc_ q !! i;
  r ← ctr_ q !! i;
  d_to_int (d_sub (d_of_Z tmpBudget) (d_mul (d_mul (d_of_Z c) r) (d_of_Z (impression_ q)))).

(** A predefined bid pays the first position it reaches. *)
Definition pay_predefined (tmpBudget : Z) (q : AdQueryStatisticInfo) : option Z :=
  if is_free q then Some tmpBudget
  else match list_find (λ c, c ≤ bid_ q) (cpc_ q) with
       | Some (i, _) => pay tmpBudget q i
       | None => Some tmpBudget
       end.

Definition predefined_bids (qsInfos : list AdQueryStatisticInfo) : list Z :=
  map (λ q, if is_free q then 0 else bid_ q) qsInfos.

(** The rows [W[kNum]] and [V[kNum]] of a keyword. *)
Definition row_of (f : Z → double → double) (q : AdQueryStatisticInfo) : option (list double) :=
  foldM (λ row j, c ← cpc_ q !! j; r ← ctr_ q !! j; Some (row ++ [f c r])) []
    (seq 0 (length (cpc_ q))).

Definition cost_row (q : AdQueryStatisticInfo) : option (list double) :=
  row_of (λ c r, d_mul (d_of_Z (i32 (c * impression_ q))) r) q.
Definition value_row (q : AdQueryStatisticInfo) : option (list double) :=
  row_of (λ _ r, d_mul (d_of_Z (impression_ q)) r) q.

(** [timeCP *= (W[i].size() + 1); if (timeCP > MaxLoopNum) break;]. *)
Fixpoint enumeration_size (W : list (list double)) (timeCP : Z) : Z :=
  match W with
  | [] => timeCP
  | Wi :: W =>
      let timeCP := i64 (timeCP * (Z.of_nat (length Wi) + 1)) in
      if MaxLoopNum <? timeCP then timeCP else enumeration_size W timeCP
  end.

(** The positions chosen for the free keywords, by the first method that is
    cheap enough. [None] as a choice leaves the bids as they are. *)
Definition choose_positions (rand : nat → Z) (W V : list (list double)) (adP : list Z)
    (AvaiableBudget : Z) : RM (option (list Z)) :=
  let KeywordNum := length W in
  if enumeration_size W 1 <? MaxLoopNum then
    sol ← lift (enumKP W V AvaiableBudget); mret (Some sol)
  else if Z.of_nat KeywordNum * i32 (AvaiableBudget + 1) <=? MaxDPSpace then
    sol ← lift (dpKP W V AvaiableBudget); mret (Some sol)
  else genetic_search rand W V adP KeywordNum AvaiableBudget.

Definition geneticBid `{HashOrder} (rand : nat → Z) (qsInfos : list AdQueryStatisticInfo)
    (budget : Z) : RM (list Z) :=
  let free := filter is_free qsInfos in
  AvaiableBudget ← lift (foldM pay_predefined budget qsInfos);
  if (length free =? 0)%nat || (AvaiableBudget <=? 0) then mret (predefined_bids qsInfos)
  else
    W ← lift (mapM cost_row free);
    V ← lift (mapM value_row free);
    sol ← choose_positions rand W V (map (λ q, Z.of_nat (length (cpc_ q))) free) AvaiableBudget;
    bid ← (match sol with
           | Some sol => lift (convertIndexToBid qsInfos sol)
           | None => mret (predefined_bids qsInfos)
           end);
    lift (checkGABid qsInfos budget bid).

(** ** What every run satisfies *)

(** The computation returns, and its value satisfies [Q]. *)
Definition runs {A} (m : RM A) (Q : A → Prop) : Prop :=
  ∀ n, ∃ a n', m n = Some (a, n') ∧ Q a.

Lemma runs_ret {A} (a : A) (Q : A → Prop) : Q a → runs (mret a) Q.
Proof. intros H n. by exists a, n. Qed.

Lemma runs_lift {A} (o : option A) (a : A) (Q : A → Prop) : o = Some a → Q a → runs (lift o) Q.
Proof. intros -> H n. by exists a, n. Qed.

Lemma runs_bind {A B} (m : RM A) (f : A → RM B) (R : A → Prop) (Q : B → Prop) :
  runs m R → (∀ a, R a → runs (f a) Q) → runs (m ≫= f) Q.
Proof.
  intros Hm Hf n. destruct (Hm n) as (a & n1 & E & Ha). unfold mbind, RM_bind. rewrite E. by apply Hf.
Qed.

Lemma bind_lift {A B} (a : A) (f : A → RM B) n : (lift (Some a) ≫= f) n = f a n.
Proof. done. Qed.

Lemma runs_bind_lift {A B} (o : option A) (a : A) (f : A → RM B) (Q : B → Prop) : o = Some a → runs (f a) Q → runs (lift o ≫= f) Q.
Proof. by intros ->. Qed.

Lemma runs_weaken {A} (m : RM A) (R Q : A → Prop) : runs m R → (∀ a, R a → Q a) → runs m Q.
Proof. intros H HRQ n. destruct (H n) as (a & n' & E & Ha). exists a, n'. eauto. Qed.

Lemma runs_rfold {A B} (f : B → A → RM B) (Q : B → Prop) l b :
  Q b → (∀ b a, a ∈ l → Q b → runs (f b a) Q) → runs (rfold f b l) Q.
Proof.
  revert b. induction l as [|a l IH]; intros b Hb Hf; simpl; [by apply runs_ret|].
  eapply runs_bind; [apply Hf; [left|done]|]. intros b' Hb'. apply IH; [done|].
  intros b2 a2 Ha2. apply Hf. by right.
Qed.

Lemma runs_rmap {A B} (f : A → RM B) (R : A → B → Prop) l :
  (∀ a, a ∈ l → runs (f a) (R a)) → runs (rmap f l) (Forall2 R l).
Proof.
  induction l as [|a l IH]; intros Hf; simpl; [apply runs_ret; constructor|].
  eapply runs_bind; [apply Hf; left|]. intros b Hb.
  eapply runs_bind; [apply IH; intros a' Ha'; apply Hf; by right|].
  intros bs Hbs. apply runs_ret. by constructor.
Qed.

(** The same with a counter: step [k] establishes [Q (S k)]. *)
Lemma runs_rfold_seq {B} (f : B → nat → RM B) (Q : nat → B → Prop) n : ∀ k b,
  Q k b → (∀ i b, (k ≤ i < k + n)%nat → Q i b → runs (f b i) (Q (S i))) →
  runs (rfold f b (seq k n)) (Q (k + n)%nat).
Proof.
  induction n as [|n IH]; intros k b Hb Hf; simpl; [apply runs_ret; by rewrite Nat.add_0_r|].
  eapply runs_bind; [apply Hf; [lia|done]|]. intros b' Hb'. rewrite <- Nat.add_succ_comm.
  apply IH; [done|]. intros i b2 Hi. apply Hf. lia.
Qed.

(** Every gene is a position of its keyword, or [-1]. *)
Definition gene_ok (a g : Z) : Prop := -1 ≤ g < a.

(** Taking the costs of chosen positions off their sum, in any order, leaves no
    more than the budget: the rounding errors are smaller than it. *)
Definition spend (W : list (list double)) (t : double) (e : nat * Z) : double :=
  match gene_lookup W e.1 e.2 with Some w => d_sub t w | None => t end.

Definition clearable (W : list (list double)) (adP : list Z) (AvaiableBudget : Z) : Prop :=
  ∀ ind t l, Forall2 gene_ok adP ind → gene_sum W ind = Some t → l ≡ₚ selected ind →
    d_gt (fold_left (spend W) l t) (d_of_Z AvaiableBudget) = false.

Section genetic_proofs.
Context (rand : nat → Z) (W V : list (list double)) (adP : list Z).
Context (KeywordNum : nat) (AvaiableBudget : Z).
Context (Hrand : ∀ n, 0 ≤ rand n ≤ RAND_MAX).
Context (HadP : length adP = KeywordNum) (Hpos : Forall (λ a, 0 ≤ a ≤ 2 ^ 16) adP).
Context (HKN : (0 < KeywordNum)%nat) (HAB : 0 ≤ AvaiableBudget).
Context (HW : Forall2 (λ a Wi, Z.of_nat (length Wi) = a) adP W).
Context (HV : Forall2 (λ a Vi, Z.of_nat (length Vi) = a) adP V).
Context (HVn : Forall (Forall d_nonneg) V) (Hclear : clearable W adP AvaiableBudget).

Definition ind_ok (ind : list Z) : Prop := Forall2 gene_ok adP ind.
Definition pop_ok (P : list (list Z)) : Prop := Forall ind_ok P ∧ length P = PopulationSize.

Lemma adP_range j a : adP !! j = Some a → 0 ≤ a ≤ 2 ^ 16.
Proof. rewrite Forall_lookup in Hpos. apply Hpos. Qed.

Lemma adP_at j : (j < KeywordNum)%nat → ∃ a, adP !! j = Some a.
Proof. intros Hj. apply lookup_lt_is_Some_2. lia. Qed.

Lemma runs_next_rand : runs (next_rand rand) (λ r, 0 ≤ r ≤ RAND_MAX).
Proof. intros n. exists (rand n), (S n). split; [done|apply Hrand]. Qed.

Lemma runs_rand_mod m : 0 < m → runs (rand_mod rand m) (λ r, 0 ≤ r < m).
Proof.
  intros Hm. eapply runs_bind; [apply runs_next_rand|].
  intros r [Hr _]. rewrite (proj2 (Z.eqb_neq m 0)) by lia. apply runs_ret.
  apply Z.rem_bound_pos; lia.
Qed.

Lemma runs_random_gene j : (j < KeywordNum)%nat →
  runs (random_gene rand adP j) (λ g, ∃ a, adP !! j = Some a ∧ gene_ok a g).
Proof.
  intros Hj. destruct (adP_at j Hj) as [a Ha]. pose proof (adP_range j a Ha) as Ha0.
  eapply runs_bind_lift; [exact Ha|].
  eapply runs_bind; [apply runs_rand_mod; lia|]. intros r Hr. cbv beta in Hr.
  apply runs_ret. exists a. split; [done|]. unfold gene_ok. lia.
Qed.

Lemma ind_length ind : ind_ok ind → length ind = KeywordNum.
Proof. intros H. apply Forall2_length in H. lia. Qed.

Lemma insert_gene_ok j g ind :
  ind_ok ind → (∀ a, adP !! j = Some a → gene_ok a g) → ind_ok (<[j := g]> ind).
Proof.
  intros Hok Hg. unfold ind_ok in *. apply Forall2_same_length_lookup_2.
  - rewrite length_insert. by apply Forall2_length in Hok.
  - intros i a g' Ha Hg'. destruct (decide (i = j)) as [->|Hne].
    + assert (j < length ind)%nat as Hj by (apply lookup_lt_Some in Hg'; by rewrite length_insert in Hg').
      rewrite list_lookup_insert_eq in Hg' by done. simplify_eq. by apply Hg.
    + rewrite list_lookup_insert_ne in Hg' by done.
      by eapply (Forall2_lookup_lr gene_ok adP ind).
Qed.

Lemma drop_gene_ok j ind : ind_ok ind → ind_ok (<[j := -1]> ind).
Proof.
  intros Hok. apply insert_gene_ok; [done|]. intros a Ha.
  pose proof (adP_range _ _ Ha). unfold gene_ok. lia.
Qed.

(** *** Sums over the chosen positions *)

Lemma selected_in ind e : e ∈ selected ind ↔ ind !! e.1 = Some e.2 ∧ e.2 ≠ -1.
Proof.
  unfold selected. rewrite list_elem_of_filter, elem_of_lookup_imap. destruct e as [j g]. simpl. naive_solver.
Qed.

Lemma chosen_position M ind e : Forall2 (λ a (Mi : list double), Z.of_nat (length Mi) = a) adP M →
  ind_ok ind → e ∈ selected ind → (e.1 < length ind)%nat ∧ ∃ row w, M !! e.1 = Some row ∧ gene_lookup M e.1 e.2 = Some w ∧ w ∈ row.
Proof.
  intros HM Hok [Hi Hne]%selected_in. destruct (Forall2_lookup_r _ _ _ _ _ Hok Hi) as (a & Ha & Hg).
  destruct (Forall2_lookup_l _ _ _ _ _ HM Ha) as (row & Hrow & Hl). unfold gene_ok in Hg.
  split; [by eapply lookup_lt_Some|]. destruct (lookup_lt_is_Some_2 row (Z.to_nat e.2)) as [w Hw]; [lia|].
  exists row, w. split_and!; [done| |by eapply list_elem_of_lookup_2]. unfold gene_lookup. rewrite Hrow. cbn [mbind option_bind].
  by rewrite (proj2 (Z.ltb_ge _ _)) by lia.
Qed.

Lemma gene_sum_ok M ind (Q : double → Prop) : Forall2 (λ a (Mi : list double), Z.of_nat (length Mi) = a) adP M →
  Q d_zero → (∀ t row w, Q t → row ∈ M → w ∈ row → Q (d_add t w)) → ind_ok ind → ∃ t, gene_sum M ind = Some t ∧ Q t.
Proof.
  intros HM H0 Hstep Hok. unfold gene_sum.
  match goal with |- ∃ t, foldM ?f ?b ?l = _ ∧ _ => destruct (foldM_inv (λ _, Q) f l b H0) as (t & Ht & HQ) end; [|by exists t].
  intros pre [j g] t Ht (suf & Esuf). destruct (chosen_position M ind (j, g) HM Hok) as (_ & row & w & Hrow & Hw & Hin); [rewrite Esuf; set_solver|].
  cbn [fst snd] in *. rewrite Hw. eexists. split; [done|]. eapply Hstep; [done|by eapply list_elem_of_lookup_2|done].
Qed.

(** *** Clearing *)

Lemma swap_out (kw : list (nat * Z)) (n r : nat) e x : kw !! r = Some e → kw !! n = Some x → (r ≤ n)%nat →
  e :: take n (<[n := e]> (<[r := x]> kw)) ≡ₚ take (S n) kw.
Proof.
  intros He Hx Hr. rewrite take_insert_ge by lia. rewrite (take_S_r _ _ _ Hx). destruct (decide (r = n)) as [->|Hne].
  - rewrite take_insert_ge by lia. assert (e = x) as -> by congruence. by rewrite Permutation_app_comm.
  - rewrite take_insert_lt by lia. assert (take n kw !! r = Some e) as He' by (rewrite lookup_take_lt by lia; done).
    rewrite insert_take_drop by (by eapply lookup_lt_Some). pose proof (take_drop_middle _ _ _ He') as Ht.
    set (a := take r (take n kw)) in *. set (b := drop (S r) (take n kw)) in *. rewrite <- Ht.
    trans (e :: x :: a ++ b); [apply Permutation_skip; symmetry; apply Permutation_middle|].
    rewrite <- (Permutation_middle a b e). cbn [app]. apply Permutation_skip. by rewrite (Permutation_app_comm (a ++ b) [x]).
Qed.

Lemma runs_clear_loop ind0 t0 : ind_ok ind0 → gene_sum W ind0 = Some t0 → ∀ aN kw l ind, (aN ≤ length kw)%nat →
  l ++ take aN kw ≡ₚ selected ind0 → ind_ok ind →
  runs (clear_loop rand W AvaiableBudget aN kw (fold_left (spend W) l t0) ind) ind_ok.
Proof.
  intros Hok0 Ht0. induction aN as [|aN IH]; intros kw l ind Hlen Hperm Hok; cbn [clear_loop].
  { rewrite app_nil_r in Hperm. rewrite (Hclear ind0 t0 l Hok0 Ht0 Hperm). by apply runs_ret. }
  destruct (d_gt _ _); [|by apply runs_ret].
  eapply runs_bind; [apply runs_rand_mod; lia|]. intros r Hr. cbv beta in Hr.
  destruct (lookup_lt_is_Some_2 kw (Z.to_nat r)) as [e He]; [lia|]. destruct (lookup_lt_is_Some_2 kw aN) as [x Hx]; [lia|].
  pose proof (swap_out kw aN (Z.to_nat r) e x He Hx ltac:(lia)) as Hswap.
  assert (e ∈ selected ind0) as Hin by (rewrite <- Hperm, <- Hswap; set_solver).
  destruct (chosen_position W ind0 e HW Hok0 Hin) as (Hj & row & w & _ & Hw & _). rewrite (ind_length _ Hok0) in Hj.
  eapply runs_bind_lift; [exact He|]. eapply runs_bind_lift; [exact Hw|].
  eapply runs_bind_lift; [apply wr_Some; by rewrite (ind_length _ Hok)|]. eapply runs_bind_lift; [exact Hx|].
  assert (d_sub (fold_left (spend W) l t0) w = fold_left (spend W) (l ++ [e]) t0) as ->.
  { rewrite fold_left_app. cbn [fold_left]. unfold spend at 2. by rewrite Hw. }
  apply IH; [rewrite !length_insert; lia| |by apply drop_gene_ok].
  rewrite <- Hperm, <- Hswap, <- app_assoc. done.
Qed.

Lemma runs_clear_individual ind : ind_ok ind → runs (clear_individual rand W AvaiableBudget ind) ind_ok.
Proof.
  intros Hok. destruct (gene_sum_ok W ind (λ _, True) HW I) as (t & Ht & _); [done|done|].
  eapply runs_bind_lift; [exact Ht|]. apply (runs_clear_loop ind t Hok Ht _ _ []); [lia| |done]. by rewrite firstn_all.
Qed.

(** An individual that has not been filled yet stays empty. *)
Lemma runs_clear_empty : runs (clear_individual rand W AvaiableBudget []) (λ ind, ind = []).
Proof.
  eapply runs_bind_lift; [reflexivity|]. cbn [selected clear_loop]. simpl.
  assert (d_gt d_zero (d_of_Z AvaiableBudget) = false) as ->; [|by apply runs_ret].
  rewrite d_gt_lt. apply d_pos_not_below. by apply d_of_Z_pos.
Qed.

Lemma runs_clear_population P : Forall (λ ind, ind_ok ind ∨ ind = []) P →
  runs (clear_population rand W AvaiableBudget P) (Forall2 (λ ind ind', (ind_ok ind → ind_ok ind') ∧ (ind = [] → ind' = [])) P).
Proof.
  intros HP. apply runs_rmap. intros ind Hin. rewrite Forall_forall in HP. destruct (HP ind Hin) as [Hok| ->].
  - eapply runs_weaken; [by apply runs_clear_individual|]. intros ind' Hok'. split; [done|]. intros ->.
    apply ind_length in Hok. simpl in Hok. lia.
  - eapply runs_weaken; [apply runs_clear_empty|]. intros ind' ->. done.
Qed.

Lemma runs_clear_pop P : pop_ok P → runs (clear_population rand W AvaiableBudget P) pop_ok.
Proof.
  intros [HP Hl]. eapply runs_weaken; [apply runs_clear_population|].
  - eapply Forall_impl; [exact HP|]. by left.
  - intros P' HF. split; [|by apply Forall2_length in HF as <-].
    clear Hl. induction HF as [|ind ind' P P' [H _] HF IH]; [constructor|].
    inversion_clear HP. constructor; [by apply H|by apply IH].
Qed.

(** *** The first population *)

Lemma seq_ind_ok ind :
  Forall2 (λ j g, ∃ a, adP !! j = Some a ∧ gene_ok a g) (seq 0 KeywordNum) ind → ind_ok ind.
Proof.
  intros HF. apply Forall2_same_length_lookup_2.
  - apply Forall2_length in HF. by rewrite length_seq in HF; rewrite HadP.
  - intros j a g Ha Hg. apply lookup_lt_Some in Ha as Hj.
    destruct (Forall2_lookup_r _ _ _ _ _ HF Hg) as (j' & Hj' & a' & Ha' & Hok).
    apply lookup_seq in Hj' as [-> _]. simpl in Ha'. by simplify_eq.
Qed.

(** The first [k] individuals are filled, the others satisfy [R]. *)
Definition filled (R : list Z → Prop) (k : nat) (P : list (list Z)) : Prop :=
  length P = PopulationSize ∧ ∀ i ind, P !! i = Some ind → if decide (i < k)%nat then ind_ok ind else R ind.

Lemma filled_all R P : filled R PopulationSize P → pop_ok P.
Proof.
  intros [Hl HP]. split; [|done]. apply Forall_lookup. intros i ind Hi.
  specialize (HP i ind Hi). apply lookup_lt_Some in Hi. by rewrite decide_True in HP by lia.
Qed.

Lemma filled_insert R k P ind :
  (k < PopulationSize)%nat → filled R k P → ind_ok ind → filled R (S k) (<[k := ind]> P).
Proof.
  intros Hk [Hl HP] Hind. split; [by rewrite length_insert|]. intros i ind' Hlk.
  destruct (decide (i = k)) as [->|Hne].
  - rewrite list_lookup_insert_eq in Hlk by lia. simplify_eq. by rewrite decide_True by lia.
  - rewrite list_lookup_insert_ne in Hlk by done. specialize (HP i ind' Hlk).
    destruct (decide (i < k)%nat); [rewrite decide_True by lia|rewrite decide_False by lia]; done.
Qed.

Lemma runs_init_population : runs (init_population rand W adP KeywordNum AvaiableBudget) pop_ok.
Proof.
  eapply runs_weaken; [|apply (filled_all (λ ind, ind = []))]. unfold init_population.
  apply (runs_rfold_seq _ (filled (λ ind, ind = [])) PopulationSize 0).
  { split; [done|]. intros i ind Hi. rewrite decide_False by lia. apply lookup_replicate in Hi as [-> _]. done. }
  intros k P Hk HP. eapply (runs_bind _ _ ind_ok).
  { eapply runs_weaken; [|apply seq_ind_ok]. apply runs_rmap. intros j Hj%elem_of_seq. apply runs_random_gene. lia. }
  intros ind Hind. destruct (filled_insert _ k P ind ltac:(lia) HP Hind) as [Hl Hok].
  eapply runs_weaken; [apply runs_clear_population|].
  - apply Forall_lookup. intros i x Hx. specialize (Hok i x Hx). destruct (decide (i < S k)%nat); [by left|by right].
  - intros P' HF. split; [by apply Forall2_length in HF as <-|].
    intros i ind' Hlk. destruct (Forall2_lookup_r _ _ _ _ _ HF Hlk) as (ind0 & H0 & H1 & H2).
    specialize (Hok i ind0 H0). destruct (decide (i < S k)%nat); [by apply H1|by apply H2].
Qed.

(** *** Fitness and selection *)

Lemma runs_fitness P : pop_ok P → ∃ fit fitness fn, fitness_of V P = Some (fit, fitness, fn) ∧ length fit = PopulationSize ∧ length fitness = PopulationSize.
Proof.
  intros [HP Hl]. unfold fitness_of.
  match goal with |- ∃ _ _ _, foldM ?f ?b ?l = _ ∧ _ =>
    destruct (foldM_inv (λ pre (st : list double * list double * double), length st.1.1 = length pre ∧ length st.1.2 = length pre) f l b) as ([[fit fitness] fn] & E & H1 & H2) end.
  - done.
  - intros pre ind [[fit fitness] fn] [H1 H2] (suf & Esuf). assert (ind_ok ind) as Hok by (rewrite Forall_forall in HP; apply HP; rewrite Esuf; set_solver).
    destruct (gene_sum_ok V ind (λ _, True) HV I) as (t & -> & _); [done|done|]. eexists. split; [done|]. simpl in *. rewrite !length_app. simpl. lia.
  - exists fit, fitness, fn. simpl in *. split_and!; [done|lia|lia].
Qed.

(** The selected parents are individuals of the population. *)
Definition SP_ok (SP : list nat) : Prop := length SP = PopulationSize ∧ Forall (λ k, (k < PopulationSize)%nat) SP.

Lemma SP_at SP i : SP_ok SP → (i < PopulationSize)%nat → ∃ k, SP !! i = Some k ∧ (k < PopulationSize)%nat.
Proof.
  intros [Hl HSP] Hi. destruct (lookup_lt_is_Some_2 SP i) as [k Hk]; [lia|]. exists k. split; [done|]. by eapply Forall_lookup_1 in HSP.
Qed.

Lemma SP_insert SP i k : SP_ok SP → (k < PopulationSize)%nat → SP_ok (<[i := k]> SP).
Proof. intros [Hl HSP] Hk. split; [by rewrite length_insert|]. by apply Forall_insert. Qed.

Lemma first_above_lt fitness fcur : ∀ k j, first_above fitness fcur k = Some j → (j < k + length fitness)%nat.
Proof.
  induction fitness as [|f fitness IH]; intros k j; simpl; [done|]. destruct (d_gt f fcur); [intros [= <-]; lia|]. intros H%IH. lia.
Qed.

Lemma sus_ok fitness fstart fstep l : length fitness = PopulationSize → ∀ st, SP_ok st.1 → (st.2 ≤ PopulationSize)%nat →
  SP_ok (fold_left (sus_step fitness fstart fstep) l st).1.
Proof.
  intros Hl. induction l as [|i l IH]; intros [SP j] HSP Hj; [done|]. cbn [fold_left fst snd] in *. unfold sus_step at 2. cbn [fst snd].
  destruct (first_above _ _ j) as [k|] eqn:E; [|by apply IH]. apply first_above_lt in E. rewrite length_drop in E.
  apply IH; simpl; [apply SP_insert; [done|lia]|lia].
Qed.

Lemma runs_sample fitness fn : length fitness = PopulationSize → runs (sample_population rand fitness fn) SP_ok.
Proof.
  intros Hl. eapply runs_bind; [apply runs_next_rand|]. intros r _. destruct (negb _).
  - apply runs_ret. apply sus_ok; [done| |simpl; lia]. split; [done|]. apply Forall_replicate. unfold PopulationSize. lia.
  - apply runs_ret. split; [done|]. apply Forall_forall. intros k Hk%elem_of_seq. lia.
Qed.

Lemma runs_shuffle i : (i ≤ PopulationSize)%nat → ∀ SP, SP_ok SP → runs (shuffle rand i SP) SP_ok.
Proof.
  induction i as [|i IH]; intros Hi SP HSP; cbn [shuffle]; [by apply runs_ret|].
  eapply runs_bind; [apply runs_rand_mod; lia|]. intros j Hj. cbv beta in Hj.
  destruct (SP_at SP (Z.to_nat j) HSP ltac:(lia)) as (a & Ha & Ha'). destruct (SP_at SP i HSP ltac:(lia)) as (b & Hb & Hb').
  destruct HSP as [Hl HSP]. eapply runs_bind_lift.
  { unfold swap_nat. rewrite Ha, Hb. cbn [mbind option_bind]. rewrite wr_Some by lia. cbn [mbind option_bind]. apply wr_Some. rewrite length_insert. lia. }
  apply IH; [lia|]. by apply SP_insert; [apply SP_insert|].
Qed.

Lemma pq_top_in fit x l : ∃ t, pq_top fit (x :: l) = Some t ∧ t ∈ x :: l.
Proof.
  eexists. split; [done|]. revert x. induction l as [|y l IH]; intros x; simpl; [by left|]. destruct (d_lt _ _).
  - specialize (IH y). set_solver.
  - specialize (IH x). set_solver.
Qed.

Lemma elitism_ok fit SP : SP_ok SP → ∃ SP', elitism fit SP = Some SP' ∧ SP_ok SP'.
Proof.
  intros HSP. assert (∀ SP i l, SP_ok SP → (i < PopulationSize)%nat → l ≠ [] → l ⊆ seq 0 PopulationSize →
    ∃ t, elite_step fit (SP, l) i = Some (<[i := t]> SP, filter (λ k, k ≠ t) l) ∧ (t < PopulationSize)%nat) as Hstep.
  { intros SP1 i l [Hl _] Hi Hne Hsub. destruct l as [|x l]; [done|]. destruct (pq_top_in fit x l) as (t & Et & Hin). exists t.
    apply Hsub, elem_of_seq in Hin. split; [|lia]. unfold elite_step. cbn [snd fst]. rewrite Et. cbn [mbind option_bind].
    rewrite wr_Some by lia. done. }
  unfold elitism. change (seq GASize ElitismSize) with [38; 39]%nat. cbn [foldM].
  destruct (Hstep SP 38%nat (seq 0 PopulationSize) HSP ltac:(unfold PopulationSize; lia) ltac:(done) ltac:(done)) as (t1 & -> & Ht1). cbn [mbind option_bind].
  destruct (Hstep (<[38%nat := t1]> SP) 39%nat (filter (λ k, k ≠ t1) (seq 0 PopulationSize))) as (t2 & -> & Ht2).
  - by apply SP_insert.
  - unfold PopulationSize. lia.
  - intros E. assert ((if decide (t1 = 0%nat) then 1%nat else 0%nat) ∈ filter (λ k, k ≠ t1) (seq 0 PopulationSize)) as Hin.
    { apply list_elem_of_filter. destruct (decide (t1 = 0%nat)); (split; [lia|apply elem_of_seq; unfold PopulationSize; lia]). }
    rewrite E in Hin. by apply elem_of_nil in Hin.
  - intros k [_ ?]%list_elem_of_filter. done.
  - eexists. split; [done|]. cbn [fst]. by apply SP_insert; [apply SP_insert|].
Qed.

(** *** Crossover and mutation *)

Lemma clamp_ok a v : 0 < a → gene_ok a (clamp v a).
Proof. unfold gene_ok, clamp. lia. Qed.

Lemma weight_fits r : 0 ≤ r ≤ RAND_MAX → fits 6 (rand_weight r).
Proof.
  intros Hr. unfold rand_weight. apply (fits_sub _ _ 4); [|by vm_compute|lia]. apply (fits_mul _ _ 2 1); [|by vm_compute|lia].
  assert (∃ m e, d_of_Z RAND_MAX = S754_finite false m e ∧ Z.pos (Pos.size m) + e = 31) as (m & e & -> & He) by (do 2 eexists; split; [by vm_compute|done]).
  apply (fits_div _ _ _ _ 31 31); [|lia|lia]. apply fits_of_Z; [|lia]. unfold RAND_MAX in Hr. lia.
Qed.

Lemma blend_fits x y p q : fits 16 x → fits 16 y → fits 6 p → fits 8 q → is_Some (d_to_int (d_add (d_add (d_mul x p) (d_mul y q)) d_half)).
Proof.
  intros Hx Hy Hp Hq. apply (fits_to_int _ 29); [|lia]. apply (fits_add _ _ 27); [|by vm_compute|lia]. apply (fits_add _ _ 25); [| |lia].
  - apply (fits_weaken 23); [lia|]. by apply (fits_mul _ _ 16 6).
  - by apply (fits_mul _ _ 16 8).
Qed.

Lemma blends_ok x y r : 0 ≤ x < 2 ^ 16 → 0 ≤ y < 2 ^ 16 → 0 ≤ r ≤ RAND_MAX →
  is_Some (blend x y (rand_weight r)) ∧ is_Some (blend_back x y (rand_weight r)).
Proof.
  intros Hx Hy Hr. pose proof (weight_fits r Hr) as Hp. assert (fits 8 (d_sub d_one (rand_weight r))) as Hq by (apply (fits_sub _ _ 6); [by vm_compute|done|lia]).
  pose proof (fits_of_Z x 16 Hx ltac:(lia)) as Fx. pose proof (fits_of_Z y 16 Hy ltac:(lia)) as Fy. split.
  - by apply blend_fits.
  - apply (fits_to_int _ 29); [|lia]. apply (fits_add _ _ 27); [|by vm_compute|lia]. apply (fits_add _ _ 25); [| |lia].
    + by apply (fits_mul _ _ 16 8).
    + apply (fits_weaken 23); [lia|]. by apply (fits_mul _ _ 16 6).
Qed.

Definition gene_pair_ok (j : nat) (p : Z * Z) : Prop :=
  ∃ a, adP !! j = Some a ∧ gene_ok a p.1 ∧ gene_ok a p.2.

Lemma runs_cross_gene j a l r :
  adP !! j = Some a → gene_ok a l → gene_ok a r →
  runs (cross_gene rand adP j l r) (gene_pair_ok j).
Proof.
  intros Ha Hl Hr. pose proof (adP_range j a Ha) as Ha0. unfold gene_ok in *.
  eapply runs_bind; [apply runs_next_rand|]. intros x Hx. cbv beta in Hx. cbv zeta.
  eapply runs_bind_lift; [exact Ha|].
  assert (∀ p, gene_ok a p.1 → gene_ok a p.2 → gene_pair_ok j p) as Hpair by (intros p Hp1 Hp2; by exists a). unfold gene_ok in Hpair.
  assert (runs (ip ← rand_mod rand 2; if negb (ip =? 0) then mret (-1, -1) else mret (Z.max l r, Z.max l r)) (gene_pair_ok j)) as Hmix.
  { eapply runs_bind; [apply runs_rand_mod; lia|]. intros ip _.
    destruct (negb (ip =? 0)); apply runs_ret; apply Hpair; simpl; lia. }
  destruct (l =? -1) eqn:El, (r =? -1) eqn:Er; bool_cases; cbn [negb andb]; [|exact Hmix|exact Hmix|].
  - apply runs_ret. apply Hpair; simpl; lia.
  - destruct (blends_ok l r x) as [[v1 E1] [v2 E2]]; [lia|lia|done|].
    eapply runs_bind_lift; [exact E1|]. eapply runs_bind_lift; [exact E2|].
    apply runs_ret. exists a. split; [done|]. split; apply clamp_ok; lia.
Qed.

Lemma runs_cross_pair lp rp :
  ind_ok lp → ind_ok rp →
  runs (cross_pair rand adP KeywordNum lp rp) (λ c, ind_ok c.1 ∧ ind_ok c.2).
Proof.
  intros Hlp Hrp. eapply runs_bind; [apply runs_rand_mod; lia|]. intros myRate _.
  destruct (myRate <? crossoverRate); [|by apply runs_ret].
  eapply (runs_bind _ _ (Forall2 gene_pair_ok (seq 0 KeywordNum))).
  - apply runs_rmap. intros j Hj%elem_of_seq. destruct (adP_at j) as [a Ha]; [lia|].
    destruct (Forall2_lookup_l _ _ _ _ _ Hlp Ha) as (l & Hl & Hla). destruct (Forall2_lookup_l _ _ _ _ _ Hrp Ha) as (r & Hr & Hra).
    eapply runs_bind_lift; [exact Hl|]. eapply runs_bind_lift; [exact Hr|]. by apply (runs_cross_gene j a).
  - intros genes HF. apply runs_ret. split; apply seq_ind_ok; simpl; revert HF;
      generalize (seq 0 KeywordNum) as l; intros l HF;
      induction HF as [|j p l ps (a & Ha & H1 & H2)]; simpl; constructor; eauto.
Qed.

Lemma pop_at P i : pop_ok P → (i < PopulationSize)%nat → ∃ ind, P !! i = Some ind ∧ ind_ok ind.
Proof.
  intros [HP Hl] Hi. destruct (lookup_lt_is_Some_2 P i) as [ind Hind]; [lia|]. exists ind. split; [done|]. by eapply Forall_lookup_1 in HP.
Qed.

Lemma runs_wr_filled R k P ind : filled R k P → ind_ok ind → (k < PopulationSize)%nat → runs (lift (wr k ind P)) (filled R (S k)).
Proof.
  intros HP Hind Hk. eapply runs_lift; [apply wr_Some; destruct HP; lia|]. by apply filled_insert.
Qed.

Lemma runs_crossover P SP newP :
  pop_ok P → SP_ok SP → length newP = PopulationSize →
  runs (crossover rand adP KeywordNum P SP newP) pop_ok.
Proof.
  intros HP HSP Hl. eapply (runs_bind _ _ (filled (λ _, True) GASize)).
  - apply (runs_rfold_seq _ (λ k, filled (λ _, True) (2 * k)) (Nat.div2 GASize) 0).
    { split; [done|]. intros i ind Hi. by rewrite decide_False by lia. }
    change (Nat.div2 GASize) with 19%nat. intros k Q Hk HQ. unfold cross_step.
    assert (2 * k < PopulationSize)%nat as Hk1 by (unfold PopulationSize; lia). assert (S (2 * k) < PopulationSize)%nat as Hk2 by (unfold PopulationSize; lia).
    destruct (SP_at SP (2 * k) HSP Hk1) as (s0 & Es0 & Hs0). destruct (SP_at SP (S (2 * k)) HSP Hk2) as (s1 & Es1 & Hs1).
    destruct (pop_at P s0 HP Hs0) as (lp & Elp & Hlp). destruct (pop_at P s1 HP Hs1) as (rp & Erp & Hrp).
    eapply runs_bind_lift; [exact Es0|]. eapply runs_bind_lift; [exact Es1|]. eapply runs_bind_lift; [exact Elp|]. eapply runs_bind_lift; [exact Erp|].
    eapply runs_bind; [by apply runs_cross_pair|]. intros c [Hc1 Hc2].
    eapply runs_bind; [by apply (runs_wr_filled (λ _, True) (2 * k) Q c.1)|]. intros Q' HQ'.
    replace (2 * S k)%nat with (S (S (2 * k))) by lia. by apply runs_wr_filled.
  - intros Q HQ. eapply runs_weaken; [|apply (filled_all (λ _, True))].
    apply (runs_rfold_seq _ (filled (λ _, True)) ElitismSize GASize); [done|]. intros k Q' Hk HQ'.
    assert (k < PopulationSize)%nat as Hk1 by (unfold GASize, ElitismSize, PopulationSize in *; lia).
    destruct (SP_at SP k HSP Hk1) as (s0 & Es0 & Hs0). destruct (pop_at P s0 HP Hs0) as (p & Ep & Hp).
    eapply runs_bind_lift; [exact Es0|]. eapply runs_bind_lift; [exact Ep|]. by apply runs_wr_filled.
Qed.

Lemma runs_mutate P :
  pop_ok P → runs (mutate rand adP KeywordNum P) pop_ok.
Proof.
  intros [HP Hl]. eapply (runs_bind _ _ (Forall2 (λ _ ind', ind_ok ind') (take GASize P))).
  - apply runs_rmap. intros ind Hind.
    assert (ind_ok ind) as Hok.
    { apply (Forall_take _ GASize) in HP. rewrite Forall_forall in HP. by apply HP. }
    apply runs_rfold; [done|]. intros ind' j Hj%elem_of_seq Hok'.
    eapply runs_bind; [apply runs_rand_mod; lia|]. intros r _. destruct (r =? 0); [|by apply runs_ret].
    eapply runs_bind; [apply runs_random_gene; lia|]. intros g (a & Ha & Hg).
    eapply runs_lift; [apply wr_Some; rewrite (ind_length _ Hok'); lia|]. apply insert_gene_ok; [done|]. intros a' Ha'. by simplify_eq.
  - intros hd HF. apply runs_ret. split.
    + apply Forall_app. split; [|by apply Forall_drop].
      clear -HF. induction HF; by constructor.
    + rewrite length_app, length_drop. apply Forall2_length in HF. rewrite <- HF, length_take. lia.
Qed.

Lemma runs_evolve n : ∀ P newP fs,
  pop_ok P → length newP = PopulationSize →
  runs (evolve rand W V adP KeywordNum AvaiableBudget n P newP fs) pop_ok.
Proof.
  induction n as [|n IH]; intros P newP fs HP Hnl; cbn [evolve]; [by apply runs_ret|].
  destruct (runs_fitness P HP) as (fit & fitness & fn & Ef & Hf1 & Hf2). eapply runs_bind_lift; [exact Ef|]. cbv beta iota.
  destruct (_ && _); [by apply runs_ret|].
  eapply runs_bind; [by apply runs_sample|]. intros SP HSP. eapply runs_bind; [apply runs_shuffle; [unfold GASize, PopulationSize; lia|done]|]. intros SP1 HSP1.
  destruct (pq_top_in fit 0%nat (seq 1 39)) as (t & Et & _). eapply runs_bind_lift; [exact Et|].
  destruct (fit_check _ _ _ _) as [fs' []]; [by apply runs_ret|].
  destruct (elitism_ok fit SP1 HSP1) as (SP2 & E2 & HSP2). eapply runs_bind_lift; [exact E2|].
  eapply runs_bind; [by apply runs_crossover|]. intros P1 HP1.
  eapply runs_bind; [by apply runs_mutate|]. intros P2 HP2.
  eapply runs_bind; [by apply runs_clear_pop|]. intros P3 HP3. apply IH; [done|apply HP].
Qed.

(** *** The answer *)

Lemma nonneg_above_minus_one x : d_nonneg x → d_gt x minus_one = true.
Proof.
  intros [Hs Hn]. destruct x as [[]|[]| |[] m e]; try done.
Qed.

Lemma best_ok P : pop_ok P → ∃ ind, best_individual V P = Some (Some ind) ∧ ind_ok ind.
Proof.
  intros [HP Hl]. unfold best_individual.
  assert (∀ ind, ind_ok ind → ∃ t, gene_sum V ind = Some t ∧ d_nonneg t) as Hsum.
  { intros ind Hok. apply gene_sum_ok; [done|done| |done]. intros t row w Ht Hrow Hw. apply d_add_nonneg; [done|].
    rewrite Forall_forall in HVn. specialize (HVn row Hrow). rewrite Forall_forall in HVn. by apply HVn. }
  destruct P as [|ind0 P]; [done|]. inversion_clear HP as [|? ? H0 HP']. destruct (Hsum ind0 H0) as (t0 & E0 & Ht0).
  cbn [foldM]. rewrite E0. cbn [mbind option_bind]. rewrite (nonneg_above_minus_one t0 Ht0). cbn [mbind option_bind].
  match goal with |- ∃ _, ((foldM ?f ?b ?l) ≫= _) = _ ∧ _ => destruct (foldM_inv (λ _ (st : option (list Z) * double), ∃ ind, st.1 = Some ind ∧ ind_ok ind) f l b) as ([st ft] & E & ind & Est & Hok) end.
  - by exists ind0.
  - intros pre ind [mi mf] (i0 & Ei & Hi) (suf & Esuf). assert (ind_ok ind) as Hok by (rewrite Forall_forall in HP'; apply HP'; rewrite Esuf; set_solver).
    destruct (Hsum ind Hok) as (t & -> & _). cbn [mbind option_bind]. destruct (d_gt t mf); eexists; (split; [done|]); [by exists ind|by exists i0].
  - rewrite E. cbn [mbind option_bind fst] in *. subst. by exists ind.
Qed.

(** The search always returns, with positions that exist. *)
Lemma runs_genetic_search :
  runs (genetic_search rand W V adP KeywordNum AvaiableBudget) (λ sol, ∃ ind, sol = Some ind ∧ ind_ok ind).
Proof.
  eapply runs_bind; [apply runs_init_population|]. intros P HP.
  apply (runs_bind _ _ pop_ok); [apply runs_evolve; [exact HP|reflexivity]|].
  intros P' HP'. destruct (best_ok P' HP') as (ind & E & Hok). eapply runs_lift; [exact E|]. by exists ind.
Qed.
End genetic_proofs.

(** ** Bids from positions *)

(** A keyword keeps its predefined bid; a free one bids nothing or the cost
    of one of its positions. *)
Definition bid_choice (q : AdQueryStatisticInfo) (b : Z) : Prop :=
  if is_free q then b = 0 ∨ b ∈ cpc_ q else b = bid_ q.

Definition index_ok (q : AdQueryStatisticInfo) (k : Z) : Prop :=
  -1 ≤ k < Z.of_nat (length (cpc_ q)).

Lemma convertIndexToBid_ok qs : ∀ sol,
  Forall2 index_ok (filter is_free qs) sol →
  ∃ bid, convertIndexToBid qs sol = Some bid ∧ Forall2 bid_choice qs bid.
Proof.
  induction qs as [|q qs IH]; intros sol HF; [by exists []|]. simpl.
  unfold bid_choice at 1. destruct (is_free q) eqn:Eq.
  - rewrite filter_cons_True in HF by (by rewrite Eq).
    inversion HF as [|? k ? sol' Hk HF' E1 E2]; subst. cbn [head tail mbind option_bind].
    destruct (IH sol' HF') as (bid & -> & Hbid). unfold index_ok in Hk.
    destruct (k =? -1) eqn:Ek; [|destruct (k <? 0) eqn:Ek0; bool_cases; [lia|]].
    + cbn [mbind option_bind]. eexists. split; [done|]. constructor; [|done]. rewrite Eq. by left.
    + destruct (lookup_lt_is_Some_2 (cpc_ q) (Z.to_nat k)) as [c Hc]; [lia|]. rewrite Hc.
      cbn [mbind option_bind]. eexists. split; [done|]. constructor; [|done]. rewrite Eq. right.
      by eapply list_elem_of_lookup_2.
  - rewrite filter_cons_False in HF by (rewrite Eq; by intros []).
    destruct (IH sol HF) as (bid & -> & Hbid). eexists. split; [done|].
    constructor; [|done]. by rewrite Eq.
Qed.

Lemma kp_run_valid W : ∀ V l c sol v,
  kp_run W V l c sol = Some v → Forall2 (λ Wi k, -1 ≤ k < Z.of_nat (length Wi)) W sol.
Proof.
  induction W as [|Wi W IH]; intros V l c [|k sol] v H; try done. simpl in H.
  destruct (k =? -1) eqn:E1; [bool_cases; constructor; [lia|by eapply IH]|].
  destruct (k <? 0) eqn:E2; [done|]. destruct (Wi !! Z.to_nat k) as [w|] eqn:Hw; [|done].
  destruct V as [|Vi V]; [done|]. simpl in H. destruct (Vi !! Z.to_nat k); [|done]. simpl in H.
  destruct (d_ge l w); [|done]. bool_cases. apply lookup_lt_Some in Hw.
  constructor; [lia|by eapply IH].
Qed.

Lemma row_of_ok f q :
  qs_shape q = true → ∃ row, row_of f q = Some row ∧ length row = length (cpc_ q).
Proof.
  intros Hsh. unfold qs_shape in Hsh. bool_cases. unfold row_of.
  match goal with |- ∃ _, foldM ?f ?b ?l = _ ∧ _ =>
    destruct (foldM_inv (λ pre (row : list double), length row = length pre) f l b) as (row & Hr & Hl) end.
  - done.
  - intros pre j row Hl (suf & Hsuf).
    assert (j ∈ seq 0 (length (cpc_ q))) as Hin%elem_of_seq by (rewrite Hsuf; set_solver).
    destruct (lookup_lt_is_Some_2 (cpc_ q) j) as [c ->]; [lia|].
    destruct (lookup_lt_is_Some_2 (ctr_ q) j) as [r ->]; [lia|].
    eexists. split; [done|]. rewrite !length_app. simpl. lia.
  - exists row. split; [done|]. by rewrite length_seq in Hl.
Qed.

Lemma rows_ok (f : AdQueryStatisticInfo → Z → double → double) qs :
  Forall (λ q, qs_shape q = true) qs →
  ∃ W, mapM (λ q, row_of (f q) q) qs = Some W ∧
    Forall2 (λ q Wi, length Wi = length (cpc_ q)) qs W.
Proof.
  induction 1 as [|q qs Hq Hqs (W & HW & HF)]; [by exists []|].
  destruct (row_of_ok (f q) q Hq) as (row & Hrow & Hl).
  exists (row :: W). simpl. rewrite Hrow. simpl. rewrite HW. split; [done|]. by constructor.
Qed.

Lemma rows_shape qs W V :
  Forall2 (λ q (Wi : list double), length Wi = length (cpc_ q)) qs W →
  Forall2 (λ q (Vi : list double), length Vi = length (cpc_ q)) qs V →
  kp_shape W V = true.
Proof.
  intros HW. revert V. induction HW as [|q Wi qs W Hq HW IH]; intros V HV; inversion HV; subst; [done|].
  specialize (IH _ H3). unfold kp_shape in *. simpl. bool_cases.
  rewrite H. apply andb_true_iff. split; [by apply Nat.eqb_eq|].
  apply andb_true_iff. split; [|done]. apply Nat.leb_le. lia.
Qed.

Lemma rows_found (f : AdQueryStatisticInfo → Z → double → double) qs W :
  Forall (λ q, qs_shape q = true) qs → mapM (λ q, row_of (f q) q) qs = Some W →
  Forall2 (λ a Wi, Z.of_nat (length Wi) = a) (map (λ q, Z.of_nat (length (cpc_ q))) qs) W.
Proof.
  intros Hsh HW. destruct (rows_ok f qs Hsh) as (W' & HW' & HF). assert (W' = W) as -> by congruence.
  clear -HF. induction HF as [|q Wi qs W Hq HF IH]; simpl; constructor; [by rewrite Hq|done].
Qed.

(** C14: The genetic search always returns an individual, and reads no vector
    out of range, whatever numbers [rand] gives in [0 .. RAND_MAX]: the
    individual converts to bids each of which is a position of its keyword,
    zero, or the predefined bid. For at least one free keyword (few enough
    that 300 times their number is an [int]), of at most 2^16 positions each,
    the rows of costs and values computed for them, values that are not
    negative, a budget that is not negative, and costs whose rounding errors,
    when they are taken off a sum in any order, stay within the budget
    ([clearable]): otherwise the loop that clears an individual over the
    budget may find nothing left to take off. *)
Theorem genetic_search_bids rand W V AvaiableBudget qsInfos :
  let free := filter is_free qsInfos in
  let adP := map (λ q, Z.of_nat (length (cpc_ q))) free in
  (∀ n, 0 ≤ rand n ≤ RAND_MAX) → free ≠ [] → 300 * Z.of_nat (length free) < 2 ^ 31 → 0 ≤ AvaiableBudget →
  Forall (λ q, qs_shape q = true ∧ Z.of_nat (length (cpc_ q)) ≤ 2 ^ 16) free →
  mapM cost_row free = Some W → mapM value_row free = Some V → Forall (Forall d_nonneg) V → clearable W adP AvaiableBudget →
  ∀ n, ∃ s bid n', genetic_search rand W V adP (length free) AvaiableBudget n = Some (Some s, n') ∧
    convertIndexToBid qsInfos s = Some bid ∧ Forall2 bid_choice qsInfos bid.
Proof.
  intros free adP Hrand Hne _ HA Hfree HW HV HVn Hclear n.
  assert (Forall (λ q, qs_shape q = true) free) as Hsh by (eapply Forall_impl; [exact Hfree|]; by intros q []).
  assert (0 < length free)%nat as Hl by (destruct free; [done|simpl; lia]).
  assert (Forall (λ a, 0 ≤ a ≤ 2 ^ 16) adP) as HadP.
  { apply Forall_map. eapply Forall_impl; [exact Hfree|]. intros q [_ Hq]. simpl. lia. }
  destruct (runs_genetic_search rand W V adP (length free) AvaiableBudget Hrand (length_map _ _) HadP Hl HA
    (rows_found _ free W Hsh HW) (rows_found _ free V Hsh HV) HVn Hclear n) as (sol & n' & E & s & -> & Hs).
  destruct (convertIndexToBid_ok qsInfos s) as (bid & Hbid & Hchoice); [|by exists s, bid, n'].
  by apply (Forall2_fmap_l (λ q, Z.of_nat (length (cpc_ q))) gene_ok) in Hs.
Qed.

(** C13: When the number of position vectors is below [MaxLoopNum],
    [geneticBid] charges the predefined bids, chooses an optimal vector of
    positions for the budget that is left, computes the bids of this choice
    and returns them as [checkGABid] leaves them, which raises bids to the
    minimum and replaces all of them when none is positive (so the bids
    returned need not be optimal themselves). No random number is drawn. *)
Theorem geneticBid_enumerates `{HashOrder} rand qsInfos budget A n :
  let free := filter is_free qsInfos in
  Forall (λ q, qs_shape q = true) free → free ≠ [] →
  foldM pay_predefined budget qsInfos = Some A → 0 < A →
  ∃ W V, mapM cost_row free = Some W ∧ mapM value_row free = Some V ∧
    (enumeration_size W 1 < MaxLoopNum →
     ∃ sol v bid, kp_run W V (d_of_Z A) d_zero sol = Some v ∧
       (∀ sol' v', kp_run W V (d_of_Z A) d_zero sol' = Some v' → d_lt v v' = false) ∧
       convertIndexToBid qsInfos sol = Some bid ∧ Forall2 bid_choice qsInfos bid ∧
       geneticBid rand qsInfos budget n = lift (checkGABid qsInfos budget bid) n).
Proof.
  intros free Hsh Hne HA HA0.
  destruct (rows_ok _ free Hsh : ∃ W, mapM cost_row free = Some W ∧ _) as (W & HW & HWl).
  destruct (rows_ok _ free Hsh : ∃ V, mapM value_row free = Some V ∧ _) as (V & HV & HVl).
  pose proof (rows_shape free W V HWl HVl) as Hkp.
  exists W, V. split_and!; [done|done|]. intros Hsize.
  destruct (enumKP_best W V A Hkp) as (sol & v & Hsol & _ & Hv & Hopt).
  assert (Forall2 index_ok free sol) as Hidx.
  { apply kp_run_valid in Hv. clear -Hv HWl. revert sol Hv.
    induction HWl as [|q Wi qs W Hq HW IH]; intros sol Hv; inversion_clear Hv; constructor; [|eauto].
    unfold index_ok. by rewrite <- Hq. }
  destruct (convertIndexToBid_ok qsInfos sol Hidx) as (bid & Hbid & Hchoice).
  exists sol, v, bid. split_and!; try done.
  unfold geneticBid. fold free. rewrite HA, bind_lift.
  assert (length free ≠ 0%nat) as Hl by (by destruct free).
  rewrite (proj2 (Nat.eqb_neq _ _) Hl), (proj2 (Z.leb_gt A 0)) by lia. cbn [orb].
  rewrite HW, bind_lift, HV, bind_lift.
  unfold choose_positions. rewrite (proj2 (Z.ltb_lt _ _) Hsize), Hsol.
  unfold mbind, RM_bind, lift, mret, RM_ret. by rewrite Hbid.
Qed.

(** [checkGABid] raises every positive bid to the minimum of its keyword
    and keeps the others; when no bid is positive it replaces all of them by
    one bid, not below the minimum of the first keyword. *)
Theorem checkGABid_minimum `{HashOrder} q qs budget bid :
  length bid = length (q :: qs) →
  (existsb (Z.ltb 0) bid = true → ∃ bid', checkGABid (q :: qs) budget bid = Some bid' ∧
     length bid' = length bid ∧
     ∀ i b qi, bid !! i = Some b → (q :: qs) !! i = Some qi →
       bid' !! i = Some (if 0 <? b then Z.max b (minBid_ qi) else b)) ∧
  (existsb (Z.ltb 0) bid = false → ∀ bid', checkGABid (q :: qs) budget bid = Some bid' →
     ∃ lastBid, bid' = replicate (length bid) lastBid ∧ minBid_ q ≤ lastBid).
Proof.
  intros Hl. unfold checkGABid. split; intros ->.
  - rewrite (proj2 (Nat.ltb_ge _ _)) by lia. eexists. split; [done|].
    split; [rewrite length_zip_with; lia|]. intros i b qi Hb Hq.
    apply lookup_zip_with_Some. exists b, qi. split; [|done].
    destruct (0 <? b) eqn:E0; simpl; [|done]. destruct (b <? minBid_ qi) eqn:E1; bool_cases; lia.
  - cbn [head mbind option_bind]. intros bid'. destruct (convexUniformBid _ _); [|done].
    cbn [mbind option_bind]. destruct (expected_bid _) as [b|]; [|done]. cbn [mbind option_bind].
    intros [= <-]. exists (Z.max b (minBid_ q)). split; [|lia].
    clear. induction bid as [|x bid IH]; simpl; [done|]. by f_equal.
Qed.

(** *** Witnesses *)

Definition sample_rand (n : nat) : Z := (Z.of_nat n * 7919) `mod` 101.

Definition keywords_sample : list AdQueryStatisticInfo :=
  landscape_sample ++ [QSInfo [200; 100; 60] [d_lit 6 2; d_lit 3 2; d_lit 2 2] 500 10 100].

Definition rows_sample (row : AdQueryStatisticInfo → option (list double)) : list (list double) :=
  default [] (mapM row (filter is_free keywords_sample)).

(** The individuals of small vectors, to check [clearable] by running it. *)
Fixpoint individuals (adP : list Z) : list (list Z) :=
  match adP with
  | [] => [[]]
  | a :: adP => flat_map (λ g, map (cons g) (individuals adP)) (seqZ (-1) (a + 1))
  end.

Lemma individuals_all adP ind : Forall2 gene_ok adP ind → ind ∈ individuals adP.
Proof.
  induction 1 as [|a g adP ind Hg HF IH]; [by left|]. cbn [individuals]. apply list_elem_of_In, in_flat_map. exists g. split.
  - apply list_elem_of_In, elem_of_seqZ. unfold gene_ok in Hg. lia.
  - apply in_map. by apply list_elem_of_In.
Qed.

Definition clearable_b (W : list (list double)) (adP : list Z) (AvaiableBudget : Z) : bool :=
  forallb (λ ind, match gene_sum W ind with
    | Some t => forallb (λ l, negb (d_gt (fold_left (spend W) l t) (d_of_Z AvaiableBudget))) (permutations (selected ind))
    | None => true
    end) (individuals adP).

Lemma clearable_b_ok W adP AvaiableBudget : clearable_b W adP AvaiableBudget = true → clearable W adP AvaiableBudget.
Proof.
  intros Hb ind t l Hind Ht Hl. pose proof (proj1 (forallb_forall _ _) Hb ind) as Hi. cbv beta in Hi. rewrite Ht in Hi.
  specialize (Hi (proj1 (list_elem_of_In _ _) (individuals_all adP ind Hind))). pose proof (proj1 (forallb_forall _ _) Hi l) as Hp.
  apply negb_true_iff, Hp, list_elem_of_In. by apply permutations_Permutation.
Qed.

(** A budget that few choices fit into. *)
Lemma genetic_search_bids_witness : ∃ s bid n',
  let free := filter is_free keywords_sample in
  genetic_search sample_rand (rows_sample cost_row) (rows_sample value_row) (map (λ q, Z.of_nat (length (cpc_ q))) free) (length free) 100 0%nat = Some (Some s, n') ∧
  convertIndexToBid keywords_sample s = Some bid ∧ Forall2 bid_choice keywords_sample bid.
Proof.
  destruct (genetic_search_bids sample_rand (rows_sample cost_row) (rows_sample value_row) 100 keywords_sample) with (n := 0%nat) as (s & bid & n' & E & Hbid & Hch).
  - intros n. unfold sample_rand. pose proof (Z.mod_pos_bound (Z.of_nat n * 7919) 101 eq_refl). unfold RAND_MAX. lia.
  - vm_compute. discriminate.
  - vm_compute. reflexivity.
  - lia.
  - repeat constructor; vm_compute; discriminate.
  - vm_compute. reflexivity.
  - vm_compute. reflexivity.
  - apply (bool_decide_unpack _). vm_compute. reflexivity.
  - apply clearable_b_ok. vm_compute. reflexivity.
  - exists s, bid, n'. exact (conj E (conj Hbid Hch)).
Defined.

Lemma geneticBid_witness :
  geneticBid sample_rand keywords_sample 9000 0%nat = Some ([120; 100; 100], 0%nat) ∧
  ∃ W V, mapM cost_row (filter is_free keywords_sample) = Some W ∧
    mapM value_row (filter is_free keywords_sample) = Some V.
Proof.
  split; [vm_compute; reflexivity|].
  destruct (geneticBid_enumerates sample_rand keywords_sample 9000 7500 0%nat)
    as (W & V & HW & HV & _).
  - repeat constructor.
  - vm_compute. discriminate.
  - vm_compute. reflexivity.
  - lia.
  - exists W, V. exact (conj HW HV).
Defined.

Lemma checkGABid_witness :
  checkGABid landscape_sample 9000 [5; 0] = Some [10; 0] ∧
  ∃ bid', checkGABid landscape_sample 9000 [5; 0] = Some bid' ∧ length bid' = 2%nat.
Proof.
  split; [vm_compute; reflexivity|].
  destruct (checkGABid_minimum (hd (QSInfo [] [] 0 0 0) landscape_sample)
    (tl landscape_sample) 9000 [5; 0]) as [H _].
  - reflexivity.
  - destruct H as (bid' & H1 & H2 & _); [reflexivity|]. exists bid'. exact (conj H1 H2).
Defined.
