(* ===== verification/PropIdTable.v ===== *)
(** * Value ids of the documents ([mining-manager/group-manager/PropIdTable.h])

    A table from documents to lists of value ids that stores a single id in the
    index itself and longer lists, with their length, in a shared vector.  The
    template is instantiated as [PropValueTable] does: 32-bit ids and indices.
    [setIdList] and [getIdList] are proved to be the writes and reads of a map
    from documents to lists. *)
From S2P Require Import Prelude CNum.

(** ** Data *)

Record PropIdTable := IdTable {
  indexTable_ : list Z;
  multiValueTable_ : list Z }.

(** The list a reader gets: [multiValueIter_] is a position in
    [multiValueTable_], meaningful only for two values or more. *)
Record PropIdList := IdList {
  size_ : Z;
  singleValueId_ : Z;
  multiValueIter_ : nat }.

Definition INDEX_MSB : Z := Z.shiftl 1 31.
Definition INDEX_MASK : Z := u32 (Z.lnot INDEX_MSB).

Definition id_table_new : PropIdTable := IdTable [0] [].

(** [std::vector::resize] with zeros. *)
Definition id_resize (n : nat) (v : list Z) : list Z := take n v ++ replicate (n - length v) 0.

Definition id_table_clear (t : PropIdTable) : PropIdTable := IdTable (id_resize 1 (indexTable_ t)) [].

Definition id_table_resize (num : nat) (t : PropIdTable) : PropIdTable :=
  IdTable (id_resize num (indexTable_ t)) (multiValueTable_ t).

(** ** Reading *)

Definition list_size (l : PropIdList) : Z := size_ l.

(** [operator[]] *)
Definition list_at (t : PropIdTable) (l : PropIdList) (i : nat) : option Z :=
  if size_ l <=? Z.of_nat i then Some 0
  else if size_ l =? 1 then Some (singleValueId_ l)
  else multiValueTable_ t !! (multiValueIter_ l + i)%nat.

(** [None] is a read out of range. *)
Definition getIdList (t : PropIdTable) (docId : nat) : option PropIdList :=
  let empty := IdList 0 0 0 in
  match indexTable_ t !! docId with
  | None => Some empty
  | Some index =>
      if negb (Z.land index INDEX_MSB =? 0) then
        let it := Z.to_nat (Z.land index INDEX_MASK) in
        n ← multiValueTable_ t !! it;
        Some (IdList n 0 (S it))
      else if negb (index =? 0) then Some (IdList 1 index 0)
      else Some empty
  end.

Definition getIdCount (t : PropIdTable) (docId : nat) : option Z :=
  match indexTable_ t !! docId with
  | None => Some 0
  | Some index =>
      if negb (Z.land index INDEX_MSB =? 0) then multiValueTable_ t !! Z.to_nat (Z.land index INDEX_MASK)
      else Some (if negb (index =? 0) then 1 else 0)
  end.

(** ** Writing *)

(** The boolean is [false] when [MiningException] is thrown; what was done
    before stays done.  [docId + 1] is computed on 32 bits. *)
Definition setIdList (docId : nat) (ids : list Z) (t : PropIdTable) : option (PropIdTable * bool) :=
  let t := if (length (indexTable_ t) <=? docId)%nat
           then id_table_resize (Z.to_nat (u32 (Z.of_nat docId + 1))) t else t in
  _ ← indexTable_ t !! docId;
  match ids with
  | [] => Some (IdTable (<[docId := 0]> (indexTable_ t)) (multiValueTable_ t), true)
  | [inputId] =>
      if INDEX_MSB <=? inputId then Some (t, false)
      else Some (IdTable (<[docId := inputId]> (indexTable_ t)) (multiValueTable_ t), true)
  | _ =>
      let valueTableSize := Z.of_nat (length (multiValueTable_ t)) in
      if INDEX_MSB <=? valueTableSize then Some (t, false)
      else Some (IdTable (<[docId := u32 (Z.lor INDEX_MSB valueTableSize)]> (indexTable_ t))
                   (multiValueTable_ t ++ [u32 (Z.of_nat (length ids))] ++ ids), true)
  end.

(** ** The map the table stands for *)

(** The ids read through [size] and [operator[]]. *)
Definition ids_of (t : PropIdTable) (docId : nat) : option (list Z) :=
  l ← getIdList t docId;
  mapM (list_at t l) (seq 0 (Z.to_nat (list_size l))).

(** An index is a single id or points to a stored list inside the vector. *)
Definition index_ok (multi : list Z) (index : Z) : Prop :=
  0 ≤ index < INDEX_MSB ∨
  ∃ pos n, index = INDEX_MSB + Z.of_nat pos ∧ Z.of_nat pos < INDEX_MSB ∧
    multi !! pos = Some (Z.of_nat n) ∧ (2 ≤ n)%nat ∧ (pos + n < length multi)%nat.

Definition id_table_ok (t : PropIdTable) : Prop := Forall (index_ok (multiValueTable_ t)) (indexTable_ t).

Lemma INDEX_MSB_eq : INDEX_MSB = 2 ^ 31.
Proof. reflexivity. Qed.

Lemma msb_low index : 0 ≤ index < INDEX_MSB → Z.land index INDEX_MSB = 0.
Proof.
  rewrite INDEX_MSB_eq. intros H. apply Z.bits_inj'. intros n Hn.
  rewrite Z.land_spec, Z.bits_0, Z.pow2_bits_eqb by lia.
  destruct (Z.eqb_spec 31 n) as [<-|]; [|apply andb_false_r].
  destruct (Z.eq_dec index 0) as [->|]; [by rewrite Z.bits_0|].
  rewrite Z.bits_above_log2; [done|lia|]. apply Z.log2_lt_pow2; lia.
Qed.

Lemma msb_high pos : 0 ≤ pos < INDEX_MSB →
  Z.land (INDEX_MSB + pos) INDEX_MSB = INDEX_MSB ∧ Z.land (INDEX_MSB + pos) INDEX_MASK = pos ∧
  u32 (Z.lor INDEX_MSB pos) = INDEX_MSB + pos.
Proof.
  intros H. pose proof (msb_low pos H) as Hl.
  assert (INDEX_MSB + pos = Z.lor INDEX_MSB pos) as ->.
  { rewrite <- Z.lxor_lor, Z.add_nocarry_lxor; [done| |]; by rewrite Z.land_comm. }
  split_and!.
  - by rewrite Z.land_lor_distr_l, Hl, Z.land_diag, Z.lor_0_r.
  - rewrite Z.land_lor_distr_l. change INDEX_MASK with (Z.ones 31).
    change (Z.land INDEX_MSB (Z.ones 31)) with 0. rewrite Z.lor_0_l, Z.land_ones by lia.
    apply Z.mod_small. by rewrite INDEX_MSB_eq in H.
  - unfold u32. rewrite Z.mod_small; [done|].
    rewrite <- Z.lxor_lor, <- Z.add_nocarry_lxor; rewrite ?INDEX_MSB_eq in *; [lia| |];
      by rewrite Z.land_comm.
Qed.

(** ** Reads and writes *)

Lemma ids_of_single t docId index :
  indexTable_ t !! docId = Some index → 0 ≤ index < INDEX_MSB →
  ids_of t docId = Some (if index =? 0 then [] else [index]) ∧
  getIdCount t docId = Some (if index =? 0 then 0 else 1).
Proof.
  intros Hi Hr. unfold ids_of, getIdList, getIdCount. rewrite Hi, msb_low by done. simpl.
  by destruct (index =? 0).
Qed.

Lemma ids_of_multi t docId pos ids :
  indexTable_ t !! docId = Some (INDEX_MSB + Z.of_nat pos) → Z.of_nat pos < INDEX_MSB →
  multiValueTable_ t !! pos = Some (Z.of_nat (length ids)) → (2 ≤ length ids)%nat →
  (∀ i, (i < length ids)%nat → multiValueTable_ t !! (S pos + i)%nat = ids !! i) →
  ids_of t docId = Some ids ∧ getIdCount t docId = Some (Z.of_nat (length ids)).
Proof.
  intros Hi Hp Hn Hl Hids. destruct (msb_high (Z.of_nat pos)) as (H1 & H2 & _); [lia|].
  unfold ids_of, getIdList, getIdCount. rewrite Hi, H1, H2, Nat2Z.id, Hn.
  change (negb (INDEX_MSB =? 0)) with true. cbn [mbind option_bind]. split; [|done].
  unfold list_size. simpl size_. rewrite Nat2Z.id. apply mapM_Some.
  apply Forall2_lookup. intros i.
  destruct (decide (i < length ids)%nat) as [Hlt|Hge].
  - rewrite lookup_seq_lt by done. destruct (lookup_lt_is_Some_2 ids i Hlt) as [x Hx]. rewrite Hx.
    constructor. unfold list_at. simpl size_. rewrite Nat.add_0_l.
    rewrite (proj2 (Z.leb_gt _ _)) by lia. rewrite (proj2 (Z.eqb_neq _ _)) by lia.
    simpl multiValueIter_. by rewrite Hids.
  - rewrite lookup_seq_ge by lia. rewrite lookup_ge_None_2 by lia. constructor.
Qed.

Lemma index_ok_app multi more index : index_ok multi index → index_ok (multi ++ more) index.
Proof.
  intros [H|(pos & n & -> & Hp & Hn & Hn2 & Hl)]; [by left|]. right. exists pos, n.
  split_and!; try done; [by apply lookup_app_l_Some|]. rewrite length_app. lia.
Qed.

(** The ids of a document are determined by its index and the list it points to. *)
Lemma ids_of_ok t docId index :
  indexTable_ t !! docId = Some index → index_ok (multiValueTable_ t) index →
  ∃ ids, ids_of t docId = Some ids ∧ getIdCount t docId = Some (Z.of_nat (length ids)) ∧
  ∀ t' docId' more, indexTable_ t' !! docId' = Some index →
    multiValueTable_ t' = multiValueTable_ t ++ more → ids_of t' docId' = Some ids.
Proof.
  intros Hi [Hr|(pos & n & -> & Hp & Hn & Hn2 & Hl)].
  - exists (if index =? 0 then [] else [index]).
    destruct (ids_of_single t docId index Hi Hr) as [H1 H2]. split_and!; [done| |].
    + rewrite H2. by destruct (index =? 0).
    + intros t' docId' more Hi' _. by destruct (ids_of_single t' docId' index Hi' Hr).
  - assert (∀ t' docId' more, indexTable_ t' !! docId' = Some (INDEX_MSB + Z.of_nat pos) →
      multiValueTable_ t' = multiValueTable_ t ++ more →
      ids_of t' docId' = Some (take n (drop (S pos) (multiValueTable_ t))) ∧
      getIdCount t' docId' = Some (Z.of_nat (length (take n (drop (S pos) (multiValueTable_ t)))))) as H.
    { intros t' docId' more Hi' Hm.
      assert (length (take n (drop (S pos) (multiValueTable_ t))) = n) as Hlen
        by (rewrite length_take, length_drop; lia).
      apply (ids_of_multi _ _ pos); [done|done| |by rewrite Hlen|].
      - rewrite Hm, Hlen. by apply lookup_app_l_Some.
      - intros i Hlt. rewrite Hlen in Hlt. rewrite Hm, lookup_app_l by lia.
        by rewrite lookup_take_lt, lookup_drop by lia. }
    exists (take n (drop (S pos) (multiValueTable_ t))).
    destruct (H t docId []) as [H1 H2]; [done|by rewrite app_nil_r|].
    split_and!; [done|done|]. intros t' docId' more Hi' Hm. by destruct (H t' docId' more Hi' Hm).
Qed.

Lemma ids_of_none t d : indexTable_ t !! d = None → ids_of t d = Some [].
Proof. unfold ids_of, getIdList. by intros ->. Qed.

Lemma ids_of_grow t n :
  (length (indexTable_ t) ≤ n)%nat →
  (∀ d, ids_of (id_table_resize n t) d = ids_of t d) ∧
  length (indexTable_ (id_table_resize n t)) = n ∧
  (id_table_ok t → id_table_ok (id_table_resize n t)).
Proof.
  intros Hn. unfold id_table_resize, id_resize, id_table_ok. simpl. rewrite take_ge by done. split_and!.
  - intros d. destruct (indexTable_ t !! d) as [index|] eqn:E.
    + unfold ids_of, getIdList. simpl. by rewrite (lookup_app_l_Some _ _ _ _ E), E.
    + rewrite (ids_of_none _ _ E).
      destruct ((indexTable_ t ++ replicate (n - length (indexTable_ t)) 0) !! d) as [index|] eqn:E2.
      * apply lookup_ge_None in E. rewrite lookup_app_r in E2 by done.
        apply lookup_replicate in E2 as [-> Hlt]. unfold ids_of, getIdList. simpl.
        rewrite lookup_app_r by done. by rewrite lookup_replicate_2.
      * by apply ids_of_none.
  - rewrite length_app, length_replicate. lia.
  - intros H. apply Forall_app. split; [done|]. apply Forall_replicate. left. rewrite INDEX_MSB_eq. lia.
Qed.

(** Writing one index, and appending a list. *)
Lemma ids_of_write t docId index more :
  id_table_ok t → (docId < length (indexTable_ t))%nat →
  index_ok (multiValueTable_ t ++ more) index →
  let t' := IdTable (<[docId := index]> (indexTable_ t)) (multiValueTable_ t ++ more) in
  id_table_ok t' ∧ ∀ d, d ≠ docId → ids_of t' d = ids_of t d.
Proof.
  intros Hok Hd Hi t'. unfold id_table_ok in *. split.
  - simpl. apply Forall_insert; [|done]. eapply Forall_impl; [exact Hok|]. intros x. apply index_ok_app.
  - intros d Hne. destruct (indexTable_ t !! d) as [x|] eqn:E.
    + rewrite Forall_lookup in Hok. destruct (ids_of_ok t d x E (Hok d x E)) as (ids & H1 & _ & H2).
      rewrite H1. apply (H2 t' d more); [|done]. simpl. by rewrite list_lookup_insert_ne.
    + rewrite (ids_of_none _ _ E). apply ids_of_none. simpl. by rewrite list_lookup_insert_ne.
Qed.

Lemma getIdCount_ok t d : id_table_ok t → getIdCount t d = Z.of_nat <$> (length <$> ids_of t d).
Proof.
  intros Ht. destruct (indexTable_ t !! d) as [x|] eqn:E.
  - unfold id_table_ok in Ht. rewrite Forall_lookup in Ht.
    destruct (ids_of_ok t d x E (Ht d x E)) as (l & -> & -> & _). done.
  - rewrite (ids_of_none _ _ E). unfold getIdCount. by rewrite E.
Qed.

Lemma ids_of_total t d : id_table_ok t → ∃ ids, ids_of t d = Some ids.
Proof.
  intros Ht. destruct (indexTable_ t !! d) as [x|] eqn:E; [|exists []; by apply ids_of_none].
  unfold id_table_ok in Ht. rewrite Forall_lookup in Ht. destruct (ids_of_ok t d x E (Ht d x E)) as (ids & -> & _). by exists ids.
Qed.

Lemma getIdList_count tab d l : getIdList tab d = Some l → getIdCount tab d = Some (list_size l).
Proof.
  unfold getIdList, getIdCount, list_size. destruct (indexTable_ tab !! d) as [index|]; [|by intros [= <-]].
  destruct (negb (Z.land index INDEX_MSB =? 0)).
  - destruct (multiValueTable_ tab !! _) as [n|]; cbn [mbind option_bind]; intros E; by inversion E.
  - destruct (negb (index =? 0)); by intros [= <-].
Qed.

(** A reader that takes the list of a document and walks over it. *)
Lemma ids_of_list t d ids : id_table_ok t → ids_of t d = Some ids →
  ∃ l, getIdList t d = Some l ∧ list_size l = Z.of_nat (length ids) ∧
  mapM (list_at t l) (seq 0 (Z.to_nat (list_size l))) = Some ids.
Proof.
  intros Hok Hd. pose proof (getIdCount_ok t d Hok) as Hcount. rewrite Hd in Hcount. simpl in Hcount.
  unfold ids_of in Hd. destruct (getIdList t d) as [l|] eqn:El; [|done]. cbn [mbind option_bind] in Hd.
  rewrite (getIdList_count _ _ _ El) in Hcount. injection Hcount as Hcount. by exists l.
Qed.

(** The table that [setIdList] writes to reaches the document. *)
Lemma grow_for_ok t docId :
  id_table_ok t → Z.of_nat docId + 1 < 2 ^ 32 →
  let t1 := if (length (indexTable_ t) <=? docId)%nat
            then id_table_resize (Z.to_nat (u32 (Z.of_nat docId + 1))) t else t in
  id_table_ok t1 ∧ (∀ d, ids_of t1 d = ids_of t d) ∧ (docId < length (indexTable_ t1))%nat ∧
  multiValueTable_ t1 = multiValueTable_ t.
Proof.
  intros Hok Hdoc. cbv zeta. rewrite u32_small by lia.
  destruct (length (indexTable_ t) <=? docId)%nat eqn:E; bool_cases; [|by split_and!].
  destruct (ids_of_grow t (Z.to_nat (Z.of_nat docId + 1))) as (H1 & H2 & H3); [lia|].
  split_and!; [by apply H3|done|lia|done].
Qed.

(** The two kinds of writes. *)
Lemma write_single_ok t docId x :
  id_table_ok t → (docId < length (indexTable_ t))%nat → 0 ≤ x < INDEX_MSB →
  let t' := IdTable (<[docId := x]> (indexTable_ t)) (multiValueTable_ t) in
  id_table_ok t' ∧ ids_of t' docId = Some (if x =? 0 then [] else [x]) ∧ ∀ d, d ≠ docId → ids_of t' d = ids_of t d.
Proof.
  intros Hok Hd Hx t'. destruct (ids_of_write t docId x []) as [H1 H2]; [done|done|by left|].
  rewrite app_nil_r in H1, H2. split_and!; [done| |done].
  apply (ids_of_single _ docId x); [by apply list_lookup_insert_eq|done].
Qed.

Lemma write_list_ok t docId l :
  id_table_ok t → (docId < length (indexTable_ t))%nat → (2 ≤ length l)%nat →
  Z.of_nat (length (multiValueTable_ t)) < INDEX_MSB → 
  let t' := IdTable (<[docId := INDEX_MSB + Z.of_nat (length (multiValueTable_ t))]> (indexTable_ t))
              (multiValueTable_ t ++ [Z.of_nat (length l)] ++ l) in
  id_table_ok t' ∧ ids_of t' docId = Some l ∧ ∀ d, d ≠ docId → ids_of t' d = ids_of t d.
Proof.
  intros Hok Hd Hl Hsize t'.
  assert ((multiValueTable_ t ++ [Z.of_nat (length l)] ++ l) !! length (multiValueTable_ t) =
    Some (Z.of_nat (length l))) as Hn by (by apply list_lookup_middle).
  destruct (ids_of_write t docId (INDEX_MSB + Z.of_nat (length (multiValueTable_ t)))
    ([Z.of_nat (length l)] ++ l)) as [H1 H2]; [done|done| |].
  { right. exists (length (multiValueTable_ t)), (length l). split_and!; [done|done|done|done|].
    rewrite !length_app. simpl. lia. }
  split_and!; [done| |done].
  apply (ids_of_multi _ docId (length (multiValueTable_ t))); simpl indexTable_; simpl multiValueTable_;
    [by apply list_lookup_insert_eq|done|done|done|].
  intros i Hi. rewrite lookup_app_r by lia.
  replace (S (length (multiValueTable_ t)) + i - length (multiValueTable_ t))%nat with (S i) by lia. done.
Qed.

(** A single id of zero cannot be told from no id. *)
Definition stored (ids : list Z) : list Z := match ids with [x] => if x =? 0 then [] else ids | _ => ids end.

(** What [setIdList] refuses. *)
Definition id_overflow (ids : list Z) (t : PropIdTable) : bool :=
  match ids with
  | [] => false
  | [x] => INDEX_MSB <=? x
  | _ => INDEX_MSB <=? Z.of_nat (length (multiValueTable_ t))
  end.

(** What every document reads after a list is set. *)
Lemma setIdList_ok t docId ids :
  id_table_ok t → Z.of_nat docId + 1 < 2 ^ 32 → Z.of_nat (length ids) < 2 ^ 32 → Forall (λ x, 0 ≤ x) ids →
  ∃ t', setIdList docId ids t = Some (t', negb (id_overflow ids t)) ∧ id_table_ok t' ∧
  ∀ d, ids_of t' d = (if (d =? docId)%nat && negb (id_overflow ids t) then Some (stored ids) else ids_of t d) ∧
       getIdCount t' d = Z.of_nat <$> (length <$> ids_of t' d).
Proof.
  intros Hok Hdoc Hlen Hids. unfold setIdList.
  destruct (grow_for_ok t docId Hok Hdoc) as (Hok1 & Hsame & Hin & Hm).
  set (t1 := if (length (indexTable_ t) <=? docId)%nat then _ else t) in *. clearbody t1.
  destruct (lookup_lt_is_Some_2 _ _ Hin) as [old Hold]. rewrite Hold. cbn [mbind option_bind].
  assert (id_overflow ids t = id_overflow ids t1) as -> by (unfold id_overflow; by rewrite Hm). clear Hm.
  assert (∀ t' l, id_table_ok t' ∧ ids_of t' docId = Some l ∧ (∀ d, d ≠ docId → ids_of t' d = ids_of t1 d) →
    id_table_ok t' ∧ ∀ d, ids_of t' d = (if (d =? docId)%nat && true then Some l else ids_of t d) ∧
      getIdCount t' d = Z.of_nat <$> (length <$> ids_of t' d)) as Hfin.
  { intros t' l (Ht' & Hl & Hoth). split; [done|]. intros d. split; [|by apply getIdCount_ok]. rewrite andb_true_r.
    destruct (Nat.eqb_spec d docId) as [->|Hne]; [done|]. by rewrite Hoth, Hsame. }
  assert (∀ d, ids_of t1 d = (if (d =? docId)%nat && false then Some (stored ids) else ids_of t d) ∧
      getIdCount t1 d = Z.of_nat <$> (length <$> ids_of t1 d)) as Hrefuse.
  { intros d. rewrite andb_false_r. split; [done|by apply getIdCount_ok]. }
  destruct ids as [|x [|y ids]].
  - eexists. split; [done|]. apply Hfin. apply (write_single_ok t1 docId 0); [done..|]. rewrite INDEX_MSB_eq. lia.
  - inversion_clear Hids as [|?? Hx _]. simpl. destruct (INDEX_MSB <=? x) eqn:Ex; bool_cases; [by exists t1|].
    eexists. split; [done|]. apply Hfin. by apply write_single_ok.
  - simpl id_overflow. destruct (INDEX_MSB <=? Z.of_nat (length (multiValueTable_ t1))) eqn:Ev; bool_cases; [by exists t1|].
    destruct (msb_high (Z.of_nat (length (multiValueTable_ t1)))) as (_ & _ & ->); [lia|].
    rewrite (u32_small (Z.of_nat (length (x :: y :: ids)))) by lia.
    eexists. split; [done|]. apply Hfin. apply write_list_ok; [done..|simpl; lia|done].
Qed.

(** [setIdList] writes the document's list and no other: [getIdList] of
    that document reads the ids back (a single id of zero as none), every
    other document reads what it read before; ids and lists beyond the 31-bit
    range are refused and change no document. *)
Theorem setIdList_reads t docId ids :
  id_table_ok t → Z.of_nat docId + 1 < 2 ^ 32 → Z.of_nat (length ids) < 2 ^ 32 → Forall (λ x, 0 ≤ x) ids →
  ∃ t', setIdList docId ids t = Some (t', negb (id_overflow ids t)) ∧ id_table_ok t' ∧
  ∀ d, ids_of t' d = (if (d =? docId)%nat && negb (id_overflow ids t) then Some (stored ids) else ids_of t d) ∧
       getIdCount t' d = Z.of_nat <$> (length <$> ids_of t' d).
Proof. apply setIdList_ok. Qed.

(** ** Witness *)

Definition small_table : PropIdTable := IdTable [0; 7; INDEX_MSB] [2; 5; 6].

Lemma small_table_ok : id_table_ok small_table.
Proof.
  unfold id_table_ok. apply Forall_cons; split; [left; rewrite INDEX_MSB_eq; lia|].
  apply Forall_cons; split; [left; rewrite INDEX_MSB_eq; lia|]. apply Forall_singleton.
  right. exists 0%nat, 2%nat. split_and!; simpl; rewrite ?INDEX_MSB_eq; try lia; done.
Qed.

Lemma setIdList_reads_witness :
  id_table_ok small_table ∧
  ∃ t', setIdList 4 [8; 9; 10] small_table = Some (t', true) ∧
        ids_of t' 4 = Some [8; 9; 10] ∧ ids_of t' 2 = Some [5; 6] ∧ ids_of t' 3 = Some [].
Proof.
  split; [exact small_table_ok|].
  destruct (setIdList_reads small_table 4 [8; 9; 10]) as (t' & E & _ & H);
    [exact small_table_ok|simpl; lia|simpl; lia|repeat constructor; lia|].
  exists t'. split_and!; [exact E|by rewrite (proj1 (H 4%nat))|by rewrite (proj1 (H 2%nat))|by rewrite (proj1 (H 3%nat))].
Defined.
