(* ===== verification/PropValueTable.v ===== *)
(** * Property values ([mining-manager/group-manager/PropValueTable.h, .cpp])

    The values of a property form a forest: each id has a string and a parent,
    and a map from strings to children.  Documents are given ids; a document
    belongs to a label when the label is one of its values or an ancestor of
    one.  The theorems show that paths and ids are inverse to each other, that
    every walk towards the root ends, and that the label test is a prefix test
    on paths.

    [UString] is a type outside [src/]: [U], with the decidable order that
    [std::map] needs and the empty string.  The files of [open] are given as
    the vectors read from them, [None] for a read that fails. *)
From S2P Require Import Prelude CNum PropIdTable.

Section table.
Context {U : Type} `{Countable U} (u_empty : U).

(** ** Data *)

Record PropValueTable := ValueTable {
  propStrVec_ : list U;
  parentIdVec_ : list Z;
  childMapTable_ : list (gmap U Z);
  valueIdTable_ : PropIdTable }.

Definition table_new : PropValueTable := ValueTable [u_empty] [0] [∅] id_table_new.

(** Vectors indexed by a [pvid_t]. *)
Definition vat {A} (v : list A) (id : Z) : option A := if id <? 0 then None else v !! Z.to_nat id.

Definition table_resize (num : nat) (t : PropValueTable) : PropValueTable :=
  ValueTable (propStrVec_ t) (parentIdVec_ t) (childMapTable_ t) (id_table_resize num (valueIdTable_ t)).

(** [clear] *)
Definition table_clear (t : PropValueTable) : PropValueTable :=
  ValueTable (take 1 (propStrVec_ t) ++ replicate (1 - length (propStrVec_ t)) u_empty)
    (id_resize 1 (parentIdVec_ t)) [∅] (id_table_clear (valueIdTable_ t)).

Definition setPropIdList (docId : nat) (ids : list Z) (t : PropValueTable) : option (PropValueTable * bool) :=
  '(tab, ok) ← setIdList docId ids (valueIdTable_ t);
  Some (ValueTable (propStrVec_ t) (parentIdVec_ t) (childMapTable_ t) tab, ok).

Definition propValueStr (t : PropValueTable) (pvId : Z) : option U := vat (propStrVec_ t) pvId.

(** ** Paths to ids *)

(** A new value below [parentId], with the number [pvId]. *)
Definition add_value (node : U) (parentId pvId : Z) (t : PropValueTable) : PropValueTable :=
  ValueTable (propStrVec_ t ++ [node]) (parentIdVec_ t ++ [parentId])
    (alter (<[node := pvId]>) (Z.to_nat parentId) (childMapTable_ t) ++ [∅])
    (valueIdTable_ t).

(** The loop of [insertPropValueId]; without an id, [MiningException] was
    thrown, and the nodes already inserted stay. *)
Fixpoint insert_loop (pvId : Z) (path : list U) (t : PropValueTable) : option (PropValueTable * option Z) :=
  match path with
  | [] => Some (t, Some pvId)
  | pathNode :: path =>
      propStrMap ← vat (childMapTable_ t) pvId;
      match propStrMap !! pathNode with
      | Some id => insert_loop id path t
      | None =>
          let id := u32 (Z.of_nat (length (propStrVec_ t))) in
          if negb (id =? 0) then insert_loop id path (add_value pathNode pvId id t)
          else Some (t, None)
      end
  end.

Definition insertPropValueId (path : list U) (t : PropValueTable) : option (PropValueTable * option Z) :=
  insert_loop 0 path t.

Fixpoint find_loop (pvId : Z) (path : list U) (t : PropValueTable) : option Z :=
  match path with
  | [] => Some pvId
  | pathNode :: path =>
      propStrMap ← vat (childMapTable_ t) pvId;
      match propStrMap !! pathNode with
      | Some id => find_loop id path t
      | None => Some 0
      end
  end.

Definition propValueId (path : list U) (t : PropValueTable) : option Z := find_loop 0 path t.

(** ** Ids to paths: loops towards the root, [fuel] bounding the depth *)

Fixpoint path_loop (fuel : nat) (t : PropValueTable) (pvId : Z) (path : list U) : option (list U) :=
  if pvId =? 0 then Some path else
  match fuel with
  | O => None
  | S fuel =>
      s ← vat (propStrVec_ t) pvId;
      parent ← vat (parentIdVec_ t) pvId;
      path_loop fuel t parent (path ++ [s])
  end.

(** [path] is the caller's vector: the walk appends to it, and all of it is
    reversed. *)
Definition propValuePath (fuel : nat) (t : PropValueTable) (pvId : Z) (path : list U) : option (list U) :=
  path ← path_loop fuel t pvId path; Some (reverse path).

Fixpoint parents_loop (fuel : nat) (t : PropValueTable) (pvId : Z) (parentIds : list Z) : option (list Z) :=
  if pvId =? 0 then Some parentIds else
  match fuel with
  | O => None
  | S fuel =>
      parent ← vat (parentIdVec_ t) pvId;
      parents_loop fuel t parent (parentIds ++ [pvId])
  end.

Definition getParentIds (fuel : nat) (t : PropValueTable) (pvId : Z) : option (list Z) :=
  parents_loop fuel t pvId [].

Fixpoint root_loop (fuel : nat) (t : PropValueTable) (pvId rootId : Z) : option Z :=
  if pvId =? 0 then Some rootId else
  match fuel with
  | O => None
  | S fuel => parent ← vat (parentIdVec_ t) pvId; root_loop fuel t parent pvId
  end.

Definition getRootValueId (fuel : nat) (t : PropValueTable) (pvId : Z) : option Z := root_loop fuel t pvId 0.

(** ** Documents *)

Definition getPropIdList (t : PropValueTable) (docId : nat) : option PropIdList :=
  getIdList (valueIdTable_ t) docId.

Definition getFirstValueId (t : PropValueTable) (docId : nat) : option Z :=
  l ← getPropIdList t docId;
  if size_ l =? 0 then Some 0 else list_at (valueIdTable_ t) l 0.

(** The inner loop of [parentIdSet] stops at an id that is already there. *)
Fixpoint climb (fuel : nat) (t : PropValueTable) (pvId : Z) (parentSet : gset Z) : option (gset Z) :=
  if pvId =? 0 then Some parentSet else
  match fuel with
  | O => None
  | S fuel =>
      if decide (pvId ∈ parentSet) then Some parentSet
      else
        parent ← vat (parentIdVec_ t) pvId;
        climb fuel t parent ({[pvId]} ∪ parentSet)
  end.

Definition parentIdSet (fuel : nat) (t : PropValueTable) (docId : nat) (parentSet : gset Z) : option (gset Z) :=
  l ← getPropIdList t docId;
  foldM (λ set i, id ← list_at (valueIdTable_ t) l i; climb fuel t id set) parentSet
    (seq 0 (Z.to_nat (list_size l))).

Definition testDoc (fuel : nat) (t : PropValueTable) (docId : nat) (labelId : Z) : option bool :=
  parentSet ← parentIdSet fuel t docId ∅;
  Some (bool_decide (labelId ∈ parentSet)).

(** ** Loading *)

(** The children of the loaded values: [childMapTable_[parentId][valueStr] = i]. *)
Definition load_child (t : PropValueTable) (maps : list (gmap U Z)) (i : nat) : option (list (gmap U Z)) :=
  parentId ← parentIdVec_ t !! i;
  valueStr ← propStrVec_ t !! i;
  m ← vat maps parentId;
  Some (<[Z.to_nat parentId := <[valueStr := Z.of_nat i]> m]> maps).

(** [open]: each vector is replaced as soon as it is read. *)
Definition open (strs : option (list U)) (parents index values : option (list Z)) (t : PropValueTable)
    : option (PropValueTable * bool) :=
  match strs with None => Some (t, false) | Some strs =>
  let t := ValueTable strs (parentIdVec_ t) (childMapTable_ t) (valueIdTable_ t) in
  match parents with None => Some (t, false) | Some parents =>
  let t := ValueTable strs parents (childMapTable_ t) (valueIdTable_ t) in
  match index with None => Some (t, false) | Some index =>
  let t := ValueTable strs parents (childMapTable_ t) (IdTable index (multiValueTable_ (valueIdTable_ t))) in
  match values with None => Some (t, false) | Some values =>
  let t := ValueTable strs parents (childMapTable_ t) (IdTable index values) in
  let valueNum := Z.to_nat (u32 (Z.of_nat (length strs))) in
  if negb (valueNum =? length parents)%nat then Some (t, false)
  else
    maps ← foldM (load_child t) (replicate valueNum ∅) (seq 1 (valueNum - 1));
    Some (ValueTable strs parents maps (IdTable index values), true)
  end end end end.

(** ** Specification: the forest *)

Definition value_num (t : PropValueTable) : Z := Z.of_nat (length (propStrVec_ t)).

(** [at_path t id path]: the strings from the root to [id]. *)
Inductive at_path (t : PropValueTable) : Z → list U → Prop :=
  | at_root : at_path t 0 []
  | at_child id parent s path :
      0 < id → vat (parentIdVec_ t) id = Some parent → vat (propStrVec_ t) id = Some s →
      at_path t parent path → at_path t id (path ++ [s]).

(** [up t id l]: the ids from [id] to the root. *)
Inductive up (t : PropValueTable) : Z → list Z → Prop :=
  | up_root : up t 0 []
  | up_step id parent l :
      0 < id → vat (parentIdVec_ t) id = Some parent → up t parent l → up t id (id :: l).

(** Parents come before their children, and the child maps hold exactly the
    children, which have distinct strings. *)
Record table_ok (t : PropValueTable) : Prop := {
  ok_parents : length (parentIdVec_ t) = length (propStrVec_ t);
  ok_maps : length (childMapTable_ t) = length (propStrVec_ t);
  ok_size : 0 < value_num t ≤ 2 ^ 32;
  ok_parent : ∀ id, 0 < id < value_num t → ∃ p, vat (parentIdVec_ t) id = Some p ∧ 0 ≤ p < id;
  ok_child : ∀ p m s id, vat (childMapTable_ t) p = Some m →
    m !! s = Some id ↔ 0 < id ∧ vat (parentIdVec_ t) id = Some p ∧ vat (propStrVec_ t) id = Some s }.

Lemma vat_lt {A} (v : list A) id : is_Some (vat v id) ↔ 0 ≤ id < Z.of_nat (length v).
Proof.
  unfold vat. destruct (id <? 0) eqn:E; bool_cases.
  - split; [by intros []|lia].
  - rewrite lookup_lt_is_Some. lia.
Qed.

Lemma vat_app_l {A} (v w : list A) id x : vat v id = Some x → vat (v ++ w) id = Some x.
Proof. unfold vat. destruct (id <? 0); [done|]. apply lookup_app_l_Some. Qed.

Lemma vat_snoc {A} (v : list A) y id x :
  vat (v ++ [y]) id = Some x ↔ vat v id = Some x ∨ id = Z.of_nat (length v) ∧ y = x.
Proof.
  unfold vat. destruct (id <? 0) eqn:E; bool_cases; [naive_solver lia|].
  rewrite lookup_snoc_Some. split.
  - intros [[_ H1]|[H1 ->]]; [by left|right; split; [lia|done]].
  - intros [H1|[-> ->]]; [left|right; split; [lia|done]].
    split; [by eapply lookup_lt_Some|done].
Qed.

Lemma table_new_ok : table_ok table_new.
Proof.
  split; try done.
  - unfold value_num. simpl. intros id Hid. lia.
  - intros p m s id Hm. assert (m = ∅) as ->.
    { unfold vat in Hm. destruct (p <? 0); [done|]. simpl in Hm. by apply list_lookup_singleton_Some in Hm as [_ <-]. }
    rewrite lookup_empty. split; [done|]. intros (H1 & H2 & _).
    assert (is_Some (vat [0] id)) as Hs by by eexists. apply vat_lt in Hs. simpl in Hs. lia.
Qed.

(** *** Walks towards the root *)

Section forest.
Context (t : PropValueTable) (Hok : table_ok t).

Lemma valid_str id : 0 ≤ id < value_num t → ∃ s, vat (propStrVec_ t) id = Some s.
Proof. intros Hid. by apply (vat_lt (propStrVec_ t)). Qed.

(** Induction from the root along the parents. *)
Lemma forest_ind (P : Z → Prop) :
  P 0 → (∀ id p s, 0 < id < value_num t → vat (parentIdVec_ t) id = Some p → vat (propStrVec_ t) id = Some s →
    0 ≤ p < id → P p → P id) →
  ∀ id, 0 ≤ id < value_num t → P id.
Proof.
  intros H0 Hstep id Hid. revert Hid. induction (Z.lt_wf 0 id) as [id _ IH]. intros Hid.
  destruct (decide (id = 0)) as [->|Hne]; [done|].
  destruct (ok_parent t Hok id) as (p & Hp & Hlt); [lia|].
  destruct (valid_str id Hid) as [s Hs].
  apply (Hstep id p s); [lia|done|done|done|]. apply IH; lia.
Qed.

Lemma at_path_total id : 0 ≤ id < value_num t → ∃ path, at_path t id path.
Proof.
  revert id. apply forest_ind; [by exists []; constructor|].
  intros id p s Hid Hp Hs Hlt [path Hpath]. exists (path ++ [s]). by eapply at_child; [lia|..].
Qed.

Lemma up_total id : 0 ≤ id < value_num t → ∃ l, up t id l ∧ (length l ≤ Z.to_nat id)%nat.
Proof.
  revert id. apply forest_ind; [by exists []; split; [constructor|simpl; lia]|].
  intros id p s Hid Hp Hs Hlt (l & Hl & Hlen). exists (id :: l).
  split; [by eapply up_step; [lia|..]|]. simpl. lia.
Qed.

Lemma at_path_valid id path : at_path t id path → 0 ≤ id < value_num t.
Proof.
  destruct 1 as [|id p s path Hid Hp Hs _]; [pose proof (ok_size t Hok); lia|].
  apply (vat_lt (propStrVec_ t)). by eexists.
Qed.

Lemma at_path_fun id path : at_path t id path → ∀ path', at_path t id path' → path = path'.
Proof.
  induction 1 as [|id p s path Hid Hp Hs _ IH]; intros path' H'; inversion H' as [|id' p' s' q Hid' Hp' Hs' Hq]; subst;
    [done|lia|lia|]. rewrite Hp in Hp'. rewrite Hs in Hs'. simplify_eq. f_equal. by apply IH.
Qed.

Lemma at_path_nil id : at_path t id [] → id = 0.
Proof.
  remember [] as path eqn:E. destruct 1 as [|id p s path Hid Hp Hs Hpath]; [done|]. by destruct path.
Qed.

Lemma at_path_snoc id path s :
  at_path t id (path ++ [s]) → ∃ p, 0 < id ∧ vat (parentIdVec_ t) id = Some p ∧
  vat (propStrVec_ t) id = Some s ∧ at_path t p path.
Proof.
  remember (path ++ [s]) as path' eqn:E. destruct 1 as [|id p s' q Hid Hp Hs Hq]; [by destruct path|].
  apply app_inj_tail in E as [-> ->]. by exists p.
Qed.

(** The prefixes of a longer list. *)
Lemma prefix_snoc (l q : list U) s : l `prefix_of` q ++ [s] → l = q ++ [s] ∨ l `prefix_of` q.
Proof.
  intros [k Hk]. destruct k as [|y k _] using rev_ind; [left; by rewrite app_nil_r in Hk|].
  right. rewrite app_assoc in Hk. apply app_inj_tail in Hk as [-> _]. by exists k.
Qed.

(** Siblings have distinct strings, so a path names one id. *)
Lemma at_path_inj id path : at_path t id path → ∀ id', at_path t id' path → id = id'.
Proof.
  induction 1 as [|id p s path Hid Hp Hs Hpath IH]; intros id' H'.
  - by apply at_path_nil in H'.
  - apply at_path_snoc in H' as (p' & Hid' & Hp' & Hs' & Hq). assert (p = p') as <- by by apply IH.
    destruct (proj2 (vat_lt (childMapTable_ t) p)) as [m Hm].
    { apply at_path_valid in Hpath. rewrite (ok_maps t Hok). exact Hpath. }
    pose proof (ok_child t Hok p m s) as Hc.
    assert (m !! s = Some id) as E by by apply Hc.
    assert (m !! s = Some id') as E' by by apply Hc.
    congruence.
Qed.

Lemma path_loop_ok id path : at_path t id path → ∀ fuel acc, (length path ≤ fuel)%nat →
  path_loop fuel t id acc = Some (acc ++ reverse path).
Proof.
  induction 1 as [|id p s path Hid Hp Hs _ IH]; intros fuel acc Hf.
  { destruct fuel; simpl; by rewrite app_nil_r. }
  rewrite length_app in Hf. simpl in Hf. destruct fuel as [|fuel]; [lia|]. simpl.
  rewrite (proj2 (Z.eqb_neq id 0)) by lia. rewrite Hs, Hp. cbn [mbind option_bind].
  rewrite IH by lia. by rewrite reverse_snoc, <- app_assoc.
Qed.

Lemma at_path_length id path : at_path t id path → (length path ≤ Z.to_nat id)%nat.
Proof.
  induction 1 as [|id p s path Hid Hp Hs Hpath IH]; [simpl; lia|]. rewrite length_app. simpl.
  destruct (ok_parent t Hok id) as (p' & Hp' & Hlt).
  { split; [done|]. apply (vat_lt (propStrVec_ t)). by eexists. }
  rewrite Hp in Hp'. simplify_eq. lia.
Qed.

(** The search from [pv], whose path is [q]. *)
Lemma find_loop_ok path : ∀ pv q, at_path t pv q →
  ∃ r, find_loop pv path t = Some r ∧
  (at_path t r (q ++ path) ∨ r = 0 ∧ path ≠ [] ∧ ∀ id, ¬ at_path t id (q ++ path)).
Proof.
  induction path as [|x path IH]; intros pv q Hq; simpl.
  { exists pv. rewrite app_nil_r. by split; [|left]. }
  destruct (proj2 (vat_lt (childMapTable_ t) pv)) as [m Hm].
  { rewrite (ok_maps t Hok). apply (at_path_valid _ _ Hq). }
  rewrite Hm. cbn [mbind option_bind]. pose proof (λ id, ok_child t Hok pv m x id Hm) as Hc.
  destruct (m !! x) as [id|] eqn:E.
  - destruct (proj1 (Hc id) eq_refl) as (Hid & Hp & Hs).
    destruct (IH id (q ++ [x])) as (r & Hr & Hcase); [by eapply at_child|].
    exists r. split; [done|]. rewrite <- app_assoc in Hcase. simpl in Hcase.
    destruct Hcase as [Hc1|(-> & _ & Hc1)]; [by left|by right].
  - exists 0. split; [done|]. right. split_and!; [done|done|]. intros id Hid.
    assert (∃ c, at_path t c (q ++ [x])) as [c Hcx].
    { clear -Hid. replace (q ++ x :: path) with ((q ++ [x]) ++ path) in Hid by by rewrite <- app_assoc.
      revert Hid. revert id. induction path as [|y path IH] using rev_ind; intros id Hid.
      - rewrite app_nil_r in Hid. by eexists.
      - rewrite app_assoc in Hid. apply at_path_snoc in Hid as (p & _ & _ & _ & Hp). by eapply IH. }
    apply at_path_snoc in Hcx as (p & Hc0 & Hp & Hs & Hpq).
    rewrite (at_path_inj _ _ Hpq _ Hq) in Hp. assert (None = Some c) as Hn by by apply Hc. done.
Qed.

(** *** The ids above an id *)

Lemma up_fun id l : up t id l → ∀ l', up t id l' → l = l'.
Proof.
  induction 1 as [|id p l Hid Hp _ IH]; intros l' H'; inversion H' as [|? p' l2 Hid' Hp' Hl2]; subst; try done; try lia.
  rewrite Hp in Hp'. simplify_eq. f_equal. by apply IH.
Qed.

Lemma up_le id l : up t id l → Forall (λ x, 0 < x ≤ id) l.
Proof.
  induction 1 as [|id p l Hid Hp Hl IH]; [constructor|]. constructor; [lia|].
  assert (0 ≤ p < id) as Hlt.
  { destruct (ok_parent t Hok id) as (p' & Hp' & Hlt).
    { split; [done|]. pose proof (ok_parents t Hok) as He. unfold value_num. rewrite <- He.
      apply (vat_lt (parentIdVec_ t)). by eexists. }
    rewrite Hp in Hp'. by simplify_eq. }
  eapply Forall_impl; [exact IH|]. simpl. intros; lia.
Qed.

Lemma up_sub id l x : up t id l → x ∈ l → ∃ lx, up t x lx ∧ lx ⊆ l.
Proof.
  induction 1 as [|id p l Hid Hp Hl IH]; [by intros ?%not_elem_of_nil|]. intros [->|Hin]%elem_of_cons.
  - exists (id :: l). split; [by eapply up_step|done].
  - destruct (IH Hin) as (lx & Hx & Hsub). exists lx. split; [done|]. intros y Hy. right. by apply Hsub.
Qed.

Lemma parents_loop_ok id l : up t id l → ∀ fuel acc, (length l ≤ fuel)%nat →
  parents_loop fuel t id acc = Some (acc ++ l).
Proof.
  induction 1 as [|id p l Hid Hp _ IH]; intros fuel acc Hf.
  { destruct fuel; simpl; by rewrite app_nil_r. }
  simpl in Hf. destruct fuel as [|fuel]; [lia|]. simpl.
  rewrite (proj2 (Z.eqb_neq id 0)) by lia. rewrite Hp. cbn [mbind option_bind].
  rewrite IH by lia. by rewrite <- app_assoc.
Qed.

Lemma root_loop_ok id l : up t id l → ∀ fuel r, (length l ≤ fuel)%nat →
  root_loop fuel t id r = Some (default r (last l)).
Proof.
  induction 1 as [|id p l Hid Hp _ IH]; intros fuel r Hf; [by destruct fuel|].
  simpl in Hf. destruct fuel as [|fuel]; [lia|]. simpl root_loop.
  rewrite (proj2 (Z.eqb_neq id 0)) by lia. rewrite Hp. cbn [mbind option_bind].
  rewrite IH by lia. f_equal. rewrite last_cons. by destruct (last l).
Qed.

(** Ancestors are the ids of the prefixes of the path. *)
Lemma up_prefix id l path label : up t id l → at_path t id path →
  label ∈ l ↔ 0 < label ∧ ∃ pl, at_path t label pl ∧ pl `prefix_of` path.
Proof.
  intros Hup. revert path. induction Hup as [|id p l Hid Hp Hl IH]; intros path Hpath.
  - rewrite (at_path_fun _ _ Hpath [] (at_root t)). split; [by intros ?%not_elem_of_nil|].
    intros (Hpos & pl & Hpl & Hpre). apply prefix_nil_inv in Hpre as ->. apply at_path_nil in Hpl. lia.
  - destruct (at_path_total p) as [q Hq].
    { apply up_le in Hl as _. destruct (ok_parent t Hok id) as (p' & Hp' & Hlt).
      { split; [done|]. apply (at_path_valid _ _ Hpath). }
      rewrite Hp in Hp'. simplify_eq. apply at_path_valid in Hpath. lia. }
    assert (∃ s, path = q ++ [s]) as [s ->].
    { inversion Hpath as [|? p' s q' _ Hp' Hs Hq']; subst; [lia|].
      rewrite Hp in Hp'. simplify_eq. exists s. by rewrite (at_path_fun _ _ Hq _ Hq'). }
    rewrite elem_of_cons, (IH q Hq). split.
    + intros [->|(Hpos & pl & Hpl & Hpre)]; [by split; [|exists (q ++ [s])]|].
      split; [done|]. exists pl. split; [done|]. by apply prefix_app_r.
    + intros (Hpos & pl & Hpl & Hpre). destruct (prefix_snoc pl q s Hpre) as [->|Hpre'].
      * left. by eapply at_path_inj.
      * right. split; [done|]. by exists pl.
Qed.
End forest.

(** ** Insertion *)

Lemma vat_alter {A} (f : A → A) (i : Z) (v : list A) p :
  0 ≤ i → vat (alter f (Z.to_nat i) v) p = if decide (p = i) then f <$> vat v p else vat v p.
Proof.
  intros Hi. unfold vat. destruct (p <? 0) eqn:E; bool_cases.
  - by case_decide.
  - case_decide as Hp; [subst p; apply list_lookup_alter_eq|].
    apply list_lookup_alter_ne. lia.
Qed.

Section add.
Context (t : PropValueTable) (Hok : table_ok t) (pv : Z) (m : gmap U Z) (node : U).
Context (Hm : vat (childMapTable_ t) pv = Some m) (Hnew : m !! node = None).

Lemma add_parent_valid : 0 ≤ pv < value_num t.
Proof. unfold value_num. rewrite <- (ok_maps t Hok). apply vat_lt. by eexists. Qed.

Lemma add_parents id p :
  vat (parentIdVec_ t ++ [pv]) id = Some p ↔ vat (parentIdVec_ t) id = Some p ∨ id = value_num t ∧ pv = p.
Proof. unfold value_num. rewrite <- (ok_parents t Hok). apply vat_snoc. Qed.

Lemma parent_lt id p : vat (parentIdVec_ t) id = Some p → 0 < id → 0 ≤ p < id ∧ id < value_num t.
Proof.
  intros Hp Hid. assert (is_Some (vat (parentIdVec_ t) id)) as Hlt by by eexists.
  apply vat_lt in Hlt. rewrite (ok_parents t Hok) in Hlt. unfold value_num in *.
  destruct (ok_parent t Hok id) as (p' & Hp' & Hr); [unfold value_num; lia|].
  rewrite Hp in Hp'. simplify_eq. lia.
Qed.

Lemma add_value_ok :
  value_num t < 2 ^ 32 → table_ok (add_value node pv (value_num t) t).
Proof.
  intros Hsize. pose proof add_parent_valid as Hpv. split; simpl.
  - rewrite !length_app, (ok_parents t Hok). done.
  - rewrite !length_app, length_alter, (ok_maps t Hok). done.
  - unfold value_num in *. simpl. rewrite length_app. simpl. lia.
  - intros id Hid. unfold value_num in Hid. simpl in Hid. rewrite length_app in Hid. simpl in Hid.
    destruct (decide (id = value_num t)) as [->|Hne].
    + exists pv. split; [|lia]. apply add_parents. by right.
    + destruct (ok_parent t Hok id) as (p & Hp & Hlt); [unfold value_num in *; lia|].
      exists p. split; [|done]. apply add_parents. by left.
  - intros p mp s id Hmp. rewrite vat_snoc, length_alter, (ok_maps t Hok) in Hmp.
    rewrite add_parents, vat_snoc. fold (value_num t) in *.
    assert (∀ x, vat (propStrVec_ t) (value_num t) ≠ Some x) as Hn.
    { intros x Hx. assert (is_Some (vat (propStrVec_ t) (value_num t))) as H1 by by eexists.
      apply vat_lt in H1. unfold value_num in H1. lia. }
    assert (∀ x, vat (parentIdVec_ t) (value_num t) ≠ Some x) as Hn'.
    { intros x Hx. apply parent_lt in Hx; lia. }
    destruct Hmp as [Hmp|[-> <-]].
    + rewrite vat_alter in Hmp by lia. case_decide as Hpp; [subst p|].
      * rewrite Hm in Hmp. simpl in Hmp. injection Hmp as <-.
        destruct (decide (s = node)) as [->|Hs].
        -- rewrite lookup_insert_eq. pose proof (ok_child t Hok pv m node id Hm) as Hc. rewrite Hnew in Hc.
           split; [intros [= <-]; split_and!; [lia|by right|by right]|].
           intros (Hid & [Hp|[E1 _]] & [Hs|[E2 _]]);
             [|rewrite E2 in Hp; by apply Hn' in Hp|rewrite E1 in Hs; by apply Hn in Hs|by rewrite E1].
           assert (None = Some id) as Hx by by apply Hc. done.
        -- rewrite lookup_insert_ne by done. rewrite (ok_child t Hok pv m s id Hm).
           split; [intros (? & ? & ?); split_and!; [done|by left|by left]|].
           intros (Hid & [Hp|[E1 _]] & [Hs'|[E2 ?]]);
             [done|rewrite E2 in Hp; by apply Hn' in Hp|rewrite E1 in Hs'; by apply Hn in Hs'|congruence].
      * rewrite (ok_child t Hok p mp s id Hmp).
        split; [intros (? & ? & ?); split_and!; [done|by left|by left]|].
        intros (Hid & [Hp|[E1 ?]] & [Hs'|[E2 ?]]); [done|rewrite E2 in Hp; by apply Hn' in Hp|congruence|congruence].
    + rewrite lookup_empty. split; [done|]. intros (Hid & [Hp|[-> ?]] & _); [|lia].
      apply parent_lt in Hp; lia.
Qed.

Lemma at_path_add id path : at_path t id path → at_path (add_value node pv (value_num t) t) id path.
Proof.
  induction 1 as [|id p s path Hid Hp Hs _ IH]; [constructor|].
  apply (at_child _ _ p); [done|by apply vat_app_l|by apply vat_app_l|done].
Qed.

Lemma at_path_added q : at_path t pv q →
  at_path (add_value node pv (value_num t) t) (value_num t) (q ++ [node]).
Proof.
  intros Hq. pose proof add_parent_valid. apply (at_child _ _ pv); [lia| | |by apply at_path_add].
  - apply add_parents. by right.
  - apply vat_snoc. by right.
Qed.

Lemma at_path_add_inv q : at_path t pv q → ∀ id path,
  at_path (add_value node pv (value_num t) t) id path →
  at_path t id path ∨ id = value_num t ∧ path = q ++ [node].
Proof.
  intros Hq id path. induction 1 as [|id p s path Hid Hp Hs _ IH]; [left; constructor|].
  simpl in Hp, Hs. apply add_parents in Hp. apply vat_snoc in Hs. fold (value_num t) in Hs.
  pose proof add_parent_valid. destruct Hp as [Hp|[-> <-]].
  - destruct (parent_lt _ _ Hp Hid) as [Hlt Hlt']. destruct Hs as [Hs|[-> _]]; [|lia].
    destruct IH as [IH|[-> _]]; [|lia]. left. by apply (at_child _ _ p).
  - destruct Hs as [Hs|[_ ->]].
    + assert (is_Some (vat (propStrVec_ t) (value_num t))) as H1 by by eexists.
      apply vat_lt in H1. unfold value_num in H1. lia.
    + right. split; [done|]. destruct IH as [IH|[Heq _]]; [|lia]. f_equal. by eapply at_path_fun.
Qed.

End add.

Lemma insert_loop_ok path : ∀ t pv q, table_ok t → at_path t pv q →
  ∃ t' r, insert_loop pv path t = Some (t', r) ∧ table_ok t' ∧ valueIdTable_ t' = valueIdTable_ t ∧
  (∀ id p, at_path t id p → at_path t' id p) ∧
  (∀ id p, at_path t' id p → at_path t id p ∨ p `prefix_of` q ++ path) ∧
  match r with Some id => at_path t' id (q ++ path) | None => value_num t' = 2 ^ 32 end.
Proof.
  induction path as [|x path IH]; intros t pv q Hok Hq; simpl.
  { exists t, (Some pv). rewrite app_nil_r. split_and!; try done. by left. }
  destruct (proj2 (vat_lt (childMapTable_ t) pv)) as [m Hm].
  { rewrite (ok_maps t Hok). by apply (at_path_valid t Hok _ _ Hq). }
  rewrite Hm. cbn [mbind option_bind].
  destruct (m !! x) as [id|] eqn:E.
  - apply (ok_child t Hok pv m x id Hm) in E as (Hid & Hp & Hs).
    destruct (IH t id (q ++ [x])) as (t' & r & H'); [done|by eapply at_child|].
    rewrite <- app_assoc in H'. by exists t', r.
  - pose proof (ok_size t Hok) as Hsize. fold (value_num t).
    destruct (decide (value_num t = 2 ^ 32)) as [Hfull|Hn].
    + rewrite Hfull. exists t, None. split_and!; try done. by left.
    + rewrite u32_small by lia. rewrite (proj2 (Z.eqb_neq (value_num t) 0)) by lia. simpl negb. cbn iota.
      destruct (IH (add_value x pv (value_num t) t) (value_num t) (q ++ [x]))
        as (t' & r & E' & Hok' & Hdocs & Hmono & Hinv & Hr).
      { apply (add_value_ok t Hok pv m x Hm E). lia. }
      { by apply (at_path_added t Hok pv m x Hm). }
      rewrite <- app_assoc in Hr, Hinv. exists t', r. split_and!; try done.
      * intros id p Hp. apply Hmono. by apply (at_path_add t).
      * intros id p Hp. destruct (Hinv id p Hp) as [Hp'|Hpre]; [|by right].
        destruct (at_path_add_inv t Hok pv m x Hm E q Hq id p Hp') as [|[_ ->]]; [by left|].
        right. exists path. by rewrite <- app_assoc.
Qed.

(** C10: [insertPropValueId] gives the path an id that [propValueId] finds
    again and whose [propValuePath] is the path; every id keeps its path, only
    prefixes of the inserted path are added, and the table stays well formed.
    It fails only when all 32-bit ids are taken. *)
Theorem insertPropValueId_path t path :
  table_ok t →
  ∃ t' r, insertPropValueId path t = Some (t', r) ∧ table_ok t' ∧ valueIdTable_ t' = valueIdTable_ t ∧
  (∀ id p, at_path t id p → at_path t' id p) ∧
  (∀ id p, at_path t' id p → at_path t id p ∨ p `prefix_of` path) ∧
  match r with
  | Some id => propValueId path t' = Some id ∧
      ∀ fuel, (length path ≤ fuel)%nat → propValuePath fuel t' id [] = Some path
  | None => value_num t' = 2 ^ 32
  end.
Proof.
  intros Hok. destruct (insert_loop_ok path t 0 [] Hok (at_root t)) as (t' & r & E & Hok' & Hd & Hmono & Hinv & Hr).
  exists t', r. split_and!; try done. destruct r as [id|]; [|done]. simpl in Hr. split.
  - destruct (find_loop_ok t' Hok' path 0 [] (at_root t')) as (r & Hf & [Hp|(_ & _ & Hno)]).
    + unfold propValueId. rewrite Hf. f_equal. by apply (at_path_inj t' Hok' r path).
    + by apply Hno in Hr.
  - intros fuel Hf. unfold propValuePath. rewrite (path_loop_ok t' id path Hr) by done.
    simpl. by rewrite reverse_involutive.
Qed.

(** ** Documents *)

Section documents.
Context (t : PropValueTable) (Hok : table_ok t).

Lemma climb_ok id l : up t id l → ∀ fuel S, (length l ≤ fuel)%nat →
  (∀ x lx, x ∈ S → up t x lx → x ∈ l → ∀ y, y ∈ lx → y ∈ S) →
  ∃ S', climb fuel t id S = Some S' ∧ ∀ y, y ∈ S' ↔ y ∈ S ∨ y ∈ l.
Proof.
  induction 1 as [|id p l Hid Hp Hl IH]; intros fuel S Hf HS.
  { exists S. split; [by destruct fuel|]. intros y. split; [by left|].
    intros [Hy|Hy]; [done|]. by apply not_elem_of_nil in Hy. }
  simpl in Hf. destruct fuel as [|fuel]; [lia|]. simpl.
  rewrite (proj2 (Z.eqb_neq id 0)) by lia. rewrite Hp. cbn [mbind option_bind].
  destruct (decide (id ∈ S)) as [Hin|Hnin].
  - exists S. split; [done|]. intros y. split; [by left|]. intros [Hy|Hy]; [done|].
    apply (HS id (id :: l)); [done|by eapply up_step|left|done].
  - destruct (IH fuel ({[id]} ∪ S)) as (S' & E & HS'); [lia| |].
    + intros x lx Hx Hux Hxl y Hy.
      assert (x ≠ id) as Hne.
      { pose proof (up_le t Hok _ _ (up_step t id p l Hid Hp Hl)) as Hle.
        pose proof (up_le t Hok _ _ Hl) as Hle'. rewrite Forall_forall in Hle'.
        destruct (parent_lt t Hok id p Hp Hid). specialize (Hle' x Hxl). simpl in Hle'. lia. }
      apply elem_of_union in Hx as [->%elem_of_singleton|Hx]; [done|].
      apply elem_of_union. right. apply (HS x lx); [done|done|by right|done].
    + exists S'. split; [done|]. intros y. rewrite HS', elem_of_union, elem_of_singleton, elem_of_cons.
      tauto.
Qed.

(** A set that contains the ancestors of its members. *)
Definition up_closed (S : gset Z) : Prop := ∀ x lx y, x ∈ S → up t x lx → y ∈ lx → y ∈ S.

Lemma climb_all fuel ids : ∀ S, up_closed S →
  Forall (λ id, 0 ≤ id < value_num t) ids → value_num t ≤ Z.of_nat fuel →
  ∃ S', foldM (λ S id, climb fuel t id S) S ids = Some S' ∧ up_closed S' ∧
  ∀ y, y ∈ S' ↔ y ∈ S ∨ ∃ id l, id ∈ ids ∧ up t id l ∧ y ∈ l.
Proof.
  induction ids as [|id ids IH]; intros S HS Hids Hf; simpl.
  { exists S. split_and!; [done|done|]. intros y. split; [by left|].
    intros [Hy|(id & l & Hid & _)]; [done|]. by apply not_elem_of_nil in Hid. }
  inversion_clear Hids as [|?? Hid Hids'].
  destruct (up_total t Hok id Hid) as (l & Hl & Hlen).
  destruct (climb_ok id l Hl fuel S) as (S1 & E & H1); [lia|by intros; eapply HS|].
  rewrite E. cbn [mbind option_bind].
  destruct (IH S1) as (S' & E' & Hc & H'); [|done|done|].
  - intros x lx y Hx Hux Hy. apply H1 in Hx as [Hx|Hx]; apply H1.
    + left. by eapply HS.
    + right. destruct (up_sub t id l x Hl Hx) as (lx' & Hx' & Hsub).
      rewrite (up_fun t _ _ Hux _ Hx') in Hy. by apply Hsub.
  - exists S'. split_and!; [done|done|]. intros y. rewrite H', H1. setoid_rewrite elem_of_cons.
    split.
    + intros [[Hy|Hy]|(i & li & Hi & Hy)]; [by left|right; exists id, l; by auto|right; exists i, li; by auto].
    + intros [Hy|(i & li & [->|Hi] & Hui & Hy)]; [by left; left| |by right; exists i, li].
      left. right. by rewrite (up_fun t _ _ Hl _ Hui).
Qed.

(** C9: A document belongs to a label exactly when the path of the label is a
    prefix of the path of one of the document's values; the walks end, and
    stopping at an ancestor that was met before loses nothing. *)
Theorem testDoc_prefix docId label ids fuel :
  ids_of (valueIdTable_ t) docId = Some ids → Forall (λ id, 0 ≤ id < value_num t) ids →
  value_num t ≤ Z.of_nat fuel →
  ∃ b, testDoc fuel t docId label = Some b ∧
  (b = true ↔ 0 < label ∧ ∃ id path pl, id ∈ ids ∧ at_path t id path ∧ at_path t label pl ∧ pl `prefix_of` path).
Proof.
  intros Hids Hval Hf. unfold testDoc, parentIdSet, getPropIdList. unfold ids_of in Hids.
  destruct (getIdList (valueIdTable_ t) docId) as [l|]; [|done]. cbn [mbind option_bind] in *.
  rewrite (foldM_mapM (list_at (valueIdTable_ t) l) (λ S id, climb fuel t id S) _ ids) by done.
  destruct (climb_all fuel ids ∅) as (S & -> & _ & HS); [intros ? ? ? Hx; by apply elem_of_empty in Hx|done|done|].
  eexists. split; [done|]. rewrite bool_decide_eq_true, HS, elem_of_empty.
  rewrite Forall_forall in Hval. split.
  - intros [?|(id & lid & Hin & Hup & Hy)]; [done|].
    destruct (at_path_total t Hok id (Hval id Hin)) as [path Hpath].
    destruct (proj1 (up_prefix t Hok id lid path label Hup Hpath) Hy) as (Hpos & pl & Hpl & Hpre).
    split; [done|]. by exists id, path, pl.
  - intros (Hpos & id & path & pl & Hin & Hpath & Hpl & Hpre). right.
    destruct (up_total t Hok id (Hval id Hin)) as (lid & Hup & _).
    exists id, lid. split_and!; [done|done|].
    apply (up_prefix t Hok id lid path label Hup Hpath). split; [done|]. by exists pl.
Qed.

End documents.

(** All walks from a valid id reach the root within [id] steps:
    [getParentIds] lists the ids of the prefixes of its path, [getRootValueId]
    is the last of them, and [propValueId] of [propValuePath] is the id. *)
Theorem walks_reach_root t id fuel :
  table_ok t → 0 ≤ id < value_num t → id ≤ Z.of_nat fuel →
  ∃ l path, getParentIds fuel t id = Some l ∧ getRootValueId fuel t id = Some (default 0 (last l)) ∧
  propValuePath fuel t id [] = Some path ∧ propValueId path t = Some id ∧
  ∀ a, a ∈ l ↔ 0 < a ∧ ∃ pa, at_path t a pa ∧ pa `prefix_of` path.
Proof.
  intros Hok Hid Hf. destruct (up_total t Hok id Hid) as (l & Hup & Hlen).
  destruct (at_path_total t Hok id Hid) as [path Hpath].
  pose proof (at_path_length t Hok id path Hpath) as Hpl.
  exists l, path. split_and!.
  - unfold getParentIds. by rewrite (parents_loop_ok t id l Hup) by lia.
  - unfold getRootValueId. by rewrite (root_loop_ok t id l Hup) by lia.
  - unfold propValuePath. rewrite (path_loop_ok t id path Hpath) by lia. simpl. by rewrite reverse_involutive.
  - destruct (find_loop_ok t Hok path 0 [] (at_root t)) as (r & Hr & [Hp|(_ & _ & Hno)]).
    + unfold propValueId. rewrite Hr. f_equal. by apply (at_path_inj t Hok r path).
    + by apply Hno in Hpath.
  - intros a. by apply (up_prefix t Hok id).
Qed.

(** ** Loading *)

(** The child maps over the first [k] ids. *)
Definition maps_upto (t : PropValueTable) (k : Z) (maps : list (gmap U Z)) : Prop :=
  length maps = length (propStrVec_ t) ∧
  ∀ p m s id, vat maps p = Some m →
    m !! s = Some id ↔ 0 < id < k ∧ vat (parentIdVec_ t) id = Some p ∧ vat (propStrVec_ t) id = Some s.

Lemma vat_nat {A} (v : list A) i : vat v (Z.of_nat i) = v !! i.
Proof. unfold vat. rewrite (proj2 (Z.ltb_ge (Z.of_nat i) 0)) by lia. by rewrite Nat2Z.id. Qed.

Lemma load_child_ok t maps i : table_ok t → (0 < i)%nat → Z.of_nat i < value_num t → maps_upto t (Z.of_nat i) maps →
  ∃ maps', load_child t maps i = Some maps' ∧ maps_upto t (Z.of_nat (S i)) maps'.
Proof.
  intros Hok Hi Hlt [Hlen Hmaps]. unfold load_child. rewrite <- !vat_nat.
  destruct (ok_parent t Hok (Z.of_nat i)) as (p & Hp & Hpr); [lia|].
  destruct (valid_str t (Z.of_nat i)) as [s Hs]; [lia|]. rewrite Hp, Hs. cbn [mbind option_bind].
  destruct (proj2 (vat_lt maps p)) as [m Hm]; [rewrite Hlen; unfold value_num in Hlt; lia|].
  rewrite Hm. cbn [mbind option_bind]. eexists. split; [done|]. split; [by rewrite length_insert|].
  intros q mq s' id Hq.
  assert (vat (<[Z.to_nat p := <[s := Z.of_nat i]> m]> maps) q =
    if decide (q = p) then Some (<[s := Z.of_nat i]> m) else vat maps q) as Hv.
  { assert (Z.to_nat p < length maps)%nat by (unfold value_num in Hlt; lia).
    unfold vat. destruct (q <? 0) eqn:E; bool_cases; case_decide; try done; try lia.
    - subst q. by apply list_lookup_insert_eq.
    - apply list_lookup_insert_ne. lia. }
  rewrite Hv in Hq. case_decide as Hqp; [subst q; injection Hq as <-|].
  - destruct (decide (s' = s)) as [->|Hne].
    + rewrite lookup_insert_eq. split.
      * intros [= <-]. split_and!; [lia|lia|done|done].
      * intros (Hid & Hp' & Hs'). f_equal.
        destruct (proj2 (vat_lt (childMapTable_ t) p)) as [mc Hmc].
        { rewrite (ok_maps t Hok). unfold value_num in Hlt. lia. }
        pose proof (λ id, ok_child t Hok p mc s id Hmc) as Hc.
        assert (mc !! s = Some (Z.of_nat i)) as E1 by (apply Hc; split_and!; [lia|done|done]).
        assert (mc !! s = Some id) as E2 by (apply Hc; split_and!; [lia|done|done]). congruence.
    + rewrite lookup_insert_ne by done. rewrite (Hmaps p m s' id Hm). split; [intros (? & ? & ?); split_and!; [lia|lia|done|done]|].
      intros (Hid & Hp' & Hs'). split_and!; [lia| |done|done].
      destruct (decide (id = Z.of_nat i)) as [->|]; [congruence|lia].
  - rewrite (Hmaps q mq s' id Hq). split; [intros (? & ? & ?); split_and!; [lia|lia|done|done]|].
    intros (Hid & Hp' & Hs'). split_and!; [lia| |done|done].
    destruct (decide (id = Z.of_nat i)) as [->|]; [congruence|lia].
Qed.

Lemma load_children_ok t n : ∀ i maps, table_ok t → (0 < i)%nat → Z.of_nat (i + n) = value_num t →
  maps_upto t (Z.of_nat i) maps →
  ∃ maps', foldM (load_child t) maps (seq i n) = Some maps' ∧ maps_upto t (value_num t) maps'.
Proof.
  induction n as [|n IH]; intros i maps Hok Hi Hn Hmaps; simpl.
  { exists maps. split; [done|]. rewrite Nat.add_0_r in Hn. by rewrite <- Hn. }
  destruct (load_child_ok t maps i Hok Hi) as (maps1 & -> & H1); [lia|done|].
  cbn [mbind option_bind]. apply (IH (S i)); [done|lia|lia|done].
Qed.

(** Opening the files of a well-formed table of fewer than 2^32 values
    gives the table back, whatever was in memory: the child maps are rebuilt.
    *)
Theorem open_restores t t0 :
  table_ok t → value_num t < 2 ^ 32 →
  open (Some (propStrVec_ t)) (Some (parentIdVec_ t)) (Some (indexTable_ (valueIdTable_ t)))
    (Some (multiValueTable_ (valueIdTable_ t))) t0 = Some (t, true).
Proof.
  intros Hok Hsize. unfold open. cbv zeta. fold (value_num t). pose proof (ok_size t Hok) as H0.
  rewrite u32_small by lia. unfold value_num at 1. rewrite Nat2Z.id, (ok_parents t Hok), Nat.eqb_refl.
  simpl negb. cbn iota. set (t1 := ValueTable (propStrVec_ t) (parentIdVec_ t) (childMapTable_ t0)
    (IdTable (indexTable_ (valueIdTable_ t)) (multiValueTable_ (valueIdTable_ t)))).
  assert (∀ maps l, foldM (load_child t1) maps l = foldM (load_child t) maps l) as Hext.
  { intros maps l. revert maps. induction l as [|i l IH]; intros maps; [done|]. simpl.
    change (load_child t1 maps i) with (load_child t maps i). destruct (load_child t maps i); [apply IH|done]. }
  rewrite Hext. unfold value_num. rewrite Nat2Z.id.
  destruct (load_children_ok t (length (propStrVec_ t) - 1) 1 (replicate (length (propStrVec_ t)) ∅))
    as (maps & -> & Hlen & Hmaps); [done|lia|unfold value_num in *; lia| |].
  { split; [by rewrite length_replicate|]. intros p m s id Hm.
    assert (m = ∅) as ->.
    { unfold vat in Hm. destruct (p <? 0); [done|]. by apply lookup_replicate in Hm as [-> _]. }
    rewrite lookup_empty. split; [done|]. intros [? _]. lia. }
  cbn [mbind option_bind]. assert (maps = childMapTable_ t) as ->.
  { apply list_eq_same_length with (length maps); [by rewrite Hlen, (ok_maps t Hok)|done|].
    intros i m m' Hi Hm Hm'. rewrite <- vat_nat in Hm, Hm'. apply map_eq. intros s. apply option_eq. intros id.
    rewrite (Hmaps _ _ s id Hm), (ok_child t Hok _ _ s id Hm'). split; [intros ([? _] & ? & ?); by split_and!|].
    intros (Hid & Hp & Hs). split_and!; [done| |done|done].
    apply (vat_lt (propStrVec_ t)). by eexists. }
  destruct t as [? ? ? []]. done.
Qed.

End table.

(** ** Witnesses *)

Definition empty_table : PropValueTable (U := string) := table_new EmptyString.

(** The table after the paths food/fruit and food/bread. *)
Definition grown (t : PropValueTable (U := string)) (path : list string) : PropValueTable :=
  match insertPropValueId path t with Some (t', _) => t' | None => t end.

Lemma grown_ok (t : PropValueTable (U := string)) path : table_ok t → table_ok (grown t path).
Proof.
  intros Hok. unfold grown, insertPropValueId.
  by destruct (insert_loop_ok path t 0 [] Hok (at_root t)) as (t' & r & -> & H & _).
Qed.

Definition foods : PropValueTable (U := string) := grown (grown empty_table ["food"; "fruit"]%string) ["food"; "bread"]%string.

(** Document 5 has the values 2 and 3. *)
Definition foods5 : PropValueTable (U := string) :=
  match setPropIdList 5 [2; 3] foods with Some (t, _) => t | None => foods end.

Lemma foods_ok : table_ok foods.
Proof. apply grown_ok, grown_ok, table_new_ok. Qed.

Lemma foods5_ok : table_ok foods5.
Proof. destruct foods_ok as [H1 H2 H3 H4 H5]. split; [exact H1|exact H2|exact H3|exact H4|exact H5]. Qed.

Lemma insertPropValueId_path_witness :
  ∃ t', insertPropValueId ["food"; "fruit"; "pear"]%string foods = Some (t', Some 4) ∧
        propValuePath 3 t' 4 [] = Some ["food"; "fruit"; "pear"]%string.
Proof.
  destruct (insertPropValueId_path foods ["food"; "fruit"; "pear"]%string foods_ok)
    as (t' & r & E & _ & _ & _ & _ & Hr).
  assert (r = Some 4) as -> by (vm_compute in E; by injection E).
  exists t'. split; [exact E|]. apply (proj2 Hr). simpl. lia.
Defined.

Lemma testDoc_prefix_witness :
  ∃ b, testDoc 9 foods5 5 1 = Some b ∧ b = true.
Proof.
  destruct (testDoc_prefix foods5 foods5_ok 5 1 [2; 3] 9) as (b & E & _).
  - vm_compute. reflexivity.
  - repeat constructor; unfold value_num; vm_compute; congruence.
  - vm_compute. congruence.
  - exists b. split; [exact E|]. vm_compute in E. by injection E.
Defined.

Lemma walks_reach_root_witness :
  ∃ l path, getParentIds 3 foods 3 = Some l ∧ l = [3; 1] ∧
    propValuePath 3 foods 3 [] = Some path ∧ path = ["food"; "bread"]%string.
Proof.
  destruct (walks_reach_root foods 3 3 foods_ok) as (l & path & El & _ & Ep & _).
  - split; vm_compute; congruence.
  - lia.
  - exists l, path. split_and!; [exact El| |exact Ep|].
    + vm_compute in El. by injection El.
    + vm_compute in Ep. by injection Ep.
Defined.

Lemma open_restores_witness :
  open (Some ["" ; "food"; "fruit"; "bread"]%string) (Some [0; 0; 1; 1]) (Some [0]) (Some []) empty_table
  = Some (foods, true).
Proof.
  apply (open_restores foods empty_table foods_ok). vm_compute. reflexivity.
Defined.
