(* ===== verification/AttrTable.v ===== *)
(** * Attributes of documents ([mining-manager/attr-manager/AttrTable.cpp, AttrLabel.cpp,
    AttrMiningTask.cpp])

    Names and values of attributes get numbers; a value belongs to one name, so
    equal texts under two names are two values.  A document has a list of
    values.  The theorems: building a document from its text stores exactly its
    attributes and leaves other documents alone, and a label accepts a document
    exactly when it has one of the values under the name.

    [std::map]s are only looked up and are [gmap]s. *)
From S2P Require Import Prelude CNum PropIdTable PropValueTable SplitText.

Section attr.
Context {U : Type} `{Countable U} (u_empty : U).

Record AttrTable := ATable {
  nameStrVec_ : list U;
  nameStrMap_ : gmap U Z;
  valueStrVec_ : list U;
  nameIdVec_ : list Z;
  valueStrTable_ : list (gmap U Z);
  attr_valueIdTable_ : PropIdTable }.

Definition attr_new : AttrTable := ATable [u_empty] ∅ [u_empty] [0] [] id_table_new.

(** ** Loading *)

Definition load_value (names : list Z) (values : list U) (tables : list (gmap U Z)) (i : nat) : option (list (gmap U Z)) :=
  nameId ← names !! i; value ← values !! i; m ← vat tables nameId;
  Some (<[Z.to_nat nameId := <[value := Z.of_nat i]> m]> tables).

(** [open] on the vectors of the files. *)
Definition attr_open (nameStrs valueStrs : list U) (nameIds : list Z) (tab : PropIdTable) : option AttrTable :=
  let names := fold_left (λ m i, match nameStrs !! i with Some s => <[s := Z.of_nat i]> m | None => m end)
    (seq 0 (length nameStrs)) ∅ in
  tables ← foldM (load_value nameIds valueStrs) (replicate (length nameStrs) ∅) (seq 0 (length valueStrs));
  Some (ATable nameStrs names valueStrs nameIds tables tab).

Definition attr_resize (num : nat) (t : AttrTable) : AttrTable :=
  ATable (nameStrVec_ t) (nameStrMap_ t) (valueStrVec_ t) (nameIdVec_ t) (valueStrTable_ t)
    (id_table_resize num (attr_valueIdTable_ t)).

Definition setValueIdList (docId : nat) (ids : list Z) (t : AttrTable) : option (AttrTable * bool) :=
  '(tab, ok) ← setIdList docId ids (attr_valueIdTable_ t);
  Some (ATable (nameStrVec_ t) (nameStrMap_ t) (valueStrVec_ t) (nameIdVec_ t) (valueStrTable_ t) tab, ok).

(** ** Names and values; without a number, [MiningException] was thrown *)

Definition insertNameId (name : U) (t : AttrTable) : AttrTable * option Z :=
  let nameId := u32 (Z.of_nat (length (nameStrVec_ t))) in
  match nameStrMap_ t !! name with
  | Some id => (t, Some id)
  | None =>
      let names := <[name := nameId]> (nameStrMap_ t) in
      if negb (nameId =? 0) then
        (ATable (nameStrVec_ t ++ [name]) names (valueStrVec_ t) (nameIdVec_ t) (valueStrTable_ t ++ [∅]) (attr_valueIdTable_ t),
         Some nameId)
      else (ATable (nameStrVec_ t) names (valueStrVec_ t) (nameIdVec_ t) (valueStrTable_ t) (attr_valueIdTable_ t), None)
  end.

Definition nameId (name : U) (t : AttrTable) : Z := default 0 (nameStrMap_ t !! name).

Definition insertValueId (nameId : Z) (value : U) (t : AttrTable) : option (AttrTable * option Z) :=
  let valueId := u32 (Z.of_nat (length (valueStrVec_ t))) in
  valueStrMap ← vat (valueStrTable_ t) nameId;
  match valueStrMap !! value with
  | Some id => Some (t, Some id)
  | None =>
      let tables := <[Z.to_nat nameId := <[value := valueId]> valueStrMap]> (valueStrTable_ t) in
      Some (if negb (valueId =? 0) then
              (ATable (nameStrVec_ t) (nameStrMap_ t) (valueStrVec_ t ++ [value]) (nameIdVec_ t ++ [nameId]) tables
                 (attr_valueIdTable_ t), Some valueId)
            else (ATable (nameStrVec_ t) (nameStrMap_ t) (valueStrVec_ t) (nameIdVec_ t) tables (attr_valueIdTable_ t), None))
  end.

Definition valueId (nameId : Z) (value : U) (t : AttrTable) : option Z :=
  valueStrMap ← vat (valueStrTable_ t) nameId; Some (default 0 (valueStrMap !! value)).

Definition nameStr (t : AttrTable) (nameId : Z) : option U := vat (nameStrVec_ t) nameId.
Definition valueStr (t : AttrTable) (valueId : Z) : option U := vat (valueStrVec_ t) valueId.
Definition valueId2NameId (t : AttrTable) (valueId : Z) : option Z := vat (nameIdVec_ t) valueId.

(** ** [AttrMiningTask::buildDocument] *)

(** The values of one name, then of all; the loops stop at an exception. *)
Fixpoint insert_values (nameId : Z) (values : list U) (t : AttrTable) (ids : list Z) : option (AttrTable * list Z * bool) :=
  match values with
  | [] => Some (t, ids, true)
  | value :: values =>
      '(t, r) ← insertValueId nameId value t;
      match r with
      | Some id => insert_values nameId values t (ids ++ [id])
      | None => Some (t, ids, false)
      end
  end.

Fixpoint insert_pairs (isExcludeAttrName : U → bool) (pairs : list (U * list U)) (t : AttrTable) (ids : list Z)
    : option (AttrTable * list Z) :=
  match pairs with
  | [] => Some (t, ids)
  | (name, values) :: pairs =>
      if isExcludeAttrName name then insert_pairs isExcludeAttrName pairs t ids
      else
        let '(t, r) := insertNameId name t in
        match r with
        | Some nameId =>
            '(t, ids, ok) ← insert_values nameId values t ids;
            if (ok : bool) then insert_pairs isExcludeAttrName pairs t ids else Some (t, ids)
        | None => Some (t, ids)
        end
  end.

(** A list that does not fit is refused and only logged. *)
Definition attr_buildDoc (isExcludeAttrName : U → bool) (docID : nat) (attrPairs : list (U * list U)) (t : AttrTable) : option AttrTable :=
  '(t, valueIdList) ← insert_pairs isExcludeAttrName attrPairs t [];
  '(t, _) ← setValueIdList docID valueIdList t; Some t.

(** ** [AttrLabel] *)

Record AttrLabel := ALabel { attrNameId_ : Z; targetValueIds_ : gset Z }.

Definition attr_label_new (t : AttrTable) (attrName : U) (attrValues : list U) : option AttrLabel :=
  let id := nameId attrName t in
  targets ← mapM (λ value, valueId id value t) attrValues;
  Some (ALabel id (list_to_set targets)).

(** [valueIdList.size()] values, read one by one. *)
Fixpoint any_target (t : AttrTable) (l : PropIdList) (targets : gset Z) (places : list nat) : option bool :=
  match places with
  | [] => Some false
  | i :: places => id ← list_at (attr_valueIdTable_ t) l i; if decide (id ∈ targets) then Some true else any_target t l targets places
  end.

Definition attr_label_test (t : AttrTable) (label : AttrLabel) (doc : nat) : option bool :=
  l ← getIdList (attr_valueIdTable_ t) doc;
  any_target t l (targetValueIds_ label) (seq 0 (Z.to_nat (list_size l))).

(** ** The invariant *)

(** Number 0 is kept for nothing. *)
Record attr_ok (t : AttrTable) : Prop := {
  at_tables : length (valueStrTable_ t) = length (nameStrVec_ t);
  at_lengths : length (nameIdVec_ t) = length (valueStrVec_ t);
  at_zero : nameStrVec_ t !! 0%nat = Some u_empty ∧ nameIdVec_ t !! 0%nat = Some 0;
  at_range : Forall (λ n, 0 ≤ n < Z.of_nat (length (nameStrVec_ t))) (nameIdVec_ t);
  at_named : ∀ i, vat (nameIdVec_ t) i = Some 0 → i = 0;
  at_name : ∀ s i, nameStrMap_ t !! s = Some i ↔ vat (nameStrVec_ t) i = Some s;
  at_value : ∀ n m s i, vat (valueStrTable_ t) n = Some m →
    m !! s = Some i ↔ vat (valueStrVec_ t) i = Some s ∧ vat (nameIdVec_ t) i = Some n;
  at_ids : id_table_ok (attr_valueIdTable_ t);
  at_docs : ∀ d ids, ids_of (attr_valueIdTable_ t) d = Some ids →
    Forall (λ id, 0 < id < Z.of_nat (length (valueStrVec_ t))) ids }.

(** The name and the text of a value. *)
Definition attr_value (t : AttrTable) (vid : Z) : option (U * U) :=
  nid ← valueId2NameId t vid; n ← nameStr t nid; v ← valueStr t vid; Some (n, v).

(** The attributes of a document, one by one. *)
Definition doc_attrs (t : AttrTable) (d : nat) : option (list (U * U)) :=
  ids ← ids_of (attr_valueIdTable_ t) d; mapM (attr_value t) ids.

(** [t'] knows more names and values. *)
Record extends (t t' : AttrTable) : Prop := {
  ex_value : ∀ id p, attr_value t id = Some p → attr_value t' id = Some p;
  ex_names : (length (nameStrVec_ t) ≤ length (nameStrVec_ t'))%nat;
  ex_values : (length (valueStrVec_ t) ≤ length (valueStrVec_ t'))%nat;
  ex_ids : attr_valueIdTable_ t' = attr_valueIdTable_ t }.

Lemma extends_refl t : extends t t.
Proof. by split. Qed.

Lemma extends_trans t1 t2 t3 : extends t1 t2 → extends t2 t3 → extends t1 t3.
Proof. intros [] []. split; [auto|lia|lia|congruence]. Qed.

Lemma attr_value_some t id : attr_ok t → 0 ≤ id < Z.of_nat (length (valueStrVec_ t)) → ∃ p, attr_value t id = Some p.
Proof.
  intros Hok Hid. unfold attr_value, valueId2NameId, nameStr, valueStr.
  destruct (proj2 (vat_lt (nameIdVec_ t) id)) as [n En]; [by rewrite (at_lengths t Hok)|].
  destruct (proj2 (vat_lt (valueStrVec_ t) id)) as [v Ev]; [done|]. rewrite En. cbn [mbind option_bind].
  destruct (proj2 (vat_lt (nameStrVec_ t) n)) as [s Es].
  { unfold vat in En. destruct (id <? 0); [done|]. by apply (Forall_lookup_1 _ _ _ _ (at_range t Hok) En). }
  rewrite Es, Ev. by eexists.
Qed.

Lemma vat_snoc_new {A} (v : list A) x : vat (v ++ [x]) (Z.of_nat (length v)) = Some x.
Proof. apply vat_snoc. by right. Qed.

Lemma vat_snoc_below {A} (v : list A) x i : i < Z.of_nat (length v) → vat (v ++ [x]) i = vat v i.
Proof.
  intros Hi. unfold vat. destruct (i <? 0) eqn:E; [done|]. bool_cases. apply lookup_app_l. lia.
Qed.

Lemma attr_value_grow t names values nids maps1 maps2 :
  attr_ok t → ∀ id p, attr_value t id = Some p →
  attr_value (ATable (nameStrVec_ t ++ names) maps1 (valueStrVec_ t ++ values) (nameIdVec_ t ++ nids) maps2 (attr_valueIdTable_ t)) id = Some p.
Proof.
  intros Hok id p. unfold attr_value, valueId2NameId, nameStr, valueStr. simpl.
  destruct (vat (nameIdVec_ t) id) as [n|] eqn:En; [|done]. cbn [mbind option_bind].
  destruct (vat (nameStrVec_ t) n) as [s|] eqn:Es; [|done]. cbn [mbind option_bind].
  destruct (vat (valueStrVec_ t) id) as [v|] eqn:Ev; [|done]. cbn [mbind option_bind].
  rewrite (vat_app_l _ _ _ _ En). cbn [mbind option_bind]. rewrite (vat_app_l _ _ _ _ Es). cbn [mbind option_bind].
  by rewrite (vat_app_l _ _ _ _ Ev).
Qed.

Lemma insertNameId_ok t name : attr_ok t → Z.of_nat (length (nameStrVec_ t)) < 2 ^ 32 →
  ∃ t' id, insertNameId name t = (t', Some id) ∧ attr_ok t' ∧ extends t t' ∧ vat (nameStrVec_ t') id = Some name ∧
  length (valueStrVec_ t') = length (valueStrVec_ t) ∧ (length (nameStrVec_ t') ≤ S (length (nameStrVec_ t)))%nat.
Proof.
  intros Hok Hlt. unfold insertNameId. rewrite u32_small by lia.
  destruct (nameStrMap_ t !! name) as [id|] eqn:E.
  { exists t, id. split_and!; [done|done|apply extends_refl|by apply (at_name t Hok)|done|lia]. }
  pose proof (proj1 (at_zero t Hok)) as H0%lookup_lt_Some. rewrite (proj2 (Z.eqb_neq _ _)) by lia. simpl negb. cbv iota.
  eexists _, _. split; [reflexivity|]. split_and!.
  - split; simpl.
    + rewrite !length_app. simpl. by rewrite (at_tables t Hok).
    + apply (at_lengths t Hok).
    + split; [rewrite lookup_app_l by lia|]; apply (at_zero t Hok).
    + eapply Forall_impl; [apply (at_range t Hok)|]. intros n Hn. rewrite length_app. simpl in *. lia.
    + apply (at_named t Hok).
    + intros s i. rewrite vat_snoc. destruct (decide (s = name)) as [->|Hne].
      * rewrite lookup_insert_eq. pose proof (at_name t Hok name i) as Hn. rewrite E in Hn. naive_solver.
      * rewrite lookup_insert_ne by done. rewrite (at_name t Hok). naive_solver.
    + intros n m s i Hm. apply vat_snoc in Hm as [Hm|[-> <-]]; [by apply (at_value t Hok)|].
      rewrite lookup_empty. split; [done|]. intros [_ Hn]. unfold vat in Hn. destruct (i <? 0); [done|].
      pose proof (Forall_lookup_1 _ _ _ _ (at_range t Hok) Hn) as Hr. simpl in Hr. rewrite (at_tables t Hok) in Hr. lia.
    + apply (at_ids t Hok).
    + apply (at_docs t Hok).
  - split; simpl; [|rewrite length_app; lia|lia|done]. intros id p Hp.
    pose proof (attr_value_grow t [name] [] [] (<[name:=Z.of_nat (length (nameStrVec_ t))]> (nameStrMap_ t))
      (valueStrTable_ t ++ [∅]) Hok id p Hp) as Hg. by rewrite !app_nil_r in Hg.
  - simpl. apply vat_snoc_new.
  - done.
  - simpl. rewrite length_app. simpl. lia.
Qed.

Lemma at_value_insert t nid value m : attr_ok t → vat (valueStrTable_ t) nid = Some m → m !! value = None →
  ∀ n m' s i, vat (<[Z.to_nat nid := <[value := Z.of_nat (length (valueStrVec_ t))]> m]> (valueStrTable_ t)) n = Some m' →
  m' !! s = Some i ↔ vat (valueStrVec_ t ++ [value]) i = Some s ∧ vat (nameIdVec_ t ++ [nid]) i = Some n.
Proof.
  intros Hok Em E n m' s i Hm. unfold vat in Hm. destruct (n <? 0) eqn:En0; [done|]. bool_cases.
  assert (0 ≤ nid < Z.of_nat (length (nameStrVec_ t))) as Hnid by (rewrite <- (at_tables t Hok); apply vat_lt; by eexists).
  destruct (Z.eq_dec n nid) as [->|Hd].
  * rewrite list_lookup_insert_eq in Hm by (rewrite (at_tables t Hok); lia). injection Hm as <-.
    rewrite !vat_snoc. rewrite (at_lengths t Hok). pose proof (at_value t Hok nid m s i Em) as Hv.
    assert (∀ x, vat (valueStrVec_ t) i = Some x → i < Z.of_nat (length (valueStrVec_ t))) as Hr.
    { intros x Hx. by apply (vat_lt (valueStrVec_ t) i). }
    assert (∀ x, vat (nameIdVec_ t) i = Some x → i < Z.of_nat (length (valueStrVec_ t))) as Hr'.
    { intros x Hx. rewrite <- (at_lengths t Hok). by apply (vat_lt (nameIdVec_ t) i). }
    destruct (decide (s = value)) as [->|Hs].
    -- rewrite lookup_insert_eq. rewrite E in Hv. split; [intros [= <-]; by auto|].
       intros [[Hx|[-> _]] [Hy|[? _]]]; try done; [by specialize (proj2 Hv (conj Hx Hy))|subst; by apply Hr in Hx; lia].
    -- rewrite lookup_insert_ne by done. rewrite Hv. split; [naive_solver|].
       intros [[Hx|[-> Hx]] [Hy|[Hz _]]]; try done. subst i. apply Hr in Hx. lia.
  * rewrite list_lookup_insert_ne in Hm by lia. rewrite (at_value t Hok n m' s i) by (unfold vat; by rewrite (proj2 (Z.ltb_ge n 0))).
    rewrite !vat_snoc, (at_lengths t Hok). split; [naive_solver|].
    intros [[Hx|[-> Hx]] [Hy|[Hz Hw]]]; try done.
    assert (is_Some (vat (nameIdVec_ t) (Z.of_nat (length (valueStrVec_ t))))) as Hl%vat_lt by by eexists.
    rewrite (at_lengths t Hok) in Hl. lia.
Qed.

Lemma insertValueId_ok t nid value name : attr_ok t → vat (nameStrVec_ t) nid = Some name → name ≠ u_empty →
  Z.of_nat (length (valueStrVec_ t)) < 2 ^ 32 →
  ∃ t' id, insertValueId nid value t = Some (t', Some id) ∧ attr_ok t' ∧ extends t t' ∧ attr_value t' id = Some (name, value) ∧
  0 < id < Z.of_nat (length (valueStrVec_ t')) ∧ nameStrVec_ t' = nameStrVec_ t ∧ (length (valueStrVec_ t') ≤ S (length (valueStrVec_ t)))%nat.
Proof.
  intros Hok Hname Hne Hlt. unfold insertValueId. rewrite u32_small by lia.
  assert (is_Some (vat (nameStrVec_ t) nid)) as Hnid%vat_lt by by eexists.
  destruct (proj2 (vat_lt (valueStrTable_ t) nid)) as [m Em]; [by rewrite (at_tables t Hok)|]. rewrite Em. cbn [mbind option_bind].
  destruct (at_zero t Hok) as [Hn0 Hi0]. pose proof (lookup_lt_Some _ _ _ Hi0) as H0. rewrite (at_lengths t Hok) in H0.
  assert (nid ≠ 0) as Hnz by (intros ->; change (nameStrVec_ t !! 0%nat = Some name) in Hname; congruence).
  destruct (m !! value) as [id|] eqn:E.
  { exists t, id. apply (at_value t Hok nid m value id Em) in E as [Ev En].
    assert (is_Some (vat (valueStrVec_ t) id)) as Hid%vat_lt by by eexists.
    split_and!; [done|done|apply extends_refl| | |lia|done|lia].
    - unfold attr_value, valueId2NameId, nameStr, valueStr. rewrite En. cbn [mbind option_bind]. by rewrite Hname, Ev.
    - destruct (decide (id = 0)) as [->|]; [|lia]. change (nameIdVec_ t !! 0%nat = Some nid) in En. congruence. }
  rewrite (proj2 (Z.eqb_neq _ _)) by lia. simpl negb. cbv iota. eexists _, _. split; [reflexivity|].
  assert (vat (nameIdVec_ t ++ [nid]) (Z.of_nat (length (valueStrVec_ t))) = Some nid) as Hnew.
  { rewrite <- (at_lengths t Hok). apply vat_snoc_new. }
  split_and!.
  - split; simpl.
    + by rewrite length_insert, (at_tables t Hok).
    + rewrite !length_app. simpl. by rewrite (at_lengths t Hok).
    + split; [done|]. by apply lookup_app_l_Some.
    + apply Forall_app. split; [apply (at_range t Hok)|]. by apply Forall_singleton.
    + intros i [Hi|[_ Hi]]%vat_snoc; [by apply (at_named t Hok)|done].
    + apply (at_name t Hok).
    + by apply at_value_insert.
    + apply (at_ids t Hok).
    + intros d ids Hd. eapply Forall_impl; [by apply (at_docs t Hok d)|]. intros x Hx. rewrite length_app. simpl in *. lia.
  - split; simpl; [|lia|rewrite length_app; lia|done]. intros id p Hp.
    pose proof (attr_value_grow t [] [value] [nid] (nameStrMap_ t)
      (<[Z.to_nat nid := <[value := Z.of_nat (length (valueStrVec_ t))]> m]> (valueStrTable_ t)) Hok id p Hp) as Hg. by rewrite !app_nil_r in Hg.
  - unfold attr_value, valueId2NameId, nameStr, valueStr. simpl. rewrite Hnew. cbn [mbind option_bind]. rewrite Hname. cbn [mbind option_bind].
    by rewrite vat_snoc_new.
  - lia.
  - simpl. rewrite length_app. simpl. lia.
  - done.
  - simpl. rewrite length_app. simpl. lia.
Qed.

(** ** Loading *)

Lemma name_map_ok (names : list U) k : (∀ i j s, names !! i = Some s → names !! j = Some s → i = j) → (k ≤ length names)%nat →
  ∀ s i, fold_left (λ m i, match names !! i with Some s => <[s := Z.of_nat i]> m | None => m end) (seq 0 k) (∅ : gmap U Z) !! s = Some i ↔
    i < Z.of_nat k ∧ vat names i = Some s.
Proof.
  intros Hinj. induction k as [|k IH]; intros Hk s i.
  { simpl. rewrite lookup_empty. split; [done|]. intros [Hi Hv]. assert (is_Some (vat names i)) as ?%vat_lt by by eexists. lia. }
  rewrite seq_S, fold_left_app. simpl. destruct (lookup_lt_is_Some_2 names k Hk) as [x Ex]. rewrite Ex.
  assert (vat names (Z.of_nat k) = Some x) as Evx by (by rewrite vat_nat).
  destruct (decide (x = s)) as [->|Hne].
  - rewrite lookup_insert_eq. split; [intros [= <-]; split; [lia|done]|]. intros [Hi Hv]. f_equal.
    unfold vat in Hv. destruct (i <? 0) eqn:E; [done|]. bool_cases. pose proof (Hinj _ _ _ Ex Hv). lia.
  - rewrite lookup_insert_ne by done. rewrite IH by lia. split; intros [Hi Hv]; (split; [|done]); [lia|].
    destruct (Z.eq_dec i (Z.of_nat k)) as [->|]; [congruence|lia].
Qed.

(** The maps after [k] values. *)
Definition tables_upto (names : list Z) (values : list U) (k : nat) (tables : list (gmap U Z)) : Prop :=
  ∀ n m s i, vat tables n = Some m → m !! s = Some i ↔ i < Z.of_nat k ∧ vat values i = Some s ∧ vat names i = Some n.

Lemma load_value_ok (names : list Z) (values : list U) size k tables n v :
  (∀ i j n s, vat values i = Some s → vat names i = Some n → vat values j = Some s → vat names j = Some n → i = j) →
  names !! k = Some n → values !! k = Some v → 0 ≤ n < size → Z.of_nat (length tables) = size → tables_upto names values k tables →
  ∃ tables', load_value names values tables k = Some tables' ∧ length tables' = length tables ∧ tables_upto names values (S k) tables'.
Proof.
  intros Hinj En Ev Hn Hlen Hup. unfold load_value. rewrite En, Ev. cbn [mbind option_bind].
  destruct (proj2 (vat_lt tables n)) as [m Em]; [lia|]. rewrite Em. cbn [mbind option_bind].
  eexists. split; [reflexivity|]. split; [apply length_insert|]. intros n' m' s i Hm.
  assert (vat names (Z.of_nat k) = Some n ∧ vat values (Z.of_nat k) = Some v) as [Evn Evv].
  { rewrite !vat_nat. done. }
  unfold vat in Hm. destruct (n' <? 0) eqn:E0; [done|]. bool_cases. destruct (Z.eq_dec n n') as [<-|Hne].
  - rewrite list_lookup_insert_eq in Hm by lia. injection Hm as <-. destruct (decide (v = s)) as [->|Hs].
    + rewrite lookup_insert_eq. split; [intros [= <-]; split_and!; [lia|done|done]|]. intros (_ & H1 & H2). f_equal. by eapply Hinj.
    + rewrite lookup_insert_ne by done. rewrite (Hup n m s i Em). split; intros (Hi & H1 & H2); (split; [|done]); [lia|].
      destruct (Z.eq_dec i (Z.of_nat k)) as [->|]; [congruence|lia].
  - rewrite list_lookup_insert_ne in Hm by lia. rewrite (Hup n' m' s i) by (unfold vat; by rewrite (proj2 (Z.ltb_ge n' 0))).
    split; intros (Hi & H1 & H2); (split; [|done]); [lia|]. destruct (Z.eq_dec i (Z.of_nat k)) as [->|]; [congruence|lia].
Qed.

Lemma load_values_ok (names : list Z) (values : list U) size k : length names = length values →
  (∀ i j n s, vat values i = Some s → vat names i = Some n → vat values j = Some s → vat names j = Some n → i = j) →
  Forall (λ n, 0 ≤ n < Z.of_nat size) names → (k ≤ length values)%nat →
  ∃ tables, foldM (load_value names values) (replicate size ∅) (seq 0 k) = Some tables ∧ length tables = size ∧
  tables_upto names values k tables.
Proof.
  intros Hlen Hinj Hr. induction k as [|k IH]; intros Hk.
  { eexists. split; [reflexivity|]. split; [apply length_replicate|]. intros n m s i Hm. unfold vat in Hm. destruct (n <? 0); [done|].
    apply lookup_replicate in Hm as [-> _]. rewrite lookup_empty. split; [done|]. intros (Hi & Hv & _).
    assert (is_Some (vat values i)) as ?%vat_lt by by eexists. lia. }
  destruct (IH ltac:(lia)) as (tables & E & Hsize & Hup). rewrite seq_S, foldM_app, E. cbn [mbind option_bind foldM].
  destruct (lookup_lt_is_Some_2 values k Hk) as [v Ev]. destruct (lookup_lt_is_Some_2 names k) as [n En]; [lia|].
  destruct (load_value_ok names values (Z.of_nat size) k tables n v Hinj En Ev) as (t' & E' & Hsize' & Hup'); [|lia|done|].
  { by apply (Forall_lookup_1 _ _ _ _ Hr En). }
  simpl. rewrite E'. exists t'. split_and!; [done|lia|done].
Qed.

Lemma attr_inj t i j n s : attr_ok t → vat (valueStrVec_ t) i = Some s → vat (nameIdVec_ t) i = Some n →
  vat (valueStrVec_ t) j = Some s → vat (nameIdVec_ t) j = Some n → i = j.
Proof.
  intros Hok H1 H2 H3 H4. assert (is_Some (vat (nameStrVec_ t) n)) as Hn%vat_lt.
  { unfold vat in H2. destruct (i <? 0); [done|]. apply vat_lt. by apply (Forall_lookup_1 _ _ _ _ (at_range t Hok) H2). }
  destruct (proj2 (vat_lt (valueStrTable_ t) n)) as [m Em]; [by rewrite (at_tables t Hok)|].
  pose proof (at_value t Hok n m s) as Hv. specialize (Hv) as Hi. pose proof (proj2 (Hi i Em) (conj H1 H2)).
  pose proof (proj2 (Hi j Em) (conj H3 H4)). congruence.
Qed.

(** *)
Theorem attr_open_restores t : attr_ok t →
  attr_open (nameStrVec_ t) (valueStrVec_ t) (nameIdVec_ t) (attr_valueIdTable_ t) = Some t.
Proof.
  intros Hok. unfold attr_open.
  destruct (load_values_ok (nameIdVec_ t) (valueStrVec_ t) (length (nameStrVec_ t)) (length (valueStrVec_ t)) (at_lengths t Hok))
    as (tables & -> & Hlen & Hup); [by intros; eapply attr_inj|apply (at_range t Hok)|done|].
  cbn [mbind option_bind].
  pose proof (name_map_ok (nameStrVec_ t) (length (nameStrVec_ t))) as Hmap. set (names := fold_left _ _ _) in *.
  assert (names = nameStrMap_ t) as ->.
  { apply map_eq. intros s. apply option_eq. intros i. rewrite Hmap; [|intros a b x Ha Hb|done].
    - rewrite (at_name t Hok). split; [by intros []|]. intros Hv. split; [|done]. apply vat_lt. by eexists.
    - apply Nat2Z.inj. pose proof (at_name t Hok x) as Hx. pose proof (proj2 (Hx (Z.of_nat a))) as H1. pose proof (proj2 (Hx (Z.of_nat b))) as H2.
      rewrite vat_nat in H1, H2. specialize (H1 Ha). specialize (H2 Hb). congruence. }
  assert (tables = valueStrTable_ t) as ->; [|by destruct t].
  apply list_eq. intros n. destruct (tables !! n) as [m|] eqn:Em; destruct (valueStrTable_ t !! n) as [m'|] eqn:Em'.
  - f_equal. apply map_eq. intros s. apply option_eq. intros i.
    assert (vat tables (Z.of_nat n) = Some m ∧ vat (valueStrTable_ t) (Z.of_nat n) = Some m') as [H1 H2] by (rewrite !vat_nat; done).
    rewrite (Hup _ _ _ _ H1), (at_value t Hok _ _ _ _ H2). split; [by intros (_ & ?)|]. intros [Hv ?]. split; [|done].
    apply vat_lt. by eexists.
  - apply lookup_lt_Some in Em. apply lookup_ge_None in Em'. rewrite (at_tables t Hok) in Em'. lia.
  - apply lookup_ge_None in Em. apply lookup_lt_Some in Em'. rewrite (at_tables t Hok) in Em'. lia.
  - done.
Qed.

(** ** Building a document *)

Definition pairs_of (name : U) (values : list U) : list (U * U) := map (pair name) values.

Lemma length_pairs_of name values : length (pairs_of name values) = length values.
Proof. apply length_map. Qed.

Lemma attr_values_mono t t' ids l : extends t t' → mapM (attr_value t) ids = Some l → mapM (attr_value t') ids = Some l.
Proof.
  intros Hx. rewrite !mapM_Some. intros H2. eapply Forall2_impl; [exact H2|]. intros id p. apply (ex_value t t' Hx).
Qed.

(** The numbers of the values seen so far. *)
Definition numbers (t : AttrTable) (ids : list Z) (l : list (U * U)) : Prop :=
  mapM (attr_value t) ids = Some l ∧ Forall (λ id, 0 < id < Z.of_nat (length (valueStrVec_ t))) ids.

Lemma numbers_mono t t' ids l : extends t t' → numbers t ids l → numbers t' ids l.
Proof.
  intros Hx [E Hr]. split; [by eapply attr_values_mono|]. eapply Forall_impl; [exact Hr|]. intros x Hlt.
  pose proof (ex_values t t' Hx). simpl in *. lia.
Qed.

Lemma numbers_snoc t ids l id p : numbers t ids l → attr_value t id = Some p → 0 < id < Z.of_nat (length (valueStrVec_ t)) →
  numbers t (ids ++ [id]) (l ++ [p]).
Proof.
  intros [E Hr] Hp Hid. split; [|apply Forall_app; split; [done|by apply Forall_singleton]].
  apply mapM_Some. apply mapM_Some in E. apply Forall2_app; [done|]. by repeat constructor.
Qed.

Lemma insert_values_ok nid name values : name ≠ u_empty → ∀ t ids l, attr_ok t → vat (nameStrVec_ t) nid = Some name →
  Z.of_nat (length (valueStrVec_ t)) + Z.of_nat (length values) ≤ 2 ^ 32 → numbers t ids l →
  ∃ t' ids', insert_values nid values t ids = Some (t', ids', true) ∧ attr_ok t' ∧ extends t t' ∧
  numbers t' ids' (l ++ pairs_of name values) ∧ nameStrVec_ t' = nameStrVec_ t ∧
  (length (valueStrVec_ t') ≤ length (valueStrVec_ t) + length values)%nat.
Proof.
  intros Hne. induction values as [|v values IH]; intros t ids l Hok Hname Hlt Hl.
  { exists t, ids. unfold pairs_of. simpl. rewrite app_nil_r. split_and!; [done|done|apply extends_refl|done|done|lia]. }
  cbn [length] in Hlt.
  destruct (insertValueId_ok t nid v name Hok Hname Hne ltac:(lia)) as (t1 & id & E1 & Hok1 & Hx1 & Hid & Hr & Hn1 & Hlen).
  cbn [insert_values]. rewrite E1. cbn [mbind option_bind].
  destruct (IH t1 (ids ++ [id]) (l ++ [(name, v)]) Hok1) as (t' & ids' & E & Hok' & Hx & Hl' & Hn & Hlen'); [by rewrite Hn1|lia| |].
  { apply numbers_snoc; [by eapply numbers_mono|done|done]. }
  exists t', ids'. split_and!; [done|done|by eapply extends_trans|by rewrite <- app_assoc in Hl'|by rewrite Hn|simpl; lia].
Qed.

Context (isExcludeAttrName : U → bool).

(** The attributes that are kept. *)
Definition kept_pairs (pairs : list (U * list U)) : list (U * list U) := filter (λ p, isExcludeAttrName p.1 = false) pairs.

Definition flat_pairs (pairs : list (U * list U)) : list (U * U) := concat (map (λ p, pairs_of p.1 p.2) (kept_pairs pairs)).

Lemma insert_pairs_ok pairs : Forall (λ p, p.1 ≠ u_empty) (kept_pairs pairs) → ∀ t ids l, attr_ok t →
  Z.of_nat (length (nameStrVec_ t)) + Z.of_nat (length pairs) ≤ 2 ^ 32 →
  Z.of_nat (length (valueStrVec_ t)) + Z.of_nat (length (flat_pairs pairs)) ≤ 2 ^ 32 → numbers t ids l →
  ∃ t' ids', insert_pairs isExcludeAttrName pairs t ids = Some (t', ids') ∧ attr_ok t' ∧ extends t t' ∧
  numbers t' ids' (l ++ flat_pairs pairs) ∧
  (length (valueStrVec_ t') ≤ length (valueStrVec_ t) + length (flat_pairs pairs))%nat.
Proof.
  unfold flat_pairs, kept_pairs.
  induction pairs as [|[name values] pairs IH]; intros Hne t ids l Hok Hn Hv Hl.
  { exists t, ids. simpl. rewrite app_nil_r. split_and!; [done|done|apply extends_refl|done|lia]. }
  cbn [insert_pairs length] in *. rewrite filter_cons in *. simpl in *.
  destruct (isExcludeAttrName name); simpl in *; [apply IH; [done|done|lia|done|done]|].
  inversion_clear Hne as [|?? Hname Hne']. rewrite length_app, length_pairs_of in *.
  destruct (insertNameId_ok t name Hok ltac:(lia)) as (t1 & nid & E1 & Hok1 & Hx1 & Hnid & Hlen1 & Hnl). rewrite E1.
  destruct (insert_values_ok nid name values Hname t1 ids l Hok1 Hnid ltac:(lia) (numbers_mono _ _ _ _ Hx1 Hl))
    as (t2 & ids2 & E2 & Hok2 & Hx2 & Hl2 & Hn2 & Hlen2). rewrite E2. cbn [mbind option_bind].
  destruct (IH Hne' t2 ids2 (l ++ pairs_of name values) Hok2) as (t' & ids' & E & Hok' & Hx & Hl' & Hlen'); [rewrite Hn2; lia|lia|exact Hl2|].
  exists t', ids'. split_and!; [done|done|by eapply extends_trans; [|eapply extends_trans]| |lia]. by rewrite <- app_assoc in Hl'.
Qed.

Lemma attr_values_total t ids : attr_ok t → Forall (λ id, 0 < id < Z.of_nat (length (valueStrVec_ t))) ids →
  ∃ l, mapM (attr_value t) ids = Some l.
Proof.
  intros Hok. induction 1 as [|id ids Hid _ [l E]]; [by exists []|]. destruct (attr_value_some t id Hok) as [p Ep]; [lia|].
  exists (p :: l). cbn [mapM]. simpl. rewrite Ep. cbn [mbind option_bind]. by rewrite E.
Qed.

Lemma attr_buildDoc_ok t docID pairs : attr_ok t → Z.of_nat docID + 1 < 2 ^ 32 →
  Forall (λ p, p.1 ≠ u_empty) (kept_pairs pairs) → Z.of_nat (length (nameStrVec_ t)) + Z.of_nat (length pairs) ≤ 2 ^ 32 →
  Z.of_nat (length (valueStrVec_ t)) + Z.of_nat (length (flat_pairs pairs)) ≤ 2 ^ 31 →
  Z.of_nat (length (multiValueTable_ (attr_valueIdTable_ t))) < 2 ^ 31 →
  ∃ t', attr_buildDoc isExcludeAttrName docID pairs t = Some t' ∧ attr_ok t' ∧
  doc_attrs t' docID = Some (flat_pairs pairs) ∧ ∀ d, d ≠ docID → doc_attrs t' d = doc_attrs t d ∧ is_Some (doc_attrs t d).
Proof.
  intros Hok Hdoc Hne Hn Hv Hm. unfold attr_buildDoc.
  destruct (insert_pairs_ok pairs Hne t [] [] Hok) as (t1 & ids & E1 & Hok1 & Hx1 & [Hl Hr] & Hlen); [lia|lia|by split|].
  rewrite E1. cbn [mbind option_bind]. rewrite app_nil_l in Hl. pose proof Hl as Hcount%length_mapM.
  unfold setValueIdList. rewrite (ex_ids t t1 Hx1).
  destruct (setIdList_ok (attr_valueIdTable_ t) docID ids (at_ids t Hok) Hdoc) as (tab & E & Htab & Hreads).
  { rewrite Hcount. lia. }
  { eapply Forall_impl; [exact Hr|]. simpl. lia. }
  assert (id_overflow ids (attr_valueIdTable_ t) = false) as Hno.
  { unfold id_overflow. rewrite INDEX_MSB_eq. destruct ids as [|x [|y ids]]; [done| |apply Z.leb_gt; lia].
    rewrite Forall_singleton in Hr. apply Z.leb_gt. lia. }
  assert (stored ids = ids) as Hst.
  { destruct ids as [|x [|y ids]]; [done| |done]. rewrite Forall_singleton in Hr. simpl. by rewrite (proj2 (Z.eqb_neq x 0)) by lia. }
  rewrite E. cbn [mbind option_bind]. rewrite Hno in Hreads. rewrite Hst in Hreads. cbn [negb] in Hreads. eexists. split; [reflexivity|].
  set (t' := ATable _ _ _ _ _ tab).
  assert (∀ d, ids_of tab d = if (d =? docID)%nat then Some ids else ids_of (attr_valueIdTable_ t) d) as Hids.
  { intros d. rewrite (proj1 (Hreads d)). by rewrite andb_true_r. }
  split_and!.
  - destruct Hok1 as [H1 H2 H3 H4 Hnamed H5 H6 _ H8]. split; try done. intros d l. simpl. rewrite Hids.
    destruct (d =? docID)%nat; [intros [= <-]; exact Hr|]. intros Hd. apply (H8 d). by rewrite (ex_ids t t1 Hx1).
  - unfold doc_attrs. simpl. rewrite Hids, Nat.eqb_refl. exact Hl.
  - intros d Hd. unfold doc_attrs. simpl. rewrite Hids, (proj2 (Nat.eqb_neq d docID) Hd).
    destruct (ids_of_total (attr_valueIdTable_ t) d (at_ids t Hok)) as [l El]. rewrite El. cbn [mbind option_bind].
    destruct (attr_values_total t l Hok (at_docs t Hok d l El)) as [ps Eps]. rewrite Eps. split; [|by eexists].
    change (mapM (attr_value t1) l = Some ps). by apply (attr_values_mono t t1).
Qed.

(** ** Labels *)

Lemma any_target_ok t l targets places ids : mapM (list_at (attr_valueIdTable_ t) l) places = Some ids →
  any_target t l targets places = Some (existsb (λ id, bool_decide (id ∈ targets)) ids).
Proof.
  rewrite mapM_Some. induction 1 as [|i id places ids Hi _ IH]; [done|]. simpl. rewrite Hi. cbn [mbind option_bind].
  destruct (decide (id ∈ targets)) as [Hin|Hin].
  - by rewrite bool_decide_true.
  - by rewrite bool_decide_false.
Qed.

(** The table of a name, empty but for the number 0 when it is unknown. *)
Lemma name_table t name : attr_ok t → name ≠ u_empty → ∃ m, vat (valueStrTable_ t) (nameId name t) = Some m ∧
  ∀ v id, 0 < id → m !! v = Some id ↔ attr_value t id = Some (name, v).
Proof.
  intros Hok Hne. destruct (at_zero t Hok) as [Hn0 Hi0]. pose proof (lookup_lt_Some _ _ _ Hn0) as H0.
  assert (0 ≤ nameId name t < Z.of_nat (length (nameStrVec_ t))) as Hr.
  { unfold nameId. destruct (nameStrMap_ t !! name) as [n|] eqn:E; simpl; [|lia].
    apply (at_name t Hok) in E. apply vat_lt. by eexists. }
  destruct (proj2 (vat_lt (valueStrTable_ t) (nameId name t))) as [m Em]; [by rewrite (at_tables t Hok)|].
  exists m. split; [done|]. intros v id Hid. rewrite (at_value t Hok _ m v id Em).
  unfold attr_value, valueId2NameId, nameStr, valueStr. split.
  - intros [Ev En]. rewrite En, Ev. cbn [mbind option_bind]. unfold nameId in *.
    destruct (nameStrMap_ t !! name) as [n|] eqn:E; simpl in *; [|by apply (at_named t Hok) in En; lia].
    apply (at_name t Hok) in E. by rewrite E.
  - destruct (vat (nameIdVec_ t) id) as [n|] eqn:En; [|done]. cbn [mbind option_bind].
    destruct (vat (nameStrVec_ t) n) as [s|] eqn:Es; [|done]. cbn [mbind option_bind].
    destruct (vat (valueStrVec_ t) id) as [x|]; [|done]. cbn [mbind option_bind]. intros [= -> ->]. split; [done|].
    apply (at_name t Hok) in Es. unfold nameId. by rewrite Es.
Qed.

(** *)
Theorem attr_label_selects t name values d ps : attr_ok t → name ≠ u_empty → doc_attrs t d = Some ps →
  ∃ label b, attr_label_new t name values = Some label ∧ attr_label_test t label d = Some b ∧
  (b = true ↔ ∃ v, v ∈ values ∧ (name, v) ∈ ps).
Proof.
  intros Hok Hne Hd. destruct (name_table t name Hok Hne) as (m & Em & Hm). unfold attr_label_new.
  assert (mapM (λ v, valueId (nameId name t) v t) values = Some (map (λ v, default 0 (m !! v)) values)) as ->.
  { apply mapM_Some. apply Forall2_fmap_r, Forall_Forall2_diag, Forall_true. intros v. unfold valueId. by rewrite Em. }
  cbn [mbind option_bind].
  unfold doc_attrs in Hd. destruct (ids_of (attr_valueIdTable_ t) d) as [ids|] eqn:Ei; [|done]. cbn [mbind option_bind] in Hd.
  destruct (ids_of_list _ d ids (at_ids t Hok) Ei) as (l & El & _ & Hl).
  eexists _, _. split; [reflexivity|]. unfold attr_label_test. rewrite El. cbn [mbind option_bind].
  rewrite (any_target_ok t l _ _ ids Hl). split; [reflexivity|]. simpl targetValueIds_.
  pose proof (at_docs t Hok d ids Ei) as Hpos. apply mapM_Some in Hd. rewrite Forall_forall in Hpos.
  rewrite existsb_exists. setoid_rewrite bool_decide_eq_true. setoid_rewrite elem_of_list_to_set. setoid_rewrite <- list_elem_of_In.
  setoid_rewrite list_elem_of_fmap. split.
  - intros (id & Hin & v & Hv & Hvs). exists v. split; [done|]. destruct (Hpos id Hin) as [Hid _].
    destruct (m !! v) as [x|] eqn:Ex; simpl in Hv; [subst x|lia]. apply (Hm v id Hid) in Ex.
    destruct (proj1 (list_elem_of_lookup _ _) Hin) as [k Hk]. destruct (Forall2_lookup_l _ _ _ _ _ Hd Hk) as (p & Hp & E).
    rewrite Ex in E. injection E as <-. by eapply list_elem_of_lookup_2.
  - intros (v & Hvs & Hin). destruct (proj1 (list_elem_of_lookup _ _) Hin) as [k Hk].
    destruct (Forall2_lookup_r _ _ _ _ _ Hd Hk) as (id & Hid & E). exists id. split; [by eapply list_elem_of_lookup_2|].
    exists v. split; [|done]. destruct (Hpos id) as [Hp _]; [by eapply list_elem_of_lookup_2|]. apply (Hm v id Hp) in E. by rewrite E.
Qed.
End attr.

(** ** [AttrMiningTask::buildDocument] *)

(** A document without the property has no attributes. *)
Definition attr_buildDocument (compact : ustring → ustring) (isExcludeAttrName : ustring → bool) (docID : nat)
    (propValue : option ustring) (t : AttrTable) : option AttrTable :=
  attrPairs ← match propValue with Some propValue => split_attr_pair compact propValue | None => Some [] end;
  attr_buildDoc isExcludeAttrName docID attrPairs t.

Lemma pairs_text_named compact pairs s : pairs_text compact pairs s → Forall (λ p, p.1 ≠ []) pairs.
Proof. induction 1 as [|n t vs s [Hn _]%written_nonempty|n t vs s ps r [Hn _]%written_nonempty _ _ IH]; repeat constructor; done. Qed.

(** Mining the attributes of a document: every printed list of
    attributes, each value plain or in quotes, is split, and the table then
    holds for the document exactly the pairs of name and value of the text,
    without the excluded names; other documents keep theirs. The table stays
    well formed. *)
Theorem attr_mining_reads compact isExcludeAttrName t docID pairs text : attr_ok [] t → Z.of_nat docID + 1 < 2 ^ 32 →
  pairs_text compact pairs text → Z.of_nat (length (nameStrVec_ t)) + Z.of_nat (length pairs) ≤ 2 ^ 32 →
  Z.of_nat (length (valueStrVec_ t)) + Z.of_nat (length (flat_pairs isExcludeAttrName pairs)) ≤ 2 ^ 31 →
  Z.of_nat (length (multiValueTable_ (attr_valueIdTable_ t))) < 2 ^ 31 →
  ∃ t', attr_buildDocument compact isExcludeAttrName docID (Some text) t = Some t' ∧ attr_ok [] t' ∧
  doc_attrs t' docID = Some (flat_pairs isExcludeAttrName pairs) ∧
  ∀ d, d ≠ docID → doc_attrs t' d = doc_attrs t d ∧ is_Some (doc_attrs t d).
Proof.
  intros Hok Hdoc Hp Hn Hv Hm. unfold attr_buildDocument. rewrite (split_attr_pair_reads compact pairs text Hp). cbn [mbind option_bind].
  apply attr_buildDoc_ok; [done|done| |done|done|done]. apply Forall_forall. intros p [_ Hin]%list_elem_of_filter.
  pose proof (pairs_text_named _ _ _ Hp) as Hall. rewrite Forall_forall in Hall. by apply Hall.
Qed.

(** ** Witnesses *)

(** A table after [open] on no files. *)
Definition attr_start : AttrTable (U := ustring) := ATable [[]] {[[] := 0]} [[]] [0] [{[[] := 0]}] id_table_new.

Lemma attr_start_open : attr_open [[]] [[]] [0] id_table_new = Some attr_start.
Proof. vm_compute. reflexivity. Qed.

Lemma vat_one {A} (x y : A) i : vat [x] i = Some y ↔ i = 0 ∧ y = x.
Proof.
  unfold vat. destruct (i <? 0) eqn:E; bool_cases; [naive_solver lia|]. destruct (Z.to_nat i) as [|k] eqn:Ei; simpl.
  - assert (i = 0) as -> by lia. naive_solver.
  - split; [done|]. intros [-> _]. done.
Qed.

Lemma attr_start_ok : attr_ok [] attr_start.
Proof.
  split; simpl; try done.
  - by apply Forall_singleton.
  - by intros i [-> _]%vat_one.
  - intros s i. rewrite vat_one, lookup_singleton_Some. naive_solver.
  - intros n m s i [-> ->]%vat_one. rewrite lookup_singleton_Some, !vat_one. naive_solver.
  - unfold id_table_ok. apply Forall_singleton. left. rewrite INDEX_MSB_eq. lia.
  - intros d ids Hd. assert (ids = []) as ->; [|done]. destruct d as [|d]; vm_compute in Hd; by injection Hd as <-.
Qed.

(** The attribute [id] is excluded. *)
Definition no_id (s : ustring) : bool := bool_decide (s = chars "id").

Definition shirt_pairs : list (ustring * list ustring) :=
  [(chars "colour", [chars "red"; chars "blue"]); (chars "id", [chars "7"]); (chars "size", [chars "S"])].
Definition shirt_text : ustring := chars "colour:red|blue,id:7,size:S".

Lemma shirt_text_ok : pairs_text no_compact shirt_pairs shirt_text.
Proof.
  change shirt_text with (chars "colour" ++ COLON :: (chars "red" ++ VL :: chars "blue") ++ COMMA :: (chars "id" ++ COLON :: chars "7" ++
    COMMA :: (chars "size" ++ COLON :: chars "S"))).
  repeat first [apply more_pairs | apply last_pair | apply more_values | apply one_value | by apply plain].
Qed.

Lemma attr_mining_reads_witness :
  ∃ t, attr_buildDocument no_compact no_id 3 (Some shirt_text) attr_start = Some t ∧ attr_ok [] t ∧
  doc_attrs t 3 = Some [(chars "colour", chars "red"); (chars "colour", chars "blue"); (chars "size", chars "S")] ∧
  doc_attrs t 1 = Some [].
Proof.
  destruct (attr_mining_reads no_compact no_id attr_start 3 shirt_pairs shirt_text) as (t & E & Hok & Hd & Ho).
  - exact attr_start_ok.
  - done.
  - exact shirt_text_ok.
  - vm_compute. congruence.
  - vm_compute. congruence.
  - done.
  - exists t. split_and!; [exact E|exact Hok|rewrite Hd; vm_compute; reflexivity|].
    destruct (Ho 1%nat) as [-> _]; [done|]. vm_compute. reflexivity.
Defined.

Lemma attr_open_restores_witness : attr_open (nameStrVec_ attr_start) (valueStrVec_ attr_start) (nameIdVec_ attr_start)
  (attr_valueIdTable_ attr_start) = Some attr_start.
Proof. exact (attr_open_restores [] attr_start attr_start_ok). Defined.

(** The table with the two shirts. *)
Definition shirts : AttrTable (U := ustring) := default attr_start (attr_buildDoc no_id 3 shirt_pairs attr_start).

Lemma shirts_ok : attr_ok [] shirts ∧ doc_attrs shirts 3 = Some (flat_pairs no_id shirt_pairs).
Proof.
  destruct (attr_buildDoc_ok [] no_id attr_start 3 shirt_pairs) as (t & E & Hok & Hd & _);
    [exact attr_start_ok|done|repeat constructor; done|vm_compute; congruence|vm_compute; congruence|done|].
  assert (t = shirts) as -> by (unfold shirts; by rewrite E). done.
Qed.

Lemma attr_label_selects_witness :
  ∃ label, attr_label_new shirts (chars "colour") [chars "green"; chars "blue"] = Some label ∧ attr_label_test shirts label 3 = Some true.
Proof.
  destruct (attr_label_selects [] shirts (chars "colour") [chars "green"; chars "blue"] 3 _ (proj1 shirts_ok) ltac:(done) (proj2 shirts_ok))
    as (label & b & El & Et & Hb).
  exists label. split; [exact El|]. rewrite Et. f_equal. apply Hb. exists (chars "blue"). split; apply list_elem_of_In; vm_compute; auto.
Defined.
