(* ===== verification/Phrases.v ===== *)
(** * Bid phrases and keyword ids ([AdSponsoredMgr.cpp], part 1)

    A bid phrase is a vector of keyword ids; a keyword gets its id at its first
    use.  The file models the two tables of keywords, the two overloads of
    [generateBidPhrase], the text of a phrase ([getBidPhraseStr]) and the text
    that the click log uses ([preprocessBidPhraseStr]), and the [std::set] of
    strings the manager keeps phrases in.

    The tokenizer ([TitlePCAWrapper::pca], a dictionary based library) and
    [boost::to_lower] are the class [TitlePCA]. *)
From S2P Require Import Prelude CNum Env.
From Stdlib Require Import Ascii.

Definition MAX_BIDPHRASE_LEN : nat := 5.

(** ** [std::set<std::string>] *)

(** [std::string::operator<]: bytes compared as unsigned numbers. *)
Fixpoint str_lt (a b : string) : bool :=
  match a, b with
  | _, EmptyString => false
  | EmptyString, String _ _ => true
  | String c a, String d b =>
      if (N_of_ascii c <? N_of_ascii d)%N then true
      else if (N_of_ascii d <? N_of_ascii c)%N then false
      else str_lt a b
  end.

Fixpoint sset_insert (x : string) (s : list string) : list string :=
  match s with
  | [] => [x]
  | y :: s' => if str_lt x y then x :: s else if str_lt y x then y :: sset_insert x s' else s
  end.

Definition sset_erase (x : string) (s : list string) : list string := filter (λ y, y ≠ x) s.

(** [s.insert(l.begin(), l.end())]. *)
Definition sset_insert_all (l s : list string) : list string :=
  fold_left (λ s x, sset_insert x s) l s.

(** Iterated in increasing order, without repetitions. *)
Definition sset_ok (s : list string) : Prop := StronglySorted (λ x y, str_lt x y = true) s.

Lemma N_of_ascii_inj c d : N_of_ascii c = N_of_ascii d → c = d.
Proof. intros H. by rewrite <- (ascii_N_embedding c), H, ascii_N_embedding. Qed.

Lemma str_lt_total a b : str_lt a b = false → str_lt b a = false → a = b.
Proof.
  revert b. induction a as [|c a IH]; intros [|d b]; simpl; try done.
  destruct (N.ltb_spec (N_of_ascii c) (N_of_ascii d)); [done|].
  destruct (N.ltb_spec (N_of_ascii d) (N_of_ascii c)); [done|]. intros H1 H2.
  f_equal; [apply N_of_ascii_inj; lia|by apply IH].
Qed.

#[export] Instance str_lt_strict : StrictWeakOn (λ _, True) str_lt.
Proof.
  split.
  - intros x y _ _. revert y. induction x as [|c x IH]; intros [|d y]; simpl; try done.
    destruct (N.ltb_spec (N_of_ascii c) (N_of_ascii d)), (N.ltb_spec (N_of_ascii d) (N_of_ascii c));
      try lia; try done. apply IH.
  - intros x y z _ _ _. revert y z. induction x as [|c x IH]; intros [|d y] [|e z]; simpl; try done.
    destruct (N.ltb_spec (N_of_ascii c) (N_of_ascii d)), (N.ltb_spec (N_of_ascii d) (N_of_ascii c)),
      (N.ltb_spec (N_of_ascii d) (N_of_ascii e)), (N.ltb_spec (N_of_ascii e) (N_of_ascii d)),
      (N.ltb_spec (N_of_ascii c) (N_of_ascii e)), (N.ltb_spec (N_of_ascii e) (N_of_ascii c));
      try lia; try done. apply IH.
Qed.

Lemma str_lt_trans a b c : str_lt a b = true → str_lt b c = true → str_lt a c = true.
Proof. by apply (swo_trans (P := λ _, True)). Qed.

Lemma str_lt_irrefl a : str_lt a a = false.
Proof. by apply (swo_irrefl (P := λ _, True)). Qed.

Lemma elem_of_sset_insert x y s : y ∈ sset_insert x s ↔ y = x ∨ y ∈ s.
Proof.
  induction s as [|z s IH]; simpl; [set_solver|].
  destruct (str_lt x z) eqn:E1; [set_solver|]. destruct (str_lt z x) eqn:E2; [set_solver|].
  pose proof (str_lt_total _ _ E1 E2). set_solver.
Qed.

Lemma sset_insert_ok x s : sset_ok s → sset_ok (sset_insert x s).
Proof.
  unfold sset_ok. induction 1 as [|z s Hs IH Hz]; simpl; [repeat constructor|].
  destruct (str_lt x z) eqn:E1.
  - constructor; [by constructor|]. constructor; [done|].
    eapply Forall_impl; [exact Hz|]. intros y Hy. by eapply str_lt_trans.
  - destruct (str_lt z x) eqn:E2; constructor; try done.
    rewrite Forall_forall in Hz |- *. intros y Hy. apply elem_of_sset_insert in Hy as [->|Hy]; auto.
Qed.

Lemma elem_of_sset_insert_all l s y : y ∈ sset_insert_all l s ↔ y ∈ l ∨ y ∈ s.
Proof.
  unfold sset_insert_all. revert s. induction l as [|x l IH]; intros s; simpl; [set_solver|].
  rewrite IH, elem_of_sset_insert. set_solver.
Qed.

Lemma sset_insert_all_ok l s : sset_ok s → sset_ok (sset_insert_all l s).
Proof.
  intros Hs. unfold sset_insert_all. apply fold_left_inv; [done|].
  intros b a _. apply sset_insert_ok.
Qed.

Lemma elem_of_sset_erase x s y : y ∈ sset_erase x s ↔ y ≠ x ∧ y ∈ s.
Proof. unfold sset_erase. by rewrite list_elem_of_filter. Qed.

Lemma sset_erase_ok x s : sset_ok s → sset_ok (sset_erase x s).
Proof.
  unfold sset_ok, sset_erase. induction 1 as [|z s Hs IH Hz]; [constructor|].
  rewrite filter_cons. case_decide; [|done]. constructor; [done|].
  rewrite Forall_forall in Hz |- *. intros y [_ Hy]%list_elem_of_filter. auto.
Qed.

Lemma sset_ok_NoDup s : sset_ok s → NoDup s.
Proof.
  induction 1 as [|x s Hs IH Hx]; constructor; [|done]. intros Hin.
  rewrite Forall_forall in Hx. specialize (Hx x Hin). by rewrite str_lt_irrefl in Hx.
Qed.

(** ** The tokenizer *)

Class TitlePCA := {
  to_lower : string → string;
  pca : string → list (string * double) }.

Definition sort_tokens_func (left right : string * double) : bool := d_gt left.2 right.2.

Definition sorted_tokens `{TitlePCA} (title : string) : list string :=
  map fst (std_sort sort_tokens_func (pca (to_lower title))).

(** ** Keyword ids *)

Record KeywordTable := Keywords {
  keyword_id_value_list_ : list string;
  keyword_value_id_list_ : gmap string Z }.

Definition KeywordTable_init : KeywordTable := Keywords [] ∅.

Definition getBidKeywordIdFromStr (t : KeywordTable) (keyword : string) : option Z :=
  keyword_value_id_list_ t !! keyword.

Definition getBidKeywordIdFromStrWithInsert (t : KeywordTable) (keyword : string)
    : Z * KeywordTable :=
  match keyword_value_id_list_ t !! keyword with
  | Some id => (id, t)
  | None =>
      let id := u32 (Z.of_nat (length (keyword_id_value_list_ t))) in
      (id, Keywords (keyword_id_value_list_ t ++ [keyword])
                    (<[keyword := id]> (keyword_value_id_list_ t)))
  end.

(** The text of an unknown id is empty. *)
Definition getBidKeywordStrFromId (t : KeywordTable) (id : Z) : string :=
  default EmptyString (keyword_id_value_list_ t !! Z.to_nat id).

(** ** Phrases *)

Definition space : string := String " " EmptyString.

(** [str += s + " "] over a vector. *)
Definition join_spaced (l : list string) : string :=
  fold_left (λ acc s, String.append acc (String.append s space)) l EmptyString.

Definition getBidPhraseStr (t : KeywordTable) (bidphrase : list Z) : string :=
  join_spaced (map (getBidKeywordStrFromId t) bidphrase).

Definition getBidPhraseStrList (t : KeywordTable) (l : list (list Z)) : list string :=
  map (getBidPhraseStr t) l.

Section generate.
Context `{TitlePCA}.

(** [generateBidPhrase(title, std::vector<std::string>&)]. *)
Definition generateBidPhrase_str (ad_title : string) : list string := sorted_tokens ad_title.

(** The loop over the tokens, which stops after a phrase longer than
    [MAX_BIDPHRASE_LEN]. *)
Fixpoint phrase_loop (tokens : list string) (bidphrase : list Z) (t : KeywordTable)
    : list Z * KeywordTable :=
  match tokens with
  | [] => (bidphrase, t)
  | w :: tokens =>
      let '(kid, t) := getBidKeywordIdFromStrWithInsert t w in
      let bidphrase := bidphrase ++ [kid] in
      if (MAX_BIDPHRASE_LEN <? length bidphrase)%nat then (bidphrase, t)
      else phrase_loop tokens bidphrase t
  end.

(** [generateBidPhrase(title, BidPhraseT& bidphrase)]; an empty title leaves
    the caller's [bidphrase] as it is. *)
Definition generateBidPhrase (ad_title : string) (bidphrase : list Z) (t : KeywordTable)
    : list Z * KeywordTable :=
  if String.eqb ad_title EmptyString then (bidphrase, t)
  else phrase_loop (sorted_tokens ad_title) [] t.

Definition preprocessBidPhraseStr (orig : string) : string :=
  join_spaced (take MAX_BIDPHRASE_LEN (generateBidPhrase_str orig)).
End generate.

(** ** Proofs about the tables *)

(** The two tables are inverse to each other. *)
Record table_ok (t : KeywordTable) : Prop := {
  table_small : Z.of_nat (length (keyword_id_value_list_ t)) ≤ 2 ^ 32;
  table_inv : ∀ k id, keyword_value_id_list_ t !! k = Some id ↔
                      0 ≤ id ∧ keyword_id_value_list_ t !! Z.to_nat id = Some k }.

(** [t'] knows everything [t] knows, with the same ids. *)
Definition table_ext (t t' : KeywordTable) : Prop :=
  keyword_id_value_list_ t `prefix_of` keyword_id_value_list_ t'.

#[export] Instance table_ext_preorder : PreOrder table_ext.
Proof. unfold table_ext. split; [intros t; done|intros t1 t2 t3; apply transitivity]. Qed.

(** A keyword with an id of the table. *)
Definition knows (t : KeywordTable) (id : Z) (k : string) : Prop :=
  0 ≤ id ∧ keyword_id_value_list_ t !! Z.to_nat id = Some k.

Lemma knows_ext t t' id k : table_ext t t' → knows t id k → knows t' id k.
Proof. intros Ht [H0 Hk]. split; [done|]. by eapply prefix_lookup_Some. Qed.

Lemma knows_str t id k : knows t id k → getBidKeywordStrFromId t id = k.
Proof. intros [_ Hk]. unfold getBidKeywordStrFromId. by rewrite Hk. Qed.

Lemma knows_id t id k : table_ok t → knows t id k → getBidKeywordIdFromStr t k = Some id.
Proof. intros [_ Hinv] Hk. by apply Hinv. Qed.

Lemma table_init_ok : table_ok KeywordTable_init.
Proof.
  split; [done|]. intros k id. simpl. rewrite lookup_empty.
  split; [done|]. intros [_ Hk]. by rewrite lookup_nil in Hk.
Qed.

(** Room for [n] more keywords. *)
Definition room (t : KeywordTable) (n : nat) : Prop :=
  Z.of_nat (length (keyword_id_value_list_ t) + n) ≤ 2 ^ 32.

Lemma insert_keyword_ok t w :
  table_ok t → room t 1 →
  let '(id, t') := getBidKeywordIdFromStrWithInsert t w in
  table_ok t' ∧ table_ext t t' ∧ knows t' id w ∧
  (length (keyword_id_value_list_ t') ≤ length (keyword_id_value_list_ t) + 1)%nat ∧
  (getBidKeywordIdFromStr t w ≠ None → t' = t).
Proof.
  intros [Hsmall Hinv] Hroom. unfold room in Hroom. unfold getBidKeywordIdFromStrWithInsert.
  unfold getBidKeywordIdFromStr.
  destruct (keyword_value_id_list_ t !! w) as [id|] eqn:Hw.
  { split_and!; [by split|done|by apply Hinv|lia|done]. }
  set (l := keyword_id_value_list_ t) in *.
  assert (u32 (Z.of_nat (length l)) = Z.of_nat (length l)) as Hid.
  { unfold u32. apply Z.mod_small. lia. }
  rewrite Hid. split_and!.
  - split; simpl; fold l.
    { rewrite length_app. simpl. lia. }
    intros k id. destruct (decide (k = w)) as [->|Hne].
    + rewrite lookup_insert_eq. split.
      * intros [= <-]. split; [lia|]. rewrite Nat2Z.id.
        by rewrite lookup_app_r, Nat.sub_diag by lia.
      * intros [H0 Hk]. destruct (decide (Z.to_nat id < length l)%nat) as [Hlt|Hge].
        -- rewrite lookup_app_l in Hk by done.
           assert (keyword_value_id_list_ t !! w = Some id) as Hx by (by apply Hinv).
           congruence.
        -- apply lookup_lt_Some in Hk. rewrite length_app in Hk. simpl in Hk. f_equal. lia.
    + rewrite lookup_insert_ne by done. rewrite Hinv. fold l. split; intros [H0 Hk]; split; try done.
      * by apply lookup_app_l_Some.
      * apply lookup_app_Some in Hk as [Hk|[Hge Hk]]; [done|].
        apply list_lookup_singleton_Some in Hk as [_ ->]. done.
  - by exists [w].
  - split; [lia|]. simpl. fold l. rewrite Nat2Z.id. by rewrite lookup_app_r, Nat.sub_diag by lia.
  - simpl. rewrite length_app. simpl. fold l. lia.
  - done.
Qed.

(** The loop turns the first tokens into ids, and never changes an id. *)
Lemma phrase_loop_ok tokens : ∀ bidphrase t pre,
  table_ok t → room t (length tokens) → Forall2 (knows t) bidphrase pre →
  (length bidphrase ≤ MAX_BIDPHRASE_LEN)%nat →
  let '(ids, t') := phrase_loop tokens bidphrase t in
  table_ok t' ∧ table_ext t t' ∧
  (length (keyword_id_value_list_ t') ≤ length (keyword_id_value_list_ t) + length tokens)%nat ∧
  Forall2 (knows t') ids (take (S MAX_BIDPHRASE_LEN) (pre ++ tokens)).
Proof.
  induction tokens as [|w tokens IH]; intros bidphrase t pre Hok Hroom HF Hl; simpl.
  { pose proof (Forall2_length _ _ _ HF) as Hlen.
    split_and!; [done|done|lia|]. rewrite app_nil_r, take_ge by lia. done. }
  pose proof (insert_keyword_ok t w Hok) as Hins.
  destruct (getBidKeywordIdFromStrWithInsert t w) as [kid t1].
  destruct Hins as (Hok1 & Hext1 & Hk1 & Hlen1 & _).
  { unfold room in *. simpl in Hroom. lia. }
  assert (Forall2 (knows t1) (bidphrase ++ [kid]) (pre ++ [w])) as HF1.
  { apply Forall2_app; [|constructor; [done|constructor]].
    eapply Forall2_impl; [exact HF|]. intros id k. by apply knows_ext. }
  destruct (MAX_BIDPHRASE_LEN <? length (bidphrase ++ [kid]))%nat eqn:E; bool_cases.
  - split_and!; [done|done|lia|]. pose proof (Forall2_length _ _ _ HF) as Hlen.
    rewrite length_app in E. simpl in E.
    replace (pre ++ w :: tokens) with ((pre ++ [w]) ++ tokens) by (by rewrite <- app_assoc).
    rewrite take_app_le by (rewrite length_app; simpl; lia).
    rewrite take_ge by (rewrite length_app; simpl; lia). done.
  - specialize (IH (bidphrase ++ [kid]) t1 (pre ++ [w]) Hok1).
    destruct (phrase_loop tokens (bidphrase ++ [kid]) t1) as [ids t2].
    destruct IH as (Hok2 & Hext2 & Hlen2 & HF2); [unfold room in *; simpl in *; lia|done|done|].
    split_and!; [done|by etrans|lia|]. by rewrite <- app_assoc in HF2.
Qed.

Lemma knows_texts t ids ks : Forall2 (knows t) ids ks → map (getBidKeywordStrFromId t) ids = ks.
Proof. induction 1 as [|id k ids ks Hk _ IH]; simpl; [done|]. by rewrite IH, (knows_str t id k). Qed.

Section generate_proofs.
Context `{TitlePCA}.

(** The ids [generateBidPhrase] gives the keywords of a title translate
    back to the first six keywords, the table stays consistent and keeps its
    old entries, and each of these keywords is found under an id of the
    phrase. *)
Theorem generateBidPhrase_roundtrip title prev t :
  table_ok t → room t (length (sorted_tokens title)) → title ≠ EmptyString →
  let '(ids, t') := generateBidPhrase title prev t in
  table_ok t' ∧ table_ext t t' ∧
  map (getBidKeywordStrFromId t') ids
    = take (S MAX_BIDPHRASE_LEN) (generateBidPhrase_str title) ∧
  (∀ k, k ∈ take (S MAX_BIDPHRASE_LEN) (generateBidPhrase_str title) →
     ∃ id, getBidKeywordIdFromStr t' k = Some id ∧ id ∈ ids ∧ getBidKeywordStrFromId t' id = k) ∧
  (length ids ≤ 6)%nat.
Proof.
  intros Hok Hroom Hne. unfold generateBidPhrase. rewrite (proj2 (String.eqb_neq _ _) Hne).
  pose proof (phrase_loop_ok (sorted_tokens title) [] t [] Hok Hroom (List.Forall2_nil _)) as Hloop.
  destruct (phrase_loop _ _ _) as [ids t'].
  destruct Hloop as (Hok' & Hext & _ & HF); [simpl; lia|]. simpl app in HF.
  split_and!; [done|done|by apply knows_texts| |].
  - intros k [i Hi]%list_elem_of_lookup_1.
    destruct (Forall2_lookup_r _ _ _ _ _ HF Hi) as (id & Hid & Hk).
    exists id. split_and!; [by apply knows_id|by eapply list_elem_of_lookup_2|by apply knows_str].
  - apply Forall2_length in HF. rewrite HF, length_take. unfold MAX_BIDPHRASE_LEN. lia.
Qed.

(** For a title of at most [MAX_BIDPHRASE_LEN] keywords the text of its
    mined phrase is the text under which the click log files it. *)
Theorem phrase_text_agrees title prev t :
  table_ok t → room t (length (sorted_tokens title)) → title ≠ EmptyString →
  (length (sorted_tokens title) ≤ MAX_BIDPHRASE_LEN)%nat →
  let '(ids, t') := generateBidPhrase title prev t in
  getBidPhraseStr t' ids = preprocessBidPhraseStr title.
Proof.
  intros Hok Hroom Hne Hlen. unfold generateBidPhrase. rewrite (proj2 (String.eqb_neq _ _) Hne).
  pose proof (phrase_loop_ok (sorted_tokens title) [] t [] Hok Hroom (List.Forall2_nil _)) as Hloop.
  destruct (phrase_loop _ _ _) as [ids t'].
  destruct Hloop as (Hok' & Hext & _ & HF); [simpl; lia|]. simpl app in HF.
  unfold getBidPhraseStr, preprocessBidPhraseStr, generateBidPhrase_str.
  rewrite (knows_texts _ _ _ HF). by rewrite !take_ge by lia.
Qed.
End generate_proofs.

(** *** Witnesses *)

(** A tokenizer that knows single letters. *)
Fixpoint letters (s : string) (weight : Z) : list (string * double) :=
  match s with
  | EmptyString => []
  | String c s => (String c EmptyString, d_of_Z weight) :: letters s (weight - 1)
  end.

#[local] Instance letter_pca : TitlePCA := {| to_lower := id; pca := λ s, letters s 100 |}.

Lemma generateBidPhrase_witness :
  let '(ids, t') := generateBidPhrase "phone" [] KeywordTable_init in
  table_ok t' ∧ map (getBidKeywordStrFromId t') ids = ["p"; "h"; "o"; "n"; "e"]%string.
Proof.
  pose proof (generateBidPhrase_roundtrip "phone" [] KeywordTable_init table_init_ok) as H.
  destruct H as (H1 & _ & H2 & _).
  - vm_compute. discriminate.
  - discriminate.
  - exact (conj H1 H2).
Defined.

Lemma phrase_text_witness :
  let '(ids, t') := generateBidPhrase "phone" [] KeywordTable_init in
  getBidPhraseStr t' ids = preprocessBidPhraseStr "phone".
Proof.
  apply (phrase_text_agrees "phone" [] KeywordTable_init table_init_ok).
  - vm_compute. discriminate.
  - discriminate.
  - vm_compute. lia.
Defined.

(** Six keywords give two different texts, so the clicks on such a phrase
    are logged under a name the statistics never look up. *)
Theorem phrase_text_differs :
  let '(ids, t') := generateBidPhrase "phones" [] KeywordTable_init in
  getBidPhraseStr t' ids = "p h o n e s "%string ∧
  preprocessBidPhraseStr "phones" = "p h o n e "%string.
Proof. vm_compute. split; reflexivity. Qed.
