(* ===== verification/Segments.v ===== *)
(** * User and ad segments ([ad-manager/AdSelector.cpp], part 1)

    A feature map gives the values of each feature of a user or an ad.  The
    selector keeps click rates per combination of values: [expandSegmentStr]
    writes all combinations of one user or ad, [getAllPossibleSegStr] walks
    through all combinations of the known values with a counter per feature.
    The theorems relate both to the cartesian product [choices] and to each
    other.

    [std::map<std::string, T>] is a list of pairs in increasing order of the
    keys, since both functions depend on the order of iteration. *)
From S2P Require Import Prelude CNum Env Phrases.

(** ** [std::map<std::string, T>] *)

Abbreviation smap V := (list (string * V)).

Fixpoint smap_get {V} (k : string) (m : smap V) : option V :=
  match m with
  | [] => None
  | (k', v) :: m => if String.eqb k k' then Some v else smap_get k m
  end.

(** [m[k] = f(m[k])], [f] being told whether the key was there. *)
Fixpoint smap_put {V} (k : string) (f : option V → V) (m : smap V) : smap V :=
  match m with
  | [] => [(k, f None)]
  | (k', v) :: m' =>
      if String.eqb k k' then (k, f (Some v)) :: m'
      else if str_lt k k' then (k, f None) :: m else (k', v) :: smap_put k f m'
  end.

Definition smap_ok {V} (m : smap V) : Prop := sset_ok (map fst m).

(** ** Features *)

(** [FeatureT], [FeatureMapT] *)
Abbreviation FeatureT := (list (string * string)).
Abbreviation FeatureMapT := (smap (list string)).

Definition linker : string := "-".
Definition UnknownStr : string := "Unknown".

(** [loadDef] on the lines of the file; [None] is the exception. *)
Definition loadDef (lines : list string) : option (FeatureMapT * smap nat) :=
  let names := filter (λ l, l ≠ EmptyString) lines in
  match names with
  | [] => None
  | _ => Some (fold_left (λ m l, smap_put l (λ _, []) m) names [],
               fold_left (λ m l, smap_put l (λ _, 0%nat) m) names [])
  end.

(** The repair of [init]: exactly the features of the configuration, new ones
    with the value [Unknown]. *)
Definition fit_segments (def : FeatureMapT) (segments : FeatureMapT) : FeatureMapT :=
  match segments with
  | [] => map (λ kv, (kv.1, kv.2 ++ [UnknownStr])) def
  | _ =>
      let kept := filter (λ kv, is_Some (smap_get kv.1 def)) segments in
      fold_left (λ s kv, match smap_get kv.1 s with
                         | None => smap_put kv.1 (λ _, [UnknownStr]) s
                         | Some _ => s
                         end) def kept
  end.

(** *** The combinations of one user or ad *)

(** One feature: a single value is appended to every string; for several, the
    copies with the later values go to the back. *)
Definition expand_values (seg_str_list values : list string) : list string :=
  match values with
  | [] => seg_str_list
  | [v] => map (λ s, s +:+ v +:+ linker) seg_str_list
  | v :: vs =>
      map (λ s, s +:+ v +:+ linker) seg_str_list ++
      (s ← seg_str_list; map (λ w, s +:+ w +:+ linker) vs)
  end.

Definition expandSegmentStr (seg_str_list : list string) (feature_list : FeatureMapT) : list string :=
  fold_left (λ seg kv, expand_values seg kv.2) feature_list seg_str_list.

(** The overload on segment ids, with no separator. *)
Definition expandSegmentStr_ids `{LexicalCast} (seg_str_list : list string) (ids : list Z)
    : list string :=
  match ids with
  | [] => seg_str_list
  | [v] => map (λ s, s +:+ lexical_cast v) seg_str_list
  | v :: vs =>
      map (λ s, s +:+ lexical_cast v) seg_str_list ++
      (s ← seg_str_list; map (λ w, s +:+ lexical_cast w) vs)
  end.

(** [user_feature_list[name].push_back(value)]. *)
Definition group_features (user_info : FeatureT) : FeatureMapT :=
  fold_left (λ m nv, smap_put nv.1 (λ o, default [] o ++ [nv.2]) m) user_info [].

Definition getUserSegmentStr (user_seg_str_list : list string) (user_info : FeatureT) : list string :=
  expandSegmentStr (user_seg_str_list ++ [EmptyString]) (group_features user_info).

(** *** The combinations of all known values *)

(** The string and the features of the counters' values; [None] is an index
    out of range, or a counter for another set of features. *)
Definition seg_key (segments : FeatureMapT) (counter : smap nat) : option (string * FeatureT) :=
  foldM (λ st kv,
    c ← smap_get kv.1 counter;
    value ← kv.2 !! c;
    Some (if decide (value = UnknownStr) then st
          else (st.1 +:+ value +:+ linker, st.2 ++ [(kv.1, value)])))
    (EmptyString, []) segments.

(** The inner loop on the counters in reverse order: full counters go back to
    zero, the next one is increased; [false] when all were full.  The size of
    an empty vector minus one is the greatest [size_t]. *)
Fixpoint carry (segments : FeatureMapT) (rcounter : smap nat) : option (smap nat * bool) :=
  match rcounter with
  | [] => Some ([], false)
  | (k, c) :: r =>
      vals ← smap_get k segments;
      if match length vals with O => false | S n => (n <=? c)%nat end
      then '(r', more) ← carry segments r; Some ((k, 0%nat) :: r', more)
      else Some ((k, S c) :: r, true)
  end.

(** The outer loop; [fuel] bounds the number of combinations. *)
Fixpoint odometer (fuel : nat) (segments : FeatureMapT) (counter : smap nat)
    (all_keys : smap FeatureT) : option (smap FeatureT) :=
  match fuel with
  | O => None
  | S fuel =>
      '(key, data) ← seg_key segments counter;
      let all_keys := smap_put key (λ _, data) all_keys in
      '(r, more) ← carry segments (rev counter);
      if (more : bool) then odometer fuel segments (rev r) all_keys else Some all_keys
  end.

Definition getAllPossibleSegStr (fuel : nat) (segments : FeatureMapT) (counter : smap nat)
    : option (smap FeatureT) :=
  match counter with [] => Some [] | _ => odometer fuel segments counter [] end.

(** ** Specification: the cartesian product *)

(** One value per feature, the first feature slowest. *)
Fixpoint choices (fm : FeatureMapT) : list FeatureT :=
  match fm with
  | [] => [[]]
  | (name, vals) :: fm => v ← vals; map (cons (name, v)) (choices fm)
  end.

Definition seg_text (c : FeatureT) : string :=
  foldr (λ nv s, nv.2 +:+ linker +:+ s) EmptyString c.

(** The part of a combination that is written. *)
Definition known (c : FeatureT) : FeatureT := filter (λ nv, nv.2 ≠ UnknownStr) c.

(** The features that have a value. *)
Definition valued (fm : FeatureMapT) : FeatureMapT := filter (λ kv, kv.2 ≠ []) fm.

(** ** Maps *)

Lemma smap_get_put {V} k k' f (m : smap V) :
  smap_ok m → smap_get k (smap_put k' f m) = if String.eqb k k' then Some (f (smap_get k' m)) else smap_get k m.
Proof.
  unfold smap_ok, sset_ok. induction m as [|[j v] m IH]; simpl; intros Hs.
  { by destruct (String.eqb k k'). }
  inversion_clear Hs as [|?? Hm Hj].
  destruct (String.eqb k' j) eqn:E; simpl.
  - apply String.eqb_eq in E as ->. by destruct (String.eqb k j).
  - destruct (str_lt k' j) eqn:El; simpl.
    + destruct (String.eqb k k') eqn:Ek; [|done]. apply String.eqb_eq in Ek as ->.
      f_equal. f_equal. symmetry. clear IH E Hm. induction m as [|[i w] m IH]; [done|].
      simpl in *. inversion_clear Hj as [|?? Hji Hj'].
      rewrite (proj2 (String.eqb_neq k' i)); [by apply IH|]. intros ->.
      by rewrite (swo_asym (P := λ _, True) _ _ I I El) in Hji.
    + rewrite IH by done. destruct (String.eqb k j) eqn:Ekj; [|done].
      apply String.eqb_eq in Ekj as ->. rewrite String.eqb_sym in E. by rewrite E.
Qed.

Lemma elem_of_smap_put {V} k f (m : smap V) j :
  j ∈ map fst (smap_put k f m) ↔ j = k ∨ j ∈ map fst m.
Proof.
  induction m as [|[i v] m IH]; simpl; [set_solver|].
  destruct (String.eqb k i) eqn:E; simpl; [apply String.eqb_eq in E as ->; set_solver|].
  destruct (str_lt k i); simpl; set_solver.
Qed.

Lemma smap_put_ok {V} k f (m : smap V) : smap_ok m → smap_ok (smap_put k f m).
Proof.
  unfold smap_ok, sset_ok. induction m as [|[i v] m IH]; simpl; intros Hs; [repeat constructor|].
  inversion_clear Hs as [|?? Hm Hi].
  destruct (String.eqb k i) eqn:E; simpl; [apply String.eqb_eq in E as ->; by constructor|].
  destruct (str_lt k i) eqn:El; simpl.
  - constructor; [by constructor|]. constructor; [done|].
    eapply Forall_impl; [exact Hi|]. intros y Hy. by eapply str_lt_trans.
  - constructor; [by apply IH|]. apply Forall_forall. intros y [->|Hy]%elem_of_smap_put.
    + destruct (str_lt i k) eqn:Eik; [done|]. by rewrite (str_lt_total _ _ El Eik), String.eqb_refl in E.
    + rewrite Forall_forall in Hi. by apply Hi.
Qed.

Lemma smap_get_elem {V} k v (m : smap V) : smap_get k m = Some v → (k, v) ∈ m.
Proof.
  induction m as [|[i w] m IH]; simpl; [done|]. destruct (String.eqb k i) eqn:E.
  - intros [= ->]. apply String.eqb_eq in E as ->. left.
  - intros H. right. by apply IH.
Qed.

Lemma elem_smap_get {V} k v (m : smap V) : NoDup (map fst m) → (k, v) ∈ m → smap_get k m = Some v.
Proof.
  induction m as [|[i w] m IH]; simpl; [by intros _ []%not_elem_of_nil|].
  intros [Hi Hm]%NoDup_cons [[= <- <-]|Hin]%elem_of_cons; [by rewrite String.eqb_refl|].
  rewrite (proj2 (String.eqb_neq k i)); [by apply IH|]. intros ->. apply Hi.
  change i with (i, v).1. by apply list_elem_of_fmap_2.
Qed.

(** ** The combinations of one user or ad *)

Lemma append_assoc (a b c : string) : (a +:+ b) +:+ c = a +:+ b +:+ c.
Proof. induction a as [|x a IH]; [done|]. exact (f_equal (String x) IH). Qed.

Lemma append_empty_r (a : string) : a +:+ EmptyString = a.
Proof. induction a as [|x a IH]; [done|]. exact (f_equal (String x) IH). Qed.

Lemma bind_head {A B} (f : A → B) (g : A → list B) (l : list A) :
  map f l ++ (x ← l; g x) ≡ₚ (x ← l; f x :: g x).
Proof.
  induction l as [|x l IH]; [done|]. rewrite !bind_cons. simpl. apply perm_skip.
  rewrite <- IH. rewrite !app_assoc. apply Permutation_app_tail, Permutation_app_comm.
Qed.

Lemma expand_values_perm seg vals :
  vals ≠ [] → expand_values seg vals ≡ₚ (s ← seg; map (λ w, s +:+ w +:+ linker) vals).
Proof.
  destruct vals as [|v [|w vs]]; intros H; [done| |].
  - simpl. induction seg as [|s seg IH]; [done|]. rewrite bind_cons. simpl. by rewrite IH.
  - unfold expand_values. apply bind_head.
Qed.

Lemma expandSegmentStr_perm fm : ∀ seg,
  expandSegmentStr seg fm ≡ₚ (s ← seg; map (λ c, s +:+ seg_text c) (choices (valued fm))).
Proof.
  unfold expandSegmentStr. induction fm as [|[name vals] fm IH]; intros seg; simpl.
  - induction seg as [|s seg IH]; [done|]. rewrite bind_cons. simpl.
    by rewrite append_empty_r, <- IH.
  - rewrite IH. unfold valued. rewrite filter_cons. simpl. case_decide as Hv.
    + etrans; [apply bind_Permutation, (expand_values_perm seg vals Hv)|]. simpl. fold (valued fm). clear.
      induction seg as [|s seg IH]; [done|]. rewrite !bind_cons, bind_app, IH. apply Permutation_app_tail.
      clear IH. induction vals as [|v vals IH]; [done|].
      change (map ?f (v :: vals)) with (f v :: map f vals). rewrite !bind_cons, IH, map_app.
      apply Permutation_app_tail. rewrite map_map. erewrite map_ext; [reflexivity|].
      intros c. unfold seg_text at 2. simpl foldr. fold (seg_text c). unfold compose.
      by rewrite !append_assoc.
    + simpl in Hv. by subst vals.
Qed.

Lemma elem_of_choices fm c :
  c ∈ choices fm ↔ Forall2 (λ kv nv, nv.1 = kv.1 ∧ nv.2 ∈ kv.2) fm c.
Proof.
  revert c. induction fm as [|[name vals] fm IH]; intros c; simpl.
  - rewrite list_elem_of_singleton. split; [intros ->; constructor|by inversion 1].
  - rewrite list_elem_of_bind. split.
    + intros (v & Hc & Hv). apply list_elem_of_fmap in Hc as (c' & -> & Hc').
      constructor; [done|]. by apply IH.
    + inversion_clear 1 as [|? [n v] ? c' [Hn Hv] HF]. simpl in *. subst n.
      exists v. split; [|done]. apply list_elem_of_fmap. exists c'. split; [done|]. by apply IH.
Qed.

(** ** The counters walk through the product *)

(** The vectors of counters in the order of the walk, and those after one. *)
Fixpoint all_idx (ns : list nat) : list (list nat) :=
  match ns with
  | [] => [[]]
  | n :: ns => c ← seq 0 n; map (cons c) (all_idx ns)
  end.

Fixpoint after (cs ns : list nat) : list (list nat) :=
  match cs, ns with
  | c :: cs, n :: ns => map (cons c) (after cs ns) ++ (d ← seq (S c) (n - S c); map (cons d) (all_idx ns))
  | _, _ => []
  end.

Fixpoint next_idx (cs ns : list nat) : option (list nat) :=
  match cs, ns with
  | c :: cs, n :: ns =>
      match next_idx cs ns with
      | Some cs' => Some (c :: cs')
      | None => if (S c <? n)%nat then Some (S c :: replicate (length ns) 0%nat) else None
      end
  | _, _ => None
  end.

Lemma all_idx_zeros ns :
  Forall (λ n, 0 < n)%nat ns →
  all_idx ns = replicate (length ns) 0%nat :: after (replicate (length ns) 0%nat) ns.
Proof.
  induction 1 as [|n ns Hn _ IH]; [done|]. simpl.
  destruct n as [|n]; [lia|]. simpl. rewrite IH. simpl. by rewrite Nat.sub_0_r.
Qed.

Lemma next_idx_after cs ns :
  Forall2 lt cs ns → Forall (λ n, 0 < n)%nat ns →
  match next_idx cs ns with
  | Some cs' => after cs ns = cs' :: after cs' ns ∧ Forall2 lt cs' ns
  | None => after cs ns = []
  end.
Proof.
  induction 1 as [|c n cs ns Hc Hcs IH]; intros Hns; simpl; [done|].
  inversion_clear Hns as [|?? Hn Hns']. specialize (IH Hns').
  destruct (next_idx cs ns) as [cs'|]; simpl.
  - destruct IH as [-> Hcs']. split; [done|by constructor].
  - rewrite IH. simpl. destruct (S c <? n)%nat eqn:E; bool_cases.
    + replace (n - S c)%nat with (S (n - S (S c))) by lia. simpl. rewrite all_idx_zeros by done. simpl.
      split; [done|]. constructor; [lia|]. clear -Hns'.
      induction Hns'; simpl; [constructor|by constructor].
    + by replace (n - S c)%nat with 0%nat by lia.
Qed.

Lemma carry_app segments a b :
  carry segments (a ++ b) =
  '(a', more) ← carry segments a;
  if (more : bool) then Some (a' ++ b, true)
  else '(b', more) ← carry segments b; Some (a' ++ b', more).
Proof.
  induction a as [|[k c] a IH]; simpl; [by destruct (carry segments b) as [[? ?]|]|].
  destruct (smap_get k segments) as [vals|]; [simpl|done].
  destruct (match length vals with O => false | S n => (n <=? c)%nat end); [|done].
  rewrite IH. destruct (carry segments a) as [[a' more]|]; [simpl|done].
  destruct more; [done|]. by destruct (carry segments b) as [[? ?]|].
Qed.

(** A counter within the values of its feature. *)
Definition counts (segments : FeatureMapT) (kc : string * nat) (n : nat) : Prop :=
  (kc.2 < n)%nat ∧ ∃ vals, smap_get kc.1 segments = Some vals ∧ length vals = n.

Lemma carry_next segments kcs ns :
  Forall2 (counts segments) kcs ns →
  carry segments (rev kcs) =
  Some (match next_idx (map snd kcs) ns with
        | Some cs' => (rev (zip (map fst kcs) cs'), true)
        | None => (rev (zip (map fst kcs) (replicate (length ns) 0%nat)), false)
        end).
Proof.
  induction 1 as [|[k c] n kcs ns Hc Hkcs IH]; [done|]. simpl. rewrite carry_app, IH.
  destruct (next_idx (map snd kcs) ns) as [cs'|]; [done|].
  destruct Hc as (Hlt & vals & Hget & Hlen). simpl in *. rewrite Hget. simpl. rewrite Hlen.
  destruct n as [|n]; [lia|]. destruct (n <=? c)%nat eqn:E; destruct (S c <? S n)%nat eqn:E2; bool_cases; try lia; done.
Qed.

(** ** The strings of the walk *)

(** The values the counters select. *)
Definition choice (fm : FeatureMapT) (cs : list nat) : FeatureT :=
  zip_with (λ kv c, (kv.1, default EmptyString (kv.2 !! c))) fm cs.

Lemma choices_idx fm : choices fm = map (choice fm) (all_idx (map (λ kv, length kv.2) fm)).
Proof.
  induction fm as [|[name vals] fm IH]; [done|]. simpl. rewrite IH. generalize (all_idx (map (λ kv, length kv.2) fm)).
  intros idx. assert (∀ k vs, (∀ i, vals !! (k + i)%nat = vs !! i) →
    (v ← vs; map (cons (name, v)) (map (choice fm) idx)) =
    map (choice ((name, vals) :: fm)) (c ← seq k (length vs); map (cons c) idx)) as Hgen.
  { intros k vs. revert k. induction vs as [|v vs IHv]; intros k Hk; [done|].
    rewrite bind_cons. simpl. rewrite map_app, (IHv (S k)).
    - f_equal. rewrite !map_map. apply map_ext. intros cs. simpl. f_equal. f_equal.
      specialize (Hk 0%nat). rewrite Nat.add_0_r in Hk. by rewrite Hk.
    - intros i. specialize (Hk (S i)). by rewrite Nat.add_succ_r in Hk. }
  by apply Hgen.
Qed.

Lemma seg_text_snoc c nv : seg_text (c ++ [nv]) = seg_text c +:+ nv.2 +:+ linker.
Proof.
  induction c as [|x c IH]; simpl; [by rewrite append_empty_r|].
  unfold seg_text in *. simpl. by rewrite IH, !append_assoc.
Qed.

Lemma seg_key_choice segments counter cs :
  Forall2 (λ kv c, smap_get kv.1 counter = Some c ∧ c < length kv.2)%nat segments cs →
  seg_key segments counter = Some (seg_text (known (choice segments cs)), known (choice segments cs)).
Proof.
  intros HF. unfold seg_key.
  assert (∀ pre, foldM (λ st kv, c ← smap_get kv.1 counter; value ← kv.2 !! c;
      Some (if decide (value = UnknownStr) then st
            else (st.1 +:+ value +:+ linker, st.2 ++ [(kv.1, value)]))) (seg_text pre, pre) segments
    = Some (seg_text (pre ++ known (choice segments cs)), pre ++ known (choice segments cs))) as Hgen; [|apply (Hgen [])].
  induction HF as [|[name vals] c segments cs [Hget Hc] HF IH]; intros pre.
  { unfold known. simpl. by rewrite app_nil_r. }
  cbn [foldM fst snd] in *. rewrite Hget. cbn [mbind option_bind].
  destruct (lookup_lt_is_Some_2 vals c Hc) as [v Hv]. rewrite Hv. cbn [mbind option_bind].
  unfold known. unfold choice. simpl zip_with. rewrite filter_cons. cbn [fst snd]. rewrite Hv. cbn [default from_option].
  fold (choice segments cs). fold (known (choice segments cs)).
  unfold id. destruct (decide (v = UnknownStr)) as [Hu|Hu].
  - rewrite decide_False by (intros Hn; exact (Hn Hu)). apply IH.
  - rewrite decide_True by exact Hu.
    change (seg_text pre +:+ v +:+ linker) with (seg_text pre +:+ (name, v).2 +:+ linker).
    rewrite <- seg_text_snoc, IH. by rewrite <- !app_assoc.
Qed.

(** One step of the walk: the combination of the counters [cs] is recorded
    under its text. *)
Definition record (segments : FeatureMapT) (m : smap FeatureT) (cs : list nat) : smap FeatureT :=
  let c := known (choice segments cs) in smap_put (seg_text c) (λ _, c) m.

(** The counters of the features at the values [cs]. *)
Definition counters (segments : FeatureMapT) (cs : list nat) : smap nat := zip (map fst segments) cs.

Definition widths (segments : FeatureMapT) : list nat := map (λ kv, length kv.2) segments.

Lemma counters_get segments cs :
  NoDup (map fst segments) → Forall2 lt cs (widths segments) →
  Forall2 (λ kv c, smap_get kv.1 (counters segments cs) = Some c ∧ c < length kv.2)%nat segments cs.
Proof.
  intros Hnd HF. rewrite Forall2_lookup. rewrite Forall2_lookup in HF.
  unfold widths in HF. intros i. specialize (HF i). rewrite list_lookup_fmap in HF.
  destruct (segments !! i) as [[k vals]|] eqn:E1; destruct (cs !! i) as [c|] eqn:E2;
    inversion HF; subst; simpl in *; constructor.
  split; [|done]. apply elem_smap_get.
  - apply list_elem_of_lookup_2 in E1 as Hin. unfold counters.
    clear -Hnd. revert cs. induction segments as [|[k vals] segs IH]; intros [|c cs]; simpl; try constructor.
    + intros Hin. inversion_clear Hnd as [|?? Hk _]. apply Hk.
      apply list_elem_of_fmap in Hin as ([k' c'] & -> & Hin). by apply elem_of_zip_l in Hin.
    + inversion_clear Hnd. by apply IH.
  - apply list_elem_of_lookup. exists i. unfold counters. rewrite lookup_zip_with, list_lookup_fmap.
    by rewrite E1, E2.
Qed.

Lemma counters_counts segments cs :
  NoDup (map fst segments) → Forall2 lt cs (widths segments) →
  Forall2 (counts segments) (counters segments cs) (widths segments).
Proof.
  intros Hnd HF. unfold counters, widths in *.
  assert (∀ segs, (∀ kv, kv ∈ segs → smap_get kv.1 segments = Some kv.2) →
    Forall2 lt cs (map (λ kv, length kv.2) segs) →
    Forall2 (counts segments) (zip (map fst segs) cs) (map (λ kv, length kv.2) segs)) as Hgen.
  { clear HF. induction cs as [|c cs IH]; intros [|[k vals] segs] Hget HF; inversion HF; subst;
      simpl; constructor.
    - split; [done|]. exists vals. split; [|done]. apply (Hget (k, vals)). left.
    - apply IH; [|done]. intros kv Hkv. apply Hget. by right. }
  apply Hgen; [|done]. intros [k vals] Hin. by apply elem_smap_get.
Qed.

Lemma odometer_walk segments (Hok : smap_ok segments) (Hne : Forall (λ kv, kv.2 ≠ []) segments) :
  ∀ fuel cs acc, Forall2 lt cs (widths segments) →
  (length (after cs (widths segments)) < fuel)%nat →
  odometer fuel segments (counters segments cs) acc =
  Some (fold_left (record segments) (cs :: after cs (widths segments)) acc).
Proof.
  assert (NoDup (map fst segments)) as Hnd by by apply sset_ok_NoDup.
  assert (Forall (λ n, 0 < n)%nat (widths segments)) as Hpos.
  { unfold widths. apply Forall_fmap. eapply Forall_impl; [exact Hne|].
    intros [k [|v vals]]; simpl; [done|lia]. }
  induction fuel as [|fuel IH]; intros cs acc Hcs Hfuel; [lia|].
  assert (map fst (counters segments cs) = map fst segments) as Hfst.
  { unfold counters. apply fst_zip. apply Forall2_length in Hcs. unfold widths in Hcs.
    rewrite length_map in Hcs. rewrite length_map. lia. }
  assert (map snd (counters segments cs) = cs) as Hsnd.
  { unfold counters. apply snd_zip. apply Forall2_length in Hcs. unfold widths in Hcs.
    rewrite length_map in Hcs. rewrite length_map. lia. }
  simpl odometer. rewrite (seg_key_choice _ _ cs) by by apply counters_get. cbn [mbind option_bind].
  rewrite (carry_next _ _ (widths segments)) by by apply counters_counts. cbn [mbind option_bind].
  rewrite Hsnd, Hfst. pose proof (next_idx_after cs (widths segments) Hcs Hpos) as Hnext.
  destruct (next_idx cs (widths segments)) as [cs'|].
  - destruct Hnext as [Ha Hcs']. rewrite rev_involutive. fold (counters segments cs').
    rewrite IH; [by rewrite Ha|done|]. rewrite Ha in Hfuel. simpl in Hfuel. lia.
  - by rewrite Hnext.
Qed.

Lemma record_all segments css : ∀ acc key, smap_ok acc →
  let m := fold_left (record segments) css acc in
  smap_ok m ∧
  (is_Some (smap_get key m) ↔ is_Some (smap_get key acc) ∨
     key ∈ map (λ cs, seg_text (known (choice segments cs))) css) ∧
  (∀ data, smap_get key m = Some data →
     smap_get key acc = Some data ∨ ∃ cs, cs ∈ css ∧ data = known (choice segments cs) ∧ key = seg_text data).
Proof.
  induction css as [|cs css IH]; intros acc key Hacc; simpl.
  { split_and!; [done| |by left]. split; [by left|]. intros [H|H]; [done|]. by apply not_elem_of_nil in H. }
  destruct (IH (record segments acc cs) key) as (IH0 & IH1 & IH2); [by apply smap_put_ok|].
  split_and!; [done| |].
  - rewrite IH1, elem_of_cons. unfold record. rewrite smap_get_put by done.
    destruct (String.eqb_spec key (seg_text (known (choice segments cs)))); naive_solver.
  - intros data Hd. apply IH2 in Hd as [Hd|(cs' & Hin & Hd)].
    + unfold record in Hd. rewrite smap_get_put in Hd by done.
      destruct (String.eqb_spec key (seg_text (known (choice segments cs)))) as [->|]; [|by left].
      injection Hd as <-. right. exists cs. split; [left|done].
    + right. exists cs'. split; [by right|done].
Qed.

Definition zeros (segments : FeatureMapT) : smap nat := map (λ kv, (kv.1, 0%nat)) segments.

Lemma zeros_counters segments : zeros segments = counters segments (replicate (length (widths segments)) 0%nat).
Proof. induction segments as [|kv segs IH]; [done|]. unfold counters in *. simpl. by rewrite IH. Qed.

Lemma zeros_lt ns : Forall (λ n, 0 < n)%nat ns → Forall2 lt (replicate (length ns) 0%nat) ns.
Proof. induction 1; simpl; by constructor. Qed.

Lemma choices_length segments : length (choices segments) = length (all_idx (widths segments)).
Proof. by rewrite choices_idx, length_map. Qed.

Lemma all_keys_ok segments fuel :
  segments ≠ [] → smap_ok segments → Forall (λ kv, kv.2 ≠ []) segments →
  (length (choices segments) ≤ fuel)%nat →
  ∃ keys, getAllPossibleSegStr fuel segments (zeros segments) = Some keys ∧ smap_ok keys ∧
  (∀ key, is_Some (smap_get key keys) ↔ key ∈ map (λ c, seg_text (known c)) (choices segments)) ∧
  ∀ key data, smap_get key keys = Some data →
    key = seg_text data ∧ ∃ c, c ∈ choices segments ∧ data = known c.
Proof.
  intros Hnn Hok Hne Hfuel.
  assert (Forall (λ n, 0 < n)%nat (widths segments)) as Hpos.
  { unfold widths. apply Forall_fmap. eapply Forall_impl; [exact Hne|].
    intros [k [|v vals]]; simpl; [done|lia]. }
  rewrite choices_length, (all_idx_zeros (widths segments)) in Hfuel by done. simpl in Hfuel.
  assert (smap_ok (V := FeatureT) []) as Hnil by constructor.
  exists (fold_left (record segments) (all_idx (widths segments)) []). split_and!.
  - rewrite zeros_counters, (all_idx_zeros (widths segments)) by done.
    rewrite <- (odometer_walk segments Hok Hne fuel); [|by apply zeros_lt|lia].
    destruct segments as [|kv segs]; [done|]. done.
  - by apply (record_all segments _ [] EmptyString Hnil).
  - intros key. rewrite (proj1 (proj2 (record_all segments _ [] key Hnil))).
    rewrite choices_idx, map_map. fold (widths segments).
    split; [intros [[? H]|H]; [done|exact H]|by right].
  - intros key data [H|(cs & Hin & -> & ->)]%(proj2 (proj2 (record_all segments _ [] key Hnil))); [done|].
    split; [done|]. exists (choice segments cs). split; [|done].
    rewrite choices_idx. by apply list_elem_of_fmap_2.
Qed.

(** The walk of the counters over all combinations of values ends after
    as many rounds as there are combinations, and its map holds exactly the
    texts of the combinations of known values, each with the values it was
    written from. *)
Theorem getAllPossibleSegStr_all segments fuel :
  segments ≠ [] → smap_ok segments → Forall (λ kv, kv.2 ≠ []) segments →
  (length (choices segments) ≤ fuel)%nat →
  ∃ keys, getAllPossibleSegStr fuel segments (zeros segments) = Some keys ∧ smap_ok keys ∧
  (∀ key, is_Some (smap_get key keys) ↔ key ∈ map (λ c, seg_text (known c)) (choices segments)) ∧
  ∀ key data, smap_get key keys = Some data →
    key = seg_text data ∧ ∃ c, c ∈ choices segments ∧ data = known c.
Proof. apply all_keys_ok. Qed.

(** ** A user's strings among the keys *)

Definition complete (segments : FeatureMapT) (c : FeatureT) : FeatureT :=
  map (λ kv, (kv.1, default UnknownStr (smap_get kv.1 c))) segments.

Lemma smap_get_None {V} k (m : smap V) : k ∉ map fst m → smap_get k m = None.
Proof.
  induction m as [|[i v] m IH]; simpl; intros Hk; [done|].
  apply not_elem_of_cons in Hk as [Hi Hm]. rewrite (proj2 (String.eqb_neq k i)) by done. by apply IH.
Qed.

Lemma known_cons n v c : known ((n, v) :: c) = if decide (v = UnknownStr) then known c else (n, v) :: known c.
Proof.
  unfold known. rewrite filter_cons. simpl. destruct (decide (v = UnknownStr)) as [->|H].
  - rewrite decide_False; [done|]. intros H. by apply H.
  - by rewrite decide_True.
Qed.

Lemma known_complete segments : ∀ c,
  smap_ok segments → smap_ok c → map fst c ⊆ map fst segments → Forall (λ nv, nv.2 ≠ UnknownStr) c →
  known (complete segments c) = c.
Proof.
  induction segments as [|[n vals] segs IH]; intros c Hs Hc Hsub Hv; simpl.
  { destruct c as [|nv c]; [reflexivity|]. exfalso. eapply not_elem_of_nil, (Hsub nv.1). left. }
  inversion_clear Hs as [|?? Hs' Hn]. rewrite known_cons.
  assert (n ∉ map fst segs) as Hnn.
  { intros Hin. rewrite Forall_forall in Hn. specialize (Hn n Hin). by rewrite str_lt_irrefl in Hn. }
  assert (∀ c', (∀ m, m ∈ map fst segs → smap_get m c = smap_get m c') →
    complete segs c = complete segs c') as Hext.
  { intros c' He. apply map_ext_in. intros [m w] Hin%list_elem_of_In. simpl. rewrite He; [done|].
    change m with (m, w).1. by apply list_elem_of_fmap_2. }
  destruct (decide (n ∈ map fst c)) as [Hin|Hnin].
  - destruct c as [|[n' v] c]; [by apply not_elem_of_nil in Hin|].
    inversion_clear Hc as [|?? Hc' Hn']. inversion_clear Hv as [|?? Hv1 Hv'].
    assert (n' = n) as ->.
    { simpl in Hin. apply elem_of_cons in Hin as [->|Hin]; [done|].
      assert (n' ∈ n :: map fst segs) as Hin' by (apply Hsub; left).
      apply elem_of_cons in Hin' as [->|Hin']; [done|].
      rewrite Forall_forall in Hn, Hn'. specialize (Hn' n Hin). specialize (Hn n' Hin').
      pose proof (str_lt_trans _ _ _ Hn' Hn) as H. by rewrite str_lt_irrefl in H. }
    simpl smap_get. rewrite String.eqb_refl. simpl default. rewrite decide_False by done. f_equal.
    rewrite (Hext c).
    + apply IH; [done|done| |done]. intros m Hm. assert (m ∈ n :: map fst segs) as Hm' by (apply Hsub; by right).
      apply elem_of_cons in Hm' as [->|Hm']; [|done]. rewrite Forall_forall in Hn'.
      specialize (Hn' n Hm). by rewrite str_lt_irrefl in Hn'.
    + intros m Hm. simpl. rewrite (proj2 (String.eqb_neq m n)); [done|]. by intros ->.
  - rewrite (smap_get_None n c) by done. simpl default. rewrite decide_True by done.
    apply IH; [done|done| |done]. intros m Hm. assert (m ∈ n :: map fst segs) as Hm' by (by apply Hsub).
    apply elem_of_cons in Hm' as [->|Hm']; [done|done].
Qed.

Lemma group_features_fold (nv : string * string) (info : FeatureT) :
  ∀ m : FeatureMapT, smap_ok m →
  let m' := fold_left (λ m nv, smap_put nv.1 (λ o, default [] o ++ [nv.2]) m) info m in
  smap_ok m' ∧
  (nv ∈ info ∨ (∃ vs : list string, smap_get nv.1 m = Some vs ∧ nv.2 ∈ vs) ↔
   ∃ vs : list string, smap_get nv.1 m' = Some vs ∧ nv.2 ∈ vs).
Proof.
  induction info as [|x info IH]; intros m Hm; simpl.
  { split; [done|]. split; [intros [H|H]; [by apply not_elem_of_nil in H|done]|by right]. }
  destruct (IH (smap_put x.1 (λ o, default [] o ++ [x.2]) m)) as [Hok Hiff]; [by apply smap_put_ok|].
  split; [done|]. rewrite <- Hiff, smap_get_put by done. rewrite elem_of_cons.
  destruct (String.eqb nv.1 x.1) eqn:E; [apply String.eqb_eq in E|apply String.eqb_neq in E].
  - split.
    + intros [[->|H]|(vs & Hg & Hin)].
      * right. eexists. split; [done|]. apply elem_of_app. right. left.
      * by left.
      * right. eexists. split; [done|]. rewrite <- E, Hg. simpl. apply elem_of_app. by left.
    + intros [H|(vs & [= <-] & Hin)]; [by left; right|]. apply elem_of_app in Hin as [Hin|Hin].
      * right. rewrite E. destruct (smap_get x.1 m) as [vs|]; simpl in Hin; [by eauto|by apply not_elem_of_nil in Hin].
      * apply list_elem_of_singleton in Hin. left. left. destruct nv, x; simpl in *; congruence.
  - split; [intros [[->|H]|H]; [done|by left|by right]|intros [H|H]; [by left; right|by right]].
Qed.

Lemma group_features_ok info : smap_ok (group_features info).
Proof. unfold group_features. by destruct (group_features_fold (EmptyString, EmptyString) info [] ltac:(constructor)). Qed.

Lemma group_features_elem info name v :
  (name, v) ∈ info ↔ ∃ vs, smap_get name (group_features info) = Some vs ∧ v ∈ vs.
Proof.
  destruct (group_features_fold (name, v) info [] ltac:(constructor)) as [_ H]. unfold group_features.
  rewrite <- H. simpl. split; [by left|]. by intros [?|(? & ? & ?)].
Qed.

Lemma valued_ok fm : smap_ok fm → smap_ok (valued fm).
Proof.
  unfold smap_ok, sset_ok. induction fm as [|[k vs] fm IH]; simpl; intros H; [constructor|].
  inversion_clear H as [|?? H1 H2]. unfold valued. rewrite filter_cons. case_decide; [|by apply IH].
  simpl. constructor; [by apply IH|]. rewrite Forall_forall in *. intros k' Hk'. apply H2.
  apply list_elem_of_fmap in Hk' as (kv & -> & Hkv). apply list_elem_of_filter in Hkv as [_ Hkv].
  by apply list_elem_of_fmap_2.
Qed.

Lemma choices_names fm c : c ∈ choices fm → map fst c = map fst fm.
Proof.
  rewrite elem_of_choices. induction 1 as [|kv nv fm c [Hn _] _ IH]; [done|]. simpl. by rewrite Hn, IH.
Qed.

Lemma choices_values fm c nv : c ∈ choices fm → nv ∈ c → ∃ vs, (nv.1, vs) ∈ fm ∧ nv.2 ∈ vs.
Proof.
  rewrite elem_of_choices. induction 1 as [|kv nv' fm c [Hn Hv] _ IH]; [by intros ?%not_elem_of_nil|].
  intros [->|Hin]%elem_of_cons.
  - exists kv.2. rewrite Hn. destruct kv. split; [left|done].
  - destruct (IH Hin) as (vs & H1 & H2). exists vs. split; [by right|done].
Qed.

Lemma expandSegmentStr_elem fm s :
  s ∈ expandSegmentStr [EmptyString] fm ↔ ∃ c, c ∈ choices (valued fm) ∧ s = seg_text c.
Proof.
  rewrite expandSegmentStr_perm, bind_cons. simpl. rewrite app_nil_r.
  rewrite list_elem_of_fmap. naive_solver.
Qed.

(** Values that are known, and not the word for unknown. *)
Definition known_features (segments fm : FeatureMapT) : Prop :=
  ∀ name vs v, smap_get name fm = Some vs → v ∈ vs →
    v ≠ UnknownStr ∧ ∃ vals, smap_get name segments = Some vals ∧ v ∈ vals.

(** When the values of a feature map are known, all its strings are keys of the
    walk over all combinations. *)
Lemma known_strings_keys segments fuel fm keys :
  smap_ok segments → Forall (λ kv, UnknownStr ∈ kv.2) segments → segments ≠ [] →
  smap_ok fm → known_features segments fm →
  (length (choices segments) ≤ fuel)%nat →
  getAllPossibleSegStr fuel segments (zeros segments) = Some keys →
  Forall (λ s, ∃ c, smap_get s keys = Some c ∧ s = seg_text c) (expandSegmentStr [EmptyString] fm).
Proof.
  intros Hok Hunk Hnn Hfm Hknown Hfuel Hkeys.
  destruct (all_keys_ok segments fuel Hnn Hok) as (keys' & Hk & _ & Hdom & Hdata); [|done|].
  { eapply Forall_impl; [exact Hunk|]. by intros [k [|v vs]] H; [apply not_elem_of_nil in H|]. }
  rewrite Hkeys in Hk. injection Hk as <-. apply Forall_forall. intros s Hs.
  apply expandSegmentStr_elem in Hs as (c & Hc & ->).
  assert (Forall (λ nv, nv.2 ≠ UnknownStr ∧ ∃ vs, smap_get nv.1 segments = Some vs ∧ nv.2 ∈ vs) c) as Hcv.
  { apply Forall_forall. intros nv Hnv. destruct (choices_values _ _ nv Hc Hnv) as (vs & Hin & Hv).
    apply list_elem_of_filter in Hin as [_ Hin]. apply (Hknown nv.1 vs); [|done].
    apply elem_smap_get; [|done]. by apply sset_ok_NoDup. }
  assert (known (complete segments c) = c) as Hkc.
  { apply known_complete; [done| | |].
    - unfold smap_ok. rewrite (choices_names _ _ Hc). by apply valued_ok.
    - intros n Hn. apply list_elem_of_fmap in Hn as (nv & -> & Hnv). rewrite Forall_forall in Hcv.
      destruct (Hcv nv Hnv) as (_ & vs & Hg & _). apply smap_get_elem in Hg.
      change nv.1 with (nv.1, vs).1. by apply list_elem_of_fmap_2.
    - eapply Forall_impl; [exact Hcv|]. by intros nv [H _]. }
  destruct (proj2 (Hdom (seg_text c))) as [data Hd].
  - rewrite <- Hkc at 1. apply (list_elem_of_fmap_2 (λ c, seg_text (known c))).
    apply elem_of_choices. unfold complete. apply Forall2_fmap_r. apply Forall_Forall2_diag.
    apply Forall_forall. intros [n vals] Hin. simpl. split; [done|].
    destruct (smap_get n c) as [v|] eqn:E; simpl.
    + apply smap_get_elem in E. rewrite Forall_forall in Hcv.
      destruct (Hcv _ E) as (_ & vs & Hg & Hv). simpl in Hg.
      rewrite (elem_smap_get n vals) in Hg; [|by apply sset_ok_NoDup|done]. by injection Hg as <-.
    + rewrite Forall_forall in Hunk. by apply (Hunk (n, vals)).
  - exists data. split; [done|]. by apply Hdata.
Qed.

(** The features of a user are known when each of the pairs is. *)
Lemma group_features_known segments info :
  Forall (λ nv, nv.2 ≠ UnknownStr ∧ ∃ vs, smap_get nv.1 segments = Some vs ∧ nv.2 ∈ vs) info →
  known_features segments (group_features info).
Proof.
  intros Hinfo name vs v Hg Hv. rewrite Forall_forall in Hinfo.
  apply (Hinfo (name, v)). apply group_features_elem. by exists vs.
Qed.

(** ** Two users, one key *)

(** The keys hold values without the names of their features. *)
Example keys_collide :
  getUserSegmentStr [] [("gender", "f")]%string = getUserSegmentStr [] [("size", "f")]%string.
Proof. reflexivity. Qed.

(** ** Witness *)

Definition two_features : FeatureMapT :=
  [("age", ["old"; "young"; UnknownStr]); ("sex", ["f"; UnknownStr])]%string.

Lemma getAllPossibleSegStr_all_witness :
  ∃ keys, getAllPossibleSegStr 6 two_features (zeros two_features) = Some keys ∧ length keys = 6%nat.
Proof.
  destruct (getAllPossibleSegStr_all two_features 6) as (keys & E & _).
  - done.
  - repeat constructor.
  - repeat constructor; done.
  - vm_compute. lia.
  - exists keys. split; [exact E|]. vm_compute in E. by injection E as <-.
Defined.
