(* ===== verification/Selector.v ===== *)
(** * Ad selection ([ad-manager/AdSelector.cpp], part 2)

    The selector ranks the ads of a search by their click rate: the rates of
    all combinations of user and ad segments are computed in the background
    ([computeHistoryCTR]), the rate of a user and an ad is looked up through
    their segments ([getHistoryCTR]), and [select] mixes ads that were clicked,
    ads with a known rate and unknown ads.

    Parameters are what the code calls outside [src/]: the click predictor, the
    manager of segment ids and the store of their strings, the random
    generator, the conversion of [UString]; further the tags taken from a
    title.  The recommender is used through the class [AdRec].  [None] is
    undefined behaviour (an index out of range) or an exception of
    [std::bitset]. *)
From S2P Require Import Prelude CNum PriorityQueue QueueSpec HitQueue Env Phrases Segments.
From S2P Require Import PropIdTable PropValueTable.

(** ** Services *)

(** [getDocIdByDocName(name, id, insert)] of the id manager, on its state. *)
Class SegIds (M : Type) := {
  seg_id_find : M → string → option Z;
  seg_id_insert : M → string → M * Z }.

(** [Lux::IO::Array]: [get] and [put] of an id. *)
Class SegStore (T : Type) := {
  seg_str_get : T → Z → option string;
  seg_str_put : T → Z → string → T }.

(** What the code relies on: a name keeps its id, two names have different ids,
    a new name gets a positive 16-bit id as long as there is room. *)
Class SegIdsOk (M : Type) `{SegIds M} := {
  seg_count : M → nat;
  seg_id_insert_known : ∀ m s id, seg_id_find m s = Some id →
    ∃ m', seg_id_insert m s = (m', id) ∧ seg_count m' = seg_count m ∧ ∀ x, seg_id_find m' x = seg_id_find m x;
  seg_id_insert_new : ∀ m s, seg_id_find m s = None → (Z.of_nat (seg_count m) < 65535) →
    ∃ m' id, seg_id_insert m s = (m', id) ∧ 0 < id < 2 ^ 16 ∧ seg_count m' = S (seg_count m) ∧
      ∀ x, seg_id_find m' x = if decide (x = s) then Some id else seg_id_find m x;
  seg_id_inj : ∀ m s s' id, seg_id_find m s = Some id → seg_id_find m s' = Some id → s = s';
  seg_id_pos : ∀ m s id, seg_id_find m s = Some id → 0 < id }.

Class SegStoreOk (T : Type) `{SegStore T} :=
  seg_str_get_put : ∀ t id s id', seg_str_get (seg_str_put t id s) id' = if decide (id = id') then Some s else seg_str_get t id'.

(** Instances: the names in the order of their ids, and a finite map. *)
#[export] Instance list_seg_ids : SegIds (list string) := {
  seg_id_find l s := (λ p, Z.of_nat (S p.1)) <$> list_find (s =.) l;
  seg_id_insert l s := match list_find (s =.) l with
                       | Some p => (l, Z.of_nat (S p.1))
                       | None => (l ++ [s], Z.of_nat (S (length l)))
                       end }.

#[export] Instance list_seg_ids_ok : SegIdsOk (list string).
Proof.
  refine {| seg_count := length |}; unfold seg_id_find, seg_id_insert; simpl.
  - intros m s id Hid. destruct (list_find (s =.) m) as [[i x]|]; [|done]. injection Hid as <-. by exists m.
  - intros m s Hn Hc. destruct (list_find (s =.) m) as [[i x]|] eqn:E; [done|].
    exists (m ++ [s]), (Z.of_nat (S (length m))). split_and!; [done|lia|lia|rewrite length_app; simpl; lia|].
    intros x. case_decide as Hx.
    + subst x. rewrite (list_find_app_r _ _ _ E). simpl. rewrite decide_True by done. simpl. do 2 f_equal; lia.
    + destruct (list_find (x =.) m) as [[j y]|] eqn:E'.
      * by rewrite (list_find_app_l _ _ _ _ _ E').
      * rewrite (list_find_app_r _ _ _ E'). simpl. by rewrite decide_False.
  - intros m s s' id Hs Hs'.
    destruct (list_find (s =.) m) as [[i x]|] eqn:E; [|done].
    destruct (list_find (s' =.) m) as [[j y]|] eqn:E'; [|done]. simpl in *.
    apply list_find_Some in E as (H1 & -> & _), E' as (H2 & -> & _).
    assert (i = j) as -> by (injection Hs; injection Hs'; lia). congruence.
  - intros m s id Hs. destruct (list_find (s =.) m) as [[i x]|]; [|done]. injection Hs as <-. lia.
Defined.

#[export] Instance gmap_seg_store : SegStore (gmap Z string) := {
  seg_str_get m i := m !! i; seg_str_put m i s := <[i := s]> m }.

#[export] Instance gmap_seg_store_ok : SegStoreOk (gmap Z string).
Proof. intros m i s j. unfold seg_str_get, seg_str_put. simpl. rewrite lookup_insert. by case_decide. Qed.

(** What the selector calls of the recommender. *)
Class AdRec (R : Type) := {
  rec_update_features : string → list string → R → option R;
  rec_update : FeatureT → string → bool → R → option R;
  rec_recommend : FeatureT → nat → list string → list double → R → option (list string * list double) }.

Definition MAX_HISTORY_CTR_NUM : Z := 1024 * 1024 * 16.
Definition MAX_AD_DOCID : Z := 1024 * 1024 * 1024.
Definition E_GREEDY_RATIO : double := d_lit 1 1.

Inductive SegType := UserSeg | AdSeg.

#[export] Instance SegType_eq_dec : EqDecision SegType.
Proof. solve_decision. Defined.

(** Arrays of [TotalSeg] elements. *)
Definition seg_upd {A} (ty : SegType) (a : A) (f : SegType → A) : SegType → A :=
  λ ty', if decide (ty' = ty) then a else f ty'.

Section selector.
Context {U : Type} `{Countable U} (convertString : U → string).
Context {M T R : Type} `{SegIds M, SegStore T}.
Context (predict : FeatureT → FeatureT → double) (random_gen_ : nat → Z) (score_epsilon : double).
Context `{AdRec R} (getAdTagsForRec : nat → list string).
Context `{LexicalCast}.

#[local] Notation table := (PropValueTable (U := U)).

(** ** State *)

Record AdSelector := Selector {
  groupManager_ : option (gmap string table);
  history_ctr_data_ : gmap string (list double);
  pending_compute_doclist_ : list (FeatureT * list nat);
  clicked_ads_ : gset nat;
  all_segments_ : SegType → FeatureMapT;
  updated_segments_ : SegType → FeatureMapT;
  init_counter_ : SegType → smap nat;
  default_full_features_ : SegType → FeatureMapT;
  need_refresh_ : bool;
  ad_segid_data_ : list (list Z);
  ad_segid_mgr_ : M;
  ad_segid_str_data_ : T;
  ad_feature_item_rec_ : option R;
  random_pos : nat }.

Definition with_history h st := Selector (groupManager_ st) h (pending_compute_doclist_ st) (clicked_ads_ st)
  (all_segments_ st) (updated_segments_ st) (init_counter_ st) (default_full_features_ st) (need_refresh_ st)
  (ad_segid_data_ st) (ad_segid_mgr_ st) (ad_segid_str_data_ st) (ad_feature_item_rec_ st) (random_pos st).
Definition with_pending p refresh st := Selector (groupManager_ st) (history_ctr_data_ st) p (clicked_ads_ st)
  (all_segments_ st) (updated_segments_ st) (init_counter_ st) (default_full_features_ st) refresh
  (ad_segid_data_ st) (ad_segid_mgr_ st) (ad_segid_str_data_ st) (ad_feature_item_rec_ st) (random_pos st).
Definition with_clicked c st := Selector (groupManager_ st) (history_ctr_data_ st) (pending_compute_doclist_ st) c
  (all_segments_ st) (updated_segments_ st) (init_counter_ st) (default_full_features_ st) (need_refresh_ st)
  (ad_segid_data_ st) (ad_segid_mgr_ st) (ad_segid_str_data_ st) (ad_feature_item_rec_ st) (random_pos st).
Definition with_segments a u st := Selector (groupManager_ st) (history_ctr_data_ st) (pending_compute_doclist_ st)
  (clicked_ads_ st) a u (init_counter_ st) (default_full_features_ st) (need_refresh_ st)
  (ad_segid_data_ st) (ad_segid_mgr_ st) (ad_segid_str_data_ st) (ad_feature_item_rec_ st) (random_pos st).
Definition with_segids d m s st := Selector (groupManager_ st) (history_ctr_data_ st) (pending_compute_doclist_ st)
  (clicked_ads_ st) (all_segments_ st) (updated_segments_ st) (init_counter_ st) (default_full_features_ st)
  (need_refresh_ st) d m s (ad_feature_item_rec_ st) (random_pos st).
Definition with_rec r st := Selector (groupManager_ st) (history_ctr_data_ st) (pending_compute_doclist_ st)
  (clicked_ads_ st) (all_segments_ st) (updated_segments_ st) (init_counter_ st) (default_full_features_ st)
  (need_refresh_ st) (ad_segid_data_ st) (ad_segid_mgr_ st) (ad_segid_str_data_ st) r (random_pos st).
Definition with_random n st := Selector (groupManager_ st) (history_ctr_data_ st) (pending_compute_doclist_ st)
  (clicked_ads_ st) (all_segments_ st) (updated_segments_ st) (init_counter_ st) (default_full_features_ st)
  (need_refresh_ st) (ad_segid_data_ st) (ad_segid_mgr_ st) (ad_segid_str_data_ st) (ad_feature_item_rec_ st) n.

(** ** Features of an ad *)

(** The vector [value] keeps its content from one id to the next. *)
Definition getValueStrFromPropId (fuel : nat) (pvt : table) (propids : PropIdList)
    : option (list string) :=
  '(_, value_list) ← foldM (λ st k,
    let '(value, value_list) := st in
    id ← list_at (valueIdTable_ pvt) propids k;
    value ← propValuePath fuel pvt id value;
    Some (value, match value with [] => value_list | v :: _ => value_list ++ [convertString v] end))
    ([], []) (seq 0 (Z.to_nat (list_size propids)));
  Some value_list.

Definition getPropValueTable (gm : gmap string table) (name : string) : option table := gm !! name.

(** The values of the ad for each feature that has a table. *)
Definition ad_feature_values (fuel : nat) (gm : gmap string table) (names : list string) (docid : nat)
    : option (list (string * option (list string))) :=
  mapM (λ name,
    match getPropValueTable gm name with
    | None => Some (name, None)
    | Some pvt =>
        propids ← getPropIdList pvt docid;
        value_list ← getValueStrFromPropId fuel pvt propids;
        Some (name, Some value_list)
    end) names.

(** [groupManager_] is dereferenced without a test. *)
Definition getAdFeatureList (fuel : nat) (st : AdSelector) (ad_id : nat) : option FeatureT :=
  gm ← groupManager_ st;
  vals ← ad_feature_values fuel gm (map fst (default_full_features_ st AdSeg)) ad_id;
  Some (v ← vals; match v.2 with Some l => map (pair v.1) l | None => [] end).

(** ** Segments of an ad *)

(** The ids of the strings, each string stored under its id. *)
Definition segids_step (acc : list Z * M * T) (str : string) : list Z * M * T :=
  let '(segids, mgr, store) := acc in
  if decide (str = EmptyString) then acc
  else
    let '(mgr, segid) := seg_id_insert mgr str in
    (segids ++ [segid], mgr, seg_str_put store segid str).

Definition updateAdSegmentStr (ad_docid : nat) (ad_feature : FeatureMapT) (st : AdSelector) : AdSelector :=
  let seg_str_list := expandSegmentStr [EmptyString] ad_feature in
  let '(segids, mgr, store) := fold_left segids_step seg_str_list ([], ad_segid_mgr_ st, ad_segid_str_data_ st) in
  let data := if (length (ad_segid_data_ st) <=? ad_docid)%nat
              then ad_segid_data_ st ++ replicate (S ad_docid - length (ad_segid_data_ st)) []
              else ad_segid_data_ st in
  with_segids (<[ad_docid := segids]> data) mgr store st.

(** The overload on lists; a shorter list of features is read out of range. *)
Fixpoint updateAdSegmentStr_list (ad_doclist : list nat) (ad_feature_list : list FeatureMapT) (st : AdSelector)
    : option AdSelector :=
  match ad_doclist, ad_feature_list with
  | [], _ => Some st
  | d :: ds, f :: fs => updateAdSegmentStr_list ds fs (updateAdSegmentStr d f st)
  | _ :: _, [] => None
  end.

(** [None] when the id is the size of the vector: the guard lets it pass. *)
Definition getAdSegmentStrList (st : AdSelector) (ad_id : nat) (retstr_list : list string) : option (list string) :=
  if (length (ad_segid_data_ st) <? ad_id)%nat then Some retstr_list
  else
    segids ← ad_segid_data_ st !! ad_id;
    Some (fold_left (λ l segid,
      match seg_str_get (ad_segid_str_data_ st) segid with
      | Some s => if decide (s = EmptyString) then l else l ++ [s]
      | None => l
      end) segids retstr_list).

Definition updateAdFeatureItemsForRec (id : nat) (features_map : FeatureMapT) (st : AdSelector)
    : option AdSelector :=
  match ad_feature_item_rec_ st with
  | None => Some st
  | Some r =>
      let features := (kv ← features_map; kv.2) ++ getAdTagsForRec id in
      r ← rec_update_features (lexical_cast (Z.of_nat id)) features r;
      Some (with_rec (Some r) st)
  end.

Definition trainOnlineRecommender (user_info : FeatureT) (ad_docid : string) (is_clicked : bool) (st : AdSelector)
    : option AdSelector :=
  match ad_feature_item_rec_ st with
  | None => Some st
  | Some r => r ← rec_update user_info ad_docid is_clicked r; Some (with_rec (Some r) st)
  end.

Definition selectFromRecommend (user_info : FeatureT) (max_return : nat) (recommended_items : list string)
    (score_list : list double) (st : AdSelector) : option (bool * list string * list double) :=
  match ad_feature_item_rec_ st with
  | None => Some (false, recommended_items, score_list)
  | Some r =>
      '(items, scores) ← rec_recommend user_info max_return recommended_items score_list r;
      Some (false, items, scores)
  end.

(** ** New segment values *)

Definition updateSegments_set (segment_name : string) (segments : list string) (ty : SegType) (st : AdSelector)
    : AdSelector :=
  with_pending (pending_compute_doclist_ st) true
    (with_segments (all_segments_ st)
      (seg_upd ty (smap_put segment_name (λ o, default [] o ++ segments) (updated_segments_ st ty))
         (updated_segments_ st)) st).

Definition updateSegments (segments : FeatureT) (ty : SegType) (st : AdSelector) : AdSelector :=
  with_segments (all_segments_ st)
    (seg_upd ty (fold_left (λ m nv, smap_put nv.1 (λ o, default [] o ++ [nv.2]) m) segments
       (updated_segments_ st ty)) (updated_segments_ st)) st.

(** [std::bitset::set] throws beyond its size. *)
Definition updateClicked (ad_id : nat) (st : AdSelector) : option AdSelector :=
  if Z.of_nat ad_id <? MAX_AD_DOCID then Some (with_clicked ({[ad_id]} ∪ clicked_ads_ st) st) else None.

Definition mine_ad_segments (fuel : nat) (gm : gmap string table) (names : list string)
    (acc : AdSelector * list (list string)) (i : nat) : option (AdSelector * list (list string)) :=
  vals ← ad_feature_values fuel gm names i;
  let ad_feature := fold_left (λ m v,
    match v.2 with Some l => smap_put v.1 (λ _, l) m | None => m end) vals [] in
  let kinds := zip_with (λ s v, match v.2 with Some l => sset_insert_all l s | None => s end) acc.2 vals in
  st ← updateAdFeatureItemsForRec i ad_feature (updateAdSegmentStr i ad_feature acc.1);
  Some (st, kinds).

Definition miningAdSegmentStr (fuel : nat) (startid endid : nat) (st : AdSelector) : option AdSelector :=
  match groupManager_ st with
  | None => Some st
  | Some gm =>
      let names := map fst (default_full_features_ st AdSeg) in
      '(st, kinds) ← foldM (mine_ad_segments fuel gm names) (st, map (λ _, []) names)
                       (seq startid (S endid - startid));
      Some (fold_left (λ st nk, updateSegments_set nk.1 nk.2 AdSeg st) (zip names kinds) st)
  end.

(** ** Click rates *)

(** The new values of one feature, those not seen before. *)
Definition merge_values (new vals : list string) : list string :=
  (fold_left (λ st v, if decide (v ∈ st.2) then st else (st.1 ++ [v], {[v]} ∪ st.2)) new
     (vals, list_to_set vals : gset string)).1.

(** One type of segments; features that are not known are dropped. *)
Definition merge_segments (updated segs : FeatureMapT) : FeatureMapT :=
  fold_left (λ segs kv,
    match smap_get kv.1 segs with
    | None => segs
    | Some vals => smap_put kv.1 (λ _, merge_values kv.2 vals) segs
    end) updated segs.

Definition merge_updates (st : AdSelector) : AdSelector :=
  with_segments (λ ty, merge_segments (updated_segments_ st ty) (all_segments_ st ty)) (λ _, []) st.

(** [history_ctr_data_[key]] is resized for the id, with zeros, and set. *)
Definition set_ctr (key : string) (segid : Z) (ctr : double) (h : gmap string (list double))
    : gmap string (list double) :=
  let v := default [] (h !! key) in
  let i := Z.to_nat segid in
  let v := if (length v <=? i)%nat then v ++ replicate (S i - length v) d_zero else v in
  <[key := <[i := ctr]> v]> h.

(** One pair of a user key and an ad key; the empty ad key has the id 0. *)
Definition ctr_step (st : AdSelector) (pair : (string * FeatureT) * (string * FeatureT)) : AdSelector :=
  let '((key, udata), (akey, adata)) := pair in
  let '(mgr, segid) :=
    if decide (akey = EmptyString) then (ad_segid_mgr_ st, 0) else seg_id_insert (ad_segid_mgr_ st) akey in
  with_history (set_ctr key segid (predict udata adata) (history_ctr_data_ st))
    (with_segids (ad_segid_data_ st) mgr (ad_segid_str_data_ st) st).

(** One user string and one ad string of a pending request; unknown ad strings
    are skipped, unknown features are empty. *)
Definition pending_step (user_info : FeatureT) (ad_features : smap FeatureT) (st : AdSelector)
    (pair : string * string) : AdSelector :=
  let '(key, ad_segstr) := pair in
  match seg_id_find (ad_segid_mgr_ st) ad_segstr with
  | None => st
  | Some segid =>
      with_history (set_ctr key segid (predict user_info (default [] (smap_get ad_segstr ad_features)))
                      (history_ctr_data_ st)) st
  end.

Definition pending_doc (user_info : FeatureT) (user_seg_str : list string) (ad_features : smap FeatureT)
    (st : AdSelector) (docid : nat) : option AdSelector :=
  ad_segstr_list ← getAdSegmentStrList st docid [];
  Some (fold_left (pending_step user_info ad_features)
          (key ← user_seg_str; map (pair key) ad_segstr_list) st).

Definition updatePendingHistoryCTRData (fuel : nat) (st : AdSelector) : option AdSelector :=
  let tmp_pending_list := pending_compute_doclist_ st in
  let st := with_pending [] (need_refresh_ st) st in
  match tmp_pending_list with
  | [] => Some st
  | _ =>
      ad_features ← getAllPossibleSegStr fuel (all_segments_ st AdSeg) (init_counter_ st AdSeg);
      foldM (λ st p,
        foldM (pending_doc p.1 (getUserSegmentStr [] p.1) ad_features) st p.2) st tmp_pending_list
  end.

Definition computeHistoryCTR (fuel : nat) (st : AdSelector) : option AdSelector :=
  let st := merge_updates st in
  users ← getAllPossibleSegStr fuel (all_segments_ st UserSeg) (init_counter_ st UserSeg);
  ads ← getAllPossibleSegStr fuel (all_segments_ st AdSeg) (init_counter_ st AdSeg);
  if MAX_HISTORY_CTR_NUM / 2 <? u64 (Z.of_nat (length users * length ads))
  then updatePendingHistoryCTRData fuel st
  else Some (fold_left ctr_step (u ← users; map (pair u) ads) st).

(** One round of the update thread. *)
Definition update_round (fuel : nat) (st : AdSelector) : option AdSelector :=
  st ← computeHistoryCTR fuel st; Some (with_pending (pending_compute_doclist_ st) false st).

(** The greatest known rate over the user's strings and the ad's segments. *)
Definition ctr_at (h : gmap string (list double)) (key : string) (segid : Z) : option double :=
  v ← h !! key; v !! Z.to_nat segid.

Definition getHistoryCTR (h : gmap string (list double)) (user_seg_key : list string) (ad_segid_list : list Z)
    : bool * double :=
  match ad_segid_list with
  | [] => (true, d_zero)
  | _ =>
      fold_left (λ acc ki,
        match ctr_at h ki.1 ki.2 with
        | None => acc
        | Some ctr => (true, d_stdmax ctr acc.2)
        end) (key ← user_seg_key; map (pair key) ad_segid_list) (false, d_zero)
  end.

(** ** Selection *)

Definition next_random (st : AdSelector) : Z * AdSelector :=
  (random_gen_ (random_pos st), with_random (S (random_pos st)) st).

(** [std::set<int>] of the numbers drawn. *)
Fixpoint draw_indexes (n : nat) (st : AdSelector) (set : gset Z) : gset Z * AdSelector :=
  match n with
  | O => (set, st)
  | S n => let '(r, st) := next_random st in draw_indexes n st ({[i32 r]} ∪ set)
  end.

(** An [int] against a [size_t] is converted to 64 bits; the order is that of
    the numbers drawn, so an ad can come twice. *)
Definition selectByRandSelectPolicy (max_unclicked_retnum : nat) (unclicked_doclist : list nat) (st : AdSelector)
    : option (list nat * AdSelector) :=
  let '(indexes, st) := draw_indexes max_unclicked_retnum st ∅ in
  l ← mapM (λ i, unclicked_doclist !! Z.to_nat (u64 i `mod` Z.of_nat (length unclicked_doclist)))
        (merge_sort Z.le (elements indexes));
  Some (l, st).

Section queues.
Context {Q : Type} `{Ops : PQOps ScoreDoc Q}.

Record scan_state := Scan {
  tmp_clicked : Q;
  tmp_unclicked : Q;
  unclicked_docs : list nat;
  pending_docs : list nat }.

(** One document of the list. *)
Definition scan_doc (st : AdSelector) (user_seg_str : list string) (many random_select : bool)
    (sc : scan_state) (docid : nat) : option scan_state :=
  if MAX_AD_DOCID <=? Z.of_nat docid then None
  else if decide (docid ∈ clicked_ads_ st) then
    if many then
      segids ← ad_segid_data_ st !! docid;
      let '(found, score) := getHistoryCTR (history_ctr_data_ st) user_seg_str segids in
      if (found : bool) then
        '(_, q) ← q_insert (score_doc docid score) (tmp_clicked sc);
        Some (Scan q (tmp_unclicked sc) (unclicked_docs sc) (pending_docs sc))
      else Some (Scan (tmp_clicked sc) (tmp_unclicked sc) (unclicked_docs sc ++ [docid]) (pending_docs sc ++ [docid]))
    else
      '(_, q) ← q_insert (score_doc docid d_zero) (tmp_clicked sc);
      Some (Scan q (tmp_unclicked sc) (unclicked_docs sc) (pending_docs sc))
  else if random_select then
    Some (Scan (tmp_clicked sc) (tmp_unclicked sc) (unclicked_docs sc ++ [docid]) (pending_docs sc))
  else
    segids ← ad_segid_data_ st !! docid;
    let '(found, score) := getHistoryCTR (history_ctr_data_ st) user_seg_str segids in
    if (found : bool) then
      '(_, q) ← q_insert (score_doc docid score) (tmp_unclicked sc);
      Some (Scan (tmp_clicked sc) q (unclicked_docs sc) (pending_docs sc))
    else Some (Scan (tmp_clicked sc) (tmp_unclicked sc) (unclicked_docs sc ++ [docid]) (pending_docs sc)).

(** The features of a clicked ad from the tables of the list; a null pointer
    contributes nothing. *)
Definition features_of (fuel : nat) (pvts : list (string * option table)) (docid : nat) : option FeatureT :=
  l ← mapM (λ np, match np.2 with
                  | None => Some []
                  | Some pvt =>
                      propids ← getPropIdList pvt docid;
                      vals ← getValueStrFromPropId fuel pvt propids;
                      Some (map (pair np.1) vals)
                  end) pvts;
  Some (concat l).

(** [pvt_list] of [select]: [pvt] is set to [NULL], and what
    [getPropValueTable] returns is not assigned to it. *)
Definition select_pvts (st : AdSelector) : list (string * option table) :=
  map (λ kv, (kv.1, None)) (default_full_features_ st AdSeg).

(** The loop that ranks the clicked ads by the predictor. *)
Fixpoint rank_clicked (fuel : nat) (user_info : FeatureT) (pvts : list (string * option table))
    (n : nat) (clicked total : Q) : option Q :=
  match n with
  | O => Some total
  | S n =>
      '(item, clicked) ← q_pop clicked;
      ad_features ← features_of fuel pvts (sd_docId item);
      '(_, total) ← q_insert (score_doc (sd_docId item) (predict user_info ad_features)) total;
      rank_clicked fuel user_info pvts n clicked total
  end.

(** [total_scorelist.insert(tmp_unclicked_scorelist.pop())], [n] times. *)
Fixpoint move_scored (n : nat) (from total : Q) : option Q :=
  match n with
  | O => Some total
  | S n =>
      '(item, from) ← q_pop from;
      '(_, total) ← q_insert item total;
      move_scored n from total
  end.

(** The last loops: the items popped fill positions [n-1 .. 0] of the lists,
    the unscored ads follow; a write out of range is [None]. *)
Fixpoint write_scored (n : nat) (total : Q) (docs : list nat) (scores : list double) (min_score : double)
    : option (list nat * list double * double) :=
  match n with
  | O => Some (docs, scores, min_score)
  | S n =>
      '(item, total) ← q_pop total;
      _ ← docs !! n; _ ← scores !! n;
      write_scored n total (<[n := sd_docId item]> docs) (<[n := sd_score item]> scores)
        (if d_lt (sd_score item) min_score then sd_score item else min_score)
  end.

Fixpoint write_unscored (ret_i : nat) (unclicked : list nat) (low : double) (docs : list nat) (scores : list double)
    : option (list nat * list double) :=
  match unclicked with
  | [] => Some (docs, scores)
  | d :: unclicked =>
      _ ← docs !! ret_i; _ ← scores !! ret_i;
      write_unscored (S ret_i) unclicked low (<[ret_i := d]> docs) (<[ret_i := low]> scores)
  end.

(** [std::vector::resize]. *)
Definition resize_list {A} (n : nat) (d : A) (l : list A) : list A := take n l ++ replicate (n - length l) d.

(** The two lists of the result. *)
Definition write_result (total : Q) (unclicked ad_doclist : list nat) (score_list : list double)
    : option (list nat * list double) :=
  let scores := resize_list (length ad_doclist) d_zero score_list in
  '(docs, scores, min_score) ← write_scored (q_size total) total ad_doclist scores d_zero;
  '(docs, scores) ← write_unscored (q_size total) unclicked (d_sub min_score (d_of_Z 1)) docs scores;
  let ret_i := (q_size total + length unclicked)%nat in
  let docs := resize_list ret_i 0%nat docs in
  Some (docs, resize_list (length docs) d_zero scores).

(** [select]; [max_select - max_clicked_retnum] is computed on 64 bits. *)
Definition select (fuel : nat) (user_info : FeatureT) (max_select : nat) (ad_doclist : list nat)
    (score_list : list double) (st : AdSelector) : option (bool * list nat * list double * AdSelector) :=
  match ad_doclist with
  | [] => Some (false, ad_doclist, score_list, st)
  | _ =>
      let user_seg_str := getUserSegmentStr [] user_info in
      let max_clicked_retnum := (max_select / 3 + 1)%nat in
      let max_unclicked_retnum := Z.to_nat (u64 (Z.of_nat max_select - Z.of_nat max_clicked_retnum)) in
      let max_tmp_clicked_num := (max_clicked_retnum * 2)%nat in
      let '(r, st) := next_random st in
      let random_select := d_lt (d_of_Z (r `mod` 1000)) (d_mul E_GREEDY_RATIO (d_of_Z 1000)) in
      sc ← foldM (scan_doc st user_seg_str (max_tmp_clicked_num <? length ad_doclist)%nat random_select)
             (Scan (q_new max_tmp_clicked_num) (q_new max_unclicked_retnum) [] []) ad_doclist;
      let st := match pending_docs sc with
                | [] => st
                | l => with_pending (pending_compute_doclist_ st ++ [(user_info, l)]) true st
                end in
      let unclicked_size := q_size (tmp_unclicked sc) in
      total ← rank_clicked fuel user_info (select_pvts st) (q_size (tmp_clicked sc)) (tmp_clicked sc)
                (q_new (max_clicked_retnum + unclicked_size)%nat);
      let rest_num := Z.to_nat (u64 (Z.of_nat max_unclicked_retnum - Z.of_nat unclicked_size)) in
      total ← move_scored unclicked_size (tmp_unclicked sc) total;
      '(unclicked, st) ← (if (rest_num <? length (unclicked_docs sc))%nat
                          then selectByRandSelectPolicy rest_num (unclicked_docs sc) st
                          else Some (unclicked_docs sc, st));
      '(docs, scores) ← write_result total unclicked ad_doclist score_list;
      Some (negb (length docs =? 0)%nat, docs, scores, st)
  end.

End queues.

(** ** Values of an ad *)

(** [getValueStrFromPropId] gives, for each id of the document, the
    string of the root above it: the path that stays in the vector from the
    previous id ends up behind the new one. *)
Theorem getValueStrFromPropId_roots (pvt : table) propids ids fuel :
  table_ok pvt → mapM (list_at (valueIdTable_ pvt) propids) (seq 0 (Z.to_nat (list_size propids))) = Some ids →
  Forall (λ id, 0 < id < value_num pvt) ids → value_num pvt ≤ Z.of_nat fuel →
  ∃ vals, getValueStrFromPropId fuel pvt propids = Some vals ∧
  Forall2 (λ id v, ∃ root rest, at_path pvt id (root :: rest) ∧ v = convertString root) ids vals.
Proof.
  intros Hok Hids Hval Hf. unfold getValueStrFromPropId.
  set (g := λ (st : list U * list string) id, value ← propValuePath fuel pvt id st.1;
    Some (value, match value with [] => st.2 | v :: _ => st.2 ++ [convertString v] end)).
  assert (∀ value acc, ∃ value' vals, foldM g (value, acc) ids = Some (value', acc ++ vals) ∧
    Forall2 (λ id v, ∃ root rest, at_path pvt id (root :: rest) ∧ v = convertString root) ids vals) as Hgen.
  { clear Hids. induction Hval as [|id ids Hid _ IH]; intros value acc.
    { exists value, []. by rewrite app_nil_r. }
    destruct (at_path_total pvt Hok id) as [path Hpath]; [lia|].
    assert (∃ root rest, path = root :: rest) as (root & rest & ->).
    { destruct path as [|root rest]; [|by exists root, rest]. apply at_path_nil in Hpath. lia. }
    pose proof (at_path_length pvt Hok id _ Hpath) as Hlen.
    destruct (IH (reverse (value ++ reverse (root :: rest))) (acc ++ [convertString root]))
      as (value' & vals & E & HF).
    exists value', (convertString root :: vals). split.
    - assert (g (value, acc) id =
        Some (reverse (value ++ reverse (root :: rest)), acc ++ [convertString root])) as Hg.
      { unfold g, propValuePath. simpl fst. rewrite (path_loop_ok pvt id _ Hpath) by lia.
        cbn [mbind option_bind]. by rewrite reverse_app, reverse_involutive. }
      cbn [foldM]. rewrite Hg. cbn [mbind option_bind]. by rewrite E, <- app_assoc.
    - constructor; [by exists root, rest|done]. }
  destruct (Hgen [] []) as (value' & vals & E & HF). simpl in E. exists vals. split; [|done].
  rewrite <- (foldM_mapM _ g _ _ ([], []) Hids) in E.
  replace (foldM _ _ _) with (Some (value', vals)); [done|]. rewrite <- E. apply foldM_ext. intros [value acc] k.
  unfold g. simpl. by destruct (list_at _ _ _).
Qed.

(** ** Segment ids of the ads *)

Context `{!SegIdsOk M, !SegStoreOk T}.

(** An id of an ad names a string, and the string is stored under it. *)
Definition segid_ok (mgr : M) (store : T) (id : Z) : Prop :=
  ∃ s, s ≠ EmptyString ∧ seg_id_find mgr s = Some id ∧ seg_str_get store id = Some s.

Definition segids_ok (st : AdSelector) : Prop :=
  Forall (Forall (segid_ok (ad_segid_mgr_ st) (ad_segid_str_data_ st))) (ad_segid_data_ st).

(** Names are only added. *)
Definition ids_extend (m m' : M) : Prop := ∀ s id, seg_id_find m s = Some id → seg_id_find m' s = Some id.

Lemma seg_id_insert_ok m s : Z.of_nat (seg_count m) < 65535 →
  ∃ m' id, seg_id_insert m s = (m', id) ∧ seg_id_find m' s = Some id ∧ ids_extend m m' ∧
  (seg_count m' ≤ S (seg_count m))%nat ∧ (∀ x, x ≠ s → seg_id_find m' x = seg_id_find m x).
Proof.
  intros Hroom. destruct (seg_id_find m s) as [id|] eqn:E.
  - destruct (seg_id_insert_known m s id E) as (m' & Ei & Hc & Hf). exists m', id.
    split_and!; [done|by rewrite Hf|intros x i; by rewrite Hf|lia|intros x _; apply Hf].
  - destruct (seg_id_insert_new m s E Hroom) as (m' & id & Ei & _ & Hc & Hf). exists m', id.
    split_and!; [done|by rewrite Hf, decide_True| |lia|].
    + intros x i Hx. rewrite Hf. case_decide as Hxs; [congruence|done].
    + intros x Hx. rewrite Hf. by rewrite decide_False.
Qed.

(** Storing a string under its id keeps the other ids, and what it names. *)
Lemma segid_ok_put m m' store s id :
  ids_extend m m' → seg_id_find m' s = Some id → s ≠ EmptyString →
  segid_ok m' (seg_str_put store id s) id ∧
  (∀ i, segid_ok m store i → segid_ok m' (seg_str_put store id s) i) ∧
  (∀ i, segid_ok m store i → seg_str_get (seg_str_put store id s) i = seg_str_get store i).
Proof.
  intros Hext Hid Hs. split_and!.
  - exists s. split_and!; [done|done|]. by rewrite seg_str_get_put, decide_True.
  - intros i (x & Hx & Hf & Hg). exists x. split_and!; [done|by apply Hext|].
    rewrite seg_str_get_put. case_decide as Hi; [|done]. subst i. f_equal.
    apply (seg_id_inj m' s x id Hid). by apply Hext.
  - intros i (x & Hx & Hf & Hg). rewrite seg_str_get_put. case_decide as Hi; [|done]. subst i. rewrite Hg. f_equal.
    apply (seg_id_inj m' s x id Hid). by apply Hext.
Qed.

Lemma segids_fold strs : ∀ segids mgr store,
  Z.of_nat (seg_count mgr + length strs) ≤ 65535 → Forall (segid_ok mgr store) segids →
  ∃ segids' mgr' store', fold_left segids_step strs (segids, mgr, store) = (segids', mgr', store') ∧
  ids_extend mgr mgr' ∧ (∀ i, segid_ok mgr store i → segid_ok mgr' store' i ∧ seg_str_get store' i = seg_str_get store i) ∧
  Forall (segid_ok mgr' store') segids' ∧
  mapM (seg_str_get store') segids' = (λ l, l ++ filter (λ s, s ≠ EmptyString) strs) <$> mapM (seg_str_get store) segids.
Proof.
  induction strs as [|s strs IH]; intros segids mgr store Hroom Hids.
  { exists segids, mgr, store. split_and!; [done|by intros x i|by intros i Hi|done|].
    destruct (mapM (seg_str_get store) segids); simpl; [by rewrite app_nil_r|done]. }
  simpl in Hroom. simpl fold_left. rewrite filter_cons. case_decide as Hs.
  - subst s. rewrite decide_False by (intros Hn; by apply Hn). apply IH; [lia|done].
  - rewrite decide_True by done. destruct (seg_id_insert_ok mgr s) as (m' & id & -> & Hf & Hext & Hc & _); [lia|].
    destruct (segid_ok_put mgr m' store s id Hext Hf Hs) as (Hid & Hkeep & Hget).
    destruct (IH (segids ++ [id]) m' (seg_str_put store id s)) as (segids' & m2 & store2 & E & Hext' & Hkeep' & Hall & Hm).
    { lia. }
    { apply Forall_app. split; [|by constructor]. eapply Forall_impl; [exact Hids|done]. }
    exists segids', m2, store2. split_and!; [done|intros x i Hx; by apply Hext', Hext| |done|].
    + intros i Hi. destruct (Hkeep' i (Hkeep i Hi)) as [Hok Hg]. split; [done|]. rewrite Hg. by apply Hget.
    + rewrite Hm, mapM_app. simpl. rewrite seg_str_get_put, decide_True by done. simpl.
      assert (mapM (seg_str_get (seg_str_put store id s)) segids = mapM (seg_str_get store) segids) as ->.
      { clear -Hids Hget. induction Hids as [|i l Hi Hl IH]; [done|]. simpl. by rewrite (Hget i Hi), IH. }
      destruct (mapM (seg_str_get store) segids) as [l|]; simpl; [|done]. by rewrite <- app_assoc.
Qed.


Lemma getAdSegmentStrList_ok st d ids :
  segids_ok st → ad_segid_data_ st !! d = Some ids →
  getAdSegmentStrList st d [] = mapM (seg_str_get (ad_segid_str_data_ st)) ids.
Proof.
  intros Hok Hd. unfold getAdSegmentStrList.
  rewrite (proj2 (Nat.ltb_ge _ _)) by (apply lookup_lt_Some in Hd; lia). rewrite Hd. cbn [mbind option_bind].
  unfold segids_ok in Hok. rewrite Forall_lookup in Hok. specialize (Hok d ids Hd).
  assert (∀ l, Some (fold_left (λ l segid,
      match seg_str_get (ad_segid_str_data_ st) segid with
      | Some s => if decide (s = EmptyString) then l else l ++ [s]
      | None => l
      end) ids l) = (λ l', l ++ l') <$> mapM (seg_str_get (ad_segid_str_data_ st)) ids) as Hgen.
  { clear Hd. induction Hok as [|i ids (s & Hs & _ & Hg) _ IH]; intros l; simpl.
    - by rewrite app_nil_r.
    - rewrite Hg, decide_False by done. rewrite IH. simpl.
      destruct (mapM _ ids); simpl; [by rewrite <- app_assoc|done]. }
  rewrite Hgen. by destruct (mapM _ ids).
Qed.

(** [updateAdSegmentStr] writes the segments of the ad and of no other:
    [getAdSegmentStrList] reads back every non-empty combination of the ad's
    values, in the order of [expandSegmentStr]; the ads mined before read what
    they read before. *)
Theorem updateAdSegmentStr_reads st docid feature :
  segids_ok st →
  Z.of_nat (seg_count (ad_segid_mgr_ st) + length (expandSegmentStr [EmptyString] feature)) ≤ 65535 →
  let st' := updateAdSegmentStr docid feature st in
  segids_ok st' ∧
  getAdSegmentStrList st' docid [] = Some (filter (λ s, s ≠ EmptyString) (expandSegmentStr [EmptyString] feature)) ∧
  ∀ d, d ≠ docid → (d < length (ad_segid_data_ st))%nat →
    getAdSegmentStrList st' d [] = getAdSegmentStrList st d [].
Proof.
  intros Hok Hroom. cbv zeta. unfold updateAdSegmentStr.
  destruct (segids_fold (expandSegmentStr [EmptyString] feature) [] (ad_segid_mgr_ st) (ad_segid_str_data_ st) Hroom)
    as (segids & mgr & store & E & Hext & Hkeep & Hids & Hm); [constructor|].
  rewrite E. simpl in Hm. cbv zeta.
  set (data := if (length (ad_segid_data_ st) <=? docid)%nat then _ else _).
  set (st' := with_segids _ _ _ st).
  assert (docid < length data ∧ Forall (Forall (segid_ok (ad_segid_mgr_ st) (ad_segid_str_data_ st))) data ∧
    ∀ d, d < length (ad_segid_data_ st) → data !! d = ad_segid_data_ st !! d)%nat as (Hlt & Hdata & Hsame).
  { unfold data. destruct (length (ad_segid_data_ st) <=? docid)%nat eqn:El; bool_cases; [|by split_and!].
    split_and!; [rewrite length_app, length_replicate; lia| |intros d Hd; by rewrite lookup_app_l].
    apply Forall_app. split; [exact Hok|]. apply Forall_replicate. constructor. }
  assert (segids_ok st') as Hok'.
  { unfold segids_ok, st'. simpl. apply Forall_insert; [|done].
    eapply Forall_impl; [exact Hdata|]. intros l Hl. eapply Forall_impl; [exact Hl|]. intros i Hi. by apply Hkeep. }
  split_and!; [done| |].
  - rewrite (getAdSegmentStrList_ok st' docid segids Hok'); [exact Hm|]. by apply list_lookup_insert_eq.
  - intros d Hne Hd. destruct (lookup_lt_is_Some_2 _ _ Hd) as [ids Hids'].
    rewrite (getAdSegmentStrList_ok st d ids Hok Hids').
    rewrite (getAdSegmentStrList_ok st' d ids Hok').
    + simpl. unfold segids_ok in Hok. rewrite Forall_lookup in Hok. specialize (Hok d ids Hids').
      clear -Hok Hkeep. induction Hok as [|i l Hi _ IH]; [done|]. simpl.
      destruct (Hkeep i Hi) as [_ ->]. by rewrite IH.
    + simpl. rewrite list_lookup_insert_ne by done. by rewrite Hsame.
Qed.


(** ** The known segments *)

(** Each feature has its values without repetition, [Unknown] among them, and a
    counter at zero. *)
Definition seg_map_ok (segs : FeatureMapT) (counter : smap nat) : Prop :=
  smap_ok segs ∧ segs ≠ [] ∧ counter = zeros segs ∧
  Forall (λ kv, UnknownStr ∈ kv.2 ∧ NoDup kv.2) segs.

Definition segments_ok (st : AdSelector) : Prop :=
  ∀ ty, seg_map_ok (all_segments_ st ty) (init_counter_ st ty).

Lemma merge_values_ok new vals :
  ∃ more, merge_values new vals = vals ++ more ∧ (NoDup vals → NoDup (vals ++ more)) ∧
  ∀ v, v ∈ vals ++ more ↔ v ∈ vals ∨ v ∈ new.
Proof.
  unfold merge_values.
  assert (∀ vals (seen : gset string), (∀ v, v ∈ seen ↔ v ∈ vals) →
    ∃ more, (fold_left (λ st v, if decide (v ∈ st.2) then st else (st.1 ++ [v], {[v]} ∪ st.2)) new (vals, seen)).1
      = vals ++ more ∧ (NoDup vals → NoDup (vals ++ more)) ∧ ∀ v, v ∈ vals ++ more ↔ v ∈ vals ∨ v ∈ new) as Hgen.
  { induction new as [|v new IH]; intros vals' seen Hseen; simpl.
    { exists []. rewrite app_nil_r. split_and!; [done|done|]. intros v. split; [by left|].
      intros [Hv|Hv]; [done|by apply not_elem_of_nil in Hv]. }
    destruct (decide (v ∈ seen)) as [Hin|Hnin].
    - destruct (IH vals' seen Hseen) as (more & E & Hnd & Hel). exists more. split_and!; [done|done|].
      intros x. rewrite Hel, elem_of_cons. apply Hseen in Hin. naive_solver.
    - destruct (IH (vals' ++ [v]) ({[v]} ∪ seen)) as (more & E & Hnd & Hel).
      { intros x. rewrite elem_of_union, elem_of_singleton, elem_of_app, list_elem_of_singleton, Hseen. tauto. }
      exists (v :: more). rewrite (cons_middle v vals' more), app_assoc. split_and!; [done| |].
      + intros Hv. apply Hnd. apply NoDup_app. split_and!; [done| |apply NoDup_singleton].
        intros x Hx ->%list_elem_of_singleton. by apply Hnin, Hseen.
      + intros x. rewrite Hel, elem_of_app, list_elem_of_singleton, elem_of_cons. tauto. }
  apply Hgen. intros v. apply elem_of_list_to_set.
Qed.

(** Replacing the values of a known feature. *)
Lemma smap_put_names {V} k f (m : smap V) : is_Some (smap_get k m) → smap_ok m → map fst (smap_put k f m) = map fst m.
Proof.
  unfold smap_ok, sset_ok. induction m as [|[i v] m IH]; simpl; [by intros []|].
  intros Hk Hm. inversion_clear Hm as [|?? Hm' Hi]. destruct (String.eqb k i) eqn:E; [by apply String.eqb_eq in E as ->|].
  destruct (str_lt k i) eqn:El; simpl; [|by rewrite IH].
  exfalso. destruct Hk as [v' Hv]. apply smap_get_elem in Hv. rewrite Forall_forall in Hi.
  assert (k ∈ map fst m) as Hk by (change k with (k, v').1; by apply list_elem_of_fmap_2).
  specialize (Hi k Hk). pose proof (str_lt_trans _ _ _ El Hi) as Hx. by rewrite str_lt_irrefl in Hx.
Qed.

Lemma zeros_names segs segs' : map fst segs = map fst segs' → zeros segs = zeros segs'.
Proof.
  intros E. unfold zeros. replace (map (λ kv : string * list string, (kv.1, 0%nat)) segs)
    with (map (λ k, (k, 0%nat)) (map fst segs)) by by rewrite map_map.
  rewrite E. by rewrite map_map.
Qed.

Lemma seg_map_ok_get segs counter k vals :
  seg_map_ok segs counter → smap_get k segs = Some vals → UnknownStr ∈ vals ∧ NoDup vals.
Proof.
  intros (_ & _ & _ & Hall) Hg. apply smap_get_elem in Hg. rewrite Forall_forall in Hall. apply (Hall _ Hg).
Qed.

Lemma seg_map_ok_put segs counter k vals vals' :
  seg_map_ok segs counter → smap_get k segs = Some vals → UnknownStr ∈ vals' → NoDup vals' →
  seg_map_ok (smap_put k (λ _, vals') segs) counter.
Proof.
  intros (Hok & Hne & Hc & Hall) Hg Hu Hnd.
  assert (map fst (smap_put k (λ _, vals') segs) = map fst segs) as Hn by (apply smap_put_names; [by eexists|done]).
  assert (smap_ok (smap_put k (λ _, vals') segs)) as Hok' by by apply smap_put_ok.
  split_and!; [done| | |].
  - intros E. rewrite E in Hn. by destruct segs.
  - rewrite Hc. by apply zeros_names.
  - apply Forall_forall. intros [k' w] Hin.
    assert (smap_get k' (smap_put k (λ _, vals') segs) = Some w) as Hw by (apply elem_smap_get; [by apply sset_ok_NoDup|done]).
    rewrite smap_get_put in Hw by done. destruct (String.eqb k' k); [by injection Hw as <-|].
    apply smap_get_elem in Hw. rewrite Forall_forall in Hall. by apply (Hall (k', w)).
Qed.

Lemma merge_segments_ok updated : ∀ segs counter, seg_map_ok segs counter →
  seg_map_ok (merge_segments updated segs) counter ∧
  (∀ k, smap_get k (merge_segments updated segs) = None ↔ smap_get k segs = None) ∧
  ∀ k vals, smap_get k segs = Some vals →
    ∃ more, smap_get k (merge_segments updated segs) = Some (vals ++ more) ∧
    ∀ v, v ∈ vals ++ more ↔ v ∈ vals ∨ ∃ new, (k, new) ∈ updated ∧ v ∈ new.
Proof.
  unfold merge_segments. induction updated as [|[k0 new] updated IH]; intros segs counter Hok; simpl.
  { split_and!; [done|done|]. intros k vals Hg. exists []. rewrite app_nil_r. split; [done|]. intros v.
    split; [by left|]. intros [Hv|(new & Hin & _)]; [done|by apply not_elem_of_nil in Hin]. }
  destruct (smap_get k0 segs) as [vals0|] eqn:E0.
  - destruct (merge_values_ok new vals0) as (more0 & Em & Hnd0 & Hel0).
    destruct (seg_map_ok_get _ _ _ _ Hok E0) as [Hu Hnd].
    assert (smap_ok segs) as Hsok by apply Hok.
    destruct (IH (smap_put k0 (λ _, merge_values new vals0) segs) counter) as (Hok' & Hdom & Hvals).
    { apply (seg_map_ok_put segs counter k0 vals0); [done|done| |].
      - rewrite Em. apply elem_of_app. by left.
      - rewrite Em. by apply Hnd0. }
    split_and!; [done| |].
    + intros k. rewrite Hdom, smap_get_put by done. destruct (String.eqb_spec k k0) as [->|]; [|done]. by rewrite E0.
    + intros k vals Hg. destruct (decide (k = k0)) as [->|Hne].
      * rewrite E0 in Hg. injection Hg as ->.
        destruct (Hvals k0 (merge_values new vals)) as (more & Hg' & Hel).
        { by rewrite smap_get_put, String.eqb_refl by done. }
        rewrite Em, <- app_assoc in Hel. exists (more0 ++ more).
        split; [by rewrite Hg', Em, <- app_assoc|].
        intros v. rewrite Hel. setoid_rewrite elem_of_cons. rewrite Hel0. split.
        -- intros [[Hv|Hv]|(n & Hn & Hv)]; [by left|right; exists new; auto|right; exists n; auto].
        -- intros [Hv|(n & [E|Hn] & Hv)]; [by left; left|injection E as ->; by left; right|by right; exists n].
      * destruct (Hvals k vals) as (more & Hg' & Hel).
        { rewrite smap_get_put by done. by rewrite (proj2 (String.eqb_neq k k0) Hne). }
        exists more. split; [done|]. intros v. rewrite Hel. setoid_rewrite elem_of_cons. naive_solver.
  - destruct (IH segs counter Hok) as (Hok' & Hdom & Hvals). split_and!; [done|done|].
    intros k vals Hg. destruct (Hvals k vals Hg) as (more & Hg' & Hel). exists more. split; [done|].
    intros v. rewrite Hel. setoid_rewrite elem_of_cons. naive_solver.
Qed.


(** ** The table of click rates *)

Lemma ctr_at_set key segid c h : 0 ≤ segid → ctr_at (set_ctr key segid c h) key segid = Some c.
Proof.
  intros Hs. unfold ctr_at, set_ctr. rewrite lookup_insert_eq. cbn [mbind option_bind].
  apply list_lookup_insert_eq. destruct (_ <=? _)%nat eqn:E; bool_cases; [|done].
  rewrite length_app, length_replicate. lia.
Qed.

Lemma ctr_at_set_keep key segid c h key' segid' v :
  0 ≤ segid → 0 ≤ segid' → ctr_at h key' segid' = Some v → (key', segid') ≠ (key, segid) →
  ctr_at (set_ctr key segid c h) key' segid' = Some v.
Proof.
  intros Hs Hs' Hv Hne. unfold ctr_at, set_ctr in *. destruct (decide (key' = key)) as [->|Hk].
  - rewrite lookup_insert_eq. cbn [mbind option_bind].
    rewrite list_lookup_insert_ne by (intros E; apply Hne; f_equal; lia).
    destruct (h !! key) as [l|]; [simpl in *|done].
    destruct (_ <=? _)%nat; [|done]. by apply lookup_app_l_Some.
  - by rewrite lookup_insert_ne.
Qed.

(** The id under which the rate of an ad key is kept. *)
Definition ad_key_id (mgr : M) (akey : string) : option Z :=
  if decide (akey = EmptyString) then Some 0 else seg_id_find mgr akey.

Lemma ad_key_id_inj mgr a a' id : ad_key_id mgr a = Some id → ad_key_id mgr a' = Some id → a = a'.
Proof.
  unfold ad_key_id. case_decide as Ha; case_decide as Ha'; intros E E'.
  - congruence.
  - injection E as <-. apply seg_id_pos in E'. lia.
  - injection E' as <-. apply seg_id_pos in E. lia.
  - by eapply seg_id_inj.
Qed.

Lemma ad_key_id_pos mgr a id : ad_key_id mgr a = Some id → 0 ≤ id.
Proof. unfold ad_key_id. case_decide; [intros [= <-]; lia|]. intros E. apply seg_id_pos in E. lia. Qed.

Lemma ad_key_id_extend mgr mgr' a id : ids_extend mgr mgr' → ad_key_id mgr a = Some id → ad_key_id mgr' a = Some id.
Proof. unfold ad_key_id. case_decide; [done|]. intros Hext. apply Hext. Qed.

(** How many of the names have no id yet. *)
Definition missing (mgr : M) (names : list string) : nat :=
  length (filter (λ s, seg_id_find mgr s = None) names).

Lemma missing_le mgr mgr' names : ids_extend mgr mgr' → (missing mgr' names ≤ missing mgr names)%nat.
Proof.
  intros Hext. unfold missing. induction names as [|x names IH]; [done|]. rewrite !filter_cons.
  case_decide as Hx'; case_decide as Hx; simpl; try lia.
  destruct (seg_id_find mgr x) as [i|] eqn:E; [|done]. apply Hext in E. congruence.
Qed.

Lemma missing_lt mgr mgr' names s id :
  ids_extend mgr mgr' → s ∈ names → seg_id_find mgr s = None → seg_id_find mgr' s = Some id →
  (S (missing mgr' names) ≤ missing mgr names)%nat.
Proof.
  intros Hext Hin Hn Hs. unfold missing. induction names as [|x names IH]; [by apply not_elem_of_nil in Hin|].
  rewrite !filter_cons. apply elem_of_cons in Hin as [->|Hin].
  - rewrite decide_False by congruence. rewrite decide_True by done. simpl.
    pose proof (missing_le mgr mgr' names Hext). unfold missing in *. lia.
  - specialize (IH Hin). case_decide as Hx'; case_decide as Hx; simpl; try lia.
    destruct (seg_id_find mgr x) as [i|] eqn:E; [|done]. apply Hext in E. congruence.
Qed.

Definition room (mgr : M) (names : list string) : Prop :=
  Z.of_nat (seg_count mgr + missing mgr names) ≤ 65535.

Lemma ctr_step_ok st key udata akey adata names :
  room (ad_segid_mgr_ st) names → (akey ≠ EmptyString → akey ∈ names) →
  ∃ mgr segid, ctr_step st ((key, udata), (akey, adata)) =
    with_history (set_ctr key segid (predict udata adata) (history_ctr_data_ st))
      (with_segids (ad_segid_data_ st) mgr (ad_segid_str_data_ st) st) ∧
  ids_extend (ad_segid_mgr_ st) mgr ∧ room mgr names ∧ ad_key_id mgr akey = Some segid.
Proof.
  intros Hroom Hin. unfold ctr_step, ad_key_id. case_decide as Ha.
  { exists (ad_segid_mgr_ st), 0. split_and!; [done|by intros x i|done|done]. }
  specialize (Hin Ha). unfold room in Hroom.
  destruct (seg_id_find (ad_segid_mgr_ st) akey) as [id|] eqn:E.
  - destruct (seg_id_insert_known _ _ _ E) as (m' & -> & Hc & Hf). exists m', id.
    assert (ids_extend (ad_segid_mgr_ st) m') as Hext by (intros x i; by rewrite Hf).
    split_and!; [done|done| |by rewrite Hf].
    unfold room. rewrite Hc. pose proof (missing_le _ _ names Hext). lia.
  - assert (0 < missing (ad_segid_mgr_ st) names)%nat.
    { unfold missing. assert (akey ∈ filter (λ s, seg_id_find (ad_segid_mgr_ st) s = None) names) as Hx
        by by apply list_elem_of_filter.
      destruct (filter _ _); [by apply not_elem_of_nil in Hx|simpl; lia]. }
    destruct (seg_id_insert_ok (ad_segid_mgr_ st) akey) as (m' & id & -> & Hf & Hext & Hc & _); [lia|].
    exists m', id. split_and!; [done|done| |done].
    unfold room. pose proof (missing_lt _ _ names akey id Hext Hin E Hf). lia.
Qed.

(** The rate of the pair is in the table under the id of the ad key. *)
Definition rated (mgr : M) (h : gmap string (list double)) (p : (string * FeatureT) * (string * FeatureT)) : Prop :=
  ∃ id, ad_key_id mgr p.2.1 = Some id ∧ ctr_at h p.1.1 id = Some (predict p.1.2 p.2.2).

Lemma ctr_fold_ok names pairs : ∀ done st,
  room (ad_segid_mgr_ st) names →
  (∀ p, p ∈ pairs → p.2.1 ≠ EmptyString → p.2.1 ∈ names) →
  (∀ p p', p ∈ done ++ pairs → p' ∈ done ++ pairs → p.1.1 = p'.1.1 → p.2.1 = p'.2.1 → p = p') →
  Forall (rated (ad_segid_mgr_ st) (history_ctr_data_ st)) done →
  ∃ mgr h, fold_left ctr_step pairs st =
    with_history h (with_segids (ad_segid_data_ st) mgr (ad_segid_str_data_ st) st) ∧
  ids_extend (ad_segid_mgr_ st) mgr ∧ Forall (rated mgr h) (done ++ pairs).
Proof.
  induction pairs as [|[[key udata] [akey adata]] pairs IH]; intros dn st Hroom Hin Hfun Hdone.
  { exists (ad_segid_mgr_ st), (history_ctr_data_ st). rewrite app_nil_r.
    split_and!; [by destruct st|by intros x i|done]. }
  destruct (ctr_step_ok st key udata akey adata names Hroom) as (mgr & segid & E & Hext & Hroom' & Hid).
  { apply (Hin ((key, udata), (akey, adata))). left. }
  cbn [fold_left]. rewrite E.
  set (st1 := with_history _ _).
  destruct (IH (dn ++ [((key, udata), (akey, adata))]) st1) as (mgr' & h & E' & Hext' & Hall).
  - done.
  - intros p Hp. apply Hin. by right.
  - by rewrite <- app_assoc.
  - apply Forall_app. split.
    + apply Forall_forall. intros p Hp. rewrite Forall_forall in Hdone.
      destruct (Hdone p Hp) as (id & Hpid & Hctr). exists id. simpl.
      pose proof (ad_key_id_extend _ _ _ _ Hext Hpid) as Hpid'.
      split; [done|]. destruct (decide ((p.1.1, id) = (key, segid))) as [Heq|Hne].
      * injection Heq as Hk ->. pose proof (ad_key_id_inj _ _ _ _ Hpid' Hid) as Ha.
        assert (p = ((key, udata), (akey, adata))) as ->.
        { apply Hfun; [by apply elem_of_app; left|apply elem_of_app; right; left|done|done]. }
        apply ctr_at_set. exact (ad_key_id_pos _ _ _ Hid).
      * apply ctr_at_set_keep; [exact (ad_key_id_pos _ _ _ Hid)|exact (ad_key_id_pos _ _ _ Hpid)|done|done].
    + apply Forall_singleton. exists segid. split; [done|]. apply ctr_at_set. exact (ad_key_id_pos _ _ _ Hid).
  - exists mgr', h. rewrite <- app_assoc in Hall. split_and!; [exact E'| |done].
    intros x i Hx. by apply Hext', Hext.
Qed.


(** ** Looking up a rate *)

Definition rates_num (h : gmap string (list double)) : Prop := ∀ key id c, ctr_at h key id = Some c → d_num c.

Lemma d_stdmax_ok a b : d_num a → d_num b →
  d_num (d_stdmax a b) ∧ d_lt (d_stdmax a b) a = false ∧ d_lt (d_stdmax a b) b = false ∧
  (d_stdmax a b = a ∨ d_stdmax a b = b).
Proof.
  intros Ha Hb. unfold d_stdmax. destruct (d_lt a b) eqn:E.
  - split_and!; [done|by apply (swo_asym (P := d_num))|by apply (swo_irrefl (P := d_num))|by right].
  - split_and!; [done|by apply (swo_irrefl (P := d_num))|done|by left].
Qed.

Lemma history_fold_ok h (Hnum : rates_num h) l : ∀ found best, d_num best →
  let r := fold_left (λ acc ki, match ctr_at h ki.1 ki.2 with
                                | None => acc | Some ctr => (true, d_stdmax ctr acc.2) end) l (found, best) in
  (r.1 = true ↔ found = true ∨ ∃ key id c, (key, id) ∈ l ∧ ctr_at h key id = Some c) ∧
  d_num r.2 ∧ d_lt r.2 best = false ∧
  (∀ key id c, (key, id) ∈ l → ctr_at h key id = Some c → d_lt r.2 c = false) ∧
  (r.2 = best ∨ ∃ key id, (key, id) ∈ l ∧ ctr_at h key id = Some r.2).
Proof.
  induction l as [|[key id] l IH]; intros found best Hb; cbv zeta; simpl.
  { split_and!; [|done|by apply (swo_irrefl (P := d_num))|by intros ? ? ? ?%not_elem_of_nil|by left].
    split; [by left|]. intros [Hf|(k & i & c & Hin & _)]; [done|by apply not_elem_of_nil in Hin]. }
  destruct (ctr_at h key id) as [c|] eqn:E.
  - destruct (d_stdmax_ok c best (Hnum _ _ _ E) Hb) as (Hm & Hmc & Hmb & Hor).
    destruct (IH true (d_stdmax c best) Hm) as (I1 & I2 & I3 & I4 & I5). split_and!; [|done| | |].
    + rewrite I1. split; [intros _; right; exists key, id, c; split; [left|done]|by left].
    + exact (swo_ntrans (P := d_num) _ _ _ I2 Hm Hb I3 Hmb).
    + intros k i c' [[= -> ->]|Hin]%elem_of_cons Hc'; [|by eapply I4].
      rewrite E in Hc'. injection Hc' as <-. exact (swo_ntrans (P := d_num) _ _ _ I2 Hm (Hnum _ _ _ E) I3 Hmc).
    + destruct I5 as [->|(k & i & Hin & Hc')]; [|right; exists k, i; split; [by right|done]].
      destruct Hor as [->| ->]; [right; exists key, id; split; [left|done]|by left].
  - destruct (IH found best Hb) as (I1 & I2 & I3 & I4 & I5). split_and!; [|done|done| |].
    + rewrite I1. split; intros [Hf|(k & i & c & Hin & Hc)]; [by left| |by left|].
      * right. exists k, i, c. split; [by right|done].
      * apply elem_of_cons in Hin as [[= -> ->]|Hin]; [congruence|]. right. by exists k, i, c.
    + intros k i c' [[= -> ->]|Hin]%elem_of_cons Hc'; [congruence|by eapply I4].
    + destruct I5 as [->|(k & i & Hin & Hc')]; [by left|right; exists k, i; split; [by right|done]].
Qed.

Lemma elem_of_pairs {A B} (l : list A) (k : list B) a b : (a, b) ∈ (x ← l; map (pair x) k) ↔ a ∈ l ∧ b ∈ k.
Proof.
  rewrite list_elem_of_bind. split.
  - intros (x & Hin & Hx). apply list_elem_of_fmap in Hin as (y & [= -> ->] & Hy). done.
  - intros [Ha Hb]. exists a. split; [|done]. by apply list_elem_of_fmap_2.
Qed.

(** [getHistoryCTR] finds a rate exactly when one is kept for one of the
    user's strings and one of the ad's ids (or the ad has no ids), and returns
    the greatest of them, or zero when all are negative. *)
Theorem getHistoryCTR_max h keys ids :
  rates_num h →
  let r := getHistoryCTR h keys ids in
  (r.1 = true ↔ ids = [] ∨ ∃ key id c, key ∈ keys ∧ id ∈ ids ∧ ctr_at h key id = Some c) ∧
  d_num r.2 ∧ d_lt r.2 d_zero = false ∧
  (∀ key id c, key ∈ keys → id ∈ ids → ctr_at h key id = Some c → d_lt r.2 c = false) ∧
  (r.2 = d_zero ∨ ∃ key id, key ∈ keys ∧ id ∈ ids ∧ ctr_at h key id = Some r.2).
Proof.
  intros Hnum. unfold getHistoryCTR. destruct ids as [|i ids].
  { cbv zeta. simpl. split_and!; [split; [by left|done]|done|done| |by left].
    intros ? ? ? ? Hin. by apply not_elem_of_nil in Hin. }
  destruct (history_fold_ok h Hnum (key ← keys; map (pair key) (i :: ids)) false d_zero) as (I1 & I2 & I3 & I4 & I5); [done|].
  split_and!; [|done|done| |].
  - rewrite I1. split.
    + intros [?|(key & id & c & Hin & Hc)]; [done|]. apply elem_of_pairs in Hin as [Hk Hid]. right. by exists key, id, c.
    + intros [?|(key & id & c & Hk & Hid & Hc)]; [done|]. right. exists key, id, c. split; [by apply elem_of_pairs|done].
  - intros key id c Hk Hid. apply I4. by apply elem_of_pairs.
  - destruct I5 as [->|(key & id & Hin & Hc)]; [by left|]. right. apply elem_of_pairs in Hin as [Hk Hid].
    by exists key, id.
Qed.

(** ** All known users and ads have a rate *)

Lemma smap_length {V W} (keys : smap V) (texts : list W) (f : W → string) :
  smap_ok keys → (∀ k, is_Some (smap_get k keys) → k ∈ map f texts) → (length keys ≤ length texts)%nat.
Proof.
  intros Hok Hsub. rewrite <- (length_map fst keys), <- (length_map f texts).
  apply NoDup_incl_length; [apply NoDup_ListNoDup; by apply sset_ok_NoDup|].
  intros k Hk. apply list_elem_of_In. apply Hsub. apply list_elem_of_In, list_elem_of_fmap in Hk as ([k' v] & -> & Hk).
  exists v. apply elem_smap_get; [by apply sset_ok_NoDup|done].
Qed.

Lemma smap_elem_fun {V} (m : smap V) x y : smap_ok m → x ∈ m → y ∈ m → x.1 = y.1 → x = y.
Proof.
  intros Hok Hx Hy E. destruct x as [k v], y as [k' w]. simpl in E. subst k'.
  apply sset_ok_NoDup in Hok. apply elem_smap_get in Hx, Hy; [|done|done]. congruence.
Qed.

Lemma seg_map_keys segs counter fuel :
  seg_map_ok segs counter → (length (choices segs) ≤ fuel)%nat →
  ∃ keys, getAllPossibleSegStr fuel segs counter = Some keys ∧ smap_ok keys ∧
  (length keys ≤ length (choices segs))%nat ∧
  ∀ fm, smap_ok fm → known_features segs fm →
    Forall (λ s, ∃ c, smap_get s keys = Some c ∧ s = seg_text c) (expandSegmentStr [EmptyString] fm).
Proof.
  intros (Hok & Hne & -> & Hall) Hfuel.
  destruct (all_keys_ok segs fuel Hne Hok) as (keys & E & Hkok & Hdom & _); [|done|].
  { eapply Forall_impl; [exact Hall|]. by intros [k [|v vs]] [Hu _]; [apply not_elem_of_nil in Hu|]. }
  exists keys. split_and!; [done|done| |].
  - apply (smap_length keys _ (λ c, seg_text (known c)) Hkok). intros k Hk. by apply Hdom.
  - intros fm Hfm Hknown. apply (known_strings_keys segs fuel); try done.
    eapply Forall_impl; [exact Hall|]. by intros kv [Hu _].
Qed.

Definition merged (st : AdSelector) (ty : SegType) : FeatureMapT :=
  merge_segments (updated_segments_ st ty) (all_segments_ st ty).

(** C6: One run of [computeHistoryCTR] within the limit takes over the new
    segment values and gives every user and ad of known values a rate: for
    each string of the user and each string of the ad, the prediction for
    features with these texts is kept under the user's string and the ad's id,
    where [getHistoryCTR] looks. *)
Theorem computeHistoryCTR_rates st fuel :
  segments_ok st →
  (∀ ty, (length (choices (merged st ty)) ≤ fuel)%nat) →
  Z.of_nat (length (choices (merged st UserSeg)) * length (choices (merged st AdSeg))) ≤ MAX_HISTORY_CTR_NUM / 2 →
  Z.of_nat (seg_count (ad_segid_mgr_ st) + length (choices (merged st AdSeg))) ≤ 65535 →
  ∃ st', computeHistoryCTR fuel st = Some st' ∧ segments_ok st' ∧
  (∀ ty, all_segments_ st' ty = merged st ty ∧ updated_segments_ st' ty = []) ∧
  ∀ info ad_feature, smap_ok ad_feature →
    known_features (merged st UserSeg) (group_features info) →
    known_features (merged st AdSeg) ad_feature →
    ∀ s t, s ∈ getUserSegmentStr [] info → t ∈ expandSegmentStr [EmptyString] ad_feature →
    ∃ id udata adata, ad_key_id (ad_segid_mgr_ st') t = Some id ∧ s = seg_text udata ∧ t = seg_text adata ∧
      ctr_at (history_ctr_data_ st') s id = Some (predict udata adata).
Proof.
  intros Hok Hfuel Hsize Hroom.
  assert (∀ ty, seg_map_ok (merged st ty) (init_counter_ st ty)) as Hmok.
  { intros ty. apply (merge_segments_ok (updated_segments_ st ty) _ _ (Hok ty)). }
  destruct (seg_map_keys _ _ fuel (Hmok UserSeg) (Hfuel UserSeg)) as (users & Eu & Hu & Hul & Huk).
  destruct (seg_map_keys _ _ fuel (Hmok AdSeg) (Hfuel AdSeg)) as (ads & Ea & Ha & Hal & Hak).
  unfold computeHistoryCTR, merge_updates. simpl. fold (merged st UserSeg) (merged st AdSeg).
  rewrite Eu, Ea. cbn [mbind option_bind].
  assert (length users * length ads ≤ length (choices (merged st UserSeg)) * length (choices (merged st AdSeg)))%nat
    by by apply Nat.mul_le_mono.
  assert (MAX_HISTORY_CTR_NUM / 2 = 8388608) as HM by reflexivity.
  assert (u64 (Z.of_nat (length users * length ads)) = Z.of_nat (length users * length ads)) as ->
    by (apply Z.mod_small; lia).
  rewrite (proj2 (Z.ltb_ge _ _)) by lia. set (st1 := with_segments _ _ st).
  destruct (ctr_fold_ok (map fst ads) (u ← users; map (pair u) ads) [] st1) as (mgr & h & E & _ & Hall).
  - unfold room, st1. simpl.
    assert (missing (ad_segid_mgr_ st) (map fst ads) ≤ length ads)%nat; [|lia].
    unfold missing. etrans; [apply length_filter|]. by rewrite length_map.
  - intros [u a] Hp _. apply elem_of_pairs in Hp as [_ Hp]. by apply list_elem_of_fmap_2.
  - intros [u a] [u' a'] Hp Hp' Eu' Ea'. apply elem_of_pairs in Hp as [Hp1 Hp2], Hp' as [Hp1' Hp2'].
    f_equal; [by apply (smap_elem_fun users)|by apply (smap_elem_fun ads)].
  - constructor.
  - eexists. split; [reflexivity|]. rewrite E. simpl. split_and!.
    + intros ty. apply Hmok.
    + done.
    + intros info fm Hfm Hku Hka s t Hs Ht.
      specialize (Huk (group_features info) (group_features_ok info) Hku). specialize (Hak fm Hfm Hka).
      rewrite Forall_forall in Huk, Hak. rewrite Forall_forall in Hall.
      destruct (Huk s Hs) as (udata & Hgu & Eus). destruct (Hak t Ht) as (adata & Hga & Eat).
      apply smap_get_elem in Hgu, Hga.
      destruct (Hall ((s, udata), (t, adata))) as (id & Hid & Hctr); [by apply elem_of_pairs|].
      by exists id, udata, adata.
Qed.

End selector.
