(* ===== verification/SelectorSelect.v ===== *)
(** * What [AdSelector::select] returns ([ad-manager/AdSelector.cpp])

    The proofs about [Selector.select], against the interface of the bounded
    queue: which ads each queue is offered and keeps, which come back, in what
    order and with what scores, and which wait for a rate. *)
From S2P Require Import Prelude CNum PriorityQueue QueueSpec HitQueue Env Phrases Segments.
From S2P Require Import PropIdTable PropValueTable Selector.

(** ** Lists *)

Lemma drop_insert_eq {A} n (x : A) l : (n < length l)%nat → drop n (<[n := x]> l) = x :: drop (S n) l.
Proof.
  revert l. induction n as [|n IH]; intros [|y l] Hn; simpl in *; [lia|done|lia|]. apply IH. lia.
Qed.

Lemma take_insert_snoc {A} n (x : A) l : (n < length l)%nat → take (S n) (<[n := x]> l) = take n l ++ [x].
Proof.
  revert l. induction n as [|n IH]; intros [|y l] Hn; simpl in *; [lia|by rewrite take_0|lia|].
  f_equal. apply IH. lia.
Qed.

Lemma write_unscored_ok unclicked : ∀ i low docs scores,
  (i + length unclicked ≤ length docs)%nat → (i + length unclicked ≤ length scores)%nat →
  ∃ docs' scores', write_unscored i unclicked low docs scores = Some (docs', scores') ∧
  length docs' = length docs ∧ length scores' = length scores ∧
  take (i + length unclicked) docs' = take i docs ++ unclicked ∧
  take (i + length unclicked) scores' = take i scores ++ replicate (length unclicked) low.
Proof.
  induction unclicked as [|d unclicked IH]; intros i low docs scores Hd Hs; simpl in *.
  { exists docs, scores. by rewrite !Nat.add_0_r, !app_nil_r. }
  destruct (lookup_lt_is_Some_2 docs i) as [x Hx]; [lia|]. destruct (lookup_lt_is_Some_2 scores i) as [y Hy]; [lia|].
  rewrite Hx, Hy. cbn [mbind option_bind].
  destruct (IH (S i) low (<[i := d]> docs) (<[i := low]> scores)) as (docs' & scores' & E & Hd1 & Hs1 & Hd2 & Hs2);
    [rewrite length_insert; lia..|].
  rewrite length_insert in Hd1. rewrite length_insert in Hs1. exists docs', scores'.
  rewrite Nat.add_succ_r. simpl in Hd2, Hs2.
  split_and!; [done|done|done| |].
  - rewrite Hd2. change (S i) with (S i)%nat. rewrite take_insert_snoc by lia. by rewrite <- app_assoc.
  - rewrite Hs2. rewrite take_insert_snoc by lia. by rewrite <- app_assoc.
Qed.

Lemma take_resize {A} n (d : A) l k : (k ≤ n)%nat → (k ≤ length l)%nat → take k (resize_list n d l) = take k l.
Proof.
  intros Hn Hl. unfold resize_list. rewrite take_app_le by (rewrite length_take; lia).
  rewrite take_take. by rewrite Nat.min_l.
Qed.

Lemma resize_exact {A} n (d : A) l : (n ≤ length l)%nat → resize_list n d l = take n l.
Proof.
  intros Hn. unfold resize_list. replace (n - length l)%nat with 0%nat by lia. apply app_nil_r.
Qed.

Lemma length_resize {A} n (d : A) l : length (resize_list n d l) = n.
Proof. unfold resize_list. rewrite length_app, length_take, length_replicate. lia. Qed.

Section select.
Context {U : Type} `{Countable U} (convertString : U → string).
Context {M T R : Type} `{SegIds M, SegStore T}.
Context (predict : FeatureT → FeatureT → double).
Context {Q : Type} `{Ops : PQOps ScoreDoc Q}.
Context (P : ScoreDoc → Prop) (lt : ScoreDoc → ScoreDoc → bool).
Context `{!StrictWeakOn P lt, !BoundedPQ P lt Ops}.

#[local] Notation AdSelector := (AdSelector (U := U) (M := M) (T := T) (R := R)).

(** ** The documents scanned *)

Context (st : AdSelector) (user_info : FeatureT) (many random_select : bool).
Let user_seg_str := getUserSegmentStr [] user_info.

(** Whether an ad has a rate for the user, and the rate. *)
Definition has_rate (d : nat) : bool :=
  (getHistoryCTR (history_ctr_data_ st) user_seg_str (default [] (ad_segid_data_ st !! d))).1.

Definition history_score (d : nat) : double :=
  (getHistoryCTR (history_ctr_data_ st) user_seg_str (default [] (ad_segid_data_ st !! d))).2.

(** A clicked ad without a rate, when there are many ads. *)
Definition waits (d : nat) : Prop := d ∈ clicked_ads_ st ∧ many = true ∧ has_rate d = false.

(** An ad that gets no score. *)
Definition unscored (d : nat) : Prop :=
  waits d ∨ d ∉ clicked_ads_ st ∧ (random_select = true ∨ has_rate d = false).

#[export] Instance waits_dec d : Decision (waits d).
Proof. unfold waits. apply _. Defined.

#[export] Instance unscored_dec d : Decision (unscored d).
Proof. unfold unscored. apply _. Defined.

(** What the two queues are offered. *)
Definition clicked_items (docs : list nat) : list ScoreDoc :=
  map (λ d, score_doc d (if many then history_score d else d_zero)) (filter (λ d, d ∈ clicked_ads_ st ∧ ¬ unscored d) docs).

Definition scored_items (docs : list nat) : list ScoreDoc :=
  map (λ d, score_doc d (history_score d)) (filter (λ d, d ∉ clicked_ads_ st ∧ ¬ unscored d) docs).

(** Every ad is offered to one queue, or gets no score. *)
Lemma scan_sizes docs :
  (length (clicked_items docs) + length (scored_items docs) + length (filter unscored docs) = length docs)%nat.
Proof.
  clear convertString predict . clear P lt StrictWeakOn0 BoundedPQ0 Ops Q.
  unfold clicked_items, scored_items. rewrite !length_map. induction docs as [|d docs IH]; [done|].
  rewrite !filter_cons. repeat case_decide; simpl; naive_solver lia.
Qed.

(** What the list must satisfy: ids within the bitset and mined, scores the
    queue can order. *)
Definition doc_ok (d : nat) : Prop :=
  Z.of_nat d < MAX_AD_DOCID ∧ (d < length (ad_segid_data_ st))%nat ∧
  P (score_doc d d_zero) ∧ P (score_doc d (history_score d)) ∧ P (score_doc d (predict user_info [])).

Lemma items_P docs : Forall doc_ok docs → Forall P (clicked_items docs) ∧ Forall P (scored_items docs).
Proof.
  intros Hdocs. rewrite Forall_forall in Hdocs.
  split; apply Forall_forall; intros x (d & -> & [_ Hd]%list_elem_of_filter)%list_elem_of_fmap;
    destruct (Hdocs d Hd) as (_ & _ & ? & ? & _); [by destruct many|done].
Qed.

Lemma scan_doc_run sc d : doc_ok d →
  scan_doc st user_seg_str many random_select sc d =
    if decide (unscored d) then
      Some (Scan (tmp_clicked sc) (tmp_unclicked sc) (unclicked_docs sc ++ [d])
        (pending_docs sc ++ if decide (waits d) then [d] else []))
    else if decide (d ∈ clicked_ads_ st) then
      '(_, q) ← q_insert (score_doc d (if many then history_score d else d_zero)) (tmp_clicked sc);
      Some (Scan q (tmp_unclicked sc) (unclicked_docs sc) (pending_docs sc))
    else
      '(_, q) ← q_insert (score_doc d (history_score d)) (tmp_unclicked sc);
      Some (Scan (tmp_clicked sc) q (unclicked_docs sc) (pending_docs sc)).
Proof.
  intros (Hmax & Hlen & _). unfold scan_doc. rewrite (proj2 (Z.leb_gt _ _)) by lia.
  destruct (lookup_lt_is_Some_2 _ _ Hlen) as [ids Hids]. rewrite Hids. cbn [mbind option_bind].
  destruct (getHistoryCTR _ _ ids) as [found score] eqn:Eh.
  assert (has_rate d = found) as Hf by (unfold has_rate; rewrite Hids; simpl; by rewrite Eh).
  assert (history_score d = score) as Hsc by (unfold history_score; rewrite Hids; simpl; by rewrite Eh).
  rewrite Hsc. destruct (decide (unscored d)) as [Hu|Hu], (decide (waits d)) as [Hw|Hw];
    unfold unscored in Hu; unfold waits in Hw, Hu; rewrite Hf in *;
    destruct (decide (d ∈ clicked_ads_ st)) as [Hc|Hc]; rewrite ?app_nil_r;
    destruct many, random_select, found; first [done|naive_solver].
Qed.

(** The whole list. *)
Lemma scan_run docs : ∀ sc qc qu, Forall doc_ok docs →
  q_insert_all (clicked_items docs) (tmp_clicked sc) = Some qc →
  q_insert_all (scored_items docs) (tmp_unclicked sc) = Some qu →
  foldM (scan_doc st user_seg_str many random_select) sc docs =
    Some (Scan qc qu (unclicked_docs sc ++ filter unscored docs) (pending_docs sc ++ filter waits docs)).
Proof.
  unfold q_insert_all. induction docs as [|d docs IH]; intros sc qc qu Hdocs Hc Hu.
  { simpl in *. simplify_eq. rewrite !app_nil_r. by destruct sc. }
  inversion_clear Hdocs as [|?? Hd Hds]. cbn [foldM]. rewrite scan_doc_run by done.
  unfold clicked_items, scored_items in Hc, Hu. rewrite filter_cons in Hc, Hu. rewrite !filter_cons.
  destruct (decide (unscored d)) as [Hs|Hs].
  - rewrite decide_False in Hc by tauto. rewrite decide_False in Hu by tauto. cbn [mbind option_bind].
    etrans; [apply IH; [done|exact Hc|exact Hu]|]. cbn [unclicked_docs pending_docs]. rewrite <- !app_assoc. by destruct (decide (waits d)).
  - assert (¬ waits d) as Hw by (intros ?; apply Hs; by left). rewrite (decide_False (P := waits d)) by done.
    destruct (decide (d ∈ clicked_ads_ st)) as [Hcl|Hcl].
    + rewrite decide_True in Hc by done. rewrite decide_False in Hu by tauto. cbn [map foldM] in Hc.
      destruct (q_insert _ _) as [[b q]|]; [|done]. cbn [mbind option_bind] in *. by apply (IH (Scan q (tmp_unclicked sc) (unclicked_docs sc) (pending_docs sc))).
    + rewrite decide_False in Hc by tauto. rewrite decide_True in Hu by done. cbn [map foldM] in Hu.
      destruct (q_insert _ _) as [[b q]|]; [|done]. cbn [mbind option_bind] in *. by apply (IH (Scan (tmp_clicked sc) q (unclicked_docs sc) (pending_docs sc))).
Qed.

(** ** The final ranking *)

(** [select] never sees the features of an ad: its list of tables is empty. *)
Lemma features_of_select fuel (s : AdSelector) d : features_of convertString fuel (select_pvts s) d = Some [].
Proof.
  unfold features_of, select_pvts. induction (default_full_features_ s AdSeg) as [|kv l IH]; [done|].
  simpl in *. destruct (mapM _ (map _ l)) as [x|]; [simpl in *|done]. injection IH as IH. by rewrite IH.
Qed.

(** A clicked ad with the score of the predictor. *)
Definition predicted (x : ScoreDoc) : ScoreDoc := score_doc (sd_docId x) (predict user_info []).

Lemma rank_clicked_run fuel (s : AdSelector) n : ∀ clicked total out,
  q_drain n clicked = Some out →
  rank_clicked convertString predict fuel user_info (select_pvts s) n clicked total = q_insert_all (map predicted out) total.
Proof.
  induction n as [|n IH]; intros clicked total out E; cbn [q_drain rank_clicked] in *; [by simplify_eq|].
  destruct (q_pop clicked) as [[x q]|]; [|done]. cbn [mbind option_bind] in *. rewrite features_of_select.
  destruct (q_drain n q) as [out'|] eqn:Ed; [|done]. simplify_eq/=. unfold q_insert_all. cbn [map foldM].
  unfold predicted at 1. destruct (q_insert _ total) as [[b t]|]; [|done]. cbn [mbind option_bind]. by apply (IH q).
Qed.

Lemma move_scored_run n : ∀ from total out,
  q_drain n from = Some out → move_scored n from total = q_insert_all out total.
Proof.
  induction n as [|n IH]; intros from total out E; cbn [q_drain move_scored] in *; [by simplify_eq|].
  destruct (q_pop from) as [[x q]|]; [|done]. cbn [mbind option_bind] in *.
  destruct (q_drain n q) as [out'|] eqn:Ed; [|done]. simplify_eq/=. unfold q_insert_all. cbn [foldM].
  destruct (q_insert _ total) as [[b t]|]; [|done]. cbn [mbind option_bind]. by apply (IH q).
Qed.
End select.

(** ** The ads picked at random *)

Section picks.
Context {U : Type} `{Countable U} {M T R : Type} (random_gen_ : nat → Z).

#[local] Notation AdSelector := (AdSelector (U := U) (M := M) (T := T) (R := R)).

(** The [n] numbers drawn from position [k] on, as [int]s. *)
Definition drawn (k n : nat) : list Z := map (λ j, i32 (random_gen_ (k + j)%nat)) (seq 0 n).

(** The ads at the numbers drawn: each number once, from the least on. *)
Definition picked (draws : list Z) (docs rest : list nat) : Prop :=
  ∃ indexes, StronglySorted Z.lt indexes ∧ (∀ i, i ∈ indexes ↔ i ∈ draws) ∧
  Forall2 (λ i d, docs !! Z.to_nat (u64 i `mod` Z.of_nat (length docs)) = Some d) indexes rest.

Lemma sorted_distinct l : StronglySorted Z.le l → NoDup l → StronglySorted Z.lt l.
Proof.
  induction 1 as [|x l _ IH Hx]; [by constructor|]. intros [Hn Hd]%NoDup_cons. constructor; [by apply IH|].
  rewrite Forall_forall in *. intros y Hy. specialize (Hx y Hy). assert (x ≠ y) by (by intros ->). lia.
Qed.

Lemma draw_indexes_run n : ∀ (s : AdSelector) set,
  (draw_indexes random_gen_ n s set).2 = with_random (random_pos s + n) s ∧
  ∀ i, i ∈ (draw_indexes random_gen_ n s set).1 ↔ i ∈ drawn (random_pos s) n ∨ i ∈ set.
Proof.
  induction n as [|n IH]; intros s set; cbn [draw_indexes next_random].
  { cbn [fst snd]. split; [rewrite Nat.add_0_r; by destruct s|]. intros i. split; [by right|].
    by intros [?%not_elem_of_nil|]. }
  destruct (IH (with_random (S (random_pos s)) s) ({[i32 (random_gen_ (random_pos s))]} ∪ set)) as [-> Hin].
  split; [rewrite Nat.add_succ_r; by destruct s|]. intros i. rewrite Hin, elem_of_union, elem_of_singleton.
  unfold drawn. cbn [seq map]. rewrite elem_of_cons, <- seq_shift, map_map, Nat.add_0_r. cbn [random_pos with_random].
  assert (map (λ j, i32 (random_gen_ (S (random_pos s) + j)%nat)) (seq 0 n) =
    map (λ j, i32 (random_gen_ (random_pos s + S j)%nat)) (seq 0 n)) as ->; [|tauto].
  apply map_ext. intros j. do 2 f_equal. lia.
Qed.

Lemma picked_length draws docs rest : picked draws docs rest → (length rest ≤ length draws)%nat.
Proof.
  intros (ixs & Hs & Hin & H2). rewrite <- (Forall2_length _ _ _ H2). apply NoDup_length_le; [|intros i; apply Hin].
  clear Hin H2. induction Hs as [|x l _ IH Hx]; [constructor|]. apply NoDup_cons. split; [|done].
  intros Hin. rewrite Forall_forall in Hx. specialize (Hx x Hin). lia.
Qed.

Lemma picked_in draws docs rest d : picked draws docs rest → d ∈ rest → d ∈ docs.
Proof.
  intros (ixs & _ & _ & H2) Hd. apply list_elem_of_lookup in Hd as [j Hj].
  destruct (Forall2_lookup_r _ _ _ _ _ H2 Hj) as (i & _ & Hi). by apply list_elem_of_lookup_2 in Hi.
Qed.

Lemma selectByRand_ok n docs (s : AdSelector) : docs ≠ [] →
  ∃ rest, selectByRandSelectPolicy random_gen_ n docs s = Some (rest, with_random (random_pos s + n) s) ∧
  picked (drawn (random_pos s) n) docs rest.
Proof.
  intros Hne. unfold selectByRandSelectPolicy. destruct (draw_indexes_run n s ∅) as [Hst Hin].
  destruct (draw_indexes random_gen_ n s ∅) as [indexes s']. cbn [fst snd] in Hst, Hin. subst s'.
  assert (0 < Z.of_nat (length docs)) as Hpos by (destruct docs; [done|simpl; lia]).
  destruct (mapM_is_Some_2 (λ i, docs !! Z.to_nat (u64 i `mod` Z.of_nat (length docs))) (merge_sort Z.le (elements indexes)))
    as [rest Hrest].
  { apply Forall_forall. intros i _. apply lookup_lt_is_Some_2. pose proof (Z.mod_pos_bound (u64 i) _ Hpos). lia. }
  rewrite Hrest. exists rest. split; [done|]. exists (merge_sort Z.le (elements indexes)). split_and!.
  - apply sorted_distinct; [apply (StronglySorted_merge_sort _)|]. rewrite merge_sort_Permutation. apply NoDup_elements.
  - intros i. rewrite (merge_sort_Permutation Z.le), elem_of_elements, Hin. split; [|by left]. by intros [|?%not_elem_of_empty].
  - by apply mapM_Some.
Qed.

End picks.

(** ** The lists written *)

(** The least of the scores and zero. *)
Definition least_score (scores : list double) (m : double) : Prop :=
  m ∈ d_zero :: scores ∧ ∀ s, s ∈ d_zero :: scores → d_lt s m = false.

Definition lower (m : double) (x : ScoreDoc) : double := if d_lt (sd_score x) m then sd_score x else m.

Lemma lower_least out : ∀ m, d_num m →
  fold_left lower out m ∈ m :: map sd_score out ∧ ∀ s, s ∈ m :: map sd_score out → d_lt s (fold_left lower out m) = false.
Proof.
  assert (∀ a b c, d_num b → d_lt a b = false → d_lt b c = false → d_lt a c = false) as Hntrans.
  { intros a b c Hb H1' H2'. destruct (d_lt a c) eqn:E; [|done].
    rewrite <- E. by apply (swo_ntrans (P := d_num) a b c); [by eapply d_lt_num_l| |by eapply d_lt_num_r|..]. }
  induction out as [|x out IH]; intros m Hm; cbn [fold_left map].
  { split; [left|]. intros s ->%list_elem_of_singleton. by apply (swo_irrefl (P := d_num)). }
  assert (d_num (lower m x) ∧ d_lt m (lower m x) = false ∧ d_lt (sd_score x) (lower m x) = false ∧
    (lower m x = m ∨ lower m x = sd_score x)) as (Hn & Hlm & Hlx & Hor).
  { unfold lower. destruct (d_lt (sd_score x) m) eqn:E.
    - assert (d_num (sd_score x)) by by eapply d_lt_num_l. split_and!; [done| |by apply (swo_irrefl (P := d_num))|by right].
      destruct (d_lt m (sd_score x)) eqn:E2; [|done]. exfalso.
      pose proof (swo_trans (P := d_num) m (sd_score x) m Hm ltac:(done) Hm E2 E) as E3.
      rewrite (swo_irrefl (P := d_num) m Hm) in E3. done.
    - split_and!; [done|by apply (swo_irrefl (P := d_num))|done|by left]. }
  destruct (IH (lower m x) Hn) as [Hin Hle]. split.
  - apply elem_of_cons in Hin as [->|Hin]; [|right; by right]. destruct Hor as [->| ->]; [left|right; left].
  - intros s [->|[->|Hs]%elem_of_cons]%elem_of_cons.
    + apply (Hntrans _ (lower m x)); [done|done|apply Hle; left].
    + apply (Hntrans _ (lower m x)); [done|done|apply Hle; left].
    + apply Hle. by right.
Qed.

Section writes.
Context {Q : Type} `{Ops : PQOps ScoreDoc Q} (P : ScoreDoc → Prop) (lt : ScoreDoc → ScoreDoc → bool).
Context `{!StrictWeakOn P lt, !BoundedPQ P lt Ops}.

(** The scored ads are written in the order opposite to the pops. *)
Lemma write_scored_ok n : ∀ total docs scores m out,
  q_drain n total = Some out → (n ≤ length docs)%nat → (n ≤ length scores)%nat →
  write_scored n total docs scores m =
    Some (map sd_docId (reverse out) ++ drop n docs, map sd_score (reverse out) ++ drop n scores, fold_left lower out m).
Proof.
  induction n as [|n IH]; intros total docs scores m out E Hd Hs; cbn [q_drain write_scored] in *; [by simplify_eq|].
  destruct (q_pop total) as [[x t1]|]; [|done]. cbn [mbind option_bind] in *.
  destruct (q_drain n t1) as [out'|] eqn:Ed; [|done]. simplify_eq/=.
  destruct (lookup_lt_is_Some_2 docs n) as [? ->]; [lia|]. destruct (lookup_lt_is_Some_2 scores n) as [? ->]; [lia|].
  cbn [mbind option_bind]. rewrite (IH _ _ _ _ out') by (rewrite ?length_insert; done || lia).
  rewrite !drop_insert_eq by lia. rewrite reverse_cons, !map_app, <- !app_assoc. done.
Qed.

(** The scored ads best first, then the others one below the least score. *)
Lemma write_result_ok total rest docs scores :
  q_inv total → (length (q_contents total) + length rest ≤ length docs)%nat →
  ∃ ranked m, write_result total rest docs scores =
    Some (map sd_docId ranked ++ rest, map sd_score ranked ++ replicate (length rest) (d_sub m (d_of_Z 1))) ∧
  ranked ≡ₚ q_contents total ∧ sorted_by lt (reverse ranked) ∧ least_score (map sd_score ranked) m.
Proof.
  intros Ht Hlen. unfold write_result. rewrite !q_size_ok by done.
  set (n := length (q_contents total)) in *.
  set (scores1 := resize_list (length docs) d_zero scores).
  assert (length scores1 = length docs) as Hs1 by apply length_resize.
  destruct (q_drain_ok P lt n total Ht eq_refl) as (out & Eo & Hperm & Hsorted).
  rewrite (write_scored_ok n total docs scores1 d_zero out Eo) by lia.
  cbn [mbind option_bind].
  assert (length out = n) as Hlo by by rewrite Hperm.
  set (low := d_sub _ (d_of_Z 1)).
  destruct (write_unscored_ok rest n low (map sd_docId (reverse out) ++ drop n docs)
    (map sd_score (reverse out) ++ drop n scores1)) as (docs2 & scores2 & -> & Hd2 & Hsc2 & Ed2 & Es2);
    [rewrite length_app, length_map, length_reverse, length_drop; lia..|].
  cbn [mbind option_bind].
  rewrite length_app, length_map, length_reverse, length_drop in Hd2.
  rewrite length_app, length_map, length_reverse, length_drop in Hsc2.
  rewrite length_resize, !resize_exact, Ed2, Es2 by lia.
  rewrite !take_app_length' by (rewrite length_map, length_reverse; lia).
  exists (reverse out), (fold_left lower out d_zero). split_and!; [done| |by rewrite reverse_involutive|].
  - by rewrite reverse_Permutation.
  - destruct (lower_least out d_zero eq_refl) as [Hin Hle]. split.
    + rewrite (reverse_Permutation out). done.
    + intros s. rewrite (reverse_Permutation out). apply Hle.
Qed.

End writes.

(** ** [select] *)

Section select_spec.
Context {U : Type} `{Countable U} (convertString : U → string).
Context {M T R : Type} `{SegIds M, SegStore T}.
Context (predict : FeatureT → FeatureT → double) (random_gen_ : nat → Z).
Context {Q : Type} `{Ops : PQOps ScoreDoc Q}.
Context (P : ScoreDoc → Prop) (lt : ScoreDoc → ScoreDoc → bool).
Context `{!StrictWeakOn P lt, !BoundedPQ P lt Ops}.

#[local] Notation AdSelector := (AdSelector (U := U) (M := M) (T := T) (R := R)).

(** The state after [select]: requests for rates may have been queued. *)
Definition after_select (user_info : FeatureT) (pending : list nat) (k : nat) (st : AdSelector) : AdSelector :=
  with_random k
    (match pending with
     | [] => st
     | _ => with_pending (pending_compute_doclist_ st ++ [(user_info, pending)]) true st
     end).

(** The places meant for clicked ads; rates decide among clicked ads when more
    than twice as many ads are given. *)
Definition clicked_places (max_select : nat) : nat := (max_select / 3 + 1)%nat.

Definition many_ads (max_select : nat) (docs : list nat) : bool := (clicked_places max_select * 2 <? length docs)%nat.

(** The turn at random of the e-greedy strategy. *)
Definition random_turn (st : AdSelector) : bool :=
  d_lt (d_of_Z (random_gen_ (random_pos st) `mod` 1000)) (d_mul E_GREEDY_RATIO (d_of_Z 1000)).

(** The free places for ads without a score. *)
Definition free_places (max_select : nat) (scored : list ScoreDoc) : nat :=
  (max_select - clicked_places max_select - length scored)%nat.

Section choice.
Context (st : AdSelector) (user_info : FeatureT) (max_select : nat) (docs : list nat).
Let many := many_ads max_select docs.
Let rnd := random_turn st.
Let nothing := filter (unscored st user_info many rnd) docs.

(** What [select] chooses: among clicked ads the best twice as many as there
    are places, among the others with a rate the best that have a place; of
    both, once the predictor has given the clicked ads their score, the best;
    then ads without a score, all or some at random. *)
Record choice (kept scored ranked : list ScoreDoc) (rest : list nat) : Prop := Choice {
  ch_kept : ∃ dropped, kept ++ dropped ≡ₚ clicked_items st user_info many rnd docs ∧
    top_of lt (clicked_places max_select * 2) kept dropped;
  ch_scored : ∃ dropped, scored ++ dropped ≡ₚ scored_items st user_info many rnd docs ∧
    top_of lt (max_select - clicked_places max_select) scored dropped;
  ch_ranked : ∃ dropped, ranked ++ dropped ≡ₚ map (predicted predict user_info) kept ++ scored ∧
    top_of lt (clicked_places max_select + length scored) ranked dropped;
  ch_order : sorted_by lt (reverse ranked);
  ch_rest : if (free_places max_select scored <? length nothing)%nat
    then picked (drawn random_gen_ (S (random_pos st)) (free_places max_select scored)) nothing rest
    else rest = nothing }.

(** The numbers drawn so far. *)
Definition random_after (scored : list ScoreDoc) : nat :=
  (S (random_pos st) + if (free_places max_select scored <? length nothing)%nat then free_places max_select scored else 0)%nat.

Lemma choice_rest kept scored ranked rest : choice kept scored ranked rest →
  (length rest ≤ free_places max_select scored)%nat ∧ (length rest ≤ length nothing)%nat ∧ ∀ d, d ∈ rest → d ∈ docs.
Proof.
  intros [_ _ _ _ Hr]. destruct (free_places max_select scored <? length nothing)%nat eqn:E; bool_cases.
  - pose proof (picked_length _ _ _ Hr) as Hl. unfold drawn in Hl. rewrite length_map, length_seq in Hl.
    split_and!; [done|lia|]. intros d Hd. apply (picked_in _ _ _ d Hr) in Hd. by apply list_elem_of_filter in Hd as [_ ?].
  - subst rest. split_and!; [lia|done|]. intros d Hd. by apply list_elem_of_filter in Hd as [_ ?].
Qed.

(** All but the dropped ones. *)
Lemma choice_docs kept scored ranked rest x : choice kept scored ranked rest → x ∈ ranked → sd_docId x ∈ docs.
Proof.
  intros [(d1 & Hp1 & _) (d2 & Hp2 & _) (d3 & Hp3 & _) _ _] Hx.
  assert (x ∈ map (predicted predict user_info) kept ++ scored) as Hx'%elem_of_app
    by (rewrite <- Hp3; apply elem_of_app; by left).
  assert (∀ y, y ∈ kept → sd_docId y ∈ docs) as Hk.
  { intros y Hy. assert (y ∈ clicked_items st user_info many rnd docs) as (d & -> & [_ Hd]%list_elem_of_filter)%list_elem_of_fmap; [|done].
    rewrite <- Hp1. apply elem_of_app. by left. }
  destruct Hx' as [(y & -> & Hy)%list_elem_of_fmap|Hy]; [exact (Hk y Hy)|].
  assert (x ∈ scored_items st user_info many rnd docs) as (d & -> & [_ Hd]%list_elem_of_filter)%list_elem_of_fmap; [|done].
  rewrite <- Hp2. apply elem_of_app. by left.
Qed.

Lemma choice_size kept scored ranked rest : (1 ≤ max_select)%nat → choice kept scored ranked rest →
  (length ranked + length rest ≤ max_select)%nat ∧ (length ranked + length rest ≤ length docs)%nat.
Proof.
  intros Hm Hc. destruct (choice_rest _ _ _ _ Hc) as (Hr1 & Hr2 & _).
  destruct Hc as [(d1 & Hp1 & [Hk _ _]) (d2 & Hp2 & [Hs _ _]) (d3 & Hp3 & [Hn _ _]) _ _].
  pose proof (scan_sizes st user_info many rnd docs) as Hsz.
  apply Permutation_length in Hp1, Hp2, Hp3. rewrite length_app in Hp1, Hp2, Hp3. rewrite length_app, length_map in Hp3.
  assert (max_select / 3 < max_select)%nat as Hdiv by (apply Nat.div_lt; lia).
  unfold free_places, clicked_places in *. unfold nothing in Hr2. lia.
Qed.
End choice.

Lemma u64_sub a b : (b ≤ a)%nat → Z.of_nat a < 2 ^ 32 → Z.to_nat (u64 (Z.of_nat a - Z.of_nat b)) = (a - b)%nat.
Proof. intros Hb Ha. unfold u64. rewrite Z.mod_small; lia. Qed.

(** The ads without a score that are kept. *)
Lemma pick_rest_ok n docs (s : AdSelector) :
  ∃ rest, (if (n <? length docs)%nat then selectByRandSelectPolicy random_gen_ n docs s else Some (docs, s)) =
    Some (rest, with_random (random_pos s + if (n <? length docs)%nat then n else 0) s) ∧
  (if (n <? length docs)%nat then picked (drawn random_gen_ (random_pos s) n) docs rest else rest = docs).
Proof.
  destruct (n <? length docs)%nat eqn:E; bool_cases.
  - destruct (selectByRand_ok random_gen_ n docs s) as (rest & ? & ?); [|by exists rest].
    intros ->. simpl in E. lia.
  - exists docs. split; [|done]. rewrite Nat.add_0_r. by destruct s.
Qed.

(** A queue filled and emptied again. *)
Lemma q_fill k l : (Z.of_nat k < 2 ^ 32)%Z → Forall P l →
  ∃ q out dropped, q_insert_all l (q_new k) = Some q ∧ q_inv q ∧ out ≡ₚ q_contents q ∧ q_size q = length out ∧
  q_drain (q_size q) q = Some out ∧ sorted_by lt out ∧ out ++ dropped ≡ₚ l ∧ top_of lt k out dropped.
Proof.
  intros Hk Hl. destruct (q_new_ok (P := P) (lt := lt) k Hk) as (Hinv & Hc & Hcap).
  destruct (q_insert_all_ok P lt l (q_new k) [] Hinv Hl) as (q & d & E & Hq & _ & Hp & Htop).
  { constructor. }
  { rewrite Hc. constructor; [simpl; lia|done|]. intros c ? _ []%not_elem_of_nil. }
  rewrite Hc, !app_nil_r in Hp. rewrite Hcap in Htop.
  destruct (q_drain_ok P lt _ q Hq eq_refl) as (out & Eo & Ho & Hs).
  exists q, out, d. rewrite q_size_ok by done. split_and!; try done; by rewrite Ho.
Qed.

Lemma select_ok fuel user_info max_select docs scores (st : AdSelector) :
  docs ≠ [] → (1 ≤ max_select)%nat → Z.of_nat max_select < 2 ^ 31 →
  Forall (doc_ok predict P st user_info) docs →
  ∃ kept scored ranked rest m,
  choice st user_info max_select docs kept scored ranked rest ∧ least_score (map sd_score ranked) m ∧
  select convertString predict random_gen_ fuel user_info max_select docs scores st =
    Some (negb (length ranked + length rest =? 0)%nat, map sd_docId ranked ++ rest,
      map sd_score ranked ++ replicate (length rest) (d_sub m (d_of_Z 1)),
      after_select user_info (filter (waits st user_info (many_ads max_select docs)) docs)
        (random_after st user_info max_select docs scored) st).
Proof.
  intros Hne Hmax1 Hmax2 Hdocs. unfold select. destruct docs as [|d0 docs0]; [done|].
  set (docs := d0 :: docs0) in *. clearbody docs. cbv zeta. unfold next_random. cbn [fst snd].
  fold (clicked_places max_select). set (capc := clicked_places max_select).
  assert (max_select / 3 < max_select)%nat as Hdiv by (apply Nat.div_lt; lia).
  assert (capc ≤ max_select)%nat as Hcapc by (unfold capc, clicked_places; lia).
  rewrite u64_sub by lia. set (st1 := with_random _ st).
  fold (random_turn st). set (rnd := random_turn st). fold capc (many_ads max_select docs).
  change (capc * 2 <? length docs)%nat with (many_ads max_select docs). set (many := many_ads max_select docs).
  destruct (items_P predict P st1 user_info many rnd docs Hdocs) as [HPc HPu].
  destruct (q_fill (capc * 2) _ ltac:(lia) HPc) as (qc & kept & dc & Ec & Hqc & Hkc & Hsc & Edc & _ & Hpc & Htc).
  destruct (q_fill (max_select - capc) _ ltac:(lia) HPu) as (qu & scored & du & Eu & Hqu & Hku & Hsu & Edu & _ & Hpu & Htu).
  rewrite (scan_run predict P st1 user_info many rnd docs (Scan _ _ [] []) qc qu Hdocs Ec Eu).
  cbn [mbind option_bind tmp_clicked tmp_unclicked unclicked_docs pending_docs app].
  rewrite (rank_clicked_run convertString predict user_info fuel _ _ _ _ kept Edc).
  assert (length scored ≤ max_select - capc)%nat as Hu by apply Htu.
  set (ranking := map (predicted predict user_info) kept ++ scored).
  assert (Forall P ranking) as HPr.
  { assert (Forall P (scored ++ du)) as [HPs _]%Forall_app by by rewrite Hpu.
    apply Forall_app. split; [|exact HPs].
    apply Forall_forall. intros x (y & -> & Hy)%list_elem_of_fmap. rewrite Forall_forall in Hdocs.
    assert (y ∈ clicked_items st1 user_info many rnd docs) as (d & -> & [_ Hd]%list_elem_of_filter)%list_elem_of_fmap.
    { rewrite <- Hpc. apply elem_of_app. by left. }
    by destruct (Hdocs d Hd) as (_ & _ & _ & _ & ?). }
  rewrite Hsu in *. destruct (q_fill (capc + length scored) ranking ltac:(lia) HPr) as
    (qt & out & dt & Et & Hqt & Hot & _ & _ & Hso & Hpt & Htt).
  unfold q_insert_all, ranking in Et. rewrite foldM_app in Et. fold (q_insert_all (A := ScoreDoc)) in Et.
  unfold q_insert_all. destruct (foldM _ (q_new _) (map _ kept)) as [t1|]; [|done]. cbn [mbind option_bind] in *.
  rewrite (move_scored_run _ _ _ scored Edu). unfold q_insert_all. rewrite Et. cbn [mbind option_bind].
  rewrite u64_sub by lia. set (st2 := match filter _ docs with [] => st1 | _ => _ end).
  set (nothing := filter (unscored st1 user_info many rnd) docs).
  destruct (pick_rest_ok (max_select - capc - length scored) nothing st2) as (rest & -> & Hrest). cbn [mbind option_bind].
  assert (∀ ranked, ranked ≡ₚ q_contents qt → sorted_by lt (reverse ranked) → choice st user_info max_select docs kept scored ranked rest) as Hch.
  { intros ranked Hr Hs. split; [by exists dc|by exists du|exists dt|done|].
    - rewrite Hr, <- Hot. by split.
    - unfold free_places. fold capc many rnd. change (unscored st user_info many rnd) with (unscored st1 user_info many rnd).
      fold nothing. assert (random_pos st2 = S (random_pos st)) as <- by (unfold st2; by destruct (filter _ docs)). done. }
  destruct (write_result_ok P lt qt rest docs scores Hqt) as (ranked & m & -> & Hr & Hs & Hm).
  { destruct (choice_size st user_info max_select docs kept scored (reverse out) rest Hmax1) as [_ Hsize].
    - apply Hch; [by rewrite reverse_Permutation|by rewrite reverse_involutive].
    - by rewrite length_reverse, Hot in Hsize. }
  exists kept, scored, ranked, rest, m. split_and!; [by apply Hch|done|]. cbn [mbind option_bind]. do 3 f_equal.
  - by rewrite length_app, length_map.
  - unfold after_select, random_after, st2, st1. fold many capc rnd nothing. unfold free_places. fold capc.
    change (filter (waits (with_random _ st) user_info many) docs) with (filter (waits st user_info many) docs).
    change (filter (unscored st user_info many rnd) docs) with nothing.
    by destruct (filter (waits st user_info many) docs).
Qed.

(** C5: [select] of a non-empty list, for at least one ad, up to ties between
    scores. Clicked ads: when more than twice as many ads are given as there
    are places for clicked ones ([max_select / 3 + 1]), those without a rate
    are queued for the update thread, exactly and in order, and of the others
    the best by rate, twice as many as the places, are kept; else all may be
    kept. Other ads with a rate: the best that the remaining places hold are
    kept, none in a random turn. The kept clicked ads get the score of the
    predictor without ad features, and the best of all kept ads come back,
    best first. Then come the ads without a score, all of them if they fit in
    the free places, otherwise those at the numbers drawn, with a score one
    below the least of the scores and zero. At most [max_select] ads come
    back; every write is in bounds. *)
Theorem select_spec fuel user_info max_select docs scores (st : AdSelector) :
  docs ≠ [] → (1 ≤ max_select)%nat → Z.of_nat max_select < 2 ^ 31 →
  Forall (doc_ok predict P st user_info) docs →
  ∃ kept scored ranked rest m,
  choice st user_info max_select docs kept scored ranked rest ∧ least_score (map sd_score ranked) m ∧
  (length ranked + length rest ≤ max_select)%nat ∧ (length ranked + length rest ≤ length docs)%nat ∧
  select convertString predict random_gen_ fuel user_info max_select docs scores st =
    Some (negb (length ranked + length rest =? 0)%nat, map sd_docId ranked ++ rest,
      map sd_score ranked ++ replicate (length rest) (d_sub m (d_of_Z 1)),
      after_select user_info (filter (waits st user_info (many_ads max_select docs)) docs)
        (random_after st user_info max_select docs scored) st).
Proof.
  intros Hne Hmax1 Hmax2 Hdocs.
  destruct (select_ok fuel user_info max_select docs scores st Hne Hmax1 Hmax2 Hdocs) as (kept & scored & ranked & rest & m & Hc & Hm & E).
  exists kept, scored, ranked, rest, m. destruct (choice_size _ _ _ _ _ _ _ _ Hmax1 Hc) as [H1' H2']. by split_and!.
Qed.

End select_spec.
