(* ===== verification/SelectorScenario.v ===== *)
(** * A small ad selector

    One user feature, one ad feature, three ads.  The theorems about
    [AdSelector] are applied to it: their hypotheses hold together, and the
    runs evaluate. *)
From S2P Require Import Prelude CNum PriorityQueue QueueSpec HitQueue Env Phrases Segments.
From S2P Require Import PropIdTable PropValueTable Selector SelectorSelect.
#[local] Open Scope string_scope.

#[local] Notation Sel := (AdSelector (U := string) (M := list string) (T := gmap Z string) (R := unit)).

(** A predictor that counts features. *)
Definition count_predict (user ad : FeatureT) : double := d_of_Z (Z.of_nat (length user + length ad)).

Definition user_def : FeatureMapT := [("age", ["old"; UnknownStr])].
Definition ad_def : FeatureMapT := [("kind", ["car"; UnknownStr])].

Definition by_type {A} (u a : A) (ty : SegType) : A := match ty with UserSeg => u | AdSeg => a end.

(** Ads 1 and 2 are mined, ad 1 was clicked; a new kind is waiting. *)
Definition small_selector : Sel :=
  Selector None {["old-" := [d_zero; d_of_Z 1]]} [] {[1%nat]} (by_type user_def ad_def)
    (by_type [] [("kind", ["bike"; "car"])]) (by_type (zeros user_def) (zeros ad_def))
    (by_type [("age", [])] [("kind", [])]) false [[]; [1]; [1]] ["car-"] {[1 := "car-"]} None 0.

Lemma small_segids : segids_ok small_selector.
Proof.
  unfold segids_ok. simpl. repeat constructor; exists "car-"; split_and!; done.
Qed.

Lemma updateAdSegmentStr_reads_witness :
  segids_ok small_selector ∧
  getAdSegmentStrList (updateAdSegmentStr 4 [("kind", ["bike"; "car"])] small_selector) 4 [] = Some ["bike-"; "car-"].
Proof.
  split; [exact small_segids|].
  destruct (updateAdSegmentStr_reads small_selector 4 [("kind", ["bike"; "car"])]) as (_ & E & _).
  - exact small_segids.
  - vm_compute. congruence.
  - rewrite E. reflexivity.
Defined.

Lemma one_feature_ok name v : v ≠ UnknownStr → seg_map_ok [(name, [v; UnknownStr])] (zeros [(name, [v; UnknownStr])]).
Proof.
  intros Hv. split_and!; [repeat constructor|done|done|]. apply Forall_singleton. simpl. split.
  - right. left.
  - apply NoDup_cons. split; [by intros Hin%list_elem_of_singleton|apply NoDup_singleton].
Qed.

Lemma small_segments : segments_ok small_selector.
Proof. by intros []; apply one_feature_ok. Qed.

Lemma computeHistoryCTR_rates_witness :
  segments_ok small_selector ∧
  ∃ st', computeHistoryCTR count_predict 10 small_selector = Some st' ∧
         all_segments_ st' AdSeg = [("kind", ["car"; UnknownStr; "bike"])].
Proof.
  split; [exact small_segments|].
  destruct (computeHistoryCTR_rates count_predict small_selector 10) as (st' & E & _ & Hseg & _).
  - exact small_segments.
  - intros []; vm_compute; lia.
  - vm_compute. congruence.
  - vm_compute. congruence.
  - exists st'. split; [exact E|]. exact (proj1 (Hseg AdSeg)).
Defined.

Lemma getHistoryCTR_max_witness :
  (getHistoryCTR {["old-" := [d_zero; d_of_Z 1]]} ["old-"] [1]).1 = true.
Proof.
  destruct (getHistoryCTR_max {["old-" := [d_zero; d_of_Z 1]]} ["old-"] [1]) as (Hfound & _).
  - intros key id c Hc. unfold ctr_at in Hc. destruct (_ !! key) as [v|] eqn:E; [|done].
    apply lookup_singleton_Some in E as [_ <-]. cbn [mbind option_bind] in Hc.
    destruct (Z.to_nat id) as [|[|n]]; simpl in Hc; [by injection Hc as <-|by injection Hc as <-|done].
  - apply (proj2 Hfound). right. exists "old-", 1, (d_of_Z 1). split_and!; [left|left|reflexivity].
Defined.

(** The scores that occur, and an epsilon below their distances. *)
Definition small_scores : list double := [d_zero; d_of_Z 1].
Definition small_eps : double := d_lit 1 1.

#[local] Instance small_order : StrictWeakOn (score_among sd_score small_scores) (hit_lessThan small_eps).
Proof. apply near_lt_strict_weak; [apply _|]. vm_compute. reflexivity. Qed.

Definition small_user : FeatureT := [("age", "old")].

#[local] Notation small_heap :=
  (heap_ops (score_doc 0 d_zero) (score_doc 0 d_zero) (hit_lessThan small_eps)).

(** Ads 1 and 3 were clicked, and nothing is known of the kind of ad 3: of
    three ads for one place, ad 1 comes back and ad 3 waits for a rate. *)
Definition busy_selector : Sel :=
  Selector None {["old-" := [d_zero; d_of_Z 1]]} [] {[1%nat; 3%nat]} (by_type user_def ad_def)
    (by_type [] []) (by_type (zeros user_def) (zeros ad_def))
    (by_type [("age", [])] [("kind", [])]) false [[]; [1]; [1]; [7]] ["car-"] {[1 := "car-"]} None 0.

Lemma select_spec_witness :
  ∃ kept scored ranked rest st',
  choice count_predict (λ _, 500) (hit_lessThan small_eps) busy_selector small_user 1 [2; 1; 3]%nat kept scored ranked rest ∧
  select (Ops := small_heap) (λ s : string, s) count_predict (λ _, 500) 1 small_user 1 [2; 1; 3]%nat [] busy_selector
    = Some (true, [1%nat], [d_of_Z 1], st') ∧ pending_compute_doclist_ st' = [(small_user, [3%nat])].
Proof.
  destruct (select_spec (λ s : string, s) count_predict (λ _, 500) (score_among sd_score small_scores) (hit_lessThan small_eps)
    (Ops := small_heap)
    (BoundedPQ0 := heap_bounded_pq (score_doc 0 d_zero) (score_doc 0 d_zero) (hit_lessThan small_eps)
                     (score_among sd_score small_scores))
    1 small_user 1 [2; 1; 3]%nat [] busy_selector)
    as (kept & scored & ranked & rest & m & Hc & _ & _ & _ & E).
  - done.
  - lia.
  - vm_compute. reflexivity.
  - assert (∀ d, score_among sd_score small_scores (score_doc d d_zero)) as H0 by (intros d; left).
    assert (∀ d, score_among sd_score small_scores (score_doc d (d_of_Z 1))) as H1 by (intros d; right; left).
    repeat constructor; try (vm_compute; reflexivity); try (simpl; lia); try apply H0; try apply H1.
  - eexists kept, scored, ranked, rest, _. split; [exact Hc|]. split; [vm_compute; reflexivity|vm_compute; reflexivity].
Defined.

(** The value of a loaded table above the ids 2 and 3 of document 5. *)
Lemma getValueStrFromPropId_roots_witness :
  ∃ vals, getValueStrFromPropId (λ s : string, s) 9 foods5 (IdList 2 0 1) = Some vals ∧ vals = ["food"; "food"].
Proof.
  destruct (getValueStrFromPropId_roots (λ s : string, s) foods5 (IdList 2 0 1) [2; 3] 9) as (vals & E & _).
  - exact foods5_ok.
  - vm_compute. reflexivity.
  - repeat constructor; unfold value_num; vm_compute; congruence.
  - vm_compute. congruence.
  - exists vals. split; [exact E|]. vm_compute in E. by injection E.
Defined.
