(* ===== verification/Sponsored.v ===== *)
(** * [AdSponsoredMgr]: state, budgets and phrases of the ads ([AdSponsoredMgr.cpp], part 2)

    The state of the manager, and the operations that touch one ad or one
    campaign: deleting, updating and replacing bid phrases, switching ads on
    and off line, consuming and changing budgets, recording clicks.  The locks
    are not modelled: every operation runs under [ad_write_mutex_], so an
    operation is one step.

    Ads are the numbers [ad_docid_t], indices of the manager's vectors.  [None]
    is undefined behaviour: a vector or bitset index out of range. *)
From S2P Require Import Prelude CNum Env ManualBid AuctionLog AuctionStats Phrases.

Definition LOWEST_CLICK_COST : Z := 40.

Inductive kBidStrategy := UniformBid | GeneticBid | RealtimeBid | Unknown.

(** [DocumentManager] and [IDManager]: the id of an ad's text id, the text id
    of an ad ([getAdStrIdFromAdId]), and its other properties. *)
Class AdDocs := {
  getAdIdFromAdStrId : string → option nat;
  getAdStrIdFromAdId : nat → option string;
  getPropertyValue : nat → string → option string }.

Record AdSponsoredMgr := Mgr {
  ad_bidphrase_list_ : list (list (list Z));
  ad_orig_bidstr_list_ : list (list string);
  ad_status_bitmap_ : list bool;
  ad_ctr_list_ : list double;
  keywords_ : KeywordTable;
  ad_budget_used_list_ : list Z;
  ad_campaign_name_list_ : list string;
  ad_campaign_name_id_list_ : gmap string nat;
  ad_campaign_belong_list_ : list nat;
  ad_campaign_bid_phrase_list_ : list (list string);
  ad_log_mgr_ : AdAuctionLogMgr;
  bid_strategy_type_ : kBidStrategy;
  ad_bid_price_list_ : list (gmap string Z);
  ad_uniform_bid_price_list_ : list (list (Z * double));
  manual_bidinfo_mgr_ : AdManualBidInfoMgr }.

Definition AdSponsoredMgr_init : AdSponsoredMgr :=
  Mgr [] [] [] [] KeywordTable_init [] [] ∅ [] [] AdAuctionLogMgr_init UniformBid [] []
      AdManualBidInfoMgr_init.

(** *** Updates of the fields *)

Definition set_phrases ph og kw (m : AdSponsoredMgr) : AdSponsoredMgr :=
  Mgr ph og (ad_status_bitmap_ m) (ad_ctr_list_ m) kw (ad_budget_used_list_ m)
    (ad_campaign_name_list_ m) (ad_campaign_name_id_list_ m) (ad_campaign_belong_list_ m)
    (ad_campaign_bid_phrase_list_ m) (ad_log_mgr_ m) (bid_strategy_type_ m)
    (ad_bid_price_list_ m) (ad_uniform_bid_price_list_ m) (manual_bidinfo_mgr_ m).

Definition set_manual mb (m : AdSponsoredMgr) : AdSponsoredMgr :=
  Mgr (ad_bidphrase_list_ m) (ad_orig_bidstr_list_ m) (ad_status_bitmap_ m) (ad_ctr_list_ m)
    (keywords_ m) (ad_budget_used_list_ m)
    (ad_campaign_name_list_ m) (ad_campaign_name_id_list_ m) (ad_campaign_belong_list_ m)
    (ad_campaign_bid_phrase_list_ m) (ad_log_mgr_ m) (bid_strategy_type_ m)
    (ad_bid_price_list_ m) (ad_uniform_bid_price_list_ m) mb.

Definition set_status st (m : AdSponsoredMgr) : AdSponsoredMgr :=
  Mgr (ad_bidphrase_list_ m) (ad_orig_bidstr_list_ m) st (ad_ctr_list_ m)
    (keywords_ m) (ad_budget_used_list_ m)
    (ad_campaign_name_list_ m) (ad_campaign_name_id_list_ m) (ad_campaign_belong_list_ m)
    (ad_campaign_bid_phrase_list_ m) (ad_log_mgr_ m) (bid_strategy_type_ m)
    (ad_bid_price_list_ m) (ad_uniform_bid_price_list_ m) (manual_bidinfo_mgr_ m).

Definition set_used used (m : AdSponsoredMgr) : AdSponsoredMgr :=
  Mgr (ad_bidphrase_list_ m) (ad_orig_bidstr_list_ m) (ad_status_bitmap_ m) (ad_ctr_list_ m)
    (keywords_ m) used
    (ad_campaign_name_list_ m) (ad_campaign_name_id_list_ m) (ad_campaign_belong_list_ m)
    (ad_campaign_bid_phrase_list_ m) (ad_log_mgr_ m) (bid_strategy_type_ m)
    (ad_bid_price_list_ m) (ad_uniform_bid_price_list_ m) (manual_bidinfo_mgr_ m).

Definition set_log lg (m : AdSponsoredMgr) : AdSponsoredMgr :=
  Mgr (ad_bidphrase_list_ m) (ad_orig_bidstr_list_ m) (ad_status_bitmap_ m) (ad_ctr_list_ m)
    (keywords_ m) (ad_budget_used_list_ m)
    (ad_campaign_name_list_ m) (ad_campaign_name_id_list_ m) (ad_campaign_belong_list_ m)
    (ad_campaign_bid_phrase_list_ m) lg (bid_strategy_type_ m)
    (ad_bid_price_list_ m) (ad_uniform_bid_price_list_ m) (manual_bidinfo_mgr_ m).

Section Sponsored.
Context `{LexicalCast, TitlePCA, AdDocs}.

(** ** Bid phrases of one ad *)

(** Generating a phrase per text, [bidphrase] cleared before each. *)
Definition generate_cleared (texts : list string) (t : KeywordTable)
    : list (list Z) * KeywordTable :=
  fold_left (λ '(acc, t) s,
    let '(ids, t) := generateBidPhrase s [] t in (acc ++ [ids], t)) texts ([], t).

(** The same, [bidphrase] carried from one text to the next. *)
Definition generate_carried (texts : list string) (t : KeywordTable)
    : list (list Z) * KeywordTable :=
  let '(acc, _, t) := fold_left (λ '(acc, prev, t) s,
    let '(ids, t) := generateBidPhrase s prev t in (acc ++ [ids], ids, t)) texts ([], [], t) in
  (acc, t).

(** The loop of [delAdBidPhrase] over the deleted texts: their processed
    texts, each read from the table of its time. *)
Definition del_step (st : list string * list string * list Z * KeywordTable) (s : string)
    : list string * list string * list Z * KeywordTable :=
  let '(diff, processed, prev, t) := st in
  let '(ids, t) := generateBidPhrase s prev t in
  (sset_erase s diff, processed ++ [getBidPhraseStr t ids], ids, t).

(** [ad_campaign_name_list_[ad_campaign_belong_list_[adid]]]. *)
Definition campaign_of (m : AdSponsoredMgr) (adid : nat) : option string :=
  cid ← ad_campaign_belong_list_ m !! adid;
  ad_campaign_name_list_ m !! cid.

Definition delAdBidPhrase (ad_strid : string) (bid_phrase_list : list string)
    (m : AdSponsoredMgr) : option (bool * AdSponsoredMgr) :=
  match getAdIdFromAdStrId ad_strid with
  | None => Some (false, m)
  | Some adid =>
      match ad_orig_bidstr_list_ m !! adid with
      | None => Some (false, m)
      | Some [] => Some (true, m)
      | Some orig =>
          campaign_name ← campaign_of m adid;
          let '(diff, processed, _, t) :=
            fold_left del_step bid_phrase_list (sset_insert_all orig [], [], [], keywords_ m) in
          let '(phrases, t) := generate_cleared diff t in
          ph ← wr adid phrases (ad_bidphrase_list_ m);
          og ← wr adid diff (ad_orig_bidstr_list_ m);
          let m := set_phrases ph og t m in
          Some (true, set_manual (removeManualBidPrice campaign_name (Z.of_nat adid) processed
                                    (manual_bidinfo_mgr_ m)) m)
      end
  end.

(** The loop of [updateAdBidPhrase] over the new set of texts. *)
Definition update_step (price_map : gmap string Z)
    (st : list (list Z) * list string * list Z * KeywordTable) (s : string)
    : list (list Z) * list string * list Z * KeywordTable :=
  let '(phrases, changed, prices, t) := st in
  let '(ids, t) := generateBidPhrase s [] t in
  match price_map !! s with
  | Some p => (phrases ++ [ids], changed ++ [getBidPhraseStr t ids], prices ++ [p], t)
  | None => (phrases ++ [ids], changed, prices, t)
  end.

(** [diff.insert(s); price_map[s] = p;]. *)
Definition collect_price (st : list string * gmap string Z) (sp : string * Z)
    : list string * gmap string Z :=
  (sset_insert sp.1 st.1, <[sp.1 := sp.2]> st.2).

Definition updateAdBidPhrase (ad_strid : string) (bid_phrase_list : list string)
    (price_list : list Z) (m : AdSponsoredMgr) : option (bool * AdSponsoredMgr) :=
  match getAdIdFromAdStrId ad_strid with
  | None => Some (false, m)
  | Some adid =>
      match ad_orig_bidstr_list_ m !! adid with
      | None => Some (false, m)
      | Some orig =>
          campaign_name ← campaign_of m adid;
          '(diff, price_map) ←
            zip_loop collect_price bid_phrase_list price_list (sset_insert_all orig [], ∅);
          let '(phrases, changed, prices, t) :=
            fold_left (update_step price_map) diff ([], [], [], keywords_ m) in
          ph ← wr adid phrases (ad_bidphrase_list_ m);
          og ← wr adid diff (ad_orig_bidstr_list_ m);
          let m := set_phrases ph og t m in
          mb ← setManualBidPrice campaign_name (Z.of_nat adid) changed prices
                 (manual_bidinfo_mgr_ m);
          Some (true, set_manual mb m)
      end
  end.

Definition replaceAdBidPhrase (adid : nat) (bid_phrase_list : list string)
    (m : AdSponsoredMgr) : option AdSponsoredMgr :=
  let '(phrases, t) := generate_carried bid_phrase_list (keywords_ m) in
  ph ← wr adid phrases (ad_bidphrase_list_ m);
  og ← wr adid bid_phrase_list (ad_orig_bidstr_list_ m);
  Some (set_phrases ph og t m).

(** ** On and off line *)

(** A set bit is an ad that is off line. *)
Definition status_step (st : list bool) (p : string * bool) : option (list bool) :=
  match getAdIdFromAdStrId p.1 with
  | None => Some st
  | Some adid => wr adid (negb p.2) st
  end.

Definition updateAdOnlineStatus (ad_strid_list : list string) (is_online_list : list bool)
    (m : AdSponsoredMgr) : option (bool * AdSponsoredMgr) :=
  if negb (length ad_strid_list =? length is_online_list)%nat then Some (false, m)
  else
    st ← foldM status_step (ad_status_bitmap_ m) (zip ad_strid_list is_online_list);
    Some (true, set_status st m).

(** ** Budgets and clicks *)

Definition changeDailyBudget (ad_campaign_name : string) (dailybudget : Z)
    (m : AdSponsoredMgr) : AdSponsoredMgr :=
  set_manual (setBidBudget ad_campaign_name dailybudget (manual_bidinfo_mgr_ m)) m.

Definition consumeBudget (adid : nat) (cost : Z) (m : AdSponsoredMgr) : AdSponsoredMgr :=
  match ad_campaign_belong_list_ m !! adid with
  | None => m
  | Some campaign_id =>
      set_used (alter (λ used, i32 (used + cost)) campaign_id (ad_budget_used_list_ m)) m
  end.

Definition getBudgetLeft (m : AdSponsoredMgr) (adid : nat) : option Z :=
  match ad_campaign_belong_list_ m !! adid with
  | None => Some 0
  | Some campaign_id =>
      campaign_name ← ad_campaign_name_list_ m !! campaign_id;
      match ad_budget_used_list_ m !! campaign_id with
      | None => Some 0
      | Some used => Some (i32 (getBidBudget (manual_bidinfo_mgr_ m) campaign_name - used))
      end
  end.

Definition getAdCTR (m : AdSponsoredMgr) (adid : nat) : double :=
  default d_zero (ad_ctr_list_ m !! adid).

Definition updateAuctionLogData (now : tm) (ad_strid hit_orig_bidstr : string)
    (click_cost_in_fen : Z) (click_slot : nat) (m : AdSponsoredMgr) : AdSponsoredMgr :=
  let hit_bidstr := preprocessBidPhraseStr hit_orig_bidstr in
  let m := set_log (AuctionLog.updateAuctionLogData now ad_strid hit_bidstr
                      click_cost_in_fen click_slot (ad_log_mgr_ m)) m in
  match getAdIdFromAdStrId ad_strid with
  | None => m
  | Some adid => consumeBudget adid click_cost_in_fen m
  end.
End Sponsored.

(** ** Invariant of the manager *)

Record mgr_ok (m : AdSponsoredMgr) : Prop := {
  mgr_table : table_ok (keywords_ m);
  (** every phrase has the text it was made from *)
  mgr_align : Forall2 (λ ph og, length ph = length og)
                (ad_bidphrase_list_ m) (ad_orig_bidstr_list_ m);
  mgr_ids : Forall (Forall (Forall (λ id, ∃ k, knows (keywords_ m) id k))) (ad_bidphrase_list_ m);
  (** every mined ad has a campaign, every campaign a name *)
  mgr_mined : (length (ad_bidphrase_list_ m) ≤ length (ad_campaign_belong_list_ m))%nat;
  mgr_belong : Forall (λ cid, (cid < length (ad_campaign_name_list_ m))%nat)
                 (ad_campaign_belong_list_ m);
  mgr_names : ∀ name cid, ad_campaign_name_id_list_ m !! name = Some cid ↔
                          ad_campaign_name_list_ m !! cid = Some name;
  mgr_sets : Forall sset_ok (ad_campaign_bid_phrase_list_ m) }.

Lemma mgr_init_ok : mgr_ok AdSponsoredMgr_init.
Proof.
  split; simpl; try by constructor. apply table_init_ok.
Qed.

Lemma mgr_align_lookup m adid ph og :
  mgr_ok m → ad_bidphrase_list_ m !! adid = Some ph → ad_orig_bidstr_list_ m !! adid = Some og →
  length ph = length og.
Proof. intros Hm Hp Ho. exact (Forall2_lookup_lr _ _ _ _ _ _ (mgr_align m Hm) Hp Ho). Qed.

Lemma mgr_campaign m adid :
  mgr_ok m → (adid < length (ad_bidphrase_list_ m))%nat →
  ∃ cid name, ad_campaign_belong_list_ m !! adid = Some cid ∧
    ad_campaign_name_list_ m !! cid = Some name ∧ campaign_of m adid = Some name.
Proof.
  intros Hm Hl. pose proof (mgr_mined m Hm).
  destruct (lookup_lt_is_Some_2 (ad_campaign_belong_list_ m) adid) as [cid Hcid]; [lia|].
  pose proof (mgr_belong m Hm) as Hb. rewrite Forall_lookup in Hb.
  destruct (lookup_lt_is_Some_2 (ad_campaign_name_list_ m) cid) as [name Hname]; [eauto|].
  exists cid, name. unfold campaign_of. rewrite Hcid. simpl. by rewrite Hname.
Qed.

Lemma ids_ext t t' (phs : list (list (list Z))) :
  table_ext t t' →
  Forall (Forall (Forall (λ id, ∃ k, knows t id k))) phs →
  Forall (Forall (Forall (λ id, ∃ k, knows t' id k))) phs.
Proof.
  intros Ht H. do 3 (eapply Forall_impl; [done|]; clear H; intros ? H).
  destruct H as [k Hk]. exists k. by eapply knows_ext.
Qed.

(** Replacing the phrases of one ad keeps the invariant. *)
Lemma set_phrases_ok m adid phrases texts t :
  mgr_ok m → table_ok t → table_ext (keywords_ m) t → length phrases = length texts →
  Forall (Forall (λ id, ∃ k, knows t id k)) phrases →
  mgr_ok (set_phrases (<[adid := phrases]> (ad_bidphrase_list_ m))
                      (<[adid := texts]> (ad_orig_bidstr_list_ m)) t m).
Proof.
  intros [H1 H2 H3 H4 H5 H6 H7] Ht Hext Hl Hph. split; simpl; try done.
  - by apply Forall2_insert.
  - apply Forall_insert; [by eapply ids_ext|done].
  - by rewrite length_insert.
Qed.

Lemma set_manual_ok m mb : mgr_ok m → mgr_ok (set_manual mb m).
Proof. by intros [? ? ? ? ? ? ?]. Qed.

(** ** Generating phrases *)

Section generate.
Context `{TitlePCA}.

(** The keywords of the phrase of a text, and the text of that phrase. *)
Definition phrase_words (s : string) : list string :=
  if String.eqb s EmptyString then [] else take (S MAX_BIDPHRASE_LEN) (sorted_tokens s).
Definition phrase_text (s : string) : string := join_spaced (phrase_words s).

Definition tokens_total (texts : list string) : nat :=
  sum_list_with (λ s, length (sorted_tokens s)) texts.

Lemma generateBidPhrase_ok s prev words t :
  table_ok t → room t (length (sorted_tokens s)) →
  (s = EmptyString → Forall2 (knows t) prev words) →
  let '(ids, t') := generateBidPhrase s prev t in
  table_ok t' ∧ table_ext t t' ∧
  (length (keyword_id_value_list_ t') ≤
   length (keyword_id_value_list_ t) + length (sorted_tokens s))%nat ∧
  Forall2 (knows t') ids (if String.eqb s EmptyString then words else phrase_words s).
Proof.
  intros Hok Hroom Hprev. unfold generateBidPhrase, phrase_words.
  destruct (String.eqb s EmptyString) eqn:E.
  - apply String.eqb_eq in E. split_and!; [done|done|lia|auto].
  - pose proof (phrase_loop_ok (sorted_tokens s) [] t [] Hok Hroom (List.Forall2_nil _)) as Hl.
    destruct (phrase_loop _ _ _) as [ids t']. apply Hl. simpl. lia.
Qed.

Lemma knows_text t ids words :
  Forall2 (knows t) ids words → getBidPhraseStr t ids = join_spaced words.
Proof. intros HF. unfold getBidPhraseStr. by rewrite (knows_texts _ _ _ HF). Qed.

Lemma knows_all_ext t t' ids words :
  table_ext t t' → Forall2 (knows t) ids words → Forall2 (knows t') ids words.
Proof. intros Ht HF. eapply Forall2_impl; [exact HF|]. intros id k. by apply knows_ext. Qed.

(** Phrases that stand for [texts] in the table [t]. *)
Definition stand_for (t : KeywordTable) (phrases : list (list Z)) (texts : list string) : Prop :=
  Forall2 (λ ids s, Forall2 (knows t) ids (phrase_words s)) phrases texts.

Lemma stand_for_ext t t' phrases texts :
  table_ext t t' → stand_for t phrases texts → stand_for t' phrases texts.
Proof. intros Ht HF. eapply Forall2_impl; [exact HF|]. intros ids s. by apply knows_all_ext. Qed.

Lemma stand_for_ids t phrases texts :
  stand_for t phrases texts → Forall (Forall (λ id, ∃ k, knows t id k)) phrases.
Proof.
  induction 1 as [|ids s phrases texts Hi _ IH]; constructor; [|done].
  clear -Hi. induction Hi; constructor; eauto.
Qed.

(** One more text of a loop that keeps its phrases. *)
Lemma stand_for_snoc t phrases texts s :
  table_ok t → room t (length (sorted_tokens s)) → stand_for t phrases texts →
  let '(ids, t') := generateBidPhrase s [] t in
  table_ok t' ∧ table_ext t t' ∧
  (length (keyword_id_value_list_ t') ≤
   length (keyword_id_value_list_ t) + length (sorted_tokens s))%nat ∧
  stand_for t' (phrases ++ [ids]) (texts ++ [s]) ∧ getBidPhraseStr t' ids = phrase_text s.
Proof.
  intros Hok Hroom HF.
  pose proof (generateBidPhrase_ok s [] [] t Hok Hroom (λ _, List.Forall2_nil _)) as Hg.
  destruct (generateBidPhrase s [] t) as [ids t']. destruct Hg as (Hok' & Hext & Hlen & Hids).
  assert (Forall2 (knows t') ids (phrase_words s)) as Hw.
  { unfold phrase_words in *. by destruct (String.eqb s EmptyString). }
  split_and!; [done|done|done| |by apply knows_text].
  apply Forall2_app; [by eapply stand_for_ext|]. constructor; [done|constructor].
Qed.

Lemma tokens_total_cons s texts :
  tokens_total (s :: texts) = (length (sorted_tokens s) + tokens_total texts)%nat.
Proof. done. Qed.

Lemma generate_cleared_ok texts t :
  table_ok t → room t (tokens_total texts) →
  let '(phrases, t') := generate_cleared texts t in
  table_ok t' ∧ table_ext t t' ∧ stand_for t' phrases texts.
Proof.
  unfold generate_cleared.
  assert (∀ texts pre acc t, table_ok t → room t (tokens_total texts) → stand_for t acc pre →
    let '(phrases, t') := fold_left (λ '(acc, t) s,
      let '(ids, t) := generateBidPhrase s [] t in (acc ++ [ids], t)) texts (acc, t) in
    table_ok t' ∧ table_ext t t' ∧ stand_for t' phrases (pre ++ texts)) as Hgen.
  { clear. induction texts as [|s texts IH]; intros pre acc t Hok Hroom HF; simpl.
    { split_and!; [done|done|]. by rewrite app_nil_r. }
    rewrite tokens_total_cons in Hroom. unfold room in Hroom.
    pose proof (stand_for_snoc t acc pre s Hok) as Hs. unfold room in Hs.
    destruct (generateBidPhrase s [] t) as [ids t1].
    destruct Hs as (Hok1 & Hext1 & Hlen1 & HF1 & _); [lia|done|].
    specialize (IH (pre ++ [s]) (acc ++ [ids]) t1 Hok1).
    destruct (fold_left _ texts _) as [phrases t2].
    destruct IH as (? & ? & HF2); [unfold room; lia|done|].
    split_and!; [done|by etrans|]. by rewrite <- app_assoc in HF2. }
  intros Hok Hroom. exact (Hgen texts [] [] t Hok Hroom (List.Forall2_nil _)).
Qed.
End generate.

(** ** Deleting phrases *)

Section phrase_ops.
Context `{LexicalCastOk, TitlePCA, AdDocs}.

(** The deletion loop: the remaining set, and the processed texts. *)
Lemma del_loop_ok dels : ∀ diff processed prev words t,
  table_ok t → room t (tokens_total dels) → sset_ok diff → Forall2 (knows t) prev words →
  let '(diff', processed', _, t') := fold_left del_step dels (diff, processed, prev, t) in
  table_ok t' ∧ table_ext t t' ∧ sset_ok diff' ∧
  (length (keyword_id_value_list_ t') ≤
   length (keyword_id_value_list_ t) + tokens_total dels)%nat ∧
  (∀ s, s ∈ diff' ↔ s ∈ diff ∧ s ∉ dels) ∧
  (∀ k, k ∈ processed' → k ∈ processed ∨ k = join_spaced words ∨
     ∃ s, s ∈ dels ∧ k = phrase_text s) ∧
  (∀ k, k ∈ processed → k ∈ processed') ∧
  (∀ s, s ∈ dels → s ≠ EmptyString → phrase_text s ∈ processed').
Proof.
  induction dels as [|s dels IH]; intros diff processed prev words t Hok Hroom Hs HF; simpl.
  { split_and!; try done; [lia|set_solver|set_solver|set_solver]. }
  rewrite tokens_total_cons in *. unfold room in Hroom.
  pose proof (generateBidPhrase_ok s prev words t Hok) as Hg. unfold room in Hg.
  destruct (generateBidPhrase s prev t) as [ids t1].
  destruct Hg as (Hok1 & Hext1 & Hlen1 & HF1); [lia|done|].
  specialize (IH (sset_erase s diff) (processed ++ [getBidPhraseStr t1 ids]) ids
    (if String.eqb s EmptyString then words else phrase_words s) t1 Hok1).
  destruct (fold_left _ dels _) as [[[diff' processed'] prev'] t'].
  destruct (IH ltac:(unfold room; lia) (sset_erase_ok s diff Hs) HF1)
    as (Hok' & Hext' & Hs' & Hlen' & Hdiff & Hold & Hkeep & Hnew). clear IH.
  rewrite (knows_text _ _ _ HF1) in *.
  assert (∀ k, k = join_spaced (if String.eqb s EmptyString then words else phrase_words s) →
    k = join_spaced words ∨ k = phrase_text s) as Hcase.
  { intros k ->. unfold phrase_text. destruct (String.eqb s EmptyString); auto. }
  split_and!; [done|by etrans|done|lia| | |set_solver|].
  - intros s'. rewrite Hdiff, elem_of_sset_erase. set_solver.
  - intros k [Hk|[Hk|(s' & Hin & Hk)]]%Hold.
    + apply elem_of_app in Hk as [Hk|Hk%list_elem_of_singleton]; [by left|right].
      apply Hcase in Hk as [Hk|Hk]; [by left|right]. exists s. set_solver.
    + right. apply Hcase in Hk as [Hk|Hk]; [by left|right]. exists s. set_solver.
    + right; right. exists s'. set_solver.
  - intros s' [->|Hin]%elem_of_cons Hne; [|by apply Hnew].
    apply Hkeep. rewrite (proj2 (String.eqb_neq _ _) Hne). set_solver.
Qed.

Lemma tokens_total_subset l k :
  NoDup l → (∀ s, s ∈ l → s ∈ k) → (tokens_total l ≤ tokens_total k)%nat.
Proof.
  intros Hnd Hsub. destruct (submseteq_Permutation l k (NoDup_submseteq l k Hnd Hsub))
    as [k' Hk].
  unfold tokens_total. rewrite Hk, sum_list_with_app. lia.
Qed.

Lemma orig_set_ok orig : sset_ok (sset_insert_all orig []).
Proof. apply sset_insert_all_ok. constructor. Qed.

(** [delAdBidPhrase] leaves the ad exactly the texts that were not
    deleted, with phrases that stand for them, and removes the manual prices
    of the deleted ones; the other ads and prices keep theirs. *)
Theorem delAdBidPhrase_spec ad_strid dels m adid orig :
  mgr_ok m → getAdIdFromAdStrId ad_strid = Some adid →
  ad_orig_bidstr_list_ m !! adid = Some orig → orig ≠ [] →
  room (keywords_ m) (tokens_total dels + tokens_total orig) →
  ∃ camp m' phrases texts,
    campaign_of m adid = Some camp ∧
    delAdBidPhrase ad_strid dels m = Some (true, m') ∧ mgr_ok m' ∧
    ad_bidphrase_list_ m' = <[adid := phrases]> (ad_bidphrase_list_ m) ∧
    ad_orig_bidstr_list_ m' = <[adid := texts]> (ad_orig_bidstr_list_ m) ∧
    stand_for (keywords_ m') phrases texts ∧ sset_ok texts ∧
    (∀ s, s ∈ texts ↔ s ∈ orig ∧ s ∉ dels) ∧
    (∀ s, s ∈ dels → s ≠ EmptyString →
       getManualBidPrice (manual_bidinfo_mgr_ m') camp (Z.of_nat adid) (phrase_text s) = 0) ∧
    (∀ c a k, 0 ≤ a → (c ≠ camp ∨ a ≠ Z.of_nat adid ∨
                       (k ≠ EmptyString ∧ ∀ s, s ∈ dels → phrase_text s ≠ k)) →
       getManualBidPrice (manual_bidinfo_mgr_ m') c a k
       = getManualBidPrice (manual_bidinfo_mgr_ m) c a k).
Proof.
  intros Hm Had Horig Hne Hroom.
  pose proof (Forall2_length _ _ _ (mgr_align m Hm)) as Hlens.
  apply lookup_lt_Some in Horig as Hlt.
  destruct (mgr_campaign m adid Hm ltac:(lia)) as (_ & camp & _ & _ & Hcamp).
  exists camp. unfold delAdBidPhrase. rewrite Had, Horig.
  destruct orig as [|o orig']; [done|]. set (orig := o :: orig') in *. rewrite Hcamp.
  cbn [mbind option_bind]. unfold room in Hroom.
  pose proof (del_loop_ok dels (sset_insert_all orig []) [] [] [] (keywords_ m) (mgr_table m Hm)) as Hd.
  destruct (fold_left del_step _ _) as [[[diff processed] prev] t1].
  destruct Hd as (Hok1 & Hext1 & Hs1 & Hlen1 & Hdiff & Hold & _ & Hnew);
    [unfold room; lia|apply orig_set_ok|constructor|].
  assert (∀ s, s ∈ diff ↔ s ∈ orig ∧ s ∉ dels) as Hdiff'.
  { intros s. rewrite Hdiff, elem_of_sset_insert_all. set_solver. }
  assert (tokens_total diff ≤ tokens_total orig)%nat as Htot.
  { apply tokens_total_subset; [by apply sset_ok_NoDup|]. intros s Hs. by apply Hdiff' in Hs as []. }
  pose proof (generate_cleared_ok diff t1 Hok1) as Hg.
  destruct (generate_cleared diff t1) as [phrases t2].
  destruct Hg as (Hok2 & Hext2 & Hst); [unfold room; lia|].
  rewrite !wr_Some by lia. cbn [mbind option_bind].
  eexists _, phrases, diff. split_and!; [done|done| |done|done|done|done|done| |].
  - apply set_manual_ok, set_phrases_ok; [done|done|by etrans|by eapply Forall2_length|].
    by eapply stand_for_ids.
  - intros s Hs Hse. simpl. rewrite removeManualBidPrice_get by lia.
    rewrite decide_True; [done|]. split_and!; [done|done|by apply Hnew].
  - intros c a k Ha Hk. simpl. rewrite removeManualBidPrice_get by lia.
    rewrite decide_False; [done|]. intros (-> & -> & Hin).
    destruct Hk as [?|[?|[Hke Hk]]]; [done|done|].
    apply Hold in Hin as [Hin|[Hin|(s & Hin & Hx)]]; [set_solver|by apply Hke|].
    by eapply Hk.
Qed.

(** ** Updating phrases *)

Definition changed_of (price_map : gmap string Z) (texts : list string) : list (string * Z) :=
  omap (λ s, p ← price_map !! s; Some (phrase_text s, p)) texts.

Lemma update_loop_ok pm texts : ∀ pre phrases changed prices t,
  table_ok t → room t (tokens_total texts) → stand_for t phrases pre →
  let '(phrases', changed', prices', t') :=
    fold_left (update_step pm) texts (phrases, changed, prices, t) in
  table_ok t' ∧ table_ext t t' ∧ stand_for t' phrases' (pre ++ texts) ∧
  changed' = changed ++ (changed_of pm texts).*1 ∧ prices' = prices ++ (changed_of pm texts).*2.
Proof.
  induction texts as [|s texts IH]; intros pre phrases changed prices t Hok Hroom HF; simpl.
  { rewrite !app_nil_r. by split_and!. }
  rewrite tokens_total_cons in Hroom. unfold room in Hroom.
  pose proof (stand_for_snoc t phrases pre s Hok) as Hs. unfold room in Hs.
  destruct (generateBidPhrase s [] t) as [ids t1].
  destruct Hs as (Hok1 & Hext1 & Hlen1 & HF1 & Htext); [lia|done|].
  rewrite Htext. destruct (pm !! s) as [p|] eqn:Hp.
  - specialize (IH (pre ++ [s]) (phrases ++ [ids]) (changed ++ [phrase_text s]) (prices ++ [p]) t1 Hok1).
    destruct (fold_left _ texts _) as [[[phrases' changed'] prices'] t2].
    destruct IH as (? & ? & HF2 & -> & ->); [unfold room; lia|done|].
    split_and!; [done|by etrans|by rewrite <- app_assoc in HF2| |]; simpl; by rewrite <- app_assoc.
  - specialize (IH (pre ++ [s]) (phrases ++ [ids]) changed prices t1 Hok1).
    destruct (fold_left _ texts _) as [[[phrases' changed'] prices'] t2].
    destruct IH as (? & ? & HF2 & -> & ->); [unfold room; lia|done|].
    split_and!; [done|by etrans|by rewrite <- app_assoc in HF2|done|done].
Qed.

(** The set of texts and the prices that the first loop builds. *)
Lemma collect_price_ok kps : ∀ diff pm,
  sset_ok diff →
  let '(diff', pm') := fold_left collect_price kps (diff, pm) in
  sset_ok diff' ∧ (∀ s, s ∈ diff' ↔ s ∈ diff ∨ s ∈ kps.*1) ∧
  (∀ s, pm' !! s = fold_left (λ acc kp, if decide (kp.1 = s) then Some kp.2 else acc)
                     kps (pm !! s)).
Proof.
  induction kps as [|[s p] kps IH]; intros diff pm Hs; simpl.
  { split_and!; [done|set_solver|done]. }
  specialize (IH (sset_insert s diff) (<[s:=p]> pm) (sset_insert_ok s diff Hs)).
  unfold collect_price at 2. simpl.
  destruct (fold_left _ kps _) as [diff' pm']. destruct IH as (Hs' & Hd & Hp).
  split_and!; [done| |].
  - intros x. rewrite Hd, elem_of_sset_insert. set_solver.
  - intros x. rewrite Hp. f_equal. destruct (decide (s = x)) as [->|Hne]; by simplify_map_eq.
Qed.

Lemma last_price_unique k p (kps : list (string * Z)) :
  (k, p) ∈ kps → (∀ p', (k, p') ∈ kps → p' = p) → last_price k kps = Some p.
Proof.
  induction kps as [|[k0 p0] kps IH] using rev_ind; intros Hin Huniq; [by apply elem_of_nil in Hin|].
  rewrite last_price_snoc. simpl. destruct (decide (k0 = k)) as [->|Hne].
  - f_equal. apply Huniq. set_solver.
  - apply IH; [set_solver|]. intros p' Hp'. apply Huniq. set_solver.
Qed.

(** [updateAdBidPhrase] merges the new texts into those of the ad, sorted
    and without repetition, regenerates a phrase for each, and stores the
    given manual prices under the ad and its campaign; the other ads and
    prices keep theirs. *)
Theorem updateAdBidPhrase_spec ad_strid news prices m adid orig :
  mgr_ok m → getAdIdFromAdStrId ad_strid = Some adid →
  ad_orig_bidstr_list_ m !! adid = Some orig → (length news ≤ length prices)%nat →
  room (keywords_ m) (tokens_total (orig ++ news)) →
  ∃ camp m' phrases texts,
    campaign_of m adid = Some camp ∧
    updateAdBidPhrase ad_strid news prices m = Some (true, m') ∧ mgr_ok m' ∧
    ad_bidphrase_list_ m' = <[adid := phrases]> (ad_bidphrase_list_ m) ∧
    ad_orig_bidstr_list_ m' = <[adid := texts]> (ad_orig_bidstr_list_ m) ∧
    stand_for (keywords_ m') phrases texts ∧ sset_ok texts ∧
    (∀ s, s ∈ texts ↔ s ∈ orig ∨ s ∈ news) ∧
    (∀ s p, last_price s (zip news prices) = Some p → s ∈ news →
       (∀ s', s' ∈ texts → phrase_text s' = phrase_text s → s' = s) →
       getManualBidPrice (manual_bidinfo_mgr_ m') camp (Z.of_nat adid) (phrase_text s) = p) ∧
    (∀ c a k, 0 ≤ a → c ≠ camp ∨ a ≠ Z.of_nat adid →
       getManualBidPrice (manual_bidinfo_mgr_ m') c a k
       = getManualBidPrice (manual_bidinfo_mgr_ m) c a k).
Proof.
  intros Hm Had Horig Hlen Hroom.
  pose proof (Forall2_length _ _ _ (mgr_align m Hm)) as Hlens.
  apply lookup_lt_Some in Horig as Hlt.
  destruct (mgr_campaign m adid Hm ltac:(lia)) as (_ & camp & _ & _ & Hcamp).
  exists camp. unfold updateAdBidPhrase. rewrite Had, Horig, Hcamp. cbn [mbind option_bind].
  rewrite zip_loop_ok by done. cbn [mbind option_bind].
  pose proof (collect_price_ok (zip news prices) (sset_insert_all orig []) ∅ (orig_set_ok orig)) as Hc.
  destruct (fold_left collect_price _ _) as [texts pm]. destruct Hc as (Hs & Hd & Hpm).
  assert ((zip news prices).*1 = news) as Hfst by (apply fst_zip; lia). rewrite Hfst in Hd.
  assert (∀ s, s ∈ texts ↔ s ∈ orig ∨ s ∈ news) as Hd'.
  { intros s. rewrite Hd, elem_of_sset_insert_all. set_solver. }
  assert (tokens_total texts ≤ tokens_total (orig ++ news))%nat as Htot.
  { apply tokens_total_subset; [by apply sset_ok_NoDup|]. set_solver. }
  pose proof (update_loop_ok pm texts [] [] [] [] (keywords_ m) (mgr_table m Hm)) as Hu.
  destruct (fold_left (update_step pm) _ _) as [[[phrases changed] ps] t].
  destruct Hu as (Hok & Hext & Hst & -> & ->); [unfold room in *; lia|constructor|]. simpl app in *.
  rewrite !wr_Some by lia. cbn [mbind option_bind]. simpl (manual_bidinfo_mgr_ _).
  destruct (setManualBidPrice_get camp (Z.of_nat adid) (changed_of pm texts).*1
    (changed_of pm texts).*2 (manual_bidinfo_mgr_ m)) as (mb & -> & Hget);
    [lia|by rewrite !length_fmap|]. cbn [mbind option_bind].
  eexists _, phrases, texts. split_and!; [done|done| |done|done|done|done|done| |].
  - apply set_manual_ok, set_phrases_ok; [done|done|done|by eapply Forall2_length|].
    by eapply stand_for_ids.
  - intros s p Hp Hs1 Huniq. simpl. rewrite Hget by lia. rewrite decide_True by done.
    rewrite zip_fst_snd. rewrite (last_price_unique _ p); [done| |].
    + unfold changed_of. apply list_elem_of_omap. exists s. split; [set_solver|].
      rewrite Hpm, lookup_empty. change (fold_left _ _ None) with (last_price s (zip news prices)).
      by rewrite Hp.
    + unfold changed_of. intros p' (s' & Hin & Hs')%list_elem_of_omap.
      destruct (pm !! s') as [p2|] eqn:Hp2; [|done]. simpl in Hs'. injection Hs' as Hphr ->.
      rewrite (Huniq s' Hin Hphr) in Hp2. rewrite Hpm, lookup_empty in Hp2.
      change (fold_left _ _ None) with (last_price s (zip news prices)) in Hp2. congruence.
  - intros c a k Ha Hk. simpl. rewrite Hget by lia. rewrite decide_False; [done|]. naive_solver.
Qed.
End phrase_ops.

(** ** Budgets *)

Section budget_ops.
Context `{LexicalCast, TitlePCA, AdDocs}.

Lemma i32_sub_add b u c : i32 (b - i32 (u + c)) = i32 (i32 (b - u) - c).
Proof.
  unfold i32. f_equal.
  rewrite (Z.mod_eq (u + c + 2 ^ 31)), (Z.mod_eq (b - u + 2 ^ 31)) by lia.
  set (q1 := (u + c + 2 ^ 31) / 2 ^ 32). set (q2 := (b - u + 2 ^ 31) / 2 ^ 32).
  replace (b - (u + c + 2 ^ 31 - 2 ^ 32 * q1 - 2 ^ 31) + 2 ^ 31)
    with ((b - u - c + 2 ^ 31) + q1 * 2 ^ 32) by lia.
  replace (b - u + 2 ^ 31 - 2 ^ 32 * q2 - 2 ^ 31 - c + 2 ^ 31)
    with ((b - u - c + 2 ^ 31) + (- q2) * 2 ^ 32) by lia.
  by rewrite !Z.mod_add by lia.
Qed.

Lemma getBudgetLeft_consume m adid cid used cost a :
  ad_campaign_belong_list_ m !! adid = Some cid →
  ad_budget_used_list_ m !! cid = Some used →
  getBudgetLeft (consumeBudget adid cost m) a
  = if decide (ad_campaign_belong_list_ m !! a = Some cid)
    then l ← getBudgetLeft m a; Some (i32 (l - cost))
    else getBudgetLeft m a.
Proof.
  intros Hcid Hused. unfold consumeBudget. rewrite Hcid. unfold getBudgetLeft. simpl.
  destruct (ad_campaign_belong_list_ m !! a) as [c|]; [|done].
  destruct (ad_campaign_name_list_ m !! c) as [name|]; simpl; [|by destruct (decide _)].
  destruct (decide (Some c = Some cid)) as [Hc|Hc].
  - injection Hc as ->. rewrite list_lookup_alter_eq, Hused. simpl. f_equal. apply i32_sub_add.
  - rewrite list_lookup_alter_ne by congruence. done.
Qed.

(** C3: A click reported to [updateAuctionLogData] is logged under the text of
    the bid phrase and charged to the campaign of the ad: the budget left of
    every ad of that campaign falls by the cost (modulo 2^32), that of no
    other ad changes, and an unknown ad charges nobody. *)
Theorem updateAuctionLogData_charges now ad_strid hit cost slot m :
  let m' := updateAuctionLogData now ad_strid hit cost slot m in
  ad_log_mgr_ m' = AuctionLog.updateAuctionLogData now ad_strid (preprocessBidPhraseStr hit)
                     cost slot (ad_log_mgr_ m) ∧
  match getAdIdFromAdStrId ad_strid with
  | None => ∀ a, getBudgetLeft m' a = getBudgetLeft m a
  | Some adid => ∀ cid used, ad_campaign_belong_list_ m !! adid = Some cid →
      ad_budget_used_list_ m !! cid = Some used →
      ∀ a, getBudgetLeft m' a
        = if decide (ad_campaign_belong_list_ m !! a = Some cid)
          then l ← getBudgetLeft m a; Some (i32 (l - cost))
          else getBudgetLeft m a
  end.
Proof.
  unfold updateAuctionLogData.
  set (m1 := set_log _ m). split.
  - destruct (getAdIdFromAdStrId ad_strid) as [adid|]; [|done].
    unfold consumeBudget. by destruct (ad_campaign_belong_list_ m1 !! adid).
  - destruct (getAdIdFromAdStrId ad_strid) as [adid|]; [|done].
    intros cid used Hcid Hused a. by rewrite (getBudgetLeft_consume m1 adid cid used).
Qed.

(** After [changeDailyBudget] the budget left of every ad of that
    campaign is the new budget minus what is used (modulo 2^32), and that of
    every other ad is unchanged. *)
Theorem changeDailyBudget_left name b m a cid used :
  ad_campaign_belong_list_ m !! a = Some cid → ad_budget_used_list_ m !! cid = Some used →
  getBudgetLeft (changeDailyBudget name b m) a
  = if decide (campaign_of m a = Some name) then Some (i32 (b - used)) else getBudgetLeft m a.
Proof.
  intros Hcid Hused. unfold getBudgetLeft, campaign_of. simpl. rewrite Hcid. simpl.
  destruct (ad_campaign_name_list_ m !! cid) as [n|]; simpl; [|by repeat case_decide].
  rewrite Hused. unfold getBidBudget. simpl.
  destruct (decide (Some n = Some name)) as [Hn|Hn].
  - injection Hn as ->. by rewrite lookup_insert_eq.
  - by rewrite lookup_insert_ne by congruence.
Qed.

(** ** On and off line *)

(** The last status asked for the ad [a]. *)
Definition last_status (a : nat) (l : list (string * bool)) : option bool :=
  fold_left (λ acc p, if decide (getAdIdFromAdStrId p.1 = Some a) then Some p.2 else acc) l None.

Lemma last_status_snoc a l p :
  last_status a (l ++ [p])
  = if decide (getAdIdFromAdStrId p.1 = Some a) then Some p.2 else last_status a l.
Proof. unfold last_status. by rewrite fold_left_app. Qed.

(** [updateAdOnlineStatus] sets the off-line bit of each known ad from
    the last entry that names it, skips unknown ads and changes nothing else;
    an ad beyond the bitmap is written out of range. *)
Theorem updateAdOnlineStatus_spec ids onl m :
  length ids = length onl →
  if forallb (λ s, match getAdIdFromAdStrId s with
                   | Some a => (a <? length (ad_status_bitmap_ m))%nat | None => true end) ids
  then ∃ m', updateAdOnlineStatus ids onl m = Some (true, m') ∧
    (∀ a, (a < length (ad_status_bitmap_ m))%nat → ad_status_bitmap_ m' !! a
      = match last_status a (zip ids onl) with
        | Some on => Some (negb on)
        | None => ad_status_bitmap_ m !! a
        end) ∧
    m' = set_status (ad_status_bitmap_ m') m
  else updateAdOnlineStatus ids onl m = None.
Proof.
  intros Hl. unfold updateAdOnlineStatus. rewrite (proj2 (Nat.eqb_eq _ _) Hl). simpl.
  set (n := length (ad_status_bitmap_ m)).
  assert (ids = (zip ids onl).*1) as Hids by (symmetry; apply fst_zip; lia).
  revert Hids. generalize (zip ids onl) as ps. intros ps ->. clear Hl.
  destruct (forallb _ _) eqn:Hall.
  - rewrite forallb_forall in Hall.
    destruct (foldM_inv (λ pre st, length st = n ∧ ∀ a, (a < n)%nat →
        st !! a = match last_status a pre with
          | Some on => Some (negb on) | None => ad_status_bitmap_ m !! a end)
      status_step ps (ad_status_bitmap_ m)) as (st & -> & _ & Hst).
    + by split.
    + intros pre [s on] st [Hlen Hst] (suf & Hsuf). unfold status_step. simpl.
      assert (In s ps.*1) as Hin.
      { apply list_elem_of_In. rewrite Hsuf, fmap_app, fmap_cons. set_solver. }
      specialize (Hall s Hin). destruct (getAdIdFromAdStrId s) as [b|] eqn:Hb.
      * bool_cases. rewrite wr_Some by lia. eexists. split; [done|].
        split; [by rewrite length_insert|]. intros a Ha. rewrite last_status_snoc. simpl. rewrite Hb.
        destruct (decide (Some b = Some a)) as [Heq|Hne].
        -- injection Heq as ->. by rewrite list_lookup_insert_eq by lia.
        -- rewrite list_lookup_insert_ne by congruence. by apply Hst.
      * eexists. split; [done|]. split; [done|]. intros a Ha.
        rewrite last_status_snoc. simpl. rewrite Hb. simpl. by apply Hst.
    + cbn [mbind option_bind]. eexists. split; [done|]. by split.
  - assert (∀ st, length st = n → foldM status_step st ps = None) as Hnone.
    { revert Hall. induction ps as [|[s on] ps IH]; intros Hall st Hst; [done|]. simpl in Hall.
      apply andb_false_iff in Hall. cbn [foldM].
      assert (status_step st (s, on) = match getAdIdFromAdStrId s with
        | None => Some st | Some b => wr b (negb on) st end) as -> by done.
      destruct (getAdIdFromAdStrId s) as [b|].
      - destruct (b <? n)%nat eqn:Hbn.
        + bool_cases. rewrite wr_Some by lia. cbn [mbind option_bind]. apply IH; [by destruct Hall|].
          by rewrite length_insert.
        + unfold wr. by rewrite Hst, Hbn.
      - cbn [mbind option_bind]. apply IH; [by destruct Hall|done]. }
    by rewrite Hnone.
Qed.
End budget_ops.
