(* ===== verification/SponsoredMining.v ===== *)
(** * [AdSponsoredMgr]: mining the ads and computing the bids ([AdSponsoredMgr.cpp], part 3)

    [miningAdCreatives] reads the documents [start_id .. end_id], turns their
    bid texts (or titles) into phrases and files them under campaigns;
    [resetDailyLogStatisticalData] computes the click through rates and the
    bids of the campaigns without manual prices, with the strategies of
    [AdBidStrategy.cpp].

    [boost::split] and [boost::lexical_cast<double>] are the class [AdText]. *)
From S2P Require Import Prelude CNum Env ManualBid AuctionLog AuctionStats Phrases Sponsored.
From S2P Require Import RealtimeBid UniformBid GeneticBid.

Class AdText := {
  split_any : string → string → list string;
  cast_double : string → option double }.

(** The property names the manager is configured with. *)
Record AdProps := Props {
  ad_title_prop_ : string; ad_bidphrase_prop_ : string; ad_campaign_prop_ : string }.

(** ** Bids of the campaigns *)

Section reset.
Context `{LexicalCast, TitlePCA, AdDocs, HashOrder}.
Context (rand : nat → Z).

Definition computeAdCTR (log : AdAuctionLogMgr) (adid : nat) : option double :=
  match getAdStrIdFromAdId adid with
  | None => Some d_zero
  | Some ad_strid => AuctionStats.getAdCTR log ad_strid
  end.

Definition statistical_entry (log : AdAuctionLogMgr)
    (bidkey_cpc_map : gmap string BidAuctionLandscapeT) (bidstr : string)
    : AdQueryStatisticInfo :=
  let l := default [] (bidkey_cpc_map !! bidstr) in
  QSInfo (map fst l) (map snd l) (getKeywordAvgDailyImpression log bidstr)
    LOWEST_CLICK_COST (-1).

Definition getBidStatisticalData (log : AdAuctionLogMgr) (bidstr_list : list string)
    (bidkey_cpc_map : gmap string BidAuctionLandscapeT) : list AdQueryStatisticInfo :=
  map (statistical_entry log bidkey_cpc_map) bidstr_list.

(** [bidkey_cpc_map[bidstr_list[i]] = cost_click_list[i]]. *)
Definition landscape_map (log : AdAuctionLogMgr) : gmap string BidAuctionLandscapeT :=
  let '(keys, lands) := getKeywordBidLandscape log in
  fold_left (λ m kl, <[kl.1 := kl.2]> m) (zip keys lands) ∅.

Definition left_ratio (now : tm) : double := d_div (d_of_Z (24 - tm_hour now)) (d_of_Z 24).

(** [(getBidBudget(name) - ad_budget_used_list_[i]) / left_ratio], cut. *)
Definition daily_budget (now : tm) (mb : AdManualBidInfoMgr) (used : list Z)
    (i : nat) (name : string) : option Z :=
  u ← used !! i;
  d_to_int (d_div (d_of_Z (i32 (getBidBudget mb name - u))) (left_ratio now)).

(** Bids of campaign [i] under [UniformBid]; none with manual prices. *)
Definition uniform_campaign (now : tm) (mb : AdManualBidInfoMgr) (log : AdAuctionLogMgr)
    (used : list Z) (phrases : list (list string)) (names : list string)
    (prices : list (list (Z * double))) (i : nat) : option (list (list (Z * double))) :=
  name ← names !! i;
  if hasManualBidPrice mb name then Some prices
  else
    ad_daily_budget ← daily_budget now mb used i name;
    bidstr_list ← phrases !! i;
    bids ← convexUniformBid (getBidStatisticalData log bidstr_list (landscape_map log))
             ad_daily_budget;
    wr i bids prices.

(** [new_bid_price_list[i][*bid_it] = bid_price_list[j]], [bid_it] the first. *)
Definition store_bid (bidstr_list : list string) (pm : gmap string Z) (b : Z)
    : option (gmap string Z) :=
  key ← head bidstr_list; Some (<[key := b]> pm).

(** Bids of campaign [i] under [GeneticBid].  The iterator over the texts is
    not advanced in the loop over the bids. *)
Definition genetic_campaign (now : tm) (mb : AdManualBidInfoMgr) (log : AdAuctionLogMgr)
    (used : list Z) (phrases : list (list string)) (names : list string)
    (prices : list (gmap string Z)) (i : nat) : RM (list (gmap string Z)) :=
  name ← lift (names !! i);
  if hasManualBidPrice mb name then mret prices
  else
    bidstr_list ← lift (phrases !! i);
    ad_daily_budget ← lift (daily_budget now mb used i name);
    bids ← geneticBid rand (getBidStatisticalData log bidstr_list (landscape_map log))
             ad_daily_budget;
    old ← lift (prices !! i);
    new ← lift (foldM (store_bid bidstr_list) old bids);
    lift (wr i new prices).

(** The three lists the recomputation produces, and the used budgets. *)
Record bid_tables := Tables {
  new_used : list Z;
  new_ctr_list : list double;
  new_bid_price_list : list (gmap string Z);
  new_uniform_bid_price_list : list (list (Z * double)) }.

(** [new_bidphrase_list] only matters through its length. *)
Definition compute_bids (now : tm) (reset_used : bool) (ad_num : nat)
    (names : list string) (phrases : list (list string)) (m : AdSponsoredMgr)
    : RM bid_tables :=
  let used := resize (length names) 0 (if reset_used then [] else ad_budget_used_list_ m) in
  let log := ad_log_mgr_ m in
  let mb := manual_bidinfo_mgr_ m in
  (* the loop leaves at the first campaign without phrases *)
  let campaigns := seq 0 (length names `min` length phrases) in
  ctrs ← lift (mapM (computeAdCTR log) (seq 0 ad_num));
  match bid_strategy_type_ m with
  | Sponsored.UniformBid =>
      u ← lift (foldM (uniform_campaign now mb log used phrases names)
                  (replicate (length names) []) campaigns);
      mret (Tables used ctrs [] u)
  | Sponsored.GeneticBid =>
      g ← rfold (genetic_campaign now mb log used phrases names)
            (replicate (length names) ∅) campaigns;
      mret (Tables used ctrs g [])
  | _ => mret (Tables used ctrs [] [])
  end.

Definition set_tables (t : bid_tables) (m : AdSponsoredMgr) : AdSponsoredMgr :=
  Mgr (ad_bidphrase_list_ m) (ad_orig_bidstr_list_ m) (ad_status_bitmap_ m) (new_ctr_list t)
    (keywords_ m) (new_used t) (ad_campaign_name_list_ m) (ad_campaign_name_id_list_ m)
    (ad_campaign_belong_list_ m) (ad_campaign_bid_phrase_list_ m) (ad_log_mgr_ m)
    (bid_strategy_type_ m) (new_bid_price_list t) (new_uniform_bid_price_list t)
    (manual_bidinfo_mgr_ m).

Definition resetDailyLogStatisticalData (now : tm) (reset_used : bool) (m : AdSponsoredMgr)
    : RM AdSponsoredMgr :=
  t ← compute_bids now reset_used (length (ad_bidphrase_list_ m))
        (ad_campaign_name_list_ m) (ad_campaign_bid_phrase_list_ m) m;
  mret (set_tables t m).
End reset.

(** ** Mining *)

Section mining.
Context `{LexicalCast, TitlePCA, AdDocs, HashOrder, AdText}.
Context (rand : nat → Z) (props : AdProps).

(** The [new_*] vectors, with the keyword tables and the manual prices. *)
Record mining := Mining {
  mn_bidphrase : list (list (list Z));
  mn_orig : list (list string);
  mn_kw : KeywordTable;
  mn_names : list string;
  mn_ids : gmap string nat;
  mn_belong : list nat;
  mn_phrases : list (list string);
  mn_manual : AdManualBidInfoMgr }.

(** [getPropertyValue] leaves [prop_value] as it is when it fails. *)
Definition read_prop (old : string) (i : nat) (name : string) : string :=
  default old (getPropertyValue i name).

(** The properties of document [i], in the order they are read: a missing
    one repeats the one before. *)
Definition ad_bidstr (i : nat) : string := read_prop EmptyString i (ad_bidphrase_prop_ props).
Definition ad_campaign_prop (i : nat) : string :=
  read_prop (ad_bidstr i) i (ad_campaign_prop_ props).
Definition ad_doc_strid (i : nat) : string := read_prop (ad_campaign_prop i) i "DOCID".
Definition ad_campaign (i : nat) : string :=
  if String.eqb (ad_campaign_prop i) EmptyString then ad_doc_strid i else ad_campaign_prop i.
Definition ad_price_str (i : nat) : string := read_prop (ad_doc_strid i) i "KeywordsPrice".
Definition ad_title (i : nat) : string := read_prop (ad_doc_strid i) i (ad_title_prop_ props).

Definition has_bidstr (i : nat) : bool := negb (String.eqb (ad_bidstr i) EmptyString).

(** A price in yuan as text; 0 when it is not a number. *)
Definition price_of (s : string) : option Z :=
  if String.eqb s EmptyString then Some 0
  else match cast_double s with
       | None => Some 0
       | Some d => d_to_int (d_mul d (d_of_Z 100))
       end.

(** The phrases of an ad with bid texts: ids, processed texts, prices. *)
Definition mine_text (st : list (list Z) * list string * list Z * KeywordTable)
    (sp : string * string) : option (list (list Z) * list string * list Z * KeywordTable) :=
  let '(phrases, processed, prices, t) := st in
  let '(ids, t) := generateBidPhrase sp.1 [] t in
  p ← price_of sp.2;
  Some (phrases ++ [ids], processed ++ [getBidPhraseStr t ids], prices ++ [p], t).

Definition price_texts (bidprice_str : string) (n : nat) : list string :=
  let l := if String.eqb bidprice_str EmptyString then [] else split_any "," bidprice_str in
  if negb (length l =? n)%nat then resize n EmptyString l else l.

(** The texts the phrases of ad [i] are made from. *)
Definition ad_texts (i : nat) : list string :=
  if has_bidstr i then split_any ",;" (ad_bidstr i) else [ad_title i].

(** Phrases, original texts, processed texts; the keyword tables and the
    manual prices after ad [i]. *)
Definition mine_ad_texts (i : nat) (kw : KeywordTable) (mb : AdManualBidInfoMgr)
    : option (list (list Z) * list string * list string * KeywordTable * AdManualBidInfoMgr) :=
  if has_bidstr i then
    let texts := split_any ",;" (ad_bidstr i) in
    '(phrases, processed, prices, t) ←
      foldM mine_text ([], [], [], kw)
        (zip texts (price_texts (ad_price_str i) (length texts)));
    mb ← (if negb (String.eqb (ad_price_str i) EmptyString)
          then setManualBidPrice (ad_campaign i) (Z.of_nat i) processed prices mb
          else Some mb);
    Some (phrases, texts, processed, t, mb)
  else
    let '(ids, t) := generateBidPhrase (ad_title i) [] kw in
    let text := getBidPhraseStr t ids in
    Some ([ids], [text], [text], t, mb).

(** The id of a campaign, new ones at the end. *)
Definition campaign_id_of (campaign : string) (names : list string) (ids : gmap string nat)
    : nat * list string * gmap string nat :=
  match ids !! campaign with
  | Some cid => (cid, names, ids)
  | None => (length names, names ++ [campaign], <[campaign := length names]> ids)
  end.

(** [if (n >= v.size()) v.resize(n + 1)]. *)
Definition grow {A} (n : nat) (x : A) (v : list A) : list A :=
  if (length v <=? n)%nat then resize (n + 1) x v else v.

Definition mine_campaign (i : nat) (processed : list string) (st : mining) : option mining :=
  let '(cid, names, ids) := campaign_id_of (ad_campaign i) (mn_names st) (mn_ids st) in
  belong ← wr i cid (grow i 0%nat (mn_belong st));
  let phrases := grow cid [] (mn_phrases st) in
  old ← phrases !! cid;
  phrases ← wr cid (sset_insert_all processed old) phrases;
  Some (Mining (mn_bidphrase st) (mn_orig st) (mn_kw st) names ids belong phrases
          (mn_manual st)).

(** One round of the loop over the documents. *)
Definition mine_ad (st : mining) (i : nat) : option mining :=
  '(phrases, orig, processed, kw, mb) ← mine_ad_texts i (mn_kw st) (mn_manual st);
  ph ← wr i phrases (mn_bidphrase st);
  og ← wr i orig (mn_orig st);
  mine_campaign i processed
    (Mining ph og kw (mn_names st) (mn_ids st) (mn_belong st) (mn_phrases st) mb).

(** The copies the loop starts from. *)
Definition mining_start (start_id end_id : nat) (m : AdSponsoredMgr) : mining :=
  let copy_num := (start_id `min` length (ad_bidphrase_list_ m))%nat in
  Mining (resize (end_id + 1) [] (take copy_num (ad_bidphrase_list_ m)))
    (resize (end_id + 1) [] (take copy_num (ad_orig_bidstr_list_ m)))
    (keywords_ m) (ad_campaign_name_list_ m) (ad_campaign_name_id_list_ m)
    (ad_campaign_belong_list_ m) (ad_campaign_bid_phrase_list_ m)
    (manual_bidinfo_mgr_ m).

Definition mining_end (end_id : nat) (st : mining) (t : bid_tables) (m : AdSponsoredMgr)
    : AdSponsoredMgr :=
  Mgr (mn_bidphrase st) (mn_orig st) (resize (end_id + 1) false (ad_status_bitmap_ m))
    (new_ctr_list t) (mn_kw st) (new_used t) (mn_names st) (mn_ids st) (mn_belong st)
    (mn_phrases st) (ad_log_mgr_ m) (bid_strategy_type_ m) (new_bid_price_list t)
    (new_uniform_bid_price_list t) (mn_manual st).

Definition miningAdCreatives (now : tm) (start_id end_id : nat) (m : AdSponsoredMgr)
    : RM AdSponsoredMgr :=
  st ← lift (foldM mine_ad (mining_start start_id end_id m)
               (seq start_id (end_id + 1 - start_id)));
  (* the manual prices set by the loop are those of the manager *)
  let m := set_manual (mn_manual st) m in
  t ← compute_bids rand now false (length (mn_bidphrase st)) (mn_names st) (mn_phrases st) m;
  mret (mining_end end_id st t m).
End mining.

(** ** Mining is sound *)

Section mining_proofs.
Context `{LexicalCastOk, TitlePCA, AdDocs, HashOrder, AdText}.
Context (rand : nat → Z) (props : AdProps).

(** The prices of ad [i] fit in an [int]. *)
Definition prices_ok (i : nat) : Prop :=
  ∀ p, p ∈ price_texts (ad_price_str props i) (length (ad_texts props i)) → price_of p ≠ None.

Lemma mine_text_loop_ok sps : ∀ pre phrases processed prices t,
  table_ok t → room t (tokens_total sps.*1) → stand_for t phrases pre →
  (∀ p, p ∈ sps.*2 → price_of p ≠ None) → length processed = length prices →
  ∃ phrases' prices' t',
    foldM mine_text (phrases, processed, prices, t) sps
      = Some (phrases', processed ++ map phrase_text sps.*1, prices', t') ∧
    table_ok t' ∧ table_ext t t' ∧
    (length (keyword_id_value_list_ t') ≤
     length (keyword_id_value_list_ t) + tokens_total sps.*1)%nat ∧
    stand_for t' phrases' (pre ++ sps.*1) ∧
    length (processed ++ map phrase_text sps.*1) = length prices'.
Proof.
  induction sps as [|[s p] sps IH]; intros pre phrases processed prices t Hok Hroom HF Hp Hl.
  { simpl. rewrite !app_nil_r. exists phrases, prices, t. split_and!; try done. lia. }
  rewrite !fmap_cons in *. cbn [fst snd] in *. rewrite tokens_total_cons in *.
  unfold room in Hroom. cbn [foldM map]. 
  assert (mine_text (phrases, processed, prices, t) (s, p)
    = let '(ids, t) := generateBidPhrase s [] t in
      q ← price_of p;
      Some (phrases ++ [ids], processed ++ [getBidPhraseStr t ids], prices ++ [q], t)) as -> by done.
  pose proof (stand_for_snoc t phrases pre s Hok) as Hs. unfold room in Hs.
  destruct (generateBidPhrase s [] t) as [ids t1].
  destruct Hs as (Hok1 & Hext1 & Hlen1 & HF1 & Htext); [lia|done|]. rewrite Htext.
  destruct (price_of p) as [pr|] eqn:Epr; [|by destruct (Hp p); [left|]].
  cbn [mbind option_bind].
  destruct (IH (pre ++ [s]) (phrases ++ [ids]) (processed ++ [phrase_text s]) (prices ++ [pr]) t1)
    as (phrases' & prices' & t' & E & Hok' & Hext' & Hlen' & HF' & Hl'); try done.
  { unfold room. lia. }
  { intros q Hq. apply Hp. by right. }
  { rewrite !length_app, Hl. done. }
  rewrite <- app_assoc in E, HF', Hl'. simpl in E, HF', Hl'.
  exists phrases', prices', t'. split_and!; [done|done|by etrans|lia|done|done].
Qed.

Lemma length_price_texts s n : length (price_texts s n) = n.
Proof.
  unfold price_texts. destruct (negb (_ =? n)%nat) eqn:E; [by rewrite length_resize|].
  by bool_cases.
Qed.

Lemma mine_ad_texts_ok i kw mb :
  table_ok kw → room kw (tokens_total (ad_texts props i)) → prices_ok i →
  ∃ phrases orig t mb',
    mine_ad_texts props i kw mb
      = Some (phrases, orig, map phrase_text (ad_texts props i), t, mb') ∧
    table_ok t ∧ table_ext kw t ∧
    (length (keyword_id_value_list_ t) ≤
     length (keyword_id_value_list_ kw) + tokens_total (ad_texts props i))%nat ∧
    stand_for t phrases (ad_texts props i) ∧
    orig = (if has_bidstr props i then ad_texts props i else map phrase_text (ad_texts props i)).
Proof.
  unfold prices_ok, ad_texts, mine_ad_texts. intros Hok Hroom Hp.
  destruct (has_bidstr props i).
  - set (texts := split_any _ _) in *. set (ps := price_texts _ _) in *.
    assert (length ps = length texts) as Hlps by apply length_price_texts.
    assert ((zip texts ps).*1 = texts) as Hf1 by (apply fst_zip; lia).
    assert ((zip texts ps).*2 = ps) as Hf2 by (apply snd_zip; lia).
    destruct (mine_text_loop_ok (zip texts ps) [] [] [] [] kw)
      as (phrases & prices & t & E & Hok' & Hext & Hlen & HF & Hl); rewrite ?Hf1, ?Hf2; try done;
      [constructor|].
    rewrite Hf1 in *. rewrite E. cbn [mbind option_bind app] in *.
    assert (∃ mb', (if negb (String.eqb (ad_price_str props i) EmptyString)
      then setManualBidPrice (ad_campaign props i) (Z.of_nat i) (map phrase_text texts) prices mb
      else Some mb) = Some mb') as (mb' & ->).
    { destruct (negb _); [|by exists mb].
      destruct (setManualBidPrice_get (ad_campaign props i) (Z.of_nat i) (map phrase_text texts)
        prices mb) as (mb' & ? & _); [lia|lia|by exists mb']. }
    cbn [mbind option_bind]. exists phrases, texts, t, mb'. by split_and!.
  - pose proof (stand_for_snoc kw [] [] (ad_title props i) Hok) as Hs.
    rewrite tokens_total_cons in Hroom. unfold room in *.
    destruct (generateBidPhrase _ [] kw) as [ids t].
    destruct Hs as (Hok' & Hext & Hlen & HF & Htext); [lia|constructor|]. rewrite Htext.
    exists [ids], [phrase_text (ad_title props i)], t, mb.
    split_and!; [done|done|done| |done|done]. rewrite tokens_total_cons. lia.
Qed.

(** *** Campaigns *)

Definition names_ok (names : list string) (ids : gmap string nat) : Prop :=
  ∀ name cid, ids !! name = Some cid ↔ names !! cid = Some name.

Lemma campaign_id_of_ok campaign names ids :
  names_ok names ids →
  let '(cid, names', ids') := campaign_id_of campaign names ids in
  names_ok names' ids' ∧ names `prefix_of` names' ∧ names' !! cid = Some campaign.
Proof.
  intros Hok. unfold campaign_id_of. destruct (ids !! campaign) as [cid|] eqn:E.
  { split_and!; [done|done|by apply Hok]. }
  split_and!; [|by exists [campaign]|by rewrite lookup_app_r, Nat.sub_diag by lia].
  intros name cid. destruct (decide (name = campaign)) as [->|Hne].
  - rewrite lookup_insert_eq. split.
    + intros [= <-]. by rewrite lookup_app_r, Nat.sub_diag by lia.
    + intros [Hl|[Hge Hl]]%lookup_app_Some.
      * apply Hok in Hl. congruence.
      * apply list_lookup_singleton_Some in Hl as [Hl _]. f_equal. lia.
  - rewrite lookup_insert_ne by done. rewrite (Hok name cid). split.
    + intros Hl. by apply lookup_app_l_Some.
    + intros [Hl|[Hge Hl]]%lookup_app_Some; [done|].
      apply list_lookup_singleton_Some in Hl as [_ ->]. done.
Qed.

Lemma length_grow {A} n (x : A) v : length (grow n x v) = Nat.max (length v) (n + 1).
Proof.
  unfold grow. destruct (length v <=? n)%nat eqn:E; bool_cases; [rewrite length_resize|]; lia.
Qed.

Lemma grow_lookup {A} n (x : A) v i y : v !! i = Some y → grow n x v !! i = Some y.
Proof.
  intros Hy. unfold grow. destruct (length v <=? n)%nat eqn:E; [|done]. bool_cases.
  apply lookup_lt_Some in Hy as Hl. rewrite lookup_resize by lia. done.
Qed.

Lemma grow_Forall {A} (P : A → Prop) n x v : P x → Forall P v → Forall P (grow n x v).
Proof.
  intros Hx Hv. unfold grow. destruct (_ <=? _)%nat; [|done]. by apply Forall_resize.
Qed.

(** Ad [i] belongs to its campaign, which knows all of [texts]. *)
Definition filed (i : nat) (texts : list string) (names : list string) (belong : list nat)
    (phrases : list (list string)) : Prop :=
  ∃ cid set, belong !! i = Some cid ∧ names !! cid = Some (ad_campaign props i) ∧
    phrases !! cid = Some set ∧ ∀ s, s ∈ texts → phrase_text s ∈ set.

Record files_ok (st : mining) : Prop := {
  files_names : names_ok (mn_names st) (mn_ids st);
  files_belong : Forall (λ cid, (cid < length (mn_names st))%nat) (mn_belong st);
  files_sets : Forall sset_ok (mn_phrases st) }.

Lemma mine_campaign_ok i texts st :
  files_ok st →
  ∃ st', mine_campaign props i (map phrase_text texts) st = Some st' ∧ files_ok st' ∧
    mn_bidphrase st' = mn_bidphrase st ∧ mn_orig st' = mn_orig st ∧ mn_kw st' = mn_kw st ∧
    mn_manual st' = mn_manual st ∧ mn_names st `prefix_of` mn_names st' ∧
    length (mn_belong st') = Nat.max (length (mn_belong st)) (i + 1) ∧
    filed i texts (mn_names st') (mn_belong st') (mn_phrases st') ∧
    (∀ j ts, j ≠ i → filed j ts (mn_names st) (mn_belong st) (mn_phrases st) →
       filed j ts (mn_names st') (mn_belong st') (mn_phrases st')).
Proof.
  intros [Hn Hb Hs]. unfold mine_campaign.
  pose proof (campaign_id_of_ok (ad_campaign props i) (mn_names st) (mn_ids st) Hn) as Hc.
  destruct (campaign_id_of _ _ _) as [[cid names'] ids']. destruct Hc as (Hn' & Hpre & Hcid).
  apply lookup_lt_Some in Hcid as Hcl.
  rewrite wr_Some by (rewrite length_grow; lia). cbn [mbind option_bind].
  set (phrases1 := grow cid [] (mn_phrases st)).
  assert (Forall sset_ok phrases1) as Hs1 by (apply grow_Forall; [constructor|done]).
  destruct (lookup_lt_is_Some_2 phrases1 cid) as [old Hold];
    [unfold phrases1; rewrite length_grow; lia|].
  rewrite Hold. cbn [mbind option_bind]. apply lookup_lt_Some in Hold as Hlt.
  rewrite wr_Some by done. cbn [mbind option_bind].
  eexists. split; [done|]. split_and!; simpl; try done.
  - split; simpl; [done| |].
    + apply Forall_insert; [|done]. apply grow_Forall; [lia|].
      eapply Forall_impl; [exact Hb|]. intros c Hc. apply prefix_length in Hpre. simpl in *. lia.
    + apply Forall_insert; [done|]. apply sset_insert_all_ok.
      rewrite Forall_lookup in Hs1. by eapply Hs1.
  - rewrite length_insert, length_grow. done.
  - exists cid, (sset_insert_all (map phrase_text texts) old).
    rewrite !list_lookup_insert_eq by (done || (rewrite length_grow; lia)).
    split_and!; [done|done|done|]. intros s Hin. apply elem_of_sset_insert_all. left.
    by apply list_elem_of_fmap_2.
  - intros j ts Hji (c & set & Hj & Hnm & Hset & Hts).
    assert (phrases1 !! c = Some set) as Hset1 by (by apply grow_lookup).
    destruct (decide (c = cid)) as [->|Hne].
    + exists cid, (sset_insert_all (map phrase_text texts) old). simplify_eq.
      rewrite list_lookup_insert_ne, list_lookup_insert_eq by done.
      split_and!; [by apply grow_lookup|by eapply prefix_lookup_Some|done|].
      intros s Hin. apply elem_of_sset_insert_all. right. by apply Hts.
    + exists c, set. rewrite !list_lookup_insert_ne by done.
      split_and!; [by apply grow_lookup|by eapply prefix_lookup_Some|done|done].
Qed.

(** *** The loop *)

Definition orig_texts (i : nat) : list string :=
  if has_bidstr props i then ad_texts props i else map phrase_text (ad_texts props i).

(** The tokens of the ads [k .. end_id]. *)
Definition tokens_from (k end_id : nat) : nat :=
  tokens_total (concat (map (ad_texts props) (seq k (end_id + 1 - k)))).

Lemma tokens_from_S k end_id :
  (k ≤ end_id)%nat →
  tokens_from k end_id = (tokens_total (ad_texts props k) + tokens_from (S k) end_id)%nat.
Proof.
  intros Hk. unfold tokens_from. replace (end_id + 1 - k)%nat with (S (end_id + 1 - S k)) by lia.
  simpl. unfold tokens_total. by rewrite sum_list_with_app.
Qed.

(** What mining has made of ad [i]. *)
Definition mined (i : nat) (st : mining) : Prop :=
  ∃ phrases, mn_bidphrase st !! i = Some phrases ∧ mn_orig st !! i = Some (orig_texts i) ∧
    stand_for (mn_kw st) phrases (ad_texts props i) ∧
    filed i (ad_texts props i) (mn_names st) (mn_belong st) (mn_phrases st).

(** The ads [start .. k-1] are mined, the others as in [st0]. *)
Record mine_inv (st0 : mining) (start end_id k : nat) (st : mining) : Prop := {
  mi_table : table_ok (mn_kw st);
  mi_ext : table_ext (mn_kw st0) (mn_kw st);
  mi_room : room (mn_kw st) (tokens_from k end_id);
  mi_len : length (mn_bidphrase st) = (end_id + 1)%nat;
  mi_align : Forall2 (λ ph og, length ph = length og) (mn_bidphrase st) (mn_orig st);
  mi_ids : Forall (Forall (Forall (λ id, ∃ w, knows (mn_kw st) id w))) (mn_bidphrase st);
  mi_files : files_ok st;
  mi_names : mn_names st0 `prefix_of` mn_names st;
  mi_belong : (start < k)%nat → (k ≤ length (mn_belong st))%nat;
  mi_new : ∀ i, (start ≤ i < k)%nat → mined i st;
  mi_old : ∀ i, (i < start ∨ k ≤ i)%nat →
    mn_bidphrase st !! i = mn_bidphrase st0 !! i ∧ mn_orig st !! i = mn_orig st0 !! i }.

Lemma mine_ad_inv st0 start end_id k st :
  mine_inv st0 start end_id k st → (start ≤ k ≤ end_id)%nat → prices_ok k →
  ∃ st', mine_ad props st k = Some st' ∧ mine_inv st0 start end_id (S k) st'.
Proof.
  intros [Htab Hext Hroom Hlen Hal Hids Hfiles Hnames Hbel Hnew Hold] Hk Hp.
  rewrite tokens_from_S in Hroom by lia. unfold room in Hroom.
  destruct (mine_ad_texts_ok k (mn_kw st) (mn_manual st) Htab)
    as (phrases & orig & t & mb & E & Htab1 & Hext1 & Hlen1 & Hst & Horig); [unfold room; lia|done|].
  change (if has_bidstr props k then _ else _) with (orig_texts k) in Horig. subst orig.
  unfold mine_ad. rewrite E. cbn [mbind option_bind].
  pose proof (Forall2_length _ _ _ Hal) as Hlo.
  rewrite !wr_Some by lia. cbn [mbind option_bind].
  set (st1 := Mining _ _ _ _ _ _ _ _).
  destruct (mine_campaign_ok k (ad_texts props k) st1) as
    (st' & -> & Hfiles' & Hph & Hog & Hkw & _ & Hnames' & Hbel' & Hfiled & Hkeep).
  { by destruct Hfiles. }
  exists st'. split; [done|]. subst st1. simpl in *.
  assert (∀ i, i ≠ k → mn_bidphrase st' !! i = mn_bidphrase st !! i ∧
    mn_orig st' !! i = mn_orig st !! i) as Hne.
  { intros i Hi. by rewrite Hph, Hog, !list_lookup_insert_ne by done. }
  split.
  - by rewrite Hkw.
  - rewrite Hkw. by etrans.
  - rewrite Hkw. unfold room. lia.
  - by rewrite Hph, length_insert.
  - rewrite Hph, Hog. apply Forall2_insert; [done|]. apply Forall2_length in Hst. rewrite Hst.
    unfold orig_texts. destruct (has_bidstr props k); [done|by rewrite length_map].
  - rewrite Hph, Hkw. apply Forall_insert; [by eapply ids_ext|by eapply stand_for_ids].
  - done.
  - by etrans.
  - intros _. rewrite Hbel'. lia.
  - intros i Hi. destruct (decide (i = k)) as [->|Hik].
    + exists phrases. rewrite Hph, Hog, Hkw, !list_lookup_insert_eq by lia. by split_and!.
    + destruct (Hnew i ltac:(lia)) as (ph & H1' & H2' & H3' & H4').
      exists ph. destruct (Hne i Hik) as [-> ->]. rewrite Hkw.
      split_and!; [done|done|by eapply stand_for_ext|by apply Hkeep].
  - intros i Hi. destruct (Hne i ltac:(lia)) as [-> ->]. apply Hold. lia.
Qed.

Lemma mining_start_inv start end_id m :
  mgr_ok m → room (keywords_ m) (tokens_from start end_id) →
  mine_inv (mining_start start end_id m) start end_id start (mining_start start end_id m).
Proof.
  intros [H1' H2' H3' H4' H5' H6' H7'] Hroom. split; simpl; try done.
  - by rewrite length_resize.
  - apply Forall2_resize; [done|]. by apply Forall2_take.
  - apply Forall_resize; [constructor|]. by apply Forall_take.
  - intros; lia.
  - intros; lia.
Qed.

Lemma mining_loop_ok start end_id st0 n : ∀ k st,
  mine_inv st0 start end_id k st → (start ≤ k)%nat → (k + n = end_id + 1)%nat →
  (∀ i, (k ≤ i ≤ end_id)%nat → prices_ok i) →
  ∃ st', foldM (mine_ad props) st (seq k n) = Some st' ∧
    mine_inv st0 start end_id (end_id + 1) st'.
Proof.
  induction n as [|n IH]; intros k st Hinv Hk Hn Hp.
  { exists st. split; [done|]. by replace (end_id + 1)%nat with k by lia. }
  destruct (mine_ad_inv st0 start end_id k st Hinv) as (st1 & E & Hinv1); [lia|apply Hp; lia|].
  cbn [seq foldM]. rewrite E. cbn [mbind option_bind].
  apply IH; [done|lia|lia|]. intros i Hi. apply Hp. lia.
Qed.

(** C4: [miningAdCreatives] on ads [start_id .. end_id]: every ad in the range
    gets bid phrases that stand for its texts (its bid strings, or its title),
    belongs to the campaign of its property (or of its own id) and its texts
    are filed under that campaign; campaigns keep their numbers, and the
    tables swapped in satisfy the invariant of the manager. *)
Theorem miningAdCreatives_spec now start_id end_id m :
  mgr_ok m → (start_id ≤ end_id)%nat →
  (∀ i, (start_id ≤ i ≤ end_id)%nat → prices_ok i) →
  room (keywords_ m) (tokens_from start_id end_id) →
  ∃ st,
    (∀ n, miningAdCreatives rand props now start_id end_id m n
      = match compute_bids rand now false (end_id + 1) (mn_names st) (mn_phrases st)
                (set_manual (mn_manual st) m) n with
        | Some (t, n') => Some (mining_end end_id st t m, n')
        | None => None
        end) ∧
    mn_names (mining_start start_id end_id m) `prefix_of` mn_names st ∧
    (∀ i, (start_id ≤ i ≤ end_id)%nat → mined i st) ∧
    (∀ t, mgr_ok (mining_end end_id st t m)) ∧
    (∀ i ph og, (i < start_id)%nat → ad_bidphrase_list_ m !! i = Some ph →
       ad_orig_bidstr_list_ m !! i = Some og →
       mn_bidphrase st !! i = Some ph ∧ mn_orig st !! i = Some og).
Proof.
  intros Hm Hse Hp Hroom.
  destruct (mining_loop_ok start_id end_id _ (end_id + 1 - start_id) start_id _
    (mining_start_inv start_id end_id m Hm Hroom)) as (st & E & Hinv); [lia|lia|done|].
  exists st. destruct Hinv as [Htab Hext Hroom' Hlen Hal Hids [Hfn Hfb Hfs] Hnames Hbel Hnew Hold].
  split_and!.
  - intros n. unfold miningAdCreatives. rewrite E, bind_lift, Hlen.
    unfold mbind, RM_bind, mret, RM_ret. by destruct (compute_bids _ _ _ _ _ _ _ n) as [[t n']|].
  - done.
  - intros i Hi. apply Hnew. lia.
  - intros t. split; simpl; try done. rewrite Hlen. apply Hbel. lia.
  - intros i ph og Hi Hph Hog. destruct (Hold i) as [-> ->]; [by left|]. simpl.
    apply lookup_lt_Some in Hph as Hl.
    pose proof (Forall2_length _ _ _ (mgr_align m Hm)) as Hlo.
    rewrite !lookup_resize by (rewrite ?length_take; lia).
    by rewrite !lookup_take_lt by lia.
Qed.
End mining_proofs.

(** ** The bid tables *)

Section reset_proofs.
Context `{LexicalCast, TitlePCA, AdDocs, HashOrder}.
Context (rand : nat → Z).

(** What campaign [i] is given by the uniform strategy. *)
Definition uniform_entry (now : tm) (m : AdSponsoredMgr) (used : list Z)
    (i : nat) (name : string) (set : list string) (bids : list (Z * double)) : Prop :=
  if hasManualBidPrice (manual_bidinfo_mgr_ m) name then bids = []
  else ∃ B, daily_budget now (manual_bidinfo_mgr_ m) used i name = Some B ∧
    convexUniformBid (getBidStatisticalData (ad_log_mgr_ m) set (landscape_map (ad_log_mgr_ m))) B
    = Some bids.

(** Under the uniform strategy [resetDailyLogStatisticalData] gives every
    campaign without manual prices the bids of [convexUniformBid] on its
    statistics and the budget left scaled to the day, manual campaigns none,
    and every ad its click-through rate. *)
Theorem compute_bids_uniform now (reset_used : bool) ad_num names phrases m n ctrs :
  let used := resize (length names) 0 (if reset_used then [] else ad_budget_used_list_ m) in
  bid_strategy_type_ m = Sponsored.UniformBid → length names = length phrases →
  mapM (computeAdCTR (ad_log_mgr_ m)) (seq 0 ad_num) = Some ctrs →
  (∀ i name set, names !! i = Some name → phrases !! i = Some set →
     ∃ bids, uniform_entry now m used i name set bids) →
  ∃ t, compute_bids rand now reset_used ad_num names phrases m n = Some (t, n) ∧
    new_used t = used ∧ new_ctr_list t = ctrs ∧ new_bid_price_list t = [] ∧
    length (new_uniform_bid_price_list t) = length names ∧
    ∀ i name set, names !! i = Some name → phrases !! i = Some set →
      ∃ bids, new_uniform_bid_price_list t !! i = Some bids ∧
        uniform_entry now m used i name set bids.
Proof.
  intros used Htype Hlen Hctr Hall. unfold compute_bids. rewrite Hctr, bind_lift, Htype.
  fold used. rewrite <- Hlen, Nat.min_id.
  match goal with |- context [foldM ?f ?b ?l] =>
    destruct (foldM_inv (λ pre prices, length prices = length names ∧
      (∀ i, i ∉ pre → (i < length names)%nat → prices !! i = Some []) ∧
      ∀ i name set, i ∈ pre → names !! i = Some name → phrases !! i = Some set →
        ∃ bids, prices !! i = Some bids ∧ uniform_entry now m used i name set bids) f l b)
      as (prices & Hp & Hl & _ & Hent) end.
  - split_and!; [by rewrite length_replicate| |by intros ??? []%not_elem_of_nil].
    intros i _ Hi. by apply lookup_replicate_2.
  - intros pre i prices (Hl & Hrest & Hdone) (suf & Hsuf).
    assert (i ∈ seq 0 (length names)) as Hin%elem_of_seq by (rewrite Hsuf; set_solver).
    assert (i ∉ pre) as Hnin.
    { pose proof (NoDup_seq 0 (length names)) as Hnd. rewrite Hsuf in Hnd.
      apply NoDup_app in Hnd as (_ & Hnd & _). intros Hx. apply (Hnd i Hx). by left. }
    destruct (lookup_lt_is_Some_2 names i) as [name Hname]; [lia|].
    destruct (lookup_lt_is_Some_2 phrases i) as [set Hset]; [lia|].
    destruct (Hall i name set Hname Hset) as (bids & Hb).
    unfold uniform_campaign. rewrite Hname. cbn [mbind option_bind].
    unfold uniform_entry in Hb. destruct (hasManualBidPrice _ name) eqn:Hman.
    + exists prices. split; [done|]. split_and!; [done|set_solver|].
      intros j nm st [Hj|Hj%list_elem_of_singleton]%elem_of_app; [by apply Hdone|]. subst j.
      intros Hnm Hst. exists []. split; [apply Hrest; [done|lia]|].
      unfold uniform_entry. simplify_eq. by rewrite Hman.
    + destruct Hb as (B & HB & Hbids). rewrite HB. cbn [mbind option_bind].
      rewrite Hset. cbn [mbind option_bind]. rewrite Hbids. cbn [mbind option_bind].
      rewrite wr_Some by lia. eexists. split; [done|]. split_and!.
      * by rewrite length_insert.
      * intros j Hj Hjl. rewrite list_lookup_insert_ne by set_solver. apply Hrest; [set_solver|done].
      * intros j nm st [Hj|Hj%list_elem_of_singleton]%elem_of_app Hnm Hst.
        -- rewrite list_lookup_insert_ne by set_solver. by apply Hdone.
        -- subst j. exists bids. rewrite list_lookup_insert_eq by lia. split; [done|].
           unfold uniform_entry. simplify_eq. rewrite Hman. eauto.
  - rewrite Hp, bind_lift. eexists. split; [done|]. split_and!; try done.
    intros i name set Hn Hs. apply Hent; [|done|done].
    apply elem_of_seq. apply lookup_lt_Some in Hn. lia.
Qed.

(** Under the genetic strategy only the first text of a campaign gets a
    price, the bid computed for the last one. *)
Theorem genetic_campaign_first_only now mb log used phrases names prices i n name key rest B bids n' old :
  names !! i = Some name → hasManualBidPrice mb name = false →
  phrases !! i = Some (key :: rest) → daily_budget now mb used i name = Some B →
  geneticBid rand (getBidStatisticalData log (key :: rest) (landscape_map log)) B n = Some (bids, n') →
  prices !! i = Some old →
  ∃ prices', genetic_campaign rand now mb log used phrases names prices i n = Some (prices', n') ∧
    prices' !! i = Some (match last bids with Some b => <[key := b]> old | None => old end) ∧
    ∀ pm k, prices' !! i = Some pm → k ≠ key → pm !! k = old !! k.
Proof.
  intros Hname Hman Hph HB Hbids Hold. apply lookup_lt_Some in Hold as Hl.
  unfold genetic_campaign. rewrite Hname, bind_lift, Hman, Hph, bind_lift, HB, bind_lift.
  unfold mbind at 1, RM_bind at 1. rewrite Hbids. rewrite Hold, bind_lift.
  assert (foldM (store_bid (key :: rest)) old bids
    = Some (match last bids with Some b => <[key := b]> old | None => old end)) as ->.
  { clear. induction bids as [|b bids IH] using rev_ind; [done|].
    rewrite foldM_app, IH, last_snoc. simpl. f_equal. destruct (last bids); [|done].
    apply insert_insert_eq. }
  rewrite bind_lift, wr_Some by done. eexists. split; [done|].
  rewrite list_lookup_insert_eq by done. split; [done|]. intros pm k [= <-] Hk.
  destruct (last bids); [|done]. by rewrite lookup_insert_ne by done.
Qed.
End reset_proofs.
