(* ===== verification/SponsoredSearch.v ===== *)
(** * [AdSponsoredMgr::sponsoredAdSearch] ([AdSponsoredMgr.cpp], part 4)

    The auction: the query is cut into bid keywords, the candidate ads come
    from the search engine, the ads with a phrase inside the query, a budget
    and a score compete for at most [MAX_RANKED_AD_NUM] places, each place is
    charged by the score of the next one, and the impressions are logged.

    Parameters: the search engine ([AdSearchService::search], called with the
    rewritten query), [rand()], [pow], the epsilon of [score_t], and the queue
    ([izenelib::util::PriorityQueue]), used through the operations of
    [QueueSpec.PQOps] and proved against [QueueSpec.BoundedPQ]. *)
From S2P Require Import Prelude CNum QueueSpec HitQueue Env ManualBid AuctionLog AuctionStats.
From S2P Require Import RealtimeBid UniformBid GeneticBid Phrases Sponsored.

Definition MAX_RANKED_AD_NUM : nat := 20.
Definition MIN_AD_SCORE : double := d_lit 1 6.

Record ScoreSponsoredAdDoc := ScoreDoc {
  docId : nat; score : double; qscore : double;
  hit_bidstr : string; hit_orig_bidstr : string }.

(** The part of [AdKeywordSearchResult] the search writes. *)
Record AdSearchResult := AdResult {
  totalCount_ : nat;
  topKDocs_ : list nat;
  topKRankScoreList_ : list double;
  topKAdCost_ : list double;
  topKAdBidStrList_ : list string }.

(** ** Matching phrases *)

(** [query_kid_list] and [modified_query]. *)
Definition query_kids (t : KeywordTable) (words : list string) : list Z * string :=
  fold_left (λ '(kids, q) w,
    match getBidKeywordIdFromStr t w with
    | Some id => (kids ++ [id], String.append q (String.append w space))
    | None => (kids, q)
    end) words ([], EmptyString).

(** The sorted ids as a range and a bitset over the range. *)
Record kid_set := KidSet { first_kid : Z; last_kid : Z; hit_set : list bool }.

Definition make_kid_set (kids : list Z) : option kid_set :=
  let kids := std_sort Z.ltb kids in
  first ← head kids;
  last ← last kids;
  bits ← foldM (λ bits k, wr (Z.to_nat (k - first)) true bits)
           (replicate (Z.to_nat (last - first + 1)) false) kids;
  Some (KidSet first last bits).

Definition kid_missed (s : kid_set) (id : Z) : bool :=
  (id <? first_kid s) || (last_kid s <? id) ||
  negb (default false (hit_set s !! Z.to_nat (id - first_kid s))).

(** The loop over the phrases: the first longest one that is not missed. *)
Definition match_step (s : kid_set) (st : option nat * nat) (jp : nat * list Z)
    : option nat * nat :=
  if (length jp.2 <=? st.2)%nat then st
  else if existsb (kid_missed s) jp.2 then st else (Some jp.1, length jp.2).

Definition best_match (s : kid_set) (phrases : list (list Z)) : option nat :=
  (fold_left (match_step s) (imap pair phrases) (None, 0%nat)).1.

Section search.
Context `{LexicalCast, TitlePCA, AdDocs}.
Context (rand : nat → Z) (c_pow : double → double → double) (score_epsilon : double).

Definition lessThan : ScoreSponsoredAdDoc → ScoreSponsoredAdDoc → bool :=
  near_lt score_epsilon score (id_tie docId).

(** ** The bid of an ad *)

(** [if (r <= possible) { price = tmp; return; }] over the two bids. *)
Fixpoint pick_bid (r : Z) (possible price : Z) (bid_list : list (Z * double)) : option Z :=
  match bid_list with
  | [] => Some price
  | (tmp, p) :: bid_list =>
      d ← d_to_int (d_mul p (d_of_Z 10000));
      let possible := i32 (possible + d) in
      if r <=? possible then Some tmp else pick_bid r possible price bid_list
  end.

Definition realtime_price (now : tm) (m : AdSponsoredMgr) (campaign_id : nat)
    (hit : string) (price : Z) : option Z :=
  match ad_budget_used_list_ m !! campaign_id, ad_campaign_name_list_ m !! campaign_id with
  | Some used_budget, Some name =>
      let left_budget := i32 (getBidBudget (manual_bidinfo_mgr_ m) name - used_budget) in
      let current_impression := getKeywordCurrentImpression now (ad_log_mgr_ m) hit in
      let '(impression, cpc, ctr) := getKeywordStatData (ad_log_mgr_ m) hit in
      let info := QSInfo cpc ctr (i32 (impression - current_impression)) LOWEST_CLICK_COST (-1) in
      tmp_price ← realtimeBidWithRevenueMax c_pow info used_budget left_budget 1000;
      Some (if price <? tmp_price then tmp_price else price)
  | _, _ => Some price
  end.

Definition getAdBidPrice (now : tm) (m : AdSponsoredMgr) (adid : nat) (hit : string) : RM Z :=
  match ad_campaign_belong_list_ m !! adid with
  | None => mret 0
  | Some campaign_id =>
      campaign_name ← lift (ad_campaign_name_list_ m !! campaign_id);
      let price := getManualBidPrice (manual_bidinfo_mgr_ m) campaign_name (Z.of_nat adid) hit in
      if 0 <? price then mret price
      else match bid_strategy_type_ m with
      | Sponsored.RealtimeBid =>
          if (length (ad_bidphrase_list_ m) <=? adid)%nat then mret price
          else lift (realtime_price now m campaign_id hit price)
      | Sponsored.UniformBid =>
          r ← rand_mod rand 10000;
          match ad_uniform_bid_price_list_ m !! campaign_id with
          | None => mret price
          | Some bid_list => lift (pick_bid r 0 price bid_list)
          end
      | Sponsored.GeneticBid =>
          match ad_bid_price_list_ m !! campaign_id with
          | None => mret price
          | Some bid_list =>
              if (length (ad_bidphrase_list_ m) <=? adid)%nat then mret price
              else mret (default price (bid_list !! hit))
          end
      | Unknown => mret price
      end
  end.

Definition getAdQualityScore (m : AdSponsoredMgr) (adid : nat) (bidphrase : list Z) : double :=
  d_mul (Sponsored.getAdCTR m adid) (d_of_Z (Z.of_nat (length bidphrase))).

(** ** Scoring one candidate *)

(** The position of the phrase an ad competes with: on line, mined, and a
    phrase inside the query. *)
Definition candidate_phrase (m : AdSponsoredMgr) (s : kid_set) (d : nat) : option (option nat) :=
  offline ← ad_status_bitmap_ m !! d;
  if (offline : bool) then Some None
  else match ad_bidphrase_list_ m !! d with
       | None => Some None
       | Some phrases => Some (best_match s phrases)
       end.

Definition score_ad (now : tm) (m : AdSponsoredMgr) (d j : nat) : RM ScoreSponsoredAdDoc :=
  orig ← lift (texts ← ad_orig_bidstr_list_ m !! d; texts !! j);
  phrase ← lift (phrases ← ad_bidphrase_list_ m !! d; phrases !! j);
  let hit := getBidPhraseStr (keywords_ m) phrase in
  bidprice ← getAdBidPrice now m d hit;
  let bidprice := Z.max LOWEST_CLICK_COST bidprice in
  let q := getAdQualityScore m d phrase in
  mret (ScoreDoc d (d_mul (d_of_Z bidprice) q) q hit orig).

Context {Q : Type} {Ops : PQOps ScoreSponsoredAdDoc Q}.

Definition consider_ad (now : tm) (m : AdSponsoredMgr) (s : kid_set) (q : Q) (d : nat) : RM Q :=
  c ← lift (candidate_phrase m s d);
  match c with
  | None => mret q
  | Some j =>
      leftbudget ← lift (getBudgetLeft m d);
      if 0 <? leftbudget then
        item ← score_ad now m d j;
        if d_gt (score item) MIN_AD_SCORE then
          r ← lift (q_insert item q);
          mret r.2
        else mret q
      else mret q
  end.

(** ** The result *)

Definition per_yuan (c : double) : double := d_div c (d_of_Z 100).

(** The cost of a click on [x], [next] being the score of the place below. *)
Definition click_cost (next : option double) (x : ScoreSponsoredAdDoc) : double :=
  match next with
  | None => per_yuan (d_stdmax (d_of_Z LOWEST_CLICK_COST) (d_div (score x) (qscore x)))
  | Some next => per_yuan (d_add (d_of_Z LOWEST_CLICK_COST) (d_div next (qscore x)))
  end.

(** The costs of the popped items, worst first. *)
Fixpoint fill_costs (next : option double) (popped : list ScoreSponsoredAdDoc) : list double :=
  match popped with
  | [] => []
  | x :: popped => click_cost next x :: fill_costs (Some (score x)) popped
  end.

(** [std::vector::resize] of a result that is not an ad result. *)
Definition cut_result (count : nat) (res : AdSearchResult) : AdSearchResult :=
  AdResult (totalCount_ res) (resize count 0%nat (topKDocs_ res))
    (resize count d_zero (topKRankScoreList_ res)) (topKAdCost_ res) (topKAdBidStrList_ res).

Definition fill_result (popped : list ScoreSponsoredAdDoc) : AdSearchResult :=
  AdResult (length popped) (reverse (map docId popped)) (reverse (map score popped))
    (reverse (fill_costs None popped)) (reverse (map hit_orig_bidstr popped)).

Definition ad_strid (x : ScoreSponsoredAdDoc) : string :=
  default EmptyString (getAdStrIdFromAdId (docId x)).

(** [ad_searcher] is [ad_searcher_->search], [None] when there is none;
    [is_ad_result] whether the result is an [AdKeywordSearchResult]. *)
Definition sponsoredAdSearch (now : tm) (ad_searcher : option (string → AdSearchResult))
    (is_ad_result : bool) (query : string) (res : AdSearchResult) (m : AdSponsoredMgr)
    : RM (bool * AdSearchResult * AdSponsoredMgr) :=
  match ad_searcher with
  | None => mret (false, res, m)
  | Some search =>
      let '(kids, modified_query) := query_kids (keywords_ m) (generateBidPhrase_str query) in
      match kids with
      | [] => mret (true, AdResult 0 [] [] (topKAdCost_ res) (topKAdBidStrList_ res), m)
      | _ =>
          let res := search modified_query in
          s ← lift (make_kid_set kids);
          q ← rfold (consider_ad now m s) (q_new MAX_RANKED_AD_NUM) (topKDocs_ res);
          let count := q_size q in
          if (is_ad_result : bool) then
            popped ← lift (q_drain count q);
            let viewed := sset_insert_all (map hit_bidstr popped) [] in
            let log := updateAdSearchStat now viewed (reverse (map ad_strid popped))
                         (ad_log_mgr_ m) in
            mret (true, fill_result popped, set_log log m)
          else mret (false, cut_result count res, m)
      end
  end.
End search.

(** ** The keyword set *)

#[export] Instance ltb_strict_weak : StrictWeakOn (λ _ : Z, True) Z.ltb.
Proof. split; intros; lia. Qed.

Lemma sorted_head_last (l : list Z) :
  l ≠ [] → ∃ a b, head (std_sort Z.ltb l) = Some a ∧ last (std_sort Z.ltb l) = Some b ∧
    ∀ x, x ∈ l → a ≤ x ≤ b.
Proof.
  intros Hne. pose proof (std_sort_sorted (λ _, True) Z.ltb l) as Hs.
  pose proof (std_sort_perm Z.ltb l) as Hp.
  assert (sorted_by Z.ltb (std_sort Z.ltb l)) as Hsort by (apply Hs, Forall_true; done). clear Hs.
  assert (∀ k : list Z, k ≠ [] → sorted_by Z.ltb k →
    ∃ a b, head k = Some a ∧ last k = Some b ∧ ∀ x, x ∈ k → a ≤ x ≤ b) as Hgen.
  { clear. induction k as [|a k IH]; intros Hne Hs; [done|].
    inversion_clear Hs as [|?? Hk Ha]. rewrite Forall_forall in Ha.
    destruct k as [|c k].
    - exists a, a. split_and!; [done|done|]. intros x ->%list_elem_of_singleton. lia.
    - destruct (IH ltac:(done) Hk) as (a' & b & Hh & Hl & Hx). exists a, b.
      split_and!; [done|by rewrite last_cons_cons|]. intros x [->|Hin]%elem_of_cons.
      + pose proof (Ha c ltac:(left)). pose proof (Hx c ltac:(left)). lia.
      + pose proof (Hx x Hin). pose proof (Ha x Hin). lia. }
  destruct (Hgen (std_sort Z.ltb l)) as (a & b & Hh & Hl & Hx); [|done|].
  { intros E. rewrite E in Hp. by apply Permutation_nil_l in Hp. }
  exists a, b. split_and!; [done|done|]. intros x Hin. apply Hx. by rewrite Hp.
Qed.

Lemma make_kid_set_ok kids :
  kids ≠ [] →
  ∃ s, make_kid_set kids = Some s ∧ ∀ id, kid_missed s id = bool_decide (id ∉ kids).
Proof.
  intros Hne. destruct (sorted_head_last kids Hne) as (a & b & Hh & Hl & Hab).
  unfold make_kid_set. rewrite Hh, Hl. cbn [mbind option_bind].
  set (sorted := std_sort Z.ltb kids). set (N := Z.to_nat (b - a + 1)).
  assert (∀ x, x ∈ sorted ↔ x ∈ kids) as Hin by (intros x; apply elem_of_std_sort).
  destruct (foldM_inv (λ pre bits, length bits = N ∧ ∀ i, (i < N)%nat →
      bits !! i = Some (bool_decide (a + Z.of_nat i ∈ pre)))
    (λ bits k, wr (Z.to_nat (k - a)) true bits) sorted (replicate N false))
    as (bits & -> & Hlen & Hbits).
  - split; [by rewrite length_replicate|]. intros i Hi. rewrite lookup_replicate_2 by done.
    by rewrite bool_decide_eq_false_2 by apply not_elem_of_nil.
  - intros pre k bits [Hlen Hbits] (suf & Hsuf).
    assert (a ≤ k ≤ b) as Hk.
    { apply Hab, Hin. rewrite Hsuf. set_solver. }
    rewrite wr_Some by lia. eexists. split; [done|]. split; [by rewrite length_insert|].
    intros i Hi. destruct (decide (i = Z.to_nat (k - a))) as [->|Hne'].
    + rewrite list_lookup_insert_eq by lia. rewrite bool_decide_eq_true_2; [done|].
      rewrite Z2Nat.id by lia. replace (a + (k - a)) with k by lia. set_solver.
    + rewrite list_lookup_insert_ne by done. rewrite Hbits by done. f_equal.
      apply bool_decide_ext. rewrite elem_of_app, list_elem_of_singleton.
      split; [by left|]. intros [?|E]; [done|]. exfalso. lia.
  - cbn [mbind option_bind]. eexists. split; [done|]. intros id. unfold kid_missed. simpl.
    destruct (id <? a) eqn:E1; simpl; [|destruct (b <? id) eqn:E2; simpl].
    + bool_cases. symmetry. apply bool_decide_eq_true_2. intros Hx%Hab. lia.
    + bool_cases. symmetry. apply bool_decide_eq_true_2. intros Hx%Hab. lia.
    + bool_cases. rewrite Hbits by lia. simpl. rewrite Z2Nat.id by lia.
      replace (a + (id - a)) with id by lia.
      destruct (decide (id ∈ kids)) as [Hid|Hid].
      * rewrite (bool_decide_eq_true_2 (id ∈ sorted)) by (by apply Hin).
        by rewrite bool_decide_eq_false_2 by (intros Hx; by apply Hx).
      * rewrite (bool_decide_eq_false_2 (id ∈ sorted)) by (by rewrite Hin).
        by rewrite bool_decide_eq_true_2.
Qed.

(** ** The best phrase *)

Definition phrase_hit (s : kid_set) (p : list Z) : Prop := existsb (kid_missed s) p = false.

(** The first longest non-empty phrase inside the query. *)
Definition is_best (s : kid_set) (phrases : list (list Z)) (j : nat) : Prop :=
  ∃ p, phrases !! j = Some p ∧ phrase_hit s p ∧ (0 < length p)%nat ∧
    ∀ j' p', phrases !! j' = Some p' → phrase_hit s p' →
      (length p' ≤ length p)%nat ∧ ((j' < j)%nat → (length p' < length p)%nat).

Lemma best_match_spec s phrases :
  match best_match s phrases with
  | Some j => is_best s phrases j
  | None => ∀ j p, phrases !! j = Some p → phrase_hit s p → p = []
  end.
Proof.
  unfold best_match.
  assert (let st := fold_left (match_step s) (imap pair phrases) (None, 0%nat) in
    match st.1 with
    | Some j => is_best s phrases j ∧ ∃ p, phrases !! j = Some p ∧ length p = st.2
    | None => st.2 = 0%nat ∧ ∀ j p, phrases !! j = Some p → phrase_hit s p → p = []
    end) as H.
  { induction phrases as [|x phrases IH] using rev_ind; [by split|].
    rewrite imap_app, fold_left_app. simpl. rewrite Nat.add_0_r.
    set (st := fold_left _ _ _) in *.
    assert (∀ j p, (phrases ++ [x]) !! j = Some p →
      phrases !! j = Some p ∧ (j < length phrases)%nat ∨ j = length phrases ∧ p = x) as Hsnoc.
    { intros j p [Hj|[Hge Hj]]%lookup_app_Some.
      - left. split; [done|]. by eapply lookup_lt_Some.
      - right. apply list_lookup_singleton_Some in Hj as [Hj ->]. split; [lia|done]. }
    assert ((phrases ++ [x]) !! length phrases = Some x) as Hx
      by (by rewrite lookup_app_r, Nat.sub_diag by lia).
    unfold match_step at 1 2 3. simpl. destruct (length x <=? st.2)%nat eqn:Elen; bool_cases.
    - destruct st as [[j|] size]; simpl in *.
      + destruct IH as [(p & Hp & Hhit & Hpos & Hall) (p0 & Hp0 & Hsz)]. simplify_eq.
        split; [|exists p; split; [by apply lookup_app_l_Some|done]].
        exists p. split_and!; [by apply lookup_app_l_Some|done|done|].
        intros j' p' [[Hj' Hjl]|[-> ->]]%Hsnoc Hh; [by apply Hall|]. split; [done|].
        apply lookup_lt_Some in Hp. lia.
      + destruct IH as [-> IH]. split; [done|]. intros j p [[Hj _]|[-> ->]]%Hsnoc Hh; [eauto|].
        destruct x; [done|simpl in *; lia].
    - destruct (existsb (kid_missed s) x) eqn:Ehit.
      + destruct st as [[j|] size]; simpl in *.
        * destruct IH as [(p & Hp & Hhit & Hpos & Hall) (p0 & Hp0 & Hsz)]. simplify_eq.
          split; [|exists p; split; [by apply lookup_app_l_Some|done]].
          exists p. split_and!; [by apply lookup_app_l_Some|done|done|].
          intros j' p' [[Hj' Hjl]|[-> ->]]%Hsnoc Hh; [by apply Hall|]. unfold phrase_hit in Hh. congruence.
        * destruct IH as [-> IH]. split; [done|]. intros j p [[Hj _]|[-> ->]]%Hsnoc Hh; [eauto|].
          unfold phrase_hit in Hh. congruence.
      + simpl. split; [|by exists x]. exists x. split_and!; [done|done|lia|].
        intros j' p' [[Hj' Hjl]|[-> ->]]%Hsnoc Hh; [|lia].
        assert (length p' < length x)%nat; [|lia].
        destruct st as [[j|] size]; simpl in *.
        * destruct IH as [(p & Hp & _ & _ & Hall) (p0 & Hp0 & Hsz)]. simplify_eq.
          destruct (Hall j' p' Hj' Hh). lia.
        * destruct IH as [-> IH]. rewrite (IH j' p' Hj' Hh). simpl. lia. }
  simpl in H. destruct (fold_left _ _ _) as [[j|] size]; simpl in *; [by destruct H|by destruct H].
Qed.

(** ** Scores that the queue can order *)

Definition score_in (S : list double) (x : ScoreSponsoredAdDoc) : Prop := score_among score S x.

Lemma lessThan_strict_weak eps S :
  separated eps S = true → StrictWeakOn (score_in S) (lessThan eps).
Proof. exact (near_lt_strict_weak eps score (id_tie docId) S). Qed.

(** Without that, the comparison is no strict weak order: scores 0, 0.6 and
    1.2 epsilons apart, in the opposite order of the document ids. *)
Lemma lessThan_not_transitive :
  let doc d k := ScoreDoc d (d_mul (d_of_Z k) (d_lit 1 1)) d_zero EmptyString EmptyString in
  let lt := lessThan (d_of_Z 1) in
  lt (doc 1%nat 12) (doc 2%nat 6) = true ∧ lt (doc 2%nat 6) (doc 3%nat 0) = true ∧
  lt (doc 1%nat 12) (doc 3%nat 0) = false.
Proof. vm_compute. split_and!; reflexivity. Qed.

(** ** The auction *)

Section search_proofs.
Context `{LexicalCast, TitlePCA, AdDocs}.
Context (rand : nat → Z) (c_pow : double → double → double) (eps : double).
Context (now : tm) (m : AdSponsoredMgr).

Notation score_ad := (score_ad rand c_pow now m).

(** The phrase with which the ad [d] competes: on line, mined, a phrase
    inside the query, and budget left. *)
Definition competes (s : kid_set) (d : nat) : option nat :=
  j ← mjoin (candidate_phrase m s d);
  b ← getBudgetLeft m d;
  if 0 <? b then Some j else None.

Definition competitors (s : kid_set) (docs : list nat) : list (nat * nat) :=
  omap (λ d, pair d <$> competes s d) docs.

(** [x] is a score the auction gives to the phrase [dj.2] of the ad [dj.1]. *)
Definition scored (dj : nat * nat) (x : ScoreSponsoredAdDoc) : Prop :=
  ∃ n n', score_ad dj.1 dj.2 n = Some (x, n').

Definition above_min (x : ScoreSponsoredAdDoc) : bool := d_gt (score x) MIN_AD_SCORE.

Lemma scored_fields dj x :
  scored dj x → ∃ text phrase price,
    (texts ← ad_orig_bidstr_list_ m !! dj.1; texts !! dj.2) = Some text ∧
    (phrases ← ad_bidphrase_list_ m !! dj.1; phrases !! dj.2) = Some phrase ∧
    (∃ n n', getAdBidPrice rand c_pow now m dj.1 (getBidPhraseStr (keywords_ m) phrase) n
             = Some (price, n')) ∧
    x = ScoreDoc dj.1
          (d_mul (d_of_Z (Z.max LOWEST_CLICK_COST price)) (getAdQualityScore m dj.1 phrase))
          (getAdQualityScore m dj.1 phrase) (getBidPhraseStr (keywords_ m) phrase) text.
Proof.
  intros (n & n' & E). unfold SponsoredSearch.score_ad in E. destruct dj as [d j]. simpl in *.
  destruct (ad_orig_bidstr_list_ m !! d ≫= _) as [text|] eqn:Et; [rewrite bind_lift in E|done].
  destruct (ad_bidphrase_list_ m !! d ≫= _) as [phrase|] eqn:Ep; [rewrite bind_lift in E|done].
  unfold mbind, RM_bind in E.
  destruct (getAdBidPrice _ _ _ _ _ _ n) as [[price n1]|] eqn:Eb; [|done].
  injection E as <- <-. exists text, phrase, price. split_and!; eauto.
Qed.

Context {Q : Type} {Ops : PQOps ScoreSponsoredAdDoc Q} (P : ScoreSponsoredAdDoc → Prop).
Context `{!StrictWeakOn P (lessThan eps), !BoundedPQ P (lessThan eps) Ops}.

(** What the loop needs of the candidates: a status bit and a campaign, a
    defined score, and scores the queue can order. *)
Record auction_ok (s : kid_set) (docs : list nat) : Prop := {
  auction_status : ∀ d, d ∈ docs → (d < length (ad_status_bitmap_ m))%nat;
  auction_budget : ∀ d, d ∈ docs → is_Some (getBudgetLeft m d);
  auction_score : ∀ dj n, dj ∈ competitors s docs → is_Some (score_ad dj.1 dj.2 n);
  auction_P : ∀ dj x, dj ∈ competitors s docs → scored dj x → above_min x = true → P x }.

Lemma auction_tail s d docs : auction_ok s (d :: docs) → auction_ok s docs.
Proof.
  intros [H1' H2' H3' H4'].
  assert (∀ dj, dj ∈ competitors s docs → dj ∈ competitors s (d :: docs)) as Hin.
  { intros dj Hdj. unfold competitors in *. simpl. destruct (_ <$> _); [by right|done]. }
  split; [intros; apply H1'; by right|intros; apply H2'; by right|eauto|eauto].
Qed.

(** The loop over the search results: every competitor is scored in turn,
    and those above the minimum go through the queue. *)
Lemma auction_loop s docs : ∀ q n,
  auction_ok s docs → q_inv q →
  ∃ items q' n', rfold (consider_ad rand c_pow now m s) q docs n = Some (q', n') ∧
    Forall2 scored (competitors s docs) items ∧
    q_insert_all (filter above_min items) q = Some q'.
Proof.
  induction docs as [|d docs IH]; intros q n Hok Hq.
  { exists [], q, n. split_and!; [done|constructor|done]. }
  pose proof (auction_tail s d docs Hok) as Htail. destruct Hok as [Hst Hbud Hsc HP].
  cbn [rfold]. unfold mbind at 1, RM_bind at 1. unfold consider_ad at 1.
  destruct (lookup_lt_is_Some_2 (ad_status_bitmap_ m) d) as [off Hoff]; [apply Hst; left|].
  assert (∃ c, candidate_phrase m s d = Some c) as [c Hc].
  { unfold candidate_phrase. rewrite Hoff. simpl. destruct off; [by eexists|].
    destruct (ad_bidphrase_list_ m !! d); by eexists. }
  destruct (Hbud d ltac:(left)) as [b Hb].
  rewrite Hc, bind_lift.
  assert (competes s d = j ← c; if 0 <? b then Some j else None) as Hcomp.
  { unfold competes. rewrite Hc. simpl. by rewrite Hb. }
  assert (∀ j, competes s d = Some j →
    competitors s (d :: docs) = (d, j) :: competitors s docs) as Hcons.
  { intros j Hj. unfold competitors. simpl. by rewrite Hj. }
  assert (competes s d = None → competitors s (d :: docs) = competitors s docs) as Hskip.
  { intros Hj. unfold competitors. simpl. by rewrite Hj. }
  destruct c as [j|].
  2:{ destruct (IH q n Htail Hq) as (items & q' & n' & E & HF & Hins).
      exists items, q', n'. rewrite Hskip by done. by split_and!. }
  rewrite Hb, bind_lift. simpl in Hcomp. destruct (0 <? b) eqn:Eb.
  2:{ destruct (IH q n Htail Hq) as (items & q' & n' & E & HF & Hins).
      exists items, q', n'. rewrite Hskip by done. by split_and!. }
  rewrite (Hcons j Hcomp) in *.
  destruct (Hsc (d, j) n ltac:(left)) as [[x n1] Hx].
  unfold mbind at 1, RM_bind at 1. simpl in Hx. rewrite Hx.
  assert (scored (d, j) x) as Hscored by (by exists n, n1).
  fold (above_min x). destruct (above_min x) eqn:Ex.
  - pose proof (HP (d, j) x ltac:(left) Hscored Ex) as HPx.
    destruct (q_insert_ok q x Hq HPx) as (r & q1 & Hins & Hq1 & _).
    rewrite Hins, bind_lift. cbn [snd].
    destruct (IH q1 n1 Htail Hq1) as (items & q' & n' & E & HF & Hins').
    exists (x :: items), q', n'. split_and!; [done|by constructor|].
    rewrite filter_cons_True by (by rewrite Ex). unfold q_insert_all in *. simpl.
    rewrite Hins. done.
  - destruct (IH q n1 Htail Hq) as (items & q' & n' & E & HF & Hins').
    exists (x :: items), q', n'. split_and!; [done|by constructor|].
    rewrite filter_cons_False by (rewrite Ex; by intros []). done.
Qed.

Lemma fill_costs_lookup popped : ∀ next i x,
  popped !! i = Some x →
  fill_costs next popped !! i
  = Some (click_cost (match i with O => next | S k => score <$> popped !! k end) x).
Proof.
  induction popped as [|y popped IH]; intros next [|i] x Hx; simplify_eq/=; [done|].
  rewrite (IH _ _ _ Hx). by destruct i.
Qed.

Lemma length_fill_costs next popped : length (fill_costs next popped) = length popped.
Proof. revert next. induction popped; intros; simpl; [done|]. by rewrite IHpopped. Qed.

(** C1: [sponsoredAdSearch] runs the auction: every ad of the full-text result
    that is on line, mined, has a bid phrase inside the query and budget left
    is scored with its best phrase; those above the minimum score compete for
    the 20 places; the places go to the greatest by [lessThan], best first,
    each is charged from the score of the next one, and the impressions of the
    shown ads and phrases are logged. *)
Theorem sponsoredAdSearch_auction query search res n kids q :
  query_kids (keywords_ m) (generateBidPhrase_str query) = (kids, q) → kids ≠ [] →
  (∀ s, make_kid_set kids = Some s → auction_ok s (topKDocs_ (search q))) →
  ∃ s items ranked dropped res' n',
    make_kid_set kids = Some s ∧
    (* every competitor is scored, the worthless ones are left out *)
    Forall2 scored (competitors s (topKDocs_ (search q))) items ∧
    ranked ++ dropped ≡ₚ filter above_min items ∧
    (* the places go to the best, best first *)
    sorted_by (lessThan eps) (reverse ranked) ∧
    top_of (lessThan eps) MAX_RANKED_AD_NUM ranked dropped ∧
    sponsoredAdSearch rand c_pow now (Some search) true query res m n
      = Some (true, res', set_log (updateAdSearchStat now
                 (sset_insert_all (map hit_bidstr (reverse ranked)) [])
                 (map ad_strid ranked) (ad_log_mgr_ m)) m, n') ∧
    totalCount_ res' = length ranked ∧
    topKDocs_ res' = map docId ranked ∧
    topKRankScoreList_ res' = map score ranked ∧
    topKAdBidStrList_ res' = map hit_orig_bidstr ranked ∧
    length (topKAdCost_ res') = length ranked ∧
    (* a place is charged by the score of the next one *)
    (∀ i x, ranked !! i = Some x →
       topKAdCost_ res' !! i = Some (click_cost (score <$> ranked !! S i) x)).
Proof.
  intros Hkids Hne Hok. destruct (make_kid_set_ok kids Hne) as (s & Hs & _).
  specialize (Hok s Hs).
  destruct (q_new_ok MAX_RANKED_AD_NUM) as (Hinv & _ & _); [done|].
  destruct (auction_loop s _ (q_new MAX_RANKED_AD_NUM) n Hok Hinv)
    as (items & q' & n' & Hloop & HF & Hins).
  assert (Forall P (filter above_min items)) as HPitems.
  { apply Forall_forall. intros x [Hx Hin]%list_elem_of_filter.
    apply list_elem_of_lookup_1 in Hin as [i Hi].
    destruct (Forall2_lookup_r _ _ _ _ _ HF Hi) as (dj & Hdj & Hsc).
    eapply (auction_P _ _ Hok dj); [by eapply list_elem_of_lookup_2|done|].
    by destruct (above_min x). }
  destruct (q_topk_sort P (lessThan eps) MAX_RANKED_AD_NUM (filter above_min items))
    as (q2 & out & dropped & Hins2 & Hsize & Hdrain & Hperm & Hsort & Htop); [done|done|].
  rewrite Hins in Hins2. injection Hins2 as <-.
  exists s, items, (reverse out), dropped, (fill_result out), n'.
  assert (reverse out ≡ₚ out) as Hrev by apply reverse_Permutation.
  rewrite !reverse_involutive.
  split_and!; [done|done|by rewrite Hrev|done|by rewrite Hrev| | | | | | |].
  - unfold sponsoredAdSearch. rewrite Hkids. destruct kids as [|k kids]; [done|].
    rewrite Hs, bind_lift. unfold mbind at 1, RM_bind at 1. rewrite Hloop.
    rewrite Hdrain, bind_lift. by rewrite <- fmap_reverse.
  - simpl. by rewrite length_reverse.
  - simpl. symmetry. apply (fmap_reverse docId).
  - simpl. symmetry. apply (fmap_reverse score).
  - simpl. symmetry. apply (fmap_reverse hit_orig_bidstr).
  - simpl. by rewrite !length_reverse, length_fill_costs.
  - intros i x Hi. simpl. apply lookup_lt_Some in Hi as Hil. rewrite length_reverse in Hil.
    rewrite reverse_lookup in Hi by done.
    rewrite reverse_lookup by (by rewrite length_fill_costs). rewrite length_fill_costs.
    rewrite (fill_costs_lookup _ _ _ _ Hi). do 2 f_equal.
    destruct (length out - S i)%nat as [|k] eqn:Ek.
    + rewrite lookup_ge_None_2; [done|]. rewrite length_reverse. lia.
    + rewrite reverse_lookup by lia. by replace (length out - S (S i))%nat with k by lia.
Qed.
End search_proofs.

(** ** Who competes *)

Definition in_query (kids p : list Z) : Prop := Forall (λ id, id ∈ kids) p.

(** The first longest non-empty phrase whose keywords are all in the query. *)
Definition best_phrase (kids : list Z) (phrases : list (list Z)) (j : nat) : Prop :=
  ∃ p, phrases !! j = Some p ∧ in_query kids p ∧ (0 < length p)%nat ∧
    ∀ j' p', phrases !! j' = Some p' → in_query kids p' →
      (length p' ≤ length p)%nat ∧ ((j' < j)%nat → (length p' < length p)%nat).

Lemma phrase_hit_in_query s kids p :
  (∀ id, kid_missed s id = bool_decide (id ∉ kids)) → phrase_hit s p ↔ in_query kids p.
Proof.
  intros Hs. unfold phrase_hit, in_query. induction p as [|id p IH]; simpl; [done|].
  rewrite Hs, Forall_cons, <- IH, orb_false_iff, bool_decide_eq_false.
  split; intros [H1 H2]; split; try done; [|by intros []].
  by destruct (decide (id ∈ kids)).
Qed.

Lemma best_phrase_is_best s kids phrases j :
  (∀ id, kid_missed s id = bool_decide (id ∉ kids)) →
  is_best s phrases j ↔ best_phrase kids phrases j.
Proof.
  intros Hs. unfold is_best, best_phrase. setoid_rewrite (phrase_hit_in_query s kids); done.
Qed.

Lemma best_phrase_unique kids phrases j j' :
  best_phrase kids phrases j → best_phrase kids phrases j' → j = j'.
Proof.
  intros (p & Hp & Hq & _ & Hall) (p' & Hp' & Hq' & _ & Hall').
  destruct (Hall j' p' Hp' Hq') as [H1 H2], (Hall' j p Hp Hq) as [H3 H4].
  destruct (Nat.lt_trichotomy j j') as [Hlt|[->|Hlt]]; [|done|].
  - specialize (H4 Hlt). lia.
  - specialize (H2 Hlt). lia.
Qed.

Section who_competes.
Context `{LexicalCast, TitlePCA, AdDocs}.
Context (m : AdSponsoredMgr).

(** C2: The ads that enter an auction are exactly the documents found that are
    on line, whose campaign has budget left, and that have a bid phrase all of
    whose keywords are in the query; the phrase taken is a longest one, the
    first of them. *)
Theorem competitors_spec kids s docs d j :
  kids ≠ [] → make_kid_set kids = Some s →
  (d, j) ∈ competitors m s docs ↔
  d ∈ docs ∧ ad_status_bitmap_ m !! d = Some false ∧
  (∃ b, getBudgetLeft m d = Some b ∧ 0 < b) ∧
  ∃ phrases, ad_bidphrase_list_ m !! d = Some phrases ∧ best_phrase kids phrases j.
Proof.
  intros Hne Hs. destruct (make_kid_set_ok kids Hne) as (s' & Hs' & Hmiss). simplify_eq.
  unfold competitors. rewrite list_elem_of_omap.
  assert (competes m s d = Some j ↔ ad_status_bitmap_ m !! d = Some false ∧
    (∃ b, getBudgetLeft m d = Some b ∧ 0 < b) ∧
    ∃ phrases, ad_bidphrase_list_ m !! d = Some phrases ∧ best_phrase kids phrases j) as Hc.
  { unfold competes, candidate_phrase.
    destruct (ad_status_bitmap_ m !! d) as [[]|]; simpl; [naive_solver| |naive_solver].
    destruct (ad_bidphrase_list_ m !! d) as [phrases|]; simpl; [|naive_solver].
    pose proof (best_match_spec s phrases) as Hbest.
    destruct (best_match s phrases) as [j0|]; simpl.
    - rewrite (best_phrase_is_best s kids) in Hbest by done.
      destruct (getBudgetLeft m d) as [b|]; simpl; [|naive_solver].
      destruct (0 <? b) eqn:Eb; bool_cases; [|naive_solver lia].
      split; [intros [= <-]; naive_solver|].
      intros (_ & _ & ? & [= <-] & Hj). f_equal. by eapply best_phrase_unique.
    - split; [done|]. intros (_ & _ & ? & [= <-] & (p & Hp & Hq & Hl & _)).
      apply (phrase_hit_in_query s) in Hq; [|done]. rewrite (Hbest _ _ Hp Hq) in Hl. simpl in Hl. lia. }
  rewrite <- Hc. split.
  - intros (d' & Hin & E). destruct (competes m s d') as [j'|] eqn:Ec; [|done].
    simpl in E. injection E as -> ->. done.
  - intros [Hin E]. exists d. by rewrite E.
Qed.
End who_competes.

(** ** The bid *)

(** Drawing one of the two uniform bids: the first bid is drawn by [d1 +
    1] of the 10000 numbers, so also when its probability is zero, the second
    by the next [d2], and the rest leaves the price. *)
Theorem pick_bid_two r price b1 p1 b2 p2 d1 d2 :
  d_to_int (d_mul p1 (d_of_Z 10000)) = Some d1 → d_to_int (d_mul p2 (d_of_Z 10000)) = Some d2 →
  0 ≤ d1 ≤ 10000 → 0 ≤ d2 ≤ 10000 →
  pick_bid r 0 price [(b1, p1); (b2, p2)]
  = Some (if r <=? d1 then b1 else if r <=? d1 + d2 then b2 else price).
Proof.
  intros H1 H2 Hd1 Hd2. cbn [pick_bid]. rewrite H1. cbn [mbind option_bind]. rewrite H2.
  cbn [mbind option_bind]. rewrite !(i32_small (0 + d1)) by lia. rewrite (i32_small (0 + d1 + d2)) by lia.
  rewrite Z.add_0_l. by destruct (r <=? d1), (r <=? d1 + d2).
Qed.

Section bid_price.
Context `{LexicalCast}.
Context (rand : nat → Z) (c_pow : double → double → double).

(** A manual price decides, whatever the strategy; without one, the
    uniform strategy draws from the bids of the campaign. *)
Theorem getAdBidPrice_manual now m d hit n cid name :
  ad_campaign_belong_list_ m !! d = Some cid → ad_campaign_name_list_ m !! cid = Some name →
  let manual := getManualBidPrice (manual_bidinfo_mgr_ m) name (Z.of_nat d) hit in
  getAdBidPrice rand c_pow now m d hit n
  = if 0 <? manual then Some (manual, n)
    else match bid_strategy_type_ m with
         | Sponsored.UniformBid =>
             match ad_uniform_bid_price_list_ m !! cid with
             | None => Some (manual, S n)
             | Some bids => p ← pick_bid (Z.rem (rand n) 10000) 0 manual bids; Some (p, S n)
             end
         | Sponsored.GeneticBid =>
             Some (match ad_bid_price_list_ m !! cid with
                   | Some prices => if (d <? length (ad_bidphrase_list_ m))%nat
                                    then default manual (prices !! hit) else manual
                   | None => manual
                   end, n)
         | Sponsored.RealtimeBid =>
             if (d <? length (ad_bidphrase_list_ m))%nat
             then p ← realtime_price c_pow now m cid hit manual; Some (p, n)
             else Some (manual, n)
         | Unknown => Some (manual, n)
         end.
Proof.
  intros Hcid Hname manual. unfold getAdBidPrice. rewrite Hcid, Hname, bind_lift. fold manual.
  destruct (0 <? manual); [done|].
  destruct (bid_strategy_type_ m); unfold mret, RM_ret, lift; simpl.
  - unfold mbind, RM_bind. destruct (ad_uniform_bid_price_list_ m !! cid) as [bids|]; [|done].
    simpl. by destruct (pick_bid _ _ _ _).
  - rewrite Nat.leb_antisym.
    destruct (ad_bid_price_list_ m !! cid); [|done]. by destruct (d <? _)%nat.
  - rewrite Nat.leb_antisym. destruct (d <? _)%nat; [|done]. simpl.
    by destruct (realtime_price _ _ _ _ _ _).
  - done.
Qed.
End bid_price.

(** The bids [(40, 0)] and [(90, 1)]: the first is still drawn by 0. *)
Lemma pick_bid_witness :
  pick_bid 0 0 55 [(40, d_zero); (90, d_of_Z 1)] = Some 40 ∧
  pick_bid 1 0 55 [(40, d_zero); (90, d_of_Z 1)] = Some 90.
Proof.
  split.
  - rewrite (pick_bid_two 0 55 40 d_zero 90 (d_of_Z 1) 0 10000);
      [reflexivity|vm_compute; reflexivity|vm_compute; reflexivity|lia|lia].
  - rewrite (pick_bid_two 1 55 40 d_zero 90 (d_of_Z 1) 0 10000);
      [reflexivity|vm_compute; reflexivity|vm_compute; reflexivity|lia|lia].
Defined.
