(* ===== verification/DnfParser.v ===== *)
(** * Targeting conditions ([ad-manager/DNFParser.cpp])

    The condition of an ad is a conjunction written
    [attribute~(value,value)^attribute!~(value)]; [parseDNF] adds it to a
    disjunctive normal form.  The theorem is the round trip with the printer
    the format suggests.

    [boost::split] is the parameter [split_any]; the records of the index
    library have the fields the parser writes.  [None] is the
    [std::out_of_range] of [substr]. *)
From S2P Require Import Prelude CNum Env.
From Stdlib Require Import Ascii.

Record Assignment := Assign { belongsTo : bool; attribute : string; values : list string }.
Abbreviation Conjunction := (list Assignment).
Abbreviation DNF := (list Conjunction).

(** ** [std::string] *)

(** [find]: the first position of the pattern. *)
Fixpoint find (pat s : string) : option nat :=
  if String.prefix pat s then Some 0%nat
  else match s with
       | EmptyString => None
       | String _ s => S <$> find pat s
       end.

(** [substr(pos)] and [substr(0, n)]. *)
Definition substr_from (pos : nat) (s : string) : option string :=
  if (String.length s <? pos)%nat then None else Some (String.substring pos (String.length s - pos) s).

Definition substr_to (n : nat) (s : string) : string := String.substring 0 n s.

Section parser.
Context (split_any : string → string → list string).

(** [ts.substr(0, ts.size() - 1)]; the length of an empty string wraps. *)
Definition drop_last (ts : string) : string := substr_to (String.length ts - 1) ts.

(** One piece: [None] inside is the unknown format. *)
Definition parse_piece (piece : string) : option (option Assignment) :=
  match find "!~" piece with
  | Some index =>
      ts ← substr_from (index + 3) piece;
      Some (Some (Assign false (substr_to index piece) (split_any (drop_last ts) ",")))
  | None =>
      match find "~" piece with
      | Some index =>
          ts ← substr_from (index + 2) piece;
          Some (Some (Assign true (substr_to index piece) (split_any (drop_last ts) ",")))
      | None => Some None
      end
  end.

Fixpoint parse_pieces (pieces : list string) (conjunction : Conjunction) : option (option Conjunction) :=
  match pieces with
  | [] => Some (Some conjunction)
  | piece :: pieces =>
      a ← parse_piece piece;
      match a with
      | None => Some None
      | Some a => parse_pieces pieces (conjunction ++ [a])
      end
  end.

(** The boolean is the value returned; the conjunction is added at the end. *)
Definition parseDNF (str : string) (dnf : DNF) : option (bool * DNF) :=
  c ← parse_pieces (split_any str "^") [];
  Some (match c with None => (false, dnf) | Some conjunction => (true, dnf ++ [conjunction]) end).

(** ** The printer *)

Fixpoint join (sep : string) (l : list string) : string :=
  match l with
  | [] => EmptyString
  | [s] => s
  | s :: l => s +:+ sep +:+ join sep l
  end.

Definition print_assignment (a : Assignment) : string :=
  attribute a +:+ (if belongsTo a then "~(" else "!~(") +:+ join "," (values a) +:+ ")".

Definition print_conjunction (c : Conjunction) : string := join "^" (map print_assignment c).

End parser.

(** ** [AdMiningTask::buildDocument] ([ad-manager/AdMiningTask.cpp]) *)

(** The properties of the document, and what it adds to the index: an empty
    condition adds nothing; [false] is the unknown format. *)
Definition buildDocument (split_any : string → string → list string) (sDnf w h t : string)
    : option (bool * option DNF) :=
  if String.eqb sDnf EmptyString then Some (true, None)
  else
    '(ok, dnf) ← parseDNF split_any sDnf [];
    if negb ok then Some (false, None)
    else
      c ← dnf !! 0%nat;
      Some (true, Some (<[0%nat := c ++ [Assign true "Width" [w]; Assign true "Height" [h];
                                         Assign true "CreativeType" [t]]]> dnf)).

(** ** Strings *)

Definition lacks (c : ascii) (s : string) : Prop := c ∉ string_chars s.

Lemma lacks_append c a b : lacks c (a +:+ b) ↔ lacks c a ∧ lacks c b.
Proof. unfold lacks. rewrite string_chars_append, elem_of_app. tauto. Qed.

Lemma lacks_cons c x s : lacks c (String x s) ↔ c ≠ x ∧ lacks c s.
Proof. unfold lacks. simpl. rewrite elem_of_cons. tauto. Qed.

Lemma append_cons x a b : String x a +:+ b = String x (a +:+ b).
Proof. reflexivity. Qed.

Lemma append_assoc3 (a b c : string) : (a +:+ b) +:+ c = a +:+ b +:+ c.
Proof. induction a as [|x a IH]; [done|]. exact (f_equal (String x) IH). Qed.

Lemma append_empty (a : string) : a +:+ EmptyString = a.
Proof. induction a as [|x a IH]; [done|]. exact (f_equal (String x) IH). Qed.

Lemma length_append (a b : string) : String.length (a +:+ b) = (String.length a + String.length b)%nat.
Proof. induction a as [|x a IH]; [done|]. exact (f_equal S IH). Qed.

Lemma substring_all s : String.substring 0 (String.length s) s = s.
Proof. induction s as [|x s IH]; [done|]. exact (f_equal (String x) IH). Qed.

Lemma substr_to_append a b : substr_to (String.length a) (a +:+ b) = a.
Proof.
  unfold substr_to. induction a as [|x a IH]; [by destruct b|]. exact (f_equal (String x) IH).
Qed.

Lemma substr_from_append a b : substr_from (String.length a) (a +:+ b) = Some b.
Proof.
  unfold substr_from. rewrite length_append. rewrite (proj2 (Nat.ltb_ge _ _)) by lia. f_equal.
  replace (String.length a + String.length b - String.length a)%nat with (String.length b) by lia.
  induction a as [|x a IH]; [apply substring_all|exact IH].
Qed.

Lemma drop_last_append a c : drop_last (a +:+ String c "") = a.
Proof.
  unfold drop_last. rewrite length_append. simpl. rewrite Nat.add_sub. apply substr_to_append.
Qed.

(** *** Finding the operator *)

Lemma find_tilde a b : lacks "~" a → find "~" (a +:+ String "~" b) = Some (String.length a).
Proof.
  induction a as [|x a IH]; intros Ha; [by destruct b|].
  apply lacks_cons in Ha as [Hx Ha]. rewrite append_cons. cbn [find String.prefix String.length].
  destruct (ascii_dec "~" x) as [?|]; [done|]. by rewrite IH.
Qed.

Lemma find_bang_lacks s : lacks "~" s → find "!~" s = None.
Proof.
  induction s as [|x s IH]; intros Hs; [done|]. apply lacks_cons in Hs as [Hx Hs].
  cbn [find String.prefix]. rewrite (IH Hs). destruct (ascii_dec "!" x) as [|]; [|done].
  destruct s as [|y s]; [done|]. apply lacks_cons in Hs as [Hy _]. cbn [String.prefix]. by destruct (ascii_dec "~" y).
Qed.

Lemma find_bang a b : lacks "~" a → find "!~" (a +:+ String "!" (String "~" b)) = Some (String.length a).
Proof.
  induction a as [|x a IH]; intros Ha; [by destruct b|].
  apply lacks_cons in Ha as [Hx Ha]. rewrite append_cons. cbn [find String.prefix String.length]. rewrite IH by done.
  destruct (ascii_dec "!" x) as [|]; [|done]. destruct a as [|y a]; [done|].
  apply lacks_cons in Ha as [Hy _]. rewrite append_cons. cbn [String.prefix]. by destruct (ascii_dec "~" y).
Qed.

Definition ends_bang (s : string) : Prop := ∃ a, s = a +:+ "!".

Lemma find_bang_none a b : lacks "~" a → lacks "~" b → ¬ ends_bang a → find "!~" (a +:+ String "~" b) = None.
Proof.
  intros Ha Hb. induction a as [|x a IH]; intros He.
  - change (EmptyString +:+ String "~" b) with (String "~" b). cbn [find String.prefix].
    by rewrite (find_bang_lacks b Hb).
  - apply lacks_cons in Ha as [Hx Ha]. rewrite append_cons. cbn [find String.prefix]. rewrite IH; [|done|].
    + destruct (ascii_dec "!" x) as [<-|]; [|done]. destruct a as [|y a]; [by destruct He; exists EmptyString|].
      apply lacks_cons in Ha as [Hy _]. rewrite append_cons. cbn [String.prefix]. by destruct (ascii_dec "~" y).
    + intros [a' ->]. apply He. by exists (String x a').
Qed.

(** ** Round trip *)

(** What the format can express. *)
Record assignment_ok (a : Assignment) : Prop := {
  ok_attribute : lacks "~" (attribute a) ∧ lacks "^" (attribute a);
  ok_bang : belongsTo a = true → ¬ ends_bang (attribute a);
  ok_values : values a ≠ [];
  ok_value : Forall (λ v, lacks "~" v ∧ lacks "^" v ∧ lacks "," v) (values a) }.

(** [boost::split] undoes joining by a character that occurs in no part. *)
Definition splits (split_any : string → string → list string) : Prop :=
  ∀ c parts, parts ≠ [] → Forall (lacks c) parts →
    split_any (join (String c EmptyString) parts) (String c EmptyString) = parts.

Lemma lacks_join c sep l : lacks c sep → Forall (lacks c) l → lacks c (join sep l).
Proof.
  intros Hs. induction 1 as [|s l Hl _ IH]; [by intros ?%not_elem_of_nil|]. simpl. destruct l; [done|].
  by rewrite !lacks_append.
Qed.

Section round_trip.
Context (split_any : string → string → list string) (Hsplit : splits split_any).

Lemma parse_print_assignment a :
  assignment_ok a → parse_piece split_any (print_assignment a) = Some (Some a).
Proof.
  intros [[Ha _] Hb Hne Hv]. unfold parse_piece, print_assignment.
  assert (lacks "~" (join "," (values a))) as Hj.
  { apply lacks_join; [by intros [?|?%not_elem_of_nil]%elem_of_cons|].
    eapply Forall_impl; [exact Hv|]. by intros v (? & _). }
  assert (split_any (join "," (values a)) "," = values a) as Hs.
  { apply Hsplit; [done|]. eapply Forall_impl; [exact Hv|]. by intros v (_ & _ & ?). }
  destruct a as [[] attr vals]; simpl in *.
  - change ("~(" +:+ join "," vals +:+ ")") with (String "~" ("(" +:+ join "," vals +:+ ")")).
    rewrite find_bang_none; [|done| |by apply Hb].
    + rewrite find_tilde by done. rewrite substr_to_append.
      replace (attr +:+ String "~" ("(" +:+ join "," vals +:+ ")"))
        with ((attr +:+ "~(") +:+ join "," vals +:+ ")") by by rewrite append_assoc3.
      replace (String.length attr + 2)%nat with (String.length (attr +:+ "~(")) by by rewrite length_append.
      rewrite substr_from_append. cbn [mbind option_bind]. by rewrite drop_last_append, Hs.
    + rewrite !lacks_append. split_and!; [|done|]; by intros [?|?%not_elem_of_nil]%elem_of_cons.
  - change ("!~(" +:+ join "," vals +:+ ")") with (String "!" (String "~" ("(" +:+ join "," vals +:+ ")"))).
    rewrite find_bang by done. rewrite substr_to_append.
    replace (attr +:+ String "!" (String "~" ("(" +:+ join "," vals +:+ ")")))
      with ((attr +:+ "!~(") +:+ join "," vals +:+ ")") by by rewrite append_assoc3.
    replace (String.length attr + 3)%nat with (String.length (attr +:+ "!~(")) by by rewrite length_append.
    rewrite substr_from_append. cbn [mbind option_bind]. by rewrite drop_last_append, Hs.
Qed.

Lemma parse_print_pieces c : ∀ acc,
  Forall assignment_ok c → parse_pieces split_any (map print_assignment c) acc = Some (Some (acc ++ c)).
Proof.
  induction c as [|a c IH]; intros acc Hc; simpl; [by rewrite app_nil_r|].
  inversion_clear Hc as [|?? Ha Hc']. rewrite parse_print_assignment by done. cbn [mbind option_bind].
  rewrite IH by done. by rewrite <- app_assoc.
Qed.

(** [parseDNF] reads back every printed conjunction whose attributes and
    values are free of the characters of the format, and adds it to the
    disjunction. *)
Theorem parseDNF_print c dnf :
  c ≠ [] → Forall assignment_ok c →
  parseDNF split_any (print_conjunction c) dnf = Some (true, dnf ++ [c]).
Proof.
  intros Hne Hc. unfold parseDNF, print_conjunction.
  rewrite Hsplit; [|by destruct c|].
  - by rewrite parse_print_pieces.
  - apply Forall_fmap. eapply Forall_impl; [exact Hc|]. intros a [[_ Ha] _ _ Hv]. simpl. unfold print_assignment.
    rewrite !lacks_append. split_and!; [done| | |].
    + destruct (belongsTo a); intros Hin; repeat (apply elem_of_cons in Hin as [?|Hin]; [done|]);
        by apply not_elem_of_nil in Hin.
    + apply lacks_join; [by intros [?|?%not_elem_of_nil]%elem_of_cons|].
      eapply Forall_impl; [exact Hv|]. by intros v (_ & ? & _).
    + by intros [?|?%not_elem_of_nil]%elem_of_cons.
Qed.

End round_trip.

(** *** Witness *)

Lemma split_chars_lacks c a cur :
  lacks c a → split_chars (String c EmptyString) cur a = [cur +:+ a].
Proof.
  revert cur. induction a as [|x a IH]; intros cur Ha; simpl; [by rewrite append_empty|].
  apply lacks_cons in Ha as [Hx Ha]. rewrite (proj2 (Ascii.eqb_neq _ _)) by congruence. simpl.
  rewrite IH by done. f_equal. apply append_assoc3.
Qed.

Lemma split_chars_sep c a b cur :
  lacks c a →
  split_chars (String c EmptyString) cur (a +:+ String c b)
  = (cur +:+ a) :: split_chars (String c EmptyString) EmptyString b.
Proof.
  revert cur. induction a as [|x a IH]; intros cur Ha.
  - simpl. rewrite Ascii.eqb_refl. simpl. by rewrite append_empty.
  - apply lacks_cons in Ha as [Hx Ha]. rewrite append_cons. simpl.
    rewrite (proj2 (Ascii.eqb_neq _ _)) by congruence. simpl.
    rewrite IH by done. f_equal. apply append_assoc3.
Qed.

Lemma split_chars_splits : splits (λ s seps, split_chars seps EmptyString s).
Proof.
  intros c parts Hne. induction 1 as [|a parts Ha Hp IH]; [done|]. simpl. destruct parts as [|b parts].
  - by rewrite split_chars_lacks.
  - change (a +:+ String c EmptyString +:+ join (String c EmptyString) (b :: parts))
      with (a +:+ String c (join (String c EmptyString) (b :: parts))).
    rewrite split_chars_sep by done. f_equal. by apply IH.
Qed.

Definition banner : Conjunction := [Assign true "city" ["paris"; "rome"]; Assign false "age" ["9"]].

Lemma banner_ok : Forall assignment_ok banner.
Proof.
  repeat constructor; simpl; try done;
    try (intros H; repeat (apply elem_of_cons in H as [H|H]; [done|]); by apply not_elem_of_nil in H).
  intros _ [a Ha]. apply (f_equal (λ s, last (string_chars s))) in Ha.
  rewrite string_chars_append in Ha. simpl (string_chars "!") in Ha. by rewrite last_snoc in Ha.
Qed.

Lemma parseDNF_print_witness :
  print_conjunction banner = "city~(paris,rome)^age!~(9)" ∧
  parseDNF (λ s seps, split_chars seps EmptyString s) "city~(paris,rome)^age!~(9)" [] = Some (true, [banner]).
Proof.
  split; [reflexivity|]. apply (parseDNF_print _ split_chars_splits banner []); [done|exact banner_ok].
Defined.
