(* ===== verification/Recommender.v ===== *)
(** * Online recommendation ([ad-manager/AdRecommender.cpp])

    Each feature of a user and of an ad has a latent vector; the affinity of a
    user and a feature of ads is the product of the combined vectors.  [update]
    learns from one impression, [updateAdFeatures] registers the features of
    an ad, [doRecommend] returns the features of highest affinity, some of
    them exchanged for features that were never shown.

    Parameters: [random()], and the iteration order of [boost::unordered_map],
    which is any permutation of the entries.  A vector of pointers into such a
    map is the list of their keys (the library guarantees that references stay
    valid), so that a key that occurs twice is written twice.  [None] is
    undefined behaviour or an exception of [std::bitset].  The proofs are in
    RecommenderUpdate.v and RecommenderResult.v. *)
From S2P Require Import Prelude CNum PriorityQueue QueueSpec HitQueue Phrases.

Definition LATENT_VEC_DIM : nat := 10.
Definition MAX_AD_ITEMS : Z := 1024 * 1024.
Definition SMOOTH : double := d_lit 2 2.
Definition MAX_NORM : double := d_of_Z 100.

Abbreviation LatentVecT := (list double).
Abbreviation LatentVecContainerT := (gmap string LatentVecT).

Definition affinity (left right : LatentVecT) : option double :=
  foldM (λ sum i, x ← left !! i; y ← right !! i; Some (d_add sum (d_mul x y)))
    d_zero (seq 0 (length left)).

(** [std::bitset]: the set of its bits; [set] and [reset] throw beyond its
    size. *)
Definition bit_ok (id : nat) : bool := Z.of_nat id <? MAX_AD_ITEMS.

Fixpoint unviewed_loop (bits : gset nat) (n i index : nat) : option nat :=
  match n with
  | O => None
  | S n =>
      if decide (i ∈ bits) then
        match index with O => Some i | S index => unviewed_loop bits n (S i) index end
      else unviewed_loop bits n (S i) index
  end.

(** [None] is -1. *)
Definition getunviewed (bits : gset nat) (index : nat) : option nat :=
  if (base.size bits <=? index)%nat then None else unviewed_loop bits (Z.to_nat MAX_AD_ITEMS) 0 index.

(** ** State *)

Record FeatureTable := Features {
  ad_feature_value_list_ : list string;
  ad_feature_value_id_list_ : gmap string nat;
  ad_features_map_ : gmap string (gset nat);
  unviewed_items_ : gset nat }.

Record AdRecommender := Rec {
  use_ad_feature_ : bool;
  ad_features : FeatureTable;
  ad_latent_vec_list_ : LatentVecContainerT;
  user_feature_latent_vec_list_ : LatentVecContainerT;
  clicked_num_ : Z;
  impression_num_ : Z;
  ratio_ : double;
  learning_rate_ : double;
  default_latent_ : LatentVecT;
  random_pos_ : nat }.

Definition with_features t r := Rec (use_ad_feature_ r) t (ad_latent_vec_list_ r)
  (user_feature_latent_vec_list_ r) (clicked_num_ r) (impression_num_ r) (ratio_ r) (learning_rate_ r)
  (default_latent_ r) (random_pos_ r).
Definition with_latents ads users pos r := Rec (use_ad_feature_ r) (ad_features r) ads users (clicked_num_ r)
  (impression_num_ r) (ratio_ r) (learning_rate_ r) (default_latent_ r) pos.
Definition with_rates clicked impressions ratio rate r := Rec (use_ad_feature_ r) (ad_features r)
  (ad_latent_vec_list_ r) (user_feature_latent_vec_list_ r) clicked impressions ratio rate
  (default_latent_ r) (random_pos_ r).

(** ** Start *)

(** The constructor, and [load] on the values of the files that exist. *)
Definition new_recommender : AdRecommender :=
  Rec true (Features [] ∅ ∅ ∅) ∅ ∅ 0 0 d_zero d_zero [] 0.

Definition load (ads users : option LatentVecContainerT) (history : option (Z * Z))
    (features : option (list string * gmap string (gset nat))) (r : AdRecommender) : AdRecommender :=
  let r := with_latents (default (ad_latent_vec_list_ r) ads)
             (default (user_feature_latent_vec_list_ r) users) (random_pos_ r) r in
  let '(clicked, impressions) := default (clicked_num_ r, impression_num_ r) history in
  let r := with_rates clicked impressions (ratio_ r) (learning_rate_ r) r in
  match features with
  | None => r
  | Some (values, ads) =>
      let t := ad_features r in
      with_features (Features values
        (fold_left (λ ids iv, <[iv.2 := iv.1]> ids) (imap pair values) (ad_feature_value_id_list_ t))
        ads (unviewed_items_ t)) r
  end.

Definition init (use_ad_feature : bool) (ads users : option LatentVecContainerT) (history : option (Z * Z))
    (features : option (list string * gmap string (gset nat))) (r : AdRecommender) : AdRecommender :=
  let r := Rec use_ad_feature (ad_features r) (ad_latent_vec_list_ r) (user_feature_latent_vec_list_ r) 1 1000
             (ratio_ r) (learning_rate_ r) (default_latent_ r) (random_pos_ r) in
  let r := load ads users history features r in
  let clicked := if clicked_num_ r <? 1 then 1 else clicked_num_ r in
  let impressions := if impression_num_ r <? clicked then u64 (clicked * 100) else impression_num_ r in
  let r := with_rates clicked impressions
    (d_div (d_mul (d_of_Z (-1)) (d_of_Z clicked)) (d_of_Z (u64 (impressions - clicked))))
    (d_div (d_of_Z 1) (d_of_Z clicked)) r in
  Rec (use_ad_feature_ r) (ad_features r) (ad_latent_vec_list_ r) (user_feature_latent_vec_list_ r)
    (clicked_num_ r) (impression_num_ r) (ratio_ r) (learning_rate_ r)
    (resize LATENT_VEC_DIM (d_of_Z 1) (default_latent_ r)) (random_pos_ r).

(** ** Features of ads *)

Definition feature_step (st : FeatureTable * gset nat) (feature_str : string)
    : option (FeatureTable * gset nat) :=
  let '(t, ad_feature_id_list) := st in
  match ad_feature_value_id_list_ t !! feature_str with
  | None =>
      let id := length (ad_feature_value_list_ t) in
      if bit_ok id then
        Some (Features (ad_feature_value_list_ t ++ [feature_str]) (<[feature_str := id]> (ad_feature_value_id_list_ t))
                (ad_features_map_ t) ({[id]} ∪ unviewed_items_ t), {[id]} ∪ ad_feature_id_list)
      else None
  | Some id => Some (t, {[id]} ∪ ad_feature_id_list)
  end.

Definition updateAdFeatures (ad_docid : string) (features : list string) (r : AdRecommender)
    : option AdRecommender :=
  let expand_features :=
    if negb (use_ad_feature_ r) || match features with [] => true | _ => false end
    then features ++ [ad_docid] else features in
  '(t, ids) ← foldM feature_step (ad_features r, ∅) expand_features;
  Some (with_features (Features (ad_feature_value_list_ t) (ad_feature_value_id_list_ t)
          (<[ad_docid := ids]> (ad_features_map_ t)) (unviewed_items_ t)) r).

(** A [std::set] is read in the order of its elements. *)
Definition in_order (ids : gset nat) : list nat := merge_sort le (elements ids).

Definition getAdLatentVecKeys (ad_docid : string) (ad_latentvec_keys : list string) (r : AdRecommender)
    : option (list string) :=
  if negb (use_ad_feature_ r) then Some [ad_docid]
  else
    match ad_features_map_ (ad_features r) !! ad_docid with
    | None => Some ad_latentvec_keys
    | Some ids => mapM (λ id, ad_feature_value_list_ (ad_features r) !! id) (in_order ids)
    end.

(** ** The vector of a user *)

Definition getUserLatentVecKeys (user_info : list (string * string)) : list string :=
  map (λ kv, String.append kv.1 kv.2) user_info.

(** The last step of all overloads. *)
Definition average (n : nat) (x : double) : double :=
  if (n =? 0)%nat then d_of_Z 1 else d_div x (d_of_Z (Z.of_nat n)).

(** [latent_vec[j] += v[j]] for all [j]. *)
Definition add_latent (latent_vec v : LatentVecT) : option LatentVecT :=
  foldM (λ l j, a ← l !! j; x ← v !! j; wr j (d_add a x) l) latent_vec (seq 0 (length latent_vec)).

Definition getCombinedUserLatentVec (users : LatentVecContainerT) (latentvec_keys : list string)
    : option LatentVecT :=
  sums ← foldM (λ l key, match users !! key with None => Some l | Some v => add_latent l v end)
           (replicate LATENT_VEC_DIM d_zero) latentvec_keys;
  Some (map (average (length latentvec_keys)) sums).

(** The overload for one component of a list of vectors. *)
Definition getCombinedUserLatentVec_k (latentvec_list : list LatentVecT) (latent_vec : LatentVecT) (k : nat)
    : option LatentVecT :=
  x ← latent_vec !! k;
  sum ← foldM (λ s v, y ← v !! k; Some (d_add s y)) x latentvec_list;
  wr k (average (length latentvec_list) sum) latent_vec.

(** ** Recommendation *)

Record ScoredAdItem := Item { key : string; score : double }.

(** [ScoreSortedAdQueue::lessThan]. *)
Definition item_lessThan (score_epsilon : double) : ScoredAdItem → ScoredAdItem → bool :=
  near_lt score_epsilon score (λ o1 o2, str_lt (key o1) (key o2)).

Section recommend.
Context (iter : LatentVecContainerT → list (string * LatentVecT)).
Context {Q : Type} `{Ops : PQOps ScoredAdItem Q}.

(** The vectors to be scored: all, or those of the given items. *)
Definition candidates (r : AdRecommender) (recommended_items : list string) : list (string * LatentVecT) :=
  match recommended_items with
  | [] => iter (ad_latent_vec_list_ r)
  | _ => omap (λ k, pair k <$> ad_latent_vec_list_ r !! k) recommended_items
  end.

Definition insert_candidate (user_latent_vec : LatentVecT) (hit_list : Q) (kv : string * LatentVecT) : option Q :=
  match kv.2 with
  | [] => Some hit_list
  | _ => s ← affinity user_latent_vec kv.2; '(_, hit_list) ← q_insert (Item kv.1 s) hit_list; Some hit_list
  end.

(** What is written for the popped item. *)
Definition choose_item (t : FeatureTable) (default_score : option double) (popped : nat) (item : ScoredAdItem)
    : option (string * double) :=
  let own := Some (key item, score item) in
  match default_score with
  | None => own
  | Some d =>
      if d_lt (score item) d then
        match getunviewed (unviewed_items_ t) popped with
        | Some unview_index =>
            if (unview_index <? length (ad_feature_value_list_ t))%nat
            then s ← ad_feature_value_list_ t !! unview_index; Some (s, d) else own
        | None => own
        end
      else own
  end.

Fixpoint write_items (t : FeatureTable) (default_score : option double) (n popped : nat) (hit_list : Q)
    (items : list string) (scores : list double) : option (list string * list double) :=
  match n with
  | O => Some (items, scores)
  | S n =>
      '(item, hit_list) ← q_pop hit_list;
      c ← choose_item t default_score popped item;
      items ← wr n c.1 items;
      scores ← wr n c.2 scores;
      write_items t default_score n (S popped) hit_list items scores
  end.

(** [default_score] is [None] when nothing may be exchanged. *)
Definition doRecommend (user_info : list (string * string)) (max_return : nat)
    (recommended_items : list string) (score_list : list double) (rec_for_unview : bool) (r : AdRecommender)
    : option (list string * list double) :=
  user_latent_vec ← getCombinedUserLatentVec (user_feature_latent_vec_list_ r) (getUserLatentVecKeys user_info);
  let has_unviewed_item := rec_for_unview && negb (bool_decide (unviewed_items_ (ad_features r) = ∅)) in
  hit_list ← foldM (insert_candidate user_latent_vec) (q_new max_return) (candidates r recommended_items);
  default_score ← (if has_unviewed_item then Some <$> affinity user_latent_vec (default_latent_ r) else Some None);
  let n := q_size hit_list in
  write_items (ad_features r) default_score n 0 hit_list
    (resize n EmptyString recommended_items) (resize n d_zero score_list).

Definition recommendFromCand user_info max_return recommended_items score_list r :=
  doRecommend user_info max_return recommended_items score_list false r.

Definition recommend user_info max_return recommended_items score_list r :=
  doRecommend user_info max_return recommended_items score_list true r.

End recommend.

(** ** Learning *)

Section update.
Context (random_ : nat → Z).

Definition new_vec (pos : nat) : LatentVecT :=
  map (λ j, d_of_Z (random_ (pos + j)%nat `mod` 10)) (seq 0 LATENT_VEC_DIM).

(** The map, the pointers, the position in the random numbers. *)
Definition touch_user (is_clicked : bool) (st : LatentVecContainerT * list string * nat) (key : string)
    : LatentVecContainerT * list string * nat :=
  let '(users, ptrs, pos) := st in
  match users !! key with
  | None => (<[key := new_vec pos]> users, if is_clicked then ptrs ++ [key] else ptrs, (pos + LATENT_VEC_DIM)%nat)
  | Some _ => (users, ptrs ++ [key], pos)
  end.

(** [ad_feature_value_id_list_[key]] adds an unknown key, with the id 0. *)
Definition touch_ad (st : LatentVecContainerT * FeatureTable * nat) (key : string)
    : option (LatentVecContainerT * FeatureTable * nat) :=
  let '(ads, t, pos) := st in
  let '(ads, pos) := match ads !! key with
                     | None => (<[key := new_vec pos]> ads, (pos + LATENT_VEC_DIM)%nat)
                     | Some _ => (ads, pos)
                     end in
  let ids := ad_feature_value_id_list_ t in
  let id := default 0%nat (ids !! key) in
  if bit_ok id then
    Some (ads, Features (ad_feature_value_list_ t) (<[key := id]> ids) (ad_features_map_ t)
                 (unviewed_items_ t ∖ {[id]}), pos)
  else None.

(** The step of the gradient for one component: the vector of the ad, the
    vectors of the user, the combined vector, the norm. *)
Definition train_user (gradient a : double) (k : nat) (st : list LatentVecT * double) (v : LatentVecT)
    : option (list LatentVecT * double) :=
  x ← v !! k;
  let x := d_add x (d_mul gradient a) in
  v ← wr k x v;
  Some (st.1 ++ [v], d_stdmax st.2 (d_abs x)).

Definition train_component (gradient : double) (st : LatentVecT * list LatentVecT * LatentVecT * double) (k : nat)
    : option (LatentVecT * list LatentVecT * LatentVecT * double) :=
  let '(ad, users, combined, norm) := st in
  combined ← getCombinedUserLatentVec_k users combined k;
  c ← combined !! k;
  a ← ad !! k;
  let a := d_add a (d_mul gradient c) in
  ad ← wr k a ad;
  '(users, norm) ← foldM (train_user gradient a k) ([], d_stdmax norm (d_abs a)) users;
  Some (ad, users, combined, norm).

Definition train_ad (gradient : double) (st : list LatentVecT * list LatentVecT * double) (ad : LatentVecT)
    : option (list LatentVecT * list LatentVecT * double) :=
  let '(ads, users, norm) := st in
  '(ad, users, _, norm) ← foldM (train_component gradient) (ad, users, replicate LATENT_VEC_DIM d_zero, norm)
                            (seq 0 (length ad));
  Some (ads ++ [ad], users, norm).

(** [tmp[i].swap( *ptr[i] )] in turn. *)
Definition store_all (ptrs : list string) (vecs : list LatentVecT) (m : LatentVecContainerT) : LatentVecContainerT :=
  fold_left (λ m kv, <[kv.1 := kv.2]> m) (zip ptrs vecs) m.

Definition rescale (norm : double) (m : LatentVecContainerT) : LatentVecContainerT :=
  if d_gt norm MAX_NORM then map (λ x, d_mul x (d_div MAX_NORM norm)) <$> m else m.

(** The counters; the rates follow every 50000 impressions. *)
Definition count_impression (is_clicked : bool) (r : AdRecommender) : AdRecommender :=
  let impressions := u64 (impression_num_ r + 1) in
  let clicked := if is_clicked then u64 (clicked_num_ r + 1) else clicked_num_ r in
  if impressions `mod` 50000 =? 0 then
    with_rates clicked impressions
      (d_add (d_div (d_mul (d_mul (d_of_Z (-1)) SMOOTH) (d_of_Z clicked)) (d_of_Z (u64 (impressions - clicked))))
             (d_mul (d_sub (d_of_Z 1) SMOOTH) (ratio_ r)))
      (d_div (d_of_Z 1) (d_of_Z clicked)) r
  else with_rates clicked impressions (ratio_ r) (learning_rate_ r) r.

Definition update (user_info : list (string * string)) (ad_docid : string) (is_clicked : bool) (r : AdRecommender)
    : option AdRecommender :=
  let r := count_impression is_clicked r in
  let '(users, user_ptrs, pos) :=
    fold_left (touch_user is_clicked) (getUserLatentVecKeys user_info)
      (user_feature_latent_vec_list_ r, [], random_pos_ r) in
  tmp_users ← mapM (λ k, users !! k) user_ptrs;
  ad_keys ← getAdLatentVecKeys ad_docid [] r;
  '(ads, t, pos) ← foldM touch_ad (ad_latent_vec_list_ r, ad_features r, pos) ad_keys;
  tmp_ads ← mapM (λ k, ads !! k) ad_keys;
  let gradient := if is_clicked then learning_rate_ r else d_mul (ratio_ r) (learning_rate_ r) in
  '(tmp_ads, tmp_users, norm) ← foldM (train_ad gradient) ([], tmp_users, d_zero) tmp_ads;
  Some (with_features t
          (with_latents (rescale norm (store_all ad_keys tmp_ads ads))
             (rescale norm (store_all user_ptrs tmp_users users)) pos r)).

End update.
