(* ===== verification/RecommenderUpdate.v ===== *)
(** * The features and the learning of the recommender ([ad-manager/AdRecommender.cpp])

    The invariant of Recommender.v: values and ids of features are inverse to
    each other, all vectors have the full length, and a feature that counts as
    never shown has no vector.  [updateAdFeatures] and, when the features of
    ads are used, [update] preserve it; without them [update] breaks it. *)
From S2P Require Import Prelude CNum PriorityQueue QueueSpec HitQueue Phrases Recommender.

(** ** Invariant *)

Record table_ok (t : FeatureTable) : Prop := {
  tab_ids : ∀ s id, ad_feature_value_id_list_ t !! s = Some id ↔ ad_feature_value_list_ t !! id = Some s;
  tab_bound : Z.of_nat (length (ad_feature_value_list_ t)) ≤ MAX_AD_ITEMS;
  tab_ads : ∀ ad ids id, ad_features_map_ t !! ad = Some ids → id ∈ ids →
    (id < length (ad_feature_value_list_ t))%nat;
  tab_unviewed : ∀ id, id ∈ unviewed_items_ t → (id < length (ad_feature_value_list_ t))%nat }.

Definition full (v : LatentVecT) : Prop := length v = LATENT_VEC_DIM.
Definition latent_ok (m : LatentVecContainerT) : Prop := ∀ k v, m !! k = Some v → full v.

Record rec_ok (r : AdRecommender) : Prop := {
  rec_table : table_ok (ad_features r);
  rec_ads : latent_ok (ad_latent_vec_list_ r);
  rec_users : latent_ok (user_feature_latent_vec_list_ r);
  rec_default : full (default_latent_ r);
  rec_registered : ∀ k, is_Some (ad_latent_vec_list_ r !! k) → k ∈ ad_feature_value_list_ (ad_features r);
  rec_unviewed : ∀ id s, id ∈ unviewed_items_ (ad_features r) →
    ad_feature_value_list_ (ad_features r) !! id = Some s → ad_latent_vec_list_ r !! s = None }.

Lemma tab_fun t i j s : table_ok t →
  ad_feature_value_list_ t !! i = Some s → ad_feature_value_list_ t !! j = Some s → i = j.
Proof. intros Ht Hi%(tab_ids _ Ht) Hj%(tab_ids _ Ht). congruence. Qed.

Lemma tab_known t s : table_ok t →
  s ∈ ad_feature_value_list_ t ↔ is_Some (ad_feature_value_id_list_ t !! s).
Proof.
  intros Ht. rewrite list_elem_of_lookup. split; intros [i Hi]; exists i; by apply (tab_ids _ Ht).
Qed.

Lemma tab_bit t id s : table_ok t → ad_feature_value_list_ t !! id = Some s → bit_ok id = true.
Proof.
  intros Ht Hid%lookup_lt_Some. pose proof (tab_bound _ Ht). unfold bit_ok. apply Z.ltb_lt. lia.
Qed.

Lemma elem_in_order ids id : id ∈ in_order ids ↔ id ∈ ids.
Proof. unfold in_order. by rewrite (merge_sort_Permutation le), elem_of_elements. Qed.

Lemma in_order_NoDup ids : NoDup (in_order ids).
Proof. unfold in_order. rewrite (merge_sort_Permutation le). apply NoDup_elements. Qed.

(** ** [updateAdFeatures] *)

(** What registering the values [pre] does: the new values come last and count
    as never shown; [ids] are the ids of [pre]. *)
Record registered (t : FeatureTable) (pre : list string) (t' : FeatureTable) (ids : gset nat) : Prop := {
  reg_table : table_ok t';
  reg_new : ∃ new, ad_feature_value_list_ t' = ad_feature_value_list_ t ++ new ∧ (length new ≤ length pre)%nat ∧
    new ⊆ pre ∧ (∀ s, s ∈ new → s ∉ ad_feature_value_list_ t);
  reg_map : ad_features_map_ t' = ad_features_map_ t;
  reg_unviewed : ∀ id, id ∈ unviewed_items_ t' ↔
    id ∈ unviewed_items_ t ∨ (length (ad_feature_value_list_ t) ≤ id < length (ad_feature_value_list_ t'))%nat;
  reg_ids : ∀ id, id ∈ ids ↔ ∃ s, s ∈ pre ∧ ad_feature_value_list_ t' !! id = Some s;
  reg_all : ∀ s, s ∈ pre → s ∈ ad_feature_value_list_ t' }.

Lemma feature_step_ok t pre t1 ids s :
  registered t pre t1 ids → Z.of_nat (length (ad_feature_value_list_ t) + length pre) < MAX_AD_ITEMS →
  ∃ t2 ids2, feature_step (t1, ids) s = Some (t2, ids2) ∧ registered t (pre ++ [s]) t2 ids2.
Proof.
  intros [Ht (new & Enew & Hnew & Hsub & Hfresh) Hmap Hunv Hids Hall] Hroom. unfold feature_step.
  destruct (ad_feature_value_id_list_ t1 !! s) as [id|] eqn:Es.
  - eexists _, _. split; [reflexivity|]. apply (tab_ids _ Ht) in Es. split; [done| |done|done| |].
    + exists new. rewrite length_app. split_and!; [done|lia|set_solver|done].
    + intros id'. rewrite elem_of_union, elem_of_singleton, Hids. split.
      * intros [->|(s' & Hs' & Hl)]; [exists s; split; [set_solver|done]|exists s'; split; [set_solver|done]].
      * intros (s' & [Hs'| ->%list_elem_of_singleton]%elem_of_app & Hl); [right; by exists s'|left].
        by apply (tab_fun t1 _ _ s).
    + intros s' [Hs'| ->%list_elem_of_singleton]%elem_of_app; [by apply Hall|]. by eapply list_elem_of_lookup_2.
  - assert (length (ad_feature_value_list_ t1) ≤ length (ad_feature_value_list_ t) + length pre)%nat as Hlen
      by (rewrite Enew, length_app; lia).
    unfold bit_ok. rewrite (proj2 (Z.ltb_lt _ _)) by lia. eexists _, _. split; [reflexivity|].
    assert (s ∉ ad_feature_value_list_ t1) as Hns by (rewrite (tab_known _ _ Ht), Es; by intros []).
    split; simpl.
    + split; simpl.
      * intros s' id. rewrite lookup_insert_Some, lookup_snoc_Some, (tab_ids _ Ht). split.
        -- intros [[<- <-]|[Hne Hl]]; [by right|left]. split; [by eapply lookup_lt_Some|done].
        -- intros [[Hid Hl]|[-> ->]]; [right|by left]. split; [|done]. intros ->.
           by apply Hns, list_elem_of_lookup_2 with id.
      * rewrite length_app. simpl. lia.
      * intros ad ids' id Had Hid. rewrite length_app. simpl. pose proof (tab_ads _ Ht ad ids' id Had Hid). lia.
      * intros id [->%elem_of_singleton|Hid]%elem_of_union; rewrite length_app; simpl; [lia|].
        pose proof (tab_unviewed _ Ht id Hid). lia.
    + exists (new ++ [s]). rewrite Enew, <- app_assoc, !length_app. simpl. split_and!; [done|lia|set_solver|].
      intros s' [Hs'| ->%list_elem_of_singleton]%elem_of_app; [by apply Hfresh|].
      intros Hin. apply Hns. rewrite Enew. by apply elem_of_app; left.
    + done.
    + intros id. rewrite elem_of_union, elem_of_singleton, Hunv, length_app. simpl.
      rewrite Enew, length_app in *. split; [intros [->|[?|?]]|intros [?|?]]; [right|by left|right|by right; left|]; try lia.
    + intros id. rewrite elem_of_union, elem_of_singleton, Hids. setoid_rewrite lookup_snoc_Some. split.
      * intros [->|(s' & Hs' & Hl)]; [exists s; split; [set_solver|by right]|].
        exists s'. split; [set_solver|left]. split; [by eapply lookup_lt_Some|done].
      * intros (s' & Hs' & [[Hl Hl']|[-> ->]]); [right|by left]. exists s'. split; [|done].
        apply elem_of_app in Hs' as [?| ->%list_elem_of_singleton]; [done|].
        by destruct Hns; apply list_elem_of_lookup_2 with id.
    + intros s' [Hs'| ->%list_elem_of_singleton]%elem_of_app; set_solver.
Qed.

Lemma register_ok t fs :
  table_ok t → Z.of_nat (length (ad_feature_value_list_ t) + length fs) ≤ MAX_AD_ITEMS →
  ∃ t' ids, foldM feature_step (t, ∅) fs = Some (t', ids) ∧ registered t fs t' ids.
Proof.
  intros Ht Hroom.
  destruct (foldM_inv (λ pre st, registered t pre st.1 st.2) feature_step fs (t, ∅)) as ([t' ids] & E & Hr).
  - split; simpl; [done| |done| | |].
    + exists []. rewrite app_nil_r. split_and!; [done|simpl; lia|done|]. by intros ? ?%not_elem_of_nil.
    + intros id. split; [by left|]. intros [?|?]; [done|lia].
    + intros id. split; [set_solver|]. by intros (? & ?%not_elem_of_nil & _).
    + by intros ? ?%not_elem_of_nil.
  - intros pre s [t1 ids] Hpre [suf Hfs]. simpl in *.
    destruct (feature_step_ok t pre t1 ids s Hpre) as (t2 & ids2 & E & Hr); [|by exists (t2, ids2)].
    rewrite Hfs, length_app in Hroom. simpl in Hroom. lia.
  - by exists t', ids.
Qed.

Lemma mapM_lookup_ok {A} (l : list A) idx : (∀ i, i ∈ idx → (i < length l)%nat) →
  ∃ r, mapM (λ i, l !! i) idx = Some r ∧ length r = length idx ∧
  ∀ x, x ∈ r ↔ ∃ i, i ∈ idx ∧ l !! i = Some x.
Proof.
  induction idx as [|i idx IH]; intros Hin.
  { exists []. split_and!; [done|done|]. intros x. split; [by intros ?%not_elem_of_nil|].
    by intros (? & ?%not_elem_of_nil & _). }
  destruct (lookup_lt_is_Some_2 l i) as [y Hy]; [apply Hin; by left|].
  destruct IH as (r & E & Hl & Hr); [intros j Hj; apply Hin; by right|].
  exists (y :: r). simpl. rewrite Hy. simpl. rewrite E. simpl. split_and!; [done|by rewrite Hl|].
  intros x. rewrite elem_of_cons, Hr. split.
  - intros [->|(j & Hj & Hx)]; [exists i; split; [by left|done]|exists j; split; [by right|done]].
  - intros (j & [->|Hj]%elem_of_cons & Hx); [left; congruence|right; by exists j].
Qed.

Lemma mapM_lookup_NoDup {A} (l : list A) idx r :
  (∀ i j x, l !! i = Some x → l !! j = Some x → i = j) → NoDup idx → mapM (λ i, l !! i) idx = Some r → NoDup r.
Proof.
  intros Hinj Hnd Hr%mapM_Some. induction Hr as [|i x idx r Hi Hr IH]; [constructor|].
  apply NoDup_cons in Hnd as [Hn Hnd]. constructor; [|by apply IH].
  intros Hx. apply list_elem_of_lookup in Hx as [n Hx].
  destruct (Forall2_lookup_r _ _ _ _ _ Hr Hx) as (j & Hj & Hl).
  apply Hn. rewrite (Hinj i j x Hi Hl). by eapply list_elem_of_lookup_2.
Qed.

(** The keys of an ad with the ids [ids]. *)
Lemma keys_of_ids r ids :
  table_ok (ad_features r) → (∀ id, id ∈ ids → (id < length (ad_feature_value_list_ (ad_features r)))%nat) →
  ∃ keys, mapM (λ id, ad_feature_value_list_ (ad_features r) !! id) (in_order ids) = Some keys ∧ NoDup keys ∧
  ∀ s, s ∈ keys ↔ ∃ id, id ∈ ids ∧ ad_feature_value_list_ (ad_features r) !! id = Some s.
Proof.
  intros Ht Hids.
  destruct (mapM_lookup_ok (ad_feature_value_list_ (ad_features r)) (in_order ids)) as (keys & E & _ & Hk).
  { intros i Hi. by apply Hids, elem_in_order. }
  exists keys. split_and!; [done| |].
  - eapply mapM_lookup_NoDup; [|apply in_order_NoDup|exact E]. intros i j x. by apply tab_fun.
  - intros s. rewrite Hk. by setoid_rewrite elem_in_order.
Qed.

Lemma getAdLatentVecKeys_ok ad r :
  rec_ok r → use_ad_feature_ r = true →
  ∃ keys, getAdLatentVecKeys ad [] r = Some keys ∧ NoDup keys ∧
  ∀ s, s ∈ keys ↔ ∃ ids id, ad_features_map_ (ad_features r) !! ad = Some ids ∧ id ∈ ids ∧
    ad_feature_value_list_ (ad_features r) !! id = Some s.
Proof.
  intros Hok Huse. unfold getAdLatentVecKeys. rewrite Huse. simpl.
  destruct (ad_features_map_ (ad_features r) !! ad) as [ids|] eqn:E.
  - destruct (keys_of_ids r ids (rec_table _ Hok)) as (keys & Ek & Hnd & Hk); [intros id Hid; by eapply tab_ads, Hid; [apply Hok|]|].
    exists keys. split_and!; [done|done|]. intros s. rewrite Hk. naive_solver.
  - exists []. split_and!; [done|constructor|]. intros s. split; [by intros ?%not_elem_of_nil|]. by intros (? & ? & ? & _).
Qed.

Lemma mapM_ext_in {A B} (f g : A → option B) l : (∀ x, x ∈ l → f x = g x) → mapM f l = mapM g l.
Proof.
  induction l as [|x l IH]; intros E; [done|]. simpl. rewrite (E x) by by left.
  rewrite IH; [done|]. intros y Hy. apply E. by right.
Qed.


(** Registering keeps the invariant. *)
Lemma registered_rec_ok r pre t ids ad :
  rec_ok r → registered (ad_features r) pre t ids →
  rec_ok (with_features (Features (ad_feature_value_list_ t) (ad_feature_value_id_list_ t)
            (<[ad := ids]> (ad_features_map_ t)) (unviewed_items_ t)) r).
Proof.
  intros [Hrt Hra Hru Hrd Hrr Hrv] [Ht (new & Enew & _ & Hsub & Hfresh) Hmap Hunv Hids Hall].
  split; simpl; try done.
  - destruct Ht as [T1 T2 T3 T4]. split; simpl; [done|done| |done].
    intros ad' ids' id. destruct (decide (ad' = ad)) as [->|Hne].
    + rewrite lookup_insert_eq. intros [= <-] (s & _ & Hs)%Hids. by eapply lookup_lt_Some.
    + rewrite lookup_insert_ne by done. apply T3.
  - intros k Hk. rewrite Enew. apply elem_of_app. left. by apply Hrr.
  - intros id s Hid Hs. destruct (ad_latent_vec_list_ r !! s) as [v|] eqn:E; [exfalso|done].
    apply Hunv in Hid as [Hid|[Hid _]].
    + pose proof (tab_unviewed _ Hrt _ Hid) as Hlt. rewrite Enew, lookup_app_l in Hs by done.
      by rewrite (Hrv id s Hid Hs) in E.
    + rewrite Enew, lookup_app_r in Hs by done. apply list_elem_of_lookup_2, Hfresh in Hs.
      apply Hs, Hrr. by exists v.
Qed.

(** [updateAdFeatures] registers the features of the ad, or the ad itself
    when it has none: [getAdLatentVecKeys] reads them back without repetition;
    other ads read what they read before, values that were not known count as
    never shown, and the invariant of the recommender holds again. *)
Theorem updateAdFeatures_reads ad fs r :
  rec_ok r → use_ad_feature_ r = true →
  Z.of_nat (length (ad_feature_value_list_ (ad_features r)) + S (length fs)) ≤ MAX_AD_ITEMS →
  ∃ r' keys, updateAdFeatures ad fs r = Some r' ∧ rec_ok r' ∧
  getAdLatentVecKeys ad [] r' = Some keys ∧ NoDup keys ∧
  (∀ s, s ∈ keys ↔ s ∈ match fs with [] => [ad] | _ => fs end) ∧
  (∀ ad', ad' ≠ ad → getAdLatentVecKeys ad' [] r' = getAdLatentVecKeys ad' [] r) ∧
  (∀ id s, ad_feature_value_list_ (ad_features r') !! id = Some s →
     (id ∈ unviewed_items_ (ad_features r') ↔
      id ∈ unviewed_items_ (ad_features r) ∨ s ∉ ad_feature_value_list_ (ad_features r))).
Proof.
  intros Hok Huse Hroom. unfold updateAdFeatures. rewrite Huse. simpl negb. cbn [orb].
  set (pre := if match fs with [] => true | _ => false end then fs ++ [ad] else fs).
  assert (pre = match fs with [] => [ad] | _ => fs end) as Hpre by by destruct fs.
  destruct (register_ok (ad_features r) pre (rec_table _ Hok)) as (t & ids & E & Hreg).
  { assert (length pre ≤ S (length fs))%nat by (rewrite Hpre; destruct fs; simpl; lia). lia. }
  rewrite E. cbn [mbind option_bind]. rewrite <- Hpre.
  pose proof (registered_rec_ok r pre t ids ad Hok Hreg) as Hok'.
  set (r' := with_features _ r) in *.
  destruct Hreg as [Ht (new & Enew & _ & Hsub & Hfresh) Hmap Hunv Hids Hall].
  destruct (getAdLatentVecKeys_ok ad r' Hok') as (keys & Ek & Hnd & Hk); [done|].
  exists r', keys. split_and!; [done|done|done|done| | |].
  - intros s. rewrite Hk. unfold r'. simpl. rewrite lookup_insert_eq. split.
    + intros (ids' & id & [= <-] & (s' & Hs' & Hl)%Hids & Hl'). by rewrite Hl in Hl'; injection Hl' as <-.
    + intros Hs. destruct (proj1 (list_elem_of_lookup _ _) (Hall s Hs)) as [id Hid].
      exists ids, id. split_and!; [done| |done]. apply Hids. by exists s.
  - intros ad' Hne. unfold getAdLatentVecKeys, r'. simpl. rewrite Huse. simpl.
    rewrite lookup_insert_ne by done. rewrite Hmap. destruct (ad_features_map_ (ad_features r) !! ad') as [ids'|] eqn:Ea; [|done].
    apply mapM_ext_in. intros id Hid%elem_in_order. rewrite Enew. apply lookup_app_l.
    by eapply (tab_ads _ (rec_table _ Hok)).
  - intros id s Hs. unfold r' in *. simpl in *. rewrite Hunv. split; (intros [Hid|Hid]; [by left|right]).
    + rewrite Enew, lookup_app_r in Hs by lia. by apply list_elem_of_lookup_2, Hfresh in Hs.
    + split; [|by eapply lookup_lt_Some]. apply Nat.le_ngt. intros Hlt. rewrite Enew, lookup_app_l in Hs by done.
      by apply Hid, list_elem_of_lookup_2 with id.
Qed.

(** ** Training *)

Lemma full_lookup v k : full v → (k < LATENT_VEC_DIM)%nat → is_Some (v !! k).
Proof. unfold full. intros Hv Hk. apply lookup_lt_is_Some_2. lia. Qed.

Lemma wr_full k x v : full v → (k < LATENT_VEC_DIM)%nat → ∃ v', wr k x v = Some v' ∧ full v'.
Proof.
  unfold full. intros Hv Hk. exists (<[k := x]> v). rewrite wr_Some by lia. split; [done|]. by rewrite length_insert.
Qed.

(** Reading a component of full vectors never fails. *)
Lemma foldM_component k vecs : ∀ x, (k < LATENT_VEC_DIM)%nat → Forall full vecs →
  is_Some (foldM (λ s v, y ← v !! k; Some (d_add s y)) x vecs).
Proof.
  induction vecs as [|v vecs IH]; intros x Hk Hf; [by eexists|]. inversion_clear Hf as [|?? Hv Hf'].
  destruct (full_lookup v k Hv Hk) as [y Hy]. simpl. rewrite Hy. simpl. by apply IH.
Qed.

Lemma combined_k_ok vecs c k : (k < LATENT_VEC_DIM)%nat → Forall full vecs → full c →
  ∃ c', getCombinedUserLatentVec_k vecs c k = Some c' ∧ full c'.
Proof.
  intros Hk Hf Hc. unfold getCombinedUserLatentVec_k. destruct (full_lookup c k Hc Hk) as [x ->].
  cbn [mbind option_bind]. destruct (foldM_component k vecs x Hk Hf) as [s ->]. cbn [mbind option_bind].
  by apply wr_full.
Qed.

Lemma train_user_ok gradient a k users : ∀ n acc norm, (k < LATENT_VEC_DIM)%nat → Forall full users → Forall full acc →
  length acc = n →
  ∃ users' norm', foldM (train_user gradient a k) (acc, norm) users = Some (users', norm') ∧
  Forall full users' ∧ length users' = (n + length users)%nat.
Proof.
  induction users as [|v users IH]; intros n acc norm Hk Hf Ha Hn; simpl.
  { exists acc, norm. by rewrite Nat.add_0_r. }
  inversion_clear Hf as [|?? Hv Hf']. unfold train_user at 2. simpl.
  destruct (full_lookup v k Hv Hk) as [x ->]. cbn [mbind option_bind].
  destruct (wr_full k (d_add x (d_mul gradient a)) v Hv Hk) as (v' & -> & Hv'). cbn [mbind option_bind].
  destruct (IH (S n) (acc ++ [v']) (d_stdmax norm (d_abs (d_add x (d_mul gradient a))))) as (us & nm & E & Hus & Hl);
    [done|done|by apply Forall_app; split; [|by constructor]|rewrite length_app; simpl; lia|].
  exists us, nm. split_and!; [exact E|done|lia].
Qed.

Lemma train_component_ok gradient ad users combined norm k : (k < LATENT_VEC_DIM)%nat →
  full ad → Forall full users → full combined →
  ∃ ad' users' combined' norm', train_component gradient (ad, users, combined, norm) k = Some (ad', users', combined', norm') ∧
  full ad' ∧ Forall full users' ∧ length users' = length users ∧ full combined'.
Proof.
  intros Hk Had Hus Hc. unfold train_component.
  destruct (combined_k_ok users combined k Hk Hus Hc) as (c' & -> & Hc'). cbn [mbind option_bind].
  destruct (full_lookup c' k Hc' Hk) as [c ->]. destruct (full_lookup ad k Had Hk) as [a ->]. cbn [mbind option_bind].
  destruct (wr_full k (d_add a (d_mul gradient c)) ad Had Hk) as (ad' & -> & Had'). cbn [mbind option_bind].
  destruct (train_user_ok gradient (d_add a (d_mul gradient c)) k users 0 []
    (d_stdmax norm (d_abs (d_add a (d_mul gradient c)))) Hk Hus) as (us & nm & -> & Hus' & Hl); [constructor|done|].
  cbn [mbind option_bind]. by exists ad', us, c', nm.
Qed.

Lemma train_ad_ok gradient ads users norm ad : full ad → Forall full users → Forall full ads →
  ∃ ads' users' norm', train_ad gradient (ads, users, norm) ad = Some (ads', users', norm') ∧
  Forall full ads' ∧ length ads' = S (length ads) ∧ Forall full users' ∧ length users' = length users.
Proof.
  intros Had Hus Hads. unfold train_ad.
  destruct (foldM_inv (λ _ st, full st.1.1.1 ∧ Forall full st.1.1.2 ∧ length st.1.1.2 = length users ∧ full st.1.2)
    (train_component gradient) (seq 0 (length ad)) (ad, users, replicate LATENT_VEC_DIM d_zero, norm))
    as ([[[ad' us] c] nm] & -> & H1 & H2 & H3 & H4).
  - simpl. split_and!; [done|done|done|]. reflexivity.
  - intros pre k [[[a us] c] nm] (H1 & H2 & H3 & H4) [suf Hk]. simpl in *.
    assert (k < LATENT_VEC_DIM)%nat as Hlt.
    { assert (k ∈ seq 0 (length ad)) as Hin by (rewrite Hk; apply elem_of_app; right; left).
      apply elem_of_seq in Hin. unfold full in Had. lia. }
    destruct (train_component_ok gradient a us c nm k Hlt H1 H2 H4) as (a' & us' & c' & nm' & E & ? & ? & Hl & ?).
    exists (a', us', c', nm'). split; [done|]. simpl. by rewrite Hl.
  - cbn [mbind option_bind fst snd] in *. exists (ads ++ [ad']), us, nm.
    split_and!; [done|by apply Forall_app; split; [|by constructor]|rewrite length_app; simpl; lia|done|done].
Qed.

Lemma train_all_ok gradient l : ∀ ads users norm, Forall full l → Forall full users → Forall full ads →
  ∃ ads' users' norm', foldM (train_ad gradient) (ads, users, norm) l = Some (ads', users', norm') ∧
  Forall full ads' ∧ length ads' = (length ads + length l)%nat ∧ Forall full users' ∧ length users' = length users.
Proof.
  induction l as [|ad l IH]; intros ads users norm Hl Hus Hads; cbn [foldM length].
  { exists ads, users, norm. by rewrite Nat.add_0_r. }
  inversion_clear Hl as [|?? Had Hl'].
  destruct (train_ad_ok gradient ads users norm ad Had Hus Hads) as (ads1 & us1 & nm1 & -> & H1 & H2 & H3 & H4).
  cbn [mbind option_bind]. destruct (IH ads1 us1 nm1 Hl' H3 H1) as (ads' & us' & nm' & E & K1 & K2 & K3 & K4).
  exists ads', us', nm'. split_and!; [done|done|lia|done|by rewrite K4].
Qed.

(** ** Tables of vectors *)

Lemma latent_ok_insert m k v : latent_ok m → full v → latent_ok (<[k := v]> m).
Proof. intros Hm Hv k' v' [[_ <-]|[_ Hk]]%lookup_insert_Some; [done|by eapply Hm]. Qed.

Lemma new_vec_full random_ pos : full (new_vec random_ pos).
Proof. reflexivity. Qed.

(** [m'] has the entries of [m], and further ones for [keys]. *)
Record grown (m : LatentVecContainerT) (keys : list string) (m' : LatentVecContainerT) : Prop := {
  grown_ok : latent_ok m';
  grown_dom : ∀ k, is_Some (m' !! k) ↔ is_Some (m !! k) ∨ k ∈ keys;
  grown_other : ∀ k, k ∉ keys → m' !! k = m !! k }.

Lemma grown_refl m : latent_ok m → grown m [] m.
Proof. intros Hm. split; [done| |done]. intros k. rewrite elem_of_nil. tauto. Qed.

Lemma grown_new m keys m' k v : grown m keys m' → full v → grown m (keys ++ [k]) (<[k := v]> m').
Proof.
  intros [H1 H2 H3] Hv. split.
  - by apply latent_ok_insert.
  - intros k'. rewrite lookup_insert_is_Some', elem_of_app, H2, list_elem_of_singleton. naive_solver.
  - intros k' Hk'. rewrite lookup_insert_ne by (intros ->; set_solver). apply H3. set_solver.
Qed.

Lemma grown_old m keys m' k : grown m keys m' → is_Some (m' !! k) → grown m (keys ++ [k]) m'.
Proof.
  intros [H1 H2 H3] Hk. split; [done| |].
  - intros k'. rewrite elem_of_app, H2, list_elem_of_singleton.
    split; [naive_solver|]. intros [?|[?| ->]]; [by left|by right|by apply H2].
  - intros k' Hk'. apply H3. set_solver.
Qed.

Lemma touch_users_ok random_ clicked m keys pos : latent_ok m →
  let '(users, ptrs, _) := fold_left (touch_user random_ clicked) keys (m, [], pos) in
  grown m keys users ∧ ptrs ⊆ keys.
Proof.
  intros Hm. pattern keys, (fold_left (touch_user random_ clicked) keys (m, [], pos)).
  apply (rev_ind (λ keys, let '(users, ptrs, _) := fold_left (touch_user random_ clicked) keys (m, [], pos) in
    grown m keys users ∧ ptrs ⊆ keys)); simpl.
  { split; [by apply grown_refl|done]. }
  intros k l. rewrite fold_left_app. destruct (fold_left _ l _) as [[users ptrs] p]. intros [Hg Hp]. simpl.
  destruct (users !! k) as [v|] eqn:E.
  - split; [apply grown_old; [done|by exists v]|set_solver].
  - split; [by apply grown_new|]. destruct clicked; set_solver.
Qed.

Lemma touch_ads_ok random_ m t keys pos : latent_ok m → table_ok t →
  (∀ k, k ∈ keys → k ∈ ad_feature_value_list_ t) →
  ∃ ads t' pos', foldM (touch_ad random_) (m, t, pos) keys = Some (ads, t', pos') ∧
  grown m keys ads ∧
  ad_feature_value_list_ t' = ad_feature_value_list_ t ∧ ad_feature_value_id_list_ t' = ad_feature_value_id_list_ t ∧
  ad_features_map_ t' = ad_features_map_ t ∧ unviewed_items_ t' ⊆ unviewed_items_ t ∧
  ∀ id s, ad_feature_value_list_ t !! id = Some s → id ∈ unviewed_items_ t' ↔ id ∈ unviewed_items_ t ∧ s ∉ keys.
Proof.
  intros Hm Ht Hin.
  destruct (foldM_inv (λ pre st, grown m pre st.1.1 ∧
      ad_feature_value_list_ st.1.2 = ad_feature_value_list_ t ∧
      ad_feature_value_id_list_ st.1.2 = ad_feature_value_id_list_ t ∧
      ad_features_map_ st.1.2 = ad_features_map_ t ∧ unviewed_items_ st.1.2 ⊆ unviewed_items_ t ∧
      ∀ id s, ad_feature_value_list_ t !! id = Some s →
        id ∈ unviewed_items_ st.1.2 ↔ id ∈ unviewed_items_ t ∧ s ∉ pre)
    (touch_ad random_) keys (m, t, pos)) as ([[ads t'] pos'] & E & H1 & H2 & H3 & H4 & H6 & H5).
  - simpl. split_and!; [by apply grown_refl|done|done|done|done|]. intros id s _. rewrite elem_of_nil. tauto.
  - intros pre k [[ads t1] p] (H1 & H2 & H3 & H4 & H6 & H5) [suf Hk]. simpl in *.
    assert (k ∈ ad_feature_value_list_ t) as Hkt by (apply Hin; rewrite Hk; set_solver).
    destruct (proj1 (list_elem_of_lookup _ _) Hkt) as [id Hid].
    unfold touch_ad. rewrite H3, (proj2 (tab_ids _ Ht k id) Hid). simpl.
    assert (bit_ok id = true) as Hbit by (by eapply tab_bit).
    assert (<[k := id]> (ad_feature_value_id_list_ t) = ad_feature_value_id_list_ t) as Hsame
      by (apply insert_id, (tab_ids _ Ht), Hid).
    assert (∀ id' s, ad_feature_value_list_ t !! id' = Some s →
      id' ∈ unviewed_items_ t1 ∖ {[id]} ↔ id' ∈ unviewed_items_ t ∧ s ∉ pre ++ [k]) as Hunv.
    { intros id' s Hs. rewrite elem_of_difference, (H5 id' s Hs), elem_of_singleton, elem_of_app, list_elem_of_singleton.
      assert (id' = id ↔ s = k); [|tauto]. split; [intros ->; congruence|intros ->; by eapply tab_fun]. }
    destruct (ads !! k) as [v|] eqn:Ek; rewrite Hbit; (eexists; split; [reflexivity|]); simpl.
    + split_and!; [apply grown_old; [done|by exists v]|done|done|done|set_solver|done].
    + split_and!; [by apply grown_new|done|done|done|set_solver|done].
  - exists ads, t', pos'. by split_and!.
Qed.

Lemma mapM_vectors (m : LatentVecContainerT) ks : latent_ok m → (∀ k, k ∈ ks → is_Some (m !! k)) →
  ∃ vs, mapM (λ k, m !! k) ks = Some vs ∧ Forall full vs ∧ length vs = length ks.
Proof.
  intros Hm. induction ks as [|k ks IH]; intros Hin; [by exists []; split_and!|].
  destruct (Hin k) as [v Hv]; [by left|]. destruct IH as (vs & E & Hf & Hl); [intros k' Hk'; apply Hin; by right|].
  exists (v :: vs). simpl. rewrite Hv. simpl. rewrite E. simpl.
  split_and!; [done|constructor; [by eapply Hm|done]|by rewrite Hl].
Qed.

Lemma store_all_ok ks : ∀ vs m keys m', grown m keys m' → ks ⊆ keys → Forall full vs →
  grown m keys (store_all ks vs m').
Proof.
  unfold store_all. induction ks as [|k ks IH]; intros vs m keys m' Hg Hsub Hf; [done|].
  destruct vs as [|v vs]; [done|]. inversion_clear Hf as [|?? Hv Hf']. simpl.
  apply IH; [|set_solver|done]. destruct Hg as [H1 H2 H3]. split.
  - by apply latent_ok_insert.
  - intros k'. rewrite lookup_insert_is_Some', H2. split; [|tauto]. intros [<-|?]; [right; set_solver|done].
  - intros k' Hk'. rewrite lookup_insert_ne by (intros ->; set_solver). by apply H3.
Qed.

Lemma rescale_dom norm m k : is_Some (rescale norm m !! k) ↔ is_Some (m !! k).
Proof. unfold rescale. destruct (d_gt norm MAX_NORM); [|done]. rewrite lookup_fmap. apply fmap_is_Some. Qed.

Lemma rescale_ok norm m : latent_ok m → latent_ok (rescale norm m).
Proof.
  unfold rescale. intros Hm. destruct (d_gt norm MAX_NORM); [|done]. intros k v.
  rewrite lookup_fmap, fmap_Some. intros (w & Hw & ->). unfold full. rewrite length_map. by eapply Hm.
Qed.

Lemma rescale_eq norm m m' k : m !! k = m' !! k → rescale norm m !! k = rescale norm m' !! k.
Proof. unfold rescale. destruct (d_gt norm MAX_NORM); [|done]. rewrite !lookup_fmap. by intros ->. Qed.

(** ** [update] *)

Lemma count_impression_same clicked r :
  let r' := count_impression clicked r in
  use_ad_feature_ r' = use_ad_feature_ r ∧ ad_features r' = ad_features r ∧
  ad_latent_vec_list_ r' = ad_latent_vec_list_ r ∧
  user_feature_latent_vec_list_ r' = user_feature_latent_vec_list_ r ∧
  default_latent_ r' = default_latent_ r ∧ random_pos_ r' = random_pos_ r ∧
  impression_num_ r' = u64 (impression_num_ r + 1) ∧
  clicked_num_ r' = (if clicked then u64 (clicked_num_ r + 1) else clicked_num_ r).
Proof. unfold count_impression. by destruct (_ =? 0). Qed.

Lemma count_impression_ok clicked r : rec_ok r → rec_ok (count_impression clicked r).
Proof.
  intros [H1 H2 H3 H4 H5 H6].
  destruct (count_impression_same clicked r) as (_ & Ef & Ea & Eu & Ed & _). by split; rewrite ?Ef, ?Ea, ?Eu, ?Ed.
Qed.

(** When the features of ads are used, [update] never leaves a vector or
    a table: it gives a vector to every feature of the user and of the ad, and
    to nothing else; exactly the features of the ad stop counting as never
    shown. All other vectors stay, or are scaled together when a component of
    the new ones exceeds the limit. The invariant of the recommender holds
    again. *)
Theorem update_ok random_ info ad clicked r :
  rec_ok r → use_ad_feature_ r = true →
  ∃ r' keys norm, update random_ info ad clicked r = Some r' ∧ rec_ok r' ∧
  getAdLatentVecKeys ad [] r = Some keys ∧
  (∀ k, is_Some (ad_latent_vec_list_ r' !! k) ↔ is_Some (ad_latent_vec_list_ r !! k) ∨ k ∈ keys) ∧
  (∀ k, is_Some (user_feature_latent_vec_list_ r' !! k) ↔
     is_Some (user_feature_latent_vec_list_ r !! k) ∨ k ∈ getUserLatentVecKeys info) ∧
  (∀ k, k ∉ keys → ad_latent_vec_list_ r' !! k = rescale norm (ad_latent_vec_list_ r) !! k) ∧
  (∀ k, k ∉ getUserLatentVecKeys info →
     user_feature_latent_vec_list_ r' !! k = rescale norm (user_feature_latent_vec_list_ r) !! k) ∧
  ad_feature_value_list_ (ad_features r') = ad_feature_value_list_ (ad_features r) ∧
  ad_features_map_ (ad_features r') = ad_features_map_ (ad_features r) ∧
  (∀ id s, ad_feature_value_list_ (ad_features r) !! id = Some s →
     id ∈ unviewed_items_ (ad_features r') ↔ id ∈ unviewed_items_ (ad_features r) ∧ s ∉ keys) ∧
  impression_num_ r' = u64 (impression_num_ r + 1) ∧
  clicked_num_ r' = (if clicked then u64 (clicked_num_ r + 1) else clicked_num_ r).
Proof.
  intros Hok0 Huse. unfold update.
  destruct (count_impression_same clicked r) as (Euse & Ef & Ea & Eu & Ed & Ep & Ei & Ec).
  assert (getAdLatentVecKeys ad [] r = getAdLatentVecKeys ad [] (count_impression clicked r)) as ->
    by (unfold getAdLatentVecKeys; by rewrite Euse, Ef).
  rewrite <- Ef, <- Ea, <- Eu, <- Ei, <- Ec. rewrite <- Euse in Huse.
  pose proof (count_impression_ok clicked r Hok0) as Hok. clear Hok0 Euse Ef Ea Eu Ed Ep Ei Ec.
  set (r1 := count_impression clicked r) in *. clearbody r1. clear r. cbv zeta.
  destruct (getAdLatentVecKeys_ok ad r1 Hok Huse) as (keys & Ek & _ & Hk).
  pose proof (touch_users_ok random_ clicked (user_feature_latent_vec_list_ r1) (getUserLatentVecKeys info)
    (random_pos_ r1) (rec_users _ Hok)) as Hu.
  destruct (fold_left _ (getUserLatentVecKeys info) _) as [[users ptrs] pos]. destruct Hu as [Hu Hptrs].
  destruct (mapM_vectors users ptrs (grown_ok _ _ _ Hu)) as (tus & -> & Htus & _).
  { intros k Hk'. apply Hu. right. by apply Hptrs. }
  cbn [mbind option_bind]. rewrite Ek. cbn [mbind option_bind].
  destruct (touch_ads_ok random_ (ad_latent_vec_list_ r1) (ad_features r1) keys pos (rec_ads _ Hok) (rec_table _ Hok))
    as (ads & t & pos' & -> & Hg & H1 & H2 & H3 & H5 & H4).
  { intros k (ids & id & _ & _ & Hl)%Hk. by eapply list_elem_of_lookup_2. }
  cbn [mbind option_bind].
  destruct (mapM_vectors ads keys (grown_ok _ _ _ Hg)) as (tas & -> & Htas & _).
  { intros k Hk'. apply Hg. by right. }
  cbn [mbind option_bind].
  destruct (train_all_ok (if clicked then learning_rate_ r1 else d_mul (ratio_ r1) (learning_rate_ r1)) tas
    [] tus d_zero Htas Htus) as (tas' & tus' & norm & -> & Htas' & _ & Htus' & _); [constructor|].
  cbn [mbind option_bind].
  pose proof (store_all_ok keys tas' _ keys ads Hg ltac:(done) Htas') as Hg'.
  pose proof (store_all_ok ptrs tus' _ _ users Hu Hptrs Htus') as Hu'.
  eexists _, keys, norm. split; [reflexivity|].
  split_and!; simpl; [|done| | | | |done|done|done|done|done].
  - destruct Hok as [K1 K2 K3 K4 K5 K6]. split; simpl.
    + destruct K1 as [T1 T2 T3 T4]. split; rewrite ?H1, ?H2, ?H3; [done|done|done|].
      intros id Hid. by apply T4, H5.
    + by apply rescale_ok, Hg'.
    + by apply rescale_ok, Hu'.
    + done.
    + intros k. rewrite rescale_dom, (grown_dom _ _ _ Hg'), H1. intros [Hk'|Hk']; [by apply K5|].
      apply Hk in Hk' as (ids & id & _ & _ & Hl). by eapply list_elem_of_lookup_2.
    + intros id s. rewrite H1. intros Hid Hs. apply (H4 id s Hs) in Hid as [Hid Hn].
      apply eq_None_not_Some. rewrite rescale_dom, (grown_dom _ _ _ Hg').
      intros [Hs'|?]; [|done]. by rewrite (K6 id s Hid Hs) in Hs'; destruct Hs'.
  - intros k. rewrite rescale_dom. apply Hg'.
  - intros k. rewrite rescale_dom. apply Hu'.
  - intros k Hn. by apply rescale_eq, (grown_other _ _ _ Hg').
  - intros k Hn. by apply rescale_eq, (grown_other _ _ _ Hu').
Qed.

(** ** [load] *)

(** The ids follow from the values. *)
Lemma rebuilt_ids values : NoDup values → ∀ s id,
  fold_left (λ (ids : gmap string nat) iv, <[iv.2 := iv.1]> ids) (imap pair values) ∅ !! s = Some id ↔
  values !! id = Some s.
Proof.
  induction values as [|v values IH] using rev_ind; intros Hnd s id; [done|].
  apply NoDup_app in Hnd as (Hnd & Hn & _).
  rewrite imap_app, fold_left_app. simpl. rewrite Nat.add_0_r, lookup_insert_Some, lookup_snoc_Some, (IH Hnd).
  split.
  - intros [[<- <-]|[Hne Hl]]; [by right|left]. split; [by eapply lookup_lt_Some|done].
  - intros [[Hid Hl]|[-> <-]]; [right|by left]. split; [|done]. intros ->.
    apply (Hn s); [by eapply list_elem_of_lookup_2|by left].
Qed.

(** [init] with the files written from a recommender restores it: vectors,
    counters, features and their ids are the same, every ad reads the same
    features, the invariant holds. What was never shown is not kept: no item
    counts as never shown. *)
Theorem init_restores r :
  rec_ok r → 1 ≤ clicked_num_ r → clicked_num_ r ≤ impression_num_ r →
  let r' := init (use_ad_feature_ r) (Some (ad_latent_vec_list_ r)) (Some (user_feature_latent_vec_list_ r))
    (Some (clicked_num_ r, impression_num_ r))
    (Some (ad_feature_value_list_ (ad_features r), ad_features_map_ (ad_features r))) new_recommender in
  rec_ok r' ∧
  ad_latent_vec_list_ r' = ad_latent_vec_list_ r ∧
  user_feature_latent_vec_list_ r' = user_feature_latent_vec_list_ r ∧
  clicked_num_ r' = clicked_num_ r ∧ impression_num_ r' = impression_num_ r ∧
  ad_feature_value_list_ (ad_features r') = ad_feature_value_list_ (ad_features r) ∧
  ad_feature_value_id_list_ (ad_features r') = ad_feature_value_id_list_ (ad_features r) ∧
  (∀ ad, getAdLatentVecKeys ad [] r' = getAdLatentVecKeys ad [] r) ∧
  unviewed_items_ (ad_features r') = ∅.
Proof.
  intros [Ht Ha Hu Hd Hr Hv] Hc Hi. unfold init. simpl.
  rewrite (proj2 (Z.ltb_ge (clicked_num_ r) 1)) by lia.
  rewrite (proj2 (Z.ltb_ge (impression_num_ r) (clicked_num_ r))) by lia.
  assert (NoDup (ad_feature_value_list_ (ad_features r))) as Hnd.
  { apply NoDup_alt. intros i j s. by apply tab_fun. }
  pose proof (rebuilt_ids _ Hnd) as Hids.
  split_and!; simpl; try done.
  - destruct Ht as [T1 T2 T3 T4]. split; simpl; try done.
  - apply map_eq. intros s. apply option_eq. intros id. by rewrite Hids, (tab_ids _ Ht).
Qed.

(** ** Without the features of ads *)

(** A click on an ad whose features were never registered gives it the id 0,
    which is the id of another feature; that one also counts as shown. *)
Definition single_feature : FeatureTable := Features ["shoes"%string] {["shoes"%string := 0%nat]} ∅ {[0%nat]}.

Lemma single_feature_ok : table_ok single_feature.
Proof.
  split; simpl; [|done| |].
  - intros s id. rewrite lookup_singleton_Some, list_lookup_singleton_Some. naive_solver.
  - intros ad ids id. by rewrite lookup_empty.
  - intros id ->%elem_of_singleton. lia.
Qed.

Lemma update_unregistered :
  let r := Rec false single_feature ∅ ∅ 1 1000 d_zero d_zero (replicate LATENT_VEC_DIM (d_of_Z 1)) 0 in
  ∃ r', update (λ _, 3) [] "ad7" true r = Some r' ∧
  ad_feature_value_id_list_ (ad_features r') !! "ad7"%string = Some 0%nat ∧
  ad_feature_value_list_ (ad_features r') !! 0%nat = Some "shoes"%string ∧
  elements (unviewed_items_ (ad_features r')) = [].
Proof. eexists. split; [vm_compute; reflexivity|]. split_and!; vm_compute; reflexivity. Qed.

(** ** Witnesses *)

(** Two ads with three features, two of them shown to a user. *)
Definition sample_table : FeatureTable :=
  Features ["shoes"; "boots"; "hats"] (list_to_map [("shoes", 0); ("boots", 1); ("hats", 2)]%nat)
    (list_to_map [("ad1", {[0; 1]}); ("ad2", {[2]})]%nat) {[2%nat]}.

Definition sample_rec : AdRecommender :=
  Rec true sample_table
    (list_to_map [("shoes", replicate LATENT_VEC_DIM (d_of_Z 2)); ("boots", replicate LATENT_VEC_DIM (d_of_Z (-1)))])
    (list_to_map [("cityparis", replicate LATENT_VEC_DIM (d_of_Z 1))])
    1 1000 (d_lit (-1) 3) (d_of_Z 1) (replicate LATENT_VEC_DIM (d_of_Z 1)) 0.

Lemma sample_table_ok : table_ok sample_table.
Proof.
  split.
  - intros s id.
    assert (ad_feature_value_id_list_ sample_table =
      fold_left (λ (ids : gmap string nat) iv, <[iv.2 := iv.1]> ids)
        (imap pair (ad_feature_value_list_ sample_table)) ∅) as -> by (vm_compute; reflexivity).
    apply rebuilt_ids. apply (bool_decide_unpack _). vm_compute. exact I.
  - simpl. done.
  - intros ad ids id. simpl. rewrite lookup_insert_Some, lookup_insert_Some, lookup_empty. set_solver by lia.
  - intros id. simpl. intros ->%elem_of_singleton. lia.
Qed.

Lemma latent_ok_list l : Forall (λ kv, full kv.2) l → latent_ok (list_to_map l).
Proof.
  intros Hl k v Hk%elem_of_list_to_map_2. rewrite Forall_forall in Hl. by apply (Hl (k, v)).
Qed.

Lemma sample_rec_ok : rec_ok sample_rec.
Proof.
  split.
  - exact sample_table_ok.
  - apply latent_ok_list. by repeat constructor.
  - apply latent_ok_list. by repeat constructor.
  - reflexivity.
  - intros k [v Hk]. apply elem_of_list_to_map_2 in Hk. simpl.
    apply elem_of_cons in Hk as [[= -> _]|Hk]; [by left|].
    apply elem_of_cons in Hk as [[= -> _]|Hk]; [by right; left|]. by apply not_elem_of_nil in Hk.
  - intros id s Hid. simpl in Hid. apply elem_of_singleton in Hid as ->. intros [= <-]. vm_compute. reflexivity.
Qed.

Lemma updateAdFeatures_reads_witness :
  ∃ r' keys, updateAdFeatures "ad3" ["boots"; "caps"] sample_rec = Some r' ∧
  getAdLatentVecKeys "ad3" [] r' = Some keys ∧ "caps"%string ∈ keys ∧
  getAdLatentVecKeys "ad1" [] r' = Some ["shoes"; "boots"]%string.
Proof.
  destruct (updateAdFeatures_reads "ad3" ["boots"; "caps"] sample_rec sample_rec_ok) as
    (r' & keys & E & _ & Ek & _ & Hk & Hother & _); [reflexivity|vm_compute; congruence|].
  exists r', keys. split_and!; [exact E|exact Ek|apply Hk; set_solver|].
  rewrite Hother by done. vm_compute. reflexivity.
Defined.

Lemma update_ok_witness :
  ∃ r', update (λ _, 7) [("city", "paris"); ("age", "9")]%string "ad2" true sample_rec = Some r' ∧ rec_ok r' ∧
  2%nat ∉ unviewed_items_ (ad_features r') ∧ is_Some (user_feature_latent_vec_list_ r' !! "age9"%string).
Proof.
  destruct (update_ok (λ _, 7) [("city", "paris"); ("age", "9")]%string "ad2" true sample_rec sample_rec_ok eq_refl)
    as (r' & keys & norm & E & Hok & Ek & _ & Hu & _ & _ & _ & _ & Hun & _).
  exists r'. split_and!; [exact E|exact Hok| |].
  - rewrite (Hun 2%nat "hats"%string eq_refl). intros [_ Hn]. apply Hn.
    assert (getAdLatentVecKeys "ad2" [] sample_rec = Some ["hats"%string]) as E2 by (vm_compute; reflexivity).
    rewrite E2 in Ek. injection Ek as <-. by left.
  - apply Hu. right. simpl. right. by left.
Defined.

Lemma init_restores_witness :
  let r := init true (Some (ad_latent_vec_list_ sample_rec)) (Some (user_feature_latent_vec_list_ sample_rec))
    (Some (1, 1000)) (Some (["shoes"; "boots"; "hats"]%string, ad_features_map_ sample_table)) new_recommender in
  rec_ok r ∧ getAdLatentVecKeys "ad1" [] r = Some ["shoes"; "boots"]%string ∧ unviewed_items_ (ad_features r) = ∅.
Proof.
  destruct (init_restores sample_rec sample_rec_ok) as (H1 & _ & _ & _ & _ & _ & _ & Hk & Hu);
    [vm_compute; congruence|vm_compute; congruence|].
  cbv zeta. split_and!; [exact H1| |exact Hu]. etrans; [exact (Hk "ad1"%string)|]. vm_compute. reflexivity.
Defined.
