(* ===== verification/RecommenderResult.v ===== *)
(** * What the recommender returns ([ad-manager/AdRecommender.cpp])

    [recommend] against the interface of the bounded queue: the items of
    greatest affinity, best first, those below the affinity of the default
    vector exchanged for items that were never shown. *)
From S2P Require Import Prelude CNum PriorityQueue QueueSpec HitQueue Phrases Recommender RecommenderUpdate.

(** ** Never shown items *)

Lemma unviewed_loop_filter bits n : ∀ i index,
  unviewed_loop bits n i index = filter (.∈ bits) (seq i n) !! index.
Proof.
  induction n as [|n IH]; intros i index; [done|]. cbn [unviewed_loop seq]. rewrite filter_cons.
  destruct (decide (i ∈ bits)); [|apply IH]. destruct index as [|index]; [done|apply IH].
Qed.

Lemma filter_seq_bits (bits : gset nat) n : (∀ i, i ∈ bits → (i < n)%nat) →
  length (filter (.∈ bits) (seq 0 n)) = base.size bits.
Proof.
  intros Hb. assert (bits = list_to_set (filter (.∈ bits) (seq 0 n))) as Hbits.
  { apply set_eq. intros i. rewrite elem_of_list_to_set, list_elem_of_filter, elem_of_seq.
    split; [intros Hi; split; [done|]; specialize (Hb i Hi); lia|by intros [? _]]. }
  apply (f_equal base.size) in Hbits. rewrite Hbits, size_list_to_set; [done|]. apply NoDup_filter, NoDup_seq.
Qed.

(** The [index]-th one exists as long as there are so many; no two indexes
    give the same. *)
Lemma getunviewed_ok (bits : gset nat) index :
  (∀ i, i ∈ bits → Z.of_nat i < MAX_AD_ITEMS) →
  match getunviewed bits index with
  | None => (base.size bits ≤ index)%nat
  | Some i => i ∈ bits ∧ (index < base.size bits)%nat
  end.
Proof.
  intros Hb. unfold getunviewed. destruct (base.size bits <=? index)%nat eqn:E; bool_cases; [done|].
  rewrite unviewed_loop_filter.
  destruct (lookup_lt_is_Some_2 (filter (.∈ bits) (seq 0 (Z.to_nat MAX_AD_ITEMS))) index) as [i Hi].
  { rewrite filter_seq_bits; [done|]. intros i Hi. specialize (Hb i Hi). lia. }
  rewrite Hi. split; [|done]. apply list_elem_of_lookup_2, list_elem_of_filter in Hi. by destruct Hi.
Qed.

Lemma getunviewed_inj (bits : gset nat) a b i :
  getunviewed bits a = Some i → getunviewed bits b = Some i → a = b.
Proof.
  unfold getunviewed. repeat case_match; try done. rewrite !unviewed_loop_filter.
  intros Ha Hb. eapply NoDup_lookup; [|exact Ha|exact Hb]. apply NoDup_filter, NoDup_seq.
Qed.

(** ** The vector of the user and the affinities *)

Lemma add_latent_ok l v : full l → full v → ∃ l', add_latent l v = Some l' ∧ full l'.
Proof.
  intros Hl Hv. unfold add_latent. rewrite Hl.
  apply (foldM_inv (λ _ l, full l)); [done|]. intros pre j l0 Hl0 [suf Hj].
  assert (j < LATENT_VEC_DIM)%nat as Hlt.
  { assert (j ∈ seq 0 LATENT_VEC_DIM) as Hin by (rewrite Hj; apply elem_of_app; right; left).
    apply elem_of_seq in Hin. lia. }
  destruct (full_lookup l0 j Hl0 Hlt) as [a ->], (full_lookup v j Hv Hlt) as [x ->]. cbn [mbind option_bind].
  by apply wr_full.
Qed.

Lemma getCombinedUserLatentVec_ok users keys : latent_ok users →
  ∃ u, getCombinedUserLatentVec users keys = Some u ∧ full u.
Proof.
  intros Hu. unfold getCombinedUserLatentVec.
  destruct (foldM_inv (λ _ l, full l)
    (λ l key, match users !! key with None => Some l | Some v => add_latent l v end)
    keys (replicate LATENT_VEC_DIM d_zero)) as (sums & -> & Hs).
  - reflexivity.
  - intros pre k l Hl _. destruct (users !! k) as [v|] eqn:E; [|by exists l]. apply add_latent_ok; [done|by eapply Hu].
  - cbn [mbind option_bind]. eexists. split; [reflexivity|]. unfold full. by rewrite length_map.
Qed.

Lemma affinity_ok u v : full u → full v → is_Some (affinity u v).
Proof.
  intros Hu Hv. unfold affinity. rewrite Hu.
  destruct (foldM_inv (λ _ _, True) (λ sum i, x ← u !! i; y ← v !! i; Some (d_add sum (d_mul x y)))
    (seq 0 LATENT_VEC_DIM) d_zero) as (s & -> & _); [done| |by exists s].
  intros pre i s _ [suf Hi].
  assert (i < LATENT_VEC_DIM)%nat as Hlt.
  { assert (i ∈ seq 0 LATENT_VEC_DIM) as Hin by (rewrite Hi; apply elem_of_app; right; left).
    apply elem_of_seq in Hin. lia. }
  destruct (full_lookup u i Hu Hlt) as [x ->], (full_lookup v i Hv Hlt) as [y ->]. by eexists.
Qed.

Section result.
Context (iter : LatentVecContainerT → list (string * LatentVecT)).
Context (Hiter : ∀ m, iter m ≡ₚ map_to_list m).
Context {Q : Type} `{Ops : PQOps ScoredAdItem Q}.
Context (P : ScoredAdItem → Prop) (lt : ScoredAdItem → ScoredAdItem → bool).
Context `{!StrictWeakOn P lt, !BoundedPQ P lt Ops}.

(** The scored items of a list of vectors. *)
Definition scored (u : LatentVecT) (l : list (string * LatentVecT)) : list ScoredAdItem :=
  map (λ kv, Item kv.1 (default d_zero (affinity u kv.2))) l.

Lemma insert_candidates u l : ∀ q, full u → Forall (λ kv, full kv.2) l →
  foldM (insert_candidate u) q l = q_insert_all (scored u l) q.
Proof.
  unfold q_insert_all. induction l as [|[k v] l IH]; intros q Hu Hl; [done|].
  inversion_clear Hl as [|?? Hv Hl']. cbn [foldM scored map fst snd].
  destruct (affinity_ok u v Hu Hv) as [s Hs].
  assert (insert_candidate u q (k, v) = '(_, q') ← q_insert (Item k s) q; Some q') as ->.
  { unfold insert_candidate. cbn [fst snd]. destruct v; [done|]. by rewrite Hs. }
  rewrite Hs. simpl. destruct (q_insert (Item k s) q) as [[b q']|]; simpl; [|done].
  by apply IH.
Qed.

(** *** The items written *)

Definition chosen (t : FeatureTable) (d : option double) (popped : nat) (x : ScoredAdItem) : string * double :=
  default (key x, score x) (choose_item t d popped x).

Lemma choose_item_total t d popped x : table_ok t → choose_item t d popped x = Some (chosen t d popped x).
Proof.
  intros Ht. unfold chosen. assert (is_Some (choose_item t d popped x)) as [c ->]; [|done].
  unfold choose_item. destruct d as [d|]; [|by eexists]. destruct (d_lt (score x) d); [|by eexists].
  destruct (getunviewed _ popped) as [i|]; [|by eexists]. destruct (i <? _)%nat eqn:E; [|by eexists]. bool_cases.
  destruct (lookup_lt_is_Some_2 _ _ E) as [s ->]. by eexists.
Qed.

Lemma write_items_ok t d n : ∀ p q out items scores tail_items tail_scores,
  table_ok t → q_drain n q = Some out → length items = n → length scores = n →
  write_items t d n p q (items ++ tail_items) (scores ++ tail_scores) =
    Some (map fst (reverse (imap (λ j, chosen t d (p + j)) out)) ++ tail_items,
          map snd (reverse (imap (λ j, chosen t d (p + j)) out)) ++ tail_scores).
Proof.
  induction n as [|n IH]; intros p q out items scores ti ts Ht Hd Hi Hs; simpl in Hd.
  { injection Hd as <-. by destruct items, scores. }
  cbn [write_items]. destruct (q_pop q) as [[x q1]|]; [|done]. cbn [mbind option_bind] in *.
  destruct (q_drain n q1) as [out1|] eqn:Eo; [|done]. injection Hd as <-.
  induction items as [|a items _] using rev_ind; [done|]. induction scores as [|b scores _] using rev_ind; [done|].
  rewrite length_app in Hi, Hs. simpl in Hi, Hs.
  rewrite choose_item_total by done. cbn [mbind option_bind].
  rewrite !wr_Some by (rewrite !length_app; simpl; lia). cbn [mbind option_bind].
  rewrite <- !app_assoc. simpl ([_] ++ _).
  assert (∀ {A} (l : list A) y z k, length l = n → <[n := z]> (l ++ y :: k) = l ++ z :: k) as Hins.
  { intros A l y z k <-. by rewrite insert_app_r_alt, Nat.sub_diag. }
  rewrite !Hins by lia. rewrite (IH (S p) q1 out1) by (done || lia). simpl.
  rewrite !Nat.add_0_r, !reverse_cons, !map_app, <- !app_assoc. simpl.
  assert (imap (λ j, chosen t d (S (p + j))) out1 = imap ((λ j, chosen t d (p + j)) ∘ S) out1) as ->; [|done].
  apply imap_ext. intros j y _. simpl. by rewrite Nat.add_succ_r.
Qed.

Lemma q_drain_length n : ∀ q out, q_drain n q = Some out → length out = n.
Proof.
  induction n as [|n IH]; intros q out; simpl; [by intros [= <-]|].
  destruct (q_pop q) as [[x q1]|]; [simpl|done]. destruct (q_drain n q1) as [o|] eqn:E; [simpl|done].
  intros [= <-]. simpl. by rewrite (IH q1 o).
Qed.

(** *** [doRecommend] *)

Definition has_unviewed (rec_for_unview : bool) (r : AdRecommender) : bool :=
  rec_for_unview && negb (bool_decide (unviewed_items_ (ad_features r) = ∅)).

Lemma candidates_full r items : rec_ok r → Forall (λ kv, full kv.2) (candidates iter r items).
Proof.
  intros Hok. apply Forall_forall. intros [k v] Hin. apply (rec_ads _ Hok k).
  destruct items as [|i items]; unfold candidates in Hin.
  - rewrite Hiter in Hin. by apply elem_of_map_to_list.
  - apply list_elem_of_omap in Hin as (k' & _ & E). apply fmap_Some in E as (v' & Hv & [= -> ->]). done.
Qed.

Lemma doRecommend_ok info max_return items0 scores0 flag r u :
  rec_ok r → Z.of_nat max_return < 2 ^ 32 →
  getCombinedUserLatentVec (user_feature_latent_vec_list_ r) (getUserLatentVecKeys info) = Some u →
  Forall P (scored u (candidates iter r items0)) →
  ∃ items scores ranked dropped,
  doRecommend iter info max_return items0 scores0 flag r = Some (items, scores) ∧
  ranked ++ dropped ≡ₚ scored u (candidates iter r items0) ∧
  sorted_by lt (reverse ranked) ∧ top_of lt max_return ranked dropped ∧
  length items = length ranked ∧ length scores = length ranked ∧
  ∀ i x, ranked !! i = Some x →
    let c := chosen (ad_features r) (if has_unviewed flag r then affinity u (default_latent_ r) else None)
               (length ranked - S i) x in
    items !! i = Some c.1 ∧ scores !! i = Some c.2.
Proof.
  intros Hok Hmax Eu HP. unfold doRecommend. rewrite Eu. cbn [mbind option_bind]. fold (has_unviewed flag r).
  assert (full u) as Hu.
  { destruct (getCombinedUserLatentVec_ok _ (getUserLatentVecKeys info) (rec_users _ Hok)) as (u' & Eu' & Hu').
    rewrite Eu in Eu'. by injection Eu' as <-. }
  rewrite insert_candidates by (done || by apply candidates_full).
  destruct (q_topk_sort P lt max_return _ Hmax HP) as (q & out & dropped & -> & Hsize & Ed & Hperm & Hsort & Htop).
  cbn [mbind option_bind]. set (d := if has_unviewed flag r then _ else None).
  assert ((if has_unviewed flag r then Some <$> affinity u (default_latent_ r) else Some None) = Some d) as ->.
  { unfold d. destruct (has_unviewed flag r); [|done].
    by destruct (affinity_ok u (default_latent_ r) Hu (rec_default _ Hok)) as [s ->]. }
  cbn [mbind option_bind].
  set (n := q_size q) in *. clearbody n.
  pose proof (write_items_ok (ad_features r) d n 0 q out (resize n EmptyString items0) (resize n d_zero scores0)
    [] [] (rec_table _ Hok) Ed (length_resize _ _ _) (length_resize _ _ _)) as Ew.
  rewrite !app_nil_r in Ew. rewrite Ew.
  eexists _, _, (reverse out), dropped. split; [reflexivity|]. rewrite !length_map, !length_reverse, !length_imap.
  assert (out ≡ₚ reverse out) as Hrev by (symmetry; apply reverse_Permutation).
  split_and!; [by rewrite <- Hrev|by rewrite reverse_involutive|by rewrite <- Hrev|done|done|].
  intros i x Hx. assert (i < length out)%nat as Hlt by (apply lookup_lt_Some in Hx; by rewrite length_reverse in Hx).
  rewrite reverse_lookup in Hx by done.
  rewrite !list_lookup_fmap, reverse_lookup by (by rewrite length_imap). rewrite length_imap, list_lookup_imap, Hx. done.
Qed.

(** What [choose_item] chose: the item itself, or a never shown one. *)
Lemma chosen_cases r u d p x :
  rec_ok r → d = (if has_unviewed true r then affinity u (default_latent_ r) else None) →
  let c := chosen (ad_features r) d p x in
  (c = (key x, score x) ∧
     ∀ s, affinity u (default_latent_ r) = Some s → d_lt (score x) s = true →
       (base.size (unviewed_items_ (ad_features r)) ≤ p)%nat) ∨
  ∃ s id k, c = (k, s) ∧ affinity u (default_latent_ r) = Some s ∧ d_lt (score x) s = true ∧
    getunviewed (unviewed_items_ (ad_features r)) p = Some id ∧
    ad_feature_value_list_ (ad_features r) !! id = Some k.
Proof.
  intros Hok ->. unfold chosen, choose_item, has_unviewed. cbn [andb].
  assert (∀ i, i ∈ unviewed_items_ (ad_features r) → (i < length (ad_feature_value_list_ (ad_features r)))%nat) as Hun
    by apply (rec_table _ Hok).
  pose proof (getunviewed_ok (unviewed_items_ (ad_features r)) p) as Hget.
  case_bool_decide as He; cbn [negb].
  { left. split; [done|]. intros s _ _. rewrite He, size_empty. lia. }
  destruct (affinity u (default_latent_ r)) as [s|] eqn:Es; [|by left].
  destruct (d_lt (score x) s) eqn:El; [|left; split; [done|]; intros s' [= <-]; congruence].
  destruct (getunviewed _ p) as [id|] eqn:Eg.
  - destruct Hget as [Hid _].
    { intros i Hi%Hun. pose proof (tab_bound _ (rec_table _ Hok)). lia. }
    rewrite (proj2 (Nat.ltb_lt _ _)) by by apply Hun.
    destruct (lookup_lt_is_Some_2 _ _ (Hun id Hid)) as [k Hk]. right. exists s, id, k. by rewrite Hk.
  - left. split; [done|]. intros s' _ _. apply Hget. intros i Hi%Hun.
    pose proof (tab_bound _ (rec_table _ Hok)). lia.
Qed.

(** C8: [recommend] without candidates returns distinct items, at most
    [max_return]. They rank the features of ads by the affinity of their
    vector to the user, best first, and none left out is better. A feature
    below the affinity of the default vector gives its place to one that was
    never shown, as long as there are any. *)
Theorem recommend_spec info max_return scores0 r u :
  rec_ok r → Z.of_nat max_return < 2 ^ 32 →
  getCombinedUserLatentVec (user_feature_latent_vec_list_ r) (getUserLatentVecKeys info) = Some u →
  Forall P (scored u (map_to_list (ad_latent_vec_list_ r))) →
  ∃ items scores ranked dropped,
  recommend iter info max_return [] scores0 r = Some (items, scores) ∧
  ranked ++ dropped ≡ₚ scored u (map_to_list (ad_latent_vec_list_ r)) ∧
  sorted_by lt (reverse ranked) ∧ top_of lt max_return ranked dropped ∧
  NoDup items ∧ length items = length ranked ∧ length scores = length ranked ∧
  ∀ i x, ranked !! i = Some x → ∃ k s, items !! i = Some k ∧ scores !! i = Some s ∧
    (k = key x ∧ s = score x ∧
       (∀ d, affinity u (default_latent_ r) = Some d → d_lt (score x) d = true →
          (base.size (unviewed_items_ (ad_features r)) ≤ length ranked - S i)%nat) ∨
     affinity u (default_latent_ r) = Some s ∧ d_lt (score x) s = true ∧
       ∃ id, id ∈ unviewed_items_ (ad_features r) ∧ ad_feature_value_list_ (ad_features r) !! id = Some k).
Proof.
  intros Hok Hmax Eu HP.
  assert (scored u (candidates iter r []) ≡ₚ scored u (map_to_list (ad_latent_vec_list_ r))) as Hc
    by (apply Permutation_map, Hiter).
  destruct (doRecommend_ok info max_return [] scores0 true r u Hok Hmax Eu) as
    (items & scores & ranked & dropped & E & Hperm & Hsort & Htop & Hli & Hls & Hch); [by rewrite Hc|].
  rewrite Hc in Hperm. exists items, scores, ranked, dropped.
  assert (∀ id, id ∈ unviewed_items_ (ad_features r) → Z.of_nat id < MAX_AD_ITEMS) as Hbit.
  { intros id Hid%(tab_unviewed _ (rec_table _ Hok)). pose proof (tab_bound _ (rec_table _ Hok)). lia. }
  assert (∀ i x, ranked !! i = Some x → is_Some (ad_latent_vec_list_ r !! key x)) as Hkey.
  { intros i x Hx%list_elem_of_lookup_2.
    assert (x ∈ scored u (map_to_list (ad_latent_vec_list_ r))) as Hin by (rewrite <- Hperm; by apply elem_of_app; left).
    apply list_elem_of_fmap in Hin as ([k v] & -> & Hkv%elem_of_map_to_list). by exists v. }
  split_and!; [done|done|done|done| |done|done|].
  - assert (NoDup (map key ranked)) as Hnd.
    { assert (NoDup (map key (ranked ++ dropped))) as Hnd; [|by rewrite map_app in Hnd; apply NoDup_app in Hnd as [? _]].
      rewrite Hperm. unfold scored. rewrite map_map. simpl. apply NoDup_fst_map_to_list. }
    apply NoDup_alt. intros i j k Hi Hj.
    destruct (lookup_lt_is_Some_2 ranked i) as [x Hx]; [rewrite <- Hli; by eapply lookup_lt_Some|].
    destruct (lookup_lt_is_Some_2 ranked j) as [y Hy]; [rewrite <- Hli; by eapply lookup_lt_Some|].
    destruct (Hch i x Hx) as [Hi' _], (Hch j y Hy) as [Hj' _]. rewrite Hi' in Hi. rewrite Hj' in Hj.
    pose proof (lookup_lt_Some _ _ _ Hx). pose proof (lookup_lt_Some _ _ _ Hy).
    destruct (chosen_cases r u _ (length ranked - S i) x Hok eq_refl) as [[Ex _]|(sx & idx & kx & Ex & _ & _ & Gx & Lx)];
    destruct (chosen_cases r u _ (length ranked - S j) y Hok eq_refl) as [[Ey _]|(sy & idy & ky & Ey & _ & _ & Gy & Ly)];
    rewrite Ex in Hi; rewrite Ey in Hj; simpl in Hi, Hj; injection Hi as Hi; injection Hj as Hj; subst.
    + eapply NoDup_lookup; [exact Hnd| |]; rewrite list_lookup_fmap; [by rewrite Hx|rewrite Hy; simpl; by f_equal].
    + exfalso. pose proof (getunviewed_ok _ (length ranked - S j) Hbit) as Hg. rewrite Gy in Hg.
      pose proof (rec_unviewed _ Hok idy _ (proj1 Hg) Ly) as Hnone. destruct (Hkey i x Hx). congruence.
    + exfalso. pose proof (getunviewed_ok _ (length ranked - S i) Hbit) as Hg. rewrite Gx in Hg.
      pose proof (rec_unviewed _ Hok idx _ (proj1 Hg) Lx) as Hnone. destruct (Hkey j y Hy). congruence.
    + pose proof (tab_fun _ _ _ _ (rec_table _ Hok) Lx Ly). subst idy.
      pose proof (getunviewed_inj _ _ _ _ Gx Gy). lia.
  - intros i x Hx. destruct (Hch i x Hx) as [Hi Hs].
    destruct (chosen_cases r u _ (length ranked - S i) x Hok eq_refl) as [[Ex Hlow]|(s & id & k & Ex & Es & Hl & G & L)];
      rewrite Ex in Hi, Hs.
    + exists (key x), (score x). split_and!; [done|done|]. by left.
    + exists k, s. split_and!; [done|done|]. right. split_and!; [done|done|]. exists id. split; [|done].
      pose proof (getunviewed_ok _ (length ranked - S i) Hbit) as Hg. rewrite G in Hg. by destruct Hg.
Qed.

End result.

(** ** Witness *)

Definition item_eps : double := d_epsilon.
Definition affinities : list double := [d_of_Z 20; d_of_Z (-10); d_of_Z 10].

#[local] Instance item_order : StrictWeakOn (score_among score affinities) (item_lessThan item_eps).
Proof.
  apply near_lt_strict_weak; [|vm_compute; reflexivity].
  split; intros x y; [|intros z]; [apply (swo_asym (P := λ _, True) (lt := str_lt))|
    apply (swo_ntrans (P := λ _, True) (lt := str_lt))].
Qed.

#[local] Notation item_heap :=
  (heap_ops (Item "" d_zero) (Item "" d_zero) (item_lessThan item_eps)).

(** The user likes shoes; the boots give their place to the hats. *)
Lemma recommend_spec_witness :
  recommend (Ops := item_heap) map_to_list [("city", "paris")]%string 5 [] [] sample_rec =
    Some (["shoes"; "hats"]%string, [d_of_Z 20; d_of_Z 10]).
Proof.
  destruct (recommend_spec map_to_list (λ m, reflexivity _) (score_among score affinities) (item_lessThan item_eps)
    (Ops := item_heap)
    (BoundedPQ0 := heap_bounded_pq (Item "" d_zero) (Item "" d_zero) (item_lessThan item_eps)
                     (score_among score affinities))
    [("city", "paris")]%string 5 [] sample_rec (replicate LATENT_VEC_DIM (d_of_Z 1)) sample_rec_ok)
    as (items & scores & ranked & dropped & E & _); [done|vm_compute; reflexivity| |].
  - apply Forall_forall. intros x. unfold score_among. vm_compute. intros Hx.
    repeat (apply elem_of_cons in Hx as [->|Hx]; [repeat constructor|]). by apply not_elem_of_nil in Hx.
  - rewrite E. revert E. vm_compute. intros [= <- <-]. reflexivity.
Defined.
