(* ===== verification/Feedback.v ===== *)
(** * Click feedback ([ad-manager/AdFeedbackMgr.cpp])

    [parserFeedbackLog] reads one message of the log into a [FeedbackInfo].
    The JSON library, [boost::lexical_cast] and the profile server are
    parameters.  The result is an in-out argument: a field that the message
    does not set keeps its value, which is the value of the message before
    (AdIndex.v).  [None] is undefined behaviour: text read from a value that
    is not a string. *)
From S2P Require Import Prelude CNum Env.

Inductive FeedbackActionT := View | Click | Buy | TotalAction.

(** The enumerators are numbered in their order. *)
Definition action_gt_view (a : FeedbackActionT) : bool := match a with View => false | _ => true end.

(** [std::map] of [std::map]: both in the order of their keys. *)
Abbreviation ProfileData := (list (string * list (string * double))).

Record FeedbackInfo := Info {
  user_id : string;
  ad_id : string;
  hit_bidstr : string;
  action : FeedbackActionT;
  click_cost : double;
  click_slot : Z;
  profile_data : ProfileData }.

Definition with_ids u a act i := Info u a (hit_bidstr i) act (click_cost i) (click_slot i) (profile_data i).
Definition with_cost c i := Info (user_id i) (ad_id i) (hit_bidstr i) (action i) c (click_slot i) (profile_data i).
Definition with_slot s i := Info (user_id i) (ad_id i) (hit_bidstr i) (action i) (click_cost i) s (profile_data i).
Definition with_bidstr b i := Info (user_id i) (ad_id i) b (action i) (click_cost i) (click_slot i) (profile_data i).
Definition with_profile p i := Info (user_id i) (ad_id i) (hit_bidstr i) (action i) (click_cost i) (click_slot i) p.

(** [rj::Document::Parse], [HasMember] and [operator[]], [IsObject],
    [GetString]. *)
Class Json (J : Type) := {
  json_parse : string → option J;
  json_member : J → string → option J;
  json_is_object : J → bool;
  json_string : J → option string }.

(** [lexical_cast] that throws, and [getUserProfileFromDMP], which works on
    the profile it is given. *)
Class FeedbackServices := {
  cast_cost : string → option double;
  cast_slot : string → option Z;
  getUserProfileFromDMP : string → ProfileData → bool * ProfileData }.

Section feedback.
Context {J : Type} `{Json J, FeedbackServices}.

(** The statements of the [try] block: [false] in the result is an exception,
    which ends the block. *)
Definition read_cost (args : J) (i : FeedbackInfo) : option (bool * FeedbackInfo) :=
  match json_member args "click_cost" with
  | None => Some (true, i)
  | Some v => s ← json_string v;
              Some (match cast_cost s with Some c => (true, with_cost c i) | None => (false, i) end)
  end.

Definition read_slot (args : J) (i : FeedbackInfo) : option (bool * FeedbackInfo) :=
  match json_member args "click_slot" with
  | None => Some (true, i)
  | Some v =>
      slot_pos ← json_string v;
      Some (match slot_pos with
            | EmptyString => (false, i)   (* substr(1) throws *)
            | String _ slot_pos =>
                match cast_slot slot_pos with Some n => (true, with_slot (u32 n) i) | None => (false, i) end
            end)
  end.

Definition read_bidstr (args : J) (i : FeedbackInfo) : option (bool * FeedbackInfo) :=
  match json_member args "hit_orig_bidstr" with
  | None => Some (true, i)
  | Some v => s ← json_string v; Some (true, with_bidstr s i)
  end.

Definition then_read (f : FeedbackInfo → option (bool * FeedbackInfo)) (r : bool * FeedbackInfo)
    : option (bool * FeedbackInfo) :=
  if r.1 then f r.2 else Some r.

Definition read_click (args : J) (i : FeedbackInfo) : option FeedbackInfo :=
  r ← read_cost args i;
  r ← then_read (read_slot args) r;
  r ← then_read (read_bidstr args) r;
  Some r.2.

Definition action_of (action_str : string) : FeedbackActionT :=
  if String.eqb action_str "103" then Click else View.

Definition parserFeedbackLog (log_data : string) (feedback_info : FeedbackInfo) : option (bool * FeedbackInfo) :=
  match (log_doc ← json_parse log_data; args ← json_member log_doc "args";
         if json_is_object args then Some args else None) with
  | None => Some (false, feedback_info)
  | Some args =>
      match json_member args "ad", json_member args "uid", json_member args "aid" with
      | Some ad, Some uid, Some aid =>
          uid ← json_string uid;
          aid ← json_string aid;
          action_str ← json_string ad;
          let i := with_ids uid aid (action_of action_str) feedback_info in
          i ← (match action i with Click => read_click args i | _ => Some i end);
          if String.eqb uid EmptyString && String.eqb aid EmptyString then Some (false, i)
          else if String.eqb uid EmptyString then Some (true, i)
          else let '(ok, profile) := getUserProfileFromDMP uid (profile_data i) in Some (ok, with_profile profile i)
      | _, _, _ => Some (false, feedback_info)
      end
  end.

(** ** Messages that do not depend on the message before *)

Definition member_string (args : J) (name : string) : option string :=
  v ← json_member args name; json_string v.

(** A click has a cost, a slot and a phrase that can be read. *)
Definition click_complete (args : J) : bool :=
  match member_string args "click_cost", member_string args "click_slot", member_string args "hit_orig_bidstr" with
  | Some cost, Some (String _ slot), Some _ =>
      match cast_cost cost, cast_slot slot with Some _, Some _ => true | _, _ => false end
  | _, _, _ => false
  end.

(** The message is ignored, or it names a user and a complete click. *)
Definition self_contained (log_data : string) : bool :=
  match (log_doc ← json_parse log_data; args ← json_member log_doc "args";
         if json_is_object args then Some args else None) with
  | None => true
  | Some args =>
      match json_member args "ad", json_member args "uid", json_member args "aid" with
      | Some ad, Some uid, Some aid =>
          match json_string uid, json_string aid, json_string ad with
          | Some uid, Some aid, Some action_str =>
              (negb (String.eqb uid EmptyString) || String.eqb aid EmptyString) &&
              (negb (String.eqb action_str "103") || click_complete args)
          | _, _, _ => false
          end
      | _, _, _ => true
      end
  end.

(** What a handler of the message reads. *)
Definition same_feedback (i j : FeedbackInfo) : Prop :=
  user_id i = user_id j ∧ ad_id i = ad_id j ∧ action i = action j ∧ profile_data i = profile_data j ∧
  (action_gt_view (action i) = true →
     click_cost i = click_cost j ∧ click_slot i = click_slot j ∧ hit_bidstr i = hit_bidstr j).

Lemma read_click_complete args : click_complete args = true →
  ∃ c n b, ∀ j, read_click args j = Some (with_bidstr b (with_slot n (with_cost c j))).
Proof.
  unfold click_complete, member_string, read_click, read_cost, read_slot, read_bidstr.
  destruct (json_member args "click_cost") as [v1|]; [simpl|done].
  destruct (json_string v1) as [s1|]; [simpl|done].
  destruct (json_member args "click_slot") as [v2|]; [simpl|done].
  destruct (json_string v2) as [[|x s2]|]; [done|simpl|done].
  destruct (json_member args "hit_orig_bidstr") as [v3|]; [simpl|done].
  destruct (json_string v3) as [b|]; [simpl|done].
  destruct (cast_cost s1) as [c|]; [simpl|done]. destruct (cast_slot s2) as [n|]; [|done].
  intros _. by exists c, (u32 n), b.
Qed.

(** The profile server overwrites the profile it is given. *)
Definition profile_fresh : Prop := ∀ u p p', getUserProfileFromDMP u p = getUserProfileFromDMP u p'.

(** A self-contained message gives the same fields whatever came before. *)
Lemma parserFeedbackLog_fresh log i j :
  profile_fresh → self_contained log = true →
  ∃ b i' j', parserFeedbackLog log i = Some (b, i') ∧ parserFeedbackLog log j = Some (b, j') ∧
    (b = true → same_feedback i' j').
Proof.
  intros Hdmp. unfold self_contained, parserFeedbackLog.
  destruct (log_doc ← json_parse log; _) as [args|]; [|by exists false, i, j].
  destruct (json_member args "ad") as [ad|]; [|by exists false, i, j].
  destruct (json_member args "uid") as [uid|]; [|by exists false, i, j].
  destruct (json_member args "aid") as [aid|]; [|by exists false, i, j].
  destruct (json_string uid) as [u|]; [|done]. destruct (json_string aid) as [a|]; [|done].
  destruct (json_string ad) as [act|]; [|done]. intros [Hu Hact]%andb_true_iff. cbn [mbind option_bind].
  assert (∃ f : FeedbackInfo → FeedbackInfo,
    (∀ k, (match action (with_ids u a (action_of act) k) with
           | Click => read_click args (with_ids u a (action_of act) k)
           | _ => Some (with_ids u a (action_of act) k) end) = Some (f k)) ∧
    ∀ k, user_id (f k) = u ∧ ad_id (f k) = a ∧ action (f k) = action_of act ∧
      (action_gt_view (action_of act) = true → ∀ k', click_cost (f k) = click_cost (f k') ∧
         click_slot (f k) = click_slot (f k') ∧ hit_bidstr (f k) = hit_bidstr (f k'))) as (f & Hf & Hfields).
  { unfold action_of in *. destruct (String.eqb act "103"); simpl in *.
    - destruct (read_click_complete args Hact) as (c & n & b & E).
      exists (λ k, with_bidstr b (with_slot n (with_cost c (with_ids u a Click k)))). split; [intros k; apply E|done].
    - by exists (λ k, with_ids u a View k). }
  rewrite !Hf. cbn [mbind option_bind].
  destruct (Hfields i) as (I1 & I2 & I3 & I4), (Hfields j) as (J1 & J2 & J3 & _).
  destruct (String.eqb u EmptyString) eqn:Eu.
  - simpl in Hu. rewrite Hu. by exists false, (f i), (f j).
  - simpl. rewrite (Hdmp u (profile_data (f i)) (profile_data (f j))).
    destruct (getUserProfileFromDMP u (profile_data (f j))) as [ok p].
    exists ok, (with_profile p (f i)), (with_profile p (f j)). split_and!; [done|done|]. intros _.
    unfold same_feedback. simpl. rewrite I1, I2, I3, J1, J2, J3. split_and!; [done|done|done|done|]. intros Ha. by apply I4.
Qed.

End feedback.
