(* ===== verification/AdIndex.v ===== *)
(** * The front of ad delivery ([ad-manager/AdIndexManager.cpp])

    [AdIndexManager] feeds the log of clicks to the sponsored search, the
    selector and the click predictor ([onAdStreamMessage]), mines new ads, and
    ranks the ads of a search by their price ([rankAndSelect]): ads paid per
    view by their bid, ads paid per click, after a selection, by their expected
    revenue.

    Parameters: the predictor, the numeric properties of documents, the index
    of targeting conditions, the search service, and what the components use.
    Saving every 100000 messages, logging and locks are left out; the clock is
    read once per batch of messages.  [None] is undefined behaviour: a null
    pointer, an index or a conversion out of range. *)
From S2P Require Import Prelude CNum Env ManualBid AuctionLog AuctionStats Phrases GeneticBid UniformBid.
From S2P Require Import Recommender Sponsored SponsoredMining SponsoredSearch.
From S2P Require Import PriorityQueue QueueSpec Segments PropIdTable PropValueTable HitQueue Selector SelectorSelect.
From S2P Require Import Feedback.

Definition MAX_SELECT_AD_COUNT : nat := 20.
Definition MAX_RECOMMEND_ITEM_NUM : nat := 10.

(** The recommender of the selector. *)
Section recommender.
Context (iter : LatentVecContainerT → list (string * LatentVecT)) (random_ : nat → Z).
Context {Q : Type} `{Ops : PQOps ScoredAdItem Q}.

Definition ad_recommender : AdRec AdRecommender := {|
  rec_update_features := updateAdFeatures;
  rec_update := Recommender.update random_;
  rec_recommend := recommend iter |}.
End recommender.

Record KeywordSearchResult := SearchResult {
  topKDocs_ : list nat;
  topKRankScoreList_ : list double;
  totalCount_ : nat;
  adCachedTopKDocs_ : list nat }.

Section index.
Context {U : Type} `{Countable U} (convertString : U → string).
Context {M T R : Type} `{SegIds M, SegStore T, AdRec R} (getAdTagsForRec : nat → list string).
Context `{LexicalCast, TitlePCA, AdDocs, HashOrder, AdText} {J : Type} `{Json J, FeedbackServices}.
Context {C : Type} (predict : C → FeatureT → FeatureT → double).
Context (predictor_update : C → FeatureT → FeatureT → bool → C).
Context (rand random_gen_ : nat → Z) (props : AdProps).
Context {Q : Type} {Ops : PQOps HitQueue.ScoreDoc Q}.

#[local] Notation AdSelector := (AdSelector (U := U) (M := M) (T := T) (R := R)).

Record AdIndexManager := AdIndex {
  enable_sponsored_search : bool;
  enable_selector : bool;
  enable_rec : bool;
  ad_selector_ : option AdSelector;
  ad_sponsored_mgr_ : option AdSponsoredMgr;
  ad_click_predictor_ : C }.

Definition with_selector s st := AdIndex (enable_sponsored_search st) (enable_selector st) (enable_rec st)
  s (ad_sponsored_mgr_ st) (ad_click_predictor_ st).
Definition with_sponsored m st := AdIndex (enable_sponsored_search st) (enable_selector st) (enable_rec st)
  (ad_selector_ st) m (ad_click_predictor_ st).
Definition with_predictor c st := AdIndex (enable_sponsored_search st) (enable_selector st) (enable_rec st)
  (ad_selector_ st) (ad_sponsored_mgr_ st) c.

(** ** The log of clicks *)

Definition user_features (p : ProfileData) : FeatureT :=
  kv ← p; map (λ v, (kv.1, v.1)) kv.2.

Definition is_clicked (i : FeedbackInfo) : bool := action_gt_view (action i).

(** The click is charged in fen: [click_cost * 100] converted to [int]. *)
Definition feed_sponsored (now : tm) (i : FeedbackInfo) (st : AdIndexManager) : option AdIndexManager :=
  if enable_sponsored_search st && (is_clicked i && negb (String.eqb (ad_id i) EmptyString)) then
    m ← ad_sponsored_mgr_ st;
    cost ← d_to_int (d_mul (click_cost i) (d_of_Z 100));
    Some (with_sponsored (Some (updateAuctionLogData now (ad_id i) (hit_bidstr i) cost
                                  (Z.to_nat (click_slot i)) m)) st)
  else Some st.

(** The document id stays 0 when the ad is unknown. *)
Definition feed_selector (fuel : nat) (i : FeedbackInfo) (st : AdIndexManager) : option AdIndexManager :=
  if enable_selector st then
    let docid := getAdIdFromAdStrId (ad_id i) in
    let user_feature := user_features (profile_data i) in
    sel ← ad_selector_ st;
    predictor ← (match docid with
                 | Some d => ad_feature ← getAdFeatureList convertString fuel sel d;
                             Some (predictor_update (ad_click_predictor_ st) user_feature ad_feature (is_clicked i))
                 | None => Some (ad_click_predictor_ st)
                 end);
    sel ← (if is_clicked i && negb (String.eqb (ad_id i) EmptyString)
           then updateClicked (default 0%nat docid) sel else Some sel);
    let sel := updateSegments user_feature UserSeg sel in
    sel ← (if enable_rec st then trainOnlineRecommender user_feature (ad_id i) (is_clicked i) sel else Some sel);
    Some (with_predictor predictor (with_selector (Some sel) st))
  else Some st.

Definition feed (fuel : nat) (now : tm) (i : FeedbackInfo) (st : AdIndexManager) : option AdIndexManager :=
  st ← feed_sponsored now i st; feed_selector fuel i st.

(** One [FeedbackInfo] serves for all messages of a batch. *)
Definition stream_step (fuel : nat) (now : tm) (acc : FeedbackInfo * AdIndexManager) (log_data : string)
    : option (FeedbackInfo * AdIndexManager) :=
  '(ret, feedback_info) ← parserFeedbackLog log_data acc.1;
  st ← (if (ret : bool) then feed fuel now feedback_info acc.2 else Some acc.2);
  Some (feedback_info, st).

(** The constructor leaves [action] unset; it is read after it was set. *)
Definition blank_info : FeedbackInfo := Info EmptyString EmptyString EmptyString View d_zero 0 [].

Definition onAdStreamMessage (fuel : nat) (now : tm) (msg_list : list string) (st : AdIndexManager)
    : option AdIndexManager :=
  '(_, st) ← foldM (stream_step fuel now) (blank_info, st) msg_list; Some st.

(** ** Ranking *)

Section rank.
Context (isDeleted : nat → bool) (Price : option (nat → option double)) (BidMode : option (nat → option Z)).

(** [getFloatValue], [getInt32Value] leave the zero where there is no value. *)
Definition price_of (d : nat) : double := default d_zero (t ← Price; t d).
Definition mode_of (d : nat) : Z := default 0 (t ← BidMode; t d).

Definition rank_doc (acc : Q * list nat) (d : nat) : option (Q * list nat) :=
  let '(q, cpc) := acc in
  if isDeleted d then Some acc
  else if mode_of d =? 1 then Some (q, cpc ++ [d])
  else
    '(_, q) ← q_insert (score_doc d (if mode_of d =? 0 then price_of d else d_zero)) q;
    Some (q, cpc).

Definition eCPM (score : double) (d : nat) : double := d_mul (d_mul score (price_of d)) (d_of_Z 1000).

(** [score_list[i]] for each ad selected. *)
Fixpoint insert_cpc (docs : list nat) (score_list : list double) (q : Q) : option Q :=
  match docs with
  | [] => Some q
  | d :: docs =>
      match score_list with
      | [] => None
      | s :: score_list => '(_, q) ← q_insert (score_doc d (eCPM s d)) q; insert_cpc docs score_list q
      end
  end.

Definition rankAndSelect (fuel : nat) (userinfo : FeatureT) (docids : list nat) (st : AdIndexManager)
    : option (list nat * list double * nat * AdIndexManager) :=
  '(q, cpc) ← foldM rank_doc (q_new (MAX_SELECT_AD_COUNT `min` length docids)%nat, []) docids;
  '(cpc, score_list, st) ← (match ad_selector_ st with
                            | None => Some (cpc, [], st)
                            | Some sel =>
                                '(_, docs, scores, sel) ← select convertString (predict (ad_click_predictor_ st)) random_gen_
                                                            fuel userinfo MAX_SELECT_AD_COUNT cpc [] sel;
                                Some (docs, scores, with_selector (Some sel) st)
                            end);
  q ← insert_cpc cpc score_list q;
  popped ← q_drain (q_size q) q;
  let docs := reverse (map sd_docId popped) in
  Some (docs, reverse (map (λ x, d_to_float (sd_score x)) popped), length docs, st).

Definition rank_result (fuel : nat) (userinfo : FeatureT) (res : KeywordSearchResult) (cached : list nat)
    (st : AdIndexManager) : option (KeywordSearchResult * AdIndexManager) :=
  '(docs, scores, n, st) ← rankAndSelect fuel userinfo (topKDocs_ res) st;
  Some (SearchResult docs scores n cached, st).

(** The index of targeting conditions gives the ids in the order of its
    hash set. *)
Definition searchByDNF (retrieve : FeatureT → list nat) (fuel : nat) (info : FeatureT) (st : AdIndexManager)
    : option (bool * (list nat * list double * nat) * AdIndexManager) :=
  '(docs, scores, n, st) ← rankAndSelect fuel info (retrieve info) st;
  Some (true, (docs, scores, n), st).

(** [ad_searcher_->search] on a query string, in suffix match mode. *)
Definition searchByQuery (ad_searcher : option (string → bool * KeywordSearchResult)) (fuel : nat) (query : string)
    (res : KeywordSearchResult) (st : AdIndexManager) : option (bool * KeywordSearchResult * AdIndexManager) :=
  match ad_searcher, ad_selector_ st with
  | Some search, Some _ =>
      let '(ret, res) := search query in
      if (ret : bool) then
        '(res, st) ← rank_result fuel [] res (topKDocs_ res) st; Some (true, res, st)
      else Some (false, res, st)
  | _, _ => Some (false, res, st)
  end.

Definition searchByRecommend (ad_searcher : option (string → bool * KeywordSearchResult)) (fuel : nat)
    (res : KeywordSearchResult) (st : AdIndexManager) : option (bool * KeywordSearchResult * AdIndexManager) :=
  match ad_searcher, ad_selector_ st with
  | Some search, Some sel =>
      '(_, rec_items, _) ← selectFromRecommend [] MAX_RECOMMEND_ITEM_NUM [] [] sel;
      let rec_query_str := fold_left (λ q item, String.append q (String.append item " ")) rec_items EmptyString in
      let '(ret, res) := search rec_query_str in
      if (ret : bool) then
        '(res, st) ← rank_result fuel [] res (adCachedTopKDocs_ res) st; Some (true, res, st)
      else Some (false, res, st)
  | _, _ => Some (false, res, st)
  end.
End rank.

(** ** The other entries *)

(** [None] of the outer type is undefined behaviour; without the sponsored
    search every entry returns [false]. *)
Definition on_sponsored (f : AdSponsoredMgr → option (bool * AdSponsoredMgr)) (st : AdIndexManager)
    : option (bool * AdIndexManager) :=
  match ad_sponsored_mgr_ st with
  | None => Some (false, st)
  | Some m => '(ret, m) ← f m; Some (ret, with_sponsored (Some m) st)
  end.

Definition setAdCampaignBudget (campaign_name : string) (budget : Z) :=
  on_sponsored (λ m, Some (true, changeDailyBudget campaign_name budget m)).

Definition updateAdOnlineStatus (ad_strid_list : list string) (is_online_list : list bool) :=
  on_sponsored (λ m, '(_, m) ← Sponsored.updateAdOnlineStatus ad_strid_list is_online_list m; Some (true, m)).

Definition delAdBidPhrase (ad_strid : string) (bid_phrase_list : list string) :=
  on_sponsored (Sponsored.delAdBidPhrase ad_strid bid_phrase_list).

Definition updateAdBidPhrase (ad_strid : string) (bid_phrase_list : list string) (bidprice_list : list Z) :=
  on_sponsored (Sponsored.updateAdBidPhrase ad_strid bid_phrase_list bidprice_list).

Definition sponsoredAdSearch (c_pow : double → double → double) {Q' : Type} {Ops' : PQOps ScoreSponsoredAdDoc Q'}
    (now : tm) (ad_searcher : option (string → AdSearchResult)) (is_ad_result : bool) (query : string)
    (res : AdSearchResult) (st : AdIndexManager) : RM (bool * AdSearchResult * AdIndexManager) :=
  match ad_sponsored_mgr_ st with
  | None => mret (false, res, st)
  | Some m =>
      r ← SponsoredSearch.sponsoredAdSearch rand c_pow now ad_searcher is_ad_result query res m;
      mret (r.1, with_sponsored (Some r.2) st)
  end.

Definition postMining (fuel : nat) (now : tm) (startid endid : nat) (st : AdIndexManager) : RM AdIndexManager :=
  st ← (match ad_selector_ st with
        | None => mret st
        | Some sel =>
            sel ← lift (miningAdSegmentStr convertString getAdTagsForRec fuel startid endid sel);
            mret (with_selector (Some sel) st)
        end);
  match ad_sponsored_mgr_ st with
  | None => mret st
  | Some m => m ← miningAdCreatives rand props now startid endid m; mret (with_sponsored (Some m) st)
  end.

(** [matches_now] is the answer of the schedule, [tm_min] the minute. *)
Definition refreshBidStrategy (matches_now : bool) (now : tm) (tm_min : Z) (st : AdIndexManager)
    : RM AdIndexManager :=
  if matches_now then
    match ad_sponsored_mgr_ st with
    | None => mret st
    | Some m =>
        m ← resetDailyLogStatisticalData rand now ((tm_hour now =? 0) && (tm_min <? 30)) m;
        mret (with_sponsored (Some m) st)
    end
  else mret st.

End index.
