(* ===== verification/AdIndexSpec.v ===== *)
(** * The log of clicks and the ranking of ads ([ad-manager/AdIndexManager.cpp])

    Proofs about AdIndex.v: when messages do not depend on each other, and what
    [rankAndSelect] returns. *)
From S2P Require Import Prelude CNum Env ManualBid AuctionLog AuctionStats Phrases.
From S2P Require Import Recommender Sponsored SponsoredMining SponsoredSearch.
From S2P Require Import PriorityQueue QueueSpec Segments PropIdTable PropValueTable HitQueue Selector SelectorSelect.
From S2P Require Import Feedback AdIndex.

Section stream.
Context {U : Type} `{Countable U} (convertString : U → string).
Context {M T R : Type} `{SegIds M, SegStore T, AdRec R}.
Context `{LexicalCast, TitlePCA, AdDocs} {J : Type} `{Json J, FeedbackServices}.
Context {C : Type} (predictor_update : C → FeatureT → FeatureT → bool → C).

#[local] Notation AdIndexManager := (AdIndexManager (U := U) (M := M) (T := T) (R := R) (C := C)).

(** The handler reads only what [same_feedback] compares. *)
Lemma feed_same fuel now i j (st : AdIndexManager) :
  same_feedback i j → feed convertString predictor_update fuel now i st = feed convertString predictor_update fuel now j st.
Proof.
  intros (Hu & Ha & Hact & Hp & Hclick). unfold feed, feed_sponsored, feed_selector, is_clicked.
  rewrite <- Ha, <- Hact, <- Hp.
  destruct (action_gt_view (action i)); [|cbn [andb]; by rewrite !andb_false_r]. destruct (Hclick eq_refl) as (-> & -> & ->). done.
Qed.

(** One message with a fresh [FeedbackInfo]. *)
Definition message_step (fuel : nat) (now : tm) (st : AdIndexManager) (log_data : string) : option AdIndexManager :=
  '(ret, feedback_info) ← parserFeedbackLog log_data blank_info;
  if (ret : bool) then feed convertString predictor_update fuel now feedback_info st else Some st.

Lemma stream_fresh fuel now msgs : ∀ i (st : AdIndexManager),
  profile_fresh → Forall (λ m, self_contained m = true) msgs →
  ('(_, st) ← foldM (stream_step convertString predictor_update fuel now) (i, st) msgs; Some st) =
  foldM (message_step fuel now) st msgs.
Proof.
  induction msgs as [|m msgs IH]; intros i st Hdmp Hm; [done|]. inversion_clear Hm as [|?? Hm0 Hm']. cbn [foldM].
  destruct (parserFeedbackLog_fresh m i blank_info Hdmp Hm0) as (b & i' & j' & Ei & Ej & Hsame).
  unfold stream_step at 2, message_step at 2. cbn [fst snd]. rewrite Ei, Ej. cbn [mbind option_bind].
  destruct b.
  - rewrite (feed_same fuel now i' j' st (Hsame eq_refl)).
    destruct (feed _ _ fuel now j' st) as [st'|]; [|done]. cbn [mbind option_bind]. by apply IH.
  - by apply IH.
Qed.

(** A batch of messages in which every click has its cost, slot and
    phrase and every message names its user is handled message by message:
    each one as if it came alone, although all share one [FeedbackInfo]. *)
Theorem onAdStreamMessage_independent fuel now msgs (st : AdIndexManager) :
  profile_fresh → Forall (λ m, self_contained m = true) msgs →
  onAdStreamMessage convertString predictor_update fuel now msgs st = foldM (message_step fuel now) st msgs.
Proof. apply stream_fresh. Qed.

End stream.

(** ** Ranking *)

Section rank.
Context {U : Type} `{Countable U} (convertString : U → string).
Context {M T R : Type} `{SegIds M, SegStore T, AdRec R}.
Context {C : Type} (predict : C → FeatureT → FeatureT → double) (random_gen_ : nat → Z).
Context {Q : Type} `{Ops : PQOps HitQueue.ScoreDoc Q}.
Context (P : HitQueue.ScoreDoc → Prop) (lt : HitQueue.ScoreDoc → HitQueue.ScoreDoc → bool).
Context `{!StrictWeakOn P lt, !BoundedPQ P lt Ops}.
Context (isDeleted : nat → bool) (Price : option (nat → option double)) (BidMode : option (nat → option Z)).

#[local] Notation AdIndexManager := (AdIndexManager (U := U) (M := M) (T := T) (R := R) (C := C)).

#[local] Notation AdSelector := (AdSelector (U := U) (M := M) (T := T) (R := R)).

(** Ads that are paid per click, and the others with their score. *)
Definition cpc_ads (docids : list nat) : list nat :=
  filter (λ d, isDeleted d = false ∧ mode_of BidMode d = 1) docids.

Definition other_items (docids : list nat) : list HitQueue.ScoreDoc :=
  map (λ d, score_doc d (if mode_of BidMode d =? 0 then price_of Price d else d_zero))
    (filter (λ d, isDeleted d = false ∧ mode_of BidMode d ≠ 1) docids).

Definition cpc_items (docs : list nat) (scores : list double) : list HitQueue.ScoreDoc :=
  zip_with (λ d s, score_doc d (eCPM Price s d)) docs scores.

Lemma rank_docs docids : ∀ q cpc,
  foldM (rank_doc isDeleted Price BidMode) (q, cpc) docids =
  q ← q_insert_all (other_items docids) q; Some (q, cpc ++ cpc_ads docids).
Proof.
  unfold q_insert_all, other_items, cpc_ads.
  induction docids as [|d docids IH]; intros q cpc; [by rewrite app_nil_r|].
  cbn [foldM rank_doc]. rewrite !filter_cons. destruct (isDeleted d).
  { rewrite !decide_False by (by intros []). cbn [mbind option_bind]. apply IH. }
  destruct (mode_of BidMode d =? 1) eqn:E; bool_cases.
  - rewrite decide_True, decide_False by naive_solver. cbn [mbind option_bind]. rewrite IH.
    by rewrite <- app_assoc.
  - rewrite decide_False, decide_True by naive_solver. cbn [map foldM].
    destruct (q_insert _ q) as [[b q']|]; [|done]. cbn [mbind option_bind]. apply IH.
Qed.

Lemma insert_cpc_ok docs : ∀ scores q, length docs = length scores →
  insert_cpc Price docs scores q = q_insert_all (cpc_items docs scores) q.
Proof.
  unfold q_insert_all, cpc_items. induction docs as [|d docs IH]; intros [|s scores] q Hl; try done.
  cbn [insert_cpc zip_with foldM]. destruct (q_insert _ q) as [[b q']|]; [|done]. cbn [mbind option_bind].
  apply IH. by injection Hl.
Qed.

(** The selection of [rankAndSelect]; nothing is asked for an empty list. *)
Definition selected fuel userinfo (st : AdIndexManager) (sel : AdSelector) docids
    : option (bool * list nat * list double * AdSelector) :=
  select convertString (predict (ad_click_predictor_ st)) random_gen_ fuel userinfo MAX_SELECT_AD_COUNT
    (cpc_ads docids) [] sel.

(** C7: [rankAndSelect] with a selector: no ad that is deleted comes back; the
    ads paid per view with their price and the ads selected from those paid
    per click with their expected revenue are ranked together, the best 20 are
    returned, best first, with their scores as [float], and no score is read
    out of range. *)
Theorem rankAndSelect_spec fuel userinfo docids (st : AdIndexManager) sel :
  ad_selector_ st = Some sel →
  Forall (doc_ok (predict (ad_click_predictor_ st)) P sel userinfo) (cpc_ads docids) →
  Forall P (other_items docids) →
  (∀ b docs scores sel', selected fuel userinfo st sel docids = Some (b, docs, scores, sel') →
     Forall P (cpc_items docs scores)) →
  ∃ b docs scores sel' ranked dropped,
  selected fuel userinfo st sel docids = Some (b, docs, scores, sel') ∧
  (∀ d, d ∈ docs → d ∈ cpc_ads docids) ∧
  ranked ++ dropped ≡ₚ other_items docids ++ cpc_items docs scores ∧
  sorted_by lt (reverse ranked) ∧ top_of lt (MAX_SELECT_AD_COUNT `min` length docids) ranked dropped ∧
  rankAndSelect convertString predict random_gen_ isDeleted Price BidMode fuel userinfo docids st =
    Some (map sd_docId ranked, map (λ x, d_to_float (sd_score x)) ranked, length ranked,
          with_selector (Some sel') st).
Proof.
  intros Hsel Hcpc Hother Hitems.
  assert (∃ b docs scores sel', selected fuel userinfo st sel docids = Some (b, docs, scores, sel') ∧
    length docs = length scores ∧ ∀ d, d ∈ docs → d ∈ cpc_ads docids) as (b & docs & scores & sel' & Es & Hl & Hin).
  { unfold selected in *. destruct (decide (cpc_ads docids = [])) as [->|Hne].
    - eexists _, [], [], _. simpl. split; [reflexivity|]. split; [done|]. by intros d ?%not_elem_of_nil.
    - destruct (select_ok convertString (predict (ad_click_predictor_ st)) random_gen_ P lt fuel userinfo
        MAX_SELECT_AD_COUNT (cpc_ads docids) [] sel Hne) as (kept & scored & ranked & rest & m & Hc & _ & E);
        [unfold MAX_SELECT_AD_COUNT; lia|unfold MAX_SELECT_AD_COUNT; lia|done|].
      eexists _, _, _, _. split; [exact E|]. rewrite !length_app, !length_map, length_replicate. split; [done|].
      intros d [Hd|Hd]%elem_of_app; [|by apply (choice_rest _ _ _ _ _ _ _ _ _ _ _ Hc)].
      apply list_elem_of_fmap in Hd as (x & -> & Hx). by apply (choice_docs _ _ _ _ _ _ _ _ _ _ _ _ Hc). }
  set (k := (MAX_SELECT_AD_COUNT `min` length docids)%nat) in *.
  assert (Z.of_nat k < 2 ^ 32) as Hk by (unfold k, MAX_SELECT_AD_COUNT; lia).
  destruct (q_topk_sort P lt k (other_items docids ++ cpc_items docs scores) Hk) as
    (q & out & dropped & Eq & _ & Ed & Hperm & Hsort & Htop); [apply Forall_app; split; [done|by eapply Hitems]|].
  exists b, docs, scores, sel', (reverse out), dropped.
  assert (out ≡ₚ reverse out) as Hrev by (symmetry; apply reverse_Permutation).
  split_and!; [done|done|idtac|by rewrite reverse_involutive|idtac|]; [by rewrite <- Hrev|by rewrite <- Hrev|].
  unfold rankAndSelect. fold k. rewrite rank_docs.
  unfold q_insert_all in Eq. rewrite foldM_app in Eq. fold (q_insert_all (other_items docids) (q_new k)) in Eq.
  destruct (q_insert_all (other_items docids) (q_new k)) as [q1|]; [|done]. cbn [mbind option_bind] in *.
  rewrite Hsel. unfold selected in Es. cbn [app]. rewrite Es. cbn [mbind option_bind].
  rewrite insert_cpc_ok by done. unfold q_insert_all. rewrite Eq. cbn [mbind option_bind]. rewrite Ed. cbn [mbind option_bind].
  by rewrite !(fmap_reverse (B := _) _ out), !length_reverse, length_map.
Qed.

(** Without a selector an ad paid per click has no score to read. *)
Lemma rankAndSelect_no_selector fuel userinfo docids (st : AdIndexManager) :
  ad_selector_ st = None → cpc_ads docids ≠ [] →
  rankAndSelect convertString predict random_gen_ isDeleted Price BidMode fuel userinfo docids st = None.
Proof.
  intros Hsel Hne. unfold rankAndSelect. rewrite rank_docs, Hsel.
  destruct (q_insert_all _ _) as [q|]; [|done]. cbn [mbind option_bind app].
  by destruct (cpc_ads docids).
Qed.

End rank.

(** A click that cost 29 fen is reported as 0.29 and charged 28. *)
Lemma fen_lost : d_to_int (d_mul (per_yuan (d_of_Z 29)) (d_of_Z 100)) = Some 28.
Proof. vm_compute. reflexivity. Qed.
