(* ===== verification/AdIndexScenario.v ===== *)
(** * A batch of messages and a search

    The theorems about AdIndex.v applied to a log of three messages and to a
    search that finds three ads; and a batch that shows what a message
    inherits from the one before. *)
From S2P Require Import Prelude CNum Env ManualBid AuctionLog AuctionStats Phrases.
From S2P Require Import Recommender Sponsored SponsoredMining SponsoredSearch.
From S2P Require Import PriorityQueue QueueSpec Segments PropIdTable PropValueTable HitQueue Selector SelectorSelect.
From S2P Require Import SelectorScenario Feedback AdIndex AdIndexSpec.
#[local] Open Scope string_scope.
#[local] Existing Instance letter_pca.

(** ** Messages *)

(** A document, its arguments, or a text. *)
Inductive JV := JDoc (args : list (string * string)) | JArgs (args : list (string * string)) | JText (s : string).

Fixpoint assoc (k : string) (l : list (string * string)) : option string :=
  match l with
  | [] => None
  | (k', v) :: l => if String.eqb k k' then Some v else assoc k l
  end.

Definition log_click : list (string * string) :=
  [("ad", "103"); ("uid", "u"); ("aid", "ad0"); ("click_cost", "5"); ("click_slot", "H1"); ("hit_orig_bidstr", "a")].
Definition log_view : list (string * string) := [("ad", "108"); ("uid", "u"); ("aid", "ad1")].
Definition log_bare_click : list (string * string) := [("ad", "103"); ("uid", "u"); ("aid", "ad1")].

#[local] Instance toy_json : Json JV := {|
  json_parse s :=
    if String.eqb s "click" then Some (JDoc log_click) else if String.eqb s "view" then Some (JDoc log_view)
    else if String.eqb s "bare" then Some (JDoc log_bare_click) else None;
  json_member j k :=
    match j with
    | JDoc args => if String.eqb k "args" then Some (JArgs args) else None
    | JArgs args => JText <$> assoc k args
    | JText _ => None
    end;
  json_is_object j := match j with JArgs _ => true | _ => false end;
  json_string j := match j with JText s => Some s | _ => None end |}.

#[local] Instance toy_services : FeedbackServices := {|
  cast_cost s := if String.eqb s "5" then Some (d_of_Z 5) else None;
  cast_slot s := if String.eqb s "1" then Some 1 else None;
  getUserProfileFromDMP u _ := (true, [("age", [("old", d_of_Z 1)])]) |}.

#[local] Instance toy_docs : AdDocs := {|
  getAdIdFromAdStrId s := if String.eqb s "ad0" then Some 0%nat else if String.eqb s "ad1" then Some 1%nat else None;
  getAdStrIdFromAdId i := ["ad0"; "ad1"] !! i;
  getPropertyValue _ _ := None |}.

#[local] Instance no_rec : AdRec unit := {|
  rec_update_features _ _ _ := None; rec_update _ _ _ _ := None; rec_recommend _ _ _ _ _ := None |}.

(** ** The manager *)

Definition toy_sponsored : AdSponsoredMgr :=
  set_used [0; 0] (Mgr [[]; []] [[]; []] [false; false] [] KeywordTable_init [] ["shop"; "mall"]
    (<["shop" := 0%nat]> {["mall" := 1%nat]}) [0; 1]%nat [] AdAuctionLogMgr_init UniformBid [] [] AdManualBidInfoMgr_init).

#[local] Notation Sel := (AdSelector (U := string) (M := list string) (T := gmap Z string) (R := unit)).

(** Both parts; the predictor counts its updates. *)
Definition with_tables (s : Sel) : Sel :=
  Selector (Some ∅) (history_ctr_data_ s) (pending_compute_doclist_ s) (clicked_ads_ s) (all_segments_ s)
    (updated_segments_ s) (init_counter_ s) (default_full_features_ s) (need_refresh_ s) (ad_segid_data_ s)
    (ad_segid_mgr_ s) (ad_segid_str_data_ s) (ad_feature_item_rec_ s) (random_pos s).

Definition toy_index : AdIndexManager (U := string) (M := list string) (T := gmap Z string) (R := unit) (C := nat) :=
  AdIndex true true false (Some (with_tables small_selector)) (Some toy_sponsored) 0%nat.

Definition count_update (n : nat) (_ _ : FeatureT) (_ : bool) : nat := S n.

Definition noon : tm := Tm 114 100 12.

#[local] Notation stream := (onAdStreamMessage (λ s : string, s) count_update 9 noon).

(** What campaigns have used, what was clicked, what the predictor saw. *)
Definition observe (st : AdIndexManager (U := string) (M := list string) (T := gmap Z string) (R := unit) (C := nat)) :=
  (ad_budget_used_list_ <$> ad_sponsored_mgr_ st, elements ∘ clicked_ads_ <$> ad_selector_ st, ad_click_predictor_ st).

Lemma onAdStreamMessage_independent_witness :
  observe <$> stream ["click"; "noise"; "view"] toy_index = Some (Some [500; 0], Some [1; 0]%nat, 2%nat).
Proof.
  rewrite (onAdStreamMessage_independent (λ s : string, s) count_update 9 noon ["click"; "noise"; "view"] toy_index).
  - vm_compute. reflexivity.
  - by intros u p p'.
  - repeat constructor.
Defined.

(** A click that carries no cost: alone it costs nothing; after another click
    its campaign is charged the cost of that one. *)
Lemma stale_click_cost :
  observe <$> stream ["bare"] toy_index = Some (Some [0; 0], Some [1]%nat, 1%nat) ∧
  observe <$> stream ["click"; "bare"] toy_index = Some (Some [500; 500], Some [1; 0]%nat, 2%nat).
Proof. split; vm_compute; reflexivity. Qed.

(** ** A search *)

Definition rank_eps : double := d_lit 1 1.
Definition rank_scores : list double := [d_zero; d_of_Z 1; d_of_Z 3; d_of_Z 500; d_of_Z (-500)].

#[local] Instance rank_order : StrictWeakOn (score_among sd_score rank_scores) (hit_lessThan rank_eps).
Proof. apply near_lt_strict_weak; [apply _|]. vm_compute. reflexivity. Qed.

#[local] Notation rank_heap :=
  (heap_ops (score_doc 0 d_zero) (score_doc 0 d_zero) (hit_lessThan rank_eps)).

Definition toy_price (d : nat) : option double := if (d =? 5)%nat then Some (d_of_Z 3) else Some (d_lit 5 1).
Definition toy_mode (d : nat) : option Z := if (d =? 5)%nat then None else Some 1.

(** Ads 1 and 2 are paid per click, ad 5 per view. *)
#[local] Notation toy_rank :=
  (rankAndSelect (Ops := rank_heap) (λ s : string, s) (λ _ : nat, count_predict) (λ _, 500) (λ _, false)
    (Some toy_price) (Some toy_mode) 1 [("age", "old")] [1; 2; 5]%nat toy_index).

Lemma rankAndSelect_spec_witness :
  ∃ scores st', toy_rank = Some ([2; 1; 5]%nat, scores, 3%nat, st').
Proof.
  destruct (rankAndSelect_spec (Ops := rank_heap) (λ s : string, s) (λ _ : nat, count_predict) (λ _, 500)
    (score_among sd_score rank_scores) (hit_lessThan rank_eps)
    (BoundedPQ0 := heap_bounded_pq (score_doc 0 d_zero) (score_doc 0 d_zero) (hit_lessThan rank_eps)
                     (score_among sd_score rank_scores))
    (λ _, false) (Some toy_price) (Some toy_mode) 1 [("age", "old")] [1; 2; 5]%nat toy_index (with_tables small_selector))
    as (b & docs & scores & sel' & ranked & dropped & E & _ & _ & _ & _ & Er).
  - reflexivity.
  - assert (∀ d, score_among sd_score rank_scores (score_doc d d_zero)) as H0 by (intros d; left).
    assert (∀ d, score_among sd_score rank_scores (score_doc d (d_of_Z 1))) as H1 by (intros d; right; left).
    repeat constructor; try (vm_compute; reflexivity); try (simpl; lia); try apply H0; try apply H1.
  - repeat constructor.
  - intros b docs scores sel' E. vm_compute in E. injection E as <- <- <- <-.
    unfold cpc_items, score_among. vm_compute. repeat constructor.
  - assert ((λ r, r.1.1.1) <$> toy_rank = Some [2; 1; 5]%nat) as E2 by (vm_compute; reflexivity).
    rewrite Er in E2. simpl in E2. injection E2 as E2. exists (map (λ x, d_to_float (sd_score x)) ranked), (with_selector (Some sel') toy_index).
    rewrite Er. assert (length ranked = 3%nat) as -> by by rewrite <- (length_map sd_docId), E2. by rewrite E2.
Defined.
