(* ===== verification/GroupRep.v ===== *)
(** * The list of counts ([mining-manager/group-manager/GroupRep.cpp, ontology_rep_item.h])

    A tree of labels with counts is a list of items with levels, in preorder.
    The lists of several workers are merged by a recursion over both lists;
    counts by number are merged as sorted lists, counts by range as segment
    trees.  The theorems show that merging adds the counts label by label, and
    that the trimmed list keeps the labels with the greatest counts.

    [UString] is a type outside [src/] with a decidable order. *)
From S2P Require Import Prelude CNum.

(** [UString::compare], by its sign. *)
Class TextLt (U : Type) := text_lt : U → U → bool.

Class TextOrder (U : Type) `{TextLt U} : Prop := {
  text_swo :: StrictWeakOn (λ _, True) text_lt;
  text_total (a b : U) : text_lt a b = false → text_lt b a = false → a = b }.

(** ** Data *)

Record RepItem (U : Type) := Item {
  level : Z; text : U; item_id : Z; doc_count : Z; item_score : double }.
Arguments Item {U}.
Arguments level {U}.
Arguments text {U}.
Arguments item_id {U}.
Arguments doc_count {U}.
Arguments item_score {U}.

Definition u8 (z : Z) : Z := z `mod` 2 ^ 8.

(** The constructor of [OntologyRepItem] truncates the level to 8 bits. *)
Definition new_item {U} (plevel : Z) (ptext : U) (pid pdoc_count : Z) : RepItem U :=
  Item (u8 plevel) ptext pid pdoc_count d_zero.

(** [doc_count += n] *)
Definition add_count {U} (n : Z) (i : RepItem U) : RepItem U :=
  Item (level i) (text i) (item_id i) (u32 (doc_count i + n)) (item_score i).

Record GroupRep (U : Type) := Rep {
  stringGroupRep_ : list (RepItem U);
  numericGroupRep_ : list (string * list (double * Z));
  numericRangeGroupRep_ : list (string * list Z) }.
Arguments Rep {U}.
Arguments stringGroupRep_ {U}.
Arguments numericGroupRep_ {U}.
Arguments numericRangeGroupRep_ {U}.

(** [stringGroupRep_.push_back] for each item. *)
Definition add_items {U} (items : list (RepItem U)) (r : GroupRep U) : GroupRep U :=
  Rep (stringGroupRep_ r ++ items) (numericGroupRep_ r) (numericRangeGroupRep_ r).

Definition rep_new {U} : GroupRep U := Rep [] [] [].

(** The longest prefix with a property, and the rest: a loop that advances an
    iterator. *)
Fixpoint span {A} (p : A → bool) (l : list A) : list A * list A :=
  match l with
  | [] => ([], [])
  | x :: l' => if p x then let '(a, b) := span p l' in (x :: a, b) else ([], l)
  end.

Section string_group.
Context {U : Type} `{TextLt U}.

(** ** Merging trees

    A list with an iterator is the part before it and the part behind it;
    inserting before the iterator appends to the first part. *)

Definition at_level (lvl : Z) (l : list (RepItem U)) : bool :=
  match l with [] => false | i :: _ => lvl <=? level i end.

(** The end of the recursion: what is left of the level on one side. *)
Definition rest_of_level (lvl : Z) (done it oit : list (RepItem U)) : list (RepItem U) * list (RepItem U) * list (RepItem U) :=
  if at_level lvl it then
    let '(sub, it) := span (λ i, lvl <=? level i) it in (done ++ sub, it, oit)
  else if at_level lvl oit then
    let '(sub, oit) := span (λ i, lvl <=? level i) oit in (done ++ sub, it, oit)
  else (done, it, oit).

Fixpoint recurseStringGroup (fuel : nat) (lvl : Z) (done it oit : list (RepItem U))
    : option (list (RepItem U) * list (RepItem U) * list (RepItem U)) :=
  match fuel with
  | O => None
  | S fuel =>
      match it, oit with
      | a :: it', b :: oit' =>
          if (lvl <=? level a) && (lvl <=? level b) then
            if text_lt (text a) (text b) then
              let '(sub, it'') := span (λ i, lvl <? level i) it' in
              recurseStringGroup fuel lvl (done ++ a :: sub) it'' oit
            else if text_lt (text b) (text a) then
              let '(sub, oit'') := span (λ i, lvl <? level i) oit' in
              recurseStringGroup fuel lvl (done ++ b :: sub) it oit''
            else
              '(done, it, oit) ← recurseStringGroup fuel (u8 (lvl + 1)) (done ++ [add_count (doc_count b) a]) it' oit';
              recurseStringGroup fuel lvl done it oit
          else Some (rest_of_level lvl done it oit)
      | _, _ => Some (rest_of_level lvl done it oit)
      end
  end.

(** The list of the other side is taken over when ours is empty. *)
Definition mergeStringGroup (ours other : list (RepItem U)) : option (list (RepItem U) * list (RepItem U)) :=
  match other, ours with
  | [], _ => Some (ours, other)
  | _, [] => Some (other, ours)
  | _, _ =>
      '(done, it, _) ← recurseStringGroup (S (length ours + length other)) 0 [] ours other;
      Some (done ++ it, other)
  end.

(** ** Trees *)

Inductive tree := Node (item : RepItem U) (kids : list tree).

Definition t_item (t : tree) : RepItem U := let '(Node i _) := t in i.
Definition t_kids (t : tree) : list tree := let '(Node _ k) := t in k.
Definition t_text (t : tree) : U := text (t_item t).

Fixpoint flat (t : tree) : list (RepItem U) :=
  match t with Node i kids => i :: concat (map flat kids) end.

Definition flatten (f : list tree) : list (RepItem U) := concat (map flat f).

(** Siblings have increasing texts. *)
Definition texts_sorted (f : list tree) : Prop := StronglySorted (λ a b, text_lt (t_text a) (t_text b) = true) f.

(** Every level is one more than that of the parent, and fits into 8 bits with
    the next one. *)
Inductive tree_ok (l : Z) : tree → Prop :=
  | node_ok i kids : level i = l → 0 ≤ l < 2 ^ 8 - 1 → texts_sorted kids → Forall (tree_ok (l + 1)) kids →
      tree_ok l (Node i kids).

(** Lists of trees merged by text, adding the counts of equal texts. *)
Inductive merged : list tree → list tree → list tree → Prop :=
  | merged_l g : merged [] g g
  | merged_r f : merged f [] f
  | merged_lt a f b g h : text_lt (t_text a) (t_text b) = true →
      merged f (b :: g) h → merged (a :: f) (b :: g) (a :: h)
  | merged_gt a f b g h : text_lt (t_text b) (t_text a) = true →
      merged (a :: f) g h → merged (a :: f) (b :: g) (b :: h)
  | merged_eq a f b g h k : t_text a = t_text b →
      merged (t_kids a) (t_kids b) k → merged f g h →
      merged (a :: f) (b :: g) (Node (add_count (doc_count (t_item b)) (t_item a)) k :: h).

Lemma span_app {A} (p : A → bool) l r : forallb p l = true → (match r with [] => true | x :: _ => negb (p x) end) = true →
  span p (l ++ r) = (l, r).
Proof.
  intros Hl Hr. induction l as [|x l IH]; simpl in *.
  - destruct r as [|x r]; [done|]. simpl. destruct (p x); [done|done].
  - apply andb_prop in Hl as [-> Hl]. by rewrite (IH Hl).
Qed.

Lemma tree_ind' (P : tree → Prop) : (∀ i kids, Forall P kids → P (Node i kids)) → ∀ t, P t.
Proof.
  intros Hstep. fix IH 1. intros [i kids]. apply Hstep.
  induction kids as [|t kids IHk]; constructor; [apply IH|exact IHk].
Qed.

(** A part of a list whose items all are at level [l] or deeper. *)
Definition levels_from (l : Z) (items : list (RepItem U)) : Prop := forallb (λ i, l <=? level i) items = true.

Lemma levels_from_app l a b : levels_from l a → levels_from l b → levels_from l (a ++ b).
Proof. unfold levels_from. rewrite forallb_app. by intros -> ->. Qed.

Lemma levels_from_le l l' a : l' ≤ l → levels_from l a → levels_from l' a.
Proof.
  unfold levels_from. rewrite !forallb_forall. intros Hl Ha x Hx. apply Z.leb_le.
  specialize (Ha x Hx). apply Z.leb_le in Ha. lia.
Qed.

Lemma flat_levels t : ∀ l, tree_ok l t → levels_from l (flat t).
Proof.
  induction t as [i kids IH] using tree_ind'. intros l Ht. inversion_clear Ht as [?? Hl Hlt _ Hk].
  unfold levels_from. simpl. rewrite Hl, (proj2 (Z.leb_le l l)) by lia. simpl.
  apply (levels_from_le (l + 1)); [lia|]. induction IH as [|t kids Ht _ IHk]; [done|].
  inversion_clear Hk as [|?? Htok Hk']. simpl. apply levels_from_app; [by apply Ht|by apply IHk].
Qed.

Lemma flatten_levels l f : Forall (tree_ok l) f → levels_from l (flatten f).
Proof.
  induction 1 as [|t f Ht _ IH]; [done|]. by apply levels_from_app; [apply flat_levels|].
Qed.

(** A list that leaves level [l]. *)
Definition leaves (l : Z) (r : list (RepItem U)) : Prop := at_level l r = false.

Lemma span_leaves l a r : levels_from l a → leaves l r → span (λ i, l <=? level i) (a ++ r) = (a, r).
Proof.
  intros Ha Hr. apply span_app; [done|]. unfold leaves in Hr. destruct r as [|x r]; [done|]. simpl in Hr. by rewrite Hr.
Qed.

Lemma ltb_leb_succ a b : (a <? b) = (a + 1 <=? b).
Proof. destruct (a <? b) eqn:E, (a + 1 <=? b) eqn:E'; bool_cases; try done; lia. Qed.

(** The kids of a node are what is deeper than it. *)
Lemma span_kids l kids f r : Forall (tree_ok (l + 1)) kids → Forall (tree_ok l) f → leaves l r →
  span (λ i, l <? level i) (flatten kids ++ flatten f ++ r) = (flatten kids, flatten f ++ r).
Proof.
  intros Hk Hf Hr. apply span_app.
  - pose proof (flatten_levels _ _ Hk) as Hl. unfold levels_from in Hl. rewrite forallb_forall in Hl |- *.
    intros x Hx. rewrite ltb_leb_succ. by apply Hl.
  - destruct Hf as [|t f Ht Hf].
    + unfold leaves in Hr. destruct r as [|x r]; [done|]. simpl in *. apply Z.leb_gt in Hr.
      by rewrite (proj2 (Z.ltb_ge _ _)) by lia.
    + inversion_clear Ht as [i k Hl _ _ _]. simpl. rewrite Hl. by rewrite Z.ltb_irrefl.
Qed.

Lemma tree_ok_inv l t : tree_ok l t →
  level (t_item t) = l ∧ 0 ≤ l < 2 ^ 8 - 1 ∧ texts_sorted (t_kids t) ∧ Forall (tree_ok (l + 1)) (t_kids t) ∧
  flat t = t_item t :: flatten (t_kids t).
Proof. by destruct 1. Qed.

Lemma flatten_cons t f : flatten (t :: f) = flat t ++ flatten f.
Proof. done. Qed.

Lemma flatten_leaves l f r : Forall (tree_ok l) f → leaves l r → at_level l (flatten f ++ r) = negb (bool_decide (f = [])).
Proof.
  intros [|t f' Ht _] Hr; [done|]. destruct (tree_ok_inv l t Ht) as (Hl & _ & _ & _ & E).
  rewrite flatten_cons, E. simpl. rewrite Hl. apply Z.leb_refl.
Qed.

Lemma rest_l l done g r o : Forall (tree_ok l) g → leaves l r → leaves l o →
  rest_of_level l done r (flatten g ++ o) = (done ++ flatten g, r, o).
Proof.
  intros Hg Hr Ho. unfold rest_of_level. rewrite Hr, (flatten_leaves l g o Hg Ho).
  destruct Hg as [|b g Hb Hg]; simpl negb; cbn iota; [by rewrite app_nil_r|].
  rewrite span_leaves; [done|apply flatten_levels; by constructor|done].
Qed.

Lemma rest_r l done f r o : Forall (tree_ok l) f → leaves l r → leaves l o →
  rest_of_level l done (flatten f ++ r) o = (done ++ flatten f, r, o).
Proof.
  intros Hf Hr Ho. unfold rest_of_level. rewrite (flatten_leaves l f r Hf Hr).
  destruct Hf as [|a f Ha Hf]; simpl negb; cbn iota; [by rewrite Ho, app_nil_r|].
  rewrite span_leaves; [done|apply flatten_levels; by constructor|done].
Qed.

(** The recursion merges the trees of its level and stops where both lists
    leave the level. *)
Lemma recurse_ok `{!TextOrder U} fuel : ∀ l done f g r o,
  Forall (tree_ok l) f → Forall (tree_ok l) g → leaves l r → leaves l o →
  (length (flatten f) + length (flatten g) < fuel)%nat →
  ∃ h, merged f g h ∧ recurseStringGroup fuel l done (flatten f ++ r) (flatten g ++ o) = Some (done ++ flatten h, r, o).
Proof.
  induction fuel as [|fuel IH]; intros l done f g r o Hf Hg Hr Ho Hfuel; [lia|].
  destruct Hf as [|a f Ha Hf].
  { exists g. split; [constructor|]. rewrite <- (rest_l l done g r o Hg Hr Ho). simpl app.
    unfold leaves in Hr. cbn [recurseStringGroup]. destruct r as [|x r]; [done|]. simpl in Hr. rewrite Hr.
    by destruct (flatten g ++ o). }
  destruct Hg as [|b g Hb Hg].
  { exists (a :: f). split; [constructor|]. rewrite <- (rest_r l done (a :: f) r o); [|by constructor|done|done].
    unfold leaves in Ho. cbn [recurseStringGroup]. change (flatten [] ++ o) with o.
    destruct (flatten (a :: f) ++ r) as [|x q]; [done|]. destruct o as [|y o]; [done|]. simpl in Ho.
    by rewrite Ho, andb_false_r. }
  destruct (tree_ok_inv l a Ha) as (Hla & Hl & Hsa & Hka & Ea).
  destruct (tree_ok_inv l b Hb) as (Hlb & _ & Hsb & Hkb & Eb).
  rewrite !flatten_cons, !length_app, Ea, Eb in Hfuel. simpl in Hfuel.
  assert (flatten (a :: f) ++ r = t_item a :: flatten (t_kids a) ++ flatten f ++ r) as Efa
    by (rewrite flatten_cons, Ea; simpl; by rewrite <- app_assoc).
  assert (flatten (b :: g) ++ o = t_item b :: flatten (t_kids b) ++ flatten g ++ o) as Efb
    by (rewrite flatten_cons, Eb; simpl; by rewrite <- app_assoc).
  rewrite Efa, Efb. cbn [recurseStringGroup]. rewrite Hla, Hlb, Z.leb_refl. simpl andb. cbn iota.
  change (text (t_item a)) with (t_text a). change (text (t_item b)) with (t_text b).
  destruct (text_lt (t_text a) (t_text b)) eqn:E1; [|destruct (text_lt (t_text b) (t_text a)) eqn:E2].
  - rewrite (span_kids l (t_kids a) f r Hka Hf Hr). rewrite <- Efb.
    destruct (IH l (done ++ t_item a :: flatten (t_kids a)) f (b :: g) r o) as (h & Hm & E); [done|by constructor|done|done| |].
    { rewrite flatten_cons, !length_app, Eb. simpl. lia. }
    exists (a :: h). split; [by constructor|]. rewrite E, flatten_cons, Ea. simpl. by rewrite <- !app_assoc.
  - rewrite (span_kids l (t_kids b) g o Hkb Hg Ho). rewrite <- Efa.
    destruct (IH l (done ++ t_item b :: flatten (t_kids b)) (a :: f) g r o) as (h & Hm & E); [by constructor|done|done|done| |].
    { rewrite flatten_cons, !length_app, Ea. simpl. lia. }
    exists (b :: h). split; [by constructor|]. rewrite E, flatten_cons, Eb. simpl. by rewrite <- !app_assoc.
  - assert (t_text a = t_text b) as Et by by apply text_total.
    assert (∀ (q : list tree) z, Forall (tree_ok l) q → leaves l z → leaves (l + 1) (flatten q ++ z)) as Hup.
    { intros q z [|t q' Ht Hq] Hz.
      - unfold leaves in *. destruct z as [|x z]; [done|]. simpl in *. apply Z.leb_gt in Hz. apply Z.leb_gt. lia.
      - destruct (tree_ok_inv l t Ht) as (Hlt & _ & _ & _ & E). unfold leaves. rewrite flatten_cons, E. simpl. rewrite Hlt.
        apply Z.leb_gt. lia. }
    unfold u8. rewrite Z.mod_small by lia.
    destruct (IH (l + 1) (done ++ [add_count (doc_count (t_item b)) (t_item a)]) (t_kids a) (t_kids b)
      (flatten f ++ r) (flatten g ++ o)) as (k & Hk & E); [done|done|by apply Hup|by apply Hup|lia|].
    rewrite E. cbn [mbind option_bind].
    destruct (IH l ((done ++ [add_count (doc_count (t_item b)) (t_item a)]) ++ flatten k) f g r o) as (h & Hm & E');
      [done|done|done|done|lia|].
    exists (Node (add_count (doc_count (t_item b)) (t_item a)) k :: h). split; [by constructor|].
    rewrite E', flatten_cons. simpl. by rewrite <- !app_assoc.
Qed.

(** ** The counts of a list of trees *)

Section counts.
Context `{!EqDecision U} `{!TextOrder U}.

Fixpoint find_text (x : U) (f : list tree) : option tree :=
  match f with [] => None | t :: f => if decide (t_text t = x) then Some t else find_text x f end.

(** The count of the label with the texts [path] from the root. *)
Fixpoint count_at (path : list U) (f : list tree) : option Z :=
  match path with
  | [] => None
  | x :: path =>
      t ← find_text x f;
      match path with [] => Some (doc_count (t_item t)) | _ => count_at path (t_kids t) end
  end.

Lemma text_lt_irrefl (x : U) : text_lt x x = false.
Proof. by apply (@swo_irrefl _ (λ _, True) text_lt text_swo). Qed.

Lemma text_lt_trans (x y z : U) : text_lt x y = true → text_lt y z = true → text_lt x z = true.
Proof. by apply (@swo_trans _ (λ _, True) text_lt text_swo). Qed.

Lemma find_text_above x f : Forall (λ t, text_lt x (t_text t) = true) f → find_text x f = None.
Proof.
  induction 1 as [|t f Ht _ IH]; [done|]. simpl. destruct (decide (t_text t = x)) as [E|]; [|done].
  rewrite E, text_lt_irrefl in Ht. done.
Qed.

Lemma sorted_above t f : texts_sorted (t :: f) → ∀ x, text_lt x (t_text t) = true → find_text x (t :: f) = None.
Proof.
  intros Hs x Hx. inversion_clear Hs as [|?? _ Ha]. apply find_text_above. constructor; [done|].
  eapply Forall_impl; [exact Ha|]. intros u Hu. by eapply text_lt_trans.
Qed.

Lemma sorted_find_tail t f : texts_sorted (t :: f) → find_text (t_text t) f = None.
Proof. intros Hs. inversion_clear Hs as [|?? _ Ha]. by apply find_text_above. Qed.

Definition find_merged (x : U) (f g h : list tree) : Prop :=
  match find_text x f, find_text x g with
  | Some a, Some b => ∃ k, merged (t_kids a) (t_kids b) k ∧
      find_text x h = Some (Node (add_count (doc_count (t_item b)) (t_item a)) k)
  | Some a, None => find_text x h = Some a
  | None, r => find_text x h = r
  end.

(** Siblings that can be merged: sorted, or the same texts in the same order
    (the properties of one request). *)
Definition alike (f g : list tree) : Prop := texts_sorted f ∧ texts_sorted g ∨ map t_text f = map t_text g.

Lemma alike_lt a f b g : alike (a :: f) (b :: g) → text_lt (t_text a) (t_text b) = true →
  texts_sorted (a :: f) ∧ texts_sorted (b :: g).
Proof. intros [Hs|E] Hlt; [done|]. injection E as E _. by rewrite E, text_lt_irrefl in Hlt. Qed.

Lemma alike_sym f g : alike f g → alike g f.
Proof. intros [[]|]; [by left|by right]. Qed.

Lemma merged_find f g h : merged f g h → alike f g → ∀ x, find_merged x f g h.
Proof.
  induction 1 as [g|f|a f b g h Hlt _ IH|a f b g h Hlt _ IH|a f b g h k E Hk _ _ IH]; intros Ha x; unfold find_merged.
  - done.
  - simpl. by destruct (find_text x f).
  - destruct (alike_lt _ _ _ _ Ha Hlt) as [Hf Hg]. assert (texts_sorted f) as Hf' by by inversion Hf.
    specialize (IH (or_introl (conj Hf' Hg)) x). unfold find_merged in IH.
    cbn [find_text]. destruct (decide (t_text a = x)) as [<-|Hx].
    + change (if decide (t_text b = t_text a) then Some b else find_text (t_text a) g) with (find_text (t_text a) (b :: g)).
      by rewrite (sorted_above b g Hg).
    + destruct (find_text x f); done.
  - apply alike_sym in Ha. destruct (alike_lt _ _ _ _ Ha Hlt) as [Hg Hf]. assert (texts_sorted g) as Hg' by by inversion Hg.
    specialize (IH (or_introl (conj Hf Hg')) x). unfold find_merged in IH.
    change (find_text x (b :: g)) with (if decide (t_text b = x) then Some b else find_text x g).
    change (find_text x (b :: h)) with (if decide (t_text b = x) then Some b else find_text x h).
    destruct (decide (t_text b = x)) as [<-|Hx].
    + by rewrite (sorted_above a f Hf).
    + destruct (find_text x (a :: f)); done.
  - assert (alike f g) as Ha'.
    { destruct Ha as [[Hf Hg]|Et]; [left; split; [by inversion Hf|by inversion Hg]|right]. by injection Et. }
    specialize (IH Ha' x). unfold find_merged in IH. cbn [find_text].
    change (t_text (Node (add_count (doc_count (t_item b)) (t_item a)) k)) with (t_text a). rewrite <- E.
    destruct (decide (t_text a = x)) as [<-|Hx]; [by exists k|done].
Qed.

Definition forest_ok (l : Z) (f : list tree) : Prop := Forall (tree_ok l) f.

Lemma find_text_ok l f x t : forest_ok l f → find_text x f = Some t → tree_ok l t.
Proof.
  induction 1 as [|u f Hu _ IH]; [done|]. simpl. destruct (decide (t_text u = x)); [by intros [= <-]|done].
Qed.

(** Merging adds the counts of every label. *)
Lemma merged_counts path : ∀ l f g h, forest_ok l f → forest_ok l g → alike f g → merged f g h →
  count_at path h = union_with (λ x y, Some (u32 (x + y))) (count_at path f) (count_at path g).
Proof.
  induction path as [|x path IH]; intros l f g h Hf Hg Ha Hm; [done|]. simpl.
  pose proof (merged_find f g h Hm Ha x) as Hx. unfold find_merged in Hx.
  destruct (find_text x f) as [a|] eqn:Ef, (find_text x g) as [b|] eqn:Eg; cbn [mbind option_bind].
  - destruct Hx as (k & Hk & ->). cbn [mbind option_bind]. destruct path as [|y path]; [done|].
    destruct (tree_ok_inv l a (find_text_ok l f x a Hf Ef)) as (_ & _ & Hsa & Hka & _).
    destruct (tree_ok_inv l b (find_text_ok l g x b Hg Eg)) as (_ & _ & Hsb & Hkb & _).
    apply (IH (l + 1)); [done|done|by left|done].
  - rewrite Hx. cbn [mbind option_bind]. destruct path as [|y path]; [done|]. by destruct (count_at _ _).
  - rewrite Hx. cbn [mbind option_bind]. destruct path as [|y path]; [done|]. by destruct (count_at _ _).
  - by rewrite Hx.
Qed.

Lemma merged_forall_text (P : U → Prop) f g h : merged f g h →
  Forall (λ t, P (t_text t)) f → Forall (λ t, P (t_text t)) g → Forall (λ t, P (t_text t)) h.
Proof.
  induction 1 as [g|f|a f b g h Hlt _ IH|a f b g h Hlt _ IH|a f b g h k E Hk _ _ IH]; intros Hf Hg; try done.
  - inversion_clear Hf. constructor; [done|]. by apply IH.
  - inversion_clear Hg. constructor; [done|]. by apply IH.
  - inversion_clear Hf. inversion_clear Hg. constructor; [done|]. by apply IH.
Qed.

Lemma merged_sorted f g h : merged f g h → texts_sorted f → texts_sorted g → texts_sorted h.
Proof.
  induction 1 as [g|f|a f b g h Hlt Hm IH|a f b g h Hlt Hm IH|a f b g h k E Hk _ Hm IH]; intros Hf Hg; try done.
  - inversion_clear Hf as [|?? Hf' Ha]. constructor; [by apply IH|].
    apply (merged_forall_text (λ y, text_lt (t_text a) y = true) f (b :: g)); [done|done|].
    inversion_clear Hg as [|?? _ Hb]. constructor; [done|]. eapply Forall_impl; [exact Hb|].
    intros u Hu. by eapply text_lt_trans.
  - inversion_clear Hg as [|?? Hg' Hb]. constructor; [by apply IH|].
    apply (merged_forall_text (λ y, text_lt (t_text b) y = true) (a :: f) g); [done| |done].
    inversion_clear Hf as [|?? _ Ha]. constructor; [done|]. eapply Forall_impl; [exact Ha|].
    intros u Hu. by eapply text_lt_trans.
  - inversion_clear Hf as [|?? Hf' Ha]. inversion_clear Hg as [|?? Hg' Hb]. constructor; [by apply IH|].
    apply (merged_forall_text (λ y, text_lt (t_text a) y = true) f g); [done|done|].
    rewrite E. done.
Qed.

Lemma merged_ok f g h : merged f g h → ∀ l, forest_ok l f → forest_ok l g → forest_ok l h.
Proof.
  induction 1 as [g|f|a f b g h Hlt Hm IH|a f b g h Hlt Hm IH|a f b g h k E Hk IHk Hm IH]; intros l Hf Hg; try done.
  - inversion_clear Hf. constructor; [done|]. by apply IH.
  - inversion_clear Hg. constructor; [done|]. by apply IH.
  - inversion_clear Hf as [|?? Ha Hf']. inversion_clear Hg as [|?? Hb Hg']. constructor; [|by apply IH].
    destruct (tree_ok_inv l a Ha) as (Hla & Hl & Hsa & Hka & _).
    destruct (tree_ok_inv l b Hb) as (Hlb & _ & Hsb & Hkb & _).
    constructor; [done|done|by apply (merged_sorted _ _ _ Hk)|by apply IHk].
Qed.

Lemma merged_alike f g h : merged f g h → map t_text f = map t_text g → map t_text h = map t_text f.
Proof.
  induction 1 as [g|f|a f b g h Hlt Hm IH|a f b g h Hlt Hm IH|a f b g h k E Hk IHk Hm IH]; intros Et; try done.
  - injection Et as E' _. by rewrite E', text_lt_irrefl in Hlt.
  - injection Et as E' _. by rewrite E', text_lt_irrefl in Hlt.
  - injection Et as _ Et. simpl. f_equal. by apply IH.
Qed.

(** Merging the lists of two workers for the same properties gives the list
    of a tree again, in which each label has the sum of its counts. *)
Lemma mergeStringGroup_ok f g :
  forest_ok 0 f → forest_ok 0 g → map t_text f = map t_text g →
  ∃ h other, mergeStringGroup (flatten f) (flatten g) = Some (flatten h, other) ∧
  forest_ok 0 h ∧ map t_text h = map t_text f ∧
  ∀ path, count_at path h = union_with (λ x y, Some (u32 (x + y))) (count_at path f) (count_at path g).
Proof.
  intros Hf Hg Ha. unfold mergeStringGroup.
  destruct (recurse_ok (S (length (flatten f) + length (flatten g))) 0 [] f g [] [] Hf Hg eq_refl eq_refl ltac:(lia))
    as (h & Hm & E). rewrite !app_nil_r in E. change ([] ++ flatten h) with (flatten h) in E.
  assert (∃ other, match flatten g, flatten f with
    | [], _ => Some (flatten f, flatten g)
    | _, [] => Some (flatten g, flatten f)
    | _, _ => '(done, it, _) ← recurseStringGroup (S (length (flatten f) + length (flatten g))) 0 [] (flatten f) (flatten g);
        Some (done ++ it, flatten g) end = Some (flatten h, other)) as [other Eo].
  { rewrite E. cbn [mbind option_bind].
    destruct Hf as [|a f Hfa Hf], Hg as [|b g Hgb Hg]; try done.
    - exists []. by inversion Hm.
    - destruct (tree_ok_inv 0 a Hfa) as (_ & _ & _ & _ & Efa). destruct (tree_ok_inv 0 b Hgb) as (_ & _ & _ & _ & Egb).
      rewrite (flatten_cons a f), (flatten_cons b g), Efa, Egb. simpl. rewrite app_nil_r. by eexists. }
  exists h, other. split; [exact Eo|]. split_and!.
  - by apply (merged_ok f g h Hm).
  - by apply (merged_alike f g h Hm).
  - intros path. apply (merged_counts path 0 f g h); [done|done|by right|done].
Qed.
End counts.
End string_group.
