(* ===== verification/GroupMerge.v ===== *)
(** * Merging counts by number and by range ([mining-manager/group-manager/GroupRep.cpp])

    Counts by number are sorted lists of a [double] and a count; counts by range
    are segment trees in a vector (700 leaves, 70 nodes of ten leaves, 7 nodes of
    ten nodes, the total).  Merging adds the counts number by number and cell by
    cell; whole lists of properties are merged by position. *)
From S2P Require Import Prelude CNum GroupRep Phrases.

(** ** Counts by number *)

(** One round of the loop of [mergeNumericGroup]; the list in front of the
    iterator is [done].  The loop does not end on a NaN. *)
Fixpoint add_equal (lit olit : list (double * Z)) : list (double * Z) * list (double * Z) * list (double * Z) :=
  match lit, olit with
  | (x, n) :: lit', (y, k) :: olit' =>
      if SFeqb x y then let '(sums, l, o) := add_equal lit' olit' in ((x, u32 (n + k)) :: sums, l, o)
      else ([], lit, olit)
  | _, _ => ([], lit, olit)
  end.

Fixpoint merge_numbers (fuel : nat) (done lit olit : list (double * Z)) : option (list (double * Z)) :=
  match fuel with
  | O => None
  | S fuel =>
      match olit with
      | [] => Some (done ++ lit)
      | (y, _) :: _ =>
          let '(below, lit) := span (λ e : double * Z, d_lt e.1 y) lit in
          match lit with
          | [] => Some (done ++ below ++ olit)
          | (x, _) :: _ =>
              let '(inserted, olit) := span (λ e : double * Z, d_gt x e.1) olit in
              let '(sums, lit, olit) := add_equal lit olit in
              merge_numbers fuel (done ++ below ++ inserted ++ sums) lit olit
          end
      end
  end.

(** The iterator of the other list advances with ours; reading it at its end
    is undefined. *)
Fixpoint merge_positions {A} (f : A → A → option A) (ours other : list (string * A)) : option (list (string * A)) :=
  match ours, other with
  | [], _ => Some []
  | _ :: _, [] => None
  | (p, x) :: ours, (_, y) :: other =>
      z ← f x y; rest ← merge_positions f ours other; Some ((p, z) :: rest)
  end.

Definition merge_or_swap {A} (f : A → A → option A) (ours other : list (string * A))
    : option (list (string * A) * list (string * A)) :=
  match other, ours with
  | [], _ => Some (ours, other)
  | _, [] => Some (other, ours)
  | _, _ => l ← merge_positions f ours other; Some (l, other)
  end.

Definition mergeNumericGroup : list (string * list (double * Z)) → list (string * list (double * Z)) →
    option (list (string * list (double * Z)) * list (string * list (double * Z))) :=
  merge_or_swap (λ l o, merge_numbers (S (length l + length o)) [] l o).

(** ** Counts by range *)

Definition LEVEL_1_OF_SEGMENT_TREE : nat := 7.

(** [*it += *oit] for two iterators at the same distance from the beginning. *)
Definition add_cell (ov : list Z) (v : list Z) (i : nat) : option (list Z) :=
  x ← v !! i; y ← ov !! i; Some (<[i := u32 (x + y)]> v).

(** The cursors of the three levels move through both vectors alike. *)
Record cursors := Cursors { c_v : list Z; c_level3 : nat; c_level2 : nat; c_level1 : nat }.

Definition merge_node2 (ov : list Z) (c : cursors) (_ : nat) : option cursors :=
  let '(Cursors v l3 l2 l1) := c in
  o ← ov !! l2;
  if negb (o =? 0) then
    v ← foldM (add_cell ov) v (seq l3 10);
    v ← add_cell ov v l2;
    Some (Cursors v (l3 + 10) (S l2) l1)
  else Some (Cursors v (l3 + 10) (S l2) l1).

Definition merge_node1 (ov : list Z) (c : cursors) (_ : nat) : option cursors :=
  let '(Cursors v l3 l2 l1) := c in
  o ← ov !! l1;
  if negb (o =? 0) then
    '(Cursors v l3 l2 l1) ← foldM (merge_node2 ov) c (seq 0 10);
    v ← add_cell ov v l1;
    Some (Cursors v l3 l2 (S l1))
  else Some (Cursors v (l3 + 100) (l2 + 10) (S l1)).

Definition merge_ranges (v ov : list Z) : option (list Z) :=
  total ← last ov;
  if total =? 0 then Some v
  else
    own ← last v;
    let v := <[(length v - 1)%nat := u32 (own + total)]> v in
    c ← foldM (merge_node1 ov) (Cursors v 0 (100 * LEVEL_1_OF_SEGMENT_TREE) (110 * LEVEL_1_OF_SEGMENT_TREE))
          (seq 0 LEVEL_1_OF_SEGMENT_TREE);
    Some (c_v c).

Definition mergeNumericRangeGroup : list (string * list Z) → list (string * list Z) →
    option (list (string * list Z) * list (string * list Z)) :=
  merge_or_swap merge_ranges.

(** ** The whole list: [merge], which may take lists away from [other] *)

Definition merge {U} `{TextLt U} (ours other : GroupRep U) : option (GroupRep U * GroupRep U) :=
  '(s, os) ← mergeStringGroup (stringGroupRep_ ours) (stringGroupRep_ other);
  '(n, on) ← mergeNumericGroup (numericGroupRep_ ours) (numericGroupRep_ other);
  '(r, or) ← mergeNumericRangeGroup (numericRangeGroupRep_ ours) (numericRangeGroupRep_ other);
  Some (Rep s n r, Rep os on or).

(** ** Numbers: the merged list adds the counts *)

Definition number_sorted (l : list (double * Z)) : Prop :=
  Forall (λ e, d_num e.1) l ∧ StronglySorted (λ a b, d_lt a.1 b.1 = true) l.

(** The count of a number. *)
Fixpoint count_of (x : double) (l : list (double * Z)) : option Z :=
  match l with [] => None | (y, n) :: l => if SFeqb y x then Some n else count_of x l end.

Lemma span_spec {A} (p : A → bool) l : let '(a, b) := span p l in
  l = a ++ b ∧ forallb p a = true ∧ match b with [] => True | x :: _ => p x = false end.
Proof.
  induction l as [|x l IH]; [done|]. simpl. destruct (p x) eqn:E; [|done].
  destruct (span p l) as [a b]. destruct IH as (-> & Ha & Hb). simpl. by rewrite E.
Qed.

(** Equality of numbers is incomparability. *)
Lemma d_eq_lt x y : d_num x → d_num y → SFeqb x y = negb (d_lt x y) && negb (d_lt y x).
Proof.
  unfold d_num, d_lt, SFeqb, SFltb.
  destruct x as [s1|s1| |s1 m1 e1], y as [s2|s2| |s2 m2 e2]; simpl; try done;
    destruct s1, s2; simpl; try done; rewrite ?pos_compare_cont.
  all: destruct (Z.compare_spec e1 e2), (Z.compare_spec e2 e1); try lia; try done; subst.
  all: rewrite ?pos_compare_cont;
    destruct (Z.compare_spec (Z.pos m1) (Z.pos m2)),
      (Z.compare_spec (Z.pos m2) (Z.pos m1)); simpl; try lia; try done.
Qed.

Definition nums (l : list (double * Z)) : Prop := Forall (λ e, d_num e.1) l.

Inductive num_merged : list (double * Z) → list (double * Z) → list (double * Z) → Prop :=
  | nm_l o : num_merged [] o o
  | nm_r l : num_merged l [] l
  | nm_lt a l b o r : d_lt a.1 b.1 = true → num_merged l (b :: o) r → num_merged (a :: l) (b :: o) (a :: r)
  | nm_gt a l b o r : d_lt b.1 a.1 = true → num_merged (a :: l) o r → num_merged (a :: l) (b :: o) (b :: r)
  | nm_eq x n l y k o r : SFeqb x y = true → num_merged l o r →
      num_merged ((x, n) :: l) ((y, k) :: o) ((x, u32 (n + k)) :: r).

Lemma add_equal_ok l : ∀ o, let '(sums, l', o') := add_equal l o in
  (∀ r, num_merged l' o' r → num_merged l o (sums ++ r)) ∧ (length l' + length sums = length l)%nat ∧
  (length o' + length sums = length o)%nat ∧ (nums l → nums l') ∧ (nums o → nums o') ∧
  ∀ a b, head l = Some a → head o = Some b → SFeqb a.1 b.1 = true → sums ≠ [].
Proof.
  induction l as [|[x n] l IH]; intros o; simpl.
  { split_and!; try done; try lia. }
  destruct o as [|[y k] o]; [split_and!; simpl; try done; lia|].
  destruct (SFeqb x y) eqn:E.
  - specialize (IH o). destruct (add_equal l o) as [[sums l'] o'].
    destruct IH as (Hr & Hl & Ho & Hnl & Hno & _). simpl. split_and!; try lia; try done.
    + intros r Hm. constructor; [done|]. by apply Hr.
    + intros Hn. inversion_clear Hn. by apply Hnl.
    + intros Hn. inversion_clear Hn. by apply Hno.
  - simpl. split_and!; try done; try lia. intros a b [= <-] [= <-]. simpl. by rewrite E.
Qed.

Lemma below_merged below l b o r : forallb (λ e : double * Z, d_lt e.1 b.1) below = true →
  num_merged l (b :: o) r → num_merged (below ++ l) (b :: o) (below ++ r).
Proof.
  intros Hb Hm. induction below as [|e below IH]; [done|]. simpl in Hb. apply andb_prop in Hb as [He Hb].
  constructor; [done|]. by apply IH.
Qed.

Lemma above_merged inserted a l o r : forallb (λ e : double * Z, d_gt a.1 e.1) inserted = true →
  num_merged (a :: l) o r → num_merged (a :: l) (inserted ++ o) (inserted ++ r).
Proof.
  intros Hb Hm. induction inserted as [|e inserted IH]; [done|]. simpl in Hb. apply andb_prop in Hb as [He Hb].
  simpl. apply nm_gt; [done|]. by apply IH.
Qed.

Lemma below_all below b o : forallb (λ e : double * Z, d_lt e.1 b.1) below = true →
  num_merged below (b :: o) (below ++ b :: o).
Proof.
  intros Hb. rewrite <- (app_nil_r below) at 1. apply below_merged; [done|]. constructor.
Qed.

Lemma nums_app a b : nums (a ++ b) ↔ nums a ∧ nums b.
Proof. apply Forall_app. Qed.

(** The loop ends when there is no NaN. *)
Lemma merge_numbers_ok fuel : ∀ done l o, nums l → nums o → (length l + length o < fuel)%nat →
  ∃ r, merge_numbers fuel done l o = Some (done ++ r) ∧ num_merged l o r.
Proof.
  induction fuel as [|fuel IH]; intros done l o Hl Ho Hf; [lia|]. cbn [merge_numbers].
  destruct o as [|[y k] o']; [exists l; split; [done|constructor]|].
  pose proof (span_spec (λ e : double * Z, d_lt e.1 y) l) as Hs.
  destruct (span (λ e : double * Z, d_lt e.1 y) l) as [below l1]. destruct Hs as (-> & Hb & Hstop).
  apply nums_app in Hl as [_ Hl]. rewrite length_app in Hf.
  destruct l1 as [|[x n] l'].
  { exists (below ++ (y, k) :: o'). rewrite app_nil_r. split; [done|]. by apply below_all. }
  pose proof (span_spec (λ e : double * Z, d_gt x e.1) ((y, k) :: o')) as Hs.
  destruct (span (λ e : double * Z, d_gt x e.1) ((y, k) :: o')) as [inserted o1]. destruct Hs as (E & Hi & Hstop').
  pose proof (add_equal_ok ((x, n) :: l') o1) as Hadd.
  destruct (add_equal ((x, n) :: l') o1) as [[sums l2] o2]. destruct Hadd as (Hr & Hl2 & Ho2 & Hnl & Hno & Hne).
  assert (length o1 + length inserted = S (length o'))%nat as Hlen.
  { rewrite Nat.add_comm, <- length_app, <- E. done. }
  assert (nums o1) as Ho1 by (rewrite E in Ho; by apply nums_app in Ho as [_ Ho]).
  assert (inserted = [] → sums ≠ []) as Hprog.
  { intros ->. simpl in E. subst o1. apply (Hne (x, n) (y, k)); [done|done|]. simpl in *.
    inversion_clear Hl. inversion_clear Ho. simpl in *.
    rewrite d_eq_lt by done. unfold d_gt in Hstop'. fold (d_lt y x) in Hstop'. by rewrite Hstop, Hstop'. }
  destruct (IH (done ++ below ++ inserted ++ sums) l2 o2) as (r & Er & Hm); [by apply Hnl|by apply Hno| |].
  { simpl in Hl2, Ho2, Hf. destruct inserted; [|simpl in Hlen; lia].
    destruct sums; [by destruct (Hprog eq_refl)|simpl in *; lia]. }
  exists (below ++ inserted ++ sums ++ r). rewrite Er, <- !app_assoc. split; [done|].
  apply (below_merged below _ (y, k)); [done|]. rewrite E.
  apply (above_merged inserted (x, n)); [done|]. by apply Hr.
Qed.

Lemma num_merged_all (P : double → Prop) l o r : num_merged l o r →
  Forall (λ e, P e.1) l → Forall (λ e, P e.1) o → Forall (λ e, P e.1) r.
Proof.
  induction 1 as [o|l|a l b o r Hlt _ IH|a l b o r Hlt _ IH|x n l y k o r E _ IH]; intros Hl Ho; try done.
  - inversion_clear Hl. constructor; [done|]. by apply IH.
  - inversion_clear Ho. constructor; [done|]. by apply IH.
  - inversion_clear Hl. inversion_clear Ho. constructor; [done|]. by apply IH.
Qed.

Lemma d_lt_trans x y z : d_lt x y = true → d_lt y z = true → d_lt x z = true.
Proof.
  intros Hxy Hyz. apply (@swo_trans _ d_num d_lt d_lt_strict_weak x y z); eauto using d_lt_num_l, d_lt_num_r.
Qed.

Lemma d_eq_lt_trans x y z : d_num x → d_num y → SFeqb x y = true → d_lt y z = true → d_lt x z = true.
Proof.
  intros Hx Hy E Hyz. rewrite (d_eq_lt x y Hx Hy) in E. apply andb_prop in E as [_ E]. apply negb_true_iff in E.
  by apply (@swo_le_lt_trans _ d_num d_lt d_lt_strict_weak x y z Hx Hy (d_lt_num_r _ _ Hyz)).
Qed.

Lemma d_eq_sym x y : SFeqb x y = SFeqb y x.
Proof.
  destruct (d_is_nan x) eqn:Hx; [by destruct x, y|]. destruct (d_is_nan y) eqn:Hy; [destruct x, y; try done|].
  rewrite (d_eq_lt x y Hx Hy), (d_eq_lt y x Hy Hx). apply andb_comm.
Qed.

Lemma count_of_above x l : d_num x → Forall (λ e, d_lt x e.1 = true) l → count_of x l = None.
Proof.
  intros Hx. induction 1 as [|[y n] l Hy _ IH]; [done|]. simpl in *.
  rewrite (d_eq_lt y x (d_lt_num_r _ _ Hy) Hx), Hy, andb_false_r. done.
Qed.

Lemma num_merged_sorted l o r : num_merged l o r → number_sorted l → number_sorted o → number_sorted r.
Proof.
  intros Hm [Hnl Hl] [Hno Ho]. split; [by apply (num_merged_all d_num l o)|].
  revert Hnl Hl Hno Ho.
  induction Hm as [o|l|a l b o r Hlt Hm IH|a l b o r Hlt Hm IH|x n l y k o r E Hm IH]; intros Hnl Hl Hno Ho; try done.
  - inversion_clear Hnl. inversion_clear Hl as [|?? Hl' Ha]. constructor; [by apply IH|].
    apply (num_merged_all (λ z, d_lt a.1 z = true) l (b :: o)); [done|done|].
    inversion_clear Ho as [|?? _ Hb]. constructor; [done|]. eapply Forall_impl; [exact Hb|].
    intros e He. by eapply d_lt_trans.
  - inversion_clear Hno. inversion_clear Ho as [|?? Ho' Hb]. constructor; [by apply IH|].
    apply (num_merged_all (λ z, d_lt b.1 z = true) (a :: l) o); [done| |done].
    inversion_clear Hl as [|?? _ Ha]. constructor; [done|]. eapply Forall_impl; [exact Ha|].
    intros e He. by eapply d_lt_trans.
  - inversion_clear Hnl as [|?? Hx Hnl']. inversion_clear Hno as [|?? Hy Hno'].
    inversion_clear Hl as [|?? Hl' Ha]. inversion_clear Ho as [|?? Ho' Hb]. constructor; [by apply IH|].
    apply (num_merged_all (λ z, d_lt x z = true) l o); [done|done|]. eapply Forall_impl; [exact Hb|].
    intros e He. by apply (d_eq_lt_trans x y).
Qed.

(** Merging adds the counts of every number. *)
Lemma num_merged_counts l o r : num_merged l o r → number_sorted l → number_sorted o → ∀ x, d_num x →
  count_of x r = union_with (λ n k, Some (u32 (n + k))) (count_of x l) (count_of x o).
Proof.
  intros Hm [Hnl Hl] [Hno Ho]. revert Hnl Hl Hno Ho.
  induction Hm as [o|l|a l b o r Hlt Hm IH|a l b o r Hlt Hm IH|y n l z k o r E Hm IH]; intros Hnl Hl Hno Ho x Hx.
  - by destruct (count_of x o).
  - by destruct (count_of x l).
  - inversion_clear Hnl. inversion_clear Hl as [|?? Hl' Ha]. destruct a as [y n]. simpl count_of at 1 2. simpl in Hlt.
    destruct (SFeqb y x) eqn:E; [|by apply IH].
    rewrite (count_of_above x (b :: o) Hx); [done|]. rewrite d_eq_sym in E.
    inversion_clear Ho as [|?? _ Hb]. constructor; [by apply (d_eq_lt_trans x y)|].
    eapply Forall_impl; [exact Hb|]. intros e He. apply (d_eq_lt_trans x y); [done|done|done|]. by eapply d_lt_trans.
  - inversion_clear Hno. inversion_clear Ho as [|?? Ho' Hb]. destruct b as [y n]. simpl in Hlt.
    change (count_of x ((y, n) :: r)) with (if SFeqb y x then Some n else count_of x r).
    change (count_of x ((y, n) :: o)) with (if SFeqb y x then Some n else count_of x o).
    destruct (SFeqb y x) eqn:E; [|by apply IH].
    rewrite (count_of_above x (a :: l) Hx); [done|]. rewrite d_eq_sym in E.
    inversion_clear Hl as [|?? _ Ha]. constructor; [by apply (d_eq_lt_trans x y)|].
    eapply Forall_impl; [exact Ha|]. intros e He. apply (d_eq_lt_trans x y); [done|done|done|]. by eapply d_lt_trans.
  - inversion_clear Hnl as [|?? Hy Hnl']. inversion_clear Hno as [|?? Hz Hno'].
    inversion_clear Hl as [|?? Hl' Ha]. inversion_clear Ho as [|?? Ho' Hb]. simpl in Hy, Hz. simpl.
    assert (SFeqb y x = SFeqb z x) as Eyz.
    { rewrite (d_eq_lt y x), (d_eq_lt z x) by done.
      rewrite (d_eq_lt y z Hy Hz) in E. apply andb_prop in E as [E1%negb_true_iff E2%negb_true_iff].
      f_equal; f_equal.
      - destruct (d_lt z x) eqn:F; [by apply (@swo_le_lt_trans _ d_num d_lt d_lt_strict_weak y z x)|].
        by apply (@swo_ntrans _ d_num d_lt d_lt_strict_weak y z x).
      - destruct (d_lt x z) eqn:F; [|by apply (@swo_ntrans _ d_num d_lt d_lt_strict_weak x z y)].
        destruct (d_lt x y) eqn:G; [done|]. by rewrite (@swo_ntrans _ d_num d_lt d_lt_strict_weak x y z) in F. }
    rewrite Eyz. destruct (SFeqb z x); [done|]. by apply IH.
Qed.

(** ** Ranges: the merged tree adds the cells *)

Definition cell (v : list Z) (i : nat) : Z := v !!! i.

(** The sum of [n] cells from [i]. *)
Definition cells (v : list Z) (i n : nat) : Z := zsum (map (cell v) (seq i n)).

(** A segment tree: each node holds the sum of the ten below it, the last cell
    the total. *)
Record seg_tree (v : list Z) : Prop := {
  seg_size : length v = 778%nat;
  seg_range : Forall (λ x, 0 ≤ x < 2 ^ 32) v;
  seg_node2 : ∀ i, (i < 70)%nat → cell v (700 + i) = cells v (10 * i) 10;
  seg_node1 : ∀ i, (i < 7)%nat → cell v (770 + i) = cells v (700 + 10 * i) 10;
  seg_total : cell v 777 = cells v 770 7 }.

Definition add_cells (v ov : list Z) : list Z := zip_with (λ x y, u32 (x + y)) v ov.

(** The vector when the cells in [P] have been added. *)
Definition mix (P : nat → Prop) `{!∀ i, Decision (P i)} (v ov : list Z) : list Z :=
  imap (λ i x, if decide (P i) then u32 (x + cell ov i) else x) v.

Lemma cell_lookup v i : (i < length v)%nat → v !! i = Some (cell v i).
Proof. intros Hi. unfold cell. by apply list_lookup_lookup_total_lt. Qed.

Lemma mix_ext (P Q : nat → Prop) `{!∀ i, Decision (P i)} `{!∀ i, Decision (Q i)} v ov :
  (∀ i, (i < length v)%nat → P i ↔ Q i) → mix P v ov = mix Q v ov.
Proof.
  intros HPQ. unfold mix. apply list_eq. intros i. rewrite !list_lookup_imap.
  destruct (v !! i) as [x|] eqn:E; [|done]. simpl. f_equal. apply lookup_lt_Some in E. specialize (HPQ i E).
  destruct (decide (P i)), (decide (Q i)); tauto.
Qed.

Lemma mix_lookup (P : nat → Prop) `{!∀ i, Decision (P i)} v ov i : (i < length v)%nat →
  mix P v ov !! i = Some (if decide (P i) then u32 (cell v i + cell ov i) else cell v i).
Proof. intros Hi. unfold mix. by rewrite list_lookup_imap, (cell_lookup v i Hi). Qed.

Lemma length_mix (P : nat → Prop) `{!∀ i, Decision (P i)} v ov : length (mix P v ov) = length v.
Proof. apply length_imap. Qed.

Lemma mix_insert (P : nat → Prop) `{!∀ i, Decision (P i)} v ov i : ¬ P i → (i < length v)%nat → (i < length ov)%nat →
  add_cell ov (mix P v ov) i = Some (mix (λ j, P j ∨ j = i) v ov).
Proof.
  intros Hn Hi Ho. unfold add_cell. rewrite (mix_lookup P v ov i Hi), (cell_lookup ov i Ho). cbn [mbind option_bind].
  destruct (decide (P i)); [done|]. f_equal. apply list_eq. intros j.
  destruct (decide (j < length v)%nat) as [Hj|Hj].
  - rewrite (mix_lookup (λ j, P j ∨ j = i) v ov j Hj). destruct (decide (j = i)) as [->|Hji].
    + rewrite list_lookup_insert_eq by by rewrite length_mix. destruct (decide (P i ∨ i = i)); tauto.
    + rewrite list_lookup_insert_ne by done. rewrite (mix_lookup P v ov j Hj).
      destruct (decide (P j)), (decide (P j ∨ j = i)); tauto.
  - rewrite !lookup_ge_None_2; [done| |]; rewrite ?length_insert, ?length_mix; lia.
Qed.

Lemma mix_seq n : ∀ (P : nat → Prop) `{!∀ i, Decision (P i)} v ov a, (a + n ≤ length v)%nat → length ov = length v →
  (∀ i, (a ≤ i < a + n)%nat → ¬ P i) →
  foldM (add_cell ov) (mix P v ov) (seq a n) = Some (mix (λ j, P j ∨ (a ≤ j < a + n)%nat) v ov).
Proof.
  induction n as [|n IH]; intros P HP v ov a Hlen Ho Hn; cbn [seq foldM].
  - f_equal. apply mix_ext. intros i _. intuition lia.
  - rewrite mix_insert by (try apply Hn; lia). cbn [mbind option_bind].
    rewrite IH; [|lia|done|intros i Hi [Hp|]; [by apply (Hn i ltac:(lia))|lia]].
    f_equal. apply mix_ext. intros i _. destruct (decide (i = a)); intuition lia.
Qed.

(** Adding zero changes nothing. *)
Lemma mix_zeros (P Q : nat → Prop) `{!∀ i, Decision (P i)} `{!∀ i, Decision (Q i)} v ov :
  Forall (λ x, 0 ≤ x < 2 ^ 32) v → (∀ i, P i → Q i) → (∀ i, (i < length v)%nat → Q i → P i ∨ cell ov i = 0) →
  mix P v ov = mix Q v ov.
Proof.
  intros Hv HPQ Hz. unfold mix. apply list_eq. intros i. rewrite !list_lookup_imap.
  destruct (v !! i) as [x|] eqn:E; [|done]. simpl. f_equal. rewrite Forall_lookup in Hv. pose proof (Hv i x E).
  apply lookup_lt_Some in E. specialize (HPQ i). specialize (Hz i E).
  destruct (decide (P i)), (decide (Q i)); try tauto. destruct Hz as [|Hz]; [done|done|].
  rewrite Hz, Z.add_0_r. symmetry. by apply u32_small.
Qed.

Lemma cells_zero v i n : cells v i n = 0 → (∀ j, (i ≤ j < i + n)%nat → 0 ≤ cell v j) →
  ∀ j, (i ≤ j < i + n)%nat → cell v j = 0.
Proof.
  unfold cells. revert i. induction n as [|n IH]; intros i Hs Hp j Hj; [lia|]. unfold zsum in Hs. cbn [seq map foldr] in Hs.
  fold (zsum (map (cell v) (seq (S i) n))) in Hs.
  assert (0 ≤ zsum (map (cell v) (seq (S i) n))) as Hpos.
  { clear -Hp. revert i Hp. induction n as [|n IH]; intros i Hp; [done|]. unfold zsum in *. cbn [seq map foldr].
    specialize (IH (S i) ltac:(intros; apply Hp; lia)). specialize (Hp (S i) ltac:(lia)). lia. }
  pose proof (Hp i ltac:(lia)). destruct (decide (j = i)) as [->|]; [lia|].
  apply (IH (S i)); [lia|intros; apply Hp; lia|lia].
Qed.

Lemma div10 i : (10 * (i / 10) ≤ i < 10 * (i / 10) + 10)%nat.
Proof. pose proof (Nat.div_mod_eq i 10). pose proof (Nat.mod_upper_bound i 10 ltac:(lia)). lia. Qed.

Section ranges.
Context (v ov : list Z) (Hlen : length v = 778%nat) (Hv : Forall (λ x, 0 ≤ x < 2 ^ 32) v) (Hov : seg_tree ov).

(** The cells added when the cursors are at [l3], [l2] and [l1]. *)
Definition passed (l3 l2 l1 i : nat) : Prop :=
  (i < l3)%nat ∨ (700 ≤ i < l2)%nat ∨ (770 ≤ i < l1)%nat ∨ i = 777%nat.

#[local] Instance passed_dec l3 l2 l1 i : Decision (passed l3 l2 l1 i).
Proof. unfold passed. apply _. Defined.

Lemma ov_pos i : (i < 778)%nat → 0 ≤ cell ov i.
Proof.
  intros Hi. pose proof (seg_range ov Hov) as Hr. rewrite Forall_lookup in Hr.
  apply (Hr i). apply cell_lookup. by rewrite (seg_size ov Hov).
Qed.

Lemma node2_ok l3 l2 l1 x : (700 ≤ l2 < 770)%nat → (l3 = 10 * (l2 - 700))%nat →
  merge_node2 ov (Cursors (mix (passed l3 l2 l1) v ov) l3 l2 l1) x =
  Some (Cursors (mix (passed (l3 + 10) (S l2) l1) v ov) (l3 + 10) (S l2) l1).
Proof.
  intros Hl2 Hl3. pose proof (seg_size ov Hov) as Ho. unfold merge_node2.
  rewrite (cell_lookup ov l2) by lia. cbn [mbind option_bind].
  destruct (cell ov l2 =? 0) eqn:E; simpl negb; cbn iota; bool_cases.
  - do 2 f_equal. apply mix_zeros; [done|unfold passed; lia|]. intros i Hi Hp.
    destruct (decide (passed l3 l2 l1 i)) as [|Hn]; [by left|right].
    pose proof (seg_node2 ov Hov (l2 - 700) ltac:(lia)) as Hs.
    replace (700 + (l2 - 700))%nat with l2 in Hs by lia. rewrite E, <- Hl3 in Hs. symmetry in Hs.
    destruct (decide (i = l2)) as [->|]; [done|].
    apply (cells_zero ov l3 10 Hs); [intros; apply ov_pos; lia|unfold passed in *; lia].
  - rewrite mix_seq; [|lia|lia|unfold passed; lia]. cbn [mbind option_bind].
    rewrite mix_insert; [|unfold passed; lia|lia|lia]. cbn [mbind option_bind]. do 2 f_equal.
    apply mix_ext. unfold passed. lia.
Qed.

Lemma nodes2_ok n : ∀ l3 l2 l1 a, (700 ≤ l2)%nat → (l2 + n ≤ 770)%nat → (l3 = 10 * (l2 - 700))%nat →
  foldM (merge_node2 ov) (Cursors (mix (passed l3 l2 l1) v ov) l3 l2 l1) (seq a n) =
  Some (Cursors (mix (passed (l3 + 10 * n) (l2 + n) l1) v ov) (l3 + 10 * n) (l2 + n) l1).
Proof.
  induction n as [|n IH]; intros l3 l2 l1 a Hl2 Hn Hl3; cbn [seq foldM].
  - by rewrite Nat.mul_0_r, !Nat.add_0_r.
  - rewrite node2_ok by lia. cbn [mbind option_bind]. rewrite IH by lia.
    replace (l3 + 10 + 10 * n)%nat with (l3 + 10 * S n)%nat by lia. by replace (S l2 + n)%nat with (l2 + S n)%nat by lia.
Qed.

Lemma node1_ok l3 l2 l1 x : (770 ≤ l1 < 777)%nat → (l2 = 700 + 10 * (l1 - 770))%nat → (l3 = 100 * (l1 - 770))%nat →
  merge_node1 ov (Cursors (mix (passed l3 l2 l1) v ov) l3 l2 l1) x =
  Some (Cursors (mix (passed (l3 + 100) (l2 + 10) (S l1)) v ov) (l3 + 100) (l2 + 10) (S l1)).
Proof.
  intros Hl1 Hl2 Hl3. pose proof (seg_size ov Hov) as Ho. unfold merge_node1.
  rewrite (cell_lookup ov l1) by lia. cbn [mbind option_bind].
  destruct (cell ov l1 =? 0) eqn:E; simpl negb; cbn iota; bool_cases.
  - do 2 f_equal. apply mix_zeros; [done|unfold passed; lia|]. intros i Hi Hp.
    destruct (decide (passed l3 l2 l1 i)) as [|Hn]; [by left|right].
    pose proof (seg_node1 ov Hov (l1 - 770) ltac:(lia)) as Hs.
    replace (770 + (l1 - 770))%nat with l1 in Hs by lia. rewrite E, <- Hl2 in Hs. symmetry in Hs.
    assert (∀ j, (l2 ≤ j < l2 + 10)%nat → cell ov j = 0) as H2.
    { apply (cells_zero ov l2 10 Hs). intros; apply ov_pos; lia. }
    destruct (decide (i = l1)) as [->|]; [done|]. destruct (decide (700 ≤ i)%nat) as [|Hi'].
    { apply H2. unfold passed in *; lia. }
    assert (l3 ≤ i < l3 + 100)%nat as Hr by (unfold passed in *; lia).
    pose proof (div10 i). pose proof (seg_node2 ov Hov (i / 10) ltac:(lia)) as Hs2.
    rewrite H2 in Hs2 by lia. symmetry in Hs2.
    apply (cells_zero ov _ 10 Hs2); [intros; apply ov_pos; lia|lia].
  - rewrite nodes2_ok by lia. cbn [mbind option_bind]. rewrite mix_insert; [|unfold passed; lia|lia|lia].
    cbn [mbind option_bind]. do 2 f_equal; try lia. apply mix_ext. unfold passed. lia.
Qed.

Lemma nodes1_ok n : ∀ l3 l2 l1 a, (770 ≤ l1)%nat → (l1 + n ≤ 777)%nat → (l2 = 700 + 10 * (l1 - 770))%nat →
  (l3 = 100 * (l1 - 770))%nat →
  foldM (merge_node1 ov) (Cursors (mix (passed l3 l2 l1) v ov) l3 l2 l1) (seq a n) =
  Some (Cursors (mix (passed (l3 + 100 * n) (l2 + 10 * n) (l1 + n)) v ov) (l3 + 100 * n) (l2 + 10 * n) (l1 + n)).
Proof.
  induction n as [|n IH]; intros l3 l2 l1 a Hl1 Hn Hl2 Hl3; cbn [seq foldM].
  - by rewrite !Nat.mul_0_r, !Nat.add_0_r.
  - rewrite node1_ok by lia. cbn [mbind option_bind]. rewrite IH by lia.
    replace (l3 + 100 + 100 * n)%nat with (l3 + 100 * S n)%nat by lia.
    replace (l2 + 10 + 10 * n)%nat with (l2 + 10 * S n)%nat by lia. by replace (S l1 + n)%nat with (l1 + S n)%nat by lia.
Qed.

Lemma mix_all (P : nat → Prop) `{!∀ i, Decision (P i)} : (∀ i, (i < 778)%nat → P i) → mix P v ov = add_cells v ov.
Proof.
  intros HP. pose proof (seg_size ov Hov) as Ho. apply list_eq. intros i. unfold add_cells.
  destruct (decide (i < 778)%nat) as [Hi|Hi].
  - rewrite mix_lookup by lia. destruct (decide (P i)) as [|Hn]; [|by destruct (Hn (HP i Hi))].
    rewrite lookup_zip_with, (cell_lookup v i), (cell_lookup ov i) by lia. done.
  - rewrite !lookup_ge_None_2; [done|rewrite length_zip_with; lia|rewrite length_mix; lia].
Qed.

Lemma merge_ranges_ok : merge_ranges v ov = Some (add_cells v ov).
Proof.
  pose proof (seg_size ov Hov) as Ho. unfold merge_ranges. rewrite !last_lookup, Hlen, Ho. cbn [Nat.pred].
  rewrite (cell_lookup ov 777), (cell_lookup v 777) by lia. cbn [mbind option_bind].
  destruct (cell ov 777 =? 0) eqn:E; bool_cases.
  - f_equal. rewrite <- (mix_all (λ _, True)) by done.
    assert (v = mix (λ _, False) v ov) as Hid.
    { unfold mix. apply list_eq. intros i. rewrite list_lookup_imap. by destruct (v !! i). }
    rewrite Hid at 1. apply mix_zeros; [done|done|]. intros i Hi _. right. rewrite Hlen in Hi.
    pose proof (seg_total ov Hov) as Hs. rewrite E in Hs. symmetry in Hs.
    assert (∀ j, (770 ≤ j < 777)%nat → cell ov j = 0) as H1.
    { apply (cells_zero ov 770 7 Hs). intros; apply ov_pos; lia. }
    assert (∀ j, (700 ≤ j < 770)%nat → cell ov j = 0) as H2.
    { intros j Hj. pose proof (div10 (j - 700)). pose proof (seg_node1 ov Hov ((j - 700) / 10) ltac:(lia)) as Hs1. rewrite H1 in Hs1 by lia.
      symmetry in Hs1. apply (cells_zero ov _ 10 Hs1); [intros; apply ov_pos; lia|lia]. }
    destruct (decide (i = 777%nat)) as [->|]; [done|]. destruct (decide (770 ≤ i)%nat); [apply H1; lia|].
    destruct (decide (700 ≤ i)%nat); [apply H2; lia|].
    pose proof (div10 i). pose proof (seg_node2 ov Hov (i / 10) ltac:(lia)) as Hs2. rewrite H2 in Hs2 by lia.
    symmetry in Hs2. apply (cells_zero ov _ 10 Hs2); [intros; apply ov_pos; lia|lia].
  - assert (<[(778 - 1)%nat := u32 (cell v 777 + cell ov 777)]> v = mix (passed 0 700 770) v ov) as ->.
    { apply list_eq. intros i. destruct (decide (i < 778)%nat) as [Hi|Hi].
      - rewrite (mix_lookup (passed 0 700 770) v ov i) by lia. destruct (decide (i = 777%nat)) as [->|].
        + rewrite list_lookup_insert_eq by lia. destruct (decide _) as [|Hn]; [done|]. destruct Hn. unfold passed. lia.
        + rewrite list_lookup_insert_ne by lia. rewrite (cell_lookup v i) by lia.
          destruct (decide _) as [Hp|]; [|done]. unfold passed in Hp. lia.
      - rewrite !lookup_ge_None_2; [done|rewrite length_mix; lia|rewrite length_insert; lia]. }
    change (100 * LEVEL_1_OF_SEGMENT_TREE)%nat with 700%nat. change (110 * LEVEL_1_OF_SEGMENT_TREE)%nat with 770%nat.
    unfold LEVEL_1_OF_SEGMENT_TREE. rewrite nodes1_ok by lia. cbn [mbind option_bind c_v]. f_equal.
    apply mix_all. unfold passed. lia.
Qed.
End ranges.

(** ** Merging by position *)

(** The first value with a name. *)
Fixpoint named {A} (p : string) (l : list (string * A)) : option A :=
  match l with [] => None | (q, x) :: l => if decide (q = p) then Some x else named p l end.

(** Workers answer with the same properties, or with none. *)
Definition fits {A B} (names : list A) (l : list B) (name : B → A) : Prop := l = [] ∨ map name l = names.

Definition pair_merged {A} (R : A → A → A → Prop) (x y z : option A) : Prop :=
  match x, y with
  | Some a, Some b => ∃ c, z = Some c ∧ R a b c
  | Some a, None => z = Some a
  | None, _ => z = y
  end.

Section positions.
Context {A : Type} (f : A → A → option A) (P Q : A → Prop) (R : A → A → A → Prop).
Context (Hf : ∀ a b, P a → Q b → ∃ c, f a b = Some c ∧ P c ∧ R a b c).

Lemma merge_positions_ok ours : ∀ other, map fst ours = map fst other →
  Forall (λ e, P e.2) ours → Forall (λ e, Q e.2) other →
  ∃ r, merge_positions f ours other = Some r ∧ map fst r = map fst ours ∧ Forall (λ e, P e.2) r ∧
  ∀ p, pair_merged R (named p ours) (named p other) (named p r).
Proof.
  induction ours as [|[p x] ours IH]; intros [|[q y] other] E HP HQ; try done.
  { exists []. by split_and!. }
  injection E as -> E. inversion_clear HP as [|?? Hx HP']. inversion_clear HQ as [|?? Hy HQ']. simpl in Hx, Hy.
  destruct (Hf x y Hx Hy) as (z & Ez & Hz & HR). destruct (IH other E HP' HQ') as (r & Er & En & Hr & Hp).
  exists ((q, z) :: r). simpl. rewrite Ez, Er. cbn [mbind option_bind]. split_and!; [done|by rewrite En|by constructor|].
  intros p. destruct (decide (q = p)) as [->|]; [by exists z|apply Hp].
Qed.

Lemma merge_or_swap_ok names ours other : fits names ours fst → fits names other fst → (∀ a, Q a → P a) →
  Forall (λ e, P e.2) ours → Forall (λ e, Q e.2) other →
  ∃ r o, merge_or_swap f ours other = Some (r, o) ∧ fits names r fst ∧ Forall (λ e, P e.2) r ∧
  ∀ p, pair_merged R (named p ours) (named p other) (named p r).
Proof.
  intros Ho Hot HQP HP HQ. unfold merge_or_swap. destruct other as [|e other].
  { exists ours, []. split_and!; [done|done|done|]. intros p. simpl. by destruct (named p ours). }
  destruct ours as [|d ours].
  { exists (e :: other), []. split_and!; [done|done| |done]. eapply Forall_impl; [exact HQ|]. simpl. auto. }
  destruct Ho as [|Ho]; [done|]. destruct Hot as [|Hot]; [done|].
  destruct (merge_positions_ok (d :: ours) (e :: other)) as (r & -> & En & Hr & Hp); [congruence|done|done|].
  cbn [mbind option_bind]. exists r, (e :: other). split_and!; [done|right; congruence|done|done].
Qed.
End positions.

(** ** The whole list *)

Section whole.
Context {U : Type} `{TextOrder U} `{!EqDecision U}.

Definition number_at (p : string) (x : double) (r : GroupRep U) : option Z :=
  l ← named p (numericGroupRep_ r); count_of x l.

Definition cell_at (p : string) (i : nat) (r : GroupRep U) : option Z :=
  v ← named p (numericRangeGroupRep_ r); v !! i.

Definition tree_cells (v : list Z) : Prop := length v = 778%nat ∧ Forall (λ x, 0 ≤ x < 2 ^ 32) v.

(** A list of counts for the properties of a request, with the tree [f]; [R] is
    what is known of the ranges. *)
Record rep_ok (props : list U) (numbers ranges : list string) (R : list Z → Prop) (f : list (tree (U := U))) (r : GroupRep U) : Prop := {
  rep_flat : stringGroupRep_ r = flatten f;
  rep_forest : forest_ok 0 f;
  rep_props : fits props f t_text;
  rep_numbers : fits numbers (numericGroupRep_ r) fst;
  rep_sorted : Forall (λ e, number_sorted e.2) (numericGroupRep_ r);
  rep_ranges : fits ranges (numericRangeGroupRep_ r) fst;
  rep_cells : Forall (λ e, R e.2) (numericRangeGroupRep_ r) }.

Definition sum_counts : option Z → option Z → option Z := union_with (λ x y, Some (u32 (x + y))).

Lemma merge_numbers_counts l o : number_sorted l → number_sorted o →
  ∃ r, merge_numbers (S (length l + length o)) [] l o = Some r ∧ number_sorted r ∧
  ∀ x, d_num x → count_of x r = sum_counts (count_of x l) (count_of x o).
Proof.
  intros Hl Ho. destruct (merge_numbers_ok (S (length l + length o)) [] l o) as (r & E & Hm); [apply Hl|apply Ho|lia|].
  exists r. split_and!; [done|by apply (num_merged_sorted l o)|]. intros x Hx. by apply num_merged_counts.
Qed.

Lemma add_cells_ok v ov : tree_cells v → seg_tree ov →
  merge_ranges v ov = Some (add_cells v ov) ∧ tree_cells (add_cells v ov) ∧
  ∀ i, add_cells v ov !! i = sum_counts (v !! i) (ov !! i).
Proof.
  intros [Hl Hv] Hov. pose proof (seg_size ov Hov) as Ho. split_and!; [by apply merge_ranges_ok| |].
  - split; [unfold add_cells; rewrite length_zip_with; lia|]. apply Forall_lookup. intros i x Hx.
    unfold add_cells in Hx. rewrite lookup_zip_with in Hx.
    destruct (v !! i) as [a|]; [|done]. destruct (ov !! i) as [b|]; [|done]. injection Hx as <-.
    apply Z.mod_pos_bound. lia.
  - intros i. unfold add_cells. rewrite lookup_zip_with. destruct (decide (i < 778)%nat) as [Hi|Hi].
    + by rewrite (cell_lookup v i), (cell_lookup ov i) by lia.
    + by rewrite !lookup_ge_None_2 by lia.
Qed.

Lemma mergeStringGroup_fits props f g : forest_ok 0 f → forest_ok 0 g → fits props f t_text → fits props g t_text →
  ∃ h o, mergeStringGroup (flatten f) (flatten g) = Some (flatten h, o) ∧ forest_ok 0 h ∧ fits props h t_text ∧
  ∀ path, count_at path h = sum_counts (count_at path f) (count_at path g).
Proof.
  intros Hf Hg Ff Fg.
  assert (∀ path, count_at path ([] : list (tree (U := U))) = None) as Hnil by by intros [|].
  destruct g as [|b g].
  { exists f, []. split_and!; [by destruct f|done|done|]. intros path. rewrite Hnil. by destruct (count_at path f). }
  destruct f as [|a f].
  { exists (b :: g), []. split_and!; [|done|done|].
    - inversion_clear Hg as [|?? Hb _]. destruct (tree_ok_inv 0 b Hb) as (_ & _ & _ & _ & E).
      unfold mergeStringGroup. by rewrite flatten_cons, E.
    - intros path. rewrite Hnil. by destruct (count_at path (b :: g)). }
  destruct Ff as [|Ff]; [done|]. destruct Fg as [|Fg]; [done|].
  destruct (mergeStringGroup_ok (a :: f) (b :: g) Hf Hg) as (h & o & E & Hh & Eh & Hc); [congruence|].
  exists h, o. split_and!; [done|done|right; congruence|done].
Qed.

Lemma merge_reps props numbers ranges f g ours other :
  rep_ok props numbers ranges tree_cells f ours → rep_ok props numbers ranges seg_tree g other →
  ∃ h r o, merge ours other = Some (r, o) ∧ rep_ok props numbers ranges tree_cells h r ∧
  (∀ path, count_at path h = sum_counts (count_at path f) (count_at path g)) ∧
  (∀ p x, d_num x → number_at p x r = sum_counts (number_at p x ours) (number_at p x other)) ∧
  (∀ p i, cell_at p i r = sum_counts (cell_at p i ours) (cell_at p i other)).
Proof.
  intros [Ef Hf Ff Fn Hn Fr Hr] [Eg Hg Fg Fn' Hn' Fr' Hr'].
  destruct (mergeStringGroup_fits props f g Hf Hg Ff Fg) as (h & os & Es & Hh & Fh & Hc).
  destruct (merge_or_swap_ok (λ l o, merge_numbers (S (length l + length o)) [] l o) number_sorted number_sorted
    (λ l o r, ∀ x, d_num x → count_of x r = sum_counts (count_of x l) (count_of x o)) merge_numbers_counts
    numbers (numericGroupRep_ ours) (numericGroupRep_ other) Fn Fn' (λ _ x, x) Hn Hn') as (rn & on & En & Frn & Hrn & Hpn).
  destruct (merge_or_swap_ok merge_ranges tree_cells seg_tree
    (λ v ov r, ∀ i, r !! i = sum_counts (v !! i) (ov !! i))) with (names := ranges) (ours := numericRangeGroupRep_ ours)
    (other := numericRangeGroupRep_ other) as (rr & or & Er & Frr & Hrr & Hpr); [|done|done| |done|done|].
  { intros v ov Hv Hov. exists (add_cells v ov). by apply add_cells_ok. }
  { intros v [Hl Hv _ _ _]. by split. }
  exists h, (Rep (flatten h) rn rr), (Rep os on or). unfold merge, mergeNumericGroup, mergeNumericRangeGroup.
  rewrite Ef, Eg, Es, En, Er. cbn [mbind option_bind]. split_and!; [done|by split|done| |].
  - intros p x Hx. specialize (Hpn p). unfold number_at. simpl. unfold pair_merged in Hpn.
    destruct (named p (numericGroupRep_ ours)) as [l|], (named p (numericGroupRep_ other)) as [o|]; cbn [mbind option_bind].
    + destruct Hpn as (c & -> & Hpn). by apply Hpn.
    + rewrite Hpn. cbn [mbind option_bind]. by destruct (count_of x l).
    + rewrite Hpn. cbn [mbind option_bind]. by destruct (count_of x o).
    + by rewrite Hpn.
  - intros p i. specialize (Hpr p). unfold cell_at. simpl. unfold pair_merged in Hpr.
    destruct (named p (numericRangeGroupRep_ ours)) as [l|], (named p (numericRangeGroupRep_ other)) as [o|]; cbn [mbind option_bind].
    + destruct Hpr as (c & -> & Hpr). by apply Hpr.
    + rewrite Hpr. cbn [mbind option_bind]. by destruct (l !! i).
    + rewrite Hpr. cbn [mbind option_bind]. by destruct (o !! i).
    + by rewrite Hpr.
Qed.

(** C34: Merging the counts of two nodes for the same properties never fails
    and adds the count of every label, every number and every range (modulo
    2^32), a label that only one of them has keeping its count; the result is
    again a sorted forest, sorted lists of numbers and vectors of the right
    size. *)
Theorem merge_adds props numbers ranges f g ours other :
  rep_ok props numbers ranges tree_cells f ours → rep_ok props numbers ranges seg_tree g other →
  ∃ h r o, merge ours other = Some (r, o) ∧ rep_ok props numbers ranges tree_cells h r ∧
  (∀ path, count_at path h = sum_counts (count_at path f) (count_at path g)) ∧
  (∀ p x, d_num x → number_at p x r = sum_counts (number_at p x ours) (number_at p x other)) ∧
  (∀ p i, cell_at p i r = sum_counts (cell_at p i ours) (cell_at p i other)).
Proof. apply merge_reps. Qed.
End whole.

(** ** An example *)

#[export] Instance string_text_lt : TextLt string := str_lt.

#[export] Instance string_text_order : TextOrder string.
Proof. split; [apply str_lt_strict|intros x y; apply str_lt_total]. Defined.

Definition seg_treeb (v : list Z) : bool :=
  bool_decide (length v = 778%nat) && forallb (λ x, (0 <=? x) && (x <? 2 ^ 32)) v &&
  forallb (λ i, cell v (700 + i) =? cells v (10 * i) 10) (seq 0 70) &&
  forallb (λ i, cell v (770 + i) =? cells v (700 + 10 * i) 10) (seq 0 7) && (cell v 777 =? cells v 770 7).

Lemma seg_treeb_ok v : seg_treeb v = true → seg_tree v.
Proof.
  unfold seg_treeb. intros Hb. rewrite !andb_true_iff in Hb. destruct Hb as [[[[Hl Hr] H2] H1] Ht].
  apply bool_decide_eq_true in Hl. rewrite forallb_forall in Hr, H2, H1. split; [done| | | |lia].
  - apply Forall_forall. intros x Hx%list_elem_of_In. specialize (Hr x Hx). lia.
  - intros i Hi. specialize (H2 i ltac:(apply in_seq; lia)). lia.
  - intros i Hi. specialize (H1 i ltac:(apply in_seq; lia)). lia.
Qed.

(** One value in leaf [i]. *)
Definition one_leaf (i : nat) (n : Z) : list Z :=
  <[777%nat := n]> (<[(770 + i / 100)%nat := n]> (<[(700 + i / 10)%nat := n]> (<[i := n]> (replicate 778 0)))).

Definition ex_ours : list (tree (U := string)) :=
  [Node (new_item 0 "Brand" 0 5) [Node (new_item 1 "A" 0 3) []; Node (new_item 1 "C" 0 2) []]].
Definition ex_other : list (tree (U := string)) :=
  [Node (new_item 0 "Brand" 0 6) [Node (new_item 1 "B" 0 4) []; Node (new_item 1 "C" 0 2) []]].

Lemma merge_adds_witness :
  let ours := Rep (flatten ex_ours) [("Price", [(d_of_Z 1, 2); (d_of_Z 3, 1)])] [("Size", one_leaf 25 3)] in
  let other := Rep (flatten ex_other) [("Price", [(d_of_Z 2, 5); (d_of_Z 3, 1)])] [("Size", one_leaf 125 4)] in
  ∃ h r o, merge ours other = Some (r, o) ∧ stringGroupRep_ r = flatten h ∧
  count_at ["Brand"] h = Some 11 ∧ count_at ["Brand"; "C"] h = Some 4 ∧ count_at ["Brand"; "B"] h = Some 4 ∧
  number_at "Price" (d_of_Z 3) r = Some 2 ∧ number_at "Price" (d_of_Z 2) r = Some 5 ∧ cell_at "Size" 777 r = Some 7.
Proof.
  intros ours other.
  destruct (merge_adds ["Brand"] ["Price"] ["Size"] ex_ours ex_other ours other) as (h & r & o & E & Hr & Hc & Hn & Hi).
  - split; [done| |by right|by right| |by right| ].
    + repeat constructor; done.
    + repeat constructor; done.
    + constructor; [|constructor]. pose proof (seg_treeb_ok (one_leaf 25 3) ltac:(vm_compute; reflexivity)) as [Hl Hf _ _ _]. by split.
  - split; [done| |by right|by right| |by right| ].
    + repeat constructor; done.
    + repeat constructor; done.
    + constructor; [|constructor]. apply seg_treeb_ok. vm_compute. reflexivity.
  - exists h, r, o. split; [exact E|]. split; [apply Hr|]. rewrite !Hc, !Hn, !Hi by done.
    split_and!; vm_compute; reflexivity.
Defined.
