(* ===== verification/GroupCount.v ===== *)
(** * Counting documents by property value
    ([mining-manager/group-manager/StringGroupCounter.h, StringGroupLabel.cpp])

    The counter of a property has one number per value; [addDoc] counts the
    values of a document, [addCountForParentId] then adds the number of each
    value to the values above it, and [appendGroupRep] writes the values with a
    number as a list with levels.  A value counts the values of documents at or
    below it; when no document has two values this is the number of documents
    that pass its label ([testDoc]).

    The order in which [std::map] runs through the children is a parameter. *)
From S2P Require Import Prelude CNum PropIdTable PropValueTable GroupRep.

Section counter.
Context {U : Type} `{Countable U} (child_order : gmap U Z → list (U * Z)).

#[local] Notation table := (PropValueTable (U := U)).

(** ** [StringGroupCounter<unsigned int>] *)

Definition counter_new (t : table) : list Z := replicate (length (propStrVec_ t)) 0.

Definition add_at (id n : Z) (countTable : list Z) : option (list Z) :=
  v ← vat countTable id; Some (<[Z.to_nat id := u32 (v + n)]> countTable).

Definition addDoc (t : table) (doc : nat) (countTable : list Z) : option (list Z) :=
  propIdList ← getPropIdList t doc;
  let idNum := list_size propIdList in
  if idNum =? 0 then Some countTable
  else
    c ← foldM (λ c i, id ← list_at (valueIdTable_ t) propIdList i; add_at id 1 c) countTable
          (seq 0 (Z.to_nat idNum));
    add_at 0 1 c.

Definition add_parents (fuel : nat) (t : table) (countTable new : list Z) (i : nat) : option (list Z) :=
  count ← countTable !! i;
  if count =? 0 then Some new
  else
    parentIds ← getParentIds fuel t (Z.of_nat i);
    foldM (λ c id, add_at id count c) new parentIds.

Definition addCountForParentId (fuel : nat) (t : table) (countTable : list Z) : option (list Z) :=
  match countTable with
  | [] => Some countTable
  | total :: rest => foldM (add_parents fuel t countTable) (total :: map (λ _, 0) rest) (seq 1 (length rest))
  end.

(** The recursion goes down the tree: [fuel] bounds its depth. *)
Fixpoint appendGroupRep (fuel : nat) (t : table) (countTable : list Z) (pvId : Z) (lvl : Z) (valueStr : U)
    : option (list (RepItem U)) :=
  match fuel with
  | O => None
  | S fuel =>
      count ← vat countTable pvId;
      propStrMap ← vat (childMapTable_ t) pvId;
      below ← mapM (λ kv : U * Z,
        n ← vat countTable kv.2;
        if n =? 0 then Some [] else appendGroupRep fuel t countTable kv.2 (lvl + 1) kv.1)
        (child_order propStrMap);
      Some (new_item lvl valueStr 0 count :: concat below)
  end.

(** [getGroupRep] leaves the new counts in the counter. *)
Definition getGroupRep (fuel : nat) (t : table) (propName : U) (countTable : list Z) (groupRep : GroupRep U)
    : option (GroupRep U * list Z) :=
  c ← addCountForParentId fuel t countTable;
  items ← appendGroupRep fuel t c 0 0 propName;
  Some (add_items items groupRep, c).

(** ** [StringGroupLabel] *)

Definition getTargetValueIds_ (t : table) (labelPaths : list (list U)) : option (list Z) :=
  mapM (λ path, propValueId path t) labelPaths.

Definition label_test (fuel : nat) (t : table) (targetValueIds : list Z) (doc : nat) : option bool :=
  parentSet ← parentIdSet fuel t doc ∅;
  Some (existsb (λ id, bool_decide (id ∈ parentSet)) targetValueIds).

(** ** Sums *)

Definition occurs (i : Z) (l : list Z) : Z := zsum (map (λ v, if v =? i then 1 else 0) l).

Lemma zsum_map_add {A} (f g : A → Z) l : zsum (map (λ x, f x + g x) l) = zsum (map f l) + zsum (map g l).
Proof. induction l as [|x l IH]; simpl; [done|]. rewrite IH. lia. Qed.

Lemma zsum_map_zero {A} (f : A → Z) l : (∀ x, x ∈ l → f x = 0) → zsum (map f l) = 0.
Proof.
  induction l as [|x l IH]; intros Hf; simpl; [done|]. rewrite (Hf x) by by left.
  rewrite IH; [done|]. intros y Hy. apply Hf. by right.
Qed.

(** Summing over the values of a list by value. *)
Lemma sum_by_value (w : Z → Z) l n : Forall (λ v, 0 < v ≤ Z.of_nat n) l →
  zsum (map (λ i : nat, occurs (Z.of_nat i) l * w (Z.of_nat i)) (seq 1 n)) = zsum (map w l).
Proof.
  induction 1 as [|v l Hv _ IH]; simpl.
  { by apply zsum_map_zero. }
  unfold occurs in *. simpl. rewrite <- IH.
  rewrite (map_ext _ (λ i : nat, (if v =? Z.of_nat i then w v else 0) +
    zsum (map (λ v0, if v0 =? Z.of_nat i then 1 else 0) l) * w (Z.of_nat i))).
  2:{ intros i. destruct (v =? Z.of_nat i) eqn:E; bool_cases; subst; lia. }
  rewrite zsum_map_add. f_equal. clear IH.
  assert (∀ a m, (∀ i : nat, (i < a)%nat → v ≠ Z.of_nat i) →
    zsum (map (λ i : nat, if v =? Z.of_nat i then w v else 0) (seq a m)) =
    if v <? Z.of_nat (a + m) then w v else 0) as Hsum.
  { intros a m. revert a. induction m as [|m IH]; intros a Ha; simpl.
    - rewrite Nat.add_0_r. destruct (v <? Z.of_nat a) eqn:E; [|done]. bool_cases.
      destruct (Ha (Z.to_nat v)); lia.
    - destruct (v =? Z.of_nat a) eqn:E; bool_cases.
      + rewrite (proj2 (Z.ltb_lt _ _)) by lia.
        rewrite zsum_map_zero; [lia|]. intros i Hi. apply elem_of_seq in Hi.
        by rewrite (proj2 (Z.eqb_neq _ _)) by lia.
      + rewrite IH by (intros i Hi; destruct (decide (i = a)) as [->|]; [done|apply Ha; lia]).
        by rewrite Nat.add_succ_r. }
  rewrite Hsum by lia. by rewrite (proj2 (Z.ltb_lt _ _)) by lia.
Qed.

Lemma u32_add_l a b : u32 (u32 a + b) = u32 (a + b).
Proof. unfold u32. by rewrite Zplus_mod_idemp_l. Qed.

Lemma u32_add_r a b : u32 (a + u32 b) = u32 (a + b).
Proof. unfold u32. by rewrite Zplus_mod_idemp_r. Qed.

(** [c] has the numbers [f], modulo 2^32. *)
Definition counts (n : nat) (c : list Z) (f : Z → Z) : Prop :=
  length c = n ∧ ∀ i, 0 ≤ i < Z.of_nat n → vat c i = Some (u32 (f i)).

Lemma counts_ext n c f g : (∀ i, 0 ≤ i < Z.of_nat n → f i = g i) → counts n c f → counts n c g.
Proof. intros E [Hl Hc]. split; [done|]. intros i Hi. by rewrite <- E, Hc. Qed.

Lemma add_at_ok n c f id k : counts n c f → 0 ≤ id < Z.of_nat n →
  ∃ c', add_at id k c = Some c' ∧ counts n c' (λ i, f i + if i =? id then k else 0).
Proof.
  intros [Hl Hc] Hid. unfold add_at. rewrite (Hc id Hid). cbn [mbind option_bind].
  eexists. split; [reflexivity|]. split; [by rewrite length_insert|]. intros i Hi.
  pose proof (Hc i Hi) as Hci. unfold vat in *. destruct (i <? 0) eqn:E; bool_cases; [lia|].
  destruct (i =? id) eqn:Ei; bool_cases.
  - subst i. rewrite list_lookup_insert_eq by lia. by rewrite u32_add_l.
  - rewrite list_lookup_insert_ne by lia. by rewrite Hci, Z.add_0_r.
Qed.

Lemma add_all_ok n k ids : ∀ c f, counts n c f → Forall (λ id, 0 ≤ id < Z.of_nat n) ids →
  ∃ c', foldM (λ c id, add_at id k c) c ids = Some c' ∧ counts n c' (λ i, f i + k * occurs i ids).
Proof.
  induction ids as [|id ids IH]; intros c f Hc Hids; simpl.
  { exists c. split; [done|]. eapply counts_ext; [|exact Hc]. intros i _. unfold occurs. simpl. lia. }
  inversion_clear Hids as [|?? Hid Hids'].
  destruct (add_at_ok n c f id k Hc Hid) as (c1 & -> & Hc1). cbn [mbind option_bind].
  destruct (IH c1 _ Hc1 Hids') as (c' & E & Hc'). exists c'. split; [done|].
  eapply counts_ext; [|exact Hc']. intros i _. unfold occurs. simpl. rewrite (Z.eqb_sym id i).
  destruct (i =? id); lia.
Qed.

(** ** Adding documents *)

Context (t : table) (Hok : table_ok t) (Hids : id_table_ok (valueIdTable_ t)).
Context (ids_at : nat → list Z) (docs : list nat).

(** The documents counted have the values [ids_at], which are values of the
    table. *)
Definition docs_ok : Prop :=
  Forall (λ d, ids_of (valueIdTable_ t) d = Some (ids_at d) ∧ Forall (λ v, 0 < v < value_num t) (ids_at d)) docs.

Definition has_value (ids : list Z) : Z := match ids with [] => 0 | _ => 1 end.

Lemma addDoc_ok d c f :
  ids_of (valueIdTable_ t) d = Some (ids_at d) → Forall (λ v, 0 < v < value_num t) (ids_at d) →
  counts (length (propStrVec_ t)) c f →
  ∃ c', addDoc t d c = Some c' ∧
  counts (length (propStrVec_ t)) c' (λ i, f i + occurs i (ids_at d) + if i =? 0 then has_value (ids_at d) else 0).
Proof.
  intros Hd Hv Hc. unfold addDoc, getPropIdList.
  destruct (ids_of_list (valueIdTable_ t) d (ids_at d) Hids Hd) as (l & -> & Hsize & Hl). cbn [mbind option_bind].
  rewrite Hsize in Hl |- *.
  destruct (Z.of_nat (length (ids_at d)) =? 0) eqn:E; bool_cases.
  { destruct (ids_at d) as [|x ids] eqn:Ei; [|simpl in E; lia]. exists c. split; [done|].
    eapply counts_ext; [|exact Hc]. intros i _. unfold occurs. simpl. destruct (i =? 0); lia. }
  rewrite (foldM_mapM (list_at (valueIdTable_ t) l) (λ c id, add_at id 1 c) _ (ids_at d) _ Hl).
  destruct (add_all_ok (length (propStrVec_ t)) 1 (ids_at d) c f Hc) as (c1 & -> & Hc1).
  { eapply Forall_impl; [exact Hv|]. unfold value_num. simpl. intros; lia. }
  cbn [mbind option_bind].
  destruct (add_at_ok _ c1 _ 0 1 Hc1) as (c' & E' & Hc'); [pose proof (ok_size t Hok); unfold value_num in *; lia|].
  exists c'. split; [done|]. eapply counts_ext; [|exact Hc']. intros i _.
  destruct (ids_at d); [simpl in E; lia|]. simpl has_value. lia.
Qed.

Lemma addDocs_ok : docs_ok → ∀ c f, counts (length (propStrVec_ t)) c f →
  ∃ c', foldM (λ c d, addDoc t d c) c docs = Some c' ∧
  counts (length (propStrVec_ t)) c' (λ i, f i + occurs i (d ← docs; ids_at d) +
    if i =? 0 then zsum (map (λ d, has_value (ids_at d)) docs) else 0).
Proof.
  unfold docs_ok. induction 1 as [|d ds [Hd Hv] _ IH]; intros c f Hc.
  { exists c. split; [done|]. eapply counts_ext; [|exact Hc]. intros i _. unfold occurs. simpl. destruct (i =? 0); lia. }
  cbn [foldM]. destruct (addDoc_ok d c f Hd Hv Hc) as (c1 & -> & Hc1). cbn [mbind option_bind].
  destruct (IH c1 _ Hc1) as (c' & E & Hc'). exists c'. split; [done|].
  eapply counts_ext; [|exact Hc']. intros i _. cbn beta. unfold occurs.
  rewrite bind_cons, map_app, zsum_app. unfold zsum. cbn [map foldr]. destruct (i =? 0); lia.
Qed.

(** ** Adding to the parents *)

(** [id] is [v] or above it. *)
Definition above (fuel : nat) (id v : Z) : Z :=
  match getParentIds fuel t v with Some l => occurs id l | None => 0 end.

Lemma up_NoDup id l : up t id l → NoDup l.
Proof.
  induction 1 as [|id p l Hid Hp Hl IH]; [constructor|]. constructor; [|done].
  intros Hin. apply (up_le t Hok) in Hl as Hle. rewrite Forall_forall in Hle. specialize (Hle id Hin). simpl in Hle.
  destruct (parent_lt t Hok id p Hp Hid). lia.
Qed.

Lemma occurs_NoDup i l : NoDup l → occurs i l = if bool_decide (i ∈ l) then 1 else 0.
Proof.
  induction 1 as [|x l Hx _ IH]; [done|]. unfold occurs in *. simpl. rewrite IH.
  destruct (x =? i) eqn:E; bool_cases; subst.
  - rewrite (bool_decide_eq_false_2 (i ∈ l)) by done. by rewrite bool_decide_eq_true_2 by by left.
  - rewrite (bool_decide_ext (i ∈ x :: l) (i ∈ l)); [done|]. rewrite elem_of_cons. naive_solver.
Qed.

(** Being above is being a prefix. *)
Lemma above_prefix fuel id v pid pv :
  value_num t ≤ Z.of_nat fuel → at_path t id pid → at_path t v pv → 0 < id →
  above fuel id v = if bool_decide (pid `prefix_of` pv) then 1 else 0.
Proof.
  intros Hf Hid Hv Hpos. unfold above.
  destruct (up_total t Hok v) as (l & Hl & Hlen); [by eapply at_path_valid|].
  pose proof (at_path_valid t Hok _ _ Hv). unfold getParentIds.
  rewrite (parents_loop_ok t v l Hl) by lia. simpl. rewrite (occurs_NoDup _ _ (up_NoDup v l Hl)).
  rewrite (bool_decide_ext (id ∈ l) (pid `prefix_of` pv)); [done|].
  rewrite (up_prefix t Hok v l pv id Hl Hv). split.
  - intros (_ & pl & Hpl & Hpre). by rewrite (at_path_fun t _ _ Hid _ Hpl).
  - intros Hpre. split; [done|]. by exists pid.
Qed.

Lemma add_parents_ok fuel c f : value_num t ≤ Z.of_nat fuel → counts (length (propStrVec_ t)) c f →
  ∀ m a new g, (0 < a)%nat → (a + m = length (propStrVec_ t))%nat → counts (length (propStrVec_ t)) new g →
  ∃ c', foldM (add_parents fuel t c) new (seq a m) = Some c' ∧
  counts (length (propStrVec_ t)) c'
    (λ id, g id + zsum (map (λ i : nat, f (Z.of_nat i) * above fuel id (Z.of_nat i)) (seq a m))).
Proof.
  intros Hf [Hl Hc]. induction m as [|m IH]; intros a new g Ha Ham Hnew; cbn [seq foldM].
  { exists new. split; [done|]. eapply counts_ext; [|exact Hnew]. intros i _. unfold zsum. simpl. lia. }
  assert (c !! a = Some (u32 (f (Z.of_nat a)))) as Hca by (rewrite <- vat_nat; apply Hc; lia).
  assert (∃ c1, add_parents fuel t c new a = Some c1 ∧
    counts (length (propStrVec_ t)) c1 (λ id, g id + f (Z.of_nat a) * above fuel id (Z.of_nat a))) as (c1 & -> & Hc1).
  { unfold add_parents. rewrite Hca. cbn [mbind option_bind].
    destruct (up_total t Hok (Z.of_nat a)) as (l & Hup & Hlen); [unfold value_num; lia|].
    assert (getParentIds fuel t (Z.of_nat a) = Some l) as Hpar.
    { unfold getParentIds. rewrite (parents_loop_ok t _ l Hup); [done|]. unfold value_num in *. lia. }
    destruct (u32 (f (Z.of_nat a)) =? 0) eqn:E0; bool_cases.
    - exists new. split; [done|]. destruct Hnew as [Hn1 Hn2]. split; [done|]. intros i Hi. rewrite (Hn2 i Hi). f_equal.
      unfold u32 in *. rewrite Zplus_mod, Zmult_mod, E0, Z.mul_0_l, Zmod_0_l, Z.add_0_r. by rewrite Zmod_mod.
    - rewrite Hpar. cbn [mbind option_bind].
      destruct (add_all_ok (length (propStrVec_ t)) (u32 (f (Z.of_nat a))) l new g Hnew) as (c1 & E1 & [Hl1 Hc1]).
      { pose proof (up_le t Hok _ _ Hup) as Hle. eapply Forall_impl; [exact Hle|]. simpl. intros; lia. }
      exists c1. split; [done|]. split; [done|]. intros i Hi. rewrite (Hc1 i Hi). f_equal. unfold above. rewrite Hpar.
      unfold u32. by rewrite Zplus_mod, Zmult_mod_idemp_l, <- Zplus_mod. }
  cbn [mbind option_bind].
  destruct (IH (S a) c1 _ ltac:(lia) ltac:(lia) Hc1) as (c' & E & Hc'). exists c'. split; [done|].
  eapply counts_ext; [|exact Hc']. intros i _. cbn beta. unfold zsum. cbn [map foldr]. lia.
Qed.

Lemma above_root fuel v : 0 ≤ v < value_num t → value_num t ≤ Z.of_nat fuel → above fuel 0 v = 0.
Proof.
  intros Hv Hf. unfold above. destruct (up_total t Hok v Hv) as (l & Hl & Hlen). unfold getParentIds.
  rewrite (parents_loop_ok t v l Hl) by lia. simpl. rewrite (occurs_NoDup _ _ (up_NoDup v l Hl)).
  rewrite bool_decide_eq_false_2; [done|]. intros Hin. pose proof (up_le t Hok v l Hl) as Hle.
  rewrite Forall_forall in Hle. specialize (Hle 0 Hin). simpl in Hle. lia.
Qed.

Lemma occurs_zero l : Forall (λ v, 0 < v < value_num t) l → occurs 0 l = 0.
Proof.
  induction 1 as [|v l Hv _ IH]; [done|]. unfold occurs in *. simpl. rewrite IH.
  by rewrite (proj2 (Z.eqb_neq v 0)) by lia.
Qed.

(** The values of all documents. *)
Definition all_values : list Z := d ← docs; ids_at d.

Lemma all_values_valid : docs_ok → Forall (λ v, 0 < v < value_num t) all_values.
Proof.
  intros Hd. apply Forall_forall. intros v Hv. unfold all_values in Hv. apply list_elem_of_bind in Hv as (d & Hv & Hin).
  unfold docs_ok in Hd. rewrite Forall_forall in Hd. destruct (Hd d Hin) as [_ Hf].
  rewrite Forall_forall in Hf. by apply Hf.
Qed.

(** The counter, modulo 2^32, after [addDoc] on a list of documents and
    [addCountForParentId]: the root has the number of documents with a value. *)
Lemma string_counts fuel :
  docs_ok → value_num t ≤ Z.of_nat fuel →
  ∃ c c', foldM (λ c d, addDoc t d c) (counter_new t) docs = Some c ∧
  addCountForParentId fuel t c = Some c' ∧ length c' = length (propStrVec_ t) ∧
  vat c' 0 = Some (u32 (zsum (map (λ d, has_value (ids_at d)) docs))) ∧
  ∀ id, 0 < id < value_num t → vat c' id = Some (u32 (zsum (map (above fuel id) all_values))).
Proof.
  intros Hd Hf. set (n := length (propStrVec_ t)) in *.
  assert (0 < Z.of_nat n) as Hn by (pose proof (ok_size t Hok); unfold value_num in *; lia).
  destruct (addDocs_ok Hd (counter_new t) (λ _, 0)) as (c & E & Hc).
  { unfold counter_new. split; [by rewrite length_replicate|]. intros i Hi. unfold vat.
    rewrite (proj2 (Z.ltb_ge _ _)) by lia. by rewrite lookup_replicate_2 by (fold n; lia). }
  fold n in Hc. fold all_values in Hc. exists c.
  assert (∃ c', addCountForParentId fuel t c = Some c' ∧ counts n c'
    (λ id, (if id =? 0 then occurs 0 all_values + zsum (map (λ d, has_value (ids_at d)) docs) else 0) +
      zsum (map (λ i : nat, occurs (Z.of_nat i) all_values * above fuel id (Z.of_nat i)) (seq 1 (n - 1))))) as (c' & E' & Hc').
  { unfold addCountForParentId. destruct c as [|total rest]; [destruct Hc as [Hl _]; simpl in Hl; lia|].
    destruct (add_parents_ok fuel (total :: rest) _ Hf Hc (n - 1) 1 (total :: map (λ _, 0) rest)
      (λ id, if id =? 0 then occurs 0 all_values + zsum (map (λ d, has_value (ids_at d)) docs) else 0))
      as (c' & E' & Hc'); [lia|fold n; lia| |].
    - destruct Hc as [Hl Hc]. split; [simpl in *; by rewrite length_map|]. intros i Hi. specialize (Hc i Hi).
      unfold vat in *. rewrite (proj2 (Z.ltb_ge i 0)) in * by lia. destruct (i =? 0) eqn:Ei; bool_cases.
      + subst i. simpl in *. rewrite Hc. f_equal.
      + destruct (Z.to_nat i) as [|j] eqn:Ej; [lia|]. simpl in *. rewrite list_lookup_fmap, Hc. done.
    - exists c'. destruct Hc as [Hl _]. simpl in Hl. replace (length rest) with (n - 1)%nat by lia.
      split; [exact E'|]. eapply counts_ext; [|exact Hc']. intros i Hi. cbn beta. f_equal. f_equal. apply map_ext_in.
      intros j Hj. apply list_elem_of_In, elem_of_seq in Hj. rewrite (proj2 (Z.eqb_neq (Z.of_nat j) 0)) by lia.
      by rewrite Z.add_0_l, Z.add_0_r. }
  exists c'. destruct Hc' as [Hl' Hc']. split_and!; [done|done|done| |].
  - rewrite Hc' by lia. f_equal. f_equal. cbn [Z.eqb].
    rewrite (zsum_map_zero (λ i : nat, occurs (Z.of_nat i) all_values * above fuel 0 (Z.of_nat i))).
    + rewrite (occurs_zero _ (all_values_valid Hd)). lia.
    + intros i Hi. apply elem_of_seq in Hi. rewrite above_root; [lia| |done].
      unfold value_num. fold n. lia.
  - intros id Hid. unfold value_num in Hid. fold n in Hid.
    rewrite Hc' by lia. rewrite (proj2 (Z.eqb_neq id 0)) by lia. do 2 f_equal.
    rewrite (sum_by_value (above fuel id) all_values (n - 1)); [done|].
    eapply Forall_impl; [exact (all_values_valid Hd)|]. unfold value_num. fold n. simpl. intros; lia.
Qed.

(** ** Listing *)

Context (Horder : ∀ m : gmap U Z, child_order m ≡ₚ map_to_list m).

Section listing.
Context (c : list Z).

(** The values listed below [p]: those that can be reached from it through
    values with a number. *)
Inductive shown (p : Z) : Z → Prop :=
  | shown_here : shown p p
  | shown_below q id : shown p q → 0 < id → vat (parentIdVec_ t) id = Some q → vat c id ≠ Some 0 → shown p id.

Definition item_of (lvl : Z) (s : U) (id : Z) : RepItem U := new_item lvl s 0 (default 0 (vat c id)).

Lemma shown_trans p q id : shown p q → shown q id → shown p id.
Proof. intros Hp. induction 1; [done|]. by eapply shown_below. Qed.

(** A value below [p] is [p] or below a child of [p]. *)
Lemma shown_child p id : shown p id →
  id = p ∨ ∃ k, 0 < k ∧ vat (parentIdVec_ t) k = Some p ∧ vat c k ≠ Some 0 ∧ shown k id.
Proof.
  induction 1 as [|q id Hq [->|(k & Hk & Hp & Hn & Hs)] Hid Hpar Hnz]; [by left| |].
  - right. exists id. split_and!; [done|done|done|constructor].
  - right. exists k. split_and!; [done|done|done|]. by eapply shown_below.
Qed.

Lemma shown_path p id q : shown p id → at_path t p q → ∃ r, at_path t id (q ++ r) ∧ p ≤ id.
Proof.
  intros Hs Hq. induction Hs as [|k id Hk (r & Hr & Hle) Hid Hpar Hnz].
  - exists []. rewrite app_nil_r. split; [done|lia].
  - destruct (parent_lt t Hok id k Hpar Hid) as [Hlt Hlt'].
    destruct (valid_str t id) as [s Hstr]; [lia|].
    exists (r ++ [s]). rewrite app_assoc. split; [by eapply at_child|lia].
Qed.

(** Different children have nothing below them in common. *)
Lemma shown_disjoint p q k k' id : at_path t p q → 0 < k → 0 < k' →
  vat (parentIdVec_ t) k = Some p → vat (parentIdVec_ t) k' = Some p → shown k id → shown k' id → k = k'.
Proof.
  intros Hq Hk Hk' Hp Hp' Hs Hs'.
  destruct (parent_lt t Hok k p Hp Hk) as [_ Hlt]. destruct (parent_lt t Hok k' p Hp' Hk') as [_ Hlt'].
  destruct (valid_str t k) as [s Hstr]; [lia|]. destruct (valid_str t k') as [s' Hstr']; [lia|].
  assert (at_path t k (q ++ [s])) as Hpk by by eapply at_child.
  assert (at_path t k' (q ++ [s'])) as Hpk' by by eapply at_child.
  destruct (shown_path _ _ _ Hs Hpk) as (r & Hr & _). destruct (shown_path _ _ _ Hs' Hpk') as (r' & Hr' & _).
  pose proof (at_path_fun t _ _ Hr _ Hr') as E. rewrite <- !app_assoc in E. apply app_inv_head in E. simpl in E.
  injection E as -> _. by eapply (at_path_inj t Hok).
Qed.

(** A path that continues its predecessor in the listing: all but its last
    string come from there. *)
Definition next (st r : list U) : Prop := ∃ r0 s, r = r0 ++ [s] ∧ r0 `prefix_of` st.

Fixpoint chain (st : list U) (rs : list (list U)) : Prop :=
  match rs with [] => True | r :: rs => next st r ∧ chain r rs end.

Lemma chain_cons s rs : ∀ st, chain st rs → chain (s :: st) (cons s <$> rs).
Proof.
  induction rs as [|r rs IH]; intros st; [done|]. intros [(r0 & x & -> & Hpre) Hc]. split.
  - exists (s :: r0), x. split; [done|]. by apply prefix_cons.
  - exact (IH _ Hc).
Qed.

Lemma chain_app rs rs' : (∀ st, chain st rs') → ∀ st, chain st rs → chain st (rs ++ rs').
Proof. intros H'. induction rs as [|r rs IH]; intros st; [done|]. intros [Hn Hc]. split; [done|by apply IH]. Qed.

(** A node: an id and its path below the root of the listing, which is at [q]. *)
Definition node_item (q : list U) (str : U) (n : Z * list U) : RepItem U :=
  item_of (Z.of_nat (length (q ++ n.2))) (default str (last n.2)) n.1.

Definition at_node (q : list U) (n : Z * list U) : Prop := at_path t n.1 (q ++ n.2).

(** [items] lists the values below [p], each once. *)
Definition lists (q : list U) (str : U) (p : Z) (items : list (RepItem U)) : Prop :=
  ∃ nodes, items = node_item q str <$> (p, []) :: nodes ∧ Forall (at_node q) nodes ∧
  NoDup ((p, []) :: nodes).*1 ∧ (∀ id, id ∈ ((p, []) :: nodes).*1 ↔ shown p id) ∧ chain [] nodes.*2.

Context (Hlen : length c = length (propStrVec_ t)).

Definition below_of (s : U) (n : Z * list U) : Z * list U := (n.1, s :: n.2).

Lemma below_items q s str (nodes : list (Z * list U)) : node_item q str <$> (below_of s <$> nodes) = node_item (q ++ [s]) s <$> nodes.
Proof.
  rewrite <- list_fmap_compose. apply list_fmap_ext. intros _ [id r] _. unfold node_item. simpl.
  rewrite <- app_assoc. f_equal. rewrite last_cons. by destruct (last r).
Qed.

(** The children [kvs] of [p], given that the recursion lists each of them. *)
Lemma append_children fuel p q str m kvs :
  at_path t p q → vat (childMapTable_ t) p = Some m →
  (∀ s k, m !! s = Some k →
    ∃ items, appendGroupRep fuel t c k (Z.of_nat (length (q ++ [s]))) s = Some items ∧ lists (q ++ [s]) s k items) →
  NoDup kvs → (∀ kv, kv ∈ kvs → m !! kv.1 = Some kv.2) →
  ∃ below nodes,
    mapM (λ kv : U * Z, n ← vat c kv.2;
      if n =? 0 then Some [] else appendGroupRep fuel t c kv.2 (Z.of_nat (length q) + 1) kv.1) kvs = Some below ∧
    concat below = node_item q str <$> nodes ∧ Forall (at_node q) nodes ∧ NoDup nodes.*1 ∧
    (∀ id, id ∈ nodes.*1 ↔ ∃ kv, kv ∈ kvs ∧ vat c kv.2 ≠ Some 0 ∧ shown kv.2 id) ∧ ∀ st, chain st nodes.*2.
Proof.
  intros Hq Hm Hrec. induction 1 as [|[s k] kvs Hnin _ IH]; intros Hkvs.
  { exists [], []. split_and!; try done; try constructor. all: try by intros ?%not_elem_of_nil.
    intros (kv & ?%not_elem_of_nil & _). done. }
  destruct IH as (below & nodes & E & Hf & Hat & Hnd & Hin & Hch); [intros kv Hkv; apply Hkvs; by right|].
  pose proof (Hkvs (s, k) ltac:(by left)) as Hk. simpl in Hk.
  pose proof (proj1 (ok_child t Hok p m s k Hm) Hk) as (Hpos & Hpar & Hstr).
  destruct (parent_lt t Hok k p Hpar Hpos) as [_ Hlt].
  destruct (proj2 (vat_lt c k)) as [n Hn]; [rewrite Hlen; unfold value_num in Hlt; lia|].
  cbn [mapM]. cbn [fst snd]. rewrite Hn. cbn [mbind option_bind].
  destruct (n =? 0) eqn:E0; bool_cases.
  - exists ([] :: below), nodes. rewrite E. split_and!; [done|done|done|done| |done]. intros id. rewrite Hin. split.
    + intros (kv & Hkv & H'). exists kv. split; [by right|done].
    + intros (kv & [->|Hkv]%elem_of_cons & Hnz & Hs); [simpl in Hnz; congruence|]. by exists kv.
  - destruct (Hrec s k Hk) as (items & Ei & (nodes' & -> & Hat' & Hnd' & Hin' & Hch')).
    rewrite length_app, Nat2Z.inj_add in Ei.
    change (Z.of_nat (length [s])) with 1 in Ei. rewrite Ei. cbn [mbind option_bind].
    set (new := (k, []) :: nodes') in *.
    assert ((below_of s <$> new).*1 = new.*1) as Hfst by by rewrite <- list_fmap_compose.
    exists ((node_item (q ++ [s]) s <$> new) :: below), ((below_of s <$> new) ++ nodes). rewrite E.
    rewrite !fmap_app, Hfst. split_and!; [done| | | | |].
    + cbn [concat]. by rewrite Hf, below_items.
    + apply Forall_app. split; [|done]. apply Forall_fmap. constructor; [by eapply at_child|].
      eapply Forall_impl; [exact Hat'|]. intros [id r]. unfold at_node. simpl. by rewrite <- app_assoc.
    + apply NoDup_app. split_and!; [done| |done]. intros id Hid Hid'. apply Hin' in Hid.
      apply Hin in Hid' as ([s' k'] & Hkv & _ & Hs). simpl in Hs. apply Hnin.
      pose proof (Hkvs (s', k') ltac:(by right)) as Hk'. simpl in Hk'.
      pose proof (proj1 (ok_child t Hok p m s' k' Hm) Hk') as (Hpos' & Hpar' & Hstr').
      pose proof (shown_disjoint p q k k' id Hq Hpos Hpos' Hpar Hpar' Hid Hs) as <-.
      rewrite Hstr in Hstr'. by injection Hstr' as <-.
    + intros id. rewrite elem_of_app, Hin, Hin'. split.
      * intros [Hs|(kv & Hkv & H')]; [exists (s, k)|exists kv]; [split_and!; [by left|simpl; congruence|done]|].
        split; [by right|done].
      * intros (kv & [->|Hkv]%elem_of_cons & Hnz & Hs); [by left|right; by exists kv].
    + intros st. apply chain_app; [done|]. split; [exists [], s; split; [done|apply prefix_nil]|].
      rewrite <- list_fmap_compose. apply (chain_cons s) in Hch'. by rewrite <- list_fmap_compose in Hch'.
Qed.

Lemma append_ok fuel : ∀ p q str, at_path t p q → value_num t - p ≤ Z.of_nat fuel →
  ∃ items, appendGroupRep fuel t c p (Z.of_nat (length q)) str = Some items ∧ lists q str p items.
Proof.
  induction fuel as [|fuel IH]; intros p q str Hq Hf; pose proof (at_path_valid t Hok _ _ Hq) as Hv; [lia|].
  destruct (proj2 (vat_lt c p)) as [n Hn]; [rewrite Hlen; exact Hv|].
  destruct (proj2 (vat_lt (childMapTable_ t) p)) as [m Hm]; [by rewrite (ok_maps t Hok)|].
  assert (∀ s k, (s, k) ∈ child_order m ↔ 0 < k ∧ vat (parentIdVec_ t) k = Some p ∧ vat (propStrVec_ t) k = Some s)
    as Hkids.
  { intros s k. rewrite (Horder m), elem_of_map_to_list. by apply (ok_child t Hok p m s k Hm). }
  destruct (append_children fuel p q str m (child_order m) Hq Hm) as (below & nodes & E & Hl & Hat & Hnd & Hin & Hch).
  - intros s k Hk. apply (ok_child t Hok p m s k Hm) in Hk as (Hpos & Hpar & Hstr).
    destruct (parent_lt t Hok k p Hpar Hpos). apply IH; [by eapply at_child|lia].
  - rewrite (Horder m). apply NoDup_map_to_list.
  - intros [s k]. rewrite (Horder m). apply elem_of_map_to_list.
  - cbn [appendGroupRep]. rewrite Hn, Hm. cbn [mbind option_bind].
    match type of E with mapM ?f _ = _ => match goal with |- context [mapM ?g (child_order m)] => change g with f end end.
    rewrite E. cbn [mbind option_bind]. eexists. split; [reflexivity|]. exists nodes. split_and!.
    + rewrite fmap_cons, <- Hl. unfold node_item at 1, item_of. simpl. by rewrite app_nil_r, Hn.
    + done.
    + constructor; [|done]. intros ([s k] & Hkv & _ & Hs)%Hin. apply Hkids in Hkv as (Hpos & Hpar & Hstr).
      destruct (parent_lt t Hok k p Hpar Hpos). simpl in Hs.
      destruct (shown_path k p (q ++ [s]) Hs) as (_ & _ & Hle); [by eapply at_child|lia].
    + intros id. rewrite fmap_cons, elem_of_cons, Hin. split.
      * intros [->|([s k] & Hkv & Hnz & Hs)]; [constructor|]. apply Hkids in Hkv as (Hpos & Hpar & Hstr).
        eapply shown_trans; [|exact Hs]. eapply shown_below; [constructor|done..].
      * intros [->|(k & Hpos & Hpar & Hnz & Hs)]%shown_child; [by left|right].
        destruct (parent_lt t Hok k p Hpar Hpos). destruct (valid_str t k) as [s Hstr]; [lia|].
        exists (s, k). split_and!; [by apply Hkids|done|done].
    + apply Hch.
Qed.

End listing.

(** ** What the list says *)

Definition path_of (id : Z) : list U := default [] (propValuePath (Z.to_nat (value_num t)) t id []).

(** The number of values of documents at or below a value. *)
Definition values_below (id : Z) : Z :=
  Z.of_nat (length (filter (λ v, path_of id `prefix_of` path_of v) all_values)).

Definition docs_with_value : Z := Z.of_nat (length (filter (λ d, ids_at d ≠ []) docs)).

(** The paths a reader makes from the levels and texts of a list: an item
    replaces the tail of the path before it, from its level on. *)
Fixpoint read_paths (st : list U) (items : list (RepItem U)) : list (list U) :=
  match items with
  | [] => []
  | item :: items =>
      let path := take (Z.to_nat (level item) - 1) st ++ [text item] in path :: read_paths path items
  end.

Lemma path_of_at id : 0 ≤ id < value_num t → at_path t id (path_of id).
Proof.
  intros Hid. destruct (at_path_total t Hok id Hid) as [path Hp]. unfold path_of, propValuePath.
  pose proof (at_path_length t Hok id path Hp).
  rewrite (path_loop_ok t id path Hp) by lia. simpl. by rewrite reverse_involutive.
Qed.

Lemma read_paths_ok c str nodes : ∀ st,
  Forall (λ n : Z * list U, Z.of_nat (length n.2) < 2 ^ 8) nodes → chain st nodes.*2 →
  read_paths st (node_item c [] str <$> nodes) = nodes.*2.
Proof.
  induction nodes as [|[id r] nodes IH]; intros st Hn; [done|]. inversion_clear Hn as [|?? Hr Hn'].
  intros [(r0 & s & E & [k ->]) Hc]. simpl in E. subst r. cbn [fmap list_fmap read_paths].
  assert (take (Z.to_nat (level (node_item c [] str (id, r0 ++ [s]))) - 1) (r0 ++ k) ++
    [text (node_item c [] str (id, r0 ++ [s]))] = r0 ++ [s]) as ->.
  { unfold node_item, item_of, new_item, u8. simpl in *. rewrite last_snoc. simpl.
    rewrite length_app in *. simpl in *. rewrite Z.mod_small by lia. f_equal.
    replace (Z.to_nat (Z.of_nat (length r0 + 1)) - 1)%nat with (length r0) by lia. apply take_app_length. }
  simpl. f_equal. by apply IH.
Qed.

Lemma sum_above fuel id : docs_ok → value_num t ≤ Z.of_nat fuel → 0 < id < value_num t →
  zsum (map (above fuel id) all_values) = values_below id.
Proof.
  intros Hd Hf Hid. unfold values_below. pose proof (all_values_valid Hd) as Hv.
  induction Hv as [|v l Hv _ IH]; [done|]. cbn [map]. unfold zsum in *. cbn [foldr]. rewrite IH, filter_cons.
  rewrite (above_prefix fuel id v _ _ Hf (path_of_at id ltac:(lia)) (path_of_at v ltac:(lia))) by lia.
  destruct (decide (path_of id `prefix_of` path_of v)) as [Hp|Hp];
    [rewrite bool_decide_eq_true_2 by done|rewrite bool_decide_eq_false_2 by done]; simpl; lia.
Qed.

Lemma values_below_pos id : 0 < values_below id ↔ ∃ v, v ∈ all_values ∧ path_of id `prefix_of` path_of v.
Proof.
  unfold values_below. split.
  - intros H'. destruct (filter _ all_values) as [|v l] eqn:E; [simpl in H'; lia|].
    exists v. assert (v ∈ filter (λ v, path_of id `prefix_of` path_of v) all_values) as Hin by (rewrite E; by left).
    apply list_elem_of_filter in Hin. tauto.
  - intros (v & Hv & Hp). assert (v ∈ filter (λ v, path_of id `prefix_of` path_of v) all_values) as Hin
      by by apply list_elem_of_filter.
    destruct (filter _ all_values); [by apply not_elem_of_nil in Hin|simpl; lia].
Qed.

(** With true numbers, everything that is counted is listed. *)
Lemma shown_counted c' id : 0 < id < value_num t →
  (∀ id, 0 < id < value_num t → vat c' id = Some (values_below id)) → 0 < values_below id → shown c' 0 id.
Proof.
  intros Hid Hc. assert (∀ id, 0 ≤ id < value_num t → 0 < id → 0 < values_below id → shown c' 0 id) as Hall; [|by apply Hall; lia].
  clear id Hid. apply (forest_ind t Hok (λ id, 0 < id → 0 < values_below id → shown c' 0 id)); [lia|].
  intros id p s Hid Hpar Hstr Hlt IH _ Hpos. apply (shown_below _ _ p); [|lia|done|rewrite (Hc id Hid); intros [=]; lia].
  destruct (decide (p = 0)) as [->|Hp0]; [constructor|]. apply IH; [lia|].
  apply values_below_pos in Hpos as (v & Hv & Hpre). apply values_below_pos. exists v. split; [done|].
  assert (path_of id = path_of p ++ [s]) as E.
  { eapply (at_path_fun t); [apply path_of_at; lia|]. eapply at_child; [lia|done|done|]. apply path_of_at. lia. }
  rewrite E in Hpre. etrans; [|exact Hpre]. by apply prefix_app_r.
Qed.

Lemma shown_pos c' id : shown c' 0 id → id = 0 ∨ 0 < id < value_num t ∧ vat c' id ≠ Some 0.
Proof.
  destruct 1 as [|q id _ Hid Hpar Hnz]; [by left|right]. destruct (parent_lt t Hok id q Hpar Hid). split; [lia|done].
Qed.

(** The numbers when none of them reaches 2^32. *)
Lemma true_counts fuel : docs_ok → value_num t ≤ Z.of_nat fuel →
  Z.of_nat (length docs) < 2 ^ 32 → Z.of_nat (length all_values) < 2 ^ 32 →
  ∃ c c', foldM (λ c d, addDoc t d c) (counter_new t) docs = Some c ∧
  addCountForParentId fuel t c = Some c' ∧ length c' = length (propStrVec_ t) ∧
  vat c' 0 = Some docs_with_value ∧ ∀ id, 0 < id < value_num t → vat c' id = Some (values_below id).
Proof.
  intros Hd Hf Hnd Hnv. destruct (string_counts fuel Hd Hf) as (c & c' & E & E' & Hl & H0 & Hc).
  exists c, c'. split_and!; [done|done|done| |].
  - rewrite H0. f_equal. assert (zsum (map (λ d, has_value (ids_at d)) docs) = docs_with_value) as ->.
    { unfold docs_with_value, zsum. clear. induction docs as [|d ds IH]; [done|]. rewrite filter_cons. cbn [map foldr].
      rewrite IH. destruct (ids_at d); simpl; [done|]. lia. }
    apply u32_small. unfold docs_with_value. pose proof (length_filter (λ d, ids_at d ≠ []) docs). lia.
  - intros id Hid. rewrite (Hc id Hid), (sum_above fuel id Hd Hf Hid). f_equal. apply u32_small.
    unfold values_below. pose proof (length_filter (λ v, path_of id `prefix_of` path_of v) all_values). lia.
Qed.

(** The list of a property ([addDoc] for every document, then
    [getGroupRep]) starts with the property and the number of documents that
    have a value, and then has exactly the values of the documents and the
    values above them, each once, with the number of values of documents at or
    below it; the paths of the values can be read off the levels and the
    texts. All walks end. (The numbers stay below 2^32 and the depth below
    2^8.) *)
Theorem getGroupRep_lists fuel propName groupRep :
  docs_ok → value_num t ≤ Z.of_nat fuel →
  Z.of_nat (length docs) < 2 ^ 32 → Z.of_nat (length all_values) < 2 ^ 32 →
  (∀ id, 0 ≤ id < value_num t → Z.of_nat (length (path_of id)) < 2 ^ 8) →
  ∃ c items c' ids, foldM (λ c d, addDoc t d c) (counter_new t) docs = Some c ∧
  getGroupRep fuel t propName c groupRep =
    Some (add_items (new_item 0 propName 0 docs_with_value :: items) groupRep, c') ∧
  read_paths [] items = path_of <$> ids ∧ doc_count <$> items = values_below <$> ids ∧
  NoDup ids ∧ ∀ id, id ∈ ids ↔ 0 < id < value_num t ∧ ∃ v, v ∈ all_values ∧ path_of id `prefix_of` path_of v.
Proof.
  intros Hd Hf Hnd Hnv Hdepth. destruct (true_counts fuel Hd Hf Hnd Hnv) as (c & c' & E & E' & Hl & H0 & Hc).
  destruct (append_ok c' Hl fuel 0 [] propName (at_root t) ltac:(lia)) as (items & Ei & (nodes & -> & Hat & Hdup & Hin & Hch)).
  simpl in Hin, Hdup. apply NoDup_cons in Hdup as [Hn0 Hdup].
  assert (∀ id, id ∈ nodes.*1 ↔ 0 < id < value_num t ∧ 0 < values_below id) as Hsel.
  { intros id. split.
    - intros Hid. destruct (shown_pos c' id) as [->|[Hr Hnz]]; [apply Hin; by right|done|].
      split; [done|]. rewrite (Hc id Hr) in Hnz. assert (values_below id ≠ 0) by congruence. unfold values_below in *. lia.
    - intros [Hr Hpos]. assert (id ∈ 0 :: nodes.*1) as [->|Hid]%elem_of_cons; [|lia|done].
      apply Hin. by apply shown_counted. }
  assert (Forall (λ n : Z * list U, 0 < n.1 < value_num t ∧ n.2 = path_of n.1) nodes) as Hnodes.
  { rewrite Forall_forall in Hat |- *. intros [id r] Hn. simpl.
    assert (0 < id < value_num t) as Hr by (apply Hsel; apply list_elem_of_fmap; by exists (id, r)). split; [done|].
    apply (at_path_fun t _ _ (Hat _ Hn)). apply path_of_at. simpl. lia. }
  exists c, (node_item c' [] propName <$> nodes), c', nodes.*1. split_and!; [done| | | |done|].
  - unfold getGroupRep. rewrite E'. cbn [mbind option_bind]. change (Z.of_nat (length [])) with 0 in Ei. rewrite Ei.
    cbn [mbind option_bind]. unfold node_item at 1, item_of. simpl. by rewrite H0.
  - rewrite (read_paths_ok c' propName nodes []); [|eapply Forall_impl; [exact Hnodes|]|done].
    + clear -Hnodes. induction Hnodes as [|n nodes [_ Hn] _ IH]; [done|]. by rewrite !fmap_cons, Hn, IH.
    + intros n [Hr ->]. apply Hdepth. lia.
  - clear -Hnodes Hc. induction Hnodes as [|n nodes [Hr _] _ IH]; [done|]. rewrite !fmap_cons, IH. f_equal.
    unfold node_item, item_of. simpl. by rewrite (Hc _ Hr).
  - intros id. rewrite Hsel, values_below_pos. done.
Qed.

(** ** The list is a tree of labels *)

Section listed_tree.
Context `{!TextLt U} `{!TextOrder U}.
Context (Hsorted : ∀ m, StronglySorted (λ a b : U * Z, text_lt a.1 b.1 = true) (child_order m)).
Context (Hdepth : ∀ id path, at_path t id path → Z.of_nat (length path) < 2 ^ 8 - 1).
Context (c : list Z) (Hlen : length c = length (propStrVec_ t)).

(** [items] is a tree at [q] whose labels are the values listed below [p]. *)
Definition is_tree (p : Z) (q : list U) (str : U) (items : list (RepItem U)) : Prop :=
  ∃ tr, items = flat tr ∧ tree_ok (Z.of_nat (length q)) tr ∧ t_text tr = str ∧
  ∀ r n, count_at (str :: r) [tr] = Some n ↔ ∃ id, shown c p id ∧ at_path t id (q ++ r) ∧ vat c id = Some n.

Lemma count_at_cons x r (tr : tree (U := U)) kids :
  count_at (x :: r) (tr :: kids) = if decide (t_text tr = x) then count_at (x :: r) [tr] else count_at (x :: r) kids.
Proof. simpl. by destruct (decide (t_text tr = x)). Qed.

Definition kid_label (q : list U) (kvs : list (U * Z)) (r : list U) (n : Z) : Prop :=
  ∃ s k r' id, r = s :: r' ∧ (s, k) ∈ kvs ∧ vat c k ≠ Some 0 ∧ shown c k id ∧ at_path t id (q ++ r) ∧ vat c id = Some n.

Lemma kid_label_cons q s k kvs r n : kid_label q ((s, k) :: kvs) r n ↔
  (∃ r' id, r = s :: r' ∧ vat c k ≠ Some 0 ∧ shown c k id ∧ at_path t id (q ++ r) ∧ vat c id = Some n) ∨ kid_label q kvs r n.
Proof.
  split.
  - intros (s' & k' & r' & id & -> & [[= -> ->]|Hin]%elem_of_cons & H'); [left; by exists r', id|right].
    by exists s', k', r', id.
  - intros [(r' & id & -> & H')|(s' & k' & r' & id & -> & Hin & H')]; [exists s, k, r', id|exists s', k', r', id];
      (split_and!; [done| |by apply H'..]); [by left|by right].
Qed.

Lemma append_kids fuel p q m kvs :
  at_path t p q → vat (childMapTable_ t) p = Some m →
  (∀ s k, m !! s = Some k →
    ∃ items, appendGroupRep fuel t c k (Z.of_nat (length q) + 1) s = Some items ∧ is_tree k (q ++ [s]) s items) →
  StronglySorted (λ a b : U * Z, text_lt a.1 b.1 = true) kvs → (∀ kv, kv ∈ kvs → m !! kv.1 = Some kv.2) →
  ∃ below kids,
    mapM (λ kv : U * Z, n ← vat c kv.2;
      if n =? 0 then Some [] else appendGroupRep fuel t c kv.2 (Z.of_nat (length q) + 1) kv.1) kvs = Some below ∧
    concat below = flatten kids ∧ texts_sorted kids ∧ Forall (tree_ok (Z.of_nat (length q) + 1)) kids ∧
    Forall (λ k, t_text k ∈ kvs.*1) kids ∧ ∀ r n, count_at r kids = Some n ↔ kid_label q kvs r n.
Proof.
  intros Hq Hm Hrec. induction 1 as [|[s k] kvs Hs IH Hall]; intros Hkvs.
  { exists [], []. split_and!; try done; try constructor. all: destruct r; try done.
    all: by intros (? & ? & ? & ? & _ & ?%not_elem_of_nil & _). }
  destruct IH as (below & kids & E & Ec & Hks & Hok' & Hin & Hc); [intros kv Hkv; apply Hkvs; by right|].
  pose proof (Hkvs (s, k) ltac:(by left)) as Hk. simpl in Hk.
  destruct (proj1 (ok_child t Hok p m s k Hm) Hk) as (Hpos & Hpar & Hstr).
  destruct (parent_lt t Hok k p Hpar Hpos) as [_ Hlt].
  destruct (proj2 (vat_lt c k)) as [n Hn]; [rewrite Hlen; unfold value_num in Hlt; lia|].
  assert (Forall (λ u : tree, t_text u ∈ ((s, k) :: kvs).*1) kids) as Hin'
    by (eapply Forall_impl; [exact Hin|]; intros u Hu; by right).
  cbn [mapM]. cbn [fst snd]. rewrite Hn. cbn [mbind option_bind].
  destruct (n =? 0) eqn:E0; bool_cases.
  - exists ([] :: below), kids. rewrite E. split_and!; [done|done|done|done|done|]. intros r n'.
    rewrite Hc, kid_label_cons. split; [by right|]. intros [(r' & id & _ & Hnz & _)|]; [congruence|done].
  - destruct (Hrec s k Hk) as (items & Ei & (tr & -> & Htr & Et & Hlab)). rewrite Ei. cbn [mbind option_bind].
    rewrite length_app, Nat2Z.inj_add in Htr. change (Z.of_nat (length [s])) with 1 in Htr.
    exists (flat tr :: below), (tr :: kids). rewrite E. split_and!; [done|by rewrite flatten_cons; simpl; rewrite Ec| | | |].
    + constructor; [done|]. apply Forall_forall. intros u Hu. rewrite Forall_forall in Hin. specialize (Hin u Hu).
      apply list_elem_of_fmap in Hin as (kv & Eu & Hkv). rewrite Eu, Et. rewrite Forall_forall in Hall. by apply (Hall kv).
    + by constructor.
    + constructor; [rewrite Et; by left|done].
    + intros [|x r] n'.
      { split; [done|]. by intros (? & ? & ? & ? & ? & _). }
      rewrite count_at_cons, kid_label_cons, Et. destruct (decide (s = x)) as [<-|Hx].
      * rewrite Hlab. rewrite <- app_assoc. simpl app. split.
        -- intros (id & Hsh & Hid & Hv). left. exists r, id. split_and!; [done|congruence|done|done|done].
        -- intros [(r' & id & [= <-] & _ & Hsh & Hid & Hv)|(s' & k' & r' & id & [= <- <-] & Hin2 & _)]; [by exists id|].
           rewrite Forall_forall in Hall. specialize (Hall _ Hin2). simpl in Hall. by rewrite text_lt_irrefl in Hall.
      * rewrite Hc. split; [by right|]. intros [(r' & id & [= <- <-] & _)|]; done.
Qed.

Lemma append_tree fuel : ∀ p q str, at_path t p q → value_num t - p ≤ Z.of_nat fuel →
  ∃ items, appendGroupRep fuel t c p (Z.of_nat (length q)) str = Some items ∧ is_tree p q str items.
Proof.
  induction fuel as [|fuel IH]; intros p q str Hq Hf; pose proof (at_path_valid t Hok _ _ Hq) as Hv; [lia|].
  destruct (proj2 (vat_lt c p)) as [n Hn]; [rewrite Hlen; exact Hv|].
  destruct (proj2 (vat_lt (childMapTable_ t) p)) as [m Hm]; [by rewrite (ok_maps t Hok)|].
  assert (∀ s k, (s, k) ∈ child_order m ↔ 0 < k ∧ vat (parentIdVec_ t) k = Some p ∧ vat (propStrVec_ t) k = Some s)
    as Hkids.
  { intros s k. rewrite (Horder m), elem_of_map_to_list. by apply (ok_child t Hok p m s k Hm). }
  destruct (append_kids fuel p q m (child_order m) Hq Hm) as (below & kids & E & Ec & Hks & Hok' & _ & Hlab).
  - intros s k Hk. apply (ok_child t Hok p m s k Hm) in Hk as (Hpos & Hpar & Hstr).
    destruct (parent_lt t Hok k p Hpar Hpos). assert (at_path t k (q ++ [s])) as Hkq by by eapply at_child.
    destruct (IH k (q ++ [s]) s Hkq) as (items & Hi); [lia|].
    rewrite length_app, Nat2Z.inj_add in Hi. by exists items.
  - apply Hsorted.
  - intros [s k]. rewrite (Horder m). apply elem_of_map_to_list.
  - cbn [appendGroupRep]. rewrite Hn, Hm. cbn [mbind option_bind].
    match type of E with mapM ?f _ = _ => match goal with |- context [mapM ?g (child_order m)] => change g with f end end.
    rewrite E. cbn [mbind option_bind]. eexists. split; [reflexivity|].
    exists (Node (new_item (Z.of_nat (length q)) str 0 n) kids). split_and!; [by rewrite Ec| |done|].
    { pose proof (Hdepth p q Hq). constructor; [simpl; unfold u8; apply Z.mod_small; lia|lia|done|done]. }
    intros r n'. simpl. destruct (decide _) as [_|Hne]; [|by destruct Hne]. cbn [mbind option_bind].
    destruct r as [|x r]; simpl.
    + rewrite app_nil_r. split.
      * intros [= <-]. exists p. split_and!; [constructor|done|done].
      * intros (id & _ & Hid & Hvid). rewrite (at_path_inj t Hok _ _ Hid _ Hq) in Hvid. congruence.
    + change (count_at (x :: r) kids = Some n' ↔ ∃ id, shown c p id ∧ at_path t id (q ++ x :: r) ∧ vat c id = Some n').
      rewrite Hlab. split.
      * intros (s & k & r' & id & _ & Hin & Hnz & Hsh & Hid & Hvid). exists id. split_and!; [|done|done].
        apply Hkids in Hin as (Hpos & Hpar & _). apply (shown_trans _ _ k); [|done].
        apply (shown_below _ _ p); [constructor|done..].
      * intros (id & Hsh & Hid & Hvid). apply shown_child in Hsh as [->|(k & Hpos & Hpar & Hnz & Hsh)].
        { pose proof (at_path_fun t _ _ Hid _ Hq) as Ep. apply (f_equal length) in Ep. rewrite length_app in Ep. simpl in Ep. lia. }
        destruct (parent_lt t Hok k p Hpar Hpos). destruct (valid_str t k) as [s Hstr]; [lia|].
        destruct (shown_path c k id (q ++ [s]) Hsh) as (r' & Hr' & _); [by eapply at_child|].
        pose proof (at_path_fun t _ _ Hr' _ Hid) as Ep. rewrite <- app_assoc in Ep. apply app_inv_head in Ep.
        simpl in Ep. injection Ep as <- <-. exists s, k, r', id. split_and!; [done| |done|done|done|done].
        by apply Hkids.
Qed.
End listed_tree.

(** The list of a property as a tree: below the property, the labels with a
    number are the values of the documents and the values above them. *)
Lemma getGroupRep_tree `{!TextLt U} `{!TextOrder U} fuel propName groupRep :
  (∀ m, StronglySorted (λ a b : U * Z, text_lt a.1 b.1 = true) (child_order m)) →
  (∀ id path, at_path t id path → Z.of_nat (length path) < 2 ^ 8 - 1) →
  docs_ok → value_num t ≤ Z.of_nat fuel →
  Z.of_nat (length docs) < 2 ^ 32 → Z.of_nat (length all_values) < 2 ^ 32 →
  ∃ c tr c', foldM (λ c d, addDoc t d c) (counter_new t) docs = Some c ∧
  getGroupRep fuel t propName c groupRep = Some (add_items (flat tr) groupRep, c') ∧
  tree_ok 0 tr ∧ t_text tr = propName ∧ count_at [propName] [tr] = Some docs_with_value ∧
  ∀ x path n, count_at (propName :: x :: path) [tr] = Some n ↔
    ∃ id, at_path t id (x :: path) ∧ 0 < n ∧ n = values_below id.
Proof.
  intros Hsorted Hdepth Hd Hf Hnd Hnv. destruct (true_counts fuel Hd Hf Hnd Hnv) as (c & c' & E & E' & Hl & H0 & Hc).
  destruct (append_tree Hsorted Hdepth c' Hl fuel 0 [] propName (at_root t) ltac:(lia))
    as (items & Ei & (tr & -> & Htr & Et & Hlab)).
  exists c, tr, c'. split_and!; [done| |done|done| |].
  - unfold getGroupRep. rewrite E'. cbn [mbind option_bind]. change (Z.of_nat (length [])) with 0 in Ei. by rewrite Ei.
  - apply Hlab. exists 0. split_and!; [constructor|constructor|done].
  - intros x path n. rewrite Hlab. simpl app. split.
    + intros (id & Hsh & Hid & Hv). apply shown_pos in Hsh as [->|[Hr Hnz]].
      { pose proof (at_path_fun t _ _ Hid _ (at_root t)). done. }
      exists id. rewrite (Hc id Hr) in Hnz, Hv. injection Hv as <-. split_and!; [done| |done].
      assert (values_below id ≠ 0) by congruence. unfold values_below in *. lia.
    + intros (id & Hid & Hpos & ->). pose proof (at_path_valid t Hok _ _ Hid).
      assert (id ≠ 0). { intros ->. pose proof (at_path_fun t _ _ Hid _ (at_root t)). done. }
      exists id. split_and!; [apply shown_counted; [lia|done|done]|done|apply Hc; lia].
Qed.

End counter.

(** ** Concrete values *)

#[local] Notation foods5 := (PropValueTable.foods5).

Lemma foods5_ids_ok : id_table_ok (valueIdTable_ foods5).
Proof.
  change (valueIdTable_ foods5) with (IdTable [0; 0; 0; 0; 0; 2147483648] [2; 2; 3]).
  unfold id_table_ok. repeat (apply Forall_cons; split; [left; rewrite INDEX_MSB_eq; lia|]). apply Forall_singleton.
  right. exists 0%nat, 2%nat. split_and!; simpl; rewrite ?INDEX_MSB_eq; try lia; done.
Qed.

(** [food > fruit] and [food > bread] for document 5: "food" counts it twice. *)
Lemma getGroupRep_lists_witness :
  ∃ c items c', foldM (λ c d, addDoc foods5 d c) (counter_new foods5) [5%nat] = Some c ∧
  getGroupRep map_to_list 9 foods5 "Category"%string c rep_new = Some (add_items items rep_new, c') ∧
  items = [new_item 0 "Category"%string 0 1; new_item 1 "food"%string 0 2; new_item 2 "fruit"%string 0 1;
    new_item 2 "bread"%string 0 1].
Proof.
  destruct (getGroupRep_lists map_to_list foods5 foods5_ok) with
    (ids_at := λ _ : nat, [2; 3]) (docs := [5%nat]) (fuel := 9%nat) (propName := "Category"%string)
    (groupRep := rep_new (U := string)) as (c & items & c' & ids & E & E' & _).
  - exact foods5_ids_ok.
  - done.
  - repeat constructor.
  - vm_compute. congruence.
  - done.
  - done.
  - intros id [Hlo Hhi]. change (value_num foods5) with 4 in Hhi.
    assert (id = 0 ∨ id = 1 ∨ id = 2 ∨ id = 3) as [->|[->|[->| ->]]] by lia; vm_compute; reflexivity.
  - exists c, (new_item 0 "Category"%string 0 1 :: items), c'. split; [exact E|]. split; [exact E'|].
    vm_compute in E. injection E as <-. vm_compute in E'. by injection E' as <- <-.
Defined.
