(* ===== verification/GroupNumeric.v ===== *)
(** * Counting documents by number and by range
    ([mining-manager/group-manager/NumericGroupCounter.h, NumericRangeGroupCounter.cpp,
    NumericRangeGroupLabel.cpp])

    A numeric property is counted number by number, or in a segment tree whose
    leaves are ranges with two significant digits.  The theorems show that a
    document is counted in the leaf that contains its value and that the tree
    filled in for the result is consistent, which is what merging relies on.

    The table of the numbers is the interface [NumericPropertyTableBase]. *)
From S2P Require Import Prelude CNum OrderedMap GroupRep GroupMerge.

(** The values of a document; [None] is an invalid value.  A [float] is a
    double that is representable in single precision. *)
Record NumericPropertyTableBase := NumTable {
  getInt32Value : nat → option Z;
  getFloatValue : nat → option double;
  getDoubleValue : nat → option double }.

(** ** [NumericGroupCounter<unsigned int>] *)

Record NumericGroupCounter := NumCounter {
  num_property : string; num_table : NumericPropertyTableBase; num_countTable_ : list (double * Z) }.

Definition num_counter_new (property : string) (t : NumericPropertyTableBase) : NumericGroupCounter :=
  NumCounter property t [].

Definition num_addDoc (doc : nat) (c : NumericGroupCounter) : NumericGroupCounter :=
  match getDoubleValue (num_table c) doc with
  | Some value =>
      NumCounter (num_property c) (num_table c)
        (om_update d_lt (λ n, u32 (default 0 n + 1)) value (num_countTable_ c))
  | None => c
  end.

Definition num_getGroupRep {U} (c : NumericGroupCounter) (r : GroupRep U) : GroupRep U :=
  Rep (stringGroupRep_ r) (numericGroupRep_ r ++ [(num_property c, num_countTable_ c)]) (numericRangeGroupRep_ r).

Definition num_getStringRep {U} (format_numeric : double → U) (c : NumericGroupCounter) (lvl : Z) : list (RepItem U) :=
  map (λ e : double * Z, new_item lvl (format_numeric e.1) 0 e.2) (num_countTable_ c).

(** ** [NumericRangeGroupCounter] *)

Definition bound_ : list Z := [0; 1000; 10000; 100000; 1000000; 10000000; 100000000; 1000000000].

Record NumericRangeGroupCounter := RangeCounter {
  range_property : string; range_table : NumericPropertyTableBase; segmentTree_ : list Z }.

Definition range_counter_new (property : string) (t : NumericPropertyTableBase) : NumericRangeGroupCounter :=
  RangeCounter property t (replicate (111 * LEVEL_1_OF_SEGMENT_TREE + 1) 0).

(** [for (exponent = 1; value >= bound_[exponent]; ++exponent)] *)
Fixpoint exponent_loop (fuel exponent : nat) (value : Z) : option nat :=
  match fuel with
  | O => None
  | S fuel =>
      b ← bound_ !! exponent;
      if b <=? value then exponent_loop fuel (S exponent) value else Some exponent
  end.

(** The leaf of a positive value. *)
Definition leaf_of (value : Z) : option nat :=
  top ← bound_ !! LEVEL_1_OF_SEGMENT_TREE;
  let value := Z.min value (top - 1) in
  exponent ← exponent_loop 8 1 value;
  b ← bound_ !! exponent;
  let value := value ÷ (b ÷ 100) in
  Some (100 * (exponent - 1) + Z.to_nat value)%nat.

Definition range_addDoc (doc : nat) (c : NumericRangeGroupCounter) : option NumericRangeGroupCounter :=
  match getInt32Value (range_table c) doc with
  | Some value =>
      if 0 <? value then
        i ← leaf_of value; n ← segmentTree_ c !! i;
        Some (RangeCounter (range_property c) (range_table c) (<[i := u32 (n + 1)]> (segmentTree_ c)))
      else Some c
  | None => Some c
  end.

(** [*it0 += *(it++)] *)
Definition add_up (s : list Z * nat) (it0 : nat) : option (list Z * nat) :=
  x ← s.1 !! it0; y ← s.1 !! s.2;
  Some (<[it0 := u32 (x + y)]> s.1, S s.2).

Definition add_node (n : nat) (s : list Z * nat * nat) : option (list Z * nat * nat) :=
  let '(v, it, it0) := s in
  '(v, it) ← foldM (λ s (_ : nat), add_up s it0) (v, it) (seq 0 n);
  Some (v, it, S it0).

Definition fill_tree (v : list Z) : option (list Z) :=
  '(v, it, it0) ← foldM (λ s (_ : nat), add_node 10 s) (v, 0%nat, (100 * LEVEL_1_OF_SEGMENT_TREE)%nat)
    (seq 0 (LEVEL_1_OF_SEGMENT_TREE * 11));
  '(v, _) ← foldM (λ s (_ : nat), add_up s it0) (v, it) (seq 0 LEVEL_1_OF_SEGMENT_TREE);
  Some v.

(** The tree moves into the result; the counter keeps an empty vector. *)
Definition range_getGroupRep {U} (c : NumericRangeGroupCounter) (r : GroupRep U)
    : option (GroupRep U * NumericRangeGroupCounter) :=
  v ← fill_tree (segmentTree_ c);
  Some (Rep (stringGroupRep_ r) (numericGroupRep_ r) (numericRangeGroupRep_ r ++ [(range_property c, v)]),
        RangeCounter (range_property c) (range_table c) []).

(** ** [NumericRangeGroupLabel] *)

Inductive NumericRangeGroupLabel :=
  | TargetValues (targetValueSet : list double)
  | TargetRanges (ranges : list (double * double)).

(** A [std::set<float>] finds a value that is neither below nor above. *)
Definition num_label_test (t : NumericPropertyTableBase) (l : NumericRangeGroupLabel) (doc : nat) : bool :=
  match getFloatValue t doc with
  | None => false
  | Some value =>
      match l with
      | TargetValues set => existsb (λ v, same_key d_lt v value) set
      | TargetRanges ranges => existsb (λ r : double * double, d_ge value r.1 && d_le value r.2) ranges
      end
  end.

(** ** The leaf of a value *)

(** The range of leaf [i]: two significant digits. *)
Definition atom (i : nat) : Z := 10 ^ (Z.of_nat (i / 100) + 1).
Definition leaf_low (i : nat) : Z := atom i * Z.of_nat (i mod 100).

Definition in_leaf (i : nat) (value : Z) : Prop := leaf_low i ≤ value < leaf_low i + atom i.

Definition capped (value : Z) : Z := Z.min value 999999999.

Lemma leaf_parts e k : (k < 100)%nat → ((100 * e + k) / 100 = e ∧ (100 * e + k) mod 100 = k)%nat.
Proof.
  intros Hk. rewrite (Nat.add_comm _ k), (Nat.mul_comm 100 e). split.
  - rewrite Nat.div_add by lia. rewrite Nat.div_small; lia.
  - rewrite Nat.Div0.mod_add. apply Nat.mod_small. lia.
Qed.

Lemma leaf_contains e k value : (k < 100)%nat → 10 ^ (Z.of_nat e + 1) * Z.of_nat k ≤ value < 10 ^ (Z.of_nat e + 1) * (Z.of_nat k + 1) →
  in_leaf (100 * e + k) value.
Proof. intros Hk Hv. unfold in_leaf, leaf_low, atom. destruct (leaf_parts e k Hk) as [-> ->]. lia. Qed.

(** A positive value has a leaf, which contains it; greater values than the last
    bound count in the last leaf. *)
Lemma leaf_of_ok value : 0 < value → ∃ i, leaf_of value = Some i ∧ (i < 700)%nat ∧ in_leaf i (capped value) ∧
  ((i / 100 = 0)%nat ∨ 10 ^ (Z.of_nat (i / 100) + 2) ≤ capped value).
Proof.
  intros Hv. unfold leaf_of. simpl. change (Z.min value (1000000000 - 1)) with (capped value). pose proof (Z.le_min_r value 999999999) as Hc.
  fold (capped value) in Hc. assert (0 < capped value) as Hpos by (unfold capped; lia). clear Hv.
  revert Hc Hpos. generalize (capped value) as v. intros v Hc Hpos.
  assert (∀ (e : nat) b, b = 100 * 10 ^ (Z.of_nat e + 1) → v < b → (e < 7)%nat → e = 0%nat ∨ 10 ^ (Z.of_nat e + 2) ≤ v →
    ∃ i : nat, Some (100 * (S e - 1) + Z.to_nat (v ÷ (b ÷ 100)))%nat = Some i ∧ (i < 700)%nat ∧ in_leaf i v ∧
      ((i / 100 = 0)%nat ∨ 10 ^ (Z.of_nat (i / 100) + 2) ≤ v)) as Hleaf.
  { intros e b -> Hlt He Hlow.
    assert (0 < 10 ^ (Z.of_nat e + 1)) as Hp by (apply Z.pow_pos_nonneg; lia).
    rewrite Z.mul_comm, Z.quot_mul by lia. rewrite Z.quot_div_nonneg by lia.
    assert (0 ≤ v / 10 ^ (Z.of_nat e + 1) < 100) as Hk.
    { split; [apply Z.div_pos; lia|]. apply Z.div_lt_upper_bound; lia. }
    eexists. split; [reflexivity|]. replace (S e - 1)%nat with e by lia. split; [lia|].
    split; [|by destruct (leaf_parts e (Z.to_nat (v / 10 ^ (Z.of_nat e + 1))) ltac:(lia)) as [-> _]].
    apply leaf_contains; [lia|]. rewrite Z2Nat.id by lia.
    pose proof (Z.mul_div_le v (10 ^ (Z.of_nat e + 1)) Hp). pose proof (Z.mul_succ_div_gt v (10 ^ (Z.of_nat e + 1)) Hp). lia. }
  destruct (1000 <=? v) eqn:E1; bool_cases; [|apply (Hleaf 0%nat); [reflexivity|lia|lia|by left]].
  destruct (10000 <=? v) eqn:E2; bool_cases; [|apply (Hleaf 1%nat); [reflexivity|lia|lia|right; simpl; lia]].
  destruct (100000 <=? v) eqn:E3; bool_cases; [|apply (Hleaf 2%nat); [reflexivity|lia|lia|right; simpl; lia]].
  destruct (1000000 <=? v) eqn:E4; bool_cases; [|apply (Hleaf 3%nat); [reflexivity|lia|lia|right; simpl; lia]].
  destruct (10000000 <=? v) eqn:E5; bool_cases; [|apply (Hleaf 4%nat); [reflexivity|lia|lia|right; simpl; lia]].
  destruct (100000000 <=? v) eqn:E6; bool_cases; [|apply (Hleaf 5%nat); [reflexivity|lia|lia|right; simpl; lia]].
  destruct (1000000000 <=? v) eqn:E7; bool_cases; [lia|apply (Hleaf 6%nat); [reflexivity|lia|lia|right; simpl; lia]].
Qed.

(** ** Filling the tree *)

Lemma cells_app v i n m : cells v i (n + m) = cells v i n + cells v (i + n) m.
Proof. unfold cells. by rewrite seq_app, map_app, zsum_app. Qed.

Lemma cells_S v i n : cells v i (S n) = cell v i + cells v (S i) n.
Proof. done. Qed.

Lemma cells_pos v i n : (∀ j, (i ≤ j < i + n)%nat → 0 ≤ cell v j) → 0 ≤ cells v i n.
Proof.
  revert i. induction n as [|n IH]; intros i Hp; [done|]. rewrite cells_S.
  pose proof (Hp i ltac:(lia)). pose proof (IH (S i) ltac:(intros; apply Hp; lia)). lia.
Qed.

Lemma cells_part v i n k m : (∀ j, (k ≤ j < k + m)%nat → 0 ≤ cell v j) → (k ≤ i)%nat → (i + n ≤ k + m)%nat →
  cells v i n ≤ cells v k m.
Proof.
  intros Hp Hi Hn. replace m with ((i - k) + (n + (k + m - (i + n))))%nat by lia. rewrite !cells_app.
  replace (k + (i - k))%nat with i by lia.
  pose proof (cells_pos v k (i - k) ltac:(intros; apply Hp; lia)).
  pose proof (cells_pos v (i + n) (k + m - (i + n)) ltac:(intros; apply Hp; lia)). lia.
Qed.

Lemma cells_ext v w i n : (∀ j, (i ≤ j < i + n)%nat → cell v j = cell w j) → cells v i n = cells w i n.
Proof.
  revert i. induction n as [|n IH]; intros i He; [done|]. rewrite !cells_S, He by lia. f_equal. apply IH. intros; apply He; lia.
Qed.

Lemma cell_insert v i x j : (i < length v)%nat → cell (<[i := x]> v) j = if decide (j = i) then x else cell v j.
Proof.
  intros Hi. unfold cell. destruct (decide (j = i)) as [->|Hne].
  - by apply list_lookup_total_insert_eq.
  - by apply list_lookup_total_insert_ne.
Qed.

Lemma add_ups_ok it0 n : ∀ v it a, (it + n ≤ it0)%nat → (it0 < length v)%nat → (∀ j, (it ≤ j < it + n)%nat → 0 ≤ cell v j) →
  0 ≤ cell v it0 → cell v it0 + cells v it n < 2 ^ 32 →
  foldM (λ s (_ : nat), add_up s it0) (v, it) (seq a n) = Some (<[it0 := cell v it0 + cells v it n]> v, (it + n)%nat).
Proof.
  induction n as [|n IH]; intros v it a Hit Hlen Hp H0 Hb.
  { simpl. unfold cells. simpl. rewrite Z.add_0_r, Nat.add_0_r, list_insert_id; [done|]. by apply cell_lookup. }
  rewrite cells_S in Hb |- *. cbn [seq foldM]. unfold add_up at 2. simpl fst. simpl snd.
  rewrite (cell_lookup v it0), (cell_lookup v it) by lia. cbn [mbind option_bind].
  pose proof (Hp it ltac:(lia)). pose proof (cells_pos v (S it) n ltac:(intros; apply Hp; lia)).
  rewrite u32_small by lia.
  assert (cells (<[it0 := cell v it0 + cell v it]> v) (S it) n = cells v (S it) n) as Ec.
  { apply cells_ext. intros j Hj. rewrite cell_insert by done. destruct (decide (j = it0)); [lia|done]. }
  assert (cell (<[it0 := cell v it0 + cell v it]> v) it0 = cell v it0 + cell v it) as E0.
  { rewrite cell_insert by done. by destruct (decide (it0 = it0)). }
  rewrite (IH (<[it0 := cell v it0 + cell v it]> v) (S it) (S a)); rewrite ?E0, ?Ec, ?length_insert; try lia.
  - rewrite list_insert_insert_eq. f_equal. f_equal; [f_equal; lia|lia].
  - intros j Hj. rewrite cell_insert by done. destruct (decide (j = it0)); [lia|]. apply Hp. lia.
Qed.

Section fill.
Context (v0 : list Z) (Hlen0 : length v0 = 778%nat) (Hpos0 : ∀ j, (j < 700)%nat → 0 ≤ cell v0 j).
Context (Hzero : ∀ j, (700 ≤ j < 778)%nat → cell v0 j = 0) (Hsum : cells v0 0 700 < 2 ^ 32).

(** After [a] nodes. *)
Record filled (a : nat) (v : list Z) : Prop := {
  fl_length : length v = 778%nat;
  fl_leaves : ∀ j, (j < 700)%nat → cell v j = cell v0 j;
  fl_nodes : ∀ b, (b < a)%nat → cell v (700 + b) = cells v (10 * b) 10;
  fl_rest : ∀ j, (700 + a ≤ j < 778)%nat → cell v j = 0;
  fl_pos : ∀ j, (j < 778)%nat → 0 ≤ cell v j }.

Lemma leaves_sum v a : filled a v → cells v 0 700 = cells v0 0 700.
Proof. intros Hf. apply cells_ext. intros j Hj. apply (fl_leaves a v Hf). lia. Qed.

(** The sum over nodes of ten cells each. *)
Lemma nodes_sum v a n i : filled a v → (i + n ≤ a)%nat → cells v (700 + i) n = cells v (10 * i) (10 * n).
Proof.
  intros Hf. revert i. induction n as [|n IH]; intros i Hi; [done|].
  rewrite cells_S, (fl_nodes a v Hf) by lia. replace (10 * S n)%nat with (10 + 10 * n)%nat by lia.
  rewrite cells_app. f_equal. replace (S (700 + i)) with (700 + S i)%nat by lia. rewrite IH by lia. f_equal. lia.
Qed.

Lemma node_sum_bound v a b : filled a v → (b ≤ a)%nat → (b < 77)%nat → cells v (10 * b) 10 ≤ cells v0 0 700.
Proof.
  intros Hf Hba Hb. rewrite <- (leaves_sum v a Hf). destruct (decide (b < 70)%nat) as [Hlt|Hge].
  - apply cells_part; [intros; apply (fl_pos a v Hf); lia|lia|lia].
  - replace (10 * b)%nat with (700 + (10 * (b - 70)))%nat by lia.
    rewrite (nodes_sum v a 10 (10 * (b - 70)) Hf) by lia.
    apply cells_part; [intros; apply (fl_pos a v Hf); lia|lia|lia].
Qed.

Lemma filled_next_node a v : filled a v → (a < 77)%nat → filled (S a) (<[(700 + a)%nat := cells v (10 * a) 10]> v).
Proof.
  intros Hf Ha. pose proof (fl_length a v Hf) as Hl. split.
  - by rewrite length_insert.
  - intros j Hj. rewrite cell_insert by lia. destruct (decide (j = (700 + a)%nat)); [lia|]. by apply (fl_leaves a v Hf).
  - intros b Hb. assert (cells (<[(700 + a)%nat := cells v (10 * a) 10]> v) (10 * b) 10 = cells v (10 * b) 10) as ->.
    { apply cells_ext. intros j Hj. rewrite cell_insert by lia. destruct (decide (j = (700 + a)%nat)); [lia|done]. }
    rewrite cell_insert by lia. destruct (decide (700 + b = 700 + a)%nat) as [E|E].
    + by assert (b = a) as -> by lia.
    + apply (fl_nodes a v Hf). lia.
  - intros j Hj. rewrite cell_insert by lia. destruct (decide (j = (700 + a)%nat)); [lia|]. apply (fl_rest a v Hf). lia.
  - intros j Hj. rewrite cell_insert by lia. destruct (decide (j = (700 + a)%nat)); [|by apply (fl_pos a v Hf)].
    apply cells_pos. intros i Hi. apply (fl_pos a v Hf). lia.
Qed.

Lemma add_node_ok a v : filled a v → (a < 77)%nat →
  ∃ v', add_node 10 (v, (10 * a)%nat, (700 + a)%nat) = Some (v', (10 * S a)%nat, (700 + S a)%nat) ∧ filled (S a) v'.
Proof.
  intros Hf Ha. pose proof (fl_length a v Hf) as Hl. unfold add_node.
  pose proof (node_sum_bound v a a Hf ltac:(lia) Ha). pose proof (fl_rest a v Hf (700 + a) ltac:(lia)) as Hz.
  pose proof (λ j (Hj : (10 * a ≤ j < 10 * a + 10)%nat), fl_pos a v Hf j ltac:(lia)) as Hp.
  rewrite (add_ups_ok (700 + a) 10 v (10 * a) 0 ltac:(lia) ltac:(lia) Hp ltac:(lia) ltac:(lia)), Hz. cbn [mbind option_bind].
  rewrite Z.add_0_l. eexists. split; [|by apply filled_next_node].
  replace (10 * S a)%nat with (10 * a + 10)%nat by lia. by replace (700 + S a)%nat with (S (700 + a)) by lia.
Qed.

Lemma add_nodes_ok n : ∀ a v b, filled a v → (a + n ≤ 77)%nat →
  ∃ v', foldM (λ s (_ : nat), add_node 10 s) (v, (10 * a)%nat, (700 + a)%nat) (seq b n) =
    Some (v', (10 * (a + n))%nat, (700 + (a + n))%nat) ∧ filled (a + n) v'.
Proof.
  induction n as [|n IH]; intros a v b Hf Hn; cbn [seq foldM].
  { exists v. rewrite Nat.add_0_r. done. }
  destruct (add_node_ok a v Hf) as (v1 & -> & Hf1); [lia|]. cbn [mbind option_bind].
  destruct (IH (S a) v1 (S b) Hf1) as (v' & E & Hf'); [lia|]. exists v'.
  replace (a + S n)%nat with (S a + n)%nat by lia. done.
Qed.

(** The tree is consistent, keeps its leaves, and has their sum at the top. *)
Lemma fill_tree_ok : ∃ v, fill_tree v0 = Some v ∧ seg_tree v ∧ (∀ j, (j < 700)%nat → cell v j = cell v0 j) ∧
  cell v 777 = cells v0 0 700.
Proof.
  destruct (add_nodes_ok 77 0 v0 0) as (v & E & Hf); [|lia|].
  { split; [done|done|lia|intros; apply Hzero; lia|]. intros j Hj. destruct (decide (j < 700)%nat); [by apply Hpos0|].
    rewrite Hzero; lia. }
  pose proof (fl_length _ v Hf) as Hl. pose proof (fl_rest _ v Hf 777 ltac:(lia)) as Hz.
  assert (cells v 770 7 = cells v0 0 700) as Etop.
  { rewrite <- (leaves_sum v _ Hf).
    pose proof (nodes_sum v _ 7 70 Hf ltac:(lia)) as E1. pose proof (nodes_sum v _ 70 0 Hf ltac:(lia)) as E2.
    exact (eq_trans E1 E2). }
  unfold fill_tree. change (LEVEL_1_OF_SEGMENT_TREE * 11)%nat with 77%nat. change (100 * LEVEL_1_OF_SEGMENT_TREE)%nat with 700%nat.
  change (v0, 0%nat, 700%nat) with (v0, (10 * 0)%nat, (700 + 0)%nat).
  rewrite E. cbn [mbind option_bind]. change (10 * (0 + 77))%nat with 770%nat.
  change (700 + (0 + 77))%nat with 777%nat. unfold LEVEL_1_OF_SEGMENT_TREE.
  pose proof (λ j (Hj : (770 ≤ j < 770 + 7)%nat), fl_pos _ v Hf j ltac:(lia)) as Hp.
  rewrite (add_ups_ok 777 7 v 770 0 ltac:(lia) ltac:(lia) Hp ltac:(lia) ltac:(lia)), Hz, Etop.
  cbn [mbind option_bind]. rewrite Z.add_0_l. eexists. split; [reflexivity|].
  assert (∀ i n, (i + n ≤ 777)%nat → cells (<[777%nat := cells v0 0 700]> v) i n = cells v i n) as Ec.
  { intros i n Hi. apply cells_ext. intros j Hj. rewrite cell_insert by lia. destruct (decide (j = 777%nat)); [lia|done]. }
  assert (0 ≤ cells v0 0 700) as Hs by (apply cells_pos; intros; apply Hpos0; lia).
  split_and!.
  - split.
    + by rewrite length_insert.
    + apply Forall_lookup. intros j x Hj. assert (j < 778)%nat as Hlt.
      { apply lookup_lt_Some in Hj. by rewrite length_insert, Hl in Hj. }
      rewrite (cell_lookup _ j) in Hj by (rewrite length_insert; lia). injection Hj as <-.
      rewrite cell_insert by lia. destruct (decide (j = 777%nat)); [lia|].
      pose proof (fl_pos _ v Hf j Hlt). split; [done|]. destruct (decide (j < 700)%nat).
      * pose proof (cells_part v j 1 0 700 ltac:(intros; apply (fl_pos _ v Hf); lia) ltac:(lia) ltac:(lia)) as Hpart.
        rewrite (leaves_sum v _ Hf) in Hpart. unfold cells at 1 in Hpart. simpl in Hpart. lia.
      * pose proof (node_sum_bound v _ (j - 700) Hf ltac:(lia) ltac:(lia)) as Hb.
        rewrite <- (fl_nodes _ v Hf (j - 700)) in Hb by lia. replace (700 + (j - 700))%nat with j in Hb by lia. lia.
    + intros i Hi. rewrite Ec, cell_insert by lia. destruct (decide _); [lia|]. apply (fl_nodes _ v Hf). lia.
    + intros i Hi. rewrite Ec, cell_insert by lia. destruct (decide _); [lia|].
      pose proof (fl_nodes _ v Hf (70 + i) ltac:(lia)) as E1. replace (700 + (70 + i))%nat with (770 + i)%nat in E1 by lia.
      by replace (10 * (70 + i))%nat with (700 + 10 * i)%nat in E1 by lia.
    + rewrite Ec, cell_insert by lia. destruct (decide _); [done|lia].
  - intros j Hj. rewrite cell_insert by lia. destruct (decide _); [lia|]. by apply (fl_leaves _ v Hf).
  - rewrite cell_insert by lia. by destruct (decide _).
Qed.
End fill.

(** ** Counting *)

Section range_counts.
Context (t : NumericPropertyTableBase).

(** The leaf that counts a document. *)
Definition doc_leaf (d : nat) : option nat :=
  value ← getInt32Value t d; if 0 <? value then leaf_of value else None.

Definition docs_in_leaf (docs : list nat) (i : nat) : Z := Z.of_nat (length (filter (λ d, doc_leaf d = Some i) docs)).

Definition docs_valued (docs : list nat) : Z := Z.of_nat (length (filter (λ d, doc_leaf d ≠ None) docs)).

Lemma docs_in_leaf_cons d docs i : docs_in_leaf (d :: docs) i = (if decide (doc_leaf d = Some i) then 1 else 0) + docs_in_leaf docs i.
Proof. unfold docs_in_leaf. rewrite filter_cons. destruct (decide (doc_leaf d = Some i)); simpl; lia. Qed.

Lemma doc_leaf_lt d i : doc_leaf d = Some i → (i < 700)%nat.
Proof.
  unfold doc_leaf. destruct (getInt32Value t d) as [x|]; [|done]. cbn [mbind option_bind].
  destruct (0 <? x) eqn:E; bool_cases; [|done]. destruct (leaf_of_ok x E) as (j & -> & Hj & _). by intros [= <-].
Qed.

Lemma docs_in_leaf_le docs i : docs_in_leaf docs i ≤ docs_valued docs.
Proof.
  induction docs as [|d docs IH]; [done|]. rewrite docs_in_leaf_cons. unfold docs_valued in *. rewrite filter_cons.
  destruct (decide (doc_leaf d = Some i)), (decide (doc_leaf d ≠ None)); simpl; try lia. exfalso. match goal with H : ¬ (_ ≠ None) |- _ => apply H end. congruence.
Qed.

(** The documents counted in the leaves [a ... a + m - 1]. *)
Definition leaf_in (a m : nat) (d : nat) : bool :=
  match doc_leaf d with Some i => (a <=? i)%nat && (i <? a + m)%nat | None => false end.

Lemma sum_indicator a m d :
  zsum (map (λ j, if decide (doc_leaf d = Some j) then 1 else 0) (seq a m)) = if leaf_in a m d then 1 else 0.
Proof.
  unfold leaf_in, zsum. revert a. induction m as [|m IH]; intros a; cbn [seq map foldr].
  { destruct (doc_leaf d) as [i|]; [|done]. destruct (a <=? i)%nat eqn:E; [|done]. apply Nat.leb_le in E.
    simpl. by rewrite (proj2 (Nat.ltb_ge _ _)) by lia. }
  rewrite IH. destruct (doc_leaf d) as [i|]; [|by destruct (decide _)].
  destruct (S a <=? i)%nat eqn:E1, (i <? S a + m)%nat eqn:E2, (a <=? i)%nat eqn:E3, (i <? a + S m)%nat eqn:E4; bool_cases; simpl;
    destruct (decide (Some i = Some a)) as [[= ->]|Hne]; try done; try lia; exfalso; apply Hne; f_equal; lia.
Qed.

Lemma sum_docs docs a m :
  zsum (map (docs_in_leaf docs) (seq a m)) = Z.of_nat (length (filter (λ d, leaf_in a m d = true) docs)).
Proof.
  induction docs as [|d docs IH].
  { simpl. induction (seq a m) as [|j l IH]; [done|]. unfold zsum in *. simpl. by rewrite IH. }
  rewrite (map_ext _ (λ i, (if decide (doc_leaf d = Some i) then 1 else 0) + docs_in_leaf docs i)) by (intros; apply docs_in_leaf_cons).
  assert (∀ l (f g : nat → Z), zsum (map (λ i, f i + g i) l) = zsum (map f l) + zsum (map g l)) as Hadd.
  { intros l f g. unfold zsum. induction l as [|x l IHl]; simpl; [done|]. rewrite IHl. lia. }
  rewrite Hadd, IH, sum_indicator, filter_cons. destruct (leaf_in a m d); simpl; lia.
Qed.

Lemma docs_valued_sum docs : zsum (map (docs_in_leaf docs) (seq 0 700)) = docs_valued docs.
Proof.
  rewrite sum_docs. unfold docs_valued. f_equal. f_equal. apply list_filter_iff. intros d. unfold leaf_in.
  destruct (doc_leaf d) as [i|] eqn:E; [|done]. pose proof (doc_leaf_lt d i E) as Hi.
  rewrite (proj2 (Nat.ltb_lt _ _)), (proj2 (Nat.leb_le _ _)) by lia. done.
Qed.

Lemma range_addDocs_ok prop docs : ∀ v, length v = 778%nat → (∀ j, (700 ≤ j < 778)%nat → cell v j = 0) →
  ∃ v', foldM (λ c d, range_addDoc d c) (RangeCounter prop t v) docs = Some (RangeCounter prop t v') ∧
  length v' = 778%nat ∧ (∀ j, (700 ≤ j < 778)%nat → cell v' j = 0) ∧
  ((∀ j, (j < 700)%nat → 0 ≤ cell v j ∧ cell v j + docs_in_leaf docs j < 2 ^ 32) →
   ∀ j, (j < 700)%nat → cell v' j = cell v j + docs_in_leaf docs j).
Proof.
  induction docs as [|d docs IH]; intros v Hl Hz.
  { exists v. split_and!; [done|done|done|]. intros _ j _. unfold docs_in_leaf. simpl. lia. }
  cbn [foldM].
  assert (∃ v1, range_addDoc d (RangeCounter prop t v) = Some (RangeCounter prop t v1) ∧ length v1 = 778%nat ∧
    (∀ j, (700 ≤ j < 778)%nat → cell v1 j = 0) ∧
    ∀ j, (j < 700)%nat → 0 ≤ cell v j →
      cell v j + (if decide (doc_leaf d = Some j) then 1 else 0) < 2 ^ 32 →
      cell v1 j = cell v j + if decide (doc_leaf d = Some j) then 1 else 0)
    as (v1 & -> & Hl1 & Hz1 & Hc1).
  { unfold range_addDoc, doc_leaf. simpl. destruct (getInt32Value t d) as [x|]; cbn [mbind option_bind].
    - destruct (0 <? x) eqn:E; bool_cases.
      + destruct (leaf_of_ok x E) as (i & -> & Hi & _). cbn [mbind option_bind].
        rewrite (cell_lookup v i) by lia. cbn [mbind option_bind]. eexists. split; [reflexivity|].
        split_and!; [by rewrite length_insert| |].
        * intros j Hj. rewrite cell_insert by lia. destruct (decide (j = i)); [lia|by apply Hz].
        * intros j Hj H0j Hb. rewrite cell_insert by lia. destruct (decide (j = i)) as [->|Hne].
          -- destruct (decide (Some i = Some i)); [|done]. by rewrite u32_small by lia.
          -- destruct (decide (Some i = Some j)); [congruence|]. lia.
      + exists v. split_and!; try done. intros j _ _ _. destruct (decide _); [done|lia].
    - exists v. split_and!; try done. intros j _ _ _. destruct (decide _); [done|lia]. }
  cbn [mbind option_bind]. destruct (IH v1 Hl1 Hz1) as (v' & E & Hl' & Hz' & Hc'). exists v'.
  split_and!; [done|done|done|]. intros Hb j Hj.
  assert (∀ j, (j < 700)%nat → cell v1 j = cell v j + if decide (doc_leaf d = Some j) then 1 else 0) as Hc1'.
  { intros i Hi. destruct (Hb i Hi) as [H0 H1]. rewrite docs_in_leaf_cons in H1.
    assert (0 ≤ docs_in_leaf docs i) by (unfold docs_in_leaf; lia). apply Hc1; lia. }
  rewrite (Hc' ltac:(intros i Hi; rewrite (Hc1' i Hi); specialize (Hb i Hi); rewrite docs_in_leaf_cons in Hb;
    destruct (decide _); lia) j Hj), (Hc1' j Hj), docs_in_leaf_cons. lia.
Qed.

(** The counter and the tree it hands out. *)
Lemma range_counts_documents U prop docs (r : GroupRep U) : docs_valued docs < 2 ^ 32 →
  ∃ c v r', foldM (λ c d, range_addDoc d c) (range_counter_new prop t) docs = Some c ∧
  range_getGroupRep c r = Some (r', RangeCounter prop t []) ∧
  r' = Rep (stringGroupRep_ r) (numericGroupRep_ r) (numericRangeGroupRep_ r ++ [(prop, v)]) ∧
  seg_tree v ∧ (∀ i, (i < 700)%nat → cell v i = docs_in_leaf docs i) ∧ cell v 777 = docs_valued docs ∧
  ∀ d x, getInt32Value t d = Some x → 0 < x → ∃ i, doc_leaf d = Some i ∧ (i < 700)%nat ∧ in_leaf i (capped x).
Proof.
  intros Hb. set (v0 := replicate 778 0).
  assert (∀ j, (j < 778)%nat → cell v0 j = 0) as Hv0 by (intros j Hj; by apply lookup_total_replicate_2).
  destruct (range_addDocs_ok prop docs v0) as (v1 & E & Hl & Hz & Hc); [by unfold v0; rewrite length_replicate|intros; apply Hv0; lia|].
  assert (∀ j, (j < 700)%nat → 0 ≤ docs_in_leaf docs j ≤ docs_valued docs) as Hle.
  { intros j Hj. split; [unfold docs_in_leaf; lia|]. apply docs_in_leaf_le. }
  assert (∀ j, (j < 700)%nat → cell v1 j = docs_in_leaf docs j) as Hc1.
  { intros j Hj. rewrite Hc, Hv0; [done|lia| |done]. intros i Hi. rewrite Hv0 by lia. specialize (Hle i Hi). lia. }
  assert (cells v1 0 700 = docs_valued docs) as Hs.
  { rewrite <- docs_valued_sum. unfold cells. f_equal. apply map_ext_in. intros j Hj%in_seq. apply Hc1. lia. }
  destruct (fill_tree_ok v1 Hl) as (v & Ev & Hseg & Hlv & Htop).
  { intros j Hj. rewrite Hc1 by done. by apply Hle. }
  { done. }
  { by rewrite Hs. }
  eexists _, v, _. split; [exact E|]. unfold range_getGroupRep. cbn [segmentTree_ range_property range_table].
  rewrite Ev. cbn [mbind option_bind]. split; [reflexivity|]. split; [reflexivity|]. split_and!; [done| |by rewrite Htop|].
  - intros i Hi. by rewrite Hlv, Hc1.
  - intros d x Hx Hpos. unfold doc_leaf. rewrite Hx. cbn [mbind option_bind].
    destruct (0 <? x) eqn:E0; bool_cases; [|lia]. destruct (leaf_of_ok x E0) as (i & Hi & Hi7 & Hin & _). by exists i.
Qed.
End range_counts.
