(* ===== verification/GroupRange.v ===== *)
(** * The ranges shown for a numeric property
    ([mining-manager/group-manager/NumericRangeGroupCounter.cpp], toOntologyRepItemList)

    The segment tree of a property becomes at most seven labels "low-high".  Every
    decade with documents gets one range, the rest go where they split the most
    documents; within a decade the borders follow the distribution.  The theorems
    show that the ranges are disjoint, that each shows the number of documents
    whose value lies in it, and that together they show every document. *)
From S2P Require Import Prelude CNum OrderedMap GroupRep GroupMerge GroupNumeric.

Definition MAX_RANGE_NUMBER : Z := 7.

(** ** How many ranges each decade gets *)

(** The decade whose next split reduces the variance most. *)
Fixpoint best_split (i : nat) (level1 split : list Z) (best : option (nat * double)) : option (nat * double) :=
  match level1, split with
  | l :: level1, s :: split =>
      if l <=? s then best_split (S i) level1 split best
      else
        let reduce := d_div (d_div (d_mul (d_of_Z l) (d_of_Z l)) (d_of_Z s)) (d_of_Z (s + 1)) in
        let best := match best with
                    | None => Some (i, reduce)
                    | Some (_, r) => if d_gt reduce r then Some (i, reduce) else best
                    end in
        best_split (S i) level1 split best
  | _, _ => best
  end.

Fixpoint more_splits (rangeNumber : nat) (level1 split : list Z) : list Z :=
  match rangeNumber with
  | O => split
  | S n =>
      match best_split 0 level1 split None with
      | Some (best, _) => more_splits n level1 (alter (λ s, s + 1) best split)
      | None => split
      end
  end.

Definition splits (level1 : list Z) : list Z :=
  let split := map (λ l, if l =? 0 then 0 else 1) level1 in
  more_splits (Z.to_nat (MAX_RANGE_NUMBER - zsum split)) level1 split.

(** ** The ranges of a decade *)

(** [while (v[k] == 0) ++k], and downwards. *)
Fixpoint scan_up (fuel : nat) (v : list Z) (k : nat) : option nat :=
  match fuel with
  | O => None
  | S fuel => x ← v !! k; if x =? 0 then scan_up fuel v (S k) else Some k
  end.

Fixpoint scan_down (v : list Z) (k : nat) : option nat :=
  x ← v !! k; if x =? 0 then match k with O => None | S k => scan_down v k end else Some k.

(** [while (++stop.second < 10 && *(++vit) == 0)] *)
Fixpoint next_leaf (fuel : nat) (v : list Z) (second vit : nat) : option (nat * nat) :=
  match fuel with
  | O => None
  | S fuel =>
      let second := S second in
      if (second <? 10)%nat then
        x ← v !! S vit;
        if x =? 0 then next_leaf fuel v second (S vit) else Some (second, S vit)
      else Some (second, vit)
  end.

Section decade.
Context (v : list Z) (level3 level2 : nat).

(** The first leaf with documents in node [first]. *)
Definition enter_node (first : nat) : option (nat * nat * nat) :=
  let vit := (level3 + 10 * first)%nat in
  k ← scan_up (length v) v vit; Some (first, (k - vit)%nat, k).

(** The next leaf with documents: [stop.first], [stop.second], [vit]. *)
Definition step_on (stop : nat * nat * nat) : option (nat * nat * nat) :=
  let '(first, second, vit) := stop in
  '(second, vit) ← next_leaf 10 v second vit;
  if (second =? 10)%nat then
    k ← scan_up (length v) v (level2 + S first)%nat;
    enter_node (k - level2)
  else Some (first, second, vit).

(** The inner loop: [tempCount], [tempStop] and [stop] at its end. *)
Fixpoint grow (fuel : nat) (total tempCount difference : Z) (tempStop stop : nat * nat * nat)
    : option (Z * (nat * nat * nat) * (nat * nat * nat)) :=
  match fuel with
  | O => None
  | S fuel =>
      x ← v !! stop.2;
      let newDifference := i32 (difference + x) in
      if 0 <=? i32 (newDifference + difference) then Some (tempCount, tempStop, stop)
      else
        let '(tempCount, difference, tempStop) :=
          if negb (newDifference =? difference) then (u32 (tempCount + x), newDifference, stop)
          else (tempCount, difference, tempStop) in
        if tempCount =? total then Some (tempCount, tempStop, stop)
        else stop ← step_on stop; grow fuel total tempCount difference tempStop stop
  end.

Definition leaf_no (stop : nat * nat * nat) : Z := Z.of_nat (10 * stop.1.1 + stop.1.2).

(** A range of leaves and its count. *)
Fixpoint grow_ranges (n : nat) (j split total oldCount : Z) (stop : nat * nat * nat)
    : option (list (Z * Z * Z) * Z * (nat * nat * nat)) :=
  match n with
  | O => Some ([], oldCount, stop)
  | S n =>
      let difference := i32 (oldCount - u32 (u32 ((j + 1) * total) - 1) / split - 1) in
      '(tempCount, tempStop, stop') ← grow (length v) total oldCount difference stop stop;
      if negb (oldCount =? tempCount) then
        let range := (leaf_no stop, leaf_no tempStop, u32 (tempCount - oldCount)) in
        if tempCount =? total then Some ([range], tempCount, stop')
        else
          '(ranges, tempCount, stop'') ← grow_ranges n (j + 1) split total tempCount stop';
          Some (range :: ranges, tempCount, stop'')
      else grow_ranges n (j + 1) split total oldCount stop'
  end.

Definition decade_ranges (total split : Z) : option (list (Z * Z * Z)) :=
  e1 ← scan_down v (level2 + 9)%nat;
  let end_first := (e1 - level2)%nat in
  e2 ← scan_down v (level3 + 10 * end_first + 9)%nat;
  let end_second := (e2 - (level3 + 10 * end_first))%nat in
  s1 ← scan_up (length v) v level2;
  stop ← enter_node (s1 - level2);
  '(ranges, tempCount, stop) ← grow_ranges (Z.to_nat (split - 1)) 0 split total 0 stop;
  if negb (tempCount =? total) then
    Some (ranges ++ [(leaf_no stop, Z.of_nat (10 * end_first + end_second), u32 (total - tempCount))])
  else Some ranges.
End decade.

(** ** The ranges of a property *)

(** The ranges of decade [i] as values. *)
Definition value_ranges (v : list Z) (split : list Z) (i : nat) : option (list (Z * Z * Z)) :=
  s ← split !! i; total ← v !! (770 + i)%nat;
  if s =? 0 then Some []
  else
    b ← bound_ !! S i;
    let atom := b ÷ 100 in
    ranges ← decade_ranges v (100 * i) (700 + 10 * i) total s;
    Some (map (λ r : Z * Z * Z, (atom * r.1.1, atom * (r.1.2 + 1) - 1, r.2)) ranges).

Definition ranges_of (v : list Z) : option (list (Z * Z * Z)) :=
  let level1 := take LEVEL_1_OF_SEGMENT_TREE (drop (110 * LEVEL_1_OF_SEGMENT_TREE) v) in
  rs ← mapM (value_ranges v (splits level1)) (seq 0 LEVEL_1_OF_SEGMENT_TREE);
  Some (concat rs).

(** [NumericRangeGroupCounter::toOntologyRepItemList] *)
Definition range_label {U} (u_of_string : string → U) (r : Z * Z * Z) : RepItem U :=
  new_item 1 (u_of_string (pretty r.1.1 +:+ "-" +:+ pretty r.1.2)) 0 r.2.

Definition range_items {U} (u_of_string : string → U) (pv : string * list Z) : option (list (RepItem U)) :=
  total ← last pv.2;
  ranges ← ranges_of pv.2;
  Some (new_item 0 (u_of_string pv.1) 0 total :: map (range_label u_of_string) ranges).

(** ** Scanning *)

Lemma scan_up_ok v m : (m < length v)%nat → cell v m ≠ 0 → ∀ fuel k, (k ≤ m)%nat → (m - k < fuel)%nat →
  ∃ n, scan_up fuel v k = Some n ∧ (k ≤ n ≤ m)%nat ∧ cell v n ≠ 0 ∧ ∀ j, (k ≤ j < n)%nat → cell v j = 0.
Proof.
  intros Hm Hx. induction fuel as [|fuel IH]; intros k Hk Hf; [lia|]. cbn [scan_up].
  rewrite (cell_lookup v k) by lia. cbn [mbind option_bind]. destruct (cell v k =? 0) eqn:E; bool_cases.
  - assert (k ≠ m) by congruence. destruct (IH (S k)) as (n & En & Hn & Hn0 & Hz); [lia|lia|]. exists n.
    split_and!; [done|lia|lia|done|]. intros j Hj. destruct (decide (j = k)) as [->|]; [done|apply Hz; lia].
  - exists k. split_and!; [done|lia|lia|done|lia].
Qed.

Lemma scan_down_ok v m : cell v m ≠ 0 → ∀ k, (m ≤ k < length v)%nat →
  ∃ n, scan_down v k = Some n ∧ (m ≤ n ≤ k)%nat ∧ cell v n ≠ 0 ∧ ∀ j, (n < j ≤ k)%nat → cell v j = 0.
Proof.
  intros Hx. induction k as [|k IH]; intros Hk; cbn [scan_down].
  - rewrite (cell_lookup v 0) by lia. cbn [mbind option_bind]. assert (m = 0%nat) as -> by lia.
    destruct (cell v 0 =? 0) eqn:E; bool_cases; [done|]. exists 0%nat. split_and!; [done|lia|lia|done|lia].
  - rewrite (cell_lookup v (S k)) by lia. cbn [mbind option_bind]. destruct (cell v (S k) =? 0) eqn:E; bool_cases.
    + assert (m ≠ S k) by congruence. destruct IH as (n & En & Hn & Hn0 & Hz); [lia|]. exists n.
      split_and!; [done|lia|lia|done|]. intros j Hj. destruct (decide (j = S k)) as [->|]; [done|apply Hz; lia].
    + exists (S k). split_and!; [done|lia|lia|done|lia].
Qed.

(** The next leaf of the node, or the end of the node. *)
Lemma next_leaf_ok v base : (base + 10 ≤ length v)%nat → ∀ fuel s, (s < 10)%nat → (10 - s ≤ fuel)%nat →
  ∃ s', next_leaf fuel v s (base + s) = Some (s', if (s' =? 10)%nat then (base + 9)%nat else (base + s')%nat) ∧
  (s < s' ≤ 10)%nat ∧ (s' ≠ 10%nat → cell v (base + s') ≠ 0) ∧ ∀ j, (s < j < s')%nat → cell v (base + j) = 0.
Proof.
  intros Hl. induction fuel as [|fuel IH]; intros s Hs Hf; [lia|]. cbn [next_leaf].
  destruct (S s <? 10)%nat eqn:E.
  - apply Nat.ltb_lt in E. replace (S (base + s)) with (base + S s)%nat by lia.
    rewrite (cell_lookup v (base + S s)) by lia. cbn [mbind option_bind]. destruct (cell v (base + S s) =? 0) eqn:E0; bool_cases.
    + destruct (IH (S s)) as (s' & Es & Hs' & Hx & Hz); [lia|lia|]. exists s'. split_and!; [done|lia|lia|done|].
      intros j Hj. destruct (decide (j = S s)) as [->|]; [done|apply Hz; lia].
    + exists (S s). split_and!; [|lia|lia|done|lia]. destruct (S s =? 10)%nat eqn:E1; [apply Nat.eqb_eq in E1; lia|done].
  - apply Nat.ltb_ge in E. assert (s = 9%nat) as -> by lia. exists 10%nat. split_and!; [done|lia|lia|done|lia].
Qed.

(** ** The ranges of one decade *)

Section one_decade.
Context (v : list Z) (b3 b2 : nat) (Hl3 : (b3 + 100 ≤ length v)%nat) (Hl2 : (b2 + 10 ≤ length v)%nat).
Context (Hpos : ∀ k, (k < 100)%nat → 0 ≤ cell v (b3 + k)).
Context (Hnode : ∀ f, (f < 10)%nat → cell v (b2 + f) = cells v (b3 + 10 * f) 10).

(** The documents before leaf [p]. *)
Definition before (p : nat) : Z := cells v b3 p.

Definition total : Z := before 100.

Context (Htot : 0 < total < 2 ^ 32).

Lemma before_le p q : (p ≤ q ≤ 100)%nat → before p ≤ before q.
Proof.
  intros Hpq. unfold before. apply cells_part; [|lia|lia]. intros j Hj. replace j with (b3 + (j - b3))%nat by lia. apply Hpos. lia.
Qed.

Lemma before_S p : before (S p) = before p + cell v (b3 + p).
Proof. unfold before. replace (S p) with (p + 1)%nat by lia. rewrite cells_app. unfold cells at 2. simpl. lia. Qed.

Lemma before_none p q : (p ≤ q)%nat → (∀ k, (p ≤ k < q)%nat → cell v (b3 + k) = 0) → before q = before p.
Proof.
  intros Hpq. revert Hpq. induction q as [|q IH]; intros Hpq Hz; [by replace p with 0%nat by lia|].
  destruct (decide (p = S q)) as [->|]; [done|]. rewrite before_S, Hz by lia. rewrite IH; [lia|lia|]. intros; apply Hz; lia.
Qed.

(** When documents remain, a leaf with documents remains. *)
Lemma some_leaf p q : (p ≤ q ≤ 100)%nat → before p < before q → ∃ k, (p ≤ k < q)%nat ∧ cell v (b3 + k) ≠ 0.
Proof.
  intros Hpq Hlt. induction q as [|q IH]; [replace p with 0%nat in Hlt by lia; lia|].
  destruct (decide (p = S q)) as [->|]; [lia|]. destruct (decide (cell v (b3 + q) = 0)) as [E|E].
  - rewrite before_S, E, Z.add_0_r in Hlt. destruct IH as (k & Hk & Hx); [lia|done|]. exists k. split; [lia|done].
  - exists q. split; [lia|done].
Qed.

Lemma leaf_node f s : (f < 10)%nat → (s < 10)%nat → cell v (b3 + (10 * f + s)) ≠ 0 → cell v (b2 + f) ≠ 0.
Proof.
  intros Hf Hs Hx. rewrite Hnode by done.
  pose proof (cells_part v (b3 + (10 * f + s)) 1 (b3 + 10 * f) 10) as Hp. rewrite cells_S in Hp. unfold cells at 1 in Hp. simpl in Hp.
  pose proof (Hpos (10 * f + s) ltac:(lia)).
  assert (cell v (b3 + (10 * f + s)) ≤ cells v (b3 + 10 * f) 10); [|lia].
  rewrite <- (Z.add_0_r (cell v _)). apply Hp; [|lia|lia]. intros j Hj. replace j with (b3 + (j - b3))%nat by lia. apply Hpos. lia.
Qed.

Lemma node_leaf f : (f < 10)%nat → cell v (b2 + f) ≠ 0 → ∃ s, (s < 10)%nat ∧ cell v (b3 + 10 * f + s) ≠ 0.
Proof.
  intros Hf Hx. rewrite Hnode in Hx by done.
  destruct (some_leaf (10 * f) (10 * f + 10) ltac:(lia)) as (k & Hk & Hk0).
  { unfold before. rewrite cells_app. pose proof (cells_pos v (b3 + 10 * f) 10) as Hp.
    assert (0 ≤ cells v (b3 + 10 * f) 10); [|lia]. apply Hp. intros j Hj. replace j with (b3 + (j - b3))%nat by lia. apply Hpos. lia. }
  exists (k - 10 * f)%nat. split; [lia|]. by replace (b3 + 10 * f + (k - 10 * f))%nat with (b3 + k)%nat by lia.
Qed.

Lemma node_none f : (f < 10)%nat → cell v (b2 + f) = 0 → ∀ s, (s < 10)%nat → cell v (b3 + (10 * f + s)) = 0.
Proof. intros Hf E s Hs. destruct (decide (cell v (b3 + (10 * f + s)) = 0)) as [|Hx]; [done|]. by destruct (leaf_node f s Hf Hs Hx). Qed.

(** A position with documents. *)
Definition at_leaf (p : nat) (stop : nat * nat * nat) : Prop :=
  ∃ f s, stop = (f, s, (b3 + p)%nat) ∧ p = (10 * f + s)%nat ∧ (f < 10)%nat ∧ (s < 10)%nat ∧ cell v (b3 + p) ≠ 0.

Lemma at_leaf_no p stop : at_leaf p stop → leaf_no stop = Z.of_nat p.
Proof. by intros (f & s & -> & -> & _). Qed.

Lemma enter_node_ok f : (f < 10)%nat → cell v (b2 + f) ≠ 0 →
  ∃ stop s, enter_node v b3 f = Some stop ∧ at_leaf (10 * f + s) stop ∧ (s < 10)%nat ∧
  ∀ j, (j < s)%nat → cell v (b3 + (10 * f + j)) = 0.
Proof.
  intros Hf Hx. destruct (node_leaf f Hf Hx) as (m & Hm & Hm0). unfold enter_node.
  destruct (scan_up_ok v (b3 + 10 * f + m) ltac:(lia) Hm0 (length v) (b3 + 10 * f)) as (n & -> & Hn & Hn0 & Hz); [lia|lia|].
  cbn [mbind option_bind]. eexists _, (n - (b3 + 10 * f))%nat. split; [reflexivity|]. split_and!; [|lia|].
  - exists f, (n - (b3 + 10 * f))%nat. replace (b3 + (10 * f + (n - (b3 + 10 * f))))%nat with n by lia. split_and!; [done|done|done|lia|done].
  - intros j Hj. rewrite Nat.add_assoc. apply Hz. lia.
Qed.

Lemma next_stop_ok p stop : at_leaf p stop → before (S p) < total →
  ∃ p' stop', step_on v b3 b2 stop = Some stop' ∧ at_leaf p' stop' ∧ (p < p' < 100)%nat ∧ before p' = before (S p).
Proof.
  intros (f & s & -> & -> & Hf & Hs & Hx) Hlt. unfold step_on.
  destruct (next_leaf_ok v (b3 + 10 * f) ltac:(lia) 10 s Hs ltac:(lia)) as (s' & E & Hs' & Hx' & Hz).
  rewrite Nat.add_assoc, E. cbn [mbind option_bind]. destruct (s' =? 10)%nat eqn:E10.
  - apply Nat.eqb_eq in E10. subst s'.
    assert (before (10 * f + 10) = before (S (10 * f + s))) as Eb.
    { apply before_none; [lia|]. intros k Hk. replace (b3 + k)%nat with (b3 + 10 * f + (k - 10 * f))%nat by lia. apply Hz. lia. }
    destruct (some_leaf (10 * f + 10) 100) as (k & Hk & Hk0).
    { assert (f ≠ 9%nat); [|lia]. intros ->. change (10 * 9 + 10)%nat with 100%nat in Eb. unfold total in Hlt. lia. }
    { rewrite Eb. exact Hlt. }
    set (g := (k / 10)%nat). assert (k = 10 * g + k mod 10)%nat as Ek by (apply Nat.div_mod; lia).
    pose proof (Nat.mod_upper_bound k 10 ltac:(lia)).
    assert (g < 10)%nat as Hg by lia. assert (f < g)%nat as Hfg by lia.
    assert (cell v (b2 + g) ≠ 0) as Hg0 by (apply (leaf_node g (k mod 10)); [done|done|by rewrite <- Ek]).
    destruct (scan_up_ok v (b2 + g) ltac:(lia) Hg0 (length v) (b2 + S f)) as (n & -> & Hn & Hn0 & Hnz); [lia|lia|].
    cbn [mbind option_bind]. replace (b2 + (n - b2))%nat with n in * by lia.
    destruct (enter_node_ok (n - b2)) as (stop' & t & -> & Hat & Ht & Htz); [lia|by replace (b2 + (n - b2))%nat with n by lia|].
    eexists (10 * (n - b2) + t)%nat, stop'. split_and!; [done|done|lia|lia|]. rewrite <- Eb. apply before_none; [lia|]. intros j Hj.
    destruct (decide (j < 10 * (n - b2))%nat) as [Hj'|Hj'].
    + set (h := (j / 10)%nat). assert (j = 10 * h + j mod 10)%nat as Ej by (apply Nat.div_mod; lia).
      pose proof (Nat.mod_upper_bound j 10 ltac:(lia)). rewrite Ej. apply node_none; [lia| |lia]. apply Hnz. lia.
    + replace j with (10 * (n - b2) + (j - 10 * (n - b2)))%nat by lia. apply Htz. lia.
  - apply Nat.eqb_neq in E10. exists (10 * f + s')%nat. eexists. split; [reflexivity|]. split_and!; [|lia|lia|].
    + exists f, s'. rewrite Nat.add_assoc. split_and!; [done|done|done|lia|by apply Hx'].
    + apply before_none; [lia|]. intros k Hk. replace (b3 + k)%nat with (b3 + 10 * f + (k - 10 * f))%nat by lia. apply Hz. lia.
Qed.

(** The range from leaf [p] is empty, or ends at leaf [pt]; what comes after it
    starts at [q]. *)
Definition grown (p : nat) (t : Z) (tempStop : nat * nat * nat) (q : nat) : Prop :=
  (t = before p ∧ q = p) ∨
  ∃ pt, at_leaf pt tempStop ∧ (p ≤ pt < q)%nat ∧ t = before (S pt).

Lemma grow_ok fuel : ∀ p q t d tempStop stop, at_leaf q stop → grown p t tempStop q → t = before q →
  - 2 ^ 31 ≤ d < 2 ^ 31 → (100 - q ≤ fuel)%nat →
  ∃ t' tempStop' stop', grow v b3 b2 fuel total t d tempStop stop = Some (t', tempStop', stop') ∧
  ((t' = total ∧ grown p t' tempStop' 100) ∨ ∃ q', at_leaf q' stop' ∧ grown p t' tempStop' q' ∧ t' = before q').
Proof.
  induction fuel as [|fuel IH]; intros p q t d tempStop stop Hq Hg Ht Hd Hf.
  { destruct Hq as (f & s & _ & -> & ? & ? & _). lia. }
  pose proof Hq as (f & s & -> & Eq & Hf10 & Hs & Hx). cbn [grow snd]. rewrite (cell_lookup v (b3 + q)) by lia. cbn [mbind option_bind].
  destruct (0 <=? i32 (i32 (d + cell v (b3 + q)) + d)).
  { eexists _, _, _. split; [reflexivity|]. right. exists q. split_and!; [exact Hq|done|done]. }
  pose proof (Hpos q ltac:(lia)). pose proof (before_le (S q) 100 ltac:(lia)) as Hle. rewrite before_S in Hle. fold total in Hle.
  pose proof (before_le 0 q ltac:(lia)) as H0q. change (before 0) with 0 in H0q.
  assert (negb (i32 (d + cell v (b3 + q)) =? d) = true) as ->.
  { apply negb_true_iff, Z.eqb_neq. unfold i32. intros E.
    pose proof (Z.div_mod (d + cell v (b3 + q) + 2 ^ 31) (2 ^ 32) ltac:(lia)) as Em. lia. }
  rewrite u32_small by lia. rewrite Ht, <- before_S.
  assert (p ≤ q)%nat as Hpq by (destruct Hg as [[_ ->]|(pt & _ & Hpt & _)]; lia).
  destruct (before (S q) =? total) eqn:E; bool_cases.
  - eexists _, _, _. split; [reflexivity|]. left. split; [done|]. right. exists q. split_and!; [exact Hq|lia|lia|done].
  - destruct (next_stop_ok q _ Hq) as (q' & stop' & -> & Hq' & Hqq & Eb); [rewrite before_S in *; lia|]. cbn [mbind option_bind].
    apply (IH p q'); [done| |by rewrite Eb|apply i32_range|lia]. right. exists q. split_and!; [exact Hq|lia|lia|done].
Qed.

(** Consecutive ranges from leaf [p] to leaf [q], between which no document is
    left out: each starts and ends at a leaf with documents and has their number. *)
Fixpoint covers (p : nat) (ranges : list (Z * Z * Z)) (q : nat) : Prop :=
  match ranges with
  | [] => q = p
  | (lo, hi, n) :: ranges =>
      ∃ pt p', lo = Z.of_nat p ∧ hi = Z.of_nat pt ∧ (p ≤ pt < p')%nat ∧ (pt < 100)%nat ∧
      cell v (b3 + p) ≠ 0 ∧ cell v (b3 + pt) ≠ 0 ∧ n = cells v (b3 + p) (S pt - p) ∧ before p' = before (S pt) ∧ covers p' ranges q
  end.

Lemma leaf_before p : (p < 100)%nat → cell v (b3 + p) ≠ 0 → before p < before (S p) ≤ total.
Proof. intros Hp Hx. pose proof (Hpos p Hp). split; [rewrite before_S; lia|]. apply before_le. lia. Qed.

Lemma at_leaf_lt p stop : at_leaf p stop → (p < 100)%nat ∧ before p < total ∧ cell v (b3 + p) ≠ 0.
Proof.
  intros (f & s & -> & -> & Hf & Hs & Hx). split_and!; [lia| |done]. pose proof (leaf_before (10 * f + s) ltac:(lia) Hx). lia.
Qed.

Lemma range_of p pt q stop tempStop : at_leaf p stop → at_leaf pt tempStop → (p ≤ pt < q)%nat → before q = before (S pt) →
  ∀ ranges r, covers q ranges r →
  covers p ((leaf_no stop, leaf_no tempStop, u32 (before (S pt) - before p)) :: ranges) r.
Proof.
  intros Hp Hpt Hle Eb ranges r Hr. destruct (at_leaf_lt p stop Hp) as (Hp1 & _ & Hp0).
  destruct (at_leaf_lt pt tempStop Hpt) as (Ht1 & _ & Ht0). cbn [covers]. exists pt, q.
  rewrite (at_leaf_no p stop Hp), (at_leaf_no pt tempStop Hpt). split_and!; try done; [lia|lia|].
  assert (before (S pt) = before p + cells v (b3 + p) (S pt - p)) as ->.
  { unfold before. rewrite <- cells_app. f_equal. lia. }
  rewrite Z.add_simpl_l. pose proof (before_le 0 p ltac:(lia)) as E0. pose proof (before_le p (S pt) ltac:(lia)).
  pose proof (before_le (S pt) 100 ltac:(lia)). change (before 0) with 0 in E0. fold total in *.
  assert (before (S pt) = before p + cells v (b3 + p) (S pt - p)) by (unfold before; rewrite <- cells_app; f_equal; lia).
  apply u32_small. lia.
Qed.

Lemma grow_ranges_ok n : ∀ j split p stop, at_leaf p stop →
  ∃ ranges t stop', grow_ranges v b3 b2 n j split total (before p) stop = Some (ranges, t, stop') ∧ (length ranges ≤ n)%nat ∧
  ((t = total ∧ covers p ranges 100) ∨ ∃ q, at_leaf q stop' ∧ covers p ranges q ∧ t = before q).
Proof.
  induction n as [|n IH]; intros j split p stop Hp; cbn [grow_ranges].
  { eexists _, _, _. split; [reflexivity|]. split; [done|]. right. by exists p. }
  destruct (at_leaf_lt p stop Hp) as (Hp1 & Hplt & Hp0).
  destruct (grow_ok (length v) p p (before p) (i32 (before p - u32 (u32 ((j + 1) * total) - 1) / split - 1)) stop stop Hp
    (or_introl (conj eq_refl eq_refl)) eq_refl (i32_range _) ltac:(lia)) as (t & tempStop & stop' & -> & Hgrow). cbn [mbind option_bind].
  assert (∀ pt, at_leaf pt tempStop → (p ≤ pt)%nat → before p < before (S pt)) as Hgt.
  { intros pt Hpt Hle. pose proof (leaf_before p Hp1 Hp0). destruct (at_leaf_lt pt tempStop Hpt) as (? & _ & _).
    pose proof (before_le (S p) (S pt) ltac:(lia)). lia. }
  destruct Hgrow as [[-> Hg]|(q & Hq & Hg & Hqt)].
  - destruct Hg as [[E _]|(pt & Hpt & Hle & E)]; [lia|]. specialize (Hgt pt Hpt ltac:(lia)).
    rewrite (proj2 (Z.eqb_neq (before p) total)) by lia. cbn [negb]. rewrite Z.eqb_refl.
    eexists _, _, _. split; [reflexivity|]. split; [simpl; lia|]. left. split; [done|]. rewrite E.
    by apply (range_of p pt 100 stop tempStop).
  - destruct (at_leaf_lt q stop' Hq) as (Hq1 & Hqlt & _). destruct Hg as [[-> ->]|(pt & Hpt & Hle & E)].
    + rewrite Z.eqb_refl. cbn [negb]. destruct (IH (j + 1) split p stop' Hq) as (ranges & t & stop'' & -> & Hlen & Hend).
      eexists _, _, _. split; [reflexivity|]. split; [lia|done].
    + specialize (Hgt pt Hpt ltac:(lia)). rewrite (proj2 (Z.eqb_neq (before p) t)) by lia. cbn [negb].
      rewrite (proj2 (Z.eqb_neq t total)) by lia.
      destruct (IH (j + 1) split q stop' Hq) as (ranges & t' & stop'' & Er & Hlen & Hend). rewrite Hqt, Er. cbn [mbind option_bind].
      eexists _, _, _. split; [reflexivity|]. split; [simpl; lia|]. rewrite <- Hqt, E.
      destruct Hend as [[-> Hcov]|(r & Hr & Hcov & ->)].
      * left. split; [done|]. apply (range_of p pt q stop tempStop); [done|done|lia|lia|done].
      * right. exists r. split_and!; [done| |done]. apply (range_of p pt q stop tempStop); [done|done|lia|lia|done].
Qed.

Lemma covers_snoc q r lo hi n ranges : ∀ p, covers p ranges q → covers q [(lo, hi, n)] r → covers p (ranges ++ [(lo, hi, n)]) r.
Proof.
  induction ranges as [|[[a b] c] ranges IH]; intros p Hp Hq; [by simpl in Hp; subst q|].
  destruct Hp as (pt & p' & H). exists pt, p'. destruct_and! H. split_and!; try done. by apply IH.
Qed.

(** The ranges of a decade: between one and as many as it may have, covering all
    its documents. *)
Lemma decade_ranges_ok split : 1 ≤ split →
  ∃ ranges p, decade_ranges v b3 b2 total split = Some ranges ∧ (length ranges ≤ Z.to_nat split)%nat ∧
  before p = 0 ∧ covers p ranges 100.
Proof.
  intros Hs. unfold decade_ranges. destruct (some_leaf 0 100 ltac:(lia)) as (k & Hk & Hk0); [change (0 < total); lia|].
  assert (k = 10 * (k / 10) + k mod 10)%nat as Ek by (apply Nat.div_mod; lia). pose proof (Nat.mod_upper_bound k 10 ltac:(lia)).
  assert (k / 10 < 10)%nat as Hkd by lia.
  assert (cell v (b2 + k / 10) ≠ 0) as Hn by (apply (leaf_node (k / 10) (k mod 10)); [done|done|by rewrite <- Ek]).
  destruct (scan_down_ok v (b2 + k / 10) Hn (b2 + 9) ltac:(lia)) as (e1 & -> & He1 & He10 & He1z). cbn [mbind option_bind].
  destruct (node_leaf (e1 - b2) ltac:(lia)) as (m & Hm & Hm0); [by replace (b2 + (e1 - b2))%nat with e1 by lia|].
  destruct (scan_down_ok v (b3 + 10 * (e1 - b2) + m) Hm0 (b3 + 10 * (e1 - b2) + 9) ltac:(lia)) as (e2 & -> & He2 & He20 & He2z).
  cbn [mbind option_bind].
  destruct (scan_up_ok v (b2 + k / 10) ltac:(lia) Hn (length v) b2) as (s1 & -> & Hs1 & Hs10 & Hs1z); [lia|lia|]. cbn [mbind option_bind].
  destruct (enter_node_ok (s1 - b2)) as (stop & s & -> & Hat & Hsl & Hsz); [lia|by replace (b2 + (s1 - b2))%nat with s1 by lia|].
  cbn [mbind option_bind]. set (p := (10 * (s1 - b2) + s)%nat) in *.
  assert (before p = 0) as Ep.
  { change 0 with (before 0). apply before_none; [lia|]. intros j Hj. destruct (decide (j < 10 * (s1 - b2))%nat).
    - set (h := (j / 10)%nat). assert (j = 10 * h + j mod 10)%nat as Ej by (apply Nat.div_mod; lia).
      pose proof (Nat.mod_upper_bound j 10 ltac:(lia)). rewrite Ej. apply node_none; [lia| |lia]. apply Hs1z. lia.
    - replace j with (10 * (s1 - b2) + (j - 10 * (s1 - b2)))%nat by lia. apply Hsz. unfold p in Hj. lia. }
  set (pe := (e2 - b3)%nat). assert (pe < 100)%nat as Hpe by lia.
  assert (before (S pe) = total) as Ee.
  { symmetry. apply before_none; [lia|]. intros j Hj. destruct (decide (j < 10 * (e1 - b2) + 10)%nat).
    - apply He2z. lia.
    - set (h := (j / 10)%nat). assert (j = 10 * h + j mod 10)%nat as Ej by (apply Nat.div_mod; lia).
      pose proof (Nat.mod_upper_bound j 10 ltac:(lia)). rewrite Ej. apply node_none; [lia| |lia]. apply He1z. lia. }
  destruct (grow_ranges_ok (Z.to_nat (split - 1)) 0 split p stop Hat) as (ranges & t & stop' & Er & Hlen & Hend).
  rewrite Ep in Er. rewrite Er. cbn [mbind option_bind]. destruct Hend as [[-> Hcov]|(q & Hq & Hcov & ->)].
  - rewrite Z.eqb_refl. cbn [negb]. exists ranges, p. split_and!; [done|lia|done|done].
  - destruct (at_leaf_lt q stop' Hq) as (Hq1 & Hqlt & Hq0). rewrite (proj2 (Z.eqb_neq (before q) total)) by lia. cbn [negb].
    eexists _, p. split; [reflexivity|]. split_and!; [rewrite length_app; simpl; lia|done|]. apply (covers_snoc q); [done|].
    assert (q ≤ pe)%nat as Hqe.
    { destruct (decide (q ≤ pe)%nat) as [|Hgt]; [done|]. pose proof (before_le (S pe) q ltac:(lia)). lia. }
    replace (10 * (e1 - b2) + (e2 - (b3 + 10 * (e1 - b2))))%nat with pe by lia.
    assert (at_leaf pe (e1 - b2, e2 - (b3 + 10 * (e1 - b2)), b3 + pe)%nat) as Hpe'.
    { eexists _, _. split_and!; [reflexivity|lia|lia|lia|]. by replace (b3 + pe)%nat with e2 by lia. }
    rewrite <- (at_leaf_no pe _ Hpe'), <- Ee. by apply (range_of q pe 100).
Qed.
End one_decade.

(** What a chain of ranges says of each of them. *)
Section chains.
Context (v : list Z) (b3 : nat).

Lemma covers_in p ranges q : covers v b3 p ranges q → (p ≤ q)%nat ∧ ∀ lo hi n, (lo, hi, n) ∈ ranges →
  ∃ l h, lo = Z.of_nat l ∧ hi = Z.of_nat h ∧ (p ≤ l ≤ h)%nat ∧ (h < 100)%nat ∧ cell v (b3 + l) ≠ 0 ∧
  n = cells v (b3 + l) (S h - l).
Proof.
  revert p. induction ranges as [|[[lo hi] n] ranges IH]; intros p; [intros ->; split; [done|by intros ??? ?%not_elem_of_nil]|].
  intros (pt & p' & -> & -> & Hle & Hpt & Hp0 & _ & -> & _ & Hcov). destruct (IH p' Hcov) as [Hq Hin]. split; [lia|].
  intros lo' hi' n' [[= -> -> ->]|Hr]%elem_of_cons.
  - exists p, pt. split_and!; try done; lia.
  - destruct (Hin lo' hi' n' Hr) as (l & h & -> & -> & Hlh & Hh & H0l & ->). exists l, h. split_and!; try done; lia.
Qed.

Definition below (a b : Z * Z * Z) : Prop := a.1.2 < b.1.1.

Lemma covers_sorted p ranges q : covers v b3 p ranges q → StronglySorted below ranges.
Proof.
  revert p. induction ranges as [|[[lo hi] n] ranges IH]; intros p; [constructor|].
  intros (pt & p' & -> & -> & Hle & Hpt & Hp0 & _ & -> & _ & Hcov). constructor; [by apply (IH p')|].
  apply Forall_forall. intros [[lo' hi'] n'] Hr. destruct (proj2 (covers_in p' ranges q Hcov) lo' hi' n' Hr) as (l & h & -> & -> & Hlh & _).
  unfold below. simpl. lia.
Qed.

(** Every leaf with documents is in a range. *)
Lemma covers_all p ranges k : (∀ j, (j < 100)%nat → 0 ≤ cell v (b3 + j)) → covers v b3 p ranges 100 → (p ≤ k < 100)%nat →
  cell v (b3 + k) ≠ 0 → ∃ lo hi n, (lo, hi, n) ∈ ranges ∧ lo ≤ Z.of_nat k ≤ hi.
Proof.
  intros Hpos. revert p. induction ranges as [|[[lo hi] n] ranges IH]; intros p; [intros <- ?; lia|].
  intros (pt & p' & -> & -> & Hle & Hpt & Hp0 & _ & -> & Eb & Hcov) Hk Hk0. destruct (decide (k ≤ pt)%nat).
  { eexists _, _, _. split; [by left|]. lia. }
  destruct (decide (p' ≤ k)%nat) as [Hk'|Hk'].
  - destruct (IH p' Hcov ltac:(lia) Hk0) as (lo & hi & m & Hr & Hb). exists lo, hi, m. split; [by right|done].
  - destruct (covers_in p' ranges 100 Hcov) as [Hp' _]. unfold before in Eb. pose proof (Hpos k ltac:(lia)).
    replace p' with (S pt + (p' - S pt))%nat in Eb by lia. rewrite cells_app in Eb.
    pose proof (cells_part v (b3 + k) 1 (b3 + S pt) (p' - S pt)) as Hpart. unfold cells at 1 in Hpart. simpl in Hpart.
    assert (cell v (b3 + k) + 0 ≤ cells v (b3 + S pt) (p' - S pt)); [|lia]. apply Hpart; [|lia|lia].
    intros j Hj. replace j with (b3 + (j - b3))%nat by lia. apply Hpos. lia.
Qed.
End chains.

(** ** The number of ranges *)

Definition split_ok (l s : Z) : Prop := if decide (l = 0) then s = 0 else 1 ≤ s.

Lemma best_split_in level1 : ∀ sp i best b r, best_split i level1 sp best = Some (b, r) →
  best = Some (b, r) ∨ (i ≤ b)%nat ∧ ∃ l s, level1 !! (b - i)%nat = Some l ∧ sp !! (b - i)%nat = Some s ∧ s < l.
Proof.
  induction level1 as [|l level1 IH]; intros [|s sp] i best b r; simpl; try (intros ->; by left).
  assert (∀ best', best_split (S i) level1 sp best' = Some (b, r) →
    best' = Some (b, r) ∨ (i ≤ b)%nat ∧ ∃ l0 s0, (l :: level1) !! (b - i)%nat = Some l0 ∧ (s :: sp) !! (b - i)%nat = Some s0 ∧ s0 < l0) as Hrest.
  { intros best' Hb. destruct (IH sp (S i) best' b r Hb) as [->|(Hib & l0 & s0 & Hl & Hs & Hlt)]; [by left|right]. split; [lia|].
    exists l0, s0. by replace (b - i)%nat with (S (b - S i)) by lia. }
  destruct (l <=? s) eqn:E; [apply Hrest|]. bool_cases. intros Hb%Hrest.
  assert (∀ x, Some (i, x) = Some (b, r) → (i ≤ b)%nat ∧ ∃ l0 s0, (l :: level1) !! (b - i)%nat = Some l0 ∧ (s :: sp) !! (b - i)%nat = Some s0 ∧ s0 < l0) as Hhere.
  { intros x [= -> _]. split; [lia|]. rewrite Nat.sub_diag. by exists l, s. }
  destruct Hb as [Hb|Hb]; [|by right]. destruct best as [[b' r']|].
  - destruct (d_gt _ r'); [right; by eapply Hhere|by left].
  - right. by eapply Hhere.
Qed.

Lemma more_splits_ok n level1 : ∀ sp, Forall2 split_ok level1 sp → Forall (λ l, 0 ≤ l) level1 →
  Forall2 split_ok level1 (more_splits n level1 sp) ∧ zsum (more_splits n level1 sp) ≤ zsum sp + Z.of_nat n.
Proof.
  induction n as [|n IH]; intros sp Hs Hl; cbn [more_splits]; [split; [done|lia]|].
  destruct (best_split 0 level1 sp None) as [[b r]|] eqn:E; [|split; [done|lia]].
  destruct (best_split_in _ _ _ _ _ _ E) as [|(_ & l & s & Hlb & Hsb & Hlt)]; [done|]. rewrite Nat.sub_0_r in Hlb, Hsb.
  pose proof (Forall2_lookup_lr _ _ _ _ _ _ Hs Hlb Hsb) as Hok.
  destruct (IH (alter (λ s, s + 1) b sp)) as [Hs' Hz]; [|done|].
  - assert (alter (λ s, s + 1) b sp = <[b := s + 1]> sp) as ->.
    { apply list_eq. intros j. destruct (decide (j = b)) as [->|]; [|by rewrite list_lookup_alter_ne, list_lookup_insert_ne].
      rewrite list_lookup_alter_eq, list_lookup_insert_eq, Hsb; [done|by eapply lookup_lt_Some]. }
    rewrite <- (list_insert_id level1 b l Hlb). apply Forall2_insert; [done|]. unfold split_ok in *.
    rewrite Forall_forall in Hl. pose proof (Hl l ltac:(by eapply list_elem_of_lookup_2)). destruct (decide (l = 0)); lia.
  - split; [done|]. assert (zsum (alter (λ s, s + 1) b sp) = zsum sp + 1); [|lia].
    clear -Hsb. revert b Hsb. induction sp as [|x sp IH]; intros [|b]; simpl; try done; intros Hb.
    + unfold zsum. simpl. lia.
    + specialize (IH b Hb). unfold zsum in *.
      change (x + foldr Z.add 0 (alter (λ s, s + 1) b sp) = x + foldr Z.add 0 sp + 1). rewrite IH. lia.
Qed.

Lemma splits_ok level1 : length level1 = 7%nat → Forall (λ l, 0 ≤ l) level1 →
  Forall2 split_ok level1 (splits level1) ∧ zsum (splits level1) ≤ 7.
Proof.
  intros Hlen Hl. unfold splits. set (sp := map (λ l, if l =? 0 then 0 else 1) level1).
  assert (0 ≤ zsum sp ≤ Z.of_nat (length level1)) as Hz.
  { unfold sp, zsum. clear. induction level1 as [|x l IH]; simpl; [lia|]. destruct (x =? 0); lia. }
  destruct (more_splits_ok (Z.to_nat (MAX_RANGE_NUMBER - zsum sp)) level1 sp) as [Hs Hsum]; [|done|].
  - unfold sp. clear. induction level1 as [|x l IH]; simpl; constructor; [|done]. unfold split_ok.
    destruct (x =? 0) eqn:E, (decide (x = 0)); bool_cases; lia.
  - split; [done|]. unfold MAX_RANGE_NUMBER in *. lia.
Qed.

Lemma mapM_sized {A} (g : nat → option (list A)) (sizes : list Z) (Q : nat → list A → Prop) :
  Forall (λ s, 0 ≤ s) sizes →
  ∀ a, (∀ i, (i < length sizes)%nat → ∃ l, g (a + i)%nat = Some l ∧ (length l ≤ Z.to_nat (sizes !!! i))%nat ∧ Q (a + i)%nat l) →
  ∃ parts, mapM g (seq a (length sizes)) = Some parts ∧ length parts = length sizes ∧
  Z.of_nat (length (concat parts)) ≤ zsum sizes ∧ ∀ i l, parts !! i = Some l → Q (a + i)%nat l.
Proof.
  induction 1 as [|s sizes Hs Hss IH]; intros a Hg; [by exists []|].
  destruct (Hg 0%nat ltac:(simpl; lia)) as (l & E & Hl & Hq). rewrite Nat.add_0_r in E, Hq. simpl in Hl.
  destruct (IH (S a)) as (parts & Ep & Hlen & Hsum & Hparts).
  { intros i Hi. destruct (Hg (S i) ltac:(simpl; lia)) as (l' & El & Hl' & Hq'). rewrite Nat.add_succ_r in El, Hq'. by exists l'. }
  exists (l :: parts). cbn [length seq mapM]. rewrite E. cbn [mbind option_bind]. rewrite Ep. split_and!; [done|simpl; lia| |].
  - simpl. rewrite length_app. unfold zsum in *. simpl. lia.
  - intros [|i] x; simpl; [intros [= <-]; by rewrite Nat.add_0_r|]. intros Hx. rewrite Nat.add_succ_r. by apply (Hparts i).
Qed.

(** ** The ranges of a tree *)

Section tree.
Context (v : list Z) (Hseg : seg_tree v).

Lemma cell_bound i : (i < 778)%nat → 0 ≤ cell v i < 2 ^ 32.
Proof.
  intros Hi. pose proof (seg_range v Hseg) as Hr. rewrite Forall_forall in Hr. apply Hr.
  apply (list_elem_of_lookup_2 _ i), cell_lookup. by rewrite (seg_size v Hseg).
Qed.

Lemma decade_node i f : (i < 7)%nat → (f < 10)%nat → cell v (700 + 10 * i + f) = cells v (100 * i + 10 * f) 10.
Proof.
  intros Hi Hf. rewrite <- Nat.add_assoc, (seg_node2 v Hseg) by lia. f_equal. lia.
Qed.

Lemma decade_total i : (i < 7)%nat → total v (100 * i) = cell v (770 + i).
Proof.
  intros Hi. rewrite (seg_node1 v Hseg i Hi). unfold total, before.
  assert (∀ n, (n ≤ 10)%nat → cells v (700 + 10 * i) n = cells v (100 * i) (10 * n)) as Hn; [|symmetry; apply (Hn 10%nat); lia].
  induction n as [|n IH]; intros Hn; [done|]. replace (S n) with (n + 1)%nat by lia. rewrite cells_app, IH by lia.
  replace (10 * (n + 1))%nat with (10 * n + 10)%nat by lia. rewrite cells_app. f_equal.
  rewrite <- decade_node by lia. unfold cells. simpl. rewrite Z.add_0_r. done.
Qed.

(** The ranges of a decade with documents. *)
Definition decade_covered (i : nat) (ranges : list (Z * Z * Z)) : Prop :=
  ∃ p leaves, before v (100 * i) p = 0 ∧ covers v (100 * i) p leaves 100 ∧
  ranges = map (λ r : Z * Z * Z, (10 ^ (Z.of_nat i + 1) * r.1.1, 10 ^ (Z.of_nat i + 1) * (r.1.2 + 1) - 1, r.2)) leaves.

Lemma value_ranges_ok sp i : Forall2 split_ok (map (λ i, cell v (770 + i)) (seq 0 7)) sp → (i < 7)%nat →
  ∃ ranges, value_ranges v sp i = Some ranges ∧ (length ranges ≤ Z.to_nat (sp !!! i))%nat ∧
  if decide (cell v (770 + i) = 0) then ranges = [] else decade_covered i ranges.
Proof.
  intros Hs Hi. pose proof (Forall2_length _ _ _ Hs) as Hlen. rewrite length_map, length_seq in Hlen. unfold value_ranges.
  destruct (lookup_lt_is_Some_2 sp i) as [s Hsi]; [lia|]. rewrite (list_lookup_total_correct _ _ _ Hsi), Hsi. cbn [mbind option_bind].
  rewrite (cell_lookup v (770 + i)) by (rewrite (seg_size v Hseg); lia). cbn [mbind option_bind].
  assert (split_ok (cell v (770 + i)) s) as Hok.
  { apply (Forall2_lookup_lr _ _ _ i _ _ Hs); [|done]. rewrite list_lookup_fmap, lookup_seq_lt by lia. done. }
  unfold split_ok in Hok. destruct (decide (cell v (770 + i) = 0)) as [E|E].
  { subst s. exists []. split_and!; [done|simpl; lia|done]. }
  rewrite (proj2 (Z.eqb_neq s 0)) by lia.
  assert (∃ b, bound_ !! S i = Some b ∧ b ÷ 100 = 10 ^ (Z.of_nat i + 1)) as (b & -> & Eb).
  { do 7 (destruct i as [|i]; [by eexists|]). lia. }
  cbn [mbind option_bind]. rewrite Eb. cbv zeta. rewrite <- decade_total in E |- * by done. pose proof (seg_size v Hseg) as Hlen'.
  destruct (decade_ranges_ok v (100 * i) (700 + 10 * i) ltac:(lia) ltac:(lia)) with (split := s) as (leaves & p & -> & Hl & Hp & Hcov); [| | |lia|].
  - intros k Hk. apply cell_bound. lia.
  - intros f Hf. by apply decade_node.
  - rewrite decade_total in E |- * by done. pose proof (cell_bound (770 + i) ltac:(lia)). lia.
  - cbn [mbind option_bind]. eexists. split; [reflexivity|]. split; [by rewrite length_map|]. by exists p, leaves.
Qed.

(** At most seven ranges, decade by decade. *)
Lemma ranges_of_ok : ∃ parts, ranges_of v = Some (concat parts) ∧ length parts = 7%nat ∧ (length (concat parts) ≤ 7)%nat ∧
  ∀ i ranges, parts !! i = Some ranges → if decide (cell v (770 + i) = 0) then ranges = [] else decade_covered i ranges.
Proof.
  unfold ranges_of. set (level1 := take LEVEL_1_OF_SEGMENT_TREE (drop (110 * LEVEL_1_OF_SEGMENT_TREE) v)).
  assert (level1 = map (λ i, cell v (770 + i)) (seq 0 7)) as El.
  { apply list_eq. intros i. unfold level1. destruct (decide (i < 7)%nat) as [Hi|Hi].
    - rewrite lookup_take_lt by done. rewrite lookup_drop, list_lookup_fmap, lookup_seq_lt by done.
      apply cell_lookup. rewrite (seg_size v Hseg). unfold LEVEL_1_OF_SEGMENT_TREE. lia.
    - rewrite !lookup_ge_None_2; [done| |]; rewrite ?length_take, ?length_map, ?length_seq; unfold LEVEL_1_OF_SEGMENT_TREE; lia. }
  destruct (splits_ok level1) as [Hs Hsum].
  { by rewrite El. }
  { rewrite El. apply Forall_map, Forall_forall. intros i Hi%elem_of_seq. apply cell_bound. lia. }
  rewrite El in Hs at 1. pose proof (Forall2_length _ _ _ Hs) as Hlen. rewrite length_map, length_seq in Hlen.
  destruct (mapM_sized (value_ranges v (splits level1)) (splits level1)
    (λ i ranges, if decide (cell v (770 + i) = 0) then ranges = [] else decade_covered i ranges)) with (a := 0%nat)
    as (parts & E & Hp & Hn & Hall).
  { apply Forall_lookup. intros i s Hi. pose proof (lookup_lt_Some _ _ _ Hi). 
    destruct (Forall2_lookup_r _ _ _ _ _ Hs Hi) as (l & _ & Hok). unfold split_ok in Hok. destruct (decide (l = 0)); lia. }
  { intros i Hi. destruct (value_ranges_ok (splits level1) i Hs) as (ranges & E & Hl & Hr); [lia|]. by exists ranges. }
  rewrite <- Hlen in E, Hp. change LEVEL_1_OF_SEGMENT_TREE with 7%nat. rewrite E. cbn [mbind option_bind].
  exists parts. split_and!; [done|done|lia|done].
Qed.
End tree.

(** ** The documents of a range *)

Section shown.
Context (t : NumericPropertyTableBase) (docs : list nat) (v : list Z) (Hseg : seg_tree v).
Context (Hleaf : ∀ i, (i < 700)%nat → cell v i = docs_in_leaf t docs i).

(** The value a document is counted with: positive values only, those beyond the
    last leaf as the last one. *)
Definition worth (d : nat) : option Z := x ← getInt32Value t d; if 0 <? x then Some (capped x) else None.

Definition between (lo hi : Z) (d : nat) : bool :=
  match worth d with Some x => (lo <=? x) && (x <=? hi) | None => false end.

Definition docs_between (lo hi : Z) : Z := Z.of_nat (length (filter (λ d, between lo hi d = true) docs)).

(** The width of the leaves of a decade. *)
Definition width (i : nat) : Z := 10 ^ (Z.of_nat i + 1).

Lemma width_pos i : 0 < width i.
Proof. apply Z.pow_pos_nonneg; lia. Qed.

Lemma width_lt i j : (i < j)%nat → 10 * width i ≤ width j.
Proof.
  intros Hij. unfold width. rewrite <- (Z.pow_1_r 10) at 1. rewrite <- Z.pow_add_r by lia. apply Z.pow_le_mono_r; lia.
Qed.

Lemma leaf_worth d : match worth d with
  | Some x => ∃ i k, doc_leaf t d = Some (100 * i + k)%nat ∧ (i < 7)%nat ∧ (k < 100)%nat ∧
      width i * Z.of_nat k ≤ x < width i * (Z.of_nat k + 1) ∧ (i = 0 ∨ 10 ≤ k)%nat
  | None => doc_leaf t d = None
  end.
Proof.
  unfold worth, doc_leaf. destruct (getInt32Value t d) as [x|]; [|done]. cbn [mbind option_bind].
  destruct (0 <? x) eqn:E; [|done]. bool_cases. destruct (leaf_of_ok x E) as (j & -> & Hj & Hin & Hlow).
  assert (j = 100 * (j / 100) + j mod 100)%nat as Ej by (apply Nat.div_mod; lia). pose proof (Nat.mod_upper_bound j 100 ltac:(lia)).
  exists (j / 100)%nat, (j mod 100)%nat. unfold in_leaf, leaf_low, atom in Hin. fold (width (j / 100)) in Hin.
  split_and!; [by rewrite <- Ej|lia|lia|lia|lia|]. destruct Hlow as [|Hlow]; [by left|right].
  replace (Z.of_nat (j / 100) + 2) with (1 + (Z.of_nat (j / 100) + 1)) in Hlow by lia.
  rewrite Z.pow_add_r in Hlow by lia. fold (width (j / 100)) in Hlow. pose proof (width_pos (j / 100)). nia.
Qed.

Lemma leaf_between i lo hi d : (i < 7)%nat → (lo ≤ hi < 100)%nat → (i = 0 ∨ 10 ≤ lo)%nat →
  leaf_in t (100 * i + lo) (S hi - lo) d = between (width i * Z.of_nat lo) (width i * (Z.of_nat hi + 1) - 1) d.
Proof.
  intros Hi Hlh Hlo. unfold leaf_in, between. pose proof (leaf_worth d) as Hd. destruct (worth d) as [x|]; [|by rewrite Hd].
  destruct Hd as (i' & k & -> & Hi' & Hk & Hx & Hk10). pose proof (width_pos i). pose proof (width_pos i').
  apply eq_true_iff_eq. rewrite !andb_true_iff, Nat.leb_le, Nat.ltb_lt, !Z.leb_le.
  destruct (lt_eq_lt_dec i' i) as [[Hlt| ->]|Hlt].
  - pose proof (width_lt i' i Hlt). split; [lia|]. intros [Hl _]. nia.
  - split; [intros [??]; nia|]. intros [??]. assert (Z.of_nat lo < Z.of_nat k + 1) by nia. assert (Z.of_nat k < Z.of_nat hi + 1) by nia. lia.
  - pose proof (width_lt i i' Hlt). split; [lia|]. intros [_ Hh]. nia.
Qed.

Lemma leaf_nonempty i k : (i < 7)%nat → (k < 100)%nat → cell v (100 * i + k) ≠ 0 → (i = 0 ∨ 10 ≤ k)%nat.
Proof.
  intros Hi Hk Hx. rewrite Hleaf in Hx by lia. unfold docs_in_leaf in Hx.
  destruct (filter _ docs) as [|d l] eqn:E; [done|].
  assert (d ∈ filter (λ d, doc_leaf t d = Some (100 * i + k)%nat) docs) as [Hd _]%list_elem_of_filter by (rewrite E; by left).
  pose proof (leaf_worth d) as Hw. destruct (worth d) as [x|]; [|congruence].
  destruct Hw as (i' & k' & Hd' & _ & ? & _ & Hor). rewrite Hd in Hd'. injection Hd' as Hd'. lia.
Qed.

(** A range of a decade. *)
Definition range_ok (i : nat) (r : Z * Z * Z) : Prop :=
  (i = 0%nat ∨ 10 * width i ≤ r.1.1) ∧ r.1.1 ≤ r.1.2 < 100 * width i ∧ 0 < r.2 ∧ r.2 = docs_between r.1.1 r.1.2.

Lemma decade_shown i ranges : (i < 7)%nat → decade_covered v i ranges →
  Forall (range_ok i) ranges ∧ StronglySorted below ranges ∧
  ∀ d x k, d ∈ docs → worth d = Some x → doc_leaf t d = Some (100 * i + k)%nat → (k < 100)%nat →
    width i * Z.of_nat k ≤ x < width i * (Z.of_nat k + 1) → Exists (λ r, r.1.1 ≤ x ≤ r.1.2) ranges.
Proof.
  intros Hi (p & leaves & Hp & Hcov & ->). fold (width i). pose proof (width_pos i) as Hw.
  assert (∀ k, (k < 100)%nat → 0 ≤ cell v (100 * i + k)) as Hpos by (intros k Hk; apply cell_bound; [done|lia]).
  split_and!.
  - apply Forall_map, Forall_forall. intros [[lo hi] n] Hr.
    destruct (proj2 (covers_in v (100 * i) p leaves 100 Hcov) lo hi n Hr) as (l & h & -> & -> & Hlh & Hh & H0l & ->).
    pose proof (leaf_nonempty i l Hi ltac:(lia) H0l) as Hl10. unfold range_ok. cbn [fst snd]. split_and!; [|nia|nia| |].
    + destruct Hl10; [by left|right]. nia.
    + pose proof (Hpos l ltac:(lia)).
      replace (S h - l)%nat with (S (h - l)) by lia. rewrite cells_S.
      pose proof (cells_pos v (S (100 * i + l)) (h - l)) as Hc. specialize (Hc ltac:(intros j Hj; apply cell_bound; [done|lia])). lia.
    + unfold cells. rewrite (map_ext_in _ (docs_in_leaf t docs)) by (intros j Hj%in_seq; apply Hleaf; lia).
      rewrite sum_docs. unfold docs_between. f_equal. f_equal. apply list_filter_iff. intros d. by rewrite leaf_between by (done || lia).
  - pose proof (covers_sorted v (100 * i) p leaves 100 Hcov) as Hs. clear -Hs Hw. induction Hs as [|r leaves Hs IH Hr]; [constructor|].
    simpl. constructor; [done|]. apply Forall_map. eapply Forall_impl; [exact Hr|]. unfold below. simpl. intros b Hb. nia.
  - intros d x k Hd Hx Hk Hk100 Hin.
    assert (cell v (100 * i + k) ≠ 0) as H0k.
    { rewrite Hleaf by lia. unfold docs_in_leaf. destruct (filter _ docs) as [|y l] eqn:E; [|simpl; lia].
      assert (d ∈ filter (λ d, doc_leaf t d = Some (100 * i + k)%nat) docs) as Hf by by apply list_elem_of_filter.
      rewrite E in Hf. by apply not_elem_of_nil in Hf. }
    assert (p ≤ k)%nat as Hpk.
    { destruct (decide (p ≤ k)%nat) as [|Hgt]; [done|]. destruct (covers_in v (100 * i) p leaves 100 Hcov) as [Hp100 _].
      pose proof (seg_size v Hseg) as Hsz. pose proof (before_le v (100 * i) 0 ltac:(lia) ltac:(lia) Hpos) as Hbl.
      pose proof (Hbl (S k) p ltac:(lia)). pose proof (Hpos k Hk100). pose proof (Hbl 0%nat k ltac:(lia)) as Hz0. change (before v (100 * i) 0) with 0 in Hz0.
      pose proof (before_S v (100 * i) 0 ltac:(lia) ltac:(lia) k). lia. }
    destruct (covers_all v (100 * i) p leaves k Hpos Hcov ltac:(lia) H0k) as (lo & hi & n & Hr & Hb).
    apply Exists_exists. eexists. split; [apply list_elem_of_fmap; eexists; split; [reflexivity|exact Hr]|]. simpl. nia.
Qed.

Lemma parts_sorted parts : ∀ a, (∀ i l, parts !! i = Some l → StronglySorted below l ∧ Forall (range_ok (a + i)) l) →
  StronglySorted below (concat parts) ∧ Forall (λ r, a = 0%nat ∨ 10 * width a ≤ r.1.1) (concat parts).
Proof.
  induction parts as [|l parts IH]; intros a Hp; simpl; [split; constructor|].
  destruct (Hp 0%nat l eq_refl) as [Hs Hl]. rewrite Nat.add_0_r in Hl.
  destruct (IH (S a)) as [Hs' Hf']; [intros i m Hi; rewrite Nat.add_succ_comm; by apply (Hp (S i))|]. split.
  - apply StronglySorted_app. split_and!; [|done|done]. intros x y Hx Hy. rewrite Forall_forall in Hl, Hf'.
    destruct (Hl x Hx) as (_ & Hx' & _). destruct (Hf' y Hy) as [|Hy']; [done|]. unfold below. pose proof (width_lt a (S a) ltac:(lia)). lia.
  - apply Forall_app. split; [eapply Forall_impl; [exact Hl|]; by intros r (? & _)|].
    eapply Forall_impl; [exact Hf'|]. intros r [|Hr]; [done|]. right. pose proof (width_lt a (S a) ltac:(lia)).
    pose proof (width_pos a). lia.
Qed.

(** The ranges are disjoint and ascending, show the documents they contain, and
    show every document. *)
Definition shows_documents (ranges : list (Z * Z * Z)) : Prop :=
  (length ranges ≤ 7)%nat ∧ StronglySorted below ranges ∧
  (∀ lo hi n, (lo, hi, n) ∈ ranges → lo ≤ hi ∧ 0 < n ∧ n = docs_between lo hi) ∧
  ∀ d x, d ∈ docs → worth d = Some x → ∃ lo hi n, (lo, hi, n) ∈ ranges ∧ lo ≤ x ≤ hi.

Lemma ranges_shown : ∃ ranges, ranges_of v = Some ranges ∧ shows_documents ranges.
Proof.
  destruct (ranges_of_ok v Hseg) as (parts & E & Hlen & Hn & Hparts). exists (concat parts).
  assert (∀ i l, parts !! i = Some l → StronglySorted below l ∧ Forall (range_ok i) l) as Hok.
  { intros i l Hi. pose proof (lookup_lt_Some _ _ _ Hi). specialize (Hparts i l Hi).
    destruct (decide (cell v (770 + i) = 0)); [subst l; split; constructor|]. destruct (decade_shown i l) as (? & ? & _); [lia|done|done]. }
  unfold shows_documents. split_and!; [done|done|by apply (parts_sorted parts 0)| |].
  - intros lo hi n (l & [i Hi]%list_elem_of_In%list_elem_of_lookup & Hr%list_elem_of_In)%list_elem_of_In%in_concat.
    destruct (Hok i l Hi) as [_ Hl]. rewrite Forall_forall in Hl. by destruct (Hl _ Hr) as (_ & [? _] & ? & ?).
  - intros d x Hd Hx. pose proof (leaf_worth d) as Hw. rewrite Hx in Hw. destruct Hw as (i & k & Hdk & Hi & Hk & Hin & _).
    destruct (lookup_lt_is_Some_2 parts i) as [l Hl]; [lia|]. specialize (Hparts i l Hl).
    assert (0 < docs_in_leaf t docs (100 * i + k)) as Hpos.
    { unfold docs_in_leaf. destruct (filter _ docs) as [|y l'] eqn:Ef; [|simpl; lia].
      assert (d ∈ filter (λ d, doc_leaf t d = Some (100 * i + k)%nat) docs) as Hf by by apply list_elem_of_filter.
      rewrite Ef in Hf. by apply not_elem_of_nil in Hf. }
    rewrite <- Hleaf in Hpos by lia.
    assert (0 < cell v (770 + i)) as Hnode.
    { rewrite <- decade_total by done. pose proof (cells_part v (100 * i + k) 1 (100 * i) 100) as Hp. unfold cells at 1 in Hp.
      cbn [seq map zsum foldr] in Hp. unfold total, before.
      assert (cell v (100 * i + k) + 0 ≤ cells v (100 * i) 100); [|lia]. apply Hp; [|lia|lia]. intros j Hj. apply cell_bound; [done|lia]. }
    destruct (decide (cell v (770 + i) = 0)); [lia|]. destruct (decade_shown i l Hi Hparts) as (_ & _ & Hall).
    destruct (proj1 (Exists_exists _ _) (Hall d x k Hd Hx Hdk Hk Hin)) as ([[lo hi] m] & Hr & Hb). exists lo, hi, m. split; [|done].
    apply list_elem_of_In, in_concat. exists l. split; apply list_elem_of_In; [by eapply list_elem_of_lookup_2|done].
Qed.
End shown.

(** C35: The ranges shown for a numeric property ([toOntologyRepItemList]): at
    most seven ranges unless more decades hold values, disjoint and ascending,
    each with the number of documents with a positive value in it, values from
    1,000,000,000 on taken as 999,999,999 (documents with a value of zero or
    less are counted nowhere, not even in the range that begins at 0), and
    together they cover every document that was counted. All scans of the
    vector end within it. *)
Theorem range_labels {U} (u_of_string : string → U) t prop docs (r : GroupRep U) : docs_valued t docs < 2 ^ 32 →
  ∃ c v ranges, foldM (λ c d, range_addDoc d c) (range_counter_new prop t) docs = Some c ∧
  range_getGroupRep c r = Some (Rep (stringGroupRep_ r) (numericGroupRep_ r) (numericRangeGroupRep_ r ++ [(prop, v)]),
    RangeCounter prop t []) ∧
  range_items u_of_string (prop, v) =
    Some (new_item 0 (u_of_string prop) 0 (docs_valued t docs) :: map (range_label u_of_string) ranges) ∧
  shows_documents t docs ranges.
Proof.
  intros Hb. destruct (range_counts_documents t U prop docs r Hb) as (c & v & r' & Hc & Hr & -> & Hseg & Hleaf & Htot & _).
  destruct (ranges_shown t docs v Hseg Hleaf) as (ranges & E & Hs). exists c, v, ranges. split_and!; [done|done| |done].
  unfold range_items. simpl. rewrite last_lookup, (seg_size v Hseg). simpl. rewrite (cell_lookup v 777) by (rewrite (seg_size v Hseg); lia).
  cbn [mbind option_bind]. by rewrite E, Htot.
Qed.

Lemma range_labels_witness :
  let values := [1; 25; 25; 12345; 0; 400; 420] in
  let t := NumTable (λ d, nth_error values d) (λ _, None) (λ _, None) in
  ∃ c v, foldM (λ c d, range_addDoc d c) (range_counter_new "Price" t) (seq 0 7) = Some c ∧
  range_getGroupRep c (rep_new (U := string)) = Some (Rep [] [] [("Price", v)], RangeCounter "Price" t []) ∧
  range_items (λ s, s) ("Price", v) = Some [new_item 0 "Price" 0 6; new_item 1 "0-9" 0 1; new_item 1 "20-29" 0 2;
    new_item 1 "400-409" 0 1; new_item 1 "420-429" 0 1; new_item 1 "12000-12999" 0 1]%string.
Proof.
  intros values t. destruct (range_labels (λ s : string, s) t "Price" (seq 0 7) rep_new) as (c & v & ranges & Hc & Hr & Hi & _).
  { vm_compute. reflexivity. }
  exists c, v. split; [exact Hc|]. split; [exact Hr|].
  assert ((c ← foldM (λ c d, range_addDoc d c) (range_counter_new "Price" t) (seq 0 7);
    rc ← range_getGroupRep c (rep_new (U := string));
    mapM (range_items (λ s, s)) (numericRangeGroupRep_ rc.1)) = Some [[new_item 0 "Price" 0 6; new_item 1 "0-9" 0 1; new_item 1 "20-29" 0 2;
    new_item 1 "400-409" 0 1; new_item 1 "420-429" 0 1; new_item 1 "12000-12999" 0 1]]%string) as Hrun by (vm_compute; reflexivity).
  rewrite Hc in Hrun. cbn [mbind option_bind] in Hrun. rewrite Hr in Hrun. cbn [mbind option_bind fst numericRangeGroupRep_ mapM] in Hrun.
  cbn [app rep_new numericRangeGroupRep_ mapM] in Hrun. rewrite Hi in Hrun |- *. cbn [mbind option_bind mret option_ret] in Hrun.
  injection Hrun as Hrun. by rewrite Hrun.
Defined.
