(* ===== verification/GroupResize.v ===== *)
(** * Shortening the lists of groups ([mining-manager/group-manager/GroupRep.cpp])

    [toOntologyRepItemList] turns the counts by number and by range into labels;
    [ResizeTo] keeps, for every property, the labels of the first level whose
    count is among the greatest ones, with everything below them.  The theorem
    says which labels stay: those that fewer than the number asked for exceed.

    [UString] is converted from and to UTF-8 by parameters. *)
From S2P Require Import Prelude CNum OrderedMap GroupRep GroupMerge GroupNumeric GroupRange Phrases.

(** ** [formatNumericToUStr]: two decimals, as [std::fixed] prints them *)

(** The hundredths of a number, rounded to the nearest, ties to even. *)
Definition hundredths (m : positive) (e : Z) : Z :=
  if 0 <=? e then 100 * Z.shiftl (Z.pos m) e
  else
    let unit := 2 ^ (- e) in
    let q := 100 * Z.pos m / unit in
    let r := (100 * Z.pos m) `mod` unit in
    if 2 * r <? unit then q else if unit <? 2 * r then q + 1 else if Z.even q then q else q + 1.

Definition two_digits (n : Z) : string := pretty (n / 10) +:+ pretty (n `mod` 10).

Definition fixed2 (n : Z) : string := pretty (n / 100) +:+ "." +:+ two_digits (n `mod` 100).

Definition sign_text (s : bool) : string := if s then "-" else EmptyString.

Definition format_numeric (value : double) : string :=
  match value with
  | S754_zero s => sign_text s +:+ fixed2 0
  | S754_finite s m e => sign_text s +:+ fixed2 (hundredths m e)
  | S754_infinity s => sign_text s +:+ "inf"
  | S754_nan => "nan"
  end.

Section resize.
Context {U : Type} (u_of_string : string → U) (u_to_string : U → string).

(** ** [toOntologyRepItemList] *)

Definition numeric_items (pl : string * list (double * Z)) : list (RepItem U) :=
  let items := map (λ e : double * Z, new_item 1 (u_of_string (format_numeric e.1)) 0 e.2) pl.2 in
  let count := fold_left (λ n (e : double * Z), u32 (n + e.2)) pl.2 0 in
  new_item 0 (u_of_string pl.1) 0 count :: items.

Definition toOntologyRepItemList (r : GroupRep U) : option (GroupRep U) :=
  let items := concat (map numeric_items (numericGroupRep_ r)) in
  ranges ← mapM (range_items u_of_string) (numericRangeGroupRep_ r);
  Some (Rep (stringGroupRep_ r ++ items ++ concat ranges) [] []).

(** ** [ResizeTo] *)

(** The queue whose top is the least count, as the ascending list. *)
Fixpoint q_push (x : Z) (q : list Z) : list Z :=
  match q with [] => [x] | y :: q' => if y <? x then y :: q_push x q' else x :: q end.

Record tops := Tops { t_queues : list (list Z); t_grouptop : Z }.

(** [(size_t)grouptop] *)
Definition count_of_top (grouptop : Z) : Z := u64 grouptop.

(** One item of the first pass.  The log line reads the top of the queue of the
    property before. *)
Definition top_step (grouptop_for_props : string → option Z) (n : nat) (s : tops) (it : RepItem U) : option tops :=
  s ← (if level it =? 0 then
         _ ← match last (t_queues s) with Some q => head q | None => Some 0 end;
         Some (Tops (t_queues s ++ [[]]) (default (i32 (Z.of_nat n)) (grouptop_for_props (u_to_string (text it)))))
       else if level it =? 1 then
         q ← last (t_queues s);
         Some (Tops (removelast (t_queues s) ++ [q_push (doc_count it) q]) (t_grouptop s))
       else Some s);
  q ← last (t_queues s);
  if count_of_top (t_grouptop s) <? Z.of_nat (length q) then
    Some (Tops (removelast (t_queues s) ++ [tail q]) (t_grouptop s))
  else Some s.

(** The second pass: the items kept, those behind [prop_erase_start], and whether
    they are to be removed. *)
Record erasing := Erasing { e_kept : list (RepItem U); e_from : list (RepItem U); e_index : nat; e_remove : bool }.

Definition e_add (it : RepItem U) (s : erasing) : erasing :=
  if e_remove s then Erasing (e_kept s) (e_from s ++ [it]) (e_index s) true
  else Erasing (e_kept s ++ [it]) (e_from s) (e_index s) false.

(** [stringGroupRep_.erase(prop_erase_start, it)] *)
Definition e_erase (s : erasing) : erasing :=
  if e_remove s then Erasing (e_kept s) [] (e_index s) false else s.

(** [e_index] is [prop_index + 1]. *)
Definition erase_step (queues : list (list Z)) (s : erasing) (it : RepItem U) : option erasing :=
  if level it =? 0 then
    let s := e_erase s in
    Some (e_add it (Erasing (e_kept s) (e_from s) (S (e_index s)) (e_remove s)))
  else if level it =? 1 then
    let s := e_erase s in
    match e_index s with
    | O => None
    | S prop_index =>
        q ← queues !! prop_index; top ← head q;
        if doc_count it <? top then Some (Erasing (e_kept s) [it] (e_index s) true)
        else Some (e_add it s)
    end
  else Some (e_add it s).

Definition ResizeTo (grouptop_for_props : string → option Z) (r : GroupRep U) : option (GroupRep U) :=
  r ← toOntologyRepItemList r;
  let l := stringGroupRep_ r in
  s ← foldM (top_step grouptop_for_props (length l)) (Tops [] (i32 (Z.of_nat (length l)))) l;
  e ← foldM (erase_step (t_queues s)) (Erasing [] [] 0 false) l;
  Some (Rep (e_kept e) (numericGroupRep_ r) (numericRangeGroupRep_ r)).

(** ** The queue keeps the greatest counts *)

Definition top_k (k : Z) (s : list Z) : list Z := drop (length s - Z.to_nat k) s.

Definition exceeding (c : Z) (cs : list Z) : Z := Z.of_nat (length (filter (λ x, c < x) cs)).

Lemma q_push_perm x q : q_push x q ≡ₚ x :: q.
Proof.
  induction q as [|y q IH]; [done|]. simpl. destruct (y <? x); [|done]. rewrite IH. apply perm_swap.
Qed.

Lemma length_q_push x q : length (q_push x q) = S (length q).
Proof. by rewrite (q_push_perm x q). Qed.

Lemma q_push_sorted x q : StronglySorted Z.le q → StronglySorted Z.le (q_push x q).
Proof.
  induction 1 as [|y q Hq IH Hy]; [by repeat constructor|]. simpl. destruct (y <? x) eqn:E; bool_cases.
  - constructor; [done|]. rewrite q_push_perm. constructor; [lia|done].
  - constructor; [by constructor|]. constructor; [done|]. eapply Forall_impl; [exact Hy|]. simpl. lia.
Qed.

Lemma q_push_front x q : Forall (λ y, x ≤ y) q → q_push x q = x :: q.
Proof. destruct 1 as [|y q Hy _]; [done|]. simpl. by rewrite (proj2 (Z.ltb_ge _ _)) by lia. Qed.

Lemma q_push_drop x s : StronglySorted Z.le s → ∀ d, (d ≤ length s)%nat → tail (q_push x (drop d s)) = drop (S d) (q_push x s).
Proof.
  induction 1 as [|y s Hs IH Hy]; intros d Hd; [by destruct d|]. destruct d as [|d].
  { cbn [drop]. by destruct (q_push x (y :: s)). }
  simpl in Hd. cbn [q_push drop].
  destruct (y <? x) eqn:E; bool_cases; cbn [drop]; [apply IH; lia|].
  rewrite q_push_front; [done|]. apply Forall_drop. eapply Forall_impl; [exact Hy|]. simpl. lia.
Qed.

Lemma top_k_push k x s : 0 < k → StronglySorted Z.le s →
  (let q := q_push x (top_k k s) in if k <? Z.of_nat (length q) then tail q else q) = top_k k (q_push x s).
Proof.
  intros Hk Hs. unfold top_k. cbv zeta. rewrite !length_q_push, length_drop.
  destruct (decide (Z.of_nat (length s) < k)).
  - rewrite (proj2 (Z.ltb_ge _ _)) by lia. replace (length s - Z.to_nat k)%nat with 0%nat by lia.
    by replace (S (length s) - Z.to_nat k)%nat with 0%nat by lia.
  - rewrite (proj2 (Z.ltb_lt _ _)) by lia. rewrite q_push_drop by (done || lia). f_equal. lia.
Qed.

Lemma exceeding_bound c l : 0 ≤ exceeding c l ≤ Z.of_nat (length l).
Proof. unfold exceeding. pose proof (length_filter (λ x, c < x) l). lia. Qed.

Lemma exceeding_all c l : Forall (λ x, c < x) l → exceeding c l = Z.of_nat (length l).
Proof.
  unfold exceeding. induction 1 as [|x l Hx _ IH]; [done|]. rewrite filter_cons_True by done. simpl. lia.
Qed.

Lemma exceeding_none c l : Forall (λ x, x ≤ c) l → exceeding c l = 0.
Proof.
  unfold exceeding. induction 1 as [|x l Hx _ IH]; [done|]. rewrite filter_cons_False by lia. done.
Qed.

Lemma top_k_top k s c : 0 < k → StronglySorted Z.le s → c ∈ s →
  ∃ top, head (top_k k s) = Some top ∧ (c <? top) = negb (exceeding c s <? k).
Proof.
  intros Hk Hs Hc. unfold top_k. set (d := (length s - Z.to_nat k)%nat).
  assert (d < length s)%nat as Hd by (destruct s; [by apply not_elem_of_nil in Hc|]; unfold d; simpl; lia).
  destruct (lookup_lt_is_Some_2 s d Hd) as [top Htop]. exists top.
  pose proof (take_drop_middle s d top Htop) as Es. rewrite (drop_S s top d Htop). split; [done|].
  assert (length (drop (S d) s) = (length s - S d)%nat) as Hl by apply length_drop.
  rewrite <- Es in Hs. apply StronglySorted_app in Hs as (Hab & _ & Hs). apply StronglySorted_cons in Hs as [Htb _].
  assert (exceeding c s = exceeding c (take d s) + (if c <? top then 1 else 0) + exceeding c (drop (S d) s)) as Eex.
  { rewrite <- Es at 1. unfold exceeding. rewrite filter_app, filter_cons, length_app.
    destruct (decide (c < top)) as [E|E], (c <? top) eqn:E'; bool_cases; simpl; lia. }
  rewrite Eex. pose proof (exceeding_bound c (take d s)). pose proof (exceeding_bound c (drop (S d) s)).
  destruct (c <? top) eqn:E; bool_cases.
  - symmetry. apply negb_true_iff, Z.ltb_ge. rewrite (exceeding_all c (drop (S d) s)).
    2:{ eapply Forall_impl; [exact Htb|]. simpl. lia. }
    destruct (decide (Z.of_nat (length s) < k)) as [Hlt|]; [exfalso|lia].
    rewrite <- Es in Hc. replace (take d s) with ([] : list Z) in Hc by (unfold d; by replace (length s - Z.to_nat k)%nat with 0%nat by lia).
    apply elem_of_cons in Hc as [->|Hc]; [lia|]. rewrite Forall_forall in Htb. specialize (Htb c Hc). lia.
  - symmetry. apply negb_false_iff, Z.ltb_lt. rewrite (exceeding_none c (take d s)); [lia|].
    apply Forall_forall. intros x Hx. specialize (Hab x top Hx ltac:(by left)). lia.
Qed.

(** ** The labels that stay *)

Definition kid_count (t : tree (U := U)) : Z := doc_count (t_item t).

(** A property whose first level is resized: labels of level 1 below a root of
    level 0, anything deeper below them. *)
Definition shaped (t : tree (U := U)) : Prop :=
  level (t_item t) = 0 ∧ t_kids t ≠ [] ∧
  Forall (λ kid, level (t_item kid) = 1 ∧ Forall (λ i, 2 ≤ level i) (flatten (t_kids kid))) (t_kids t).

Definition keep_kids (k : Z) (t : tree (U := U)) : tree (U := U) :=
  Node (t_item t) (filter (λ kid, exceeding (kid_count kid) (map kid_count (t_kids t)) < k) (t_kids t)).

Section passes.
Context (grouptop_for_props : string → option Z) (n : nat).

Definition limit_of (t : tree (U := U)) : Z :=
  count_of_top (default (i32 (Z.of_nat n)) (grouptop_for_props (u_to_string (t_text t)))).

Definition sorted_counts (t : tree (U := U)) : list Z := fold_left (λ s kid, q_push (kid_count kid) s) (t_kids t) [].

Definition queue_of (t : tree (U := U)) : list Z := top_k (limit_of t) (sorted_counts t).

Lemma sorted_counts_ok t : StronglySorted Z.le (sorted_counts t) ∧ sorted_counts t ≡ₚ map kid_count (t_kids t).
Proof.
  unfold sorted_counts. assert (∀ kids s, StronglySorted Z.le s →
    StronglySorted Z.le (fold_left (λ s (kid : tree (U := U)), q_push (kid_count kid) s) kids s) ∧
    fold_left (λ s kid, q_push (kid_count kid) s) kids s ≡ₚ map kid_count kids ++ s) as Hf.
  { induction kids as [|kid kids IH]; intros s Hs; [done|]. cbn [fold_left]. destruct (IH _ (q_push_sorted (kid_count kid) s Hs)) as [IH1 IH2].
    split; [done|]. rewrite IH2, q_push_perm. simpl. by rewrite Permutation_middle. }
  destruct (Hf (t_kids t) [] ltac:(constructor)) as [? E]. split; [done|]. by rewrite E, app_nil_r.
Qed.

Definition resizable (t : tree (U := U)) : Prop := shaped t ∧ 0 < limit_of t.

(** The label [kid] of [t] is below the top of the queue when enough others
    exceed it. *)
Lemma queue_of_ok t kid : resizable t → kid ∈ t_kids t →
  ∃ top, head (queue_of t) = Some top ∧
  (kid_count kid <? top) = negb (bool_decide (exceeding (kid_count kid) (map kid_count (t_kids t)) < limit_of t)).
Proof.
  intros [Ht Hl] Hkid. destruct (sorted_counts_ok t) as [Hs Hp].
  destruct (top_k_top (limit_of t) (sorted_counts t) (kid_count kid) Hl Hs) as (top & Htop & E).
  { rewrite Hp. by apply list_elem_of_fmap_2. }
  exists top. split; [done|]. rewrite E. f_equal.
  assert (exceeding (kid_count kid) (sorted_counts t) = exceeding (kid_count kid) (map kid_count (t_kids t))) as ->.
  { unfold exceeding. by rewrite Hp. }
  destruct (exceeding (kid_count kid) (map kid_count (t_kids t)) <? limit_of t) eqn:El; bool_cases; symmetry; [by apply bool_decide_eq_true|apply bool_decide_eq_false; lia].
Qed.

Lemma removelast_snoc {A} (l : list A) x : removelast (l ++ [x]) = l.
Proof. apply removelast_last. Qed.

(** Items below a label leave the queues alone. *)
Lemma top_deep items : Forall (λ i : RepItem U, 2 ≤ level i) items → ∀ qs q g, Z.of_nat (length q) ≤ count_of_top g →
  foldM (top_step grouptop_for_props n) (Tops (qs ++ [q]) g) items = Some (Tops (qs ++ [q]) g).
Proof.
  induction 1 as [|i items Hi _ IH]; intros qs q g Hq; [done|]. cbn [foldM]. unfold top_step at 2.
  rewrite (proj2 (Z.eqb_neq _ 0)), (proj2 (Z.eqb_neq _ 1)) by lia. cbn [mbind option_bind t_queues t_grouptop].
  rewrite last_snoc. cbn [mbind option_bind]. rewrite (proj2 (Z.ltb_ge _ _)) by lia. cbn [mbind option_bind]. by apply IH.
Qed.

Lemma length_top_k k s : 0 < k → Z.of_nat (length (top_k k s)) ≤ k.
Proof. intros Hk. unfold top_k. rewrite length_drop. lia. Qed.

Lemma flat_node t : flat (U := U) t = t_item t :: flatten (t_kids t).
Proof. by destruct t. Qed.

Lemma top_kids qs g kids : 0 < count_of_top g →
  Forall (λ kid : tree (U := U), level (t_item kid) = 1 ∧ Forall (λ i, 2 ≤ level i) (flatten (t_kids kid))) kids →
  ∀ s, StronglySorted Z.le s →
  foldM (top_step grouptop_for_props n) (Tops (qs ++ [top_k (count_of_top g) s]) g) (flatten kids) =
    Some (Tops (qs ++ [top_k (count_of_top g) (fold_left (λ s kid, q_push (kid_count kid) s) kids s)]) g).
Proof.
  intros Hg. induction 1 as [|kid kids [Hk Hdeep] _ IH]; intros s Hs; [done|].
  rewrite flatten_cons, flat_node. cbn [app foldM fold_left]. unfold top_step at 2. rewrite Hk. change (1 =? 0) with false. change (1 =? 1) with true. cbn [t_queues t_grouptop].
  rewrite last_snoc. cbn [mbind option_bind t_queues t_grouptop]. rewrite removelast_snoc, last_snoc. cbn [mbind option_bind].
  pose proof (top_k_push (count_of_top g) (kid_count kid) s Hg Hs) as Hpush. cbv zeta in Hpush.
  pose proof (q_push_sorted (kid_count kid) s Hs) as Hs'. change (doc_count (t_item kid)) with (kid_count kid).
  destruct (count_of_top g <? Z.of_nat (length (q_push (kid_count kid) (top_k (count_of_top g) s))));
    rewrite ?removelast_snoc, Hpush; cbn [mbind option_bind]; rewrite foldM_app, top_deep by (done || by apply length_top_k);
    cbn [mbind option_bind]; by apply IH.
Qed.

Lemma top_forest f : Forall resizable f → ∀ qs g, match last qs with Some q => q ≠ [] | None => True end →
  ∃ g', foldM (top_step grouptop_for_props n) (Tops qs g) (flatten f) = Some (Tops (qs ++ map queue_of f) g').
Proof.
  induction 1 as [|t f [(Hlv & Hne & Hkids) Hlim] Hf IH]; intros qs g Hq; [exists g; by rewrite app_nil_r|].
  rewrite flatten_cons, flat_node. cbn [app foldM]. unfold top_step at 2. rewrite Hlv. change (0 =? 0) with true.
  cbn [t_queues t_grouptop]. 
  assert (∃ x, match last qs with Some q => head q | None => Some 0 end = Some x) as (x & ->).
  { destruct (last qs) as [[|x q]|]; [done|by eexists|by eexists]. }
  cbn [mbind option_bind t_queues t_grouptop]. rewrite last_snoc. cbn [mbind option_bind].
  set (g1 := default (i32 (Z.of_nat n)) (grouptop_for_props (u_to_string (text (t_item t))))).
  assert (count_of_top g1 = limit_of t) as Eg by done. cbn [length]. rewrite (proj2 (Z.ltb_ge _ _)) by (rewrite Eg; lia).
  cbn [mbind option_bind]. rewrite foldM_app. change [[]] with [top_k (count_of_top g1) []].
  rewrite top_kids by (done || by constructor). cbn [mbind option_bind]. fold (sorted_counts t). rewrite Eg. fold (queue_of t).
  destruct (IH (qs ++ [queue_of t]) g1) as (g' & E).
  { rewrite last_snoc. destruct (t_kids t) as [|kid kids] eqn:Ek; [done|].
    destruct (queue_of_ok t kid) as (top & Htop & _); [by split; [split_and!; rewrite ?Ek|]|rewrite Ek; by left|].
    by destruct (queue_of t). }
  exists g'. rewrite E. simpl. by rewrite <- app_assoc.
Qed.

(** ** The second pass *)

Lemma erase_deep queues items : Forall (λ i : RepItem U, 2 ≤ level i) items → ∀ kept from idx b,
  foldM (erase_step queues) (Erasing kept from idx b) items =
    Some (if b then Erasing kept (from ++ items) idx true else Erasing (kept ++ items) from idx false).
Proof.
  induction 1 as [|i items Hi _ IH]; intros kept from idx b; [by destruct b; rewrite !app_nil_r|]. cbn [foldM]. unfold erase_step at 2.
  rewrite (proj2 (Z.eqb_neq _ 0)), (proj2 (Z.eqb_neq _ 1)) by lia. cbn [mbind option_bind].
  unfold e_add. cbn [e_kept e_from e_index e_remove]. destruct b; rewrite IH, <- app_assoc; done.
Qed.

Lemma erase_kids queues t idx kids : resizable t → queues !! idx = Some (queue_of t) → incl kids (t_kids t) → ∀ kept from b,
  ∃ from' b', foldM (erase_step queues) (Erasing kept from (S idx) b) (flatten kids) =
    Some (Erasing (kept ++ flatten (filter (λ kid, exceeding (kid_count kid) (map kid_count (t_kids t)) < limit_of t) kids)) from' (S idx) b').
Proof.
  intros Ht Hq. induction kids as [|kid kids IH]; intros Hin kept from b; [exists from, b; by rewrite app_nil_r|].
  apply incl_cons_inv in Hin as [Hkid%list_elem_of_In Hin]. specialize (IH Hin).
  destruct (queue_of_ok t kid Ht Hkid) as (top & Htop & E). destruct (Ht) as [(_ & _ & Hall) _].
  rewrite Forall_forall in Hall. destruct (Hall kid Hkid) as [Hlv Hdeep].
  rewrite flatten_cons, flat_node. cbn [app foldM]. unfold erase_step at 2. rewrite Hlv.
  change (1 =? 0) with false. change (1 =? 1) with true. cbv iota.
  assert (∃ from1, e_erase (Erasing kept from (S idx) b) = Erasing kept from1 (S idx) false) as (from1 & ->) by (destruct b; by eexists).
  cbn [e_index e_kept e_from]. rewrite Hq. cbn [mbind option_bind]. rewrite Htop. cbn [mbind option_bind].
  change (doc_count (t_item kid)) with (kid_count kid). rewrite E, filter_cons.
  destruct (decide _) as [Hk|Hk].
  - rewrite bool_decide_true by done. cbn [negb mbind option_bind]. unfold e_add. cbn [e_kept e_from e_index e_remove].
    rewrite foldM_app, erase_deep by done. cbn [mbind option_bind].
    destruct (IH ((kept ++ [t_item kid]) ++ flatten (t_kids kid)) from1 false) as (from' & b' & ->). exists from', b'.
    rewrite flatten_cons, flat_node. by rewrite <- !app_assoc.
  - rewrite bool_decide_false by done. cbn [negb mbind option_bind]. rewrite foldM_app, erase_deep by done. cbn [mbind option_bind].
    apply IH.
Qed.

Lemma erase_forest queues f : Forall resizable f → ∀ idx, (∀ i t, f !! i = Some t → queues !! (idx + i)%nat = Some (queue_of t)) →
  ∀ kept from b, ∃ from' b', foldM (erase_step queues) (Erasing kept from idx b) (flatten f) =
    Some (Erasing (kept ++ flatten (map (λ t, keep_kids (limit_of t) t) f)) from' (idx + length f) b').
Proof.
  induction 1 as [|t f Ht _ IH]; intros idx Hq kept from b; [exists from, b; by rewrite app_nil_r, Nat.add_0_r|].
  rewrite flatten_cons, flat_node. cbn [app foldM]. unfold erase_step at 2. rewrite (proj1 (proj1 Ht)). change (0 =? 0) with true. cbv iota.
  assert (∃ from1, e_erase (Erasing kept from idx b) = Erasing kept from1 idx false) as (from1 & ->) by (destruct b; by eexists).
  cbn [mbind option_bind e_kept e_from e_index e_remove]. unfold e_add. cbn [e_kept e_from e_index e_remove]. rewrite foldM_app.
  pose proof (Hq 0%nat t eq_refl) as Hq0. rewrite Nat.add_0_r in Hq0.
  destruct (erase_kids queues t idx (t_kids t) Ht Hq0 (incl_refl _) (kept ++ [t_item t]) from1 false) as (from2 & b2 & ->). cbn [mbind option_bind].
  destruct (IH (S idx)) with (kept := (kept ++ [t_item t]) ++ flatten (t_kids (keep_kids (limit_of t) t))) (from := from2) (b := b2) as (from' & b' & E).
  { intros i x Hi. replace (S idx + i)%nat with (idx + S i)%nat by lia. by apply (Hq (S i)). }
  exists from', b'. etrans; [exact E|]. cbn [map length]. rewrite flatten_cons, flat_node, <- !app_assoc.
  by replace (idx + S (length f))%nat with (S idx + length f)%nat by lia.
Qed.
End passes.

(** ** The whole list *)

Definition numeric_tree (pl : string * list (double * Z)) : tree (U := U) :=
  Node (new_item 0 (u_of_string pl.1) 0 (fold_left (λ n (e : double * Z), u32 (n + e.2)) pl.2 0))
    (map (λ e : double * Z, Node (new_item 1 (u_of_string (format_numeric e.1)) 0 e.2) []) pl.2).

Definition range_tree (pr : string * Z * list (Z * Z * Z)) : tree (U := U) :=
  Node (new_item 0 (u_of_string pr.1.1) 0 pr.1.2) (map (λ r, Node (range_label u_of_string r) []) pr.2).

Lemma flat_leaves {A} (g : A → RepItem U) l : flatten (map (λ x, Node (g x) []) l) = map g l.
Proof. induction l as [|x l IH]; [done|]. cbn [map]. rewrite flatten_cons, flat_node. simpl. by rewrite IH. Qed.

Lemma flatten_app (f g : list (tree (U := U))) : flatten (f ++ g) = flatten f ++ flatten g.
Proof. unfold flatten. by rewrite map_app, concat_app. Qed.

Lemma numeric_items_flat ns : concat (map numeric_items ns) = flatten (map numeric_tree ns).
Proof.
  unfold flatten. rewrite map_map. f_equal. apply map_ext. intros pl. rewrite flat_node. unfold numeric_items, numeric_tree. simpl.
  by rewrite flat_leaves.
Qed.

(** The property [pv], with the total and the ranges of its tree. *)
Definition has_ranges (pv : string * list Z) (pr : string * Z * list (Z * Z * Z)) : Prop :=
  pr.1.1 = pv.1 ∧ last pv.2 = Some pr.1.2 ∧ ranges_of pv.2 = Some pr.2.

Lemma range_items_flat rs prs : Forall2 has_ranges rs prs →
  ∃ items, mapM (range_items u_of_string) rs = Some items ∧ concat items = flatten (map range_tree prs).
Proof.
  induction 1 as [|[p v] [[p' n] ranges] rs prs (E1 & E2 & E3) _ (items & E & Ec)]; [by exists []|]. simpl in *. subst p'.
  assert (range_items u_of_string (p, v) = Some (flat (range_tree (p, n, ranges)))) as E1.
  { unfold range_items. cbn [fst snd]. rewrite E2. cbn [mbind option_bind]. rewrite E3. cbn [mbind option_bind].
    rewrite flat_node. cbn [t_item t_kids range_tree fst snd]. by rewrite flat_leaves. }
  eexists. cbn [mapM]. rewrite E1. cbn [mbind option_bind]. rewrite E.
  split; [reflexivity|]. cbn [map concat]. by rewrite flatten_cons, Ec.
Qed.

(** [ResizeTo] keeps, below every property, the labels whose count is at
    least the count of the last place, with all that is below them, and
    nothing else; numbers and ranges are turned into labels first. *)
Theorem ResizeTo_keeps grouptop_for_props f ns rs prs :
  Forall2 has_ranges rs prs →
  let trees := f ++ map numeric_tree ns ++ map range_tree prs in
  Forall (resizable grouptop_for_props (length (flatten trees))) trees →
  ResizeTo grouptop_for_props (Rep (flatten f) ns rs) =
    Some (Rep (flatten (map (λ t, keep_kids (limit_of grouptop_for_props (length (flatten trees)) t) t) trees)) [] []).
Proof.
  intros Hrs trees Ht. unfold ResizeTo, toOntologyRepItemList. cbn [stringGroupRep_ numericGroupRep_ numericRangeGroupRep_].
  destruct (range_items_flat rs prs Hrs) as (items & -> & Ec). cbn [mbind option_bind stringGroupRep_ numericGroupRep_ numericRangeGroupRep_].
  rewrite numeric_items_flat, Ec, <- !flatten_app. fold trees.
  destruct (top_forest grouptop_for_props (length (flatten trees)) trees Ht [] (i32 (Z.of_nat (length (flatten trees)))) I) as (g & ->).
  cbn [mbind option_bind t_queues app].
  destruct (erase_forest grouptop_for_props (length (flatten trees)) (map (queue_of grouptop_for_props (length (flatten trees))) trees) trees Ht 0)
    with (kept := ([] : list (RepItem U))) (from := ([] : list (RepItem U))) (b := false) as (from' & b' & ->); [|done].
  intros i t Hi. simpl. by rewrite list_lookup_fmap, Hi.
Qed.
End resize.

(** ** Examples *)

Definition brand : tree (U := string) :=
  Node (new_item 0 "Brand" 0 17) [Node (new_item 1 "A" 0 5) [Node (new_item 2 "A1" 0 2) []]; Node (new_item 1 "B" 0 3) [];
    Node (new_item 1 "C" 0 8) []; Node (new_item 1 "D" 0 1) []].

Lemma ResizeTo_keeps_witness :
  let tops p := if decide (p = "Brand"%string) then Some 2 else if decide (p = "Price"%string) then Some 1 else None in
  let ns := [("Price"%string, [(d_of_Z 9, 2); (d_lit 105 1, 4)])] in
  ResizeTo (λ s : string, s) (λ s, s) tops (Rep (flatten [brand]) ns []) =
    Some (Rep [new_item 0 "Brand" 0 17; new_item 1 "A" 0 5; new_item 2 "A1" 0 2; new_item 1 "C" 0 8;
      new_item 0 "Price" 0 6; new_item 1 "10.50" 0 4]%string [] []).
Proof.
  intros tops ns. rewrite (ResizeTo_keeps (λ s : string, s) (λ s, s) tops [brand] ns [] []); [vm_compute; reflexivity|constructor|].
  repeat constructor; try discriminate; vm_compute; congruence.
Defined.

(** Labels of numbers are in the order of the numbers, not of their texts: lists
    that were turned into labels before they are merged show a number twice. *)
Lemma merge_after_resize :
  let node n := toOntologyRepItemList (λ s : string, s) (Rep [] [("Price"%string, n)] []) in
  (ours ← node [(d_of_Z 9, 1); (d_of_Z 10, 1)]; other ← node [(d_of_Z 10, 1)]; ro ← merge ours other;
   Some (map text (stringGroupRep_ ro.1))) = Some ["Price"; "10.00"; "9.00"; "10.00"]%string.
Proof. vm_compute. reflexivity. Qed.

(** The default [group_top_] of 0 next to another that is positive empties the
    queue whose top is read. *)
Lemma resize_no_top :
  let tops p := if decide (p = "Brand"%string) then Some 2 else Some 0 in
  ResizeTo (λ s : string, s) (λ s, s) tops (Rep (flatten [brand]) [("Price"%string, [(d_of_Z 9, 2)])] []) = None.
Proof. vm_compute. reflexivity. Qed.
