(* ===== verification/DateGroup.v ===== *)
(** * Dates ([mining-manager/group-manager/DateGroupTable, DateStrFormat, DateStrParser,
    DateGroupCounter, DateGroupLabel])

    A date is a 32-bit number with the year, the month and the day in bit
    fields, so that grouping by year or by month is a mask.  The theorems show
    that the fields are read back, that the label printed for a group selects
    exactly the documents counted under it, and what the counter counts.

    Boost's number parser, formatter and tokenizers are parameters. *)
From S2P Require Import Prelude CNum PropIdTable OrderedMap GroupRep DnfParser Env.
From Stdlib Require Import Ascii.

(** ** Masks and fields *)

Definition MASK_YEAR : Z := 0x7FFE0000.
Definition MASK_MONTH : Z := 0x1E000.
Definition MASK_DAY : Z := 0x1F00.
Definition MASK_YEAR_MONTH : Z := Z.lor MASK_YEAR MASK_MONTH.
Definition MASK_YEAR_MONTH_DAY : Z := Z.lor MASK_YEAR_MONTH MASK_DAY.

(** [DateValueParser] *)
Record DateValueParser := ValueParser { mask_ : Z; shift_ : Z }.

Definition extract (p : DateValueParser) (date : Z) : Z := Z.shiftr (Z.land date (mask_ p)) (shift_ p).
Definition create (p : DateValueParser) (date : Z) : Z := u32 (Z.shiftl date (shift_ p)).

(** What the constructor of [DateStrFormat] sets up. *)
Definition dateValueParsers_ : list DateValueParser :=
  [ValueParser MASK_YEAR 17; ValueParser MASK_MONTH 13; ValueParser MASK_DAY 8].
Definition dateRanges_ : list (Z * Z) := [(0, 9999); (1, 12); (1, 31)].
Definition apiDateStrFormats_ : list string := ["%|04|"; "%|04|-%|02|"; "%|04|-%|02|-%|02|"]%string.
Definition DATE_INDEX_NUM : nat := 3.

(** [None] is a vector with more than three numbers. *)
Definition createDate (dateVec : list Z) : option Z :=
  foldM (λ date i, p ← dateValueParsers_ !! i; v ← dateVec !! i; Some (Z.lor date (create p v))) 0
    (seq 0 (length dateVec)).

Definition extractDate (date : Z) : list Z := map (λ p, extract p date) dateValueParsers_.

Definition checkDateRange_ (dateVec : list Z) : bool :=
  negb ((length dateVec <? 1)%nat || (DATE_INDEX_NUM <? length dateVec)%nat) &&
  forallb (λ dr : Z * (Z * Z), (dr.2.1 <=? dr.1) && (dr.1 <=? dr.2.2)) (zip dateVec dateRanges_).

(** ** Texts *)

(** [boost::lexical_cast<uint32_t>], [boost::format], the tokenizers by
    separator and by offsets. *)
Class DateText := {
  parse_u32 : string → option Z;
  format_date : string → list Z → string;
  tokenize : string → string → list string;
  offset_tokenize : list nat → string → list string }.

Section dates.
Context `{!DateText}.

(** [dateVec] keeps the numbers read before a token that is no number. *)
Fixpoint read_tokens (tokens : list string) (dateVec : list Z) : list Z * bool :=
  match tokens with
  | [] => (dateVec, true)
  | tok :: tokens =>
      match parse_u32 tok with
      | Some date => read_tokens tokens (dateVec ++ [date])
      | None => (dateVec, false)
      end
  end.

Definition tokenizeDate_ (tokens : list string) : list Z * bool :=
  let '(dateVec, ok) := read_tokens tokens [] in (dateVec, ok && checkDateRange_ dateVec).

Definition apiDateStrToDateVec (dateStr : string) : list Z * bool := tokenizeDate_ (tokenize dateStr "-").

Definition SCD_DATE_STR_SIZE : nat := 14.

Definition scdDateStrToDateVec (dateStr : string) : list Z * bool :=
  if negb (String.length dateStr =? SCD_DATE_STR_SIZE)%nat then ([], false)
  else tokenizeDate_ (offset_tokenize [4; 2; 2]%nat dateStr).

(** The number of fields before the first zero. *)
Fixpoint nonzero_prefix (dateVec : list Z) : nat :=
  match dateVec with [] => O | v :: l => if v =? 0 then O else S (nonzero_prefix l) end.

Definition formatAPIDateStr (dateVec : list Z) : option string :=
  let lastIndex := (nonzero_prefix dateVec - 1)%nat in
  fmt ← apiDateStrFormats_ !! lastIndex;
  Some (format_date fmt (take (S lastIndex) dateVec)).

(** [DateStrParser] *)
Definition dateMasks_ : list Z := [MASK_YEAR; MASK_YEAR_MONTH; MASK_YEAR_MONTH_DAY].

Definition unitStrToMask (unitStr : string) : option Z :=
  if decide (unitStr = "Y"%string) then Some MASK_YEAR
  else if decide (unitStr = "M"%string) then Some MASK_YEAR_MONTH
  else if decide (unitStr = "D"%string) then Some MASK_YEAR_MONTH_DAY
  else None.

(** The date and the mask; [Some None] is a text that is no date. *)
Definition apiStrToDateMask (dateStr : string) : option (option (Z * Z)) :=
  let '(dateVec, ok) := apiDateStrToDateVec dateStr in
  if negb ok then Some None
  else
    date ← createDate dateVec; mask ← dateMasks_ !! (length dateVec - 1)%nat;
    Some (Some (date, mask)).

Definition scdStrToDate (scdStr : string) : option (option Z) :=
  let '(dateVec, ok) := scdDateStrToDateVec scdStr in
  if negb ok || negb (length dateVec =? DATE_INDEX_NUM)%nat then Some None
  else date ← createDate dateVec; Some (Some date).

Definition dateToAPIStr (date : Z) : option string := formatAPIDateStr (extractDate date).

(** ** The dates of documents *)

(** A set handed to [setIdList] is read in increasing order. *)
Definition date_list (dateSet : gset Z) : list Z := merge_sort Z.le (elements dateSet).

Definition setDateSet (docId : nat) (dateSet : gset Z) (t : PropIdTable) : option (PropIdTable * bool) :=
  setIdList docId (date_list dateSet) t.

Definition getDateSet (t : PropIdTable) (docId : nat) (mask : Z) : option (gset Z) :=
  dateList ← getIdList t docId;
  foldM (λ dateSet i, date ← list_at t dateList i; Some ({[Z.land date mask]} ∪ dateSet)) ∅
    (seq 0 (Z.to_nat (list_size dateList))).

(** [DateGroupLabel::test] *)
Fixpoint date_label_test (t : PropIdTable) (targetDateMasks_ : list (Z * Z)) (doc : nat) : option bool :=
  match targetDateMasks_ with
  | [] => Some false
  | (date, mask) :: targets =>
      dateSet ← getDateSet t doc mask;
      if decide (date ∈ dateSet) then Some true else date_label_test t targets doc
  end.

(** ** [DateGroupCounter<unsigned int>] *)

Record DateGroupCounter := DateCounter {
  date_table : PropIdTable; date_propName : string; date_mask : Z;
  date_countTable_ : list (Z * Z); date_totalCount_ : Z }.

Definition date_counter_new (t : PropIdTable) (propName : string) (mask : Z) : DateGroupCounter :=
  DateCounter t propName mask [] 0.

(** [++countTable_[key]] *)
Definition bump (n : option Z) : Z := u32 (default 0 n + 1).

Definition date_addDoc (doc : nat) (c : DateGroupCounter) : option DateGroupCounter :=
  dateSet ← getDateSet (date_table c) doc (date_mask c);
  let counts := fold_left (λ m d, om_update Z.ltb bump d m) (date_list dateSet) (date_countTable_ c) in
  let total := if decide (dateSet = ∅) then date_totalCount_ c else u32 (date_totalCount_ c + 1) in
  Some (DateCounter (date_table c) (date_propName c) (date_mask c) counts total).

Definition date_getStringRep {U} (u_of_string : string → U) (c : DateGroupCounter) (lvl : Z) : option (list (RepItem U)) :=
  mapM (λ e : Z * Z, dateStr ← dateToAPIStr e.1; Some (new_item lvl (u_of_string dateStr) 0 e.2)) (date_countTable_ c).

Definition date_getGroupRep {U} (u_of_string : string → U) (c : DateGroupCounter) (r : GroupRep U) : option (GroupRep U) :=
  items ← date_getStringRep u_of_string c 1;
  Some (add_items (new_item 0 (u_of_string (date_propName c)) 0 (date_totalCount_ c) :: items) r).

(** ** Bit fields *)

Definition date_fields_ok (y m d : Z) : Prop := 0 ≤ y ≤ 9999 ∧ 0 ≤ m ≤ 12 ∧ 0 ≤ d ≤ 31.

(** A date as a sum of its fields. *)
Definition encoded (y m d : Z) : Z := y * 2 ^ 17 + m * 2 ^ 13 + d * 2 ^ 8.

Lemma land_field x lo w : 0 ≤ lo → 0 ≤ w →
  Z.shiftr (Z.land x (Z.shiftl (Z.ones w) lo)) lo = (x / 2 ^ lo) `mod` 2 ^ w.
Proof.
  intros Hlo Hw. rewrite Z.shiftr_land, Z.shiftr_shiftl_l, Z.sub_diag by done.
  rewrite Z.shiftl_0_r, Z.land_ones by done. by rewrite Z.shiftr_div_pow2.
Qed.

Lemma extract_encoded y m d : date_fields_ok y m d → extractDate (encoded y m d) = [y; m; d].
Proof.
  intros (Hy & Hm & Hd). unfold extractDate, extract, dateValueParsers_. simpl map.
  change MASK_YEAR with (Z.shiftl (Z.ones 14) 17). change MASK_MONTH with (Z.shiftl (Z.ones 4) 13).
  change MASK_DAY with (Z.shiftl (Z.ones 5) 8). rewrite !land_field by done. unfold encoded.
  f_equal; [|f_equal; [|f_equal]].
  - Z.to_euclidean_division_equations. lia.
  - Z.to_euclidean_division_equations. lia.
  - Z.to_euclidean_division_equations. lia.
Qed.

Lemma lor_low a b k : 0 ≤ k → 0 ≤ b < 2 ^ k → Z.lor (a * 2 ^ k) b = a * 2 ^ k + b.
Proof.
  intros Hk Hb. symmetry. apply Z.add_nocarry_lor. apply Z.bits_inj'. intros n Hn.
  rewrite Z.land_spec, Z.bits_0. destruct (decide (n < k)) as [Hlt|Hge].
  - by rewrite Z.mul_pow2_bits_low.
  - assert (Z.testbit b n = false) as ->; [|by rewrite andb_false_r].
    apply (Z.testbit_false b n Hn). rewrite Z.div_small; [done|].
    split; [lia|]. apply Z.lt_le_trans with (2 ^ k); [lia|]. apply Z.pow_le_mono_r; lia.
Qed.

Lemma shiftl_small v k : 0 ≤ k → 0 ≤ v → v * 2 ^ k < 2 ^ 32 → u32 (Z.shiftl v k) = v * 2 ^ k.
Proof. intros Hk Hv Hlt. rewrite Z.shiftl_mul_pow2 by done. apply u32_small. lia. Qed.

(** [createDate] on the first [k] fields is the date with the others zero. *)
Lemma createDate_encoded y m d : date_fields_ok y m d →
  createDate [y] = Some (encoded y 0 0) ∧ createDate [y; m] = Some (encoded y m 0) ∧
  createDate [y; m; d] = Some (encoded y m d).
Proof.
  intros (Hy & Hm & Hd). unfold createDate. simpl. unfold create. simpl shift_. rewrite Z.lor_0_l.
  rewrite !shiftl_small by lia. unfold encoded. rewrite (lor_low y (m * 2 ^ 13) 17) by lia.
  replace (y * 2 ^ 17 + m * 2 ^ 13) with ((y * 2 ^ 4 + m) * 2 ^ 13) by lia. rewrite lor_low by lia.
  split_and!; f_equal; lia.
Qed.

Lemma land_mask x lo w : 0 ≤ lo → 0 ≤ w →
  Z.land x (Z.shiftl (Z.ones w) lo) = ((x / 2 ^ lo) `mod` 2 ^ w) * 2 ^ lo.
Proof.
  intros Hlo Hw. rewrite <- (land_field x lo w Hlo Hw). rewrite <- Z.shiftl_mul_pow2 by done.
  apply Z.bits_inj'. intros n Hn. destruct (decide (n < lo)) as [Hlt|Hge].
  - by rewrite Z.land_spec, !Z.shiftl_spec_low, andb_false_r by lia.
  - rewrite (Z.shiftl_spec (Z.shiftr _ _)) by lia. rewrite Z.shiftr_spec by lia. f_equal. lia.
Qed.

(** Masks keep the year, the year and the month, or everything. *)
Lemma land_encoded y m d : date_fields_ok y m d →
  Z.land (encoded y m d) MASK_YEAR = encoded y 0 0 ∧ Z.land (encoded y m d) MASK_YEAR_MONTH = encoded y m 0 ∧
  Z.land (encoded y m d) MASK_YEAR_MONTH_DAY = encoded y m d.
Proof.
  intros (Hy & Hm & Hd).
  change MASK_YEAR with (Z.shiftl (Z.ones 14) 17). change MASK_YEAR_MONTH with (Z.shiftl (Z.ones 18) 13).
  change MASK_YEAR_MONTH_DAY with (Z.shiftl (Z.ones 23) 8). rewrite !land_mask by done. unfold encoded.
  split_and!; Z.to_euclidean_division_equations; lia.
Qed.

(** ** The label of a group selects what is counted under it *)

Class DateTextOk : Prop := {
  pad_number : ∃ pad : nat → Z → string,
    (∀ w n, (w = 4%nat ∧ 0 ≤ n ≤ 9999) ∨ (w = 2%nat ∧ 0 ≤ n ≤ 31) → parse_u32 (pad w n) = Some n ∧ lacks "-" (pad w n)) ∧
    ∀ k fmt v, apiDateStrFormats_ !! k = Some fmt → length v = S k →
      format_date fmt v = join "-" (zip_with pad [4; 2; 2]%nat v);
  tokenize_ok : splits tokenize }.

(** A date of a document: the text of the SCD file has all fields, and the year
    is not 0. *)
Definition real_date (date : Z) : Prop :=
  ∃ y m d, date = encoded y m d ∧ 1 ≤ y ≤ 9999 ∧ 1 ≤ m ≤ 12 ∧ 1 ≤ d ≤ 31.

Definition unit_mask (mask : Z) : Prop := mask ∈ dateMasks_.

Lemma read_tokens_ok ws : ∀ v acc, Forall2 (λ s n, parse_u32 s = Some n) ws v → read_tokens ws acc = (acc ++ v, true).
Proof.
  intros v acc Hw. revert acc. induction Hw as [|s n ws v Hs _ IH]; intros acc; simpl; [by rewrite app_nil_r|].
  rewrite Hs, IH. by rewrite <- app_assoc.
Qed.

Lemma date_text_back `{!DateTextOk} k fmt v date mask :
  apiDateStrFormats_ !! k = Some fmt → dateMasks_ !! k = Some mask → length v = S k →
  Forall2 (λ w n, (w = 4%nat ∧ 0 ≤ n ≤ 9999) ∨ (w = 2%nat ∧ 0 ≤ n ≤ 31)) (take (S k) [4; 2; 2]%nat) v →
  checkDateRange_ v = true → createDate v = Some date →
  apiStrToDateMask (format_date fmt v) = Some (Some (date, mask)).
Proof.
  intros Hk Hmask Hv Hw Hr Hd. destruct pad_number as (pad & Hpad & Hfmt).
  assert (zip_with pad [4; 2; 2]%nat v = zip_with pad (take (S k) [4; 2; 2]%nat) v) as Ez.
  { apply lookup_lt_Some in Hk. simpl in Hk.
    destruct v as [|a [|b [|c [|e v]]]]; simpl in *; try lia; by injection Hv as <-. }
  unfold apiStrToDateMask, apiDateStrToDateVec, tokenizeDate_. rewrite (Hfmt k fmt v Hk Hv), Ez.
  rewrite (tokenize_ok "-"%char (zip_with pad (take (S k) [4; 2; 2]%nat) v)).
  - rewrite (read_tokens_ok _ v []); [|].
    + simpl app. rewrite Hr. simpl negb. cbn iota. rewrite Hd. cbn [mbind option_bind].
      rewrite Hv. simpl. rewrite Nat.sub_0_r, Hmask. done.
    + clear -Hw Hpad. induction Hw as [|w n ws v Hwn _ IH]; simpl; constructor; [by apply Hpad|done].
  - destruct v as [|a v]; [done|]. simpl. done.
  - clear -Hw Hpad. induction Hw as [|w n ws v Hwn _ IH]; simpl; constructor; [by apply Hpad|done].
Qed.

(** The text of a masked date is read back as the date and the mask. *)
Lemma date_label_back `{!DateTextOk} date mask : real_date date → unit_mask mask →
  ∃ s, dateToAPIStr (Z.land date mask) = Some s ∧ apiStrToDateMask s = Some (Some (Z.land date mask, mask)).
Proof.
  intros (y & m & d & -> & Hy & Hm & Hd) Hmask. unfold dateToAPIStr.
  assert (date_fields_ok y m d) as Hf by (unfold date_fields_ok; lia).
  destruct (land_encoded y m d Hf) as (E1 & E2 & E3). destruct (createDate_encoded y m d Hf) as (C1 & C2 & C3).
  unfold unit_mask, dateMasks_ in Hmask. rewrite !elem_of_cons in Hmask.
  unfold formatAPIDateStr. destruct Hmask as [->|[->|[->|Hnil]]]; [| | |by apply not_elem_of_nil in Hnil].
  - rewrite E1, extract_encoded by (unfold date_fields_ok; lia). simpl.
    rewrite (proj2 (Z.eqb_neq y 0)) by lia. simpl. eexists. split; [reflexivity|].
    apply (date_text_back 0); [done|done|done| | |done].
    + repeat constructor; lia.
    + unfold checkDateRange_. simpl. rewrite !(proj2 (Z.leb_le _ _)) by lia. done.
  - rewrite E2, extract_encoded by (unfold date_fields_ok; lia). simpl.
    rewrite (proj2 (Z.eqb_neq y 0)), (proj2 (Z.eqb_neq m 0)) by lia. simpl. eexists. split; [reflexivity|].
    apply (date_text_back 1); [done|done|done| | |done].
    + repeat constructor; lia.
    + unfold checkDateRange_. simpl. rewrite !(proj2 (Z.leb_le _ _)) by lia. done.
  - rewrite E3, extract_encoded by (unfold date_fields_ok; lia). simpl.
    rewrite (proj2 (Z.eqb_neq y 0)), (proj2 (Z.eqb_neq m 0)), (proj2 (Z.eqb_neq d 0)) by lia. simpl.
    eexists. split; [reflexivity|].
    apply (date_text_back 2); [done|done|done| | |done].
    + repeat constructor; lia.
    + unfold checkDateRange_. simpl. rewrite !(proj2 (Z.leb_le _ _)) by lia. done.
Qed.

(** ** Counting *)

Lemma getDateSet_ok t doc mask ids : id_table_ok t → ids_of t doc = Some ids →
  ∃ S, getDateSet t doc mask = Some S ∧ ∀ x, x ∈ S ↔ ∃ v, v ∈ ids ∧ x = Z.land v mask.
Proof.
  intros Hok Hd. destruct (ids_of_list t doc ids Hok Hd) as (l & El & Hsize & Hl). unfold getDateSet.
  rewrite El. cbn [mbind option_bind].
  rewrite (foldM_mapM (list_at t l) (λ S date, Some ({[Z.land date mask]} ∪ S)) _ ids _ Hl). clear.
  assert (∀ S0 : gset Z, ∃ S, foldM (λ S date, Some ({[Z.land date mask]} ∪ S)) S0 ids = Some S ∧
    ∀ x, x ∈ S ↔ x ∈ S0 ∨ ∃ v, v ∈ ids ∧ x = Z.land v mask) as Hall.
  { induction ids as [|v ids IH]; intros S0.
    - exists S0. split; [done|]. intros x. split; [by left|]. intros [|(v & ?%not_elem_of_nil & _)]; done.
    - simpl. destruct (IH ({[Z.land v mask]} ∪ S0)) as (S & E & HS). exists S. split; [done|]. intros x.
      rewrite HS, elem_of_union, elem_of_singleton. setoid_rewrite elem_of_cons. naive_solver. }
  destruct (Hall ∅) as (S & E & HS). exists S. split; [done|]. intros x. rewrite HS. set_solver.
Qed.

Definition selects (t : PropIdTable) (date mask : Z) (doc : nat) : bool :=
  match date_label_test t [(date, mask)] doc with Some b => b | None => false end.

Lemma date_label_ok t date mask doc ids : id_table_ok t → ids_of t doc = Some ids →
  ∃ S, getDateSet t doc mask = Some S ∧ date_label_test t [(date, mask)] doc = Some (selects t date mask doc) ∧
  (selects t date mask doc = true ↔ date ∈ S) ∧ ∀ x, x ∈ S ↔ ∃ v, v ∈ ids ∧ x = Z.land v mask.
Proof.
  intros Hok Hd. destruct (getDateSet_ok t doc mask ids Hok Hd) as (S & E & HS). exists S.
  unfold selects. simpl. rewrite E. cbn [mbind option_bind]. destruct (decide (date ∈ S)); naive_solver.
Qed.

#[local] Notation get := (om_get Z.ltb).

Lemma date_list_perm S : date_list S ≡ₚ elements S.
Proof. apply merge_sort_Permutation. Qed.

Lemma bump_all l : NoDup l → ∀ m, om_ok Z.ltb (λ _, True) m → let m' := fold_left (λ m d, om_update Z.ltb bump d m) l m in
  om_ok Z.ltb (λ _, True) m' ∧ ∀ x, get x m' = if decide (x ∈ l) then Some (bump (get x m)) else get x m.
Proof.
  induction 1 as [|d l Hd _ IH]; intros m Hm; simpl.
  { split; [done|]. intros x. by destruct (decide (x ∈ [])) as [?%not_elem_of_nil|]. }
  destruct (IH (om_update Z.ltb bump d m)) as [Hok Hget]; [by apply (om_update_ok Z.ltb (λ _, True))|].
  split; [done|]. intros x. rewrite Hget, !(om_get_update Z.ltb (λ _, True)) by done.
  unfold same_key. destruct (decide (x ∈ d :: l)) as [Hin|Hin]; rewrite elem_of_cons in Hin.
  - destruct (decide (x ∈ l)) as [Hl|Hl].
    + assert (d ≠ x) by congruence. assert (negb (d <? x) && negb (x <? d) = false) as ->; [|done].
      destruct (d <? x) eqn:E1, (x <? d) eqn:E2; bool_cases; try done; lia.
    + destruct Hin as [<-|]; [|done]. by rewrite Z.ltb_irrefl.
  - destruct (decide (x ∈ l)) as [|_]; [tauto|].
    assert (negb (d <? x) && negb (x <? d) = false) as ->; [|done].
    assert (d ≠ x) by (intros ->; tauto). destruct (d <? x) eqn:E1, (x <? d) eqn:E2; bool_cases; try done; lia.
Qed.

(** The documents a label selects. *)
Definition selected (t : PropIdTable) (date mask : Z) (docs : list nat) : Z :=
  Z.of_nat (length (filter (λ d, selects t date mask d = true) docs)).

Definition dated (t : PropIdTable) (docs : list nat) : Z :=
  Z.of_nat (length (filter (λ d, ids_of t d ≠ Some []) docs)).

Lemma filter_snoc_length {A} (Q : A → Prop) `{!∀ x, Decision (Q x)} l x :
  Z.of_nat (length (filter Q (l ++ [x]))) = Z.of_nat (length (filter Q l)) + if decide (Q x) then 1 else 0.
Proof. rewrite filter_app, length_app. rewrite filter_cons. destruct (decide (Q x)); simpl; lia. Qed.

Lemma bump_count n : 0 ≤ n → bump (if decide (n = 0) then None else Some (u32 n)) = u32 (n + 1).
Proof.
  intros Hn. unfold bump. destruct (decide (n = 0)) as [->|]; [done|]. simpl. unfold u32. by rewrite Zplus_mod_idemp_l.
Qed.

Lemma date_addDocs_ok t propName mask docs : id_table_ok t → Forall (λ d, is_Some (ids_of t d)) docs →
  ∃ c, foldM (λ c d, date_addDoc d c) (date_counter_new t propName mask) docs =
    Some (DateCounter t propName mask c (u32 (dated t docs))) ∧ om_ok Z.ltb (λ _, True) c ∧
  ∀ date, get date c = let n := selected t date mask docs in if decide (n = 0) then None else Some (u32 n).
Proof.
  intros Hok. induction docs as [|d docs IH] using rev_ind; intros Hd.
  { exists []. split_and!; [done|apply om_nil_ok|done]. }
  apply Forall_app in Hd as [Hds Hd]. inversion_clear Hd as [|?? [ids Hids] _].
  destruct (IH Hds) as (c & E & Hc & Hget). rewrite foldM_app, E. cbn [mbind option_bind foldM].
  destruct (getDateSet_ok t d mask ids Hok Hids) as (S & ES & HS). unfold date_addDoc. simpl date_table. simpl date_mask.
  rewrite ES. cbn [mbind option_bind].
  assert (NoDup (date_list S)) as Hnd by (rewrite date_list_perm; apply NoDup_elements).
  destruct (bump_all (date_list S) Hnd c Hc) as [Hc' Hget'].
  eexists. split; [|split; [exact Hc'|]].
  - simpl. do 2 f_equal. unfold dated. rewrite filter_snoc_length, Hids.
    destruct (decide (S = ∅)) as [HS0|HS0].
    + destruct (decide (Some ids ≠ Some [])) as [Hne|]; [|f_equal; lia]. destruct ids as [|v ids]; [done|].
      assert (Z.land v mask ∈ S) as Hin by (apply HS; exists v; split; [by left|done]). set_solver.
    + destruct (decide (Some ids ≠ Some [])) as [Hne|Hne]; [unfold u32; by rewrite Zplus_mod_idemp_l|].
      destruct Hne. intros [= ->]. apply HS0. apply set_eq. intros x. rewrite HS. split; [|set_solver].
      by intros (v & ?%not_elem_of_nil & _).
  - intros date. rewrite Hget', Hget. cbv zeta. unfold selected. rewrite filter_snoc_length.
    destruct (date_label_ok t date mask d ids Hok Hids) as (S' & ES' & _ & Hsel & _).
    rewrite ES in ES'. injection ES' as <-.
    assert (date ∈ date_list S ↔ selects t date mask d = true) as Hiff.
    { rewrite date_list_perm, elem_of_elements. symmetry. exact Hsel. }
    destruct (decide (date ∈ date_list S)) as [Hin|Hin], (decide (selects t date mask d = true)) as [Hs|Hs]; try tauto.
    + rewrite bump_count by lia. destruct (decide (_ + 1 = 0)); [lia|done].
    + by rewrite Z.add_0_r.
Qed.

(** C33: The counter of a date property, for documents with real dates (a year
    from 1 on, a month and a day): the number at a date is the number of
    documents that its label selects, where the label is the text printed for
    it ([dateToAPIStr]) as the query parser reads it ([apiStrToDateMask]);
    dates without documents are not listed. *)
Theorem date_groups `{!DateTextOk} t propName mask docs :
  id_table_ok t → unit_mask mask → Z.of_nat (length docs) < 2 ^ 32 →
  Forall (λ d, ∃ ids, ids_of t d = Some ids ∧ Forall real_date ids) docs →
  ∃ c, foldM (λ c d, date_addDoc d c) (date_counter_new t propName mask) docs =
    Some (DateCounter t propName mask c (dated t docs)) ∧
  ∀ date n, get date c = Some n ↔
    0 < n ∧ ∃ s, dateToAPIStr date = Some s ∧ apiStrToDateMask s = Some (Some (date, mask)) ∧
      n = selected t date mask docs.
Proof.
  intros Hok Hmask Hlen Hd.
  destruct (date_addDocs_ok t propName mask docs Hok) as (c & E & _ & Hget).
  { eapply Forall_impl; [exact Hd|]. intros d (ids & -> & _). by eexists. }
  assert (∀ date, 0 ≤ selected t date mask docs < 2 ^ 32) as Hsel.
  { intros date. unfold selected. pose proof (length_filter (λ d, selects t date mask d = true) docs). lia. }
  assert (0 ≤ dated t docs < 2 ^ 32) as Hdt.
  { unfold dated. pose proof (length_filter (λ d, ids_of t d ≠ Some []) docs). lia. }
  exists c. rewrite E, u32_small by done. split; [done|]. intros date n. rewrite Hget. cbv zeta.
  specialize (Hsel date). destruct (decide (selected t date mask docs = 0)) as [E0|E0].
  { split; [done|]. intros (Hn & s & _ & _ & ->). lia. }
  rewrite u32_small by done. split; [|by intros (_ & s & _ & _ & ->)]. intros [= <-]. split; [lia|].
  unfold selected in E0. destruct (filter _ docs) as [|d l] eqn:Ef; [done|].
  assert (d ∈ filter (λ d, selects t date mask d = true) docs) as Hin by (rewrite Ef; by left).
  apply list_elem_of_filter in Hin as [Hs Hin]. rewrite Forall_forall in Hd. destruct (Hd d Hin) as (ids & Hids & Hreal).
  destruct (date_label_ok t date mask d ids Hok Hids) as (S & _ & _ & Hsel' & HS).
  apply Hsel', HS in Hs as (v & Hv & ->). rewrite Forall_forall in Hreal.
  destruct (date_label_back v mask (Hreal v Hv) Hmask) as (s & Hs1 & Hs2). exists s. split_and!; [done|done|].
  unfold selected. by rewrite Ef.
Qed.
End dates.

(** ** Concrete texts *)

Definition digit (n : Z) : ascii := ascii_of_nat (48 + Z.to_nat n).

Definition decimal_pad (w : nat) (n : Z) : string :=
  String.append (if (w =? 4)%nat then String (digit (n / 1000)) (String (digit ((n / 100) `mod` 10)) EmptyString) else EmptyString)
    (String (digit ((n / 10) `mod` 10)) (String (digit (n `mod` 10)) EmptyString)).

Fixpoint decimal_parse (acc : Z) (s : string) : option Z :=
  match s with
  | EmptyString => Some acc
  | String c s =>
      let d := Z.of_nat (nat_of_ascii c) - 48 in
      if (0 <=? d) && (d <=? 9) then decimal_parse (10 * acc + d) s else None
  end.

Fixpoint cut (offsets : list nat) (s : string) : list string :=
  match offsets with [] => [] | n :: offsets => String.substring 0 n s :: cut offsets (String.substring n (String.length s) s) end.

Definition plain_date_text : DateText := {|
  parse_u32 s := if decide (s = EmptyString) then None else decimal_parse 0 s;
  format_date fmt v := join "-" (zip_with decimal_pad [4; 2; 2]%nat v);
  tokenize s sep := split_chars sep EmptyString s;
  offset_tokenize := cut |}.

Definition pad_reads (w : nat) (n : Z) : bool :=
  bool_decide (@parse_u32 plain_date_text (decimal_pad w n) = Some n ∧ dash ∉ string_chars (decimal_pad w n)).

Lemma pad_reads_all : forallb (pad_reads 4) (seqZ 0 10000) && forallb (pad_reads 2) (seqZ 0 32) = true.
Proof. vm_compute. reflexivity. Qed.

Lemma plain_date_text_ok : @DateTextOk plain_date_text.
Proof.
  split; [|exact split_chars_splits]. exists decimal_pad. split; [|done].
  intros w n Hw. pose proof pad_reads_all as Hall. apply andb_prop in Hall as [H4 H2].
  rewrite forallb_forall in H4, H2. apply (bool_decide_eq_true_1 (_ ∧ _)).
  destruct Hw as [[-> Hn]|[-> Hn]].
  - apply (H4 n). apply list_elem_of_In, elem_of_seqZ. lia.
  - apply (H2 n). apply list_elem_of_In, elem_of_seqZ. lia.
Qed.

#[local] Existing Instance plain_date_text.
#[local] Existing Instance plain_date_text_ok.

(** Document 1 has two dates in July 2012, document 2 one in 2013. *)
Definition two_dated : PropIdTable :=
  match setDateSet 1 {[encoded 2012 7 4; encoded 2012 7 9]} id_table_new with
  | Some (t, _) => match setDateSet 2 {[encoded 2013 1 1]} t with Some (t, _) => t | None => t end
  | None => id_table_new
  end.

Lemma two_dated_ok : id_table_ok two_dated.
Proof.
  change two_dated with (IdTable [0; 2147483648; 263856384] [2; 263775232; 263776512]).
  unfold id_table_ok. apply Forall_cons; split; [left; rewrite INDEX_MSB_eq; lia|].
  apply Forall_cons; split; [|apply Forall_singleton; left; rewrite INDEX_MSB_eq; lia].
  right. exists 0%nat, 2%nat. split_and!; simpl; rewrite ?INDEX_MSB_eq; try lia; done.
Qed.

(** The month of year 0 is lost: the text of the label is that of the year. *)
Lemma year_zero_label :
  dateToAPIStr (encoded 0 5 0) = Some "0000"%string ∧ apiStrToDateMask "0000-05" = Some (Some (encoded 0 5 0, MASK_YEAR_MONTH)).
Proof. split; vm_compute; reflexivity. Qed.

Lemma real_date_encoded y m d : 1 ≤ y ≤ 9999 ∧ 1 ≤ m ≤ 12 ∧ 1 ≤ d ≤ 31 → real_date (encoded y m d).
Proof. intros H. by exists y, m, d. Qed.

(** Grouped by month: two documents (one of them twice) in two months. *)
Lemma date_groups_witness :
  ∃ c, foldM (λ c d, date_addDoc d c) (date_counter_new two_dated "Date" MASK_YEAR_MONTH) [1; 2; 1]%nat =
    Some (DateCounter two_dated "Date" MASK_YEAR_MONTH c 3) ∧
  om_get Z.ltb (encoded 2012 7 0) c = Some 2 ∧
  ∃ s, apiStrToDateMask s = Some (Some (encoded 2012 7 0, MASK_YEAR_MONTH)).
Proof.
  destruct (date_groups two_dated "Date" MASK_YEAR_MONTH [1; 2; 1]%nat) as (c & E & Hget).
  - exact two_dated_ok.
  - right. left.
  - done.
  - assert (∃ ids, ids_of two_dated 1 = Some ids ∧ Forall real_date ids) as H1.
    { exists [encoded 2012 7 4; encoded 2012 7 9]. split; [vm_compute; reflexivity|].
      apply Forall_cons; split; [|apply Forall_singleton]; apply real_date_encoded; lia. }
    apply Forall_cons; split; [exact H1|]. apply Forall_cons; split; [|by apply Forall_singleton].
    exists [encoded 2013 1 1]. split; [vm_compute; reflexivity|]. apply Forall_singleton, real_date_encoded. lia.
  - exists c. split; [exact E|]. assert (om_get Z.ltb (encoded 2012 7 0) c = Some 2) as Hc.
    { vm_compute in E. injection E as <-. vm_compute. reflexivity. }
    split; [exact Hc|]. apply Hget in Hc as (_ & s & _ & Hs & _). by exists s.
Defined.
