(* ===== verification/GroupMining.v ===== *)
(** * Mining of group properties ([mining-manager/group-manager/GroupMiningTask.h])

    The text of a property becomes the values of the document: paths in a
    [PropValueTable], dates in a [DateGroupTable].  The theorems compose the
    splitter with the tables: what is written in the text is what the tables
    read for the document, and other documents keep their values. *)
From S2P Require Import Prelude CNum PropIdTable PropValueTable SplitText DateGroup.

Section mining.
Context (compact : ustring → ustring).

(** ** Paths *)

(** The loop over the paths; it stops at an exception. *)
Fixpoint insert_paths (groupPaths : list (list ustring)) (t : PropValueTable (U := ustring)) (propIdList : list Z)
    : option (PropValueTable (U := ustring) * list Z) :=
  match groupPaths with
  | [] => Some (t, propIdList)
  | path :: groupPaths =>
      '(t, r) ← insertPropValueId path t;
      match r with
      | Some pvId => insert_paths groupPaths t (propIdList ++ [pvId])
      | None => Some (t, propIdList)
      end
  end.

(** A list that does not fit is refused and only logged. *)
Definition buildDoc_ (docId : nat) (propValue : ustring) (t : PropValueTable (U := ustring)) : option (PropValueTable (U := ustring)) :=
  groupPaths ← split_group_path compact propValue;
  '(t, propIdList) ← insert_paths groupPaths t [];
  '(t, _) ← setPropIdList docId propIdList t; Some t.

(** ** Dates *)

Context `{!DateText} (convertString : ustring → string).

(** Texts that are no dates are skipped with a warning. *)
Definition read_date (dateSet : gset Z) (path : list ustring) : option (gset Z) :=
  match path with
  | [] => Some dateSet
  | text :: _ =>
      date ← scdStrToDate (convertString text);
      Some (match date with Some date => {[date]} ∪ dateSet | None => dateSet end)
  end.

Definition buildDoc_date (docId : nat) (propValue : ustring) (t : PropIdTable) : option PropIdTable :=
  groupPaths ← split_group_path compact propValue;
  dateSet ← foldM read_date ∅ groupPaths;
  '(t, _) ← setDateSet docId dateSet t; Some t.
End mining.

(** ** Paths are read back *)

(** The paths of a document; an id bounds the depth of its walk. *)
Definition doc_paths (t : PropValueTable (U := ustring)) (d : nat) : option (list (list ustring)) :=
  ids ← ids_of (valueIdTable_ t) d; mapM (λ id, propValuePath (Z.to_nat id) t id []) ids.

Lemma insert_loop_size path : ∀ pv (t : PropValueTable (U := ustring)) t' r, insert_loop pv path t = Some (t', r) →
  value_num t' ≤ value_num t + Z.of_nat (length path).
Proof.
  induction path as [|x path IH]; intros pv t t' r E; cbn [insert_loop] in E; [injection E as -> _; simpl; lia|].
  destruct (vat (childMapTable_ t) pv) as [m|]; [|done]. cbn [mbind option_bind] in E. cbn [length].
  destruct (m !! x) as [id|]; [apply IH in E; lia|]. cbv zeta in E. destruct (negb _) in E; [|injection E as -> _; lia].
  apply IH in E. unfold value_num in *. simpl in E. rewrite length_app in E. simpl in E. lia.
Qed.

Definition nodes (paths : list (list ustring)) : Z := Z.of_nat (length (concat paths)).

Lemma at_path_reads (t : PropValueTable (U := ustring)) id path : table_ok t → at_path t id path →
  propValuePath (Z.to_nat id) t id [] = Some path.
Proof.
  intros Hok Hp. unfold propValuePath. rewrite (path_loop_ok t id path Hp) by by apply (at_path_length t Hok).
  simpl. by rewrite reverse_involutive.
Qed.

Lemma insert_paths_ok paths : ∀ (t : PropValueTable (U := ustring)) ids done_paths,
  table_ok t → Forall2 (at_path t) ids done_paths → value_num t + nodes paths < 2 ^ 32 →
  ∃ t' ids', insert_paths paths t ids = Some (t', ids') ∧ table_ok t' ∧ valueIdTable_ t' = valueIdTable_ t ∧
  Forall2 (at_path t') ids' (done_paths ++ paths) ∧ (∀ id p, at_path t id p → at_path t' id p) ∧
  value_num t' ≤ value_num t + nodes paths.
Proof.
  induction paths as [|path paths IH]; intros t ids done_paths Hok Hids Hn.
  { exists t, ids. rewrite app_nil_r. split_and!; try done. unfold nodes. simpl. lia. }
  unfold nodes in *. cbn [concat insert_paths] in *. rewrite length_app in *. unfold insertPropValueId.
  destruct (insert_loop_ok path t 0 [] Hok (at_root t)) as (t1 & r & E & Hok1 & Hd1 & Hm1 & _ & Hr). rewrite E. cbn [mbind option_bind].
  apply insert_loop_size in E. destruct r as [id|]; [|lia].
  destruct (IH t1 (ids ++ [id]) (done_paths ++ [path])) as (t2 & ids2 & -> & Hok2 & Hd2 & Hids2 & Hm2 & Hs2); [done| |lia|].
  { apply Forall2_app; [|by repeat constructor]. eapply Forall2_impl; [exact Hids|]. auto. }
  rewrite <- app_assoc in Hids2. exists t2, ids2. split_and!; [done|done|by rewrite Hd2|done|by auto|lia].
Qed.

Lemma at_path_nonzero (t : PropValueTable (U := ustring)) id path : path ≠ [] → at_path t id path → 0 < id.
Proof. intros Hne Hp. by destruct Hp. Qed.

Lemma paths_nonempty compact paths s : paths_text compact paths s → Forall (λ p, p ≠ []) paths.
Proof. induction 1; repeat constructor; try done; by eapply values_text_nonempty. Qed.

Lemma reads_at_path (t : PropValueTable (U := ustring)) id path : table_ok t →
  propValuePath (Z.to_nat id) t id [] = Some path → at_path t id path.
Proof.
  intros Hok E. destruct (decide (0 ≤ id < value_num t)) as [Hid|Hid].
  - destruct (at_path_total t Hok id Hid) as [p Hp]. rewrite (at_path_reads t id p Hok Hp) in E. by injection E as <-.
  - exfalso. pose proof (ok_size t Hok). destruct (decide (id < 0)).
    + unfold propValuePath in E. replace (Z.to_nat id) with 0%nat in E by lia. simpl in E. by rewrite (proj2 (Z.eqb_neq id 0)) in E by lia.
    + unfold propValuePath in E. destruct (Z.to_nat id) as [|k] eqn:En; [lia|]. simpl in E. rewrite (proj2 (Z.eqb_neq id 0)) in E by lia.
      destruct (vat (propStrVec_ t) id) eqn:Ev; [|done]. assert (is_Some (vat (propStrVec_ t) id)) as Hv%vat_lt by by eexists.
      unfold value_num in Hid. lia.
Qed.

Lemma doc_paths_at (t : PropValueTable (U := ustring)) d ids paths : table_ok t → ids_of (valueIdTable_ t) d = Some ids →
  doc_paths t d = Some paths ↔ Forall2 (at_path t) ids paths.
Proof.
  intros Hok E. unfold doc_paths. rewrite E. cbn [mbind option_bind]. rewrite mapM_Some. split; intros H; (eapply Forall2_impl; [exact H|]).
  - intros id p. by apply reads_at_path.
  - intros id p. by apply at_path_reads.
Qed.

(** The numbers of the values fit. *)
Lemma paths_fit (t : PropValueTable (U := ustring)) tab ids paths : table_ok t → value_num t ≤ 2 ^ 31 →
  Z.of_nat (length (multiValueTable_ tab)) < 2 ^ 31 → Forall (λ p, p ≠ []) paths → Forall2 (at_path t) ids paths →
  id_overflow ids tab = false ∧ stored ids = ids ∧ Forall (λ id, 0 ≤ id) ids.
Proof.
  intros Hok Hn Hm Hne Hids. assert (Forall (λ id, 0 < id < value_num t) ids) as Hr.
  { induction Hids as [|id p ids ps Hp _ IH]; [done|]. inversion_clear Hne as [|?? Hp0 Hne']. constructor; [|by apply IH].
    pose proof (at_path_valid t Hok _ _ Hp). pose proof (at_path_nonzero t id p Hp0 Hp). lia. }
  split_and!.
  - unfold id_overflow. rewrite INDEX_MSB_eq. destruct ids as [|x [|y ids]]; [done| |apply Z.leb_gt; lia].
    inversion_clear Hr. apply Z.leb_gt. lia.
  - unfold stored. destruct ids as [|x [|y ids]]; [done| |done]. inversion_clear Hr. by rewrite (proj2 (Z.eqb_neq x 0)) by lia.
  - eapply Forall_impl; [exact Hr|]. simpl. lia.
Qed.

Lemma group_mining_ok compact t docId paths text :
  table_ok t → id_table_ok (valueIdTable_ t) → Z.of_nat docId + 1 < 2 ^ 32 → paths_text compact paths text →
  value_num t + nodes paths ≤ 2 ^ 31 → Z.of_nat (length paths) < 2 ^ 32 →
  Z.of_nat (length (multiValueTable_ (valueIdTable_ t))) < 2 ^ 31 →
  ∃ t', buildDoc_ compact docId text t = Some t' ∧ table_ok t' ∧ id_table_ok (valueIdTable_ t') ∧
  doc_paths t' docId = Some paths ∧
  ∀ d ps, d ≠ docId → doc_paths t d = Some ps → doc_paths t' d = Some ps.
Proof.
  intros Hok Hid Hdoc Htext Hn Hlen Hm. unfold buildDoc_. rewrite (split_group_path_reads compact paths text Htext). cbn [mbind option_bind].
  destruct (insert_paths_ok paths t [] []) as (t1 & ids & -> & Hok1 & Ht1 & Hids & Hmono & Hsize); [done|constructor|lia|].
  cbn [mbind option_bind app] in *. unfold setPropIdList. rewrite Ht1.
  destruct (paths_fit t1 (valueIdTable_ t) ids paths) as (Ho & Hs & Hpos); [done|lia|done|by eapply paths_nonempty|done|].
  pose proof (Forall2_length _ _ _ Hids) as Hl.
  destruct (setIdList_ok (valueIdTable_ t) docId ids) as (tab & -> & Htab & Hd); [done|done|lia|done|].
  cbn [mbind option_bind]. rewrite Ho, Hs in Hd. eexists. split; [reflexivity|].
  assert (table_ok (ValueTable (propStrVec_ t1) (parentIdVec_ t1) (childMapTable_ t1) tab)) as Hok2 by by destruct Hok1; split.
  assert (∀ id p, at_path t1 id p → at_path (ValueTable (propStrVec_ t1) (parentIdVec_ t1) (childMapTable_ t1) tab) id p) as Hsame.
  { induction 1 as [|id p s q H0 Hp Hstr _ IH]; [constructor|]. by apply (at_child _ id p). }
  split_and!; [done|done| |].
  - apply (doc_paths_at _ docId ids); [done| |].
    + simpl. destruct (Hd docId) as [-> _]. by rewrite Nat.eqb_refl.
    + eapply Forall2_impl; [exact Hids|]. done.
  - intros d ps Hne E. destruct (ids_of_total (valueIdTable_ t) d Hid) as [l El].
    apply (doc_paths_at _ d l); [done| |].
    + simpl. destruct (Hd d) as [-> _]. by rewrite (proj2 (Nat.eqb_neq _ _)).
    + rewrite (doc_paths_at t d l ps Hok El) in E. eapply Forall2_impl; [exact E|]. auto.
Qed.

(** C38: Mining a group property: every printed list of paths, each value
    plain or in quotes, is split and inserted, and the paths that the table
    then reads for the document are the paths of the text; the paths of other
    documents stay, and so does the invariant of the table. *)
Theorem group_mining_reads compact t docId paths text :
  table_ok t → id_table_ok (valueIdTable_ t) → Z.of_nat docId + 1 < 2 ^ 32 → paths_text compact paths text →
  value_num t + nodes paths ≤ 2 ^ 31 → Z.of_nat (length paths) < 2 ^ 32 →
  Z.of_nat (length (multiValueTable_ (valueIdTable_ t))) < 2 ^ 31 →
  ∃ t', buildDoc_ compact docId text t = Some t' ∧ table_ok t' ∧ id_table_ok (valueIdTable_ t') ∧
  doc_paths t' docId = Some paths ∧
  ∀ d ps, d ≠ docId → doc_paths t d = Some ps → doc_paths t' d = Some ps.
Proof. apply group_mining_ok. Qed.

(** ** Dates are read back *)

Section dates.
Context `{!DateText} (convertString : ustring → string).

Lemma scd_date s : ∃ r, scdStrToDate s = Some r ∧
  ∀ date, r = Some date → ∃ y m d, date = encoded y m d ∧ date_fields_ok y m d.
Proof.
  unfold scdStrToDate, scdDateStrToDateVec. destruct (negb (String.length s =? SCD_DATE_STR_SIZE)%nat); [by exists None|].
  unfold tokenizeDate_. destruct (read_tokens _ []) as [v ok]. destruct (ok && checkDateRange_ v) eqn:E; [|by exists None].
  apply andb_prop in E as [_ E]. simpl negb. destruct (length v =? DATE_INDEX_NUM)%nat eqn:El; [|by exists None].
  apply Nat.eqb_eq in El. destruct v as [|y [|m [|d [|? ?]]]]; try done. simpl negb. cbv iota.
  assert (date_fields_ok y m d) as Hf.
  { unfold checkDateRange_ in E. simpl in E. rewrite !andb_true_r, !andb_true_iff, !Z.leb_le in E. unfold date_fields_ok. lia. }
  cbn [orb negb]. destruct (createDate_encoded y m d Hf) as (_ & _ & ->). cbn [mbind option_bind]. eexists. split; [reflexivity|].
  intros date [= <-]. by exists y, m, d.
Qed.

(** The dates written in the paths; the rest of a path is not read. *)
Definition written_date (paths : list (list ustring)) (date : Z) : Prop :=
  ∃ s path, (s :: path) ∈ paths ∧ scdStrToDate (convertString s) = Some (Some date).

Lemma read_dates_ok paths : ∀ S0, (∀ date, date ∈ S0 → 0 ≤ date < 2 ^ 31) →
  ∃ S, foldM (read_date convertString) S0 paths = Some S ∧ (∀ date, date ∈ S ↔ date ∈ S0 ∨ written_date paths date) ∧
  (∀ date, date ∈ S → 0 ≤ date < 2 ^ 31) ∧ (size S ≤ size S0 + length paths)%nat.
Proof.
  induction paths as [|path paths IH]; intros S0 H0.
  { exists S0. split_and!; [done| |done|simpl; lia]. intros date. split; [by left|]. intros [|(s & p & Hin & _)]; [done|].
    by apply not_elem_of_nil in Hin. }
  cbn [foldM]. assert (∃ S1, read_date convertString S0 path = Some S1 ∧ (∀ date, date ∈ S1 → 0 ≤ date < 2 ^ 31) ∧ (size S1 ≤ S (size S0))%nat ∧
    ∀ date, date ∈ S1 ↔ date ∈ S0 ∨ written_date [path] date) as (S1 & E & H1 & Hs1 & Hin1).
  { unfold written_date. destruct path as [|s path]; simpl.
    { exists S0. split_and!; [done|done|lia|]. intros date. split; [by left|]. intros [|(s & p & Hin & _)]; [done|].
      rewrite list_elem_of_singleton in Hin. done. }
    destruct (scd_date (convertString s)) as (r & Er & Hr). rewrite Er. cbn [mbind option_bind].
    eexists. split; [reflexivity|]. destruct r as [x|].
    - destruct (Hr x eq_refl) as (y & m & d & -> & Hf). assert (0 ≤ encoded y m d < 2 ^ 31) by (unfold encoded, date_fields_ok in *; lia).
      split_and!; [set_solver|rewrite size_union_alt, size_singleton; pose proof (subseteq_size (S0 ∖ {[encoded y m d]}) S0 ltac:(set_solver)); lia|].
      intros date. rewrite elem_of_union, elem_of_singleton. split.
      + intros [->|]; [right|by left]. exists s, path. split; [by left|done].
      + intros [|(s' & p' & Hin & E)]; [by right|left]. rewrite list_elem_of_singleton in Hin. injection Hin as -> ->. congruence.
    - split_and!; [done|lia|]. intros date. split; [by left|]. intros [|(s' & p' & Hin & E)]; [done|].
      rewrite list_elem_of_singleton in Hin. injection Hin as -> ->. congruence. }
  rewrite E. cbn [mbind option_bind]. destruct (IH S1 H1) as (S2 & -> & Hin2 & H2 & Hs2). exists S2. split_and!; [done| |done|simpl; lia].
  intros date. rewrite Hin2, Hin1. unfold written_date. setoid_rewrite elem_of_cons. setoid_rewrite elem_of_nil. naive_solver.
Qed.

(** *)
Theorem date_mining_reads compact t docId paths text :
  id_table_ok t → Z.of_nat docId + 1 < 2 ^ 32 → paths_text compact paths text → Z.of_nat (length paths) < 2 ^ 32 →
  Z.of_nat (length (multiValueTable_ t)) < 2 ^ 31 →
  ∃ t' dates, buildDoc_date compact convertString docId text t = Some t' ∧ id_table_ok t' ∧
  (∀ date, date ∈ dates ↔ written_date paths date) ∧ NoDup dates ∧ ids_of t' docId = Some (stored dates) ∧
  ∀ d, d ≠ docId → ids_of t' d = ids_of t d.
Proof.
  intros Hok Hdoc Htext Hlen Hm. unfold buildDoc_date. rewrite (split_group_path_reads compact paths text Htext). cbn [mbind option_bind].
  destruct (read_dates_ok paths ∅) as (S & -> & Hin & Hr & Hsize); [set_solver|]. cbn [mbind option_bind]. unfold setDateSet.
  assert (∀ date, date ∈ date_list S → 0 ≤ date < 2 ^ 31) as Hd.
  { intros date Hx. apply Hr. by rewrite date_list_perm, elem_of_elements in Hx. }
  assert (length (date_list S) = size S) as Hl by (rewrite date_list_perm; done). rewrite size_empty in Hsize.
  assert (id_overflow (date_list S) t = false) as Ho.
  { unfold id_overflow. rewrite INDEX_MSB_eq. destruct (date_list S) as [|x [|y l]]; [done| |apply Z.leb_gt; lia].
    apply Z.leb_gt. apply Hd. by left. }
  destruct (setIdList_ok t docId (date_list S)) as (tab & -> & Htab & Hids); [done|done|lia| |].
  { apply Forall_forall. intros x Hx. by apply Hd. }
  cbn [mbind option_bind]. rewrite Ho in Hids. exists tab, (date_list S). split_and!; [done|done| | | |].
  - intros date. rewrite date_list_perm, elem_of_elements, Hin. set_solver.
  - rewrite date_list_perm. apply NoDup_elements.
  - destruct (Hids docId) as [-> _]. by rewrite Nat.eqb_refl.
  - intros d Hne. destruct (Hids d) as [-> _]. by rewrite (proj2 (Nat.eqb_neq _ _)).
Qed.
End dates.

(** ** Witnesses *)

Definition no_foods : PropValueTable (U := ustring) := table_new [].

Definition food_paths : list (list ustring) := [[chars "food"; chars "fruit"]; [chars "toys"]].
Definition food_text : ustring := chars "food>fruit,toys".

Lemma food_text_ok : paths_text no_compact food_paths food_text.
Proof.
  change food_text with ((chars "food" ++ GT :: chars "fruit") ++ COMMA :: chars "toys").
  repeat first [apply more_paths | apply last_path | apply more_values | apply one_value | by left | by apply plain].
Qed.

Lemma group_mining_reads_witness :
  ∃ t, buildDoc_ no_compact 4 food_text no_foods = Some t ∧ doc_paths t 4 = Some food_paths ∧ doc_paths t 2 = Some [].
Proof.
  destruct (group_mining_reads no_compact no_foods 4 food_paths food_text) as (t & E & _ & _ & Hd & Ho).
  - apply table_new_ok.
  - unfold id_table_ok. apply Forall_singleton. left. rewrite INDEX_MSB_eq. lia.
  - done.
  - exact food_text_ok.
  - vm_compute. congruence.
  - done.
  - done.
  - exists t. split; [exact E|]. split; [exact Hd|]. apply Ho; [done|]. vm_compute. reflexivity.
Defined.

(** Texts of digits only. *)
Definition to_string (s : ustring) : string := String.string_of_list_ascii (map (λ c, Ascii.ascii_of_nat (Z.to_nat c)) s).

Definition day_paths : list (list ustring) := [[chars "20120704000000"]; [chars "soon"]].

Lemma day_text_ok : paths_text no_compact day_paths (chars "20120704000000;soon").
Proof.
  change (chars "20120704000000;soon") with (chars "20120704000000" ++ SEMI_COLON :: chars "soon").
  repeat first [apply more_paths | apply last_path | apply one_value | by right | by apply plain].
Qed.

#[local] Existing Instance plain_date_text.

(** One text is a date, the other is passed over. *)
Lemma date_mining_reads_witness :
  ∃ t, buildDoc_date no_compact to_string 4 (chars "20120704000000;soon") id_table_new = Some t ∧
  ids_of t 4 = Some [encoded 2012 7 4] ∧ ids_of t 2 = Some [].
Proof.
  destruct (date_mining_reads to_string no_compact id_table_new 4 day_paths (chars "20120704000000;soon"))
    as (t & dates & E & _ & Hin & _ & Hd & Ho).
  - unfold id_table_ok. apply Forall_singleton. left. rewrite INDEX_MSB_eq. lia.
  - done.
  - exact day_text_ok.
  - done.
  - done.
  - exists t. split; [exact E|]. vm_compute in E. injection E as <-. split; [vm_compute; reflexivity|].
    rewrite Ho by done. vm_compute. reflexivity.
Defined.
