(* ===== verification/GroupFilter.v ===== *)
(** * The filter of a search with groups ([mining-manager/group-manager/GroupFilter.cpp])

    A document passes when every label accepts it.  A document that only the
    label of one property rejects is still counted for that property, so that
    the user sees what the other values would give.  The theorem states this
    for the whole search: the counter of a property has seen exactly the
    documents that all labels but its own accept.

    Counters and labels are objects behind virtual functions: the classes
    [GroupCounterOps] and [AttrCounterOps], and the tests of the labels.  A
    pointer from a label to a counter is an index into [groupCounters_]. *)
From S2P Require Import Prelude CNum GroupRep.

(** ** [GroupCounter.h] *)

Class GroupCounterOps (U C : Type) := {
  gc_addDoc : nat → C → option C;
  gc_getGroupRep : C → GroupRep U → option (GroupRep U * C);
  gc_getStringRep : C → Z → option (list (RepItem U) * C) }.

(** [AttrCounter] and [AttrScoreCounter]; [R] is [OntologyRep]. *)
Class AttrCounterOps (R A : Type) := {
  ac_addDoc : nat → A → option A;
  ac_addAttrDoc : Z → nat → A → option A;
  ac_getGroupRep : Z → A → R → option (R * A) }.

Section filter.
Context {U C R A L T : Type} `{GroupCounterOps U C, AttrCounterOps R A}.
Context (label_test : L → nat → option bool) (attr_test : T → nat → option bool) (attrNameId : T → Z).

Record GroupFilter := Filter {
  groupLabels_ : list (L * option nat);
  groupCounters_ : list C;
  attrLabels_ : list T;
  attrCounter_ : option A }.

(** The loop over labels; the inner [None] is the return at the second label
    that fails. *)
Fixpoint run_tests {X} (tst : X → option bool) (i : nat) (labels : list X) (st : bool * nat) : option (option (bool * nat)) :=
  match labels with
  | [] => Some (Some st)
  | l :: labels =>
      ok ← tst l;
      if (ok : bool) then run_tests tst (S i) labels st
      else if negb st.1 then Some None
      else run_tests tst (S i) labels (false, i)
  end.

Definition count_all (doc : nat) (f : GroupFilter) : option GroupFilter :=
  counters ← mapM (gc_addDoc doc) (groupCounters_ f);
  attr ← match attrCounter_ f with
         | Some a => a ← ac_addDoc doc a; Some (Some a)
         | None => Some None
         end;
  Some (Filter (groupLabels_ f) counters (attrLabels_ f) attr).

Definition count_attr (doc failIndex : nat) (f : GroupFilter) : option GroupFilter :=
  match attrCounter_ f with
  | Some a =>
      l ← attrLabels_ f !! failIndex; a ← ac_addAttrDoc (attrNameId l) doc a;
      Some (Filter (groupLabels_ f) (groupCounters_ f) (attrLabels_ f) (Some a))
  | None => Some f
  end.

Definition count_group (doc failIndex : nat) (f : GroupFilter) : option GroupFilter :=
  l ← groupLabels_ f !! failIndex;
  match l.2 with
  | Some k =>
      c ← groupCounters_ f !! k; c ← gc_addDoc doc c;
      Some (Filter (groupLabels_ f) (<[k := c]> (groupCounters_ f)) (attrLabels_ f) (attrCounter_ f))
  | None => Some f
  end.

Definition test (doc : nat) (f : GroupFilter) : option (bool * GroupFilter) :=
  r ← run_tests (λ l, label_test l.1 doc) 0 (groupLabels_ f) (true, 0%nat);
  match r with
  | None => Some (false, f)
  | Some (groupResult, failIndex) =>
      r ← run_tests (λ l, attr_test l doc) 0 (attrLabels_ f) (groupResult, failIndex);
      match r with
      | None => Some (false, f)
      | Some (result, failIndex) =>
          if (result : bool) then f ← count_all doc f; Some (true, f)
          else if (groupResult : bool) then f ← count_attr doc failIndex f; Some (false, f)
          else f ← count_group doc failIndex f; Some (false, f)
      end
  end.

(** The documents of a search, tested one after the other. *)
Definition test_docs (docs : list nat) (f : GroupFilter) : option (list nat * GroupFilter) :=
  foldM (λ st doc, '(ok, f) ← test doc st.2; Some (if (ok : bool) then st.1 ++ [doc] else st.1, f)) ([], f) docs.

(** ** The labels that fail *)

Fixpoint failing {X} (p : X → bool) (i : nat) (labels : list X) : list nat :=
  match labels with
  | [] => []
  | l :: labels => if p l then failing p (S i) labels else i :: failing p (S i) labels
  end.

Lemma run_tests_ok {X} (tst : X → option bool) (p : X → bool) labels : Forall (λ l, tst l = Some (p l)) labels →
  ∀ i st, run_tests tst i labels st = Some match failing p i labels with
    | [] => Some st
    | [j] => if (st.1 : bool) then Some (false, j) else None
    | _ => None
    end.
Proof.
  induction 1 as [|l labels E _ IH]; intros i st; [done|]. cbn [run_tests failing]. rewrite E. cbn [mbind option_bind].
  destruct (p l); [apply IH|]. destruct st as [[] k]; cbn [negb fst]; [|by destruct (failing p (S i) labels)].
  rewrite IH. by destruct (failing p (S i) labels) as [|? []].
Qed.

Lemma failing_nil {X} (p : X → bool) labels i : failing p i labels = [] ↔ forallb p labels = true.
Proof.
  revert i. induction labels as [|l labels IH]; intros i; [done|]. simpl. destruct (p l); simpl; [apply IH|done].
Qed.

Lemma failing_one {X} (p : X → bool) labels i j : failing p i labels = [j] →
  ∃ l, (i ≤ j)%nat ∧ labels !! (j - i)%nat = Some l ∧ p l = false ∧
  ∀ k l', labels !! k = Some l' → p l' = false → k = (j - i)%nat.
Proof.
  revert i. induction labels as [|l labels IH]; intros i; [done|]. simpl. destruct (p l) eqn:E.
  - intros Hf. destruct (IH (S i) Hf) as (x & Hle & Hx & Hpx & Hu). exists x.
    replace (j - i)%nat with (S (j - S i)) by lia. split_and!; [lia|done|done|].
    intros [|k] l' Hk Hp; [simplify_eq/=; congruence|]. f_equal. by apply (Hu k l').
  - intros [= -> Hf]. exists l. rewrite Nat.sub_diag. split_and!; [lia|done|done|].
    apply failing_nil in Hf. rewrite forallb_forall in Hf. intros [|k] l' Hk Hp; [done|].
    rewrite (Hf l') in Hp; [done|]. apply list_elem_of_In. by eapply list_elem_of_lookup_2.
Qed.

Lemma failing_many {X} (p : X → bool) labels i j k fs : failing p i labels = j :: k :: fs →
  ∃ a b x y, a ≠ b ∧ labels !! a = Some x ∧ labels !! b = Some y ∧ p x = false ∧ p y = false.
Proof.
  revert i. induction labels as [|l labels IH]; intros i; [done|]. simpl. destruct (p l) eqn:E.
  - intros Hf. destruct (IH (S i) Hf) as (a & b & x & y & Hab & Ha & Hb & Hx & Hy). exists (S a), (S b), x, y. split_and!; auto.
  - intros [= -> Hf]. assert (∃ b y, labels !! b = Some y ∧ p y = false) as (b & y & Hb & Hy).
    { clear -Hf. revert Hf. generalize (S j). induction labels as [|l labels IH]; intros n; [done|]. simpl.
      destruct (p l) eqn:E; [|intros _; by exists 0%nat, l]. intros Hf. destruct (IH (S n) Hf) as (b & y & ? & ?).
      by exists (S b), y. }
    exists 0%nat, (S b), l, y. split_and!; auto.
Qed.

(** ** What a document adds *)

Context (passes : L → nat → bool) (attr_passes : T → nat → bool).

Definition attrs_pass (f : GroupFilter) (d : nat) : bool := forallb (λ l, attr_passes l d) (attrLabels_ f).

(** Accepted by every label. *)
Definition selected (f : GroupFilter) (d : nat) : bool := forallb (λ l : L * option nat, passes l.1 d) (groupLabels_ f) && attrs_pass f d.

(** Accepted by every label but that of counter [k]. *)
Definition selected_but (k : nat) (f : GroupFilter) (d : nat) : bool :=
  forallb (λ l : L * option nat, bool_decide (l.2 = Some k) || passes l.1 d) (groupLabels_ f) && attrs_pass f d.

(** What the attributes see of a document: all of it, or only the values of the
    one attribute whose label rejects it. *)
Definition attr_event (f : GroupFilter) (d : nat) : option (option Z) :=
  if forallb (λ l : L * option nat, passes l.1 d) (groupLabels_ f) then
    match filter (λ l, attr_passes l d = false) (attrLabels_ f) with
    | [] => Some None
    | [l] => Some (Some (attrNameId l))
    | _ => None
    end
  else None.

Definition attr_count (f : GroupFilter) (a : A) (d : nat) : option A :=
  match attr_event f d with
  | None => Some a
  | Some None => ac_addDoc d a
  | Some (Some nid) => ac_addAttrDoc nid d a
  end.

(** Every counter belongs to one label at most, and no pointer dangles. *)
Record wired (f : GroupFilter) : Prop := {
  w_nodup : ∀ i j l l' k, groupLabels_ f !! i = Some l → groupLabels_ f !! j = Some l' → l.2 = Some k → l'.2 = Some k → i = j;
  w_bound : ∀ i l k, groupLabels_ f !! i = Some l → l.2 = Some k → (k < length (groupCounters_ f))%nat }.

Definition defined_at (f : GroupFilter) (d : nat) : Prop :=
  Forall (λ l : L * option nat, label_test l.1 d = Some (passes l.1 d)) (groupLabels_ f) ∧
  Forall (λ l, attr_test l d = Some (attr_passes l d)) (attrLabels_ f).

Lemma failing_filter {X} (p : X → bool) labels : ∀ i,
  Forall2 (λ j l, (i ≤ j)%nat ∧ labels !! (j - i)%nat = Some l) (failing p i labels) (filter (λ l, p l = false) labels).
Proof.
  induction labels as [|l labels IH]; intros i; [constructor|]. rewrite filter_cons. simpl.
  assert (Forall2 (λ j x, (i ≤ j)%nat ∧ (l :: labels) !! (j - i)%nat = Some x) (failing p (S i) labels) (filter (λ l, p l = false) labels)) as Hrest.
  { eapply Forall2_impl; [apply (IH (S i))|]. intros j x [Hj Hx]. split; [lia|]. by replace (j - i)%nat with (S (j - S i)) by lia. }
  destruct (p l) eqn:E.
  - destruct (decide (true = false)); [done|exact Hrest].
  - destruct (decide (false = false)); [|done]. constructor; [|exact Hrest]. split; [lia|]. by rewrite Nat.sub_diag.
Qed.

Lemma forallb_false {X} (p : X → bool) l k x : l !! k = Some x → p x = false → forallb p l = false.
Proof.
  intros Hk Hp. apply not_true_is_false. rewrite forallb_forall. intros Hall.
  rewrite (Hall x) in Hp; [done|]. apply list_elem_of_In. by eapply list_elem_of_lookup_2.
Qed.

Lemma mapM_total {X Y} (g : X → option Y) (Q : Y → Prop) (P : X → Prop) l :
  (∀ x, P x → ∃ y, g x = Some y ∧ Q y) → Forall P l →
  ∃ ys, mapM g l = Some ys ∧ Forall Q ys ∧ Forall2 (λ x y, g x = Some y) l ys.
Proof.
  intros Hg. induction 1 as [|x l Hx _ (ys & E & Hq & H2)]; [by exists []|].
  destruct (Hg x Hx) as (y & Ey & Hy). exists (y :: ys). cbn [mapM]. simpl. rewrite Ey. cbn [mbind option_bind]. rewrite E.
  split_and!; [done|by constructor|by constructor].
Qed.

(** Counters and attribute counters that count every document. *)
Context (Pc : C → Prop) (Pa : A → Prop) (D : nat → Prop).
Context (Hc : ∀ d c, D d → Pc c → ∃ c', gc_addDoc d c = Some c' ∧ Pc c').
Context (Ha : ∀ d a, D d → Pa a → ∃ a', ac_addDoc d a = Some a' ∧ Pa a').
Context (Hn : ∀ n d a, D d → Pa a → ∃ a', ac_addAttrDoc n d a = Some a' ∧ Pa a').

Definition counting (f : GroupFilter) : Prop := Forall Pc (groupCounters_ f) ∧ from_option Pa True (attrCounter_ f).

(** [f'] after the document [d]. *)
Record counted (f : GroupFilter) (d : nat) (f' : GroupFilter) : Prop := {
  cd_labels : groupLabels_ f' = groupLabels_ f;
  cd_attrs : attrLabels_ f' = attrLabels_ f;
  cd_length : length (groupCounters_ f') = length (groupCounters_ f);
  cd_counting : counting f';
  cd_counters : ∀ k c, groupCounters_ f !! k = Some c → ∃ c', groupCounters_ f' !! k = Some c' ∧
    if selected_but k f d then gc_addDoc d c = Some c' else c' = c;
  cd_attr : match attrCounter_ f with
            | Some a => ∃ a', attrCounter_ f' = Some a' ∧ attr_count f a d = Some a'
            | None => attrCounter_ f' = None
            end }.

(** Nobody counts the document. *)
Lemma counted_nothing f d : counting f → (∀ k, selected_but k f d = false) → attr_event f d = None → counted f d f.
Proof.
  intros Hok Hk He. split; [done|done|done|done| |].
  - intros k c Hkc. exists c. by rewrite Hk.
  - destruct (attrCounter_ f) as [a|]; [|done]. exists a. unfold attr_count. by rewrite He.
Qed.

Lemma count_all_ok f d : D d → counting f → (∀ k, selected_but k f d = true) → attr_event f d = Some None →
  ∃ f', count_all d f = Some f' ∧ counted f d f'.
Proof.
  intros Hd [Hcs Has] Hk He. unfold count_all.
  destruct (mapM_total (gc_addDoc d) Pc Pc (groupCounters_ f)) as (cs & -> & Hcs' & Hall); [intros c; by apply Hc|done|].
  cbn [mbind option_bind]. pose proof (Forall2_length _ _ _ Hall) as Hlen.
  assert (∀ k c, groupCounters_ f !! k = Some c → ∃ c', cs !! k = Some c' ∧
    if selected_but k f d then gc_addDoc d c = Some c' else c' = c) as Hks.
  { intros k c Hkc. rewrite Hk. by apply (Forall2_lookup_l _ _ _ _ _ Hall). }
  destruct (attrCounter_ f) as [a|] eqn:Ea.
  - destruct (Ha d a Hd Has) as (a' & E & Hpa). rewrite E. cbn [mbind option_bind]. eexists. split; [reflexivity|].
    split; simpl; [done|done|done|done|done|]. rewrite Ea. exists a'. split; [done|]. unfold attr_count. by rewrite He.
  - cbn [mbind option_bind]. eexists. split; [reflexivity|]. split; simpl; try done. by rewrite Ea.
Qed.

(** Only the attribute counter sees it, for one attribute. *)
Lemma count_attr_ok f d j l : D d → counting f → (∀ k, selected_but k f d = false) → attrLabels_ f !! j = Some l →
  attr_event f d = Some (Some (attrNameId l)) → ∃ f', count_attr d j f = Some f' ∧ counted f d f'.
Proof.
  intros Hd [Hcs Has] Hk Hj He. unfold count_attr. destruct (attrCounter_ f) as [a|] eqn:Ea.
  - rewrite Hj. cbn [mbind option_bind]. destruct (Hn (attrNameId l) d a Hd Has) as (a' & E & Hpa). rewrite E.
    cbn [mbind option_bind]. eexists. split; [reflexivity|]. split; simpl; [done|done|done|done| |].
    + intros k c Hkc. exists c. by rewrite Hk.
    + rewrite Ea. exists a'. split; [done|]. unfold attr_count. by rewrite He.
  - exists f. split; [done|]. split; [done|done|done|by split; [|rewrite Ea]| |by rewrite Ea].
    intros k c Hkc. exists c. by rewrite Hk.
Qed.

(** Only the counter of the label that fails sees it. *)
Lemma count_group_ok f d j l : D d → wired f → counting f → groupLabels_ f !! j = Some l →
  (∀ k, selected_but k f d = bool_decide (l.2 = Some k)) → attr_event f d = None →
  ∃ f', count_group d j f = Some f' ∧ counted f d f'.
Proof.
  intros Hd Hw [Hcs Has] Hj Hk He. unfold count_group. rewrite Hj. cbn [mbind option_bind].
  assert (match attrCounter_ f with Some a => ∃ a', attrCounter_ f = Some a' ∧ attr_count f a d = Some a' | None => attrCounter_ f = None end) as Hattr.
  { destruct (attrCounter_ f) as [a|]; [|done]. exists a. unfold attr_count. by rewrite He. }
  destruct (l.2) as [k|] eqn:El.
  - destruct (lookup_lt_is_Some_2 (groupCounters_ f) k) as [c Hkc]; [by apply (w_bound f Hw j l)|]. rewrite Hkc.
    cbn [mbind option_bind]. pose proof (Forall_lookup_1 _ _ _ _ Hcs Hkc) as Hpc.
    destruct (Hc d c Hd Hpc) as (c' & E & Hpc'). rewrite E. cbn [mbind option_bind]. eexists. split; [reflexivity|].
    split; simpl; [done|done|by rewrite length_insert| | |done].
    + split; [by apply Forall_insert|done].
    + intros k' x Hx. rewrite Hk. destruct (decide (k = k')) as [<-|Hne].
      * rewrite bool_decide_true by done. exists c'. assert (x = c) as -> by congruence.
        rewrite list_lookup_insert_eq by by eapply lookup_lt_Some. done.
      * rewrite bool_decide_false by congruence. exists x. by rewrite list_lookup_insert_ne.
  - exists f. split; [done|]. split; [done|done|done|done| |done].
    intros k c Hkc. exists c. by rewrite Hk.
Qed.

Lemma forallb_but f d k : forallb (λ l : L * option nat, passes l.1 d) (groupLabels_ f) = true →
  forallb (λ l : L * option nat, bool_decide (l.2 = Some k) || passes l.1 d) (groupLabels_ f) = true.
Proof. rewrite !forallb_forall. intros Hall l Hl. by rewrite (Hall l Hl), orb_true_r. Qed.

Lemma attrs_fail f d j js : failing (λ l, attr_passes l d) 0 (attrLabels_ f) = j :: js → attrs_pass f d = false.
Proof. intros Ea. unfold attrs_pass. apply not_true_is_false. by rewrite <- (failing_nil _ _ 0), Ea. Qed.

(** What a test has to do. *)
Definition test_result (f : GroupFilter) (d : nat) : Prop := ∃ f', test d f = Some (selected f d, f') ∧ counted f d f'.

Lemma test_groups_pass f d : D d → wired f → counting f → defined_at f d →
  failing (λ l : L * option nat, passes l.1 d) 0 (groupLabels_ f) = [] → test_result f d.
Proof.
  intros Hd Hw Hok [Hgd Had] Eg. unfold test_result, test.
  rewrite (run_tests_ok _ (λ l, passes l.1 d) (groupLabels_ f) Hgd), Eg. cbn [mbind option_bind].
  apply failing_nil in Eg. rewrite (run_tests_ok _ (λ l, attr_passes l d) (attrLabels_ f) Had). cbn [mbind option_bind].
  pose proof (failing_filter (λ l, attr_passes l d) (attrLabels_ f) 0) as Hf.
  assert (∀ k, selected_but k f d = attrs_pass f d) as Hbut by (intros k; unfold selected_but; by rewrite (forallb_but f d k Eg)).
  unfold selected. rewrite Eg. simpl.
  destruct (failing (λ l, attr_passes l d) 0 (attrLabels_ f)) as [|j [|j' fs]] eqn:Ea.
  + apply failing_nil in Ea. unfold attrs_pass in *. rewrite Ea in Hbut |- *.
    destruct (count_all_ok f d Hd Hok Hbut) as (f' & E & Hf').
    { unfold attr_event. rewrite Eg. by inversion Hf. }
    rewrite E. cbn [mbind option_bind]. by exists f'.
  + pose proof (attrs_fail f d _ _ Ea) as Eap.
    rewrite Eap in Hbut |- *. simpl. inversion Hf as [|? l ? ls [_ Hl] Hls Ej El]. inversion Hls; subst.
    rewrite Nat.sub_0_r in Hl. destruct (count_attr_ok f d j l Hd Hok Hbut Hl) as (f' & E & Hf').
    { unfold attr_event. rewrite Eg. by rewrite <- El. }
    rewrite E. cbn [mbind option_bind]. by exists f'.
  + pose proof (attrs_fail f d _ _ Ea) as Eap.
    rewrite Eap in Hbut |- *. exists f. split; [done|]. apply counted_nothing; [done|done|].
    unfold attr_event. rewrite Eg. inversion Hf as [|? l ? ls _ Hls Ej El]. by inversion Hls.
Qed.

Lemma test_group_fails f d i : D d → wired f → counting f → defined_at f d →
  failing (λ l : L * option nat, passes l.1 d) 0 (groupLabels_ f) = [i] → test_result f d.
Proof.
  intros Hd Hw Hok [Hgd Had] Eg. unfold test_result, test.
  rewrite (run_tests_ok _ (λ l, passes l.1 d) (groupLabels_ f) Hgd), Eg. cbn [mbind option_bind].
  destruct (failing_one _ _ _ _ Eg) as (l & _ & Hl & Hp & Hu). rewrite Nat.sub_0_r in Hl, Hu.
  assert (selected f d = false) as Es.
  { unfold selected. by rewrite (forallb_false (λ l : L * option nat, passes l.1 d) _ i l Hl Hp). }
  assert (attr_event f d = None) as He.
  { unfold attr_event. by rewrite (forallb_false (λ l : L * option nat, passes l.1 d) _ i l Hl Hp). }
  rewrite Es. simpl. rewrite (run_tests_ok _ (λ l, attr_passes l d) (attrLabels_ f) Had). cbn [mbind option_bind].
  destruct (failing (λ l, attr_passes l d) 0 (attrLabels_ f)) as [|j fs] eqn:Ea.
  + apply failing_nil in Ea. destruct (count_group_ok f d i l Hd Hw Hok Hl) as (f' & E & Hf').
    { intros k. unfold selected_but, attrs_pass. rewrite Ea, andb_true_r.
      destruct (bool_decide (l.2 = Some k)) eqn:Eb.
      - apply forallb_forall. intros x [m Hx]%list_elem_of_In%list_elem_of_lookup. destruct (passes x.1 d) eqn:Epx; [apply orb_true_r|].
        rewrite (Hu m x Hx Epx), Hl in Hx. injection Hx as <-. by rewrite Eb.
      - apply (forallb_false _ _ i l Hl). by rewrite Eb, Hp. }
    { done. }
    simpl. rewrite E. cbn [mbind option_bind]. by exists f'.
  + exists f. split; [by destruct fs|]. apply counted_nothing; [done| |done]. intros k. unfold selected_but, attrs_pass.
    assert (forallb (λ l0, attr_passes l0 d) (attrLabels_ f) = false) as ->; [|apply andb_false_r].
    apply not_true_is_false. by rewrite <- (failing_nil _ _ 0), Ea.
Qed.

Lemma test_groups_fail f d i i' js : D d → wired f → counting f → defined_at f d →
  failing (λ l : L * option nat, passes l.1 d) 0 (groupLabels_ f) = i :: i' :: js → test_result f d.
Proof.
  intros Hd Hw Hok [Hgd Had] Eg. unfold test_result, test.
  rewrite (run_tests_ok _ (λ l, passes l.1 d) (groupLabels_ f) Hgd), Eg. cbn [mbind option_bind].
  destruct (failing_many _ _ _ _ _ _ Eg) as (a & b & x & y & Hab & Hxa & Hyb & Hx & Hy).
  exists f. unfold selected at 1. rewrite (forallb_false (λ l : L * option nat, passes l.1 d) _ a x Hxa Hx). split; [done|].
  apply counted_nothing; [done| |].
  + intros k. unfold selected_but. destruct (bool_decide (x.2 = Some k)) eqn:Eb.
    * rewrite (forallb_false _ _ b y Hyb); [done|]. rewrite Hy, orb_false_r. apply bool_decide_eq_true in Eb.
      apply bool_decide_eq_false. intros Ey. by apply Hab, (w_nodup f Hw a b x y k).
    * rewrite (forallb_false _ _ a x Hxa); [done|]. by rewrite Eb, Hx.
  + unfold attr_event. by rewrite (forallb_false (λ l : L * option nat, passes l.1 d) _ a x Hxa Hx).
Qed.

Lemma test_ok f d : D d → wired f → counting f → defined_at f d → test_result f d.
Proof.
  intros Hd Hw Hok Hdef. destruct (failing (λ l : L * option nat, passes l.1 d) 0 (groupLabels_ f)) as [|i [|i' fs]] eqn:Eg.
  - by apply test_groups_pass.
  - by eapply test_group_fails.
  - by eapply test_groups_fail.
Qed.

(** The labels, and with them what [selected] and the like say, stay. *)
Lemma counted_same f d f' : counted f d f' → wired f →
  wired f' ∧ (∀ x, defined_at f x → defined_at f' x) ∧ (∀ x, selected f' x = selected f x) ∧
  (∀ k x, selected_but k f' x = selected_but k f x) ∧ (∀ a x, attr_count f' a x = attr_count f a x).
Proof.
  intros [El Ea En _ _ _] [Hnd Hb]. split_and!.
  - split; rewrite El; [done|]. intros i l k Hi Hk. rewrite En. by apply (Hb i l).
  - intros x. unfold defined_at. by rewrite El, Ea.
  - intros x. unfold selected, attrs_pass. by rewrite El, Ea.
  - intros k x. unfold selected_but, attrs_pass. by rewrite El, Ea.
  - intros a x. unfold attr_count, attr_event. by rewrite El, Ea.
Qed.

(** The whole search. *)
Lemma test_docs_ok docs : ∀ f acc, Forall D docs → wired f → counting f → Forall (defined_at f) docs →
  ∃ f', foldM (λ st doc, '(ok, f) ← test doc st.2; Some (if (ok : bool) then st.1 ++ [doc] else st.1, f)) (acc, f) docs =
    Some (acc ++ filter (λ d, selected f d = true) docs, f') ∧ counting f' ∧ length (groupCounters_ f') = length (groupCounters_ f) ∧
  (∀ k c, groupCounters_ f !! k = Some c → ∃ c', groupCounters_ f' !! k = Some c' ∧
    foldM (λ c d, gc_addDoc d c) c (filter (λ d, selected_but k f d = true) docs) = Some c') ∧
  match attrCounter_ f with
  | Some a => ∃ a', attrCounter_ f' = Some a' ∧ foldM (attr_count f) a docs = Some a'
  | None => attrCounter_ f' = None
  end.
Proof.
  induction docs as [|d docs IH]; intros f acc Hds Hw Hok Hdef.
  { exists f. simpl. rewrite app_nil_r. split_and!; [done|done|done| |].
    - intros k c Hk. by exists c.
    - destruct (attrCounter_ f) as [a|]; [|done]. by exists a. }
  inversion_clear Hds as [|?? Hd Hds']. inversion_clear Hdef as [|?? Hdd Hdef'].
  destruct (test_ok f d Hd Hw Hok Hdd) as (f1 & E1 & H1). destruct (counted_same f d f1 H1 Hw) as (Hw1 & Hd1 & Hs & Hb & Hat).
  cbn [foldM]. cbn [fst snd]. rewrite E1. cbn [mbind option_bind].
  destruct (IH f1 (if selected f d then acc ++ [d] else acc) Hds' Hw1 (cd_counting f d f1 H1)) as (f' & E & Hok' & Hlen & Hcs & Hattr).
  { eapply Forall_impl; [exact Hdef'|]. intros x. apply Hd1. }
  exists f'. rewrite E. split_and!.
  - rewrite (list_filter_iff _ (λ d, selected f d = true)) by (intros x; by rewrite Hs).
    rewrite filter_cons. destruct (selected f d); simpl; [|done]. by rewrite <- app_assoc.
  - done.
  - by rewrite Hlen, (cd_length f d f1 H1).
  - intros k c Hk. destruct (cd_counters f d f1 H1 k c Hk) as (c1 & Hk1 & Hc1). destruct (Hcs k c1 Hk1) as (c' & Hk' & E').
    exists c'. split; [done|]. rewrite (list_filter_iff _ (λ d, selected_but k f d = true)) in E' by (intros x; by rewrite Hb).
    rewrite filter_cons. destruct (selected_but k f d); simpl.
    + cbn [foldM]. by rewrite Hc1.
    + by subst c1.
  - pose proof (cd_attr f d f1 H1) as Ha1. destruct (attrCounter_ f) as [a|].
    + destruct Ha1 as (a1 & Ea1 & Hac). rewrite Ea1 in Hattr. destruct Hattr as (a' & Ea' & E'). exists a'. split; [done|].
      cbn [foldM]. rewrite Hac. cbn [mbind option_bind]. rewrite <- E'. apply foldM_ext. intros x y. symmetry. apply Hat.
    + by rewrite Ha1 in Hattr.
Qed.
End filter.
