(* ===== verification/AttrCounter.v ===== *)
(** * Counting documents by attribute
    ([mining-manager/attr-manager/AttrCounter.cpp, AttrScoreCounter.cpp])

    The counter keeps, for every value, the number of documents that have it,
    and for every name the number of documents with a value of that name.  The
    result lists the names with the greatest scores, each followed by its values.
    Scores are these numbers, or sums of weights that a tokenizer gives to the
    names and values of a category ([AttrScoreCounter]).  The theorem is about
    the former.

    [std::map]s whose order matters are sorted lists ([OrderedMap]); reading one
    with [operator[]] inserts a zero, as in the source.  The counts are [int]s
    of a machine that counts fewer than 2^31 documents. *)
From S2P Require Import Prelude CNum OrderedMap PriorityQueue QueueSpec PropIdTable PropValueTable GroupRep SplitText AttrTable GroupFilter.

(** ** Maps *)

(** [m[x]] on a map that may not have the key. *)
Definition om_at {K V} (lt : K → K → bool) (zero : V) (x : K) (m : list (K * V)) : V * list (K * V) :=
  (default zero (om_get lt x m), om_update lt (default zero) x m).

Section counter.
Context {U : Type} `{Countable U}.

(** The tables of [AttrScoreCounter]. *)
Record AttrScores := Scores {
  categoryValueTable_ : PropValueTable (U := U);
  nameScoreTable_ : list (Z * double);
  valueScoreTable_ : list (Z * double) }.

(** [scores_] is there for an [AttrScoreCounter]. *)
Record AttrCounter := Counter {
  attrTable_ : AttrTable (U := U);
  minValueCount_ : Z;
  maxIterCount_ : Z;
  iterCount_ : Z;
  nameDocCountTable_ : list (Z * Z);
  nameValueCountTable_ : list (Z * Z);
  valueDocCountTable_ : list (Z * Z);
  scores_ : option AttrScores }.

Definition attr_counter_new (t : AttrTable) (minValueCount maxIterCount : Z) : AttrCounter :=
  Counter t minValueCount maxIterCount 0 [] [] [] None.

Definition kMinValueCount : Z := 2.
Definition kMinNameScore : double := d_lit 1 1.
Definition kMinValueScore : double := d_lit 1 1.

Definition attr_score_counter_new (t : AttrTable) (categories : PropValueTable) : AttrCounter :=
  Counter t kMinValueCount 0 0 [] [] [] (Some (Scores categories [] [])).

Definition with_counts (names values : list (Z * Z)) (c : AttrCounter) : AttrCounter :=
  Counter (attrTable_ c) (minValueCount_ c) (maxIterCount_ c) (iterCount_ c) names (nameValueCountTable_ c) values (scores_ c).

Definition with_scores (s : AttrScores) (c : AttrCounter) : AttrCounter :=
  Counter (attrTable_ c) (minValueCount_ c) (maxIterCount_ c) (iterCount_ c) (nameDocCountTable_ c) (nameValueCountTable_ c)
    (valueDocCountTable_ c) (Some s).

(** ** Counting *)

(** The limit on the documents counted; [None] is the return. *)
Definition count_iter (c : AttrCounter) : option AttrCounter :=
  if maxIterCount_ c =? 0 then Some c
  else if maxIterCount_ c <=? iterCount_ c then None
  else Some (Counter (attrTable_ c) (minValueCount_ c) (maxIterCount_ c) (iterCount_ c + 1) (nameDocCountTable_ c)
    (nameValueCountTable_ c) (valueDocCountTable_ c) (scores_ c)).

Definition count_name (nameId : Z) (c : AttrCounter) : AttrCounter :=
  with_counts (om_update Z.ltb add_one nameId (nameDocCountTable_ c)) (valueDocCountTable_ c) c.
Definition count_value (vId : Z) (c : AttrCounter) : AttrCounter :=
  with_counts (nameDocCountTable_ c) (om_update Z.ltb add_one vId (valueDocCountTable_ c)) c.

(** One value of a document. *)
Definition add_value_of (st : AttrCounter * gset Z) (vId : Z) : option (AttrCounter * gset Z) :=
  let '(c, nameIdSet) := st in
  let c := count_value vId c in
  nameId ← valueId2NameId (attrTable_ c) vId;
  if decide (nameId ∈ nameIdSet) then Some (c, nameIdSet) else Some (count_name nameId c, {[nameId]} ∪ nameIdSet).

Definition base_addDoc (doc : nat) (c : AttrCounter) : option AttrCounter :=
  match count_iter c with
  | None => Some c
  | Some c =>
      valueIdList ← getIdList (attr_valueIdTable_ (attrTable_ c)) doc;
      '(c, _) ← foldM (λ st i, vId ← list_at (attr_valueIdTable_ (attrTable_ c)) valueIdList i; add_value_of st vId)
        (c, ∅) (seq 0 (Z.to_nat (list_size valueIdList)));
      Some c
  end.

Definition addAttrDoc (nId : Z) (doc : nat) (c : AttrCounter) : option AttrCounter :=
  match count_iter c with
  | None => Some c
  | Some c =>
      valueIdList ← getIdList (attr_valueIdTable_ (attrTable_ c)) doc;
      '(c, findNameId) ← foldM (λ (st : AttrCounter * bool) i,
        vId ← list_at (attr_valueIdTable_ (attrTable_ c)) valueIdList i;
        nameId ← valueId2NameId (attrTable_ c) vId;
        Some (if nameId =? nId then (count_value vId st.1, true) else st))
        (c, false) (seq 0 (Z.to_nat (list_size valueIdList)));
      Some (if (findNameId : bool) then count_name nId c else c)
  end.

(** *** [AttrScoreCounter] *)

Context (convert_to_str : U → string) (att_name_weight : string → string → double)
  (att_value_weight : string → string → string → double).

Definition categoryStr_ (t : PropValueTable (U := U)) (doc : nat) : option string :=
  cateIdList ← getPropIdList t doc;
  if list_size cateIdList =? 0 then Some ""%string
  else cateId ← list_at (valueIdTable_ t) cateIdList 0; ustr ← propValueStr t cateId; Some (convert_to_str ustr).

Definition add_scored_value (categoryStr : string) (st : AttrCounter * AttrScores * gset Z) (vId : Z)
    : option (AttrCounter * AttrScores * gset Z) :=
  let '(c, s, nameIdSet) := st in
  nameId ← valueId2NameId (attrTable_ c) vId;
  name ← nameStr (attrTable_ c) nameId;
  let nameScore := att_name_weight (convert_to_str name) categoryStr in
  if d_lt nameScore kMinNameScore then Some st
  else
    value ← valueStr (attrTable_ c) vId;
    let valueScore := att_value_weight (convert_to_str name) (convert_to_str value) categoryStr in
    if d_lt valueScore kMinValueScore then Some st
    else
      let '(c, s, nameIdSet) :=
        if decide (nameId ∈ nameIdSet) then st
        else (count_name nameId c,
              Scores (categoryValueTable_ s)
                (om_update Z.ltb (λ x, d_add (default d_zero x) nameScore) nameId (nameScoreTable_ s)) (valueScoreTable_ s),
              {[nameId]} ∪ nameIdSet) in
      Some (count_value vId c,
            Scores (categoryValueTable_ s) (nameScoreTable_ s)
              (om_update Z.ltb (λ x, d_add (default d_zero x) valueScore) vId (valueScoreTable_ s)),
            nameIdSet).

Definition score_addDoc (doc : nat) (s : AttrScores) (c : AttrCounter) : option AttrCounter :=
  categoryStr ← categoryStr_ (categoryValueTable_ s) doc;
  valueIdList ← getIdList (attr_valueIdTable_ (attrTable_ c)) doc;
  '(c, s, _) ← foldM (λ st i, vId ← list_at (attr_valueIdTable_ (attrTable_ c)) valueIdList i; add_scored_value categoryStr st vId)
    (c, s, ∅) (seq 0 (Z.to_nat (list_size valueIdList)));
  Some (with_scores s c).

Definition attr_addDoc (doc : nat) (c : AttrCounter) : option AttrCounter :=
  match scores_ c with
  | Some s => score_addDoc doc s c
  | None => base_addDoc doc c
  end.

(** ** Scores; a score that was never written is inserted as zero *)

Definition getNameScore_ (nameId : Z) (c : AttrCounter) : double * AttrCounter :=
  match scores_ c with
  | Some s =>
      let '(x, m) := om_at Z.ltb d_zero nameId (nameScoreTable_ s) in
      (x, with_scores (Scores (categoryValueTable_ s) m (valueScoreTable_ s)) c)
  | None =>
      let '(n, m) := om_at Z.ltb 0 nameId (nameDocCountTable_ c) in (d_of_Z n, with_counts m (valueDocCountTable_ c) c)
  end.

Definition getValueScore_ (valueId : Z) (c : AttrCounter) : double * AttrCounter :=
  match scores_ c with
  | Some s =>
      let '(x, m) := om_at Z.ltb d_zero valueId (valueScoreTable_ s) in
      (x, with_scores (Scores (categoryValueTable_ s) (nameScoreTable_ s) m) c)
  | None =>
      let '(n, m) := om_at Z.ltb 0 valueId (valueDocCountTable_ c) in (d_of_Z n, with_counts (nameDocCountTable_ c) m c)
  end.

(** ** The result *)

Definition ScoreValueMap := list (double * Z).
Definition NameValueMap := list (Z * ScoreValueMap).

Definition with_value_counts (m : list (Z * Z)) (c : AttrCounter) : AttrCounter :=
  Counter (attrTable_ c) (minValueCount_ c) (maxIterCount_ c) (iterCount_ c) (nameDocCountTable_ c) m (valueDocCountTable_ c) (scores_ c).

Definition map_value (st : NameValueMap * AttrCounter) (e : Z * Z) : option (NameValueMap * AttrCounter) :=
  let '(nameValueMap, c) := st in
  let '(score, c) := getValueScore_ e.1 c in
  if d_gt score d_zero then
    nameId ← valueId2NameId (attrTable_ c) e.1;
    Some (om_update Z.ltb (λ m, mm_insert score e.1 (default [] m)) nameId nameValueMap,
          with_value_counts (om_update Z.ltb add_one nameId (nameValueCountTable_ c)) c)
  else Some (nameValueMap, c).

Definition getNameValueMap_ (c : AttrCounter) : option (NameValueMap * AttrCounter) :=
  foldM map_value ([], c) (valueDocCountTable_ c).

Context {Q : Type} `{!PQOps (Z * double) Q}.

Definition queue_name (st : Q * AttrCounter) (e : Z * Z) : option (Q * AttrCounter) :=
  let '(queue, c) := st in
  let '(score, c) := getNameScore_ e.1 c in
  if d_gt score d_zero && (minValueCount_ c <=? e.2) then '(_, queue) ← q_insert (e.1, score) queue; Some (queue, c)
  else Some (queue, c).

Definition getTopNameIds_ (topNum : Z) (c : AttrCounter) : option (list Z * AttrCounter) :=
  let topNum := if topNum =? 0 then Z.of_nat (length (nameValueCountTable_ c)) else topNum in
  '(queue, c) ← foldM queue_name (q_new (Z.to_nat (u64 topNum)), c) (nameValueCountTable_ c);
  popped ← q_drain (q_size queue) queue;
  Some (rev (map fst popped), c).

Definition value_item (st : list (RepItem U) * AttrCounter) (e : double * Z) : option (list (RepItem U) * AttrCounter) :=
  let '(itemList, c) := st in
  let '(valueScore, valueId) := e in
  text ← valueStr (attrTable_ c) valueId;
  let '(n, m) := om_at Z.ltb 0 valueId (valueDocCountTable_ c) in
  Some (itemList ++ [Item 1 text valueId (u32 n) valueScore], with_counts (nameDocCountTable_ c) m c).

Definition name_items (nameValueMap : NameValueMap) (st : list (RepItem U) * AttrCounter) (nameId : Z)
    : option (list (RepItem U) * AttrCounter) :=
  let '(itemList, c) := st in
  text ← nameStr (attrTable_ c) nameId;
  let '(n, m) := om_at Z.ltb 0 nameId (nameDocCountTable_ c) in
  let c := with_counts m (valueDocCountTable_ c) c in
  let '(score, c) := getNameScore_ nameId c in
  let scoreValueMap := default [] (om_get Z.ltb nameId nameValueMap) in
  foldM value_item (itemList ++ [Item 0 text 0 (u32 n) score], c) (rev scoreValueMap).

Definition generateGroupRep_ (topNameIds : list Z) (nameValueMap : NameValueMap) (groupRep : list (RepItem U)) (c : AttrCounter)
    : option (list (RepItem U) * AttrCounter) :=
  foldM (name_items nameValueMap) (groupRep, c) topNameIds.

Definition attr_getGroupRep (topGroupNum : Z) (c : AttrCounter) (groupRep : list (RepItem U))
    : option (list (RepItem U) * AttrCounter) :=
  '(nameValueMap, c) ← getNameValueMap_ c;
  '(topNameIds, c) ← getTopNameIds_ topGroupNum c;
  generateGroupRep_ topNameIds nameValueMap groupRep c.

#[export] Instance attr_counter_ops : AttrCounterOps (list (RepItem U)) AttrCounter := {
  ac_addDoc := attr_addDoc; ac_addAttrDoc := addAttrDoc; ac_getGroupRep := attr_getGroupRep }.

(** ** What was counted *)

Lemma om_at_known {V} (zero : V) x m v : om_ok Z.ltb (λ _, True) m → om_get Z.ltb x m = Some v → om_at Z.ltb zero x m = (v, m).
Proof. intros Hm E. unfold om_at. rewrite E. by rewrite (om_update_sameZ _ x m v Hm E). Qed.

Section counted.
Context (t : AttrTable (U := U)) (ids_at : nat → list Z) (name_of : Z → Z).
Context (Ht : id_table_ok (attr_valueIdTable_ t)).

(** Every value has a name. *)
Definition values_named (ids : list Z) : Prop := Forall (λ v, valueId2NameId t v = Some (name_of v)) ids.

Definition countable (d : nat) : Prop := ids_of (attr_valueIdTable_ t) d = Some (ids_at d) ∧ values_named (ids_at d).

(** How often the documents have the value. *)
Definition occurs (docs : list nat) (v : Z) : Z := Z.of_nat (length (filter (λ x, x = v) (concat (map ids_at docs)))).

(** How many documents have a value of the name. *)
Definition named (docs : list nat) (n : Z) : Z := Z.of_nat (length (filter (λ d, n ∈ map name_of (ids_at d)) docs)).

Lemma occurs_snoc docs d v : occurs (docs ++ [d]) v = occurs docs v + Z.of_nat (length (filter (λ x, x = v) (ids_at d))).
Proof. unfold occurs. rewrite map_app, concat_app, filter_app, length_app. simpl. rewrite app_nil_r. lia. Qed.

Lemma named_snoc docs d n : named (docs ++ [d]) n = named docs n + if decide (n ∈ map name_of (ids_at d)) then 1 else 0.
Proof. unfold named. rewrite filter_app, length_app, filter_cons. case_decide; simpl; lia. Qed.

(** A counter of documents with these tables. *)
Definition plain (minv maxi it : Z) (N V : list (Z * Z)) : AttrCounter := Counter t minv maxi it N [] V None.

Lemma add_values_ok minv maxi it ids : values_named ids → ∀ N V S fn fv,
  counts_to N fn → counts_to V fv → (∀ x, 0 ≤ fn x) → (∀ x, 0 ≤ fv x) →
  ∃ N' V' S', foldM add_value_of (plain minv maxi it N V, S) ids = Some (plain minv maxi it N' V', S') ∧
  counts_to N' (λ n, fn n + if decide (n ∈ map name_of ids ∧ n ∉ S) then 1 else 0) ∧
  counts_to V' (λ v, fv v + Z.of_nat (length (filter (λ x, x = v) ids))).
Proof.
  induction 1 as [|v ids Hv _ IH]; intros N V S fn fv HN HV Hfn Hfv.
  { exists N, V, S. split_and!; [done| |].
    - eapply counts_to_ext; [exact HN|]. intros n. rewrite decide_False; [lia|]. by intros [[]%not_elem_of_nil _].
    - eapply counts_to_ext; [exact HV|]. intros x. simpl. lia. }
  cbn [foldM add_value_of]. cbn [attrTable_ count_value with_counts plain]. rewrite Hv. cbn [mbind option_bind].
  pose proof (counts_to_add V fv v HV (Hfv v)) as HV1. destruct (decide (name_of v ∈ S)) as [Hin|Hin].
  - destruct (IH N _ S fn _ HN HV1 Hfn) as (N' & V' & S' & E & HN' & HV'); [intros x; specialize (Hfv x); case_decide; lia|].
    exists N', V', S'. split_and!; [exact E| |].
    + eapply counts_to_ext; [exact HN'|]. intros n. cbv beta. f_equal. apply decide_ext. rewrite map_cons, elem_of_cons. naive_solver.
    + eapply counts_to_ext; [exact HV'|]. intros x. rewrite filter_cons. destruct (decide (v = x)); simpl; lia.
  - pose proof (counts_to_add N fn (name_of v) HN (Hfn _)) as HN1.
    destruct (IH _ _ ({[name_of v]} ∪ S) _ _ HN1 HV1) as (N' & V' & S' & E & HN' & HV');
      [intros x; specialize (Hfn x); case_decide; lia|intros x; specialize (Hfv x); case_decide; lia|].
    exists N', V', S'. split_and!; [exact E| |].
    + eapply counts_to_ext; [exact HN'|]. intros n. cbv beta. pose proof (elem_of_cons (map name_of ids) n (name_of v)) as Hc. rewrite map_cons.
      repeat case_decide; try lia; exfalso; set_solver.
    + eapply counts_to_ext; [exact HV'|]. intros x. rewrite filter_cons. destruct (decide (v = x)); simpl; lia.
Qed.

(** The documents within the limit. *)
Definition counted_docs (maxi : Z) (docs : list nat) : list nat := if maxi =? 0 then docs else take (Z.to_nat maxi) docs.

Definition iterated (maxi : Z) (docs : list nat) : Z := if maxi =? 0 then 0 else Z.min maxi (Z.of_nat (length docs)).

Lemma base_addDoc_ok minv maxi it N V fn fv d : countable d → counts_to N fn → counts_to V fv → (∀ x, 0 ≤ fn x) → (∀ x, 0 ≤ fv x) →
  maxi = 0 ∨ it < maxi →
  ∃ N' V', base_addDoc d (plain minv maxi it N V) = Some (plain minv maxi (if maxi =? 0 then it else it + 1) N' V') ∧
  counts_to N' (λ n, fn n + if decide (n ∈ map name_of (ids_at d)) then 1 else 0) ∧
  counts_to V' (λ v, fv v + Z.of_nat (length (filter (λ x, x = v) (ids_at d)))).
Proof.
  intros [Hd Hnamed] HN HV Hfn Hfv Hit. destruct (ids_of_list _ d _ Ht Hd) as (l & El & _ & Hl). unfold base_addDoc.
  assert (count_iter (plain minv maxi it N V) = Some (plain minv maxi (if maxi =? 0 then it else it + 1) N V)) as ->.
  { unfold count_iter. simpl. destruct (maxi =? 0) eqn:E; bool_cases; [done|]. by rewrite (proj2 (Z.leb_gt maxi it)) by lia. }
  simpl attr_valueIdTable_. rewrite El. cbn [mbind option_bind].
  destruct (add_values_ok minv maxi (if maxi =? 0 then it else it + 1) (ids_at d) Hnamed N V ∅ fn fv HN HV Hfn Hfv)
    as (N' & V' & S' & E & HN' & HV'). rewrite (foldM_mapM (list_at (attr_valueIdTable_ t) l) add_value_of _ _ _ Hl), E.
  cbn [mbind option_bind]. exists N', V'. split_and!; [done| |done].
  eapply counts_to_ext; [exact HN'|]. intros n. cbv beta. f_equal. apply decide_ext. set_solver.
Qed.

Lemma occurs_pos docs v : 0 ≤ occurs docs v.
Proof. unfold occurs. lia. Qed.

Lemma named_pos docs n : 0 ≤ named docs n.
Proof. unfold named. lia. Qed.

Lemma attr_addDocs_ok minv maxi docs : 0 ≤ maxi → Forall countable docs →
  ∃ N V, foldM (λ c d, attr_addDoc d c) (attr_counter_new t minv maxi) docs = Some (plain minv maxi (iterated maxi docs) N V) ∧
  counts_to N (named (counted_docs maxi docs)) ∧ counts_to V (occurs (counted_docs maxi docs)).
Proof.
  intros Hmaxi. induction docs as [|d docs IH] using rev_ind; intros Hds.
  { exists [], []. unfold iterated, counted_docs, attr_counter_new, plain. simpl. rewrite take_nil. split_and!.
    - destruct (maxi =? 0); [done|]. by rewrite Z.min_r by lia.
    - destruct (maxi =? 0); apply counts_to_nil.
    - destruct (maxi =? 0); apply counts_to_nil. }
  apply Forall_app in Hds as [Hds Hd]. rewrite Forall_singleton in Hd. destruct (IH Hds) as (N & V & E & HN & HV). clear IH.
  rewrite foldM_app, E. cbn [mbind option_bind foldM]. unfold attr_addDoc. cbn [scores_ plain].
  destruct (decide (maxi = 0 ∨ iterated maxi docs < maxi)) as [Hlt|Hge].
  - destruct (base_addDoc_ok minv maxi _ N V _ _ d Hd HN HV (named_pos _) (occurs_pos _) Hlt) as (N' & V' & E' & HN' & HV').
    fold (plain minv maxi (iterated maxi docs) N V). rewrite E'. cbn [mbind option_bind]. exists N', V'.
    assert (counted_docs maxi (docs ++ [d]) = counted_docs maxi docs ++ [d]) as ->.
    { unfold counted_docs, iterated in *. destruct (maxi =? 0) eqn:E0; bool_cases; [done|].
      rewrite !take_ge by (rewrite ?length_app; simpl; lia). done. }
    split_and!.
    + f_equal. f_equal. unfold iterated in *. rewrite length_app. simpl. destruct (maxi =? 0) eqn:E0; bool_cases; lia.
    + eapply counts_to_ext; [exact HN'|]. intros n. by rewrite named_snoc.
    + eapply counts_to_ext; [exact HV'|]. intros v. by rewrite occurs_snoc.
  - assert (maxi ≠ 0 ∧ iterated maxi docs = maxi) as [Hne Hit] by (unfold iterated in *; destruct (maxi =? 0) eqn:E0; bool_cases; lia).
    unfold base_addDoc, count_iter. simpl. rewrite (proj2 (Z.eqb_neq maxi 0) Hne), (proj2 (Z.leb_le _ _)) by lia. cbn [mbind option_bind].
    exists N, V. unfold iterated, counted_docs in *. rewrite (proj2 (Z.eqb_neq maxi 0) Hne) in *. rewrite length_app in *. simpl.
    rewrite take_app_le by lia. split_and!; [|done|done]. do 2 f_equal. lia.
Qed.

(** ** The values by name *)

#[local] Notation score_lt := (λ a b : double * Z, d_lt a.1 b.1).

Definition by_name (n : Z) (l : list (Z * Z)) : list (Z * Z) := filter (λ e, name_of e.1 = n) l.
Definition value_count (l : list (Z * Z)) (n : Z) : Z := Z.of_nat (length (by_name n l)).
Definition scored (e : Z * Z) : double * Z := (d_of_Z e.2, e.1).
Definition values_at (nvm : NameValueMap) (n : Z) : ScoreValueMap := default [] (om_get Z.ltb n nvm).

Lemma by_name_snoc n l e : by_name n (l ++ [e]) = by_name n l ++ if decide (name_of e.1 = n) then [e] else [].
Proof. unfold by_name. rewrite filter_app, filter_cons. by destruct (decide _). Qed.

Section result.
Context (minv maxi it : Z) (N V : list (Z * Z)) (fn fv : Z → Z).
Context (HN : counts_to N fn) (HV : counts_to V fv).
Context (Hfn : ∀ x, 0 ≤ fn x < 2 ^ 31) (Hfv : ∀ x, 0 ≤ fv x < 2 ^ 31).
Context (Hvalues : ∀ v, fv v ≠ 0 → valueId2NameId t v = Some (name_of v) ∧ fn (name_of v) ≠ 0).

Definition with_nv (NV : list (Z * Z)) : AttrCounter := Counter t minv maxi it N NV V None.

Lemma entry_ok e : e ∈ V → om_get Z.ltb e.1 V = Some e.2 ∧ 0 < e.2 < 2 ^ 31 ∧ valueId2NameId t e.1 = Some (name_of e.1) ∧
  fv e.1 = e.2 ∧ fn (name_of e.1) ≠ 0.
Proof.
  destruct e as [v k]. simpl. intros Hin. pose proof (proj1 (om_elemZ V v k (proj1 HV)) Hin) as Hget.
  apply (counts_to_elem V fv v k HV) in Hin as [-> Hne]. destruct (Hvalues v Hne). specialize (Hfv v). split_and!; [done|lia|lia|done|done|done].
Qed.

(** After some entries of the table. *)
Record grouped (l : list (Z * Z)) (nvm : NameValueMap) (NV : list (Z * Z)) : Prop := {
  gr_counts : counts_to NV (value_count l);
  gr_ok : om_ok Z.ltb (λ _, True) nvm;
  gr_perm : ∀ n, values_at nvm n ≡ₚ map scored (by_name n l);
  gr_sorted : ∀ n, sorted_by score_lt (values_at nvm n) }.

Lemma scored_num e : e ∈ V → d_num (scored e).1.
Proof. intros He. destruct (entry_ok e He) as (_ & Hlt & _). apply d_of_Z_num. lia. Qed.

Lemma map_value_ok l nvm NV e : e ∈ V → (∀ x, x ∈ l → x ∈ V) → grouped l nvm NV →
  ∃ nvm' NV', map_value (nvm, with_nv NV) e = Some (nvm', with_nv NV') ∧ grouped (l ++ [e]) nvm' NV'.
Proof.
  intros He Hl [Hc Hok Hp Hs]. destruct (entry_ok e He) as (Hget & Hlt & Hname & _). unfold map_value, getValueScore_. simpl scores_.
  simpl valueDocCountTable_. rewrite (om_at_known 0 e.1 V e.2 (proj1 HV) Hget). cbv iota beta.
  assert (d_gt (d_of_Z e.2) d_zero = true) as ->.
  { change (d_gt (d_of_Z e.2) d_zero) with (d_lt (d_of_Z 0) (d_of_Z e.2)). rewrite d_of_Z_lt by lia. lia. }
  simpl attrTable_. rewrite Hname. cbn [mbind option_bind]. eexists _, _. split; [reflexivity|].
  assert (∀ n, values_at (om_update Z.ltb (λ m, mm_insert (d_of_Z e.2) e.1 (default [] m)) (name_of e.1) nvm) n =
    if decide (name_of e.1 = n) then mm_insert (d_of_Z e.2) e.1 (values_at nvm n) else values_at nvm n) as Hat.
  { intros n. unfold values_at. rewrite om_get_updateZ by done. destruct (decide _) as [->|]; done. }
  split.
  - eapply counts_to_ext; [apply (counts_to_add NV _ (name_of e.1) Hc)|]; [unfold value_count; lia|].
    intros n. cbv beta. unfold value_count. rewrite by_name_snoc, length_app. case_decide; simpl; lia.
  - by apply om_update_okZ.
  - intros n. rewrite Hat, by_name_snoc, map_app. destruct (decide _) as [<-|]; simpl; [|by rewrite app_nil_r].
    rewrite mm_insert_perm, Hp. by rewrite <- Permutation_cons_append.
  - intros n. rewrite Hat. destruct (decide _) as [<-|]; [|done]. apply mm_insert_sorted; [by apply (scored_num e)| |done].
    rewrite Hp. apply Forall_fmap, Forall_forall. intros x Hx. apply scored_num, Hl. by apply list_elem_of_filter in Hx as [].
Qed.

Lemma map_values_ok : ∃ nvm NV, getNameValueMap_ (with_nv []) = Some (nvm, with_nv NV) ∧ grouped V nvm NV.
Proof.
  unfold getNameValueMap_. change (valueDocCountTable_ (with_nv [])) with V.
  assert (∀ l, (∀ x, x ∈ l → x ∈ V) → ∃ nvm NV, foldM map_value ([], with_nv []) l = Some (nvm, with_nv NV) ∧ grouped l nvm NV) as Hall.
  { induction l as [|e l IH] using rev_ind; intros Hl.
    - exists [], []. split; [done|]. split; [apply counts_to_nil|apply om_nil_ok|done|intros n; constructor].
    - destruct IH as (nvm & NV & E & Hg); [intros x Hx; apply Hl, elem_of_app; by left|].
      rewrite foldM_app, E. cbn [mbind option_bind foldM].
      destruct (map_value_ok l nvm NV e) as (nvm' & NV' & E' & Hg'); [apply Hl, elem_of_app; right; by apply list_elem_of_singleton| |done|].
      { intros x Hx. apply Hl, elem_of_app. by left. }
      rewrite E'. cbn [mbind option_bind]. by exists nvm', NV'. }
  by apply Hall.
Qed.

(** ** The names with the greatest scores *)

Context (ntext vtext : Z → U).
Context (Htext : ∀ v, fv v ≠ 0 → nameStr t (name_of v) = Some (ntext (name_of v)) ∧ valueStr t v = Some (vtext v)).
Context (nvm : NameValueMap) (NV : list (Z * Z)) (Hg : grouped V nvm NV).

Lemma name_entry e : e ∈ NV → om_get Z.ltb e.1 N = Some (fn e.1) ∧ 0 < fn e.1 < 2 ^ 31 ∧ nameStr t e.1 = Some (ntext e.1) ∧
  e.2 = value_count V e.1.
Proof.
  destruct e as [n k]. simpl. intros [Hk Hne]%(counts_to_elem NV _ n k (gr_counts _ _ _ Hg)). subst k.
  unfold value_count in Hne. destruct (by_name n V) as [|e l] eqn:E; [done|].
  assert (e ∈ by_name n V) as He by (rewrite E; by left). unfold by_name in He. apply list_elem_of_filter in He as [Hn He].
  destruct (entry_ok e He) as (_ & Hlt & _ & Hf & Hfne). rewrite Hn in *.
  destruct (Htext e.1) as [Ht1 _]; [lia|]. rewrite Hn in Ht1. specialize (Hfn n). split_and!; [|lia|lia|done|done].
  by apply counts_to_get.
Qed.

Lemma name_score n : om_get Z.ltb n N = Some (fn n) → getNameScore_ n (with_nv NV) = (d_of_Z (fn n), with_nv NV).
Proof.
  intros E. unfold getNameScore_, with_nv. cbn [scores_ nameDocCountTable_]. by rewrite (om_at_known 0 n N (fn n) (proj1 HN) E).
Qed.

#[local] Notation name_lt := (λ a b : Z * double, d_lt a.2 b.2).
#[local] Notation name_num := (λ a : Z * double, d_num a.2).

(** The names that are offered to the queue. *)
Definition offered (l : list (Z * Z)) : list (Z * double) := map (λ e, (e.1, d_of_Z (fn e.1))) (filter (λ e, minv ≤ e.2) l).

Lemma queue_name_step q e : e ∈ NV → queue_name (q, with_nv NV) e =
  if decide (minv ≤ e.2) then '(_, q) ← q_insert (e.1, d_of_Z (fn e.1)) q; Some (q, with_nv NV) else Some (q, with_nv NV).
Proof.
  intros He. destruct (name_entry e He) as (Hget & Hlt & _ & _). unfold queue_name. rewrite name_score by done. cbv beta iota.
  assert (d_gt (d_of_Z (fn e.1)) d_zero = true) as ->.
  { change (d_gt (d_of_Z (fn e.1)) d_zero) with (d_lt (d_of_Z 0) (d_of_Z (fn e.1))). rewrite d_of_Z_lt by lia. lia. }
  cbn [minValueCount_ with_nv andb]. destruct (decide (minv ≤ e.2)) as [Hle|Hgt].
  - by rewrite (proj2 (Z.leb_le _ _) Hle).
  - by rewrite (proj2 (Z.leb_gt _ _)) by lia.
Qed.

Lemma queue_names_ok l : (∀ e, e ∈ l → e ∈ NV) → ∀ q q', q_insert_all (offered l) q = Some q' →
  foldM queue_name (q, with_nv NV) l = Some (q', with_nv NV).
Proof.
  induction l as [|e l IH]; intros Hl q q'; [intros [= ->]; done|].
  assert (∀ x, x ∈ l → x ∈ NV) as Hl' by (intros x Hx; apply Hl; by right).
  unfold offered. rewrite filter_cons. cbn [foldM]. rewrite queue_name_step by (apply Hl; by left).
  destruct (decide (minv ≤ e.2)) as [Hle|Hgt].
  - cbn [map]. unfold q_insert_all. cbn [foldM].
    destruct (q_insert (e.1, d_of_Z (fn e.1)) q) as [[b q1]|]; [|done]. cbn [mbind option_bind]. by apply IH.
  - cbn [mbind option_bind]. by apply IH.
Qed.

(** ** The items *)

Definition value_entry (v : Z) : RepItem U := Item 1 (vtext v) v (fv v) (d_of_Z (fv v)).
Definition name_entry_item (n : Z) : RepItem U := Item 0 (ntext n) 0 (fn n) (d_of_Z (fn n)).
Definition ranked (n : Z) : list Z := map snd (rev (values_at nvm n)).
Definition group_items (n : Z) : list (RepItem U) := name_entry_item n :: map value_entry (ranked n).

Lemma value_of_name n x : x ∈ values_at nvm n → ∃ e, e ∈ V ∧ name_of e.1 = n ∧ x = scored e.
Proof.
  rewrite (gr_perm _ _ _ Hg n). intros (e & -> & He)%list_elem_of_fmap. unfold by_name in He. apply list_elem_of_filter in He as [Hn He].
  by exists e.
Qed.

Lemma value_items_ok l : (∀ x, x ∈ l → ∃ e, e ∈ V ∧ x = scored e) → ∀ items,
  foldM value_item (items, with_nv NV) l = Some (items ++ map value_entry (map snd l), with_nv NV).
Proof.
  induction l as [|x l IH]; intros Hl items; [by rewrite app_nil_r|].
  destruct (Hl x) as (e & He & ->); [by left|]. destruct (entry_ok e He) as (Hget & Hlt & _ & Hf & _).
  destruct (Htext e.1) as [_ Hv]; [lia|].
  assert (value_item (items, with_nv NV) (scored e) = Some (items ++ [value_entry e.1], with_nv NV)) as Hstep.
  { unfold value_item, scored, with_nv. cbn [attrTable_ valueDocCountTable_]. rewrite Hv. cbn [mbind option_bind].
    rewrite (om_at_known 0 e.1 V e.2 (proj1 HV) Hget). unfold value_entry. by rewrite u32_small, Hf by lia. }
  cbn [foldM]. rewrite Hstep. cbn [mbind option_bind].
  rewrite IH by (intros y Hy; apply Hl; by right). cbn [map]. by rewrite <- app_assoc.
Qed.

Lemma generate_ok tops rep : (∀ n, n ∈ tops → ∃ k, (n, k) ∈ NV) →
  generateGroupRep_ tops nvm rep (with_nv NV) = Some (rep ++ concat (map group_items tops), with_nv NV).
Proof.
  unfold generateGroupRep_. revert rep. induction tops as [|n tops IH]; intros rep Hn; [simpl; by rewrite app_nil_r|].
  destruct (Hn n) as [k Hk]; [by left|]. destruct (name_entry (n, k) Hk) as (Hget & Hlt & Ht1 & _). simpl in Hget, Hlt, Ht1.
  assert (name_items nvm (rep, with_nv NV) n = Some (rep ++ group_items n, with_nv NV)) as Hstep.
  { unfold name_items. cbn [attrTable_ nameDocCountTable_ valueDocCountTable_ with_nv]. rewrite Ht1. cbn [mbind option_bind].
    rewrite (om_at_known 0 n N (fn n) (proj1 HN) Hget). cbv iota beta.
    change (with_counts N V _) with (with_nv NV). rewrite (name_score n Hget).
    fold (values_at nvm n). rewrite value_items_ok.
    - rewrite u32_small by lia. unfold group_items, ranked, name_entry_item. by rewrite <- app_assoc.
    - intros x Hx. rewrite elem_of_rev in Hx. destruct (value_of_name n x Hx) as (e & He & _ & ->). by exists e. }
  cbn [foldM]. rewrite Hstep. cbn [mbind option_bind]. rewrite IH by (intros x Hx; apply Hn; by right).
  cbn [map concat]. by rewrite <- app_assoc.
Qed.

(** ** Sizes *)

Lemma names_le : (length NV ≤ length V)%nat.
Proof.
  rewrite <- (length_map fst NV), <- (length_map (λ e : Z * Z, name_of e.1) V). apply NoDup_length_le.
  - apply om_keys_NoDupZ, (gr_counts _ _ _ Hg).
  - intros n ([n' k] & -> & He)%list_elem_of_fmap. apply (counts_to_elem NV _ n' k (gr_counts _ _ _ Hg)) in He as [-> Hne]. simpl.
    unfold value_count in Hne. destruct (by_name n' V) as [|e l] eqn:E; [done|].
    assert (e ∈ by_name n' V) as He by (rewrite E; by left). apply list_elem_of_filter in He as [<- He]. apply list_elem_of_fmap. by exists e.
Qed.

(** ** The values of a name *)

Lemma ranked_ok n : NoDup (ranked n) ∧ (∀ v, v ∈ ranked n ↔ fv v ≠ 0 ∧ name_of v = n) ∧
  StronglySorted (λ v v', fv v' ≤ fv v) (ranked n) ∧ length (ranked n) = length (by_name n V).
Proof.
  assert (∀ x, x ∈ rev (values_at nvm n) → x.1 = d_of_Z (fv x.2)) as Hscore.
  { intros x Hx. rewrite elem_of_rev in Hx. destruct (value_of_name n x Hx) as (e & He & _ & ->).
    destruct (entry_ok e He) as (_ & _ & _ & Hf & _). unfold scored. simpl. by rewrite Hf. }
  assert (ranked n ≡ₚ map fst (by_name n V)) as Hperm.
  { unfold ranked. rewrite <- (Permutation_rev (values_at nvm n)), (gr_perm _ _ _ Hg n), map_map. done. }
  split_and!.
  - rewrite Hperm. eapply (sublist_NoDup _ (map fst V)); [apply om_keys_NoDupZ, HV|apply (fmap_sublist fst), sublist_filter].
  - intros v. rewrite Hperm. split.
    + intros ([v' k] & -> & He)%list_elem_of_fmap. apply list_elem_of_filter in He as [Hn He]. simpl in *.
      apply (counts_to_elem V fv v' k HV) in He as [-> ?]. done.
    + intros [Hne Hn]. apply list_elem_of_fmap. exists (v, fv v). split; [done|]. apply list_elem_of_filter. split; [done|].
      by apply (counts_to_elem V fv v (fv v) HV).
  - apply StronglySorted_map with (R := λ x y : double * Z, d_lt x.1 y.1 = false).
    + apply (StronglySorted_rev (λ x y : double * Z, d_lt y.1 x.1 = false)), (gr_sorted _ _ _ Hg n).
    + intros x y Hx Hy. rewrite (Hscore x Hx), (Hscore y Hy). pose proof (Hfv x.2). pose proof (Hfv y.2).
      rewrite d_of_Z_lt by lia. lia.
  - rewrite <- (length_map fst (by_name n V)). by apply Permutation_length.
Qed.
End result.

Lemma occurs_value docs v : Forall countable docs → occurs docs v ≠ 0 →
  valueId2NameId t v = Some (name_of v) ∧ named docs (name_of v) ≠ 0.
Proof.
  intros Hds Hne. unfold occurs in Hne.
  destruct (filter (λ x, x = v) (concat (map ids_at docs))) as [|x l] eqn:E; [done|].
  assert (x ∈ filter (λ x, x = v) (concat (map ids_at docs))) as Hx by (rewrite E; by left).
  apply list_elem_of_filter in Hx as [-> Hx]. apply list_elem_of_In, in_concat in Hx as (ids & Hids & Hv).
  apply list_elem_of_In in Hids. apply list_elem_of_In in Hv. apply list_elem_of_fmap in Hids as (d & -> & Hd).
  rewrite Forall_forall in Hds. destruct (Hds d Hd) as [_ Hnamed]. unfold values_named in Hnamed. rewrite Forall_forall in Hnamed.
  split; [by apply Hnamed|]. unfold named. assert (d ∈ filter (λ d, name_of v ∈ map name_of (ids_at d)) docs) as Hf.
  { apply list_elem_of_filter. split; [|done]. apply list_elem_of_fmap. by exists v. }
  destruct (filter _ docs); [by apply not_elem_of_nil in Hf|]. simpl. lia.
Qed.

Lemma occurs_le docs v : occurs docs v ≤ Z.of_nat (length (concat (map ids_at docs))).
Proof. unfold occurs. apply inj_le. apply length_filter. Qed.

Lemma named_le docs n : named docs n ≤ Z.of_nat (length docs).
Proof. unfold named. apply inj_le. apply length_filter. Qed.

Lemma occurs_keys docs V : counts_to V (occurs docs) → (length V ≤ length (concat (map ids_at docs)))%nat.
Proof.
  intros HV. rewrite <- (length_map fst V). apply NoDup_length_le; [apply om_keys_NoDupZ, HV|].
  intros v ([v' k] & -> & He)%list_elem_of_fmap. apply (counts_to_elem V _ v' k HV) in He as [_ Hne]. simpl. unfold occurs in Hne.
  destruct (filter (λ x, x = v') (concat (map ids_at docs))) as [|x l] eqn:E; [done|].
  assert (x ∈ filter (λ x, x = v') (concat (map ids_at docs))) as Hx by (rewrite E; by left). by apply list_elem_of_filter in Hx as [-> Hx].
Qed.
End counted.

(** ** The result of a search *)

#[local] Notation name_lt := (λ a b : Z * double, d_lt a.2 b.2).
#[local] Notation name_num := (λ a : Z * double, d_num a.2).

#[export] Instance name_order : StrictWeakOn name_num name_lt.
Proof.
  split.
  - intros x y. apply (swo_asym (P := d_num)).
  - intros x y z. apply (swo_ntrans (P := d_num)).
Qed.

Context `{!BoundedPQ name_num name_lt PQOps0}.

Definition the_ids (t : AttrTable (U := U)) (d : nat) : list Z := default [] (ids_of (attr_valueIdTable_ t) d).
Definition the_name (t : AttrTable (U := U)) (v : Z) : Z := default 0 (valueId2NameId t v).
Context (u_empty : U).
Definition the_text (t : AttrTable (U := U)) (n : Z) : U := default u_empty (nameStr t n).
Definition the_value (t : AttrTable (U := U)) (v : Z) : U := default u_empty (valueStr t v).

Lemma attr_ok_countable t d : attr_ok u_empty t → countable t (the_ids t) (the_name t) d.
Proof.
  intros Hok. destruct (ids_of_total _ d (at_ids _ t Hok)) as [ids E]. unfold countable, values_named, the_ids. rewrite E. split; [done|].
  simpl. eapply Forall_impl; [by apply (at_docs _ t Hok d)|]. intros v Hv. simpl in Hv. unfold the_name.
  destruct (proj2 (vat_lt (nameIdVec_ t) v)) as [n En]; [rewrite (at_lengths _ t Hok); lia|]. unfold valueId2NameId. by rewrite En.
Qed.

Lemma attr_ok_texts t v n : attr_ok u_empty t → valueId2NameId t v = Some n →
  nameStr t n = Some (the_text t n) ∧ valueStr t v = Some (the_value t v).
Proof.
  intros Hok Hn. unfold valueId2NameId in Hn. assert (is_Some (vat (nameIdVec_ t) v)) as Hv%vat_lt by by eexists.
  rewrite (at_lengths _ t Hok) in Hv. assert (0 ≤ n < Z.of_nat (length (nameStrVec_ t))) as Hr.
  { unfold vat in Hn. destruct (v <? 0); [done|]. by apply (Forall_lookup_1 _ _ _ _ (at_range _ t Hok) Hn). }
  unfold the_text, the_value, nameStr, valueStr.
  destruct (proj2 (vat_lt (nameStrVec_ t) n) Hr) as [x ->]. by destruct (proj2 (vat_lt (valueStrVec_ t) v) Hv) as [y ->].
Qed.

Section groups.
Context (t : AttrTable (U := U)) (Hok : attr_ok u_empty t) (docs : list nat) (minv maxi : Z).

(** The documents counted, how often they have a value, and how many have a name. *)
Definition seen_docs : list nat := counted_docs maxi docs.
Definition value_docs (v : Z) : Z := occurs (the_ids t) seen_docs v.
Definition name_docs (n : Z) : Z := named (the_ids t) (the_name t) seen_docs n.

(** A name, and the values listed below it. *)
Definition name_group (values : Z → list Z) (n : Z) : list (RepItem U) :=
  Item 0 (the_text t n) 0 (name_docs n) (d_of_Z (name_docs n)) ::
  map (λ v, Item 1 (the_value t v) v (value_docs v) (d_of_Z (value_docs v))) (values n).

(** The values of a name that were seen, the most frequent first. *)
Definition values_ok (values : Z → list Z) : Prop := ∀ n,
  NoDup (values n) ∧ (∀ v, v ∈ values n ↔ value_docs v ≠ 0 ∧ the_name t v = n) ∧
  StronglySorted (λ v v', value_docs v' ≤ value_docs v) (values n).

(** The names listed and the names left out. *)
Record names_ok (topNum : Z) (values : Z → list Z) (tops rest : list Z) : Prop := {
  no_nodup : NoDup (tops ++ rest);
  no_all : ∀ n, n ∈ tops ++ rest ↔ values n ≠ [] ∧ minv ≤ Z.of_nat (length (values n));
  no_sorted : StronglySorted (λ n n', name_docs n' ≤ name_docs n) tops;
  no_top : ∀ n n', n ∈ tops → n' ∈ rest → name_docs n' ≤ name_docs n;
  no_full : rest ≠ [] → topNum ≠ 0 ∧ Z.of_nat (length tops) = topNum;
  no_le : topNum ≠ 0 → Z.of_nat (length tops) ≤ topNum }.

Context (Hmaxi : 0 ≤ maxi) (Hlen : Z.of_nat (length seen_docs) < 2 ^ 31)
  (Hids : Z.of_nat (length (concat (map (the_ids t) seen_docs))) < 2 ^ 31).

Lemma seen_countable : Forall (countable t (the_ids t) (the_name t)) seen_docs.
Proof. apply Forall_forall. intros d _. by apply attr_ok_countable. Qed.

Lemma value_docs_range v : 0 ≤ value_docs v < 2 ^ 31.
Proof. unfold value_docs. pose proof (occurs_pos (the_ids t) seen_docs v). pose proof (occurs_le (the_ids t) seen_docs v). lia. Qed.

Lemma name_docs_range n : 0 ≤ name_docs n < 2 ^ 31.
Proof.
  unfold name_docs. pose proof (named_pos (the_ids t) (the_name t) seen_docs n).
  pose proof (named_le (the_ids t) (the_name t) seen_docs n). lia.
Qed.

Lemma value_docs_named v : value_docs v ≠ 0 → valueId2NameId t v = Some (the_name t v) ∧ name_docs (the_name t v) ≠ 0.
Proof. apply occurs_value, seen_countable. Qed.

Lemma value_docs_texts v : value_docs v ≠ 0 → nameStr t (the_name t v) = Some (the_text t (the_name t v)) ∧ valueStr t v = Some (the_value t v).
Proof. intros Hv. apply attr_ok_texts; [done|]. by apply value_docs_named. Qed.

Section top_names.
Context (N V : list (Z * Z)) (nvm : NameValueMap) (NV : list (Z * Z)) (it topNum : Z).
Context (HN : counts_to N name_docs) (HV : counts_to V value_docs) (Hg : grouped (the_name t) V nvm NV) (Htop : 0 ≤ topNum < 2 ^ 32).

Definition queue_cap : Z := if topNum =? 0 then Z.of_nat (length NV) else topNum.

Lemma offered_elem x : x ∈ offered minv name_docs NV ↔
  x.2 = d_of_Z (name_docs x.1) ∧ ranked nvm x.1 ≠ [] ∧ minv ≤ Z.of_nat (length (ranked nvm x.1)).
Proof.
  assert (∀ n, length (ranked nvm n) = length (by_name (the_name t) n V)) as Hlen'.
  { intros n. by apply (ranked_ok t (the_name t) V name_docs value_docs HV value_docs_range value_docs_named nvm NV Hg). }
  unfold offered. rewrite list_elem_of_fmap. setoid_rewrite list_elem_of_filter. split.
  - intros ([n k] & -> & Hk & He). simpl in *. apply (counts_to_elem NV _ n k (gr_counts _ _ _ _ Hg)) in He as [-> Hne].
    unfold value_count in Hne, Hk. rewrite <- Hlen' in Hne, Hk. split_and!; [done| |done]. intros E0. by rewrite E0 in Hne.
  - destruct x as [n s]. simpl. intros (-> & Hne & Hk). exists (n, value_count (the_name t) V n). split; [done|].
    assert (value_count (the_name t) V n = Z.of_nat (length (ranked nvm n))) as E by (unfold value_count; by rewrite <- Hlen').
    split; [simpl; lia|]. apply (counts_to_elem NV _ n _ (gr_counts _ _ _ _ Hg)). split; [done|]. rewrite E.
    destruct (ranked nvm n); [done|simpl; lia].
Qed.

Lemma offered_keys : map fst (offered minv name_docs NV) = map fst (filter (λ e, minv ≤ e.2) NV).
Proof. unfold offered. by rewrite map_map. Qed.

Lemma offered_NoDup : NoDup (map fst (offered minv name_docs NV)).
Proof.
  rewrite offered_keys. eapply (sublist_NoDup _ (map fst NV)); [apply om_keys_NoDupZ, (gr_counts _ _ _ _ Hg)|].
  apply (fmap_sublist fst), sublist_filter.
Qed.

(** What the queue returns. *)
Lemma drained_ok out dropped : out ++ dropped ≡ₚ offered minv name_docs NV → sorted_by name_lt out →
  top_of name_lt (Z.to_nat queue_cap) out dropped → names_ok topNum (ranked nvm) (rev (map fst out)) (map fst dropped).
Proof.
  intros Hp Hs [Hk Hfull Hcut].
  assert (rev (map fst out) ++ map fst dropped ≡ₚ map fst (offered minv name_docs NV)) as Hperm.
  { rewrite <- Hp, map_app. by rewrite <- Permutation_rev. }
  assert (∀ x, x ∈ out ++ dropped → x.2 = d_of_Z (name_docs x.1)) as Hscore by (intros x; rewrite Hp; by intros [? _]%offered_elem).
  split.
  - rewrite Hperm. apply offered_NoDup.
  - intros n. rewrite Hperm, list_elem_of_fmap. setoid_rewrite offered_elem. split; [by intros ([? ?] & -> & _ & ?)|].
    intros Hn. by exists (n, d_of_Z (name_docs n)).
  - rewrite <- map_rev. apply StronglySorted_map with (R := λ x y : Z * double, d_lt x.2 y.2 = false).
    + by apply (StronglySorted_rev (λ x y : Z * double, d_lt y.2 x.2 = false)).
    + intros x y. rewrite !elem_of_rev. intros Hx Hy. rewrite !Hscore by (apply elem_of_app; by left).
      pose proof (name_docs_range x.1). pose proof (name_docs_range y.1). rewrite d_of_Z_lt by lia. lia.
  - intros n n' Hn Hn'. rewrite elem_of_rev in Hn. apply list_elem_of_fmap in Hn as (x & -> & Hx). apply list_elem_of_fmap in Hn' as (y & -> & Hy).
    specialize (Hcut x y Hx Hy). simpl in Hcut. rewrite !Hscore in Hcut by (apply elem_of_app; tauto).
    pose proof (name_docs_range x.1). pose proof (name_docs_range y.1). rewrite d_of_Z_lt in Hcut by lia. lia.
  - intros Hne. rewrite length_rev, length_map. assert (dropped ≠ []) as Hd by (by intros ->).
    specialize (Hfull Hd). unfold queue_cap in *. destruct (topNum =? 0) eqn:E0; bool_cases; [|lia]. exfalso.
    apply Permutation_length in Hp. rewrite length_app in Hp. unfold offered in Hp. rewrite length_map in Hp.
    pose proof (length_filter (λ e : Z * Z, minv ≤ e.2) NV). destruct dropped; [done|]. simpl in Hp. lia.
  - intros Hne. rewrite length_rev, length_map. unfold queue_cap in *. rewrite (proj2 (Z.eqb_neq _ _) Hne) in Hk. lia.
Qed.

Lemma top_names_ok : ∃ tops rest,
  getTopNameIds_ topNum (with_nv t minv maxi it N V NV) = Some (tops, with_nv t minv maxi it N V NV) ∧
  (∀ n, n ∈ tops → ∃ k, (n, k) ∈ NV) ∧ names_ok topNum (ranked nvm) tops rest.
Proof.
  pose proof (names_le (the_name t) V nvm NV Hg) as Hle. pose proof (occurs_keys (the_ids t) seen_docs V HV) as Hle'.
  assert (0 ≤ queue_cap < 2 ^ 32) as Hk by (unfold queue_cap; destruct (topNum =? 0); lia).
  destruct (q_topk_sort name_num name_lt (Z.to_nat queue_cap) (offered minv name_docs NV)) as (q & out & dropped & E & Hsize & Eo & Hp & Hs & Ht).
  { lia. }
  { apply Forall_forall. intros x [-> _]%offered_elem. pose proof (name_docs_range x.1). apply d_of_Z_num. lia. }
  exists (rev (map fst out)), (map fst dropped). split_and!.
  - unfold getTopNameIds_. cbn [nameValueCountTable_ with_nv]. fold queue_cap.
    assert (u64 queue_cap = queue_cap) as -> by (unfold u64; apply Z.mod_small; lia).
    rewrite (queue_names_ok t (the_name t) minv maxi it N V name_docs value_docs HN HV name_docs_range value_docs_range value_docs_named
      (the_text t) (the_value t) value_docs_texts nvm NV Hg NV (λ _ h, h) _ _ E). cbn [mbind option_bind]. by rewrite Eo.
  - intros n Hn. rewrite elem_of_rev in Hn. apply list_elem_of_fmap in Hn as (x & -> & Hx).
    assert (x.1 ∈ map fst (filter (λ e, minv ≤ e.2) NV)) as Hin.
    { rewrite <- offered_keys, <- Hp. apply list_elem_of_fmap. exists x. split; [done|]. apply elem_of_app. by left. }
    apply list_elem_of_fmap in Hin as ([n k] & -> & He). apply list_elem_of_filter in He as [_ He]. by exists k.
  - by apply drained_ok.
Qed.
End top_names.

(** C37: Counting documents by attribute and listing the result. Of the names
    with at least [minValueCount] different values, those with the most
    documents are shown, at most as many as asked for, most documents first,
    each with its number of documents and followed by its values from the most
    to the least frequent. A value is shown with its number of occurrences: a
    document that lists it twice counts twice. With an iteration limit only
    that many documents, the first ones, are counted. *)
Theorem attr_groups topNum rep : 0 ≤ topNum < 2 ^ 32 →
  ∃ c c' values tops rest, foldM (λ c d, attr_addDoc d c) (attr_counter_new t minv maxi) docs = Some c ∧
  attr_getGroupRep topNum c rep = Some (rep ++ concat (map (name_group values) tops), c') ∧
  values_ok values ∧ names_ok topNum values tops rest.
Proof.
  intros Htop. assert (Forall (countable t (the_ids t) (the_name t)) docs) as Hall.
  { apply Forall_forall. intros d _. by apply attr_ok_countable. }
  destruct (attr_addDocs_ok t (the_ids t) (the_name t) (at_ids _ t Hok) minv maxi docs Hmaxi Hall) as (N & V & E & HN & HV).
  fold seen_docs in HN, HV. change (occurs (the_ids t) seen_docs) with value_docs in HV.
  change (named (the_ids t) (the_name t) seen_docs) with name_docs in HN.
  destruct (map_values_ok t (the_name t) minv maxi (iterated maxi docs) N V name_docs value_docs HV value_docs_range value_docs_named)
    as (nvm & NV & Em & Hg).
  destruct (top_names_ok N V nvm NV (iterated maxi docs) topNum HN HV Hg Htop) as (tops & rest & Et & Hk & Hnames).
  eexists _, _, (ranked nvm), tops, rest. split_and!; [exact E| | |exact Hnames].
  - unfold attr_getGroupRep. change (plain t minv maxi (iterated maxi docs) N V) with (with_nv t minv maxi (iterated maxi docs) N V []).
    rewrite Em. cbn [mbind option_bind]. rewrite Et. cbn [mbind option_bind].
    by apply (generate_ok t (the_name t) minv maxi (iterated maxi docs) N V name_docs value_docs HN HV name_docs_range value_docs_range
      value_docs_named (the_text t) (the_value t) value_docs_texts nvm NV Hg).
  - intros n. destruct (ranked_ok t (the_name t) V name_docs value_docs HV value_docs_range value_docs_named nvm NV Hg n)
      as (H1 & H2 & H3 & _). split_and!; done.
Qed.
End groups.
End counter.

(** ** Witness *)

(** Document 3 has two colours and a size, document 4 one colour. *)
Definition more_shirts : AttrTable (U := ustring) :=
  default shirts (attr_buildDoc (λ _, false) 4 [(chars "colour", [chars "red"])] shirts).

Lemma more_shirts_ok : attr_ok [] more_shirts.
Proof.
  destruct (attr_buildDoc_ok [] (λ _, false) shirts 4 [(chars "colour", [chars "red"])] (proj1 shirts_ok)) as (t & E & Hok & _);
    [done|repeat constructor; done|vm_compute; congruence|vm_compute; congruence|vm_compute; congruence|].
  unfold more_shirts. by rewrite E.
Qed.

#[export] Instance shirt_queue : PQOps (Z * double) (pqueue (Z * double)) :=
  heap_ops (0, d_zero) (0, d_zero) (λ a b, d_lt a.2 b.2).

Lemma attr_groups_witness :
  ∃ c c', foldM (λ c d, attr_addDoc (λ _, ""%string) (λ _ _, d_zero) (λ _ _ _, d_zero) d c) (attr_counter_new more_shirts 1 0) [3; 4]%nat = Some c ∧
  attr_getGroupRep 1 c [] = Some ([Item 0 (chars "colour") 0 2 (d_of_Z 2); Item 1 (chars "red") 1 2 (d_of_Z 2);
    Item 1 (chars "blue") 2 1 (d_of_Z 1)], c').
Proof.
  destruct (attr_groups (λ _, ""%string) (λ _ _, d_zero) (λ _ _ _, d_zero) [] more_shirts more_shirts_ok [3; 4]%nat 1 0) with
    (topNum := 1) (rep := @nil (RepItem ustring)) as (c & c' & values & tops & rest & E & Eg & _).
  - done.
  - vm_compute. reflexivity.
  - vm_compute. reflexivity.
  - done.
  - exists c, c'. split; [exact E|]. vm_compute in E. injection E as <-. vm_compute in Eg. injection Eg as Hi <-.
    vm_compute. reflexivity.
Defined.
