(* ===== verification/GroupCounters.v ===== *)
(** * The counters of a request, with counters inside them
    ([mining-manager/group-manager/SubGroupCounter.h] and the specialisations for it in
    [StringGroupCounter.h, NumericGroupCounter.h, DateGroupCounter.h])

    Grouping by two properties keeps, for every value of the first, its number of
    documents and a counter of the second property.  The counters form the
    instances of [GroupCounterOps] that the filter uses.  The theorem shows that
    the counter inside a value has counted exactly the documents with that value. *)
From S2P Require Import Prelude CNum OrderedMap PropIdTable PropValueTable GroupRep GroupMerge GroupCount GroupNumeric GroupRange.
From S2P Require Import GroupResize DnfParser Env DateGroup GroupFilter Phrases.

Section counters.
Context {U : Type} `{Countable U} (child_order : gmap U Z → list (U * Z)) (u_of_string : string → U) `{!DateText}.

(** ** Counters of one property *)

Inductive ValueCounter :=
  | StringValue (t : PropValueTable (U := U)) (propName : string) (countTable_ : list Z)
  | NumericValue (c : NumericGroupCounter)
  | DateValue (c : DateGroupCounter).

(** The walks of a table end within the number of its values. *)
Definition walk_fuel (t : PropValueTable (U := U)) : nat := length (propStrVec_ t).

Definition value_addDoc (doc : nat) (c : ValueCounter) : option ValueCounter :=
  match c with
  | StringValue t propName table => table ← GroupCount.addDoc t doc table; Some (StringValue t propName table)
  | NumericValue c => Some (NumericValue (num_addDoc doc c))
  | DateValue c => c ← date_addDoc doc c; Some (DateValue c)
  end.

Definition value_getGroupRep (c : ValueCounter) (r : GroupRep U) : option (GroupRep U * ValueCounter) :=
  match c with
  | StringValue t propName table =>
      '(r, table) ← GroupCount.getGroupRep child_order (walk_fuel t) t (u_of_string propName) table r;
      Some (r, StringValue t propName table)
  | NumericValue c => Some (num_getGroupRep c r, NumericValue c)
  | DateValue c => r ← date_getGroupRep u_of_string c r; Some (r, DateValue c)
  end.

(** [StringGroupCounter<unsigned int>::getStringRep] *)
Definition string_getStringRep (t : PropValueTable (U := U)) (table : list Z) (lvl : Z) : option (list (RepItem U) * list Z) :=
  table ← addCountForParentId (walk_fuel t) t table;
  propStrMap ← vat (childMapTable_ t) 0;
  items ← mapM (λ kv : U * Z,
    n ← vat table kv.2;
    if n =? 0 then Some [] else appendGroupRep child_order (walk_fuel t) t table kv.2 lvl kv.1) (child_order propStrMap);
  Some (concat items, table).

Definition value_getStringRep (c : ValueCounter) (lvl : Z) : option (list (RepItem U) * ValueCounter) :=
  match c with
  | StringValue t propName table =>
      '(items, table) ← string_getStringRep t table lvl; Some (items, StringValue t propName table)
  | NumericValue c => Some (num_getStringRep (λ x, u_of_string (format_numeric x)) c lvl, NumericValue c)
  | DateValue c => items ← date_getStringRep u_of_string c lvl; Some (items, DateValue c)
  end.

#[export] Instance value_counter : GroupCounterOps U ValueCounter := {
  gc_addDoc := value_addDoc; gc_getGroupRep := value_getGroupRep; gc_getStringRep := value_getStringRep }.

(** ** Counters with counters inside *)

Section sub.
Context {C : Type} `{!GroupCounterOps U C}.

Record SubGroupCounter := Sub { count_ : Z; groupCounter_ : C }.

(** [++subCounter.count_; subCounter.groupCounter_->addDoc(doc)] *)
Definition sub_addDoc (doc : nat) (s : SubGroupCounter) : option SubGroupCounter :=
  c ← gc_addDoc doc (groupCounter_ s); Some (Sub (u32 (count_ s + 1)) c).

Inductive SubbedCounter :=
  | StringSub (t : PropValueTable (U := U)) (propName : string) (countTable_ : list SubGroupCounter)
  | NumericSub (property : string) (t : NumericPropertyTableBase) (init : SubGroupCounter) (countTable_ : list (double * SubGroupCounter))
  | DateSub (t : PropIdTable) (propName : string) (mask : Z) (init : SubGroupCounter)
      (countTable_ : list (Z * SubGroupCounter)) (totalCount_ : Z).

Definition string_sub_new (t : PropValueTable (U := U)) (propName : string) (c : C) : SubbedCounter :=
  StringSub t propName (replicate (length (propStrVec_ t)) (Sub 0 c)).
Definition numeric_sub_new (property : string) (t : NumericPropertyTableBase) (c : C) : SubbedCounter :=
  NumericSub property t (Sub 0 c) [].
Definition date_sub_new (t : PropIdTable) (propName : string) (mask : Z) (c : C) : SubbedCounter :=
  DateSub t propName mask (Sub 0 c) [] 0.

Definition sub_at (doc : nat) (table : list SubGroupCounter) (id : Z) : option (list SubGroupCounter) :=
  s ← vat table id; s ← sub_addDoc doc s; Some (<[Z.to_nat id := s]> table).

(** [countTable_.insert(initSubCounterPair_).first->second], counted. *)
Definition sub_in {K} (lt : K → K → bool) (init : SubGroupCounter) (doc : nat) (m : list (K * SubGroupCounter)) (key : K)
    : option (list (K * SubGroupCounter)) :=
  s ← sub_addDoc doc (default init (om_get lt key m)); Some (om_put lt key s m).

Definition string_sub_addDoc (t : PropValueTable (U := U)) (doc : nat) (table : list SubGroupCounter) : option (list SubGroupCounter) :=
  propIdList ← getPropIdList t doc;
  let idNum := list_size propIdList in
  if idNum =? 0 then Some table
  else
    table ← foldM (λ table i, id ← list_at (valueIdTable_ t) propIdList i; sub_at doc table id) table (seq 0 (Z.to_nat idNum));
    total ← vat table 0;
    Some (<[0%nat := Sub (u32 (count_ total + 1)) (groupCounter_ total)]> table).

Definition numeric_sub_addDoc (t : NumericPropertyTableBase) (init : SubGroupCounter) (doc : nat) (m : list (double * SubGroupCounter))
    : option (list (double * SubGroupCounter)) :=
  match getDoubleValue t doc with
  | Some value => sub_in d_lt init doc m value
  | None => Some m
  end.

Definition date_sub_addDoc (t : PropIdTable) (mask : Z) (init : SubGroupCounter) (doc : nat) (st : list (Z * SubGroupCounter) * Z)
    : option (list (Z * SubGroupCounter) * Z) :=
  dateSet ← getDateSet t doc mask;
  m ← foldM (sub_in Z.ltb init doc) st.1 (date_list dateSet);
  Some (m, if decide (dateSet = ∅) then st.2 else u32 (st.2 + 1)).

Definition subbed_addDoc (doc : nat) (c : SubbedCounter) : option SubbedCounter :=
  match c with
  | StringSub t propName table => table ← string_sub_addDoc t doc table; Some (StringSub t propName table)
  | NumericSub property t init m => m ← numeric_sub_addDoc t init doc m; Some (NumericSub property t init m)
  | DateSub t propName mask init m total =>
      '(m, total) ← date_sub_addDoc t mask init doc (m, total); Some (DateSub t propName mask init m total)
  end.

(** [getStringRep] of a counter inside changes it, so the table is threaded. *)
Fixpoint sub_append (fuel : nat) (t : PropValueTable (U := U)) (pvId lvl : Z) (valueStr : U)
    (st : list (RepItem U) * list SubGroupCounter) : option (list (RepItem U) * list SubGroupCounter) :=
  match fuel with
  | O => None
  | S fuel =>
      let '(items, table) := st in
      s ← vat table pvId;
      let items := items ++ [new_item lvl valueStr 0 (count_ s)] in
      st ← (if negb (pvId =? 0) then
              '(below, c) ← gc_getStringRep (groupCounter_ s) (lvl + 1);
              Some (items ++ below, <[Z.to_nat pvId := Sub (count_ s) c]> table)
            else Some (items, table));
      propStrMap ← vat (childMapTable_ t) pvId;
      foldM (λ (st : list (RepItem U) * list SubGroupCounter) (kv : U * Z),
        n ← vat st.2 kv.2;
        if count_ n =? 0 then Some st else sub_append fuel t kv.2 (lvl + 1) kv.1 st) st (child_order propStrMap)
  end.

(** The values of a map with the lists of their counters. *)
Definition sub_entries {K} (label : K → option U) (lvl : Z) (m : list (K * SubGroupCounter))
    : option (list (RepItem U) * list (K * SubGroupCounter)) :=
  foldM (λ (st : list (RepItem U) * list (K * SubGroupCounter)) (e : K * SubGroupCounter),
    l ← label e.1;
    '(below, c) ← gc_getStringRep (groupCounter_ e.2) (lvl + 1);
    Some (st.1 ++ new_item lvl l 0 (count_ e.2) :: below, st.2 ++ [(e.1, Sub (count_ e.2) c)])) ([], []) m.

Definition numeric_label (x : double) : option U := Some (u_of_string (format_numeric x)).
Definition date_label (date : Z) : option U := s ← dateToAPIStr date; Some (u_of_string s).

Definition string_sub_getStringRep (t : PropValueTable (U := U)) (table : list SubGroupCounter) (lvl : Z)
    : option (list (RepItem U) * list SubGroupCounter) :=
  propStrMap ← vat (childMapTable_ t) 0;
  foldM (λ (st : list (RepItem U) * list SubGroupCounter) (kv : U * Z),
    n ← vat st.2 kv.2;
    if count_ n =? 0 then Some st else sub_append (walk_fuel t) t kv.2 lvl kv.1 st) ([], table) (child_order propStrMap).

Definition subbed_getStringRep (c : SubbedCounter) (lvl : Z) : option (list (RepItem U) * SubbedCounter) :=
  match c with
  | StringSub t propName table =>
      '(items, table) ← string_sub_getStringRep t table lvl; Some (items, StringSub t propName table)
  | NumericSub property t init m =>
      '(items, m) ← sub_entries numeric_label lvl m; Some (items, NumericSub property t init m)
  | DateSub t propName mask init m total =>
      '(items, m) ← sub_entries date_label lvl m; Some (items, DateSub t propName mask init m total)
  end.

Definition string_sub_getGroupRep (t : PropValueTable (U := U)) (propName : string) (table : list SubGroupCounter) (r : GroupRep U)
    : option (GroupRep U * list SubGroupCounter) :=
  '(items, table) ← sub_append (walk_fuel t) t 0 0 (u_of_string propName) ([], table); Some (add_items items r, table).

Definition numeric_sub_getGroupRep (property : string) (m : list (double * SubGroupCounter)) (r : GroupRep U)
    : option (GroupRep U * list (double * SubGroupCounter)) :=
  '(items, m') ← sub_entries numeric_label 1 m;
  let totalCount := fold_left (λ n (e : double * SubGroupCounter), u32 (n + count_ e.2)) m 0 in
  Some (add_items (new_item 0 (u_of_string property) 0 totalCount :: items) r, m').

Definition date_sub_getGroupRep (propName : string) (m : list (Z * SubGroupCounter)) (total : Z) (r : GroupRep U)
    : option (GroupRep U * list (Z * SubGroupCounter)) :=
  '(items, m) ← sub_entries date_label 1 m;
  Some (add_items (new_item 0 (u_of_string propName) 0 total :: items) r, m).

Definition subbed_getGroupRep (c : SubbedCounter) (r : GroupRep U) : option (GroupRep U * SubbedCounter) :=
  match c with
  | StringSub t propName table =>
      '(r, table) ← string_sub_getGroupRep t propName table r; Some (r, StringSub t propName table)
  | NumericSub property t init m =>
      '(r, m) ← numeric_sub_getGroupRep property m r; Some (r, NumericSub property t init m)
  | DateSub t propName mask init m total =>
      '(r, m) ← date_sub_getGroupRep propName m total r; Some (r, DateSub t propName mask init m total)
  end.

#[export] Instance subbed_counter : GroupCounterOps U SubbedCounter := {
  gc_addDoc := subbed_addDoc; gc_getGroupRep := subbed_getGroupRep; gc_getStringRep := subbed_getStringRep }.

(** ** What the counters inside have seen *)

Inductive Key := IdKey (id : Z) | NumKey (x : double) | DateKey (date : Z).

(** A map does not tell 0 from -0. *)
Definition key_eqb (k k' : Key) : bool :=
  match k, k' with
  | IdKey x, IdKey y | DateKey x, DateKey y => x =? y
  | NumKey x, NumKey y => same_key d_lt x y
  | _, _ => false
  end.

(** The values of a document, as the counter reads them. *)
Definition keys_of (c : SubbedCounter) (doc : nat) : option (list Key) :=
  match c with
  | StringSub t _ _ => map IdKey <$> ids_of (valueIdTable_ t) doc
  | NumericSub _ t _ _ => Some (match getDoubleValue t doc with Some x => [NumKey x] | None => [] end)
  | DateSub t _ mask _ _ _ => dateSet ← getDateSet t doc mask; Some (map DateKey (date_list dateSet))
  end.

(** The counter inside a value; a map holds it once the value was seen. *)
Definition held (c : SubbedCounter) (k : Key) : option SubGroupCounter :=
  match c, k with
  | StringSub _ _ table, IdKey id => vat table id
  | NumericSub _ _ init m, NumKey x => Some (default init (om_get d_lt x m))
  | DateSub _ _ _ init m _, DateKey d => Some (default init (om_get Z.ltb d m))
  | _, _ => None
  end.

(** [docs], each as often as it has the value. *)
Definition docs_with (c : SubbedCounter) (k : Key) (docs : list nat) : list nat :=
  concat (map (λ d, map (λ _, d) (filter (λ k', key_eqb k' k = true) (default [] (keys_of c d)))) docs).

Context (Pc : C → Prop) (D : nat → Prop).
Context (Hc : ∀ d c, D d → Pc c → ∃ c', gc_addDoc d c = Some c' ∧ Pc c').

Definition sub_ok (s : SubGroupCounter) : Prop := Pc (groupCounter_ s).

Lemma sub_addDoc_ok d s : D d → sub_ok s → ∃ s', sub_addDoc d s = Some s' ∧ sub_ok s'.
Proof.
  intros Hd Hs. destruct (Hc d (groupCounter_ s) Hd Hs) as (c & E & Hp). unfold sub_addDoc. rewrite E. by eexists.
Qed.

(** One value of one document. *)
Definition seen (hit : bool) (d : nat) (s s' : SubGroupCounter) : Prop :=
  if hit then sub_addDoc d s = Some s' else s' = s.

Lemma om_get_ok {K V} (lt : K → K → bool) (Q : V → Prop) x (m : list (K * V)) :
  Forall (λ e, Q e.2) m → from_option Q True (om_get lt x m).
Proof. induction 1 as [|[y v] m Hv _ IH]; [done|]. simpl in *. by destruct (same_key lt y x). Qed.

Lemma om_put_forall {K V} (lt : K → K → bool) (Q : V → Prop) x v (m : list (K * V)) :
  Q v → Forall (λ e, Q e.2) m → Forall (λ e, Q e.2) (om_put lt x v m).
Proof.
  intros Hv. unfold om_put. induction 1 as [|[y w] m Hw Hm IH]; simpl; [by repeat constructor|].
  destruct (lt x y); [by repeat constructor|]. destruct (lt y x); by constructor.
Qed.

Lemma sub_in_ok {K} (lt : K → K → bool) (P : K → Prop) `{!StrictWeakOn P lt} init d m key : D d → P key → sub_ok init →
  om_ok lt P m → Forall (λ e, sub_ok e.2) m →
  ∃ m', sub_in lt init d m key = Some m' ∧ om_ok lt P m' ∧ Forall (λ e, sub_ok e.2) m' ∧
  ∀ x, P x → seen (same_key lt key x) d (default init (om_get lt x m)) (default init (om_get lt x m')).
Proof.
  intros Hd Hk Hi Hm Hall. unfold sub_in.
  destruct (sub_addDoc_ok d (default init (om_get lt key m)) Hd) as (s & E & Hs).
  { pose proof (om_get_ok lt sub_ok key m Hall) as Hg. by destruct (om_get lt key m). }
  rewrite E. cbn [mbind option_bind]. eexists. split; [reflexivity|]. split_and!.
  - by apply (om_update_ok lt P).
  - by apply om_put_forall.
  - intros x Hx. unfold om_put. rewrite (om_get_update lt P) by done. unfold seen. destruct (same_key lt key x) eqn:Es; [|done].
    simpl. by rewrite <- (om_get_same lt P key x m Hk Hx (proj1 Hm) Es).
Qed.

(** All values of one document. *)
Definition fed (hits : list bool) (d : nat) : SubGroupCounter → SubGroupCounter → Prop :=
  λ s s', foldM (λ s _, sub_addDoc d s) s (filter (λ b, b = true) hits) = Some s'.

Lemma fed_cons hit hits d s s1 s' : seen hit d s s1 → fed hits d s1 s' → fed (hit :: hits) d s s'.
Proof.
  unfold fed, seen. rewrite filter_cons. destruct hit.
  - intros E H'. destruct (decide (true = true)); [|done]. cbn [foldM]. by rewrite E.
  - intros -> H'. by destruct (decide (false = true)).
Qed.

Lemma subs_in_ok {K} (lt : K → K → bool) (P : K → Prop) `{!StrictWeakOn P lt} init d keys : D d → Forall P keys → sub_ok init →
  ∀ m, om_ok lt P m → Forall (λ e, sub_ok e.2) m →
  ∃ m', foldM (sub_in lt init d) m keys = Some m' ∧ om_ok lt P m' ∧ Forall (λ e, sub_ok e.2) m' ∧
  ∀ x, P x → fed (map (λ k, same_key lt k x) keys) d (default init (om_get lt x m)) (default init (om_get lt x m')).
Proof.
  intros Hd Hks Hi. induction Hks as [|k keys Hk _ IH]; intros m Hm Hall.
  { exists m. split_and!; [done|done|done|]. by intros x _. }
  destruct (sub_in_ok lt P init d m k Hd Hk Hi Hm Hall) as (m1 & E1 & Hm1 & Hall1 & H1). cbn [foldM]. rewrite E1. cbn [mbind option_bind].
  destruct (IH m1 Hm1 Hall1) as (m' & E & Hm' & Hall' & H'). exists m'. split_and!; [done|done|done|].
  intros x Hx. eapply fed_cons; [by apply H1|by apply H'].
Qed.

Lemma sub_at_ok d table id : D d → Forall sub_ok table → 0 < id < Z.of_nat (length table) →
  ∃ table', sub_at d table id = Some table' ∧ Forall sub_ok table' ∧ length table' = length table ∧
  ∀ x s, vat table x = Some s → ∃ s', vat table' x = Some s' ∧ seen (id =? x) d s s'.
Proof.
  intros Hd Hall Hid. unfold sub_at. destruct (proj2 (vat_lt table id)) as [s Es]; [lia|]. rewrite Es. cbn [mbind option_bind].
  unfold vat in Es. rewrite (proj2 (Z.ltb_ge id 0)) in Es by lia.
  destruct (sub_addDoc_ok d s Hd) as (s' & E & Hs'); [by eapply Forall_lookup_1|]. rewrite E. cbn [mbind option_bind].
  eexists. split; [reflexivity|]. split_and!; [by apply Forall_insert|by rewrite length_insert|].
  intros x y Hx. unfold vat in *. destruct (x <? 0) eqn:Ex; [done|]. bool_cases. destruct (Z.eq_dec id x) as [<-|Hne].
  - rewrite list_lookup_insert_eq by lia. exists s'. split; [done|]. rewrite Z.eqb_refl. simpl. congruence.
  - rewrite list_lookup_insert_ne by lia. exists y. by rewrite (proj2 (Z.eqb_neq id x) Hne).
Qed.

Lemma subs_at_ok d ids : D d → ∀ table, Forall sub_ok table → Forall (λ id, 0 < id < Z.of_nat (length table)) ids →
  ∃ table', foldM (sub_at d) table ids = Some table' ∧ Forall sub_ok table' ∧ length table' = length table ∧
  ∀ x s, vat table x = Some s → ∃ s', vat table' x = Some s' ∧ fed (map (λ id, id =? x) ids) d s s'.
Proof.
  intros Hd. induction ids as [|id ids IH]; intros table Hall Hids.
  { exists table. split_and!; [done|done|done|]. intros x s Hx. by exists s. }
  inversion_clear Hids as [|?? Hid Hids'].
  destruct (sub_at_ok d table id Hd Hall Hid) as (t1 & E1 & Hall1 & Hlen1 & H1). cbn [foldM]. rewrite E1. cbn [mbind option_bind].
  destruct (IH t1 Hall1) as (t' & E & Hall' & Hlen & H'); [by rewrite Hlen1|]. exists t'.
  split_and!; [done|done|by rewrite Hlen|]. intros x s Hx. destruct (H1 x s Hx) as (s1 & Hx1 & Hs1).
  destruct (H' x s1 Hx1) as (s' & Hx' & Hs'). exists s'. split; [done|]. by eapply fed_cons.
Qed.

Definition subbed_ok (c : SubbedCounter) : Prop :=
  match c with
  | StringSub t _ table => id_table_ok (valueIdTable_ t) ∧ (0 < length table)%nat ∧ Forall sub_ok table
  | NumericSub _ _ init m => sub_ok init ∧ om_ok d_lt d_num m ∧ Forall (λ e, sub_ok e.2) m
  | DateSub t _ _ init m _ => id_table_ok t ∧ sub_ok init ∧ om_ok Z.ltb (λ _, True) m ∧ Forall (λ e, sub_ok e.2) m
  end.

(** The values of the document can be counted. *)
Definition readable (c : SubbedCounter) (d : nat) : Prop :=
  match c with
  | StringSub t _ table => ∃ ids, ids_of (valueIdTable_ t) d = Some ids ∧ Forall (λ id, 0 < id < Z.of_nat (length table)) ids
  | NumericSub _ t _ _ => from_option d_num True (getDoubleValue t d)
  | DateSub t _ _ _ _ _ => is_Some (ids_of t d)
  end.

(** A key of the counter. *)
Definition key_ok (c : SubbedCounter) (k : Key) : Prop :=
  match c, k with
  | StringSub _ _ table, IdKey id => 0 < id < Z.of_nat (length table)
  | NumericSub _ _ _ _, NumKey x => d_num x
  | DateSub _ _ _ _ _ _, DateKey _ => True
  | _, _ => False
  end.

Definition sub_docs (s : SubGroupCounter) (docs : list nat) : option SubGroupCounter := foldM (λ s d, sub_addDoc d s) s docs.

Lemma fed_docs (keys : list Key) (k : Key) d s s' : fed (map (λ k', key_eqb k' k) keys) d s s' ↔
  sub_docs s (map (λ _, d) (filter (λ k', key_eqb k' k = true) keys)) = Some s'.
Proof.
  unfold fed, sub_docs. enough (foldM (λ s _, sub_addDoc d s) s (filter (λ b, b = true) (map (λ k', key_eqb k' k) keys)) =
    foldM (λ s d, sub_addDoc d s) s (map (λ _, d) (filter (λ k', key_eqb k' k = true) keys))) as -> by done.
  revert s. induction keys as [|k' keys IH]; intros s; [done|]. cbn [map]. rewrite !filter_cons.
  destruct (key_eqb k' k); simpl; [|apply IH]. cbn [foldM]. destruct (sub_addDoc d s); [apply IH|done].
Qed.

(** [c'] after the document [d]. *)
Record sub_counted (c : SubbedCounter) (d : nat) (c' : SubbedCounter) : Prop := {
  sc_ok : subbed_ok c';
  sc_keys : ∀ x, keys_of c' x = keys_of c x;
  sc_readable : ∀ x, readable c x → readable c' x;
  sc_key_ok : ∀ k, key_ok c k → key_ok c' k;
  sc_held : ∀ k s, key_ok c k → held c k = Some s →
    ∃ s', held c' k = Some s' ∧ sub_docs s (docs_with c k [d]) = Some s' }.

Lemma docs_with_one c k d : docs_with c k [d] = map (λ _, d) (filter (λ k', key_eqb k' k = true) (default [] (keys_of c d))).
Proof. unfold docs_with. cbn [map concat]. apply app_nil_r. Qed.

Lemma string_sub_ok t name table d : D d → subbed_ok (StringSub t name table) → readable (StringSub t name table) d →
  ∃ c', subbed_addDoc d (StringSub t name table) = Some c' ∧ sub_counted (StringSub t name table) d c'.
Proof.
  intros Hd (Ht & Hlen & Hall) (ids & Eids & Hids). destruct (ids_of_list _ d ids Ht Eids) as (l & El & Esize & Hl).
  unfold subbed_addDoc, string_sub_addDoc, getPropIdList. rewrite El. cbn [mbind option_bind].
  destruct (list_size l =? 0) eqn:E0; bool_cases.
  { eexists. split; [reflexivity|]. assert (ids = []) as -> by (apply length_zero_iff_nil; lia).
    split; [done|done|done|done|]. intros k s _ Hk. exists s. split; [done|]. rewrite docs_with_one. simpl. by rewrite Eids. }
  rewrite (foldM_mapM (list_at (valueIdTable_ t) l) (sub_at d) _ ids _ Hl).
  destruct (subs_at_ok d ids Hd table Hall Hids) as (t' & -> & Hall' & Hlen' & Hk). cbn [mbind option_bind].
  destruct (proj2 (vat_lt t' 0)) as [total Et]; [lia|]. rewrite Et. cbn [mbind option_bind]. eexists. split; [reflexivity|].
  split; simpl; rewrite ?length_insert, ?Hlen'; try done.
  - split_and!; [done|done|]. apply Forall_insert; [done|]. unfold sub_ok. simpl. by apply (Forall_lookup_1 sub_ok t' 0 total).
  - intros [id| |] s Hok Hs; try done. destruct (Hk id s Hs) as (s' & Hs' & Hf). exists s'. split.
    + unfold vat in *. rewrite (proj2 (Z.ltb_ge id 0)) in * by lia. by rewrite list_lookup_insert_ne by lia.
    + rewrite docs_with_one. simpl. rewrite Eids. simpl. apply fed_docs. by rewrite map_map.
Qed.

Lemma numeric_sub_ok property t init m d : D d → subbed_ok (NumericSub property t init m) → readable (NumericSub property t init m) d →
  ∃ c', subbed_addDoc d (NumericSub property t init m) = Some c' ∧ sub_counted (NumericSub property t init m) d c'.
Proof.
  intros Hd (Hi & Hm & Hall) Hr. unfold subbed_addDoc, numeric_sub_addDoc. simpl in Hr.
  destruct (getDoubleValue t d) as [x|] eqn:Ex; simpl in Hr; cbn [mbind option_bind].
  - destruct (subs_in_ok d_lt d_num init d [x] Hd ltac:(by apply Forall_singleton) Hi m Hm Hall) as (m' & E & Hm' & Hall' & Hk).
    cbn [foldM] in E. destruct (sub_in d_lt init d m x) as [m1|]; [|done]. cbn [mbind option_bind] in *. injection E as ->.
    eexists. split; [reflexivity|]. split; [done|done|done|done|].
    intros [|y|] s Hok Hs; try done. injection Hs as <-. eexists. split; [reflexivity|]. rewrite docs_with_one. simpl. rewrite Ex. simpl.
    apply fed_docs. by apply (Hk y).
  - eexists. split; [reflexivity|]. split; [done|done|done|done|]. intros k s _ Hs. exists s. split; [done|].
    rewrite docs_with_one. simpl. by rewrite Ex.
Qed.

Lemma date_sub_ok t name mask init m total d : D d → subbed_ok (DateSub t name mask init m total) →
  readable (DateSub t name mask init m total) d →
  ∃ c', subbed_addDoc d (DateSub t name mask init m total) = Some c' ∧ sub_counted (DateSub t name mask init m total) d c'.
Proof.
  intros Hd (Ht & Hi & Hm & Hall) [ids Hids]. destruct (getDateSet_ok t d mask ids Ht Hids) as (S & ES & _).
  unfold subbed_addDoc, date_sub_addDoc. rewrite ES. cbn [mbind option_bind].
  destruct (subs_in_ok Z.ltb (λ _, True) init d (date_list S) Hd ltac:(by apply Forall_true) Hi m Hm Hall) as (m' & E & Hm' & Hall' & Hk).
  cbn [fst]. rewrite E. cbn [mbind option_bind]. eexists. split; [reflexivity|]. split; [done|done|done|done|].
  intros [| |y] s Hok Hs; try done. injection Hs as <-. eexists. split; [reflexivity|]. rewrite docs_with_one. simpl. rewrite ES. simpl.
  apply fed_docs. rewrite map_map.
  replace (map (λ x, key_eqb (DateKey x) (DateKey y)) (date_list S)) with (map (λ k, same_key Z.ltb k y) (date_list S)); [by apply Hk|].
  apply map_ext. intros x. simpl. unfold same_key. destruct (x =? y) eqn:Exy; bool_cases; [subst; by rewrite Z.ltb_irrefl|].
  destruct (x <? y) eqn:F; [done|]. bool_cases. by rewrite (proj2 (Z.ltb_lt y x)) by lia.
Qed.

Lemma subbed_addDoc_ok c d : D d → subbed_ok c → readable c d → ∃ c', subbed_addDoc d c = Some c' ∧ sub_counted c d c'.
Proof. destruct c; [apply string_sub_ok|apply numeric_sub_ok|apply date_sub_ok]. Qed.

Lemma subbed_addDocs_ok docs : ∀ c, Forall D docs → subbed_ok c → Forall (readable c) docs →
  ∃ c', foldM (λ c d, subbed_addDoc d c) c docs = Some c' ∧
  ∀ k s, key_ok c k → held c k = Some s → ∃ s', held c' k = Some s' ∧ sub_docs s (docs_with c k docs) = Some s'.
Proof.
  induction docs as [|d docs IH]; intros c Hds Hok Hr.
  { exists c. split; [done|]. intros k s _ Hs. by exists s. }
  inversion_clear Hds as [|?? Hd Hds']. inversion_clear Hr as [|?? Hrd Hr'].
  destruct (subbed_addDoc_ok c d Hd Hok Hrd) as (c1 & E1 & [Hok1 Hkeys Hr1 Hko Hh]). cbn [foldM]. rewrite E1. cbn [mbind option_bind].
  destruct (IH c1 Hds' Hok1) as (c' & E & H'); [by eapply Forall_impl|]. exists c'. split; [done|].
  intros k s Hk Hs. destruct (Hh k s Hk Hs) as (s1 & Hs1 & F1). destruct (H' k s1 (Hko k Hk) Hs1) as (s' & Hs' & F').
  exists s'. split; [done|]. assert (docs_with c k (d :: docs) = docs_with c k [d] ++ docs_with c1 k docs) as ->.
  { rewrite docs_with_one. unfold docs_with. cbn [map concat]. f_equal. f_equal. apply map_ext. intros x. by rewrite Hkeys. }
  unfold sub_docs in *. rewrite foldM_app, F1. exact F'.
Qed.

Lemma sub_docs_count docs : ∀ n c s, 0 ≤ n → sub_docs (Sub (u32 n) c) docs = Some s →
  count_ s = u32 (n + Z.of_nat (length docs)) ∧ foldM (λ c d, gc_addDoc d c) c docs = Some (groupCounter_ s).
Proof.
  induction docs as [|d docs IH]; intros n c s Hn; unfold sub_docs; cbn [foldM].
  - intros [= <-]. simpl. by rewrite Z.add_0_r.
  - destruct (sub_addDoc d (Sub (u32 n) c)) as [s1|] eqn:E1; [|done]. cbn [mbind option_bind]. intros E.
    unfold sub_addDoc in E1. cbn [groupCounter_ count_] in E1. destruct (gc_addDoc d c) as [c1|]; [|done].
    cbn [mbind option_bind] in *. injection E1 as <-.
    replace (u32 (u32 n + 1)) with (u32 (n + 1)) in E by (unfold u32; rewrite Zplus_mod_idemp_l; done).
    destruct (IH (n + 1) c1 s ltac:(lia) E) as [-> E']. split; [f_equal; cbn [length]; lia|done].
Qed.

(** The counters that a request creates. *)
Inductive created (c0 : C) : SubbedCounter → Prop :=
  | new_string t propName : id_table_ok (valueIdTable_ t) → (0 < length (propStrVec_ t))%nat → created c0 (string_sub_new t propName c0)
  | new_numeric property t : created c0 (numeric_sub_new property t c0)
  | new_date t propName mask : id_table_ok t → created c0 (date_sub_new t propName mask c0).

(** C36: Counters with counters inside (string, number or date outside): after
    any documents the counter inside a value has counted exactly the documents
    with that value, each as often as it has it, and the number of the value
    is their number modulo 2^32. *)
Theorem subbed_counts c0 c docs : Pc c0 → created c0 c → Forall D docs → Forall (readable c) docs →
  ∃ c', foldM (λ c d, subbed_addDoc d c) c docs = Some c' ∧
  ∀ k, key_ok c k → ∃ inner, held c' k = Some (Sub (u32 (Z.of_nat (length (docs_with c k docs)))) inner) ∧
    foldM (λ c d, gc_addDoc d c) c0 (docs_with c k docs) = Some inner.
Proof.
  intros Hc0 Hnew Hds Hr. assert (subbed_ok c ∧ ∀ k, key_ok c k → held c k = Some (Sub (u32 0) c0)) as [Hok Hstart].
  { destruct Hnew as [t name Ht Hlen|property t|t name mask Ht].
    - split; [split_and!; [done|by rewrite length_replicate|by apply Forall_replicate]|]. intros [id| |] Hk; try done.
      simpl in *. rewrite length_replicate in Hk. unfold vat. rewrite (proj2 (Z.ltb_ge id 0)) by lia.
      apply lookup_replicate_2. lia.
    - split; [split_and!; [done|apply om_nil_ok|constructor]|]. by intros [| |] Hk.
    - split; [split_and!; [done|done|apply om_nil_ok|constructor]|]. by intros [| |] Hk. }
  destruct (subbed_addDocs_ok docs c Hds Hok Hr) as (c' & E & H'). exists c'. split; [done|].
  intros k Hk. destruct (H' k _ Hk (Hstart k Hk)) as ([n inner] & Hs & Hd). exists inner.
  destruct (sub_docs_count _ 0 c0 _ ltac:(lia) Hd) as [En Ei]. simpl in *. split; [|done]. by rewrite Hs, En.
Qed.
End sub.

(** ** Any counter of a request *)

Inductive AnyCounter :=
  | PlainCounter (c : ValueCounter)
  | TwoLevelCounter (c : SubbedCounter (C := ValueCounter))
  | RangesCounter (c : NumericRangeGroupCounter).

(** [GroupCounter::getStringRep] does nothing by default. *)
#[export] Instance any_counter : GroupCounterOps U AnyCounter := {
  gc_addDoc doc c :=
    match c with
    | PlainCounter c => c ← gc_addDoc doc c; Some (PlainCounter c)
    | TwoLevelCounter c => c ← gc_addDoc doc c; Some (TwoLevelCounter c)
    | RangesCounter c => c ← range_addDoc doc c; Some (RangesCounter c)
    end;
  gc_getGroupRep c r :=
    match c with
    | PlainCounter c => '(r, c) ← gc_getGroupRep c r; Some (r, PlainCounter c)
    | TwoLevelCounter c => '(r, c) ← gc_getGroupRep c r; Some (r, TwoLevelCounter c)
    | RangesCounter c => '(r, c) ← range_getGroupRep c r; Some (r, RangesCounter c)
    end;
  gc_getStringRep c lvl :=
    match c with
    | PlainCounter c => '(items, c) ← gc_getStringRep c lvl; Some (items, PlainCounter c)
    | TwoLevelCounter c => '(items, c) ← gc_getStringRep c lvl; Some (items, TwoLevelCounter c)
    | RangesCounter c => Some ([], RangesCounter c)
    end }.
End counters.

(** Grouped by year and, inside a year, by month. *)
#[local] Existing Instance plain_date_text.
#[local] Instance string_counters : GroupCounterOps string (ValueCounter (U := string)) := value_counter (U := string) map_to_list id.

Definition by_month (m : list (Z * Z)) (n : Z) : ValueCounter (U := string) :=
  DateValue (DateCounter two_dated "Date" MASK_YEAR_MONTH m n).

Lemma by_month_counts d m n : ∃ m' n', gc_addDoc d (by_month m n) = Some (by_month m' n').
Proof.
  destruct (ids_of_total two_dated d two_dated_ok) as [ids Hids].
  destruct (getDateSet_ok two_dated d MASK_YEAR_MONTH ids two_dated_ok Hids) as (S & ES & _).
  unfold gc_addDoc. cbn [string_counters value_counter by_month value_addDoc]. unfold date_addDoc. simpl. rewrite ES. by eexists _, _.
Qed.

Lemma subbed_counts_witness :
  ∃ c', foldM (λ c d, subbed_addDoc d c) (date_sub_new (U := string) two_dated "Date" MASK_YEAR (by_month [] 0)) [1; 2; 1]%nat = Some c' ∧
  held c' (DateKey (encoded 2012 0 0)) = Some (Sub 2 (by_month [(encoded 2012 7 0, 2)] 2)).
Proof.
  destruct (subbed_counts (U := string) (λ c, ∃ m n, c = by_month m n) (λ _, True)) with
    (c0 := by_month [] 0) (c := date_sub_new (U := string) two_dated "Date" MASK_YEAR (by_month [] 0)) (docs := [1; 2; 1]%nat) as (c' & E & H').
  - intros d c _ (m & n & ->). destruct (by_month_counts d m n) as (m' & n' & ->). eexists. split; [done|]. by exists m', n'.
  - by exists [], 0.
  - constructor. exact two_dated_ok.
  - by repeat constructor.
  - repeat constructor; simpl; eexists; vm_compute; reflexivity.
  - exists c'. split; [exact E|]. destruct (H' (DateKey (encoded 2012 0 0)) I) as (inner & Hs & Hi).
    rewrite Hs. vm_compute in Hi. injection Hi as <-. vm_compute. reflexivity.
Defined.
