(* ===== verification/GroupParam.v ===== *)
(** * The groups a search asks for ([mining-manager/group-manager/GroupParam.cpp])

    A search can ask for counts by property, restrict the result to labels and
    ask for attributes.  [checkParam] refuses requests that do not fit the
    configuration.  An error is a value of [ParamError], one constructor for
    each message of the source.

    A [std::map] that is only read in its order is the list of its entries. *)
From S2P Require Import Prelude CNum DateGroup.
From Stdlib Require Import Ascii.

(** ** Configuration ([GroupConfig.h], [MiningSchema.h]) *)

(** Of the other types of properties no function tells one from another. *)
Inductive PropertyDataType :=
  | STRING_PROPERTY_TYPE | INT8_PROPERTY_TYPE | INT16_PROPERTY_TYPE | INT32_PROPERTY_TYPE | INT64_PROPERTY_TYPE
  | FLOAT_PROPERTY_TYPE | DOUBLE_PROPERTY_TYPE | DATETIME_PROPERTY_TYPE | OTHER_PROPERTY_TYPE.

Definition isStringType (propType : PropertyDataType) : bool := match propType with STRING_PROPERTY_TYPE => true | _ => false end.

Definition isNumericType (propType : PropertyDataType) : bool :=
  match propType with
  | INT32_PROPERTY_TYPE | FLOAT_PROPERTY_TYPE | INT8_PROPERTY_TYPE | INT16_PROPERTY_TYPE | INT64_PROPERTY_TYPE | DOUBLE_PROPERTY_TYPE => true
  | _ => false
  end.

Definition isDateTimeType (propType : PropertyDataType) : bool := match propType with DATETIME_PROPERTY_TYPE => true | _ => false end.

Definition GroupConfigMap := gmap string PropertyDataType.

Record MiningSchema := Schema { group_enable : bool; group_config_map : GroupConfigMap; attr_enable : bool }.

(** ** Requests *)

Record GroupPropParam := PropParam {
  property_ : string; subProperty_ : string; isRange_ : bool; unit_ : string; group_top_ : Z }.

Inductive SearchingModeType :=
  | DefaultSearchingMode | OR | WAND | VERBOSE | SUFFIX_MATCH | ZAMBEZI | AD_INDEX | AD_RECOMMEND
  | SPONSORED_AD_SEARCH | SPONSORED_AD_SEARCH_SUFFIX | NotUseSearchingMode.

Definition GroupPathVec := list (list string).
Definition GroupLabelParam : Type := string * GroupPathVec.

Record GroupParam := Param {
  groupProps_ : list GroupPropParam;
  groupLabels : list GroupLabelParam;
  autoSelectLimits_ : list (string * Z);
  isAttrGroup_ : bool;
  attrGroupNum_ : Z;
  attrIterDocNum_ : Z;
  attrLabels : list (string * list string);
  searchMode_ : SearchingModeType;
  isAttrToken_ : bool }.

Definition propParam_new : GroupPropParam := PropParam "" "" false "" 0.

Definition param_new : GroupParam := Param [] [] [] false 0 0 [] DefaultSearchingMode false.

Definition isGroupEmpty (p : GroupParam) : bool :=
  match groupProps_ p, groupLabels p, autoSelectLimits_ p with [], [], [] => true | _, _, _ => false end.

Definition isAttrEmpty (p : GroupParam) : bool :=
  negb (isAttrGroup_ p) && match attrLabels p with [] => true | _ => false end.

Definition isEmpty (p : GroupParam) : bool := isGroupEmpty p && isAttrEmpty p.

(** [map.find] *)
Definition find_entry {V} (key : string) (m : list (string * V)) : option V :=
  snd <$> list_find (λ e, e.1 = key) m ≫= λ ie, Some ie.2.

(** ** Checks *)

Inductive ParamError :=
  | PropertyEmpty
  | NotConfigured (prop : string)
  | SubDuplicated (prop : string)
  | SubIsDate (prop : string)
  | RangeWithSub
  | RangeNotNumeric (prop : string)
  | UnitNotEmpty (prop : string)
  | UnitEmpty (prop : string)
  | UnitUnknown (unit : string)
  | RangeAndLabel (prop : string)
  | LabelEmpty
  | DateUnknown (date : string)
  | AutoSelectNotString (prop : string)
  | GroupDisabled
  | AttrDisabled.

(** The first error of a list of checks. *)
Fixpoint first_error {A} (check : A → option ParamError) (l : list A) : option ParamError :=
  match l with
  | [] => None
  | x :: l => match check x with Some e => Some e | None => first_error check l end
  end.

Definition is_empty (s : string) : bool := match s with EmptyString => true | _ => false end.

Definition NUMERIC_RANGE_DELIMITER : string := "-".

Definition find_delimiter (s : string) : option nat := String.index 0 NUMERIC_RANGE_DELIMITER s.

Definition checkSubProp (config : GroupConfigMap) (propName subPropName : string) : option ParamError :=
  if is_empty subPropName then None
  else
    match config !! subPropName with
    | None => Some (NotConfigured subPropName)
    | Some subConfig =>
        if decide (subPropName = propName) then Some (SubDuplicated subPropName)
        else if isDateTimeType subConfig then Some (SubIsDate subPropName)
        else None
    end.

Definition checkRange (param : GroupPropParam) (groupConfig : PropertyDataType) : option ParamError :=
  if isRange_ param then
    if negb (is_empty (subProperty_ param)) then Some RangeWithSub
    else if negb (isNumericType groupConfig) then Some (RangeNotNumeric (property_ param))
    else None
  else None.

Definition checkUnit (param : GroupPropParam) (groupConfig : PropertyDataType) : option ParamError :=
  if negb (isDateTimeType groupConfig) && negb (is_empty (unit_ param)) then Some (UnitNotEmpty (property_ param))
  else if isDateTimeType groupConfig then
    if is_empty (unit_ param) then Some (UnitEmpty (property_ param))
    else match unitStrToMask (unit_ param) with Some _ => None | None => Some (UnitUnknown (unit_ param)) end
  else None.

Definition checkGroupPropParam (config : GroupConfigMap) (param : GroupPropParam) : option ParamError :=
  if is_empty (property_ param) then Some PropertyEmpty
  else
    match config !! property_ param with
    | None => Some (NotConfigured (property_ param))
    | Some groupConfig =>
        match checkSubProp config (property_ param) (subProperty_ param) with
        | Some e => Some e
        | None =>
            match checkRange param groupConfig with
            | Some e => Some e
            | None => checkUnit param groupConfig
            end
        end
    end.

(** A path of the property that looks like a range. *)
Definition isRangeLabel_ (p : GroupParam) (propName : string) : bool :=
  match find_entry propName (groupLabels p) with
  | None => false
  | Some paths => existsb (λ path, match path with s :: _ => bool_decide (find_delimiter s ≠ None) | [] => false end) paths
  end.

Definition checkGroupProps_ (config : GroupConfigMap) (p : GroupParam) : option ParamError :=
  first_error (λ param,
    match checkGroupPropParam config param with
    | Some e => Some e
    | None => if isRange_ param && isRangeLabel_ p (property_ param) then Some (RangeAndLabel (property_ param)) else None
    end) (groupProps_ p).

Section dates.
Context `{HD : !DateText}.

(** [apiStrToDateMask] always returns (see [api_date_some]). *)
Definition api_date (s : string) : option (Z * Z) := default None (apiStrToDateMask s).

Definition checkDateLabel (groupPathVec : GroupPathVec) : option ParamError :=
  first_error (λ path, match path with
    | [] => Some LabelEmpty
    | s :: _ => match api_date s with Some _ => None | None => Some (DateUnknown s) end
    end) groupPathVec.

Definition checkGroupLabels_ (config : GroupConfigMap) (p : GroupParam) : option ParamError :=
  first_error (λ label : GroupLabelParam,
    match config !! label.1 with
    | None => Some (NotConfigured label.1)
    | Some groupConfig => if isDateTimeType groupConfig then checkDateLabel label.2 else None
    end) (groupLabels p).

Definition checkAutoSelectLimits_ (config : GroupConfigMap) (p : GroupParam) : option ParamError :=
  first_error (λ limit : string * Z,
    match config !! limit.1 with
    | None => Some (NotConfigured limit.1)
    | Some groupConfig => if isStringType groupConfig then None else Some (AutoSelectNotString limit.1)
    end) (autoSelectLimits_ p).

Definition checkGroupParam_ (schema : MiningSchema) (p : GroupParam) : option ParamError :=
  if isGroupEmpty p then None
  else if negb (group_enable schema) then Some GroupDisabled
  else
    match checkGroupProps_ (group_config_map schema) p with
    | Some e => Some e
    | None =>
        match checkGroupLabels_ (group_config_map schema) p with
        | Some e => Some e
        | None => checkAutoSelectLimits_ (group_config_map schema) p
        end
    end.

Definition checkAttrParam_ (schema : MiningSchema) (p : GroupParam) : option ParamError :=
  if isAttrEmpty p then None else if attr_enable schema then None else Some AttrDisabled.

(** [None] is [true]: no message. *)
Definition checkParam (schema : MiningSchema) (p : GroupParam) : option ParamError :=
  match checkGroupParam_ schema p with Some e => Some e | None => checkAttrParam_ schema p end.

(** ** What an accepted request satisfies *)

Lemma api_date_some s : apiStrToDateMask s = Some (api_date s).
Proof.
  unfold api_date, apiStrToDateMask, apiDateStrToDateVec, tokenizeDate_. destruct (read_tokens _ []) as [v ok].
  destruct (ok && checkDateRange_ v) eqn:E; [|done]. simpl negb. cbv iota.
  apply andb_prop in E as [_ E]. unfold checkDateRange_ in E. apply andb_prop in E as [E _].
  apply negb_true_iff, orb_false_iff in E as [E1 E2]. apply Nat.ltb_ge in E1, E2. unfold DATE_INDEX_NUM in E2.
  destruct v as [|y [|m [|d [|? ?]]]]; simpl in E1, E2; try lia; done.
Qed.

Lemma first_error_none {A} (check : A → option ParamError) l : first_error check l = None ↔ Forall (λ x, check x = None) l.
Proof.
  induction l as [|x l IH]; [done|]. simpl. rewrite Forall_cons, <- IH. destruct (check x); [naive_solver|]. naive_solver.
Qed.

Lemma is_empty_ok s : is_empty s = true ↔ s = EmptyString.
Proof. by destruct s. Qed.

(** A property of an accepted request. *)
Record prop_fits (config : GroupConfigMap) (p : GroupParam) (param : GroupPropParam) : Prop := {
  pf_name : property_ param ≠ EmptyString;
  pf_type : ∃ ty, config !! property_ param = Some ty ∧
    (isRange_ param = true → isNumericType ty = true ∧ subProperty_ param = EmptyString ∧ isRangeLabel_ p (property_ param) = false) ∧
    (if isDateTimeType ty then is_Some (unitStrToMask (unit_ param)) else unit_ param = EmptyString);
  pf_sub : subProperty_ param ≠ EmptyString → subProperty_ param ≠ property_ param ∧
    ∃ ty, config !! subProperty_ param = Some ty ∧ isDateTimeType ty = false }.

Lemma checkSubProp_none config propName subPropName : checkSubProp config propName subPropName = None ↔
  (subPropName ≠ EmptyString → subPropName ≠ propName ∧ ∃ ty, config !! subPropName = Some ty ∧ isDateTimeType ty = false).
Proof.
  unfold checkSubProp. destruct (is_empty subPropName) eqn:E.
  - apply is_empty_ok in E as ->. split; [|done]. by intros _ [].
  - assert (subPropName ≠ EmptyString) by (intros ->; done).
    destruct (config !! subPropName) as [ty|]; [|split; [done|]; intros Hs; destruct Hs as (_ & ? & [=] & _); done].
    case_decide as Hd; [split; [done|]; intros Hs; destruct Hs; done|].
    destruct (isDateTimeType ty) eqn:Et; split; try done; [intros Hs; destruct Hs as (_ & ? & [= <-] & ?); [done|congruence]|].
    intros _ _. split; [done|]. by exists ty.
Qed.

Lemma checkGroupPropParam_none config p param :
  checkGroupPropParam config param = None ∧ (isRange_ param && isRangeLabel_ p (property_ param)) = false ↔ prop_fits config p param.
Proof.
  unfold checkGroupPropParam. destruct (is_empty (property_ param)) eqn:En.
  { apply is_empty_ok in En. split; [by intros []|]. intros [? _ _]. done. }
  assert (property_ param ≠ EmptyString) as Hn by (intros E; rewrite E in En; done).
  destruct (config !! property_ param) as [ty|] eqn:Ec; [|split; [by intros []|]; intros [_ (? & [=] & _) _]; congruence].
  pose proof (checkSubProp_none config (property_ param) (subProperty_ param)) as Hsub.
  destruct (checkSubProp config (property_ param) (subProperty_ param)) as [e|].
  { split; [by intros []|]. intros [_ _ Hs]. apply Hsub in Hs. done. }
  unfold checkRange, checkUnit. split.
  - intros [Hc Hr]. split; [done| |by apply Hsub]. exists ty. split; [done|]. split.
    + intros E. rewrite E in Hc, Hr. destruct (is_empty (subProperty_ param)) eqn:Es; [|done]. apply is_empty_ok in Es.
      simpl in Hc, Hr. destruct (isNumericType ty); [|done]. done.
    + destruct (if isRange_ param then _ else None); [done|]. destruct (isDateTimeType ty); simpl in Hc.
      * destruct (is_empty (unit_ param)); [done|]. by destruct (unitStrToMask (unit_ param)).
      * destruct (is_empty (unit_ param)) eqn:Eu; [by apply is_empty_ok|done].
  - intros [_ (ty' & Ec' & Hr & Hu) _]. assert (ty' = ty) as -> by congruence. destruct (isRange_ param).
    + destruct (Hr eq_refl) as (Hnum & Hse & Hlab). rewrite Hse, Hnum, Hlab. simpl. split; [|done].
      destruct (isDateTimeType ty); simpl; [|by rewrite Hu]. destruct Hu as [m Hm]. rewrite Hm.
      destruct (unit_ param); [by vm_compute in Hm|done].
    + split; [|done]. destruct (isDateTimeType ty); simpl; [|by rewrite Hu]. destruct Hu as [m Hm]. rewrite Hm.
      destruct (unit_ param); [by vm_compute in Hm|done].
Qed.

(** A label of an accepted request: dates are dates, other texts are not looked at. *)
Definition label_fits (config : GroupConfigMap) (label : GroupLabelParam) : Prop :=
  ∃ ty, config !! label.1 = Some ty ∧
  (isDateTimeType ty = true → Forall (λ path, ∃ s rest, path = s :: rest ∧ is_Some (api_date s)) label.2).

Definition limit_fits (config : GroupConfigMap) (limit : string * Z) : Prop :=
  ∃ ty, config !! limit.1 = Some ty ∧ isStringType ty = true.

Record param_fits (schema : MiningSchema) (p : GroupParam) : Prop := {
  ft_group : isGroupEmpty p = false → group_enable schema = true ∧
    Forall (prop_fits (group_config_map schema) p) (groupProps_ p) ∧
    Forall (label_fits (group_config_map schema)) (groupLabels p) ∧
    Forall (limit_fits (group_config_map schema)) (autoSelectLimits_ p);
  ft_attr : isAttrEmpty p = false → attr_enable schema = true }.

Lemma checkDateLabel_none paths : checkDateLabel paths = None ↔ Forall (λ path, ∃ s rest, path = s :: rest ∧ is_Some (api_date s)) paths.
Proof.
  unfold checkDateLabel. rewrite first_error_none. apply Forall_iff. intros [|s rest]; [naive_solver|].
  destruct (api_date s) as [dm|] eqn:E; split; try done; [intros _; by exists s, rest; rewrite E|].
  intros (? & ? & [= <- <-] & Hs). rewrite E in Hs. by destruct Hs.
Qed.

Lemma checkGroupLabels_none config p : checkGroupLabels_ config p = None ↔ Forall (label_fits config) (groupLabels p).
Proof.
  unfold checkGroupLabels_. rewrite first_error_none. apply Forall_iff. intros label. unfold label_fits.
  destruct (config !! label.1) as [ty|]; [|naive_solver]. destruct (isDateTimeType ty) eqn:E.
  - rewrite checkDateLabel_none. split; [intros Hp; by exists ty|]. intros (ty' & [= <-] & Hp). by apply Hp.
  - split; [intros _; exists ty; by rewrite E|done].
Qed.

Lemma checkGroupProps_none config p : checkGroupProps_ config p = None ↔ Forall (prop_fits config p) (groupProps_ p).
Proof.
  unfold checkGroupProps_. rewrite first_error_none. apply Forall_iff. intros param. rewrite <- checkGroupPropParam_none.
  destruct (checkGroupPropParam config param); [naive_solver|]. destruct (isRange_ param && isRangeLabel_ p (property_ param)); naive_solver.
Qed.

Lemma checkAutoSelectLimits_none config p : checkAutoSelectLimits_ config p = None ↔ Forall (limit_fits config) (autoSelectLimits_ p).
Proof.
  unfold checkAutoSelectLimits_. rewrite first_error_none. apply Forall_iff. intros limit. unfold limit_fits.
  destruct (config !! limit.1) as [ty|]; [|naive_solver]. destruct (isStringType ty) eqn:E.
  - split; [intros _; by exists ty|done].
  - split; [done|]. intros (ty' & [= <-] & Hs). congruence.
Qed.

Lemma checkParam_ok schema p : checkParam schema p = None ↔ param_fits schema p.
Proof.
  unfold checkParam, checkGroupParam_, checkAttrParam_. split.
  - intros H. split.
    + intros Hg. rewrite Hg in H. destruct (group_enable schema); [|done]. split; [done|]. simpl in H.
      destruct (checkGroupProps_ _ p) eqn:E1; [done|]. apply checkGroupProps_none in E1.
      destruct (checkGroupLabels_ _ p) eqn:E2; [done|]. apply checkGroupLabels_none in E2.
      destruct (checkAutoSelectLimits_ _ p) eqn:E3; [done|]. by apply checkAutoSelectLimits_none in E3.
    + intros Ha. rewrite Ha in H. destruct (if isGroupEmpty p then _ else _); [done|]. by destruct (attr_enable schema).
  - intros [Hg Ha]. destruct (isGroupEmpty p).
    + destruct (isAttrEmpty p); [done|]. by rewrite Ha.
    + destruct (Hg eq_refl) as (-> & H1%checkGroupProps_none & H2%checkGroupLabels_none & H3%checkAutoSelectLimits_none).
      simpl. rewrite H1, H2, H3. destruct (isAttrEmpty p); [done|]. by rewrite Ha.
Qed.
End dates.

(** ** The requests that fit *)

(** A text with a hyphen. *)
Definition range_text (s : string) : Prop := ∃ a b, s = (a ++ "-" ++ b)%string.

Lemma range_text_cons c s : range_text (String c s) ↔ c = "-"%char ∨ range_text s.
Proof.
  split.
  - intros (a & b & E). destruct a as [|c' a]; cbn in E; injection E as -> ->; [by left|]. right. by exists a, b.
  - intros [->|(a & b & ->)]; [by exists "", s|by exists (String c a), b].
Qed.

Lemma find_delimiter_ok s : find_delimiter s ≠ None ↔ range_text s.
Proof.
  unfold find_delimiter. induction s as [|c s IH].
  - split; [done|]. by intros ([|? ?] & ? & ?).
  - rewrite range_text_cons, <- IH. cbn [String.index String.prefix NUMERIC_RANGE_DELIMITER].
    destruct (ascii_dec "-" c) as [<-|Hc].
    + assert (String.prefix "" s = true) as -> by by destruct s. split; [by left|done].
    + destruct (String.index 0 _ s) as [k|]; split; try done; naive_solver.
Qed.

Lemma find_entry_cons {V} key (e : string * V) m : find_entry key (e :: m) = if decide (e.1 = key) then Some e.2 else find_entry key m.
Proof. unfold find_entry. simpl. case_decide; [done|]. by destruct (list_find _ m) as [[? ?]|]. Qed.

Lemma find_entry_ok {V} key (v : V) m : NoDup (map fst m) → find_entry key m = Some v ↔ (key, v) ∈ m.
Proof.
  induction m as [|[k w] m IH]; intros Hnd; [split; [done|by intros ?%not_elem_of_nil]|].
  simpl in Hnd. apply NoDup_cons in Hnd as [Hk Hnd]. rewrite find_entry_cons, elem_of_cons. cbn [fst snd].
  destruct (decide (k = key)) as [->|Hne]; [|rewrite (IH Hnd); naive_solver].
  split; [intros [= ->]; by left|]. intros [[= ->]|Hin]; [done|]. destruct Hk. apply list_elem_of_fmap. by exists (key, v).
Qed.

(** One of the paths of the property begins with a range. *)
Definition range_labelled (p : GroupParam) (prop : string) : Prop :=
  ∃ paths s rest, (prop, paths) ∈ groupLabels p ∧ s :: rest ∈ paths ∧ range_text s.

Lemma isRangeLabel_ok p prop : NoDup (map fst (groupLabels p)) → isRangeLabel_ p prop = true ↔ range_labelled p prop.
Proof.
  intros Hnd. unfold isRangeLabel_, range_labelled. destruct (find_entry prop (groupLabels p)) as [paths|] eqn:E.
  - apply (find_entry_ok prop paths _ Hnd) in E as Hin. rewrite existsb_exists. split.
    + intros ([|s rest] & Hp & Hr); [done|]. apply bool_decide_eq_true, find_delimiter_ok in Hr.
      apply list_elem_of_In in Hp. by exists paths, s, rest.
    + intros (paths' & s & rest & Hp & Hs & Hr). apply (find_entry_ok prop paths' _ Hnd) in Hp. simplify_eq.
      exists (s :: rest). rewrite <- list_elem_of_In. split; [done|]. by apply bool_decide_eq_true, find_delimiter_ok.
  - split; [done|]. intros (paths' & s & rest & Hp & _). apply (find_entry_ok prop paths' _ Hnd) in Hp. congruence.
Qed.

Definition numeric (ty : PropertyDataType) : Prop :=
  ty ∈ [INT8_PROPERTY_TYPE; INT16_PROPERTY_TYPE; INT32_PROPERTY_TYPE; INT64_PROPERTY_TYPE; FLOAT_PROPERTY_TYPE; DOUBLE_PROPERTY_TYPE].

Section fits.
Context `{HD : !DateText}.

(** A year, a year and a month, or a year, a month and a day. *)
Definition date_fields (v : list Z) : Prop :=
  ∃ y, 0 ≤ y ≤ 9999 ∧ (v = [y] ∨ ∃ m, 1 ≤ m ≤ 12 ∧ (v = [y; m] ∨ ∃ d, 1 ≤ d ≤ 31 ∧ v = [y; m; d])).

Definition date_text (s : string) : Prop := ∃ v, mapM parse_u32 (tokenize s "-") = Some v ∧ date_fields v.

Lemma checkDateRange_ok v : checkDateRange_ v = true ↔ date_fields v.
Proof.
  unfold checkDateRange_, date_fields, DATE_INDEX_NUM.
  destruct v as [|y [|m [|d [|x v]]]]; simpl; rewrite ?andb_true_iff, ?Z.leb_le; split; try done.
  - intros (? & ? & [?|(? & ? & [?|(? & ? & ?)])]); done.
  - intros [? _]. exists y. split; [lia|by left].
  - intros (? & ? & [?|(? & ? & [?|(? & ? & ?)])]); simplify_eq. lia.
  - intros (? & ? & _). exists y. split; [lia|right]. exists m. split; [lia|by left].
  - intros (? & ? & [?|(? & ? & [?|(? & ? & ?)])]); simplify_eq. lia.
  - intros (? & ? & ? & _). exists y. split; [lia|right]. exists m. split; [lia|right]. exists d. split; [lia|done].
  - intros (? & ? & [?|(? & ? & [?|(? & ? & ?)])]); simplify_eq. lia.
  - intros (? & ? & [?|(? & ? & [?|(? & ? & ?)])]); simplify_eq.
Qed.

Lemma read_tokens_all tokens : ∀ v w, read_tokens tokens v = (w, true) ↔ ∃ l, mapM parse_u32 tokens = Some l ∧ w = v ++ l.
Proof.
  induction tokens as [|t tokens IH]; intros v w; simpl.
  - split; [intros [= <-]; exists []; by rewrite app_nil_r|]. intros (l & [= <-] & ->). by rewrite app_nil_r.
  - destruct (parse_u32 t) as [x|]; simpl; [|split; [done|by intros (? & ? & _)]]. rewrite IH.
    destruct (mapM parse_u32 tokens) as [l|]; simpl; [|by split; intros (? & ? & _)].
    split; intros (l' & [= <-] & ->); eexists; (split; [done|]); by rewrite <- app_assoc.
Qed.

Lemma api_date_ok s : is_Some (api_date s) ↔ date_text s.
Proof.
  pose proof (api_date_some s) as E. unfold apiStrToDateMask, apiDateStrToDateVec, tokenizeDate_ in E.
  pose proof (read_tokens_all (tokenize s "-") []) as Hread. unfold date_text. setoid_rewrite <- checkDateRange_ok.
  destruct (read_tokens (tokenize s "-") []) as [v ok]. destruct (api_date s) as [dm|]; split.
  - intros _. destruct (ok && checkDateRange_ v) eqn:Eo; [|done]. apply andb_prop in Eo as [-> Hv].
    destruct (Hread v) as [(l & El & ->) _]; [done|]. by exists l.
  - done.
  - intros [? ?]. done.
  - intros (l & El & Hl). assert ((v, ok) = (l, true)) as [= -> ->] by (apply Hread; by exists l). rewrite Hl in E. simpl in E.
    by destruct (createDate l); [destruct (dateMasks_ !! _)|].
Qed.

(** A property of a request that fits. *)
Record property_fits (config : GroupConfigMap) (p : GroupParam) (param : GroupPropParam) : Prop := {
  pr_name : property_ param ≠ ""%string;
  pr_type : ∃ ty, config !! property_ param = Some ty ∧
    (isRange_ param = true → numeric ty ∧ subProperty_ param = ""%string ∧ ¬ range_labelled p (property_ param)) ∧
    (ty = DATETIME_PROPERTY_TYPE → unit_ param ∈ ["Y"; "M"; "D"]%string) ∧
    (ty ≠ DATETIME_PROPERTY_TYPE → unit_ param = ""%string);
  pr_sub : subProperty_ param ≠ ""%string → subProperty_ param ≠ property_ param ∧
    ∃ ty, config !! subProperty_ param = Some ty ∧ ty ≠ DATETIME_PROPERTY_TYPE }.

(** A request that fits. *)
Record request_fits (schema : MiningSchema) (p : GroupParam) : Prop := {
  rq_group : groupProps_ p ≠ [] ∨ groupLabels p ≠ [] ∨ autoSelectLimits_ p ≠ [] → group_enable schema = true;
  rq_props : ∀ param, param ∈ groupProps_ p → property_fits (group_config_map schema) p param;
  rq_labels : ∀ prop paths, (prop, paths) ∈ groupLabels p → ∃ ty, group_config_map schema !! prop = Some ty ∧
    (ty = DATETIME_PROPERTY_TYPE → ∀ path, path ∈ paths → ∃ s rest, path = s :: rest ∧ date_text s);
  rq_limits : ∀ prop n, (prop, n) ∈ autoSelectLimits_ p → group_config_map schema !! prop = Some STRING_PROPERTY_TYPE;
  rq_attr : isAttrGroup_ p = true ∨ attrLabels p ≠ [] → attr_enable schema = true }.

Lemma isDateTimeType_ok ty : isDateTimeType ty = true ↔ ty = DATETIME_PROPERTY_TYPE.
Proof. by destruct ty. Qed.

Lemma isDateTimeType_not ty : isDateTimeType ty = false ↔ ty ≠ DATETIME_PROPERTY_TYPE.
Proof. by destruct ty. Qed.

Lemma isNumericType_ok ty : isNumericType ty = true ↔ numeric ty.
Proof. unfold numeric. rewrite !elem_of_cons, elem_of_nil. destruct ty; naive_solver. Qed.

Lemma unit_ok unit : is_Some (unitStrToMask unit) ↔ unit ∈ ["Y"; "M"; "D"]%string.
Proof.
  unfold unitStrToMask. rewrite !elem_of_cons, elem_of_nil.
  repeat case_decide; split; (naive_solver || intros [? ?]; naive_solver).
Qed.

Lemma property_fits_ok config p param : NoDup (map fst (groupLabels p)) → prop_fits config p param ↔ property_fits config p param.
Proof.
  intros Hnd. pose proof (isRangeLabel_ok p (property_ param) Hnd) as Hr. split.
  - intros [H1 (ty & Hty & H2 & H3) H4]. split; [done| |].
    + exists ty. split; [done|]. split; [|split].
      * intros E. destruct (H2 E) as (Hn & Hs & Hl). rewrite isNumericType_ok in Hn. rewrite <- Hr, Hl. done.
      * intros ->. by apply unit_ok.
      * intros Hd%isDateTimeType_not. by rewrite Hd in H3.
    + intros Hs. destruct (H4 Hs) as (? & ty' & ? & Hd%isDateTimeType_not). split; [done|by exists ty'].
  - intros [H1 (ty & Hty & H2 & H3 & H3') H4]. split; [done| |].
    + exists ty. split; [done|]. split.
      * intros E. destruct (H2 E) as (Hn%isNumericType_ok & Hs & Hl). rewrite <- Hr in Hl. split_and!; [done|done|]. by destruct (isRangeLabel_ _ _).
      * destruct (isDateTimeType ty) eqn:Ed; [apply isDateTimeType_ok in Ed; by apply unit_ok, H3|apply isDateTimeType_not in Ed; by apply H3'].
    + intros Hs. destruct (H4 Hs) as (? & ty' & ? & Hd). split; [done|]. exists ty'. by rewrite isDateTimeType_not.
Qed.

Lemma label_fits_ok config (label : GroupLabelParam) : label_fits config label ↔
  ∃ ty, config !! label.1 = Some ty ∧
  (ty = DATETIME_PROPERTY_TYPE → ∀ path, path ∈ label.2 → ∃ s rest, path = s :: rest ∧ date_text s).
Proof.
  unfold label_fits. setoid_rewrite isDateTimeType_ok. setoid_rewrite Forall_forall. setoid_rewrite api_date_ok. done.
Qed.

Lemma limit_fits_ok config limit : limit_fits config limit ↔ config !! limit.1 = Some STRING_PROPERTY_TYPE.
Proof.
  unfold limit_fits. split; [|intros E; by exists STRING_PROPERTY_TYPE]. intros (ty & -> & E). by destruct ty.
Qed.

Lemma request_fits_ok schema p : NoDup (map fst (groupLabels p)) → param_fits schema p ↔ request_fits schema p.
Proof.
  intros Hnd. unfold isGroupEmpty. split.
  - intros [Hg Ha].
    assert (groupProps_ p ≠ [] ∨ groupLabels p ≠ [] ∨ autoSelectLimits_ p ≠ [] → isGroupEmpty p = false) as Hne.
    { unfold isGroupEmpty. destruct (groupProps_ p), (groupLabels p), (autoSelectLimits_ p); naive_solver. }
    split.
    + intros Hs. by apply Hg, Hne.
    + intros param Hp. destruct Hg as (_ & Hps & _); [apply Hne; left; by intros E; rewrite E in Hp; apply not_elem_of_nil in Hp|].
      rewrite Forall_forall in Hps. by apply property_fits_ok, Hps.
    + intros prop paths Hp. destruct Hg as (_ & _ & Hps & _); [apply Hne; right; left; by intros E; rewrite E in Hp; apply not_elem_of_nil in Hp|].
      rewrite Forall_forall in Hps. by apply (label_fits_ok _ (prop, paths)), Hps.
    + intros prop n Hp. destruct Hg as (_ & _ & _ & Hps); [apply Hne; right; right; by intros E; rewrite E in Hp; apply not_elem_of_nil in Hp|].
      rewrite Forall_forall in Hps. by apply (limit_fits_ok _ (prop, n)), Hps.
    + intros Hs. apply Ha. unfold isAttrEmpty. destruct (isAttrGroup_ p), (attrLabels p); naive_solver.
  - intros [Hg Hp Hl Hm Ha]. split.
    + intros Hne. split_and!.
      * apply Hg. unfold isGroupEmpty in Hne. destruct (groupProps_ p), (groupLabels p), (autoSelectLimits_ p); naive_solver.
      * apply Forall_forall. intros param Hin. by apply property_fits_ok, Hp.
      * apply Forall_forall. intros [prop paths] Hin. apply label_fits_ok. by apply Hl.
      * apply Forall_forall. intros [prop n] Hin. apply limit_fits_ok. by apply (Hm prop n).
    + intros Hne. apply Ha. unfold isAttrEmpty in Hne. destruct (isAttrGroup_ p), (attrLabels p); naive_solver.
Qed.
End fits.

(** C32: [checkParam] gives no error exactly for the requests that fit the
    configuration: groups and attributes are enabled if asked for; properties,
    labels and limits are configured; counting by range is asked of the
    numeric types only, without an inner property, and not when a path of the
    property's labels begins with a text with a hyphen; dates come with a unit
    [Y], [M] or [D] and only they; an inner property differs from the outer
    and is no date; every path of a label of a date begins with a year, a year
    and a month, or a year, a month and a day, in range; limits are for
    strings. (The labels are a map: a property has one entry.) *)
Theorem checkParam_fits `{DateText} schema p : NoDup (map fst (groupLabels p)) → checkParam schema p = None ↔ request_fits schema p.
Proof. intros Hnd. rewrite checkParam_ok. by apply request_fits_ok. Qed.

(** Prices by range, days by month, one month and one brand; a range of prices
    chosen as well is refused. *)
Definition checked_schema : MiningSchema := Schema true
  {["Price"%string := INT32_PROPERTY_TYPE; "Day"%string := DATETIME_PROPERTY_TYPE; "Brand"%string := STRING_PROPERTY_TYPE]} false.

Definition checked_param (prices : GroupPathVec) : GroupParam := Param
  [PropParam "Price" "" true "" 0; PropParam "Day" "Brand" false "M" 0]
  [("Day"%string, [["2013"%string]]); ("Price"%string, prices)] [("Brand"%string, 1)] false 0 0 [] DefaultSearchingMode false.

Lemma checkParam_fits_witness :
  request_fits (HD := plain_date_text) checked_schema (checked_param [["100"%string]]) ∧
  ¬ request_fits (HD := plain_date_text) checked_schema (checked_param [["100"%string]; ["10-99"%string]]).
Proof.
  assert (∀ prices, NoDup (map fst (groupLabels (checked_param prices)))) as Hnd.
  { intros prices. apply NoDup_cons. split; [by intros Hin%list_elem_of_singleton|apply NoDup_singleton]. }
  split; [|intros Hf]; [apply (checkParam_fits (H := plain_date_text))|apply (checkParam_fits (H := plain_date_text)) in Hf]; try apply Hnd.
  - vm_compute. reflexivity.
  - vm_compute in Hf. discriminate.
Defined.
