(* ===== verification/GroupRequest.v ===== *)
(** * From a request to the filter of a search ([mining-manager/group-manager/GroupCounterLabelBuilder.cpp,
    GroupFilter.cpp, GroupFilterBuilder.cpp])

    The builder looks up the tables of the properties a request names, makes a
    counter for each property and a label for each restriction, and connects
    the label of a property with the counter of the same property.  Each table
    that is used is locked for reading until the search ends; the set of locks
    is passed through the builder.

    A builder step returns [None] for undefined behaviour, and otherwise a
    result with the locks taken, the result being [None] for a null pointer. *)
From S2P Require Import Prelude CNum OrderedMap PriorityQueue QueueSpec PropIdTable PropValueTable.
From S2P Require Import GroupRep GroupCount GroupNumeric GroupResize DateGroup GroupFilter GroupCounters.
From S2P Require Import SplitText AttrTable AttrCounter GroupParam.

(** ** Locks and steps *)

(** The lock of a table. *)
Inductive Lock := ValueLock (prop : string) | DateLock (prop : string) | NumericLock (prop : string) | AttrLock.

#[export] Instance Lock_dec : EqDecision Lock.
Proof. solve_decision. Defined.

#[export] Instance Lock_countable : Countable Lock.
Proof.
  apply (inj_countable'
    (λ l, match l with ValueLock p => (0, p) | DateLock p => (1, p) | NumericLock p => (2, p) | AttrLock => (3, EmptyString) end)
    (λ e, let '(k, p) := e in if k =? 0 then ValueLock p else if k =? 1 then DateLock p else if k =? 2 then NumericLock p else AttrLock)).
  by intros [].
Defined.

Definition PropSharedLockSet := gset Lock.

Definition Step (A : Type) : Type := PropSharedLockSet → option (option A * PropSharedLockSet).

#[export] Instance step_ret : MRet Step := λ A x s, Some (Some x, s).
#[export] Instance step_bind : MBind Step := λ A B f m s,
  match m s with
  | None => None
  | Some (None, s) => Some (None, s)
  | Some (Some x, s) => f x s
  end.

(** A null pointer. *)
Definition null {A} : Step A := λ s, Some (None, s).

Definition pointer {A} (p : option A) : Step A := λ s, Some (p, s).

(** A computation that must not be undefined. *)
Definition defined {A} (r : option A) : Step A := λ s, x ← r; Some (Some x, s).

(** The result, null or not. *)
Definition or_null {A} (m : Step A) : Step (option A) := λ s, '(r, s) ← m s; Some (Some r, s).

Definition insertSharedLock (lock : Lock) : Step unit := λ s, Some (Some tt, {[lock]} ∪ s).

Section request.
Context {U : Type} `{Countable U} (child_order : gmap U Z → list (U * Z)) (u_of_string : string → U).
Context `{!DateText} (cast_float : string → option double).
Context (convert_to_str : U → string) (att_name_weight : string → string → double)
  (att_value_weight : string → string → string → double).
Context {Q : Type} `{!PQOps (Z * double) Q}.

(** ** The tables of the managers *)

Record Tables := {
  groupConfigMap_ : GroupConfigMap;
  strPropMap_ : gmap string (PropValueTable (U := U));
  datePropMap_ : gmap string PropIdTable;
  createPropertyTable : string → option NumericPropertyTableBase;
  attrTable : option (AttrTable (U := U)) }.

Context (tables : Tables).

Definition getPropValueTable (propName : string) : option (PropValueTable (U := U)) := strPropMap_ tables !! propName.
Definition getDateGroupTable (propName : string) : option PropIdTable := datePropMap_ tables !! propName.

(** ** Counters *)

Notation AnyCounter := (AnyCounter (U := U)).
Notation ValueCounter := (ValueCounter (U := U)).

Definition createStringCounter_ (prop : string) (subCounter : option ValueCounter) : Step AnyCounter :=
  pvTable ← pointer (getPropValueTable prop);
  _ ← insertSharedLock (ValueLock prop);
  mret (match subCounter with
        | Some c => TwoLevelCounter (string_sub_new pvTable prop c)
        | None => PlainCounter (StringValue pvTable prop (counter_new pvTable))
        end).

Definition createNumericCounter_ (prop : string) (subCounter : option ValueCounter) : Step AnyCounter :=
  t ← pointer (createPropertyTable tables prop);
  _ ← insertSharedLock (NumericLock prop);
  mret (match subCounter with
        | Some c => TwoLevelCounter (numeric_sub_new prop t c)
        | None => PlainCounter (NumericValue (num_counter_new prop t))
        end).

Definition createNumericRangeCounter_ (prop : string) : Step AnyCounter :=
  match groupConfigMap_ tables !! prop with
  | Some groupConfig =>
      if isNumericType groupConfig then
        t ← pointer (createPropertyTable tables prop);
        _ ← insertSharedLock (NumericLock prop);
        mret (RangesCounter (range_counter_new prop t))
      else null
  | None => null
  end.

Definition createDateCounter_ (prop unit : string) (subCounter : option ValueCounter) : Step AnyCounter :=
  mask ← pointer (unitStrToMask unit);
  dateTable ← pointer (getDateGroupTable prop);
  _ ← insertSharedLock (DateLock prop);
  mret (match subCounter with
        | Some c => TwoLevelCounter (date_sub_new dateTable prop mask c)
        | None => PlainCounter (DateValue (date_counter_new dateTable prop mask))
        end).

Definition createValueCounter_ (param : GroupPropParam) (subCounter : option ValueCounter) : Step AnyCounter :=
  let propName := property_ param in
  match groupConfigMap_ tables !! propName with
  | None => null
  | Some groupConfig =>
      if isStringType groupConfig then createStringCounter_ propName subCounter
      else if isNumericType groupConfig then createNumericCounter_ propName subCounter
      else if isDateTimeType groupConfig then createDateCounter_ propName (unit_ param) subCounter
      else null
  end.

(** Without a counter inside, [createValueCounter_] makes a plain one. *)
Definition plain_of (c : option AnyCounter) : option ValueCounter :=
  match c with Some (PlainCounter c) => Some c | _ => None end.

Definition createGroupCounter (param : GroupPropParam) : Step AnyCounter :=
  if isRange_ param then createNumericRangeCounter_ (property_ param)
  else if is_empty (subProperty_ param) then createValueCounter_ param None
  else
    subCounter ← or_null (createValueCounter_ (PropParam (subProperty_ param) "" false "" 0) None);
    createValueCounter_ param (plain_of subCounter).

(** ** Labels *)

Inductive AnyLabel :=
  | StringLabel (t : PropValueTable (U := U)) (targetValueIds_ : list Z)
  | NumericLabel (t : NumericPropertyTableBase) (l : NumericRangeGroupLabel)
  | DateLabel (t : PropIdTable) (targetDateMasks_ : list (Z * Z)).

(** [GroupLabel::test] *)
Definition any_label_test (l : AnyLabel) (doc : nat) : option bool :=
  match l with
  | StringLabel t ids => label_test (walk_fuel t) t ids doc
  | NumericLabel t l => Some (num_label_test t l doc)
  | DateLabel t masks => date_label_test t masks doc
  end.

(** The least positive normal [float], and the greatest. *)
Definition FLT_MIN : double := d_div (d_of_Z 1) (d_of_Z (2 ^ 126)).
Definition FLT_MAX : double := d_of_Z ((2 ^ 24 - 1) * 2 ^ 104).

(** [isRange]; [None] is [false]: an empty label. *)
Definition checkLabelParam (label : GroupLabelParam) : option bool :=
  match label.2 with
  | (propValue :: _) :: _ => Some (bool_decide (find_delimiter propValue ≠ None))
  | _ => None
  end.

Definition convertNumericLabel (src : string) : option double :=
  match find_delimiter src with Some _ => None | None => cast_float src end.

Definition convertRangeLabel (src : string) : option (double * double) :=
  delimitPos ← find_delimiter src;
  lowerBound ← (if (delimitPos =? 0)%nat then Some FLT_MIN else cast_float (String.substring 0 delimitPos src));
  upperBound ← (if (S delimitPos =? String.length src)%nat then Some FLT_MAX
                else cast_float (String.substring (S delimitPos) (String.length src - S delimitPos) src));
  Some (lowerBound, upperBound).

(** The first strings of the paths, converted; [None] is a null pointer. *)
Fixpoint convert_paths {A} (convert : string → option A) (paths : GroupPathVec) : option (list A) :=
  match paths with
  | [] => Some []
  | [] :: _ => None
  | (propValue :: _) :: paths => x ← convert propValue; l ← convert_paths convert paths; Some (x :: l)
  end.

Definition createStringLabel_ (label : GroupLabelParam) : Step AnyLabel :=
  pvTable ← pointer (getPropValueTable label.1);
  _ ← insertSharedLock (ValueLock label.1);
  ids ← defined (getTargetValueIds_ pvTable (map (map u_of_string) label.2));
  mret (StringLabel pvTable ids).

Definition createNumericLabel_ (label : GroupLabelParam) : Step AnyLabel :=
  t ← pointer (createPropertyTable tables label.1);
  targetValues ← pointer (convert_paths convertNumericLabel label.2);
  _ ← insertSharedLock (NumericLock label.1);
  mret (NumericLabel t (TargetValues targetValues)).

Definition createRangeLabel_ (label : GroupLabelParam) : Step AnyLabel :=
  t ← pointer (createPropertyTable tables label.1);
  ranges ← pointer (convert_paths convertRangeLabel label.2);
  _ ← insertSharedLock (NumericLock label.1);
  mret (NumericLabel t (TargetRanges ranges)).

Definition createNumericRangeLabel_ (label : GroupLabelParam) : Step AnyLabel :=
  isRange ← pointer (checkLabelParam label);
  if (isRange : bool) then createRangeLabel_ label else createNumericLabel_ label.

Definition createDateLabel_ (label : GroupLabelParam) : Step AnyLabel :=
  dateMaskVec ← pointer (convert_paths api_date label.2);
  dateTable ← pointer (getDateGroupTable label.1);
  _ ← insertSharedLock (DateLock label.1);
  mret (DateLabel dateTable dateMaskVec).

Definition createGroupLabel (label : GroupLabelParam) : Step AnyLabel :=
  match groupConfigMap_ tables !! label.1 with
  | None => null
  | Some groupConfig =>
      if isStringType groupConfig then createStringLabel_ label
      else if isNumericType groupConfig then createNumericRangeLabel_ label
      else if isDateTimeType groupConfig then createDateLabel_ label
      else null
  end.

(** ** The filter *)

Definition Filter_ := GroupFilter (C := AnyCounter) (A := AttrCounter (U := U)) (L := AnyLabel) (T := AttrLabel).

(** [groupCounterMap] holds the places of the counters. *)
Fixpoint init_counters (params : list GroupPropParam) (counterMap : list (string * nat)) (counters : list AnyCounter)
    : Step (list (string * nat) * list AnyCounter) :=
  match params with
  | [] => mret (counterMap, counters)
  | param :: params =>
      match find_entry (property_ param) counterMap with
      | Some _ => init_counters params counterMap counters
      | None =>
          counter ← createGroupCounter param;
          init_counters params (counterMap ++ [(property_ param, length counters)]) (counters ++ [counter])
      end
  end.

Fixpoint init_labels (counterMap : list (string * nat)) (labels : list GroupLabelParam) : Step (list (AnyLabel * option nat)) :=
  match labels with
  | [] => mret []
  | label :: labels =>
      l ← createGroupLabel label;
      rest ← init_labels counterMap labels;
      mret ((l, find_entry label.1 counterMap) :: rest)
  end.

Definition initGroup (p : GroupParam) : Step Filter_ :=
  '(counterMap, counters) ← init_counters (groupProps_ p) [] [];
  labels ← init_labels counterMap (groupLabels p);
  mret (Filter labels counters [] None).

Definition initAttr (p : GroupParam) (t : AttrTable (U := U)) (categoryTable : option (PropValueTable (U := U))) (f : Filter_) : Step Filter_ :=
  _ ← insertSharedLock AttrLock;
  attrCounter ←
    (if isAttrGroup_ p then
       match searchMode_ p, categoryTable, isAttrToken_ p with
       | ZAMBEZI, Some categories, true =>
           _ ← insertSharedLock (ValueLock "Category"); mret (Some (attr_score_counter_new t categories))
       | _, _, _ => mret (Some (attr_counter_new t 1 (attrIterDocNum_ p)))
       end
     else mret None);
  labels ← defined (mapM (λ l : string * list string, attr_label_new t (u_of_string l.1) (map u_of_string l.2)) (attrLabels p));
  mret (Filter (groupLabels_ f) (groupCounters_ f) labels attrCounter).

(** No filter is also the result for an empty request. *)
Definition createFilter (p : GroupParam) : Step Filter_ :=
  if isEmpty p then null
  else
    f ← (if isGroupEmpty p then mret (Filter [] [] [] None) else initGroup p);
    if isAttrEmpty p then mret f
    else
      t ← pointer (attrTable tables);
      initAttr p t (getPropValueTable "Category") f.

(** ** Searching with the filter *)

#[local] Instance any_counter_ops : GroupCounterOps U AnyCounter := any_counter child_order u_of_string.
#[local] Instance attr_ops : AttrCounterOps (list (RepItem U)) (AttrCounter (U := U)) :=
  attr_counter_ops convert_to_str att_name_weight att_value_weight.

(** A label without a table accepts nothing: there are none without. *)
Definition attr_test (l : AttrLabel) (doc : nat) : option bool :=
  t ← attrTable tables; attr_label_test t l doc.

Definition search_docs (docs : list nat) (f : Filter_) : option (list nat * Filter_) :=
  test_docs any_label_test attr_test attrNameId_ docs f.

(** The last limit of a property holds. *)
Definition grouptop_for_props (p : GroupParam) (prop : string) : option Z :=
  find_entry prop (rev (map (λ param, (property_ param, group_top_ param)) (groupProps_ p))).

Context (u_to_text : U → string).

Definition filter_getGroupRep (p : GroupParam) (f : Filter_) : option (GroupRep U * list (RepItem U)) :=
  groupRep ← foldM (λ r c, '(r, _) ← gc_getGroupRep c r; Some r) rep_new (groupCounters_ f);
  attrRep ← match attrCounter_ f with
            | Some a => '(r, _) ← ac_getGroupRep (attrGroupNum_ p) a []; Some r
            | None => Some []
            end;
  groupRep ← (if existsb (λ param, 0 <? group_top_ param) (groupProps_ p)
              then ResizeTo u_of_string u_to_text (grouptop_for_props p) groupRep else Some groupRep);
  Some (groupRep, attrRep).
End request.
