(* ===== verification/GroupRequestSpec.v ===== *)
(** * Searches with groups

    A request that [checkParam] accepts gets a filter when its tables are
    loaded: every property has its counter, every label knows the counter of
    its property, and every table that is read is locked.  The search then
    returns the documents that all labels accept, and the counter of a property
    has counted the documents that the labels of the other properties accept. *)
From S2P Require Import Prelude CNum OrderedMap PriorityQueue QueueSpec PropIdTable PropValueTable.
From S2P Require Import GroupRep GroupCount GroupNumeric GroupResize DateGroup GroupFilter GroupCounters.
From S2P Require Import SplitText AttrTable AttrCounter GroupParam GroupRequest.

Lemma foldM_keeps {A B} (P : B → Prop) (good : A → Prop) (f : B → A → option B) l :
  (∀ b x, P b → good x → ∃ b', f b x = Some b' ∧ P b') → Forall good l → ∀ b, P b → ∃ b', foldM f b l = Some b' ∧ P b'.
Proof.
  intros Hf. induction 1 as [|x l Hx _ IH]; intros b Hb; [by exists b|]. cbn [foldM].
  destruct (Hf b x Hb Hx) as (b' & -> & Hb'). by apply IH.
Qed.

Section spec.
Context {U : Type} `{Countable U} (child_order : gmap U Z → list (U * Z)) (u_of_string : string → U) (u_empty : U).
Context `{HD : !DateText} (cast_float : string → option double).
Context (convert_to_str : U → string) (att_name_weight : string → string → double)
  (att_value_weight : string → string → string → double).
Context {Q : Type} `{HQ : !PQOps (Z * double) Q}.
Context (tables : Tables (U := U)).

#[local] Instance spec_value_ops : GroupCounterOps U (ValueCounter (U := U)) := value_counter child_order u_of_string.
#[local] Instance spec_counter_ops : GroupCounterOps U (AnyCounter (U := U)) := any_counter child_order u_of_string.
#[local] Instance spec_attr_ops : AttrCounterOps (list (RepItem U)) (AttrCounter (U := U)) :=
  attr_counter_ops convert_to_str att_name_weight att_value_weight.

Record tables_ok : Prop := {
  to_values : ∀ prop t, getPropValueTable tables prop = Some t → table_ok t ∧ id_table_ok (valueIdTable_ t);
  to_dates : ∀ prop t, getDateGroupTable tables prop = Some t → id_table_ok t;
  to_attrs : ∀ t, attrTable tables = Some t → attr_ok u_empty t }.

(** The tables know the document, or have no values for it. *)
Record doc_fits (d : nat) : Prop := {
  df_values : ∀ prop t, getPropValueTable tables prop = Some t →
    ∃ ids, ids_of (valueIdTable_ t) d = Some ids ∧ Forall (λ v, 0 < v < value_num t) ids;
  df_numbers : ∀ prop t, createPropertyTable tables prop = Some t → from_option d_num True (getDoubleValue t d) }.

Context (Htables : tables_ok).

(** ** Counters never fail *)

Definition value_counting (c : ValueCounter (U := U)) : Prop :=
  match c with
  | StringValue t _ table => (∃ prop, getPropValueTable tables prop = Some t) ∧ ∃ f, counts (length (propStrVec_ t)) table f
  | NumericValue _ => True
  | DateValue c => id_table_ok (date_table c)
  end.

Lemma value_counts d c : doc_fits d → value_counting c → ∃ c', gc_addDoc d c = Some c' ∧ value_counting c'.
Proof.
  intros Hd. unfold gc_addDoc. cbn [spec_value_ops value_counter]. destruct c as [t name table|c|c]; cbn [value_addDoc value_counting].
  - intros [[prop Hp] [f Hf]]. destruct (df_values d Hd prop t Hp) as (ids & Eids & Hids). destruct (to_values Htables prop t Hp) as [Hok Hid].
    destruct (addDoc_ok t Hok Hid (λ _, ids) d table f) as (c' & -> & Hc'); [done|done|done|]. cbn [mbind option_bind].
    eexists. split; [reflexivity|]. split; [by exists prop|by eexists].
  - intros _. by eexists.
  - intros Hok. destruct (ids_of_total (date_table c) d Hok) as [ids Hids].
    destruct (getDateSet_ok (date_table c) d (date_mask c) ids Hok Hids) as (S & ES & _).
    unfold date_addDoc. rewrite ES. cbn [mbind option_bind]. by eexists.
Qed.

Definition counter_counting (c : AnyCounter (U := U)) : Prop :=
  match c with
  | PlainCounter c => value_counting c
  | TwoLevelCounter c => subbed_ok value_counting c ∧ ∀ d, doc_fits d → readable c d
  | RangesCounter c => length (segmentTree_ c) = 778%nat
  end.

Lemma counter_counts d c : doc_fits d → counter_counting c → ∃ c', gc_addDoc d c = Some c' ∧ counter_counting c'.
Proof.
  intros Hd. unfold gc_addDoc at 1. cbn [spec_counter_ops any_counter]. destruct c as [c|c|c]; cbn [counter_counting].
  - intros Hc. destruct (value_counts d c Hd Hc) as (c' & E & Hc'). fold (spec_value_ops). rewrite E. by eexists.
  - intros [Hok Hr]. destruct (subbed_addDoc_ok value_counting doc_fits value_counts c d Hd Hok (Hr d Hd)) as (c' & E & Hc').
    change (gc_addDoc d c) with (subbed_addDoc d c). rewrite E. cbn [mbind option_bind]. eexists. split; [reflexivity|].
    split; [apply (sc_ok _ _ _ _ Hc')|]. intros x Hx. apply (sc_readable _ _ _ _ Hc'), Hr, Hx.
  - destruct c as [prop t v]. simpl. intros Hv. unfold range_addDoc. simpl. destruct (getInt32Value t d) as [x|]; [|by eexists].
    destruct (0 <? x) eqn:E; [|by eexists]. bool_cases. destruct (leaf_of_ok x E) as (i & -> & Hi & _). cbn [mbind option_bind].
    destruct (lookup_lt_is_Some_2 v i) as [n ->]; [lia|]. cbn [mbind option_bind]. eexists. split; [reflexivity|]. simpl. by rewrite length_insert.
Qed.

(** ** Counting attributes never fails *)

Section attrs.
Context (t : AttrTable (U := U)) (Ht : attr_ok u_empty t).

Definition attr_counting (a : AttrCounter (U := U)) : Prop :=
  attrTable_ a = t ∧ ∀ s, scores_ a = Some s → ∃ prop, getPropValueTable tables prop = Some (categoryValueTable_ s).

Lemma value_known v : 0 < v < Z.of_nat (length (valueStrVec_ t)) →
  ∃ n name value, valueId2NameId t v = Some n ∧ nameStr t n = Some name ∧ valueStr t v = Some value.
Proof.
  intros Hv. destruct (attr_value_some u_empty t v Ht) as [p E]; [lia|]. unfold attr_value in E.
  destruct (valueId2NameId t v) as [n|]; [|done]. cbn [mbind option_bind] in E.
  destruct (nameStr t n) as [name|] eqn:En; [|done]. destruct (valueStr t v) as [value|]; [|done]. by exists n, name, value.
Qed.

(** The values of a document, one after the other. *)
Lemma attr_values_keep {B} (P : B → Prop) (g : B → Z → option B) d (k : PropIdList → B → option B) b :
  (∀ b v, P b → 0 < v < Z.of_nat (length (valueStrVec_ t)) → ∃ b', g b v = Some b' ∧ P b') → P b →
  ∃ l b', getIdList (attr_valueIdTable_ t) d = Some l ∧
  foldM (λ st i, vId ← list_at (attr_valueIdTable_ t) l i; g st vId) b (seq 0 (Z.to_nat (list_size l))) = Some b' ∧ P b'.
Proof.
  intros Hg Hb. destruct (ids_of_total (attr_valueIdTable_ t) d (at_ids _ t Ht)) as [ids Hids].
  destruct (ids_of_list _ d ids (at_ids _ t Ht) Hids) as (l & El & _ & Hl). exists l.
  destruct (foldM_keeps P (λ v, 0 < v < Z.of_nat (length (valueStrVec_ t))) g ids Hg (at_docs _ t Ht d ids Hids) b Hb) as (b' & E & Hb').
  exists b'. by rewrite (foldM_mapM (list_at (attr_valueIdTable_ t) l) g _ ids _ Hl), E.
Qed.

Lemma count_iter_keeps a : attr_counting a →
  match count_iter a with Some a' => attr_counting a' | None => True end.
Proof.
  intros Ha. unfold count_iter. destruct (maxIterCount_ a =? 0); [done|]. by destruct (maxIterCount_ a <=? iterCount_ a).
Qed.

Lemma base_counts d a : attr_counting a → ∃ a', base_addDoc d a = Some a' ∧ attr_counting a'.
Proof.
  intros Ha. unfold base_addDoc. pose proof (count_iter_keeps a Ha) as Hi. destruct (count_iter a) as [a1|]; [|by exists a].
  destruct Hi as [Et Hs]. rewrite Et.
  destruct (attr_values_keep (λ st : AttrCounter * gset Z, attr_counting st.1) add_value_of d (λ _ _, None) (a1, ∅)) as (l & [a2 S] & -> & E & Ha2).
  - intros [b S] v [Eb Hb] Hv. unfold add_value_of. cbn [attrTable_ count_value with_counts]. simpl in Eb. rewrite Eb.
    destruct (value_known v Hv) as (n & name & value & -> & _ & _). cbn [mbind option_bind].
    destruct (decide (n ∈ S)); eexists; (split; [reflexivity|]); by split.
  - by split.
  - cbn [mbind option_bind]. rewrite E. cbn [mbind option_bind]. by exists a2.
Qed.

Lemma attr_doc_counts nId d a : attr_counting a → ∃ a', addAttrDoc nId d a = Some a' ∧ attr_counting a'.
Proof.
  intros Ha. unfold addAttrDoc. pose proof (count_iter_keeps a Ha) as Hi. destruct (count_iter a) as [a1|]; [|by exists a].
  destruct Hi as [Et Hs]. rewrite Et.
  destruct (attr_values_keep (λ st : AttrCounter * bool, attr_counting st.1)
    (λ st vId, nameId ← valueId2NameId t vId; Some (if nameId =? nId then (count_value vId st.1, true) else st)) d (λ _ _, None) (a1, false))
    as (l & [a2 b] & -> & E & Ha2).
  - intros [b f] v [Eb Hb] Hv. destruct (value_known v Hv) as (n & name & value & -> & _ & _). cbn [mbind option_bind].
    eexists. split; [reflexivity|]. by destruct (n =? nId).
  - by split.
  - cbn [mbind option_bind]. rewrite E. cbn [mbind option_bind]. eexists. split; [reflexivity|]. by destruct b.
Qed.

Lemma category_known d s : doc_fits d → (∃ prop, getPropValueTable tables prop = Some s) → is_Some (categoryStr_ convert_to_str s d).
Proof.
  intros Hd [prop Hp]. destruct (df_values d Hd prop s Hp) as (ids & Eids & Hids). destruct (to_values Htables prop s Hp) as [Hok Hid].
  destruct (ids_of_list _ d ids Hid Eids) as (l & El & Esize & Hl). unfold categoryStr_, getPropIdList. rewrite El. cbn [mbind option_bind].
  destruct (list_size l =? 0) eqn:E0; [done|]. bool_cases. destruct ids as [|v ids]; [simpl in Esize; lia|].
  rewrite Esize, Nat2Z.id in Hl. cbn [length seq mapM] in Hl. destruct (list_at (valueIdTable_ s) l 0) as [x|]; [|done].
  cbn [mbind option_bind] in Hl. destruct (mapM _ _) in Hl; [|done]. injection Hl as -> _. inversion_clear Hids as [|?? Hv _].
  cbn [mbind option_bind]. unfold propValueStr. destruct (proj2 (vat_lt (propStrVec_ s) v)) as [x ->]; [unfold value_num in Hv; lia|]. done.
Qed.

Lemma score_counts d s a : doc_fits d → attr_counting a → scores_ a = Some s →
  ∃ a', score_addDoc convert_to_str att_name_weight att_value_weight d s a = Some a' ∧ attr_counting a'.
Proof.
  intros Hd [Et Hs] Es. destruct (category_known d (categoryValueTable_ s) Hd (Hs s Es)) as [cat Ec]. unfold score_addDoc. rewrite Ec. cbn [mbind option_bind].
  rewrite Et.
  destruct (attr_values_keep (λ st : AttrCounter * AttrScores * gset Z, attrTable_ st.1.1 = t ∧ categoryValueTable_ st.1.2 = categoryValueTable_ s)
    (add_scored_value convert_to_str att_name_weight att_value_weight cat) d (λ _ _, None) (a, s, ∅)) as (l & [[a2 s2] S] & -> & E & Ha2 & Hs2).
  - intros [[b s1] S] v [Eb Eb'] Hv. simpl in Eb, Eb'. unfold add_scored_value. rewrite Eb.
    destruct (value_known v Hv) as (n & name & value & -> & En & Ev). cbn [mbind option_bind]. rewrite En. cbn [mbind option_bind].
    destruct (d_lt _ kMinNameScore); [by eexists|]. rewrite Ev. cbn [mbind option_bind]. destruct (d_lt _ kMinValueScore); [by eexists|].
    destruct (decide (n ∈ S)); eexists; (split; [reflexivity|]); by split.
  - done.
  - cbn [mbind option_bind]. rewrite E. cbn [mbind option_bind]. eexists. split; [reflexivity|]. split; [done|].
    intros s' [= <-]. simpl in Hs2. rewrite Hs2. by apply Hs.
Qed.

Lemma attrs_count d a : doc_fits d → attr_counting a → ∃ a', ac_addDoc d a = Some a' ∧ attr_counting a'.
Proof.
  intros Hd Ha. change (ac_addDoc d a) with (attr_addDoc convert_to_str att_name_weight att_value_weight d a). unfold attr_addDoc.
  destruct (scores_ a) as [s|] eqn:E; [by apply score_counts|by apply base_counts].
Qed.

Lemma attr_label_total name values : is_Some (attr_label_new t name values).
Proof.
  unfold attr_label_new. assert (0 ≤ nameId name t < Z.of_nat (length (valueStrTable_ t))) as Hn.
  { rewrite (at_tables _ t Ht). unfold nameId. destruct (nameStrMap_ t !! name) as [i|] eqn:E; simpl.
    - apply (at_name _ t Ht) in E. apply vat_lt. by eexists.
    - pose proof (proj1 (at_zero _ t Ht)) as ?%lookup_lt_Some. lia. }
  apply vat_lt in Hn as [m Em].
  destruct (mapM (λ value, valueId (nameId name t) value t) values) eqn:E; [done|]. exfalso.
  assert (mapM (λ v, valueId (nameId name t) v t) values = Some (map (λ v, default 0 (m !! v)) values)); [|congruence].
  apply mapM_Some. apply Forall2_fmap_r, Forall_Forall2_diag, Forall_true. intros v. unfold valueId. by rewrite Em.
Qed.

Lemma attr_test_total l d : is_Some (attr_label_test t l d).
Proof.
  destruct (ids_of_total (attr_valueIdTable_ t) d (at_ids _ t Ht)) as [ids Hids].
  destruct (ids_of_list _ d ids (at_ids _ t Ht) Hids) as (li & El & _ & Hl). unfold attr_label_test. rewrite El. cbn [mbind option_bind].
  rewrite (any_target_ok t li _ _ ids Hl). done.
Qed.
End attrs.

(** ** What the builder makes *)

(** A counter of the property that has counted nothing, its table locked. *)
Inductive fresh_value (locks : PropSharedLockSet) (prop : string) : ValueCounter (U := U) → Prop :=
  | fresh_string t : getPropValueTable tables prop = Some t → ValueLock prop ∈ locks →
      fresh_value locks prop (StringValue t prop (counter_new t))
  | fresh_number t : createPropertyTable tables prop = Some t → NumericLock prop ∈ locks →
      fresh_value locks prop (NumericValue (num_counter_new prop t))
  | fresh_date t mask : getDateGroupTable tables prop = Some t → DateLock prop ∈ locks →
      fresh_value locks prop (DateValue (date_counter_new t prop mask)).

Inductive fresh_counter (locks : PropSharedLockSet) (prop : string) : AnyCounter (U := U) → Prop :=
  | fresh_plain c : fresh_value locks prop c → fresh_counter locks prop (PlainCounter c)
  | fresh_string_sub t sub c : getPropValueTable tables prop = Some t → ValueLock prop ∈ locks → fresh_value locks sub c →
      fresh_counter locks prop (TwoLevelCounter (string_sub_new t prop c))
  | fresh_number_sub t sub c : createPropertyTable tables prop = Some t → NumericLock prop ∈ locks → fresh_value locks sub c →
      fresh_counter locks prop (TwoLevelCounter (numeric_sub_new prop t c))
  | fresh_date_sub t mask sub c : getDateGroupTable tables prop = Some t → DateLock prop ∈ locks → fresh_value locks sub c →
      fresh_counter locks prop (TwoLevelCounter (date_sub_new t prop mask c))
  | fresh_ranges t : createPropertyTable tables prop = Some t → NumericLock prop ∈ locks →
      fresh_counter locks prop (RangesCounter (range_counter_new prop t)).

(** A label of the property, its table locked. *)
Inductive label_made (locks : PropSharedLockSet) (prop : string) : AnyLabel (U := U) → Prop :=
  | made_string t ids : getPropValueTable tables prop = Some t → ValueLock prop ∈ locks → label_made locks prop (StringLabel t ids)
  | made_number t l : createPropertyTable tables prop = Some t → NumericLock prop ∈ locks → label_made locks prop (NumericLabel t l)
  | made_date t masks : getDateGroupTable tables prop = Some t → DateLock prop ∈ locks → label_made locks prop (DateLabel t masks).

Lemma fresh_value_more s s' prop c : s ⊆ s' → fresh_value s prop c → fresh_value s' prop c.
Proof. intros Hs []; econstructor; eauto. Qed.

Lemma fresh_counter_more s s' prop c : s ⊆ s' → fresh_counter s prop c → fresh_counter s' prop c.
Proof. intros Hs []; econstructor; eauto using fresh_value_more. Qed.

Lemma label_made_more s s' prop l : s ⊆ s' → label_made s prop l → label_made s' prop l.
Proof. intros Hs []; econstructor; eauto. Qed.

(** A step only adds locks; its result, if there is one, satisfies [P]. *)
Definition gives {A} (m : Step A) (P : PropSharedLockSet → A → Prop) : Prop :=
  ∀ s r s', m s = Some (r, s') → s ⊆ s' ∧ ∀ x, r = Some x → P s' x.

Lemma gives_bind {A B} (m : Step A) (k : A → Step B) P R : gives m P →
  (∀ x s r s', P s x → k x s = Some (r, s') → s ⊆ s' ∧ ∀ y, r = Some y → R s' y) → gives (m ≫= k) R.
Proof.
  intros Hm Hk s r s' E. unfold mbind, step_bind in E. destruct (m s) as [[[x|] s1]|] eqn:Em; [| |done].
  - destruct (Hm s _ s1 Em) as [Hs HP]. destruct (Hk x s1 r s' (HP x eq_refl) E) as [Hs' HR]. split; [by etransitivity|done].
  - injection E as <- <-. destruct (Hm s _ s1 Em) as [Hs _]. split; [done|]. by intros y.
Qed.

Lemma mret_inv {A} (x : A) s r s' : (mret x : Step A) s = Some (r, s') → s' = s ∧ r = Some x.
Proof. unfold mret, step_ret. by intros [= <- <-]. Qed.

Ltac returned E := apply mret_inv in E as [-> ->]; split; [done|]; intros ? [= <-].

Lemma gives_null {A} (P : PropSharedLockSet → A → Prop) : gives null P.
Proof. intros s r s' [= <- <-]. by split. Qed.

(** Looking up a table and locking it. *)
Lemma gives_locked {A B} (p : option A) (lock : Lock) (k : A → Step B) P :
  (∀ x s r s', p = Some x → lock ∈ s → k x s = Some (r, s') → s ⊆ s' ∧ ∀ y, r = Some y → P s' y) →
  gives (x ← pointer p; _ ← insertSharedLock lock; k x) P.
Proof.
  clear Htables convert_to_str att_name_weight att_value_weight.
  intros Hk s r s' E. unfold mbind, step_bind, pointer, insertSharedLock in E. destruct p as [x|]; [|injection E as <- <-; by split].
  destruct (Hk x ({[lock]} ∪ s) r s' eq_refl ltac:(set_solver) E) as [Hs HP]. split; [set_solver|done].
Qed.

Lemma string_counter_made prop sub subprop : 
  gives (createStringCounter_ tables prop sub) (λ s c, from_option (fresh_value s subprop) True sub → fresh_counter s prop c).
Proof.
  apply gives_locked. intros t s r s' Ht Hs E. returned E. intros Hsub.
  destruct sub as [c|]; [by apply (fresh_string_sub _ _ t subprop)|by apply fresh_plain, fresh_string].
Qed.

Lemma numeric_counter_made prop sub subprop : 
  gives (createNumericCounter_ tables prop sub) (λ s c, from_option (fresh_value s subprop) True sub → fresh_counter s prop c).
Proof.
  apply gives_locked. intros t s r s' Ht Hs E. returned E. intros Hsub.
  destruct sub as [c|]; [by apply (fresh_number_sub _ _ t subprop)|by apply fresh_plain, fresh_number].
Qed.

Lemma date_counter_made prop unit sub subprop : 
  gives (createDateCounter_ tables prop unit sub) (λ s c, from_option (fresh_value s subprop) True sub → fresh_counter s prop c).
Proof.
  unfold createDateCounter_. intros s r s'. unfold mbind at 1, step_bind at 1, pointer at 1. destruct (unitStrToMask unit) as [mask|].
  - revert s r s'. apply gives_locked. intros t s r s' Ht Hs E. returned E. intros Hsub.
    destruct sub as [c|]; [by apply (fresh_date_sub _ _ t mask subprop)|by apply fresh_plain, fresh_date].
  - intros [= <- <-]. by split.
Qed.

Lemma value_counter_made param sub subprop : gives (createValueCounter_ tables param sub)
  (λ s c, from_option (fresh_value s subprop) True sub → fresh_counter s (property_ param) c).
Proof.
  unfold createValueCounter_. destruct (groupConfigMap_ tables !! property_ param) as [ty|]; [|apply gives_null].
  destruct (isStringType ty); [apply string_counter_made|]. destruct (isNumericType ty); [apply numeric_counter_made|].
  destruct (isDateTimeType ty); [apply date_counter_made|apply gives_null].
Qed.

Lemma fresh_plain_inv s prop c : fresh_counter s prop (PlainCounter c) → fresh_value s prop c.
Proof. by inversion_clear 1. Qed.

Lemma group_counter_made param : gives (createGroupCounter tables param) (λ s c, fresh_counter s (property_ param) c).
Proof.
  unfold createGroupCounter. destruct (isRange_ param).
  { unfold createNumericRangeCounter_. destruct (groupConfigMap_ tables !! property_ param) as [ty|]; [|apply gives_null].
    destruct (isNumericType ty); [|apply gives_null]. apply gives_locked. intros t s r s' Ht Hs E.
    returned E. by apply fresh_ranges. }
  destruct (is_empty (subProperty_ param)).
  { intros s r s' E. destruct (value_counter_made param None EmptyString s r s' E) as [Hs HP]. split; [done|].
    intros c Hc. by apply (HP c Hc). }
  intros s r s' E. unfold mbind, step_bind, or_null in E.
  destruct (createValueCounter_ tables (PropParam (subProperty_ param) "" false "" 0) None s) as [[sub s1]|] eqn:Esub; [|done].
  cbn [mbind option_bind] in E.
  destruct (value_counter_made _ None EmptyString s _ s1 Esub) as [Hs1 HP1].
  destruct (value_counter_made param (plain_of sub) (subProperty_ param) s1 r s' E) as [Hs' HP]. split; [by etransitivity|].
  intros c Hc. apply (HP c Hc). destruct sub as [[sc|sc|sc]|]; try done. simpl. eapply fresh_value_more; [exact Hs'|].
  apply fresh_plain_inv. exact (HP1 _ eq_refl I).
Qed.

Lemma group_label_made label : gives (createGroupLabel u_of_string cast_float tables label) (λ s l, label_made s label.1 l).
Proof.
  unfold createGroupLabel. destruct (groupConfigMap_ tables !! label.1) as [ty|]; [|apply gives_null].
  destruct (isStringType ty).
  { apply gives_locked. intros t s r s' Ht Hs E. unfold mbind, step_bind, defined in E.
    destruct (getTargetValueIds_ t _) as [ids|]; [|done]. cbn [mbind option_bind] in E. returned E. by apply made_string. }
  assert (∀ {A} (p : option A) (f : A → NumericRangeGroupLabel), gives (t ← pointer (createPropertyTable tables label.1); v ← pointer p;
    _ ← insertSharedLock (NumericLock label.1); mret (NumericLabel t (f v))) (λ s l, label_made s label.1 l)) as Hnum.
  { intros A p f s r s'. unfold mbind at 1, step_bind at 1, pointer at 1.
    destruct (createPropertyTable tables label.1) as [t|] eqn:Et; [|intros [= <- <-]; by split]. revert s r s'. apply gives_locked.
    intros v s r s' Hv Hs E. returned E. by apply made_number. }
  destruct (isNumericType ty).
  { unfold createNumericRangeLabel_. intros s r s' E. unfold mbind at 1, step_bind at 1, pointer at 1 in E.
    destruct (checkLabelParam label) as [[]|]; [by apply (Hnum _ _ _) in E|by apply (Hnum _ _ _) in E|injection E as <- <-; by split]. }
  destruct (isDateTimeType ty); [|apply gives_null].
  unfold createDateLabel_. intros s r s'. unfold mbind at 1, step_bind at 1, pointer at 1.
  destruct (convert_paths api_date label.2) as [masks|]; [|intros [= <- <-]; by split]. revert s r s'. apply gives_locked.
  intros t s r s' Ht Hs E. returned E. by apply made_date.
Qed.

(** ** The filter *)

(** The properties that are counted, each once. *)
Fixpoint group_names (params : list GroupPropParam) (seen : list string) : list string :=
  match params with
  | [] => seen
  | param :: params =>
      if decide (property_ param ∈ seen) then group_names params seen else group_names params (seen ++ [property_ param])
  end.

Definition names_of (p : GroupParam) : list string := group_names (groupProps_ p) [].

Definition indexed (names : list string) : list (string * nat) := zip names (seq 0 (length names)).

Lemma indexed_snoc names x : indexed (names ++ [x]) = indexed names ++ [(x, length names)].
Proof.
  unfold indexed. rewrite length_app. simpl. rewrite seq_app, zip_with_app by by rewrite length_seq. done.
Qed.

Lemma lookup_indexed names i : indexed names !! i = (λ x, (x, i)) <$> names !! i.
Proof.
  unfold indexed. rewrite lookup_zip_with. destruct (names !! i) as [x|] eqn:E; [|done]. simpl.
  apply lookup_lt_Some in E as Hl. by rewrite lookup_seq_lt.
Qed.

Lemma find_indexed names key k : NoDup names → find_entry key (indexed names) = Some k ↔ names !! k = Some key.
Proof.
  intros Hnd. unfold find_entry. destruct (list_find (λ e : string * nat, e.1 = key) (indexed names)) as [[i e]|] eqn:E; simpl.
  - apply list_find_Some in E as (Hi & He & _). rewrite lookup_indexed in Hi. destruct (names !! i) as [x|] eqn:Ex; [|done].
    simpl in Hi. injection Hi as <-. simpl in *. subst x. split; [by intros [= <-]|]. intros Hk. f_equal. by eapply NoDup_lookup.
  - split; [done|]. intros Hk. apply list_find_None in E. rewrite Forall_lookup in E. destruct (E k (key, k)); [|done].
    by rewrite lookup_indexed, Hk.
Qed.

Lemma find_indexed_none names key : find_entry key (indexed names) = None ↔ key ∉ names.
Proof.
  unfold find_entry. destruct (list_find (λ e : string * nat, e.1 = key) (indexed names)) as [[i e]|] eqn:E; simpl.
  - split; [done|]. intros []. apply list_find_Some in E as (Hi & He & _). rewrite lookup_indexed in Hi.
    destruct (names !! i) as [x|] eqn:Ex; [|done]. simpl in Hi. injection Hi as <-. simpl in He. subst x. by eapply list_elem_of_lookup_2.
  - split; [|done]. intros _ Hin. apply list_elem_of_lookup_1 in Hin as [i Hi]. apply list_find_None in E. rewrite Forall_lookup in E.
    destruct (E i (key, i)); [|done]. by rewrite lookup_indexed, Hi.
Qed.

Lemma group_names_NoDup params : ∀ names, NoDup names → NoDup (group_names params names).
Proof.
  induction params as [|param params IH]; intros names Hn; [done|]. simpl. case_decide as Hd; [by apply IH|]. apply IH.
  apply NoDup_app. split_and!; [done| |by apply NoDup_singleton]. by intros x Hx ->%list_elem_of_singleton.
Qed.

Lemma init_counters_made params : ∀ names counters s r s', Forall2 (fresh_counter s) names counters →
  init_counters tables params (indexed names) counters s = Some (r, s') → s ⊆ s' ∧
  ∀ m cs, r = Some (m, cs) → m = indexed (group_names params names) ∧ Forall2 (fresh_counter s') (group_names params names) cs.
Proof.
  induction params as [|param params IH]; intros names counters s r s' Hc E; cbn [init_counters group_names] in *.
  { apply mret_inv in E as [-> ->]. split; [done|]. by intros m cs [= <- <-]. }
  destruct (find_entry (property_ param) (indexed names)) as [k|] eqn:Ef.
  - case_decide as Hd; [by eapply IH|]. apply find_indexed_none in Hd. congruence.
  - apply find_indexed_none in Ef. case_decide as Hd; [done|]. unfold mbind at 1, step_bind at 1 in E.
    destruct (createGroupCounter tables param s) as [[[c|] s1]|] eqn:Ec; [| |done].
    + destruct (group_counter_made param s _ s1 Ec) as [Hs1 HP]. rewrite <- (Forall2_length _ _ _ Hc), <- indexed_snoc in E.
      destruct (IH (names ++ [property_ param]) (counters ++ [c]) s1 r s') as [Hs' HP']; [|done|].
      { apply Forall2_app; [|constructor; [by apply HP|constructor]]. eapply Forall2_impl; [exact Hc|]. intros. by eapply fresh_counter_more. }
      split; [by etransitivity|done].
    + injection E as <- <-. destruct (group_counter_made param s _ s1 Ec) as [Hs1 _]. by split.
Qed.

Lemma init_labels_made counterMap labels : ∀ s r s', init_labels u_of_string cast_float tables counterMap labels s = Some (r, s') →
  s ⊆ s' ∧ ∀ ls, r = Some ls →
  Forall2 (λ (label : GroupLabelParam) l, label_made s' label.1 l.1 ∧ l.2 = find_entry label.1 counterMap) labels ls.
Proof.
  induction labels as [|label labels IH]; intros s r s' E; cbn [init_labels] in E.
  { apply mret_inv in E as [-> ->]. split; [done|]. intros ls [= <-]. constructor. }
  unfold mbind at 1, step_bind at 1 in E.
  destruct (createGroupLabel u_of_string cast_float tables label s) as [[[l|] s1]|] eqn:El; [| |done].
  - destruct (group_label_made label s _ s1 El) as [Hs1 Hl]. unfold mbind, step_bind in E.
    destruct (init_labels u_of_string cast_float tables counterMap labels s1) as [[[ls|] s2]|] eqn:Els; [| |done].
    + destruct (IH _ _ _ Els) as [Hs2 Hls]. apply mret_inv in E as [-> ->]. split; [by etransitivity|]. intros ls' [= <-].
      constructor; [|by apply Hls]. split; [|done]. eapply label_made_more; [exact Hs2|]. by apply Hl.
    + injection E as <- <-. destruct (IH _ _ _ Els) as [Hs2 _]. split; [by etransitivity|done].
  - injection E as <- <-. destruct (group_label_made label s _ s1 El) as [Hs1 _]. by split.
Qed.

Definition attr_counter_made (locks : PropSharedLockSet) (p : GroupParam) (t : AttrTable (U := U)) (a : AttrCounter (U := U)) : Prop :=
  a = attr_counter_new t 1 (attrIterDocNum_ p) ∨
  ∃ categories, getPropValueTable tables "Category" = Some categories ∧ ValueLock "Category" ∈ locks ∧ a = attr_score_counter_new t categories.

Definition attrs_made (locks : PropSharedLockSet) (p : GroupParam) (labels : list AttrLabel) (counter : option (AttrCounter (U := U))) : Prop :=
  if isAttrEmpty p then labels = [] ∧ counter = None
  else
    AttrLock ∈ locks ∧ ∃ t, attrTable tables = Some t ∧
    Forall2 (λ (a : string * list string) l, attr_label_new t (u_of_string a.1) (map u_of_string a.2) = Some l) (attrLabels p) labels ∧
    match counter with Some a => isAttrGroup_ p = true ∧ attr_counter_made locks p t a | None => isAttrGroup_ p = false end.

(** A filter for the request: a counter for each property, in the order of the
    request; the labels in the order of their map, each pointing to the counter
    of its property, if there is one; and every table locked. *)
Record filter_made (locks : PropSharedLockSet) (p : GroupParam) (f : Filter_ (U := U)) : Prop := {
  fm_counters : Forall2 (fresh_counter locks) (names_of p) (groupCounters_ f);
  fm_labels : Forall2 (λ (label : GroupLabelParam) l, label_made locks label.1 l.1 ∧
    ∀ k, l.2 = Some k ↔ names_of p !! k = Some label.1) (groupLabels p) (groupLabels_ f);
  fm_attrs : attrs_made locks p (attrLabels_ f) (attrCounter_ f) }.

Lemma initGroup_made p : gives (initGroup u_of_string cast_float tables p)
  (λ s f, Forall2 (fresh_counter s) (names_of p) (groupCounters_ f) ∧
    Forall2 (λ (label : GroupLabelParam) l, label_made s label.1 l.1 ∧ ∀ k, l.2 = Some k ↔ names_of p !! k = Some label.1)
      (groupLabels p) (groupLabels_ f) ∧ attrLabels_ f = [] ∧ attrCounter_ f = None).
Proof.
  intros s r s' E. unfold initGroup, mbind at 1, step_bind at 1 in E.
  destruct (init_counters tables (groupProps_ p) [] [] s) as [[[[m cs]|] s1]|] eqn:Ec; [| |done].
  - destruct (init_counters_made (groupProps_ p) [] [] s _ s1 ltac:(constructor) Ec) as [Hs1 HP]. destruct (HP m cs eq_refl) as [-> Hcs].
    fold (names_of p) in *. unfold mbind, step_bind in E.
    destruct (init_labels u_of_string cast_float tables (indexed (names_of p)) (groupLabels p) s1) as [[[ls|] s2]|] eqn:El; [| |done].
    + destruct (init_labels_made _ _ _ _ _ El) as [Hs2 Hls]. apply mret_inv in E as [-> ->]. split; [by etransitivity|].
      intros f [= <-]. cbn [groupCounters_ groupLabels_ attrLabels_ attrCounter_]. split_and!; [| |done|done].
      * eapply Forall2_impl; [exact Hcs|]. intros. by eapply fresh_counter_more.
      * eapply Forall2_impl; [by apply Hls|]. intros label l [Hl ->]. split; [done|]. intros k. apply find_indexed.
        apply group_names_NoDup. constructor.
    + injection E as <- <-. destruct (init_labels_made _ _ _ _ _ El) as [Hs2 _]. split; [by etransitivity|done].
  - injection E as <- <-. destruct (init_counters_made (groupProps_ p) [] [] s _ s1 ltac:(constructor) Ec) as [Hs1 _]. by split.
Qed.

Lemma attr_labels_made t (labels : list (string * list string)) ls :
  mapM (λ l : string * list string, attr_label_new t (u_of_string l.1) (map u_of_string l.2)) labels = Some ls →
  Forall2 (λ (a : string * list string) l, attr_label_new t (u_of_string a.1) (map u_of_string a.2) = Some l) labels ls.
Proof. apply mapM_Some_1. Qed.

Lemma initAttr_made p t f s r s' : isAttrEmpty p = false → attrTable tables = Some t →
  initAttr u_of_string p t (getPropValueTable tables "Category") f s = Some (r, s') →
  s ⊆ s' ∧ ∀ f', r = Some f' → groupLabels_ f' = groupLabels_ f ∧ groupCounters_ f' = groupCounters_ f ∧
    attrs_made s' p (attrLabels_ f') (attrCounter_ f').
Proof.
  clear Htables convert_to_str att_name_weight att_value_weight.
  intros Hne Ht E. unfold initAttr, mbind at 1, step_bind at 1, insertSharedLock at 1 in E. set (s0 := {[AttrLock]} ∪ s) in *.
  assert (∀ counter s1, s0 ⊆ s1 → match counter with Some a => isAttrGroup_ p = true ∧ attr_counter_made s1 p t a | None => isAttrGroup_ p = false end →
    (labels ← defined (mapM (λ l : string * list string, attr_label_new t (u_of_string l.1) (map u_of_string l.2)) (attrLabels p));
     mret (Filter (groupLabels_ f) (groupCounters_ f) labels counter)) s1 = Some (r, s') →
    s ⊆ s' ∧ ∀ f', r = Some f' → groupLabels_ f' = groupLabels_ f ∧ groupCounters_ f' = groupCounters_ f ∧
      attrs_made s' p (attrLabels_ f') (attrCounter_ f')) as Hend.
  { clear E. intros counter s1 Hs1 Hc E. unfold mbind, step_bind, defined in E. destruct (mapM _ (attrLabels p)) as [ls|] eqn:El; [|done].
    cbn [mbind option_bind] in E. apply mret_inv in E as [-> ->]. split; [set_solver|]. intros f' [= <-].
    cbn [groupCounters_ groupLabels_ attrLabels_ attrCounter_]. split_and!; [done|done|]. unfold attrs_made. rewrite Hne.
    split; [set_solver|]. exists t. split_and!; [done|by apply mapM_Some_1|done]. }
  unfold mbind at 1, step_bind at 1 in E. destruct (isAttrGroup_ p) eqn:Eg.
  - assert (∀ x, (mret (Some (attr_counter_new t 1 (attrIterDocNum_ p))) : Step _) s0 = Some (Some x, s0) → x = Some (attr_counter_new t 1 (attrIterDocNum_ p))) as Hx.
    { by intros x [= <-]. }
    assert (attr_counter_made s0 p t (attr_counter_new t 1 (attrIterDocNum_ p))) as Hplain by by left.
    destruct (searchMode_ p), (getPropValueTable tables "Category") as [categories|] eqn:Ecat, (isAttrToken_ p);
      try (by apply (Hend (Some _) s0 ltac:(done) (conj eq_refl Hplain)) in E).
    unfold mbind at 1, step_bind at 1, insertSharedLock at 1 in E. cbn [mret step_ret] in E. unfold mret, step_ret in E.
    apply (Hend (Some (attr_score_counter_new t categories)) ({[ValueLock "Category"]} ∪ s0)) in E; [done|set_solver|].
    split; [done|]. right. exists categories. split_and!; [done|set_solver|done].
  - by apply (Hend None s0 ltac:(done) eq_refl) in E.
Qed.

Lemma createFilter_ok p s r s' : createFilter u_of_string cast_float tables p s = Some (r, s') →
  s ⊆ s' ∧ ∀ f, r = Some f → filter_made s' p f.
Proof.
  unfold createFilter. destruct (isEmpty p); [intros [= <- <-]; by split|]. intros E.
  unfold mbind at 1, step_bind at 1 in E.
  match type of E with match ?m s with _ => _ end = _ => set (first := m) in E end.
  assert (gives first (λ s f, Forall2 (fresh_counter s) (names_of p) (groupCounters_ f) ∧
    Forall2 (λ (label : GroupLabelParam) l, label_made s label.1 l.1 ∧ ∀ k, l.2 = Some k ↔ names_of p !! k = Some label.1)
      (groupLabels p) (groupLabels_ f) ∧ attrLabels_ f = [] ∧ attrCounter_ f = None)) as Hfirst.
  { unfold first. destruct (isGroupEmpty p) eqn:Eg; [|apply initGroup_made]. intros s0 r0 s0' E0. apply mret_inv in E0 as [-> ->].
    split; [done|]. intros f [= <-]. unfold isGroupEmpty in Eg. unfold names_of.
    destruct (groupProps_ p); [|done]. destruct (groupLabels p); [|done]. split_and!; [constructor|constructor|done|done]. }
  destruct (first s) as [[[f|] s1]|] eqn:Ef; [| |done].
  - destruct (Hfirst s _ s1 Ef) as [Hs1 HP]. destruct (HP f eq_refl) as (Hcs & Hls & Ha & Hb). destruct (isAttrEmpty p) eqn:Ea.
    + apply mret_inv in E as [-> ->]. split; [done|]. intros f' [= <-]. split; [done|done|]. unfold attrs_made. by rewrite Ea.
    + unfold mbind, step_bind, pointer in E. destruct (attrTable tables) as [t|] eqn:Et; [|injection E as <- <-; by split].
      destruct (initAttr_made p t f s1 r s' Ea Et E) as [Hs' HP']. split; [by etransitivity|]. intros f' Hf'.
      destruct (HP' f' Hf') as (El & Ec & Hattr). split; [| |done].
      * rewrite Ec. eapply Forall2_impl; [exact Hcs|]. intros. by eapply fresh_counter_more.
      * rewrite El. eapply Forall2_impl; [exact Hls|]. intros label l [Hl Hk]. split; [by eapply label_made_more|done].
  - injection E as <- <-. destruct (Hfirst s _ s1 Ef) as [Hs1 _]. by split.
Qed.

(** ** Filters can be searched with *)

Lemma fresh_value_counting locks prop c : fresh_value locks prop c → value_counting c.
Proof.
  intros [t Ht _|t _ _|t mask Ht _]; simpl; [|done|by eapply to_dates].
  split; [by exists prop|]. exists (λ _, 0). split; [apply length_replicate|]. intros i Hi. unfold vat, counter_new.
  rewrite (proj2 (Z.ltb_ge i 0)) by lia. apply lookup_replicate_2. lia.
Qed.

Lemma fresh_counter_counting locks prop c : fresh_counter locks prop c → counter_counting c.
Proof.
  intros [c' Hc|t sub c' Ht _ Hc|t sub c' Ht _ Hc|t mask sub c' Ht _ Hc|t Ht _]; cbn [counter_counting].
  - by eapply fresh_value_counting.
  - apply fresh_value_counting in Hc. destruct (to_values Htables prop t Ht) as [Hok Hid]. unfold string_sub_new. simpl. split.
    + split_and!; [done| |by apply Forall_replicate]. rewrite length_replicate. pose proof (ok_size t Hok). unfold value_num in *. lia.
    + intros d Hd. destruct (df_values d Hd prop t Ht) as (ids & E & Hids). exists ids. split; [done|]. by rewrite length_replicate.
  - apply fresh_value_counting in Hc. unfold numeric_sub_new. simpl. split; [split_and!; [done|apply om_nil_ok|constructor]|].
    intros d Hd. by apply (df_numbers d Hd prop t Ht).
  - apply fresh_value_counting in Hc. pose proof (to_dates Htables prop t Ht) as Hok. unfold date_sub_new. simpl.
    split; [split_and!; [done|done|apply om_nil_ok|constructor]|]. intros d Hd. destruct (ids_of_total t d Hok) as [ids ->]. done.
  - unfold range_counter_new. cbn [segmentTree_]. apply length_replicate.
Qed.

Lemma label_total locks prop l d : label_made locks prop l → doc_fits d → is_Some (any_label_test l d).
Proof.
  intros [t ids Ht _|t l' Ht _|t masks Ht _] Hd; simpl; [|done|].
  - destruct (df_values d Hd prop t Ht) as (vals & E & Hvals). destruct (to_values Htables prop t Ht) as [Hok Hid].
    unfold label_test, parentIdSet, getPropIdList. unfold ids_of in E. destruct (getIdList (valueIdTable_ t) d) as [li|]; [|done].
    cbn [mbind option_bind] in *. rewrite (foldM_mapM (list_at (valueIdTable_ t) li) (λ S id, climb (walk_fuel t) t id S) _ vals) by done.
    destruct (climb_all t Hok (walk_fuel t) vals ∅) as (S & -> & _); [intros ? ? ? Hx; by apply elem_of_empty in Hx| |unfold walk_fuel, value_num; lia|done].
    eapply Forall_impl; [exact Hvals|]. simpl. lia.
  - pose proof (to_dates Htables prop t Ht) as Hok. destruct (ids_of_total t d Hok) as [ids Hids].
    induction masks as [|[date mask] masks IH]; [done|]. simpl.
    destruct (getDateSet_ok t d mask ids Hok Hids) as (S & -> & _). cbn [mbind option_bind]. destruct (decide (date ∈ S)); done.
Qed.

(** ** Accepted requests get a filter *)

Definition succeeds {A} (m : Step A) : Prop := ∀ s, ∃ x s', m s = Some (Some x, s').

Lemma succeeds_bind {A B} (m : Step A) (k : A → Step B) : succeeds m → (∀ x, succeeds (k x)) → succeeds (m ≫= k).
Proof. intros Hm Hk s. destruct (Hm s) as (x & s1 & E). unfold mbind, step_bind. rewrite E. apply Hk. Qed.

Lemma succeeds_ret {A} (x : A) : succeeds (mret x).
Proof. intros s. by eexists _, _. Qed.

Lemma succeeds_lock {B} lock (k : unit → Step B) : (∀ x, succeeds (k x)) → succeeds (insertSharedLock lock ≫= k).
Proof. intros Hk. apply succeeds_bind; [|done]. intros s. by eexists _, _. Qed.

Lemma succeeds_pointer {A B} (p : option A) (k : A → Step B) x : p = Some x → succeeds (k x) → succeeds (pointer p ≫= k).
Proof. intros -> Hk s. apply Hk. Qed.

Lemma succeeds_defined {A B} (r : option A) (k : A → Step B) x : r = Some x → succeeds (k x) → succeeds (defined r ≫= k).
Proof. intros -> Hk s. apply Hk. Qed.

(** The tables of the configured properties are loaded, and no property of
    another type is configured. *)
Definition tables_loaded : Prop := ∀ prop ty, groupConfigMap_ tables !! prop = Some ty →
  if isStringType ty then is_Some (getPropValueTable tables prop)
  else if isNumericType ty then is_Some (createPropertyTable tables prop)
  else isDateTimeType ty = true ∧ is_Some (getDateGroupTable tables prop).

(** [checkParam] does not look at the labels of numeric properties. *)
Definition number_label_reads (label : GroupLabelParam) : Prop :=
  (∃ ty, groupConfigMap_ tables !! label.1 = Some ty ∧ isNumericType ty = true) →
  match checkLabelParam label with
  | Some true => is_Some (convert_paths (convertRangeLabel cast_float) label.2)
  | Some false => is_Some (convert_paths (convertNumericLabel cast_float) label.2)
  | None => False
  end.

Context (Hloaded : tables_loaded).

Lemma value_counter_succeeds param sub ty : groupConfigMap_ tables !! property_ param = Some ty →
  (isDateTimeType ty = true → is_Some (unitStrToMask (unit_ param))) → succeeds (createValueCounter_ tables param sub).
Proof.
  intros Ec Hu. unfold createValueCounter_. rewrite Ec. pose proof (Hloaded _ _ Ec) as Hl.
  destruct (isStringType ty).
  { destruct Hl as [t Et]. apply (succeeds_pointer _ _ t Et). apply succeeds_lock. intros _. apply succeeds_ret. }
  destruct (isNumericType ty).
  { destruct Hl as [t Et]. apply (succeeds_pointer _ _ t Et). apply succeeds_lock. intros _. apply succeeds_ret. }
  destruct Hl as [Hd [t Et]]. rewrite Hd. destruct (Hu Hd) as [mask Em]. apply (succeeds_pointer _ _ mask Em).
  apply (succeeds_pointer _ _ t Et). apply succeeds_lock. intros _. apply succeeds_ret.
Qed.

Lemma group_counter_succeeds p param : prop_fits (groupConfigMap_ tables) p param → succeeds (createGroupCounter tables param).
Proof.
  intros [_ (ty & Ec & Hr & Hu) Hsub]. unfold createGroupCounter.
  assert (isDateTimeType ty = true → is_Some (unitStrToMask (unit_ param))) as Hu' by (intros Hd; by rewrite Hd in Hu).
  destruct (isRange_ param).
  - destruct (Hr eq_refl) as (Hnum & _). unfold createNumericRangeCounter_. rewrite Ec, Hnum. pose proof (Hloaded _ _ Ec) as Hl.
    destruct (isStringType ty) eqn:Es; [by destruct ty|]. rewrite Hnum in Hl. destruct Hl as [t Et].
    apply (succeeds_pointer _ _ t Et). apply succeeds_lock. intros _. apply succeeds_ret.
  - destruct (is_empty (subProperty_ param)) eqn:Ee; [by eapply value_counter_succeeds|].
    destruct Hsub as (_ & sty & Esub & Hnd); [intros E; by rewrite E in Ee|]. apply succeeds_bind.
    + intros s. destruct (value_counter_succeeds (PropParam (subProperty_ param) "" false "" 0) None sty Esub) with (s := s) as (x & s' & E).
      { intros Hd. simpl in Hd. congruence. }
      unfold or_null. rewrite E. by eexists _, _.
    + intros sub. by eapply value_counter_succeeds.
Qed.

Lemma label_succeeds label : label_fits (groupConfigMap_ tables) label → number_label_reads label →
  succeeds (createGroupLabel u_of_string cast_float tables label).
Proof.
  intros (ty & Ec & Hdate) Hnum. unfold createGroupLabel. rewrite Ec. pose proof (Hloaded _ _ Ec) as Hl.
  destruct (isStringType ty) eqn:Es.
  { destruct Hl as [t Et]. apply (succeeds_pointer _ _ t Et). apply succeeds_lock. intros _.
    destruct (to_values Htables _ t Et) as [Hok _].
    destruct (getTargetValueIds_ t (map (map u_of_string) label.2)) as [ids|] eqn:Ei.
    - by apply (succeeds_defined _ _ ids eq_refl), succeeds_ret.
    - exfalso. unfold getTargetValueIds_ in Ei. apply mapM_None in Ei. apply Exists_exists in Ei as (path & _ & Ep).
      destruct (find_loop_ok t Hok path 0 [] (at_root t)) as (r & Er & _). unfold propValueId in Ep. congruence. }
  destruct (isNumericType ty) eqn:En.
  { destruct Hl as [t Et]. specialize (Hnum (ex_intro _ ty (conj Ec En))). unfold createNumericRangeLabel_.
    destruct (checkLabelParam label) as [[]|]; [| |done]; destruct Hnum as [l El]; apply (succeeds_pointer _ _ _ eq_refl).
    - apply (succeeds_pointer _ _ t Et), (succeeds_pointer _ _ l El). apply succeeds_lock. intros _. apply succeeds_ret.
    - apply (succeeds_pointer _ _ t Et), (succeeds_pointer _ _ l El). apply succeeds_lock. intros _. apply succeeds_ret. }
  destruct Hl as [Hd [t Et]]. rewrite Hd. specialize (Hdate Hd). unfold createDateLabel_.
  assert (is_Some (convert_paths api_date label.2)) as [masks Em].
  { induction Hdate as [|path paths (x & rest & -> & [dm Edm]) _ [ms IH]]; [done|]. cbn [convert_paths]. rewrite Edm, IH. done. }
  apply (succeeds_pointer _ _ masks Em), (succeeds_pointer _ _ t Et). apply succeeds_lock. intros _. apply succeeds_ret.
Qed.

Lemma init_counters_succeeds p params : Forall (prop_fits (groupConfigMap_ tables) p) params →
  ∀ counterMap counters, succeeds (init_counters tables params counterMap counters).
Proof.
  induction 1 as [|param params Hp _ IH]; intros counterMap counters; cbn [init_counters]; [apply succeeds_ret|].
  destruct (find_entry _ _); [apply IH|]. apply succeeds_bind; [by eapply group_counter_succeeds|]. intros c. apply IH.
Qed.

Lemma init_labels_succeeds counterMap labels : Forall (label_fits (groupConfigMap_ tables)) labels → Forall number_label_reads labels →
  succeeds (init_labels u_of_string cast_float tables counterMap labels).
Proof.
  intros Hf Hn. induction Hf as [|label labels Hl _ IH]; cbn [init_labels]; [apply succeeds_ret|]. inversion_clear Hn as [|?? Hnl Hns].
  apply succeeds_bind; [by apply label_succeeds|]. intros l. apply succeeds_bind; [by apply IH|]. intros ls. apply succeeds_ret.
Qed.

Lemma initAttr_succeeds p t f categories : attrTable tables = Some t → succeeds (initAttr u_of_string p t categories f).
Proof.
  intros Et. unfold initAttr. apply succeeds_lock. intros _. apply succeeds_bind.
  - destruct (isAttrGroup_ p); [|apply succeeds_ret].
    destruct (searchMode_ p), categories, (isAttrToken_ p); try apply succeeds_ret. apply succeeds_lock. intros _. apply succeeds_ret.
  - intros counter. destruct (mapM (λ l : string * list string, attr_label_new t (u_of_string l.1) (map u_of_string l.2)) (attrLabels p)) as [ls|] eqn:E.
    + by apply (succeeds_defined _ _ ls eq_refl), succeeds_ret.
    + exfalso. apply mapM_None in E. apply Exists_exists in E as (a & _ & Ea).
      destruct (attr_label_total t (to_attrs Htables t Et) (u_of_string a.1) (map u_of_string a.2)) as [? ?]. congruence.
Qed.

Lemma createFilter_succeeds schema p : param_fits schema p → groupConfigMap_ tables = group_config_map schema → isEmpty p = false →
  (attr_enable schema = true → is_Some (attrTable tables)) → Forall number_label_reads (groupLabels p) →
  succeeds (createFilter u_of_string cast_float tables p).
Proof.
  intros [Hg Ha] Hcfg Hne Hattr Hnum. unfold createFilter. rewrite Hne. apply succeeds_bind.
  - destruct (isGroupEmpty p) eqn:Eg; [apply succeeds_ret|]. destruct (Hg eq_refl) as (_ & Hp & Hl & _). rewrite <- Hcfg in Hp, Hl.
    unfold initGroup. apply succeeds_bind; [by eapply init_counters_succeeds|]. intros [m cs].
    apply succeeds_bind; [by apply init_labels_succeeds|]. intros ls. apply succeeds_ret.
  - intros f. destruct (isAttrEmpty p) eqn:Ea; [apply succeeds_ret|]. destruct (Hattr (Ha eq_refl)) as [t Et].
    apply (succeeds_pointer _ _ t Et). by apply initAttr_succeeds.
Qed.

(** ** The search *)

Definition passes (l : AnyLabel (U := U)) (d : nat) : bool := default false (any_label_test l d).
Definition attr_passes (l : AttrLabel) (d : nat) : bool := default false (attr_test tables l d).

(** Every label accepts the document, those of property [prop] aside. *)
Definition accepted_but (prop : option string) (p : GroupParam) (f : Filter_ (U := U)) (d : nat) : bool :=
  forallb (λ e : GroupLabelParam * (AnyLabel * option nat), bool_decide (prop = Some e.1.1) || passes e.2.1 d)
    (zip (groupLabels p) (groupLabels_ f)) &&
  forallb (λ l, attr_passes l d) (attrLabels_ f).

Definition accepted (p : GroupParam) (f : Filter_ (U := U)) (d : nat) : bool := accepted_but None p f d.

Lemma forallb_zip {A B} (g : A * B → bool) (h : B → bool) (l : list A) (m : list B) :
  Forall2 (λ a b, g (a, b) = h b) l m → forallb g (zip l m) = forallb h m.
Proof. induction 1 as [|a b l m E _ IH]; [done|]. simpl. by rewrite E, IH. Qed.

Lemma accepted_selected locks p f d : filter_made locks p f → accepted p f d = selected passes attr_passes f d.
Proof.
  intros Hf. unfold accepted, accepted_but, selected, attrs_pass. f_equal.
  apply forallb_zip. eapply Forall2_impl; [apply (fm_labels _ _ _ Hf)|]. done.
Qed.

Lemma accepted_selected_but locks p f d k prop : filter_made locks p f → names_of p !! k = Some prop →
  accepted_but (Some prop) p f d = selected_but passes attr_passes k f d.
Proof.
  intros Hf Hk. unfold accepted_but, selected_but, attrs_pass. f_equal.
  apply forallb_zip. eapply Forall2_impl; [apply (fm_labels _ _ _ Hf)|]. intros label l [_ Hl]. simpl. f_equal. apply bool_decide_ext. rewrite Hl, Hk. done.
Qed.

Lemma filter_wired locks p f : filter_made locks p f → NoDup (map fst (groupLabels p)) → wired f.
Proof.
  intros Hf Hnd. split.
  - intros i j l l' k Hi Hj Hk Hk'. destruct (Forall2_lookup_r _ _ _ _ _ (fm_labels _ _ _ Hf) Hi) as (a & Ha & _ & Hla).
    destruct (Forall2_lookup_r _ _ _ _ _ (fm_labels _ _ _ Hf) Hj) as (b & Hb & _ & Hlb). apply Hla in Hk. apply Hlb in Hk'.
    assert (∀ n x, groupLabels p !! n = Some x → map fst (groupLabels p) !! n = Some x.1) as Hmap.
    { intros n x E. by apply list_lookup_fmap_Some_2. }
    apply (NoDup_lookup _ i j a.1 Hnd); [by apply Hmap|]. rewrite (Hmap j b Hb). congruence.
  - intros i l k Hi Hk. destruct (Forall2_lookup_r _ _ _ _ _ (fm_labels _ _ _ Hf) Hi) as (a & Ha & _ & Hla). apply Hla in Hk.
    rewrite <- (Forall2_length _ _ _ (fm_counters _ _ _ Hf)). by eapply lookup_lt_Some.
Qed.

Definition attr_fine (a : AttrCounter (U := U)) : Prop := ∃ t, attrTable tables = Some t ∧ attr_counting t a.

Lemma filter_counting locks p f : filter_made locks p f → counting counter_counting attr_fine f.
Proof.
  intros Hf. split.
  - apply Forall_forall. intros c [i Hi]%list_elem_of_lookup. destruct (Forall2_lookup_r _ _ _ _ _ (fm_counters _ _ _ Hf) Hi) as (prop & _ & Hc).
    by eapply fresh_counter_counting.
  - pose proof (fm_attrs _ _ _ Hf) as Ha. unfold attrs_made in Ha. destruct (isAttrEmpty p); [by destruct Ha as [_ ->]|].
    destruct Ha as (_ & t & Et & _ & Hc). destruct (attrCounter_ f) as [a|]; [|done]. destruct Hc as [_ [->|(cats & Ec & _ & ->)]].
    + exists t. split; [done|]. by split.
    + exists t. split; [done|]. split; [done|]. intros s [= <-]. by exists "Category"%string.
Qed.

Lemma filter_defined locks p f d : filter_made locks p f → doc_fits d → defined_at any_label_test (attr_test tables) passes attr_passes f d.
Proof.
  intros Hf Hd. split; apply Forall_forall.
  - intros l [i Hi]%list_elem_of_lookup. destruct (Forall2_lookup_r _ _ _ _ _ (fm_labels _ _ _ Hf) Hi) as (a & _ & Hl & _).
    destruct (label_total locks a.1 l.1 d Hl Hd) as [b Hb]. unfold passes. by rewrite Hb.
  - intros l Hin. pose proof (fm_attrs _ _ _ Hf) as Ha. unfold attrs_made in Ha. destruct (isAttrEmpty p).
    { destruct Ha as [E _]. rewrite E in Hin. by apply not_elem_of_nil in Hin. }
    destruct Ha as (_ & t & Et & _). unfold attr_passes, attr_test. rewrite Et. cbn [mbind option_bind].
    destruct (attr_test_total t (to_attrs Htables t Et) l d) as [b ->]. done.
Qed.

(** C30: Whenever [createFilter] returns a filter, it has one counter for each
    property of the request, that has counted nothing, and one label for each
    restriction, that points to the counter of its property if there is one;
    and every table that a counter, a label or the attributes read is locked.
    *)
Theorem filter_tables_locked p s r s' : createFilter u_of_string cast_float tables p s = Some (r, s') →
  s ⊆ s' ∧ ∀ f, r = Some f → filter_made s' p f.
Proof. apply createFilter_ok. Qed.

(** C22: A search with groups, from the request to the counts: if [checkParam]
    accepts the request, the tables of the configured properties are loaded
    and the labels of numeric properties are numbers or ranges, then
    [createFilter] returns a filter; the search returns exactly the documents
    that every label accepts, and the counter of a property has counted
    exactly the documents that the labels of all other properties accept.
    Nothing is read out of range. *)
Theorem checked_search schema p docs :
  groupConfigMap_ tables = group_config_map schema → (attr_enable schema = true → is_Some (attrTable tables)) →
  checkParam schema p = None → isEmpty p = false → NoDup (map fst (groupLabels p)) → Forall number_label_reads (groupLabels p) →
  Forall doc_fits docs →
  ∃ f locks f', createFilter u_of_string cast_float tables p ∅ = Some (Some f, locks) ∧ filter_made locks p f ∧
  search_docs child_order u_of_string convert_to_str att_name_weight att_value_weight tables docs f =
    Some (filter (λ d, accepted p f d = true) docs, f') ∧
  (∀ k prop c, names_of p !! k = Some prop → groupCounters_ f !! k = Some c → ∃ c', groupCounters_ f' !! k = Some c' ∧
    foldM (λ c d, gc_addDoc d c) c (filter (λ d, accepted_but (Some prop) p f d = true) docs) = Some c') ∧
  match attrCounter_ f with
  | Some a => ∃ a', attrCounter_ f' = Some a' ∧ foldM (attr_count attrNameId_ passes attr_passes f) a docs = Some a'
  | None => attrCounter_ f' = None
  end.
Proof.
  intros Hcfg Hattr Hcheck Hne Hnd Hnum Hdocs. apply checkParam_ok in Hcheck.
  destruct (createFilter_succeeds schema p Hcheck Hcfg Hne Hattr Hnum ∅) as (f & locks & E).
  destruct (createFilter_ok p ∅ _ locks E) as [_ Hf]. specialize (Hf f eq_refl). exists f, locks.
  destruct (test_docs_ok any_label_test (attr_test tables) attrNameId_ passes attr_passes counter_counting attr_fine doc_fits) with
    (docs := docs) (f := f) (acc := @nil nat) as (f' & Et & _ & _ & Hcs & Ha).
  - intros d c. apply counter_counts.
  - intros d a Hd (t & Ht & Hok). destruct (attrs_count t (to_attrs Htables t Ht) d a Hd Hok) as (a' & Ea & Ha'). exists a'.
    split; [done|]. by exists t.
  - intros n d a Hd (t & Ht & Hok). destruct (attr_doc_counts t (to_attrs Htables t Ht) n d a Hok) as (a' & Ea & Ha'). exists a'.
    split; [done|]. by exists t.
  - done.
  - by eapply filter_wired.
  - by eapply filter_counting.
  - eapply Forall_impl; [exact Hdocs|]. intros d. by eapply filter_defined.
  - exists f'. split_and!; [done|done| | |done].
    + refine (eq_trans Et _). cbn [app]. do 3 f_equal. apply list_filter_iff. intros d. by rewrite (accepted_selected locks p f d Hf).
    + intros k prop c Hk Hc. destruct (Hcs k c Hc) as (c' & Hc' & Ef). exists c'. split; [done|]. rewrite <- Ef. f_equal.
      apply list_filter_iff. intros d. by rewrite (accepted_selected_but locks p f d k prop Hf Hk).
Qed.
End spec.
