(* ===== verification/GroupSearch.v ===== *)
(** * A search with groups, on concrete tables

    Documents 4 and 7 and their prices, a property of paths mined from texts,
    and attributes; the request counts by food and by attribute and restricts
    the price. *)
From S2P Require Import Prelude CNum OrderedMap PriorityQueue QueueSpec PropIdTable PropValueTable.
From S2P Require Import GroupRep GroupCount GroupNumeric GroupResize DateGroup GroupFilter GroupCounters.
From S2P Require Import SplitText AttrTable AttrCounter GroupMining GroupParam GroupRequest GroupRequestSpec.

#[local] Existing Instance plain_date_text.

Definition food_table : PropValueTable (U := ustring) := default no_foods (buildDoc_ no_compact 4 food_text no_foods).

Lemma food_table_ok : table_ok food_table ∧ id_table_ok (valueIdTable_ food_table).
Proof.
  destruct (group_mining_ok no_compact no_foods 4 food_paths food_text) as (t & E & Hok & Hid & _).
  - apply table_new_ok.
  - unfold id_table_ok. apply Forall_singleton. left. rewrite INDEX_MSB_eq. lia.
  - done.
  - exact food_text_ok.
  - vm_compute. congruence.
  - done.
  - done.
  - unfold food_table. rewrite E. done.
Qed.

Definition price_of (d : nat) : option Z := if (d =? 4)%nat then Some 15 else if (d =? 7)%nat then Some 12 else if (d =? 5)%nat then Some 30 else None.

Definition prices : NumericPropertyTableBase := NumTable price_of (λ d, d_of_Z <$> price_of d) (λ d, d_of_Z <$> price_of d).

Definition shop_config : GroupConfigMap := {["Food"%string := STRING_PROPERTY_TYPE; "Price"%string := FLOAT_PROPERTY_TYPE]}.

Definition shop : Tables (U := ustring) := {|
  groupConfigMap_ := shop_config;
  strPropMap_ := {["Food"%string := food_table]};
  datePropMap_ := ∅;
  createPropertyTable prop := if decide (prop = "Price"%string) then Some prices else None;
  attrTable := Some shirts |}.

(** [lexical_cast] of a whole number. *)
Definition cast_whole (s : string) : option double := d_of_Z <$> decimal_parse 0 s.

(** Counts by food, at most two labels; attributes; food of any kind at a price
    from 10 to 20. *)
Definition lunch : GroupParam :=
  Param [PropParam "Food" "" false "" 0; PropParam "Food" "" false "" 2]
    [("Food", [["food"]]); ("Price", [["10-20"]])]%string [] true 0 0 [] DefaultSearchingMode false.

Definition shop_schema : MiningSchema := Schema true shop_config true.

Lemma lunch_accepted : checkParam shop_schema lunch = None.
Proof. vm_compute. reflexivity. Qed.

Lemma lunch_tables_ok : tables_ok [] shop.
Proof.
  split.
  - intros prop t E. unfold getPropValueTable in E. simpl in E. apply lookup_singleton_Some in E as [_ <-]. apply food_table_ok.
  - intros prop t E. unfold getDateGroupTable in E. simpl in E. by rewrite lookup_empty in E.
  - intros t E. change (Some shirts = Some t) in E. apply (inj Some) in E as <-. apply shirts_ok.
Qed.

Lemma shop_loaded : tables_loaded shop.
Proof.
  intros prop ty E. simpl in E. unfold shop_config in E. apply lookup_insert_Some in E as [[<- <-]|[_ E]].
  - exists food_table. apply lookup_singleton_eq.
  - apply lookup_singleton_Some in E as [<- <-]. by exists prices.
Qed.

Lemma prices_num d : from_option d_num True (getDoubleValue prices d).
Proof. simpl. unfold price_of. destruct (d =? 4)%nat, (d =? 7)%nat, (d =? 5)%nat; exact I || done. Qed.

Lemma shop_fits d ids : ids_of (valueIdTable_ food_table) d = Some ids → forallb (λ v, (0 <? v) && (v <? value_num food_table)) ids = true →
  doc_fits shop d.
Proof.
  intros E Hids. split.
  - intros prop t Et. unfold getPropValueTable in Et. simpl in Et. apply lookup_singleton_Some in Et as [_ <-]. exists ids. split; [done|].
    apply Forall_forall. intros v Hv. rewrite forallb_forall in Hids. specialize (Hids v (proj1 (list_elem_of_In _ _) Hv)).
    apply andb_prop in Hids as [H1 H2]. bool_cases. done.
  - intros prop t Et. simpl in Et. case_decide; [|done]. injection Et as <-. apply prices_num.
Qed.

Definition no_text (s : ustring) : string := EmptyString.
Definition no_weight (a b : string) : double := d_zero.
Definition no_value_weight (a b c : string) : double := d_zero.

Definition lunch_made : option (option (Filter_ (U := ustring)) * PropSharedLockSet) := createFilter chars cast_whole shop lunch ∅.
Definition lunch_filter : Filter_ (U := ustring) := match lunch_made with Some (Some f, _) => f | _ => Filter [] [] [] None end.
Definition lunch_locks : PropSharedLockSet := match lunch_made with Some (_, locks) => locks | None => ∅ end.

Lemma lunch_labels_read : Forall (number_label_reads cast_whole shop) (groupLabels lunch).
Proof.
  repeat constructor; [intros (ty & Ety & Hty)|intros _; vm_compute; by eexists].
  vm_compute in Ety. injection Ety as <-. done.
Qed.

Lemma lunch_is_made : lunch_made = Some (Some lunch_filter, lunch_locks).
Proof.
  destruct (createFilter_succeeds chars [] cast_whole shop lunch_tables_ok shop_loaded shop_schema lunch) with (s := ∅ : PropSharedLockSet)
    as (f & locks & E).
  - apply checkParam_ok, lunch_accepted.
  - reflexivity.
  - reflexivity.
  - by eexists.
  - exact lunch_labels_read.
  - unfold lunch_filter, lunch_locks, lunch_made. by rewrite E.
Qed.

(** Document 4 is the result.  Document 7, which has no food, costs 12: it
    would be counted under Food, document 5 costs too much. *)
Lemma checked_search_witness :
  ∃ f locks f', createFilter chars cast_whole shop lunch ∅ = Some (Some f, locks) ∧
  search_docs map_to_list chars no_text no_weight no_value_weight shop [4; 5; 7]%nat f = Some ([4]%nat, f') ∧
  ValueLock "Food" ∈ locks ∧ NumericLock "Price" ∈ locks.
Proof.
  destruct (checked_search map_to_list chars [] cast_whole no_text no_weight no_value_weight shop lunch_tables_ok shop_loaded shop_schema lunch
    [4; 5; 7]%nat) as (f & locks & f' & E & Hf & Es & _).
  - reflexivity.
  - by eexists.
  - exact lunch_accepted.
  - reflexivity.
  - vm_compute. repeat constructor; rewrite ?list_elem_of_singleton; (done || by intros ?%not_elem_of_nil).
  - exact lunch_labels_read.
  - repeat constructor; eapply shop_fits; vm_compute; reflexivity.
  - exists f, locks, f'. split; [exact E|]. assert (f = lunch_filter ∧ locks = lunch_locks) as [-> ->].
    { unfold lunch_filter, lunch_locks, lunch_made. rewrite E. done. }
    split; [|split; apply (bool_decide_unpack _); vm_compute; exact I].
    rewrite Es. apply (f_equal (λ l, Some (l, f'))). vm_compute. reflexivity.
Defined.

Lemma filter_tables_locked_witness :
  ∃ f locks, createFilter chars cast_whole shop lunch ∅ = Some (Some f, locks) ∧ filter_made chars shop locks lunch f.
Proof.
  exists lunch_filter, lunch_locks. split; [exact lunch_is_made|].
  exact (proj2 (filter_tables_locked chars cast_whole shop lunch ∅ _ lunch_locks lunch_is_made) lunch_filter eq_refl).
Defined.

(** The counts shown: Food, with the two kinds at its top, and the attributes of
    document 4, which has none. *)
Example lunch_counts :
  ('(docs, f) ← search_docs map_to_list chars no_text no_weight no_value_weight shop [4; 5; 7]%nat lunch_filter;
   r ← filter_getGroupRep map_to_list chars no_text no_weight no_value_weight to_string lunch f; Some (docs, r)) =
  Some ([4]%nat, (Rep [new_item 0 (chars "Food") 0 1; new_item 1 (chars "toys") 0 1; new_item 1 (chars "food") 0 1;
    new_item 2 (chars "fruit") 0 1] [] [], [])).
Proof. vm_compute. reflexivity. Qed.

(** A range without a lower bound starts at the least positive [float], so a
    free document is not below 100; and a negative number is such a range. *)
Example free_is_not_cheap :
  (r ← convertRangeLabel cast_whole "-100"; Some (num_label_test (NumTable (λ _, Some 0) (λ _, Some d_zero) (λ _, Some d_zero))
    (TargetRanges [r]) 1)) = Some false ∧
  checkLabelParam ("Price", [["-5"]])%string = Some true.
Proof. split; vm_compute; reflexivity. Qed.
