(* ===== verification/DocIter.v ===== *)
(** * Document iterators: the interface ([search-manager/DocumentIterator.h])

    [DocIter] are the operations of [DocumentIterator] that move it; a [None]
    is a loop that ran out of fuel.  [DocIterSpec] is what the combining
    iterators rely on: an iterator stands for a strictly increasing list of
    documents.  The contract asks nothing of an iterator that has reached its
    end, and promises [skipTo] only for targets after the current document,
    because the implementations differ elsewhere: the default [skipTo] always
    moves, the one of the index stays on a document equal to the target. *)
From S2P Require Import Prelude CNum.

Definition MAX_DOC_ID : Z := 4294967295.

Class DocIter (I : Type) := {
  next : I → option (bool * I);
  doc : I → Z;
  skipTo : Z → I → option (Z * I) }.

#[export] Hint Mode DocIter ! : typeclass_instances.

(** The documents of [l] from [t] on. *)
Definition from (t : Z) (l : list Z) : list Z := filter (λ d, t ≤ d) l.

Class DocIterSpec (I : Type) `{DocIter I} := {
  it_inv : I → Prop;
  (** the current document, or a number below all of them *)
  it_pos : I → Z;
  it_rest : I → list Z;
  it_sorted : ∀ i, it_inv i → StronglySorted Z.lt (it_rest i);
  it_bounds : ∀ i, it_inv i → Forall (λ d, it_pos i < d < MAX_DOC_ID) (it_rest i);
  it_next_ok : ∀ i, it_inv i →
    match it_rest i with
    | [] => ∃ i', next i = Some (false, i')
    | d :: r => ∃ i', next i = Some (true, i') ∧ it_inv i' ∧ doc i' = d ∧
                      it_pos i' = d ∧ it_rest i' = r
    end;
  it_skip_ok : ∀ i t, it_inv i → it_pos i < t →
    match from t (it_rest i) with
    | [] => ∃ i', skipTo t i = Some (MAX_DOC_ID, i')
    | d :: r => ∃ i', skipTo t i = Some (d, i') ∧ it_inv i' ∧ doc i' = d ∧
                      it_pos i' = d ∧ it_rest i' = r
    end }.

(** ** Sorted lists of documents *)

Lemma from_cons t d l : from t (d :: l) = if decide (t ≤ d) then d :: from t l else from t l.
Proof. unfold from. apply filter_cons. Qed.

Lemma filter_all (P : Z → Prop) `{!∀ x, Decision (P x)} l : Forall P l → filter P l = l.
Proof. induction 1; [done|]. rewrite filter_cons_True by done. by f_equal. Qed.

Lemma from_all t l : Forall (λ d, t ≤ d) l → from t l = l.
Proof. apply filter_all. Qed.

Lemma elem_of_from t l d : d ∈ from t l ↔ t ≤ d ∧ d ∈ l.
Proof. apply list_elem_of_filter. Qed.

Lemma sorted_filter (P : Z → Prop) `{!∀ x, Decision (P x)} l :
  StronglySorted Z.lt l → StronglySorted Z.lt (filter P l).
Proof.
  induction 1 as [|d l Hs IH Hd]; [constructor|]. rewrite filter_cons. case_decide; [|done].
  constructor; [done|]. rewrite Forall_forall in Hd |- *. intros x [_ Hx]%list_elem_of_filter. auto.
Qed.

Lemma sorted_from t l : StronglySorted Z.lt l → StronglySorted Z.lt (from t l).
Proof. apply sorted_filter. Qed.

(** [from t] of a sorted list is a suffix: the tail follows its head. *)
Lemma from_split t l d r :
  StronglySorted Z.lt l → from t l = d :: r →
  t ≤ d ∧ d ∈ l ∧ (∀ x, x ∈ l → t ≤ x → d ≤ x) ∧ (∀ x, x ∈ r ↔ x ∈ l ∧ d < x).
Proof.
  induction 1 as [|x l Hs IH Hx]; intros E; [done|]. rewrite from_cons in E.
  rewrite Forall_forall in Hx. case_decide as Hd.
  - injection E as -> Hr. rewrite from_all in Hr by (apply Forall_forall; intros y Hy; specialize (Hx y Hy); lia).
    subst r. split_and!; [done|by left| |].
    + intros y [->|Hy]%elem_of_cons _; [lia|]. specialize (Hx y Hy). lia.
    + intros y. rewrite elem_of_cons. split; [intros Hy; split; [by right|by apply Hx]|].
      intros [[->|Hy] Hlt]; [lia|done].
  - destruct (IH E) as (Ht & Hin & Hmin & Hr). split_and!; [done|by right| |].
    + intros y [->|Hy]%elem_of_cons Hty; [lia|by apply Hmin].
    + intros y. rewrite Hr, elem_of_cons. split; [intros [Hy Hlt]; split; [by right|done]|].
      intros [[->|Hy] Hlt]; [specialize (Hx d Hin); lia|done].
Qed.

Lemma sorted_head_least d l : StronglySorted Z.lt (d :: l) → ∀ x, x ∈ l → d < x.
Proof. intros H. inversion_clear H as [|?? _ Hd]. by rewrite Forall_forall in Hd. Qed.

Lemma sorted_ext l1 l2 :
  StronglySorted Z.lt l1 → StronglySorted Z.lt l2 → (∀ x, x ∈ l1 ↔ x ∈ l2) → l1 = l2.
Proof.
  revert l2. induction l1 as [|a l1 IH]; intros [|b l2] H1 H2 Hext; [done|..].
  - exfalso. apply (not_elem_of_nil b), Hext. by left.
  - exfalso. apply (not_elem_of_nil a), Hext. by left.
  - pose proof (sorted_head_least _ _ H1) as Ha. pose proof (sorted_head_least _ _ H2) as Hb.
    assert (a = b) as ->.
    { assert (a ∈ b :: l2) as [?|Hab]%elem_of_cons by (apply Hext; by left); [done|].
      assert (b ∈ a :: l1) as [?|Hba]%elem_of_cons by (apply Hext; by left); [done|].
      specialize (Ha b Hba). specialize (Hb a Hab). lia. }
    f_equal. inversion_clear H1. inversion_clear H2. apply IH; [done|done|].
    intros x. specialize (Hext x). rewrite !elem_of_cons in Hext. split; intros Hx.
    + destruct (proj1 Hext (or_intror Hx)) as [->|?]; [|done]. specialize (Ha b Hx). lia.
    + destruct (proj2 Hext (or_intror Hx)) as [->|?]; [|done]. specialize (Hb b Hx). lia.
Qed.

(** ** All the documents of an iterator *)

(** The loop of a search: [while (it.next()) ... it.doc() ...]. *)
Fixpoint drain {I} `{DocIter I} (fuel : nat) (i : I) : option (list Z) :=
  match fuel with
  | O => None
  | S fuel =>
      '(b, i) ← next i;
      if (b : bool) then (l ← drain fuel i; Some (doc i :: l)) else Some []
  end.

(** A simulation [R] between iterators and the documents they stand for
    determines what the loop sees. *)
Lemma drain_simulation {I} `{DocIter I} (R : I → list Z → Prop) :
  (∀ i l, R i l →
    match l with
    | [] => ∃ i', next i = Some (false, i')
    | d :: r => ∃ i', next i = Some (true, i') ∧ doc i' = d ∧ R i' r
    end) →
  ∀ l i fuel, R i l → (length l < fuel)%nat → drain fuel i = Some l.
Proof.
  intros HR. induction l as [|d r IH]; intros i [|fuel] Hi Hf; simpl in Hf; [lia| |lia|];
    specialize (HR _ _ Hi); cbn [drain].
  - by destruct HR as (i' & ->).
  - destruct HR as (i' & -> & Hd & Hi'). cbn [mbind option_bind].
    rewrite (IH i' fuel Hi') by lia. cbn [mbind option_bind]. by rewrite Hd.
Qed.

Lemma drain_rest {I} `{DocIterSpec I} i fuel :
  it_inv i → (length (it_rest i) < fuel)%nat → drain fuel i = Some (it_rest i).
Proof.
  intros Hi. apply (drain_simulation (λ i l, it_inv i ∧ it_rest i = l)); [|done].
  clear. intros i l [Hi <-]. pose proof (it_next_ok i Hi) as Hn.
  destruct (it_rest i); [done|]. destruct Hn as (i' & ? & ? & ? & ? & ?). by exists i'.
Qed.

(** ** The default [skipTo] *)

Section default_skip.
Context {I : Type} (next : I → option (bool * I)) (doc : I → Z).

(** [do { if (!next()) return MAX_DOC_ID; currDoc = doc(); } while (target > currDoc);] *)
Fixpoint default_skipTo (fuel : nat) (target : Z) (i : I) : option (Z * I) :=
  match fuel with
  | O => None
  | S fuel =>
      '(b, i) ← next i;
      if (b : bool) then
        if doc i <? target then default_skipTo fuel target i else Some (doc i, i)
      else Some (MAX_DOC_ID, i)
  end.
End default_skip.

(** ** An iterator whose document is cached

    Deletions and NOT terms keep the document of an iterator [j] in a variable
    that becomes [MAX_DOC_ID] at its end. *)

Definition minus (l nd : list Z) : list Z := filter (λ d, d ∉ nd) l.

Lemma minus_cons d l nd : minus (d :: l) nd = if decide (d ∈ nd) then minus l nd else d :: minus l nd.
Proof. unfold minus. rewrite filter_cons. repeat case_decide; done. Qed.

Lemma minus_ext l nd nd' : (∀ x, x ∈ l → x ∈ nd' ↔ x ∈ nd) → minus l nd' = minus l nd.
Proof.
  induction l as [|d l IH]; intros Hx; [done|]. rewrite !minus_cons, IH.
  - pose proof (Hx d ltac:(by left)). repeat case_decide; tauto.
  - intros x Hxl. apply Hx. by right.
Qed.

Section at_doc.
Context {J : Type} `{DocIterSpec J}.

(** The iterator stands on [d] ([MAX_DOC_ID] at its end); [nd] are the
    documents it has
    from there on. *)
Definition at_doc (d : Z) (j : J) (nd : list Z) : Prop :=
  (d = MAX_DOC_ID ∧ nd = []) ∨
  (d < MAX_DOC_ID ∧ it_inv j ∧ it_pos j = d ∧ nd = d :: it_rest j).

Lemma at_doc_skip j d t nd :
  at_doc d j nd → d < t < MAX_DOC_ID →
  ∃ d' j' nd', skipTo t j = Some (d', j') ∧ at_doc d' j' nd' ∧ t ≤ d' ∧
               (∀ x, t ≤ x → x ∈ nd' ↔ x ∈ nd).
Proof.
  intros [[-> _]|(_ & Hj & Hp & ->)] Ht; [lia|].
  pose proof (it_skip_ok j t Hj ltac:(lia)) as Hs. pose proof (it_bounds j Hj) as Hb.
  destruct (from t (it_rest j)) as [|d' r] eqn:E.
  - destruct Hs as (j' & ->). eexists _, _, []. split_and!; [done|by left|lia|].
    intros x Hx. split; [by intros ?%not_elem_of_nil|]. intros [->|Hxr]%elem_of_cons; [lia|].
    rewrite <- E. by apply elem_of_from.
  - destruct Hs as (j' & -> & Hj' & _ & Hp' & Hr').
    destruct (from_split t _ _ _ (it_sorted j Hj) E) as (Htd & Hin & Hmin & Hgt).
    rewrite Forall_forall in Hb. specialize (Hb _ Hin).
    eexists _, _, (d' :: r). split_and!; [done|right|done|].
    + split_and!; [lia|done|done|by rewrite Hr'].
    + intros x Hx. rewrite !elem_of_cons, Hgt. split.
      * intros [->|[? _]]; by right.
      * intros [->|Hxr]; [lia|]. specialize (Hmin x Hxr Hx).
        destruct (decide (x = d')); [by left|right; split; [done|lia]].
Qed.

Lemma at_doc_least d j nd : at_doc d j nd → Forall (λ x, d ≤ x) nd.
Proof.
  intros [[_ ->]|(_ & Hj & <- & ->)]; [constructor|]. constructor; [lia|].
  eapply Forall_impl; [apply (it_bounds j Hj)|]. simpl. lia.
Qed.

(** The comparison of the two documents decides the first one of the
    conjunction. *)
Lemma settle d L dN j nd :
  StronglySorted Z.lt (d :: L) → at_doc dN j nd → d ≤ dN → d < MAX_DOC_ID →
  if decide (d = dN) then it_inv j ∧ minus (d :: L) nd = minus L (it_rest j)
  else minus (d :: L) nd = d :: minus L nd.
Proof.
  intros Hs Hn Hd Hmax. pose proof (at_doc_least _ _ _ Hn) as Hge. case_decide as E.
  - subst dN. destruct Hn as [[? _]|(_ & Hj & Hp & ->)]; [lia|]. split; [done|].
    rewrite minus_cons, decide_True by (by left). apply minus_ext.
    intros x Hx. pose proof (sorted_head_least _ _ Hs x Hx). rewrite elem_of_cons.
    split; [|by right]. intros [->|?]; [lia|done].
  - assert (Forall (λ x, d < x) nd) as Hlt by (eapply Forall_impl; [exact Hge|]; simpl; lia).
    rewrite minus_cons, decide_False; [done|]. intros Hin. rewrite Forall_forall in Hlt.
    specialize (Hlt d Hin). lia.
Qed.
End at_doc.

(** ** A posting list in memory *)

(** The simplest iterator: the documents still to come, and the current one. *)
Record ListIter := LIter { li_doc : Z; li_rest : list Z }.

Definition li_next (i : ListIter) : option (bool * ListIter) :=
  match li_rest i with
  | [] => Some (false, i)
  | d :: r => Some (true, LIter d r)
  end.

#[export] Instance list_iter : DocIter ListIter := {
  next := li_next;
  doc := li_doc;
  skipTo := λ t i, default_skipTo li_next li_doc (S (length (li_rest i))) t i }.

Lemma list_skip_ok t r : ∀ d fuel,
  (length r < fuel)%nat →
  match from t r with
  | [] => ∃ i', default_skipTo li_next li_doc fuel t (LIter d r) = Some (MAX_DOC_ID, i')
  | d' :: r' => StronglySorted Z.lt r →
      default_skipTo li_next li_doc fuel t (LIter d r) = Some (d', LIter d' r')
  end.
Proof.
  induction r as [|x r IH]; intros d [|fuel] Hf; simpl in Hf; [lia| |lia|].
  { by eexists. }
  rewrite from_cons. specialize (IH x fuel ltac:(lia)). simpl.
  destruct (x <? t) eqn:E; bool_cases.
  - rewrite decide_False by lia. destruct (from t r); [done|]. intros Hs. apply IH. by inversion Hs.
  - rewrite decide_True by lia. intros Hs. inversion_clear Hs as [|?? _ Hx].
    rewrite from_all; [done|]. eapply Forall_impl; [exact Hx|]. simpl. lia.
Qed.

Definition li_inv (i : ListIter) : Prop :=
  StronglySorted Z.lt (li_rest i) ∧ Forall (λ d, li_doc i < d < MAX_DOC_ID) (li_rest i).

Lemma li_inv_from t i d r :
  li_inv i → from t (li_rest i) = d :: r → li_inv (LIter d r).
Proof.
  intros [Hs Hb] E. destruct (from_split t _ _ _ Hs E) as (_ & _ & _ & Hr).
  pose proof (sorted_from t _ Hs) as Hs'. rewrite E in Hs'. inversion_clear Hs'.
  split; [done|]. simpl. rewrite Forall_forall in Hb |- *.
  intros x [Hx Hlt]%Hr. specialize (Hb x Hx). lia.
Qed.

#[export] Program Instance list_iter_spec : DocIterSpec ListIter := {
  it_inv := li_inv; it_pos := li_doc; it_rest := li_rest }.
Next Obligation. by intros i []. Qed.
Next Obligation. by intros i []. Qed.
Next Obligation.
  intros [d [|x r]] Hi; simpl; [by eexists|]. eexists. split_and!; try done.
  apply (li_inv_from x _ x r Hi). simpl. destruct Hi as [Hs _]. simpl in Hs.
  inversion_clear Hs as [|?? _ Hx]. apply from_all. constructor; [done|].
  eapply Forall_impl; [exact Hx|]. simpl. lia.
Qed.
Next Obligation.
  intros [d r] t Hi _. pose proof (list_skip_ok t r d (S (length r)) ltac:(lia)) as Hk. simpl in *.
  destruct (from t r) as [|x r'] eqn:E; [done|]. eexists. split_and!; [apply Hk, Hi| |done|done|done].
  by apply (li_inv_from t _ x r' Hi).
Qed.

(** Members of different classes behind one [DocumentIterator*]. *)
#[export] Instance sum_iter {A B} `{DocIter A, DocIter B} : DocIter (A + B) := {
  next i := match i with
            | inl a => '(b, a) ← next a; Some (b, inl a)
            | inr a => '(b, a) ← next a; Some (b, inr a)
            end;
  doc i := match i with inl a => doc a | inr a => doc a end;
  skipTo t i := match i with
                | inl a => '(d, a) ← skipTo t a; Some (d, inl a)
                | inr a => '(d, a) ← skipTo t a; Some (d, inr a)
                end }.

(** A posting list before its first document. *)
Definition term (ds : list Z) : ListIter := LIter 0 ds.

(** The facts about concrete posting lists: evaluation and comparison. *)
Ltac term_facts :=
  repeat first
    [ done | lia | progress unfold at_doc | apply Forall_cons_2 | apply Forall_nil_2
    | match goal with |- it_inv _ => split | |- StronglySorted _ _ => constructor
                    | |- _ ∧ _ => split end
    | progress simpl | (vm_compute; done) ].
