(* ===== verification/AndIter.v ===== *)
(** * Conjunction of iterators ([search-manager/ANDDocumentIterator.{h,cpp}])

    The list of iterators is rotated: the front one skips to the target and
    goes to the back, until all of them stand on the target.  An optional
    iterator [pNOTDocIterator_] excludes its documents.

    The member iterators have a type [I], the excluding one a type [J], known
    only through [DocIter].  The loops take fuel, and [None] means that it ran
    out; the instance at the end shows how much is enough. *)
From S2P Require Import Prelude CNum DocIter.

Section AndIter.
Context {I J : Type} `{DocIter I, DocIter J}.
Context (fuel : nat).

Record ANDDocumentIterator := And {
  docIterList_ : list I;
  currDoc_ : Z;
  pNOTDocIterator_ : option J;
  currDocOfNOTIter_ : Z;
  initNOTIterator_ : bool }.

(** [add] of an iterator that is not a NOT; [junk] is what the constructor
    leaves in [currDoc_]. *)
Definition and_new (junk : Z) : ANDDocumentIterator := And [] junk None MAX_DOC_ID false.

Definition and_add (i : I) (a : ANDDocumentIterator) : ANDDocumentIterator :=
  And (docIterList_ a ++ [i]) (currDoc_ a) (pNOTDocIterator_ a) (currDocOfNOTIter_ a)
    (initNOTIterator_ a).

(** The loop of [do_next], [nIteratorNum_] being the length of the list;
    the answer is the document all iterators stand on, if any. *)
Fixpoint next_loop (fuel nMatch : nat) (target : Z) (l : list I)
    : option (option Z * list I) :=
  match fuel with
  | O => None
  | S fuel =>
      if (length l <=? nMatch)%nat then Some (Some target, l)
      else match l with
      | [] => None
      | i :: l' =>
          '(nearTarget, i) ← skipTo target i;
          if nearTarget =? target then next_loop fuel (S nMatch) target (l' ++ [i])
          else if nearTarget =? MAX_DOC_ID then Some (None, i :: l')
          else if target <? nearTarget then next_loop fuel 1 nearTarget (l' ++ [i])
          else Some (None, i :: l')
      end
  end.

Definition set_list (l : list I) (d : Z) (a : ANDDocumentIterator) : ANDDocumentIterator :=
  And l d (pNOTDocIterator_ a) (currDocOfNOTIter_ a) (initNOTIterator_ a).

Definition do_next (a : ANDDocumentIterator) : option (bool * ANDDocumentIterator) :=
  match docIterList_ a with
  | [] => Some (false, a)
  | i :: l =>
      '(b, i) ← next i;
      if negb b then Some (false, set_list (i :: l) (currDoc_ a) a)
      else match l with
      | [] => Some (true, set_list [i] (doc i) a)
      | _ =>
          '(found, l) ← next_loop fuel 1 (doc i) (l ++ [i]);
          match found with
          | Some d => Some (true, set_list l d a)
          | None => Some (false, set_list l (currDoc_ a) a)
          end
      end
  end.

(** The loop of [do_skipTo]; unlike the one above it looks for the end of
    an iterator first. *)
Fixpoint skip_loop (fuel nMatch : nat) (target : Z) (l : list I)
    : option (option Z * list I) :=
  match fuel with
  | O => None
  | S fuel =>
      if (length l <=? nMatch)%nat then Some (Some target, l)
      else match l with
      | [] => None
      | i :: l' =>
          '(nFoundId, i) ← skipTo target i;
          if nFoundId =? MAX_DOC_ID then Some (None, i :: l')
          else if nFoundId =? target then skip_loop fuel (S nMatch) target (l' ++ [i])
          else if target <? nFoundId then skip_loop fuel 1 nFoundId (l' ++ [i])
          else Some (None, i :: l')
      end
  end.

(** With no member iterator the loop does not run and [nFoundId] keeps its
    initial [MAX_DOC_ID]. *)
Definition do_skipTo (target : Z) (a : ANDDocumentIterator)
    : option (Z * ANDDocumentIterator) :=
  match docIterList_ a with
  | [] => Some (MAX_DOC_ID, set_list [] target a)
  | l =>
      '(found, l) ← skip_loop fuel 0 target l;
      match found with
      | Some d => Some (d, set_list l d a)
      | None => Some (MAX_DOC_ID, set_list l MAX_DOC_ID a)
      end
  end.

(** *** With an excluding iterator *)

Definition set_not (j : J) (d : Z) (a : ANDDocumentIterator) : ANDDocumentIterator :=
  And (docIterList_ a) (currDoc_ a) (Some j) d true.

(** [currDocOfNOTIter_] after [pNOTDocIterator_->next()]. *)
Definition not_next (a : ANDDocumentIterator) (j : J) : option ANDDocumentIterator :=
  '(b, j) ← next j;
  Some (set_not j (if (b : bool) then doc j else MAX_DOC_ID) a).

Fixpoint move_together_with_not (fuel : nat) (a : ANDDocumentIterator)
    : option (bool * ANDDocumentIterator) :=
  match fuel with
  | O => None
  | S fuel =>
      '(ret, a) ← do_next a;
      if negb ret then Some (false, a)
      else
        j ← pNOTDocIterator_ a;
        a ← not_next a j;
        if currDoc_ a <? currDocOfNOTIter_ a then Some (true, a)
        else if currDoc_ a =? currDocOfNOTIter_ a then move_together_with_not fuel a
        else
          j ← pNOTDocIterator_ a;
          '(d, j) ← skipTo (currDoc_ a) j;
          let a := set_not j d a in
          if currDoc_ a =? d then move_together_with_not fuel a else Some (true, a)
  end.

Definition and_next (a : ANDDocumentIterator) : option (bool * ANDDocumentIterator) :=
  match pNOTDocIterator_ a with
  | None => do_next a
  | Some j =>
      match docIterList_ a with
      | [] => Some (false, a)
      | _ =>
          a ← (if initNOTIterator_ a then Some a else not_next a j);
          '(ret, a) ← do_next a;
          if currDoc_ a =? currDocOfNOTIter_ a then move_together_with_not fuel a
          else if currDoc_ a <? currDocOfNOTIter_ a then Some (ret, a)
          else
            j ← pNOTDocIterator_ a;
            '(d, j) ← skipTo (currDoc_ a) j;
            let a := set_not j d a in
            if currDoc_ a =? d then move_together_with_not fuel a else Some (ret, a)
      end
  end.

(** [do { ... } while (nFoundId != MAX_DOC_ID && nFoundId == currDocOfNOTIter_)]. *)
Fixpoint skip_with_not (fuel : nat) (currentDoc : Z) (a : ANDDocumentIterator)
    : option (Z * ANDDocumentIterator) :=
  match fuel with
  | O => None
  | S fuel =>
      '(nFoundId, a) ← do_skipTo currentDoc a;
      j ← pNOTDocIterator_ a;
      '(d, j) ← skipTo currentDoc j;
      let a := And (docIterList_ a) (currDoc_ a) (Some j) d (initNOTIterator_ a) in
      if negb (nFoundId =? MAX_DOC_ID) && ((nFoundId =? currentDoc) && (d =? currentDoc))
      then Some (MAX_DOC_ID, a)
      else if negb (nFoundId =? MAX_DOC_ID) && (nFoundId =? d)
      then skip_with_not fuel nFoundId a
      else Some (nFoundId, a)
  end.

Definition and_skipTo (target : Z) (a : ANDDocumentIterator)
    : option (Z * ANDDocumentIterator) :=
  match pNOTDocIterator_ a with
  | None => do_skipTo target a
  | Some _ => skip_with_not fuel target a
  end.
End AndIter.

Arguments ANDDocumentIterator : clear implicits.

#[export] Instance and_iter {I J} `{DocIter I, DocIter J} fuel : DocIter (ANDDocumentIterator I J) := {
  next := and_next fuel; doc := currDoc_; skipTo := and_skipTo fuel }.

(** ** The rotation finds the least common document *)

Section and_proofs.
Context {I : Type} `{DocIterSpec I}.

(** [x] is on or ahead of every iterator. *)
Definition ahead (x : Z) (l : list I) : Prop := Forall (λ i, x ∈ it_pos i :: it_rest i) l.
Definition common (t x : Z) (l : list I) : Prop := t ≤ x ∧ ahead x l.

Definition work (l : list I) : nat := sum_list_with (λ i, length (it_rest i)) l.

(** The answer of the rotation: all iterators stand on the least common
    document, and what they have left in common is unchanged. *)
Record rotated (t : Z) (l : list I) (d : Z) (l' : list I) : Prop := {
  rot_inv : Forall it_inv l';
  rot_pos : Forall (λ i, it_pos i = d) l';
  rot_len : length l' = length l;
  rot_work : (work l' ≤ work l)%nat;
  rot_common : common t d l;
  rot_least : ∀ x, common t x l → d ≤ x;
  rot_rest : ∀ x, d < x → common t x l ↔ ahead x l' }.

Lemma skip_step i t d r i' :
  it_inv i → it_pos i < t → from t (it_rest i) = d :: r →
  it_pos i' = d → it_rest i' = r →
  t ≤ d ∧ (length r < length (it_rest i))%nat ∧
  (∀ x, t ≤ x → x ∈ it_pos i :: it_rest i → d ≤ x) ∧
  (∀ x, d ≤ x → x ∈ it_pos i' :: it_rest i' ↔ x ∈ it_pos i :: it_rest i).
Proof.
  intros Hi Ht E Hp Hr. destruct (from_split t _ _ _ (it_sorted i Hi) E) as (Htd & Hin & Hmin & Hgt).
  split_and!; [done| | |].
  - pose proof (length_filter (λ d, t ≤ d) (it_rest i)) as Hl.
    change (filter _ _) with (from t (it_rest i)) in Hl. rewrite E in Hl. simpl in Hl. lia.
  - intros x Hx [->|Hxr]%elem_of_cons; [lia|by apply Hmin].
  - intros x Hx. rewrite Hp, Hr, !elem_of_cons, Hgt. split.
    + intros [->|[? ?]]; by right.
    + intros [->|Hxr]; [lia|]. destruct (decide (x = d)); [by left|right; split; [done|lia]].
Qed.

Lemma ahead_rotate x i l i' :
  (x ∈ it_pos i' :: it_rest i' ↔ x ∈ it_pos i :: it_rest i) →
  ahead x (l ++ [i']) ↔ ahead x (i :: l).
Proof.
  intros Hx. unfold ahead. rewrite Forall_app, !Forall_cons, Forall_nil, Hx. naive_solver.
Qed.

Lemma next_loop_ok fuel : ∀ nMatch t l1 l2,
  (work (l1 ++ l2) < fuel)%nat → length l2 = nMatch → l2 ≠ [] ∨ l1 ≠ [] →
  Forall it_inv (l1 ++ l2) → Forall (λ i, it_pos i < t) l1 → Forall (λ i, it_pos i = t) l2 →
  t < MAX_DOC_ID →
  ∃ found l', next_loop fuel nMatch t (l1 ++ l2) = Some (found, l') ∧
    match found with
    | Some d => rotated t (l1 ++ l2) d l' ∧ d < MAX_DOC_ID
    | None => ∀ x, ¬ common t x (l1 ++ l2)
    end.
Proof.
  induction fuel as [|fuel IH]; intros nMatch t l1 l2 Hf Hm Hne Hinv H1 H2 Ht; [lia|].
  cbn [next_loop]. destruct l1 as [|i l1].
  { rewrite (proj2 (Nat.leb_le _ _)) by (simpl; lia).
    eexists _, _. split; [done|]. simpl. split; [|done]. split; try done.
    - split; [lia|]. unfold ahead. eapply Forall_impl; [exact H2|]. intros i Hi. rewrite Hi. by left.
    - by intros x [Hx _].
    - intros x Hx. unfold common. split; [by intros []|]. split; [lia|done]. }
  rewrite (proj2 (Nat.leb_gt _ _)) by (rewrite length_app; simpl; lia).
  simpl app. simpl app in Hinv. apply Forall_cons in Hinv as [Hi Hinv].
  apply Forall_cons in H1 as [Hpi H1].
  pose proof (it_skip_ok i t Hi Hpi) as Hskip.
  destruct (from t (it_rest i)) as [|d r] eqn:E.
  { destruct Hskip as (i' & ->). cbn [mbind option_bind].
    rewrite (proj2 (Z.eqb_neq _ _)) by lia. rewrite Z.eqb_refl.
    eexists _, _. split; [done|]. intros x [Hx Ha]. apply Forall_cons in Ha as [Ha _].
    apply elem_of_cons in Ha as [->|Ha]; [lia|].
    apply (not_elem_of_nil x). rewrite <- E. by apply elem_of_from. }
  destruct Hskip as (i' & -> & Hi' & _ & Hp' & Hr'). cbn [mbind option_bind].
  destruct (skip_step i t d r i' Hi Hpi E Hp' Hr') as (Htd & Hlen & Hmin & Hext).
  assert (d < MAX_DOC_ID) as Hd.
  { pose proof (it_bounds i Hi) as Hb. rewrite Forall_forall in Hb. apply Hb.
    by destruct (from_split t _ _ _ (it_sorted i Hi) E) as (_ & ? & _). }
  assert (Forall it_inv ((l1 ++ l2) ++ [i'])) as Hinv'
    by (apply Forall_app; split; [done|by constructor]).
  assert (work ((l1 ++ l2) ++ [i']) < work (i :: l1 ++ l2))%nat as Hw.
  { unfold work in *. rewrite sum_list_with_app. simpl. rewrite Hr'. lia. }
  assert (work ((l1 ++ l2) ++ [i']) < fuel)%nat as Hf' by (simpl in Hf, Hw |- *; lia).
  assert (∀ x, d ≤ x → ahead x ((l1 ++ l2) ++ [i']) ↔ ahead x (i :: l1 ++ l2)) as Hrot.
  { intros x Hx. by apply ahead_rotate, Hext. }
  assert (∀ x, common t x (i :: l1 ++ l2) ↔ common d x ((l1 ++ l2) ++ [i'])) as Hcommon.
  { intros x. unfold common. split; intros [Hx Ha].
    - assert (d ≤ x) by (apply Hmin; [done|]; by apply Forall_cons in Ha as []).
      split; [done|]. by apply Hrot.
    - split; [lia|]. by apply Hrot. }
  assert (∀ found l', match found with
      | Some e => rotated d ((l1 ++ l2) ++ [i']) e l' ∧ e < MAX_DOC_ID
      | None => ∀ x, ¬ common d x ((l1 ++ l2) ++ [i']) end →
    match found with
      | Some e => rotated t (i :: l1 ++ l2) e l' ∧ e < MAX_DOC_ID
      | None => ∀ x, ¬ common t x (i :: l1 ++ l2) end) as Hpull.
  { intros [e|] l'; [|intros Hno x; rewrite Hcommon; apply Hno].
    intros [[? ? Hl ? ? ? Hrest] ?]. split; [|done]. split; try done.
    - rewrite Hl, length_app. simpl. lia.
    - lia.
    - by apply Hcommon.
    - intros x Hx%Hcommon. eauto.
    - intros x Hx. rewrite Hcommon. by apply Hrest. }
  destruct (d =? t) eqn:Edt; bool_cases.
  - subst d. destruct (IH (S nMatch) t l1 (l2 ++ [i'])) as (found & l' & E' & Hres);
      rewrite ?app_assoc in *; try done.
    + rewrite length_app. simpl. lia.
    + left. by destruct l2.
    + apply Forall_app. split; [done|by constructor].
    + exists found, l'. split; [exact E'|]. apply Hpull. by rewrite Edt.
  - rewrite (proj2 (Z.eqb_neq d MAX_DOC_ID)) by lia. rewrite (proj2 (Z.ltb_lt t d)) by lia.
    destruct (IH 1%nat d (l1 ++ l2) [i']) as (found & l' & E' & Hres); try done.
    + by left.
    + apply Forall_app. split; eapply Forall_impl; try done; simpl; intros; lia.
    + by constructor.
    + exists found, l'. split; [exact E'|]. by apply Hpull.
Qed.

Lemma skip_loop_next fuel : ∀ nMatch t (l : list I),
  t ≠ MAX_DOC_ID → skip_loop fuel nMatch t l = next_loop fuel nMatch t l.
Proof.
  induction fuel as [|fuel IH]; intros nMatch t l Ht; [done|]. simpl.
  destruct (length l <=? nMatch)%nat; [done|]. destruct l as [|i l]; [done|].
  destruct (skipTo t i) as [[d i']|]; [|done]. cbn [mbind option_bind].
  destruct (d =? MAX_DOC_ID) eqn:E1; bool_cases.
  - subst d. by rewrite (proj2 (Z.eqb_neq _ _)) by lia.
  - destruct (d =? t) eqn:E2; bool_cases; [by apply IH|]. destruct (t <? d); [by apply IH|done].
Qed.

(** *** The documents all members still have *)

Definition inter (l : list I) : list Z :=
  match l with
  | [] => []
  | i :: l => filter (λ d, Forall (λ j, d ∈ it_rest j) l) (it_rest i)
  end.

Lemma elem_of_inter d l : l ≠ [] → d ∈ inter l ↔ Forall (λ j, d ∈ it_rest j) l.
Proof.
  destruct l as [|i l]; [done|]. intros _. simpl.
  rewrite list_elem_of_filter, Forall_cons. tauto.
Qed.

Lemma sorted_inter l : Forall it_inv l → StronglySorted Z.lt (inter l).
Proof.
  destruct l as [|i l]; [constructor|]. intros [Hi _]%Forall_cons. simpl.
  apply sorted_filter, (it_sorted i Hi).
Qed.

Lemma length_inter l : (length (inter l) ≤ work l)%nat.
Proof.
  destruct l as [|i l]; [done|]. unfold work. simpl.
  pose proof (length_filter (λ d, Forall (λ j, d ∈ it_rest j) l) (it_rest i)). lia.
Qed.

Lemma inter_bounds l d : Forall it_inv l → d ∈ inter l → d < MAX_DOC_ID ∧ Forall (λ i, it_pos i < d) l.
Proof.
  intros Hl Hd. assert (l ≠ []) as Hne by (intros ->; by apply not_elem_of_nil in Hd). apply elem_of_inter in Hd; [|exact Hne].
  assert (Forall (λ i, it_pos i < d < MAX_DOC_ID) l) as Hb.
  { rewrite Forall_forall in Hl, Hd |- *. intros i Hi. pose proof (it_bounds i (Hl i Hi)) as Hb.
    rewrite Forall_forall in Hb. by apply Hb, Hd. }
  split; [|eapply Forall_impl; [exact Hb|]; simpl; lia].
  destruct Hb; [done|lia].
Qed.

(** What the rotation found, for any description [L] of the documents all
    members have from [t] on. *)
Lemma rotated_inter (L : list Z) t l found l' :
  StronglySorted Z.lt L → (∀ x, x ∈ L ↔ common t x l) → l ≠ [] →
  match found with
  | Some d => rotated t l d l' ∧ d < MAX_DOC_ID
  | None => ∀ x, ¬ common t x l
  end →
  match found with Some d => L = d :: inter l' | None => L = [] end.
Proof.
  intros Hs HL Hne. destruct found as [d|].
  - intros [[Hinv Hpos Hlen _ Hd Hleast Hrest] Hmax].
    assert (l' ≠ []) as Hne' by (destruct l'; [by destruct l|done]).
    assert (∀ x, x ∈ inter l' ↔ d < x ∧ common t x l) as Hin.
    { intros x. rewrite elem_of_inter by done. split.
      - intros Hx. assert (d < x) as Hdx.
        { assert (x ∈ inter l') as Hx' by (by apply elem_of_inter).
          apply inter_bounds in Hx' as [_ Hx']; [|done].
          destruct l' as [|i l']; [done|]. apply Forall_cons in Hx' as [Hx' _].
          apply Forall_cons in Hpos as [<- _]. done. }
        split; [done|]. apply Hrest; [done|]. eapply Forall_impl; [exact Hx|]. intros. by right.
      - intros [Hdx Hx%Hrest]; [|done]. unfold ahead in Hx. rewrite Forall_forall in Hx, Hpos |- *.
        intros i Hi. specialize (Hx i Hi). rewrite (Hpos i Hi) in Hx.
        apply elem_of_cons in Hx as [->|Hx]; [lia|done]. }
    apply sorted_ext; [done| |].
    + constructor; [by apply sorted_inter|]. apply Forall_forall. intros x Hx%Hin. tauto.
    + intros x. rewrite elem_of_cons, Hin, HL. split.
      * intros Hx. pose proof (Hleast x Hx). destruct (decide (x = d)); [by left|]. right. split; [lia|done].
      * intros [->|[_ Hx]]; done.
  - intros Hno. destruct L as [|x L]; [done|]. exfalso. apply (Hno x), HL. by left.
Qed.

(** Members that all stand on the same document [p]. *)
Record aligned (fuel : nat) (p : Z) (l : list I) : Prop := {
  al_ne : l ≠ [];
  al_inv : Forall it_inv l;
  al_pos : Forall (λ i, it_pos i = p) l;
  al_work : (work l < fuel)%nat }.

Lemma common_rest p t x l :
  Forall (λ i, it_pos i = p) l → p < t →
  common t x l ↔ t ≤ x ∧ Forall (λ j, x ∈ it_rest j) l.
Proof.
  intros Hp Ht. unfold common, ahead. rewrite !Forall_forall. rewrite Forall_forall in Hp.
  split; intros [Hx Hl]; (split; [done|]); intros i Hi.
  - specialize (Hl i Hi). rewrite (Hp i Hi) in Hl. apply elem_of_cons in Hl as [->|Hl]; [lia|done].
  - right. by apply Hl.
Qed.
End and_proofs.

(** ** Without an excluding iterator *)

Section and_plain.
Context {I J : Type} `{DocIterSpec I} `{DocIter J}.
Context (fuel : nat).

Definition and_pos (a : ANDDocumentIterator I J) : Z :=
  match docIterList_ a with [] => 0 | i :: _ => it_pos i end.

Lemma do_next_ok p (a : ANDDocumentIterator I J) :
  aligned fuel p (docIterList_ a) →
  match inter (docIterList_ a) with
  | [] => ∃ l, do_next fuel a = Some (false, set_list l (currDoc_ a) a)
  | d :: r => ∃ l, do_next fuel a = Some (true, set_list l d a) ∧
                   aligned fuel d l ∧ inter l = r ∧ p < d < MAX_DOC_ID
  end.
Proof.
  intros [Hne Hinv Hpos Hw]. unfold do_next. destruct (docIterList_ a) as [|i l]; [done|].
  pose proof (sorted_inter _ Hinv) as Hsort.
  pose proof (λ d, inter_bounds (i :: l) d Hinv) as Hbounds.
  apply Forall_cons in Hinv as [Hi Hinv]. apply Forall_cons in Hpos as [Hpi Hpos].
  pose proof (it_next_ok i Hi) as Hnext. cbn [inter] in *.
  destruct (it_rest i) as [|t r] eqn:Hr.
  { destruct Hnext as (i' & ->). by eexists. }
  destruct Hnext as (i' & -> & Hi' & Hdoc & Hp' & Hr'). cbn [mbind option_bind negb].
  assert (p < t < MAX_DOC_ID) as Ht.
  { pose proof (it_bounds i Hi) as Hb. rewrite Hr in Hb. apply Forall_cons in Hb as [Hb _]. lia. }
  set (L := filter _ (t :: r)) in *.
  destruct l as [|i2 l].
  { assert (L = t :: r) as ->.
    { unfold L. rewrite filter_cons_True by constructor. f_equal.
      apply filter_all, Forall_true. intros. constructor. }
    rewrite Hdoc. eexists. split; [done|]. split_and!; try lia.
    - split; [done|by constructor|by constructor|]. unfold work in *. simpl in *.
      rewrite Hr' . rewrite Hr in Hw. simpl in Hw. lia.
    - simpl. rewrite Hr'. apply filter_all, Forall_true. intros. constructor. }
  set (l0 := i2 :: l) in *.
  assert (∀ x, x ∈ L ↔ common t x (l0 ++ [i'])) as HL.
  { intros x. unfold L. rewrite list_elem_of_filter. unfold common, ahead.
    rewrite Forall_app, Forall_cons, Forall_nil, Hp', Hr'.
    pose proof (sorted_head_least t r) as Hleast. pose proof (it_sorted i Hi) as Hs.
    rewrite Hr in Hs. specialize (Hleast Hs).
    pose proof (common_rest p t x l0 Hpos ltac:(lia)) as Hc. unfold common, ahead in Hc.
    split.
    - intros [Hl Hx]. assert (t ≤ x) by (apply elem_of_cons in Hx as [->|Hx]; [lia|]; specialize (Hleast x Hx); lia).
      split; [done|]. split; [|done]. by apply Hc.
    - intros (Htx & Hl & Hx & _). split; [|done]. by apply Hc. }
  assert (work (l0 ++ [i']) < work (i :: l0))%nat as Hwork.
  { unfold work. rewrite sum_list_with_app. simpl. rewrite Hr, Hr'. simpl. lia. }
  destruct (next_loop_ok fuel 1 t l0 [i']) as (found & l' & E & Hres); try done; try lia.
  { by left. }
  { apply Forall_app. split; [done|by constructor]. }
  { eapply Forall_impl; [exact Hpos|]. simpl. lia. }
  { by constructor. }
  rewrite Hdoc, E. cbn [mbind option_bind].
  pose proof (rotated_inter L t (l0 ++ [i']) found l' Hsort HL ltac:(done) Hres) as HLe.
  destruct found as [d|]; rewrite HLe; [|by eexists].
  destruct Hres as [[] Hd]. assert (t ≤ d) as Htd by (by destruct rot_common0).
  eexists. split; [done|]. split_and!; try done; [|lia]. split; try done; [|lia].
  by destruct l'.
Qed.

Lemma do_skipTo_members t (a : ANDDocumentIterator I J) :
  docIterList_ a ≠ [] →
  do_skipTo fuel t a =
    ('(found, l) ← skip_loop fuel 0 t (docIterList_ a);
     match found with
     | Some d => Some (d, set_list l d a)
     | None => Some (MAX_DOC_ID, set_list l MAX_DOC_ID a)
     end).
Proof. unfold do_skipTo. by destruct (docIterList_ a). Qed.

Lemma do_skipTo_ok p t (a : ANDDocumentIterator I J) :
  aligned fuel p (docIterList_ a) → p < t →
  match from t (inter (docIterList_ a)) with
  | [] => ∃ l, do_skipTo fuel t a = Some (MAX_DOC_ID, set_list l MAX_DOC_ID a)
  | d :: r => ∃ l, do_skipTo fuel t a = Some (d, set_list l d a) ∧
                   aligned fuel d l ∧ inter l = r ∧ t ≤ d < MAX_DOC_ID
  end.
Proof.
  intros [Hne Hinv Hpos Hw] Hpt. rewrite do_skipTo_members by done.
  set (l := docIterList_ a) in *.
  assert (∀ x, x ∈ from t (inter l) ↔ common t x l) as HL.
  { intros x. rewrite elem_of_from, elem_of_inter by done. by rewrite (common_rest p). }
  assert (StronglySorted Z.lt (from t (inter l))) as Hsort by (by apply sorted_from, sorted_inter).
  destruct (decide (t < MAX_DOC_ID)) as [Ht|Ht].
  - destruct (next_loop_ok fuel 0 t l []) as (found & l' & E & Hres);
      rewrite ?app_nil_r; try done.
    { by right. }
    { eapply Forall_impl; [exact Hpos|]. simpl. lia. }
    rewrite app_nil_r in E, Hres. rewrite skip_loop_next, E by lia. cbn [mbind option_bind].
    pose proof (rotated_inter _ t l found l' Hsort HL Hne Hres) as HLe.
    destruct found as [d|]; rewrite HLe; [|by eexists].
    destruct Hres as [[] Hd]. assert (t ≤ d) as Htd by (by destruct rot_common0).
    eexists. split; [done|]. split_and!; try done. split; try done; [|lia].
    by destruct l', l.
  - assert (from t (inter l) = []) as ->.
    { destruct (from t (inter l)) as [|x L] eqn:E; [done|]. exfalso.
      assert (x ∈ from t (inter l)) as [Hx Hxl]%elem_of_from by (rewrite E; by left).
      destruct (inter_bounds l x Hinv Hxl). lia. }
    destruct l as [|i l']; [done|]. apply Forall_cons in Hinv as [Hi _]. apply Forall_cons in Hpos as [Hpi _].
    pose proof (it_skip_ok i t Hi ltac:(lia)) as Hskip.
    assert (from t (it_rest i) = []) as Hnil.
    { destruct (from t (it_rest i)) as [|x L] eqn:E; [done|]. exfalso.
      assert (x ∈ from t (it_rest i)) as [Hx Hxl]%elem_of_from by (rewrite E; by left).
      pose proof (it_bounds i Hi) as Hb. rewrite Forall_forall in Hb. specialize (Hb x Hxl). lia. }
    rewrite Hnil in Hskip. destruct Hskip as (i' & E). destruct fuel as [|f]; [lia|]. simpl.
    rewrite E. cbn [mbind option_bind]. rewrite Z.eqb_refl. by eexists.
Qed.
End and_plain.

Lemma aligned_pos {I J} `{DocIterSpec I} fuel p (a : ANDDocumentIterator I J) :
  aligned fuel p (docIterList_ a) → and_pos a = p.
Proof.
  intros [Hne _ Hpos _]. unfold and_pos. destruct (docIterList_ a); [done|].
  by apply Forall_cons in Hpos as [].
Qed.

#[export] Program Instance and_iter_spec {I J} `{DocIterSpec I} `{DocIter J} fuel :
    DocIterSpec (ANDDocumentIterator I J) (H := and_iter fuel) := {
  it_inv a := pNOTDocIterator_ a = None ∧ aligned fuel (and_pos a) (docIterList_ a);
  it_pos := and_pos;
  it_rest a := inter (docIterList_ a) }.
Next Obligation. intros I J ? ? ? fuel a [_ []]. by apply sorted_inter. Qed.
Next Obligation.
  intros I J ? ? ? fuel a [_ Ha]. pose proof (aligned_pos _ _ _ Ha) as Hp. destruct Ha as [Hne Hinv Hpos _].
  apply Forall_forall. intros d Hd. destruct (inter_bounds _ _ Hinv Hd) as [? Hb]. split; [|done].
  unfold and_pos. destruct (docIterList_ a); [done|]. by apply Forall_cons in Hb as [].
Qed.
Next Obligation.
  intros I J ? ? ? fuel a [Hn Ha]. pose proof (do_next_ok fuel _ a Ha) as Hd.
  simpl. unfold and_next. rewrite Hn. destruct (inter (docIterList_ a)) as [|d r].
  - destruct Hd as (l & ->). by eexists.
  - destruct Hd as (l & -> & Hl & Hr & _). eexists.
    pose proof (aligned_pos fuel d (set_list l d a) Hl) as Hp. rewrite Hp. done.
Qed.
Next Obligation.
  intros I J ? ? ? fuel a t [Hn Ha] Ht. pose proof (do_skipTo_ok fuel _ t a Ha Ht) as Hd.
  simpl. unfold and_skipTo. rewrite Hn. destruct (from t (inter (docIterList_ a))) as [|d r].
  - destruct Hd as (l & ->). by eexists.
  - destruct Hd as (l & -> & Hl & Hr & _). eexists.
    pose proof (aligned_pos fuel d (set_list l d a) Hl) as Hp. rewrite Hp. done.
Qed.

(** ** With an excluding iterator, moved by [next] *)

Section and_not.
Context {I J : Type} `{DocIterSpec I} `{DocIterSpec J}.
Context (fuel : nat).

Lemma not_next_ok (a : ANDDocumentIterator I J) j :
  it_inv j → ∃ j' d, not_next a j = Some (set_not j' d a) ∧ at_doc d j' (it_rest j).
Proof.
  intros Hj. pose proof (it_next_ok j Hj) as Hn. pose proof (it_bounds j Hj) as Hb.
  unfold not_next. destruct (it_rest j) as [|d r].
  - destruct Hn as (j' & ->). eexists _, _. split; [done|]. by left.
  - destruct Hn as (j' & -> & Hj' & <- & Hp & Hr). eexists _, _. split; [done|]. right.
    apply Forall_cons in Hb as [Hb _]. split_and!; [lia|done|done|by rewrite Hr].
Qed.

(** A conjunction whose members stand on [p], below the next document [nd]
    of the excluding iterator. *)
Record excluding (p : Z) (a : ANDDocumentIterator I J) (nd : list Z) : Prop := {
  ex_aligned : aligned fuel p (docIterList_ a);
  ex_not : ∃ j, pNOTDocIterator_ a = Some j ∧ at_doc (currDocOfNOTIter_ a) j nd;
  ex_init : initNOTIterator_ a = true;
  ex_cur : currDoc_ a < currDocOfNOTIter_ a }.

(** What [next] must answer when [L] are the documents left. *)
Definition answered (L : list Z) (res : option (bool * ANDDocumentIterator I J)) : Prop :=
  match L with
  | [] => ∃ a, res = Some (false, a)
  | d :: r => ∃ a nd, res = Some (true, a) ∧ currDoc_ a = d ∧ excluding d a nd ∧
                      minus (inter (docIterList_ a)) nd = r
  end.

Lemma set_not_answered d l a j dN nd (r : list Z) :
  aligned fuel d l → docIterList_ a = l → currDoc_ a = d → at_doc dN j nd →
  d < dN → minus (inter l) nd = r →
  answered (d :: r) (Some (true, set_not j dN a)).
Proof.
  intros Ha Hl Hc Hn Hlt Hr. eexists _, nd. split_and!; [done|done| |by simpl; rewrite Hl].
  split; simpl; [by rewrite Hl|by exists j|done|lia].
Qed.

Lemma move_together_ok n : ∀ p (a : ANDDocumentIterator I J) j,
  aligned fuel p (docIterList_ a) → pNOTDocIterator_ a = Some j → it_inv j →
  (length (inter (docIterList_ a)) < n)%nat →
  answered (minus (inter (docIterList_ a)) (it_rest j)) (move_together_with_not fuel n a).
Proof.
  induction n as [|n IH]; intros p a j Ha Hj Hinv Hn; [lia|]. cbn [move_together_with_not].
  pose proof (do_next_ok fuel p a Ha) as Hnext.
  pose proof (sorted_inter _ (al_inv _ _ _ Ha)) as Hsort.
  destruct (inter (docIterList_ a)) as [|d L] eqn:EL.
  { destruct Hnext as (l & ->). by eexists. }
  destruct Hnext as (l & -> & Hl & HL & Hd). cbn [mbind option_bind negb].
  cbn [set_list pNOTDocIterator_]. rewrite Hj. cbn [mbind option_bind].
  destruct (not_next_ok (set_list l d a) j Hinv) as (j1 & dN & -> & Hat). cbn [mbind option_bind].
  cbn [currDoc_ currDocOfNOTIter_ set_not set_list pNOTDocIterator_]. simpl in Hn.
  assert (∀ j' dN', it_inv j' → answered (minus L (it_rest j'))
      (move_together_with_not fuel n (set_not j' dN' (set_list l d a)))) as Hagain.
  { intros j' dN' Hj'. pose proof (IH d (set_not j' dN' (set_list l d a)) j') as Hn'.
    simpl in Hn'. rewrite HL in Hn'. apply Hn'; [done|done|done|lia]. }
  destruct (decide (d ≤ dN)) as [Hle|Hgt].
  - pose proof (settle d L dN j1 _ Hsort Hat Hle ltac:(lia)) as Hset. case_decide as E.
    + destruct Hset as [Hj1 ->]. rewrite (proj2 (Z.ltb_ge _ _)), (proj2 (Z.eqb_eq _ _)) by lia.
      by apply Hagain.
    + rewrite Hset. rewrite (proj2 (Z.ltb_lt _ _)) by lia.
      eapply set_not_answered; try done; [lia|by rewrite HL].
  - rewrite (proj2 (Z.ltb_ge _ _)), (proj2 (Z.eqb_neq _ _)) by lia. cbn [mbind option_bind].
    destruct (at_doc_skip _ _ d _ Hat ltac:(lia)) as (d' & j2 & nd' & -> & Hat' & Hd' & Hnd).
    cbn [mbind option_bind].
    rewrite <- (minus_ext (d :: L) (it_rest j) nd') by
      (intros x [->|Hx]%elem_of_cons; apply Hnd; [lia|]; pose proof (sorted_head_least _ _ Hsort x Hx); lia).
    pose proof (settle d L d' j2 _ Hsort Hat' Hd' ltac:(lia)) as Hset. case_decide as E.
    + destruct Hset as [Hj2 ->]. rewrite (proj2 (Z.eqb_eq _ _)) by lia. by apply Hagain.
    + rewrite Hset. rewrite (proj2 (Z.eqb_neq _ _)) by lia.
      eapply set_not_answered; try done; [lia|by rewrite HL].
Qed.

Lemma excluding_next p (a : ANDDocumentIterator I J) nd :
  excluding p a nd → answered (minus (inter (docIterList_ a)) nd) (and_next fuel a).
Proof.
  intros [Ha (j & Hj & Hat) Hinit Hcur]. unfold and_next. rewrite Hj, Hinit.
  pose proof (do_next_ok fuel p a Ha) as Hnext.
  pose proof (sorted_inter _ (al_inv _ _ _ Ha)) as Hsort.
  pose proof (al_ne _ _ _ Ha) as Hne. destruct (docIterList_ a) as [|i0 l0] eqn:El; [done|].
  rewrite <- El in *. clear Hne. cbn [mbind option_bind].
  destruct (inter (docIterList_ a)) as [|d L] eqn:EL.
  { destruct Hnext as (l & ->). cbn [mbind option_bind]. cbn [currDoc_ currDocOfNOTIter_ set_list].
    rewrite (proj2 (Z.eqb_neq _ _)), (proj2 (Z.ltb_lt _ _)) by lia. by eexists. }
  destruct Hnext as (l & -> & Hl & HL & Hd). cbn [mbind option_bind].
  cbn [currDoc_ currDocOfNOTIter_ set_list pNOTDocIterator_]. set (dN := currDocOfNOTIter_ a) in *.
  assert (∀ a' j', docIterList_ a' = l → pNOTDocIterator_ a' = Some j' → it_inv j' →
      answered (minus L (it_rest j')) (move_together_with_not fuel fuel a')) as Hagain.
  { intros a' j' Ha' Hj' Hi'. rewrite <- HL, <- Ha'. apply (move_together_ok fuel d); rewrite ?Ha'; try done.
    pose proof (length_inter l). pose proof (al_work _ _ _ Hl). lia. }
  destruct (decide (d ≤ dN)) as [Hle|Hgt].
  - pose proof (settle d L dN j nd Hsort Hat Hle ltac:(lia)) as Hset. case_decide as E.
    + destruct Hset as [Hj' ->]. rewrite (proj2 (Z.eqb_eq _ _)) by lia. by apply Hagain.
    + rewrite Hset. rewrite (proj2 (Z.eqb_neq _ _)), (proj2 (Z.ltb_lt _ _)) by lia.
      eexists _, nd. split_and!; [done|done| |by simpl; rewrite HL].
      split; simpl; [done|by exists j|done|unfold dN in *; lia].
  - rewrite (proj2 (Z.eqb_neq _ _)), (proj2 (Z.ltb_ge _ _)), Hj by lia. cbn [mbind option_bind].
    destruct (at_doc_skip _ _ d _ Hat ltac:(lia)) as (d' & j2 & nd' & -> & Hat' & Hd' & Hnd).
    cbn [mbind option_bind].
    rewrite <- (minus_ext (d :: L) nd nd') by
      (intros x [->|Hx]%elem_of_cons; apply Hnd; [lia|]; pose proof (sorted_head_least _ _ Hsort x Hx); lia).
    pose proof (settle d L d' j2 nd' Hsort Hat' Hd' ltac:(lia)) as Hset. case_decide as E.
    + destruct Hset as [Hj2 ->]. rewrite (proj2 (Z.eqb_eq _ _)) by (simpl; lia). by apply Hagain.
    + rewrite Hset. rewrite (proj2 (Z.eqb_neq _ _)) by (simpl; lia).
      eapply set_not_answered; try done; [lia|by rewrite HL].
Qed.

(** Before the first [next]. *)
Record unmoved (p : Z) (a : ANDDocumentIterator I J) (nd : list Z) : Prop := {
  un_aligned : aligned fuel p (docIterList_ a);
  un_not : ∃ j, pNOTDocIterator_ a = Some j ∧ it_inv j ∧ nd = it_rest j;
  un_init : initNOTIterator_ a = false;
  un_cur : currDoc_ a < MAX_DOC_ID ∧ Forall (λ x, currDoc_ a < x) nd }.

Lemma unmoved_next p (a : ANDDocumentIterator I J) nd :
  unmoved p a nd → answered (minus (inter (docIterList_ a)) nd) (and_next fuel a).
Proof.
  intros [Ha (j & Hj & Hi & ->) Hinit [Hmax Hcur]].
  destruct (not_next_ok a j Hi) as (j' & d & E & Hat).
  assert (and_next fuel a = and_next fuel (set_not j' d a)) as ->.
  { unfold and_next. rewrite Hj, Hinit, E. simpl. destruct (docIterList_ a) eqn:El; [|done].
    by destruct (al_ne _ _ _ Ha). }
  apply (excluding_next p (set_not j' d a)). split; simpl; [done|by exists j'|done|].
  destruct Hat as [[-> _]|(_ & _ & _ & Hr)]; [lia|]. rewrite Hr in Hcur. by apply Forall_cons in Hcur as [].
Qed.

Lemma not_drain p (a : ANDDocumentIterator I J) nd :
  unmoved p a nd →
  drain (H := and_iter fuel) fuel a = Some (minus (inter (docIterList_ a)) nd).
Proof.
  intros Ha. pose proof (un_aligned _ _ _ Ha) as Hal.
  apply (drain_simulation (H := and_iter fuel) (λ a L, ∃ p nd, (unmoved p a nd ∨ excluding p a nd) ∧
    L = minus (inter (docIterList_ a)) nd)); [|by exists p, nd; auto|].
  - clear. intros a L (p & nd & Ha & ->). simpl.
    assert (answered (minus (inter (docIterList_ a)) nd) (and_next fuel a)) as Hans
      by (destruct Ha; [by eapply unmoved_next|by eapply excluding_next]).
    destruct (minus (inter (docIterList_ a)) nd) as [|d r]; [done|].
    destruct Hans as (a' & nd' & ? & ? & Hex & <-). exists a'. split_and!; [done|done|]. eauto.
  - pose proof (length_inter (docIterList_ a)). pose proof (al_work _ _ _ Hal).
    unfold minus. pose proof (length_filter (λ d, d ∉ nd) (inter (docIterList_ a))). lia.
Qed.
End and_not.

(** ** The conjunction and its documents *)

(** C19: [ANDDocumentIterator] without a NOT iterator: after [add] of any
    positive number of members that have not been moved, the loop over [next]
    ends and has seen exactly the documents every member has, each once and in
    increasing order. *)
Theorem and_enumerates {I J} `{DocIterSpec I} `{DocIter J} junk (l : list I) p fuel :
  l ≠ [] → Forall it_inv l → Forall (λ i, it_pos i = p) l → (work l < fuel)%nat →
  ∃ L, drain (H := and_iter (J := J) fuel) fuel (fold_left (λ a i, and_add i a) l (and_new junk)) = Some L ∧
       StronglySorted Z.lt L ∧ ∀ x, x ∈ L ↔ Forall (λ i, x ∈ it_rest i) l.
Proof.
  intros Hne Hi Hp Hf. assert (∀ a : ANDDocumentIterator I J,
    fold_left (λ a i, and_add i a) l a =
    And (docIterList_ a ++ l) (currDoc_ a) (pNOTDocIterator_ a) (currDocOfNOTIter_ a) (initNOTIterator_ a)) as ->.
  { clear. induction l as [|i l IH]; intros a; [by destruct a; rewrite app_nil_r|].
    simpl. rewrite IH. simpl. by rewrite <- app_assoc. }
  set (a := And _ _ _ _ _). assert (aligned fuel p (docIterList_ a)) as Ha by done.
  exists (inter l). split_and!.
  - change (inter l) with (it_rest (DocIterSpec := and_iter_spec fuel) a).
    apply drain_rest; simpl; [split; [done|]|].
    + by rewrite (aligned_pos _ _ _ Ha).
    + pose proof (length_inter l). lia.
  - by apply sorted_inter.
  - intros x. by apply elem_of_inter.
Qed.

Lemma and_not_enumerates_gen {I J} `{DocIterSpec I} `{DocIterSpec J} (l : list I) (j : J) p junk d fuel :
  l ≠ [] → Forall it_inv l → Forall (λ i, it_pos i = p) l → (work l < fuel)%nat → it_inv j →
  junk < MAX_DOC_ID → Forall (λ x, junk < x) (it_rest j) →
  ∃ L, drain (H := and_iter fuel) fuel (And l junk (Some j) d false) = Some L ∧
       StronglySorted Z.lt L ∧
       ∀ x, x ∈ L ↔ Forall (λ i, x ∈ it_rest i) l ∧ x ∉ it_rest j.
Proof.
  intros Hne Hi Hp Hf Hj Hjunk Hjr. exists (minus (inter l) (it_rest j)). split_and!.
  - apply (not_drain fuel p (And l junk (Some j) d false)). split; simpl; [done|by exists j|done|done].
  - by apply sorted_filter, sorted_inter.
  - intros x. unfold minus. rewrite list_elem_of_filter, elem_of_inter by done. tauto.
Qed.

(** [ANDDocumentIterator] with a NOT iterator, moved by [next] only: the
    loop ends and sees exactly the documents that every member has and the NOT
    iterator has not. *)
Theorem and_not_enumerates {I J} `{DocIterSpec I} `{DocIterSpec J} (l : list I) (j : J) p junk d fuel :
  l ≠ [] → Forall it_inv l → Forall (λ i, it_pos i = p) l → (work l < fuel)%nat → it_inv j →
  junk < MAX_DOC_ID → Forall (λ x, junk < x) (it_rest j) →
  ∃ L, drain (H := and_iter fuel) fuel (And l junk (Some j) d false) = Some L ∧
       StronglySorted Z.lt L ∧
       ∀ x, x ∈ L ↔ Forall (λ i, x ∈ it_rest i) l ∧ x ∉ it_rest j.
Proof. apply and_not_enumerates_gen. Qed.

(** [skipTo] of a conjunction without a NOT iterator: the first common
    document on or after the target, or [MAX_DOC_ID] when there is none. *)
Theorem and_skipTo_least {I J} `{DocIterSpec I} `{DocIter J} (a : ANDDocumentIterator I J) p t fuel :
  aligned fuel p (docIterList_ a) → pNOTDocIterator_ a = None → p < t →
  ∃ d a', and_skipTo fuel t a = Some (d, a') ∧ currDoc_ a' = d ∧
    if decide (d = MAX_DOC_ID) then ∀ x, t ≤ x → ¬ Forall (λ i, x ∈ it_rest i) (docIterList_ a)
    else t ≤ d ∧ Forall (λ i, d ∈ it_rest i) (docIterList_ a) ∧
         (∀ x, t ≤ x → Forall (λ i, x ∈ it_rest i) (docIterList_ a) → d ≤ x) ∧
         aligned fuel d (docIterList_ a').
Proof.
  intros Ha Hn Ht. pose proof (do_skipTo_ok fuel p t a Ha Ht) as Hs. unfold and_skipTo. rewrite Hn.
  pose proof (sorted_inter _ (al_inv _ _ _ Ha)) as Hsort. pose proof (al_ne _ _ _ Ha) as Hne.
  destruct (from t (inter (docIterList_ a))) as [|d r] eqn:E.
  - destruct Hs as (l & ->). eexists _, _. split_and!; [done|done|]. rewrite decide_True by done. intros x Hx Hin.
    apply (not_elem_of_nil x). rewrite <- E. apply elem_of_from. split; [done|]. by apply elem_of_inter.
  - destruct Hs as (l & -> & Hal & _ & Hd). eexists _, _. split_and!; [done|done|]. rewrite decide_False by lia.
    destruct (from_split t _ _ _ Hsort E) as (? & Hin & Hmin & _). split_and!; [done| | |done].
    + by apply elem_of_inter.
    + intros x Hx Hxl. apply Hmin; [|done]. by apply elem_of_inter.
Qed.

(** ** Concrete conjunctions *)

Lemma and_enumerates_witness :
  ∃ L, drain (H := and_iter (J := ListIter) 20) 20
         (fold_left (λ a i, and_add i a) [term [1; 4; 6; 9]; term [2; 4; 9]] (and_new 0)) = Some L ∧ L = [4; 9].
Proof.
  destruct (and_enumerates (J := ListIter) 0 [term [1; 4; 6; 9]; term [2; 4; 9]] 0 20) as (L & HL & _);
    [done|term_facts|term_facts|vm_compute; lia|].
  exists L. split; [exact HL|]. vm_compute in HL. by injection HL as <-.
Defined.

Lemma and_not_enumerates_witness :
  ∃ L, drain (H := and_iter 20) 20 (And [term [1; 4; 6; 9]; term [1; 4; 9]] 0 (Some (term [4; 5])) 0 false)
       = Some L ∧ L = [1; 9].
Proof.
  destruct (and_not_enumerates [term [1; 4; 6; 9]; term [1; 4; 9]] (term [4; 5]) 0 0 0 20) as (L & HL & _);
    [done|term_facts|term_facts|vm_compute; lia|term_facts|done|term_facts|].
  exists L. split; [exact HL|]. vm_compute in HL. by injection HL as <-.
Defined.

Lemma and_skipTo_witness :
  ∃ d a', and_skipTo (J := ListIter) 20 5 (And [term [1; 4; 6; 9]; term [2; 4; 9]] 0 None 0 false) = Some (d, a') ∧
          d = 9.
Proof.
  destruct (and_skipTo_least (J := ListIter) (And [term [1; 4; 6; 9]; term [2; 4; 9]] 0 None 0 false) 0 5 20)
    as (d & a' & E & _); [split; [done|term_facts|term_facts|vm_compute; lia]|done|done|].
  exists d, a'. split; [exact E|]. vm_compute in E. by injection E as <- _.
Defined.
