(* ===== verification/AllIter.v ===== *)
(** * All documents but the deleted ones ([search-manager/AllDocumentIterator.h])

    The deletion list [delTermDocFreqs_] belongs to the index library: a type
    [J] known through [DocIter].  [++] on a document wraps at 32 bits. *)
From S2P Require Import Prelude CNum DocIter.

Section AllIter.
Context {J : Type} `{DocIter J}.

Record AllDocumentIterator := All {
  delTermDocFreqs_ : option J;
  currDoc_ : Z;
  currDelDoc_ : Z;
  maxDoc_ : Z }.

Definition set_del (j : J) (del : Z) (a : AllDocumentIterator) : AllDocumentIterator :=
  All (Some j) (currDoc_ a) del (maxDoc_ a).
Definition set_currDoc (d : Z) (a : AllDocumentIterator) : AllDocumentIterator :=
  All (delTermDocFreqs_ a) d (currDelDoc_ a) (maxDoc_ a).

(** [if (delTermDocFreqs_->next()) currDelDoc_ = doc(); else MAX_DOC_ID;] *)
Definition del_next (a : AllDocumentIterator) : option AllDocumentIterator :=
  j ← delTermDocFreqs_ a;
  '(b, j) ← next j;
  Some (set_del j (if (b : bool) then doc j else MAX_DOC_ID) a).

Definition del_skipTo (target : Z) (a : AllDocumentIterator) : option AllDocumentIterator :=
  j ← delTermDocFreqs_ a;
  '(d, j) ← skipTo target j;
  Some (set_del j d a).

(** The two constructors; the first leaves [currDelDoc_] to [junk]. *)
Definition all_new (junk maxDoc : Z) : AllDocumentIterator := All None 0 junk maxDoc.
Definition all_new_del (junk : Z) (del : J) (maxDoc : Z) : option AllDocumentIterator :=
  del_next (All (Some del) 0 junk maxDoc).

Definition in_range (a : AllDocumentIterator) : bool := currDoc_ a <=? maxDoc_ a.

Definition ranged (a : AllDocumentIterator) : Z :=
  if maxDoc_ a <? currDoc_ a then MAX_DOC_ID else currDoc_ a.

Fixpoint move_with_del (fuel : nat) (a : AllDocumentIterator)
    : option (bool * AllDocumentIterator) :=
  match fuel with
  | O => None
  | S fuel =>
      a ← del_next (set_currDoc (u32 (currDoc_ a + 1)) a);
      if (currDoc_ a =? currDelDoc_ a) && in_range a then move_with_del fuel a
      else Some (in_range a, a)
  end.

(** The loops visit a document of the range at every turn. *)
Definition range_fuel (a : AllDocumentIterator) : nat := S (S (Z.to_nat (maxDoc_ a))).

Definition all_next (a : AllDocumentIterator) : option (bool * AllDocumentIterator) :=
  let a := set_currDoc (u32 (currDoc_ a + 1)) a in
  match delTermDocFreqs_ a with
  | None => Some (in_range a, a)
  | Some _ =>
      if currDoc_ a =? currDelDoc_ a then move_with_del (range_fuel a) a
      else if currDoc_ a <? currDelDoc_ a then Some (in_range a, a)
      else
        a ← del_skipTo (currDoc_ a) a;
        if currDoc_ a =? currDelDoc_ a then move_with_del (range_fuel a) a
        else Some (in_range a, a)
  end.

(** [currDoc_ = currDoc_ > target ? currDoc_ : ++target], with the value of
    [target] after it. *)
Definition step_past (target : Z) (a : AllDocumentIterator) : Z * AllDocumentIterator :=
  if target <? currDoc_ a then (target, a)
  else (u32 (target + 1), set_currDoc (u32 (target + 1)) a).

Definition all_do_skipTo (target : Z) (a : AllDocumentIterator) : Z * AllDocumentIterator :=
  let '(_, a) := step_past target a in (ranged a, a).

Fixpoint skip_with_del (fuel : nat) (target : Z) (a : AllDocumentIterator)
    : option (Z * AllDocumentIterator) :=
  match fuel with
  | O => None
  | S fuel =>
      let '(target, a) := step_past target a in
      a ← del_skipTo (currDoc_ a) a;
      if (currDoc_ a =? currDelDoc_ a) && in_range a then skip_with_del fuel target a
      else Some (ranged a, a)
  end.

(** [while ((currDoc_ == currDelDoc_) && (currDelDoc_ != MAX_DOC_ID))]. *)
Fixpoint pass_deleted (fuel : nat) (a : AllDocumentIterator)
    : option (Z * AllDocumentIterator) :=
  match fuel with
  | O => None
  | S fuel =>
      if (currDoc_ a =? currDelDoc_ a) && negb (currDelDoc_ a =? MAX_DOC_ID) then
        a ← del_skipTo (currDoc_ a) a;
        pass_deleted fuel (set_currDoc (u32 (currDoc_ a + 1)) a)
      else Some (ranged a, a)
  end.

Definition all_skipTo (target : Z) (a : AllDocumentIterator)
    : option (Z * AllDocumentIterator) :=
  match delTermDocFreqs_ a with
  | None => Some (all_do_skipTo target a)
  | Some _ =>
      if currDelDoc_ a <=? target then skip_with_del (range_fuel a) target a
      else let '(_, a) := step_past target a in pass_deleted (range_fuel a) a
  end.
End AllIter.

Arguments AllDocumentIterator : clear implicits.

#[export] Instance all_iter {J} `{DocIter J} : DocIter (AllDocumentIterator J) := {
  next := all_next; doc := currDoc_; skipTo := all_skipTo }.

(** ** What [next] enumerates *)

Lemma seqZ_step c m : c < m → seqZ (c + 1) (m - c) = (c + 1) :: seqZ (c + 2) (m - (c + 1)).
Proof. intros Hc. rewrite seqZ_cons by lia. f_equal. f_equal; lia. Qed.

Lemma seqZ_sorted m n : StronglySorted Z.lt (seqZ m n).
Proof.
  unfold seqZ. generalize 0%nat as k. induction (Z.to_nat n) as [|l IH]; intros k; [constructor|].
  simpl. constructor; [apply IH|]. apply Forall_forall.
  intros x (y & -> & Hy)%list_elem_of_fmap. apply elem_of_seq in Hy. lia.
Qed.

Section all_proofs.
Context {J : Type} `{DocIterSpec J}.
Context (m : Z) (Hm : 0 ≤ m < MAX_DOC_ID - 1).

(** The documents after [c] that are not deleted. *)
Definition live (c : Z) (nd : list Z) : list Z := minus (seqZ (c + 1) (m - c)) nd.

Lemma live_end c nd : m ≤ c → live c nd = [].
Proof. intros Hc. unfold live. by rewrite seqZ_nil by lia. Qed.

Lemma live_ext c nd nd' : (∀ x, c < x → x ∈ nd' ↔ x ∈ nd) → live c nd' = live c nd.
Proof. intros Hx. apply minus_ext. intros x [Hx' _]%elem_of_seqZ. apply Hx. lia. Qed.

(** The next document is given, or deleted and passed. *)
Lemma live_settle c d j nd :
  at_doc d j nd → c + 1 ≤ d → c < m →
  if decide (c + 1 = d) then it_inv j ∧ it_pos j = c + 1 ∧ live c nd = live (c + 1) (it_rest j)
  else live c nd = (c + 1) :: live (c + 1) nd.
Proof.
  intros Hat Hd Hc. pose proof (seqZ_sorted (c + 1) (m - c)) as Hs.
  unfold live at 1 3. rewrite seqZ_step in Hs |- * by lia.
  pose proof (settle (c + 1) _ d j nd Hs Hat Hd ltac:(lia)) as Hset.
  replace (c + 2) with (c + 1 + 1) in * by lia. case_decide as E.
  - destruct Hset as [Hj Hset]. split_and!; [done| |exact Hset].
    destruct Hat as [[? _]|(_ & _ & ? & _)]; lia.
  - exact Hset.
Qed.

(** After a document [c]: the deletions wait further on. *)
Record all_at (c : Z) (nd : list Z) (a : AllDocumentIterator J) : Prop := {
  aa_doc : currDoc_ a = c;
  aa_range : 0 ≤ c ≤ m;
  aa_max : maxDoc_ a = m;
  aa_del : ∃ j, delTermDocFreqs_ a = Some j ∧ at_doc (currDelDoc_ a) j nd;
  aa_ahead : c < currDelDoc_ a }.

Definition all_answer (L : list Z) (res : option (bool * AllDocumentIterator J)) : Prop :=
  match L with
  | [] => ∃ a, res = Some (false, a)
  | d :: r => ∃ a nd, res = Some (true, a) ∧ all_at d nd a ∧ live d nd = r
  end.

Lemma del_next_ok (a : AllDocumentIterator J) j :
  delTermDocFreqs_ a = Some j → it_inv j →
  ∃ j' d, del_next a = Some (set_del j' d a) ∧ at_doc d j' (it_rest j).
Proof.
  intros E Hj. pose proof (it_next_ok j Hj) as Hn. pose proof (it_bounds j Hj) as Hb.
  unfold del_next. rewrite E. cbn [mbind option_bind]. destruct (it_rest j) as [|d r].
  - destruct Hn as (j' & ->). eexists _, _. split; [done|]. by left.
  - destruct Hn as (j' & -> & Hj' & <- & Hp & Hr). eexists _, _. split; [done|]. right.
    apply Forall_cons in Hb as [Hb _]. split_and!; [lia|done|done|by rewrite Hr].
Qed.

Lemma rest_above (j : J) c d j' :
  it_inv j → it_pos j = c → c < MAX_DOC_ID → at_doc d j' (it_rest j) → c + 1 ≤ d.
Proof.
  intros Hj <- Hc [[-> _]|(_ & _ & _ & Hr)].
  - pose proof (it_bounds j Hj). destruct (it_rest j); lia.
  - pose proof (it_bounds j Hj) as Hb. rewrite Hr in Hb. apply Forall_cons in Hb as [Hb _]. lia.
Qed.

Lemma move_with_del_ok fuel : ∀ c (a : AllDocumentIterator J) j,
  currDoc_ a = c → maxDoc_ a = m → delTermDocFreqs_ a = Some j → it_inv j → it_pos j = c →
  0 ≤ c ≤ m + 1 → c < MAX_DOC_ID → (Z.to_nat (m + 1 - c) < fuel)%nat →
  all_answer (live c (it_rest j)) (move_with_del fuel a).
Proof.
  induction fuel as [|fuel IH]; intros c a j Hc Hmax Hj Hi Hp Hr Hcm Hf; [lia|].
  cbn [move_with_del]. rewrite Hc, u32_small by (unfold MAX_DOC_ID in *; lia).
  destruct (del_next_ok (set_currDoc (c + 1) a) j Hj Hi) as (j' & d & -> & Hat).
  pose proof (rest_above j c d j' Hi Hp Hcm Hat) as Hd. cbn [mbind option_bind].
  unfold in_range. cbn [currDoc_ currDelDoc_ maxDoc_ set_del set_currDoc]. rewrite Hmax.
  destruct (decide (c < m)) as [Hlt|Hge].
  - rewrite (proj2 (Z.leb_le _ _)), andb_true_r by lia.
    pose proof (live_settle c d j' (it_rest j) Hat Hd Hlt) as Hset. case_decide as E.
    + destruct Hset as (Hj' & Hp' & ->). rewrite (proj2 (Z.eqb_eq _ _)) by lia.
      apply IH; try done; lia.
    + rewrite Hset, (proj2 (Z.eqb_neq _ _)) by lia. eexists _, _. split_and!; [done| |done].
      split; simpl; [done|lia|done|by exists j'|lia].
  - rewrite live_end, (proj2 (Z.leb_gt _ _)), andb_false_r by lia. by eexists.
Qed.

Lemma all_next_ok c nd a : all_at c nd a → all_answer (live c nd) (all_next a).
Proof.
  intros [Hc Hr Hmax (j & Hj & Hat) Hd]. unfold all_next. rewrite Hc, u32_small by (unfold MAX_DOC_ID in *; lia).
  cbn [delTermDocFreqs_ set_currDoc]. rewrite Hj. unfold in_range.
  cbn [currDoc_ currDelDoc_ maxDoc_ set_currDoc]. rewrite Hmax.
  destruct (decide (c < m)) as [Hlt|Hge].
  - pose proof (live_settle c _ j nd Hat ltac:(lia) Hlt) as Hset. case_decide as E.
    + destruct Hset as (Hj' & Hp' & ->). rewrite (proj2 (Z.eqb_eq _ _)) by lia.
      apply move_with_del_ok; try done; [lia|lia|]. unfold range_fuel. simpl. lia.
    + rewrite Hset, (proj2 (Z.eqb_neq _ _)), (proj2 (Z.ltb_lt _ _)), (proj2 (Z.leb_le _ _)) by lia.
      eexists _, _. split_and!; [done| |done]. split; simpl; [done|lia|done|by exists j|lia].
  - rewrite live_end by lia. destruct (decide (c + 1 = currDelDoc_ a)) as [E|E].
    + rewrite (proj2 (Z.eqb_eq _ _)) by lia. destruct Hat as [[? _]|(? & Hi & Hp & _)]; [lia|].
      rewrite <- (live_end (c + 1) (it_rest j)) by lia.
      apply move_with_del_ok; try done; try (unfold range_fuel; simpl); lia.
    + rewrite (proj2 (Z.eqb_neq _ _)), (proj2 (Z.ltb_lt _ _)), (proj2 (Z.leb_gt _ _)) by lia.
      by eexists.
Qed.

Lemma live_drain c nd a fuel :
  all_at c nd a → (length (live c nd) < fuel)%nat → drain fuel a = Some (live c nd).
Proof.
  intros Ha. apply (drain_simulation (λ a L, ∃ c nd, all_at c nd a ∧ L = live c nd));
    [|by exists c, nd].
  clear c nd a Ha fuel. intros a L (c & nd & Ha & ->). simpl.
  pose proof (all_next_ok c nd a Ha) as Hans. destruct (live c nd) as [|d r]; [done|].
  destruct Hans as (a' & nd' & ? & Ha' & <-). exists a'. split_and!; [done|by destruct Ha'|]. eauto.
Qed.

(** [skip_with_del] goes to the first live document strictly after the
    target. *)
Lemma skip_with_del_ok fuel : ∀ c t d (a : AllDocumentIterator J) j nd,
  currDoc_ a = c → maxDoc_ a = m → delTermDocFreqs_ a = Some j → at_doc d j nd →
  0 ≤ t → c ≤ t → d ≤ t → t < MAX_DOC_ID - 1 → (Z.to_nat (m + 1 - t) < fuel)%nat →
  match live t nd with
  | [] => ∃ a', skip_with_del fuel t a = Some (MAX_DOC_ID, a')
  | x :: r => ∃ a' nd', skip_with_del fuel t a = Some (x, a') ∧ all_at x nd' a' ∧ live x nd' = r
  end.
Proof.
  induction fuel as [|fuel IH]; intros c t d a j nd Hc Hmax Hj Hat Ht Hct Hdt Htm Hf; [lia|].
  cbn [skip_with_del]. unfold step_past. rewrite Hc, (proj2 (Z.ltb_ge t c)) by lia.
  rewrite u32_small by (unfold MAX_DOC_ID in *; lia). unfold del_skipTo.
  cbn [delTermDocFreqs_ set_currDoc currDoc_]. rewrite Hj. cbn [mbind option_bind].
  destruct (at_doc_skip _ _ (t + 1) _ Hat ltac:(lia)) as (d' & j' & nd' & -> & Hat' & Hd' & Hnd).
  cbn [mbind option_bind]. rewrite <- (live_ext t nd nd') by (intros; apply Hnd; lia).
  unfold in_range, ranged. cbn [currDoc_ currDelDoc_ maxDoc_ set_del set_currDoc]. rewrite Hmax.
  destruct (decide (t < m)) as [Hlt|Hge].
  - rewrite (proj2 (Z.leb_le (t + 1) m)), andb_true_r by lia.
    pose proof (live_settle t d' j' nd' Hat' Hd' Hlt) as Hset. case_decide as E.
    + destruct Hset as (Hj' & Hp' & Hl). rewrite (proj2 (Z.eqb_eq _ _)) by lia.
      assert (live t nd' = live (t + 1) nd') as ->.
      { rewrite Hl. symmetry. apply live_ext. intros x Hx.
        destruct Hat' as [[? _]|(_ & _ & _ & ->)]; [lia|]. rewrite elem_of_cons.
        split; [|by right]. intros [->|?]; [lia|done]. }
      apply (IH (t + 1) (t + 1) d' _ j'); try done; lia.
    + rewrite Hset, (proj2 (Z.eqb_neq _ _)), (proj2 (Z.ltb_ge m _)) by lia.
      eexists _, _. split_and!; [done| |done]. split; simpl; [done|lia|done|by exists j'|lia].
  - rewrite live_end, (proj2 (Z.leb_gt (t + 1) m)), andb_false_r, (proj2 (Z.ltb_lt m _)) by lia.
    by eexists.
Qed.
End all_proofs.

(** [AllDocumentIterator] over a list of deleted documents: the loop over
    [next] ends and enumerates exactly the documents [1 .. maxDoc] that are
    not deleted, in increasing order. *)
Theorem all_enumerates {J} `{DocIterSpec J} m (del : J) junk :
  0 ≤ m < MAX_DOC_ID - 1 → it_inv del → it_pos del = 0 →
  ∃ a, all_new_del junk del m = Some a ∧
       drain (S (Z.to_nat m)) a = Some (minus (seqZ 1 m) (it_rest del)).
Proof.
  intros Hm Hi Hp. unfold all_new_del.
  destruct (del_next_ok (All (Some del) 0 junk m) del eq_refl Hi) as (j & d & -> & Hat).
  pose proof (rest_above del 0 d j Hi Hp ltac:(done) Hat) as Hd.
  eexists. split; [done|].
  replace (seqZ 1 m) with (seqZ (0 + 1) (m - 0)) by (f_equal; lia).
  apply (live_drain m Hm 0).
  - split; simpl; [done|lia|done|by exists j|lia].
  - unfold live, minus. pose proof (length_filter (λ d, d ∉ it_rest del) (seqZ (0 + 1) (m - 0))) as Hl.
    rewrite length_seqZ in Hl. lia.
Qed.

(** [AllDocumentIterator::skipTo] of a target on or after the current
    document goes to the first live document strictly after the target, or
    answers [MAX_DOC_ID]; a live target itself is passed over. *)
Theorem all_skipTo_strict {J} `{DocIterSpec J} m t nd (a : AllDocumentIterator J) j :
  0 ≤ m < MAX_DOC_ID - 1 → 0 ≤ t < MAX_DOC_ID - 1 →
  maxDoc_ a = m → delTermDocFreqs_ a = Some j → at_doc (currDelDoc_ a) j nd →
  0 ≤ currDoc_ a ≤ t → currDelDoc_ a ≠ t + 1 →
  ∃ a', all_skipTo t a = Some (hd MAX_DOC_ID (minus (seqZ (t + 1) (m - t)) nd), a').
Proof.
  intros Hm Ht Hmax Hj Hat Hc Hne. unfold all_skipTo. rewrite Hj.
  change (minus _ nd) with (live m t nd).
  assert (range_fuel a = S (S (Z.to_nat m))) as Hf by (unfold range_fuel; by rewrite Hmax).
  destruct (currDelDoc_ a <=? t) eqn:E; bool_cases.
  - pose proof (skip_with_del_ok m Hm (range_fuel a) _ t _ a j nd eq_refl Hmax Hj Hat) as Hs.
    rewrite Hf in Hs |- *. specialize (Hs ltac:(lia) ltac:(lia) ltac:(lia) ltac:(lia) ltac:(lia)).
    destruct (live m t nd); [done|]. by destruct Hs as (a' & nd' & -> & _); eexists.
  - unfold step_past. rewrite (proj2 (Z.ltb_ge t _)), u32_small by (unfold MAX_DOC_ID in *; lia).
    change (range_fuel (set_currDoc (t + 1) a)) with (range_fuel a). rewrite Hf.
    cbn [pass_deleted currDoc_ currDelDoc_ maxDoc_ set_currDoc].
    rewrite (proj2 (Z.eqb_neq (t + 1) _)) by lia. unfold ranged. cbn [andb currDoc_ maxDoc_ set_currDoc].
    rewrite Hmax. destruct (decide (t < m)) as [Hlt|Hge].
    + pose proof (live_settle m Hm t _ j nd Hat ltac:(lia) Hlt) as Hset.
      rewrite decide_False in Hset by lia. rewrite Hset, (proj2 (Z.ltb_ge m _)) by lia. by eexists.
    + rewrite (live_end m t), (proj2 (Z.ltb_lt m _)) by lia. by eexists.
Qed.

Lemma all_enumerates_witness :
  ∃ a, all_new_del 0 (term [2; 3; 6; 40]) 7 = Some a ∧ drain 8 a = Some [1; 4; 5; 7].
Proof.
  destruct (all_enumerates 7 (term [2; 3; 6; 40]) 0) as (a & Ha & Hd); [vm_compute; done|term_facts|done|].
  exists a. split; [exact Ha|]. etransitivity; [exact Hd|]. vm_compute. reflexivity.
Defined.

Lemma all_skipTo_witness :
  ∃ a', all_skipTo 2 (All (Some (LIter 2 [3; 6])) 1 2 7) = Some (4, a').
Proof.
  destruct (all_skipTo_strict 7 2 [2; 3; 6] (All (Some (LIter 2 [3; 6])) 1 2 7) (LIter 2 [3; 6])) as (a' & E);
    [vm_compute; done|vm_compute; done|done|done| |vm_compute; done|done|].
  - right. split_and!; [done|term_facts|done|done].
  - exists a'. rewrite E. vm_compute. reflexivity.
Defined.
