(* ===== verification/OrIter.v ===== *)
(** * Disjunction of iterators
    ([search-manager/ORDocumentIterator.{h,cpp}], [NOTDocumentIterator.{h,cpp}])

    The members live in a vector; a priority queue of pointers orders them by
    their current documents, and each carries a flag [current_] that says
    whether it stands on the document of the disjunction.  A pointer is the
    index in the vector, so that moving a member is seen by the queue.

    The queue class belongs to the index library: it is the class [DocQueue],
    whose operations receive the documents of the members at the time of the
    call, with the laws of a priority queue in [DocQueueOk]. *)
From S2P Require Import Prelude CNum DocIter.

(** ** The queue of the index library *)

Class DocQueue (Q : Type) := {
  q_new : nat → Q;
  q_insert : (nat → Z) → nat → Q → Q;
  q_top : Q → option nat;
  q_pop : (nat → Z) → Q → Q;
  q_adjustTop : (nat → Z) → Q → Q;
  q_elems : Q → list nat }.

(** Only the top may change its document before [pop] and [adjustTop]. *)
Class DocQueueOk (Q : Type) `{DocQueue Q} := {
  q_cap : Q → nat;
  q_ordered : (nat → Z) → Q → Prop;
  q_new_ok : ∀ k n, q_ordered k (q_new n) ∧ q_elems (q_new n) = [] ∧ q_cap (q_new n) = n;
  q_ordered_ext : ∀ k k' q, (∀ j, j ∈ q_elems q → k' j = k j) → q_ordered k q → q_ordered k' q;
  q_insert_ok : ∀ k i q, q_ordered k q → i ∉ q_elems q → (length (q_elems q) < q_cap q)%nat →
    q_ordered k (q_insert k i q) ∧ q_elems (q_insert k i q) ≡ₚ i :: q_elems q ∧
    q_cap (q_insert k i q) = q_cap q;
  q_top_ok : ∀ k q, q_ordered k q →
    match q_top q with
    | None => q_elems q = []
    | Some i => i ∈ q_elems q ∧ ∀ j, j ∈ q_elems q → k i ≤ k j
    end;
  q_pop_ok : ∀ k k' q i, q_ordered k q → q_top q = Some i →
    (∀ j, j ∈ q_elems q → j ≠ i → k' j = k j) →
    q_ordered k' (q_pop k' q) ∧ i :: q_elems (q_pop k' q) ≡ₚ q_elems q;
  q_adjust_ok : ∀ k k' q i, q_ordered k q → q_top q = Some i →
    (∀ j, j ∈ q_elems q → j ≠ i → k' j = k j) →
    q_ordered k' (q_adjustTop k' q) ∧ q_elems (q_adjustTop k' q) ≡ₚ q_elems q }.

(** ** The iterator *)

Section OrIter.
Context {I J Q : Type} `{DocIter I, DocIter J, DocQueue Q}.
Context (fuel : nat).

(** A member with its [current_] flag; [None] is a member deleted for having
    no document. *)
Abbreviation slot := (option (I * bool)).

Record ORDocumentIterator := Or {
  docIteratorList_ : list slot;
  pDocIteratorQueue_ : option Q;
  currDoc_ : Z;
  pNOTDocIterator_ : option J;
  currDocOfNOTIter_ : Z;
  initNOTIterator_ : bool }.

Definition or_new (junk : Z) : ORDocumentIterator := Or [] None junk None MAX_DOC_ID false.

(** [add] of a member that is not a NOT. *)
Definition or_add (i : I) (a : ORDocumentIterator) : ORDocumentIterator :=
  Or (docIteratorList_ a ++ [Some (i, false)]) (pDocIteratorQueue_ a) (currDoc_ a)
    (pNOTDocIterator_ a) (currDocOfNOTIter_ a) (initNOTIterator_ a).

Definition set_members (l : list slot) (q : Q) (d : Z) (a : ORDocumentIterator) : ORDocumentIterator :=
  Or l (Some q) d (pNOTDocIterator_ a) (currDocOfNOTIter_ a) (initNOTIterator_ a).

Definition set_doc (d : Z) (a : ORDocumentIterator) : ORDocumentIterator :=
  Or (docIteratorList_ a) (pDocIteratorQueue_ a) d
    (pNOTDocIterator_ a) (currDocOfNOTIter_ a) (initNOTIterator_ a).

(** [lessThan] compares [doc()] of the members. *)
Definition keys (l : list slot) (i : nat) : Z :=
  match l !! i with Some (Some (x, _)) => doc x | _ => 0 end.

Definition init_step (st : list slot * Q) (i : nat) : option (list slot * Q) :=
  let '(l, q) := st in
  match l !! i with
  | Some (Some (x, _)) =>
      '(b, x) ← next x;
      if (b : bool) then
        let l := <[i := Some (x, false)]> l in Some (l, q_insert (keys l) i q)
      else Some (<[i := None]> l, q)
  | _ => Some (l, q)
  end.

Definition initDocIteratorQueue (l : list slot) : option (list slot * option Q) :=
  match l with
  | [] => Some (l, None)
  | _ =>
      '(l, q) ← foldM init_step (l, q_new (length l)) (seq 0 (length l));
      Some (l, Some q)
  end.

(** [setCurrent(currDoc_ == doc())] on one member, on those of the queue and
    on those of the vector. *)
Definition mark_slot (d : Z) (s : slot) : slot :=
  match s with Some (x, _) => Some (x, d =? doc x) | None => None end.

Definition mark_queue (d : Z) (q : Q) (l : list slot) : list slot :=
  fold_left (λ l i, alter (mark_slot d) i l) (q_elems q) l.

Definition mark_all (d : Z) (l : list slot) : list slot := mark_slot d <$> l.

(** [while (top != NULL && top->isCurrent())]. *)
Fixpoint advance (fuel : nat) (l : list slot) (q : Q) : option (list slot * Q) :=
  match fuel with
  | O => None
  | S fuel =>
      match q_top q with
      | None => Some (l, q)
      | Some i =>
          match l !! i with
          | Some (Some (x, true)) =>
              '(b, x) ← next x;
              let l := <[i := Some (x, false)]> l in
              advance fuel l (if (b : bool) then q_adjustTop (keys l) q else q_pop (keys l) q)
          | Some (Some (_, false)) => Some (l, q)
          | _ => None
          end
      end
  end.

(** Each turn of the loops takes one member off their work. *)
Definition queue_fuel (q : Q) : nat := S (length (q_elems q)).

Definition or_do_next (a : ORDocumentIterator) : option (bool * ORDocumentIterator) :=
  match pDocIteratorQueue_ a with
  | None =>
      '(l, oq) ← initDocIteratorQueue (docIteratorList_ a);
      match oq with
      | None => Some (false, a)
      | Some q =>
          match q_top q with
          | None => Some (false, set_members l q (currDoc_ a) a)
          | Some i => let d := keys l i in Some (true, set_members (mark_queue d q l) q d a)
          end
      end
  | Some q =>
      '(l, q) ← advance (queue_fuel q) (docIteratorList_ a) q;
      match q_top q with
      | None => Some (false, set_members l q (currDoc_ a) a)
      | Some i => let d := keys l i in Some (true, set_members (mark_all d l) q d a)
      end
  end.

(** The loop of [do_skipTo]: the document found, with the vector and queue. *)
Fixpoint or_skip_loop (fuel : nat) (target : Z) (l : list slot) (q : Q)
    : option (Z * list slot * Q) :=
  match fuel with
  | O => None
  | S fuel =>
      i ← q_top q;
      let d := keys l i in
      let l := mark_all d l in
      if target <=? d then
        if (length (q_elems q) <? 1)%nat then Some (MAX_DOC_ID, l, q) else Some (d, l, q)
      else
        match l !! i with
        | Some (Some (x, f)) =>
            '(nFoundId, x) ← skipTo target x;
            let l := <[i := Some (x, f)]> l in
            if (nFoundId =? MAX_DOC_ID) || (nFoundId <? target) then
              let q := q_pop (keys l) q in
              if (length (q_elems q) <? 1)%nat then Some (MAX_DOC_ID, l, q)
              else or_skip_loop fuel target l q
            else or_skip_loop fuel target l (q_adjustTop (keys l) q)
        | _ => None
        end
  end.

Definition or_do_skipTo (target : Z) (a : ORDocumentIterator) : option (Z * ORDocumentIterator) :=
  '(l, oq) ← match pDocIteratorQueue_ a with
             | None => initDocIteratorQueue (docIteratorList_ a)
             | Some q => Some (docIteratorList_ a, Some q)
             end;
  match oq with
  | None => Some (MAX_DOC_ID, set_doc MAX_DOC_ID a)
  | Some q =>
      if (length (q_elems q) <? 1)%nat then Some (MAX_DOC_ID, set_members l q MAX_DOC_ID a)
      else
        '(d, l, q) ← or_skip_loop (queue_fuel q) target l q;
        Some (d, set_members l q d a)
  end.

(** *** With an excluding iterator *)

Definition or_set_not (j : J) (d : Z) (init : bool) (a : ORDocumentIterator) : ORDocumentIterator :=
  Or (docIteratorList_ a) (pDocIteratorQueue_ a) (currDoc_ a) (Some j) d init.

Definition or_not_next (a : ORDocumentIterator) : option ORDocumentIterator :=
  j ← pNOTDocIterator_ a;
  '(b, j) ← next j;
  Some (or_set_not j (if (b : bool) then doc j else MAX_DOC_ID) true a).

Fixpoint or_move_together (fuel : nat) (a : ORDocumentIterator)
    : option (bool * ORDocumentIterator) :=
  match fuel with
  | O => None
  | S fuel =>
      '(ret, a) ← or_do_next a;
      a ← or_not_next a;
      if (ret : bool) && (currDoc_ a =? currDocOfNOTIter_ a) then or_move_together fuel a
      else Some (ret, a)
  end.

(** The final [assert(currDoc_ < currDocOfNOTIter_)] is left out, as in a
    release build. *)
Definition or_next (a : ORDocumentIterator) : option (bool * ORDocumentIterator) :=
  match pNOTDocIterator_ a with
  | None => or_do_next a
  | Some _ =>
      a ← (if initNOTIterator_ a then Some a else or_not_next a);
      '(ret, a) ← or_do_next a;
      a ← (if currDocOfNOTIter_ a <? currDoc_ a then
             j ← pNOTDocIterator_ a;
             '(d, j) ← skipTo (currDoc_ a) j;
             Some (or_set_not j d true a)
           else Some a);
      if currDoc_ a =? currDocOfNOTIter_ a then or_move_together fuel a
      else Some (ret, a)
  end.

Fixpoint or_skip_not (fuel : nat) (currentDoc : Z) (a : ORDocumentIterator)
    : option (Z * ORDocumentIterator) :=
  match fuel with
  | O => None
  | S fuel =>
      '(nFoundId, a) ← or_do_skipTo currentDoc a;
      j ← pNOTDocIterator_ a;
      '(d, j) ← skipTo currentDoc j;
      let a := or_set_not j d (initNOTIterator_ a) a in
      if negb (nFoundId =? MAX_DOC_ID) && ((nFoundId =? currentDoc) && (d =? currentDoc))
      then Some (MAX_DOC_ID, a)
      else if negb (nFoundId =? MAX_DOC_ID) && (nFoundId =? d)
      then or_skip_not fuel nFoundId a
      else Some (nFoundId, a)
  end.

Definition or_skipTo (target : Z) (a : ORDocumentIterator) : option (Z * ORDocumentIterator) :=
  match pNOTDocIterator_ a with
  | None => or_do_skipTo target a
  | Some _ => or_skip_not fuel target a
  end.
End OrIter.

Arguments ORDocumentIterator : clear implicits.

#[export] Instance or_iter {I J Q} `{DocIter I, DocIter J, DocQueue Q} fuel :
    DocIter (ORDocumentIterator I J Q) := {
  next := or_next fuel; doc := currDoc_; skipTo := or_skipTo fuel }.

(** [NOTDocumentIterator]: a disjunction whose [next] is [do_next] and whose
    [add] never looks at [isNot]; it has no NOT iterator of its own. *)
Record NOTDocumentIterator I J Q := Not { not_or : ORDocumentIterator I J Q }.
Arguments Not {I J Q} _.
Arguments not_or {I J Q} _.

#[export] Instance not_iter {I J Q} `{DocIter I, DocIter J, DocQueue Q} fuel :
    DocIter (NOTDocumentIterator I J Q) := {
  next n := '(b, a) ← or_do_next (not_or n); Some (b, Not a);
  doc n := currDoc_ (not_or n);
  skipTo t n := '(d, a) ← or_skipTo fuel t (not_or n); Some (d, Not a) }.

Definition not_new {I J Q} (junk : Z) : NOTDocumentIterator I J Q := Not (or_new junk).
Definition not_add {I J Q} (i : I) (n : NOTDocumentIterator I J Q) : NOTDocumentIterator I J Q :=
  Not (or_add i (not_or n)).

(** [ORDocumentIterator::add] of a NOT member. *)
Definition or_add_not {I K J Q} (junk : Z) (n : K)
    (a : ORDocumentIterator I (NOTDocumentIterator K J Q) Q) :
    ORDocumentIterator I (NOTDocumentIterator K J Q) Q :=
  Or (docIteratorList_ a) (pDocIteratorQueue_ a) (currDoc_ a)
    (Some (not_add n (default (not_new junk) (pNOTDocIterator_ a))))
    (currDocOfNOTIter_ a) (initNOTIterator_ a).

(** ** A queue that has the laws *)

(** A vector kept in the order of the documents. *)
Record ListQueue := LQ { lq_cap : nat; lq_elems : list nat }.

Fixpoint key_insert (k : nat → Z) (i : nat) (l : list nat) : list nat :=
  match l with
  | [] => [i]
  | j :: l => if k i <=? k j then i :: j :: l else j :: key_insert k i l
  end.

#[export] Instance list_queue : DocQueue ListQueue := {
  q_new n := LQ n [];
  q_insert k i q := if (length (lq_elems q) <? lq_cap q)%nat
                    then LQ (lq_cap q) (key_insert k i (lq_elems q)) else q;
  q_top q := head (lq_elems q);
  q_pop _ q := LQ (lq_cap q) (tail (lq_elems q));
  q_adjustTop k q := match lq_elems q with [] => q | i :: l => LQ (lq_cap q) (key_insert k i l) end;
  q_elems := lq_elems }.

Notation key_sorted k := (StronglySorted (λ i j, k i ≤ k j)).

Lemma key_insert_perm k i l : key_insert k i l ≡ₚ i :: l.
Proof.
  induction l as [|j l IH]; [done|]. simpl. destruct (k i <=? k j); [done|].
  rewrite IH. apply perm_swap.
Qed.

Lemma key_insert_sorted k i l : key_sorted k l → key_sorted k (key_insert k i l).
Proof.
  induction 1 as [|j l Hs IH Hj]; [repeat constructor|]. simpl. destruct (k i <=? k j) eqn:E; bool_cases.
  - constructor; [by constructor|]. constructor; [done|].
    eapply Forall_impl; [exact Hj|]. simpl. lia.
  - constructor; [done|]. rewrite key_insert_perm. constructor; [lia|done].
Qed.

Lemma key_sorted_ext (k k' : nat → Z) l : (∀ j, j ∈ l → k' j = k j) → key_sorted k l → key_sorted k' l.
Proof.
  intros Hk. induction 1 as [|j l Hs IH Hj]; [constructor|]. constructor.
  - apply IH. intros x Hx. apply Hk. by right.
  - rewrite Forall_forall in Hj |- *. intros x Hx. rewrite !Hk; [by apply Hj|by right|by left].
Qed.

(** The tail of a sorted vector without repetition keeps its order when only
    the head changes; a repeated head is excluded by [NoDup]. *)
Lemma key_sorted_tail (k k' : nat → Z) i l :
  key_sorted k (i :: l) → NoDup (i :: l) → (∀ j, j ∈ i :: l → j ≠ i → k' j = k j) → key_sorted k' l.
Proof.
  intros Hs Hn Hk. inversion_clear Hs. inversion_clear Hn as [|?? Hni].
  apply (key_sorted_ext k); [|done]. intros j Hj. apply Hk; [by right|]. by intros ->.
Qed.

#[export] Program Instance list_queue_ok : DocQueueOk ListQueue := {
  q_cap := lq_cap;
  q_ordered k q := key_sorted k (lq_elems q) ∧ NoDup (lq_elems q) }.
Next Obligation. intros k n. split_and!; [constructor|constructor|done|done]. Qed.
Next Obligation. intros k k' q Hk [? ?]. split; [by apply (key_sorted_ext k)|done]. Qed.
Next Obligation.
  intros k i q [Hs Hn] Hi Hc. simpl in *. rewrite (proj2 (Nat.ltb_lt _ _)) by done. simpl.
  pose proof (key_insert_perm k i (lq_elems q)) as Hp. split_and!; [by apply key_insert_sorted| |done|done].
  rewrite Hp. by constructor.
Qed.
Next Obligation.
  intros k q [Hs _]. simpl. destruct (lq_elems q) as [|i l]; [done|]. simpl. inversion_clear Hs as [|?? _ Hi].
  split; [by left|]. rewrite Forall_forall in Hi. intros j [->|Hj]%elem_of_cons; [lia|by apply Hi].
Qed.
Next Obligation.
  intros k k' q i [Hs Hn] Ht Hk. simpl in *. destruct (lq_elems q) as [|j l]; [done|]. injection Ht as ->.
  split; [|done]. simpl. split; [by apply (key_sorted_tail k k' i)|by inversion Hn].
Qed.
Next Obligation.
  intros k k' q i [Hs Hn] Ht Hk. simpl in *. destruct (lq_elems q) as [|j l]; [done|]. injection Ht as ->.
  simpl. pose proof (key_insert_perm k' i l) as Hp. split_and!; [|by rewrite Hp|done].
  by apply key_insert_sorted, (key_sorted_tail k k' i).
Qed.

(** ** The members in the queue and their documents *)

Section or_members.
Context {I Q : Type} `{DocIterSpec I} `{DocQueueOk Q}.

Implicit Types (l : list (option (I * bool))) (q : Q).

Definition at_slot (l : list (option (I * bool))) (j : nat) (x : I) (f : bool) : Prop :=
  l !! j = Some (Some (x, f)).

(** The queue points to distinct members that are not at their end. *)
Record alive (l : list (option (I * bool))) (q : Q) : Prop := {
  al_ordered : q_ordered (keys l) q;
  al_nodup : NoDup (q_elems q);
  al_member : ∀ j, j ∈ q_elems q → ∃ x f,
    at_slot l j x f ∧ it_inv x ∧ doc x = it_pos x ∧ doc x < MAX_DOC_ID }.

(** [y] is a document of a member in the queue, from the current one on. *)
Definition in_queue (l : list (option (I * bool))) (q : Q) (y : Z) : Prop :=
  ∃ j x f, j ∈ q_elems q ∧ at_slot l j x f ∧ y ∈ it_pos x :: it_rest x.

(** The flags say who stands on [c], below which nobody is. *)
Definition flagged (l : list (option (I * bool))) (q : Q) (c : Z) : Prop :=
  ∀ j x f, j ∈ q_elems q → at_slot l j x f → f = (c =? doc x) ∧ c ≤ doc x.

Lemma keys_at l j x f : at_slot l j x f → keys l j = doc x.
Proof. unfold at_slot, keys. by intros ->. Qed.

Lemma at_slot_fun l j x f x' f' : at_slot l j x f → at_slot l j x' f' → x' = x ∧ f' = f.
Proof. unfold at_slot. intros E E'. rewrite E in E'. by injection E' as -> ->. Qed.

Lemma at_slot_insert l i (s : option (I * bool)) j x f :
  (i < length l)%nat →
  at_slot (<[i := s]> l) j x f ↔ (j = i ∧ s = Some (x, f)) ∨ (j ≠ i ∧ at_slot l j x f).
Proof.
  intros Hi. unfold at_slot. destruct (decide (j = i)) as [->|Hne].
  - rewrite list_lookup_insert_eq by done. split; [intros [= ->]; by left|].
    by intros [[_ ->]|[? _]].
  - rewrite list_lookup_insert_ne by done. split; [by right|]. by intros [[? _]|[_ ?]].
Qed.

Lemma keys_insert_ne l i (s : option (I * bool)) j : j ≠ i → keys (<[i := s]> l) j = keys l j.
Proof. intros Hj. unfold keys. by rewrite list_lookup_insert_ne. Qed.

Lemma in_queue_above l q c y : alive l q → flagged l q c → in_queue l q y → c ≤ y.
Proof.
  intros Ha Hf (j & x & f & Hj & Hx & Hy). destruct (Hf j x f Hj Hx) as [_ Hc].
  destruct (al_member _ _ Ha j Hj) as (x' & f' & Hx' & Hi & Hd & _).
  destruct (at_slot_fun _ _ _ _ _ _ Hx Hx') as [-> ->].
  apply elem_of_cons in Hy as [->|Hy]; [lia|].
  pose proof (it_bounds x Hi) as Hb. rewrite Forall_forall in Hb. specialize (Hb y Hy). lia.
Qed.

(** The top holds the least document of all. *)
Lemma top_least l q i :
  alive l q → q_top q = Some i →
  i ∈ q_elems q ∧ in_queue l q (keys l i) ∧ keys l i < MAX_DOC_ID ∧
  (∀ j, j ∈ q_elems q → keys l i ≤ keys l j) ∧ ∀ y, in_queue l q y → keys l i ≤ y.
Proof.
  intros Ha Ht. pose proof (q_top_ok _ _ (al_ordered _ _ Ha)) as Htop. rewrite Ht in Htop.
  destruct Htop as [Hi Hleast]. split; [done|].
  destruct (al_member _ _ Ha i Hi) as (x & f & Hx & Hinv & Hd & Hmax).
  rewrite (keys_at _ _ _ _ Hx) in *. split_and!; [|done|done|].
  - exists i, x, f. split_and!; [done|done|]. rewrite Hd. by left.
  - intros y (j & x' & f' & Hj & Hx' & Hy). specialize (Hleast j Hj).
    rewrite (keys_at _ _ _ _ Hx') in Hleast.
    destruct (al_member _ _ Ha j Hj) as (z & g & Hz & Hiz & Hdz & _).
    destruct (at_slot_fun _ _ _ _ _ _ Hx' Hz) as [-> ->].
    apply elem_of_cons in Hy as [->|Hy]; [lia|].
    pose proof (it_bounds x' Hiz) as Hb. rewrite Forall_forall in Hb. specialize (Hb y Hy). lia.
Qed.

Lemma top_none l q : alive l q → q_top q = None → ∀ y, ¬ in_queue l q y.
Proof.
  intros Ha Ht y (j & ? & ? & Hj & _). pose proof (q_top_ok _ _ (al_ordered _ _ Ha)) as Htop.
  rewrite Ht in Htop. rewrite Htop in Hj. by apply not_elem_of_nil in Hj.
Qed.

(** *** Setting the flags *)

(** [l'] is [l] with new flags on the members of the queue. *)
Definition remarked (d : Z) (q : Q) (l l' : list (option (I * bool))) : Prop :=
  ∀ j, j ∈ q_elems q → l' !! j = mark_slot d <$> l !! j.

Lemma mark_all_remarked d q l : remarked d q l (mark_all d l).
Proof. intros j _. apply list_lookup_fmap. Qed.

Lemma mark_queue_lookup d (ns : list nat) : ∀ l j,
  NoDup ns →
  fold_left (λ l i, alter (mark_slot d) i l) ns l !! j =
  if decide (j ∈ ns) then mark_slot d <$> l !! j else l !! j.
Proof.
  induction ns as [|n ns IH]; intros l j Hn; simpl; [done|].
  inversion_clear Hn as [|?? Hni]. rewrite IH by done. destruct (decide (j = n)) as [->|Hne].
  - rewrite decide_False by done. rewrite decide_True by (by left). by rewrite list_lookup_alter_eq.
  - rewrite list_lookup_alter_ne by done. repeat case_decide; set_solver.
Qed.

Lemma mark_queue_remarked d q l : NoDup (q_elems q) → remarked d q l (mark_queue d q l).
Proof. intros Hn j Hj. unfold mark_queue. rewrite mark_queue_lookup by done. by rewrite decide_True. Qed.

Lemma remarked_at d q l (l' : list (option (I * bool))) j x f :
  remarked d q l l' → j ∈ q_elems q →
  at_slot l' j x f ↔ f = (d =? doc x) ∧ ∃ g, at_slot l j x g.
Proof.
  intros Hr Hj. unfold at_slot. rewrite (Hr j Hj). destruct (l !! j) as [[[z g]|]|]; simpl; split.
  - intros [= <- <-]. split; [done|]. by exists g.
  - intros [-> (g' & [= -> ->])]. done.
  - done.
  - by intros [_ (? & ?)].
  - done.
  - by intros [_ (? & ?)].
Qed.

Lemma remarked_alive d q l (l' : list (option (I * bool))) :
  remarked d q l l' → alive l q → alive l' q ∧ ∀ y, in_queue l' q y ↔ in_queue l q y.
Proof.
  intros Hr [Ho Hn Hm]. split.
  - split; [|done|].
    + apply (q_ordered_ext (keys l)); [|done]. intros j Hj. unfold keys. rewrite (Hr j Hj).
      by destruct (l !! j) as [[[]|]|].
    + intros j Hj. destruct (Hm j Hj) as (x & f & Hx & ?). exists x, (d =? doc x). split; [|done].
      apply (remarked_at d q l l' j); [done|done|]. split; [done|]. by exists f.
  - intros y. unfold in_queue. split.
    + intros (j & x & f & Hj & [_ [g Hx]]%(remarked_at d q l l') & Hy); [|done|done]. by exists j, x, g.
    + intros (j & x & f & Hj & Hx & Hy). exists j, x, (d =? doc x). split_and!; [done| |done].
      apply (remarked_at d q l l' j); [done|done|]. split; [done|]. by exists f.
Qed.

Lemma remarked_flagged q l (l' : list (option (I * bool))) i :
  alive l q → q_top q = Some i → remarked (keys l i) q l l' → flagged l' q (keys l i).
Proof.
  intros Ha Ht Hr j x f Hj [-> [g Hx]]%(remarked_at _ _ _ _ _ _ _ Hr); [|done]. split; [done|].
  destruct (top_least l q i Ha Ht) as (_ & _ & _ & Hk & _). specialize (Hk j Hj).
  by rewrite (keys_at _ _ _ _ Hx) in Hk.
Qed.

(** *** Moving the top *)

Definition others (i : nat) l q (y : Z) : Prop :=
  ∃ j x f, j ∈ q_elems q ∧ j ≠ i ∧ at_slot l j x f ∧ y ∈ it_pos x :: it_rest x.

Lemma in_queue_others l q i x f y :
  i ∈ q_elems q → at_slot l i x f → in_queue l q y ↔ y ∈ it_pos x :: it_rest x ∨ others i l q y.
Proof.
  intros Hi Hx. split.
  - intros (j & z & g & Hj & Hz & Hy). destruct (decide (j = i)) as [->|Hne].
    + destruct (at_slot_fun _ _ _ _ _ _ Hx Hz) as [-> ->]. by left.
    + right. by exists j, z, g.
  - intros [Hy|(j & z & g & Hj & _ & Hz & Hy)]; [by exists i, x, f|by exists j, z, g].
Qed.

Lemma slot_length l i x f : at_slot l i x f → (i < length l)%nat.
Proof. intros Hx. by apply lookup_lt_is_Some_1; eexists. Qed.

(** The top moved to a new document. *)
Lemma adjust_alive l q i x f x' f' :
  alive l q → q_top q = Some i → at_slot l i x f →
  it_inv x' → doc x' = it_pos x' → doc x' < MAX_DOC_ID →
  let l' := <[i := Some (x', f')]> l in
  let q' := q_adjustTop (keys l') q in
  alive l' q' ∧ q_elems q' ≡ₚ q_elems q ∧
  ∀ y, in_queue l' q' y ↔ y ∈ it_pos x' :: it_rest x' ∨ others i l q y.
Proof.
  intros [Ho Hn Hm] Ht Hx Hi' Hd' Hmax' l' q'. pose proof (slot_length _ _ _ _ Hx) as Hlen.
  destruct (q_adjust_ok (keys l) (keys l') q i Ho Ht) as [Ho' He].
  { intros j _ Hj. by apply keys_insert_ne. }
  fold q' in Ho', He. pose proof (q_top_ok _ _ Ho) as Htop. rewrite Ht in Htop. destruct Htop as [Hi _].
  split_and!; [split; [done|by rewrite He|]|done|].
  - intros j Hj. destruct (decide (j = i)) as [->|Hne].
    + exists x', f'. split; [|done]. apply at_slot_insert; [done|]. by left.
    + rewrite He in Hj. destruct (Hm j Hj) as (z & g & Hz & ?). exists z, g. split; [|done].
      apply at_slot_insert; [done|]. by right.
  - intros y. split.
    + intros (j & z & g & Hj & [[-> [= -> ->]]|[Hne Hz]]%at_slot_insert & Hy); [by left| |done].
      right. exists j, z, g. by rewrite He in Hj.
    + intros [Hy|(j & z & g & Hj & Hne & Hz & Hy)].
      * exists i, x', f'. rewrite He. split_and!; [done| |done]. apply at_slot_insert; [done|]. by left.
      * exists j, z, g. rewrite He. split_and!; [done| |done]. apply at_slot_insert; [done|]. by right.
Qed.

(** The top reached its end. *)
Lemma pop_alive l q i x f (s : option (I * bool)) :
  alive l q → q_top q = Some i → at_slot l i x f →
  let l' := <[i := s]> l in
  let q' := q_pop (keys l') q in
  alive l' q' ∧ i :: q_elems q' ≡ₚ q_elems q ∧ ∀ y, in_queue l' q' y ↔ others i l q y.
Proof.
  intros [Ho Hn Hm] Ht Hx l' q'. pose proof (slot_length _ _ _ _ Hx) as Hlen.
  destruct (q_pop_ok (keys l) (keys l') q i Ho Ht) as [Ho' He].
  { intros j _ Hj. by apply keys_insert_ne. }
  fold q' in Ho', He. rewrite <- He in Hn. apply NoDup_cons in Hn as [Hni Hn].
  assert (∀ j, j ∈ q_elems q' ↔ j ∈ q_elems q ∧ j ≠ i) as Hin.
  { intros j. rewrite <- He, elem_of_cons. split; [intros Hj; split; [by right|by intros ->]|].
    by intros [[->|?] ?]. }
  split_and!; [split; [done|done|]|done|].
  - intros j [Hj Hne]%Hin. destruct (Hm j Hj) as (z & g & Hz & ?). exists z, g. split; [|done].
    apply at_slot_insert; [done|]. by right.
  - intros y. split.
    + intros (j & z & g & [Hj Hne]%Hin & Hz%at_slot_insert & Hy); [|done].
      destruct Hz as [[? _]|[_ Hz]]; [done|]. by exists j, z, g.
    + intros (j & z & g & Hj & Hne & Hz & Hy). exists j, z, g. rewrite Hin. split_and!; [done|done| |done].
      apply at_slot_insert; [done|]. by right.
Qed.

(** *** [advance]: the members on [c] move on *)

Lemma advance_ok fuel : ∀ l q c (T : list nat),
  alive l q → flagged l q c → (length T < fuel)%nat →
  (∀ j x, j ∈ q_elems q → at_slot l j x true → j ∈ T) →
  ∃ l' q', advance fuel l q = Some (l', q') ∧ alive l' q' ∧ flagged l' q' c ∧
    (∀ y, c < y → in_queue l' q' y ↔ in_queue l q y) ∧
    match q_top q' with Some i => c < keys l' i | None => True end.
Proof.
  induction fuel as [|fuel IH]; intros l q c T Ha Hf HT Hin; [lia|]. cbn [advance].
  destruct (q_top q) as [i|] eqn:Ht.
  2:{ exists l, q. split_and!; try done. by rewrite Ht. }
  destruct (top_least l q i Ha Ht) as (Hi & _).
  destruct (al_member _ _ Ha i Hi) as (x & f & Hx & Hinv & Hd & Hmax).
  destruct (Hf i x f Hi Hx) as [Hfx Hcx]. pose proof Hx as Hx0. unfold at_slot in Hx0. rewrite Hx0.
  destruct f.
  2:{ exists l, q. split_and!; try done. rewrite Ht, (keys_at _ _ _ _ Hx).
      symmetry in Hfx. bool_cases. lia. }
  symmetry in Hfx. bool_cases. pose proof (slot_length _ _ _ _ Hx) as Hlen.
  pose proof (it_next_ok x Hinv) as Hnext. pose proof (it_bounds x Hinv) as Hb.
  assert (length (filter (λ j, j ≠ i) T) < fuel)%nat as HT'.
  { assert (i ∈ T) as HiT by (by apply (Hin i x)).
    pose proof (length_filter_lt (λ j, j ≠ i) T i HiT ltac:(tauto)). lia. }
  assert (∀ x' q', (∀ j, j ∈ q_elems q' → j ∈ q_elems q) → (∀ j z,
      j ∈ q_elems q' → at_slot (<[i:=Some (x', false)]> l) j z true → j ∈ filter (λ j, j ≠ i) T)) as Hin'.
  { intros x' q' Hq j z Hj [[_ ?]|[Hne Hz]]%at_slot_insert; [done| |done].
    apply list_elem_of_filter. split; [done|]. by apply (Hin j z); [apply Hq|]. }
  assert (∀ x' q', (∀ j, j ∈ q_elems q' → j ∈ q_elems q) → (i ∈ q_elems q' → c < doc x') →
      flagged (<[i:=Some (x', false)]> l) q' c) as Hf'.
  { intros x' q' Hq Hc' j z g Hj [[-> [= <- <-]]|[Hne Hz]]%at_slot_insert; [| |done].
    - specialize (Hc' Hj). split; [|lia]. symmetry. apply Z.eqb_neq. lia.
    - exact (Hf j z g (Hq j Hj) Hz). }
  destruct (it_rest x) as [|d r] eqn:Er.
  - destruct Hnext as (x' & ->). cbn [mbind option_bind].
    destruct (pop_alive l q i x true (Some (x', false)) Ha Ht Hx) as (Ha' & He & Hdocs).
    set (q' := q_pop _ q) in *.
    assert (∀ j, j ∈ q_elems q' → j ∈ q_elems q) as Hq by (intros j Hj; rewrite <- He; by right).
    destruct (IH _ q' c (filter (λ j, j ≠ i) T) Ha') as (l2 & q2 & -> & Ha2 & Hf2 & Hd2 & Ht2); [|done|by eapply Hin'|].
    { apply Hf'; [done|]. intros Hi'. exfalso.
      pose proof (al_nodup _ _ Ha) as Hn. rewrite <- He in Hn. by apply NoDup_cons in Hn as []. }
    exists l2, q2. split_and!; try done. intros y Hy. rewrite Hd2, Hdocs by done.
    rewrite (in_queue_others l q i x true) by done. rewrite Er, list_elem_of_singleton.
    split; [by right|]. intros [->|?]; [lia|done].
  - destruct Hnext as (x' & -> & Hi' & Hdoc & Hp' & Hr'). cbn [mbind option_bind].
    apply Forall_cons in Hb as [Hb _].
    destruct (adjust_alive l q i x true x' false Ha Ht Hx Hi' ltac:(lia) ltac:(lia)) as (Ha' & He & Hdocs).
    set (q' := q_adjustTop _ q) in *.
    assert (∀ j, j ∈ q_elems q' → j ∈ q_elems q) as Hq by (intros j; by rewrite He).
    destruct (IH _ q' c (filter (λ j, j ≠ i) T) Ha') as (l2 & q2 & -> & Ha2 & Hf2 & Hd2 & Ht2); [|done|by eapply Hin'|].
    { apply Hf'; [done|]. lia. }
    exists l2, q2. split_and!; try done. intros y Hy. rewrite Hd2, Hdocs by done.
    rewrite (in_queue_others l q i x true), Er, Hp', Hr' by done.
    rewrite (elem_of_cons (d :: r) y (it_pos x)). split; [intros [?|?]; auto|].
    intros [[->|?]|?]; [lia|by left|by right].
Qed.

(** *** [do_skipTo]: the members before the target skip to it *)

Definition skipped (t : Z) l q (d : Z) (l' : list (option (I * bool))) (q' : Q) : Prop :=
  if decide (d = MAX_DOC_ID) then ∀ y, t ≤ y → ¬ in_queue l q y
  else alive l' q' ∧ flagged l' q' d ∧ t ≤ d ∧ d < MAX_DOC_ID ∧ in_queue l q d ∧
       (∀ y, t ≤ y → in_queue l q y → d ≤ y) ∧
       ∀ y, d < y → in_queue l' q' y ↔ in_queue l q y.

Lemma skipped_ext t l q l1 (q1 : Q) d l' q' :
  (∀ y, t ≤ y → in_queue l1 q1 y ↔ in_queue l q y) →
  skipped t l1 q1 d l' q' → skipped t l q d l' q'.
Proof.
  intros Hext. unfold skipped. case_decide as E.
  - intros Hno y Hy. rewrite <- Hext by done. by apply Hno.
  - intros (? & ? & ? & ? & Hin & Hmin & Hrest). split_and!; try done.
    + by apply Hext.
    + intros y Hy Hq. apply Hmin; [done|]. by apply Hext.
    + intros y Hy. rewrite Hrest, Hext by lia. done.
Qed.

Lemma or_skip_loop_ok fuel t : ∀ l q (T : list nat),
  alive l q → q_elems q ≠ [] → (length T < fuel)%nat →
  (∀ j x f, j ∈ q_elems q → at_slot l j x f → doc x < t → j ∈ T) →
  ∃ d l' q', or_skip_loop fuel t l q = Some (d, l', q') ∧ skipped t l q d l' q'.
Proof.
  induction fuel as [|fuel IH]; intros l q T Ha Hne HT Hin; [lia|]. cbn [or_skip_loop].
  pose proof (q_top_ok _ _ (al_ordered _ _ Ha)) as Htop.
  destruct (q_top q) as [i|] eqn:Ht; [clear Htop|done]. cbn [mbind option_bind].
  destruct (top_least l q i Ha Ht) as (Hi & Hind & Hmaxd & Hleast & Hmin).
  set (d := keys l i) in *. pose proof (mark_all_remarked d q l) as Hr.
  destruct (remarked_alive d q l _ Hr Ha) as [Ha1 Hd1].
  pose proof (remarked_flagged q l _ i Ha Ht Hr) as Hf1. fold d in Hf1.
  set (l1 := mark_all d l) in *. destruct (t <=? d) eqn:Etd; bool_cases.
  { rewrite (proj2 (Nat.ltb_ge _ _)) by (destruct (q_elems q); [done|simpl; lia]).
    exists d, l1, q. split; [done|]. unfold skipped. rewrite decide_False by lia.
    split_and!; try done. intros y Hy. by apply Hmin. }
  destruct (al_member _ _ Ha1 i Hi) as (x & f & Hx & Hinv & Hdoc & Hmax).
  assert (doc x = d) as Hxd.
  { unfold d. rewrite <- (keys_at _ _ _ _ Hx). unfold keys. rewrite (Hr i Hi).
    by destruct (l !! i) as [[[]|]|]. }
  pose proof Hx as Hx0. unfold at_slot in Hx0. rewrite Hx0. cbn [mbind option_bind].
  assert (length (filter (λ j, j ≠ i) T) < fuel)%nat as HT'.
  { assert (i ∈ T) as HiT.
    { apply (proj1 (remarked_at _ _ _ _ _ _ _ Hr Hi)) in Hx as [_ [g Hx]]. apply (Hin i x g); [done|done|lia]. }
    pose proof (length_filter_lt (λ j, j ≠ i) T i HiT ltac:(tauto)). lia. }
  pose proof (slot_length _ _ _ _ Hx) as Hlen.
  assert (∀ x' q', (∀ j, j ∈ q_elems q' → j ∈ q_elems q) → (i ∈ q_elems q' → t ≤ doc x') →
      ∀ j z g, j ∈ q_elems q' → at_slot (<[i:=Some (x', f)]> l1) j z g → doc z < t →
      j ∈ filter (λ j, j ≠ i) T) as Hin'.
  { intros x' q' Hq Hc' j z g Hj [[-> [= <- <-]]|[Hji Hz]]%at_slot_insert Hlt; [| |done].
    - specialize (Hc' Hj). lia.
    - apply list_elem_of_filter. split; [done|].
      apply (proj1 (remarked_at _ _ _ _ _ _ _ Hr (Hq j Hj))) in Hz as [_ [g' Hz]]. eauto. }
  pose proof (it_skip_ok x t Hinv ltac:(lia)) as Hskip.
  destruct (from t (it_rest x)) as [|d' r] eqn:E.
  - destruct Hskip as (x' & ->). cbn [mbind option_bind]. rewrite Z.eqb_refl. cbn [orb].
    destruct (pop_alive l1 q i x f (Some (x', f)) Ha1 Ht Hx) as (Ha2 & He & Hd2).
    set (l2 := <[i := _]> l1) in *. set (q2 := q_pop _ q) in *.
    assert (∀ y, t ≤ y → in_queue l2 q2 y ↔ in_queue l q y) as Hext.
    { intros y Hy. rewrite Hd2, <- Hd1, (in_queue_others l1 q i x f) by done.
      split; [by right|]. intros [[->|Hyr]%elem_of_cons|?]; [lia| |done].
      exfalso. apply (not_elem_of_nil y). rewrite <- E. by apply elem_of_from. }
    destruct (length (q_elems q2) <? 1)%nat eqn:E2; bool_cases.
    + exists MAX_DOC_ID, l2, q2. split; [done|]. unfold skipped. rewrite decide_True by done.
      intros y Hy Hq. apply Hext in Hq as (j & ? & ? & Hj & _); [|done].
      destruct (q_elems q2); [by apply not_elem_of_nil in Hj|simpl in E2; lia].
    + destruct (IH l2 q2 (filter (λ j, j ≠ i) T) Ha2) as (e & l3 & q3 & -> & Hres); [|done| |].
      * intros Hnil. rewrite Hnil in E2. simpl in E2. lia.
      * apply Hin'; [intros j Hj; rewrite <- He; by right|]. intros Hi2. exfalso.
        pose proof (al_nodup _ _ Ha) as Hn. rewrite <- He in Hn. by apply NoDup_cons in Hn as [].
      * exists e, l3, q3. split; [done|]. by apply (skipped_ext t l q l2 q2).
  - destruct Hskip as (x' & -> & Hi' & Hdoc' & Hp' & Hr'). cbn [mbind option_bind].
    destruct (from_split t _ _ _ (it_sorted x Hinv) E) as (Htd & Hdin & _).
    pose proof (it_bounds x Hinv) as Hb. rewrite Forall_forall in Hb. specialize (Hb d' Hdin).
    rewrite (proj2 (Z.eqb_neq d' _)), (proj2 (Z.ltb_ge d' t)) by lia. cbn [orb].
    destruct (adjust_alive l1 q i x f x' f Ha1 Ht Hx Hi' ltac:(lia) ltac:(lia)) as (Ha2 & He & Hd2).
    set (l2 := <[i := _]> l1) in *. set (q2 := q_adjustTop _ q) in *.
    assert (∀ y, t ≤ y → in_queue l2 q2 y ↔ in_queue l q y) as Hext.
    { intros y Hy. rewrite Hd2, <- Hd1, (in_queue_others l1 q i x f), Hp', Hr', <- E, elem_of_from by done.
      rewrite elem_of_cons. split; [intros [[_ ?]|?]; auto|]. intros [[->|?]|?]; [lia|by left|by right]. }
    destruct (IH l2 q2 (filter (λ j, j ≠ i) T) Ha2) as (e & l3 & q3 & -> & Hres); [|done| |].
    * intros Hnil. rewrite Hnil in He. symmetry in He. by apply Permutation_nil_r in He.
    * apply Hin'; [intros j; by rewrite He|]. lia.
    * exists e, l3, q3. split; [done|]. by apply (skipped_ext t l q l2 q2).
Qed.

(** *** [initDocIteratorQueue]: every member moves to its first document *)

Definition waiting (p : Z) l : Prop :=
  ∀ j, (j < length l)%nat → ∃ x f, at_slot l j x f ∧ it_inv x ∧ it_pos x = p.

(** [y] is a document of a member, before the first move. *)
Definition in_members l (y : Z) : Prop := ∃ j x f, at_slot l j x f ∧ y ∈ it_rest x.

Record init_inv (p : Z) (l0 : list (option (I * bool))) (k : nat) l q : Prop := {
  in_alive : alive l q;
  in_len : length l = length l0;
  in_cap : q_cap q = length l0 ∧ (length (q_elems q) ≤ k)%nat;
  in_below : ∀ j, j ∈ q_elems q → (j < k)%nat;
  in_later : ∀ j, (k ≤ j)%nat → l !! j = l0 !! j;
  in_flags : ∀ j x f, j ∈ q_elems q → at_slot l j x f → f = false ∧ p < doc x;
  in_docs : ∀ y, in_queue l q y ↔ ∃ j x f, (j < k)%nat ∧ at_slot l0 j x f ∧ y ∈ it_rest x }.

Lemma init_step_ok p l0 k l q :
  waiting p l0 → (k < length l0)%nat → init_inv p l0 k l q →
  ∃ l' q', init_step (l, q) k = Some (l', q') ∧ init_inv p l0 (S k) l' q'.
Proof.
  intros Hw Hk [Ha Hlen [Hcap Hle] Hbelow Hlater Hflags Hdocs]. unfold init_step.
  destruct (Hw k Hk) as (x & f & Hx & Hinv & Hp). pose proof Hx as Hxl.
  unfold at_slot in Hxl. rewrite <- Hlater in Hxl by lia. rewrite Hxl.
  pose proof (it_next_ok x Hinv) as Hnext. pose proof (it_bounds x Hinv) as Hb.
  assert (k < length l)%nat as Hkl by lia.
  assert (k ∉ q_elems q) as Hkq by (intros Hin%Hbelow; lia).
  assert (∀ s j z g, j ∈ q_elems q → at_slot (<[k:=s]> l) j z g ↔ at_slot l j z g) as Hold.
  { intros s j z g Hj. rewrite at_slot_insert by done. specialize (Hbelow j Hj).
    split; [intros [[? _]|[_ ?]]; [lia|done]|]. intros ?. right. split; [lia|done]. }
  assert (∀ s, alive (<[k:=s]> l) q) as Ha'.
  { intros s. destruct Ha as [Ho Hn Hm]. split; [|done|].
    - apply (q_ordered_ext (keys l)); [|done]. intros j Hj. apply keys_insert_ne. intros ->. by apply Hkq.
    - intros j Hj. destruct (Hm j Hj) as (z & g & Hz & ?). exists z, g. by rewrite Hold. }
  assert (∀ s y, in_queue (<[k:=s]> l) q y ↔ in_queue l q y) as Hdocs'.
  { intros s y. unfold in_queue. split; intros (j & z & g & Hj & Hz & Hy); exists j, z, g;
      (split_and!; [done| |done]); by eapply Hold. }
  assert (∀ y, (∃ j z g, (j < S k)%nat ∧ at_slot l0 j z g ∧ y ∈ it_rest z) ↔
               y ∈ it_rest x ∨ in_queue l q y) as Hsplit.
  { intros y. rewrite Hdocs. split.
    - intros (j & z & g & Hj & Hz & Hy). destruct (decide (j = k)) as [->|Hne].
      + destruct (at_slot_fun _ _ _ _ _ _ Hx Hz) as [-> ->]. by left.
      + right. exists j, z, g. split; [lia|done].
    - intros [Hy|(j & z & g & Hj & Hz & Hy)]; [exists k, x, f; split; [lia|done]|exists j, z, g; split; [lia|done]]. }
  destruct (it_rest x) as [|d r] eqn:Er.
  - destruct Hnext as (x' & ->). cbn [mbind option_bind]. exists (<[k:=None]> l), q. split; [done|].
    split; try done.
    + by rewrite length_insert.
    + split; [done|lia].
    + intros j Hj. specialize (Hbelow j Hj). lia.
    + intros j Hj. rewrite list_lookup_insert_ne by lia. apply Hlater. lia.
    + intros j z g Hj Hz. apply (Hflags j z g Hj). by eapply Hold.
    + intros y. rewrite Hdocs', Hsplit. split; [by right|]. by intros [?%not_elem_of_nil|?].
  - destruct Hnext as (x' & -> & Hi' & Hdoc & Hp' & Hr'). cbn [mbind option_bind].
    apply Forall_cons in Hb as [Hb _].
    set (l' := <[k:=Some (x', false)]> l).
    destruct (q_insert_ok (keys l') k q) as (Ho' & He & Hc'); [apply Ha'|done|lia|].
    set (q' := q_insert (keys l') k q) in *. exists l', q'. split; [done|].
    assert (at_slot l' k x' false) as Hk' by (apply at_slot_insert; [done|by left]).
    assert (∀ j z g, j ∈ q_elems q' → at_slot l' j z g →
      (j = k ∧ z = x' ∧ g = false) ∨ (j ∈ q_elems q ∧ at_slot l j z g)) as Hcase.
    { intros j z g Hj Hz. rewrite He in Hj. apply elem_of_cons in Hj as [->|Hj].
      - left. by destruct (at_slot_fun _ _ _ _ _ _ Hk' Hz) as [-> ->].
      - right. split; [done|]. by eapply Hold. }
    split.
    + split; [done| |].
      * rewrite He. constructor; [done|]. apply Ha.
      * intros j Hj. rewrite He in Hj. apply elem_of_cons in Hj as [->|Hj].
        -- exists x', false. split_and!; [done|done|lia|lia].
        -- apply (al_member _ _ (Ha' _) j Hj).
    + unfold l'. by rewrite length_insert.
    + split; [lia|]. rewrite He. simpl. lia.
    + intros j Hj. rewrite He in Hj. apply elem_of_cons in Hj as [->|Hj]; [lia|]. specialize (Hbelow j Hj). lia.
    + intros j Hj. unfold l'. rewrite list_lookup_insert_ne by lia. apply Hlater. lia.
    + intros j z g Hj Hz. destruct (Hcase j z g Hj Hz) as [(-> & -> & ->)|[Hj' Hz']]; [split; [done|lia]|].
      by apply (Hflags j z g).
    + intros y. rewrite Hsplit. unfold in_queue at 1. split.
      * intros (j & z & g & Hj & Hz & Hy). destruct (Hcase j z g Hj Hz) as [(-> & -> & ->)|[Hj' Hz']].
        -- left. by rewrite Hp', Hr' in Hy.
        -- right. by exists j, z, g.
      * intros [Hy|(j & z & g & Hj & Hz & Hy)].
        -- exists k, x', false. rewrite He, Hp', Hr'. split_and!; [by left|done|done].
        -- exists j, z, g. rewrite He. split_and!; [by right| |done]. by apply Hold.
Qed.

Lemma init_queue_ok p l0 :
  waiting p l0 → l0 ≠ [] →
  ∃ l q, initDocIteratorQueue (Q := Q) l0 = Some (l, Some q) ∧ alive l q ∧
    (∀ j x f, j ∈ q_elems q → at_slot l j x f → f = false ∧ p < doc x) ∧
    ∀ y, in_queue l q y ↔ in_members l0 y.
Proof.
  intros Hw Hne.
  destruct (foldM_inv (λ pre st, init_inv p l0 (length pre) st.1 st.2) init_step
    (seq 0 (length l0)) (l0, q_new (length l0))) as ([l q] & E & Hinv).
  - simpl. destruct (q_new_ok (keys l0) (length l0)) as (Ho & He & Hc).
    split; simpl; try done.
    + split; [done|by rewrite He; constructor|]. intros j Hj. rewrite He in Hj. by apply not_elem_of_nil in Hj.
    + rewrite He. split; [done|simpl; lia].
    + intros j Hj. rewrite He in Hj. by apply not_elem_of_nil in Hj.
    + intros j x f Hj. rewrite He in Hj. by apply not_elem_of_nil in Hj.
    + intros y. split; [|intros (? & ? & ? & ? & _); lia].
      intros (j & ? & ? & Hj & _). rewrite He in Hj. by apply not_elem_of_nil in Hj.
  - intros pre k [l q] Hinv (suf & Hs). simpl in Hinv.
    assert (k = length pre ∧ (k < length l0)%nat) as [-> Hk].
    { assert (seq 0 (length l0) !! length pre = Some k) as Hl by (rewrite Hs; apply list_lookup_middle; done).
      apply lookup_seq in Hl. lia. }
    destruct (init_step_ok p l0 _ l q Hw Hk Hinv) as (l' & q' & -> & Hinv').
    exists (l', q'). split; [done|]. simpl. rewrite length_app. simpl. by rewrite Nat.add_1_r.
  - simpl in Hinv. rewrite length_seq in Hinv. unfold initDocIteratorQueue.
    destruct l0 as [|s0 l0]; [done|]. rewrite E. cbn [mbind option_bind].
    destruct Hinv as [Ha _ _ _ _ Hf Hd]. exists l, q. split_and!; [done|done|done|].
    intros y. rewrite Hd. split.
    + intros (j & x & f & _ & Hx & Hy). by exists j, x, f.
    + intros (j & x & f & Hx & Hy). exists j, x, f. split; [by eapply slot_length|done].
Qed.
End or_members.

(** ** The documents of a disjunction *)

Fixpoint zinsert (d : Z) (l : list Z) : list Z :=
  match l with
  | [] => [d]
  | e :: l' => if d <? e then d :: l else if d =? e then l else e :: zinsert d l'
  end.

Definition zsort (l : list Z) : list Z := foldr zinsert [] l.

Lemma elem_of_zinsert x d l : x ∈ zinsert d l ↔ x = d ∨ x ∈ l.
Proof.
  induction l as [|e l IH]; simpl; [by rewrite list_elem_of_singleton; set_solver|].
  destruct (d <? e) eqn:E1; [by rewrite elem_of_cons|]. destruct (d =? e) eqn:E2; bool_cases.
  - subst. rewrite elem_of_cons. tauto.
  - rewrite !elem_of_cons, IH. tauto.
Qed.

Lemma zinsert_sorted d l : StronglySorted Z.lt l → StronglySorted Z.lt (zinsert d l).
Proof.
  induction 1 as [|e l Hs IH He]; simpl; [repeat constructor|].
  destruct (d <? e) eqn:E1; [|destruct (d =? e) eqn:E2]; bool_cases.
  - constructor; [by constructor|]. constructor; [done|]. eapply Forall_impl; [exact He|]. simpl. lia.
  - by constructor.
  - constructor; [done|]. apply Forall_forall. intros x [->|Hx]%elem_of_zinsert; [lia|].
    rewrite Forall_forall in He. by apply He.
Qed.

Lemma elem_of_zsort x l : x ∈ zsort l ↔ x ∈ l.
Proof. induction l as [|d l IH]; [done|]. simpl. rewrite elem_of_zinsert, elem_of_cons, IH. tauto. Qed.

Lemma zsort_sorted l : StronglySorted Z.lt (zsort l).
Proof. induction l; [constructor|]. by apply zinsert_sorted. Qed.

Section or_plain.
Context {I J Q : Type} `{DocIterSpec I} `{DocIter J} `{DocQueueOk Q}.

Definition or_pos (a : ORDocumentIterator I J Q) : Z :=
  match pDocIteratorQueue_ a with
  | Some _ => currDoc_ a
  | None => match docIteratorList_ a with Some (x, _) :: _ => it_pos x | _ => 0 end
  end.

Definition slot_docs (f : I → list Z) (s : option (I * bool)) : list Z :=
  match s with Some (x, _) => f x | None => [] end.

Definition or_rest (a : ORDocumentIterator I J Q) : list Z :=
  match pDocIteratorQueue_ a with
  | None => zsort (docIteratorList_ a ≫= slot_docs it_rest)
  | Some q =>
      filter (λ y, currDoc_ a < y)
        (zsort (q_elems q ≫= λ j,
        default [] (slot_docs (λ x, it_pos x :: it_rest x) <$> docIteratorList_ a !! j)))
  end.

Definition or_docs (a : ORDocumentIterator I J Q) (y : Z) : Prop :=
  match pDocIteratorQueue_ a with
  | None => in_members (docIteratorList_ a) y
  | Some q => currDoc_ a < y ∧ in_queue (docIteratorList_ a) q y
  end.

Definition or_ok (a : ORDocumentIterator I J Q) : Prop :=
  match pDocIteratorQueue_ a with
  | None => waiting (or_pos a) (docIteratorList_ a)
  | Some q => alive (docIteratorList_ a) q ∧ flagged (docIteratorList_ a) q (currDoc_ a)
  end.

Lemma elem_of_or_rest a y : y ∈ or_rest a ↔ or_docs a y.
Proof.
  unfold or_rest, or_docs. destruct (pDocIteratorQueue_ a) as [q|].
  - rewrite list_elem_of_filter, elem_of_zsort, list_elem_of_bind. apply and_iff_compat_l. split.
    + intros (j & Hy & Hj). destruct (docIteratorList_ a !! j) as [[[x f]|]|] eqn:E; simpl in Hy;
        [by exists j, x, f|by apply not_elem_of_nil in Hy..].
    + intros (j & x & f & Hj & Hx & Hy). exists j. unfold at_slot in Hx. by rewrite Hx.
  - rewrite elem_of_zsort, list_elem_of_bind. split.
    + intros (s & Hy & [j Hj]%list_elem_of_lookup_1). destruct s as [[x f]|]; [by exists j, x, f|].
      by apply not_elem_of_nil in Hy.
    + intros (j & x & f & Hx & Hy). exists (Some (x, f)). split; [done|]. by eapply list_elem_of_lookup_2.
Qed.

Lemma or_rest_sorted a : StronglySorted Z.lt (or_rest a).
Proof.
  unfold or_rest. destruct (pDocIteratorQueue_ a); [apply sorted_filter|]; apply zsort_sorted.
Qed.

Lemma or_rest_bounds a y : or_ok a → or_docs a y → or_pos a < y < MAX_DOC_ID.
Proof.
  unfold or_ok, or_docs. destruct (pDocIteratorQueue_ a) as [q|] eqn:E.
  - intros [Ha _] [Hc (j & x & f & Hj & Hx & Hy)]. unfold or_pos. rewrite E. split; [done|].
    destruct (al_member _ _ Ha j Hj) as (z & g & Hz & Hi & Hd & Hm).
    destruct (at_slot_fun _ _ _ _ _ _ Hx Hz) as [-> ->].
    apply elem_of_cons in Hy as [->|Hy]; [lia|].
    pose proof (it_bounds x Hi) as Hb. rewrite Forall_forall in Hb. specialize (Hb y Hy). lia.
  - intros Hw (j & x & f & Hx & Hy). destruct (Hw j) as (z & g & Hz & Hi & <-); [by eapply slot_length|].
    destruct (at_slot_fun _ _ _ _ _ _ Hx Hz) as [-> ->].
    pose proof (it_bounds x Hi) as Hb. rewrite Forall_forall in Hb. by apply Hb.
Qed.

(** A list that is described by a least element and the rest. *)
Lemma or_rest_cons a a' d :
  or_docs a d → (∀ y, or_docs a y → d ≤ y) → (∀ y, d < y → or_docs a' y ↔ or_docs a y) →
  (∀ y, or_docs a' y → d < y) → or_rest a = d :: or_rest a'.
Proof.
  intros Hd Hmin Hrest Hgt. apply sorted_ext; [apply or_rest_sorted| |].
  - constructor; [apply or_rest_sorted|]. apply Forall_forall. intros y Hy%elem_of_or_rest. auto.
  - intros y. rewrite elem_of_cons, !elem_of_or_rest. split.
    + intros Hy. destruct (decide (y = d)); [by left|]. right. apply Hrest; [|done].
      specialize (Hmin y Hy). lia.
    + intros [->|Hy]; [done|]. apply Hrest; [by apply Hgt|done].
Qed.

Lemma or_rest_nil a : (∀ y, ¬ or_docs a y) → or_rest a = [].
Proof.
  intros Hno. destruct (or_rest a) as [|y l] eqn:E; [done|]. exfalso. apply (Hno y), elem_of_or_rest.
  rewrite E. by left.
Qed.

(** The end of [do_next]: the least document becomes the current one. *)
Lemma found_ok a c l q i l' :
  alive l q → q_top q = Some i → c < keys l i → remarked (keys l i) q l l' →
  (∀ y, or_docs a y ↔ c < y ∧ in_queue l q y) →
  let a' := set_members l' q (keys l i) a in
  or_ok a' ∧ or_rest a = keys l i :: or_rest a'.
Proof.
  intros Ha Ht Hc Hr Hdocs a'. destruct (top_least l q i Ha Ht) as (_ & Hin & _ & _ & Hmin).
  destruct (remarked_alive _ _ _ _ Hr Ha) as [Ha' Hd'].
  pose proof (remarked_flagged _ _ _ _ Ha Ht Hr) as Hf'. split; [done|].
  apply or_rest_cons.
  - by apply Hdocs.
  - intros y [_ Hy]%Hdocs. by apply Hmin.
  - intros y Hy. change (or_docs a' y) with (keys l i < y ∧ in_queue l' q y). rewrite Hd', Hdocs. split; (intros [? ?]; split; [lia|done]).
  - intros y. unfold or_docs, a'. simpl. by intros [].
Qed.

Lemma or_do_next_ok a :
  or_ok a →
  match or_rest a with
  | [] => ∃ a', or_do_next a = Some (false, a')
  | d :: r => ∃ l q, or_do_next a = Some (true, set_members l q d a) ∧
                     or_ok (set_members l q d a) ∧ or_rest (set_members l q d a) = r
  end.
Proof.
  intros Hok. unfold or_do_next. unfold or_ok in Hok.
  pose proof (elem_of_or_rest a) as Hin. unfold or_docs in Hin.
  destruct (pDocIteratorQueue_ a) as [q|] eqn:Eq.
  - destruct Hok as [Ha Hf]. set (l := docIteratorList_ a) in *.
    destruct (advance_ok (queue_fuel q) l q (currDoc_ a) (q_elems q) Ha Hf) as (l1 & q1 & -> & Ha1 & _ & Hd1 & Ht1);
      [unfold queue_fuel; lia|done|]. cbn [mbind option_bind].
    assert (∀ y, or_docs a y ↔ currDoc_ a < y ∧ in_queue l1 q1 y) as Hdocs.
    { intros y. unfold or_docs. rewrite Eq. split; (intros [? ?]; split; [done|]); by apply Hd1. }
    destruct (q_top q1) as [i|] eqn:Ht.
    + destruct (found_ok a (currDoc_ a) l1 q1 i (mark_all (keys l1 i) l1)) as [Hok' ->]; try done.
      { apply mark_all_remarked. }
      by eexists _, _.
    + rewrite or_rest_nil; [by eexists|]. intros y [_ Hy]%Hdocs. by apply (top_none l1 q1 Ha1 Ht y).
  - destruct (decide (docIteratorList_ a = [])) as [Hnil|Hne].
    + rewrite Hnil. simpl. rewrite or_rest_nil; [by eexists|]. intros y. unfold or_docs. rewrite Eq, Hnil.
      intros (j & ? & ? & Hx & _). by destruct j.
    + destruct (init_queue_ok _ _ Hok Hne) as (l & q & -> & Ha & Hf & Hd). cbn [mbind option_bind].
      destruct (q_top q) as [i|] eqn:Ht.
      * destruct (top_least l q i Ha Ht) as (Hi & _).
        destruct (al_member _ _ Ha i Hi) as (x & f & Hx & _). destruct (Hf i x f Hi Hx) as [_ Hp].
        destruct (found_ok a (or_pos a) l q i (mark_queue (keys l i) q l)) as [Hok' ->]; try done.
        { by rewrite (keys_at _ _ _ _ Hx). }
        { by apply mark_queue_remarked, Ha. }
        { intros y. split; [|intros [_ Hy]; unfold or_docs; rewrite Eq; by apply Hd].
          intros Hy. split; [apply (or_rest_bounds a y); [|done]; unfold or_ok; by rewrite Eq|].
          unfold or_docs in Hy. rewrite Eq in Hy. by apply Hd. }
        by eexists _, _.
      * rewrite or_rest_nil; [by eexists|]. unfold or_docs. rewrite Eq. intros y Hy%Hd.
        by apply (top_none l q Ha Ht y).
Qed.

Lemma or_do_skipTo_ok a t :
  or_ok a → or_pos a < t →
  match from t (or_rest a) with
  | [] => ∃ a', or_do_skipTo t a = Some (MAX_DOC_ID, a')
  | d :: r => ∃ l q, or_do_skipTo t a = Some (d, set_members l q d a) ∧
                     or_ok (set_members l q d a) ∧ or_rest (set_members l q d a) = r
  end.
Proof.
  intros Hok Ht.
  assert (∃ l oq, match pDocIteratorQueue_ a with
                  | None => initDocIteratorQueue (docIteratorList_ a)
                  | Some q => Some (docIteratorList_ a, Some q)
                  end = Some (l, oq) ∧
    match oq with
    | None => ∀ y, ¬ or_docs a y
    | Some q => alive l q ∧ ∀ y, t ≤ y → or_docs a y ↔ in_queue l q y
    end) as (l & oq & E & Hoq).
  { unfold or_ok, or_docs in *. unfold or_pos in Ht. destruct (pDocIteratorQueue_ a) as [q|] eqn:Eq.
    - eexists _, (Some q). split; [done|]. simpl. split; [apply Hok|]. intros y Hy.
      split; [by intros []|]. split; [lia|done].
    - destruct (decide (docIteratorList_ a = [])) as [Hnil|Hne].
      + exists [], None. rewrite Hnil. split; [done|]. intros y (j & ? & ? & Hx & _). by destruct j.
      + destruct (init_queue_ok _ _ Hok Hne) as (l & q & -> & Ha & Hf & Hd).
        exists l, (Some q). split; [done|]. split; [done|]. intros y _. by rewrite Hd. }
  unfold or_do_skipTo. rewrite E. cbn [mbind option_bind].
  assert ((∀ y, t ≤ y → ¬ or_docs a y) → from t (or_rest a) = []) as Hnil.
  { intros Hno. destruct (from t (or_rest a)) as [|y L] eqn:El; [done|]. exfalso.
    assert (y ∈ from t (or_rest a)) as [Hty Hy%elem_of_or_rest]%elem_of_from by (rewrite El; by left).
    by apply (Hno y). }
  destruct oq as [q|]; [|rewrite Hnil by auto; by eexists]. destruct Hoq as [Ha Hd].
  destruct (length (q_elems q) <? 1)%nat eqn:El; bool_cases.
  { rewrite Hnil; [by eexists|]. intros y Hy (j & ? & ? & Hj & _)%Hd; [|done].
    destruct (q_elems q); [by apply not_elem_of_nil in Hj|simpl in El; lia]. }
  destruct (or_skip_loop_ok (queue_fuel q) t l q (q_elems q) Ha) as (d & l' & q' & -> & Hres).
  { intros Hq. rewrite Hq in El. simpl in El. lia. }
  { unfold queue_fuel. lia. }
  { done. }
  cbn [mbind option_bind]. unfold skipped in Hres. case_decide as Edm.
  - subst d. rewrite Hnil; [by eexists|]. intros y Hy Hy'%Hd; [|done]. by apply (Hres y).
  - destruct Hres as (Ha' & Hf' & Htd & Hmax & Hin & Hmin & Hrest).
    assert (from t (or_rest a) = d :: or_rest (set_members l' q' d a)) as ->.
    { apply sorted_ext; [apply sorted_from, or_rest_sorted| |].
      - constructor; [apply or_rest_sorted|]. apply Forall_forall. intros y Hy%elem_of_or_rest.
        by destruct Hy.
      - intros y. rewrite elem_of_from, elem_of_cons, !elem_of_or_rest.
        change (or_docs (set_members l' q' d a) y) with (d < y ∧ in_queue l' q' y). split.
        + intros [Hy Hy'%Hd]; [|done]. pose proof (Hmin y Hy Hy').
          destruct (decide (y = d)); [by left|]. right. split; [lia|]. apply Hrest; [lia|done].
        + intros [->|[Hdy Hy]]; (split; [lia|]); apply Hd; [lia|done|lia|]. by apply Hrest. }
    by eexists _, _.
Qed.
End or_plain.

#[export] Program Instance or_iter_spec {I J Q} `{DocIterSpec I} `{DocIter J} `{DocQueueOk Q} fuel :
    DocIterSpec (ORDocumentIterator I J Q) (H := or_iter fuel) := {
  it_inv a := pNOTDocIterator_ a = None ∧ or_ok a;
  it_pos := or_pos;
  it_rest := or_rest }.
Next Obligation. intros. apply or_rest_sorted. Qed.
Next Obligation.
  intros I J Q ? ? ? ? ? fuel a [_ Ha]. apply Forall_forall. intros d Hd%elem_of_or_rest.
  by apply or_rest_bounds.
Qed.
Next Obligation.
  intros I J Q ? ? ? ? ? fuel a [Hn Ha]. pose proof (or_do_next_ok a Ha) as Hd.
  simpl. unfold or_next. rewrite Hn. destruct (or_rest a) as [|d r]; [done|].
  destruct Hd as (l & q & -> & Hok & Hr). by eexists.
Qed.
Next Obligation.
  intros I J Q ? ? ? ? ? fuel a t [Hn Ha] Ht. pose proof (or_do_skipTo_ok a t Ha Ht) as Hd.
  simpl. unfold or_skipTo. rewrite Hn. destruct (from t (or_rest a)) as [|d r]; [done|].
  destruct Hd as (l & q & -> & Hok & Hr). by eexists.
Qed.

(** [NOTDocumentIterator] is a disjunction without a NOT of its own. *)
#[export] Program Instance not_iter_spec {I J Q} `{DocIterSpec I} `{DocIter J} `{DocQueueOk Q} fuel :
    DocIterSpec (NOTDocumentIterator I J Q) (H := not_iter fuel) := {
  it_inv n := pNOTDocIterator_ (not_or n) = None ∧ or_ok (not_or n);
  it_pos n := or_pos (not_or n);
  it_rest n := or_rest (not_or n) }.
Next Obligation. intros. apply or_rest_sorted. Qed.
Next Obligation.
  intros I J Q ? ? ? ? ? fuel [a] [_ Ha]. apply Forall_forall. intros d Hd%elem_of_or_rest.
  by apply or_rest_bounds.
Qed.
Next Obligation.
  intros I J Q ? ? ? ? ? fuel [a] [Hn Ha]. pose proof (or_do_next_ok a Ha) as Hd. simpl in *.
  destruct (or_rest a) as [|d r]; [destruct Hd as (a' & ->); by eexists|].
  destruct Hd as (l & q & -> & Hok & Hr). by eexists.
Qed.
Next Obligation.
  intros I J Q ? ? ? ? ? fuel [a] t [Hn Ha] Ht. pose proof (or_do_skipTo_ok a t Ha Ht) as Hd. simpl in *.
  unfold or_skipTo. rewrite Hn. destruct (from t (or_rest a)) as [|d r]; [destruct Hd as (a' & ->); by eexists|].
  destruct Hd as (l & q & -> & Hok & Hr). by eexists.
Qed.

(** Members added to a new disjunction. *)
Lemma or_add_all {I J Q} `{DocIter I} (l : list I) (a : ORDocumentIterator I J Q) :
  fold_left (λ a i, or_add i a) l a =
  Or (docIteratorList_ a ++ ((λ i, Some (i, false)) <$> l)) (pDocIteratorQueue_ a) (currDoc_ a)
    (pNOTDocIterator_ a) (currDocOfNOTIter_ a) (initNOTIterator_ a).
Proof.
  revert a. induction l as [|i l IH]; intros a; [destruct a; simpl; by rewrite app_nil_r|].
  simpl. rewrite IH. simpl. by rewrite <- app_assoc.
Qed.

Lemma or_new_ok {I J Q} `{DocIterSpec I} `{DocIter J} `{DocQueueOk Q} junk (l : list I) p :
  Forall it_inv l → Forall (λ i, it_pos i = p) l →
  let a := fold_left (λ a i, or_add i a) l (or_new (I := I) (J := J) (Q := Q) junk) in
  or_ok a ∧ pNOTDocIterator_ a = None ∧ (l ≠ [] → or_pos a = p) ∧
  ∀ y, or_docs a y ↔ ∃ i, i ∈ l ∧ y ∈ it_rest i.
Proof.
  intros Hi Hp a. unfold a. rewrite or_add_all. set (b := Or _ _ _ _ _ _).
  assert (l ≠ [] → or_pos b = p) as Hpos.
  { destruct Hp; [done|]. intros _. done. }
  split_and!; [|done|done|].
  - unfold or_ok. change (pDocIteratorQueue_ b) with (@None Q). intros j Hj.
    change (docIteratorList_ b) with ((λ i : I, Some (i, false)) <$> l) in *. rewrite length_fmap in Hj.
    destruct (lookup_lt_is_Some_2 l j Hj) as [i Hl]. exists i, false.
    rewrite Hpos by (by intros ->). pose proof (list_elem_of_lookup_2 _ _ _ Hl) as Hin.
    rewrite Forall_forall in Hi, Hp. split_and!; [|by apply Hi|by apply Hp].
    unfold at_slot. by rewrite list_lookup_fmap, Hl.
  - intros y. change (or_docs b y) with (in_members ((λ i : I, Some (i, false)) <$> l) y). split.
    + intros (j & x & f & Hx & Hy). unfold at_slot in Hx. rewrite list_lookup_fmap in Hx.
      destruct (l !! j) as [i|] eqn:Hl; [|done]. injection Hx as <- <-. exists i.
      split; [by eapply list_elem_of_lookup_2|done].
    + intros (i & [j Hl]%list_elem_of_lookup_1 & Hy). exists j, i, false. split; [|done].
      unfold at_slot. by rewrite list_lookup_fmap, Hl.
Qed.

(** C31: [ORDocumentIterator] without a NOT iterator: after [add] of any
    members that have not been moved, the loop over [next] ends and has seen
    exactly the documents some member has, each once and in increasing order.
    *)
Theorem or_enumerates {I J Q} `{DocIterSpec I} `{DocIter J} `{DocQueueOk Q} junk (l : list I) p :
  Forall it_inv l → Forall (λ i, it_pos i = p) l →
  ∃ L, drain (H := or_iter (J := J) (Q := Q) 0) (S (length L))
         (fold_left (λ a i, or_add i a) l (or_new junk)) = Some L ∧
       StronglySorted Z.lt L ∧ ∀ x, x ∈ L ↔ ∃ i, i ∈ l ∧ x ∈ it_rest i.
Proof.
  intros Hi Hp. destruct (or_new_ok (J := J) (Q := Q) junk l p Hi Hp) as (Hok & Hn & _ & Hd).
  set (a := fold_left _ l _) in *. exists (or_rest a). split_and!.
  - change (or_rest a) with (it_rest (DocIterSpec := or_iter_spec 0) a) at 2.
    apply drain_rest; simpl; [done|lia].
  - apply or_rest_sorted.
  - intros x. by rewrite elem_of_or_rest.
Qed.

(** [skipTo] of a disjunction without a NOT iterator, moved or not: the
    least document of a member on or after the target, or [MAX_DOC_ID]; the
    documents after it stay available. *)
Theorem or_skipTo_least {I J Q} `{DocIterSpec I} `{DocIter J} `{DocQueueOk Q} fuel t
    (a : ORDocumentIterator I J Q) :
  or_ok a → pNOTDocIterator_ a = None → or_pos a < t →
  ∃ d a', or_skipTo fuel t a = Some (d, a') ∧
    if decide (d = MAX_DOC_ID) then ∀ y, t ≤ y → ¬ or_docs a y
    else t ≤ d ∧ or_docs a d ∧ (∀ y, t ≤ y → or_docs a y → d ≤ y) ∧ currDoc_ a' = d ∧ or_ok a' ∧
         ∀ y, or_docs a' y ↔ d < y ∧ or_docs a y.
Proof.
  intros Hok Hn Ht. pose proof (or_do_skipTo_ok a t Hok Ht) as Hs. unfold or_skipTo. rewrite Hn.
  pose proof (or_rest_sorted a) as Hsort.
  destruct (from t (or_rest a)) as [|d r] eqn:E.
  - destruct Hs as (a' & ->). eexists _, _. split; [done|]. rewrite decide_True by done. intros y Hy Hd.
    apply (not_elem_of_nil y). rewrite <- E. apply elem_of_from. split; [done|]. by apply elem_of_or_rest.
  - destruct Hs as (l & q & -> & Hok' & Hr). eexists _, _. split; [done|].
    destruct (from_split t _ _ _ Hsort E) as (Htd & Hin%elem_of_or_rest & Hmin & Hgt).
    pose proof (or_rest_bounds _ _ Hok Hin). rewrite decide_False by lia. split_and!; try done.
    + intros y Hy Hd. apply Hmin; [|done]. by apply elem_of_or_rest.
    + intros y. rewrite <- !elem_of_or_rest, Hr, Hgt. tauto.
Qed.

Lemma or_enumerates_witness :
  ∃ L, drain (H := or_iter (J := ListIter) (Q := ListQueue) 0) (S (length L))
         (fold_left (λ a i, or_add i a) [term [4; 9]; term []; term [1; 4]] (or_new 0)) = Some L ∧
       StronglySorted Z.lt L ∧ 9 ∈ L.
Proof.
  destruct (or_enumerates (J := ListIter) (Q := ListQueue) 0 [term [4; 9]; term []; term [1; 4]] 0)
    as (L & HL & Hs & HLd); [term_facts|term_facts|].
  exists L. split_and!; [exact HL|exact Hs|]. apply HLd. exists (term [4; 9]). split; simpl; set_solver.
Defined.

Definition sample_or : ORDocumentIterator ListIter ListIter ListQueue :=
  fold_left (λ a i, or_add i a) [term [4; 9]; term [5; 7]] (or_new 0).

Lemma or_skipTo_witness : ∃ d a', or_skipTo 0 6 sample_or = Some (d, a') ∧ d = 7.
Proof.
  destruct (or_skipTo_least 0 6 sample_or) as (d & a' & E & _).
  - apply (or_new_ok 0 [term [4; 9]; term [5; 7]] 0); term_facts.
  - done.
  - vm_compute. done.
  - exists d, a'. split; [exact E|]. vm_compute in E. by injection E as <- _.
Defined.
