(* ===== verification/BoolQuery.v ===== *)
(** * Boolean queries: the iterators together

    A query of conjunctions and disjunctions is a tree of
    [ANDDocumentIterator]s and [ORDocumentIterator]s; every class implements
    the interface [DocIterSpec] its parents rely on, so their theorems compose.
    The concrete runs at the end show where NOT iterators and
    [AllDocumentIterator] leave that interface. *)
From S2P Require Import Prelude CNum DocIter AndIter AllIter OrIter.

(** ** A conjunction of disjunctions, minus a disjunction *)

Section cnf.
Context {I Q : Type} `{DocIterSpec I} `{DocQueueOk Q}.
Context (fuel : nat).

(** One [ORDocumentIterator] per group; no [J] is ever stored in them. *)
Abbreviation Group := (ORDocumentIterator I I Q).
Abbreviation Excluded := (NOTDocumentIterator I I Q).

(** The constructors leave [currDoc_] uninitialised: [junk]. *)
Definition group (junk : Z) (g : list I) : Group := fold_left (λ a i, or_add i a) g (or_new junk).

(** [ANDDocumentIterator::add] of a NOT member: the first one makes the
    [NOTDocumentIterator]. *)
Definition and_add_not {G} (junk : Z) (n : I) (a : ANDDocumentIterator G Excluded) :
    ANDDocumentIterator G Excluded :=
  And (docIterList_ a) (AndIter.currDoc_ a)
    (Some (not_add n (default (not_new junk) (AndIter.pNOTDocIterator_ a))))
    (AndIter.currDocOfNOTIter_ a) (AndIter.initNOTIterator_ a).

Definition cnf_query (junk : Z) (gs : list (list I)) (e : list I) : ANDDocumentIterator Group Excluded :=
  fold_left (λ a i, and_add_not junk i a) e (fold_left (λ a g, and_add (group junk g) a) gs (and_new junk)).

Definition cnf_run (junk : Z) (gs : list (list I)) (e : list I) : option (list Z) :=
  drain (H := and_iter (H := or_iter fuel) (H0 := not_iter fuel) fuel) fuel (cnf_query junk gs e).

(** What [next] of the tree can still look at. *)
Definition cnf_work (junk : Z) (gs : list (list I)) : nat :=
  sum_list_with (λ g, length (or_rest (group junk g))) gs.

Lemma and_add_groups junk gs (a : ANDDocumentIterator Group Excluded) :
  fold_left (λ a g, and_add (group junk g) a) gs a =
  And (docIterList_ a ++ (group junk <$> gs)) (AndIter.currDoc_ a) (AndIter.pNOTDocIterator_ a)
    (AndIter.currDocOfNOTIter_ a) (AndIter.initNOTIterator_ a).
Proof.
  revert a. induction gs as [|g gs IH]; intros a; simpl.
  - destruct a. simpl. by rewrite app_nil_r.
  - rewrite IH. simpl. by rewrite <- app_assoc.
Qed.

Lemma and_add_excluded junk e (a : ANDDocumentIterator Group Excluded) (g : Group) :
  AndIter.pNOTDocIterator_ a = Some (Not g) →
  fold_left (λ a i, and_add_not junk i a) e a =
  And (docIterList_ a) (AndIter.currDoc_ a) (Some (Not (fold_left (λ a i, or_add i a) e g)))
    (AndIter.currDocOfNOTIter_ a) (AndIter.initNOTIterator_ a).
Proof.
  revert a g. induction e as [|i e IH]; intros a g Hg; simpl.
  - destruct a. simpl in *. by rewrite Hg.
  - rewrite (IH _ (or_add i g)) by (simpl; by rewrite Hg). done.
Qed.

Lemma cnf_query_eq junk gs e : e ≠ [] →
  cnf_query junk gs e = And (group junk <$> gs) junk (Some (Not (group junk e))) MAX_DOC_ID false.
Proof.
  intros He. destruct e as [|i e]; [done|]. unfold cnf_query. rewrite and_add_groups. simpl.
  by rewrite (and_add_excluded junk e _ (or_add i (or_new junk))).
Qed.
End cnf.

Lemma sum_list_with_fmap {A B} (f : B → nat) (g : A → B) l :
  sum_list_with f (g <$> l) = sum_list_with (f ∘ g) l.
Proof. induction l as [|a l IH]; [done|]. simpl. f_equal. exact IH. Qed.

(** C16: A query that requires a document from every group of terms and none
    of the excluded terms, built by [add] as a tree of AND, OR and NOT
    iterators: the loop over [next] of the tree ends and has seen exactly
    those documents, each once and in increasing order. [currDoc_], which the
    constructors leave uninitialised, is any number below the excluded
    documents. *)
Theorem boolean_query {I Q} `{DocIterSpec I} `{DocQueueOk Q} (gs : list (list I)) (e : list I) junk fuel :
  gs ≠ [] → Forall (λ g, g ≠ []) gs → e ≠ [] →
  Forall (Forall (λ i, it_inv i ∧ it_pos i = 0)) (e :: gs) →
  junk < MAX_DOC_ID → (∀ i x, i ∈ e → x ∈ it_rest i → junk < x) →
  (cnf_work (Q := Q) junk gs < fuel)%nat →
  ∃ L, cnf_run (Q := Q) fuel junk gs e = Some L ∧ StronglySorted Z.lt L ∧
       ∀ x, x ∈ L ↔ (∀ g, g ∈ gs → ∃ i, i ∈ g ∧ x ∈ it_rest i) ∧ ¬ ∃ i, i ∈ e ∧ x ∈ it_rest i.
Proof.
  intros Hne Hgs He Hall Hjunk Hje Hf.
  assert (∀ g, g ∈ e :: gs → g ≠ [] → or_ok (group (Q := Q) junk g) ∧ pNOTDocIterator_ (group (Q := Q) junk g) = None ∧
    or_pos (group (Q := Q) junk g) = 0 ∧ ∀ y, y ∈ or_rest (group (Q := Q) junk g) ↔ ∃ i, i ∈ g ∧ y ∈ it_rest i) as Hgroup.
  { intros g Hg Hgne. rewrite Forall_forall in Hall. specialize (Hall g Hg). apply Forall_and in Hall as [Hi Hp].
    destruct (or_new_ok (J := I) (Q := Q) junk g 0 Hi Hp) as (Hok & Hn & Hpos & Hd).
    split_and!; [done|done|by apply Hpos|]. intros y. by rewrite elem_of_or_rest. }
  rewrite Forall_forall in Hgs.
  destruct (Hgroup e ltac:(by left) He) as (Hoke & Hne' & Hpe & Hde).
  destruct (and_not_enumerates_gen (I := ORDocumentIterator I I Q) (J := NOTDocumentIterator I I Q)
    (H := or_iter fuel) (H1 := not_iter fuel) (H0 := or_iter_spec fuel) (H2 := not_iter_spec fuel)
    (group junk <$> gs) (Not (group junk e)) 0 junk MAX_DOC_ID fuel) as (L & HL & Hs & HLd).
  - by destruct gs.
  - apply Forall_fmap, Forall_forall. intros g Hg. destruct (Hgroup g ltac:(by right) (Hgs g Hg)) as (? & ? & _). done.
  - apply Forall_fmap, Forall_forall. intros g Hg. destruct (Hgroup g ltac:(by right) (Hgs g Hg)) as (_ & _ & ? & _). done.
  - unfold work. rewrite sum_list_with_fmap. exact Hf.
  - done.
  - done.
  - apply Forall_forall. intros x Hx. destruct (proj1 (Hde x) Hx) as (i & Hi & Hx'). by apply (Hje i).
  - exists L. unfold cnf_run. rewrite (cnf_query_eq junk gs e He). split_and!; [exact HL|done|]. intros x. rewrite HLd, Forall_fmap, Forall_forall.
    rewrite <- Hde. apply and_iff_compat_r. split; intros Hx g Hg.
    + destruct (Hgroup g ltac:(by right) (Hgs g Hg)) as (_ & _ & _ & Hd). apply Hd. by apply Hx.
    + destruct (Hgroup g ltac:(by right) (Hgs g Hg)) as (_ & _ & _ & Hd). apply Hd. by apply Hx.
Qed.


Lemma boolean_query_witness :
  ∃ L, cnf_run (Q := ListQueue) 20 0 [[term [1; 4]; term [7]]; [term [1; 2; 4; 7; 8]]] [term [4]] = Some L ∧ L = [1; 7].
Proof.
  destruct (boolean_query (Q := ListQueue) [[term [1; 4]; term [7]]; [term [1; 2; 4; 7; 8]]] [term [4]] 0 20)
    as (L & HL & _); [done|term_facts|done|term_facts|done| |vm_compute; lia|].
  { intros i x ->%list_elem_of_singleton Hx. vm_compute in Hx. apply list_elem_of_singleton in Hx as ->. done. }
  exists L. split; [exact HL|]. vm_compute in HL. by injection HL as <-.
Defined.

(** ** Where NOT iterators go wrong *)

(** [A OR B NOT C]. *)
Definition or_not (a c : list (list Z)) :
    ORDocumentIterator ListIter (NOTDocumentIterator ListIter ListIter ListQueue) ListQueue :=
  fold_left (λ o d, or_add_not 0 (term d) o) c (fold_left (λ o d, or_add (term d) o) a (or_new 0)).

Definition and_not (a c : list (list Z)) :
    ANDDocumentIterator ListIter (NOTDocumentIterator ListIter ListIter ListQueue) :=
  fold_left (λ o d, and_add_not 0 (term d) o) c (fold_left (λ o d, and_add (term d) o) a (and_new 0)).

#[local] Instance run_not : DocIter (NOTDocumentIterator ListIter ListIter ListQueue) := not_iter 20.

(** The NOT of a disjunction loses step after the first excluded document:
    [move_together_with_not] moves the NOT iterator once per document and
    never skips it, so [{3, 7} NOT {3, 5, 7}] answers the excluded [7]. *)
Theorem or_not_returns_excluded :
  drain (H := or_iter 20) 20 (or_not [[3; 7]] [[3; 5; 7]]) = Some [7].
Proof. vm_compute. reflexivity. Qed.

(** [skipTo] of a conjunction with a NOT iterator: it looks for an excluded
    document only at the target, so it answers an excluded one ([8]), and
    gives up with [MAX_DOC_ID] where documents remain ([9] after the excluded
    target [7]). *)
Theorem and_skipTo_not_wrong :
  fst <$> and_skipTo 20 5 (and_not [[8]] [[6; 8]]) = Some 8 ∧
  fst <$> and_skipTo 20 7 (and_not [[7; 9]] [[7]]) = Some MAX_DOC_ID.
Proof. split; vm_compute; reflexivity. Qed.

(** [AllDocumentIterator::skipTo] passes over its target, so a conjunction
    of all documents with a term loses the documents of the term. *)
Theorem and_all_loses_documents :
  drain (H := and_iter (I := AllDocumentIterator ListIter + ListIter) (J := ListIter) 20) 20
    (And [inl (all_new 0 9); inr (term [3; 5])] 0 None MAX_DOC_ID false) = Some [] ∧
  drain 20 (term [3; 5]) = Some [3; 5] ∧
  drain 20 (all_new (J := ListIter) 0 9) = Some (seqZ 1 9).
Proof. split_and!; vm_compute; reflexivity. Qed.
