(* ===== verification/Scenarios.v ===== *)
(** * A concrete day of ads

    Three ads of two campaigns, with a tokenizer that knows single letters.
    The theorems about [AdSponsoredMgr] are applied to it: their hypotheses
    hold together, and the runs evaluate. *)
From S2P Require Import Prelude CNum Env ManualBid AuctionLog AuctionStats.
From S2P Require Import RealtimeBid Knapsack UniformBid GeneticBid Phrases.
From S2P Require Import PriorityQueue QueueSpec HitQueue.
From S2P Require Import Sponsored SponsoredMining SponsoredSearch.

#[local] Existing Instance letter_pca.

(** ** The ads *)

#[local] Instance shop_docs : AdDocs := {|
  getAdIdFromAdStrId s :=
    if String.eqb s "ad0" then Some 0%nat else if String.eqb s "ad1" then Some 1%nat
    else if String.eqb s "ad2" then Some 2%nat else if String.eqb s "ad3" then Some 3%nat else None;
  getAdStrIdFromAdId i := ["ad0"; "ad1"; "ad2"; "ad3"]%string !! i;
  getPropertyValue i p :=
    if negb (i =? 3)%nat then None
    else if String.eqb p "Bid" then Some "ab,cd"%string else if String.eqb p "Campaign" then Some "mall"%string
    else if String.eqb p "DOCID" then Some "ad3"%string
    else if String.eqb p "KeywordsPrice" then Some "1.5,x"%string else None |}.

Definition shop_texts : list string := ["abc"; "de"; "b"; "ab"]%string.
Definition shop_gen : list (list Z) * KeywordTable := generate_cleared shop_texts KeywordTable_init.

Definition shop_manual : AdManualBidInfoMgr :=
  BidInfo {[ "shop"%string := 1000 ]}
    {[ "shop"%string := {[ "0-a b c "%string := 120; "1-b "%string := 80 ]} ]}.

Definition shop : AdSponsoredMgr :=
  Mgr [take 2 shop_gen.1; take 1 (drop 2 shop_gen.1); drop 3 shop_gen.1]
    [["abc"; "de"]; ["b"]; ["ab"]]%string
    [false; false; false] [d_lit 2 2; d_lit 1 2; d_lit 1 2] shop_gen.2
    [30; 0] ["shop"; "mall"]%string (<["shop"%string := 0%nat]> {[ "mall"%string := 1%nat ]})
    [0; 0; 1]%nat [["a b c "; "b "; "d e "]; ["a b "]]%string
    AdAuctionLogMgr_init UniformBid [] [] shop_manual.

Lemma shop_gen_ok :
  table_ok shop_gen.2 ∧ Forall (Forall (λ id, ∃ k, knows shop_gen.2 id k)) shop_gen.1.
Proof.
  pose proof (generate_cleared_ok shop_texts KeywordTable_init table_init_ok) as H.
  unfold shop_gen. destruct (generate_cleared shop_texts KeywordTable_init) as [phrases t].
  destruct H as (Hok & _ & Hst); [vm_compute; discriminate|]. split; [done|]. by eapply stand_for_ids.
Qed.

Lemma shop_ok : mgr_ok shop.
Proof.
  destruct shop_gen_ok as [Hok Hids]. split.
  - exact Hok.
  - vm_compute. repeat constructor.
  - cbn [shop ad_bidphrase_list_ keywords_]. do 2 (constructor; [by do 2 first [apply Forall_take | apply Forall_drop | done]|]).
    constructor; [by apply Forall_drop|constructor].
  - vm_compute. lia.
  - vm_compute. repeat constructor.
  - intros name cid. cbn [shop ad_campaign_name_id_list_ ad_campaign_name_list_].
    rewrite lookup_insert_Some, lookup_singleton_Some. split.
    + intros [[<- <-]|(_ & <- & <-)]; done.
    + destruct cid as [|[|cid]]; intros [= <-]; [by left|right; split; [done|done]].
  - cbn [shop ad_campaign_bid_phrase_list_]. repeat constructor.
Qed.

(** ** Operations of the manager *)

Lemma delAdBidPhrase_witness :
  ∃ m', delAdBidPhrase "ad0" ["abc"%string] shop = Some (true, m') ∧ mgr_ok m' ∧
        getManualBidPrice (manual_bidinfo_mgr_ shop) "shop" 0 "a b c " = 120 ∧
        getManualBidPrice (manual_bidinfo_mgr_ m') "shop" 0 "a b c " = 0.
Proof.
  destruct (delAdBidPhrase_spec "ad0" ["abc"%string] shop 0 ["abc"; "de"]%string shop_ok)
    as (camp & m' & ph & texts & Hc & E & Hok & _ & _ & _ & _ & _ & Hp & _);
    [done|done|done|vm_compute; discriminate|].
  exists m'. split_and!; [exact E|exact Hok|vm_compute; reflexivity|].
  injection Hc as <-. apply (Hp "abc"%string); [set_solver|done].
Defined.

Lemma updateAdBidPhrase_witness :
  ∃ m', updateAdBidPhrase "ad1" ["cd"%string] [70] shop = Some (true, m') ∧ mgr_ok m' ∧
        ad_orig_bidstr_list_ m' = [["abc"; "de"]; ["b"; "cd"]; ["ab"]]%string.
Proof.
  destruct (updateAdBidPhrase_spec "ad1" ["cd"%string] [70] shop 1 ["b"%string] shop_ok)
    as (camp & m' & ph & texts & Hc & E & Hok & _);
    [done|done|simpl; lia|vm_compute; discriminate|].
  exists m'. split_and!; [exact E|exact Hok|]. vm_compute in E. by injection E as <-.
Defined.

Lemma changeDailyBudget_witness :
  getBudgetLeft (changeDailyBudget "shop" 500 shop) 1 = Some 470 ∧
  getBudgetLeft (changeDailyBudget "shop" 500 shop) 2 = getBudgetLeft shop 2.
Proof.
  split.
  - rewrite (changeDailyBudget_left "shop" 500 shop 1 0 30); [vm_compute; reflexivity|done|done].
  - rewrite (changeDailyBudget_left "shop" 500 shop 2 1 0); [vm_compute; reflexivity|done|done].
Defined.

Lemma updateAdOnlineStatus_witness :
  ∃ m', updateAdOnlineStatus ["ad2"; "ad0"; "ad2"; "ad9"]%string [true; false; false; false] shop = Some (true, m') ∧
        ad_status_bitmap_ m' = [true; false; true].
Proof.
  destruct (updateAdOnlineStatus_spec ["ad2"; "ad0"; "ad2"; "ad9"]%string [true; false; false; false] shop)
    as (m' & E & _ & _); [done|].
  exists m'. split; [exact E|]. vm_compute in E. by injection E as <-.
Defined.

Lemma updateAuctionLogData_charges_witness :
  getBudgetLeft (updateAuctionLogData sample_now "ad1" "b" 60 0 shop) 0 = Some 910 ∧
  getBudgetLeft (updateAuctionLogData sample_now "ad1" "b" 60 0 shop) 2 = getBudgetLeft shop 2.
Proof.
  destruct (updateAuctionLogData_charges sample_now "ad1" "b" 60 0 shop) as [_ H].
  split; rewrite (H 0%nat 30 eq_refl eq_refl); vm_compute; reflexivity.
Defined.

(** ** An auction *)

Definition shop_rand (n : nat) : Z := 7.
Definition shop_eps : double := d_lit 1 6.

(** The search engine finds the three ads. *)
Definition shop_search (modified_query : string) : AdSearchResult := AdResult 3 [2; 0; 1]%nat [] [] [].

(** Ads 2 and 1 tie: the smaller id is the lesser. *)
Definition shop_scores : list double := [d_mul (d_of_Z 40) (d_lit 2 2); d_mul (d_of_Z 120) (d_lit 6 2)].

#[local] Instance shop_order : StrictWeakOn (score_in shop_scores) (lessThan shop_eps).
Proof. apply lessThan_strict_weak. vm_compute. reflexivity. Qed.

Definition no_doc : ScoreSponsoredAdDoc := ScoreDoc 0 d_zero d_zero EmptyString EmptyString.

#[local] Instance shop_queue : PQOps ScoreSponsoredAdDoc (pqueue ScoreSponsoredAdDoc) :=
  heap_ops no_doc no_doc (lessThan shop_eps).

Lemma shop_auction_ok s :
  make_kid_set [0; 1; 2] = Some s →
  auction_ok shop_rand d_add sample_now shop (score_in shop_scores) s [2; 0; 1]%nat.
Proof.
  intros Hs. vm_compute in Hs. injection Hs as <-.
  assert (∀ dj, dj ∈ competitors shop (KidSet 0 2 [true; true; true]) [2; 0; 1]%nat →
    dj = (2, 0)%nat ∨ dj = (0, 0)%nat ∨ dj = (1, 0)%nat) as Hc.
  { intros dj Hdj.
    replace (competitors _ _ _) with [(2, 0); (0, 0); (1, 0)]%nat in Hdj by (vm_compute; reflexivity).
    rewrite !elem_of_cons in Hdj. destruct Hdj as [->|[->|[->|Hn%not_elem_of_nil]]]; [auto..|done]. }
  split.
  - intros d Hd. rewrite !elem_of_cons in Hd. simpl. destruct Hd as [->|[->|[->|Hn%not_elem_of_nil]]]; [lia..|done].
  - intros d Hd. rewrite !elem_of_cons in Hd.
    destruct Hd as [->|[->|[->|Hn%not_elem_of_nil]]]; [..|done]; vm_compute; eauto.
  - intros dj n Hdj. destruct (Hc dj Hdj) as [->|[->| ->]]; vm_compute; eauto.
  - intros dj x Hdj (n & n' & E) _. unfold score_in, score_among.
    destruct (Hc dj Hdj) as [->|[->| ->]]; vm_compute in E; injection E as <- _;
      apply elem_of_cons;
      first [left; vm_compute; reflexivity
            | right; apply elem_of_cons; left; vm_compute; reflexivity].
Qed.

Definition shop_run := sponsoredAdSearch shop_rand d_add sample_now (Some shop_search) true "abc"
  (AdResult 0 [] [] [] []) shop 0%nat.

Lemma shop_run_docs : (λ r, topKDocs_ r.1.1.2) <$> shop_run = Some [0; 2; 1]%nat.
Proof. vm_compute. reflexivity. Qed.

Lemma sponsoredAdSearch_witness :
  ∃ res' m' n', shop_run = Some (true, res', m', n') ∧
    topKDocs_ res' = [0; 2; 1]%nat ∧ length (topKAdCost_ res') = totalCount_ res'.
Proof.
  destruct (sponsoredAdSearch_auction shop_rand d_add shop_eps sample_now shop
    (score_in shop_scores) (BoundedPQ0 := heap_bounded_pq no_doc no_doc (lessThan shop_eps) (score_in shop_scores))
    "abc" shop_search (AdResult 0 [] [] [] []) 0 [0; 1; 2] "a b c ")
    as (s & items & ranked & dropped & res' & n' & _ & _ & _ & _ & _ & E & Ht & Hd & _ & _ & Hl & _).
  - vm_compute. reflexivity.
  - discriminate.
  - exact shop_auction_ok.
  - match type of E with _ = ?r => change (shop_run = r) in E end.
    eexists res', _, n'. split; [exact E|]. split; [|by rewrite Hl, Ht].
    pose proof shop_run_docs as Hrun. rewrite E in Hrun. by injection Hrun.
Defined.

Lemma competitors_witness :
  (2, 0)%nat ∈ competitors shop (KidSet 0 2 [true; true; true]) [2; 5]%nat.
Proof.
  apply (competitors_spec shop [0; 1; 2] (KidSet 0 2 [true; true; true]) [2; 5]%nat 2 0).
  - discriminate.
  - vm_compute. reflexivity.
  - split_and!; [set_solver|done|exists DEFAULT_AD_BUDGET; split; [vm_compute; reflexivity|done]|].
    exists [[0; 1]]. split; [vm_compute; reflexivity|]. exists [0; 1]. split_and!; [done|repeat constructor|simpl; lia|].
    intros [|j'] p' Hp' _; [injection Hp' as <-; split; [lia|lia]|done].
Defined.

(** ** Mining a fourth ad *)

#[local] Instance shop_text : AdText := {|
  split_any seps s := split_chars seps EmptyString s;
  cast_double s := if String.eqb s "1.5" then Some (d_lit 15 1) else None |}.

Definition shop_props : AdProps := Props "Title" "Bid" "Campaign".

Lemma miningAdCreatives_witness :
  ∃ st, ["shop"; "mall"]%string `prefix_of` mn_names st ∧ mined shop_props 3 st ∧
        (∀ t, mgr_ok (mining_end 3 st t shop)) ∧
        mn_orig st !! 2%nat = Some ["ab"%string].
Proof.
  destruct (miningAdCreatives_spec shop_rand shop_props sample_now 3 3 shop shop_ok)
    as (st & _ & Hpre & Hmined & Hok & Hkeep).
  - lia.
  - intros i Hi. assert (i = 3%nat) as -> by lia. unfold prices_ok. intros p Hp.
    replace (price_texts _ _) with ["1.5"; "x"]%string in Hp by (vm_compute; reflexivity).
    rewrite !elem_of_cons in Hp. destruct Hp as [->|[->|Hp%not_elem_of_nil]]; [vm_compute; discriminate..|done].
  - vm_compute. discriminate.
  - exists st. split_and!.
    + exact Hpre.
    + apply Hmined. lia.
    + exact Hok.
    + apply (Hkeep 2%nat (drop 3 shop_gen.1) ["ab"%string]); [lia|reflexivity|reflexivity].
Defined.

Lemma compute_bids_uniform_witness :
  ∃ t, compute_bids shop_rand sample_now false 3 ["shop"; "mall"]%string
         (ad_campaign_bid_phrase_list_ shop) shop 0%nat = Some (t, 0%nat) ∧
       new_used t = [30; 0] ∧ length (new_uniform_bid_price_list t) = 2%nat.
Proof.
  destruct (compute_bids_uniform shop_rand sample_now false 3 ["shop"; "mall"]%string
    (ad_campaign_bid_phrase_list_ shop) shop 0 [DEFAULT_AD_CTR; DEFAULT_AD_CTR; DEFAULT_AD_CTR]) as (t & E & Hu & _ & _ & Hl & _).
  - reflexivity.
  - reflexivity.
  - vm_compute. reflexivity.
  - intros [|[|i]] name set [= <-] [= <-]; unfold uniform_entry.
    + exists []. vm_compute. reflexivity.
    + eexists. replace (hasManualBidPrice _ _) with false by (vm_compute; reflexivity).
      exists 218. split; vm_compute; reflexivity.
  - exists t. split; [exact E|]. split; [exact Hu|exact Hl].
Defined.
