(* ===== verification/SearchResult.v ===== *)
(** * Results of a search ([common/ResultType.h, common/DistributeResultType.h])

    What a worker sends to the node that merges, and what that node returns:
    the documents found with their scores, the texts of the page that is shown,
    the counts by property and attribute, and, for a distributed search, the
    values the documents were sorted by.

    The fields of [KeywordSearchResult] are grouped in records; their names are
    those of the source.  A [float] is a number of 24 bits; the frequencies of
    terms and the texts are types outside [src/]. *)
From S2P Require Import Prelude CNum GroupRep.

(** ** [float]s *)

Definition float := spec_float.

Definition f_sub (x y : float) : float := SFsub 24 128 x y.
Definition f_abs (x : float) : float := SFabs x.
Definition f_lt (x y : float) : bool := SFltb x y.
Definition f_le (x y : float) : bool := SFleb x y.
Definition f_zero : float := S754_zero false.

(** [std::numeric_limits<float>::max()], [::min()], which is the least positive
    normal number, and [::epsilon()]. *)
Definition f_max : float := S754_finite false (2 ^ 24 - 1) 104.
Definition f_min : float := S754_finite false (2 ^ 23) (-149).
Definition f_epsilon : float := S754_finite false (2 ^ 23) (-46).

(** [(float)n] *)
Definition f_of_Z (z : Z) : float := binary_normalize 24 128 z 0 false.

(** ** Records *)

Record PropertyRange := Range { highValue_ : float; lowValue_ : float }.

Record GroupPathScoreInfo := PathScore { path_score : double; path_wdocid : Z }.

Definition GroupPathScoreVec := list (list string * GroupPathScoreInfo).
Definition GroupLabelScoreMap := gmap string GroupPathScoreVec.

(** [DocumentFrequencyInProperties] and the like. *)
Definition FreqMap (F : Type) := gmap string (gmap Z F).

Record SortData := Sort {
  sortPropertyList_ : list (string * bool);
  sortPropertyInt32DataList_ : list (string * list Z);
  sortPropertyInt64DataList_ : list (string * list Z);
  sortPropertyFloatDataList_ : list (string * list float);
  sortPropertyDoubleDataList_ : list (string * list double);
  sortPropertyStrDataList_ : list (string * list string) }.

Definition OPTION_NONE : Z := 0.
Definition OPTION_GATHER_INFO : Z := 1.
Definition OPTION_CARRIED_INFO : Z := 2.
Definition NODE_MASTER : Z := 0.
Definition NODE_WORKER : Z := 1.

Record DistKeywordSearchInfo (F : Type) := DistInfo {
  isDistributed_ : bool;
  effective_ : bool;
  include_summary_data_ : bool;
  option_ : Z;
  nodeType_ : Z;
  dfmap_ : FreqMap F;
  ctfmap_ : FreqMap F;
  maxtfmap_ : FreqMap F;
  sortData : SortData;
  majorTokenNum_ : Z }.
Arguments DistInfo {F}.
Arguments isDistributed_ {F}.
Arguments effective_ {F}.
Arguments include_summary_data_ {F}.
Arguments option_ {F}.
Arguments nodeType_ {F}.
Arguments dfmap_ {F}.
Arguments ctfmap_ {F}.
Arguments maxtfmap_ {F}.
Arguments sortData {F}.
Arguments majorTokenNum_ {F}.

Definition sort_new : SortData := Sort [] [] [] [] [] [].

Definition dist_new {F} : DistKeywordSearchInfo F := DistInfo false false false OPTION_NONE NODE_MASTER ∅ ∅ ∅ sort_new 0.

Definition isOptionGatherInfo {F} (d : DistKeywordSearchInfo F) : bool := effective_ d && (option_ d =? OPTION_GATHER_INFO).
Definition isOptionCarriedInfo {F} (d : DistKeywordSearchInfo F) : bool := effective_ d && (option_ d =? OPTION_CARRIED_INFO).

(** What the request was. *)
Record QueryPart (U : Type) := Query {
  rawQueryString_ : string;
  pruneQueryString_ : string;
  encodingType_ : Z;
  collectionName_ : string;
  analyzedQuery_ : U;
  queryTermIdList_ : list Z;
  propertyQueryTermList_ : list (list U) }.
Arguments Query {U}.
Arguments rawQueryString_ {U}.
Arguments pruneQueryString_ {U}.
Arguments encodingType_ {U}.
Arguments collectionName_ {U}.
Arguments analyzedQuery_ {U}.
Arguments queryTermIdList_ {U}.
Arguments propertyQueryTermList_ {U}.

(** The documents found. *)
Record TopKPart := TopK {
  topKDocs_ : list Z;
  topKWorkerIds_ : list Z;
  topKtids_ : list Z;
  topKRankScoreList_ : list float;
  topKCustomRankScoreList_ : list float;
  topKGeoDistanceList_ : list float }.

(** The page that is shown. *)
Record PagePart := Page {
  start_ : nat;
  count_ : nat;
  docsInPage_ : list Z;
  pageOffsetList_ : list nat }.

(** Its texts: a list for each property, with a text for each document. *)
Record TextPart (S : Type) := Texts {
  fullTextOfDocumentInPage_ : list (list S);
  snippetTextOfDocumentInPage_ : list (list S);
  rawTextOfSummaryInPage_ : list (list S) }.
Arguments Texts {S}.
Arguments fullTextOfDocumentInPage_ {S}.
Arguments snippetTextOfDocumentInPage_ {S}.
Arguments rawTextOfSummaryInPage_ {S}.

(** Counts. *)
Record CountPart (U : Type) := Counts {
  totalCount_ : Z;
  counterResults_ : gmap string Z;
  propertyRange_ : PropertyRange;
  groupRep_ : GroupRep U;
  attrRep_ : list (RepItem U);
  autoSelectGroupLabels_ : GroupLabelScoreMap }.
Arguments Counts {U}.
Arguments totalCount_ {U}.
Arguments counterResults_ {U}.
Arguments propertyRange_ {U}.
Arguments groupRep_ {U}.
Arguments attrRep_ {U}.
Arguments autoSelectGroupLabels_ {U}.

(** What the mining adds. *)
Record MiningPart (U S : Type) := Mining {
  adCachedTopKDocs_ : list Z;
  numberOfDuplicatedDocs_ : list Z;
  numberOfSimilarDocs_ : list Z;
  docCategories_ : list (list S);
  relatedQueryList_ : list U;
  rqScore_ : list float;
  timeStamp_ : Z }.
Arguments Mining {U S}.
Arguments adCachedTopKDocs_ {U S}.
Arguments numberOfDuplicatedDocs_ {U S}.
Arguments numberOfSimilarDocs_ {U S}.
Arguments docCategories_ {U S}.
Arguments relatedQueryList_ {U S}.
Arguments rqScore_ {U S}.
Arguments timeStamp_ {U S}.

Record KeywordSearchResult (U S F : Type) := Result {
  errno_ : Z;
  error_ : string;
  query : QueryPart U;
  distSearchInfo_ : DistKeywordSearchInfo F;
  topK : TopKPart;
  page : PagePart;
  texts : TextPart S;
  counts : CountPart U;
  mining : MiningPart U S;
  TOP_K_NUM : Z }.
Arguments Result {U S F}.
Arguments errno_ {U S F}.
Arguments error_ {U S F}.
Arguments query {U S F}.
Arguments distSearchInfo_ {U S F}.
Arguments topK {U S F}.
Arguments page {U S F}.
Arguments texts {U S F}.
Arguments counts {U S F}.
Arguments mining {U S F}.
Arguments TOP_K_NUM {U S F}.

(** [RawTextResultFromSIA]: the texts of documents asked for by number. *)
Record RawTextResult (S : Type) := RawText {
  raw_errno : Z;
  raw_error : string;
  raw_texts : TextPart S;
  idList_ : list Z;
  workeridList_ : list Z }.
Arguments RawText {S}.
Arguments raw_errno {S}.
Arguments raw_error {S}.
Arguments raw_texts {S}.
Arguments idList_ {S}.
Arguments workeridList_ {S}.

(** ** The members of [KeywordSearchResult] *)

Section results.
Context {U S F : Type} (utf8 : Z) (no_text : U).
Notation KeywordSearchResult := (KeywordSearchResult U S F).

(** An encoding is a number outside [src/]. *)
Definition result_new : KeywordSearchResult :=
  Result 0 "" (Query "" "" utf8 "" no_text [] []) dist_new (TopK [] [] [] [] [] []) (Page 0 0 [] []) (Texts [] [] [])
    (Counts 0 ∅ (Range f_zero f_zero) rep_new [] ∅) (Mining [] [] [] [] [] [] 0) 0.

Definition set_error (e : string) (r : KeywordSearchResult) : KeywordSearchResult :=
  Result (errno_ r) e (query r) (distSearchInfo_ r) (topK r) (page r) (texts r) (counts r) (mining r) (TOP_K_NUM r).
Definition set_dist (d : DistKeywordSearchInfo F) (r : KeywordSearchResult) : KeywordSearchResult :=
  Result (errno_ r) (error_ r) (query r) d (topK r) (page r) (texts r) (counts r) (mining r) (TOP_K_NUM r).
Definition set_topK (t : TopKPart) (r : KeywordSearchResult) : KeywordSearchResult :=
  Result (errno_ r) (error_ r) (query r) (distSearchInfo_ r) t (page r) (texts r) (counts r) (mining r) (TOP_K_NUM r).
Definition set_page (p : PagePart) (r : KeywordSearchResult) : KeywordSearchResult :=
  Result (errno_ r) (error_ r) (query r) (distSearchInfo_ r) (topK r) p (texts r) (counts r) (mining r) (TOP_K_NUM r).
Definition set_texts (t : TextPart S) (r : KeywordSearchResult) : KeywordSearchResult :=
  Result (errno_ r) (error_ r) (query r) (distSearchInfo_ r) (topK r) (page r) t (counts r) (mining r) (TOP_K_NUM r).
Definition set_counts (c : CountPart U) (r : KeywordSearchResult) : KeywordSearchResult :=
  Result (errno_ r) (error_ r) (query r) (distSearchInfo_ r) (topK r) (page r) (texts r) c (mining r) (TOP_K_NUM r).

(** [net::aggregator::Util::GetWDocId], outside [src/]. *)
Context (GetWDocId : Z → Z → Z).

(** [None]: fewer worker ids than documents. *)
Definition getTopKWDocs (r : KeywordSearchResult) : option (list Z) :=
  match topKWorkerIds_ (topK r) with
  | [] => Some (topKDocs_ (topK r))
  | ids => mapM (λ i, w ← ids !! i; d ← topKDocs_ (topK r) !! i; Some (GetWDocId w d)) (seq 0 (length (topKDocs_ (topK r))))
  end.

Definition setStartCount (start count : nat) (r : KeywordSearchResult) : KeywordSearchResult :=
  set_page (Page start count (docsInPage_ (page r)) (pageOffsetList_ (page r))) r.

Definition adjustStartCount (topKStart : nat) (r : KeywordSearchResult) : KeywordSearchResult :=
  let topKEnd := (topKStart + length (topKDocs_ (topK r)))%nat in
  let start := if (topKEnd <? start_ (page r))%nat then topKEnd else start_ (page r) in
  let count := if (topKEnd <? start + count_ (page r))%nat then (topKEnd - start)%nat else count_ (page r) in
  setStartCount start count r.

(** [getWIdList] *)
Definition getWIdList (r : RawTextResult S) : option (list Z) :=
  match workeridList_ r with
  | [] => Some (idList_ r)
  | ids => mapM (λ i, w ← ids !! i; d ← idList_ r !! i; Some (GetWDocId w d)) (seq 0 (length (idList_ r)))
  end.
End results.

(** [swap] of the search information: [isDistributed_] is only copied. *)
Definition swap_dist {F} (d other : DistKeywordSearchInfo F) : DistKeywordSearchInfo F * DistKeywordSearchInfo F :=
  (other, DistInfo (isDistributed_ other) (effective_ d) (include_summary_data_ d) (option_ d) (nodeType_ d) (dfmap_ d) (ctfmap_ d)
    (maxtfmap_ d) (sortData d) (majorTokenNum_ d)).

(** [swap] of results: the error is not swapped, [TOP_K_NUM] is only copied. *)
Definition swap_result {U S F} (r other : KeywordSearchResult U S F) : KeywordSearchResult U S F * KeywordSearchResult U S F :=
  let '(d, d') := swap_dist (distSearchInfo_ r) (distSearchInfo_ other) in
  (Result (errno_ r) (error_ r) (query other) d (topK other) (page other) (texts other) (counts other) (mining other) (TOP_K_NUM other),
   Result (errno_ other) (error_ other) (query r) d' (topK r) (page r) (texts r) (counts r) (mining r) (TOP_K_NUM other)).
