(* ===== verification/OntologyMerge.v ===== *)
(** * Merging the attributes of several workers
    ([mining-manager/group-manager/ontology_rep.h])

    An [OntologyRep] is a list of names (level 0), each followed by its values.
    Merging adds the counts and scores name by name and value by value, keeps
    the names with the greatest scores and lists the values of each from the
    greatest score to the least. *)
From S2P Require Import Prelude CNum OrderedMap PriorityQueue QueueSpec GroupRep.

Definition OntologyRep (U : Type) := list (RepItem U).

Section merge.
Context {U : Type} `{TextLt U}.
Context {Q : Type} `{!PQOps (U * double) Q}.

Definition NameItemMap := list (U * RepItem U).
Definition NameValueItemMap := list (U * NameItemMap).

(** The maps, [current_nvmap_it] and [newname]. *)
Record MergeMaps := Maps {
  name_item_map : NameItemMap;
  nv_item_map : NameValueItemMap;
  current_name : option U;
  newname : bool }.

(** [doc_count += n; score += s] *)
Definition add_item (it i : RepItem U) : RepItem U :=
  Item (level i) (text i) (item_id i) (u32 (doc_count i + doc_count it)) (d_add (item_score i) (item_score it)).

Definition at_name (it : RepItem U) (m : MergeMaps) (names : NameItemMap) (new : bool) : MergeMaps :=
  Maps names (om_update text_lt (default []) (text it) (nv_item_map m)) (Some (text it)) new.

(** [f] on the values of the current name; the iterator is not initialised
    before the first name. *)
Definition at_values (f : NameItemMap → NameItemMap) (m : MergeMaps) : option MergeMaps :=
  name ← current_name m;
  Some (Maps (name_item_map m) (om_update text_lt (λ v, f (default [] v)) name (nv_item_map m)) (current_name m) (newname m)).

Definition put_own (m : MergeMaps) (it : RepItem U) : option MergeMaps :=
  if level it =? 0 then Some (at_name it m (om_put text_lt (text it) it (name_item_map m)) (newname m))
  else at_values (om_put text_lt (text it) it) m.

(** [insert], and the sums when the name was there. *)
Definition add_or_put (it : RepItem U) : NameItemMap → NameItemMap :=
  om_update text_lt (λ o, match o with None => it | Some i => add_item it i end) (text it).

Definition put_other (m : MergeMaps) (it : RepItem U) : option MergeMaps :=
  if level it =? 0 then
    Some (at_name it m (add_or_put it (name_item_map m)) (bool_decide (om_get text_lt (text it) (name_item_map m) = None)))
  else if newname m then at_values (om_put text_lt (text it) it) m
  else at_values (add_or_put it) m.

Definition put_list (m : MergeMaps) (other : OntologyRep U) : option MergeMaps :=
  foldM put_other (Maps (name_item_map m) (nv_item_map m) (current_name m) false) other.

(** The part of the list in front of the name after [topGroupNum] names. *)
Fixpoint first_names (topGroupNum group_num : Z) (l : OntologyRep U) : OntologyRep U :=
  match l with
  | [] => []
  | it :: l' =>
      let group_num := if level it =? 0 then group_num + 1 else group_num in
      if topGroupNum <? group_num then [] else it :: first_names topGroupNum group_num l'
  end.

(** [None]: the item of a name that is not in the map. *)
Definition name_with_values (m : MergeMaps) (name : U) : option (list (RepItem U)) :=
  it ← om_get text_lt name (name_item_map m);
  values ← om_get text_lt name (nv_item_map m);
  let score_item_map := fold_left (λ l v, mm_insert (item_score v.2) v.2 l) values [] in
  Some (it :: rev (map snd score_item_map)).

(** The list that is empty takes the first other list that is not; empty lists
    are left out. *)
Fixpoint take_first (item_list : OntologyRep U) (others : list (OntologyRep U)) : OntologyRep U * list (OntologyRep U) :=
  match others with
  | [] => (item_list, [])
  | [] :: others => take_first item_list others
  | o :: others =>
      match item_list with
      | [] => take_first o others
      | _ => let '(l, rest) := take_first item_list others in (l, o :: rest)
      end
  end.

Definition attr_merge (topGroupNum : Z) (item_list : OntologyRep U) (others : list (OntologyRep U)) : option (OntologyRep U) :=
  match take_first item_list others with
  | (l, []) =>
      Some (if (topGroupNum =? 0) || (Z.of_nat (length l) <=? topGroupNum) then l else first_names topGroupNum 0 l)
  | (l, others) =>
      own ← foldM put_own (Maps [] [] None false) l;
      m ← foldM put_list own others;
      let topGroupNum := if topGroupNum =? 0 then Z.of_nat (length (name_item_map m)) else topGroupNum in
      queue ← foldM (λ q n, '(_, q) ← q_insert (text n.2, item_score n.2) q; Some q)
        (q_new (Z.to_nat (u64 topGroupNum))) (name_item_map m);
      popped ← q_drain (q_size queue) queue;
      parts ← mapM (name_with_values m) (rev (map fst popped));
      Some (concat parts)
  end.
End merge.

(** ** The entries of a list *)

(** A name, or a value of a name. *)
Abbreviation Key U := (U * option U)%type.

Section entries.
Context {U : Type}.

(** The items with their keys; the list must begin with a name. *)
Fixpoint keyed (cur : option U) (l : list (RepItem U)) : option (list (Key U * RepItem U)) :=
  match l with
  | [] => Some []
  | it :: l' =>
      if level it =? 0 then ks ← keyed (Some (text it)) l'; Some (((text it, None), it) :: ks)
      else name ← cur; ks ← keyed cur l'; Some (((name, Some (text it)), it) :: ks)
  end.

(** The sum over the lists that have the key, in their order. *)
Definition add_key (o : option (RepItem U)) (it : RepItem U) : RepItem U :=
  match o with None => it | Some i => add_item it i end.

Context `{!EqDecision U}.

Fixpoint find_key (k : Key U) (ks : list (Key U * RepItem U)) : option (RepItem U) :=
  match ks with [] => None | (k', it) :: ks => if decide (k' = k) then Some it else find_key k ks end.

Definition add_entry (o : option (RepItem U)) (k : Key U) (ks : list (Key U * RepItem U)) : option (RepItem U) :=
  match find_key k ks with None => o | Some it => Some (add_key o it) end.

Definition total (k : Key U) (lists : list (list (Key U * RepItem U))) : option (RepItem U) :=
  fold_left (λ o ks, add_entry o k ks) lists None.

Lemma find_key_None k ks : k ∉ map fst ks → find_key k ks = None.
Proof.
  induction ks as [|[k' it] ks IH]; [done|]. simpl. intros Hk. rewrite decide_False by (intros ->; apply Hk; left).
  apply IH. intros ?. apply Hk. by right.
Qed.

Lemma find_key_snoc k ks k' it : k' ∉ map fst ks → find_key k (ks ++ [(k', it)]) = if decide (k' = k) then Some it else find_key k ks.
Proof.
  intros Hk. induction ks as [|[k'' it''] ks IH]; simpl.
  { done. }
  rewrite IH by (intros ?; apply Hk; by right). destruct (decide (k'' = k)) as [->|]; [|done].
  rewrite decide_False; [done|]. intros ->. apply Hk. left.
Qed.
End entries.

(** ** The maps hold the sums *)

Section sums.
Context {U : Type} `{TextOrder U} `{!EqDecision U}.

Notation mok := (om_ok text_lt (λ _ : U, True)).

Lemma same_text (x y : U) : same_key text_lt x y = bool_decide (x = y).
Proof.
  destruct (decide (x = y)) as [->|Hne].
  - rewrite bool_decide_true by done. apply same_key_spec. split; apply text_lt_irrefl.
  - rewrite bool_decide_false by done. destruct (same_key text_lt x y) eqn:E; [|done]. apply same_key_spec in E as [E1 E2].
    by destruct Hne; apply text_total.
Qed.

Lemma text_get_update {V} (f : option V → V) x y (m : list (U * V)) : mok m →
  om_get text_lt y (om_update text_lt f x m) = if decide (x = y) then Some (f (om_get text_lt x m)) else om_get text_lt y m.
Proof.
  intros Hm. rewrite (om_get_update text_lt (λ _, True)) by done. rewrite same_text.
  destruct (decide (x = y)); [by rewrite bool_decide_true|by rewrite bool_decide_false].
Qed.

Lemma text_update_ok {V} (f : option V → V) x (m : list (U * V)) : mok m → mok (om_update text_lt f x m).
Proof. by apply (om_update_ok text_lt (λ _, True)). Qed.

Definition values_of (m : MergeMaps (U := U)) (n : U) : NameItemMap := default [] (om_get text_lt n (nv_item_map m)).

Definition look (m : MergeMaps (U := U)) (k : Key U) : option (RepItem U) :=
  match k.2 with
  | None => om_get text_lt k.1 (name_item_map m)
  | Some v => om_get text_lt v (values_of m k.1)
  end.

Record maps_ok (m : MergeMaps (U := U)) : Prop := {
  mk_names : mok (name_item_map m);
  mk_nv : mok (nv_item_map m);
  mk_values : ∀ n, mok (values_of m n);
  mk_text : ∀ k it, look m k = Some it → text it = default k.1 k.2;
  mk_known : ∀ n v, is_Some (look m (n, Some v)) → is_Some (look m (n, None));
  mk_both : ∀ n, is_Some (look m (n, None)) ↔ is_Some (om_get text_lt n (nv_item_map m)) }.

(** One item has been added. *)
Definition added (m : MergeMaps (U := U)) (k : Key U) (it : RepItem U) (m' : MergeMaps (U := U)) : Prop :=
  ∀ k', look m' k' = if decide (k = k') then Some (add_key (look m k) it) else look m k'.

Lemma values_default_name n x (m : MergeMaps (U := U)) : mok (nv_item_map m) →
  default [] (om_get text_lt n (om_update text_lt (default []) x (nv_item_map m))) = values_of m n.
Proof.
  intros Hm. rewrite text_get_update by done. unfold values_of. destruct (decide (x = n)) as [->|]; [|done].
  done.
Qed.

Lemma at_name_ok m it f new : maps_ok m → f (look m (text it, None)) = add_key (look m (text it, None)) it →
  let m' := at_name it m (om_update text_lt f (text it) (name_item_map m)) new in
  maps_ok m' ∧ added m (text it, None) it m'.
Proof.
  intros [Hn Hnv Hv Ht Hk Hb] Hf m'.
  assert (∀ n, values_of m' n = values_of m n) as Evals by (intros n; by apply values_default_name).
  assert (added m (text it, None) it m') as Hadd.
  { intros [n [v|]]; unfold look at 1; simpl.
    - rewrite Evals, decide_False by congruence. done.
    - rewrite text_get_update by done. unfold look in Hf. simpl in Hf. rewrite Hf.
      destruct (decide (text it = n)) as [->|Hne]; [by rewrite decide_True|by rewrite decide_False by congruence]. }
  split; [|done]. split.
  - by apply text_update_ok.
  - by apply text_update_ok.
  - intros n. by rewrite Evals.
  - intros k' it'. rewrite (Hadd k'). destruct (decide _) as [<-|]; [|by apply Ht]. simpl. intros [= <-].
    unfold add_key. destruct (look m (text it, None)) as [i|] eqn:E; [|done]. by apply (Ht _ _ E).
  - intros n v. rewrite (Hadd (n, Some v)), (Hadd (n, None)). rewrite decide_False by congruence. intros Hs.
    destruct (decide _); [by eexists|]. by apply (Hk n v).
  - intros n. rewrite (Hadd (n, None)). simpl. rewrite text_get_update by done.
    destruct (decide (text it = n)) as [->|Hne].
    + rewrite decide_True by done. by split; eexists.
    + rewrite decide_False by congruence. apply Hb.
Qed.

Lemma at_values_ok m n it f : maps_ok m → current_name m = Some n → is_Some (look m (n, None)) →
  f (look m (n, Some (text it))) = add_key (look m (n, Some (text it))) it →
  ∃ m', at_values (om_update text_lt f (text it)) m = Some m' ∧ maps_ok m' ∧ added m (n, Some (text it)) it m' ∧
  current_name m' = Some n ∧ newname m' = newname m.
Proof.
  intros [Hn Hnv Hv Ht Hk Hb] Hcur Hsome Hf. unfold at_values. rewrite Hcur. cbn [mbind option_bind].
  set (m' := Maps _ _ _ _). exists m'. split; [done|].
  assert (∀ n', values_of m' n' = if decide (n = n') then om_update text_lt f (text it) (values_of m n) else values_of m n') as Evals.
  { intros n'. unfold values_of, m'. simpl. rewrite text_get_update by done. by destruct (decide (n = n')). }
  assert (added m (n, Some (text it)) it m') as Hadd.
  { intros [n' [v|]]; unfold look at 1; simpl.
    - rewrite Evals. destruct (decide (n = n')) as [<-|Hne]; [|by rewrite decide_False by congruence].
      rewrite text_get_update by apply Hv. unfold look in Hf. simpl in Hf. rewrite Hf.
      destruct (decide (text it = v)) as [->|]; [by rewrite decide_True|by rewrite decide_False by congruence].
    - by rewrite decide_False by congruence. }
  split_and!; [|done|done|done]. split.
  - done.
  - by apply text_update_ok.
  - intros n'. rewrite Evals. destruct (decide (n = n')) as [<-|]; [by apply text_update_ok|apply Hv].
  - intros k' it'. rewrite (Hadd k'). destruct (decide _) as [<-|]; [|by apply Ht]. simpl. intros [= <-].
    unfold add_key. destruct (look m (n, Some (text it))) as [i|] eqn:E; [|done]. by apply (Ht _ _ E).
  - intros n' v. rewrite (Hadd (n', Some v)), (Hadd (n', None)). rewrite (decide_False (P := (n, Some (text it)) = (n', None))) by congruence.
    destruct (decide _) as [E|]; [intros _; by injection E as <- _|by apply Hk].
  - intros n'. rewrite (Hadd (n', None)), decide_False by congruence. unfold m'. simpl. rewrite text_get_update by done.
    destruct (decide (n = n')) as [<-|]; [|apply Hb]. split; [by eexists|done].
Qed.

(** In the middle of a list: the items read so far, and the current name. *)
Record reading (m : MergeMaps (U := U)) (cur : option U) (pre : list (Key U * RepItem U)) : Prop := {
  rd_ok : maps_ok m;
  rd_cur : ∀ n, cur = Some n → current_name m = Some n ∧ is_Some (look m (n, None));
  rd_new : newname m = true → ∀ n v, cur = Some n → is_Some (look m (n, Some v)) → (n, Some v) ∈ map fst pre }.

(** The key of the next item. *)
Definition next_key (cur : option U) (it : RepItem U) (k : Key U) : Prop :=
  level it = 0 ∧ k = (text it, None) ∨ level it ≠ 0 ∧ ∃ n, cur = Some n ∧ k = (n, Some (text it)).

(** What one step does to an item with a new key. *)
Definition put_spec (put : MergeMaps (U := U) → RepItem U → option (MergeMaps (U := U))) (extra : option (RepItem U) → Prop) : Prop :=
  ∀ m cur pre it k, reading m cur pre → k ∉ map fst pre → next_key cur it k → extra (look m k) →
  ∃ m', put m it = Some m' ∧ added m k it m' ∧ reading m' (Some k.1) (pre ++ [(k, it)]).

Lemma reading_name m cur pre it new m' : reading m cur pre → maps_ok m' → added m (text it, None) it m' →
  current_name m' = Some (text it) → newname m' = new → (new = true → look m (text it, None) = None) →
  reading m' (Some (text it)) (pre ++ [((text it, None), it)]).
Proof.
  intros [Hok _ _] Hok' Hadd Hcur Hnew Hn. split; [done| |].
  - intros n [= <-]. split; [done|]. rewrite (Hadd (text it, None)), decide_True by done. by eexists.
  - intros Ht n v [= <-]. rewrite (Hadd (text it, Some v)), decide_False by congruence. intros Hs.
    apply (mk_known m Hok) in Hs. rewrite Hn in Hs by congruence. by destruct Hs.
Qed.

Lemma reading_value m cur pre it n m' : reading m cur pre → cur = Some n → maps_ok m' → added m (n, Some (text it)) it m' →
  current_name m' = Some n → newname m' = newname m → reading m' (Some n) (pre ++ [((n, Some (text it)), it)]).
Proof.
  intros [_ Hcur Hnew] -> Hok' Hadd Hc Hnw. destruct (Hcur n eq_refl) as [_ Hs]. split; [done| |].
  - intros n' [= <-]. split; [done|]. by rewrite (Hadd (n, None)), decide_False by congruence.
  - rewrite Hnw. intros Ht n' v [= <-]. rewrite (Hadd (n, Some v)), map_app, elem_of_app. destruct (decide _) as [E|].
    + intros _. right. rewrite E. left.
    + intros Hv. left. by apply Hnew.
Qed.

Lemma put_own_spec : put_spec put_own (λ o, o = None).
Proof.
  intros m cur pre it k Hr Hk [[Hl ->]|(Hl & n & -> & ->)] Hnone; unfold put_own.
  - rewrite Hl. cbn [Z.eqb]. eexists. split; [done|].
    destruct (at_name_ok m it (λ _, it) (newname m) (rd_ok _ _ _ Hr)) as [Hok Hadd]; [by rewrite Hnone|].
    split; [done|]. by apply (reading_name m cur pre it (newname m)).
  - rewrite (proj2 (Z.eqb_neq _ _) Hl). destruct (rd_cur _ _ _ Hr n eq_refl) as [Hc Hs].
    destruct (at_values_ok m n it (λ _, it) (rd_ok _ _ _ Hr) Hc Hs) as (m' & E & Hok & Hadd & Hc' & Hn'); [by rewrite Hnone|].
    exists m'. split_and!; [exact E|done|]. by apply (reading_value m (Some n) pre it n).
Qed.

Lemma put_other_spec : put_spec put_other (λ _, True).
Proof.
  intros m cur pre it k Hr Hk [[Hl ->]|(Hl & n & -> & ->)] _; unfold put_other.
  - rewrite Hl. cbn [Z.eqb]. eexists. split; [done|].
    destruct (at_name_ok m it (λ o, match o with None => it | Some i => add_item it i end)
      (bool_decide (om_get text_lt (text it) (name_item_map m) = None)) (rd_ok _ _ _ Hr) eq_refl) as [Hok Hadd].
    split; [done|]. eapply (reading_name m cur pre it); [done|done|done|done|done|]. simpl. intros Hb. by apply bool_decide_eq_true in Hb.
  - rewrite (proj2 (Z.eqb_neq _ _) Hl). destruct (rd_cur _ _ _ Hr n eq_refl) as [Hc Hs]. destruct (newname m) eqn:Hnew.
    + destruct (at_values_ok m n it (λ _, it) (rd_ok _ _ _ Hr) Hc Hs) as (m' & E & Hok & Hadd & Hc' & Hn').
      { destruct (look m (n, Some (text it))) eqn:E; [|done]. destruct Hk. by apply (rd_new _ _ _ Hr Hnew n (text it)); [|eexists]. }
      exists m'. split_and!; [exact E|done|]. by apply (reading_value m (Some n) pre it n).
    + destruct (at_values_ok m n it (λ o, match o with None => it | Some i => add_item it i end) (rd_ok _ _ _ Hr) Hc Hs eq_refl)
        as (m' & E & Hok & Hadd & Hc' & Hn').
      exists m'. split_and!; [exact E|done|]. by apply (reading_value m (Some n) pre it n).
Qed.

Lemma keyed_next cur it l ks : keyed cur (it :: l) = Some ks → ∃ k ks', ks = (k, it) :: ks' ∧ next_key cur it k ∧ keyed (Some k.1) l = Some ks'.
Proof.
  simpl. destruct (Z.eqb_spec (level it) 0) as [Hl|Hl].
  - destruct (keyed (Some (text it)) l) as [ks'|] eqn:E; [|done]. intros [= <-]. eexists _, ks'. split_and!; [done|by left|done].
  - destruct cur as [n|]; [simpl|done]. destruct (keyed (Some n) l) as [ks'|] eqn:E; [|done]. intros [= <-].
    eexists _, ks'. split_and!; [done|right; split; [done|by exists n]|done].
Qed.

Lemma put_items_ok put extra m0 l : put_spec put extra → (∀ k, extra (look m0 k)) → ∀ cur pre ks m, keyed cur l = Some ks →
  NoDup (map fst (pre ++ ks)) → reading m cur pre → (∀ k, look m k = add_entry (look m0 k) k pre) →
  ∃ m', foldM put m l = Some m' ∧ maps_ok m' ∧ ∀ k, look m' k = add_entry (look m0 k) k (pre ++ ks).
Proof.
  intros Hput Hextra. induction l as [|it l IH]; intros cur pre ks m Hks Hnd Hr Hlook.
  { injection Hks as <-. exists m. split_and!; [done|apply Hr|by rewrite app_nil_r]. }
  apply keyed_next in Hks as (k & ks' & -> & Hk & Hks').
  assert (k ∉ map fst pre) as Hnew.
  { intros Hin. rewrite map_app in Hnd. apply NoDup_app in Hnd as (_ & Hd & _). apply (Hd k Hin). left. }
  assert (look m k = look m0 k) as Esame by by rewrite Hlook; unfold add_entry; rewrite find_key_None.
  destruct (Hput m cur pre it k Hr Hnew Hk) as (m1 & E & Hadd & Hr1); [by rewrite Esame|].
  cbn [foldM]. rewrite E. cbn [mbind option_bind].
  destruct (IH (Some k.1) (pre ++ [(k, it)]) ks' m1 Hks') as (m' & E' & Hok & Hl').
  - by rewrite <- app_assoc.
  - done.
  - intros k'. rewrite (Hadd k'). unfold add_entry. rewrite (find_key_snoc k' pre k it) by done.
    destruct (decide (k = k')) as [<-|]; [by rewrite Esame|by rewrite Hlook].
  - exists m'. rewrite <- app_assoc in Hl'. by split_and!.
Qed.

(** ** All lists *)

Definition attr_list (l : OntologyRep U) (ks : list (Key U * RepItem U)) : Prop := keyed None l = Some ks ∧ NoDup (map fst ks).

Lemma maps_new_ok : maps_ok (Maps [] [] None false).
Proof.
  split; simpl; [apply om_nil_ok|apply om_nil_ok|intros; apply om_nil_ok| | |by intros n; split; intros [? ?]].
  - intros [n [v|]] it; done.
  - by intros n v [? ?].
Qed.

Lemma look_new k : look (Maps [] [] None false) k = None.
Proof. by destruct k as [n [v|]]. Qed.

Lemma add_entry_nil o k : add_entry o k [] = (o : option (RepItem U)).
Proof. done. Qed.

Lemma maps_start_ok m : maps_ok m → maps_ok (Maps (name_item_map m) (nv_item_map m) (current_name m) false).
Proof. intros [H1 H2 H3 H4 H5 H6]. by split. Qed.

Lemma reading_start m : maps_ok m → newname m = false → reading m None [].
Proof. intros Hok Hn. split; [done|done|]. by rewrite Hn. Qed.

Lemma put_list_ok m l ks : maps_ok m → attr_list l ks →
  ∃ m', put_list m l = Some m' ∧ maps_ok m' ∧ ∀ k, look m' k = add_entry (look m k) k ks.
Proof.
  intros Hok [Hks Hnd]. unfold put_list.
  apply (put_items_ok put_other (λ _, True) m l put_other_spec (λ _, I) None [] ks); [done|done| |done].
  by apply reading_start; [apply maps_start_ok|].
Qed.

Lemma put_lists_ok ls : ∀ kss m, maps_ok m → Forall2 attr_list ls kss →
  ∃ m', foldM put_list m ls = Some m' ∧ maps_ok m' ∧ ∀ k, look m' k = fold_left (λ o ks, add_entry o k ks) kss (look m k).
Proof.
  induction ls as [|l ls IH]; intros kss m Hok Hall; inversion_clear Hall as [|? ks ? kss' Hl Hls].
  { by exists m. }
  destruct (put_list_ok m l ks Hok Hl) as (m1 & E & Hok1 & H1). cbn [foldM]. rewrite E. cbn [mbind option_bind].
  destruct (IH kss' m1 Hok1 Hls) as (m' & E' & Hok' & H'). exists m'. split_and!; [done|done|].
  intros k. rewrite H', H1. done.
Qed.

(** The maps after all lists. *)
Lemma put_all_ok l ls kss : Forall2 attr_list (l :: ls) kss →
  ∃ own m, foldM put_own (Maps [] [] None false) l = Some own ∧ foldM put_list own ls = Some m ∧ maps_ok m ∧ ∀ k, look m k = total k kss.
Proof.
  intros Hall. inversion_clear Hall as [|? ks ? kss' Hl Hls]. destruct Hl as [Hks Hnd].
  destruct (put_items_ok put_own (λ o, o = None) (Maps [] [] None false) l put_own_spec look_new None [] ks (Maps [] [] None false))
    as (own & E & Hok & Hown); [done|done|by apply reading_start; [apply maps_new_ok|]|done|].
  destruct (put_lists_ok ls kss' own Hok Hls) as (m & E' & Hok' & Hm). exists own, m. split_and!; [done|done|done|].
  intros k. rewrite Hm, Hown, look_new. done.
Qed.

(** Lists without items do not matter. *)
Definition items_of (ls : list (OntologyRep U)) : list (OntologyRep U) := filter (λ l, l ≠ []) ls.

Lemma take_first_ok others : ∀ l, items_of (l :: others) = items_of [(take_first l others).1] ++ (take_first l others).2 ∧
  ((take_first l others).1 = [] → (take_first l others).2 = []).
Proof.
  unfold items_of. induction others as [|o others IH]; intros l; simpl; [by rewrite app_nil_r|].
  destruct o as [|i o].
  - destruct (IH l) as [E Hn]. split; [|done]. rewrite <- E. by rewrite !filter_cons, (decide_False (P := [] ≠ [])) by tauto.
  - destruct l as [|j l].
    + destruct (IH (i :: o)) as [E Hn]. split; [|done]. rewrite filter_cons, decide_False by tauto. exact E.
    + destruct (IH (j :: l)) as [E Hn]. destruct (take_first (j :: l) others) as [l' rest] eqn:Et. simpl in *.
      assert (l' = j :: l) as -> by (clear -Et; revert l' rest Et; induction others as [|[|? ?] ? IH]; simpl; intros; [congruence|by eapply IH|];
        destruct (take_first (j :: l) others) as [? ?] eqn:E2; injection Et as <- <-; by eapply IH).
      split; [|done]. rewrite !filter_cons in *. rewrite !decide_True in * by done. simpl in *. injection E as ->. done.
Qed.

Lemma Forall2_items ls kss : Forall2 attr_list ls kss → ∃ kss', Forall2 attr_list (items_of ls) kss' ∧ ∀ k, total k kss' = total k kss.
Proof.
  unfold total. generalize (@None (RepItem U)) as o. intros o Hall.
  assert (∃ kss', Forall2 attr_list (items_of ls) kss' ∧ ∀ k o, fold_left (λ o ks, add_entry o k ks) kss' o = fold_left (λ o ks, add_entry o k ks) kss o)
    as (kss' & H1 & H2); [|by exists kss'].
  induction Hall as [|l ks ls kss Hl _ (kss' & Hf & He)]; [by exists []|]. unfold items_of. destruct (decide (l ≠ [])) as [Hne|He'].
  - rewrite filter_cons_True by done. exists (ks :: kss'). split; [by constructor|]. intros k o'. simpl. by rewrite He.
  - rewrite filter_cons_False by done. exists kss'. split; [done|]. intros k o'. rewrite He. destruct l; [|by destruct He']. destruct Hl as [Hks _]. injection Hks as <-. done.
Qed.

(** ** The result *)

Lemma text_cons_ok {V} (e : U * V) m : mok (e :: m) → mok m ∧ om_get text_lt e.1 m = None.
Proof.
  intros [Hk Hs]. inversion_clear Hs as [|?? Hs' He]. split; [split; [by apply Forall_true|done]|].
  apply (om_get_above text_lt (λ _, True)); [done|]. eapply Forall_impl; [exact He|]. done.
Qed.

Lemma text_elem {V} (m : list (U * V)) x v : mok m → (x, v) ∈ m ↔ om_get text_lt x m = Some v.
Proof.
  induction m as [|[y w] m IH]; intros Hm; simpl; [split; [by intros ?%elem_of_nil|done]|].
  apply text_cons_ok in Hm as [Hm Hn]. specialize (IH Hm). rewrite same_text. simpl in Hn. rewrite elem_of_cons, IH.
  case_bool_decide as E; [subst y; rewrite Hn; naive_solver|naive_solver].
Qed.

Lemma text_keys_NoDup {V} (m : list (U * V)) : mok m → NoDup (map fst m).
Proof.
  induction m as [|[y w] m IH]; intros Hm; simpl; [constructor|]. apply text_cons_ok in Hm as [Hm Hn]. constructor; [|by apply IH].
  intros ([x v] & E & Hin)%list_elem_of_fmap. simpl in *. subst y. apply text_elem in Hin; [congruence|done].
Qed.

(** The scores are not negative. *)
Definition scores_ok (m : MergeMaps (U := U)) : Prop := ∀ k it, look m k = Some it → d_num (item_score it).

Definition by_score (values : NameItemMap (U := U)) : list (double * RepItem U) :=
  fold_left (λ l v, mm_insert (item_score v.2) v.2 l) values [].

Lemma by_score_ok values : Forall (λ v, d_num (item_score v.2)) values →
  by_score values ≡ₚ map (λ v : U * RepItem U, (item_score v.2, v.2)) values ∧ sorted_by (λ a b : double * RepItem U, d_lt a.1 b.1) (by_score values).
Proof.
  intros Hn. unfold by_score. induction values as [|v values IH] using rev_ind; [split; [done|constructor]|].
  apply Forall_app in Hn as [Hn Hv]. destruct (IH Hn) as [Hp Hs]. rewrite fold_left_app, map_app. simpl. split.
  - rewrite mm_insert_perm, Hp. apply Permutation_cons_append.
  - apply mm_insert_sorted; [by inversion Hv| |done]. rewrite Hp. apply Forall_map. eapply Forall_impl; [exact Hn|]. done.
Qed.

Definition part_items (p : RepItem U * list (RepItem U)) : list (RepItem U) := p.1 :: p.2.

(** A name with its values; [item] gives the items of the keys. *)
Record part_ok (item : Key U → option (RepItem U)) (p : RepItem U * list (RepItem U)) : Prop := {
  po_name : item (text p.1, None) = Some p.1;
  po_values : ∀ v, v ∈ p.2 ↔ item (text p.1, Some (text v)) = Some v;
  po_NoDup : NoDup (map text p.2);
  po_sorted : StronglySorted (λ a b, d_lt (item_score a) (item_score b) = false) p.2 }.

Lemma name_with_values_ok m it : maps_ok m → scores_ok m → look m (text it, None) = Some it →
  ∃ vs, name_with_values m (text it) = Some (it :: vs) ∧ part_ok (look m) (it, vs).
Proof.
  intros [_ _ Hv Ht _ Hb] Hsc Hit. unfold name_with_values. unfold look in Hit. simpl in Hit. rewrite Hit. cbn [mbind option_bind].
  destruct (proj1 (Hb (text it))) as [values Evals]; [by exists it|]. rewrite Evals. cbn [mbind option_bind].
  assert (values_of m (text it) = values) as Ev by by unfold values_of; rewrite Evals.
  specialize (Hv (text it)). rewrite Ev in Hv.
  assert (∀ x v, (x, v) ∈ values ↔ look m (text it, Some x) = Some v) as Hin.
  { intros x v. rewrite text_elem by done. unfold look. simpl. by rewrite Ev. }
  assert (∀ e, e ∈ values → text e.2 = e.1) as Htext.
  { intros [x v] He. apply Hin in He. by apply (Ht (text it, Some x)). }
  destruct (by_score_ok values) as [Hp Hs]. { apply Forall_forall. intros [x v] He. apply Hin in He. by apply (Hsc _ _ He). }
  fold (by_score values). exists (rev (map snd (by_score values))). split; [done|].
  assert (rev (map snd (by_score values)) ≡ₚ map snd values) as Hperm.
  { rewrite <- Permutation_rev, Hp, map_map. done. }
  split; simpl.
  - done.
  - intros v. rewrite Hperm, list_elem_of_fmap. split.
    + intros ([x w] & -> & He). simpl. pose proof (Htext _ He) as E. simpl in E. rewrite E. by apply Hin.
    + intros Hl. exists (text v, v). split; [done|]. by apply Hin.
  - rewrite Hperm, map_map. rewrite (map_ext_in _ fst); [by apply text_keys_NoDup|]. intros e He. apply Htext. by apply list_elem_of_In.
  - rewrite <- map_rev. apply (StronglySorted_map snd (λ a b : double * RepItem U, d_lt a.1 b.1 = false)).
    + by apply (StronglySorted_rev (λ a b : double * RepItem U, d_lt b.1 a.1 = false)).
    + assert (∀ e, e ∈ rev (by_score values) → e.1 = item_score e.2) as Hfst.
      { intros e. rewrite elem_of_rev, Hp, list_elem_of_fmap. by intros (w & -> & _). }
      intros a b Ha Hb'. by rewrite !Hfst by done.
Qed.

Definition name_score (a : U * double) : Prop := d_num a.2.
Definition name_lt (a b : U * double) : bool := d_lt a.2 b.2.

#[export] Instance name_lt_strict : StrictWeakOn name_score name_lt.
Proof.
  split; unfold name_score, name_lt.
  - intros x y. apply (@swo_asym _ _ _ d_lt_strict_weak).
  - intros x y z. apply (@swo_ntrans _ _ _ d_lt_strict_weak).
Qed.

Context {Q : Type} {Ops : PQOps (U * double) Q} `{!BoundedPQ name_score name_lt Ops}.

(** The names shown and the names cut. *)
Record names_shown (item : Key U → option (RepItem U)) (topNum : Z) (parts : list (RepItem U * list (RepItem U))) (rest : list U) : Prop := {
  ns_parts : Forall (part_ok item) parts;
  ns_NoDup : NoDup (map (λ p, text p.1) parts ++ rest);
  ns_all : ∀ n, n ∈ map (λ p, text p.1) parts ++ rest ↔ is_Some (item (n, None));
  ns_sorted : StronglySorted (λ p q, d_lt (item_score p.1) (item_score q.1) = false) parts;
  ns_cut : ∀ p n it, p ∈ parts → n ∈ rest → item (n, None) = Some it → d_lt (item_score p.1) (item_score it) = false;
  ns_full : rest ≠ [] → topNum ≠ 0 → Z.of_nat (length parts) = topNum;
  ns_none : topNum = 0 → rest = [];
  ns_max : topNum ≠ 0 → Z.of_nat (length parts) ≤ topNum }.

Definition offered (m : MergeMaps (U := U)) : list (U * double) := map (λ n : U * RepItem U, (text n.2, item_score n.2)) (name_item_map m).

Lemma offered_ok m : maps_ok m → NoDup (map fst (offered m)) ∧
  ∀ x, x ∈ offered m ↔ ∃ it, look m (x.1, None) = Some it ∧ text it = x.1 ∧ x.2 = item_score it.
Proof.
  intros Hok. pose proof (mk_names m Hok) as Hn.
  assert (∀ e, e ∈ name_item_map m → look m (e.1, None) = Some e.2 ∧ text e.2 = e.1) as He.
  { intros [n it] Hin. apply (text_elem _ n it Hn) in Hin. split; [done|]. by apply (mk_text m Hok (n, None)). }
  split.
  - unfold offered. rewrite map_map. rewrite (map_ext_in _ fst); [by apply text_keys_NoDup|]. intros e Hin. apply He. by apply list_elem_of_In.
  - intros [n s]. unfold offered. rewrite list_elem_of_fmap. simpl. split.
    + intros ([n' it] & [= -> ->] & Hin). destruct (He _ Hin) as [Hl Ht]. simpl in *. exists it. by rewrite Ht.
    + intros (it & Hl & Ht & ->). exists (n, it). simpl. rewrite Ht. split; [done|]. by apply text_elem.
Qed.

Lemma mapM_parts m l : maps_ok m → scores_ok m → (∀ x, x ∈ l → ∃ it, look m (x.1, None) = Some it ∧ text it = x.1 ∧ x.2 = item_score it) →
  ∃ parts, mapM (name_with_values m) (map fst l) = Some (map part_items parts) ∧ Forall (part_ok (look m)) parts ∧
  map (λ p, (text p.1, item_score p.1)) parts = l.
Proof.
  intros Hok Hsc. induction l as [|x l IH]; intros Hl; [by exists []|].
  destruct IH as (parts & E & Hp & El); [intros y Hy; apply Hl; by right|].
  destruct (Hl x) as (it & Hit & Ht & Hs); [left|]. rewrite <- Ht in Hit.
  destruct (name_with_values_ok m it Hok Hsc Hit) as (vs & Ev & Hpart).
  exists ((it, vs) :: parts). simpl. rewrite <- Ht, Ev. cbn [mbind option_bind]. rewrite E. cbn [mbind option_bind].
  split_and!; [done|by constructor|]. simpl. rewrite El, Ht, <- Hs. by destruct x.
Qed.

(** What the queue keeps and what it drops. *)
Lemma shown_ok m topNum cap out dropped parts : maps_ok m → 0 ≤ topNum →
  cap = (if topNum =? 0 then Z.of_nat (length (name_item_map m)) else topNum) →
  out ++ dropped ≡ₚ offered m → sorted_by name_lt out → top_of name_lt (Z.to_nat cap) out dropped →
  Forall (part_ok (look m)) parts → map (λ p, (text p.1, item_score p.1)) parts = rev out →
  names_shown (look m) topNum parts (map fst dropped).
Proof.
  intros Hok Ht Hcap Hp Hs [Hle Hfull Hcut] Hparts Eparts. destruct (offered_ok m Hok) as [Hnd Hin].
  assert (map (λ p, text p.1) parts = rev (map fst out)) as Enames by by rewrite <- map_rev, <- Eparts, map_map.
  assert (map (λ p, text p.1) parts ++ map fst dropped ≡ₚ map fst (offered m)) as Hperm.
  { rewrite Enames, <- Permutation_rev, <- map_app. by rewrite Hp. }
  assert (length parts = length out) as El by (rewrite <- (length_map (λ p, text p.1) parts), Enames, length_rev, length_map; done).
  split.
  - done.
  - by rewrite Hperm.
  - intros n. rewrite Hperm, list_elem_of_fmap. split.
    + intros ([n' s] & -> & (it & Hl & _)%Hin). by exists it.
    + intros [it Hl]. exists (n, item_score it). split; [done|]. apply Hin. exists it. split_and!; [done|by apply (mk_text m Hok (n, None))|done].
  - assert (StronglySorted (λ x y : U * double, d_lt x.2 y.2 = false) (map (λ p, (text p.1, item_score p.1)) parts)) as Hsort.
    { rewrite Eparts. by apply (StronglySorted_rev (λ x y : U * double, d_lt y.2 x.2 = false)). }
    clear -Hsort. induction parts as [|p parts IH]; [constructor|]. inversion_clear Hsort as [|?? Hs Hp]. constructor; [by apply IH|].
    apply Forall_map in Hp. exact Hp.
  - intros p n it Hpin (x & -> & Hx)%list_elem_of_fmap Hl.
    assert ((text p.1, item_score p.1) ∈ out) as Hout.
    { rewrite <- elem_of_rev, <- Eparts. apply list_elem_of_fmap. by exists p. }
    specialize (Hcut _ _ Hout Hx). unfold name_lt in Hcut. simpl in Hcut.
    assert (x ∈ offered m) as (it' & Hl' & _ & Es)%Hin by (rewrite <- Hp; apply elem_of_app; by right). congruence.
  - intros Hne Htop. rewrite El, Hfull; [rewrite Hcap, (proj2 (Z.eqb_neq _ _) Htop); lia|by intros ->].
  - intros ->. destruct dropped as [|x dropped]; [done|]. exfalso. specialize (Hfull ltac:(done)).
    apply Permutation_length in Hp. unfold offered in *. simpl in *. rewrite length_app, length_map in Hp. simpl in Hp. lia.
  - intros Htop. rewrite El. rewrite Hcap, (proj2 (Z.eqb_neq _ _) Htop) in *. lia.
Qed.

Lemma queue_parts_ok m topNum : maps_ok m → scores_ok m → 0 ≤ topNum < 2 ^ 31 → Z.of_nat (length (name_item_map m)) < 2 ^ 31 →
  ∃ queue popped parts rest,
  foldM (λ q n, '(_, q) ← q_insert (text n.2, item_score n.2) q; Some q)
    (q_new (Z.to_nat (u64 (if topNum =? 0 then Z.of_nat (length (name_item_map m)) else topNum)))) (name_item_map m) = Some queue ∧
  q_drain (q_size queue) queue = Some popped ∧
  mapM (name_with_values m) (rev (map fst popped)) = Some (map part_items parts) ∧ names_shown (look m) topNum parts rest.
Proof.
  intros Hok Hsc Ht Hlen. remember (if topNum =? 0 then Z.of_nat (length (name_item_map m)) else topNum) as cap eqn:Ecap.
  assert (0 ≤ cap < 2 ^ 31) as Hcap by (rewrite Ecap; destruct (topNum =? 0); lia).
  assert (u64 cap = cap) as -> by (unfold u64; apply Z.mod_small; lia).
  destruct (offered_ok m Hok) as [_ Hin].
  destruct (q_topk_sort name_score name_lt (Z.to_nat cap) (offered m)) as (queue & out & dropped & E & Hsize & Eo & Hp & Hs & Htop).
  { lia. }
  { apply Forall_forall. intros x (it & Hl & _ & E)%Hin. unfold name_score. rewrite E. by apply (Hsc _ _ Hl). }
  destruct (mapM_parts m (rev out) Hok Hsc) as (parts & Em & Hparts & Eparts).
  { intros x Hx. apply Hin. rewrite <- Hp. rewrite elem_of_rev in Hx. apply elem_of_app. by left. }
  exists queue, out, parts, (map fst dropped). split_and!; [|done|by rewrite <- map_rev|].
  - rewrite <- E. unfold q_insert_all, offered. clear. generalize (q_new (Z.to_nat cap)) as q. induction (name_item_map m) as [|n l IH]; intros q; [done|].
    simpl. destruct (q_insert _ q) as [[b q']|]; [simpl; apply IH|done].
  - apply (shown_ok m topNum cap out dropped parts); try done; lia.
Qed.

(** *** The sums *)

Lemma total_key (k : Key U) kss it : total k kss = Some it → k ∈ map fst (concat kss).
Proof.
  unfold total. enough (∀ o, fold_left (λ o ks, add_entry o k ks) kss o = Some it → o = None → k ∈ map fst (concat kss)) by eauto.
  induction kss as [|ks kss IH]; intros o E ->; [done|]. simpl in *. rewrite map_app, elem_of_app.
  unfold add_entry in E at 2. destruct (find_key k ks) as [i|] eqn:Ef; [|right; by apply (IH None)].
  left. destruct (decide (k ∈ map fst ks)) as [|Hn]; [done|]. by rewrite find_key_None in Ef.
Qed.

Lemma find_key_elem (k : Key U) ks it : find_key k ks = Some it → (k, it) ∈ ks.
Proof.
  induction ks as [|[k' i] ks IH]; [done|]. simpl. destruct (decide (k' = k)) as [->|]; [intros [= ->]; left|right; by apply IH].
Qed.

Definition scores_nonneg (kss : list (list (Key U * RepItem U))) : Prop := Forall (λ e, d_nonneg (item_score e.2)) (concat kss).

Lemma total_score (k : Key U) kss it : scores_nonneg kss → total k kss = Some it → d_nonneg (item_score it).
Proof.
  intros Hn. unfold total.
  enough (∀ o, (∀ i, o = Some i → d_nonneg (item_score i)) → fold_left (λ o ks, add_entry o k ks) kss o = Some it → d_nonneg (item_score it))
    as Hgen by by apply Hgen.
  induction kss as [|ks kss IH]; intros o Ho; simpl; [by intros ->; apply Ho|]. unfold scores_nonneg in Hn. simpl in Hn.
  apply Forall_app in Hn as [Hks Hn]. apply (IH Hn). unfold add_entry. destruct (find_key k ks) as [i|] eqn:E; [|done].
  assert (d_nonneg (item_score i)) as Hi by (apply find_key_elem in E; rewrite Forall_forall in Hks; by apply (Hks _ E)).
  intros j [= <-]. unfold add_key. destruct o as [i'|]; [|done]. simpl. apply d_add_nonneg; [by apply Ho|done].
Qed.

Lemma names_shown_ext f g topNum parts rest : (∀ k, f k = g k) → names_shown f topNum parts rest → names_shown g topNum parts rest.
Proof.
  intros E [Hp Hn Ha Hs Hc Hf Hz Hm]. split; try done.
  - eapply Forall_impl; [exact Hp|]. intros p [P1 P2 P3 P4]. split; try done; [by rewrite <- E|]. intros v. by rewrite <- E.
  - intros n. by rewrite <- E.
  - intros p n it. rewrite <- E. apply Hc.
Qed.

(** The lists of several workers, at least two of which have items. *)
Lemma attr_merge_ok topNum l others kss : Forall2 attr_list (l :: others) kss → scores_nonneg kss → 0 ≤ topNum < 2 ^ 31 →
  Z.of_nat (length (concat kss)) < 2 ^ 31 → (2 ≤ length (items_of (l :: others)))%nat →
  ∃ parts rest, attr_merge topNum l others = Some (concat (map part_items parts)) ∧ names_shown (λ k, total k kss) topNum parts rest.
Proof.
  intros Hall Hn Ht Hlen H2. destruct (take_first_ok others l) as [Et Hempty]. unfold attr_merge.
  destruct (take_first l others) as [l' rest'] eqn:Etf. simpl in Et, Hempty. rewrite Et in H2.
  destruct (Forall2_items _ _ Hall) as (kss' & Hall' & Etotal). rewrite Et in Hall'.
  assert (l' ≠ [] ∧ rest' ≠ []) as [Hl' Hrest].
  { split; intros ->; [unfold items_of in H2; rewrite Hempty, app_nil_r, filter_cons_False in H2 by tauto; simpl in H2; lia|]. rewrite app_nil_r in H2. unfold items_of in H2.
    pose proof (Nat.le_trans _ _ _ H2 (length_filter _ _)) as Hle. simpl in Hle. lia. }
  unfold items_of in Hall'. rewrite filter_cons_True in Hall' by done. simpl in Hall'.
  destruct (put_all_ok l' rest' kss' Hall') as (own & m & Eo & Em & Hok & Hm).
  assert (∀ k, look m k = total k kss) as Hlook by (intros k; by rewrite Hm, Etotal).
  destruct (queue_parts_ok m topNum Hok) as (queue & popped & parts & rest & Eq & Ed & Ep & Hshown).
  - intros k it. rewrite Hlook. intros Hk. by apply (total_score k kss it).
  - done.
  - assert (length (map fst (name_item_map m)) ≤ length (map (λ k : Key U, k.1) (map fst (concat kss))))%nat as Hle.
    { apply NoDup_length_le; [by apply text_keys_NoDup, (mk_names m Hok)|]. intros n ([n' it] & -> & Hin)%list_elem_of_fmap.
      apply (text_elem _ n' it) in Hin; [|apply (mk_names m Hok)]. apply list_elem_of_fmap. exists (n', None). split; [done|].
      apply (total_key _ _ it). by rewrite <- Hlook. }
    rewrite !length_map in Hle. lia.
  - exists parts, rest. split; [|by apply (names_shown_ext (look m))]. destruct rest' as [|o rest']; [done|].
    rewrite Eo. cbn [mbind option_bind]. rewrite Em. cbn [mbind option_bind]. rewrite Eq. cbn [mbind option_bind]. rewrite Ed. cbn [mbind option_bind].
    by rewrite Ep.
Qed.

Lemma attr_merge_ends topNum l others kss : Forall2 attr_list (l :: others) kss → scores_nonneg kss → 0 ≤ topNum < 2 ^ 31 →
  Z.of_nat (length (concat kss)) < 2 ^ 31 → is_Some (attr_merge topNum l others).
Proof.
  intros Hall Hn Ht Hlen. destruct (decide (2 ≤ length (items_of (l :: others)))%nat) as [H2|H2].
  - destruct (attr_merge_ok topNum l others kss Hall Hn Ht Hlen H2) as (parts & rest & -> & _). by eexists.
  - destruct (take_first_ok others l) as [Et Hempty]. unfold attr_merge. destruct (take_first l others) as [l' [|o rest']]; [by eexists|].
    exfalso. apply H2. rewrite Et. simpl in *. unfold items_of. destruct l' as [|i l']; [by specialize (Hempty eq_refl)|].
    rewrite filter_cons_True by done. simpl. lia.
Qed.

(** C29: Merging the attributes of several workers, whose scores are not
    negative, adds, name by name and value by value, the numbers of documents
    and the scores; the names with the greatest scores (not, as the comment of
    the function says, with the most documents) are listed, from the greatest
    to the least, each followed by all its values in the order of their
    scores. *)
Theorem attr_merge_adds topNum l others kss : Forall2 attr_list (l :: others) kss → scores_nonneg kss → 0 ≤ topNum < 2 ^ 31 →
  Z.of_nat (length (concat kss)) < 2 ^ 31 → (2 ≤ length (items_of (l :: others)))%nat →
  ∃ parts rest, attr_merge topNum l others = Some (concat (map part_items parts)) ∧ names_shown (λ k, total k kss) topNum parts rest.
Proof. apply attr_merge_ok. Qed.
End sums.
