(* ===== verification/MergeComparator.v ===== *)
(** * Comparing documents of different workers
    ([aggregator-manager/MergeComparator.cpp, MergeComparator.h])

    A worker sends, for every property its documents were sorted by, the values
    of that property.  [DocumentComparator] collects them; [greaterThan]
    compares a document of one worker with a document of another, property by
    property.

    A list is reached through a pointer without a type: the values of a
    property of type [double] are read as [float]s, that is, the value at [i] is
    read in one half of the number at [i / 2].  The pointer of an empty vector
    is null; a worker whose vectors were emptied has no document to compare. *)
From S2P Require Import Prelude CNum OrderedMap Phrases SearchResult.

(** ** Reading a [double] as two [float]s *)

Definition sign_bit (s : bool) (w : Z) : Z := if s then 2 ^ (w - 1) else 0.

(** The 64 bits of a [double]; those of a NaN are not determined, here they are
    those of a quiet one. *)
Definition d_bits (x : double) : Z :=
  match x with
  | S754_zero s => sign_bit s 64
  | S754_infinity s => sign_bit s 64 + 2047 * 2 ^ 52
  | S754_nan => 2047 * 2 ^ 52 + 2 ^ 51
  | S754_finite s m e =>
      if Z.pos m <? 2 ^ 52 then sign_bit s 64 + Z.pos m
      else sign_bit s 64 + (e + 1075) * 2 ^ 52 + (Z.pos m - 2 ^ 52)
  end.

(** The [float] of 32 bits. *)
Definition f_of_bits (b : Z) : float :=
  let s := Z.testbit b 31 in
  let exponent := Z.land (Z.shiftr b 23) 255 in
  let fraction := Z.land b (2 ^ 23 - 1) in
  if exponent =? 255 then (if fraction =? 0 then S754_infinity s else S754_nan)
  else if exponent =? 0 then match fraction with Z.pos m => S754_finite s m (-149) | _ => S754_zero s end
  else S754_finite s (Z.to_pos (2 ^ 23 + fraction)) (exponent - 150).

(** The low half comes first. *)
Definition half_of (x : double) (i : nat) : float :=
  f_of_bits (Z.land (Z.shiftr (d_bits x) (if Nat.even i then 0 else 32)) (2 ^ 32 - 1)).

(** ** The lists of a worker *)

Inductive DataList :=
  | Int32Data (l : list Z)
  | Int64Data (l : list Z)
  | FloatData (l : list float)
  | DoubleData (l : list double)
  | StringData (l : list string).

Inductive DataType := DATA_TYPE_INT32 | DATA_TYPE_INT64 | DATA_TYPE_FLOAT | DATA_TYPE_STRING.

#[export] Instance DataType_eq_dec : EqDecision DataType.
Proof. solve_decision. Defined.

Definition data_type (d : DataList) : DataType :=
  match d with
  | Int32Data _ => DATA_TYPE_INT32
  | Int64Data _ => DATA_TYPE_INT64
  | FloatData _ | DoubleData _ => DATA_TYPE_FLOAT
  | StringData _ => DATA_TYPE_STRING
  end.

Definition is_null (d : DataList) : bool :=
  match d with
  | Int32Data [] | Int64Data [] | FloatData [] | DoubleData [] | StringData [] => true
  | _ => false
  end.

Record SortPropertyData := SortProperty { property_ : string; reverse_ : bool; dataList_ : DataList }.

(** The loops do not stop at a list they found: the last one counts. *)
Definition find_last {A} (property : string) (l : list (string * A)) : option A :=
  fold_left (λ found e, if String.eqb e.1 property then Some e.2 else found) l None.

Definition find_data (s : SortData) (property : string) : option DataList :=
  match find_last property (sortPropertyInt32DataList_ s) with
  | Some l => Some (Int32Data l)
  | None =>
  match find_last property (sortPropertyInt64DataList_ s) with
  | Some l => Some (Int64Data l)
  | None =>
  match find_last property (sortPropertyFloatDataList_ s) with
  | Some l => Some (FloatData l)
  | None =>
  match find_last property (sortPropertyDoubleDataList_ s) with
  | Some l => Some (DoubleData l)
  | None => StringData <$> find_last property (sortPropertyStrDataList_ s)
  end end end end.

Definition data_of (t : TopKPart) (s : SortData) (property : string) : option DataList :=
  if String.eqb property "RANK" then Some (FloatData (topKRankScoreList_ t))
  else if String.eqb property "CUSTOM_RANK" then Some (FloatData (topKCustomRankScoreList_ t))
  else if String.eqb property "GEO_DIST" then Some (FloatData (topKGeoDistanceList_ t))
  else find_data s property.

(** What the constructor does to the list of properties of the result. *)
Definition with_rank (s : SortData) : SortData :=
  match sortPropertyList_ s with
  | [] => Sort [("RANK"%string, false)] (sortPropertyInt32DataList_ s) (sortPropertyInt64DataList_ s) (sortPropertyFloatDataList_ s)
      (sortPropertyDoubleDataList_ s) (sortPropertyStrDataList_ s)
  | _ => s
  end.

Definition sort_property (t : TopKPart) (s : SortData) (p : string * bool) : option SortPropertyData :=
  d ← data_of t s p.1; if is_null d then None else Some (SortProperty p.1 p.2 d).

Definition DocumentComparator (t : TopKPart) (s : SortData) : list SortPropertyData :=
  omap (sort_property t (with_rank s)) (sortPropertyList_ (with_rank s)).

(** ** Comparing *)

(** The list read as an array of [float]s. *)
Definition float_at (d : DataList) (i : nat) : option float :=
  match d with
  | FloatData l => l !! i
  | DoubleData l => x ← l !! (i / 2)%nat; Some (half_of x i)
  | _ => None
  end.

Definition int_at (d : DataList) (i : nat) : option Z :=
  match d with Int32Data l | Int64Data l => l !! i | _ => None end.

Definition string_at (d : DataList) (i : nat) : option string :=
  match d with StringData l => l !! i | _ => None end.

(** [reverse] is that of the first property; [None] inside: the values are the same. *)
Definition directed {A} (same lt : A → A → bool) (reverse : bool) (x y : A) : option bool :=
  if same x y then None else Some (if reverse then lt x y else lt y x).

Definition f_same (x y : float) : bool := f_le (f_abs (f_sub x y)) f_epsilon.

(** [None]: a read out of range. *)
Definition compare_at (p1 p2 : SortPropertyData) (idx1 idx2 : nat) : option (option bool) :=
  match data_type (dataList_ p1) with
  | DATA_TYPE_INT32 | DATA_TYPE_INT64 =>
      v1 ← int_at (dataList_ p1) idx1; v2 ← int_at (dataList_ p2) idx2; Some (directed Z.eqb Z.ltb (reverse_ p1) v1 v2)
  | DATA_TYPE_FLOAT =>
      v1 ← float_at (dataList_ p1) idx1; v2 ← float_at (dataList_ p2) idx2; Some (directed f_same f_lt (reverse_ p1) v1 v2)
  | DATA_TYPE_STRING =>
      v1 ← string_at (dataList_ p1) idx1; v2 ← string_at (dataList_ p2) idx2; Some (directed String.eqb str_lt (reverse_ p1) v1 v2)
  end.

Fixpoint compare_all (l1 l2 : list SortPropertyData) (idx1 idx2 : nat) : option (option bool) :=
  match l1, l2 with
  | p1 :: l1, p2 :: l2 =>
      if decide (data_type (dataList_ p1) = data_type (dataList_ p2)) then
        r ← compare_at p1 p2 idx1 idx2;
        match r with
        | Some b => Some (Some b)
        | None => compare_all l1 l2 idx1 idx2
        end
      else compare_all l1 l2 idx1 idx2
  | _, _ => Some None
  end.

Section compare.
(** [net::aggregator::Util::IsNewerDocId], outside [src/]. *)
Context (IsNewerDocId : Z → Z → bool).

Definition greaterThan (comp1 : list SortPropertyData) (idx1 : nat) (left_docid : Z)
    (comp2 : list SortPropertyData) (idx2 : nat) (right_docid : Z) : option bool :=
  r ← compare_all comp1 comp2 idx1 idx2; Some (default (IsNewerDocId left_docid right_docid) r).
End compare.

(** ** The order of the documents

    Comparing property by property is a strict weak order when the workers send
    the same properties and two [float]s are taken for equal only when they are:
    a comparison with a tolerance is no order in general. *)

(** A comparison with ties: it is decided by an order. *)
Record cmp_ok {A} (P : A → Prop) (c : A → A → option bool) : Prop := {
  cmp_sym : ∀ x y, P x → P y → c y x = negb <$> c x y;
  cmp_swo : StrictWeakOn P (λ x y, default false (c x y)) }.

Definition lex {A} (c1 c2 : A → A → option bool) (x y : A) : option bool :=
  match c1 x y with Some b => Some b | None => c2 x y end.

Lemma cmp_tie {A} (P : A → Prop) : cmp_ok P (λ _ _ : A, None).
Proof. split; [done|]. by split. Qed.

Lemma cmp_ntrans {A} (P : A → Prop) c (x y z : A) : cmp_ok P c → P x → P y → P z → c x y ≠ Some true → c y z ≠ Some true →
  c x z ≠ Some true ∧ (c x z = None → c x y = None ∧ c y z = None).
Proof.
  intros [Hsym [_ Hn]] Hx Hy Hz Hxy Hyz. pose proof (Hn x y z Hx Hy Hz) as H1.
  pose proof (Hn z x y Hz Hx Hy) as H2. pose proof (Hn y z x Hy Hz Hx) as H3.
  rewrite (Hsym x y Hx Hy), (Hsym y z Hy Hz), (Hsym x z Hx Hz) in *.
  destruct (c x y) as [[]|], (c y z) as [[]|], (c x z) as [[]|]; simpl in *; naive_solver.
Qed.

Lemma cmp_lex {A} (P : A → Prop) (c1 c2 : A → A → option bool) : cmp_ok P c1 → cmp_ok P c2 → cmp_ok P (lex c1 c2).
Proof.
  intros H1 H2. assert (∀ x y, P x → P y → lex c1 c2 y x = negb <$> lex c1 c2 x y) as Hsym.
  { intros x y Hx Hy. unfold lex. rewrite (cmp_sym _ _ H1 x y Hx Hy). destruct (c1 x y); [done|]. simpl. by apply H2. }
  split; [done|]. split.
  - intros x y Hx Hy. rewrite (Hsym x y Hx Hy). by destruct (lex c1 c2 x y) as [[]|].
  - intros x y z Hx Hy Hz. unfold lex. intros Hxy Hyz.
    destruct (cmp_ntrans P c1 x y z H1 Hx Hy Hz) as [Hn1 Ht1].
    { intros E. by rewrite E in Hxy. }
    { intros E. by rewrite E in Hyz. }
    destruct (c1 x z) as [[]|]; [done|done|]. destruct (Ht1 eq_refl) as [E1 E2]. rewrite E1 in Hxy. rewrite E2 in Hyz.
    by apply (@swo_ntrans _ _ _ (cmp_swo _ _ H2) x y z).
Qed.

(** The last word goes to an order without ties. *)
Lemma cmp_default {A} (P : A → Prop) c (lt : A → A → bool) : cmp_ok P c → StrictWeakOn P lt →
  StrictWeakOn P (λ x y, default (lt x y) (c x y)).
Proof.
  intros Hc Hlt. split.
  - intros x y Hx Hy. rewrite (cmp_sym _ _ Hc x y Hx Hy). destruct (c x y) as [[]|]; try done. simpl. by apply swo_asym.
  - intros x y z Hx Hy Hz Hxy Hyz. destruct (cmp_ntrans P c x y z Hc Hx Hy Hz) as [Hn Ht].
    { intros E. by rewrite E in Hxy. }
    { intros E. by rewrite E in Hyz. }
    destruct (c x z) as [[]|]; [done|done|]. destruct (Ht eq_refl) as [E1 E2]. rewrite E1 in Hxy. rewrite E2 in Hyz.
    simpl in *. by apply (@swo_ntrans _ _ _ Hlt x y z).
Qed.

(** Values are compared by an order; equal are those the order does not tell
    apart. *)
Lemma cmp_directed {A V} (P : A → Prop) (Q : V → Prop) (f : A → V) same (lt : V → V → bool) reverse : StrictWeakOn Q lt →
  (∀ x, P x → Q (f x)) →
  (∀ x y, P x → P y → same (f x) (f y) = negb (lt (f x) (f y)) && negb (lt (f y) (f x))) →
  cmp_ok P (λ x y, directed same lt reverse (f x) (f y)).
Proof.
  intros Hlt Hf Hs. split.
  - intros x y Hx Hy. unfold directed. rewrite (Hs x y Hx Hy), (Hs y x Hy Hx).
    pose proof (@swo_asym _ _ _ Hlt (f x) (f y) (Hf x Hx) (Hf y Hy)) as Has.
    destruct (lt (f x) (f y)), (lt (f y) (f x)); simpl; try done; first [by specialize (Has eq_refl)|by destruct reverse].
  - assert (∀ x y, P x → P y → default false (directed same lt reverse (f x) (f y)) = if reverse then lt (f x) (f y) else lt (f y) (f x)) as E.
    { intros x y Hx Hy. unfold directed. rewrite (Hs x y Hx Hy).
      pose proof (@swo_asym _ _ _ Hlt (f x) (f y) (Hf x Hx) (Hf y Hy)) as Has.
      destruct (lt (f x) (f y)), (lt (f y) (f x)), reverse; try done; by specialize (Has eq_refl). }
    split.
    + intros x y Hx Hy. rewrite !E by done. destruct reverse; apply swo_asym; auto.
    + intros x y z Hx Hy Hz. rewrite !E by done. destruct reverse.
      * apply (@swo_ntrans _ _ _ Hlt); auto.
      * intros H1 H2. apply (@swo_ntrans _ _ _ Hlt (f z) (f y) (f x)); auto.
Qed.

(** *** Workers that send the same properties *)

Section columns.
(** The documents that may be compared, each a worker and a place in its list. *)
Context (valid : nat * nat → Prop).

Definition has_value (d : DataList) (i : nat) : Prop :=
  match data_type d with
  | DATA_TYPE_FLOAT => is_Some (float_at d i)
  | DATA_TYPE_STRING => is_Some (string_at d i)
  | _ => is_Some (int_at d i)
  end.

(** The lists of one property, by worker. *)
Record column_ok (ty : DataType) (rev : bool) (col : nat → SortPropertyData) : Prop := {
  col_type : ∀ p, valid p → data_type (dataList_ (col p.1)) = ty;
  col_rev : ∀ p, valid p → reverse_ (col p.1) = rev;
  col_data : ∀ p, valid p → has_value (dataList_ (col p.1)) p.2;
  col_num : ∀ p x, valid p → float_at (dataList_ (col p.1)) p.2 = Some x → d_num x;
  col_apart : ∀ p q x y, valid p → valid q → float_at (dataList_ (col p.1)) p.2 = Some x → float_at (dataList_ (col q.1)) q.2 = Some y →
    f_same x y = negb (f_lt x y) && negb (f_lt y x) }.

Inductive columns_ok : list (DataType * bool) → (nat → list SortPropertyData) → Prop :=
  | columns_nil comp : (∀ p, valid p → comp p.1 = []) → columns_ok [] comp
  | columns_cons ty rev schema comp col rest : (∀ p, valid p → comp p.1 = col p.1 :: rest p.1) →
      column_ok ty rev col → columns_ok schema rest → columns_ok ((ty, rev) :: schema) comp.

Definition at_or {V} (dflt : V) (at_ : DataList → nat → option V) (col : nat → SortPropertyData) (p : nat * nat) : V :=
  default dflt (at_ (dataList_ (col p.1)) p.2).

Lemma str_same x y : String.eqb x y = negb (str_lt x y) && negb (str_lt y x).
Proof.
  destruct (String.eqb_spec x y) as [->|Hne]; [by rewrite str_lt_irrefl|]. symmetry.
  destruct (str_lt x y) eqn:E1; [done|]. destruct (str_lt y x) eqn:E2; [done|]. by destruct Hne; apply str_lt_total.
Qed.

Lemma Z_same x y : Z.eqb x y = negb (Z.ltb x y) && negb (Z.ltb y x).
Proof. destruct (Z.eqb_spec x y), (Z.ltb_spec x y), (Z.ltb_spec y x); simpl; try done; lia. Qed.

Lemma compare_at_ok ty rev col : column_ok ty rev col →
  ∃ c, (∀ p q, valid p → valid q → compare_at (col p.1) (col q.1) p.2 q.2 = Some (c p q)) ∧ cmp_ok valid c.
Proof.
  intros [Hty Hrev Hdata Hnum Hapart]. destruct ty.
  1,2: exists (λ p q, directed Z.eqb Z.ltb rev (at_or 0 int_at col p) (at_or 0 int_at col q)).
  3: exists (λ p q, directed f_same f_lt rev (at_or f_zero float_at col p) (at_or f_zero float_at col q)).
  4: exists (λ p q, directed String.eqb str_lt rev (at_or ""%string string_at col p) (at_or ""%string string_at col q)).
  all: split; [intros p q Hp Hq; pose proof (Hdata p Hp) as Dp; pose proof (Hdata q Hq) as Dq; unfold has_value, compare_at, at_or in *;
    rewrite (Hty p Hp), (Hty q Hq), (Hrev p Hp) in *; destruct Dp as [v ->], Dq as [w ->]; done|].
  1,2: apply (cmp_directed valid (λ _, True)); [apply _|done|intros; apply Z_same].
  2: apply (cmp_directed valid (λ _, True)); [apply _|done|intros; apply str_same].
  assert (∀ p, valid p → float_at (dataList_ (col p.1)) p.2 = Some (at_or f_zero float_at col p)) as Hat.
  { intros p Hp. pose proof (Hdata p Hp) as D. unfold has_value, at_or in *. rewrite (Hty p Hp) in D. by destruct D as [v ->]. }
  apply (cmp_directed valid d_num); [apply d_lt_strict_weak| |].
  - intros p Hp. by apply (Hnum p _ Hp), Hat.
  - intros p q Hp Hq. apply (Hapart p q); auto.
Qed.

Lemma compare_all_ok schema comp : columns_ok schema comp →
  ∃ c, (∀ p q, valid p → valid q → compare_all (comp p.1) (comp q.1) p.2 q.2 = Some (c p q)) ∧ cmp_ok valid c.
Proof.
  induction 1 as [comp Hnil|ty rev schema comp col rest Hcons Hcol _ IH].
  - exists (λ _ _, None). split; [|apply cmp_tie]. intros p q Hp Hq. by rewrite (Hnil p Hp).
  - destruct (compare_at_ok ty rev col Hcol) as (c1 & E1 & H1). destruct IH as (c2 & E2 & H2).
    exists (lex c1 c2). split; [|by apply cmp_lex]. intros p q Hp Hq. rewrite (Hcons p Hp), (Hcons q Hq). cbn [compare_all].
    rewrite decide_True by by rewrite (col_type _ _ _ Hcol p Hp), (col_type _ _ _ Hcol q Hq).
    rewrite (E1 p q Hp Hq). cbn [mbind option_bind]. unfold lex. destruct (c1 p q); [done|]. by apply E2.
Qed.

(** *** [greaterThan] is an order *)
Lemma greaterThan_order IsNewerDocId schema comp (docid : nat * nat → Z) : columns_ok schema comp →
  StrictWeakOn (λ _, True) IsNewerDocId →
  ∃ gt, (∀ p q, valid p → valid q → greaterThan IsNewerDocId (comp p.1) p.2 (docid p) (comp q.1) q.2 (docid q) = Some (gt p q)) ∧
  StrictWeakOn valid gt.
Proof.
  intros Hc Hnew. destruct (compare_all_ok schema comp Hc) as (c & E & Hok).
  exists (λ p q, default (IsNewerDocId (docid p) (docid q)) (c p q)). split.
  - intros p q Hp Hq. unfold greaterThan. by rewrite (E p q Hp Hq).
  - apply (cmp_default valid c (λ p q, IsNewerDocId (docid p) (docid q))); [done|]. split.
    + intros x y _ _. by apply swo_asym.
    + intros x y z _ _ _. by apply (@swo_ntrans _ _ _ Hnew).
Qed.
End columns.
