(* ===== verification/SearchMerger.v ===== *)
(** * Merging the results of workers ([aggregator-manager/SearchMerger.cpp])

    One function per request.  A vector of worker results is a list of the
    worker's number and its result.  The merger writes to the results it is
    given: results with fewer matched tokens are emptied, counts may be taken
    over instead of copied, and an empty list of sort properties becomes the
    rank; [getDistSearchResult] returns the results it leaves behind, too.
    Reading a vector out of range is [None].

    Outside [src/] and parameters: the text of a property, the frequency of a
    term with its addition, [Util::GetWDocId] and [Util::IsNewerDocId] and
    [Utilities::roundDown]. *)
From S2P Require Import Prelude CNum PriorityQueue QueueSpec GroupRep GroupMerge OntologyMerge SearchResult MergeComparator.

(** A document of a worker: which worker, and the place in its list. *)
Abbreviation Position := (nat * nat)%type.

Section merger.
Context {U S F : Type} `{TextLt U}.
Context {Q : Type} `{!PQOps (U * double) Q}.
Context (no_text : S) (f_add : F → F → F) (f_none : F).
Context (GetWDocId : Z → Z → Z) (IsNewerDocId : Z → Z → bool) (roundDown : nat → Z → nat).

Notation Result_ := (KeywordSearchResult U S F).
Notation DistInfo_ := (DistKeywordSearchInfo F).

(** ** Group labels with scores *)

Definition IsGreaterGPScoreInfo (left right : GroupPathScoreInfo) : bool :=
  if d_le (d_abs (d_sub (path_score left) (path_score right))) d_epsilon then IsNewerDocId (path_wdocid left) (path_wdocid right)
  else d_gt (path_score left) (path_score right).

Definition IsGreaterGroup (left right : list string * GroupPathScoreInfo) : bool := IsGreaterGPScoreInfo left.2 right.2.

(** The document of the score is that of the worker. *)
Definition from_worker (wid : Z) (info : GroupPathScoreInfo) : GroupPathScoreInfo :=
  PathScore (path_score info) (GetWDocId wid (u32 (path_wdocid info))).

(** The first path that is the same keeps the greater score. *)
Fixpoint merge_path (path : list string) (tmp : GroupPathScoreInfo) (merged : GroupPathScoreVec) : GroupPathScoreVec :=
  match merged with
  | [] => [(path, tmp)]
  | (p, info) :: merged' =>
      if decide (path = p) then (p, if IsGreaterGPScoreInfo tmp info then tmp else info) :: merged'
      else (p, info) :: merge_path path tmp merged'
  end.

Definition merge_paths (wid : Z) (mergeto : option GroupPathScoreVec) (from : GroupPathScoreVec) : GroupPathScoreVec :=
  std_sort IsGreaterGroup
    match mergeto with
    | None => map (λ e, (e.1, from_worker wid e.2)) from
    | Some merged => fold_left (λ m e, merge_path e.1 (from_worker wid e.2) m) from merged
    end.

(** The properties are independent of each other. *)
Definition mergeScoreGroupLabel (mergeto from : GroupLabelScoreMap) (from_workerid : Z) : GroupLabelScoreMap :=
  base.merge (λ m f, match f with None => m | Some l => Some (merge_paths from_workerid m l) end) mergeto from.

(** ** Frequencies of terms *)

Definition add_freq (m : gmap Z F) (w : gmap Z F) : gmap Z F :=
  base.merge (λ x y, match y with None => x | Some y => Some (f_add (default f_none x) y) end) m w.

Definition add_freqs (m w : FreqMap F) : FreqMap F :=
  base.merge (λ x y, match y with
                | None => x
                | Some y => if decide (y = ∅) then x else Some (add_freq (default ∅ x) y)
                end) m w.

Definition getDistSearchInfo (workers : list (Z * DistInfo_)) (mergeResult : DistInfo_) : DistInfo_ :=
  fold_left (λ m w, DistInfo (isDistributed_ m) (effective_ m) (include_summary_data_ m) (option_ m) (nodeType_ m)
      (add_freqs (dfmap_ m) (dfmap_ w.2)) (add_freqs (ctfmap_ m) (ctfmap_ w.2)) (add_freqs (maxtfmap_ m) (maxtfmap_ w.2))
      (sortData m) (majorTokenNum_ m))
    workers mergeResult.

(** ** Results with fewer matched tokens *)

Definition emptyWorkerResult (r : Result_) : Result_ :=
  let d := distSearchInfo_ r in
  Result (errno_ r) (error_ r) (query r)
    (DistInfo (isDistributed_ d) (effective_ d) (include_summary_data_ d) (option_ d) (nodeType_ d) ∅ ∅ ∅ sort_new (majorTokenNum_ d))
    (TopK [] [] [] [] [] [])
    (Page (start_ (page r)) (count_ (page r)) [] [])
    (Texts (map (λ _, []) (fullTextOfDocumentInPage_ (texts r))) (map (λ _, []) (snippetTextOfDocumentInPage_ (texts r)))
       (map (λ _, []) (rawTextOfSummaryInPage_ (texts r))))
    (Counts 0 ∅ (propertyRange_ (counts r)) rep_new [] ∅)
    (Mining (adCachedTopKDocs_ (mining r)) (numberOfDuplicatedDocs_ (mining r)) (numberOfSimilarDocs_ (mining r))
       (docCategories_ (mining r)) [] [] (timeStamp_ (mining r)))
    (TOP_K_NUM r).

Definition token_num (w : Z * Result_) : Z := majorTokenNum_ (distSearchInfo_ w.2).

Definition largest_token_num (first : Z) (rest : list (Z * Result_)) : Z :=
  fold_left (λ m w, if m <? token_num w then token_num w else m) rest first.

Definition keep_largest (workers : list (Z * Result_)) : list (Z * Result_) :=
  match workers with
  | [] => []
  | w0 :: rest =>
      let largest := largest_token_num (token_num w0) rest in
      map (λ w, if token_num w <? largest then (w.1, emptyWorkerResult w.2) else w) workers
  end.

(** ** Totals *)

(** What the loop over the workers adds up. *)
Record Totals := Total {
  t_totalTopKCount : nat;
  t_hasCustomRankScore : bool;
  t_hasGeoDistance : bool;
  t_range : PropertyRange;
  t_need_get_docs : bool;
  t_counts : CountPart U }.

Definition widen (range r : PropertyRange) : PropertyRange :=
  Range (if f_lt (highValue_ range) (highValue_ r) then highValue_ r else highValue_ range)
    (if f_lt (lowValue_ r) (lowValue_ range) then lowValue_ r else lowValue_ range).


(** [counterResults_[name] += count] *)
Definition add_counters (m w : gmap string Z) : gmap string Z :=
  base.merge (λ x y, match y with None => x | Some y => Some (u32 (default 0 x + y)) end) m w.

(** The counts of the worker may be taken away. *)
Definition add_worker (st : Totals * list (Z * Result_)) (w : Z * Result_) : option (Totals * list (Z * Result_)) :=
  let '(t, seen) := st in
  let c := t_counts t in
  let r := w.2 in
  '(groups, remaining) ← GroupMerge.merge (groupRep_ c) (groupRep_ (counts r));
  let c' := Counts (u64 (totalCount_ c + totalCount_ (counts r))) (add_counters (counterResults_ c) (counterResults_ (counts r)))
    (propertyRange_ c) groups (attrRep_ c)
    (mergeScoreGroupLabel (autoSelectGroupLabels_ c) (autoSelectGroupLabels_ (counts r)) w.1) in
  let left_over := Counts (totalCount_ (counts r)) (counterResults_ (counts r)) (propertyRange_ (counts r)) remaining (attrRep_ (counts r))
    (autoSelectGroupLabels_ (counts r)) in
  Some (Total (t_totalTopKCount t + length (topKDocs_ (topK r)))
          (t_hasCustomRankScore t || negb (is_nil (topKCustomRankScoreList_ (topK r))))
          (t_hasGeoDistance t || negb (is_nil (topKGeoDistanceList_ (topK r))))
          (widen (t_range t) (propertyRange_ (counts r)))
          (t_need_get_docs t || negb (include_summary_data_ (distSearchInfo_ r))) c',
        seen ++ [(w.1, set_counts left_over r)]).

(** ** Merging the documents *)

Section topk.
Context (workers : list (Z * Result_)) (comps : list (list SortPropertyData)).

Definition wdocid_at (p : Position) : option Z :=
  w ← workers !! p.1; d ← topKDocs_ (topK w.2) !! p.2; Some (GetWDocId w.1 d).

Definition position_gt (p q : Position) : option bool :=
  comp1 ← comps !! p.1; comp2 ← comps !! q.1;
  left_docid ← wdocid_at p; right_docid ← wdocid_at q;
  greaterThan IsNewerDocId comp1 p.2 left_docid comp2 q.2 right_docid.

(** One round of the loop over the heads; [None] inside: no head yet. *)
Definition better_head (iter : list nat) (maxi : option nat) (i : nat) : option (option nat) :=
  w ← workers !! i; pos ← iter !! i;
  if (length (topKDocs_ (topK w.2)) <=? pos)%nat then Some maxi
  else match maxi with
       | None => Some (Some i)
       | Some m => mpos ← iter !! m; b ← position_gt (i, pos) (m, mpos); Some (Some (if (b : bool) then i else m))
       end.

Definition best_head (iter : list nat) : option (option nat) := foldM (better_head iter) None (seq 0 (length workers)).

(** The positions in the order of the merged list. *)
Fixpoint merge_heads (n : nat) (iter : list nat) : option (list Position) :=
  match n with
  | O => Some []
  | Datatypes.S n =>
      best ← best_head iter;
      match best with
      | None => Some []
      | Some m =>
          pos ← iter !! m;
          iter ← wr m (pos + 1)%nat iter;
          rest ← merge_heads n iter;
          Some ((m, pos) :: rest)
      end
  end.

(** The scores a worker may not have. *)
Definition write_optional (cnt i : nat) (from to : list float) : option (list float) :=
  match from with [] => Some to | _ => x ← from !! i; wr cnt x to end.

(** The document at a position, written to place [cnt] of the lists. *)
Definition write_merged (t : TopKPart) (e : nat * Position) : option TopKPart :=
  let '(cnt, p) := e in
  w ← workers !! p.1;
  d ← topKDocs_ (topK w.2) !! p.2;
  docs ← wr cnt d (topKDocs_ t);
  ids ← wr cnt w.1 (topKWorkerIds_ t);
  score ← topKRankScoreList_ (topK w.2) !! p.2;
  scores ← wr cnt score (topKRankScoreList_ t);
  custom ← write_optional cnt p.2 (topKCustomRankScoreList_ (topK w.2)) (topKCustomRankScoreList_ t);
  geo ← write_optional cnt p.2 (topKGeoDistanceList_ (topK w.2)) (topKGeoDistanceList_ t);
  Some (TopK docs ids (topKtids_ t) scores custom geo).
End topk.

(** ** The texts that came with the results *)

Definition text_at (texts : list (list S)) (dis offset : nat) (old : S) : S :=
  match texts !! dis with
  | Some l => default old (l !! offset)
  | None => old
  end.

(** [result[dis][i] = worker[dis][offset]] where the worker has it. *)
Definition copy_text (from : list (list S)) (dis offset i : nat) (to : list (list S)) : list (list S) :=
  alter (λ l, alter (text_at from dis offset) i l) dis to.

Definition copy_texts (from : TextPart S) (displayPropertyNum isSummaryOn offset i : nat) (to : TextPart S) : TextPart S :=
  Texts (fold_left (λ t dis, copy_text (fullTextOfDocumentInPage_ from) dis offset i t) (seq 0 displayPropertyNum) (fullTextOfDocumentInPage_ to))
    (fold_left (λ t dis, copy_text (snippetTextOfDocumentInPage_ from) dis offset i t) (seq 0 displayPropertyNum) (snippetTextOfDocumentInPage_ to))
    (fold_left (λ t dis, copy_text (rawTextOfSummaryInPage_ from) dis offset i t) (seq 0 isSummaryOn) (rawTextOfSummaryInPage_ to)).

Definition blank_texts (displayPropertyNum isSummaryOn pageCount : nat) : TextPart S :=
  Texts (replicate displayPropertyNum (replicate pageCount no_text)) (replicate displayPropertyNum (replicate pageCount no_text))
    (replicate isSummaryOn (replicate pageCount no_text)).

(** The sizes are those of the first worker. *)
Definition displayPropertyNum_of (workers : list (Z * Result_)) : option nat :=
  w ← head workers; Some (length (snippetTextOfDocumentInPage_ (texts w.2))).
Definition isSummaryOn_of (workers : list (Z * Result_)) : option nat :=
  w ← head workers; Some (length (rawTextOfSummaryInPage_ (texts w.2))).

(** [pageOffsetInWorker] has a place for every document of the merged list. *)
Definition page_texts (workers : list (Z * Result_)) (positions : list Position) (start count topKSize : nat) : option (TextPart S) :=
  let pageCount := if (start <? topKSize)%nat then Nat.min count (topKSize - start) else O in
  dnum ← displayPropertyNum_of workers; snum ← isSummaryOn_of workers;
  let pageEnd := Nat.min topKSize (start + pageCount) in
  foldM (λ t topkIndex,
      p ← positions !! topkIndex; w ← workers !! (p : Position).1;
      Some (copy_texts (texts w.2) dnum snum p.2 (topkIndex - start) t))
    (blank_texts dnum snum pageCount) (seq start (pageEnd - start)).

(** ** The whole result *)

Definition no_error (e : string) : bool := String.eqb e "".

Definition first_failure (workers : list (Z * Result_)) : option string :=
  head (filter (λ e, no_error e = false) (map (λ w, error_ w.2) workers)).

Definition merge_basic (r0 m : Result_) : Result_ :=
  let q := query r0 in
  let d := distSearchInfo_ m in
  let c := counts m in
  Result (errno_ m) (error_ m)
    (Query (rawQueryString_ q) (pruneQueryString_ (query m)) (encodingType_ q) (collectionName_ q) (analyzedQuery_ q) (queryTermIdList_ q)
       (propertyQueryTermList_ q))
    (DistInfo (isDistributed_ (distSearchInfo_ r0)) (effective_ d) (include_summary_data_ d) (option_ d) (nodeType_ d) (dfmap_ d) (ctfmap_ d)
       (maxtfmap_ d) (sortData d) (majorTokenNum_ d))
    (topK m)
    (Page (start_ (page r0)) (count_ (page r0)) (docsInPage_ (page m)) (pageOffsetList_ (page m)))
    (texts m)
    (Counts 0 (counterResults_ c) (propertyRange_ c) (groupRep_ c) (attrRep_ c) (autoSelectGroupLabels_ c))
    (mining m) (TOP_K_NUM r0).

Definition resize_lists (n : nat) (custom geo : bool) (t : TopKPart) : TopKPart :=
  TopK (resize n 0 (topKDocs_ t)) (resize n 0 (topKWorkerIds_ t)) (topKtids_ t) (resize n f_zero (topKRankScoreList_ t))
    (if custom then resize n f_zero (topKCustomRankScoreList_ t) else topKCustomRankScoreList_ t)
    (if geo then resize n f_zero (topKGeoDistanceList_ t) else topKGeoDistanceList_ t).

(** How many documents the merged list has; the cast of a negative [TOP_K_NUM]
    is a large number. *)
Definition top_count (start : nat) (top_k_num : Z) (totalTopKCount : nat) : nat :=
  let topKStart := roundDown start top_k_num in
  Nat.min (Z.to_nat (u64 top_k_num)) (if (topKStart <? totalTopKCount)%nat then (totalTopKCount - topKStart)%nat else O).

(** Building the comparators gives an empty list of properties the rank. *)
Definition with_rank_property (r : Result_) : Result_ :=
  let d := distSearchInfo_ r in
  set_dist (DistInfo (isDistributed_ d) (effective_ d) (include_summary_data_ d) (option_ d) (nodeType_ d) (dfmap_ d) (ctfmap_ d)
    (maxtfmap_ d) (with_rank (sortData d)) (majorTokenNum_ d)) r.

Definition comparators (workers : list (Z * Result_)) : list (list SortPropertyData) :=
  map (λ w : Z * Result_, DocumentComparator (topK w.2) (sortData (distSearchInfo_ w.2))) workers.

(** The documents: their positions and the lists. *)
Definition merge_topk (workers : list (Z * Result_)) (n : nat) (custom geo : bool) (t : TopKPart) : option (list Position * TopKPart) :=
  positions ← merge_heads workers (comparators workers) n (map (λ _, O) workers);
  t ← foldM (write_merged workers) (resize_lists n custom geo t) (imap (λ i p, (i, p)) positions);
  Some (positions, t).

(** The counts of all workers; a log line reads the labels of [Category], which
    inserts an empty list. *)
Definition merge_counts (workers : list (Z * Result_)) (c : CountPart U) : option (Totals * list (Z * Result_)) :=
  r0 ← head workers;
  let c := Counts (totalCount_ c) (counterResults_ c) (propertyRange_ c) (groupRep_ c) (attrRep_ (counts r0.2)) (autoSelectGroupLabels_ c) in
  '(t, seen) ← foldM add_worker (Total 0 false false (Range f_min f_max) false c, []) workers;
  attrs ← attr_merge 0 (attrRep_ (counts r0.2)) (map (λ w : Z * Result_, attrRep_ (counts w.2)) (tail workers));
  let c := t_counts t in
  let labels := autoSelectGroupLabels_ c in
  Some (Total (t_totalTopKCount t) (t_hasCustomRankScore t) (t_hasGeoDistance t) (t_range t) (t_need_get_docs t)
          (Counts (totalCount_ c) (counterResults_ c) (t_range t) (groupRep_ c) attrs (<["Category"%string := default [] (labels !! "Category"%string)]> labels)),
        seen).

Definition merge_many (workers : list (Z * Result_)) (m : Result_) : option (list (Z * Result_) * Result_) :=
  r0 ← head workers;
  let m := merge_basic r0.2 m in
  let workers := keep_largest workers in
  '(t, workers) ← merge_counts workers (counts m);
  let m := set_counts (t_counts t) m in
  let topKCount := top_count (start_ (page m)) (TOP_K_NUM m) (t_totalTopKCount t) in
  '(positions, top) ← merge_topk workers topKCount (t_hasCustomRankScore t) (t_hasGeoDistance t) (topK m);
  let workers := map (λ w : Z * Result_, (w.1, with_rank_property w.2)) workers in
  let d := distSearchInfo_ m in
  let m := set_topK top (set_dist (DistInfo (isDistributed_ d) (effective_ d) (negb (t_need_get_docs t)) (option_ d) (nodeType_ d) (dfmap_ d)
    (ctfmap_ d) (maxtfmap_ d) (sortData d) (majorTokenNum_ d)) m) in
  if t_need_get_docs t then Some (workers, m)
  else
    txt ← page_texts workers (resize topKCount (O, O) positions) (start_ (page m)) (count_ (page m)) (length (topKDocs_ top));
    Some (workers, set_texts txt m).

Definition getDistSearchResult (workers : list (Z * Result_)) (mergeResult : Result_) : option (list (Z * Result_) * Result_) :=
  match workers with
  | [] => Some (workers, set_error "empty worker." mergeResult)
  | _ =>
      match first_failure workers with
      | Some e => Some (workers, set_error e mergeResult)
      | None =>
          match workers with
          | [(wid, r)] =>
              let t := topK r in
              Some (workers, set_topK (TopK (topKDocs_ t) (resize (length (topKDocs_ t)) wid (topKWorkerIds_ t)) (topKtids_ t)
                (topKRankScoreList_ t) (topKCustomRankScoreList_ t) (topKGeoDistanceList_ t)) r)
          | _ => merge_many workers mergeResult
          end
      end
  end.

(** ** The texts of a page, asked for separately *)

(** The worker whose next text is that of the document at [i]. *)
Definition worker_of (workers : list (Z * Result_)) (workerOffsetVec : list nat) (i : nat) : option (nat * nat) :=
  head (omap (λ e : nat * ((Z * Result_) * nat),
      if decide (pageOffsetList_ (page e.2.1.2) !! e.2.2 = Some i) then Some (e.1, e.2.2) else None)
    (imap (λ k e, (k, e)) (zip workers workerOffsetVec))).

Fixpoint summary_loop (workers : list (Z * Result_)) (dnum snum : nat) (idx : list nat) (offsets : list nat) (t : TextPart S)
    : option (TextPart S) :=
  match idx with
  | [] => Some t
  | i :: idx =>
      match worker_of workers offsets i with
      | None => Some t
      | Some (k, offset) =>
          w ← workers !! k;
          summary_loop workers dnum snum idx (<[k := Datatypes.S offset]> offsets) (copy_texts (texts w.2) dnum snum offset i t)
      end
  end.

Definition getSummaryResult (workers : list (Z * Result_)) (mergeResult : Result_) : option Result_ :=
  match workers with
  | [] => Some mergeResult
  | _ =>
      match first_failure workers with
      | Some e => Some (set_error e mergeResult)
      | None =>
          dnum ← displayPropertyNum_of workers; snum ← isSummaryOn_of workers;
          let pageCount := count_ (page mergeResult) in
          t ← summary_loop workers dnum snum (seq 0 pageCount) (map (λ _, O) workers) (blank_texts dnum snum pageCount);
          Some (set_texts t mergeResult)
      end
  end.

Definition getSummaryMiningResult : list (Z * Result_) → Result_ → option Result_ := getSummaryResult.
End merger.
