(* ===== verification/SearchSplit.v ===== *)
(** * Splitting a request over workers, and the smaller merges
    ([aggregator-manager/SearchMerger.cpp])

    The documents of the page that is shown are asked for from the workers that
    have them: [splitSearchResultByWorkerid] makes one request per worker, with
    the place on the page of each document.  [std::map]s by worker are sorted
    lists, since the requests are sent in their order. *)
From S2P Require Import Prelude CNum OrderedMap GroupRep SearchResult.

Section split.
Context {U S F : Type} (utf8 : Z) (no_text : U).
Context (GetWDocId : Z → Z → Z).
Notation Result_ := (KeywordSearchResult U S F).

(** ** The page *)

(** The result a worker is asked to complete, when its first document is met. *)
Definition worker_request (total : Result_) : Result_ :=
  let q := query total in
  let r : Result_ := result_new utf8 no_text in
  Result (errno_ r) (error_ r)
    (Query (rawQueryString_ q) "" (encodingType_ q) (collectionName_ q) no_text [] (propertyQueryTermList_ q))
    (DistInfo (isDistributed_ (distSearchInfo_ total)) false false OPTION_NONE NODE_MASTER ∅ ∅ ∅ sort_new 0)
    (topK r) (page r) (texts r) (counts r) (mining r) (TOP_K_NUM total).

Definition add_document (doc : Z) (i : nat) (r : Result_) : Result_ :=
  let p := page r in
  set_page (Page (start_ p) (count_ p + 1) (docsInPage_ p ++ [doc]) (pageOffsetList_ p ++ [i])) r.

Definition split_one (total : Result_) (st : list (Z * Result_) * nat) (topstart : nat) : option (list (Z * Result_) * nat) :=
  let '(resultMap, i) := st in
  curWorkerId ← topKWorkerIds_ (topK total) !! topstart;
  doc ← topKDocs_ (topK total) !! topstart;
  Some (om_update Z.ltb (λ o, add_document doc i (default (worker_request total) o)) curWorkerId resultMap, Datatypes.S i).

(** [start % TOP_K_NUM] in [size_t]. *)
Definition start_in_page (total : Result_) : nat :=
  Z.to_nat (Z.of_nat (start_ (page total)) `mod` u64 (TOP_K_NUM total)).

Definition page_end (total : Result_) : nat :=
  Nat.min (length (topKDocs_ (topK total))) (start_in_page total + count_ (page total)).

Definition splitSearchResultByWorkerid (total : Result_) (resultMap : list (Z * Result_)) : option (list (Z * Result_)) :=
  if (TOP_K_NUM total =? 0) || (length (topKDocs_ (topK total)) =? 0)%nat then Some resultMap
  else
    '(m, _) ← foldM (split_one total) (resultMap, O) (seq (start_in_page total) (page_end total - start_in_page total));
    Some m.

(** ** Documents by number *)

(** [None]: a list of texts shorter than the list of documents, or more
    properties than the first worker with a document has. *)
Definition push_texts (from : list (list S)) (i : nat) (props : nat) (to : list (list S)) : option (list (list S)) :=
  foldM (λ to p, l ← from !! p; x ← l !! i; old ← to !! p; Some (<[p := old ++ [x]]> to)) to (seq 0 props).

Definition add_raw (wid : Z) (r : RawTextResult S) (m : RawTextResult S) (i : nat) : option (RawTextResult S) :=
  let fits := raw_texts r in
  let t := raw_texts m in
  let t := match idList_ m with
           | [] => Texts (resize (length (fullTextOfDocumentInPage_ fits)) [] (fullTextOfDocumentInPage_ t))
                     (resize (length (fullTextOfDocumentInPage_ fits)) [] (snippetTextOfDocumentInPage_ t))
                     (resize (length (rawTextOfSummaryInPage_ fits)) [] (rawTextOfSummaryInPage_ t))
           | _ => t
           end in
  id ← idList_ r !! i;
  let props := length (fullTextOfDocumentInPage_ fits) in
  full ← push_texts (fullTextOfDocumentInPage_ fits) i props (fullTextOfDocumentInPage_ t);
  snippet ← push_texts (snippetTextOfDocumentInPage_ fits) i props (snippetTextOfDocumentInPage_ t);
  summary ← push_texts (rawTextOfSummaryInPage_ fits) i (length (rawTextOfSummaryInPage_ fits)) (rawTextOfSummaryInPage_ t);
  Some (RawText (raw_errno m) (raw_error m) (Texts full snippet summary) (idList_ m ++ [id]) (workeridList_ m ++ [wid])).

Definition raw_failure (workers : list (Z * RawTextResult S)) : option string :=
  head (filter (λ e, String.eqb e "" = false) (map (λ w, raw_error w.2) workers)).

Definition set_raw_error (e : string) (m : RawTextResult S) : RawTextResult S :=
  RawText (raw_errno m) e (raw_texts m) (idList_ m) (workeridList_ m).

Definition getDocumentsByIds (workers : list (Z * RawTextResult S)) (m : RawTextResult S) : option (RawTextResult S) :=
  match workers with
  | [] => Some (set_raw_error "empty worker result." m)
  | _ =>
      match raw_failure workers with
      | Some e => Some (set_raw_error e m)
      | None =>
          match workers with
          | [(wid, r)] => Some (RawText (raw_errno r) (raw_error r) (raw_texts r) (idList_ r) (resize (length (idList_ r)) wid (workeridList_ r)))
          | _ =>
              foldM (λ m (w : Z * RawTextResult S), foldM (add_raw w.1 w.2) m (seq 0 (length (idList_ w.2))))
                (RawText (raw_errno m) (raw_error m) (raw_texts m) [] (workeridList_ m)) workers
          end
      end
  end.

(** ** One number, or one answer *)

(** The first worker that knows the document. *)
Fixpoint getInternalDocumentId (workers : list (Z * Z)) : Z :=
  match workers with
  | [] => 0
  | (wid, r) :: workers => if negb (r =? 0) then GetWDocId wid (u32 r) else getInternalDocumentId workers
  end.

Definition clickGroupLabel (workers : list (Z * bool)) : bool := existsb snd workers.
Definition HookDistributeRequestForSearch (workers : list (Z * bool)) : bool := forallb snd workers.

Definition getDistDocNum (workers : list (Z * Z)) : Z := fold_left (λ m w, u32 (m + w.2)) workers 0.
Definition getDistKeyCount (workers : list (Z * Z)) : Z := fold_left (λ m w, u32 (m + w.2)) workers 0.
End split.
