(* ===== verification/TopKMerge.v ===== *)
(** * The merged list of documents ([aggregator-manager/SearchMerger.cpp])

    The loop that takes the best of the heads of several sorted lists returns
    the documents in order, as many as asked for, and none that it leaves out
    comes before one it took.  The order is that of [greaterThan]. *)
From S2P Require Import Prelude CNum GroupRep SearchResult MergeComparator SearchMerger.

(** ** What is left of several lists *)

(** The positions of list [i] from [pos] on. *)
Definition left_in (i : nat) (e : nat * nat) : list Position := map (λ j, (i, j)) (seq e.2 (e.1 - e.2)).

Definition left_over (sizes iter : list nat) : list Position := concat (imap left_in (zip sizes iter)).

Lemma concat_imap_step {A B} (f : nat → A → list B) (y : B) l : ∀ m x x', l !! m = Some x → f m x = y :: f m x' →
  concat (imap f l) ≡ₚ y :: concat (imap f (<[m := x']> l)).
Proof.
  revert f. induction l as [|a l IH]; intros f m x x' Hm Hf; [done|]. destruct m as [|m]; simpl.
  - injection Hm as ->. by rewrite Hf.
  - rewrite (IH (f ∘ Datatypes.S) m x x' Hm Hf). symmetry. apply Permutation_middle.
Qed.

Lemma zip_insert_r {A B} (l : list A) (k : list B) m x y : l !! m = Some x → <[m := (x, y)]> (zip l k) = zip l (<[m := y]> k).
Proof.
  revert k m. induction l as [|a l IH]; intros k m Hm; [done|]. destruct k as [|b k]; [by destruct m|].
  destruct m as [|m]; simpl in *; [by injection Hm as ->|]. f_equal. by apply IH.
Qed.

Lemma left_over_step sizes iter m n pos : sizes !! m = Some n → iter !! m = Some pos → (pos < n)%nat →
  left_over sizes iter ≡ₚ (m, pos) :: left_over sizes (<[m := (pos + 1)%nat]> iter).
Proof.
  intros Hn Hp Hlt. unfold left_over. rewrite <- (zip_insert_r sizes iter m n) by done.
  apply (concat_imap_step left_in (m, pos) _ m (n, pos)).
  - rewrite lookup_zip_with, Hn, Hp. done.
  - unfold left_in. simpl. replace (n - pos)%nat with (S (n - (pos + 1))) by lia. simpl. by rewrite Nat.add_1_r.
Qed.

Lemma elem_of_concat_imap {A B} (f : nat → A → list B) y l : y ∈ concat (imap f l) ↔ ∃ i x, l !! i = Some x ∧ y ∈ f i x.
Proof.
  revert f. induction l as [|a l IH]; intros f; simpl.
  - split; [by intros ?%elem_of_nil|by intros (i & x & ? & _)].
  - rewrite elem_of_app, IH. split.
    + intros [Hy|(i & x & Hx & Hy)]; [by exists O, a|by exists (S i), x].
    + intros ([|i] & x & Hx & Hy); [left; by injection Hx as ->|right; by exists i, x].
Qed.

Lemma elem_of_left_over sizes iter p : p ∈ left_over sizes iter ↔
  ∃ n pos, sizes !! p.1 = Some n ∧ iter !! p.1 = Some pos ∧ (pos ≤ p.2 < n)%nat.
Proof.
  unfold left_over. rewrite elem_of_concat_imap. split.
  - intros (i & [n pos] & Hx & Hp). rewrite lookup_zip_with in Hx.
    destruct (sizes !! i) eqn:En; [|done]. destruct (iter !! i) eqn:Ep; [|done]. injection Hx as -> ->.
    unfold left_in in Hp. apply list_elem_of_fmap in Hp as (j & -> & Hj). apply elem_of_seq in Hj. simpl in *.
    exists n, pos. split_and!; try done; lia.
  - intros (n & pos & Hn & Hp & Hlt). exists p.1, (n, pos). split; [by rewrite lookup_zip_with, Hn, Hp|].
    unfold left_in. apply list_elem_of_fmap. exists p.2. split; [by destruct p|]. apply elem_of_seq. simpl. lia.
Qed.

(** ** Taking the best head *)

Section merge.
Context {U S F : Type}.
Context (GetWDocId : Z → Z → Z) (IsNewerDocId : Z → Z → bool).
Context (workers : list (Z * KeywordSearchResult U S F)).

Definition docs_at (i : nat) : list Z := match workers !! i with Some w => topKDocs_ (topK w.2) | None => [] end.
Definition sizes : list nat := map (λ w, length (topKDocs_ (topK w.2))) workers.

(** A document of a worker. *)
Definition valid (p : Position) : Prop := (p.2 < length (docs_at p.1))%nat.

Lemma sizes_lookup i : sizes !! i = (λ w, length (topKDocs_ (topK w.2))) <$> workers !! i.
Proof. unfold sizes. apply list_lookup_fmap. Qed.

Lemma valid_size p : valid p ↔ ∃ n, sizes !! p.1 = Some n ∧ (p.2 < n)%nat.
Proof.
  unfold valid, docs_at. rewrite sizes_lookup. destruct (workers !! p.1) as [w|]; simpl; [|split; [lia|by intros (? & ? & _)]].
  split; [eauto|]. by intros (n & [= <-] & ?).
Qed.

Context (comps : list (list SortPropertyData)) (gt : Position → Position → bool).
Notation position_gt := (position_gt GetWDocId IsNewerDocId workers comps).
Notation best_head := (best_head GetWDocId IsNewerDocId workers comps).
Notation better_head := (better_head GetWDocId IsNewerDocId workers comps).
Notation merge_heads := (merge_heads GetWDocId IsNewerDocId workers comps).

Context (Hgt : ∀ p q, valid p → valid q → position_gt p q = Some (gt p q)).
Context `{!StrictWeakOn valid gt}.
(** The list of every worker is sorted. *)
Context (Hsorted : ∀ i j j', (j ≤ j')%nat → valid (i, j') → gt (i, j') (i, j) = false).

(** A list that is not used up has a head. *)
Definition heads (iter : list nat) (i : nat) : Prop := ∃ pos, iter !! i = Some pos ∧ valid (i, pos).

Definition is_best (iter : list nat) (among : list nat) (best : option nat) : Prop :=
  match best with
  | None => ∀ i, i ∈ among → ¬ heads iter i
  | Some m => ∃ mpos, iter !! m = Some mpos ∧ valid (m, mpos) ∧
      ∀ i pos, i ∈ among → iter !! i = Some pos → valid (i, pos) → gt (i, pos) (m, mpos) = false
  end.

Lemma better_head_ok iter pre best i : length iter = length workers → (i < length workers)%nat → is_best iter pre best →
  ∃ best', better_head iter best i = Some best' ∧ is_best iter (pre ++ [i]) best'.
Proof.
  intros Hlen Hi Hb. destruct (lookup_lt_is_Some_2 workers i Hi) as [w Hw].
  destruct (lookup_lt_is_Some_2 iter i ltac:(lia)) as [pos Hpos].
  assert (valid (i, pos) ↔ (pos < length (topKDocs_ (topK w.2)))%nat) as Hv.
  { rewrite valid_size, sizes_lookup. simpl. rewrite Hw. simpl. split; [by intros (n & [= <-] & ?)|eauto]. }
  unfold better_head. rewrite Hw, Hpos. cbn [mbind option_bind].
  destruct (Nat.leb_spec (length (topKDocs_ (topK w.2))) pos) as [Hle|Hlt].
  { exists best. split; [done|]. destruct best as [m|]; simpl in *.
    - destruct Hb as (mpos & Hm & Hmv & Hbest). exists mpos. split_and!; [done|done|].
      intros k kpos [Hk|Hk]%elem_of_app Hkp Hkv; [by apply Hbest|]. apply list_elem_of_singleton in Hk as ->.
      rewrite Hpos in Hkp. injection Hkp as <-. apply Hv in Hkv. lia.
    - intros k [Hk|Hk]%elem_of_app; [by apply Hb|]. apply list_elem_of_singleton in Hk as ->. intros (kpos & Hkp & Hkv).
      rewrite Hpos in Hkp. injection Hkp as <-. apply Hv in Hkv. lia. }
  apply Hv in Hlt. destruct best as [m|]; simpl in Hb.
  - destruct Hb as (mpos & Hm & Hmv & Hbest). rewrite Hm. cbn [mbind option_bind]. rewrite (Hgt _ _ Hlt Hmv). cbn [mbind option_bind].
    eexists. split; [done|]. destruct (gt (i, pos) (m, mpos)) eqn:E; simpl.
    + exists pos. split_and!; [done|done|]. intros k kpos [Hk|Hk]%elem_of_app Hkp Hkv.
      * specialize (Hbest k kpos Hk Hkp Hkv). destruct (gt (k, kpos) (i, pos)) eqn:E2; [|done].
        by rewrite (swo_trans _ _ _ Hkv Hlt Hmv E2 E) in Hbest.
      * apply list_elem_of_singleton in Hk as ->. rewrite Hpos in Hkp. injection Hkp as <-. by apply swo_irrefl.
    + exists mpos. split_and!; [done|done|]. intros k kpos [Hk|Hk]%elem_of_app Hkp Hkv; [by apply Hbest|].
      apply list_elem_of_singleton in Hk as ->. rewrite Hpos in Hkp. by injection Hkp as <-.
  - exists (Some i). split; [done|]. exists pos. split_and!; [done|done|]. intros k kpos [Hk|Hk]%elem_of_app Hkp Hkv.
    + destruct (Hb k Hk). by exists kpos.
    + apply list_elem_of_singleton in Hk as ->. rewrite Hpos in Hkp. injection Hkp as <-. by apply swo_irrefl.
Qed.

Lemma best_head_ok iter : length iter = length workers →
  ∃ best, best_head iter = Some best ∧ is_best iter (seq 0 (length workers)) best.
Proof.
  intros Hlen. unfold best_head. apply (foldM_inv (is_best iter)).
  - by intros i ?%elem_of_nil.
  - intros pre i best Hb [suf E]. apply better_head_ok; [done| |done].
    assert (i ∈ seq 0 (length workers)) as Hi by (rewrite E; apply elem_of_app; right; left). apply elem_of_seq in Hi. lia.
Qed.

(** What the rounds take and leave. *)
Record taken (n : nat) (iter : list nat) (out rest : list Position) : Prop := {
  taken_perm : out ++ rest ≡ₚ left_over sizes iter;
  taken_sorted : StronglySorted (λ p q, gt q p = false) out;
  taken_cut : ∀ p q, p ∈ out → q ∈ rest → gt q p = false;
  taken_length : length out = Nat.min n (length (left_over sizes iter)) }.

Lemma no_heads iter : length iter = length workers → (∀ i, i ∈ seq 0 (length workers) → ¬ heads iter i) → left_over sizes iter = [].
Proof.
  intros Hlen Hn. destruct (left_over sizes iter) as [|p l] eqn:E; [done|]. exfalso.
  assert (p ∈ left_over sizes iter) as Hp by (rewrite E; left).
  apply elem_of_left_over in Hp as (n & pos & Hs & Hi & Hlt).
  apply (Hn p.1).
  - apply lookup_lt_Some in Hi. apply elem_of_seq. lia.
  - exists pos. split; [done|]. apply valid_size. exists n. simpl. split; [done|lia].
Qed.

Lemma left_over_valid iter p : p ∈ left_over sizes iter → valid p.
Proof. intros (n & pos & Hs & _ & Hlt)%elem_of_left_over. apply valid_size. exists n. split; [done|lia]. Qed.

(** No document that is left comes before the best head. *)
Lemma best_before iter m mpos : length iter = length workers → is_best iter (seq 0 (length workers)) (Some m) →
  iter !! m = Some mpos → ∀ q, q ∈ left_over sizes iter → gt q (m, mpos) = false.
Proof.
  intros Hlen (mpos' & Hm & Hmv & Hbest) Hm' q Hq. rewrite Hm in Hm'. injection Hm' as ->.
  pose proof (left_over_valid _ _ Hq) as Hqv. apply elem_of_left_over in Hq as (n & pos & Hs & Hi & Hlt). destruct q as [i j]. simpl in *.
  assert (valid (i, pos)) as Hhv by (apply valid_size; exists n; simpl; split; [done|lia]).
  assert (i ∈ seq 0 (length workers)) as Hin by (apply lookup_lt_Some in Hi; apply elem_of_seq; lia).
  apply (swo_ntrans (i, j) (i, pos) (m, mpos)); [done|done|done|apply Hsorted; [lia|done]|by apply Hbest].
Qed.

Lemma merge_heads_ok n : ∀ iter, length iter = length workers →
  ∃ out rest, merge_heads n iter = Some out ∧ taken n iter out rest.
Proof.
  induction n as [|n IH]; intros iter Hlen.
  { exists [], (left_over sizes iter). split; [done|]. split; try done; [constructor|by intros p q ?%elem_of_nil]. }
  cbn [merge_heads]. destruct (best_head_ok iter Hlen) as ([m|] & -> & Hb); cbn [mbind option_bind].
  - pose proof Hb as (mpos & Hm & Hmv & _). rewrite Hm. cbn [mbind option_bind].
    rewrite wr_Some by (by eapply lookup_lt_Some). cbn [mbind option_bind].
    destruct (IH (<[m := (mpos + 1)%nat]> iter)) as (out & rest & -> & [Hp Hs Hc Hl]); [by rewrite length_insert|].
    cbn [mbind option_bind]. apply valid_size in Hmv as (k & Hk & Hlt). simpl in *.
    pose proof (left_over_step sizes iter m k mpos Hk Hm Hlt) as Hstep.
    pose proof (best_before iter m mpos Hlen Hb Hm) as Hbefore.
    assert (∀ q, q ∈ out ++ rest → gt q (m, mpos) = false) as Hlater.
    { intros q Hq. apply Hbefore. rewrite Hstep, <- Hp. by right. }
    exists ((m, mpos) :: out), rest. split; [done|]. split.
    + simpl. by rewrite Hp, Hstep.
    + constructor; [done|]. apply Forall_forall. intros q Hq. apply Hlater. apply elem_of_app. by left.
    + intros p q [->|Hpo]%elem_of_cons Hq; [apply Hlater; apply elem_of_app; by right|by apply Hc].
    + rewrite (Permutation_length Hstep). simpl. by rewrite Hl.
  - pose proof (no_heads iter Hlen Hb) as E. exists [], []. split; [done|]. split; rewrite ?E; try done; [constructor|].
    by intros p q ?%elem_of_nil.
Qed.
End merge.

(** ** Writing the lists of the result *)

(** The first [k] places hold the values of their positions. *)
Definition filled {A} (has : bool) (n k : nat) (positions : list Position) (val : Position → option A) (l : list A) : Prop :=
  (has = true → length l = n) ∧
  ∀ i p x, (i < k)%nat → positions !! i = Some p → val p = Some x → l !! i = Some x.

Lemma filled_write {A} has n k positions (val : Position → option A) l p x : has = true → (k < n)%nat → filled has n k positions val l →
  positions !! k = Some p → val p = Some x → ∃ l', wr k x l = Some l' ∧ filled has n (S k) positions val l'.
Proof.
  intros Hhas Hk [Hlen Hf] Hp Hx. specialize (Hlen Hhas). exists (<[k := x]> l). split; [by apply wr_Some; lia|]. split.
  - intros _. by rewrite length_insert.
  - intros i q y Hi Hq Hy. destruct (decide (i = k)) as [->|Hne].
    + rewrite list_lookup_insert_eq by lia. congruence.
    + rewrite list_lookup_insert_ne by done. apply (Hf i q y); [lia|done|done].
Qed.

Lemma filled_skip {A} has n k positions (val : Position → option A) l p : filled has n k positions val l →
  positions !! k = Some p → val p = None → filled has n (S k) positions val l.
Proof.
  intros [Hlen Hf] Hp Hn. split; [done|]. intros i q y Hi Hq Hy. destruct (decide (i = k)) as [->|Hne]; [congruence|].
  apply (Hf i q y); [lia|done|done].
Qed.

Lemma filled_map {A} has n positions (val : Position → option A) l (f : Position → A) : has = true → length positions = n →
  filled has n n positions val l → (∀ p, p ∈ positions → val p = Some (f p)) → l = map f positions.
Proof.
  intros Hhas Hn [Hlen Hf] Hval. specialize (Hlen Hhas). apply list_eq. intros i.
  rewrite (list_lookup_fmap f positions i : map f positions !! i = f <$> positions !! i). destruct (positions !! i) as [p|] eqn:Hp; simpl.
  - pose proof (lookup_lt_Some _ _ _ Hp). apply (Hf i p); [lia|done|]. apply Hval. by eapply list_elem_of_lookup_2.
  - apply lookup_ge_None in Hp. apply lookup_ge_None. lia.
Qed.

Section lists.
Context {U S F : Type} (workers : list (Z * KeywordSearchResult U S F)).
Notation valid := (valid workers).

Definition doc_at (p : Position) : option Z := w ← workers !! p.1; topKDocs_ (topK w.2) !! p.2.
Definition worker_at (p : Position) : option Z := fst <$> workers !! p.1.
Definition rank_at (p : Position) : option float := w ← workers !! p.1; topKRankScoreList_ (topK w.2) !! p.2.
Definition custom_at (p : Position) : option float := w ← workers !! p.1; topKCustomRankScoreList_ (topK w.2) !! p.2.
Definition geo_at (p : Position) : option float := w ← workers !! p.1; topKGeoDistanceList_ (topK w.2) !! p.2.

(** A list is as long as that of the documents, or there is none. *)
Definition parallel {A B} (l : list A) (docs : list B) : Prop := l = [] ∨ length l = length docs.

Record lists_ok (custom geo : bool) (w : Z * KeywordSearchResult U S F) : Prop := {
  lo_rank : length (topKRankScoreList_ (topK w.2)) = length (topKDocs_ (topK w.2));
  lo_custom : parallel (topKCustomRankScoreList_ (topK w.2)) (topKDocs_ (topK w.2));
  lo_geo : parallel (topKGeoDistanceList_ (topK w.2)) (topKDocs_ (topK w.2));
  lo_has_custom : topKCustomRankScoreList_ (topK w.2) ≠ [] → custom = true;
  lo_has_geo : topKGeoDistanceList_ (topK w.2) ≠ [] → geo = true }.

Context (custom geo : bool) (Hlists : Forall (lists_ok custom geo) workers).

Record written (n k : nat) (positions : list Position) (t : TopKPart) : Prop := {
  wr_docs : filled true n k positions doc_at (topKDocs_ t);
  wr_ids : filled true n k positions worker_at (topKWorkerIds_ t);
  wr_rank : filled true n k positions rank_at (topKRankScoreList_ t);
  wr_custom : filled custom n k positions custom_at (topKCustomRankScoreList_ t);
  wr_geo : filled geo n k positions geo_at (topKGeoDistanceList_ t) }.

Lemma optional_write n k positions (val : Position → option float) has (wl l : list float) p (docs : list Z) :
  (k < n)%nat → positions !! k = Some p → val p = wl !! p.2 → parallel wl docs → (p.2 < length docs)%nat → (wl ≠ [] → has = true) →
  filled has n k positions val l →
  ∃ l', write_optional k p.2 wl l = Some l' ∧ filled has n (Datatypes.S k) positions val l'.
Proof.
  intros Hk Hp Hval Hpar Hlt Hhas Hf. unfold write_optional. destruct wl as [|x wl].
  - exists l. split; [done|]. by apply (filled_skip has n k positions val l p).
  - destruct Hpar as [?|Hlen]; [done|]. destruct (lookup_lt_is_Some_2 (x :: wl) p.2 ltac:(lia)) as [y Hy]. rewrite Hy. cbn [mbind option_bind].
    apply (filled_write has n k positions val l p y); [by apply Hhas|done|done|done|]. by rewrite Hval.
Qed.

Lemma write_merged_ok n k positions p t : length positions = n → positions !! k = Some p → valid p → written n k positions t →
  ∃ t', write_merged workers t (k, p) = Some t' ∧ written n (Datatypes.S k) positions t'.
Proof.
  intros Hn Hp Hv [Hd Hi Hr Hc Hg]. pose proof (lookup_lt_Some _ _ _ Hp) as Hk. rewrite Hn in Hk.
  unfold TopKMerge.valid, docs_at in Hv. destruct (workers !! p.1) as [w|] eqn:Hw; [|simpl in Hv; lia].
  pose proof (proj1 (Forall_lookup _ _) Hlists _ _ Hw) as [Hrl Hcl Hgl Hhc Hhg].
  destruct (lookup_lt_is_Some_2 (topKDocs_ (topK w.2)) p.2 Hv) as [d Hd'].
  destruct (lookup_lt_is_Some_2 (topKRankScoreList_ (topK w.2)) p.2 ltac:(lia)) as [r Hr'].
  unfold write_merged. rewrite Hw. cbn [mbind option_bind]. rewrite Hd'. cbn [mbind option_bind].
  destruct (filled_write true n k positions doc_at (topKDocs_ t) p d) as (docs & -> & Hd2); [done|done|done|done|by unfold doc_at; rewrite Hw|].
  cbn [mbind option_bind].
  destruct (filled_write true n k positions worker_at (topKWorkerIds_ t) p w.1) as (ids & -> & Hi2);
    [done|done|done|done|by unfold worker_at; rewrite Hw|].
  cbn [mbind option_bind]. rewrite Hr'. cbn [mbind option_bind].
  destruct (filled_write true n k positions rank_at (topKRankScoreList_ t) p r) as (ranks & -> & Hr2);
    [done|done|done|done|by unfold rank_at; rewrite Hw|].
  cbn [mbind option_bind].
  destruct (optional_write n k positions custom_at custom (topKCustomRankScoreList_ (topK w.2)) (topKCustomRankScoreList_ t) p (topKDocs_ (topK w.2)))
    as (customs & Ec & Hc2); [done|done|by unfold custom_at; rewrite Hw|done|done|done|done|].
  destruct (optional_write n k positions geo_at geo (topKGeoDistanceList_ (topK w.2)) (topKGeoDistanceList_ t) p (topKDocs_ (topK w.2)))
    as (geos & Eg & Hg2); [done|done|by unfold geo_at; rewrite Hw|done|done|done|done|].
  rewrite Ec. cbn [mbind option_bind]. rewrite Eg. cbn [mbind option_bind]. eexists. split; [done|]. by split.
Qed.

Lemma resize_written n positions t : written n 0 positions (resize_lists n custom geo t).
Proof.
  split; (split; [|intros; lia]); intros Hhas; simpl; rewrite ?Hhas; apply length_resize.
Qed.

Lemma write_all_ok n positions t : length positions = n → Forall valid positions →
  ∃ t', foldM (write_merged workers) (resize_lists n custom geo t) (imap (λ i p, (i, p)) positions) = Some t' ∧ written n n positions t'.
Proof.
  intros Hn Hv.
  destruct (foldM_inv (λ pre t, written n (length pre) positions t) (write_merged workers) (imap (λ i p, (i, p)) positions)
    (resize_lists n custom geo t)) as (t' & E & Hw).
  - apply resize_written.
  - intros pre [k p] t1 Hw [suf E].
    assert (imap (λ i p, (i, p)) positions !! length pre = Some (k, p)) as Hk by (rewrite E; by rewrite list_lookup_middle).
    rewrite list_lookup_imap in Hk. destruct (positions !! length pre) as [q|] eqn:Hq; [|done]. injection Hk as <- ->.
    rewrite length_app. simpl. rewrite Nat.add_1_r. apply write_merged_ok; [done|done| |done].
    rewrite Forall_lookup in Hv. by apply (Hv (length pre)).
  - exists t'. split; [done|]. by rewrite length_imap, Hn in Hw.
Qed.
End lists.
