(* ===== verification/SearchMergerSpec.v ===== *)
(** * What a distributed search returns ([aggregator-manager/SearchMerger.cpp])

    [getDistSearchResult] on the results of several workers: the counts are
    merged, and the documents are the best of all workers, in order. *)
From S2P Require Import Prelude CNum PriorityQueue QueueSpec GroupRep GroupMerge OntologyMerge SearchResult MergeComparator SearchMerger TopKMerge.

Section spec.
Context {U S F : Type} `{TextOrder U} `{!EqDecision U}.
Context {Q : Type} {Ops : PQOps (U * double) Q} `{!BoundedPQ name_score name_lt Ops}.
Context (no_text : S) (GetWDocId : Z → Z → Z) (IsNewerDocId : Z → Z → bool) (roundDown : nat → Z → nat).
Notation Worker := (Z * KeywordSearchResult U S F)%type.

(** ** What the merging of the documents reads *)

Definition docs_of (w : Worker) : Z * TopKPart * SortData := (w.1, topK w.2, sortData (distSearchInfo_ w.2)).

Section same_docs.
Context (ws ws' : list Worker) (Hsame : map docs_of ws = map docs_of ws').

Lemma same_lookup {A} (f : Z → TopKPart → option A) i : (w ← ws !! i; f w.1 (topK w.2)) = (w ← ws' !! i; f w.1 (topK w.2)).
Proof.
  assert (∀ l : list Worker, (w ← l !! i; f w.1 (topK w.2)) = (d ← map docs_of l !! i; f d.1.1 d.1.2)) as E.
  { intros l. rewrite (list_lookup_fmap docs_of l i : map docs_of l !! i = docs_of <$> l !! i). by destruct (l !! i). }
  by rewrite !E, Hsame.
Qed.

Lemma same_length : length ws = length ws'.
Proof. by rewrite <- (length_map docs_of ws), Hsame, length_map. Qed.

Lemma same_comparators : comparators ws = comparators ws'.
Proof.
  assert (∀ l : list Worker, comparators l = map (λ d : Z * TopKPart * SortData, DocumentComparator d.1.2 d.2) (map docs_of l)) as E.
  { intros l. unfold comparators. by rewrite map_map. }
  by rewrite !E, Hsame.
Qed.

Lemma same_gt comps p q : position_gt GetWDocId IsNewerDocId ws comps p q = position_gt GetWDocId IsNewerDocId ws' comps p q.
Proof.
  unfold position_gt. assert (∀ p, wdocid_at GetWDocId ws p = wdocid_at GetWDocId ws' p) as E.
  { intros r. apply (same_lookup (λ id t, d ← topKDocs_ t !! r.2; Some (GetWDocId id d))). }
  by rewrite !E.
Qed.

Lemma same_heads comps n : ∀ iter, merge_heads GetWDocId IsNewerDocId ws comps n iter = merge_heads GetWDocId IsNewerDocId ws' comps n iter.
Proof.
  assert (∀ iter, best_head GetWDocId IsNewerDocId ws comps iter = best_head GetWDocId IsNewerDocId ws' comps iter) as E.
  { intros iter. unfold best_head. rewrite same_length. apply foldM_ext. intros best i. unfold better_head.
    rewrite (same_lookup (λ _ t, pos ← iter !! i; if (length (topKDocs_ t) <=? pos)%nat then Some best else
      match best with None => Some (Some i) | Some m => mpos ← iter !! m; b ← position_gt GetWDocId IsNewerDocId ws comps (i, pos) (m, mpos);
        Some (Some (if (b : bool) then i else m)) end)).
    destruct (ws' !! i); [|done]. cbn [mbind option_bind]. destruct (iter !! i); [|done]. cbn [mbind option_bind].
    destruct (_ <=? _)%nat; [done|]. destruct best; [|done]. destruct (iter !! _); [|done]. cbn [mbind option_bind]. by rewrite same_gt. }
  induction n as [|n IH]; intros iter; [done|]. cbn [merge_heads]. rewrite E. destruct (best_head _ _ _ _ _) as [[m|]|]; [|done|done].
  cbn [mbind option_bind]. destruct (iter !! m); [|done]. cbn [mbind option_bind]. destruct (wr _ _ _); [|done]. cbn [mbind option_bind].
  by rewrite IH.
Qed.

Lemma same_topk n custom geo t : merge_topk GetWDocId IsNewerDocId ws n custom geo t = merge_topk GetWDocId IsNewerDocId ws' n custom geo t.
Proof.
  unfold merge_topk. rewrite same_comparators, same_heads.
  assert (map (λ _ : Worker, O) ws = map (λ _ : Worker, O) ws') as ->.
  { assert (∀ l : list Worker, map (λ _, O) l = replicate (length l) O) as E by (intros l; induction l; simpl; congruence).
    by rewrite !E, same_length. }
  destruct (merge_heads _ _ _ _ _ _); [|done]. cbn [mbind option_bind].
  rewrite (foldM_ext (write_merged ws) (write_merged ws')); [done|]. intros t' [cnt p]. unfold write_merged.
  apply (same_lookup (λ id t, d ← topKDocs_ t !! p.2;
    docs ← wr cnt d (topKDocs_ t'); ids ← wr cnt id (topKWorkerIds_ t'); score ← topKRankScoreList_ t !! p.2;
    scores ← wr cnt score (topKRankScoreList_ t'); custom ← write_optional cnt p.2 (topKCustomRankScoreList_ t) (topKCustomRankScoreList_ t');
    geo ← write_optional cnt p.2 (topKGeoDistanceList_ t) (topKGeoDistanceList_ t'); Some (TopK docs ids (topKtids_ t') scores custom geo))).
Qed.
End same_docs.

(** ** The counts *)

(** The counts of the workers fit together: they are for the same properties. *)
Record counts_ok (kept : list Worker) : Prop := {
  co_groups : ∃ props numbers ranges, Forall (λ w : Worker, ∃ g, rep_ok props numbers ranges seg_tree g (groupRep_ (counts w.2))) kept;
  co_attrs : ∃ kss, Forall2 attr_list (map (λ w : Worker, attrRep_ (counts w.2)) kept) kss ∧ scores_nonneg kss ∧ Z.of_nat (length (concat kss)) < 2 ^ 31 }.

Definition total_docs (ws : list Worker) : nat := sum_list (sizes ws).

(** What the loop over the workers has done with those it has seen. *)
Record totalled (props : list U) (numbers ranges : list string) (c0 : CountPart U) (pre : list Worker) (st : Totals (U := U) * list Worker) : Prop := {
  tt_docs : t_totalTopKCount st.1 = total_docs pre;
  tt_custom : t_hasCustomRankScore st.1 = existsb (λ w : Worker, negb (is_nil (topKCustomRankScoreList_ (topK w.2)))) pre;
  tt_geo : t_hasGeoDistance st.1 = existsb (λ w : Worker, negb (is_nil (topKGeoDistanceList_ (topK w.2)))) pre;
  tt_need : t_need_get_docs st.1 = existsb (λ w : Worker, negb (include_summary_data_ (distSearchInfo_ w.2))) pre;
  tt_groups : ∃ g, rep_ok props numbers ranges tree_cells g (groupRep_ (t_counts st.1));
  tt_total : totalCount_ (t_counts st.1) = fold_left (λ n w, u64 (n + totalCount_ (counts (w : Worker).2))) pre (totalCount_ c0);
  tt_seen : map docs_of st.2 = map docs_of pre;
  tt_texts : map (λ w : Worker, texts w.2) st.2 = map (λ w : Worker, texts w.2) pre }.

Lemma total_docs_snoc pre w : total_docs (pre ++ [w]) = (total_docs pre + length (topKDocs_ (topK w.2)))%nat.
Proof. unfold total_docs, sizes. rewrite map_app. induction (map _ pre) as [|x l IH]; simpl in *; lia. Qed.

Lemma add_worker_ok props numbers ranges c0 pre st (w : Worker) g : rep_ok props numbers ranges seg_tree g (groupRep_ (counts w.2)) →
  totalled props numbers ranges c0 pre st →
  ∃ st', add_worker GetWDocId IsNewerDocId st w = Some st' ∧ totalled props numbers ranges c0 (pre ++ [w]) st'.
Proof.
  intros Hg [Hd Hc Hgeo Hn (f & Hf) Ht Hs Htx]. destruct st as [t seen]. simpl in *.
  destruct (merge_reps props numbers ranges f g (groupRep_ (t_counts t)) (groupRep_ (counts w.2)) Hf Hg) as (h & r & o & E & Hr & _).
  rewrite E. cbn [mbind option_bind]. eexists. split; [done|]. split; simpl.
  - by rewrite Hd, total_docs_snoc.
  - by rewrite Hc, existsb_app; simpl; rewrite orb_false_r.
  - by rewrite Hgeo, existsb_app; simpl; rewrite orb_false_r.
  - by rewrite Hn, existsb_app; simpl; rewrite orb_false_r.
  - by exists h.
  - by rewrite fold_left_app, Ht.
  - by rewrite !map_app, Hs.
  - by rewrite !map_app, Htx.
Qed.

Lemma rep_new_ok props numbers ranges : rep_ok props numbers ranges tree_cells [] (rep_new : GroupRep U).
Proof. split; try done; try (by left); constructor. Qed.

Lemma merge_counts_ok kept c0 : kept ≠ [] → counts_ok kept → groupRep_ c0 = rep_new →
  ∃ t seen, merge_counts (Q := Q) GetWDocId IsNewerDocId kept c0 = Some (t, seen) ∧ map docs_of seen = map docs_of kept ∧
  map (λ w : Worker, texts w.2) seen = map (λ w : Worker, texts w.2) kept ∧
  t_totalTopKCount t = total_docs kept ∧
  t_hasCustomRankScore t = existsb (λ w : Worker, negb (is_nil (topKCustomRankScoreList_ (topK w.2)))) kept ∧
  t_hasGeoDistance t = existsb (λ w : Worker, negb (is_nil (topKGeoDistanceList_ (topK w.2)))) kept ∧
  t_need_get_docs t = existsb (λ w : Worker, negb (include_summary_data_ (distSearchInfo_ w.2))) kept ∧
  totalCount_ (t_counts t) = fold_left (λ n w, u64 (n + totalCount_ (counts (w : Worker).2))) kept (totalCount_ c0).
Proof.
  intros Hne [(props & numbers & ranges & Hgroups) (kss & Hattrs & Hnn & Hlen)] Hnew. unfold merge_counts.
  destruct kept as [|w0 rest]; [done|]. cbn [head mbind option_bind].
  set (c := Counts _ _ _ _ _ _). set (st0 := (Total _ _ _ _ _ c, _)).
  destruct (foldM_inv (totalled props numbers ranges c0) (add_worker GetWDocId IsNewerDocId) (w0 :: rest) st0) as ([t seen] & E & Htot).
  - split; try done. simpl. rewrite Hnew. eexists. apply rep_new_ok.
  - intros pre w st Hpre [suf El].
    assert (w ∈ w0 :: rest) as Hw by (rewrite El; apply elem_of_app; right; left).
    rewrite Forall_forall in Hgroups. destruct (Hgroups w Hw) as [g Hg]. by apply (add_worker_ok _ _ _ _ _ _ _ g).
  - rewrite E. cbn [mbind option_bind]. destruct Htot as [Hd Hc Hgeo Hn _ Ht Hs Htx]. simpl in *.
    destruct (attr_merge_ends 0 (attrRep_ (counts w0.2)) (map (λ w : Worker, attrRep_ (counts w.2)) rest) kss) as [attrs Ea]; [done|done|lia|done|].
    rewrite Ea. cbn [mbind option_bind]. eexists _, seen. by split_and!.
Qed.

(** ** The documents *)

(** The order of two documents of [kept]. *)
Definition gt_at (kept : list Worker) (p q : Position) : option bool := position_gt GetWDocId IsNewerDocId kept (comparators kept) p q.

(** All documents. *)
Definition all_positions (kept : list Worker) : list Position := left_over (sizes kept) (map (λ _, O) kept).

(** The list of every worker is sorted, and the workers send the same properties. *)
Record sorted_results (kept : list Worker) : Prop := {
  sr_rank : Forall (λ w : Worker, length (topKRankScoreList_ (topK w.2)) = length (topKDocs_ (topK w.2))) kept;
  sr_custom : Forall (λ w : Worker, parallel (topKCustomRankScoreList_ (topK w.2)) (topKDocs_ (topK w.2))) kept;
  sr_geo : Forall (λ w : Worker, parallel (topKGeoDistanceList_ (topK w.2)) (topKDocs_ (topK w.2))) kept;
  sr_columns : ∃ schema, columns_ok (valid kept) schema (λ i, default [] (comparators kept !! i));
  sr_sorted : ∀ i j j', (j ≤ j')%nat → valid kept (i, j') → gt_at kept (i, j') (i, j) = Some false }.

(** The lists of the result hold the best [n] documents, in order; [rest] are
    the documents left out. *)
Record best_documents (kept : list Worker) (n : nat) (positions rest : list Position) (t : TopKPart) : Prop := {
  bd_all : positions ++ rest ≡ₚ all_positions kept;
  bd_length : length positions = n;
  bd_sorted : StronglySorted (λ p q, gt_at kept q p = Some false) positions;
  bd_cut : ∀ p q, p ∈ positions → q ∈ rest → gt_at kept q p = Some false;
  bd_docs : map Some (topKDocs_ t) = map (doc_at kept) positions;
  bd_ids : map Some (topKWorkerIds_ t) = map (worker_at kept) positions;
  bd_ranks : map Some (topKRankScoreList_ t) = map (rank_at kept) positions;
  bd_custom : ∀ i p x, positions !! i = Some p → custom_at kept p = Some x → topKCustomRankScoreList_ t !! i = Some x;
  bd_geo : ∀ i p x, positions !! i = Some p → geo_at kept p = Some x → topKGeoDistanceList_ t !! i = Some x }.

Lemma length_left_over ns : ∀ (k : list Worker), length k = length ns → length (left_over ns (map (λ _, O) k)) = sum_list ns.
Proof.
  unfold left_over. assert (∀ f : nat → nat * nat → list Position, (∀ i e, length (f i e) = (e.1 - e.2)%nat) → ∀ k : list Worker, length k = length ns →
    length (concat (imap f (zip ns (map (λ _, O) k)))) = sum_list ns) as Hgen.
  { induction ns as [|n ns IH]; intros f Hf [|w k] Hk; try done. simpl. rewrite length_app, Hf, (IH (f ∘ Datatypes.S)); [simpl; lia| |].
    - intros i e. apply Hf.
    - by injection Hk. }
  intros k Hk. apply Hgen; [|done]. intros i e. unfold left_in. by rewrite length_map, length_seq.
Qed.

Lemma valid_docid (kept : list Worker) p : valid kept p → is_Some (wdocid_at GetWDocId kept p) ∧ is_Some (doc_at kept p) ∧ is_Some (worker_at kept p).
Proof.
  unfold valid, docs_at, wdocid_at, doc_at, worker_at. destruct (kept !! p.1) as [w|]; [|simpl; lia]. intros Hlt. cbn [mbind option_bind].
  destruct (lookup_lt_is_Some_2 _ _ Hlt) as [d ->]. split_and!; by eexists.
Qed.

Lemma gt_at_order (kept : list Worker) : StrictWeakOn (λ _, True) IsNewerDocId → sorted_results kept →
  ∃ gt, (∀ p q, valid kept p → valid kept q → gt_at kept p q = Some (gt p q)) ∧ StrictWeakOn (valid kept) gt.
Proof.
  intros Hnew [_ _ _ [schema Hc] _].
  destruct (greaterThan_order (valid kept) IsNewerDocId schema _ (λ p, default 0 (wdocid_at GetWDocId kept p)) Hc Hnew) as (gt & E & Hswo).
  exists gt. split; [|done]. intros p q Hp Hq. rewrite <- (E p q Hp Hq). unfold gt_at, position_gt.
  destruct (valid_docid kept p Hp) as ([d ->] & _). destruct (valid_docid kept q Hq) as ([d' ->] & _).
  assert (∀ p, valid kept p → comparators kept !! p.1 = Some (default [] (comparators kept !! p.1))) as Hcomp.
  { intros r Hr. unfold valid, docs_at in Hr. unfold comparators.
    rewrite (list_lookup_fmap (λ w : Worker, DocumentComparator (topK w.2) (sortData (distSearchInfo_ w.2))) kept r.1 :
      map (λ w : Worker, DocumentComparator (topK w.2) (sortData (distSearchInfo_ w.2))) kept !! r.1 = _ <$> kept !! r.1).
    destruct (kept !! r.1); [done|simpl in Hr; lia]. }
  rewrite (Hcomp p Hp), (Hcomp q Hq). done.
Qed.

Lemma filled_full {A} (n : nat) positions (val : Position → option A) l : length positions = n → filled true n n positions val l →
  Forall (λ p, is_Some (val p)) positions → map Some l = map val positions.
Proof.
  intros Hn [Hlen Hf] Hval. specialize (Hlen eq_refl). apply list_eq. intros i.
  rewrite (list_lookup_fmap Some l i : map Some l !! i = Some <$> l !! i), (list_lookup_fmap val positions i : map val positions !! i = val <$> positions !! i).
  destruct (positions !! i) as [p|] eqn:Hp; simpl.
  - pose proof (lookup_lt_Some _ _ _ Hp). rewrite Forall_lookup in Hval. destruct (Hval i p Hp) as [x Hx].
    rewrite (Hf i p x); [by rewrite Hx|lia|done|done].
  - apply lookup_ge_None in Hp. rewrite lookup_ge_None_2 by lia. done.
Qed.

Lemma merge_topk_ok (kept : list Worker) n custom geo t : StrictWeakOn (λ _, True) IsNewerDocId → sorted_results kept →
  Forall (lists_ok custom geo) kept → (n ≤ total_docs kept)%nat →
  ∃ positions t' rest, merge_topk GetWDocId IsNewerDocId kept n custom geo t = Some (positions, t') ∧ best_documents kept n positions rest t' ∧
  length (topKDocs_ t') = n.
Proof.
  intros Hnew Hsorted Hlists Hn. destruct (gt_at_order kept Hnew Hsorted) as (gt & Hgt & Hswo).
  destruct (merge_heads_ok GetWDocId IsNewerDocId kept (comparators kept) gt Hgt) with (n := n) (iter := map (λ _ : Worker, O) kept)
    as (positions & rest & E & [Hp Hs Hc Hl]).
  { intros i j j' Hj Hv. assert (valid kept (i, j)) as Hv' by (unfold valid in *; simpl in *; lia).
    pose proof (sr_sorted kept Hsorted i j j' Hj Hv) as Hf. rewrite (Hgt _ _ Hv Hv') in Hf. congruence. }
  { apply length_map. }
  assert (length positions = n) as Hlen.
  { rewrite Hl, length_left_over; [unfold total_docs in Hn; lia|]. unfold sizes. by rewrite length_map. }
  assert (∀ p, p ∈ positions ++ rest → valid kept p) as Hall.
  { intros p. rewrite Hp. by apply left_over_valid. }
  assert (Forall (valid kept) positions) as Hvalid by (apply Forall_forall; intros p Hin; apply Hall, elem_of_app; by left).
  destruct (write_all_ok kept custom geo Hlists n positions t Hlen Hvalid) as (t' & Et & [Hd Hi Hr Hcu Hge]).
  unfold merge_topk. rewrite E. cbn [mbind option_bind]. rewrite Et. cbn [mbind option_bind]. exists positions, t', rest.
  split_and!; [done| |by apply Hd]. split.
  - done.
  - done.
  - clear -Hs Hgt Hvalid. induction Hs as [|p l Hs IH Hp]; [constructor|]. inversion_clear Hvalid as [|?? Hvp Hvl]. constructor; [by apply IH|].
    apply Forall_forall. intros q Hq. rewrite Forall_forall in Hp, Hvl. rewrite Hgt by auto. by rewrite (Hp q Hq).
  - intros p q Hpin Hqin. rewrite Hgt; [by rewrite Hc|apply Hall, elem_of_app; by right|apply Hall, elem_of_app; by left].
  - apply (filled_full n); [done|done|]. eapply Forall_impl; [exact Hvalid|]. intros p Hv. by apply valid_docid.
  - apply (filled_full n); [done|done|]. eapply Forall_impl; [exact Hvalid|]. intros p Hv. by apply valid_docid.
  - apply (filled_full n); [done|done|]. eapply Forall_impl; [exact Hvalid|]. intros p Hv. unfold valid, docs_at in Hv. unfold rank_at.
    destruct (kept !! p.1) as [w|] eqn:Hw; [|simpl in Hv; lia]. pose proof (proj1 (Forall_lookup _ _) (sr_rank kept Hsorted) _ _ Hw) as El.
    cbn [mbind option_bind]. apply lookup_lt_is_Some_2. simpl in El. lia.
  - intros i p x Hpi Hx. destruct Hcu as [_ Hf]. apply (Hf i p x); [|done|done]. apply lookup_lt_Some in Hpi. lia.
  - intros i p x Hpi Hx. destruct Hge as [_ Hf]. apply (Hf i p x); [|done|done]. apply lookup_lt_Some in Hpi. lia.
Qed.

(** ** The whole result *)

Lemma sorted_lists_ok kept custom geo : sorted_results kept →
  custom = existsb (λ w : Worker, negb (is_nil (topKCustomRankScoreList_ (topK w.2)))) kept →
  geo = existsb (λ w : Worker, negb (is_nil (topKGeoDistanceList_ (topK w.2)))) kept → Forall (lists_ok custom geo) kept.
Proof.
  intros [Hr Hc Hg _ _] -> ->. rewrite Forall_forall in *. intros w Hw. split; [by apply Hr|by apply Hc|by apply Hg| |].
  - intros Hne. apply existsb_exists. exists w. split; [by apply list_elem_of_In|]. by destruct (topKCustomRankScoreList_ (topK w.2)).
  - intros Hne. apply existsb_exists. exists w. split; [by apply list_elem_of_In|]. by destruct (topKGeoDistanceList_ (topK w.2)).
Qed.

Lemma page_texts_ends (ws : list Worker) positions n start count : ws ≠ [] → length positions = n →
  (∀ p, p ∈ positions → is_Some (ws !! p.1)) → is_Some (page_texts no_text ws (resize n (O, O) positions) start count n).
Proof.
  intros Hne Hn Hp. unfold page_texts. destruct ws as [|w ws]; [done|]. cbn [displayPropertyNum_of isSummaryOn_of head mbind option_bind].
  set (cnt := if (start <? n)%nat then _ else _). set (t0 := blank_texts no_text _ _ cnt). clearbody t0.
  match goal with |- is_Some (foldM ?f _ ?l) =>
    destruct (foldM_inv (λ _ _, True) f l t0 I) as (t & -> & _); [|by eexists] end.
  intros pre i t _ [suf E].
  assert (i ∈ seq start (Nat.min n (start + cnt) - start)) as Hi by (rewrite E; apply elem_of_app; right; left).
  apply elem_of_seq in Hi. destruct (lookup_lt_is_Some_2 positions i ltac:(lia)) as [p Hpi].
  rewrite <- Hn, resize_all, Hpi. cbn [mbind option_bind]. destruct (Hp p) as [w' Hw']; [by eapply list_elem_of_lookup_2|].
  rewrite Hw'. cbn [mbind option_bind]. by eexists.
Qed.

Lemma top_count_le start k total : (top_count roundDown start k total ≤ total)%nat.
Proof. unfold top_count. destruct (_ <? _)%nat; lia. Qed.

Lemma merge_many_ok (r0 : Worker) rest m : let workers := r0 :: rest in let kept := keep_largest workers in
  StrictWeakOn (λ _, True) IsNewerDocId → counts_ok kept → sorted_results kept → groupRep_ (counts m) = rep_new →
  ∃ workers' m' positions left_out,
  merge_many (Q := Q) no_text GetWDocId IsNewerDocId roundDown workers m = Some (workers', m') ∧ error_ m' = error_ m ∧ TOP_K_NUM m' = TOP_K_NUM r0.2 ∧
  include_summary_data_ (distSearchInfo_ m') = negb (existsb (λ w : Worker, negb (include_summary_data_ (distSearchInfo_ w.2))) kept) ∧
  best_documents kept (top_count roundDown (start_ (page r0.2)) (TOP_K_NUM r0.2) (total_docs kept)) positions left_out (topK m') ∧
  totalCount_ (counts m') = fold_left (λ n w, u64 (n + totalCount_ (counts (w : Worker).2))) kept 0.
Proof.
  intros workers kept Hnew Hcounts Hsorted Hm. unfold merge_many. cbn [workers head mbind option_bind]. fold workers. fold kept.
  assert (kept ≠ []) as Hne by done.
  destruct (merge_counts_ok kept (counts (merge_basic r0.2 m)) Hne Hcounts Hm) as (t & seen & E & Hdocs & Htexts & Hd & Hc & Hg & Hneed & Htotal).
  rewrite E. cbn [mbind option_bind]. rewrite Hd.
  set (n := top_count _ _ _ _).
  destruct (merge_topk_ok kept n (t_hasCustomRankScore t) (t_hasGeoDistance t) (topK (set_counts (t_counts t) (merge_basic r0.2 m))))
    as (positions & top & left_out & Et & Hbest & Hlen); [done|done|by apply sorted_lists_ok|by apply top_count_le|].
  rewrite (same_topk seen kept Hdocs), Et. cbn [mbind option_bind]. destruct (t_need_get_docs t) eqn:Eneed.
  - eexists _, _, positions, left_out. split_and!; try done. by rewrite <- Hneed.
  - rewrite Hlen. destruct (page_texts_ends (map (λ w : Worker, (w.1, with_rank_property w.2)) seen) positions n
      (start_ (page r0.2)) (count_ (page r0.2))) as [txt Etx].
    + intros Enil. apply (f_equal length) in Enil. rewrite length_map, (same_length seen kept Hdocs) in Enil. by destruct kept.
    + apply Hbest.
    + intros p Hp. apply lookup_lt_is_Some_2. rewrite length_map, (same_length seen kept Hdocs).
      assert (p ∈ all_positions kept) as Hin by (rewrite <- (bd_all _ _ _ _ _ Hbest); apply elem_of_app; by left).
      apply left_over_valid in Hin. unfold valid, docs_at in Hin. destruct (kept !! p.1) eqn:Ek; [by eapply lookup_lt_Some|simpl in Hin; lia].
    + match goal with |- context [page_texts _ _ _ ?a ?b _] => change a with (start_ (page r0.2)); change b with (count_ (page r0.2)) end.
      rewrite Etx. cbn [mbind option_bind].
      eexists _, _, positions, left_out. split_and!; try done. by rewrite <- Hneed.
Qed.

Lemma first_failure_none (workers : list Worker) : Forall (λ w : Worker, error_ w.2 = ""%string) workers → first_failure workers = None.
Proof.
  unfold first_failure. induction 1 as [|w l Hw _ IH]; [done|]. simpl. rewrite Hw. rewrite filter_cons_False by done. exact IH.
Qed.

Lemma getDistSearchResult_ok (r0 r1 : Worker) rest m : let workers := r0 :: r1 :: rest in let kept := keep_largest workers in
  Forall (λ w : Worker, error_ w.2 = ""%string) workers → StrictWeakOn (λ _, True) IsNewerDocId →
  counts_ok kept → sorted_results kept → groupRep_ (counts m) = rep_new →
  ∃ workers' m' positions left_out,
  getDistSearchResult (Q := Q) no_text GetWDocId IsNewerDocId roundDown workers m = Some (workers', m') ∧ error_ m' = error_ m ∧ TOP_K_NUM m' = TOP_K_NUM r0.2 ∧
  include_summary_data_ (distSearchInfo_ m') = negb (existsb (λ w : Worker, negb (include_summary_data_ (distSearchInfo_ w.2))) kept) ∧
  best_documents kept (top_count roundDown (start_ (page r0.2)) (TOP_K_NUM r0.2) (total_docs kept)) positions left_out (topK m') ∧
  totalCount_ (counts m') = fold_left (λ n w, u64 (n + totalCount_ (counts (w : Worker).2))) kept 0.
Proof.
  intros workers kept Herr Hnew Hcounts Hsorted Hm. unfold getDistSearchResult. rewrite first_failure_none by done.
  unfold workers at 1 2. destruct r0 as [id0 k0]. by apply merge_many_ok.
Qed.
(** C20: Merging the results of two or more workers that all succeeded
    ([getDistSearchResult]), whose lists are sorted by the same properties and
    whose counts are well formed, always returns, and reads nothing out of
    range: the merged documents are the greatest of all documents found by the
    workers with the most major tokens, in the order of [greaterThan], at most
    [TOP_K_NUM], each with its own worker and scores; no document left out is
    greater than one taken. The total is the sum of the workers' totals. *)
Theorem getDistSearchResult_best (r0 r1 : Worker) rest m : let workers := r0 :: r1 :: rest in let kept := keep_largest workers in
  Forall (λ w : Worker, error_ w.2 = ""%string) workers → StrictWeakOn (λ _, True) IsNewerDocId →
  counts_ok kept → sorted_results kept → groupRep_ (counts m) = rep_new →
  ∃ workers' m' positions left_out,
  getDistSearchResult (Q := Q) no_text GetWDocId IsNewerDocId roundDown workers m = Some (workers', m') ∧ error_ m' = error_ m ∧
  best_documents kept (top_count roundDown (start_ (page r0.2)) (TOP_K_NUM r0.2) (total_docs kept)) positions left_out (topK m') ∧
  totalCount_ (counts m') = fold_left (λ n w, u64 (n + totalCount_ (counts (w : Worker).2))) kept 0.
Proof.
  intros workers kept Herr Hnew Hcounts Hsorted Hm.
  destruct (getDistSearchResult_ok r0 r1 rest m Herr Hnew Hcounts Hsorted Hm) as (ws & m' & positions & left_out & E & He & _ & _ & Hb).
  by exists ws, m', positions, left_out.
Qed.
End spec.

(** ** Witness *)

(** Two workers with two documents each; the last documents have the same score
    and the newer one comes first. *)
Definition wide_id (w d : Z) : Z := w * 2 ^ 32 + d.
Definition newer (a b : Z) : bool := b <? a.
Definition round_down (start : nat) (n : Z) : nat := (start / Z.to_nat n * Z.to_nat n)%nat.

Definition ranked (docs : list Z) (ranks : list float) (total : Z) : KeywordSearchResult string string Z :=
  Result 0 "" (Query "tea" "" 0 "shop" "" [] []) (DistInfo true true false OPTION_NONE NODE_WORKER ∅ ∅ ∅ (Sort [("RANK"%string, false)] [] [] [] [] []) 1)
    (TopK docs [] [] ranks [] []) (Page 0 10 [] []) (Texts [] [] []) (Counts total ∅ (Range f_zero f_zero) rep_new [] ∅)
    (Mining [] [] [] [] [] [] 0) 3.

Definition tea_workers : list (Z * KeywordSearchResult string string Z) :=
  [(1, ranked [7; 3] [f_of_Z 3; f_of_Z 1] 12); (2, ranked [5; 4] [f_of_Z 2; f_of_Z 1] 30)].

#[export] Instance attr_queue : PQOps (string * double) (pqueue (string * double)) :=
  heap_ops (""%string, d_zero) (""%string, d_zero) name_lt.

Lemma tea_valid (p : Position) : valid tea_workers p → p ∈ [(0, 0); (0, 1); (1, 0); (1, 1)]%nat.
Proof.
  destruct p as [[|[|i]] [|[|j]]]; unfold valid, docs_at; simpl; try lia; intros _; repeat (by left) || right.
Qed.

Lemma tea_counts_ok : counts_ok tea_workers.
Proof.
  split.
  - exists [], [], []. repeat constructor; exists []; split; try done; try (by left); constructor.
  - exists [[]; []]. split_and!; [by repeat constructor|constructor|done].
Qed.

Ltac each_position H := apply tea_valid in H; repeat (apply elem_of_cons in H as [->|H]); [..|by apply elem_of_nil in H].

Lemma tea_sorted : sorted_results wide_id newer tea_workers.
Proof.
  split.
  - by repeat constructor.
  - repeat constructor.
  - repeat constructor.
  - exists [(DATA_TYPE_FLOAT, false)]. apply (columns_cons _ _ _ _ _
      (λ i, SortProperty "RANK" false (FloatData (topKRankScoreList_ (topK (default (0, ranked [] [] 0) (tea_workers !! i)).2)))) (λ _, [])).
    + intros p Hp. by each_position Hp.
    + split; [intros p Hp; by each_position Hp|intros p Hp; by each_position Hp|..].
      * intros p Hp. each_position Hp; by eexists.
      * intros p x Hp. each_position Hp; by intros [= <-].
      * intros p q x y Hp Hq. each_position Hp; each_position Hq; by intros [= <-] [= <-].
    + by constructor.
  - intros i j j' Hj Hv. apply tea_valid in Hv. repeat (apply elem_of_cons in Hv as [[= -> ->]|Hv]); [..|by apply elem_of_nil in Hv];
      destruct j as [|[|j]]; try lia; by vm_compute.
Qed.

Lemma newer_order : StrictWeakOn (λ _, True) newer.
Proof. split; unfold newer; intros *; lia. Qed.

Lemma getDistSearchResult_best_witness :
  ∃ workers' m', getDistSearchResult (Q := pqueue (string * double)) ""%string wide_id newer round_down tea_workers (result_new 0 "") = Some (workers', m') ∧
  topKDocs_ (topK m') = [7; 5; 4] ∧ topKWorkerIds_ (topK m') = [1; 2; 2] ∧ totalCount_ (counts m') = 42.
Proof.
  destruct (getDistSearchResult_best (Ops := attr_queue) ""%string wide_id newer round_down
    (1, ranked [7; 3] [f_of_Z 3; f_of_Z 1] 12) (2, ranked [5; 4] [f_of_Z 2; f_of_Z 1] 30) [] (result_new 0 ""))
    as (workers' & m' & positions & left_out & E & _ & Hbest & Htotal).
  - repeat constructor.
  - apply newer_order.
  - exact tea_counts_ok.
  - exact tea_sorted.
  - done.
  - exists workers', m'. split; [exact E|]. clear Hbest. revert E Htotal. vm_compute. intros [= <- <-] Ht. done.
Defined.

(** Two lists of brands; the counts and scores of the name add up. *)
Definition brands (total : Z) (brand : string) : OntologyRep string :=
  [Item 0 "Brand"%string 0 total (d_of_Z total); Item 1 brand 0 total (d_of_Z total)].
Definition brand_keys (total : Z) (brand : string) : list (Key string * RepItem string) :=
  [(("Brand"%string, None), Item 0 "Brand"%string 0 total (d_of_Z total)); (("Brand"%string, Some brand), Item 1 brand 0 total (d_of_Z total))].

Lemma attr_merge_adds_witness : ∃ l, attr_merge (Q := pqueue (string * double)) 10 (brands 3 "Nike") [brands 2 "Puma"] = Some l ∧
  map (λ i, (text i, doc_count i)) l = [("Brand", 5); ("Nike", 3); ("Puma", 2)]%string.
Proof.
  destruct (attr_merge_adds (Ops := attr_queue) 10 (brands 3 "Nike") [brands 2 "Puma"] [brand_keys 3 "Nike"; brand_keys 2 "Puma"]) as (parts & rest & E & _).
  - repeat constructor; by apply (bool_decide_unpack _).
  - by repeat constructor.
  - done.
  - done.
  - simpl. lia.
  - eexists. split; [exact E|]. revert E. vm_compute. by intros [= <-].
Defined.
