(* ===== verification/PageTexts.v ===== *)
(** * The texts of the page that is shown ([aggregator-manager/SearchMerger.cpp])

    The documents of the page are asked for from their workers
    ([splitSearchResultByWorkerid]) and the answers are put together
    ([getSummaryResult]).  The theorem follows a document through both: every
    place of the page gets the text that the document's own worker has for it. *)
From S2P Require Import Prelude CNum OrderedMap GroupRep SearchResult SearchMerger SearchSplit.

(** ** Tables of texts *)

Section tables.
Context {S : Type} (no_text : S).

(** The table of [n] rows and [cnt] columns. *)
Definition table (n cnt : nat) (f : nat → nat → S) : list (list S) := map (λ dis, map (f dis) (seq 0 cnt)) (seq 0 n).

Lemma row_lookup {A} (f : nat → A) n i : map f (seq 0 n) !! i = if decide (i < n)%nat then Some (f i) else None.
Proof.
  rewrite (list_lookup_fmap f (seq 0 n) i : map f (seq 0 n) !! i = f <$> seq 0 n !! i). destruct (decide (i < n)%nat) as [Hi|Hi].
  - by rewrite lookup_seq_lt.
  - by rewrite lookup_seq_ge by lia.
Qed.

Lemma row_ext {A} (f g : nat → A) n : (∀ i, (i < n)%nat → f i = g i) → map f (seq 0 n) = map g (seq 0 n).
Proof. intros E. apply map_ext_in. intros i Hi. apply E. apply in_seq in Hi. lia. Qed.

Lemma table_ext n cnt f g : (∀ dis i, (dis < n)%nat → (i < cnt)%nat → f dis i = g dis i) → table n cnt f = table n cnt g.
Proof. intros E. apply row_ext. intros dis Hd. apply row_ext. intros i Hi. by apply E. Qed.

Lemma row_blank {A} (x : A) n : replicate n x = map (λ _, x) (seq 0 n).
Proof. generalize O. induction n as [|n IH]; intros k; simpl; [done|]. by rewrite (IH (Datatypes.S k)). Qed.

Lemma table_blank n cnt : replicate n (replicate cnt no_text) = table n cnt (λ _ _, no_text).
Proof. unfold table. rewrite (row_blank (replicate cnt no_text)). apply row_ext. intros dis _. apply row_blank. Qed.

Lemma alter_row {A} (h : A → A) f n i : alter h i (map f (seq 0 n)) = map (λ j, if decide (j = i) then h (f j) else f j) (seq 0 n).
Proof.
  apply list_eq. intros j. rewrite row_lookup. destruct (decide (j = i)) as [->|Hne].
  - rewrite list_lookup_alter, row_lookup, (decide_True (P := i = i)) by done. by destruct (decide (i < n)%nat).
  - rewrite list_lookup_alter_ne by done. by rewrite row_lookup.
Qed.

Lemma copy_row from dis offset i n cnt f : copy_text from dis offset i (table n cnt f) =
  table n cnt (λ d j, if decide (d = dis) then if decide (j = i) then text_at from dis offset (f d j) else f d j else f d j).
Proof.
  unfold copy_text, table. rewrite alter_row. apply row_ext. intros d _. destruct (decide (d = dis)) as [->|]; [|done].
  by rewrite alter_row.
Qed.

Lemma copy_rows from offset i n cnt m : ∀ f, fold_left (λ t dis, copy_text from dis offset i t) (seq 0 m) (table n cnt f) =
  table n cnt (λ d j, if decide (d < m)%nat then if decide (j = i) then text_at from d offset (f d j) else f d j else f d j).
Proof.
  induction m as [|m IH]; intros f.
  - apply table_ext. intros d j _ _. by rewrite decide_False by lia.
  - rewrite seq_S, fold_left_app, IH. simpl. rewrite copy_row. apply table_ext. intros d j _ _.
    destruct (decide (d = m)) as [->|Hne].
    + by rewrite (decide_False (P := (m < m)%nat)), (decide_True (P := (m < Datatypes.S m)%nat)) by lia.
    + destruct (decide (d < m)%nat); [by rewrite (decide_True (P := (d < Datatypes.S m)%nat)) by lia|].
      by rewrite (decide_False (P := (d < Datatypes.S m)%nat)) by lia.
Qed.

(** A worker's texts for its documents [docs]. *)
Definition answer_table (n : nat) (docs : list Z) (text : nat → Z → S) : list (list S) := map (λ dis, map (text dis) docs) (seq 0 n).

(** Filling the column [i]. *)
Lemma copy_column n cnt docs (text : nat → Z → S) offset d i (g : nat → nat → S) : docs !! offset = Some d → (∀ dis, g dis i = text dis d) →
  fold_left (λ t dis, copy_text (answer_table n docs text) dis offset i t) (seq 0 n)
    (table n cnt (λ dis j, if decide (j < i)%nat then g dis j else no_text)) =
  table n cnt (λ dis j, if decide (j < Datatypes.S i)%nat then g dis j else no_text).
Proof.
  intros Hd Hg. rewrite copy_rows. apply table_ext. intros dis j Hdis _. rewrite (decide_True (P := (dis < n)%nat)) by done.
  destruct (decide (j = i)) as [->|Hne].
  - rewrite (decide_True (P := (i < Datatypes.S i)%nat)) by lia. unfold text_at, answer_table. rewrite row_lookup, decide_True by done.
    rewrite (list_lookup_fmap (text dis) docs offset : map (text dis) docs !! offset = text dis <$> docs !! offset), Hd. simpl. by rewrite Hg.
  - destruct (decide (j < i)%nat); [by rewrite (decide_True (P := (j < Datatypes.S i)%nat)) by lia|].
    by rewrite (decide_False (P := (j < Datatypes.S i)%nat)) by lia.
Qed.
End tables.

(** ** The requests *)

Section pages.
Context {U S F : Type} (utf8 : Z) (no_words : U) (no_text : S).
Notation Result_ := (KeywordSearchResult U S F).
Context (total : Result_).
Context (Hlen : length (topKWorkerIds_ (topK total)) = length (topKDocs_ (topK total))).

Definition page_size : nat := page_end total - start_in_page total.

(** The worker and the document at place [i] of the page. *)
Definition wid (i : nat) : Z := default 0 (topKWorkerIds_ (topK total) !! (start_in_page total + i)%nat).
Definition doc (i : nat) : Z := default 0 (topKDocs_ (topK total) !! (start_in_page total + i)%nat).

(** The places of a worker's documents, among the first [n]. *)
Definition mine (w : Z) (n : nat) : list nat := filter (λ i, wid i = w) (seq 0 n).

Lemma mine_S w n : mine w (Datatypes.S n) = mine w n ++ if decide (wid n = w) then [n] else [].
Proof.
  unfold mine. rewrite seq_S, filter_app. simpl. rewrite filter_cons. by destruct (decide (wid n = w)).
Qed.

Lemma mine_next w i n : (i < n)%nat → mine w n !! length (mine w i) = Some i ↔ wid i = w.
Proof.
  intros Hi. unfold mine. replace n with (i + (1 + (n - i - 1)))%nat by lia. rewrite !seq_app, !filter_app. simpl.
  rewrite lookup_app_r, Nat.sub_diag by done. rewrite filter_cons. destruct (decide (wid i = w)) as [E|Hne]; [done|]. split; [|done].
  intros Hl. apply list_elem_of_lookup_2, list_elem_of_filter in Hl as [_ Hl]. apply elem_of_seq in Hl. lia.
Qed.

Lemma mine_all w i n : (n ≤ i)%nat → mine w n !! length (mine w i) = None.
Proof.
  intros Hi. apply lookup_ge_None. unfold mine. replace i with (n + (i - n))%nat by lia. rewrite seq_app, filter_app, length_app. lia.
Qed.

(** What worker [w] is asked for. *)
Definition request (w : Z) (n : nat) : Result_ :=
  set_page (Page 0 (length (mine w n)) (map doc (mine w n)) (mine w n)) (worker_request utf8 no_words total).

Definition requests (n : nat) (m : list (Z * Result_)) : Prop :=
  om_ok Z.ltb (λ _ : Z, True) m ∧ ∀ w, om_get Z.ltb w m = if decide (mine w n = []) then None else Some (request w n).

Lemma split_step n m : (n < page_size)%nat → requests n m →
  ∃ m', split_one utf8 no_words total (m, n) (start_in_page total + n) = Some (m', Datatypes.S n) ∧ requests (Datatypes.S n) m'.
Proof.
  intros Hn [Hm Hget]. unfold page_size, page_end in Hn.
  assert (topKWorkerIds_ (topK total) !! (start_in_page total + n)%nat = Some (wid n)) as Hw.
  { unfold wid. destruct (lookup_lt_is_Some_2 (topKWorkerIds_ (topK total)) (start_in_page total + n)) as [x ->]; [lia|done]. }
  assert (topKDocs_ (topK total) !! (start_in_page total + n)%nat = Some (doc n)) as Hd.
  { unfold doc. destruct (lookup_lt_is_Some_2 (topKDocs_ (topK total)) (start_in_page total + n)) as [x ->]; [lia|done]. }
  unfold split_one. rewrite Hw. cbn [mbind option_bind]. rewrite Hd. cbn [mbind option_bind]. eexists. split; [done|]. split.
  - by apply om_update_okZ.
  - intros w. rewrite om_get_updateZ by done. rewrite mine_S. unfold request. rewrite mine_S. destruct (decide (wid n = w)) as [<-|Hne].
    + rewrite decide_False by by destruct (mine (wid n) n). f_equal. rewrite Hget. rewrite length_app, map_app.
      destruct (decide (mine (wid n) n = [])) as [E|E]; [by rewrite E|done].
    + rewrite app_nil_r. apply Hget.
Qed.

Lemma split_all n : (n ≤ page_size)%nat →
  ∃ m, foldM (split_one utf8 no_words total) ([], O) (seq (start_in_page total) n) = Some (m, n) ∧ requests n m.
Proof.
  induction n as [|n IH]; intros Hn.
  { exists []. split; [done|]. split; [apply om_nil_ok|done]. }
  destruct IH as (m & E & Hm); [lia|]. rewrite seq_S, foldM_app, E. cbn [mbind option_bind foldM].
  destruct (split_step n m) as (m' & -> & Hm'); [lia|done|]. cbn [mbind option_bind]. by exists m'.
Qed.

(** ** The answers *)

(** The texts a worker has; it answers with those of the documents asked for. *)
Context (full snippet summary : Z → nat → Z → S) (dnum snum : nat).

Definition answer (e : Z * Result_) : Z * Result_ :=
  let docs := docsInPage_ (page e.2) in
  (e.1, set_texts (Texts (answer_table dnum docs (full e.1)) (answer_table dnum docs (snippet e.1)) (answer_table snum docs (summary e.1))) e.2).

Definition offsets_at (m : list (Z * Result_)) (i : nat) : list nat := map (λ e, length (mine e.1 i)) m.

Lemma head_omap_unique {A B} (g : A → option B) (l : list A) k x y : l !! k = Some x → g x = Some y →
  (∀ k' x', l !! k' = Some x' → k' ≠ k → g x' = None) → head (omap g l) = Some y.
Proof.
  revert k. induction l as [|a l IH]; intros k Hk Hy Hn; [done|]. simpl. destruct k as [|k].
  - injection Hk as ->. by rewrite Hy.
  - rewrite (Hn O a eq_refl ltac:(done)). apply (IH k Hk Hy). intros k' x' Hk' Hne. apply (Hn (Datatypes.S k') x' Hk'). lia.
Qed.

Lemma head_omap_none {A B} (g : A → option B) (l : list A) : (∀ x, x ∈ l → g x = None) → head (omap g l) = None.
Proof.
  induction l as [|a l IH]; intros Hn; [done|]. simpl. rewrite (Hn a) by left. apply IH. intros x Hx. apply Hn. by right.
Qed.

Context (m : list (Z * Result_)) (Hm : requests page_size m).

Lemma request_at k e : m !! k = Some e → e = (e.1, request e.1 page_size).
Proof.
  intros Hk. destruct Hm as [Hok Hget]. apply list_elem_of_lookup_2 in Hk. destruct e as [w r]. apply (om_elemZ m w r Hok) in Hk. simpl.
  rewrite Hget in Hk. destruct (decide _); [done|]. by injection Hk as <-.
Qed.

Lemma worker_at_place i : (i < page_size)%nat → ∃ k, m !! k = Some (wid i, request (wid i) page_size) ∧
  ∀ k' e, m !! k' = Some e → e.1 = wid i → k' = k.
Proof.
  intros Hi. destruct Hm as [Hok Hget].
  assert (i ∈ mine (wid i) page_size) as Hin by (apply list_elem_of_filter; split; [done|apply elem_of_seq; lia]).
  assert (om_get Z.ltb (wid i) m = Some (request (wid i) page_size)) as E.
  { rewrite Hget. destruct (decide _) as [E|]; [rewrite E in Hin; by apply elem_of_nil in Hin|done]. }
  apply (om_elemZ m _ _ Hok) in E. apply list_elem_of_lookup in E as [k Hk]. exists k. split; [done|].
  intros k' e Hk' He. pose proof (om_keys_NoDupZ m Hok) as Hnd. apply (proj1 (NoDup_alt _)) with (i := k') (j := k) (x := wid i) in Hnd; [done| |].
  - by rewrite (list_lookup_fmap fst m k' : map fst m !! k' = fst <$> m !! k'), Hk'; simpl; rewrite He.
  - by rewrite (list_lookup_fmap fst m k : map fst m !! k = fst <$> m !! k), Hk.
Qed.

Definition entry_of (e : nat * ((Z * Result_) * nat)) (i : nat) : option (nat * nat) :=
  if decide (pageOffsetList_ (page e.2.1.2) !! e.2.2 = Some i) then Some (e.1, e.2.2) else None.

Lemma entries_lookup i k : imap (λ k e, (k, e)) (zip (map answer m) (offsets_at m i)) !! k =
  (λ e, (k, (answer e, length (mine e.1 i)))) <$> m !! k.
Proof.
  rewrite list_lookup_imap, lookup_zip_with. unfold offsets_at.
  rewrite (list_lookup_fmap answer m k : map answer m !! k = answer <$> m !! k).
  rewrite (list_lookup_fmap (λ e : Z * Result_, length (mine e.1 i)) m k : map (λ e : Z * Result_, length (mine e.1 i)) m !! k = _ <$> m !! k).
  by destruct (m !! k).
Qed.

Lemma entry_none i k e : m !! k = Some e → (page_size ≤ i)%nat ∨ e.1 ≠ wid i → entry_of (k, (answer e, length (mine e.1 i))) i = None.
Proof.
  intros Hk Hne. pose proof (request_at k e Hk) as Er. unfold entry_of. rewrite decide_False; [done|]. rewrite Er. simpl.
  destruct (decide (page_size ≤ i)%nat); [by rewrite mine_all|]. rewrite mine_next by lia. naive_solver.
Qed.

Lemma worker_of_place i : (i < page_size)%nat → ∃ k, m !! k = Some (wid i, request (wid i) page_size) ∧
  worker_of (map answer m) (offsets_at m i) i = Some (k, length (mine (wid i) i)).
Proof.
  intros Hi. destruct (worker_at_place i Hi) as (k & Hk & Huniq). exists k. split; [done|].
  apply (head_omap_unique (λ e, entry_of e i) _ k (k, (answer (wid i, request (wid i) page_size), length (mine (wid i) i)))).
  - by rewrite entries_lookup, Hk.
  - unfold entry_of. rewrite decide_True; [done|]. simpl. by apply mine_next.
  - intros k' x' Hx Hne. rewrite entries_lookup in Hx. destruct (m !! k') as [e|] eqn:He; [|done]. injection Hx as <-.
    apply (entry_none i k' e He). right. intros E. by apply Hne, (Huniq k' e).
Qed.

Lemma worker_of_beyond i : (page_size ≤ i)%nat → worker_of (map answer m) (offsets_at m i) i = None.
Proof.
  intros Hi. apply (head_omap_none (λ e, entry_of e i)). intros x Hx. apply list_elem_of_lookup in Hx as [k Hk].
  rewrite entries_lookup in Hk. destruct (m !! k) as [e|] eqn:He; [|done]. injection Hk as <-. apply (entry_none i k e He). by left.
Qed.

Lemma offsets_step i k : (i < page_size)%nat → m !! k = Some (wid i, request (wid i) page_size) →
  (∀ k' e, m !! k' = Some e → e.1 = wid i → k' = k) → <[k := Datatypes.S (length (mine (wid i) i))]> (offsets_at m i) = offsets_at m (Datatypes.S i).
Proof.
  intros Hi Hk Huniq. apply list_eq. intros k'. unfold offsets_at.
  assert (∀ j, map (λ e : Z * Result_, length (mine e.1 j)) m !! k' = (λ e : Z * Result_, length (mine e.1 j)) <$> m !! k') as E.
  { intros j. apply list_lookup_fmap. }
  destruct (decide (k' = k)) as [->|Hne].
  - rewrite list_lookup_insert_eq by (rewrite length_map; by eapply lookup_lt_Some). rewrite E, Hk. simpl. rewrite mine_S, decide_True by done.
    rewrite length_app. simpl. f_equal. lia.
  - rewrite list_lookup_insert_ne by done. rewrite !E. destruct (m !! k') as [e|] eqn:He; [simpl|done]. rewrite mine_S, decide_False, app_nil_r; [done|].
    intros E'. by apply Hne, (Huniq k' e).
Qed.

(** ** Putting the answers together *)

(** The texts of the first [i] places; the others are blank. *)
Definition page_table (n cnt i : nat) (text : Z → nat → Z → S) : list (list S) :=
  table n cnt (λ dis j, if decide (j < i)%nat then text (wid j) dis (doc j) else no_text).

Definition filled_page (cnt i : nat) : TextPart S :=
  Texts (page_table dnum cnt i full) (page_table dnum cnt i snippet) (page_table snum cnt i summary).

Lemma copy_place cnt i k : (i < page_size)%nat → m !! k = Some (wid i, request (wid i) page_size) →
  copy_texts (texts (answer (wid i, request (wid i) page_size)).2) dnum snum (length (mine (wid i) i)) i (filled_page cnt i) =
  filled_page cnt (Datatypes.S i).
Proof.
  intros Hi Hk. assert (map doc (mine (wid i) page_size) !! length (mine (wid i) i) = Some (doc i)) as Hd.
  { rewrite (list_lookup_fmap doc (mine (wid i) page_size) (length (mine (wid i) i)) :
      map doc (mine (wid i) page_size) !! length (mine (wid i) i) = doc <$> mine (wid i) page_size !! length (mine (wid i) i)).
    by rewrite (proj2 (mine_next (wid i) i page_size Hi) eq_refl). }
  unfold copy_texts, filled_page, page_table. simpl.
  f_equal; by rewrite (copy_column no_text _ cnt _ _ _ (doc i) i (λ dis j, _ (wid j) dis (doc j)) Hd).
Qed.

Lemma summary_loop_ok cnt n : ∀ i, (i ≤ page_size)%nat →
  summary_loop (map answer m) dnum snum (seq i n) (offsets_at m i) (filled_page cnt i) = Some (filled_page cnt (Nat.min (i + n) page_size)).
Proof.
  induction n as [|n IH]; intros i Hi; cbn [seq summary_loop].
  { by rewrite Nat.add_0_r, Nat.min_l by done. }
  destruct (decide (i < page_size)%nat) as [Hlt|Hge].
  - destruct (worker_of_place i Hlt) as (k & Hk & ->). destruct (worker_at_place i Hlt) as (k' & Hk' & Huniq).
    assert (k = k') as -> by by apply (Huniq k (wid i, request (wid i) page_size)).
    rewrite (list_lookup_fmap answer m k' : map answer m !! k' = answer <$> m !! k'), Hk. cbn [fmap option_fmap option_map mbind option_bind].
    rewrite (copy_place cnt i k' Hlt Hk), (offsets_step i k' Hlt Hk Huniq), IH by lia. do 2 f_equal. lia.
  - rewrite worker_of_beyond by lia. do 2 f_equal. lia.
Qed.

Lemma answers_ok (target : Result_) : (0 < page_size)%nat →
  getSummaryResult no_text (map answer m) target =
  Some (set_texts (filled_page (count_ (page target)) (Nat.min (count_ (page target)) page_size)) target).
Proof.
  intros Hpos. unfold getSummaryResult. destruct (worker_at_place O Hpos) as (k & Hk & _).
  assert (first_failure (map answer m) = None) as ->.
  { unfold first_failure. assert (∀ e, e ∈ m → error_ (answer e).2 = ""%string) as He.
    { intros e Hin. apply list_elem_of_lookup in Hin as [j Hj]. by rewrite (request_at j e Hj). }
    clear -He. rewrite map_map. induction m as [|e l IH]; [done|]. cbn [map]. rewrite (He e) by left. rewrite filter_cons_False by done.
    apply IH. intros e' Hin. apply He. by right. }
  pose proof (summary_loop_ok (count_ (page target)) (count_ (page target)) 0 ltac:(lia)) as Hloop.
  assert (filled_page (count_ (page target)) 0 = blank_texts no_text dnum snum (count_ (page target))) as Eblank.
  { unfold filled_page, page_table, blank_texts. rewrite !table_blank. f_equal; apply table_ext; intros; by rewrite decide_False by lia. }
  assert (offsets_at m 0 = map (λ _, O) (map answer m)) as Eoff by (unfold offsets_at; by rewrite map_map).
  rewrite Eblank, Eoff in Hloop. destruct m as [|e l] eqn:Em; [done|]. cbn [map] in *.
  unfold displayPropertyNum_of, isSummaryOn_of. cbn [head mbind option_bind].
  assert (length (snippetTextOfDocumentInPage_ (texts (answer e).2)) = dnum) as -> by (simpl; unfold answer_table; by rewrite length_map, length_seq).
  assert (length (rawTextOfSummaryInPage_ (texts (answer e).2)) = snum) as -> by (simpl; unfold answer_table; by rewrite length_map, length_seq).
  rewrite Hloop. done.
Qed.
End pages.

(** Asking the workers for the texts of a page and putting their answers
    together gives every place of the page the texts of its own document, from
    that document's own worker; places beyond the documents stay blank. *)
Theorem page_texts_right {U S F} utf8 (no_words : U) (no_text : S) (total : KeywordSearchResult U S F) full snippet summary dnum snum :
  length (topKWorkerIds_ (topK total)) = length (topKDocs_ (topK total)) → TOP_K_NUM total ≠ 0 → (0 < page_size total)%nat →
  ∃ m, splitSearchResultByWorkerid utf8 no_words total [] = Some m ∧
  ∀ target : KeywordSearchResult U S F, getSummaryResult no_text (map (answer full snippet summary dnum snum) m) target =
    let cnt := count_ (page target) in
    Some (set_texts (filled_page no_text total full snippet summary dnum snum cnt (Nat.min cnt (page_size total))) target).
Proof.
  intros Hlen Hk Hpos. destruct (split_all utf8 no_words total Hlen (page_size total) (le_n _)) as (m & E & Hm). exists m. split.
  - unfold splitSearchResultByWorkerid. rewrite (proj2 (Z.eqb_neq _ _) Hk). simpl.
    rewrite (proj2 (Nat.eqb_neq _ _)) by (unfold page_size, page_end in Hpos; lia). fold (page_size total). by rewrite E.
  - intros target. by apply (answers_ok utf8 no_words no_text total Hlen full snippet summary dnum snum m Hm).
Qed.

(** ** Witness *)

(** Three documents of two workers; the page shows the last two. *)
Definition three_docs : KeywordSearchResult string string Z :=
  Result 0 "" (Query "tea" "" 0 "shop" "" [] []) dist_new (TopK [7; 5; 4] [1; 2; 1] [] [] [] []) (Page 1 2 [] []) (Texts [] [] [])
    (Counts 3 ∅ (Range f_zero f_zero) rep_new [] ∅) (Mining [] [] [] [] [] [] 0) 10.

Definition named_text (w : Z) (dis : nat) (d : Z) : string := (pretty w ++ ":" ++ pretty d)%string.

Lemma page_texts_witness :
  ∃ m r, splitSearchResultByWorkerid 0 ""%string three_docs [] = Some m ∧ map fst m = [1; 2] ∧
  getSummaryResult "none"%string (map (answer named_text named_text named_text 1 0) m) three_docs = Some r ∧
  snippetTextOfDocumentInPage_ (texts r) = [["2:5"%string; "1:4"%string]].
Proof.
  destruct (page_texts_right 0 ""%string "none"%string three_docs named_text named_text named_text 1 0) as (m & E & Hr).
  - done.
  - done.
  - vm_compute. lia.
  - exists m. specialize (Hr three_docs). eexists. split_and!; [exact E| |exact Hr|].
    + revert E. vm_compute. by intros [= <-].
    + by vm_compute.
Defined.
