(* ===== verification/DistSearch.v ===== *)
(** * A search over several nodes
    ([bundles/index/IndexSearchService.cpp, core/common/SearchCache.h])

    The master looks in its cache, or asks all workers and merges what they
    found; then it asks the workers of the documents on the page for their
    texts.  The answers of the workers are arguments: what they found, given the
    request, and the texts of the documents asked for.  [None] inside the
    functions for a distributed request is a request that failed; the outer
    [option] is a read out of range.

    The store of the cache is a library outside [src/]; the theorems need
    nothing of it. *)
From S2P Require Import Prelude CNum PriorityQueue QueueSpec GroupRep GroupMerge GroupResize OntologyMerge SearchResult MergeComparator SearchMerger SearchSplit TopKMerge SearchMergerSpec PageTexts.

(** ** The cache of results *)

Section cache.
Context {U S F Key Store : Type}.
Notation Result_ := (KeywordSearchResult U S F).
(** The fields of a key that are read, and the store. *)
Context (key_query : Key → string) (key_isRandomRank : Key → bool).
Context (store_get : Store → Key → option Result_) (store_insert : Store → Key → Result_ → Store).
(** The text of a number or a range as a label. *)
Context (to_items : GroupRep U → option (GroupRep U)).

Record SearchCache := Cache {
  cache_ : Store;
  special_cache_ : Store;
  refreshInterval_ : Z;
  refreshAll_ : bool }.

Definition needRefresh (c : SearchCache) (now : Z) (key : Key) (timestamp : Z) : bool :=
  if refreshAll_ c || key_isRandomRank key then refreshInterval_ c <? now - timestamp else false.

Definition IsSpecialSearch (key : Key) : bool := String.eqb (key_query key) "*".

(** [None]: not found; a result that was found is swapped with the caller's. *)
Definition cache_get (c : SearchCache) (now : Z) (key : Key) (result : Result_) : option Result_ :=
  if nodeType_ (distSearchInfo_ result) =? NODE_WORKER then None
  else
    value ← store_get (if IsSpecialSearch key then special_cache_ c else cache_ c) key;
    if negb (needRefresh c now key (timeStamp_ (mining value))) then Some (swap_result result value).1 else None.

Definition stamped (now : Z) (groups : GroupRep U) (r : Result_) : Result_ :=
  let c := counts r in let m := mining r in
  Result (errno_ r) (error_ r) (query r) (distSearchInfo_ r) (topK r) (page r) (texts r)
    (Counts (totalCount_ c) (counterResults_ c) (propertyRange_ c) groups (attrRep_ c) (autoSelectGroupLabels_ c))
    (Mining (adCachedTopKDocs_ m) (numberOfDuplicatedDocs_ m) (numberOfSimilarDocs_ m) (docCategories_ m) (relatedQueryList_ m) (rqScore_ m) now)
    (TOP_K_NUM r).

(** The result is stored without its texts; the caller's result keeps them. *)
Definition cache_set (c : SearchCache) (now : Z) (key : Key) (result : Result_) : option (SearchCache * Result_) :=
  if nodeType_ (distSearchInfo_ result) =? NODE_WORKER then Some (c, result)
  else
    groups ← to_items (groupRep_ (counts result));
    let result := stamped now groups result in
    let stored := set_texts (Texts [] [] []) result in
    Some (if IsSpecialSearch key then Cache (cache_ c) (store_insert (special_cache_ c) key stored) (refreshInterval_ c) (refreshAll_ c)
          else Cache (store_insert (cache_ c) key stored) (special_cache_ c) (refreshInterval_ c) (refreshAll_ c), result).
End cache.
Arguments Cache {Store}.
Arguments cache_ {Store}.
Arguments special_cache_ {Store}.
Arguments refreshInterval_ {Store}.
Arguments refreshAll_ {Store}.

(** ** The search *)

Section search.
Context {U S F Key Store : Type} `{TextLt U}.
Context {Q : Type} `{!PQOps (U * double) Q}.
Context (utf8 : Z) (no_words : U) (no_text : S) (f_add : F → F → F) (f_none : F).
Context (GetWDocId : Z → Z → Z) (IsNewerDocId : Z → Z → bool) (roundDown : nat → Z → nat).
Context (key_query : Key → string) (key_isRandomRank : Key → bool).
Context (store_get : Store → Key → option (KeywordSearchResult U S F)) (store_insert : Store → Key → KeywordSearchResult U S F → Store).
Context (to_items : GroupRep U → option (GroupRep U)).
Notation Result_ := (KeywordSearchResult U S F).
Notation DistInfo_ := (DistKeywordSearchInfo F).

(** What the search reads of a request. *)
Record Action := Search {
  a_start : nat;
  a_count : nat;
  a_wand : bool;
  a_suffix_match : bool;
  a_disableGetDocs : bool;
  a_key : Z → nat → Key }.

(** [PageInfo::topKStart] with [IsTopKComesFromConfig]. *)
Definition topKStart (topKNum : Z) (a : Action) : nat := if a_suffix_match a then O else roundDown (a_start a) topKNum.

(** The answers of the workers. *)
Record Network := Net {
  ask_info : DistInfo_ → option (list (Z * DistInfo_));
  ask_search : Result_ → option (list (Z * Result_));
  ask_texts : list (Z * Result_) → list (Z * Result_) }.

Context (topKNum_ : Z) (net : Network).

Definition with_option (option : Z) (d : DistInfo_) : DistInfo_ :=
  DistInfo (isDistributed_ d) (effective_ d) (include_summary_data_ d) option (nodeType_ d) (dfmap_ d) (ctfmap_ d) (maxtfmap_ d) (sortData d)
    (majorTokenNum_ d).

(** The information for ranking is gathered first. *)
Definition gather_info (a : Action) : option DistInfo_ :=
  let d := DistInfo true true false OPTION_NONE NODE_WORKER ∅ ∅ ∅ sort_new 0 in
  if a_wand a then
    let d := with_option OPTION_GATHER_INFO d in
    infos ← ask_info net d;
    Some (with_option OPTION_CARRIED_INFO (getDistSearchInfo f_add f_none infos d))
  else Some d.

(** [v.erase(v.begin(), v.begin() + min(n, v.size()))] *)
Definition erase_to {A} (n : nat) (l : list A) : list A := drop (Nat.min n (length l)) l.

(** The first [topKStart] documents are removed, with their scores. *)
Definition remove_first (n : nat) (r : Result_) : Result_ :=
  if (0 <? n)%nat then
    let t := topK r in
    set_topK (TopK (erase_to n (topKDocs_ t)) (topKWorkerIds_ t) (topKtids_ t) (erase_to n (topKRankScoreList_ t))
      (erase_to n (topKCustomRankScoreList_ t)) (erase_to n (topKGeoDistanceList_ t))) r
  else r.

Definition to_master (r : Result_) : Result_ :=
  let d := distSearchInfo_ r in
  set_dist (DistInfo (isDistributed_ d) (effective_ d) (include_summary_data_ d) (option_ d) NODE_MASTER (dfmap_ d) (ctfmap_ d) (maxtfmap_ d)
    (sortData d) (majorTokenNum_ d)) r.

(** The texts of the page are asked for and put together. *)
Definition fetch_texts (r : Result_) : option Result_ :=
  resultMap ← splitSearchResultByWorkerid utf8 no_words r [];
  match resultMap with
  | [] => Some r
  | _ => getSummaryMiningResult no_text (ask_texts net resultMap) r
  end.

(** [None] inside: the search failed. *)
Definition search_workers (a : Action) (d : DistInfo_) (resultItem : Result_) : option (option Result_) :=
  let dist := setStartCount (a_start a) (a_count a) (set_dist d (result_new utf8 no_words)) in
  match ask_search net dist with
  | None => Some None
  | Some workers =>
      '(_, dist) ← getDistSearchResult (Q := Q) no_text GetWDocId IsNewerDocId roundDown workers dist;
      let start := topKStart topKNum_ a in
      let dist := adjustStartCount start (remove_first start dist) in
      let resultItem := to_master (swap_result resultItem dist).1 in
      r ← (if a_disableGetDocs a || include_summary_data_ (distSearchInfo_ resultItem) then Some resultItem else fetch_texts resultItem);
      Some (Some r)
  end.

(** The master of a distributed search: whether it succeeded, the result and
    the cache; [slow]: the workers took long enough for the result to be kept. *)
Definition getSearchResult (c : SearchCache (Store := Store)) (now : Z) (slow : bool) (a : Action) (resultItem : Result_)
    : option (bool * Result_ * SearchCache (Store := Store)) :=
  match gather_info a with
  | None => Some (false, resultItem, c)
  | Some d =>
      let start := topKStart topKNum_ a in
      let key := a_key a (option_ d) start in
      match cache_get key_query key_isRandomRank store_get c now key resultItem with
      | None =>
          found ← search_workers a d resultItem;
          match found with
          | None => Some (false, resultItem, c)
          | Some r =>
              if negb (is_nil (topKDocs_ (topK r))) && slow then
                '(c, r) ← cache_set key_query store_insert to_items c now key r; Some (true, r, c)
              else Some (true, r, c)
          end
      | Some r =>
          let r := adjustStartCount start (setStartCount (a_start a) (a_count a) r) in
          r ← fetch_texts r;
          Some (true, r, c)
      end
  end.
End search.

(** ** What the master returns *)

Section master.
Context {U S F Key Store : Type} `{TextOrder U} `{!EqDecision U}.
Context {Q : Type} {Ops : PQOps (U * double) Q} `{!BoundedPQ name_score name_lt Ops}.
Context (utf8 : Z) (no_words : U) (no_text : S) (f_add : F → F → F) (f_none : F).
Context (GetWDocId : Z → Z → Z) (IsNewerDocId : Z → Z → bool) (roundDown : nat → Z → nat).
Context (key_query : Key → string) (key_isRandomRank : Key → bool).
Context (store_get : Store → Key → option (KeywordSearchResult U S F)) (store_insert : Store → Key → KeywordSearchResult U S F → Store).
Context (to_items : GroupRep U → option (GroupRep U)) (topKNum_ : Z).
Notation Result_ := (KeywordSearchResult U S F).
Notation Worker := (Z * Result_)%type.
Notation getSearchResult := (getSearchResult (Q := Q) utf8 no_words no_text f_add f_none GetWDocId IsNewerDocId roundDown key_query key_isRandomRank
  store_get store_insert to_items topKNum_).

(** The workers' texts. *)
Context (full snippet summary : Z → nat → Z → S) (dnum snum : nat).
Context (search : Result_ → option (list Worker)).

Definition network : Network (S := S) (U := U) (F := F) := Net (λ _, Some []) search (map (answer full snippet summary dnum snum)).

(** The page of [r] holds, place by place, the texts of its documents. *)
Definition page_right (r : Result_) : Prop :=
  texts r = filled_page no_text r full snippet summary dnum snum (count_ (page r)) (Nat.min (count_ (page r)) (page_size r)).

(** The documents and the page of [r'] are those of [r]. *)
Definition same_page (r r' : Result_) : Prop := topK r' = topK r ∧ page r' = page r ∧ TOP_K_NUM r' = TOP_K_NUM r ∧ error_ r' = error_ r.

Lemma page_right_set t (r : Result_) : t = filled_page no_text r full snippet summary dnum snum (count_ (page r)) (Nat.min (count_ (page r)) (page_size r)) →
  page_right (set_texts t r).
Proof. intros ->. done. Qed.

Lemma fetch_texts_ok (r : Result_) : length (topKWorkerIds_ (topK r)) = length (topKDocs_ (topK r)) → TOP_K_NUM r ≠ 0 →
  ∃ r', fetch_texts utf8 no_words no_text network r = Some r' ∧ same_page r r' ∧ ((0 < page_size r)%nat → page_right r').
Proof.
  intros Hlen Hk. destruct (split_all utf8 no_words r Hlen (page_size r) (le_n _)) as (m & E & Hm). unfold fetch_texts.
  destruct (decide (0 < page_size r)%nat) as [Hpos|Hzero].
  - assert (splitSearchResultByWorkerid utf8 no_words r [] = Some m) as ->.
    { unfold splitSearchResultByWorkerid. rewrite (proj2 (Z.eqb_neq _ _) Hk). simpl.
      rewrite (proj2 (Nat.eqb_neq _ _)) by (unfold page_size, page_end in Hpos; lia). fold (page_size r). by rewrite E. }
    cbn [mbind option_bind]. pose proof (answers_ok utf8 no_words no_text r Hlen full snippet summary dnum snum m Hm r Hpos) as Ea.
    destruct m as [|e l]; [destruct (worker_at_place utf8 no_words r Hlen [] Hm O Hpos) as (k & Hk' & _); done|].
    unfold getSummaryMiningResult. cbn [network ask_texts]. rewrite Ea. eexists. split_and!; [done|by split_and!|]. intros _. by apply page_right_set.
  - assert (page_size r = O) as E0 by lia.
    assert (splitSearchResultByWorkerid utf8 no_words r [] = Some []) as ->.
    { unfold splitSearchResultByWorkerid. destruct (_ || _); [done|]. fold (page_size r). by rewrite E0. }
    cbn [mbind option_bind]. exists r. split_and!; [done|by split_and!|lia].
Qed.

Lemma best_lengths kept n positions rest t : best_documents (U := U) (S := S) (F := F) GetWDocId IsNewerDocId kept n positions rest t →
  length (topKWorkerIds_ t) = length (topKDocs_ t).
Proof.
  intros Hb. pose proof (f_equal length (bd_docs _ _ _ _ _ _ _ Hb)) as Ed. pose proof (f_equal length (bd_ids _ _ _ _ _ _ _ Hb)) as Ei.
  rewrite !length_map in *. congruence.
Qed.

(** The request the workers get for a search that gathers no information first. *)
Definition first_request (a : Action (Key := Key)) : Result_ :=
  setStartCount (a_start a) (a_count a) (set_dist (DistInfo true true false OPTION_NONE NODE_WORKER ∅ ∅ ∅ sort_new 0) (result_new utf8 no_words)).

Definition missed (c : SearchCache (Store := Store)) (now : Z) (a : Action (Key := Key)) (resultItem : Result_) : Prop :=
  cache_get key_query key_isRandomRank store_get c now (a_key a OPTION_NONE (topKStart roundDown topKNum_ a)) resultItem = None.

(** C21: A page of the first block, for a search that is no WAND search, whose
    documents may be fetched ([disableGetDocs] is off), that is answered fast
    enough not to be stored and is not in the cache, and that two or more
    workers answer without error, at least one of them without texts: the
    master returns the best documents, best first, of the workers that found
    the most major tokens ([keep_largest]; the documents of the others are
    dropped), and each place of the page has the texts of its own document,
    from the worker that found it. *)
Theorem first_page_right c now a resultItem r0 r1 rest : let workers := r0 :: r1 :: rest in let kept := keep_largest workers in
  a_wand a = false → a_disableGetDocs a = false → topKStart roundDown topKNum_ a = O → missed c now a resultItem →
  search (first_request a) = Some workers → Forall (λ w : Worker, error_ w.2 = ""%string) workers →
  Exists (λ w : Worker, include_summary_data_ (distSearchInfo_ w.2) = false) kept → TOP_K_NUM r0.2 ≠ 0 →
  StrictWeakOn (λ _, True) IsNewerDocId → counts_ok kept → sorted_results GetWDocId IsNewerDocId kept →
  ∃ r positions left_out, getSearchResult network c now false a resultItem = Some (true, r, c) ∧
  best_documents GetWDocId IsNewerDocId kept (top_count roundDown (start_ (page r0.2)) (TOP_K_NUM r0.2) (total_docs kept)) positions left_out (topK r) ∧
  ((0 < page_size r)%nat → page_right r).
Proof.
  intros workers kept Hwand Hdocs Hstart Hmiss Hsearch Herr Hsum Hk Hnew Hcounts Hsorted.
  unfold DistSearch.getSearchResult, gather_info. rewrite Hwand. unfold missed in Hmiss. cbn [option_]. rewrite Hmiss.
  unfold search_workers. cbn [network ask_search]. fold (first_request a). rewrite Hsearch.
  destruct (getDistSearchResult_ok (Q := Q) no_text GetWDocId IsNewerDocId roundDown r0 r1 rest (first_request a) Herr Hnew Hcounts Hsorted eq_refl)
    as (ws & m & positions & left_out & E & _ & Htop & Hinc & Hbest & _).
  unfold workers. rewrite E. cbn [mbind option_bind]. rewrite Hstart, Hdocs. cbn [orb].
  set (r := to_master _).
  assert (include_summary_data_ (distSearchInfo_ r) = false) as ->.
  { change (include_summary_data_ (distSearchInfo_ r)) with (include_summary_data_ (distSearchInfo_ m)). rewrite Hinc. apply negb_false_iff.
    apply existsb_exists. apply Exists_exists in Hsum as (w & Hw & Es). exists w. split; [by apply list_elem_of_In|by rewrite Es]. }
  destruct (fetch_texts_ok r) as (r' & Ef & (Et & Ep & Ek & _) & Hright).
  { apply (best_lengths kept _ positions left_out (topK m) Hbest). }
  { change (TOP_K_NUM r) with (TOP_K_NUM m). by rewrite Htop. }
  rewrite Ef. cbn [mbind option_bind]. rewrite andb_false_r. exists r', positions, left_out. split_and!; [done|by rewrite Et|].
  intros Hpos. apply Hright. unfold page_size, page_end, start_in_page in *. by rewrite Et, Ep, Ek in Hpos.
Qed.

(** When a worker reports an error the master still succeeds: it returns an
    empty list of documents, and the error of the caller's result instead of
    the worker's. *)
Theorem worker_error_lost c now slow a resultItem workers e : a_wand a = false → topKStart roundDown topKNum_ a = O → missed c now a resultItem →
  search (first_request a) = Some workers → workers ≠ [] → first_failure workers = Some e →
  ∃ r, getSearchResult network c now slow a resultItem = Some (true, r, c) ∧ error_ r = error_ resultItem ∧ topKDocs_ (topK r) = [].
Proof.
  intros Hwand Hstart Hmiss Hsearch Hne Hfail.
  unfold DistSearch.getSearchResult, gather_info. rewrite Hwand. unfold missed in Hmiss. cbn [option_]. rewrite Hmiss.
  unfold search_workers. cbn [network ask_search]. fold (first_request a). rewrite Hsearch.
  unfold getDistSearchResult. destruct workers as [|w ws]; [done|]. rewrite Hfail. cbn [mbind option_bind]. rewrite Hstart.
  set (r := to_master _). exists r.
  assert ((if a_disableGetDocs a || include_summary_data_ (distSearchInfo_ r) then Some r else fetch_texts utf8 no_words no_text network r) = Some r) as ->.
  { destruct (_ || _); [done|]. done. }
  cbn [mbind option_bind]. by split_and!.
Qed.

(** A page behind the first block: the merged list has at most [TOP_K_NUM]
    documents, and as many are removed from its front. *)
Lemma later_pages_empty c now a resultItem r0 r1 rest : let workers := r0 :: r1 :: rest in let kept := keep_largest workers in
  a_wand a = false → a_disableGetDocs a = true → missed c now a resultItem →
  search (first_request a) = Some workers → Forall (λ w : Worker, error_ w.2 = ""%string) workers →
  TOP_K_NUM r0.2 = topKNum_ → 0 < topKNum_ < 2 ^ 31 → topKNum_ ≤ Z.of_nat (topKStart roundDown topKNum_ a) →
  StrictWeakOn (λ _, True) IsNewerDocId → counts_ok kept → sorted_results GetWDocId IsNewerDocId kept →
  ∃ r, getSearchResult network c now false a resultItem = Some (true, r, c) ∧ topKDocs_ (topK r) = [].
Proof.
  intros workers kept Hwand Hdocs Hmiss Hsearch Herr Hk Hpos Hle Hnew Hcounts Hsorted.
  unfold DistSearch.getSearchResult, gather_info. rewrite Hwand. unfold missed in Hmiss. cbn [option_]. rewrite Hmiss.
  unfold search_workers. cbn [network ask_search]. fold (first_request a). rewrite Hsearch.
  destruct (getDistSearchResult_ok (Q := Q) no_text GetWDocId IsNewerDocId roundDown r0 r1 rest (first_request a) Herr Hnew Hcounts Hsorted eq_refl)
    as (ws & m & positions & left_out & E & _ & _ & _ & Hbest & _).
  unfold workers. rewrite E. cbn [mbind option_bind]. rewrite Hdocs. cbn [orb mbind option_bind]. rewrite andb_false_r. eexists. split; [done|].
  cbn [to_master set_dist topK swap_result swap_dist fst adjustStartCount setStartCount set_page]. unfold remove_first.
  rewrite (proj2 (Nat.ltb_lt 0 _)) by lia. cbn [set_topK topK topKDocs_]. unfold erase_to. apply drop_ge.
  pose proof (f_equal length (bd_docs _ _ _ _ _ _ _ Hbest)) as Hlen. rewrite !length_map, (bd_length _ _ _ _ _ _ _ Hbest) in Hlen. rewrite Hlen.
  unfold top_count. rewrite Hk. unfold u64. rewrite Z.mod_small by lia. lia.
Qed.
End master.

(** ** Witnesses *)

Definition tea_page (start : nat) : Action (Key := nat) := Search start 2 false false false (λ _ n, n).

Definition empty_cache : SearchCache (Store := unit) := Cache tt tt 60 false.

Definition tea_search (start : nat) (_ : KeywordSearchResult string string Z) : option (list (Z * KeywordSearchResult string string Z)) :=
  Some (map (λ w, (w.1, setStartCount start 2 w.2)) tea_workers).

Definition tea_result (slow : bool) (start : nat) (search : KeywordSearchResult string string Z → option (list (Z * KeywordSearchResult string string Z))) :=
  getSearchResult (Q := pqueue (string * double)) 0 ""%string "none"%string Z.add 0 wide_id newer round_down (λ _, "tea"%string) (λ _, false)
    (λ _ _, None) (λ s _ _, s) Some 3 (network named_text named_text named_text 1 0 search) empty_cache 0 slow (tea_page start) (result_new 0 "").

Lemma first_page_right_witness :
  ∃ r, tea_result false 0 (λ _, Some tea_workers) = Some (true, r, empty_cache) ∧ topKDocs_ (topK r) = [7; 5; 4] ∧
  snippetTextOfDocumentInPage_ (texts r) = [["1:7"; "2:5"; "2:4"]]%string.
Proof.
  destruct (first_page_right (Ops := attr_queue) 0 ""%string "none"%string Z.add 0 wide_id newer round_down (λ _, "tea"%string) (λ _, false)
    (λ _ _, None) (λ s _ _, s) Some 3 named_text named_text named_text 1 0 (λ _, Some tea_workers) empty_cache 0 (tea_page 0) (result_new 0 "")
    (1, ranked [7; 3] [f_of_Z 3; f_of_Z 1] 12) (2, ranked [5; 4] [f_of_Z 2; f_of_Z 1] 30) [])
    as (r & positions & left_out & E & _ & _).
  - done.
  - done.
  - done.
  - done.
  - done.
  - repeat constructor.
  - by apply Exists_cons_hd.
  - done.
  - apply newer_order.
  - exact tea_counts_ok.
  - exact tea_sorted.
  - exists r. split; [exact E|]. revert E. vm_compute. by intros [= <-].
Defined.

(** The second worker fails. *)
Definition failed_workers : list (Z * KeywordSearchResult string string Z) :=
  [(1, ranked [7; 3] [f_of_Z 3; f_of_Z 1] 12); (2, set_error "disk" (result_new 0 ""))].

Lemma worker_error_lost_witness :
  ∃ r, tea_result true 0 (λ _, Some failed_workers) = Some (true, r, empty_cache) ∧ error_ r = ""%string ∧ topKDocs_ (topK r) = [].
Proof.
  apply (worker_error_lost (Q := pqueue (string * double)) 0 ""%string "none"%string Z.add 0 wide_id newer round_down (λ _, "tea"%string) (λ _, false)
    (λ _ _, None) (λ s _ _, s) Some 3 named_text named_text named_text 1 0 (λ _, Some failed_workers) empty_cache 0 true (tea_page 0)
    (result_new 0 "") failed_workers "disk").
  - done.
  - done.
  - done.
  - done.
  - done.
  - done.
Defined.

(** The fourth document is on the second block, which is empty. *)
Example later_page_empty : ∃ r, tea_result false 3 (tea_search 3) = Some (true, r, empty_cache) ∧ totalCount_ (counts r) = 42 ∧ topKDocs_ (topK r) = [].
Proof. eexists. split; [by vm_compute|]. by vm_compute. Qed.
