(* ===== verification/Sharding.v ===== *)
(** * Which node stores a document ([node-manager/sharding])

    A document belongs to the shard that a number made from its unique key
    selects.  The selection is direct ([HashShardingStrategy]) or goes through a
    table of 65535 entries that is kept in a file ([MapShardingStrategy]).
    [ShardingLaws] is what the parts that send and fetch documents rely on: a
    document is looked up on the shard it was written to.

    Conversions of a key to a number are outside [src/].  A file is its list of
    characters; reading behind the end of an empty key is [None]. *)
From S2P Require Import Prelude CNum Env GroupRep.
From Stdlib Require Import Ascii.

(** ** Configuration *)

Record ShardingConfig := Config {
  shardidList_ : list Z;
  unique_shardkey_ : string;
  range_shardkeys_ : gmap string (list Z);
  attribute_shardkeys_ : gmap string (list string) }.

Definition isUniqueShardKey (c : ShardingConfig) (prop_key : string) : bool := String.eqb (unique_shardkey_ c) prop_key.
Definition isRangeShardKey (c : ShardingConfig) (prop_key : string) : bool := bool_decide (is_Some (range_shardkeys_ c !! prop_key)).
Definition isAttributeShardKey (c : ShardingConfig) (prop_key : string) : bool := bool_decide (is_Some (attribute_shardkeys_ c !! prop_key)).
Definition setUniqueShardKey (prop_key : string) (c : ShardingConfig) : ShardingConfig :=
  Config (shardidList_ c) prop_key (range_shardkeys_ c) (attribute_shardkeys_ c).

Notation ShardFieldListT := (gmap string string).

(** [Utilities::uuidToUint128] and [boost::lexical_cast<size_t>]. *)
Class KeyNumbers := { uuid_to_uint128 : string → Z; cast_size : string → option Z }.

(** A [char] is signed. *)
Definition signed_char (c : ascii) : Z := let n := Z.of_nat (nat_of_ascii c) in if n <? 128 then n else n - 256.

(** The last character, when the key is no number; an empty key has none. *)
Definition convertUniqueIDForSharding `{KeyNumbers} (uid : string) : option Z :=
  if (String.length uid =? 32)%nat then Some (u64 (uuid_to_uint128 uid))
  else match cast_size uid with
       | Some n => Some n
       | None => c ← last (string_chars uid); Some (u64 (signed_char c))
       end.

(** ** The interface *)

(** [None] is undefined behaviour; the shard 0 is none. *)
Class ShardingOps (St : Type) := {
  shard_cfg : St → ShardingConfig;
  sharding_for_write : St → ShardFieldListT → option Z;
  sharding_for_get : St → ShardFieldListT → option (list Z) }.

Class ShardingLaws St `{ShardingOps St} (ok : St → Prop) : Prop := {
  (** The shards in use are numbered from 1, and there is one. *)
  shards_listed : ∀ st, ok st → shardidList_ (shard_cfg st) ≠ [] ∧ Forall (λ s, 0 < s < 256) (shardidList_ (shard_cfg st));
  (** A document with a key is written to one of them ... *)
  written_to_shard : ∀ st fields uid, ok st → fields !! unique_shardkey_ (shard_cfg st) = Some uid → uid ≠ EmptyString →
    ∃ s, sharding_for_write st fields = Some s ∧ s ∈ shardidList_ (shard_cfg st);
  (** ... and looked up there. *)
  looked_up_where_written : ∀ st fields uid s, ok st → fields !! unique_shardkey_ (shard_cfg st) = Some uid →
    sharding_for_write st fields = Some s → sharding_for_get st fields = Some [s];
  (** Without a key all shards are asked. *)
  looked_up_everywhere : ∀ st fields, ok st → fields !! unique_shardkey_ (shard_cfg st) = None →
    sharding_for_get st fields = Some (shardidList_ (shard_cfg st)) }.

(** ** By the key itself *)

Section hash.
Context `{KeyNumbers}.

(** The shard at [shardIndex % size]. *)
Definition shard_of_key (l : list Z) (uid : string) : option Z :=
  shardIndex ← convertUniqueIDForSharding uid; l !! Z.to_nat (shardIndex `mod` Z.of_nat (length l)).

Definition hash_for_write (c : ShardingConfig) (fields : ShardFieldListT) : option Z :=
  match shardidList_ c with
  | [] => Some 0
  | [s] => Some s
  | l => match fields !! unique_shardkey_ c with
         | None => Some 0
         | Some uid => shard_of_key l uid
         end
  end.

Definition hash_for_get (c : ShardingConfig) (fields : ShardFieldListT) : option (list Z) :=
  match shardidList_ c with
  | [] => Some []
  | [s] => Some [s]
  | l => match fields !! unique_shardkey_ c with
         | Some uid => s ← shard_of_key l uid; Some [s]
         | None => Some l
         end
  end.

#[export] Instance hash_sharding : ShardingOps ShardingConfig := {
  shard_cfg c := c; sharding_for_write := hash_for_write; sharding_for_get := hash_for_get }.
End hash.

(** ** By a table *)

Definition MAX_MAP_SIZE : nat := Z.to_nat 65535.

Notation File := (list ascii).
Notation FileSystem := (gmap string File).

Definition newline : ascii := "010"%char.
Definition is_space (c : ascii) : bool := let n := nat_of_ascii c in (n =? 32)%nat || ((9 <=? n) && (n <=? 13))%nat.
Definition is_digit (c : ascii) : bool := let n := nat_of_ascii c in ((48 <=? n) && (n <=? 57))%nat.
Definition digit_value (c : ascii) : Z := Z.of_nat (nat_of_ascii c) - 48.

Fixpoint skip_space (s : File) : File :=
  match s with c :: s' => if is_space c then skip_space s' else s | [] => [] end.

Definition number_value (ds : list ascii) : Z := fold_left (λ n c, 10 * n + digit_value c) ds 0.

(** [ifs >> tmpid]: the number, what is left, and whether the stream is still
    good: it is not behind the last character, without a digit or with a number
    that does not fit. *)
Definition read_u32 (s : File) : Z * File * bool :=
  let s := skip_space s in
  let '(negative, s) := match s with
                        | c :: s' => if Ascii.eqb c "-" then (true, s') else if Ascii.eqb c "+" then (false, s') else (false, s)
                        | [] => (false, s)
                        end in
  let '(ds, rest) := span is_digit s in
  match ds with
  | [] => (0, rest, false)
  | _ => let n := number_value ds in
         if 2 ^ 32 <=? n then (2 ^ 32 - 1, rest, false) else (if (negative : bool) then u32 (- n) else n, rest, negb (bool_decide (rest = [])))
  end.

(** The loop of [readShardingMapFile]; fuel for the characters left. *)
Fixpoint read_ids (fuel : nat) (s : File) (sharding_map : list Z) : option (list Z) :=
  match fuel with
  | O => None
  | S fuel =>
      let '(tmpid, rest, good) := read_u32 s in
      let shardid := u8 tmpid in
      let sharding_map := if shardid =? 0 then sharding_map else sharding_map ++ [shardid] in
      if (length sharding_map =? MAX_MAP_SIZE)%nat then Some sharding_map
      else if (good : bool) then read_ids fuel rest sharding_map else Some sharding_map
  end.

(** A table of the wrong size is cleared. *)
Definition readShardingMapFile (fs : FileSystem) (fullpath : string) (sharding_map : list Z) : option (list Z) :=
  match fs !! fullpath with
  | None => Some sharding_map
  | Some s => m ← read_ids (S (length s)) s []; Some (if (length m =? MAX_MAP_SIZE)%nat then m else [])
  end.

Definition print_id (id : Z) : File := string_chars (pretty id) ++ [newline].

Definition saveShardingMapToFile (fs : FileSystem) (fullpath : string) (sharding_map : list Z) : FileSystem :=
  if (length sharding_map =? MAX_MAP_SIZE)%nat then
    <[fullpath := concat (map (λ id, if 0 <? id then print_id id else []) sharding_map)]> fs
  else fs.

Record MapSharding := MapStrategy {
  map_cfg : ShardingConfig;
  saved_sharding_map_ : list Z;
  map_file_path_ : string }.

Definition map_save (fs : FileSystem) (st : MapSharding) : FileSystem :=
  match saved_sharding_map_ st with [] => fs | _ => saveShardingMapToFile fs (map_file_path_ st) (saved_sharding_map_ st) end.

(** The table of a first start: the shards in turn. *)
Definition first_map (l : list Z) : option (list Z) := mapM (λ i, l !! (i mod length l)%nat) (seq 0 MAX_MAP_SIZE).

Definition map_init (fs : FileSystem) (st : MapSharding) : option (bool * FileSystem * MapSharding) :=
  if String.eqb (map_file_path_ st) "" then Some (false, fs, st)
  else match fs !! map_file_path_ st with
       | None =>
           if (length (shardidList_ (map_cfg st)) <=? 1)%nat then Some (true, fs, st)
           else m ← first_map (shardidList_ (map_cfg st));
                let st := MapStrategy (map_cfg st) m (map_file_path_ st) in Some (true, map_save fs st, st)
       | Some _ =>
           m ← readShardingMapFile fs (map_file_path_ st) (saved_sharding_map_ st); Some (true, fs, MapStrategy (map_cfg st) m (map_file_path_ st))
       end.

Section map.
Context `{KeyNumbers}.

Definition map_shard_of_key (st : MapSharding) (uid : string) : option Z :=
  match shardidList_ (map_cfg st), saved_sharding_map_ st with
  | [s], _ => Some s
  | _, [] => Some 0
  | _, m => index ← convertUniqueIDForSharding uid; m !! Z.to_nat (index `mod` Z.of_nat (length m))
  end.

Definition map_for_write (st : MapSharding) (fields : ShardFieldListT) : option Z :=
  match fields !! unique_shardkey_ (map_cfg st) with
  | None => Some 0
  | Some uid => map_shard_of_key st uid
  end.

Definition map_for_get (st : MapSharding) (fields : ShardFieldListT) : option (list Z) :=
  match fields !! unique_shardkey_ (map_cfg st) with
  | Some uid => s ← map_shard_of_key st uid; Some (if 0 <? s then [s] else [])
  | None => Some (shardidList_ (map_cfg st))
  end.

#[export] Instance map_sharding : ShardingOps MapSharding := {
  shard_cfg := map_cfg; sharding_for_write := map_for_write; sharding_for_get := map_for_get }.
End map.

(** ** Both keep the promises *)

(** Numbers of shards fit a [uint8_t], and 0 is none. *)
Definition shards_ok (c : ShardingConfig) : Prop := shardidList_ c ≠ [] ∧ Forall (λ s, 0 < s < 256) (shardidList_ c).

(** The table of a collection with several shards is full. *)
Definition map_ok (st : MapSharding) : Prop :=
  shards_ok (map_cfg st) ∧
  (length (shardidList_ (map_cfg st)) = 1%nat ∨
   length (saved_sharding_map_ st) = MAX_MAP_SIZE ∧ Forall (λ s, s ∈ shardidList_ (map_cfg st)) (saved_sharding_map_ st)).

Lemma lookup_mod {A} (l : list A) n : l ≠ [] → ∃ x, l !! Z.to_nat (n `mod` Z.of_nat (length l)) = Some x ∧ x ∈ l.
Proof.
  intros Hl. destruct (lookup_lt_is_Some_2 l (Z.to_nat (n `mod` Z.of_nat (length l)))) as [x Hx].
  { destruct l; [done|]. pose proof (Z.mod_pos_bound n (Z.of_nat (length (a :: l)))). simpl length in *. lia. }
  exists x. split; [done|]. by eapply list_elem_of_lookup_2.
Qed.

Lemma string_chars_nonempty s : s ≠ EmptyString → ∃ c, last (string_chars s) = Some c.
Proof.
  intros Hs. destruct (last (string_chars s)) as [c|] eqn:E; [by exists c|]. apply last_None in E.
  by destruct s.
Qed.

Section laws.
Context `{KeyNumbers}.

Lemma key_number uid : uid ≠ EmptyString → is_Some (convertUniqueIDForSharding uid).
Proof.
  intros Hu. unfold convertUniqueIDForSharding. destruct (_ =? _)%nat; [done|]. destruct (cast_size uid); [done|].
  destruct (string_chars_nonempty uid Hu) as [c ->]. done.
Qed.

Lemma shard_of_key_ok l uid : l ≠ [] → uid ≠ EmptyString → ∃ s, shard_of_key l uid = Some s ∧ s ∈ l.
Proof. intros Hl Hu. unfold shard_of_key. destruct (key_number uid Hu) as [n ->]. by apply lookup_mod. Qed.

#[export] Instance hash_laws : ShardingLaws ShardingConfig shards_ok.
Proof.
  split.
  - done.
  - intros c fields uid [Hl _] Hu Hne. cbn [sharding_for_write hash_sharding shard_cfg] in *. unfold hash_for_write. rewrite Hu.
    destruct (shardidList_ c) as [|s [|s' l]]; [done|exists s; split; [done|by left]|]. by apply shard_of_key_ok.
  - intros c fields uid s [Hl _] Hu. cbn [sharding_for_write sharding_for_get hash_sharding shard_cfg] in *. unfold hash_for_write, hash_for_get.
    rewrite Hu. destruct (shardidList_ c) as [|s1 [|s2 l]]; [done|congruence|]. by intros ->.
  - intros c fields [Hl _] Hu. cbn [sharding_for_get hash_sharding shard_cfg] in *. unfold hash_for_get. rewrite Hu.
    by destruct (shardidList_ c) as [|s1 [|s2 l]].
Qed.

Lemma map_shard_ok st uid : map_ok st → uid ≠ EmptyString → ∃ s, map_shard_of_key st uid = Some s ∧ s ∈ shardidList_ (map_cfg st).
Proof.
  intros [[Hl _] Hm] Hu. unfold map_shard_of_key. destruct (shardidList_ (map_cfg st)) as [|s [|s2 l]]; [done|exists s; split; [done|by left]|].
  destruct Hm as [?|[Hlen Hin]]; [done|]. destruct (key_number uid Hu) as [n ->].
  assert (saved_sharding_map_ st ≠ []) as Hne. { intros E. rewrite E in Hlen. unfold MAX_MAP_SIZE in Hlen. simpl in Hlen. lia. }
  destruct (lookup_mod _ n Hne) as (s' & Hs & Hin'). exists s'. split; [|by eapply Forall_forall in Hin; [|exact Hin']].
  by destruct (saved_sharding_map_ st).
Qed.

#[export] Instance map_laws : ShardingLaws MapSharding map_ok.
Proof.
  split; cbn [sharding_for_write sharding_for_get map_sharding shard_cfg].
  - by intros st [Hs _].
  - intros st fields uid Hok Hu Hne. unfold map_for_write. rewrite Hu. by apply map_shard_ok.
  - intros st fields uid s Hok Hu. unfold map_for_write, map_for_get. rewrite Hu. intros E. rewrite E. cbn [mbind option_bind].
    assert (s ∈ shardidList_ (map_cfg st)) as Hin.
    { destruct Hok as [[Hl _] Hm]. unfold map_shard_of_key in E.
      destruct (shardidList_ (map_cfg st)) as [|s1 [|s2 l]]; [done|injection E as ->; by left|].
      destruct Hm as [?|[Hlen Hm]]; [done|]. destruct (saved_sharding_map_ st) as [|m0 m] eqn:Em; [unfold MAX_MAP_SIZE in Hlen; simpl in Hlen; lia|].
      destruct (convertUniqueIDForSharding uid); [|done]. simpl in E. apply list_elem_of_lookup_2 in E.
      by eapply Forall_forall in Hm; [|exact E]. }
    destruct Hok as [[_ Hall] _]. eapply Forall_forall in Hall; [|exact Hin]. by rewrite (proj2 (Z.ltb_lt 0 s)) by lia.
  - intros st fields _ Hu. unfold map_for_get. by rewrite Hu.
Qed.
End laws.
