(* ===== verification/ShardingFile.v ===== *)
(** * The table of shards and its file ([ShardingStrategy.cpp])

    The table that a first start deals out survives a restart, whatever the list
    of shards is then; so documents stay where they are when shards are added. *)
From S2P Require Import Prelude CNum Env GroupRep Sharding.
From Stdlib Require Import Ascii.

(** ** Numbers in the file *)

Definition printed_well (z : Z) : bool :=
  let ds := string_chars (pretty z) in
  forallb is_digit ds && negb (bool_decide (ds = [])) && (number_value ds =? z).

Lemma printed_ids : forallb (λ n, printed_well (Z.of_nat n)) (seq 1 255) = true.
Proof. by vm_compute. Qed.

Lemma printed_id z : 0 < z < 256 → printed_well z = true.
Proof.
  intros Hz. pose proof (proj1 (forallb_forall _ _) printed_ids (Z.to_nat z)) as E. cbv beta in E. rewrite Z2Nat.id in E by lia. apply E, in_seq. lia.
Qed.

Lemma digit_no_space c : is_digit c = true → is_space c = false ∧ Ascii.eqb c "-" = false ∧ Ascii.eqb c "+" = false.
Proof.
  intros Hd. assert (∀ d, is_digit d = false → Ascii.eqb c d = false) as Hne.
  { intros d E. destruct (Ascii.eqb_spec c d) as [->|]; [congruence|done]. }
  split; [|split; by apply Hne]. unfold is_digit, is_space in *. destruct (nat_of_ascii c =? 32)%nat eqn:E1; [|].
  - apply Nat.eqb_eq in E1. rewrite E1 in Hd. done.
  - apply andb_true_iff in Hd as [H1 H2]. apply Nat.leb_le in H1. simpl. apply andb_false_iff. right. apply Nat.leb_gt. lia.
Qed.

(** What [operator>>] reads of a printed number. *)
Lemma read_printed z rest : 0 < z < 256 → read_u32 (print_id z ++ rest) = (z, newline :: rest, true).
Proof.
  intros Hz. pose proof (printed_id z Hz) as Hp. unfold printed_well in Hp. unfold read_u32, print_id.
  set (ds := string_chars (pretty z)) in *. apply andb_true_iff in Hp as [Hp Hn]. apply andb_true_iff in Hp as [Hd Hne].
  apply Z.eqb_eq in Hn. rewrite <- app_assoc. cbn [app]. clearbody ds. destruct ds as [|c ds]; [by rewrite bool_decide_true in Hne|].
  pose proof (proj1 (andb_true_iff _ _) Hd) as [Hc _]. destruct (digit_no_space c Hc) as (Hs & Hm & Hpl).
  cbn [app skip_space]. rewrite Hs, Hm, Hpl. pose proof (span_app is_digit (c :: ds) (newline :: rest) Hd eq_refl) as Esp.
  cbn [app] in Esp. rewrite Esp, Hn. assert (2 ^ 32 <=? z = false) as -> by (apply Z.leb_gt; lia). done.
Qed.

Lemma read_after_newline s : read_u32 (newline :: s) = read_u32 s.
Proof. done. Qed.

Lemma u8_id z : 0 < z < 256 → u8 z = z ∧ (z =? 0) = false.
Proof. intros Hz. split; [apply Z.mod_small; lia|lia]. Qed.

(** ** Reading what was saved *)

Definition printed (ids : list Z) : File := concat (map print_id ids).

(** [s] is the rest of the file, with or without the end of the last line. *)
Lemma read_ids_printed ids : ∀ fuel s m, Forall (λ z, 0 < z < 256) ids → ids ≠ [] → (length m + length ids = MAX_MAP_SIZE)%nat →
  (length ids ≤ fuel)%nat → s = printed ids ∨ s = newline :: printed ids → read_ids fuel s m = Some (m ++ ids).
Proof.
  induction ids as [|z ids IH]; [done|]. intros fuel s m Hall _ Hlen Hfuel Hs. inversion_clear Hall as [|?? Hz Hall'].
  destruct fuel as [|fuel]; [simpl in Hfuel; lia|]. cbn [read_ids].
  assert (read_u32 s = (z, newline :: printed ids, true)) as -> by (destruct Hs as [-> | ->]; [|rewrite read_after_newline]; by apply read_printed).
  destruct (u8_id z Hz) as [E1 E2]. rewrite E1, E2, length_app. cbn [length] in *. destruct ids as [|z2 ids].
  - rewrite (proj2 (Nat.eqb_eq _ _)) by (simpl in Hlen; lia). done.
  - rewrite (proj2 (Nat.eqb_neq _ _)) by (simpl in *; lia).
    rewrite (IH fuel (newline :: printed (z2 :: ids)) (m ++ [z]) Hall'); [|done|rewrite length_app; simpl in *; lia|simpl in *; lia|by right].
    by rewrite <- app_assoc.
Qed.

Lemma printed_length ids : (length ids ≤ length (printed ids))%nat.
Proof. induction ids as [|z ids IH]; [done|]. unfold printed in *. cbn [map concat]. unfold print_id at 1. rewrite !length_app. simpl. lia. Qed.

Lemma saved_printed ids : Forall (λ z, 0 < z < 256) ids → concat (map (λ id, if 0 <? id then print_id id else []) ids) = printed ids.
Proof.
  intros Hall. unfold printed. f_equal. apply map_ext_in. intros z Hz. apply list_elem_of_In in Hz.
  eapply Forall_forall in Hall; [|exact Hz]. by rewrite (proj2 (Z.ltb_lt _ _)) by lia.
Qed.

Lemma max_map_pos : (0 < MAX_MAP_SIZE)%nat.
Proof. unfold MAX_MAP_SIZE. lia. Qed.

Lemma save_full fs path m : Forall (λ z, 0 < z < 256) m → length m = MAX_MAP_SIZE → saveShardingMapToFile fs path m = <[path := printed m]> fs.
Proof. intros Hall Hlen. unfold saveShardingMapToFile. by rewrite (proj2 (Nat.eqb_eq _ _) Hlen), saved_printed. Qed.

Lemma read_saved fs path m old : Forall (λ z, 0 < z < 256) m → length m = MAX_MAP_SIZE →
  readShardingMapFile (saveShardingMapToFile fs path m) path old = Some m.
Proof.
  intros Hall Hlen. pose proof max_map_pos. rewrite save_full by done. unfold readShardingMapFile. rewrite lookup_insert_eq.
  rewrite (read_ids_printed m _ (printed m) []); [|done|by destruct m; [simpl in *; lia|]|done|pose proof (printed_length m); lia|by left].
  cbn [mbind option_bind app]. by rewrite (proj2 (Nat.eqb_eq _ _) Hlen).
Qed.

(** ** The first table *)

Lemma first_map_ok l : l ≠ [] → ∃ m, first_map l = Some m ∧ length m = MAX_MAP_SIZE ∧ ∀ i, (i < MAX_MAP_SIZE)%nat → m !! i = l !! (i mod length l)%nat.
Proof.
  intros Hl. assert (∃ m, first_map l = Some m) as [m Hm].
  { unfold first_map. apply mapM_is_Some_2, Forall_forall. intros i _. apply lookup_lt_is_Some_2. apply Nat.mod_upper_bound. by destruct l. }
  exists m. pose proof (proj1 (mapM_Some _ _ _) Hm) as HF. split; [done|]. split.
  - apply Forall2_length in HF. by rewrite length_seq in HF.
  - intros i Hi. destruct (Forall2_lookup_l _ _ _ _ i HF (lookup_seq_lt 0 _ i Hi)) as (y & Hy & E). by rewrite Hy, <- E.
Qed.

Lemma first_map_in l m : l ≠ [] → first_map l = Some m → Forall (λ s, s ∈ l) m.
Proof.
  intros Hl Hm. destruct (first_map_ok l Hl) as (m' & E & Hlen & Hat). assert (m' = m) as -> by congruence.
  apply Forall_lookup. intros i x Hx. assert (i < MAX_MAP_SIZE)%nat as Hi by (rewrite <- Hlen; by eapply lookup_lt_Some).
  rewrite (Hat i Hi) in Hx. by eapply list_elem_of_lookup_2.
Qed.

(** C26: The first start of a node that shards by a table, with several
    shards: [init] deals the shards out in turn into a full table of shards in
    use and saves it; every later start, with whatever list of shards and
    whatever table in memory, reads the same table back, so that every
    document keeps its shard when shards are added. The reader never runs out
    of the file. *)
Theorem restart_keeps_table `{KeyNumbers} fs c path old : shards_ok c → (2 ≤ length (shardidList_ c))%nat → path ≠ EmptyString → fs !! path = None →
  ∃ fs' m, map_init fs (MapStrategy c old path) = Some (true, fs', MapStrategy c m path) ∧
    map_ok (MapStrategy c m path) ∧
    (∀ i, (i < MAX_MAP_SIZE)%nat → m !! i = shardidList_ c !! (i mod length (shardidList_ c))%nat) ∧
    ∀ c' old', map_init fs' (MapStrategy c' old' path) = Some (true, fs', MapStrategy c' m path) ∧
      (unique_shardkey_ c' = unique_shardkey_ c → (2 ≤ length (shardidList_ c'))%nat →
       ∀ fields, sharding_for_write (MapStrategy c' m path) fields = sharding_for_write (MapStrategy c m path) fields).
Proof.
  intros [Hl Hall] Htwo Hp Hfs. destruct (first_map_ok _ Hl) as (m & Hm & Hlen & Hat). pose proof (first_map_in _ m Hl Hm) as Hin.
  assert (Forall (λ z, 0 < z < 256) m) as Hm8.
  { apply Forall_forall. intros z Hz. eapply Forall_forall in Hin; [|exact Hz]. by eapply Forall_forall in Hall; [|exact Hin]. }
  assert (m ≠ []) as Hne by (pose proof max_map_pos; destruct m; [simpl in *; lia|done]).
  exists (saveShardingMapToFile fs path m), m. unfold map_init at 1. cbn [map_file_path_ map_cfg].
  rewrite (proj2 (String.eqb_neq _ _) Hp), Hfs, (proj2 (Nat.leb_gt _ _)) by lia. rewrite Hm. cbn [mbind option_bind].
  assert (map_save fs (MapStrategy c m path) = saveShardingMapToFile fs path m) as -> by (unfold map_save; simpl; by destruct m).
  split; [done|]. split; [split; [done|by right]|]. split; [done|]. intros c' old'. split.
  - unfold map_init. cbn [map_file_path_ map_cfg saved_sharding_map_]. rewrite (proj2 (String.eqb_neq _ _) Hp).
    rewrite read_saved by done. assert (is_Some (saveShardingMapToFile fs path m !! path)) as [x ->]; [|done].
    by rewrite save_full, lookup_insert_eq.
  - intros Hk Htwo' fields. cbn [sharding_for_write map_sharding]. unfold map_for_write, map_shard_of_key.
    cbn [map_cfg saved_sharding_map_]. rewrite Hk. destruct (fields !! _) as [uid|]; [|done].
    destruct (shardidList_ c) as [|? [|??]]; [done|simpl in Htwo; lia|]. destruct (shardidList_ c') as [|? [|??]]; [done|simpl in Htwo'; lia|done].
Qed.

(** Keys without numbers. *)
Definition plain_keys : KeyNumbers := {| uuid_to_uint128 := λ _, 0; cast_size := λ _, None |}.

Definition three_shards : ShardingConfig := Config [1; 2; 7] "DOCID" ∅ ∅.

Lemma restart_keeps_table_witness : ∃ fs' m, map_init ∅ (MapStrategy three_shards [] "map.txt") = Some (true, fs', MapStrategy three_shards m "map.txt") ∧
  m !! 4%nat = Some 2.
Proof.
  destruct (@restart_keeps_table plain_keys ∅ three_shards "map.txt" []) as (fs' & m & E & _ & Hat & _).
  - split; [done|]. repeat constructor.
  - simpl. lia.
  - done.
  - done.
  - exists fs', m. split; [exact E|]. rewrite Hat; [done|unfold MAX_MAP_SIZE; lia].
Defined.

(** ** Shares of the table *)

(** How often the [k]-th of [n] shards is dealt to the first [len] places. *)
Definition share (n k len : nat) : nat := length (filter (λ i, (i mod n)%nat = k) (seq 0 len)).

Lemma share_even n k len : (k < n)%nat → share n k len = (len / n + if decide (k < len mod n) then 1 else 0)%nat.
Proof.
  intros Hk. unfold share. induction len as [|len IH].
  - rewrite Nat.Div0.div_0_l, Nat.Div0.mod_0_l. rewrite decide_False by lia. done.
  - rewrite seq_S, filter_app, length_app, IH, filter_cons, filter_nil. cbn [Nat.add].
    pose proof (Nat.div_mod_eq len n) as E. pose proof (Nat.mod_upper_bound len n ltac:(lia)) as Hb.
    set (q := (len / n)%nat) in *. set (r := (len mod n)%nat) in *. destruct (decide (S r = n)) as [Hfull|Hpart].
    + assert (Datatypes.S len / n = S q)%nat as -> by (symmetry; apply (Nat.div_unique _ n _ 0); lia).
      assert (Datatypes.S len mod n = 0)%nat as -> by (symmetry; apply (Nat.mod_unique _ n (S q) 0); lia).
      rewrite (decide_False (P := (k < 0)%nat)) by lia. destruct (decide (k < r)%nat); destruct (decide (r = k)); simpl; lia.
    + assert (Datatypes.S len / n = q)%nat as -> by (symmetry; apply (Nat.div_unique _ n _ (S r)); lia).
      assert (Datatypes.S len mod n = S r)%nat as -> by (symmetry; apply (Nat.mod_unique _ n q (S r)); lia).
      destruct (decide (k < r)%nat); destruct (decide (k < S r)%nat); destruct (decide (r = k)); simpl; lia.
Qed.

Lemma places_of {A} `{!EqDecision A} (l m : list A) n k s : NoDup l → l !! k = Some s → length m = n → (∀ i, (i < n)%nat → m !! i = l !! (i mod length l)%nat) →
  length (filter (λ x, x = s) m) = share (length l) k n.
Proof.
  intros Hnd Hs Hlen Hat. unfold share. assert (k < length l)%nat as Hk by by eapply lookup_lt_Some.
  assert (Hgen : ∀ d p, (d + p = n)%nat → length (filter (λ x, x = s) (drop p m)) = length (filter (λ i, (i mod length l)%nat = k) (seq p d))).
  { induction d as [|d IH]; intros p Hp; [rewrite drop_ge by lia; done|].
    destruct (lookup_lt_is_Some_2 m p ltac:(lia)) as [x Hx]. rewrite (drop_S m x p Hx). cbn [seq]. rewrite !filter_cons.
    specialize (IH (S p) ltac:(lia)). assert (x = s ↔ (p mod length l)%nat = k) as Hiff.
    { rewrite Hat in Hx by lia. split; [intros ->; by eapply NoDup_lookup|intros E; congruence]. }
    destruct (decide (x = s)) as [Ex|Ex]; destruct (decide ((p mod length l)%nat = k)) as [Ep|Ep]; simpl; [lia|tauto|tauto|lia]. }
  by apply (Hgen n O).
Qed.

(** The table of the first start is dealt out evenly: of the 65535 places each of
    the [n] shards gets [65535 / n], and the first ones of the list one more. *)
Theorem first_map_even l m k s : NoDup l → l !! k = Some s → first_map l = Some m →
  length (filter (λ x, x = s) m) = (MAX_MAP_SIZE / length l + if decide (k < MAX_MAP_SIZE mod length l)%nat then 1 else 0)%nat.
Proof.
  intros Hnd Hs Hm. destruct l as [|s0 l0] eqn:E; [done|]. rewrite <- E in *. assert (l ≠ []) as Hl by by rewrite E.
  destruct (first_map_ok l Hl) as (m' & Em & Hlen & Hat). assert (m' = m) as -> by congruence.
  rewrite (places_of l m MAX_MAP_SIZE k s) by done. apply share_even. by eapply lookup_lt_Some.
Qed.

Lemma first_map_even_witness : ∃ m, first_map [1; 2; 7] = Some m ∧
  length (filter (λ x, x = 7) m) = (MAX_MAP_SIZE / 3 + if decide (2 < MAX_MAP_SIZE mod 3)%nat then 1 else 0)%nat.
Proof.
  destruct (first_map_ok [1; 2; 7]) as (m & Hm & _); [done|]. exists m. split; [exact Hm|].
  apply (first_map_even [1; 2; 7] m 2 7); [|done|exact Hm]. by apply (bool_decide_unpack _).
Defined.
