(* ===== verification/MasterMigrate.v ===== *)
(** * The master while shards are changed
    ([node-manager/MasterManagerBase.cpp], [ZooKeeperNamespace.h])

    The master announces the change in a node of ZooKeeper, pushes requests to
    the queues of the shards, and waits until their nodes have nothing left to
    do. ZooKeeper is outside the source: a value of [ZooKeeper] is what it
    answers at one time. The waits are loops without a bound; a loop looks once
    in each turn, and [World] holds the turns that the run has seen, so that a
    wait that is not over when they are used up has no result ([None]). *)
From S2P Require Import Prelude OrderedMap Sharding.

(** The two entries of a node's data that are read ([kv2string]). *)
Record ZNode := ZNodeOf {
  KEY_HOST : string;
  KEY_NODE_STATE : Z }.

Record ZooKeeper := Zoo {
  isConnected : bool;
  getZNodeChildren : string → list string;
  getZNodeData : string → option ZNode;
  isZNodeExists : string → bool;
  createZNode : string → bool }.

Inductive Request :=
  | IndexScd (collection index_scd_path : string) (moved_there : list string)
  | UpdateShardingConf (collection new_sharding_cfg : string).

(** [workerMap_]: the shards the master knows and whether they are good;
    [at_push]: ZooKeeper when a request is pushed. *)
Record Master := MasterOf {
  sf1rCluster_ : string;
  isDistributeEnable_ : bool;
  zookeeper_ : bool;
  is_mine_primary_ : bool;
  nodeId_ : Z;
  workerMap_ : list (Z * bool);
  write_prepared_ : bool;
  at_push : Request → ZooKeeper }.

(** What one turn of a wait sees. *)
Record Moment := MomentOf {
  stopping_ : bool;
  now : ZooKeeper }.

(** ** Names in ZooKeeper *)

Definition getPrimaryNodeParentPath (ma : Master) (s : Z) : string := (sf1rCluster_ ma ++ "/PrimaryNodes" ++ "/Node" ++ pretty s)%string.
Definition getCurrWriteReqQueueParent (ma : Master) (s : Z) : string := (sf1rCluster_ ma ++ "/WriteRequestQueue" ++ "/Node" ++ pretty s)%string.
Definition getWriteReqQueueNode (ma : Master) (s : Z) : string := (getCurrWriteReqQueueParent ma s ++ "/WriteRequestSeq")%string.
Definition getWriteReqPrepareNode (ma : Master) (s : Z) : string := (sf1rCluster_ ma ++ "/WriteRequestPrepare" ++ "/Node" ++ pretty s)%string.
Definition migrate_prepare_node_ (ma : Master) : string := (sf1rCluster_ ma ++ "/migrate_sharding")%string.

(** ** Looking at the shards *)

Definition NODE_STATE_STARTED : Z := 3.

Definition getNodeState (zk : ZooKeeper) (nodepath : string) : option Z := KEY_NODE_STATE <$> getZNodeData zk nodepath.

(** The empty string when there is no node. *)
Definition getShardNodeIP (ma : Master) (zk : ZooKeeper) (s : Z) : string :=
  if zookeeper_ ma then
    match getZNodeChildren zk (getPrimaryNodeParentPath ma s) with
    | [] => ""
    | node :: _ => default ""%string (KEY_HOST <$> getZNodeData zk node)
    end
  else "".

Definition shard_ok (ma : Master) (zk : ZooKeeper) (s : Z) : bool :=
  match getZNodeChildren zk (getPrimaryNodeParentPath ma s) with
  | [] => false
  | node :: _ =>
      match getNodeState zk node with
      | None => false
      | Some nodestate => (nodestate =? NODE_STATE_STARTED) && isZNodeExists zk (getCurrWriteReqQueueParent ma s)
      end
  end.

Definition isShardingNodeOK (ma : Master) (zk : ZooKeeper) (shardids : list Z) : bool := zookeeper_ ma && forallb (shard_ok ma zk) shardids.

Definition queue_empty (ma : Master) (zk : ZooKeeper) (s : Z) : bool := is_nil (getZNodeChildren zk (getCurrWriteReqQueueParent ma s)).

Definition isWriteQueueEmpty (ma : Master) (zk : ZooKeeper) (shardids : list Z) : bool := zookeeper_ ma && forallb (queue_empty ma zk) shardids.

Definition isMinePrimary (ma : Master) (zk : ZooKeeper) : bool :=
  if negb (isDistributeEnable_ ma) then true else if negb (zookeeper_ ma) || negb (isConnected zk) then false else is_mine_primary_ ma.

(** A shard that the master does not know is no obstacle. *)
Definition isAllShardNodeOK (ma : Master) (zk : ZooKeeper) (shardids : list Z) : bool :=
  zookeeper_ ma && isConnected zk && forallb (λ s, (s =? nodeId_ ma) || default true (om_get Z.ltb s (workerMap_ ma))) shardids.

(** ** What the master does *)

Inductive Event :=
  | BeginMigrate
  | SetNewShardings (ids : string)
  | Pushed (queue : string) (r : Request) (created : bool)
  | EndMigrate.

(** The turns still to be seen, the events so far, and the files. *)
Record World := WorldOf {
  turns : list Moment;
  events : list Event;
  files : FileSystem }.

(** A computation that may not be over. *)
Definition Run (A : Type) : Type := World → option A * World.

#[global] Instance run_ret : MRet Run := λ A a w, (Some a, w).
#[global] Instance run_bind : MBind Run := λ A B f m w,
  match m w with (Some a, w) => f a w | (None, w) => (None, w) end.

Definition emit (e : Event) : Run unit := λ w, (Some tt, WorldOf (turns w) (events w ++ [e]) (files w)).
Definition save_files (f : FileSystem → FileSystem) : Run unit := λ w, (Some tt, WorldOf (turns w) (events w) (f (files w))).

(** [while (true)]: the events of the turn, then what it sees; [None]: another turn. *)
Fixpoint turns_until (before : list Event) (turn : Moment → option bool) (ts : list Moment) (evs : list Event) : option bool * list Moment * list Event :=
  match ts with
  | [] => (None, [], evs ++ before)
  | m :: ts => match turn m with Some r => (Some r, ts, evs ++ before) | None => turns_until before turn ts (evs ++ before) end
  end.

Definition wait_until (before : list Event) (turn : Moment → option bool) : Run bool := λ w,
  let '(r, ts, evs) := turns_until before turn (turns w) (events w) in (r, WorldOf ts evs (files w)).

Definition nodes_idle (ma : Master) (shardids : list Z) (m : Moment) : bool := isWriteQueueEmpty ma (now m) shardids && isShardingNodeOK ma (now m) shardids.

Definition waitForMigrateReady (ma : Master) (shardids : list Z) : Run bool :=
  wait_until [] (λ m, if stopping_ m then Some false else if nodes_idle ma shardids m then Some true else None).

(** The shards separated by commas. *)
Definition append_shard (cfg : string) (s : Z) : string :=
  if String.eqb cfg "" then pretty s else (cfg ++ "," ++ pretty s)%string.
Definition new_shardids (shardids : list Z) : string := fold_left append_shard shardids ""%string.

Definition waitForNewShardingNodes (ma : Master) (shardids : list Z) : Run bool :=
  if negb (zookeeper_ ma) then mret false
  else wait_until [SetNewShardings (new_shardids shardids)]
         (λ m, if stopping_ m then Some false else if isShardingNodeOK ma (now m) shardids then Some true else None).

Definition waitForMigrateIndexing (ma : Master) (shardids : list Z) : Run unit :=
  _ ← wait_until [] (λ m, if nodes_idle ma shardids m then Some true else None); mret tt.

(** ZooKeeper at the time of the call is [zk]. *)
Definition notifyAllShardingBeginMigrate (ma : Master) (zk : ZooKeeper) (shardids : list Z) : Run bool :=
  if negb (isMinePrimary ma zk) then mret false
  else if negb (isAllShardNodeOK ma zk shardids) then mret false
  else if write_prepared_ ma then mret false
  else if isZNodeExists zk (getWriteReqPrepareNode ma (nodeId_ ma)) then mret false
  else if negb (isWriteQueueEmpty ma zk shardids) then mret false
  else if negb (createZNode zk (migrate_prepare_node_ ma)) then mret false
  else _ ← emit BeginMigrate; mret true.

Definition notifyAllShardingEndMigrate : Run unit := emit EndMigrate.

Fixpoint push_to (ma : Master) (reqdata : Request) (include_self : bool) (shardids : list Z) : Run bool :=
  match shardids with
  | [] => mret true
  | s :: shardids =>
      if negb include_self && (s =? nodeId_ ma) then push_to ma reqdata include_self shardids
      else
        let write_queue := getWriteReqQueueNode ma s in
        let created := createZNode (at_push ma reqdata) write_queue in
        _ ← emit (Pushed write_queue reqdata created);
        if created then push_to ma reqdata include_self shardids else mret false
  end.

Definition pushWriteReqToShard (ma : Master) (reqdata : Request) (shardids : list Z) (for_migrate include_self : bool) : Run bool :=
  if negb (zookeeper_ ma) || negb (isConnected (at_push ma reqdata)) then mret false
  else if negb for_migrate && isZNodeExists (at_push ma reqdata) (migrate_prepare_node_ ma) then mret false
  else push_to ma reqdata include_self shardids.

(** ** Waits that end *)

Definition all_idle (ma : Master) (shardids : list Z) (m : Moment) : bool := negb (stopping_ m) && nodes_idle ma shardids m.

(** The turns in which nothing keeps the master from going on. *)
Definition good_turns (ma : Master) (shardids : list Z) (ts : list Moment) : nat := length (filter (λ m, all_idle ma shardids m = true) ts).

Definition never_stops (ts : list Moment) : Prop := Forall (λ m, stopping_ m = false) ts.

Lemma forallb_incl {A} (f : A → bool) (l l' : list A) : l ⊆ l' → forallb f l' = true → forallb f l = true.
Proof. rewrite !forallb_forall. setoid_rewrite <- list_elem_of_In. set_solver. Qed.

Lemma nodes_idle_incl ma l l' m : l ⊆ l' → nodes_idle ma l' m = true → nodes_idle ma l m = true.
Proof.
  intros Hl. unfold nodes_idle, isWriteQueueEmpty, isShardingNodeOK. rewrite !andb_true_iff. intros [[Hz H1] [_ H2]].
  split_and!; [done|by eapply forallb_incl|done|by eapply forallb_incl].
Qed.

Lemma good_turns_cons ma shardids m ts :
  good_turns ma shardids (m :: ts) = if all_idle ma shardids m then S (good_turns ma shardids ts) else good_turns ma shardids ts.
Proof. unfold good_turns. rewrite filter_cons. by destruct (all_idle ma shardids m). Qed.

(** A wait that goes on in every good turn is over after the first one. *)
Lemma wait_ends ma all before turn n w : (∀ m, stopping_ m = false → turn m ≠ Some false) → (∀ m, all_idle ma all m = true → turn m = Some true) →
  never_stops (turns w) → (n < good_turns ma all (turns w))%nat →
  ∃ ts k, wait_until before turn w = (Some true, WorldOf ts (events w ++ concat (replicate (S k) before)) (files w)) ∧
    never_stops ts ∧ (n ≤ good_turns ma all ts)%nat.
Proof.
  intros Hno Hgood. destruct w as [ts evs fs]. unfold wait_until. cbn [turns events files].
  intros Hs Hn. assert (∃ ts' k, turns_until before turn ts evs = (Some true, ts', evs ++ concat (replicate (S k) before)) ∧ never_stops ts' ∧ (n ≤ good_turns ma all ts')%nat) as (ts' & k & -> & ? & ?); [|by exists ts', k].
  revert evs Hs Hn. induction ts as [|m ts IH]; intros evs Hs Hn; [by cbv in Hn; lia|]. inversion_clear Hs as [|? ? Hm Hs']. cbn [turns_until].
  destruct (turn m) as [[]|] eqn:Et; [|by destruct (Hno m Hm)|].
  - exists ts, O. cbn [replicate concat]. rewrite app_nil_r. split_and!; [done|done|]. rewrite good_turns_cons in Hn.
    destruct (all_idle ma all m); lia.
  - destruct (IH (evs ++ before)) as (ts' & k & -> & Hs2 & Hn2); [done| |].
    + rewrite good_turns_cons in Hn. destruct (all_idle ma all m) eqn:Hg; [by rewrite (Hgood m Hg) in Et|done].
    + exists ts', (S k). split_and!; [|done|done]. by rewrite <- app_assoc.
Qed.

Lemma concat_nils {A} k : concat (replicate k ([] : list A)) = [].
Proof. by induction k. Qed.

Lemma concat_singletons {A} k (x : A) : concat (replicate k [x]) = replicate k x.
Proof. induction k as [|k IH]; [done|]. simpl. by rewrite IH. Qed.

Section waits.
Context (ma : Master) (all shardids : list Z) (n : nat) (w : World).
Context (Hincl : shardids ⊆ all) (Hs : never_stops (turns w)) (Hn : (n < good_turns ma all (turns w))%nat).

#[local] Ltac wait_over :=
  intros m Hm; apply andb_true_iff in Hm as [Hst%negb_true_iff Hm]; rewrite ?Hst; clear Hst; apply (nodes_idle_incl _ _ _ _ Hincl) in Hm.

Lemma waitForMigrateReady_ends : ∃ ts, waitForMigrateReady ma shardids w = (Some true, WorldOf ts (events w) (files w)) ∧
  never_stops ts ∧ (n ≤ good_turns ma all ts)%nat.
Proof.
  destruct (wait_ends ma all [] (λ m, if stopping_ m then Some false else if nodes_idle ma shardids m then Some true else None) n w) as (ts & k & E & ? & ?); [..|done|done|].
  - intros m ->. by destruct (nodes_idle _ _ _).
  - wait_over. by rewrite Hm.
  - exists ts. unfold waitForMigrateReady. by rewrite E, concat_nils, app_nil_r.
Qed.

Lemma waitForNewShardingNodes_ends : zookeeper_ ma = true → ∃ ts k, waitForNewShardingNodes ma shardids w =
    (Some true, WorldOf ts (events w ++ replicate (S k) (SetNewShardings (new_shardids shardids))) (files w)) ∧
  never_stops ts ∧ (n ≤ good_turns ma all ts)%nat.
Proof.
  intros Hz. unfold waitForNewShardingNodes. rewrite Hz. cbn [negb].
  destruct (wait_ends ma all [SetNewShardings (new_shardids shardids)]
    (λ m, if stopping_ m then Some false else if isShardingNodeOK ma (now m) shardids then Some true else None) n w) as (ts & k & E & ? & ?); [..|done|done|].
  - intros m ->. by destruct (isShardingNodeOK _ _ _).
  - wait_over. unfold nodes_idle in Hm. apply andb_true_iff in Hm as [_ ->]. done.
  - exists ts, k. rewrite E. split_and!; [|done|done]. by rewrite concat_singletons.
Qed.

Lemma waitForMigrateIndexing_ends : ∃ ts, waitForMigrateIndexing ma shardids w = (Some tt, WorldOf ts (events w) (files w)) ∧
  never_stops ts ∧ (n ≤ good_turns ma all ts)%nat.
Proof.
  destruct (wait_ends ma all [] (λ m, if nodes_idle ma shardids m then Some true else None) n w) as (ts & k & E & ? & ?); [..|done|done|].
  - intros m _. by destruct (nodes_idle _ _ _).
  - wait_over. by rewrite Hm.
  - exists ts. unfold waitForMigrateIndexing, mbind, run_bind. by rewrite E, concat_nils, app_nil_r.
Qed.
End waits.

(** A wait during which the nodes are never idle is not over, however long it
    has been; that for indexing is not even over when the master stops. *)
Lemma waits_on ma shardids w : Forall (λ m, stopping_ m = false ∧ nodes_idle ma shardids m = false) (turns w) →
  (waitForMigrateReady ma shardids w).1 = None.
Proof.
  destruct w as [ts evs fs]. unfold waitForMigrateReady, wait_until. cbn [turns events files]. intros Hs. revert evs.
  induction Hs as [|m ts [H1 H2] _ IH]; intros evs; [done|]. cbn [turns_until]. rewrite H1, H2. apply IH.
Qed.

Lemma indexing_waits_on ma shardids w : Forall (λ m, nodes_idle ma shardids m = false) (turns w) → (waitForMigrateIndexing ma shardids w).1 = None.
Proof.
  destruct w as [ts evs0 fs]. unfold waitForMigrateIndexing, mbind, run_bind, wait_until. cbn [turns events files]. intros Hs.
  assert (∀ evs, ∃ evs', turns_until [] (λ m, if nodes_idle ma shardids m then Some true else None) ts evs = (None, [], evs')) as Hw.
  { induction Hs as [|m ts H1 _ IH]; intros evs; [by eexists|]. cbn [turns_until]. rewrite H1. apply IH. }
  destruct (Hw evs0) as [evs1 ->]. done.
Qed.

(** ** Pushing requests *)

Definition accepts (ma : Master) (r : Request) : Prop := isConnected (at_push ma r) = true ∧ ∀ queue, createZNode (at_push ma r) queue = true.

Lemma push_accepted ma r shardids w : zookeeper_ ma = true → accepts ma r →
  pushWriteReqToShard ma r shardids true true w =
    (Some true, WorldOf (turns w) (events w ++ map (λ s, Pushed (getWriteReqQueueNode ma s) r true) shardids) (files w)).
Proof.
  intros Hz [Hc Hcr]. unfold pushWriteReqToShard. rewrite Hz, Hc. cbn [negb orb andb].
  revert w. induction shardids as [|s shardids IH]; intros w; [by destruct w; cbn; rewrite app_nil_r|].
  cbn [push_to negb andb]. rewrite Hcr. unfold mbind, run_bind, emit. rewrite IH. cbn [turns events files map]. by rewrite <- app_assoc.
Qed.
