(* ===== verification/ShardMigrate.v ===== *)
(** * Moving documents when shards are added or removed
    ([bundles/index/IndexTaskService.cpp], with
    [node-manager/DistributeFileSyncMgr.cpp] and [aggregator-manager/IndexWorker.cpp])

    The places of the table are dealt out anew ([migrateSharding],
    [removeSharding]); the nodes that lose places write the documents to be
    inserted elsewhere and deleted here ([generateMigrateSCD]); when all has been
    indexed, the new table is saved.

    [std::map]s are sorted lists. The other nodes are arguments: their answers,
    and the batches in which they arrive; the waits are those of [MasterMigrate].
    [None] is undefined behaviour, if nothing else is said. *)
From S2P Require Import Prelude CNum OrderedMap GroupRep Phrases Sharding MasterMigrate.

Notation VnodeLists := (list (Z * list Z)).

(** ** Dealing out the places *)

Definition put_vnode (s vid : Z) : VnodeLists → VnodeLists := om_update Z.ltb (λ o, default [] o ++ [vid]) s.
Definition vnodes_of (s : Z) (t : VnodeLists) : list Z := default [] (om_get Z.ltb s t).

(** The shards and their places; a place is a [uint16_t]. *)
Definition topology_of (sharding_map : list Z) : VnodeLists :=
  fold_left (λ t (e : nat * Z), put_vnode e.2 (Z.of_nat e.1 `mod` 2 ^ 16) t) (imap pair sharding_map) [].

Record Moves := MovesOf {
  migrate_data_list : list (Z * (Z * Z));
  sharding_map : list Z }.

(** [vid] goes [from] one shard [to] another. *)
Definition move (vid from to : Z) (m : Moves) : option Moves :=
  map ← wr (Z.to_nat vid) to (sharding_map m);
  Some (MovesOf (om_put Z.ltb vid (from, to) (migrate_data_list m)) map).

Section migrate.
Context (new_sharding_nodes : list Z) (new_vnode_for_sharding : nat).

Record Migration := MigrationOf {
  migrate_to : nat;
  new_sharding_topology : VnodeLists;
  moves : Moves }.

Definition all_full (st : Migration) : bool := (length new_sharding_nodes <=? migrate_to st)%nat.

(** One place goes to the current new shard, which may then be full. *)
Definition give_vnode (from vid : Z) (st : Migration) : option Migration :=
  to ← new_sharding_nodes !! migrate_to st;
  m ← move vid from to (moves st);
  let topo := put_vnode to vid (new_sharding_topology st) in
  Some (MigrationOf (if (new_vnode_for_sharding <=? length (vnodes_of to topo))%nat then S (migrate_to st) else migrate_to st) topo m).

(** The [for] loop: from the last place down; it gives the next [migrate_start]. *)
Fixpoint move_vnodes (from : Z) (vnodes : list Z) (vnode_index migrate_start : nat) (st : Migration) : option (nat * Migration) :=
  match vnode_index with
  | O => Some (migrate_start, st)
  | S k =>
      if (vnode_index <=? new_vnode_for_sharding)%nat then Some (migrate_start, st)
      else
        vid ← vnodes !! vnode_index;
        st ← give_vnode from vid st;
        if all_full st then Some (pred migrate_start, st) else move_vnodes from vnodes k (pred migrate_start) st
  end.

(** The [while] loop. *)
Fixpoint migrate_from (fuel : nat) (from : Z) (vnodes : list Z) (migrate_start : nat) (st : Migration) : option (list Z * Migration) :=
  match fuel with
  | O => None
  | S fuel =>
      if all_full st || (length vnodes <=? new_vnode_for_sharding)%nat then Some (vnodes, st)
      else
        '(migrate_start, st) ← move_vnodes from vnodes migrate_start migrate_start st;
        if (length vnodes <? migrate_start)%nat then None
        else migrate_from fuel from (take migrate_start vnodes) migrate_start st
  end.

(** The current topology afterwards, and the moves. *)
Fixpoint migrateSharding (current_sharding_topology : VnodeLists) (st : Migration) : option (VnodeLists * Migration) :=
  match current_sharding_topology with
  | [] => Some ([], st)
  | (s, vnodes) :: rest =>
      '(vnodes, st) ← migrate_from 2 s vnodes (pred (length vnodes)) st;
      if all_full st then Some ((s, vnodes) :: rest, st)
      else '(rest, st) ← migrateSharding rest st; Some ((s, vnodes) :: rest, st)
  end.
End migrate.

(** ** Removing shards *)

Section remove.
Context (new_vnode_for_sharding : nat).

Record Removal := RemovalOf {
  left_sharding_nodes : list Z;
  (** From [migrate_to_it] to the end, and what is before it. *)
  migrate_to_it : VnodeLists;
  full_nodes : VnodeLists;
  removed : Moves }.

(** The places of one removed shard; [last]: no other follows. The boolean is
    whether [removeSharding] goes on. *)
Fixpoint give_away (from : Z) (vnodes : list Z) (last : bool) (st : Removal) : option (bool * Removal) :=
  match vnodes with
  | [] => Some (true, st)
  | vid :: vnodes =>
      '(to, l) ← head (migrate_to_it st);
      m ← move vid from to (removed st);
      let l := l ++ [vid] in
      let others := tail (migrate_to_it st) in
      if (new_vnode_for_sharding <? length l)%nat then
        let st := RemovalOf (left_sharding_nodes st ++ [to]) others (full_nodes st ++ [(to, l)]) m in
        if is_nil others then Some (is_nil vnodes && last, st) else give_away from vnodes last st
      else give_away from vnodes last (RemovalOf (left_sharding_nodes st) ((to, l) :: others) (full_nodes st) m)
  end.

Fixpoint give_all_away (remove_sharding_topo : VnodeLists) (st : Removal) : option (bool * Removal) :=
  match remove_sharding_topo with
  | [] => Some (true, st)
  | (from, vnodes) :: rest =>
      '(on, st) ← give_away from vnodes (is_nil rest) st;
      if (on : bool) then give_all_away rest st else Some (false, st)
  end.

Definition om_erase {V} (k : Z) (m : list (Z * V)) : list (Z * V) := filter (λ e, e.1 ≠ k) m.

(** The removed shards and those that stay. *)
Definition split_topology (remove_sharding_nodes : list Z) (current : VnodeLists) : VnodeLists * VnodeLists :=
  fold_left (λ '(removed, current) s, (om_put Z.ltb s (vnodes_of s current) removed, om_erase s current)) remove_sharding_nodes ([], current).

Definition removeSharding (remove_sharding_nodes : list Z) (current : VnodeLists) (m : Moves) : option (bool * Removal) :=
  let '(remove_topo, current) := split_topology remove_sharding_nodes current in
  let st := RemovalOf [] current [] m in
  if is_nil current || negb (length remove_topo =? length remove_sharding_nodes)%nat then Some (false, st)
  else
    '(on, st) ← give_all_away remove_topo st;
    if (on : bool) then Some (true, RemovalOf (left_sharding_nodes st ++ map fst (migrate_to_it st)) [] (full_nodes st ++ migrate_to_it st) (removed st))
    else Some (false, st).
End remove.

(** ** The documents that move *)

Section documents.
Context `{KeyNumbers} {Doc : Type}.

(** A document the node has, unless it is deleted or cannot be read: the text of
    its property [DOCID]. *)
Record Stored := Store {
  stored : Doc;
  docid_str : option string }.

Definition vnode_index (uid : string) : option Z := n ← convertUniqueIDForSharding uid; Some (n `mod` Z.of_nat MAX_MAP_SIZE).

(** The first shard with the place in its list; 0 if there is none. *)
Definition found_shardid (vnode_list : VnodeLists) (v : Z) : Z :=
  default 0 (fst <$> head (filter (λ e, v ∈ e.2) vnode_list)).

(** The documents to be inserted, by shard, and those to be deleted. *)
Definition generate_one (vnode_list : VnodeLists) (st : list (Z * list Doc) * list Doc) (d : Stored) : option (list (Z * list Doc) * list Doc) :=
  match docid_str d with
  | None => Some st
  | Some uid =>
      v ← vnode_index uid;
      let s := found_shardid vnode_list v in
      if s =? 0 then Some st else Some (om_update Z.ltb (λ o, default [] o ++ [stored d]) s st.1, st.2 ++ [stored d])
  end.

Definition generateMigrateSCD (vnode_list : VnodeLists) (documents : list Stored) : option (list (Z * list Doc) * list Doc) :=
  foldM (generate_one vnode_list) ([], []) documents.
End documents.
Arguments Stored : clear implicits.

(** ** Asking the nodes *)

Notation ScdNames := (list (Z * list string)).

Record ScdRsp := Rsp {
  success : bool;
  rsp_insert_scds : list (Z * string);
  rsp_del_scds : list (Z * string) }.

(** [send]: the answer to a request, [None] for an exception; [generate_local]:
    what this node generates, [None] when that fails; [arrivals]: the batches of
    answers, until the master has waited too long. *)
Record Hosts := HostsOf {
  enabled : bool;
  local_ip : string;
  send : string → VnodeLists → option bool;
  generate_local : VnodeLists → option (list (Z * string) * list (Z * string));
  arrivals : list (list ScdRsp) }.

Definition add_scds (new : list (Z * string)) (m : ScdNames) : ScdNames :=
  fold_left (λ m (e : Z * string), om_update Z.ltb (λ o, default [] o ++ [e.2]) e.1 m) new m.

(** The number of nodes to wait for and the request to this node; [None]: an
    exception. *)
Fixpoint send_requests (h : Hosts) (from : list (string * VnodeLists)) (wait_num : Z) (local_scds : VnodeLists) : option (Z * VnodeLists) :=
  match from with
  | [] => Some (wait_num, local_scds)
  | (ip, lists) :: from =>
      if String.eqb ip (local_ip h) then send_requests h from wait_num lists
      else rsp_ret ← send h ip lists; send_requests h from (if (rsp_ret : bool) then wait_num + 1 else wait_num) local_scds
  end.

(** [None]: an answer reports a failure. *)
Definition take_answers (scds : ScdNames * ScdNames) (batch : list ScdRsp) : option (ScdNames * ScdNames) :=
  foldM (λ '(ins, del) r, if success r then Some (add_scds (rsp_insert_scds r) ins, add_scds (rsp_del_scds r) del) else None) scds batch.

Fixpoint wait_for (arrivals : list (list ScdRsp)) (wait_num : Z) (scds : ScdNames * ScdNames) : option (ScdNames * ScdNames) :=
  if wait_num <=? 0 then Some scds
  else match arrivals with
       | [] => None
       | batch :: arrivals => scds ← take_answers scds batch; wait_for arrivals (wait_num - Z.of_nat (length batch)) scds
       end.

(** [None]: it returns false. *)
Definition generateMigrateScds (h : Hosts) (from : list (string * VnodeLists)) : option (ScdNames * ScdNames) :=
  if negb (enabled h) then None
  else
    '(wait_num, local_scds) ← send_requests h from 0 [];
    '(ins, del) ← (match local_scds with
                   | [] => Some ([], [])
                   | _ => '(i, d) ← generate_local h local_scds; Some (add_scds i [], add_scds d [])
                   end);
    wait_for (arrivals h) wait_num (ins, del).

(** ** The whole change *)

Record Collection := CollectionOf {
  collectionName_ : string;
  isMasterAggregator_ : bool;
  isWorkerNode : bool;
  (** The bundle's list of shards, and the strategy's. *)
  shardList_ : list Z;
  strategy_shardidList_ : option (list Z);
  map_file : string }.

(** The master, ZooKeeper before the first wait, and the two directories that
    [createTimeStamp] makes distinct. *)
Record Cluster := ClusterOf {
  hosts : Hosts;
  master : Master;
  at_start : ZooKeeper;
  insert_dir : string;
  del_dir : string }.

Definition shardip (cl : Cluster) (s : Z) : string := getShardNodeIP (master cl) (at_start cl) s.

(** The request to one shard, whose files have been moved to its directory. *)
Definition index_request (c : Collection) (tmp_migrate_scd_dir : string) (s : Z) (scds : list string) : Request :=
  IndexScd (collectionName_ c) (tmp_migrate_scd_dir ++ "/shard" ++ pretty s ++ "/")%string scds.

Fixpoint indexShardingNodes (cl : Cluster) (c : Collection) (tmp_migrate_scd_dir : string) (generated_migrate_scds : ScdNames) : Run bool :=
  match generated_migrate_scds with
  | [] => mret true
  | (s, scds) :: rest =>
      pushed ← pushWriteReqToShard (master cl) (index_request c tmp_migrate_scd_dir s scds) [s] true true;
      if (pushed : bool) then indexShardingNodes cl c tmp_migrate_scd_dir rest else mret false
  end.

(** The requests by address. *)
Definition add_request (cl : Cluster) (from_to : list (string * VnodeLists)) (e : Z * (Z * Z)) : option (list (string * VnodeLists)) :=
  let '(vid, (from, to)) := e in
  let ip := shardip cl from in
  if String.eqb ip "" then None
  else Some (om_update str_lt (λ o, put_vnode to vid (default [] o)) ip from_to).

Definition migrate_from_to_list (cl : Cluster) (data : list (Z * (Z * Z))) : option (list (string * VnodeLists)) := foldM (add_request cl) [] data.

Definition sharding_cfg (curr new_sharding_nodes : list Z) (removing : bool) : string :=
  fold_left append_shard new_sharding_nodes (if removing then ""%string else new_shardids curr).

(** The answers are not looked at. *)
Definition updateShardingConfig (cl : Cluster) (c : Collection) (new_sharding_nodes : list Z) (removing : bool) : Run unit :=
  let req := UpdateShardingConf (collectionName_ c) (sharding_cfg (shardList_ c) new_sharding_nodes removing) in
  _ ← (if removing then mret true else pushWriteReqToShard (master cl) req new_sharding_nodes true true);
  let curr := shardList_ c ++ (if isMasterAggregator_ c && negb (isWorkerNode c) then [nodeId_ (master cl)] else []) in
  _ ← pushWriteReqToShard (master cl) req curr true true;
  mret tt.

(** The answer to the requests to delete is not looked at. *)
Definition doMigrateWork (cl : Cluster) (c : Collection) (removing : bool) (m : Moves) (migrate_nodes : list Z) : Run bool :=
  match from_to ← migrate_from_to_list cl (migrate_data_list m); generateMigrateScds (hosts cl) from_to with
  | None => mret false
  | Some (generated_insert_scds, generated_del_scds) =>
      ready ← waitForMigrateReady (master cl) (shardList_ c);
      if negb ready then mret false else
      started ← (if removing then mret true else waitForNewShardingNodes (master cl) migrate_nodes);
      if negb started then mret false else
      inserted ← indexShardingNodes cl c (insert_dir cl) generated_insert_scds;
      if negb inserted then mret false else
      _ ← (if removing then mret tt else waitForMigrateIndexing (master cl) migrate_nodes);
      _ ← indexShardingNodes cl c (del_dir cl) generated_del_scds;
      _ ← waitForMigrateIndexing (master cl) (shardList_ c);
      _ ← save_files (λ fs, saveShardingMapToFile fs (map_file c) (sharding_map m));
      _ ← updateShardingConfig cl c migrate_nodes removing;
      mret true
  end.

(** Writes are refused from the announcement to the end of the work. *)
Definition change_shards (cl : Cluster) (c : Collection) (work : Run bool) : Run bool :=
  begun ← notifyAllShardingBeginMigrate (master cl) (at_start cl) (shardList_ c);
  if negb begun then mret false else
  ret ← work;
  _ ← notifyAllShardingEndMigrate;
  mret (ret : bool).

(** The table a single shard has without a file. *)
Definition current_map (fs : FileSystem) (c : Collection) : option (list Z) :=
  m ← readShardingMapFile fs (map_file c) [];
  Some (match shardList_ c, m with [s], [] => replicate MAX_MAP_SIZE s | _, _ => m end).

(** The outer [None]: undefined behaviour; the inner one: it still waits. *)
Definition addNewShardingNodes (cl : Cluster) (c : Collection) (new_sharding_nodes : list Z) (w : World) : option (option bool * World) :=
  let failed := Some (Some false, w) in
  let current := default [] (strategy_shardidList_ c) in
  if negb (isMasterAggregator_ c) || is_nil current || is_nil new_sharding_nodes then failed
  else if existsb (λ s, bool_decide (s ∈ shardList_ c)) new_sharding_nodes then failed
  else
    map ← current_map (files w) c;
    let num := (length current + length new_sharding_nodes)%nat in
    if is_nil map || (length map <? num)%nat then failed
    else
      '(_, st) ← migrateSharding new_sharding_nodes (length map / num) (topology_of map) (MigrationOf 0 [] (MovesOf [] map));
      Some (change_shards cl c (doMigrateWork cl c false (moves st) new_sharding_nodes) w).

Definition removeShardingNodes (cl : Cluster) (c : Collection) (remove_sharding_nodes : list Z) (w : World) : option (option bool * World) :=
  let failed := Some (Some false, w) in
  let num := length (default [] (strategy_shardidList_ c)) in
  if negb (isMasterAggregator_ c) || (num =? 0)%nat || is_nil remove_sharding_nodes || (num =? 1)%nat ||
     (num <=? length remove_sharding_nodes)%nat then failed
  else if negb (forallb (λ s, bool_decide (s ∈ shardList_ c)) remove_sharding_nodes) then failed
  else
    map ← readShardingMapFile (files w) (map_file c) [];
    if is_nil map then failed
    else
      '(ret, st) ← removeSharding (length map / (num - length remove_sharding_nodes)) remove_sharding_nodes (topology_of map) (MovesOf [] map);
      if negb ret || is_nil (left_sharding_nodes st) then failed
      else Some (change_shards cl c (doMigrateWork cl c true (removed st) (left_sharding_nodes st)) w).
