(* ===== verification/ShardMigrateSpec.v ===== *)
(** * Dealing out the places again: what [migrateSharding] and
    [removeSharding] do ([bundles/index/IndexTaskService.cpp])

    Both are followed place by place: [moved_ok] ties the list of moves to the
    table, [count] says how many places a shard has. *)
From S2P Require Import Prelude CNum OrderedMap GroupRep Phrases Sharding ShardMigrate.

(** ** How many places a shard has *)

Definition count (s : Z) (m : list Z) : nat := length (filter (λ x, x = s) m).

Lemma count_insert m i x y s : m !! i = Some x →
  (count s (<[i:=y]> m) + (if decide (x = s) then 1 else 0) = count s m + (if decide (y = s) then 1 else 0))%nat.
Proof.
  intros Hi. pose proof (insert_perm m i x y Hi) as Hp. apply (filter_Permutation (λ x, x = s)) in Hp. apply Permutation_length in Hp.
  rewrite !filter_cons in Hp. unfold count. destruct (decide (x = s)), (decide (y = s)); simpl in Hp; lia.
Qed.

Lemma count_pos s m : s ∈ m → (0 < count s m)%nat.
Proof.
  intros Hs. unfold count. destruct (filter (λ x, x = s) m) eqn:E; [|simpl; lia].
  assert (s ∈ filter (λ x, x = s) m) as Hin by by apply list_elem_of_filter. rewrite E in Hin. by apply elem_of_nil in Hin.
Qed.

Lemma count_zero s m : s ∉ m → count s m = O.
Proof.
  intros Hs. unfold count. destruct (filter (λ x, x = s) m) as [|y l] eqn:E; [done|].
  assert (y ∈ filter (λ x, x = s) m) as [-> ?]%list_elem_of_filter by (rewrite E; by left). done.
Qed.

(** The places of [s], counted from [k]. *)
Fixpoint positions (s : Z) (k : nat) (m : list Z) : list Z :=
  match m with
  | [] => []
  | x :: m => if decide (x = s) then Z.of_nat k :: positions s (S k) m else positions s (S k) m
  end.

Lemma length_positions s m : ∀ k, length (positions s k m) = count s m.
Proof.
  induction m as [|x m IH]; intros k; [done|]. simpl. unfold count in *. rewrite filter_cons. destruct (decide (x = s)); simpl; by rewrite IH.
Qed.

Lemma elem_of_positions s m v : ∀ k, v ∈ positions s k m ↔ ∃ i, v = Z.of_nat (k + i) ∧ m !! i = Some s.
Proof.
  induction m as [|x m IH]; intros k; simpl; [split; [by intros ?%elem_of_nil|by intros (i & _ & ?)]|].
  assert ((∃ i, v = Z.of_nat (k + i) ∧ (x :: m) !! i = Some s) ↔ (v = Z.of_nat k ∧ x = s) ∨ v ∈ positions s (S k) m) as ->.
  { rewrite IH. split.
    - intros ([|i] & -> & Hi); [left; split; [f_equal; lia|by injection Hi]|right; exists i; split; [f_equal; lia|done]].
    - intros [[-> ->]|(i & -> & Hi)]; [exists O; split; [f_equal; lia|done]|exists (S i); split; [f_equal; lia|done]]. }
  destruct (decide (x = s)); [rewrite elem_of_cons|]; naive_solver.
Qed.

Lemma positions_NoDup s m : ∀ k, NoDup (positions s k m).
Proof.
  induction m as [|x m IH]; intros k; simpl; [constructor|]. destruct (decide (x = s)); [|apply IH]. constructor; [|apply IH].
  rewrite elem_of_positions. intros (i & E & _). lia.
Qed.

(** ** The topology *)

Notation zok := (om_ok Z.ltb (λ _ : Z, True)).

Lemma vnodes_of_put s vid t s' : zok t → vnodes_of s' (put_vnode s vid t) = if decide (s = s') then vnodes_of s' t ++ [vid] else vnodes_of s' t.
Proof. intros Ht. unfold vnodes_of, put_vnode. rewrite om_get_updateZ by done. by destruct (decide (s = s')) as [->|]. Qed.

Lemma put_vnode_ok s vid t : zok t → zok (put_vnode s vid t).
Proof. apply om_update_okZ. Qed.

Lemma topology_fold m : ∀ k t, zok t → Z.of_nat (k + length m) < 2 ^ 16 →
  let t' := fold_left (λ t (e : nat * Z), put_vnode e.2 (Z.of_nat e.1 `mod` 2 ^ 16) t) (imap (λ i x, ((k + i)%nat, x)) m) t in
  zok t' ∧ (∀ s, vnodes_of s t' = vnodes_of s t ++ positions s k m) ∧
  ((∀ s, om_get Z.ltb s t ≠ Some []) → ∀ s, om_get Z.ltb s t' ≠ Some []).
Proof.
  induction m as [|x m IH]; intros k t Ht Hk; cbn [imap fold_left positions].
  { split_and!; [done|intros s; by rewrite app_nil_r|done]. }
  cbn [length] in Hk. assert (imap ((λ i x0, ((k + i)%nat, x0)) ∘ S) m = imap (λ i x0, ((S k + i)%nat, x0)) m) as ->.
  { apply imap_ext. intros i y _. simpl. f_equal. lia. }
  cbn [fst snd]. rewrite (Z.mod_small (Z.of_nat (k + 0))) by lia.
  destruct (IH (S k) (put_vnode x (Z.of_nat (k + 0)) t)) as (H1 & H2 & H3); [by apply put_vnode_ok|lia|]. split_and!; [done| |].
  - intros s. rewrite H2, vnodes_of_put by done. rewrite Nat.add_0_r. destruct (decide (x = s)); [by rewrite <- app_assoc|done].
  - intros Hne s. apply H3. intros s'. unfold put_vnode. rewrite om_get_updateZ by done. destruct (decide (x = s')); [|apply Hne].
    intros [= E]. by destruct (default [] _).
Qed.

Lemma topology_ok m : Z.of_nat (length m) < 2 ^ 16 →
  zok (topology_of m) ∧ (∀ s, vnodes_of s (topology_of m) = positions s 0 m) ∧ ∀ s, om_get Z.ltb s (topology_of m) ≠ Some [].
Proof.
  intros Hm. destruct (topology_fold m 0 [] (om_nil_ok _ _) Hm) as (H1 & H2 & H3). split_and!; [done|done|]. by apply H3.
Qed.

Lemma topology_elem m s l : Z.of_nat (length m) < 2 ^ 16 → (s, l) ∈ topology_of m → l = positions s 0 m ∧ s ∈ m.
Proof.
  intros Hm Hin. destruct (topology_ok m Hm) as (Hok & Hv & Hne). apply om_elemZ in Hin; [|done].
  assert (l = positions s 0 m) as -> by (rewrite <- Hv; unfold vnodes_of; by rewrite Hin). split; [done|].
  destruct (decide (s ∈ m)) as [|Hn]; [done|]. exfalso. apply (Hne s). rewrite Hin. f_equal. apply length_zero_iff_nil.
  rewrite length_positions. by apply count_zero.
Qed.

Lemma topology_keys m s : Z.of_nat (length m) < 2 ^ 16 → s ∈ m → (s, positions s 0 m) ∈ topology_of m.
Proof.
  intros Hm Hs. destruct (topology_ok m Hm) as (Hok & Hv & _). apply om_elemZ; [done|]. specialize (Hv s). unfold vnodes_of in Hv.
  destruct (om_get Z.ltb s (topology_of m)) as [l|]; [simpl in Hv; by subst|]. simpl in Hv. pose proof (count_pos s m Hs) as Hc.
  rewrite <- (length_positions s m 0), <- Hv in Hc. simpl in Hc. lia.
Qed.

(** ** Moves *)

(** The table [m] after the moves: [targets] got what left its shard of [m0]. *)
Record moved_ok (m0 : list Z) (targets : list Z) (mv : Moves) : Prop := {
  mo_len : length (sharding_map mv) = length m0;
  mo_data : zok (migrate_data_list mv);
  mo_at : ∀ i s, m0 !! i = Some s → match om_get Z.ltb (Z.of_nat i) (migrate_data_list mv) with
            | None => sharding_map mv !! i = Some s
            | Some (f, t) => f = s ∧ t ∈ targets ∧ sharding_map mv !! i = Some t
            end;
  mo_keys : ∀ v e, om_get Z.ltb v (migrate_data_list mv) = Some e → ∃ i, v = Z.of_nat i ∧ (i < length m0)%nat }.

Lemma moved_start m0 targets : moved_ok m0 targets (MovesOf [] m0).
Proof. split; [done|apply om_nil_ok|done|done]. Qed.

(** One more place moves, of a shard that gets none. *)
Lemma move_ok m0 targets mv i s t : moved_ok m0 targets mv → sharding_map mv !! i = Some s → s ∉ targets → t ∈ targets →
  ∃ mv', move (Z.of_nat i) s t mv = Some mv' ∧ moved_ok m0 targets mv' ∧ sharding_map mv' = <[i := t]> (sharding_map mv) ∧
    om_get Z.ltb (Z.of_nat i) (migrate_data_list mv) = None.
Proof.
  intros [Hlen Hdata Hat Hkeys] Hi Hs Ht. assert (i < length (sharding_map mv))%nat as Hlt by by eapply lookup_lt_Some.
  unfold move. rewrite Nat2Z.id, wr_Some by done. cbn [mbind option_bind]. eexists. split; [done|]. cbn [sharding_map migrate_data_list].
  destruct (lookup_lt_is_Some_2 m0 i) as [s0 Hs0]; [by rewrite <- Hlen|]. pose proof (Hat i s0 Hs0) as Hati.
  assert (om_get Z.ltb (Z.of_nat i) (migrate_data_list mv) = None ∧ s0 = s) as [Hnone ->].
  { destruct (om_get _ _ _) as [[f t']|]; [|split; [done|congruence]]. destruct Hati as (_ & Hin & E).
    assert (t' = s) as -> by congruence. done. }
  split; [|done]. split; cbn [sharding_map migrate_data_list].
  - by rewrite length_insert.
  - by apply om_update_okZ.
  - intros j sj Hj. unfold om_put. rewrite om_get_updateZ by done. destruct (decide (Z.of_nat i = Z.of_nat j)) as [E|Hne].
    + apply Nat2Z.inj in E as <-. split_and!; [congruence|done|by rewrite list_lookup_insert_eq].
    + assert (i ≠ j) by (intros ->; done). rewrite list_lookup_insert_ne by done. by apply Hat.
  - intros v e. unfold om_put. rewrite om_get_updateZ by done. destruct (decide (Z.of_nat i = v)) as [<-|]; [|apply Hkeys].
    intros _. exists i. split; [done|lia].
Qed.

(** ** Adding shards *)

Section migrate.
Context (m0 news : list Z) (w : nat) (Hnd : NoDup news) (Hw : (1 ≤ w)%nat).

Record mig_ok (st : Migration) : Prop := {
  mg_moved : moved_ok m0 news (moves st);
  mg_topo : zok (new_sharding_topology st);
  mg_count : ∀ t, t ∈ news → length (vnodes_of t (new_sharding_topology st)) = count t (sharding_map (moves st));
  mg_level : ∀ i t, news !! i = Some t →
    ((i < migrate_to st)%nat → count t (sharding_map (moves st)) = w) ∧
    (i = migrate_to st → (count t (sharding_map (moves st)) < w)%nat) ∧
    ((migrate_to st < i)%nat → count t (sharding_map (moves st)) = O) }.

Notation smap st := (sharding_map (moves st)).

(** Nothing but places of [s] changed, and they went to new shards. *)
Definition only_from (s : Z) (st st' : Migration) : Prop :=
  (∀ i x, x ≠ s → smap st !! i = Some x → smap st' !! i = Some x) ∧
  (∀ s', s' ≠ s → s' ∉ news → count s' (smap st') = count s' (smap st)).

Lemma only_from_refl s st : only_from s st st.
Proof. by split. Qed.

Lemma only_from_trans s st1 st2 st3 : only_from s st1 st2 → only_from s st2 st3 → only_from s st1 st3.
Proof. intros [A1 A2] [B1 B2]. split; [auto|]. intros s' Hne Hn. by rewrite B2, A2. Qed.

Lemma give_vnode_ok st i s : mig_ok st → all_full news st = false → smap st !! i = Some s → s ∉ news →
  ∃ st', give_vnode news w s (Z.of_nat i) st = Some st' ∧ mig_ok st' ∧ only_from s st st' ∧ S (count s (smap st')) = count s (smap st) ∧
    (∀ j, j ≠ i → smap st' !! j = smap st !! j).
Proof.
  intros [Hmv Htopo Hcnt Hlev] Hfull Hi Hs. unfold all_full in Hfull. apply Nat.leb_gt in Hfull.
  destruct (lookup_lt_is_Some_2 news _ Hfull) as [t Ht]. pose proof (list_elem_of_lookup_2 _ _ _ Ht) as Hin.
  destruct (move_ok m0 news (moves st) i s t Hmv Hi Hs Hin) as (mv & Emv & Hmv' & Emap & _).
  unfold give_vnode. rewrite Ht. cbn [mbind option_bind]. rewrite Emv. cbn [mbind option_bind]. eexists. split; [done|].
  assert (s ≠ t) as Hst by (intros ->; done).
  assert (∀ t', t' ∈ news → count t' (<[i:=t]> (smap st)) = (count t' (smap st) + if decide (t = t') then 1 else 0)%nat) as Hc.
  { intros t' Ht'. pose proof (count_insert (smap st) i s t t' Hi) as E. rewrite (decide_False (P := s = t')) in E by (intros ->; done). lia. }
  split; [|split; [|split]]; [split|split|..]; cbn [moves new_sharding_topology migrate_to].
  - done.
  - by apply put_vnode_ok.
  - intros t' Ht'. rewrite Emap, vnodes_of_put, (Hc t' Ht') by done. destruct (decide (t = t')); [rewrite length_app; simpl|]; rewrite (Hcnt t' Ht'); lia.
  - intros j t' Hj. pose proof (list_elem_of_lookup_2 _ _ _ Hj) as Hj'. rewrite Emap, (Hc t' Hj'). rewrite vnodes_of_put by done.
    rewrite decide_True by done. rewrite length_app, (Hcnt t Hin). cbn [length].
    destruct (Hlev j t' Hj) as (L1 & L2 & L3). destruct (Hlev _ t Ht) as (_ & Lt & _). specialize (Lt eq_refl).
    destruct (decide (t = t')) as [<-|Hne].
    + assert (j = migrate_to st) as -> by by eapply NoDup_lookup. destruct (w <=? _)%nat eqn:E; [apply Nat.leb_le in E|apply Nat.leb_gt in E]; split_and!; lia.
    + assert (j ≠ migrate_to st) as Hj2 by (intros ->; congruence).
      destruct (w <=? _)%nat eqn:E; [apply Nat.leb_le in E|apply Nat.leb_gt in E]; split_and!; intros; rewrite Nat.add_0_r;
        first [apply L1; lia|rewrite L3 by lia; lia].
  - intros j x Hx Hj. rewrite Emap, list_lookup_insert_ne; [done|]. intros ->. congruence.
  - intros s' Hne Hn. rewrite Emap. pose proof (count_insert (smap st) i s t s' Hi) as E.
    rewrite (decide_False (P := s = s')), (decide_False (P := t = s')) in E by (intros ->; done). lia.
  - rewrite Emap. pose proof (count_insert (smap st) i s t s Hi) as E. rewrite decide_True, (decide_False (P := t = s)) in E by done. lia.
  - intros j Hj. by rewrite Emap, list_lookup_insert_ne.
Qed.

(** The first [n] places of the list are still those of [s]. *)
Definition kept (s : Z) (vnodes : list Z) (n : nat) (st : Migration) : Prop :=
  ∀ j, (j < n)%nat → ∃ i, vnodes !! j = Some (Z.of_nat i) ∧ smap st !! i = Some s.

Lemma move_vnodes_ok s vnodes : s ∉ news → NoDup vnodes → ∀ vi ms st, mig_ok st → all_full news st = false →
  kept s vnodes (S vi) st → count s (smap st) = S vi → ms = vi →
  ∃ ms' st', move_vnodes news w s vnodes vi ms st = Some (ms', st') ∧ mig_ok st' ∧ only_from s st st' ∧ (ms' ≤ vi)%nat ∧
    (Nat.min (S vi) (S w) ≤ count s (smap st'))%nat ∧ (all_full news st' = true ∨ (ms' ≤ w)%nat ∧ (count s (smap st') ≤ S w)%nat).
Proof.
  intros Hs Hndv. induction vi as [|k IH]; intros ms st Hok Hfull Hkept Hcount ->; cbn [move_vnodes].
  { exists O, st. split_and!; [done|done|apply only_from_refl|lia|lia|right; lia]. }
  destruct (S k <=? w)%nat eqn:E; [apply Nat.leb_le in E|apply Nat.leb_gt in E].
  { exists (S k), st. split_and!; [done|done|apply only_from_refl|lia|lia|right; lia]. }
  destruct (Hkept (S k)) as (i & Hv & Hi); [lia|]. rewrite Hv. cbn [mbind option_bind].
  destruct (give_vnode_ok st i s Hok Hfull Hi Hs) as (st1 & -> & Hok1 & Honly & Hc1 & Hrest). cbn [mbind option_bind pred].
  destruct (all_full news st1) eqn:Efull.
  { exists k, st1. split_and!; [done|done|done|lia|lia|by left]. }
  destruct (IH k st1 Hok1 Efull) as (ms' & st' & Est & Hok' & Honly' & Hle & Hmin & Hend); [|lia|done|].
  - intros j Hj. destruct (Hkept j) as (i' & Hv' & Hi'); [lia|]. exists i'. split; [done|]. rewrite Hrest; [done|].
    intros ->. assert (j = S k) by by eapply NoDup_lookup. lia.
  - exists ms', st'. split_and!; [done|done|by eapply only_from_trans|lia|lia|done].
Qed.

Lemma migrate_from_ok s st : s ∉ news → mig_ok st → let vnodes := positions s 0 m0 in kept s vnodes (length vnodes) st → count s (smap st) = length vnodes →
  ∃ vnodes' st', migrate_from news w 2 s vnodes (pred (length vnodes)) st = Some (vnodes', st') ∧ mig_ok st' ∧ only_from s st st' ∧
    (Nat.min (length vnodes) (S w) ≤ count s (smap st'))%nat ∧ (all_full news st' = true ∨ (count s (smap st') ≤ S w)%nat).
Proof.
  intros Hs Hok vnodes Hkept Hc. cbn [migrate_from]. destruct (all_full news st) eqn:Ef; cbn [orb].
  { exists vnodes, st. split_and!; [done|done|apply only_from_refl|lia|by left]. }
  destruct (length vnodes <=? w)%nat eqn:E; [apply Nat.leb_le in E|apply Nat.leb_gt in E].
  { exists vnodes, st. split_and!; [done|done|apply only_from_refl|lia|right; lia]. }
  assert (S (pred (length vnodes)) = length vnodes) as El by lia.
  destruct (move_vnodes_ok s vnodes Hs (positions_NoDup _ _ _) (pred (length vnodes)) (pred (length vnodes)) st Hok Ef) as
    (ms' & st' & -> & Hok' & Honly & Hle & Hmin & Hend); [by rewrite El|lia|done|]. cbn [mbind option_bind].
  rewrite (proj2 (Nat.ltb_ge _ _)) by lia. rewrite El in Hmin.
  assert (all_full news st' || (length (take ms' vnodes) <=? w)%nat = true) as ->.
  { destruct Hend as [->|[Hms _]]; [done|]. rewrite length_take. apply orb_true_iff. right. apply Nat.leb_le. lia. }
  exists (take ms' vnodes), st'. split_and!; [done|done|done|done|]. destruct Hend as [?|[_ ?]]; [by left|by right].
Qed.

(** The places of [s] have not moved yet. *)
Definition untouched (s : Z) (st : Migration) : Prop := ∀ i, m0 !! i = Some s → smap st !! i = Some s.

Lemma untouched_kept s st : untouched s st → kept s (positions s 0 m0) (length (positions s 0 m0)) st.
Proof.
  intros Hu j Hj. destruct (lookup_lt_is_Some_2 _ _ Hj) as [v Hv]. pose proof (list_elem_of_lookup_2 _ _ _ Hv) as Hin.
  apply elem_of_positions in Hin as (i & -> & Hi). exists i. split; [done|]. by apply Hu.
Qed.

Lemma migrate_all_ok l : ∀ st, mig_ok st → NoDup (map fst l) →
  (∀ s vs, (s, vs) ∈ l → s ∉ news ∧ vs = positions s 0 m0 ∧ untouched s st ∧ count s (smap st) = count s m0) →
  ∃ l' st', migrateSharding news w l st = Some (l', st') ∧ mig_ok st' ∧
    (∀ s, s ∉ map fst l → s ∉ news → count s (smap st') = count s (smap st)) ∧
    (∀ s, s ∈ map fst l → (Nat.min (count s m0) (S w) ≤ count s (smap st'))%nat ∧ (all_full news st' = true ∨ (count s (smap st') ≤ S w)%nat)).
Proof.
  induction l as [|[s vs] l IH]; intros st Hok Hkeys Hl; cbn [migrateSharding].
  { exists [], st. split_and!; [done|done|done|]. intros s Hin. by apply elem_of_nil in Hin. }
  destruct (Hl s vs) as (Hs & -> & Hu & Hc); [by left|]. cbn [map] in Hkeys. inversion_clear Hkeys as [|?? Hnin Hkeys'].
  destruct (migrate_from_ok s st Hs Hok) as (vs' & st1 & -> & Hok1 & [Hsame Hothers] & Hmin & Hend); [by apply untouched_kept|by rewrite length_positions|].
  rewrite length_positions in Hmin. cbn [mbind option_bind].
  assert (∀ s' vs2, (s', vs2) ∈ l → s' ≠ s) as Hdiff.
  { intros s' vs2 Hin ->. apply Hnin. apply list_elem_of_fmap. by exists (s, vs2). }
  destruct (all_full news st1) eqn:Ef.
  { eexists _, st1. split_and!; [done|done| |].
    - intros s' Hn1 Hn2. apply Hothers; [|done]. intros ->. apply Hn1. by left.
    - intros s' Hin. split; [|by left]. cbn [map] in Hin. apply elem_of_cons in Hin as [->|Hin]; [done|].
      apply list_elem_of_fmap in Hin as ([s2 vs2] & -> & Hin). destruct (Hl s2 vs2) as (Hn2 & _ & _ & Hc2); [by right|]. simpl.
      rewrite Hothers, Hc2; [lia|by eapply Hdiff|done]. }
  destruct (IH st1 Hok1 Hkeys') as (l' & st' & -> & Hok' & Hothers' & Hin').
  - intros s' vs2 Hin. destruct (Hl s' vs2) as (Hn2 & -> & Hu2 & Hc2); [by right|]. pose proof (Hdiff _ _ Hin) as Hne. split_and!; [done|done| |].
    + intros i Hi. apply Hsame; [done|]. by apply Hu2.
    + by rewrite Hothers.
  - cbn [mbind option_bind]. eexists _, st'. split_and!; [done|done| |].
    + intros s' Hn1 Hn2. cbn [map] in Hn1. apply not_elem_of_cons in Hn1 as [Hne Hn1]. rewrite Hothers' by done. by apply Hothers.
    + intros s' Hin. cbn [map] in Hin. apply elem_of_cons in Hin as [->|Hin]; [|by apply Hin'].
      cbn [fst] in *. rewrite (Hothers' s Hnin Hs). split; [done|]. destruct Hend as [Hf|Hend]; [congruence|by right].
Qed.
End migrate.

Lemma migrateSharding_ok m news w : NoDup news → (∀ t, t ∈ news → t ∉ m) → (1 ≤ w)%nat → Z.of_nat (length m) < 2 ^ 16 →
  ∃ topo st, migrateSharding news w (topology_of m) (MigrationOf 0 [] (MovesOf [] m)) = Some (topo, st) ∧
    moved_ok m news (moves st) ∧
    (∀ t, t ∈ news → (count t (sharding_map (moves st)) ≤ w)%nat) ∧
    (∀ s, s ∈ m → (Nat.min (count s m) (S w) ≤ count s (sharding_map (moves st)))%nat) ∧
    ((∀ t, t ∈ news → count t (sharding_map (moves st)) = w) ∨ (∀ s, s ∈ m → (count s (sharding_map (moves st)) ≤ S w)%nat)).
Proof.
  intros Hnd Hnew Hw Hm. assert (mig_ok m news w (MigrationOf 0 [] (MovesOf [] m))) as Hstart.
  { split; cbn [moves new_sharding_topology migrate_to sharding_map].
    - apply moved_start.
    - apply om_nil_ok.
    - intros t Ht. by rewrite count_zero by auto.
    - intros i t Ht. rewrite count_zero by (apply Hnew; by eapply list_elem_of_lookup_2). lia. }
  destruct (topology_ok m Hm) as (Htopo & _).
  destruct (migrate_all_ok m news w Hnd Hw (topology_of m) _ Hstart) as (l' & st & E & Hok & _ & Hin).
  - by apply om_keys_NoDupZ.
  - intros s vs [-> Hs]%topology_elem; [|done]. split_and!; [intros Hn; by apply (Hnew s)|done|by intros i|done].
  - exists l', st. pose proof (mg_level _ _ _ _ Hok) as Hlev.
    assert (∀ s, s ∈ m → s ∈ map fst (topology_of m)) as Hkeys.
    { intros s Hs. apply list_elem_of_fmap. exists (s, positions s 0 m). split; [done|]. by apply topology_keys. }
    split_and!; [done|apply Hok| |intros s Hs; by apply Hin, Hkeys|].
    + intros t [i Ht]%list_elem_of_lookup. destruct (Hlev i t Ht) as (H1 & H2 & H3). destruct (lt_eq_lt_dec i (migrate_to st)) as [[Hi|Hi]|Hi].
      * by rewrite H1.
      * specialize (H2 Hi). lia.
      * rewrite H3 by done. lia.
    + destruct (all_full news st) eqn:Ef.
      * left. intros t [i Ht]%list_elem_of_lookup. apply (Hlev i t Ht). unfold all_full in Ef. apply Nat.leb_le in Ef. apply lookup_lt_Some in Ht. lia.
      * right. intros s Hs. destruct (Hin s (Hkeys s Hs)) as [_ [?|?]]; [congruence|done].
Qed.

(** C27: Adding shards ([migrateSharding]) moves places only from old shards
    to new ones, and every move that is recorded is a change of the table and
    the other way round. A new shard gets at most its part [w]; an old one
    keeps more than [w] places if it had them; and in the end all new shards
    have [w] places, or no old one has more than [w + 1]. Nothing is read out
    of range. *)
Theorem migrateSharding_balanced m news w : NoDup news → (∀ t, t ∈ news → t ∉ m) → (1 ≤ w)%nat → Z.of_nat (length m) < 2 ^ 16 →
  ∃ topo st, migrateSharding news w (topology_of m) (MigrationOf 0 [] (MovesOf [] m)) = Some (topo, st) ∧
    moved_ok m news (moves st) ∧
    (∀ t, t ∈ news → (count t (sharding_map (moves st)) ≤ w)%nat) ∧
    (∀ s, s ∈ m → (Nat.min (count s m) (S w) ≤ count s (sharding_map (moves st)))%nat) ∧
    ((∀ t, t ∈ news → count t (sharding_map (moves st)) = w) ∨ (∀ s, s ∈ m → (count s (sharding_map (moves st)) ≤ S w)%nat)).
Proof. apply migrateSharding_ok. Qed.

(** Five places of two shards; a third gets one, though its part is one and the
    first shards keep two. *)
Lemma migrateSharding_balanced_witness : ∃ topo st,
  migrateSharding [3] 1 (topology_of [1; 2; 1; 2; 1]) (MigrationOf 0 [] (MovesOf [] [1; 2; 1; 2; 1])) = Some (topo, st) ∧
  (count 3 (sharding_map (moves st)) ≤ 1)%nat ∧ sharding_map (moves st) = [1; 2; 1; 2; 3].
Proof.
  destruct (migrateSharding_balanced [1; 2; 1; 2; 1] [3] 1) as (topo & st & E & _ & Hc & _).
  - by apply (bool_decide_unpack _).
  - intros t ->%list_elem_of_singleton. by apply (bool_decide_unpack _).
  - lia.
  - done.
  - exists topo, st. split_and!; [exact E|apply Hc; by left|]. revert E. vm_compute. by intros [= _ <-].
Defined.
