(* ===== verification/ShardRemoveSpec.v ===== *)
(** * Removing shards ([removeSharding] in [bundles/index/IndexTaskService.cpp])

    The places of the removed shards go to the others in turn.  There is always
    room: the others together may take more places than there are. *)
From S2P Require Import Prelude CNum OrderedMap GroupRep Phrases Sharding ShardMigrate ShardMigrateSpec.

(** ** Sums of counts *)

Lemma count_cons s x m : count s (x :: m) = ((if decide (x = s) then 1 else 0) + count s m)%nat.
Proof. unfold count. rewrite filter_cons. by destruct (decide (x = s)). Qed.

Lemma sum_counts_cons x m ks : NoDup ks →
  sum_list_with (λ s, count s (x :: m)) ks = (sum_list_with (λ s, count s m) ks + if decide (x ∈ ks) then 1 else 0)%nat.
Proof.
  induction 1 as [|k ks Hk Hnd IH]; [done|]. cbn [sum_list_with]. rewrite IH, count_cons. destruct (decide (x = k)) as [->|Hne].
  - rewrite (decide_False (P := k ∈ ks)), (decide_True (P := k ∈ k :: ks)) by (done || by left). lia.
  - destruct (decide (x ∈ ks)).
    + rewrite (decide_True (P := x ∈ k :: ks)) by by right. lia.
    + rewrite (decide_False (P := x ∈ k :: ks)) by (rewrite elem_of_cons; naive_solver). lia.
Qed.

Lemma sum_counts m ks : NoDup ks → (∀ x, x ∈ m → x ∈ ks) → sum_list_with (λ s, count s m) ks = length m.
Proof.
  intros Hnd. induction m as [|x m IH]; intros Hin.
  - clear. induction ks as [|k ks IH]; [done|]. simpl. rewrite IH. done.
  - rewrite sum_counts_cons, IH, decide_True by (done || (apply Hin; by left) || (intros y Hy; apply Hin; by right)). simpl. lia.
Qed.

Lemma sum_list_with_perm {A} (f : A → nat) l k : l ≡ₚ k → sum_list_with f l = sum_list_with f k.
Proof. induction 1; simpl; lia. Qed.

(** ** Giving places away *)

Section remove.
Context (m0 targets : list Z) (w : nat).

Notation smap st := (sharding_map (removed st)).

(** How many places can still be given to [todo]. *)
Definition room (todo : VnodeLists) : nat := sum_list_with (λ e, Nat.max 1 (S w - length e.2)) todo.

Definition fair (t : Z) (m : list Z) : Prop := (count t m0 ≤ count t m ≤ Nat.max (S w) (S (count t m0)))%nat.

Record rem_ok (st : Removal) : Prop := {
  rm_moved : moved_ok m0 targets (removed st);
  rm_keys : map fst (full_nodes st) ++ map fst (migrate_to_it st) = targets;
  rm_left : left_sharding_nodes st = map fst (full_nodes st);
  rm_todo : ∀ t l, (t, l) ∈ migrate_to_it st → length l = count t (smap st) ∧ (count t (smap st) ≤ w ∨ count t (smap st) = count t m0)%nat;
  rm_fair : ∀ t, t ∈ targets → fair t (smap st) }.

Context (Hnd : NoDup targets).

(** What other shards had stays. *)
Definition others_stay (from : Z) (st st' : Removal) : Prop := ∀ i x, x ≠ from → smap st !! i = Some x → smap st' !! i = Some x.

(** One place goes to the shard at the iterator. *)
Lemma give_one st i from t l others : rem_ok st → migrate_to_it st = (t, l) :: others → smap st !! i = Some from → from ∉ targets →
  ∃ mv, move (Z.of_nat i) from t (removed st) = Some mv ∧
  let l' := l ++ [Z.of_nat i] in
  rem_ok (if (w <? length l')%nat then RemovalOf (left_sharding_nodes st ++ [t]) others (full_nodes st ++ [(t, l')]) mv
          else RemovalOf (left_sharding_nodes st) ((t, l') :: others) (full_nodes st) mv) ∧
  sharding_map mv = <[i := t]> (smap st).
Proof.
  intros [Hmv Hkeys Hleft Htodo Hfair] Hit Hi Hfrom. assert (t ∈ targets) as Ht.
  { rewrite <- Hkeys, Hit. set_solver. }
  destruct (move_ok m0 targets (removed st) i from t Hmv Hi Hfrom Ht) as (mv & E & Hmv' & Emap & _). exists mv. split; [done|].
  assert (∀ s, s ∈ targets → count s (sharding_map mv) = (count s (smap st) + if decide (t = s) then 1 else 0)%nat) as Hc.
  { intros s Hs. rewrite Emap. pose proof (count_insert (smap st) i from t s Hi) as Ec. rewrite (decide_False (P := from = s)) in Ec by (intros ->; done). lia. }
  destruct (Htodo t l) as [Hlen Hsmall]; [rewrite Hit; by left|]. pose proof (Hc t Ht) as Hct. rewrite decide_True in Hct by done.
  rewrite Hit in Hkeys. cbn [map fst] in Hkeys.
  assert (∀ s, s ∈ targets → fair s (sharding_map mv)) as Hfair'.
  { intros s Hs. unfold fair. rewrite Hc by done. destruct (Hfair s Hs). destruct (decide (t = s)) as [<-|]; [|lia].
    pose proof (Hfair t Ht) as [??]. lia. }
  assert (∀ t' l', (t', l') ∈ others → length l' = count t' (sharding_map mv) ∧ (count t' (sharding_map mv) ≤ w ∨ count t' (sharding_map mv) = count t' m0)%nat) as Hothers.
  { intros t' l' Hin. assert (t' ∈ targets) as Ht' by (rewrite <- Hkeys; apply elem_of_app; right; right; apply list_elem_of_fmap; by exists (t', l')).
    rewrite Hc by done. rewrite decide_False.
    - rewrite Nat.add_0_r. apply Htodo. rewrite Hit. by right.
    - intros <-. rewrite <- Hkeys in Hnd. apply NoDup_app in Hnd as (_ & _ & Hnd'). inversion_clear Hnd' as [|?? Hn _]. apply Hn.
      apply list_elem_of_fmap. by exists (t, l'). }
  cbv zeta. rewrite length_app. cbn [length]. split; [|done]. destruct (w <? length l + 1)%nat eqn:Ew; [apply Nat.ltb_lt in Ew|apply Nat.ltb_ge in Ew];
    split; cbn [left_sharding_nodes migrate_to_it full_nodes removed]; try done.
  - rewrite map_app, <- app_assoc. done.
  - by rewrite map_app, Hleft.
  - intros t' l' [[= -> ->]|Hin]%elem_of_cons; [|by apply Hothers]. rewrite length_app. simpl. rewrite Hct. split; [lia|left; lia].
Qed.

(** The places of one removed shard. *)
Lemma give_away_ok from last rest vnodes : from ∉ targets → (last = true → rest = O) → NoDup vnodes → ∀ st, rem_ok st →
  (∀ v, v ∈ vnodes → ∃ i, v = Z.of_nat i ∧ smap st !! i = Some from) → (length vnodes + rest < room (migrate_to_it st))%nat →
  ∃ st', give_away w from vnodes last st = Some (true, st') ∧ rem_ok st' ∧ (rest < room (migrate_to_it st'))%nat ∧ others_stay from st st' ∧
    (∀ i, Z.of_nat i ∈ vnodes → smap st' !! i ≠ Some from).
Proof.
  intros Hfrom Hlast Hndv. induction Hndv as [|v vnodes Hv Hndv IH]; intros st Hok Hplaces Hroom; cbn [give_away].
  { exists st. split_and!; [done|done|done|by intros i x|]. intros i Hin. by apply elem_of_nil in Hin. }
  destruct (Hplaces v) as (i & -> & Hi); [by left|]. destruct (migrate_to_it st) as [|[t l] others] eqn:Hit; [cbn in Hroom; lia|].
  destruct (give_one st i from t l others Hok Hit Hi Hfrom) as (mv & Emv & Hok1 & Emap). cbv zeta in Hok1.
  cbn [head mbind option_bind tail]. rewrite Emv. cbn [mbind option_bind].
  assert (from ≠ t) as Hft. { intros ->. apply Hfrom. rewrite <- (rm_keys _ Hok), Hit. set_solver. }
  assert (∀ st1, smap st1 = sharding_map mv → rem_ok st1 → (length vnodes + rest < room (migrate_to_it st1))%nat →
    ∃ st', give_away w from vnodes last st1 = Some (true, st') ∧ rem_ok st' ∧ (rest < room (migrate_to_it st'))%nat ∧ others_stay from st st' ∧
      (∀ j, Z.of_nat j ∈ Z.of_nat i :: vnodes → smap st' !! j ≠ Some from)) as Hgo.
  { intros st1 E1 Hok' Hroom'. destruct (IH st1 Hok') as (st' & E & Hok2 & Hr2 & Hstay & Hgone).
    - intros v' Hv'. destruct (Hplaces v') as (j & -> & Hj); [by right|]. exists j. split; [done|].
      rewrite E1, Emap, list_lookup_insert_ne; [done|]. by intros ->.
    - done.
    - exists st'. split_and!; [done|done|done| |].
      + intros j x Hx Hj. apply Hstay; [done|]. rewrite E1, Emap, list_lookup_insert_ne; [done|]. intros ->. congruence.
      + intros j [E2|Hin]%elem_of_cons; [|by apply Hgone]. apply Nat2Z.inj in E2 as ->.
        assert (smap st' !! i = Some t) as ->; [|congruence]. apply Hstay; [done|]. rewrite E1, Emap, list_lookup_insert_eq; [done|].
        by eapply lookup_lt_Some. }
  unfold room in Hroom. cbn [sum_list_with snd] in Hroom. rewrite length_app in *. cbn [length] in *.
  destruct (w <? length l + 1)%nat eqn:Ew; [apply Nat.ltb_lt in Ew|apply Nat.ltb_ge in Ew].
  - destruct others as [|o others]; cbn [is_nil].
    { exfalso. cbn [sum_list_with] in Hroom. lia. }
    apply Hgo; [done|done|]. cbn [migrate_to_it]. unfold room. lia.
  - apply Hgo; [done|done|]. cbn [migrate_to_it]. unfold room. cbn [sum_list_with snd]. rewrite length_app. cbn [length]. lia.
Qed.

Lemma gone_is_gone s st st' : rem_ok st → rem_ok st' → s ∉ targets → s ∉ smap st → (∀ i x, x ∈ targets → smap st !! i = Some x → smap st' !! i = Some x) →
  s ∉ smap st'.
Proof.
  intros Hok Hok' Hs Hgone Hstay [i Hi]%list_elem_of_lookup. destruct (lookup_lt_is_Some_2 m0 i) as [x Hx].
  { rewrite <- (mo_len _ _ _ (rm_moved _ Hok')). by eapply lookup_lt_Some. }
  pose proof (mo_at _ _ _ (rm_moved _ Hok') i x Hx) as Hat. pose proof (mo_at _ _ _ (rm_moved _ Hok) i x Hx) as Hat0.
  destruct (om_get Z.ltb _ (migrate_data_list (removed st'))) as [[f t]|].
  { destruct Hat as (_ & Ht & E). assert (t = s) as -> by congruence. done. }
  assert (x = s) as -> by congruence. destruct (om_get Z.ltb _ _) as [[f t]|].
  - destruct Hat0 as (_ & Ht & E). pose proof (Hstay i t Ht E) as E'. assert (t = s) as -> by congruence. done.
  - apply Hgone. by eapply list_elem_of_lookup_2.
Qed.

(** All removed shards. *)
Lemma give_all_away_ok l : ∀ st, rem_ok st → NoDup (map fst l) →
  (∀ s vs, (s, vs) ∈ l → s ∉ targets ∧ vs = positions s 0 m0 ∧ ∀ i, m0 !! i = Some s → smap st !! i = Some s) →
  (sum_list_with (λ e, length e.2) l < room (migrate_to_it st))%nat →
  ∃ st', give_all_away w l st = Some (true, st') ∧ rem_ok st' ∧ (∀ i x, x ∉ map fst l → smap st !! i = Some x → smap st' !! i = Some x) ∧
    (∀ s, s ∈ map fst l → s ∉ smap st').
Proof.
  induction l as [|[s vs] l IH]; intros st Hok Hkeys Hl Hroom; cbn [give_all_away].
  { exists st. split_and!; [done|done|done|]. intros s Hin. by apply elem_of_nil in Hin. }
  destruct (Hl s vs) as (Hs & -> & Hu); [by left|]. cbn [map] in Hkeys. inversion_clear Hkeys as [|?? Hnin Hkeys'].
  cbn [sum_list_with snd] in Hroom.
  destruct (give_away_ok s (is_nil l) (sum_list_with (λ e, length e.2) l) (positions s 0 m0) Hs) with (st := st) as (st1 & -> & Hok1 & Hroom1 & Hstay & Hgone);
    [by destruct l|apply positions_NoDup|done| |done|].
  { intros v (i & -> & Hi)%elem_of_positions. exists i. split; [done|]. by apply Hu. }
  cbn [mbind option_bind].
  assert (s ∉ smap st1) as Hs1.
  { intros [i Hi]%list_elem_of_lookup. destruct (lookup_lt_is_Some_2 m0 i) as [x Hx].
    { rewrite <- (mo_len _ _ _ (rm_moved _ Hok1)). by eapply lookup_lt_Some. }
    pose proof (mo_at _ _ _ (rm_moved _ Hok1) i x Hx) as Hat. destruct (om_get _ _ _) as [[f t]|].
    - destruct Hat as (_ & Ht & E). assert (t = s) as -> by congruence. done.
    - assert (x = s) as -> by congruence. apply (Hgone i); [|done]. apply elem_of_positions. by exists i. }
  destruct (IH st1 Hok1 Hkeys') as (st' & -> & Hok' & Hstay' & Hgone'); [|done|].
  - intros s' vs' Hin. destruct (Hl s' vs') as (Hs' & -> & Hu'); [by right|]. split_and!; [done|done|]. intros i Hi. apply Hstay; [|by apply Hu'].
    intros ->. apply Hnin. apply list_elem_of_fmap. by exists (s, positions s 0 m0).
  - exists st'. split_and!; [done|done| |].
    + intros i x Hx Hi. cbn [map fst] in Hx. apply not_elem_of_cons in Hx as [Hx1 Hx2]. apply Hstay'; [done|]. by apply Hstay.
    + intros s' Hin. cbn [map fst] in Hin. apply elem_of_cons in Hin as [->|Hin]; [|by apply Hgone'].
      apply (gone_is_gone s st1 st'); [done|done|done|done|]. intros i x Hx Hi. apply Hstay'; [|done].
      intros ([s2 vs2] & -> & Hin)%list_elem_of_fmap. by destruct (Hl s2 vs2) as [? _]; [right|].
Qed.
End remove.

(** ** The shards that go and those that stay *)

Lemma Forall_filter_keep {A} (P Q : A → Prop) `{!∀ x, Decision (Q x)} l : Forall P l → Forall P (filter Q l).
Proof. rewrite !Forall_forall. intros Hl x [_ Hx]%list_elem_of_filter. by apply Hl. Qed.

Lemma om_erase_ok {V} k (t : list (Z * V)) : zok t → zok (om_erase k t).
Proof.
  intros [H1 H2]. split; [by apply Forall_filter_keep|]. clear H1. unfold om_erase. induction H2 as [|e t H2 IH He]; [constructor|].
  rewrite filter_cons. destruct (decide _); [|done]. constructor; [done|]. by apply Forall_filter_keep.
Qed.

Lemma om_get_erase {V} k (t : list (Z * V)) x : zok t → om_get Z.ltb x (om_erase k t) = if decide (x = k) then None else om_get Z.ltb x t.
Proof.
  intros Ht. pose proof (om_erase_ok k t Ht) as Ht'. apply option_eq. intros v. rewrite <- om_elemZ by done. unfold om_erase.
  rewrite list_elem_of_filter, om_elemZ by done. simpl. destruct (decide (x = k)) as [->|]; naive_solver.
Qed.

Lemma split_fold gone : ∀ gone0 r c, NoDup (gone0 ++ gone) → zok r → zok c → (length r = length gone0) →
  (∀ s, s ∈ gone0 ↔ om_get Z.ltb s r ≠ None) →
  let '(r', c') := fold_left (λ '(removed, current) s, (om_put Z.ltb s (vnodes_of s current) removed, om_erase s current)) gone (r, c) in
  zok r' ∧ zok c' ∧ length r' = length (gone0 ++ gone) ∧
  (∀ s, om_get Z.ltb s r' = if decide (s ∈ gone) then Some (vnodes_of s c) else om_get Z.ltb s r) ∧
  (∀ s, om_get Z.ltb s c' = if decide (s ∈ gone) then None else om_get Z.ltb s c).
Proof.
  induction gone as [|g gone IH]; intros gone0 r c Hnd Hr Hc Hlen Hin; cbn [fold_left].
  { rewrite app_nil_r. split_and!; done. }
  assert (g ∉ gone0 ∧ g ∉ gone) as [Hg0 Hg].
  { apply NoDup_app in Hnd as (_ & H1 & H2). inversion_clear H2. split; [|done]. intros Hg. apply (H1 g Hg). by left. }
  assert (om_get Z.ltb g r = None) as Hnone by (destruct (om_get Z.ltb g r) eqn:E; [|done]; exfalso; apply Hg0, Hin; by rewrite E).
  assert (length (om_put Z.ltb g (vnodes_of g c) r) = S (length r)) as Elen.
  { assert (map fst (om_put Z.ltb g (vnodes_of g c) r) ≡ₚ g :: map fst r) as Hp; [|apply Permutation_length in Hp; by rewrite length_map in Hp; simpl in Hp; rewrite length_map in Hp].
    apply list.NoDup_Permutation.
    - apply om_keys_NoDupZ. by apply om_update_okZ.
    - constructor; [|by apply om_keys_NoDupZ]. intros ([g' v] & -> & Hv)%list_elem_of_fmap. apply om_elemZ in Hv; [|done]. simpl in *. congruence.
    - intros x. rewrite elem_of_cons, !list_elem_of_fmap. split.
      + intros ([x' v] & -> & Hv). apply om_elemZ in Hv; [|by apply om_update_okZ]. unfold om_put in Hv. rewrite om_get_updateZ in Hv by done.
        destruct (decide (g = x')) as [->|]; [by left|]. right. exists (x', v). split; [done|]. by apply om_elemZ.
      + intros Hx. assert (∃ v, om_get Z.ltb x (om_put Z.ltb g (vnodes_of g c) r) = Some v) as [v Hv].
        { unfold om_put. rewrite om_get_updateZ by done. destruct (decide (g = x)) as [->|Hne]; [by eexists|].
          destruct Hx as [->|([x' v] & -> & Hv)]; [done|]. apply om_elemZ in Hv; [|done]. by exists v. }
        exists (x, v). split; [done|]. apply om_elemZ; [by apply om_update_okZ|done]. }
  specialize (IH (gone0 ++ [g]) (om_put Z.ltb g (vnodes_of g c) r) (om_erase g c)). rewrite <- app_assoc in IH. specialize (IH Hnd).
  specialize (IH ltac:(by apply om_update_okZ) ltac:(by apply om_erase_ok)). rewrite Elen, length_app in IH. specialize (IH ltac:(simpl; lia)).
  destruct (fold_left _ gone _) as [r' c']. destruct IH as (H1 & H2 & H3 & H4 & H5).
  - intros s. unfold om_put. rewrite om_get_updateZ by done. rewrite elem_of_app, list_elem_of_singleton, Hin. destruct (decide (g = s)); naive_solver.
  - split_and!; [done|done|by rewrite H3| |].
    + intros s. rewrite H4. unfold om_put. rewrite om_get_updateZ by done. destruct (decide (s ∈ gone)) as [Hs|Hs].
      * rewrite (decide_True (P := s ∈ g :: gone)) by by right. f_equal. unfold vnodes_of. rewrite om_get_erase by done. rewrite decide_False; [done|].
        by intros ->.
      * destruct (decide (g = s)) as [->|Hne]; [by rewrite (decide_True (P := s ∈ s :: gone)) by left|].
        rewrite (decide_False (P := s ∈ g :: gone)); [done|]. rewrite elem_of_cons. naive_solver.
    + intros s. rewrite H5, om_get_erase by done. destruct (decide (s ∈ gone)) as [Hs|Hs].
      * by rewrite (decide_True (P := s ∈ g :: gone)) by by right.
      * destruct (decide (s = g)) as [->|Hne]; [by rewrite (decide_True (P := g ∈ g :: gone)) by left|].
        rewrite (decide_False (P := s ∈ g :: gone)); [done|]. rewrite elem_of_cons. naive_solver.
Qed.

Lemma same_keys {V} (t : list (Z * V)) ks : zok t → NoDup ks → (∀ s, s ∈ ks ↔ om_get Z.ltb s t ≠ None) → map fst t ≡ₚ ks.
Proof.
  intros Ht Hnd Hk. apply list.NoDup_Permutation; [by apply om_keys_NoDupZ|done|]. intros x. rewrite Hk, list_elem_of_fmap. split.
  - intros ([x' v] & -> & Hv). apply om_elemZ in Hv; [|done]. simpl. by rewrite Hv.
  - intros Hx. destruct (om_get Z.ltb x t) as [v|] eqn:E; [|done]. exists (x, v). split; [done|]. by apply om_elemZ.
Qed.

Lemma room_enough w (todo : VnodeLists) : (S w * length todo ≤ room w todo + sum_list_with (λ e, length e.2) todo)%nat.
Proof. unfold room. induction todo as [|[t l] todo IH]; cbn [sum_list_with length snd]; lia. Qed.

Lemma sum_lengths m (t : VnodeLists) : (∀ s l, (s, l) ∈ t → l = positions s 0 m) →
  sum_list_with (λ e, length e.2) t = sum_list_with (λ s, count s m) (map fst t).
Proof.
  induction t as [|[s l] t IH]; intros Ht; [done|]. cbn [sum_list_with map fst snd]. rewrite (Ht s l), length_positions by left. rewrite IH; [done|].
  intros s' l' Hin. apply Ht. by right.
Qed.

Lemma removeSharding_ok m gone keep w : NoDup (gone ++ keep) → keep ≠ [] → (∀ x, x ∈ m → x ∈ gone ++ keep) → (∀ t, t ∈ keep → t ∈ m) →
  (length m < S w * length keep)%nat → Z.of_nat (length m) < 2 ^ 16 →
  ∃ st, removeSharding w gone (topology_of m) (MovesOf [] m) = Some (true, st) ∧ left_sharding_nodes st ≡ₚ keep ∧
    moved_ok m (left_sharding_nodes st) (removed st) ∧ (∀ s, s ∈ gone → s ∉ sharding_map (removed st)) ∧
    (∀ t, t ∈ keep → fair m w t (sharding_map (removed st))).
Proof.
  intros Hnd Hne Hall Hkeep Hroom Hm. destruct (topology_ok m Hm) as (Htopo & Hv & _).
  apply NoDup_app in Hnd as (Hndg & Hdisj & Hndk).
  pose proof (split_fold gone [] [] (topology_of m) Hndg (om_nil_ok _ _) Htopo eq_refl) as Hs.
  unfold removeSharding, split_topology. destruct (fold_left _ gone _) as [r c]. destruct Hs as (Hr & Hc & Hlen & Hgr & Hgc).
  { intros s. split; [by intros ?%elem_of_nil|done]. }
  assert (∀ s, s ∈ m ↔ om_get Z.ltb s (topology_of m) ≠ None) as Hkeys.
  { intros s. split.
    - intros Hs E. pose proof (topology_keys m s Hm Hs) as Hin. apply om_elemZ in Hin; [congruence|done].
    - destruct (om_get Z.ltb s _) as [l|] eqn:E; [|done]. intros _. apply om_elemZ in E; [|done]. by apply topology_elem in E as [_ ?]. }
  assert (map fst c ≡ₚ keep) as Hck.
  { apply same_keys; [done|done|]. intros s. rewrite Hgc. destruct (decide (s ∈ gone)) as [Hg|Hg].
    - split; [|done]. intros Hk. by destruct (Hdisj s Hg).
    - rewrite <- Hkeys. split; [apply Hkeep|]. intros Hs. specialize (Hall s Hs). apply elem_of_app in Hall as [?|?]; done. }
  assert (map fst r ≡ₚ gone) as Hrk.
  { apply same_keys; [done|done|]. intros s. rewrite Hgr. by destruct (decide (s ∈ gone)). }
  assert (∀ s l, (s, l) ∈ r → l = positions s 0 m) as Hrl.
  { intros s l Hin. apply om_elemZ in Hin; [|done]. rewrite Hgr in Hin. destruct (decide (s ∈ gone)); [|done]. injection Hin as <-. apply Hv. }
  assert (∀ s l, (s, l) ∈ c → l = positions s 0 m) as Hcl.
  { intros s l Hin. apply om_elemZ in Hin; [|done]. rewrite Hgc in Hin. destruct (decide (s ∈ gone)); [done|]. rewrite <- Hv. unfold vnodes_of. by rewrite Hin. }
  cbn [app] in Hlen. rewrite (proj2 (Nat.eqb_eq _ _) Hlen). assert (is_nil c = false) as ->.
  { destruct c; [|done]. exfalso. apply Hne. by apply Permutation_nil_l in Hck. }
  cbn [orb negb app]. destruct (give_all_away_ok m (map fst c) w) with (l := r) (st := RemovalOf [] c [] (MovesOf [] m)) as (st & -> & Hok & _ & Hgone).
  - rewrite Hck. done.
  - split; cbn [removed full_nodes migrate_to_it left_sharding_nodes sharding_map app map]; [apply moved_start|done|done| |].
    + intros t l Hin. rewrite (Hcl t l Hin), length_positions. split; [done|by right].
    + intros t _. unfold fair. lia.
  - by rewrite Hrk.
  - intros s vs Hin. split_and!; [|by apply Hrl|done]. rewrite Hck. assert (s ∈ gone) as Hg; [|by apply Hdisj].
    rewrite <- Hrk. apply list_elem_of_fmap. by exists (s, vs).
  - cbn [migrate_to_it]. pose proof (room_enough w c) as Hr1. rewrite (sum_lengths m c Hcl), (sum_list_with_perm _ _ _ Hck) in Hr1.
    rewrite (sum_lengths m r Hrl), (sum_list_with_perm _ _ _ Hrk). apply Permutation_length in Hck as Hclen. rewrite length_map in Hclen. rewrite Hclen in Hr1.
    assert (sum_list_with (λ s, count s m) (gone ++ keep) = length m) as Hsum by (apply sum_counts; [by apply NoDup_app|done]).
    rewrite sum_list_with_app in Hsum. lia.
  - cbn [mbind option_bind]. eexists. split; [done|]. cbn [left_sharding_nodes removed]. rewrite (rm_left _ _ _ _ Hok), (rm_keys _ _ _ _ Hok). split_and!.
    + done.
    + apply Hok.
    + intros s Hg. apply Hgone. by rewrite Hrk.
    + intros t Ht. apply Hok. by rewrite Hck.
Qed.

(** Removing shards, when every other shard has a place and there is room for
    all: [removeSharding] always succeeds and reads nothing behind a list. The
    removed shards have no place left, only their places moved and every move is
    recorded; each shard that stays keeps its places, and gets no more than fill
    its part, or one. The shards that stay are those listed. *)
Theorem removeSharding_complete m gone keep w : NoDup (gone ++ keep) → keep ≠ [] → (∀ x, x ∈ m → x ∈ gone ++ keep) → (∀ t, t ∈ keep → t ∈ m) →
  (length m < S w * length keep)%nat → Z.of_nat (length m) < 2 ^ 16 →
  ∃ st, removeSharding w gone (topology_of m) (MovesOf [] m) = Some (true, st) ∧ left_sharding_nodes st ≡ₚ keep ∧
    moved_ok m (left_sharding_nodes st) (removed st) ∧ (∀ s, s ∈ gone → s ∉ sharding_map (removed st)) ∧
    (∀ t, t ∈ keep → fair m w t (sharding_map (removed st))).
Proof. apply removeSharding_ok. Qed.

Lemma removeSharding_complete_witness : ∃ st, removeSharding 2 [3] (topology_of [1; 2; 3; 1; 3]) (MovesOf [] [1; 2; 3; 1; 3]) = Some (true, st) ∧
  (3 ∉ sharding_map (removed st)) ∧ sharding_map (removed st) = [1; 2; 1; 1; 2].
Proof.
  destruct (removeSharding_complete [1; 2; 3; 1; 3] [3] [1; 2] 2) as (st & E & _ & _ & Hg & _).
  - by apply (bool_decide_unpack _).
  - done.
  - intros x Hx. simpl. set_solver.
  - intros x Hx. set_solver.
  - simpl. lia.
  - done.
  - exists st. split_and!; [exact E|apply Hg; by left|]. revert E. vm_compute. by intros [= <-].
Defined.
