(* ===== verification/ShardWork.v ===== *)
(** * The run of a change of the shards ([bundles/index/IndexTaskService.cpp])

    What [doMigrateWork] does to the files and sends, whether it ends or not, and
    that it succeeds when the other nodes do their part. *)
From S2P Require Import Prelude OrderedMap Sharding MasterMigrate ShardMigrate.

(** ** What a run leaves alone *)

Definition sends_config (e : Event) : bool := match e with Pushed _ (UpdateShardingConf _ _) _ => true | _ => false end.

Definition inside (e : Event) : Prop := e ≠ BeginMigrate ∧ e ≠ EndMigrate.

(** Nothing is saved, and no new configuration is sent. *)
Definition quiet (w w' : World) : Prop :=
  files w' = files w ∧ ∃ evs, events w' = events w ++ evs ∧ Forall (λ e, inside e ∧ sends_config e = false) evs.

#[export] Instance quiet_refl : Reflexive quiet.
Proof. intros w. split; [done|]. exists []. by rewrite app_nil_r. Qed.

#[export] Instance quiet_trans : Transitive quiet.
Proof.
  intros w1 w2 w3 [Hf1 (e1 & E1 & H1)] [Hf2 (e2 & E2 & H2)]. split; [congruence|]. exists (e1 ++ e2). split; [by rewrite E2, E1, app_assoc|].
  by apply Forall_app.
Qed.

Definition keeps {A} (m : Run A) : Prop := ∀ w, quiet w (m w).2.

Lemma keeps_ret {A} (a : A) : keeps (mret a).
Proof. intros w. reflexivity. Qed.

Lemma keeps_bind {A B} (m : Run A) (f : A → Run B) : keeps m → (∀ a, keeps (f a)) → keeps (m ≫= f).
Proof.
  intros Hm Hf w. unfold mbind, run_bind. specialize (Hm w). destruct (m w) as [[a|] w1]; [|done]. etrans; [exact Hm|apply Hf].
Qed.

Lemma keeps_wait before turn : Forall (λ e, inside e ∧ sends_config e = false) before → keeps (wait_until before turn).
Proof.
  intros Hb [ts evs fs]. unfold wait_until. cbn [turns events files].
  assert (∀ evs0, ∃ evs', (turns_until before turn ts evs0).2 = evs0 ++ evs' ∧ Forall (λ e, inside e ∧ sends_config e = false) evs') as Hev.
  { induction ts as [|m ts IH]; intros evs0; cbn [turns_until]; [by exists before|]. destruct (turn m); [by exists before|].
    destruct (IH (evs0 ++ before)) as (evs' & -> & ?). exists (before ++ evs'). rewrite app_assoc. split; [done|]. by apply Forall_app. }
  destruct (Hev evs) as (evs' & E & Hev'). destruct (turns_until before turn ts evs) as [[r ts'] evs1]. cbn [snd] in E. subst.
  split; [done|]. by exists evs'.
Qed.

(** A push is always over; it sends its request and nothing else. *)
Lemma push_over ma r shardids w : ∃ ok evs, pushWriteReqToShard ma r shardids true true w = (Some ok, WorldOf (turns w) (events w ++ evs) (files w)) ∧
  Forall (λ e, ∃ queue created, e = Pushed queue r created) evs.
Proof.
  unfold pushWriteReqToShard. destruct w as [ts evs fs]. cbn [turns events files].
  assert (∀ ok : bool, ∃ ok0 evs0, (mret ok : Run bool) (WorldOf ts evs fs) = (Some ok0, WorldOf ts (evs ++ evs0) fs) ∧
    Forall (λ e, ∃ queue created, e = Pushed queue r created) evs0) as Hnone by (intros ok; exists ok, []; by rewrite app_nil_r).
  destruct (_ || _); [apply Hnone|]. cbn [negb andb]. clear Hnone. revert evs. induction shardids as [|s shardids IH]; intros evs.
  - exists true, []. by rewrite app_nil_r.
  - cbn [push_to negb andb]. unfold mbind, run_bind, emit. cbn [turns events files]. destruct (createZNode _ _) eqn:Ec.
    + destruct (IH (evs ++ [Pushed (getWriteReqQueueNode ma s) r true])) as (ok & evs1 & -> & Hevs).
      exists ok, (Pushed (getWriteReqQueueNode ma s) r true :: evs1). rewrite <- app_assoc. split; [done|]. constructor; [by do 2 eexists|done].
    + exists false, [Pushed (getWriteReqQueueNode ma s) r false]. split; [done|]. repeat constructor. by do 2 eexists.
Qed.

Lemma keeps_index cl c dir scds : keeps (indexShardingNodes cl c dir scds).
Proof.
  induction scds as [|[s files] scds IH]; [apply keeps_ret|]. cbn [indexShardingNodes]. apply keeps_bind; [|intros []; [done|apply keeps_ret]].
  intros w. destruct (push_over (master cl) (index_request c dir s files) [s] w) as (ok & evs & -> & Hevs). split; [done|]. exists evs. split; [done|].
  eapply Forall_impl; [exact Hevs|]. by intros e (queue & created & ->).
Qed.

Lemma keeps_waits ma shardids : keeps (waitForMigrateReady ma shardids) ∧ keeps (waitForNewShardingNodes ma shardids) ∧ keeps (waitForMigrateIndexing ma shardids).
Proof.
  split_and!.
  - by apply keeps_wait.
  - unfold waitForNewShardingNodes. destruct (negb _); [apply keeps_ret|]. apply keeps_wait. by repeat constructor.
  - apply keeps_bind; [by apply keeps_wait|intros; apply keeps_ret].
Qed.

(** ** How the work can end *)

Definition saved (c : Collection) (m : list Z) (w : World) : World := WorldOf (turns w) (events w) (saveShardingMapToFile (files w) (map_file c) m).

(** It succeeds exactly when the table is saved and the configuration sent. *)
Definition worked (cl : Cluster) (c : Collection) (removing : bool) (m : list Z) (nodes : list Z) (w : World) (r : option bool * World) : Prop :=
  if bool_decide (r.1 = Some true) then ∃ w1, quiet w w1 ∧ (updateShardingConfig cl c nodes removing (saved c m w1)) = (Some tt, r.2)
  else quiet w r.2.

Lemma not_worked cl c removing m nodes w o w' : o ≠ Some true → quiet w w' → worked cl c removing m nodes w (o, w').
Proof. intros Ho Hq. unfold worked. by rewrite bool_decide_false. Qed.

Lemma worked_bind {A} cl c removing m nodes w0 w (x : Run A) (f : A → Run bool) : quiet w0 w → keeps x →
  (∀ a w1, quiet w0 w1 → worked cl c removing m nodes w0 (f a w1)) → worked cl c removing m nodes w0 ((x ≫= f) w).
Proof.
  intros Hw Hx Hf. unfold mbind, run_bind. specialize (Hx w). destruct (x w) as [[a|] w1]; cbn [snd] in Hx; [apply Hf; by etrans|].
  apply not_worked; [done|by etrans].
Qed.

Lemma update_over cl c nodes removing w : ∃ evs, updateShardingConfig cl c nodes removing w = (Some tt, WorldOf (turns w) (events w ++ evs) (files w)) ∧
  Forall (λ e, ∃ queue created, e = Pushed queue (UpdateShardingConf (collectionName_ c) (sharding_cfg (shardList_ c) nodes removing)) created) evs.
Proof.
  unfold updateShardingConfig. set (req := UpdateShardingConf _ _).
  assert (∃ (ok : bool) evs, (if removing then mret true else pushWriteReqToShard (master cl) req nodes true true) w = (Some ok, WorldOf (turns w) (events w ++ evs) (files w)) ∧
    Forall (λ e, ∃ queue created, e = Pushed queue req created) evs) as (ok1 & evs1 & E1 & H1).
  { destruct removing; [exists true, []; destruct w; cbn; by rewrite app_nil_r|apply push_over]. }
  set (curr := shardList_ c ++ _). destruct (push_over (master cl) req curr (WorldOf (turns w) (events w ++ evs1) (files w))) as (ok2 & evs2 & E2 & H2).
  exists (evs1 ++ evs2). unfold mbind, run_bind. rewrite E1, E2. cbn [turns events files]. rewrite app_assoc. split; [done|]. by apply Forall_app.
Qed.

Lemma work_worked cl c removing mv nodes w : worked cl c removing (sharding_map mv) nodes w (doMigrateWork cl c removing mv nodes w).
Proof.
  unfold doMigrateWork. destruct (from_to ← _; _) as [[ins del]|]; [|by apply not_worked]. pose proof (keeps_waits (master cl)) as Hwaits.
  apply worked_bind; [done|apply Hwaits|]. intros [] w1 H1; cbn [negb]; [|by apply not_worked].
  apply worked_bind; [done|destruct removing; [apply keeps_ret|apply Hwaits]|]. intros [] w2 H2; cbn [negb]; [|by apply not_worked].
  apply worked_bind; [done|apply keeps_index|]. intros [] w3 H3; cbn [negb]; [|by apply not_worked].
  apply worked_bind; [done|destruct removing; [apply keeps_ret|apply Hwaits]|]. intros _ w4 H4.
  apply worked_bind; [done|apply keeps_index|]. intros _ w5 H5. apply worked_bind; [done|apply Hwaits|]. intros _ w6 H6.
  unfold mbind at 1, run_bind at 1, save_files. fold (saved c (sharding_map mv) w6).
  destruct (update_over cl c nodes removing (saved c (sharding_map mv) w6)) as (evs & E & _). unfold mbind, run_bind. rewrite E.
  unfold worked. rewrite bool_decide_true by done. by exists w6.
Qed.

(** ** The whole change *)

Lemma begin_over ma zk shardids w : ∃ ok : bool, notifyAllShardingBeginMigrate ma zk shardids w =
  (Some ok, WorldOf (turns w) (events w ++ (if ok then [BeginMigrate] else [])) (files w)).
Proof.
  assert ((mret false : Run bool) w = (Some false, WorldOf (turns w) (events w ++ []) (files w))) as Hf by (destruct w; cbn; by rewrite app_nil_r).
  unfold notifyAllShardingBeginMigrate. repeat (destruct (negb _); [by exists false|]). destruct (write_prepared_ ma); [by exists false|].
  destruct (isZNodeExists _ _); [by exists false|]. repeat (destruct (negb _); [by exists false|]). by exists true.
Qed.

(** The run of a change that fails or still waits has saved nothing and sent no
    new configuration; if it is over and was announced, its end was announced
    too; if it succeeded, the table is saved and the configuration was sent. *)
Definition outcome (cl : Cluster) (c : Collection) (removing : bool) (m nodes : list Z) (w : World) (r : option bool * World) : Prop :=
  match r.1 with
  | None => files r.2 = files w ∧ ∃ evs, events r.2 = events w ++ BeginMigrate :: evs ∧ Forall (λ e, inside e ∧ sends_config e = false) evs
  | Some false => files r.2 = files w ∧
      (events r.2 = events w ∨ ∃ evs, events r.2 = events w ++ BeginMigrate :: evs ++ [EndMigrate] ∧ Forall (λ e, inside e ∧ sends_config e = false) evs)
  | Some true => files r.2 = saveShardingMapToFile (files w) (map_file c) m ∧
      ∃ evs sent, events r.2 = events w ++ BeginMigrate :: evs ++ sent ++ [EndMigrate] ∧ Forall (λ e, inside e ∧ sends_config e = false) evs ∧
        Forall (λ e, ∃ queue created, e = Pushed queue (UpdateShardingConf (collectionName_ c) (sharding_cfg (shardList_ c) nodes removing)) created) sent
  end.

Lemma change_outcome cl c removing mv nodes w :
  outcome cl c removing (sharding_map mv) nodes w (change_shards cl c (doMigrateWork cl c removing mv nodes) w).
Proof.
  unfold change_shards. unfold mbind at 1, run_bind at 1. destruct (begin_over (master cl) (at_start cl) (shardList_ c) w) as [[] ->]; cbn [negb].
  2:{ split; [done|]. left. cbn. by rewrite app_nil_r. }
  set (w0 := WorldOf _ _ _). pose proof (work_worked cl c removing mv nodes w0) as Hw. unfold mbind, run_bind, notifyAllShardingEndMigrate, emit.
  destruct (doMigrateWork cl c removing mv nodes w0) as [[[]|] w1]; unfold worked in Hw; cbn [fst snd] in Hw.
  - rewrite bool_decide_true in Hw by done. destruct Hw as (w2 & [Hf (evs & Ee & Hq)] & Hu). destruct (update_over cl c nodes removing (saved c (sharding_map mv) w2)) as (sent & E & Hs).
    rewrite Hu in E. injection E as ->.
    unfold outcome. cbn [fst snd saved files events turns]. rewrite Hf. split; [done|]. exists evs, sent. rewrite Ee. cbn [w0 events]. split; [by rewrite <- !app_assoc|done].
  - rewrite bool_decide_false in Hw by done. destruct Hw as [Hf (evs & Ee & Hq)]. split; [done|]. right. exists evs. cbn [snd events]. rewrite Ee. cbn [w0 events]. by rewrite <- !app_assoc.
  - rewrite bool_decide_false in Hw by done. destruct Hw as [Hf (evs & Ee & Hq)]. split; [done|]. exists evs. cbn [snd]. rewrite Ee. cbn [w0 events]. by rewrite <- !app_assoc.
Qed.

(** ** When the cluster does its part *)

(** The change may begin, the nodes write their documents, ZooKeeper takes the
    requests, the master is not stopped, and [all] shards are started and idle
    in as many turns as there are waits. *)
Record cooperates (cl : Cluster) (c : Collection) (removing : bool) (data : list (Z * (Z * Z))) (all : list Z) (w : World) (ins del : ScdNames) : Prop := {
  co_begin : (notifyAllShardingBeginMigrate (master cl) (at_start cl) (shardList_ c) w).1 = Some true;
  co_scds : (from_to ← migrate_from_to_list cl data; generateMigrateScds (hosts cl) from_to) = Some (ins, del);
  co_accepts : ∀ r, accepts (master cl) r;
  co_stops : never_stops (turns w);
  co_good : ((if removing then 2 else 4) ≤ good_turns (master cl) all (turns w))%nat }.

Definition scds_pushed (cl : Cluster) (c : Collection) (dir : string) (scds : ScdNames) : list Event :=
  map (λ e, Pushed (getWriteReqQueueNode (master cl) e.1) (index_request c dir e.1 e.2) true) scds.

Definition config_sent (cl : Cluster) (c : Collection) (nodes : list Z) (removing : bool) : list Event :=
  let req := UpdateShardingConf (collectionName_ c) (sharding_cfg (shardList_ c) nodes removing) in
  map (λ s, Pushed (getWriteReqQueueNode (master cl) s) req true)
    ((if removing then [] else nodes) ++ shardList_ c ++ (if isMasterAggregator_ c && negb (isWorkerNode c) then [nodeId_ (master cl)] else [])).

(** The new shards are announced in each turn of their wait. *)
Definition announced (nodes : list Z) (removing : bool) (k : nat) : list Event :=
  if removing then [] else replicate (S k) (SetNewShardings (new_shardids nodes)).

Section succeeds.
Context (cl : Cluster) (c : Collection) (Hz : zookeeper_ (master cl) = true) (Hacc : ∀ r, accepts (master cl) r).

Lemma index_succeeds dir scds : ∀ w, indexShardingNodes cl c dir scds w = (Some true, WorldOf (turns w) (events w ++ scds_pushed cl c dir scds) (files w)).
Proof.
  induction scds as [|[s fs] scds IH]; intros w; [destruct w; cbn; by rewrite app_nil_r|]. cbn [indexShardingNodes].
  unfold mbind, run_bind. rewrite push_accepted by done. rewrite IH. cbn [turns events files map scds_pushed fst snd]. by rewrite <- app_assoc.
Qed.

Lemma update_succeeds nodes removing w :
  updateShardingConfig cl c nodes removing w = (Some tt, WorldOf (turns w) (events w ++ config_sent cl c nodes removing) (files w)).
Proof.
  unfold updateShardingConfig, config_sent, mbind, run_bind. cbv zeta. destruct removing.
  - cbn [mret run_ret]. rewrite push_accepted by done. done.
  - rewrite !push_accepted by done. cbn [turns events files]. by rewrite <- app_assoc, <- map_app.
Qed.

Lemma work_succeeds (removing : bool) mv nodes all w ins del :
  (from_to ← migrate_from_to_list cl (migrate_data_list mv); generateMigrateScds (hosts cl) from_to) = Some (ins, del) →
  shardList_ c ⊆ all → nodes ⊆ all → never_stops (turns w) → ((if removing then 2 else 4) ≤ good_turns (master cl) all (turns w))%nat →
  ∃ ts k, doMigrateWork cl c removing mv nodes w = (Some true,
    WorldOf ts (events w ++ announced nodes removing k ++ scds_pushed cl c (insert_dir cl) ins ++ scds_pushed cl c (del_dir cl) del ++ config_sent cl c nodes removing)
      (saveShardingMapToFile (files w) (map_file c) (sharding_map mv))).
Proof.
  intros Hscds Hl Hn Hs Hgood. unfold doMigrateWork. rewrite Hscds. clear Hscds. unfold mbind, run_bind, save_files.
  destruct (waitForMigrateReady_ends (master cl) all (shardList_ c) (if removing then 1 else 3) w Hl Hs) as (ts1 & -> & Hs1 & Hn1); [destruct removing; lia|].
  cbn [negb].
  assert (∃ ts2 k, (if removing then mret true else waitForNewShardingNodes (master cl) nodes) (WorldOf ts1 (events w) (files w)) =
    (Some true, WorldOf ts2 (events w ++ announced nodes removing k) (files w)) ∧ never_stops ts2 ∧ ((if removing then 1 else 2) ≤ good_turns (master cl) all ts2)%nat)
    as (ts2 & k & -> & Hs2 & Hn2).
  { destruct removing; [exists ts1, O; cbn; by rewrite app_nil_r|].
    destruct (waitForNewShardingNodes_ends (master cl) all nodes 2 (WorldOf ts1 (events w) (files w)) Hn Hs1) as (ts2 & k & -> & ? & ?); [simpl in *; lia|done|by exists ts2, k]. }
  cbn [negb]. rewrite index_succeeds. cbn [negb turns events files]. set (evs3 := (events w ++ _) ++ _).
  assert (∃ ts4, (if removing then mret tt else waitForMigrateIndexing (master cl) nodes) (WorldOf ts2 evs3 (files w)) =
    (Some tt, WorldOf ts4 evs3 (files w)) ∧ never_stops ts4 ∧ (1 ≤ good_turns (master cl) all ts4)%nat) as (ts4 & -> & Hs4 & Hn4).
  { destruct removing; [by exists ts2|].
    destruct (waitForMigrateIndexing_ends (master cl) all nodes 1 (WorldOf ts2 evs3 (files w)) Hn Hs2) as (ts4 & -> & ? & ?); [simpl in *; lia|by exists ts4]. }
  rewrite index_succeeds. cbn [turns events files]. set (evs5 := evs3 ++ _).
  destruct (waitForMigrateIndexing_ends (master cl) all (shardList_ c) 0 (WorldOf ts4 evs5 (files w)) Hl Hs4) as (ts5 & -> & _); [simpl in *; lia|].
  cbn [turns events files]. rewrite update_succeeds. cbn [turns events files]. exists ts5, k. unfold evs5, evs3. by rewrite <- !app_assoc.
Qed.
End succeeds.

Lemma begun_zookeeper ma zk shardids w : (notifyAllShardingBeginMigrate ma zk shardids w).1 = Some true → zookeeper_ ma = true.
Proof.
  unfold notifyAllShardingBeginMigrate, isAllShardNodeOK. destruct (zookeeper_ ma); [done|]. cbn [andb negb]. by destruct (negb (isMinePrimary ma zk)).
Qed.

(** Then the change succeeds; the deletions are sent after the insertions have
    been taken, and the configuration after both. *)
Lemma change_succeeds cl c removing mv nodes all w ins del : cooperates cl c removing (migrate_data_list mv) all w ins del →
  shardList_ c ⊆ all → nodes ⊆ all → ∃ ts k, change_shards cl c (doMigrateWork cl c removing mv nodes) w = (Some true,
    WorldOf ts (events w ++ BeginMigrate :: announced nodes removing k ++ scds_pushed cl c (insert_dir cl) ins ++ scds_pushed cl c (del_dir cl) del ++
        config_sent cl c nodes removing ++ [EndMigrate])
      (saveShardingMapToFile (files w) (map_file c) (sharding_map mv))).
Proof.
  intros [Hb Hscds Hacc Hs Hgood] Hl Hn. pose proof (begun_zookeeper _ _ _ _ Hb) as Hz. unfold change_shards, mbind, run_bind.
  destruct (begin_over (master cl) (at_start cl) (shardList_ c) w) as (ok & E). rewrite E in *. cbn [fst] in Hb. injection Hb as ->. cbn [negb].
  destruct (work_succeeds cl c Hz Hacc removing mv nodes all (WorldOf (turns w) (events w ++ [BeginMigrate]) (files w)) ins del Hscds Hl Hn Hs Hgood) as (ts & k & ->).
  exists ts, k. unfold notifyAllShardingEndMigrate, emit. cbn [turns events files]. by rewrite <- !app_assoc.
Qed.
