(* ===== verification/ShardChange.v ===== *)
(** * Shards added or removed while documents are stored

    What the change of the table means for the documents: each node that loses
    places writes exactly the documents that have to move ([generateMigrateSCD]),
    and after the change the nodes start with a table that keeps the promises of
    [ShardingLaws]. *)
From S2P Require Import Prelude CNum OrderedMap GroupRep Phrases Sharding ShardingFile MasterMigrate ShardMigrate ShardWork ShardMigrateSpec ShardRemoveSpec.

(** ** The requests to the nodes *)

Section requests.
Context (cl : Cluster).

Definition lists_of (ip : string) (ft : list (string * VnodeLists)) : VnodeLists := default [] (om_get str_lt ip ft).

Notation sok := (om_ok str_lt (λ _ : string, True)).

(** What is asked of the nodes after the moves [data]. *)
Definition asked (ft : list (string * VnodeLists)) (data : list (Z * (Z * Z))) : Prop :=
  sok ft ∧ (∀ ip, zok (lists_of ip ft)) ∧
  ∀ ip t v, v ∈ vnodes_of t (lists_of ip ft) ↔ ∃ f, (v, (f, t)) ∈ data ∧ shardip cl f = ip.

Lemma lists_update k g ft ip : sok ft → lists_of ip (om_update str_lt (λ o, g (default [] o)) k ft) = if decide (k = ip) then g (lists_of ip ft) else lists_of ip ft.
Proof.
  intros Hft. unfold lists_of. rewrite (om_get_update str_lt (λ _, True)) by done. destruct (decide (k = ip)) as [->|Hne].
  - assert (same_key str_lt ip ip = true) as ->; [|done]. apply same_key_spec. by rewrite str_lt_irrefl.
  - destruct (same_key str_lt k ip) eqn:E; [|done]. apply same_key_spec in E as [E1 E2]. by destruct Hne; apply str_lt_total.
Qed.

Lemma requests_ok data : (∀ v f t, (v, (f, t)) ∈ data → shardip cl f ≠ EmptyString) →
  ∃ ft, migrate_from_to_list cl data = Some ft ∧ asked ft data.
Proof.
  intros Hip. unfold migrate_from_to_list.
  assert (∀ l done0 ft, asked ft done0 → (∀ v f t, (v, (f, t)) ∈ l → shardip cl f ≠ EmptyString) →
    ∃ ft', foldM (add_request cl) ft l = Some ft' ∧ asked ft' (done0 ++ l)) as Hgen.
  { induction l as [|[v [f t]] l IH]; intros done0 ft Hft Hl; [exists ft; by rewrite app_nil_r|]. cbn [foldM].
    pose proof (Hl v f t ltac:(by left)) as Hf. unfold add_request at 2. cbv zeta beta iota. rewrite (proj2 (String.eqb_neq _ _) Hf). cbn [mbind option_bind]. destruct Hft as (H1 & H2 & H3).
    rewrite cons_middle, (app_assoc done0 [(v, (f, t))] l). apply IH; [|intros; eapply Hl; by right]. split_and!.
    - by apply om_update_ok; [apply _|..].
    - intros ip. rewrite (lists_update _ (put_vnode t v)) by done. destruct (decide _); [by apply put_vnode_ok|done].
    - intros ip t' v'. rewrite (lists_update _ (put_vnode t v)) by done.
      assert (v' ∈ vnodes_of t' (if decide (shardip cl f = ip) then put_vnode t v (lists_of ip ft) else lists_of ip ft) ↔
        v' ∈ vnodes_of t' (lists_of ip ft) ∨ shardip cl f = ip ∧ t' = t ∧ v' = v) as ->.
      { destruct (decide (shardip cl f = ip)); [|naive_solver]. rewrite vnodes_of_put by done. destruct (decide (t = t')) as [->|]; [|naive_solver].
        rewrite elem_of_app, list_elem_of_singleton. naive_solver. }
      rewrite H3. setoid_rewrite elem_of_app. setoid_rewrite list_elem_of_singleton. naive_solver. }
  apply (Hgen data [] []); [|done]. split_and!; [apply om_nil_ok|intros ip; apply om_nil_ok|].
  intros ip t v. unfold lists_of. simpl. split; [by intros ?%elem_of_nil|]. intros (f & Hin & _). by apply elem_of_nil in Hin.
Qed.

(** ** The documents of one node *)

Context `{KeyNumbers} {Doc : Type}.
Context (m0 targets : list Z) (mv : Moves) (Hmv : moved_ok m0 targets mv) (Hpos : Forall (λ t, 0 < t) targets).
Context (s : Z) (Hs : s ∉ targets).
Context (ft : list (string * VnodeLists)) (Hft : asked ft (migrate_data_list mv)).

Lemma found_shard_ok i : m0 !! i = Some s →
  ∃ t, sharding_map mv !! i = Some t ∧ found_shardid (lists_of (shardip cl s) ft) (Z.of_nat i) = if decide (t = s) then 0 else t.
Proof.
  intros Hi. destruct Hft as (_ & Hz & Hel). pose proof (mo_at _ _ _ Hmv i s Hi) as Hat. unfold found_shardid.
  set (lists := lists_of (shardip cl s) ft) in *. specialize (Hz (shardip cl s)). fold lists in Hz.
  assert (∀ e, e ∈ filter (λ e, Z.of_nat i ∈ e.2) lists → ∃ f, om_get Z.ltb (Z.of_nat i) (migrate_data_list mv) = Some (f, e.1)) as Hfound.
  { intros [t vs] [Hv Hin]%list_elem_of_filter. simpl in *. apply om_elemZ in Hin; [|done].
    assert (Z.of_nat i ∈ vnodes_of t lists) as Hv' by (unfold vnodes_of; by rewrite Hin).
    apply Hel in Hv' as (f & Hd & _). exists f. apply om_elemZ; [apply Hmv|done]. }
  destruct (om_get Z.ltb (Z.of_nat i) (migrate_data_list mv)) as [[f t]|] eqn:E.
  - destruct Hat as (-> & Ht & Hi'). exists t. split; [done|]. rewrite decide_False by (intros ->; done).
    assert (Z.of_nat i ∈ vnodes_of t lists) as Hv.
    { apply Hel. exists s. split; [|done]. apply om_elemZ; [apply Hmv|done]. }
    unfold vnodes_of in Hv. destruct (om_get Z.ltb t lists) as [vs|] eqn:Et; [simpl in Hv|by apply elem_of_nil in Hv]. apply om_elemZ in Et; [|done].
    destruct (filter _ lists) as [|e l] eqn:Ef.
    + exfalso. assert ((t, vs) ∈ filter (λ e : Z * list Z, Z.of_nat i ∈ e.2) lists) as Hin by by apply list_elem_of_filter. rewrite Ef in Hin.
      by apply elem_of_nil in Hin.
    + simpl. destruct (Hfound e) as [f' E']; [by left|]. by injection E' as _ <-.
  - exists s. split; [done|]. rewrite decide_True by done. destruct (filter _ lists) as [|e l] eqn:Ef; [done|].
    destruct (Hfound e) as [f' E']; [by left|done].
Qed.

(** The shard of a document in the new table. *)
Definition new_shard (d : Stored Doc) : option Z := uid ← docid_str d; v ← vnode_index uid; sharding_map mv !! Z.to_nat v.

(** A document has a key, and is where the old table says. *)
Definition well_placed (d : Stored Doc) : Prop := ∀ uid, docid_str d = Some uid → ∃ i, vnode_index uid = Some (Z.of_nat i) ∧ m0 !! i = Some s.

Definition leaves (d : Stored Doc) : bool := match new_shard d with Some t => negb (t =? s) | None => false end.
Definition goes_to (t : Z) (d : Stored Doc) : bool := leaves d && bool_decide (new_shard d = Some t).

Definition documents_to (t : Z) (ins : list (Z * list Doc)) : list Doc := default [] (om_get Z.ltb t ins).

Definition generated (ds : list (Stored Doc)) (st : list (Z * list Doc) * list Doc) : Prop :=
  zok st.1 ∧ st.2 = map stored (filter (λ d, leaves d = true) ds) ∧ ∀ t, documents_to t st.1 = map stored (filter (λ d, goes_to t d = true) ds).

Lemma migrate_one_ok ds st d : generated ds st → well_placed d →
  ∃ st', generate_one (lists_of (shardip cl s) ft) st d = Some st' ∧ generated (ds ++ [d]) st'.
Proof.
  intros (Hz & Hdel & Hins) Hd. unfold generate_one. assert (∀ (P : Stored Doc → Prop) `{!∀ d, Decision (P d)}, filter P (ds ++ [d]) = filter P ds ++ if decide (P d) then [d] else []) as Ef.
  { intros P ?. rewrite filter_app. f_equal. }
  destruct (docid_str d) as [uid|] eqn:Eu.
  - destruct (Hd uid Eu) as (i & Ev & Hi). rewrite Ev. cbn [mbind option_bind]. destruct (found_shard_ok i Hi) as (t & Ht & ->).
    assert (new_shard d = Some t) as En by (unfold new_shard; rewrite Eu; cbn [mbind option_bind]; rewrite Ev; cbn [mbind option_bind]; by rewrite Nat2Z.id).
    destruct (decide (t = s)) as [->|Hts].
    + assert (leaves d = false) as El by (unfold leaves; rewrite En, Z.eqb_refl; done). cbn [Z.eqb]. eexists. split; [done|]. split_and!; [done| |].
      * by rewrite Ef, decide_False, app_nil_r by by rewrite El.
      * intros t. rewrite Ef, decide_False, app_nil_r; [done|]. unfold goes_to. by rewrite El.
    + assert (leaves d = true) as El by (unfold leaves; rewrite En; apply negb_true_iff; lia).
      assert (t ≠ 0) as H0.
      { pose proof (mo_at _ _ _ Hmv i s Hi) as Hat. destruct (om_get _ _ _) as [[f t']|]; [|congruence]. destruct Hat as (_ & Hin & E).
        assert (t' = t) as -> by congruence. eapply Forall_forall in Hpos; [|exact Hin]. lia. }
      rewrite (proj2 (Z.eqb_neq _ _) H0). eexists. split; [done|]. cbn [fst snd]. split_and!.
      * by apply om_update_okZ.
      * by rewrite Hdel, Ef, decide_True, map_app by done.
      * intros t'. unfold documents_to. cbn [fst]. rewrite om_get_updateZ by done. rewrite Ef, map_app. unfold documents_to in Hins. destruct (decide (t = t')) as [<-|Hne].
        -- rewrite decide_True; [simpl; by rewrite Hins|]. unfold goes_to. rewrite El. by rewrite bool_decide_true.
        -- rewrite decide_False; [by rewrite Hins, app_nil_r|]. unfold goes_to. rewrite El, bool_decide_false; [done|]. congruence.
  - assert (leaves d = false) as El by (unfold leaves, new_shard; by rewrite Eu). eexists. split; [done|]. split_and!; [done| |].
    + by rewrite Ef, decide_False, app_nil_r by by rewrite El.
    + intros t. rewrite Ef, decide_False, app_nil_r; [done|]. unfold goes_to. by rewrite El.
Qed.

Lemma migrate_scd_ok docs : Forall well_placed docs → ∃ st, generateMigrateSCD (lists_of (shardip cl s) ft) docs = Some st ∧ generated docs st.
Proof.
  intros Hd. unfold generateMigrateSCD. apply (foldM_inv generated).
  - split_and!; [apply om_nil_ok|done|done].
  - intros pre d st Hgen (suf & ->). apply migrate_one_ok; [done|]. rewrite Forall_forall in Hd. apply Hd. set_solver.
Qed.
End requests.

Lemma from_old m targets mv v f t : moved_ok m targets mv → (v, (f, t)) ∈ migrate_data_list mv → f ∈ m.
Proof.
  intros Hmv Hin. apply om_elemZ in Hin; [|apply Hmv]. destruct (mo_keys _ _ _ Hmv v _ Hin) as (i & -> & Hi).
  destruct (lookup_lt_is_Some_2 m i Hi) as [x Hx]. pose proof (mo_at _ _ _ Hmv i x Hx) as Hat. rewrite Hin in Hat. destruct Hat as (-> & _ & _).
  by eapply list_elem_of_lookup_2.
Qed.

(** C24: When shards are added, a node with the documents of the shard [s] is
    asked for exactly those that have to move: those whose place has a new
    shard are written once to be deleted here and once to be inserted on that
    shard, in the order of the documents, and no other document is touched. *)
Theorem migrated_documents `{KeyNumbers} {Doc} cl m news w s (docs : list (Stored Doc)) :
  NoDup news → (∀ t, t ∈ news → t ∉ m) → Forall (λ t, 0 < t) news → (1 ≤ w)%nat → Z.of_nat (length m) < 2 ^ 16 →
  (∀ x, x ∈ m → shardip cl x ≠ EmptyString) → s ∈ m → Forall (well_placed m s) docs →
  ∃ topo st ft ins del, migrateSharding news w (topology_of m) (MigrationOf 0 [] (MovesOf [] m)) = Some (topo, st) ∧
    migrate_from_to_list cl (migrate_data_list (moves st)) = Some ft ∧
    generateMigrateSCD (lists_of (shardip cl s) ft) docs = Some (ins, del) ∧
    del = map stored (filter (λ d, leaves (moves st) s d = true) docs) ∧
    ∀ t, documents_to t ins = map stored (filter (λ d, goes_to (moves st) s t d = true) docs).
Proof.
  intros Hnd Hnew Hpos Hw Hm Hip Hs Hdocs. destruct (migrateSharding_ok m news w Hnd Hnew Hw Hm) as (topo & st & E & Hmv & _).
  destruct (requests_ok cl (migrate_data_list (moves st))) as (ft & Eft & Hft).
  { intros v f t Hin. apply Hip. by eapply from_old. }
  destruct (migrate_scd_ok cl m news (moves st) Hmv Hpos s ltac:(intros Hn; by apply (Hnew s)) ft Hft docs Hdocs) as ([ins del] & Eg & _ & Hdel & Hins).
  by exists topo, st, ft, ins, del.
Qed.

(** Two documents of the shard 1, at the places 0 and 4. *)
Definition two_keys : KeyNumbers := {| uuid_to_uint128 := λ _, 0; cast_size := λ uid, Some (if String.eqb uid "b" then 4 else 0) |}.
(** A cluster of one machine: nodes that are started, queues that are empty. *)
Definition idle_zk : ZooKeeper := Zoo true
  (λ path, if String.prefix "/SF1R/PrimaryNodes/Node" path then ["n"%string] else [])
  (λ _, Some (ZNodeOf "h" NODE_STATE_STARTED)) (λ path, negb (String.eqb path "/SF1R/WriteRequestPrepare/Node1")) (λ _, true).
Definition one_master : Master := MasterOf "/SF1R" true true true 1 [(1, true)] false (λ _, idle_zk).
Definition one_host : Cluster :=
  ClusterOf (HostsOf true "h" (λ _ _, Some false) (λ _, Some ([(2, "ins"%string)], [(1, "del"%string)])) []) one_master idle_zk "t1" "t2".

Lemma one_host_ip s : shardip one_host s = "h"%string.
Proof. unfold shardip, getShardNodeIP, getPrimaryNodeParentPath. simpl. unfold String.append. simpl. by destruct (pretty s). Qed.

Definition two_stored : list (Stored nat) := [Store 10%nat (Some "a"%string); Store 11%nat (Some "b"%string)].

Lemma migrated_documents_witness : ∃ topo st ft ins del,
  migrateSharding [3] 1 (topology_of [1; 2; 1; 2; 1]) (MigrationOf 0 [] (MovesOf [] [1; 2; 1; 2; 1])) = Some (topo, st) ∧
  migrate_from_to_list one_host (migrate_data_list (moves st)) = Some ft ∧
  @generateMigrateSCD two_keys nat (lists_of "h" ft) two_stored = Some (ins, del) ∧ del = [11%nat] ∧ documents_to 3 ins = [11%nat].
Proof.
  destruct (@migrated_documents two_keys nat one_host [1; 2; 1; 2; 1] [3] 1 1 two_stored) as (topo & st & ft & ins & del & E & Eft & Eg & Hdel & Hins).
  - by apply (bool_decide_unpack _).
  - intros t ->%list_elem_of_singleton. by apply (bool_decide_unpack _).
  - by repeat constructor.
  - lia.
  - done.
  - intros x _. by rewrite one_host_ip.
  - by left.
  - repeat constructor.
    + intros uid [= <-]. exists O. split; [|done]. by vm_compute.
    + intros uid [= <-]. exists 4%nat. split; [|done]. by vm_compute.
  - exists topo, st, ft, ins, del. assert (st = MigrationOf 1 [(3, [4])] (MovesOf [(4, (1, 3))] [1; 2; 1; 2; 3])) as Est by (revert E; vm_compute; congruence).
    split_and!; [exact E|exact Eft|exact Eg| |].
    + rewrite Hdel, Est. by vm_compute.
    + rewrite Hins, Est. by vm_compute.
Defined.

(** ** The tables after a change *)

(** A table of the shards [l], as [map_init] makes it and as the file keeps it. *)
Definition full_table (l m : list Z) : Prop := length m = MAX_MAP_SIZE ∧ Forall (λ s, s ∈ l) m.

Definition table_saved (fs : FileSystem) (path : string) (m : list Z) : Prop := ∀ old, readShardingMapFile fs path old = Some m ∧ is_Some (fs !! path).

Lemma table_restarts fs c path m old : shards_ok c → full_table (shardidList_ c) m → path ≠ EmptyString → table_saved fs path m →
  map_init fs (MapStrategy c old path) = Some (true, fs, MapStrategy c m path) ∧ map_ok (MapStrategy c m path).
Proof.
  intros Hc [Hlen Hin] Hp Hsaved. split; [|split; [done|by right]]. unfold map_init. cbn [map_file_path_ map_cfg saved_sharding_map_].
  rewrite (proj2 (String.eqb_neq _ _) Hp). destruct (Hsaved old) as [-> [x ->]]. done.
Qed.

Lemma saved_ok fs path l m : full_table l m → Forall (λ s, 0 < s < 256) l → table_saved (saveShardingMapToFile fs path m) path m.
Proof.
  intros [Hlen Hin] Hl old. assert (Forall (λ s, 0 < s < 256) m) as Hm.
  { apply Forall_forall. intros x Hx. eapply Forall_forall in Hin; [|exact Hx]. by eapply Forall_forall in Hl; [|exact Hin]. }
  split; [by apply read_saved|]. by rewrite save_full, lookup_insert_eq.
Qed.

Lemma moved_full l m targets mv : full_table l m → moved_ok m targets mv → full_table (l ++ targets) (sharding_map mv).
Proof.
  intros [Hlen Hin] Hmv. split; [by rewrite (mo_len _ _ _ Hmv)|]. apply Forall_lookup. intros i x Hx.
  destruct (lookup_lt_is_Some_2 m i) as [y Hy]; [rewrite <- (mo_len _ _ _ Hmv); by eapply lookup_lt_Some|].
  pose proof (mo_at _ _ _ Hmv i y Hy) as Hat. apply elem_of_app. destruct (om_get _ _ _) as [[f t]|].
  - destruct Hat as (_ & Ht & E). assert (t = x) as -> by congruence. by right.
  - assert (y = x) as -> by congruence. left. apply list_elem_of_lookup_2 in Hy. by eapply Forall_forall in Hin; [|exact Hy].
Qed.

(** The collection runs on the table [m]. *)
Record running (c : Collection) (fs : FileSystem) (m : list Z) : Prop := {
  run_master : isMasterAggregator_ c = true;
  run_list : shardList_ c ≠ [];
  run_ids : Forall (λ s, 0 < s < 256) (shardList_ c);
  run_strategy : strategy_shardidList_ c = Some (shardList_ c);
  run_map : current_map fs c = Some m;
  run_table : full_table (shardList_ c) m }.

Lemma existsb_disjoint (news l : list Z) : (∀ t, t ∈ news → t ∉ l) → existsb (λ s, bool_decide (s ∈ l)) news = false.
Proof.
  intros Hd. destruct (existsb _ _) eqn:E; [|done]. apply existsb_exists in E as (x & Hx & E). apply list_elem_of_In in Hx.
  apply bool_decide_eq_true in E. by destruct (Hd x Hx).
Qed.

Lemma max_map_small : Z.of_nat MAX_MAP_SIZE < 2 ^ 16.
Proof. unfold MAX_MAP_SIZE. lia. Qed.

Lemma max_map_two : (2 ≤ MAX_MAP_SIZE)%nat.
Proof. unfold MAX_MAP_SIZE. lia. Qed.

#[local] Opaque MAX_MAP_SIZE.

(** What a change of the shards promises: whatever happens, [outcome]; the new
    table is one of the shards [l], so that after a success a node that starts
    with them gets the promises of [ShardingLaws]; and with a cluster that does
    its part it succeeds, in the order insertions, deletions, configuration. *)
Definition settles (cl : Cluster) (c : Collection) (removing : bool) (mv : Moves) (l nodes : list Z) (w : World) (r : option bool * World) : Prop :=
  let m' := sharding_map mv in
  outcome cl c removing m' nodes w r ∧ full_table l m' ∧
  (r.1 = Some true → map_file c ≠ EmptyString → ∀ key ranges attrs old,
     let cfg := Config l key ranges attrs in
     map_init (files r.2) (MapStrategy cfg old (map_file c)) = Some (true, files r.2, MapStrategy cfg m' (map_file c)) ∧ map_ok (MapStrategy cfg m' (map_file c))) ∧
  (∀ ins del, cooperates cl c removing (migrate_data_list mv) (shardList_ c ++ nodes) w ins del →
     r.1 = Some true ∧ ∃ k, events r.2 = events w ++ BeginMigrate :: announced nodes removing k ++ scds_pushed cl c (insert_dir cl) ins ++
       scds_pushed cl c (del_dir cl) del ++ config_sent cl c nodes removing ++ [EndMigrate]).

Lemma change_settles cl c removing mv l nodes w : full_table l (sharding_map mv) → l ≠ [] → Forall (λ s, 0 < s < 256) l →
  settles cl c removing mv l nodes w (change_shards cl c (doMigrateWork cl c removing mv nodes) w).
Proof.
  intros Hfull Hl Hids. pose proof (change_outcome cl c removing mv nodes w) as Ho. split_and!; [done|done| |].
  - intros Hr Hp key ranges attrs old cfg. unfold outcome in Ho. rewrite Hr in Ho. destruct Ho as (-> & _).
    apply table_restarts; [by split|done|done|by eapply saved_ok].
  - intros ins del Hco. destruct (change_succeeds cl c removing mv nodes (shardList_ c ++ nodes) w ins del Hco) as (ts & k & ->).
    + by apply list_subseteq_app_l.
    + by apply list_subseteq_app_r.
    + split; [done|]. by exists k.
Qed.

(** C25: [addNewShardingNodes] on a running collection reads nothing out of
    range. As long as it waits for other nodes, which may be for ever, and if
    it fails, the table in the file is the old one and no new configuration
    was sent; a failure after the change was announced withdraws the
    announcement. If it succeeds, the table dealt by [migrateSharding] is in
    the file, the configuration with all shards was sent, and a node that
    starts with it reads this full table and has the promises of
    [ShardingLaws]: a key is looked up on the shard the new table writes it
    to. (Whether the documents already there were moved depends on the nodes.)
    It does succeed, with the insertions before the deletions before the
    configuration, when the change may begin, the nodes answer, ZooKeeper
    takes the requests, and the shards are seen started and idle in enough
    turns of its waits without a stop. *)
Theorem addNewShardingNodes_settles cl c w m news : running c (files w) m → NoDup news → news ≠ [] → Forall (λ s, 0 < s < 256) news → (∀ t, t ∈ news → t ∉ shardList_ c) →
  (length (shardList_ c) + length news ≤ MAX_MAP_SIZE)%nat →
  ∃ topo st r, migrateSharding news (length m / (length (shardList_ c) + length news)) (topology_of m) (MigrationOf 0 [] (MovesOf [] m)) = Some (topo, st) ∧
    addNewShardingNodes cl c news w = Some r ∧ settles cl c false (moves st) (shardList_ c ++ news) news w r.
Proof.
  intros [Hmaster Hlist Hids Hstrat Hmap [Hlen Hin]] Hnd Hne Hnews Hdisj Hsize. pose proof max_map_pos as Hpos.
  assert (Forall (λ s, 0 < s < 256) (shardList_ c ++ news)) as Hall by by apply Forall_app.
  assert (∀ t, t ∈ news → t ∉ m) as Hnew.
  { intros t Ht Htm. eapply Forall_forall in Hin; [|exact Htm]. by apply (Hdisj t). }
  set (num := (length (shardList_ c) + length news)%nat) in *. assert (1 ≤ num)%nat as Hnum by (destruct (shardList_ c); [done|unfold num; simpl; lia]).
  pose proof (Nat.div_str_pos MAX_MAP_SIZE num (conj Hnum Hsize)) as Hdiv.
  destruct (migrateSharding_ok m news (length m / num) Hnd Hnew) as (topo & st & E & Hmv & _); [rewrite Hlen; exact Hdiv|rewrite Hlen; exact max_map_small|].
  exists topo, st. eexists. split; [exact E|]. split.
  - unfold addNewShardingNodes. rewrite Hmaster, Hstrat. cbn [negb from_option id].
    assert (is_nil (shardList_ c) = false) as -> by by destruct (shardList_ c).
    assert (is_nil news = false) as -> by by destruct news. cbn [orb]. rewrite (existsb_disjoint _ _ Hdisj), Hmap. cbn [mbind option_bind].
    assert (is_nil m = false) as -> by (destruct m; [simpl in Hlen; lia|done]). fold num.
    rewrite (proj2 (Nat.ltb_ge _ _)) by lia. cbn [orb]. rewrite E. reflexivity.
  - apply change_settles; [by eapply moved_full|by destruct (shardList_ c)|done].
Qed.

(** One shard without a file; a second is added. *)
Definition one_shard : Collection := CollectionOf "shop" true true [1] (Some [1]) "maps/shop".

Lemma one_shard_running : running one_shard ∅ (replicate MAX_MAP_SIZE 1).
Proof.
  split; [done|done|by repeat constructor|done|done|]. split; [by rewrite length_replicate|]. apply Forall_replicate. by left.
Qed.

(** Four turns, in which all nodes are idle. *)
Definition idle_world (fs : FileSystem) : World := WorldOf (replicate 4 (MomentOf false idle_zk)) [] fs.

(** The nodes of [one_host] write what they are asked for. *)
Lemma one_host_writes from : ∃ ins del, generateMigrateScds (hosts one_host) from = Some (ins, del).
Proof.
  unfold generateMigrateScds. cbn [negb enabled hosts one_host].
  assert (∀ lists, ∃ l, send_requests (hosts one_host) from 0 lists = Some (0, l)) as Hs.
  { induction from as [|[ip l] from IH]; intros lists; [by exists lists|]. cbn [send_requests hosts one_host local_ip send].
    destruct (String.eqb ip "h"); apply IH. }
  destruct (Hs []) as [l E]. unfold one_host in E at 1. cbn [hosts] in E. rewrite E. cbn [mbind option_bind].
  destruct l; cbn; by do 2 eexists.
Qed.

Lemma one_host_cooperates c removing (data : list (Z * (Z * Z))) fs : shardList_ c ⊆ [1; 2] → (∀ e, e ∈ data → shardip one_host e.2.1 ≠ EmptyString) →
  (∀ w, (notifyAllShardingBeginMigrate one_master idle_zk (shardList_ c) w).1 = Some true) →
  ∃ ins del, cooperates one_host c removing data [1; 2] (idle_world fs) ins del.
Proof.
  intros Hl Hip Hb. destruct (requests_ok one_host data) as (ft & E & _); [intros v f t Hin; by apply (Hip _ Hin)|].
  destruct (one_host_writes ft) as (ins & del & Eg). exists ins, del. split.
  - apply Hb.
  - rewrite E. exact Eg.
  - done.
  - by repeat constructor.
  - destruct removing; by vm_compute; lia.
Qed.

Lemma addNewShardingNodes_settles_witness : ∃ r, addNewShardingNodes one_host one_shard [2] (idle_world ∅) = Some r ∧ r.1 = Some true ∧
  ∃ m', full_table [1; 2] m' ∧ files r.2 = saveShardingMapToFile ∅ "maps/shop" m'.
Proof.
  destruct (addNewShardingNodes_settles one_host one_shard (idle_world ∅) (replicate MAX_MAP_SIZE 1) [2]) as (topo & st & r & E & Er & Ho & Hfull & _ & Hco).
  - exact one_shard_running.
  - by apply (bool_decide_unpack _).
  - discriminate.
  - by repeat constructor.
  - intros t ->%list_elem_of_singleton. by apply (bool_decide_unpack _).
  - exact max_map_two.
  - exists r. destruct (one_host_cooperates one_shard false (migrate_data_list (moves st)) ∅) as (ins & del & Hc).
    + by apply (bool_decide_unpack _).
    + intros e _. by rewrite one_host_ip.
    + done.
    + destruct (Hco ins del Hc) as (Hr & _). split; [exact Er|]. split; [exact Hr|]. unfold outcome in Ho. rewrite Hr in Ho.
      exists (sharding_map (moves st)). split; [exact Hfull|apply Ho].
Defined.

Lemma keep_length (l gone : list Z) : NoDup l → NoDup gone → (∀ s, s ∈ gone → s ∈ l) → gone ++ filter (λ s, s ∉ gone) l ≡ₚ l.
Proof.
  intros Hl Hg Hin. apply list.NoDup_Permutation; [|done|].
  - apply NoDup_app. split_and!; [done| |by apply NoDup_filter]. intros x Hx [? _]%list_elem_of_filter. done.
  - intros x. rewrite elem_of_app, list_elem_of_filter. destruct (decide (x ∈ gone)); naive_solver.
Qed.

(** C28: [removeShardingNodes] on a running collection each of whose remaining
    shards has a place reads nothing out of range. As long as it waits for
    other nodes, which may be for ever, and if it fails, the table in the file
    is the old one and no new configuration was sent. If it succeeds, the
    table left by [removeSharding] is in the file, exactly the remaining
    shards were sent as configuration, and a node that starts with them reads
    a full table of them, none of it of a removed shard. It does succeed, with
    the insertions before the deletions before the configuration, when the
    change may begin, the nodes answer, ZooKeeper takes the requests, and the
    shards are seen started and idle in enough turns of its waits without a
    stop. *)
Theorem removeShardingNodes_settles cl c w m gone : running c (files w) m → NoDup (shardList_ c) → NoDup gone → gone ≠ [] → (∀ s, s ∈ gone → s ∈ shardList_ c) →
  (length gone < length (shardList_ c))%nat → (∀ t, t ∈ shardList_ c → t ∉ gone → t ∈ m) →
  ∃ st r, removeSharding (length m / (length (shardList_ c) - length gone)) gone (topology_of m) (MovesOf [] m) = Some (true, st) ∧
    gone ++ left_sharding_nodes st ≡ₚ shardList_ c ∧ removeShardingNodes cl c gone w = Some r ∧
    settles cl c true (removed st) (left_sharding_nodes st) (left_sharding_nodes st) w r.
Proof.
  intros [Hmaster Hlist Hids Hstrat Hmap [Hlen Hin]] Hndl Hndg Hne Hgone Hfewer Hkeep. pose proof max_map_pos as Hpos.
  set (keep := filter (λ s, s ∉ gone) (shardList_ c)). pose proof (keep_length _ _ Hndl Hndg Hgone) as Hperm. fold keep in Hperm.
  assert (length keep = length (shardList_ c) - length gone)%nat as Hk.
  { apply Permutation_length in Hperm. rewrite length_app in Hperm. lia. }
  assert (1 ≤ length gone)%nat as Hg1 by (destruct gone; [done|simpl; lia]).
  assert (readShardingMapFile (files w) (map_file c) [] = Some m) as Hread.
  { unfold current_map in Hmap. destruct (readShardingMapFile (files w) (map_file c) []) as [m'|]; [|done]. cbn [mbind option_bind] in Hmap.
    destruct (shardList_ c) as [|s1 [|s2 l]]; [done|simpl in Hfewer; lia|done]. }
  destruct (removeSharding_ok m gone keep (length m / length keep)) as (st & E & Hleft & Hmv & Hnone & _).
  - rewrite Hperm. done.
  - intros Ek. rewrite Ek in Hk. simpl in Hk. lia.
  - intros x Hx. rewrite Hperm. by eapply Forall_forall in Hin; [|exact Hx].
  - intros t [Ht1 Ht2]%list_elem_of_filter. by apply Hkeep.
  - rewrite Nat.mul_comm. apply Nat.mul_succ_div_gt. lia.
  - rewrite Hlen. exact max_map_small.
  - assert (gone ++ left_sharding_nodes st ≡ₚ shardList_ c) as Hall by by rewrite Hleft.
    assert (left_sharding_nodes st ≠ []) as Hnil.
    { intros El. rewrite El in Hleft. apply Permutation_length in Hleft. simpl in Hleft. lia. }
    exists st. eexists. rewrite <- Hk. split; [exact E|]. split; [done|]. split.
    + unfold removeShardingNodes. rewrite Hmaster, Hstrat. cbn [negb from_option id].
      assert (is_nil gone = false) as -> by by destruct gone.
      rewrite (proj2 (Nat.eqb_neq _ 0)), (proj2 (Nat.eqb_neq _ 1)), (proj2 (Nat.leb_gt _ _)) by lia. cbn [orb].
      assert (forallb (λ s, bool_decide (s ∈ shardList_ c)) gone = true) as ->.
      { apply forallb_forall. intros x Hx. apply bool_decide_eq_true, Hgone. by apply list_elem_of_In. }
      cbn [negb]. rewrite Hread. cbn [mbind option_bind]. assert (is_nil m = false) as -> by (destruct m; [simpl in Hlen; lia|done]).
      rewrite <- Hk, E. cbn [mbind option_bind negb orb]. assert (is_nil (left_sharding_nodes st) = false) as -> by by destruct (left_sharding_nodes st).
      reflexivity.
    + apply change_settles; [|done|].
      * destruct (moved_full (shardList_ c) m _ _ (conj Hlen Hin) Hmv) as [Hl' Hin']. split; [done|]. apply Forall_forall. intros x Hx.
        destruct (decide (x ∈ gone)) as [Hxg|Hxg]; [by destruct (Hnone x Hxg)|]. eapply Forall_forall in Hin'; [|exact Hx].
        apply elem_of_app in Hin' as [Hxl|?]; [|done]. rewrite Hleft. by apply list_elem_of_filter.
      * apply Forall_forall. intros x Hx. rewrite Hleft in Hx. apply list_elem_of_filter in Hx as [_ Hx]. by eapply Forall_forall in Hids; [|exact Hx].
Qed.

(** Two shards with the table of their first start; the second is removed. *)
Definition two_shards : Collection := CollectionOf "shop" true true [1; 2] (Some [1; 2]) "maps/shop".

Lemma two_shards_running : ∃ m, running two_shards (saveShardingMapToFile ∅ "maps/shop" m) m ∧ ∀ t, t ∈ [1; 2] → t ∈ m.
Proof.
  destruct (first_map_ok [1; 2]) as (m & Hm & Hlen & Hat); [discriminate|]. pose proof (first_map_in [1; 2] m ltac:(discriminate) Hm) as Hin. exists m.
  assert (table_saved (saveShardingMapToFile ∅ "maps/shop" m) "maps/shop" m) as Hsaved.
  { apply (saved_ok ∅ "maps/shop" [1; 2]); [by split|]. by repeat constructor. }
  split; [split; [done|discriminate|by repeat constructor|done| |by split]|].
  - unfold current_map. destruct (Hsaved []) as [E _]. change (map_file two_shards) with "maps/shop"%string. rewrite E. reflexivity.
  - intros t [->| ->%list_elem_of_singleton]%elem_of_cons.
    + apply (list_elem_of_lookup_2 _ 0). rewrite Hat; [reflexivity|exact max_map_pos].
    + apply (list_elem_of_lookup_2 _ 1). rewrite Hat; [reflexivity|exact max_map_two].
Qed.

Lemma removeShardingNodes_settles_witness : ∃ fs r, removeShardingNodes one_host two_shards [2] (idle_world fs) = Some r ∧ r.1 = Some true ∧
  ∃ m', full_table [1] m' ∧ files r.2 = saveShardingMapToFile fs "maps/shop" m'.
Proof.
  destruct two_shards_running as (m & Hrun & Hall). exists (saveShardingMapToFile ∅ "maps/shop" m).
  destruct (removeShardingNodes_settles one_host two_shards (idle_world (saveShardingMapToFile ∅ "maps/shop" m)) m [2] Hrun) as (st & r & _ & Hleft & Er & Ho & Hfull & _ & Hco).
  - by apply (bool_decide_unpack _).
  - by apply (bool_decide_unpack _).
  - discriminate.
  - intros s ->%list_elem_of_singleton. by right; left.
  - simpl. lia.
  - intros t Ht _. by apply Hall.
  - exists r. assert (left_sharding_nodes st = [1]) as El.
    { apply Permutation_singleton_r. apply (Permutation_app_inv_l [2]). rewrite Hleft. apply Permutation_swap. }
    rewrite El in *. destruct (one_host_cooperates two_shards true (migrate_data_list (removed st)) (saveShardingMapToFile ∅ "maps/shop" m)) as (ins & del & Hc).
    + by apply (bool_decide_unpack _).
    + intros e _. by rewrite one_host_ip.
    + done.
    + destruct (Hco ins del) as (Hr & _); [|split; [exact Er|split; [exact Hr|]]].
      * destruct Hc as [H1 H2 H3 H4 H5]. by split.
      * unfold outcome in Ho. rewrite Hr in Ho. exists (sharding_map (removed st)). split; [exact Hfull|apply Ho].
Defined.

(** A node that refuses its request is not waited for and not asked again: the
    change goes on without its documents. *)
Lemma refused_nodes_skipped h from : enabled h = true → Forall (λ e, e.1 ≠ local_ip h ∧ send h e.1 e.2 = Some false) from →
  generateMigrateScds h from = Some ([], []).
Proof.
  intros He Hall. unfold generateMigrateScds. rewrite He. cbn [negb].
  assert (send_requests h from 0 [] = Some (0, [])) as ->.
  { induction Hall as [|[ip lists] from [Hne Hsend] _ IH]; [done|]. cbn [send_requests fst snd] in *. by rewrite (proj2 (String.eqb_neq _ _) Hne), Hsend. }
  cbn [mbind option_bind]. by destruct (arrivals h).
Qed.
