(* ===== verification/ScdDispatch.v ===== *)
(** * Distributing documents, and asking for them by key
    ([node-manager/sharding/ScdSharder.cpp, ScdDispatcher.cpp],
    [splitGetDocsActionItemByWorkerid] in [aggregator-manager/SearchMerger.cpp])

    The master writes each document of the SCD files to the file of its shard, and
    later asks a shard for a document by its key. Both go through a strategy with
    the laws of [ShardingLaws]; nothing else of it is used.

    A document is its list of properties and texts; the directory and the parser
    are arguments, the list of files with their documents. A file is its list of
    characters. [None] is undefined behaviour. *)
From S2P Require Import Prelude CNum Env OrderedMap GroupRep Phrases Sharding.
From Stdlib Require Import Ascii.

(** ** The shard of a document *)

Definition SCDDoc := list (string * string).

Section sharder.
Context {St : Type} `{ShardingOps St}.

(** The first property that is the unique key. *)
Definition shard_key (c : ShardingConfig) (doc : SCDDoc) : option (string * string) := head (filter (λ p, isUniqueShardKey c p.1 = true) doc).

Definition setShardKeyValues (c : ShardingConfig) (doc : SCDDoc) (fields : ShardFieldListT) : ShardFieldListT :=
  match shard_key c doc with Some (name, value) => <[name := value]> fields | None => fields end.

Definition sharding (st : St) (doc : SCDDoc) : option Z := sharding_for_write st (setShardKeyValues (shard_cfg st) doc ∅).
End sharder.

(** ** The files of the shards *)

(** [std::ofstream]: closed, or open at a path. A pointer that is not in the map is
    null. *)
Inductive Stream := Closed | Open (path : string).

Record Dispatcher := DispatcherOf {
  shardScdfileMap_ : list (Z * string);
  ofList_ : list (Z * Stream) }.

Section dispatcher.
Context {St : Type} `{ShardingOps St} (st : St).
(** Whether a file can be opened. *)
Context (can_open : string → bool).

(** A [shardid_t] is printed as a character. *)
Definition shard_char (s : Z) : string := String (ascii_of_nat (Z.to_nat s)) EmptyString.

Definition insert_if_new {V} (k : Z) (v : V) (m : list (Z * V)) : list (Z * V) := om_update Z.ltb (λ o, default v o) k m.

(** The directory is emptied: [under] tells its files. *)
Definition initTempDir (under : string → bool) (tempDir : string) (fs : FileSystem) (d : Dispatcher) : FileSystem * Dispatcher :=
  (filter (λ e, under e.1 = false) fs,
   fold_left (λ d s, DispatcherOf (insert_if_new s (tempDir ++ shard_char s)%string (shardScdfileMap_ d)) (om_put Z.ltb s Closed (ofList_ d)))
     (shardidList_ (shard_cfg st)) d).

Definition scd_path (dir file : string) : string := (dir ++ "/" ++ file)%string.

(** The files of all shards are opened under the new name; opening empties a
    file. The first that cannot be opened ends the loop. *)
Fixpoint switch_streams (dirs : list (Z * string)) (file : string) (streams : list (Z * Stream)) (fs : FileSystem) : list (Z * Stream) * FileSystem * bool :=
  match streams with
  | [] => ([], fs, true)
  | (s, _) :: rest =>
      let path := scd_path (default ""%string (om_get Z.ltb s dirs)) file in
      if can_open path then
        let '(rest, fs, ok) := switch_streams dirs file rest (<[path := []]> fs) in ((s, Open path) :: rest, fs, ok)
      else ((s, Closed) :: rest, fs, false)
  end.

Definition switchFile (file : string) (fs : FileSystem) (d : Dispatcher) : FileSystem * Dispatcher :=
  let '(streams, fs, _) := switch_streams (shardScdfileMap_ d) file (ofList_ d) fs in (fs, DispatcherOf (shardScdfileMap_ d) streams).

Definition print_doc (doc : SCDDoc) : File :=
  concat (map (λ p, string_chars ("<" ++ p.1 ++ ">" ++ p.2)%string ++ [newline]) doc).

(** Writing to a null pointer is undefined; a closed stream takes nothing. *)
Definition dispatch_impl (s : Z) (doc : SCDDoc) (fs : FileSystem) (d : Dispatcher) : option FileSystem :=
  match om_get Z.ltb s (ofList_ d) with
  | None => None
  | Some Closed => Some fs
  | Some (Open path) => Some (<[path := default [] (fs !! path) ++ print_doc doc]> fs)
  end.

(** The documents of one file, until [docNum] are processed (0: all). *)
Fixpoint dispatch_docs (docNum : Z) (docs : list SCDDoc) (d : Dispatcher) (fs : FileSystem) (docProcessed : Z) : option (FileSystem * Z) :=
  match docs with
  | [] => Some (fs, docProcessed)
  | doc :: docs =>
      s ← sharding st doc;
      fs ← dispatch_impl s doc fs d;
      let docProcessed := u32 (docProcessed + 1) in
      if (docNum <=? docProcessed) && (0 <? docNum) then Some (fs, docProcessed) else dispatch_docs docNum docs d fs docProcessed
  end.

(** The files in turn; [None] as documents: the file cannot be read, and the
    boolean is false. *)
Fixpoint dispatch_files (docNum : Z) (files : list (string * option (list SCDDoc))) (fs : FileSystem) (d : Dispatcher) (docProcessed : Z)
    : option (bool * FileSystem * Dispatcher) :=
  match files with
  | [] => Some (true, fs, d)
  | (file, docs) :: files =>
      let '(fs, d) := switchFile file fs d in
      match docs with
      | None => Some (false, fs, d)
      | Some docs =>
          '(fs, docProcessed) ← dispatch_docs docNum docs d fs docProcessed;
          if (docNum <=? docProcessed) && (0 <? docNum) then Some (true, fs, d) else dispatch_files docNum files fs d docProcessed
      end
  end.

(** ** Sending the directories *)

(** [workerMap_]: host and data port of the shards the master knows; [syncSend]:
    whether the transfer of a directory to a receiver succeeds. *)
Record Network := NetworkOf {
  is_dfs_enabled_ : bool;
  workerMap_ : list (Z * (string * Z));
  syncSend : string * Z → string → string → bool }.

Context (net : Network) (to_scdDir_ : string).

Definition getShardReceiver (s : Z) : option (string * Z) := om_get Z.ltb s (workerMap_ net).

(** A transfer: the receiver, the directory here and the one there. *)
Definition Transfer : Type := (string * Z) * string * string.

(** Whether all was sent, and the transfers that were tried. *)
Fixpoint send_dirs (d : Dispatcher) (shardids : list Z) : bool * list Transfer :=
  match shardids with
  | [] => (true, [])
  | s :: shardids =>
      match getShardReceiver s with
      | None => (false, [])
      | Some receiver =>
          let dir := default ""%string (om_get Z.ltb s (shardScdfileMap_ d)) in
          if syncSend net receiver dir to_scdDir_ then let '(ret, sent) := send_dirs d shardids in (ret, (receiver, dir, to_scdDir_) :: sent)
          else (false, [(receiver, dir, to_scdDir_)])
      end
  end.

Definition finish (d : Dispatcher) : bool * list Transfer :=
  if is_dfs_enabled_ net then (true, []) else send_dirs d (shardidList_ (shard_cfg st)).

(** The result, the files and streams, and the transfers. *)
Definition dispatch (under : string → bool) (tempDir : string) (docNum : Z) (files : list (string * option (list SCDDoc))) (fs : FileSystem) (d : Dispatcher)
    : option (bool * FileSystem * Dispatcher * list Transfer) :=
  match files with
  | [] => Some (false, fs, d, [])
  | _ =>
      let '(fs, d) := initTempDir under tempDir fs d in
      '(ok, fs, d) ← dispatch_files docNum files fs d 0;
      if (ok : bool) then let '(ret, sent) := finish d in Some (ret, fs, d, sent) else Some (false, fs, d, [])
  end.
End dispatcher.

(** ** Asking for documents by number and by key *)

Section split.
Context {St : Type} `{ShardingOps St} {Rest : Type}.
(** The worker of a document number ([net::aggregator::Util]). *)
Context (worker_of_id : Z → Z).

(** The other fields of [GetDocumentsByIdsActionItem] are [Rest]. *)
Record GetDocuments := GetDocs {
  rest : Rest;
  gd_idList_ : list Z;
  gd_docIdList_ : list string }.

Definition cleared (a : GetDocuments) : GetDocuments := GetDocs (rest a) [] [].

(** [actionItemMap[w]], reset to an empty copy of the request while [fresh]. *)
Definition sub_item (a : GetDocuments) (fresh : GetDocuments → bool) (o : option GetDocuments) : GetDocuments :=
  match o with Some sub => if fresh sub then cleared a else sub | None => cleared a end.

Definition add_id (a : GetDocuments) (m : list (Z * GetDocuments)) (id : Z) : list (Z * GetDocuments) :=
  om_update Z.ltb (λ o, let sub := sub_item a (λ s, is_nil (gd_idList_ s)) o in GetDocs (rest sub) (gd_idList_ sub ++ [id]) (gd_docIdList_ sub))
    (worker_of_id id) m.

Definition add_docid_at (a : GetDocuments) (docid : string) (m : list (Z * GetDocuments)) (wid : Z) : list (Z * GetDocuments) :=
  om_update Z.ltb (λ o, let sub := sub_item a (λ s, is_nil (gd_idList_ s) && is_nil (gd_docIdList_ s)) o in
                        GetDocs (rest sub) (gd_idList_ sub) (gd_docIdList_ sub ++ [docid])) wid m.

Definition add_docid (st : St) (a : GetDocuments) (m : list (Z * GetDocuments)) (docid : string) : option (list (Z * GetDocuments)) :=
  wid_list ← sharding_for_get st {[ unique_shardkey_ (shard_cfg st) := docid ]};
  Some (fold_left (add_docid_at a docid) wid_list m).

(** Whether there is a request, and the requests by worker. *)
Definition splitGetDocsActionItemByWorkerid (st : St) (a : GetDocuments) (m : list (Z * GetDocuments)) : option (bool * list (Z * GetDocuments)) :=
  if is_nil (gd_idList_ a) && is_nil (gd_docIdList_ a) then Some (false, m)
  else
    m ← foldM (add_docid st a) (fold_left (add_id a) (gd_idList_ a) m) (gd_docIdList_ a);
    Some (negb (is_nil m), m).
End split.
Arguments GetDocuments : clear implicits.
