(* ===== verification/ScdDispatchSpec.v ===== *)
(** * A distributed document is found on its shard

    The files of the shards after [dispatch], and the requests made for keys; both
    follow from [ShardingLaws] alone, so they hold for every strategy. *)
From S2P Require Import Prelude CNum Env OrderedMap GroupRep Phrases Sharding ScdDispatch.

Notation zok := (om_ok Z.ltb (λ _ : Z, True)).

(** ** Requests *)

Section split.
Context {St : Type} {ok : St → Prop} {Ops : ShardingOps St} {Laws : @ShardingLaws St Ops ok} {Rest : Type}.
Context (worker_of_id : Z → Z) (st : St) (Hok : ok st).
Notation cfg := (shard_cfg st).
Notation fields_of uid := ({[ unique_shardkey_ cfg := uid ]} : ShardFieldListT).

(** The shard that is asked for the document. *)
Definition asked_shard (uid : string) : option Z := s ← sharding_for_get st (fields_of uid); head s.

Lemma get_one uid : uid ≠ EmptyString → ∃ s, sharding_for_write st (fields_of uid) = Some s ∧ s ∈ shardidList_ cfg ∧ sharding_for_get st (fields_of uid) = Some [s].
Proof.
  intros Hu. assert (fields_of uid !! unique_shardkey_ cfg = Some uid) as E by apply lookup_insert_eq.
  destruct (written_to_shard st (fields_of uid) uid Hok E Hu) as (s & Hs & Hin). exists s. split_and!; [done|done|].
  by apply (looked_up_where_written st (fields_of uid) uid s Hok E).
Qed.

Context (a : GetDocuments Rest).

(** What a worker is asked for, of some numbers and keys. *)
Definition item_for (w : Z) (ids : list Z) (uids : list string) : option (GetDocuments Rest) :=
  let my_ids := filter (λ id, worker_of_id id = w) ids in
  let my_uids := filter (λ uid, asked_shard uid = Some w) uids in
  if is_nil my_ids && is_nil my_uids then None else Some (GetDocs (rest a) my_ids my_uids).

Definition items (ids : list Z) (uids : list string) (m : list (Z * GetDocuments Rest)) : Prop := zok m ∧ ∀ w, om_get Z.ltb w m = item_for w ids uids.

Lemma filter_snoc {A} (P : A → Prop) `{!∀ x, Decision (P x)} l x : filter P (l ++ [x]) = filter P l ++ if decide (P x) then [x] else [].
Proof. rewrite filter_app. f_equal. Qed.

Lemma is_nil_snoc {A} (l : list A) x : is_nil (l ++ [x]) = false.
Proof. by destruct l. Qed.

Lemma add_id_ok ids id m : items ids [] m → items (ids ++ [id]) [] (add_id worker_of_id a m id).
Proof.
  intros [Hm Hget]. split; [by apply om_update_okZ|]. intros w. unfold add_id. rewrite om_get_updateZ by done. unfold item_for. rewrite filter_snoc.
  destruct (decide (worker_of_id id = w)) as [<-|Hne]; [|rewrite app_nil_r; apply Hget].
  rewrite is_nil_snoc. cbn [andb]. f_equal. unfold sub_item. rewrite Hget. unfold item_for. rewrite filter_nil. cbn [is_nil]. rewrite andb_true_r.
  destruct (filter _ ids) as [|x l]; done.
Qed.

Lemma add_docid_ok ids uids uid m : items ids uids m → uid ≠ EmptyString → ∃ m', add_docid st a m uid = Some m' ∧ items ids (uids ++ [uid]) m'.
Proof.
  intros [Hm Hget] Hu. destruct (get_one uid Hu) as (s & _ & _ & E). assert (asked_shard uid = Some s) as Es by (unfold asked_shard; by rewrite E).
  unfold add_docid. rewrite E. cbn [mbind option_bind fold_left]. eexists. split; [done|]. split; [by apply om_update_okZ|]. intros w.
  unfold add_docid_at. rewrite om_get_updateZ by done. unfold item_for. rewrite filter_snoc. destruct (decide (s = w)) as [<-|Hne].
  - rewrite decide_True, is_nil_snoc, andb_false_r by done. f_equal. unfold sub_item. rewrite Hget. unfold item_for.
    destruct (filter _ ids), (filter _ uids); done.
  - rewrite decide_False, app_nil_r by congruence. apply Hget.
Qed.

Lemma split_ok : (∀ uid, uid ∈ gd_docIdList_ a → uid ≠ EmptyString) →
  ∃ m, splitGetDocsActionItemByWorkerid worker_of_id st a [] = Some (negb (is_nil m), m) ∧ items (gd_idList_ a) (gd_docIdList_ a) m.
Proof.
  intros Hall. assert (items [] [] []) as H0 by (split; [apply om_nil_ok|done]).
  assert (items (gd_idList_ a) [] (fold_left (add_id worker_of_id a) (gd_idList_ a) [])) as Hids.
  { assert (∀ l pre m, items pre [] m → items (pre ++ l) [] (fold_left (add_id worker_of_id a) l m)) as Hgen; [|by apply (Hgen _ [])].
    induction l as [|id l IH]; intros pre m Hm; [by rewrite app_nil_r|]. cbn [fold_left]. rewrite cons_middle, app_assoc. apply IH. by apply add_id_ok. }
  destruct (foldM_inv (items (gd_idList_ a)) (add_docid st a) (gd_docIdList_ a) (fold_left (add_id worker_of_id a) (gd_idList_ a) []) Hids) as (m & E & Hm).
  { intros pre uid m Hm (suf & Esuf). apply add_docid_ok; [done|]. apply Hall. rewrite Esuf. set_solver. }
  exists m. split; [|done]. unfold splitGetDocsActionItemByWorkerid. destruct (is_nil (gd_idList_ a) && is_nil (gd_docIdList_ a)) eqn:En.
  - apply andb_true_iff in En as [E1 E2]. destruct (gd_idList_ a); [|done]. destruct (gd_docIdList_ a); [|done].
    simpl in E. by injection E as <-.
  - by rewrite E.
Qed.
End split.

(** ** Files *)

Section dispatch.
Context {St : Type} {ok : St → Prop} {Ops : ShardingOps St} {Laws : @ShardingLaws St Ops ok}.
Context (st : St) (Hok : ok st) (can_open : string → bool) (Hopen : ∀ p, can_open p = true) (tempDir : string).
Notation cfg := (shard_cfg st).
Notation shards := (shardidList_ cfg).

Definition file_of (s : Z) (file : string) : string := scd_path (tempDir ++ shard_char s) file.

(** A document has a key. *)
Definition keyed (doc : SCDDoc) (uid : string) : Prop := shard_key cfg doc = Some (unique_shardkey_ cfg, uid) ∧ uid ≠ EmptyString.

Lemma keyed_sharding doc uid : keyed doc uid → ∃ s, sharding st doc = Some s ∧ s ∈ shards ∧ asked_shard st uid = Some s.
Proof.
  intros [Hk Hu]. destruct (get_one st Hok uid Hu) as (s & Hs & Hin & Hget). exists s. unfold sharding, setShardKeyValues. rewrite Hk.
  split_and!; [done|done|]. unfold asked_shard. by rewrite Hget.
Qed.

Lemma shard_char_inj s s' : 0 < s < 256 → 0 < s' < 256 → shard_char s = shard_char s' → s = s'.
Proof.
  intros Hs Hs' E. injection E as E. apply (f_equal Ascii.nat_of_ascii) in E. rewrite !Ascii.nat_ascii_embedding in E by lia. lia.
Qed.

Lemma path_inj p a b : (p ++ a)%string = (p ++ b)%string → a = b.
Proof. induction p as [|c p IH]; [done|]. intros E. apply IH. by injection E. Qed.

Lemma path_assoc (a b c : string) : ((a ++ b) ++ c)%string = (a ++ (b ++ c))%string.
Proof. induction a as [|x a IH]; [done|]. change (String x ((a ++ b) ++ c) = String x (a ++ (b ++ c)))%string. by rewrite IH. Qed.

Lemma file_of_inj s s' file file' : s ∈ shards → s' ∈ shards → file_of s file = file_of s' file' → s = s' ∧ file = file'.
Proof.
  destruct (shards_listed st Hok) as [_ Hids]. intros Hs Hs' E. unfold file_of, scd_path in E. rewrite !path_assoc in E. apply path_inj in E.
  unfold shard_char in E. injection E as E1 E2. split; [|done]. rewrite Forall_forall in Hids. apply shard_char_inj; [by apply Hids|by apply Hids|].
  unfold shard_char. by rewrite E1.
Qed.

(** All streams are open under [file]. *)
Record open_under (file : string) (d : Dispatcher) : Prop := {
  ou_ok : zok (ofList_ d);
  ou_get : ∀ s, om_get Z.ltb s (ofList_ d) = if decide (s ∈ shards) then Some (Open (file_of s file)) else None }.

Definition dirs_ok (d : Dispatcher) : Prop := ∀ s, s ∈ shards → om_get Z.ltb s (shardScdfileMap_ d) = Some (tempDir ++ shard_char s)%string.

(** Before the first file the streams are there. *)
Definition streams_there (d : Dispatcher) : Prop := zok (ofList_ d) ∧ ∀ s, om_get Z.ltb s (ofList_ d) ≠ None ↔ s ∈ shards.

Lemma switch_streams_ok dirs file : ∀ streams (fs : FileSystem), (∀ s x, (s, x) ∈ streams → s ∈ shards ∧ om_get Z.ltb s dirs = Some (tempDir ++ shard_char s)%string) →
  ∃ fs', switch_streams can_open dirs file streams fs = (map (λ e, (e.1, Open (file_of e.1 file))) streams, fs', true) ∧
    (∀ p, (∀ s, s ∈ map fst streams → p ≠ file_of s file) → fs' !! p = fs !! p) ∧ (∀ s, s ∈ map fst streams → fs' !! file_of s file = Some []).
Proof.
  induction streams as [|[s x] streams IH]; intros fs Hd; cbn [switch_streams map].
  { exists fs. split_and!; [done|done|]. intros s Hs. by apply elem_of_nil in Hs. }
  destruct (Hd s x) as [Hs Ed]; [by left|]. rewrite Ed. cbn [from_option id]. fold (file_of s file). rewrite Hopen.
  destruct (IH (<[file_of s file := []]> fs)) as (fs' & -> & Hrest & Hnew); [intros s' x' Hin; eapply Hd; by right|].
  exists fs'. split_and!; [done| |].
  - intros p Hp. rewrite Hrest by (intros s' Hs'; apply Hp; by right). apply lookup_insert_ne. intros E. apply (Hp s); [by left|done].
  - intros s' Hs'. cbn [fst] in Hs'. apply elem_of_cons in Hs' as [->|Hs']; [|by apply Hnew].
    destruct (decide (s ∈ map fst streams)) as [|Hn]; [by apply Hnew|]. rewrite Hrest, lookup_insert_eq; [done|].
    intros s2 Hs2 E. apply file_of_inj in E as [-> _]; [done|done|]. apply list_elem_of_fmap in Hs2 as ([s3 y] & -> & Hin). by destruct (Hd s3 y); [right|].
Qed.

Lemma om_keys_iff {V} (m : list (Z * V)) s : zok m → s ∈ map fst m ↔ om_get Z.ltb s m ≠ None.
Proof.
  intros Hm. rewrite list_elem_of_fmap. split.
  - intros ([x v] & -> & Hv). apply om_elemZ in Hv; [|done]. simpl. by rewrite Hv.
  - intros Hx. destruct (om_get Z.ltb s m) as [v|] eqn:E; [|done]. exists (s, v). split; [done|]. by apply om_elemZ.
Qed.

Lemma om_map_values {V W} (g : Z * V → W) (m : list (Z * V)) : zok m → zok (map (λ e, (e.1, g e)) m).
Proof.
  intros [H1 H2]. split.
  - rewrite Forall_map. done.
  - clear H1. induction H2 as [|e m H2 IH He]; simpl; [constructor|]. constructor; [done|]. by rewrite Forall_map.
Qed.

Lemma switch_ok file fs d : dirs_ok d → streams_there d →
  ∃ fs' d', switchFile can_open file fs d = (fs', d') ∧ open_under file d' ∧ shardScdfileMap_ d' = shardScdfileMap_ d ∧
    (∀ p, (∀ s, s ∈ shards → p ≠ file_of s file) → fs' !! p = fs !! p) ∧ (∀ s, s ∈ shards → fs' !! file_of s file = Some []).
Proof.
  intros Hd [Hz Hkeys]. unfold switchFile.
  assert (∀ s, s ∈ map fst (ofList_ d) ↔ s ∈ shards) as Hin by (intros s; by rewrite om_keys_iff, Hkeys).
  destruct (switch_streams_ok (shardScdfileMap_ d) file (ofList_ d) fs) as (fs' & -> & Hrest & Hnew).
  { intros s x Hx. assert (s ∈ shards) as Hs by (apply Hin, list_elem_of_fmap; by exists (s, x)). split; [done|by apply Hd]. }
  eexists fs', _. split; [done|]. split_and!; [|done| |].
  - pose proof (om_map_values (λ e, Open (file_of e.1 file)) (ofList_ d) Hz) as Hz'. split; cbn [ofList_]; [done|]. intros s.
    apply option_eq. intros y. rewrite <- om_elemZ by done. rewrite list_elem_of_fmap. split.
    + intros ([s' x] & [= -> ->] & Hx). rewrite decide_True; [done|]. apply Hin, list_elem_of_fmap. by exists (s', x).
    + destruct (decide (s ∈ shards)) as [Hs|]; [|done]. intros [= <-]. apply Hin, list_elem_of_fmap in Hs as ([s' x] & -> & Hx). by exists (s', x).
  - intros p Hp. apply Hrest. intros s Hs. apply Hp. by apply Hin.
  - intros s Hs. apply Hnew. by apply Hin.
Qed.

Lemma open_there file d : open_under file d → streams_there d.
Proof. intros [Hz Hget]. split; [done|]. intros s. rewrite Hget. by destruct (decide (s ∈ shards)). Qed.

(** The text of the documents of a shard. *)
Definition texts_of (s : Z) (docs : list SCDDoc) : File := concat (map print_doc (filter (λ doc, sharding st doc = Some s) docs)).

Lemma texts_of_cons s doc docs : texts_of s (doc :: docs) = (if decide (sharding st doc = Some s) then print_doc doc else []) ++ texts_of s docs.
Proof. unfold texts_of. rewrite filter_cons. by destruct (decide _). Qed.

(** Of [docs], those still to be processed after [n] others; 0 stands for no limit. *)
Definition within (docNum n : Z) (docs : list SCDDoc) : list SCDDoc := if docNum =? 0 then docs else take (Z.to_nat (docNum - n)) docs.

(** The number of processed documents is below the limit, and so is a 32-bit number. *)
Definition below (docNum n : Z) : Prop := docNum = 0 ∨ 0 ≤ n < docNum ∧ docNum < 2 ^ 32.

Definition reached (docNum n : Z) : bool := (docNum <=? n) && (0 <? docNum).

Lemma docs_ok docNum file d docs : open_under file d → (∀ doc, doc ∈ docs → ∃ uid, keyed doc uid) → ∀ (fs : FileSystem) n, below docNum n →
  (∀ s, s ∈ shards → is_Some (fs !! file_of s file)) →
  ∃ fs' n', dispatch_docs st docNum docs d fs n = Some (fs', n') ∧ (∀ p, (∀ s, s ∈ shards → p ≠ file_of s file) → fs' !! p = fs !! p) ∧
    (∀ s, s ∈ shards → fs' !! file_of s file = (λ t, t ++ texts_of s (within docNum n docs)) <$> fs !! file_of s file) ∧
    (if reached docNum n' then docNum ≤ n + Z.of_nat (length docs) else below docNum n' ∧ (docNum = 0 ∨ n' = n + Z.of_nat (length docs))).
Proof.
  intros Hopened. induction docs as [|doc docs IH]; intros Hdocs fs n Hn Hfs; cbn [dispatch_docs].
  { exists fs, n. split_and!; [done|done| |].
    - intros s Hs. destruct (Hfs s Hs) as [t ->]. unfold within, texts_of. rewrite take_nil. destruct (docNum =? 0); simpl; by rewrite app_nil_r.
    - assert (reached docNum n = false) as -> by (unfold reached; destruct Hn as [->|Hn]; [by rewrite andb_false_r|]; by rewrite (proj2 (Z.leb_gt _ _)) by lia).
      split; [done|]. right. simpl. lia. }
  destruct (Hdocs doc) as [uid Hk]; [by left|]. destruct (keyed_sharding doc uid Hk) as (s & Es & Hs & _). rewrite Es. cbn [mbind option_bind].
  unfold dispatch_impl. rewrite (ou_get _ _ Hopened), decide_True by done. cbn [mbind option_bind].
  destruct (Hfs s Hs) as [t Ht]. rewrite Ht. cbn [from_option id].
  set (fs1 := <[file_of s file := t ++ print_doc doc]> fs).
  assert (∀ p, (∀ s, s ∈ shards → p ≠ file_of s file) → fs1 !! p = fs !! p) as Hrest1.
  { intros p Hp. apply lookup_insert_ne. intros E. by apply (Hp s). }
  assert (∀ s' docs', s' ∈ shards → (λ t, t ++ texts_of s' docs') <$> fs1 !! file_of s' file = (λ t, t ++ texts_of s' (doc :: docs')) <$> fs !! file_of s' file) as Htexts.
  { intros s' docs' Hs'. rewrite texts_of_cons. unfold fs1. destruct (decide (s = s')) as [<-|Hne].
    - rewrite lookup_insert_eq, Ht, decide_True by done. simpl. by rewrite app_assoc.
    - rewrite lookup_insert_ne, decide_False; [done|congruence|]. intros E. by apply file_of_inj in E as [? _]. }
  fold (reached docNum (u32 (n + 1))). destruct (reached docNum (u32 (n + 1))) eqn:Er.
  - unfold reached in Er. apply andb_true_iff in Er as [E1%Z.leb_le E2%Z.ltb_lt]. destruct Hn as [->|Hn]; [lia|].
    unfold u32 in E1. rewrite Z.mod_small in E1 by lia. exists fs1, (u32 (n + 1)). split_and!; [done|done| |].
    + intros s' Hs'. assert (within docNum n (doc :: docs) = doc :: take 0 docs) as ->.
      { unfold within. rewrite (proj2 (Z.eqb_neq _ _)) by lia. by replace (Z.to_nat (docNum - n)) with 1%nat by lia. }
      rewrite <- Htexts by done. unfold texts_of. simpl. destruct (fs1 !! _); simpl; [|done]. by rewrite app_nil_r.
    + unfold reached, u32. rewrite Z.mod_small by lia. rewrite (proj2 (Z.leb_le _ _)), (proj2 (Z.ltb_lt _ _)) by lia. cbn [andb length]. lia.
  - assert (below docNum (u32 (n + 1)) ∧ (docNum = 0 ∨ u32 (n + 1) = n + 1 ∧ n + 1 < docNum)) as [Hn1 Hn2].
    { destruct Hn as [->|Hn]; [split; by left|]. unfold reached in Er. unfold u32 in *. rewrite Z.mod_small in * by lia.
      rewrite (proj2 (Z.ltb_lt 0 docNum)), andb_true_r in Er by lia. apply Z.leb_gt in Er. split; right; lia. }
    destruct (IH ltac:(intros; apply Hdocs; by right) fs1 (u32 (n + 1)) Hn1) as (fs' & n' & -> & Hrest & Hnew & Hn').
    { intros s' Hs'. unfold fs1. destruct (decide (file_of s file = file_of s' file)) as [E|E]; [rewrite E, lookup_insert_eq; by eexists|].
      rewrite lookup_insert_ne by done. by apply Hfs. }
    exists fs', n'. split_and!; [done|intros p Hp; by rewrite Hrest, Hrest1| |].
    + intros s' Hs'. rewrite (Hnew s' Hs'), Htexts by done. do 3 f_equal. unfold within. destruct (docNum =? 0) eqn:E0; [done|]. apply Z.eqb_neq in E0.
      destruct Hn2 as [|[-> Hn2]]; [done|]. destruct Hn as [|Hn]; [done|]. replace (Z.to_nat (docNum - n)) with (S (Z.to_nat (docNum - (n + 1)))) by lia. done.
    + cbn [length]. destruct (reached docNum n') eqn:Er'.
      * destruct Hn2 as [->|[E _]]; [by unfold reached in Er'; rewrite andb_false_r in Er'|lia].
      * destruct Hn' as [? Hn']. split; [done|]. destruct Hn2 as [->|[E _]]; [by left|]. destruct Hn' as [->|Hn']; [by left|]. right. lia.
Qed.

(** The files of the shards for the first files. *)
Definition written (fs : FileSystem) (files : list (string * list SCDDoc)) : Prop :=
  ∀ file docs s, (file, docs) ∈ files → s ∈ shards → fs !! file_of s file = Some (texts_of s docs).

Definition readable (files : list (string * list SCDDoc)) : list (string * option (list SCDDoc)) := map (λ e, (e.1, Some e.2)) files.

(** The files that are processed, with their processed documents. *)
Fixpoint processed (docNum n : Z) (files : list (string * list SCDDoc)) : list (string * list SCDDoc) :=
  match files with
  | [] => []
  | (file, docs) :: files =>
      (file, within docNum n docs) :: if reached docNum (n + Z.of_nat (length docs)) then [] else processed docNum (n + Z.of_nat (length docs)) files
  end.

Lemma processed_all n files : processed 0 n files = files.
Proof.
  revert n. induction files as [|[file docs] files IH]; intros n; [done|]. cbn [processed]. unfold reached, within. rewrite andb_false_r, IH. done.
Qed.

Lemma processed_names docNum n files : map fst (processed docNum n files) ⊆ map fst files.
Proof.
  revert n. induction files as [|[file docs] files IH]; intros n; [done|]. cbn [processed map fst]. destruct (reached _ _); [set_solver|].
  specialize (IH (n + Z.of_nat (length docs))). set_solver.
Qed.

Lemma files_ok docNum files : ∀ fs d n, below docNum n → dirs_ok d → streams_there d → NoDup (map fst files) →
  (∀ file docs doc, (file, docs) ∈ files → doc ∈ docs → ∃ uid, keyed doc uid) →
  ∃ fs' d', dispatch_files st can_open docNum (readable files) fs d n = Some (true, fs', d') ∧ shardScdfileMap_ d' = shardScdfileMap_ d ∧
    written fs' (processed docNum n files) ∧
    (∀ p, (∀ s file, s ∈ shards → file ∈ map fst (processed docNum n files) → p ≠ file_of s file) → fs' !! p = fs !! p).
Proof.
  induction files as [|[file docs] files IH]; intros fs d n Hn Hdirs Hthere Hnd Hdocs; cbn [readable map dispatch_files processed].
  { exists fs, d. split_and!; [done|done| |done]. intros file docs s Hin. by apply elem_of_nil in Hin. }
  cbn [map fst snd] in *. inversion_clear Hnd as [|?? Hnin Hnd'].
  destruct (switch_ok file fs d Hdirs Hthere) as (fs1 & d1 & -> & Hopen1 & Ed & Hrest1 & Hnew1).
  destruct (docs_ok docNum file d1 docs Hopen1) with (fs := fs1) (n := n) as (fs2 & n2 & -> & Hrest2 & Hnew2 & Hn2);
    [intros doc Hdoc; by eapply Hdocs; [left|]|done|intros s Hs; by rewrite Hnew1|]. cbn [mbind option_bind]. fold (reached docNum n2).
  assert (∀ s, s ∈ shards → fs2 !! file_of s file = Some (texts_of s (within docNum n docs))) as Hfile by (intros s Hs; by rewrite Hnew2, Hnew1).
  destruct (reached docNum n2) eqn:Er.
  - assert (reached docNum (n + Z.of_nat (length docs)) = true) as ->.
    { unfold reached in *. apply andb_true_iff in Er as [_ ->]. rewrite andb_true_r. by apply Z.leb_le. }
    exists fs2, d1. split_and!; [done|done| |].
    + intros f ds s [= -> ->]%list_elem_of_singleton Hs. by apply Hfile.
    + intros p Hp. rewrite Hrest2, Hrest1; [done| |]; intros s Hs; apply Hp; [done|by left|done|by left].
  - destruct Hn2 as [Hb Hn2]. destruct (IH fs2 d1 n2) as (fs' & d' & E & Ed' & Hw & Hrest); [done| |by eapply open_there|done| |].
    { unfold dirs_ok. by rewrite Ed. }
    { intros f ds doc Hin. eapply Hdocs. by right. }
    assert (reached docNum (n + Z.of_nat (length docs)) = false ∧ processed docNum (n + Z.of_nat (length docs)) files = processed docNum n2 files) as [-> ->].
    { destruct Hn2 as [->| <-]; [|by rewrite Er]. rewrite !processed_all. split; [apply andb_false_r|done]. }
    unfold readable in E. rewrite E. exists fs', d'. split_and!; [done|by rewrite Ed'| |].
    + intros f ds s [[= -> ->]|Hin]%elem_of_cons Hs; [|by apply Hw]. rewrite Hrest; [by apply Hfile|].
      intros s' f' Hs' Hf' Ef. apply file_of_inj in Ef as [_ ->]; [|done|done]. apply Hnin. by eapply processed_names.
    + intros p Hp. rewrite Hrest, Hrest2, Hrest1; [done| | |].
      * intros s Hs. apply Hp; [done|by left].
      * intros s Hs. apply Hp; [done|by left].
      * intros s f Hs Hf. apply Hp; [done|by right].
Qed.

(** The directories of a new dispatcher. *)
Lemma init_ok under fs : let '(_, d) := initTempDir st under tempDir fs (DispatcherOf [] []) in dirs_ok d ∧ streams_there d.
Proof.
  unfold initTempDir. set (g := λ (d : Dispatcher) s, DispatcherOf _ _).
  assert (∀ l d done0, zok (shardScdfileMap_ d) ∧ zok (ofList_ d) ∧ (∀ s, om_get Z.ltb s (shardScdfileMap_ d) = if decide (s ∈ done0) then Some (tempDir ++ shard_char s)%string else None) ∧
      (∀ s, om_get Z.ltb s (ofList_ d) ≠ None ↔ s ∈ done0) →
    let d' := fold_left g l d in zok (ofList_ d') ∧
      (∀ s, om_get Z.ltb s (shardScdfileMap_ d') = if decide (s ∈ done0 ++ l) then Some (tempDir ++ shard_char s)%string else None) ∧
      (∀ s, om_get Z.ltb s (ofList_ d') ≠ None ↔ s ∈ done0 ++ l)) as Hgen.
  { induction l as [|x l IH]; intros d done0 (H1 & H2 & H3 & H4); [rewrite app_nil_r; by split_and!|]. cbn [fold_left].
    rewrite cons_middle, app_assoc. apply IH. unfold g. cbn [shardScdfileMap_ ofList_]. split_and!; [by apply om_update_okZ|by apply om_update_okZ| |].
    - intros s. unfold insert_if_new. rewrite om_get_updateZ by done. rewrite H3. destruct (decide (x = s)) as [->|Hne].
      + rewrite (decide_True (P := s ∈ done0 ++ [s])) by set_solver. by destruct (decide (s ∈ done0)).
      + rewrite H3. destruct (decide (s ∈ done0)); [by rewrite decide_True by set_solver|by rewrite decide_False by set_solver].
    - intros s. unfold om_put. rewrite om_get_updateZ by done. destruct (decide (x = s)) as [->|Hne]; [set_solver|]. rewrite H4. set_solver. }
  destruct (Hgen shards (DispatcherOf [] []) []) as (H1 & H2 & H3).
  { split_and!; [apply om_nil_ok|apply om_nil_ok|done|]. intros s. split; [done|by intros ?%elem_of_nil]. }
  split; [|by split]. intros s Hs. rewrite H2. by rewrite decide_True.
Qed.

(** ** Sending *)

Context (net : Network) (to_dir : string).

Definition transfer_to (s : Z) : option Transfer := (λ receiver, (receiver, (tempDir ++ shard_char s)%string, to_dir)) <$> getShardReceiver net s.

(** The receiver of the shard takes its directory. *)
Definition taken (s : Z) : bool :=
  match transfer_to s with Some (receiver, dir, to) => syncSend net receiver dir to | None => false end.

Lemma send_ok d l : (∀ s, s ∈ l → om_get Z.ltb s (shardScdfileMap_ d) = Some (tempDir ++ shard_char s)%string) →
  (send_dirs net to_dir d l).1 = forallb taken l ∧ ((send_dirs net to_dir d l).1 = true → map Some (send_dirs net to_dir d l).2 = map transfer_to l).
Proof.
  induction l as [|s l IH]; intros Hd; [done|]. cbn [send_dirs forallb map].
  assert (transfer_to s = (λ receiver, (receiver, (tempDir ++ shard_char s)%string, to_dir)) <$> getShardReceiver net s) as Et by done.
  unfold taken at 1. rewrite !Et. destruct (getShardReceiver net s) as [receiver|]; [|done]. rewrite (Hd s) by by left. cbn [from_option id fmap option_fmap option_map].
  destruct (syncSend _ _ _ _); [|done]. destruct IH as [IH1 IH2]; [intros; apply Hd; by right|].
  destruct (send_dirs net to_dir d l) as [ret sent]. cbn [fst snd andb map] in *. split; [done|]. intros Hr. by rewrite IH2.
Qed.
End dispatch.

(** C23: Distributing files of documents with keys, by any strategy with the
    laws of [ShardingLaws] and when the files can be opened (shards 46 and 47
    would have the directories [.] and [/]): the file of a shard holds the
    texts of exactly its documents among the first [docNum] (all when it is
    0), in order. [dispatch] succeeds, as [finish] says, when a distributed
    file system is used or every shard has a receiver that takes its
    directory, and then these directories were sent, each to its own shard;
    otherwise it fails. A later request for the key of a document is sent to
    one worker, the shard chosen for the document. *)
Theorem dispatched_documents_found {St} {ok : St → Prop} `{Laws : ShardingLaws St ok} {Rest} worker_of_id (r : Rest) st can_open net to_dir under tempDir docNum
    (files : list (string * list SCDDoc)) fs :
  ok st → Forall (λ s, s < 46) (shardidList_ (shard_cfg st)) → (∀ p, can_open p = true) → files ≠ [] → NoDup (map fst files) → 0 ≤ docNum < 2 ^ 32 →
  (∀ file docs doc, (file, docs) ∈ files → doc ∈ docs → ∃ uid, keyed st doc uid) →
  ∃ ret fs' d sent, dispatch st can_open net to_dir under tempDir docNum (readable files) fs (DispatcherOf [] []) = Some (ret, fs', d, sent) ∧
    (∀ file docs s, (file, docs) ∈ processed docNum 0 files → s ∈ shardidList_ (shard_cfg st) → fs' !! file_of tempDir s file = Some (texts_of st s docs)) ∧
    ret = is_dfs_enabled_ net || forallb (taken tempDir net to_dir) (shardidList_ (shard_cfg st)) ∧
    (ret = true → map Some sent = if is_dfs_enabled_ net then [] else map (transfer_to tempDir net to_dir) (shardidList_ (shard_cfg st))) ∧
    (∀ file docs doc uid, (file, docs) ∈ files → doc ∈ docs → keyed st doc uid → ∃ s,
       sharding st doc = Some s ∧ s ∈ shardidList_ (shard_cfg st) ∧
       splitGetDocsActionItemByWorkerid worker_of_id st (GetDocs r [] [uid]) [] = Some (true, [(s, GetDocs r [] [uid])])).
Proof.
  intros Hok _ Hopen Hne Hnd Hnum Hdocs. unfold dispatch. destruct files as [|e files0] eqn:Ef; [done|]. rewrite <- Ef in *.
  assert (readable files = (e.1, Some e.2) :: readable files0) as -> by by rewrite Ef.
  pose proof (init_ok st Hok can_open Hopen tempDir under fs) as Hinit. destruct (initTempDir st under tempDir fs _) as [fs0 d0]. destruct Hinit as [Hdirs Hthere].
  destruct (files_ok st Hok can_open Hopen tempDir docNum files fs0 d0 0) as (fs' & d & E & Ed & Hw & _); [unfold below; lia|done|done|done|done|].
  assert (readable files = (e.1, Some e.2) :: readable files0) as Er by by rewrite Ef. rewrite <- Er in *. rewrite E. cbn [mbind option_bind].
  destruct (send_ok tempDir net to_dir d (shardidList_ (shard_cfg st))) as [Hret Hsent]; [intros s Hs; rewrite Ed; by apply Hdirs|].
  destruct (finish st net to_dir d) as [ret sent] eqn:Efin. exists ret, fs', d, sent. unfold finish in Efin.
  split_and!; [done|exact Hw|destruct (is_dfs_enabled_ net); [by injection Efin as <- <-|by rewrite <- Hret, Efin]| |].
  { intros Hr. destruct (is_dfs_enabled_ net); [by injection Efin as <- <-|]. rewrite Efin in Hsent. by apply Hsent. }
  intros file docs doc uid _ _ Hk. destruct (keyed_sharding st Hok doc uid Hk) as (s & Hs & Hin & Has). exists s.
  split_and!; [done|done|]. destruct (split_ok worker_of_id st Hok (GetDocs r [] [uid])) as (m & Em & Hm & Hget).
  { intros u ->%list_elem_of_singleton. apply Hk. }
  assert (∀ w, om_get Z.ltb w m = if decide (s = w) then Some (GetDocs r [] [uid]) else None) as Hone.
  { intros w. rewrite Hget. unfold item_for. cbn [gd_idList_ gd_docIdList_ rest]. rewrite filter_nil, filter_cons, filter_nil. rewrite Has.
    destruct (decide (s = w)) as [->|Hne']; [by rewrite decide_True|]. rewrite decide_False by congruence. done. }
  assert (m = [(s, GetDocs r [] [uid])]) as ->; [|exact Em].
  destruct m as [|[k v] m]; [specialize (Hone s); rewrite decide_True in Hone by done; discriminate|].
  destruct (om_cons_okZ (k, v) m Hm) as (Hm' & Hlt & _). pose proof (Hone k) as Hk1. cbn [om_get] in Hk1. rewrite same_key_Z, bool_decide_true in Hk1 by done.
  destruct (decide (s = k)) as [->|]; [|done]. injection Hk1 as ->. f_equal. destruct m as [|[k2 v2] m]; [done|]. exfalso.
  inversion_clear Hlt as [|?? Hlt' _]. simpl in Hlt'. specialize (Hone k2). cbn [om_get] in Hone.
  rewrite !same_key_Z, (bool_decide_false (k = k2)), (bool_decide_true (k2 = k2)), decide_False in Hone by lia. discriminate.
Qed.

(** Two documents of one file, with two shards. *)
Definition shop_shards : ShardingConfig := Config [1; 2] "DOCID" ∅ ∅.
Definition odd_keys : KeyNumbers := {| uuid_to_uint128 := λ _, 0; cast_size := λ uid, Some (if String.eqb uid "b" then 1 else 0) |}.
Definition shop_files : list (string * list SCDDoc) := [("B-1.SCD", [[("DOCID", "a"); ("Title", "tea")]; [("DOCID", "b"); ("Title", "cup")]])]%string.

(** Two receivers, and a network that carries everything. *)
Definition shop_net : Network := NetworkOf false [(1, ("h1"%string, 18121)); (2, ("h2"%string, 18121))] (λ _ _ _, true).

Lemma dispatched_documents_found_witness : ∃ fs' d,
  dispatch (H := @hash_sharding odd_keys) shop_shards (λ _, true) shop_net "in" (λ _, false) "tmp/" 0 (readable shop_files) ∅ (DispatcherOf [] []) =
    Some (true, fs', d, [(("h1", 18121), ("tmp/" ++ shard_char 1), "in"); (("h2", 18121), ("tmp/" ++ shard_char 2), "in")]%string) ∧
  fs' !! file_of "tmp/" 2 "B-1.SCD" = Some (print_doc [("DOCID", "b"); ("Title", "cup")]%string).
Proof.
  destruct (@dispatched_documents_found ShardingConfig shards_ok (@hash_sharding odd_keys) (@hash_laws odd_keys) unit (λ _, 0) tt shop_shards (λ _, true)
    shop_net "in" (λ _, false) "tmp/" 0 shop_files ∅) as (ret & fs' & d & sent & E & Hw & Hret & Hsent & _).
  - split; [discriminate|]. by repeat constructor.
  - by repeat constructor.
  - done.
  - discriminate.
  - by apply (bool_decide_unpack _).
  - done.
  - intros file docs doc [= -> ->]%list_elem_of_singleton [->|[->|Hn]%elem_of_cons]%elem_of_cons; [by exists "a"%string|by exists "b"%string|].
    by apply elem_of_nil in Hn.
  - exists fs', d. assert (ret = true) as -> by (rewrite Hret; by vm_compute). specialize (Hsent eq_refl). split.
    + rewrite E. do 3 f_equal. destruct sent as [|t1 [|t2 [|t3 sent]]]; [discriminate|discriminate| |discriminate]. injection Hsent as -> ->. reflexivity.
    + rewrite (Hw "B-1.SCD"%string [[("DOCID", "a"); ("Title", "tea")]; [("DOCID", "b"); ("Title", "cup")]]%string 2 ltac:(by left) ltac:(by right; left)). by vm_compute.
Defined.
